(* ===== verification/_CoqProject ===== *)
-Q . S2P
Prelude.v
FatPtr.v
Futex.v
RwLock.v
ZeroTerm.v
Alloc.v
Region.v
RegionSafety.v
Frames.v
DynRegion.v
Hashtable.v
HashtableSpec.v
XTree.v
XTreeSpec.v
Spawn.v
SpawnSpec.v
Words.v
CycList.v
ListCells.v
WordMem.v
TempRegion.v
CycListSpec.v
ListSort.v
ListConv.v
CycSet.v
CycSetSpec.v
SetRefine.v
CycDict.v
CycBitvec.v
BitvecSpec.v
BitvecRefine.v
BitvecAlloc.v
CycQueue.v
QueueSpec.v
QueueRefine.v
DictTree.v
DictSpec.v
DictRefine.v
DictIter.v
CycSplay.v
CycSlowDict.v
SplaySpec.v
SplayRefine.v
SlowDictSpec.v
SlowDictRefine.v
SlowDictIter.v
CycBytes.v
ByteMem.v
CycXP.v
XPSpec.v
XPMul.v
XPDivSpec.v
XPString.v
XPBits.v
CycAP.v
APSpec.v
APArith.v
APDiv.v
APPow.v
APRefine.v
APString.v
CycAPQ.v
APQSpec.v
APQRefine.v
CycArray.v
ArrayMem.v
ArraySort.v
ArrayRefine.v
CycHashtable.v
HtableSpec.v
HtableOps.v
HtableRefine.v
CycPratt.v
PrattSpec.v
PrattRefine.v
CycRelations.v
RelationsSpec.v
RelationsCheck.v
RelationsRefine.v
