(* ===== verification/Prelude.v ===== *)
(** * The run-time system and core libraries of concurrent Cyclone: a verification development

    ** The program

    Cyclone is a safe dialect of C.  Its compiler (src/*.cyc, bootstrapped from
    src/bin/genfiles/*.c) translates to C that calls a hand-written run-time
    system, src/lib/*.c and src/lib/cyc_include.h.  This version adds extended
    regions shared between threads and protected by reader/writer locks.  The
    development models, for the i686 configuration (32-bit words, threads,
    assertions on, no region profiling), the run-time system, the container and
    number libraries in which the compiler itself keeps its data, and the part of
    the compiler that decides which bounds checks can be left out.  The parts and
    how they interact:

    - Inline checks (cyc_include.h): every access of a Cyclone program to an
      array goes through a checking macro on a fat pointer; a failed check
      throws.
    - Zero-terminated arrays (runtime_zeroterm.c): pointer arithmetic on them.
    - Allocation (runtime_memory.c): a bounded interface to the collector, on
      which lexical regions, extended regions, unique and reference-counted
      pointers and dynamic regions are built.
    - Frames and exceptions (runtime_stack.c, runtime_exception.c): handlers
      and regions of a thread form one stack; throwing unwinds it and frees the
      regions it pops.
    - The futex mutex (runtime_lowlevel.c) protects a shared region; the
      reader/writer lock of a region (__xregion_lockop) is built on it.
    - The tree of extended regions (runtime_memory.c): every thread finds its
      handle of a region in a thread-local hash table; locking, unlocking and
      releasing a region extend to its descendants.
    - Thread creation (runtime_stack.c): _xspawn merges the capabilities passed
      to a new thread, copies the handles and moves the counts to them.
    - The container libraries, compiled Cyclone code in bin/genfiles/ that
      allocates in regions: lists (list.c), sets (set.c), dictionaries (dict.c),
      bit vectors (bitvec.c), queues (queue.c), splay trees and dictionaries of
      them (splay.c, slowdict.c), hash tables (hashtable.c) and arrays (array.c).
      Dictionaries, queues and hash tables keep lists and pairs; array.c and
      list.c convert to each other.
    - The number libraries: multiple-precision digits (xp.c), arbitrary-precision
      integers made of them (ap.c) and rationals made of those (apq.c), with the
      memory operations that move their bytes (string.c).
    - The flow analysis of the compiler keeps lists of relations between
      variables and constants (relations-ap.c) and decides implications between
      them with a solver for difference constraints (pratt-ap.c) on
      arbitrary-precision distances.  A check is left out when it is implied.

    ** The files

    - Prelude.v: machine integers, outcomes ([out]: a value, an exception, the
      end of the process, undefined behaviour, a blocked thread), the state
      monad [ST], alignment, shared lemmas and tactics.
    - FatPtr.v: the checking macros, one definition per macro, with wrap-around.
    - Futex.v: futex_wait, futex_wake and simple_futex_wait with the results of
      the system call as inputs; wait_lock and unlock as a transition system
      [lock_step] whose steps are the atomic accesses of the code.
    - RwLock.v: the critical section of __xregion_lockop ([lockop_section] and
      its parts) and the interleaving of any number of threads on one region.
    - ZeroTerm.v: the seven copies of each function of runtime_zeroterm.c, which
      differ in the element type, as one definition with the element size.
    - Alloc.v: the collector as the class [Heap] with its laws [HeapLaws]
      (documented behaviour of GC_malloc, GC_malloc_atomic and GC_free), the
      functions of nogc.c and the concrete instance [bump].
    - Region.v: handles, pages, region allocation, unique and reference-counted
      pointers on the state [mem]; RegionSafety.v: the arenas that describe such
      a state and the theorems about allocation.
    - Frames.v: the frame stack and exceptions of a thread.
    - DynRegion.v: keys of dynamic regions.
    - Hashtable.v, HashtableSpec.v: the resizing, caching hash table of region
      handles and its refinement of a finite map.
    - XTree.v, XTreeSpec.v: creating, locking, counting and releasing region
      trees, on the states of Region.v and Hashtable.v.
    - Spawn.v, SpawnSpec.v: creating a thread and moving capabilities to it.
    - Words.v: loops, word accesses, total weakest preconditions [wp], and what
      region allocation promises to compiled code ([heap_ok], [at_words]).
    - CycList.v: list.c; ListCells.v: lists in word memory; CycListSpec.v,
      ListSort.v, ListConv.v: mapping and reversal, sorting, conversions.
    - WordMem.v: the interface [WordMem] of memory to the libraries, parts of
      memory that stay as they are, and arrays; TempRegion.v: words inside and
      outside of a region that lives during a block.
    - CycSet.v: set.c; CycSetSpec.v, SetRefine.v: its refinement of sets.
    - CycDict.v: dict.c; DictTree.v: red-black trees as values; DictSpec.v,
      DictRefine.v, DictIter.v: the code computes on trees in memory what
      DictTree.v computes on values, its refinement of finite maps, iterators.
    - CycBitvec.v: bitvec.c; BitvecSpec.v, BitvecRefine.v, BitvecAlloc.v: bit
      vectors as finite sets of numbers, in place and new ones.
    - CycQueue.v: queue.c; QueueSpec.v, QueueRefine.v: queues as lists.
    - CycSplay.v, CycSlowDict.v: splay.c, slowdict.c; SplaySpec.v, SplayRefine.v:
      trees as linked objects, rotations and splaying; SlowDictSpec.v,
      SlowDictRefine.v, SlowDictIter.v: dictionaries of splay trees.
    - CycBytes.v, ByteMem.v: bytes, and the memory operations of string.c.
    - CycXP.v: xp.c; XPSpec.v, XPMul.v, XPDivSpec.v, XPString.v, XPBits.v: digits
      as numbers, sums, products, long division, strings, shifts and logic.
    - CycAP.v: ap.c; APSpec.v, APArith.v, APDiv.v, APPow.v, APRefine.v, APString.v:
      integers as signed digits, and programs on them as programs on [Z].
    - CycAPQ.v: apq.c; APQSpec.v, APQRefine.v: fractions and the field [Qc].
    - CycArray.v: array.c; ArrayMem.v: exchanges in lists, rules for arrays;
      ArraySort.v: quick sort and merge sort; ArrayRefine.v: programs on pools of
      arrays.
    - CycHashtable.v: hashtable.c; HtableSpec.v, HtableOps.v, HtableRefine.v:
      chains and buckets in memory, the operations, stacks of bindings.
    - CycPratt.v: pratt-ap.c; PrattSpec.v, PrattRefine.v: shortest distances, the
      closure of a graph of constraints under one more edge.
    - CycRelations.v: relations-ap.c; RelationsSpec.v, RelationsCheck.v,
      RelationsRefine.v: relations as sets of valuations, consistency,
      implication, joins and assignments.

    ** What the theorems show

    - Mutual exclusion and absence of lost wake-ups of the futex mutex; the
      reader/writer discipline of region locks in every interleaving, and that
      the critical section refines an abstract reader/writer lock, for requests
      that do not ask for write and read counts at once.
    - Memory safety of region programs with requests of up to 2^28 bytes: objects
      are aligned, disjoint and inside live blocks, and no block is lost; freeing
      releases exactly the pages of the region; the inlined fast path is
      equivalent to the full allocator on lexical regions; reference counts are
      exact; a dynamic region leaves the live blocks as it found them.
    - Checked accesses stay inside their arrays; size computations either give
      the exact product or throw.
    - The frame stack refines a list of frames with the live blocks of the heap:
      a pop or a throw releases exactly the pages of the regions it pops.
    - The hash table refines a finite map with a size class, with or without
      memory for another table; locking a region tree is locking its regions in
      post-order, and a thread that owns the tree and keeps a write count never
      waits.
    - The capabilities passed to a new thread are added up per region, and its
      block has room for them.
    - List sorting is correct for every total comparison; reversal and array
      conversion are round trips; sets refine sets of keys and dictionaries
      refine partial maps, keep the red-black type and enumerate completely.
    - Programs on bit vectors refine finite sets, on queues lists, on
      dictionaries of splay trees maps, on hash tables stacks of values for each
      key, on pools of arrays lists; each theorem says which exceptions there are
      and that the rest of the memory is as it was.
    - The quick sort sorts in place and its fixed stack suffices up to a stated
      size; what the merge sort leaves is described exactly.
    - Digit arithmetic is exact, long division included; programs on
      arbitrary-precision integers and rationals refine those on [Z] and [Qc];
      printing and reading a number is a round trip.
    - The constraint solver keeps exactly the shortest distances and refuses
      exactly the sets without a solution; the implication test of the flow
      analysis is sound and, on reduced operands, complete over the integers, for
      constants below 2^31 - 1.
    - Where a comment or header file of the repository promises something else
      than the code does, the specification has the behaviour of the code, says
      so, and the difference is listed as a finding: the exception of
      [Cyc_Dict_insert_new], the comparison of bit vectors of different lengths,
      the extraction of no element of an array, an insertion without memory for a
      larger hash table, the order in which a region tree is locked, and the sign
      of large constants in relations.
    - Counterexamples, proved by evaluation of the model: the behaviours listed
      as findings (for instance, [Cyc_Dict_intersect_c] builds a tree over which
      an iterator leaves its stack, and [_xspawn] loses a write lock passed to
      the new thread).

    ** Bounds and fuel

    Loops over linked structures take their fuel from the state: the number of
    words, entries or pages it holds.  An acyclic structure visits no element
    twice, so the fuel is enough, and every theorem shows termination with a
    result: [wp] is total, running out of fuel is [Undef], and no theorem assumes
    that a call returns.  On a cyclic structure the code would not terminate and
    the model gives [Undef].  Integers are [Z] wrapped to their width where the
    code stores or compares them ([u32], [i32], [u16]).

    Loops over the digits of a number take their fuel from the number of digits:
    [n] for one pass, [8 n] for the digits of a string, [16 n] and a constant for
    Euclid's algorithm; loops over arrays and tables from the number of elements,
    the quick sort [2 n + 2] rounds; scans of strings from the size of the
    memory.  Lists of edges and relations are values, so their loops are
    structural.

    ** What is not modelled

    The collector, libsigsegv, malloc, bget and the atomic operations are
    vendored: the collector is the parameter [Heap], the others are not part of
    the core logic.  The start routine of a thread runs user code.  Context
    switches, signals, system calls (futex, mmap, pthread_create) appear as inputs
    or not at all; printing of messages is left out, and with it the functions
    whose work is formatted printing ([Cyc_APQ_tostr], [print_table_map], the
    printing of graphs and relations).  The contents of objects are words in
    Words.v, bytes in ByteMem.v, and are not part of the state in Region.v.  The
    profiling variants are not compiled in the modelled configuration.  A function
    pointer is a Rocq function or, where the code stores it in memory, a word
    interpreted by a parameter.  setjmp and longjmp are the address of the handler
    that [_throw_fn] returns.

    Of the compiler only the solver and the relations are modelled.  The parser,
    the type checker, the inference of capabilities and the translation to C work
    on the abstract syntax of the language.  Of that syntax CycRelations.v has
    what [Cyc_Relations_exp2relnop] looks at; the functions of other files it
    calls are the parameter [Absyn], and the comparison of types is a parameter
    with stated laws.  The functions of relations-ap.c that collect relations from
    conditions and assignments are left out.  Formatted printing, the string
    functions besides the memory operations, growing arrays and buffers are the
    library code that is left. *)

From stdpp Require Export base tactics numbers list gmap strings.
From Stdlib Require Export ZArith Lia.
Open Scope Z_scope.

(** ** Machine integers of the i686 target *)

Definition u8 (x : Z) : Z := x mod 256.

Definition u16 (x : Z) : Z := x mod 65536.

Definition i16 (x : Z) : Z := (x + 32768) mod 65536 - 32768.

Definition u32 (x : Z) : Z := x mod 4294967296.

Definition i32 (x : Z) : Z := (x + 2147483648) mod 4294967296 - 2147483648.

Definition INT_MAX : Z := 2147483647.

(** Unfolds the width wrappers and closes the goal by linear arithmetic with
    the Euclidean equations of every [mod] and [/] in sight. *)
Ltac words :=
  unfold u8, u16, i16, u32, i32, INT_MAX in *;
  Z.to_euclidean_division_equations; lia.

Lemma u32_small (x : Z) : 0 <= x < 4294967296 -> u32 x = x.
Proof. apply Z.mod_small. Qed.

Lemma u32_range (x : Z) : 0 <= u32 x < 4294967296.
Proof. apply Z.mod_pos_bound; lia. Qed.

Lemma u32_u32 (x : Z) : u32 (u32 x) = u32 x.
Proof. apply u32_small, u32_range. Qed.

Lemma i32_small (x : Z) : -2147483648 <= x < 2147483648 -> i32 x = x.
Proof. words. Qed.

Lemma i16_small (x : Z) : -32768 <= x < 32768 -> i16 x = x.
Proof. words. Qed.

Lemma u16_small (x : Z) : 0 <= x < 65536 -> u16 x = x.
Proof. apply Z.mod_small. Qed.

(** Two words that differ by less than the modulus are equal when congruent. *)
Lemma u32_eq_near (x y : Z) : u32 x = u32 y -> -4294967296 < x - y < 4294967296 ->
  x = y \/ x = y + 4294967296 \/ x = y - 4294967296.
Proof. words. Qed.

Lemma u32_sub_l a b : u32 (u32 a - b) = u32 (a - b).
Proof. unfold u32. by rewrite Zminus_mod_idemp_l. Qed.
Lemma u32_sub_r a b : u32 (a - u32 b) = u32 (a - b).
Proof. unfold u32. by rewrite Zminus_mod_idemp_r. Qed.
Lemma u32_add_l a b : u32 (u32 a + b) = u32 (a + b).
Proof. unfold u32. by rewrite Zplus_mod_idemp_l. Qed.
Lemma u32_sub_u32 a b : u32 (u32 a - u32 b) = u32 (a - b).
Proof. by rewrite u32_sub_l, u32_sub_r. Qed.

(** ** Outcomes of run-time code *)

(** The exceptions of runtime_exception.c: the five the run-time system itself
    throws, and any other extensible-union tag thrown by Cyclone code. *)
Inductive exn : Type :=
| Cyc_Null_Exception
| Cyc_Array_bounds
| Cyc_Match_Exception
| Cyc_Bad_alloc
| Cyc_Stack_overflow
| Cyc_Other_exn (tag : string).

#[export] Instance exn_eq_dec : EqDecision exn.
Proof. solve_decision. Defined.

(** A call returns a value, throws (with the file and line the throw macros
    record), terminates the process ([errquit], a failed [assert], [err]), has
    undefined behaviour (a null, dangling or out-of-range access, a free of
    something that is not allocated), or finds the lock it needs taken and
    sleeps. *)
Inductive out (A : Type) : Type :=
| Ret (a : A)
| Thrown (e : exn) (file : string) (line : Z)
| Exit (msg : string)
| Undef
| Blocked.
Arguments Ret {A} _.
Arguments Thrown {A} _ _ _.
Arguments Exit {A} _.
Arguments Undef {A}.
Arguments Blocked {A}.

#[export] Instance out_ret : MRet out := @Ret.

#[export] Instance out_bind : MBind out := fun A B f m =>
  match m with
  | Ret a => f a
  | Thrown e fl ln => Thrown e fl ln
  | Exit s => Exit s
  | Undef => Undef
  | Blocked => Blocked
  end.

(** Stateful code: the state is kept on every outcome, because the effects of
    a call that throws are visible to the handler. *)
Definition ST (S A : Type) : Type := S -> out A * S.

#[export] Instance st_ret {S} : MRet (ST S) := fun A a s => (Ret a, s).

#[export] Instance st_bind {S} : MBind (ST S) := fun A B f m s =>
  match m s with
  | (Ret a, s') => f a s'
  | (Thrown e fl ln, s') => (Thrown e fl ln, s')
  | (Exit msg, s') => (Exit msg, s')
  | (Undef, s') => (Undef, s')
  | (Blocked, s') => (Blocked, s')
  end.

Definition get {S} : ST S S := fun s => (Ret s, s).

Definition put {S} (s : S) : ST S unit := fun _ => (Ret tt, s).

Definition modify {S} (f : S -> S) : ST S unit := fun s => (Ret tt, f s).

Definition lift {S A} (o : out A) : ST S A := fun s => (o, s).

(** [assert(X)] of runtime_internal.h: [errquit] when the test fails. *)
Definition cassert (b : bool) (msg : string) : out unit :=
  if b then Ret tt else Exit msg.

(** A read through a pointer of a typed store. *)
Definition load {V} (m : gmap Z V) (p : Z) : out V :=
  match m !! p with Some v => Ret v | None => Undef end.

(** A map has at least as many entries as there are distinct keys in it. *)
Lemma nodup_size (w : gmap Z Z) (ps : list Z) : NoDup ps -> (forall q, q ∈ ps -> is_Some (w !! q)) ->
  (length ps <= size w)%nat.
Proof.
  intros Hnd Hps. rewrite <- size_dom, <- (size_list_to_set (C:=gset Z) _ Hnd). apply subseteq_size.
  intros q. rewrite elem_of_list_to_set, elem_of_dom. apply Hps.
Qed.

Lemma out_bind_Ret {A B} (m : out A) (f : A -> out B) (b : B) :
  (m ≫= f) = Ret b <-> exists a, m = Ret a /\ f a = Ret b.
Proof. destruct m; split; naive_solver. Qed.

Lemma st_bind_Ret {S A B} (m : ST S A) (f : A -> ST S B) s b s' :
  (m ≫= f) s = (Ret b, s') <->
  exists a s1, m s = (Ret a, s1) /\ f a s1 = (Ret b, s').
Proof. unfold mbind, st_bind. destruct (m s) as [[] ?]; split; naive_solver. Qed.

(** Running the first computation of a sequence. *)
Lemma st_bind_run {S A B} (m : ST S A) (f : A -> ST S B) s a s' :
  m s = (Ret a, s') -> (m ≫= f) s = f a s'.
Proof. intros Hm. unfold mbind, st_bind. by rewrite Hm. Qed.

Ltac run_step H := rewrite (st_bind_run _ _ _ _ _ H); cbv beta.

Lemma load_Ret {V} (m : gmap Z V) p v : load m p = Ret v <-> m !! p = Some v.
Proof. unfold load. destruct (m !! p); split; congruence. Qed.

(** ** Alignment *)

(** [(s + _CYC_MIN_ALIGNMENT - 1) & (~(_CYC_MIN_ALIGNMENT - 1))] on 32-bit
    unsigned words, with [_CYC_MIN_ALIGNMENT = sizeof(double) = 8]. *)
Definition _CYC_MIN_ALIGNMENT : Z := 8.

Definition round_up (s : Z) : Z :=
  Z.land (u32 (s + _CYC_MIN_ALIGNMENT - 1)) (u32 (Z.lnot (_CYC_MIN_ALIGNMENT - 1))).

Lemma land_mask8 (x : Z) : 0 <= x < 4294967296 ->
  Z.land x 4294967288 = x - x mod 8.
Proof.
  intros Hx.
  assert (Hm : Z.land x 4294967288 = Z.ldiff x (Z.ones 3)).
  { apply Z.bits_inj'. intros n Hn. rewrite Z.land_spec, Z.ldiff_spec.
    destruct (decide (n < 32)) as [Hlt|Hge].
    - f_equal. change 4294967288 with (Z.ldiff (Z.ones 32) (Z.ones 3)).
      rewrite Z.ldiff_spec, (Z.ones_spec_low 32) by lia. done.
    - assert (Z.testbit x n = false) as ->; [|done].
      destruct (decide (x = 0)) as [->|]; [apply Z.testbit_0_l|].
      apply Z.bits_above_log2; [lia|].
      assert (Z.log2 x < 32); [|lia]. apply Z.log2_lt_pow2; lia. }
  rewrite Hm, Z.ldiff_ones_r by lia.
  rewrite Z.shiftl_mul_pow2, Z.shiftr_div_pow2 by lia.
  change (2 ^ 3) with 8. pose proof (Z.div_mod x 8). lia.
Qed.

Lemma round_up_eq (s : Z) : 0 <= s -> s + 7 < 4294967296 ->
  round_up s = s + (- s) mod 8.
Proof.
  intros. unfold round_up, _CYC_MIN_ALIGNMENT.
  change (u32 (Z.lnot (8 - 1))) with 4294967288.
  rewrite (u32_small (s + 8 - 1)), land_mask8 by lia. words.
Qed.

(** The rounded size is the least multiple of the alignment that fits [s]. *)
Lemma round_up_spec (s : Z) : 0 <= s -> s + 7 < 4294967296 ->
  round_up s mod 8 = 0 /\ s <= round_up s < s + 8.
Proof. intros. rewrite round_up_eq by done. words. Qed.

Create HintDb cyc.
#[export] Hint Resolve u32_range u32_small : cyc.
