(* ===== verification/FatPtr.v ===== *)
(** * Fat pointers and the inline run-time checks

    Models the checking macros of lib/cyc_include.h that the translator puts
    around every dereference, and [_fat_ptr_decrease_size] of
    lib/runtime_zeroterm.c.  Pointers are 32-bit words, so every address
    computation wraps; element sizes are [sizeof] constants (unsigned), so the
    product of a size and an index wraps as well. *)

From S2P Require Import Prelude.

(** ** Data *)

Record fat_ptr : Type := mk_fat {
  curr : Z;
  base : Z;
  last_plus_one : Z
}.

#[export] Instance fat_ptr_eq_dec : EqDecision fat_ptr.
Proof. solve_decision. Defined.

(** ** Operations *)

Definition _check_null (ptr : Z) (file : string) (line : Z) : out Z :=
  if ptr =? 0 then Thrown Cyc_Null_Exception file line else Ret ptr.

Definition _check_known_subscript_notnull (ptr bound elt_sz index : Z)
    (file : string) (line : Z) : out Z :=
  let _cks_index := u32 index in
  if bound <=? _cks_index then Thrown Cyc_Array_bounds file line
  else Ret (u32 (ptr + elt_sz * _cks_index)).

Definition _check_known_subscript_null (ptr bound elt_sz index : Z)
    (file : string) (line : Z) : out Z :=
  let _cks_index := u32 index in
  if ptr =? 0 then Thrown Cyc_Null_Exception file line
  else if bound <=? _cks_index then Thrown Cyc_Array_bounds file line
  else Ret (u32 (ptr + elt_sz * _cks_index)).

Definition _check_fat_subscript (arr : fat_ptr) (elt_sz index : Z)
    (file : string) (line : Z) : out Z :=
  let _cus_ans := u32 (curr arr + elt_sz * index) in
  if (_cus_ans <? base arr) || (last_plus_one arr <=? _cus_ans)
  then Thrown Cyc_Array_bounds file line
  else Ret _cus_ans.

Definition _untag_fat_ptr (arr : fat_ptr) (elt_sz num_elts : Z)
    (file : string) (line : Z) : out Z :=
  let _curr := curr arr in
  if ((_curr <? base arr) ||
      (last_plus_one arr <? u32 (_curr + elt_sz * num_elts))) &&
     negb (_curr =? 0)
  then Thrown Cyc_Array_bounds file line
  else Ret _curr.

Definition _tag_fat (tcurr elt_sz num_elts : Z) : fat_ptr :=
  let _num_elts := u32 num_elts in
  mk_fat tcurr tcurr
    (if tcurr =? 0 then 0 else u32 (tcurr + elt_sz * _num_elts)).

Definition _get_fat_size (arr : fat_ptr) (elt_sz : Z) : Z :=
  if (curr arr <? base arr) || (last_plus_one arr <=? curr arr) then 0
  else u32 (last_plus_one arr - curr arr) / elt_sz.

Definition _fat_ptr_plus (arr : fat_ptr) (elt_sz change : Z) : fat_ptr :=
  mk_fat (u32 (curr arr + elt_sz * i32 change)) (base arr) (last_plus_one arr).

(** The in-place forms update the fat pointer stored at [arr_ptr]. *)
Definition _fat_ptr_inplace_plus (arr_ptr elt_sz change : Z)
    : ST (gmap Z fat_ptr) fat_ptr :=
  m ← get;
  a ← lift (load m arr_ptr);
  let a' := mk_fat (u32 (curr a + elt_sz * change)) (base a) (last_plus_one a) in
  put (<[arr_ptr := a']> m);;
  mret a'.

Definition _fat_ptr_inplace_plus_post (arr_ptr elt_sz change : Z)
    : ST (gmap Z fat_ptr) fat_ptr :=
  m ← get;
  a ← lift (load m arr_ptr);
  let a' := mk_fat (u32 (curr a + elt_sz * change)) (base a) (last_plus_one a) in
  put (<[arr_ptr := a']> m);;
  mret a.

Definition _fat_ptr_decrease_size (x : fat_ptr) (sz numelts : Z) : fat_ptr :=
  let delta := u32 (sz * numelts) in
  if delta <=? u32 (last_plus_one x - base x)
  then mk_fat (curr x) (base x) (last_plus_one x - delta)
  else mk_fat (curr x) (base x) (base x).

Definition MAX_MALLOC_SIZE : Z := 268435456.

Definition _check_times (x y : Z) (file : string) (line : Z) : out Z :=
  let whole_ans := x * y in
  let word_ans := u32 whole_ans in
  if (word_ans <? whole_ans) || (MAX_MALLOC_SIZE <? word_ans)
  then Thrown Cyc_Bad_alloc file line
  else Ret word_ans.

(** ** Well-formed fat pointers

    [base] and [last_plus_one] delimit a whole number of elements, and [curr]
    is some number of elements away from [base], modulo the word size. *)
Definition fat_wf (elt : Z) (f : fat_ptr) : Prop :=
  0 <= base f <= last_plus_one f /\ last_plus_one f < 4294967296 /\
  (elt | last_plus_one f - base f) /\
  exists k, curr f = u32 (base f + elt * k).

(** ** Lemmas *)

Lemma u32_elt_step (c elt k : Z) : u32 (u32 c + elt * k) = u32 (c + elt * k).
Proof. unfold u32. rewrite Zplus_mod_idemp_l. done. Qed.

Lemma u32_mul_idemp (c e k : Z) : u32 (c + e * u32 k) = u32 (c + e * k).
Proof.
  unfold u32. rewrite Zplus_mod, (Zmult_mod e), Zmod_mod, <- Zmult_mod, <- Zplus_mod. done.
Qed.

Lemma u32_mul_i32 (c e k : Z) : u32 (c + e * i32 k) = u32 (c + e * k).
Proof.
  assert (exists q, i32 k = k + q * 4294967296) as [q ->].
  { exists (- ((k + 2147483648) / 4294967296)). unfold i32. rewrite Z.mod_eq by lia. lia. }
  unfold u32. replace (c + e * (k + q * 4294967296)) with (c + e * k + e * q * 4294967296) by lia.
  by rewrite Z_mod_plus_full.
Qed.

Lemma check_fat_subscript_Ret arr e i fl ln a :
  _check_fat_subscript arr e i fl ln = Ret a <->
  a = u32 (curr arr + e * i) /\ base arr <= a < last_plus_one arr.
Proof.
  unfold _check_fat_subscript. destruct (_ <? _) eqn:E1, (_ <=? _) eqn:E2; simpl;
    split; naive_solver lia.
Qed.

(** An element address reached from a well-formed pointer is a whole number of
    elements above [base], when the element size divides the word modulus. *)
Lemma elt_divides_offset elt f i :
  fat_wf elt f -> (elt | 4294967296) -> 
  (elt | u32 (curr f + elt * i) - base f).
Proof.
  intros (_ & _ & _ & k & ->) Hd. rewrite u32_elt_step. unfold u32.
  rewrite Z.mod_eq by lia.
  replace (_ - _ - base f)
    with (elt * (k + i) - 4294967296 * ((base f + elt * k + elt * i) / 4294967296)) by lia.
  apply Z.divide_sub_r; [apply Z.divide_factor_l|by apply Z.divide_mul_l].
Qed.

Lemma divide_gap elt x n : 0 < elt -> (elt | x) -> (elt | n) -> x < n -> x + elt <= n.
Proof.
  intros He [a ->] [b ->] Hlt.
  assert (a < b) by (apply (Z.mul_lt_mono_pos_r elt); lia).
  assert (a * elt + elt = (a + 1) * elt) as -> by lia.
  apply Z.mul_le_mono_nonneg_r; lia.
Qed.

Lemma fat_ptr_plus_wf elt f c : fat_wf elt f -> fat_wf elt (_fat_ptr_plus f elt c).
Proof.
  intros (H1 & H2 & H3 & k & Hk). repeat split; simpl; try (done || lia).
  exists (k + i32 c). rewrite Hk, u32_elt_step. f_equal. lia.
Qed.

Lemma tag_fat_wf elt p n : 0 < elt -> 0 < p -> 0 <= n < 4294967296 -> p + elt * n < 4294967296 ->
  fat_wf elt (_tag_fat p elt n).
Proof.
  intros. unfold _tag_fat. rewrite (u32_small n) by lia.
  destruct (p =? 0) eqn:E; [lia|]. unfold fat_wf; simpl. rewrite u32_small by nia.
  split_and!; try nia.
  - exists n. lia.
  - exists 0. rewrite u32_small; nia.
Qed.

(** ** Properties *)

(** C9. Memory safety of the fat-pointer check: for element sizes that divide
    the 32-bit word modulus, whenever [_check_fat_subscript] lets an access
    through, the whole element lies between [base] and [last_plus_one], however
    far the index or earlier pointer arithmetic wrapped around. *)
Theorem check_fat_subscript_safe (elt i ln a : Z) (f : fat_ptr) (fl : string) :
  0 < elt -> (elt | 4294967296) -> fat_wf elt f ->
  _check_fat_subscript f elt i fl ln = Ret a ->
  base f <= a /\ a + elt <= last_plus_one f.
Proof.
  intros He Hd Hwf [Ha Hb]%check_fat_subscript_Ret.
  pose proof (elt_divides_offset elt f i Hwf Hd) as Hx. rewrite <- Ha in Hx.
  destruct Hwf as (_ & _ & Hl & _). split; [lia|].
  pose proof (divide_gap elt (a - base f) (last_plus_one f - base f) He Hx Hl). lia.
Qed.

Lemma check_fat_subscript_safe_witness :
  base (mk_fat 1000 1000 1032) <= 1024 /\ 1024 + 8 <= last_plus_one (mk_fat 1000 1000 1032).
Proof.
  apply (check_fat_subscript_safe 8 3 1 1024 (mk_fat 1000 1000 1032) "f.cyc");
    [lia|by exists 536870912| |reflexivity].
  unfold fat_wf; simpl. split_and!; try lia; [by exists 4|by exists 0].
Defined.

(** The accesses allowed through a freshly tagged pointer are exactly its
    elements: for an element size dividing the word modulus, a check at any
    index succeeds with address [a] if and only if [a] is the address of one of
    the [n] elements and the index denotes it modulo the word size. *)
Theorem tag_fat_subscript_exact (p elt n i ln a : Z) (fl : string) :
  0 < elt -> (elt | 4294967296) -> 0 < p -> 0 <= n -> p + elt * n < 4294967296 ->
  _check_fat_subscript (_tag_fat p elt n) elt i fl ln = Ret a <->
  exists j, 0 <= j < n /\ a = p + elt * j /\ u32 (elt * i) = elt * j.
Proof.
  intros He Hd Hp Hn Hend.
  assert (Hwf : fat_wf elt (_tag_fat p elt n)) by (apply tag_fat_wf; nia).
  rewrite check_fat_subscript_Ret.
  assert (Hl : last_plus_one (_tag_fat p elt n) = p + elt * n).
  { unfold _tag_fat; simpl. destruct (p =? 0) eqn:E; [lia|].
    rewrite (u32_small n), u32_small; nia. }
  rewrite Hl. change (curr (_tag_fat p elt n)) with p. change (base (_tag_fat p elt n)) with p.
  split.
  - intros [Ha Hb]. pose proof (elt_divides_offset elt _ i Hwf Hd) as [j Hj].
    change (curr (_tag_fat p elt n)) with p in Hj. change (base (_tag_fat p elt n)) with p in Hj.
    exists j. rewrite <- Ha in Hj. split; [nia|]. split; [lia|]. 
    rewrite Ha in Hj. pose proof (u32_range (elt * i)).
    assert (u32 (p + elt * i) = u32 (p + u32 (elt * i))) as Hm
      by (unfold u32; rewrite Zplus_mod_idemp_r; done).
    assert (u32 (elt * i) = elt * j \/ u32 (elt * i) <> elt * j) as [?|Hne] by lia; [done|].
    destruct (decide (p + u32 (elt * i) < 4294967296)).
    + rewrite (u32_small (p + u32 _)) in Hm by lia. lia.
    + assert (u32 (p + u32 (elt * i)) = p + u32 (elt * i) - 4294967296) as Hw by words. lia.
  - intros (j & Hj & -> & Hi).
    assert (u32 (p + elt * i) = u32 (p + u32 (elt * i))) as ->
      by (unfold u32; rewrite Zplus_mod_idemp_r; done).
    rewrite Hi, u32_small; nia.
Qed.

Lemma tag_fat_subscript_exact_witness :
  _check_fat_subscript (_tag_fat 1000 4 3) 4 2 "f.cyc" 1 = Ret 1008 <->
  exists j, 0 <= j < 3 /\ 1008 = 1000 + 4 * j /\ u32 (4 * 2) = 4 * j.
Proof.
  apply (tag_fat_subscript_exact 1000 4 3 2 1 1008 "f.cyc"); try lia. by exists 1073741824.
Defined.

(** The divisibility hypothesis of the safety theorem is needed: with
    12-byte elements the product of size and index can wrap to an offset that
    is inside the array but not a multiple of 12, and the check then admits an
    element that extends beyond [last_plus_one]. *)
Theorem check_fat_subscript_straddles :
  exists (f : fat_ptr) (i a : Z),
    fat_wf 12 f /\ 0 <= i <= INT_MAX /\
    _check_fat_subscript f 12 i "f.cyc" 1 = Ret a /\ last_plus_one f < a + 12.
Proof.
  exists (_tag_fat 1000 12 2), 357913943, 1020.
  split; [apply tag_fat_wf; lia|]. split; [unfold INT_MAX; lia|]. split; reflexivity.
Qed.

(** The size read back from a tagged pointer is the number of elements. *)
Lemma get_fat_size_tag p elt n :
  0 < elt -> 0 < p -> 0 <= n -> p + elt * n < 4294967296 ->
  _get_fat_size (_tag_fat p elt n) elt = n.
Proof.
  intros. unfold _get_fat_size, _tag_fat; simpl. destruct (p =? 0) eqn:E; [lia|].
  rewrite (u32_small n), (u32_small (p + _)) by nia.
  destruct (p <? p) eqn:E1, (_ <=? p) eqn:E2; simpl; try nia.
  rewrite u32_small by nia. replace (p + elt * n - p) with (n * elt) by lia.
  apply Z.div_mul; lia.
Qed.

Lemma untag_tag p elt n m fl ln :
  0 < elt -> 0 < p -> 0 <= m <= n -> p + elt * n < 4294967296 ->
  _untag_fat_ptr (_tag_fat p elt n) elt m fl ln = Ret p.
Proof.
  intros. unfold _untag_fat_ptr, _tag_fat; simpl. destruct (p =? 0) eqn:E; [lia|].
  rewrite (u32_small n), !u32_small by nia.
  assert ((p <? p) = false) as -> by lia.
  assert ((p + elt * n <? p + elt * m) = false) as -> by nia. done.
Qed.

(** Shrinking keeps the bounds ordered: the new end is between [base] and the
    old end, even when [sz * numelts] exceeds the object (the NULL pointer,
    whose bounds are both 0, stays NULL). *)
Lemma decrease_size_bounds x sz n :
  0 <= base x <= last_plus_one x -> last_plus_one x < 4294967296 ->
  let y := _fat_ptr_decrease_size x sz n in
  base y = base x /\ curr y = curr x /\
  base x <= last_plus_one y <= last_plus_one x /\
  (0 <= sz * n <= last_plus_one x - base x -> last_plus_one y = last_plus_one x - sz * n).
Proof.
  intros. unfold y, _fat_ptr_decrease_size. pose proof (u32_range (sz * n)).
  rewrite (u32_small (last_plus_one x - base x)) by lia.
  destruct (_ <=? _) eqn:E; simpl; split_and!; try lia.
  - intros. rewrite u32_small by lia. lia.
  - intros. rewrite u32_small in E by lia. lia.
Qed.

(** [_check_times] is exact: it returns the true product of two 32-bit
    operands when that product is at most [MAX_MALLOC_SIZE], and throws
    [Bad_alloc] in every other case; it never returns a wrapped product. *)
Theorem check_times_exact (x y ln : Z) (fl : string) :
  0 <= x < 4294967296 -> 0 <= y < 4294967296 ->
  _check_times x y fl ln =
  if x * y <=? MAX_MALLOC_SIZE then Ret (x * y) else Thrown Cyc_Bad_alloc fl ln.
Proof.
  intros Hx Hy. unfold _check_times, MAX_MALLOC_SIZE. pose proof (u32_range (x * y)).
  destruct (x * y <=? 268435456) eqn:E.
  - rewrite u32_small by nia.
    assert ((x * y <? x * y) = false) as -> by lia.
    assert ((268435456 <? x * y) = false) as -> by lia. done.
  - destruct (decide (x * y < 4294967296)).
    + rewrite u32_small by nia.
      assert ((268435456 <? x * y) = true) as -> by lia. by rewrite orb_true_r.
    + assert ((u32 (x * y) <? x * y) = true) as -> by lia. done.
Qed.

Lemma check_times_exact_witness :
  _check_times 65536 65537 "f.cyc" 7 = Thrown Cyc_Bad_alloc "f.cyc" 7.
Proof. rewrite (check_times_exact 65536 65537 7 "f.cyc"); [reflexivity|lia|lia]. Defined.
