(* ===== verification/Futex.v ===== *)
(** * The futex-based mutex

    Models lib/runtime_lowlevel.c: the error handling around the futex system
    call, and the lock built from it ([wait_lock], [unlock]) as a transition
    system in which every shared-memory access of a thread and every system
    call is one step.  The kernel's futex queue is the set of threads whose
    program counter is [PSleep]. *)

From S2P Require Import Prelude.

(** ** System-call results *)

Definition ENOSYS : Z := 38.
Definition EWOULDBLOCK : Z := 11.
Definition ETIMEDOUT : Z := 110.
Definition EFAULT : Z := 14.
Definition EINTR : Z := 4.

Definition __FUTEX_SPIN_COUNT__ : nat := 50.

(** What [futex_wait] does with the result of the system call: [err] ends the
    process. *)
Definition futex_wait_result (res : Z) : out unit :=
  if res =? - ENOSYS then Exit "ENOSYS"
  else if res <? 0 then
    if res =? - EWOULDBLOCK then Ret tt
    else if res =? - ETIMEDOUT then Ret tt
    else if res =? - EFAULT then Exit "EFAULT"
    else Exit "OTHER"
  else Ret tt.

(** The optional spinning phase: [reads] are the values successive reads of
    [*addr] observe; it reports whether one of them differs from [val]. *)
Fixpoint futex_spin (n : nat) (reads : list Z) (val : Z) : bool :=
  match n, reads with
  | O, _ => false
  | S n', addr_val :: reads' =>
      if negb (addr_val =? val) then true else futex_spin n' reads' val
  | S n', [] => false
  end.

Definition futex_wait (do_spin : bool) (reads : list Z) (val res : Z) : out unit :=
  if do_spin && futex_spin __FUTEX_SPIN_COUNT__ reads val then Ret tt
  else futex_wait_result res.

Definition simple_futex_wait (res : Z) : out unit := futex_wait_result res.

(** [futex_wake] retries once, with the private flag cleared, when the kernel
    does not know the operation; [res'] is the result of the retry. *)
Definition futex_wake (res res' : Z) : out unit :=
  let final := if res =? - ENOSYS then res' else res in
  if final <? 0 then Exit "FUTEX_WAKE impl" else Ret tt.

(** ** The lock as a transition system *)

(** Where a thread is in [wait_lock] and [unlock]. *)
Inductive pc : Type :=
| PIdle              (* outside both functions, lock not held *)
| PCas               (* at __sync_bool_compare_and_swap(lock,0,self) *)
| PRead              (* at prev_val = *lock *)
| PWait (prev : Z)   (* in futex_wait(lock,prev), not asleep *)
| PSleep             (* queued by the kernel *)
| PHeld              (* wait_lock has returned *)
| PUnlock            (* at assert( *lock == self ) in unlock *)
| PStore             (* at *lock = 0 *)
| PWake              (* at futex_wake(lock,1) *)
| PExit.             (* the assertion failed *)

#[export] Instance pc_eq_dec : EqDecision pc.
Proof. solve_decision. Defined.

Record lock_state : Type := mk_lock { lock : Z; pcs : gmap Z pc }.

Definition set_pc (t : Z) (p : pc) (s : lock_state) : lock_state :=
  mk_lock (lock s) (<[t := p]> (pcs s)).

Definition set_lock (v : Z) (s : lock_state) : lock_state := mk_lock v (pcs s).

Definition sleeping (s : lock_state) (t : Z) : bool :=
  bool_decide (pcs s !! t = Some PSleep).

Definition sleepers (s : lock_state) : list Z :=
  (map_to_list (pcs s)).*1 ≫= fun t => if sleeping s t then [t] else [].

(** One step of thread [t].  [c] resolves the kernel's choice of the waiter a
    wake-up selects; every other step ignores it. *)
Definition lock_step (t c : Z) (s : lock_state) : option lock_state :=
  match pcs s !! t with
  | Some PIdle => Some (set_pc t PCas s)
  | Some PCas =>
      if lock s =? 0 then Some (set_pc t PHeld (set_lock t s))
      else Some (set_pc t PRead s)
  | Some PRead =>
      let prev_val := lock s in
      if prev_val =? 0 then Some (set_pc t PCas s)
      else Some (set_pc t (PWait prev_val) s)
  | Some (PWait prev) =>
      if lock s =? prev then Some (set_pc t PSleep s)
      else Some (set_pc t PCas s)
  | Some PSleep => None
  | Some PHeld => Some (set_pc t PUnlock s)
  | Some PUnlock =>
      if lock s =? t then Some (set_pc t PStore s) else Some (set_pc t PExit s)
  | Some PStore => Some (set_pc t PWake (set_lock 0 s))
  | Some PWake =>
      if sleeping s c then Some (set_pc c PCas (set_pc t PIdle s))
      else match sleepers s with
           | [] => Some (set_pc t PIdle s)
           | _ => None
           end
  | Some PExit | None => None
  end.

(** The system call of a sleeping thread may also return without a wake-up, with
    the result [res].  The thread goes back to the compare-and-swap if
    [futex_wait_result] lets [futex_wait] return; for the other results ([-EINTR]
    is one) [err] ends the process, and no state follows. *)
Definition spurious (t res : Z) (s : lock_state) : option lock_state :=
  if sleeping s t then
    match futex_wait_result res with
    | Ret tt => Some (set_pc t PCas s)
    | _ => None
    end
  else None.

Inductive step : lock_state -> lock_state -> Prop :=
| step_thread t c s s' : lock_step t c s = Some s' -> step s s'
| step_spurious t res s s' : spurious t res s = Some s' -> step s s'.

(** Steps of the lock operations under way: no system call returns without a
    wake-up, and no thread outside the lock begins a new [wait_lock]. *)
Definition code_step (s s' : lock_state) : Prop :=
  exists t c, pcs s !! t <> Some PIdle /\ lock_step t c s = Some s'.

Definition initial (s : lock_state) : Prop :=
  lock s = 0 /\ forall t p, pcs s !! t = Some p -> t <> 0 /\ p = PIdle.

Definition reachable (s : lock_state) : Prop :=
  exists s0, initial s0 /\ rtc step s0 s.

(** ** Invariant *)

Definition holds (p : pc) : bool :=
  match p with PHeld | PUnlock | PStore => true | _ => false end.

(** Threads that will look at the lock again, or wake a waiter, by themselves. *)
Definition active (p : pc) : bool :=
  match p with PCas | PRead | PWait _ | PWake => true | _ => false end.

Record lock_inv (s : lock_state) : Prop := {
  inv_tid : forall t p, pcs s !! t = Some p -> t <> 0;
  inv_holder : lock s <> 0 -> exists p, pcs s !! lock s = Some p /\ holds p;
  inv_excl : forall t p, pcs s !! t = Some p -> holds p -> lock s = t;
  inv_wait : forall t v, pcs s !! t = Some (PWait v) -> v <> 0;
  inv_exit : forall t, pcs s !! t <> Some PExit;
  inv_wakeup : forall t, pcs s !! t = Some PSleep ->
    lock s <> 0 \/ exists u p, pcs s !! u = Some p /\ active p
}.

(** ** The invariant holds in every reachable state *)

Lemma sleeping_spec s t : sleeping s t = true <-> pcs s !! t = Some PSleep.
Proof. unfold sleeping. by rewrite bool_decide_eq_true. Qed.

Lemma sleepers_spec s t : t ∈ sleepers s <-> pcs s !! t = Some PSleep.
Proof.
  unfold sleepers. rewrite list_elem_of_bind. split.
  - intros (u & Hu & _). destruct (sleeping s u) eqn:E; [|by apply not_elem_of_nil in Hu].
    apply list_elem_of_singleton in Hu as ->. by apply sleeping_spec.
  - intros H. exists t. rewrite (proj2 (sleeping_spec s t) H). split; [set_solver|].
    apply list_elem_of_fmap. exists (t, PSleep). split; [done|]. by apply elem_of_map_to_list.
Qed.

Lemma sleepers_nil s t : sleepers s = [] -> pcs s !! t <> Some PSleep.
Proof. intros H Hs. apply sleepers_spec in Hs. rewrite H in Hs. by apply not_elem_of_nil in Hs. Qed.

Lemma lookup_set_pc s t p u :
  pcs (set_pc t p s) !! u = if decide (t = u) then Some p else pcs s !! u.
Proof. apply lookup_insert. Qed.

(** Changing the program counter of one thread, with the lock word kept, keeps
    the invariant when the thread holds the lock before and after or neither,
    and does not leave the sleepers without an active thread. *)
Lemma inv_set_pc s t p q :
  lock_inv s -> pcs s !! t = Some p -> holds q = holds p ->
  q <> PExit -> (forall v, q = PWait v -> v <> 0) ->
  (active q \/ lock s <> 0 \/
   (q = PIdle /\ forall u, pcs s !! u <> Some PSleep)) ->
  lock_inv (set_pc t q s).
Proof.
  intros Hi Ht Hh Hx Hv Hw. split; simpl; intros *; rewrite ?lookup_insert.
  - case_decide; intros; simplify_eq; by eapply inv_tid.
  - intros Hl. destruct (inv_holder _ Hi Hl) as (r & Hr & Hrh).
    destruct (decide (t = lock s)) as [Hd|Hd].
    + exists q. split; [done|].
      assert (p = r) as -> by (rewrite Hd in Ht; congruence). by rewrite Hh.
    + by exists r.
  - case_decide; intros Heq Hq; simplify_eq.
    + eapply inv_excl; [done|done|by rewrite <- Hh].
    + by eapply inv_excl.
  - case_decide; intros; simplify_eq; [by eapply Hv|by eapply inv_wait].
  - case_decide; [congruence|by apply inv_exit].
  - intros Hs. destruct Hw as [Ha|[Hl|[-> Hno]]].
    + right. exists t, q. by rewrite lookup_insert, decide_True.
    + by left.
    + case_decide; [done|]. by destruct (Hno t0).
Qed.

(** The thread at the compare-and-swap takes a free lock. *)
Lemma inv_acquire s t :
  lock_inv s -> pcs s !! t = Some PCas -> lock s = 0 ->
  lock_inv (set_pc t PHeld (set_lock t s)).
Proof.
  intros Hi Ht Hl. pose proof (inv_tid _ Hi _ _ Ht) as Ht0.
  split; simpl; intros *; rewrite ?lookup_insert.
  - case_decide; intros; simplify_eq; by eapply inv_tid.
  - intros _. exists PHeld. by rewrite decide_True.
  - case_decide; intros Heq Hq; [done|]. pose proof (inv_excl _ Hi _ _ Heq Hq) as Hx.
    pose proof (inv_tid _ Hi _ _ Heq). congruence.
  - case_decide; intros; simplify_eq. by eapply inv_wait.
  - case_decide; [done|by apply inv_exit].
  - intros _. by left.
Qed.

(** The holder clears the lock word; it then still owes a wake-up. *)
Lemma inv_release s t :
  lock_inv s -> pcs s !! t = Some PStore ->
  lock_inv (set_pc t PWake (set_lock 0 s)).
Proof.
  intros Hi Ht. pose proof (inv_excl _ Hi _ _ Ht I) as Hl.
  split; simpl; intros *; rewrite ?lookup_insert.
  - case_decide; intros; simplify_eq; by eapply inv_tid.
  - done.
  - case_decide; intros Heq Hq; simplify_eq; [done|].
    pose proof (inv_excl _ Hi _ _ Heq Hq). congruence.
  - case_decide; intros; simplify_eq. by eapply inv_wait.
  - case_decide; [done|by apply inv_exit].
  - intros _. right. exists t, PWake. by rewrite lookup_insert, decide_True.
Qed.

Lemma inv_wake s t c :
  lock_inv s -> pcs s !! t = Some PWake -> pcs s !! c = Some PSleep ->
  lock_inv (set_pc c PCas (set_pc t PIdle s)).
Proof.
  intros Hi Ht Hc. assert (Hne : t <> c) by congruence.
  split; simpl; intros *; rewrite ?lookup_insert.
  - repeat case_decide; intros; simplify_eq; by eapply inv_tid.
  - intros Hl. destruct (inv_holder _ Hi Hl) as (r & Hr & Hrh). exists r.
    assert (c <> lock s) by (intros E; rewrite E, Hr in Hc; by simplify_eq).
    assert (t <> lock s) by (intros E; rewrite E, Hr in Ht; by simplify_eq).
    by rewrite !decide_False.
  - repeat case_decide; intros Heq Hq; simplify_eq; try done. by eapply inv_excl.
  - repeat case_decide; intros; simplify_eq; by eapply inv_wait.
  - repeat case_decide; try done. by apply inv_exit.
  - intros _. right. exists c, PCas. by rewrite lookup_insert, decide_True.
Qed.

Lemma lock_step_inv t c s s' : lock_step t c s = Some s' -> lock_inv s -> lock_inv s'.
Proof.
  unfold lock_step. intros Hs Hi. destruct (pcs s !! t) as [[]|] eqn:Ht; try done.
  - simplify_eq. eapply inv_set_pc; try done. by left.
  - destruct (lock s =? 0) eqn:E; simplify_eq.
    + apply inv_acquire; [done|done|lia].
    + eapply inv_set_pc; try done. by left.
  - destruct (lock s =? 0) eqn:E; simplify_eq; eapply inv_set_pc; try done; try by left.
    intros v [= <-]. lia.
  - destruct (lock s =? prev) eqn:E; simplify_eq; eapply inv_set_pc; try done; [|by left].
    right; left. pose proof (inv_wait _ Hi _ _ Ht). lia.
  - simplify_eq. eapply inv_set_pc; try done.
    right; left. rewrite (inv_excl _ Hi _ _ Ht I). by eapply inv_tid.
  - pose proof (inv_excl _ Hi _ _ Ht I) as Hl.
    destruct (lock s =? t) eqn:E; simplify_eq; [|lia].
    eapply inv_set_pc; try done. right; left. by eapply inv_tid.
  - simplify_eq. by apply inv_release.
  - destruct (sleeping s c) eqn:E; simplify_eq.
    + apply inv_wake; [done|done|by apply sleeping_spec].
    + destruct (sleepers s) eqn:E'; simplify_eq. eapply inv_set_pc; try done.
      right; right. split; [done|]. intros u. by apply sleepers_nil.
Qed.

Lemma spurious_inv t res s s' : spurious t res s = Some s' -> lock_inv s -> lock_inv s'.
Proof.
  unfold spurious. destruct (sleeping s t) eqn:E; [|done].
  destruct (futex_wait_result res) as [[]| | | |]; intros; simplify_eq.
  apply sleeping_spec in E. eapply inv_set_pc; try done. by left.
Qed.

Lemma step_inv s s' : step s s' -> lock_inv s -> lock_inv s'.
Proof. destruct 1; eauto using lock_step_inv, spurious_inv. Qed.

Lemma initial_inv s : initial s -> lock_inv s.
Proof.
  intros [Hl Hp]. split; intros *.
  - intros H. by apply Hp in H as [].
  - done.
  - intros H Hh. by apply Hp in H as [_ ->].
  - intros H. by apply Hp in H as [_ ?].
  - intros H. by apply Hp in H as [_ ?].
  - intros H. by apply Hp in H as [_ ?].
Qed.

Lemma reachable_inv s : reachable s -> lock_inv s.
Proof.
  intros (s0 & H0 & Hr). apply initial_inv in H0.
  induction Hr; eauto using step_inv.
Qed.

(** ** Progress *)

Lemma code_step_l t c s s' s'' p :
  pcs s !! t = Some p -> p <> PIdle ->
  lock_step t c s = Some s' -> rtc code_step s' s'' -> rtc code_step s s''.
Proof.
  intros Hp Hne H1 H2. eapply rtc_l; [exists t, c; split; [congruence|exact H1]|exact H2].
Qed.

(** A sleeper is woken, with the lock free, once some thread stores 0. *)
Lemma store_wakes s u t :
  pcs s !! u = Some PStore -> pcs s !! t = Some PSleep ->
  exists s', rtc code_step s s' /\ lock s' = 0 /\ pcs s' !! t = Some PCas.
Proof.
  intros Hu Ht. assert (u <> t) by congruence.
  eexists. split; [|split].
  - eapply (code_step_l u 0); [exact Hu|done|unfold lock_step; rewrite Hu; reflexivity|].
    eapply (code_step_l u t); [apply lookup_insert_eq|done| |apply rtc_refl].
    unfold lock_step; simpl. rewrite lookup_insert_eq.
    assert (sleeping (set_pc u PWake (set_lock 0 s)) t = true) as ->; [|reflexivity].
    apply sleeping_spec. simpl. by rewrite lookup_insert_ne.
  - done.
  - simpl. apply lookup_insert_eq.
Qed.

Lemma unlock_wakes s u t :
  pcs s !! u = Some PUnlock -> lock s = u -> pcs s !! t = Some PSleep ->
  exists s', rtc code_step s s' /\ lock s' = 0 /\ pcs s' !! t = Some PCas.
Proof.
  intros Hu Hl Ht. assert (u <> t) by congruence.
  destruct (store_wakes (set_pc u PStore s) u t) as (s' & Hr & Hs');
    [simpl; by rewrite lookup_insert_eq|simpl; by rewrite lookup_insert_ne|].
  exists s'. split; [|done]. eapply (code_step_l u 0); [exact Hu|done| |exact Hr].
  unfold lock_step. rewrite Hu, Hl, Z.eqb_refl. done.
Qed.

Lemma holder_wakes s u p t :
  lock_inv s -> pcs s !! u = Some p -> holds p -> pcs s !! t = Some PSleep ->
  exists s', rtc code_step s s' /\ lock s' = 0 /\ pcs s' !! t = Some PCas.
Proof.
  intros Hi Hu Hp Ht. assert (u <> t) by (intros ->; rewrite Hu in Ht; by simplify_eq).
  pose proof (inv_excl _ Hi _ _ Hu Hp) as Hl.
  destruct p; try done; [|by eapply unlock_wakes|by eapply store_wakes].
  destruct (unlock_wakes (set_pc u PUnlock s) u t) as (s' & Hr & Hs'); simpl;
    [by rewrite lookup_insert_eq|done|by rewrite lookup_insert_ne|].
  exists s'. split; [|done]. eapply (code_step_l u 0); [exact Hu|done| |exact Hr]. unfold lock_step. by rewrite Hu.
Qed.

(** With the lock free, a thread at the compare-and-swap takes it, and later
    releases it to the sleeper. *)
Lemma cas_wakes s u t :
  lock_inv s -> lock s = 0 -> pcs s !! u = Some PCas -> pcs s !! t = Some PSleep ->
  exists s', rtc code_step s s' /\ lock s' = 0 /\ pcs s' !! t = Some PCas.
Proof.
  intros Hi Hl Hu Ht. assert (u <> t) by congruence.
  destruct (holder_wakes (set_pc u PHeld (set_lock u s)) u PHeld t) as (s' & Hr & Hs');
    [by apply inv_acquire|simpl; by rewrite lookup_insert_eq|done
    |simpl; by rewrite lookup_insert_ne|].
  exists s'. split; [|done]. eapply (code_step_l u 0); [exact Hu|done| |exact Hr].
  unfold lock_step. by rewrite Hu, Hl.
Qed.

Lemma active_wakes s u p t :
  lock_inv s -> lock s = 0 -> pcs s !! u = Some p -> active p -> pcs s !! t = Some PSleep ->
  exists s', rtc code_step s s' /\ lock s' = 0 /\ pcs s' !! t = Some PCas.
Proof.
  intros Hi Hl Hu Hp Ht. assert (u <> t) by (intros ->; rewrite Hu in Ht; by simplify_eq).
  destruct p; try done; [by eapply cas_wakes| | |].
  1,2: assert (lock_step u 0 s = Some (set_pc u PCas s)) as Hstep;
    [unfold lock_step; rewrite Hu, Hl; try done;
     pose proof (inv_wait _ Hi _ _ Hu); by destruct prev|].
  1,2: destruct (cas_wakes (set_pc u PCas s) u t) as (s' & Hr & Hs');
    [by eapply lock_step_inv|done|simpl; by rewrite lookup_insert_eq
    |simpl; by rewrite lookup_insert_ne|];
    exists s'; split; [by eapply (code_step_l u 0)|done].
  eexists. split; [|split].
  - eapply (code_step_l u t); [exact Hu|done| |apply rtc_refl].
    unfold lock_step. rewrite Hu, (proj2 (sleeping_spec _ _) Ht). done.
  - done.
  - simpl. apply lookup_insert_eq.
Qed.

(** ** Properties *)

(** C3. Mutual exclusion of the futex lock: in every reachable state, with any
    number of threads and any interleaving of their memory accesses and system
    calls (spurious wake-ups included), at most one thread is between the
    return of [wait_lock] and the store of 0 in [unlock]; the lock word holds
    that thread's identifier, and the assertion of [unlock] never fails. *)
Theorem lock_mutual_exclusion (s : lock_state) :
  reachable s ->
  (forall t p, pcs s !! t = Some p -> holds p -> lock s = t) /\
  (forall t u p q, pcs s !! t = Some p -> pcs s !! u = Some q ->
     holds p -> holds q -> t = u) /\
  (forall t, pcs s !! t <> Some PExit).
Proof.
  intros Hi%reachable_inv. split_and!.
  - intros. by eapply inv_excl.
  - intros t u p q Ht Hu Hp Hq.
    rewrite <- (inv_excl _ Hi _ _ Ht Hp). by apply (inv_excl _ Hi _ _ Hu Hq).
  - apply (inv_exit _ Hi).
Qed.

Definition two_threads : lock_state := mk_lock 0 {[ 1 := PIdle; 3 := PIdle ]}.

Lemma two_threads_initial : initial two_threads.
Proof.
  split; [done|]. intros t p. unfold two_threads; simpl.
  rewrite lookup_insert, lookup_singleton. repeat case_decide; naive_solver.
Qed.

Lemma lock_mutual_exclusion_witness :
  lock (mk_lock 1 {[ 1 := PHeld; 3 := PIdle ]}) = 1.
Proof.
  refine (proj1 (lock_mutual_exclusion (mk_lock 1 {[ 1 := PHeld; 3 := PIdle ]}) _)
            1 PHeld eq_refl I).
  exists two_threads. split; [apply two_threads_initial|].
  eapply rtc_l; [apply (step_thread 1 0); reflexivity|].
  eapply rtc_l; [apply (step_thread 1 0); reflexivity|]. apply rtc_refl.
Defined.

(** C32. No lost wake-up: in every reachable state in which a thread sleeps in
    [futex_wait], the lock is held by a thread that has still to release it, or
    it is free and some thread is about to wake a waiter or to try the lock
    again; and the operations under way alone (the holder's [unlock] included,
    but no system call that returns without a wake-up, and no call of
    [wait_lock] by a thread that is outside the lock) lead to a state in which
    the sleeping thread holds the lock.  No interleaving can leave it asleep
    with nobody to wake it. *)
Theorem sleeping_thread_can_acquire (s : lock_state) (t : Z) :
  reachable s -> pcs s !! t = Some PSleep ->
  (exists u p, pcs s !! u = Some p /\
     if lock s =? 0 then active p = true else u = lock s /\ holds p = true) /\
  exists s', rtc code_step s s' /\ pcs s' !! t = Some PHeld /\ lock s' = t.
Proof.
  intros Hi%reachable_inv Ht. split.
  { destruct (lock s =? 0) eqn:E.
    - destruct (inv_wakeup _ Hi _ Ht) as [|(u & p & Hu & Hp)]; [lia|].
      exists u, p. by destruct (active p).
    - destruct (inv_holder _ Hi) as (p & Hu & Hp); [lia|].
      exists (lock s), p. by destruct (holds p). }
  assert (exists s', rtc code_step s s' /\ lock s' = 0 /\ pcs s' !! t = Some PCas)
    as (s' & Hr & Hl & Hc).
  { destruct (decide (lock s = 0)) as [Hl|Hl].
    - destruct (inv_wakeup _ Hi _ Ht) as [|(u & p & Hu & Hp)]; [done|].
      by eapply active_wakes.
    - destruct (inv_holder _ Hi Hl) as (p & Hu & Hp). by eapply holder_wakes. }
  exists (set_pc t PHeld (set_lock t s')). split; [|split; [apply lookup_insert_eq|done]].
  eapply rtc_r; [exact Hr|]. exists t, 0. split; [congruence|]. unfold lock_step. by rewrite Hc, Hl.
Qed.

Lemma sleeping_thread_can_acquire_witness :
  exists s', rtc code_step (mk_lock 1 {[ 1 := PHeld; 3 := PSleep ]}) s' /\
    pcs s' !! 3 = Some PHeld /\ lock s' = 3.
Proof.
  refine (proj2 (sleeping_thread_can_acquire (mk_lock 1 {[ 1 := PHeld; 3 := PSleep ]}) 3 _ eq_refl)).
  exists two_threads. split; [apply two_threads_initial|].
  do 2 (eapply rtc_l; [apply (step_thread 1 0); reflexivity|]).
  do 4 (eapply rtc_l; [apply (step_thread 3 0); reflexivity|]). apply rtc_refl.
Defined.
