(* ===== verification/RwLock.v ===== *)
(** * The reader/writer capabilities of a region

    Models the body of [__xregion_lockop] (lib/runtime_memory.c) for one region:
    the critical section protected by the region's mutex, the queue counters,
    the wake-ups it issues and its assertions.  [RegionCaps] are the counts
    shared by all threads, [LocalCaps] the counts a thread keeps in its own
    tree handle. *)

From S2P Require Import Prelude.

(** ** Data *)

Record RegionCaps : Type := mk_rcaps {
  g_rcnt : Z;       (* one count per thread that knows the region *)
  g_lock : Z;       (* the mutex word *)
  writer_cv : Z;    (* identifier of the writing thread, or 0 *)
  reader_cv : Z;    (* non-zero while readers have to wait *)
  writer_q : Z;     (* number of writers waiting *)
  reader_q : Z;     (* number of readers waiting *)
  g_rd_cnt : Z      (* number of threads with a read count *)
}.

Record LocalCaps : Type := mk_lcaps {
  l_rcnt : Z;
  wr_cnt : Z;
  rd_cnt : Z
}.

#[export] Instance RegionCaps_eq_dec : EqDecision RegionCaps.
Proof. solve_decision. Defined.
#[export] Instance LocalCaps_eq_dec : EqDecision LocalCaps.
Proof. solve_decision. Defined.

Definition set_writer_cv (v : Z) (g : RegionCaps) : RegionCaps :=
  mk_rcaps (g_rcnt g) (g_lock g) v (reader_cv g) (writer_q g) (reader_q g) (g_rd_cnt g).
Definition set_reader_cv (v : Z) (g : RegionCaps) : RegionCaps :=
  mk_rcaps (g_rcnt g) (g_lock g) (writer_cv g) v (writer_q g) (reader_q g) (g_rd_cnt g).
Definition set_writer_q (v : Z) (g : RegionCaps) : RegionCaps :=
  mk_rcaps (g_rcnt g) (g_lock g) (writer_cv g) (reader_cv g) v (reader_q g) (g_rd_cnt g).
Definition set_reader_q (v : Z) (g : RegionCaps) : RegionCaps :=
  mk_rcaps (g_rcnt g) (g_lock g) (writer_cv g) (reader_cv g) (writer_q g) v (g_rd_cnt g).
Definition set_g_rd_cnt (v : Z) (g : RegionCaps) : RegionCaps :=
  mk_rcaps (g_rcnt g) (g_lock g) (writer_cv g) (reader_cv g) (writer_q g) (reader_q g) v.
Definition set_g_rcnt (v : Z) (g : RegionCaps) : RegionCaps :=
  mk_rcaps v (g_lock g) (writer_cv g) (reader_cv g) (writer_q g) (reader_q g) (g_rd_cnt g).
Definition set_wr_cnt (v : Z) (l : LocalCaps) : LocalCaps :=
  mk_lcaps (l_rcnt l) v (rd_cnt l).
Definition set_rd_cnt (v : Z) (l : LocalCaps) : LocalCaps :=
  mk_lcaps (l_rcnt l) (wr_cnt l) v.
Definition set_l_rcnt (v : Z) (l : LocalCaps) : LocalCaps :=
  mk_lcaps v (wr_cnt l) (rd_cnt l).

Inductive wakeup : Type := WakeNone | WakeWriter | WakeReaders.

(** ** The critical section *)

(** The counts are declared [unsigned short] and read through [short *]; the
    global read count is declared [unsigned] and read through [int *]. *)
Definition lwr (l : LocalCaps) : Z := i16 (wr_cnt l).
Definition lrd (l : LocalCaps) : Z := i16 (rd_cnt l).
Definition grd (g : RegionCaps) : Z := i32 (g_rd_cnt g).

(** The assertion before the loop and at the end of every section: a thread
    that is the registered writer has a write count, and the only read count
    of the region is possibly its own. *)
Definition writer_assert (self : Z) (g : RegionCaps) (l : LocalCaps) : bool :=
  negb (writer_cv g =? self) ||
  ((writer_cv g =? self) && (0 <? lwr l) &&
   ((negb (lrd l =? 0) && (grd g =? 1)) || ((lrd l =? 0) && (grd g =? 0)))).

(** The assertions at the head of the function. *)
Definition lockop_entry (self write_lock read_lock : Z) (g : RegionCaps) (l : LocalCaps)
    : out unit :=
  cassert (0 <? l_rcnt l) "*local_ref_cnt > 0";;
  cassert (0 <=? lwr l) "*local_wr_cnt >= 0";;
  cassert (0 <=? lrd l) "*local_rd_cnt >= 0";;
  cassert (0 <=? lwr l + write_lock) "*local_wr_cnt + write_lock >= 0";;
  cassert (0 <=? lrd l + read_lock) "*local_rd_cnt + read_lock >= 0";;
  cassert (writer_assert self g l) "writer".

(** On acquiring the mutex the thread leaves the queue it waited in. *)
Definition leave_queue (wait_wq wait_rq : bool) (g : RegionCaps) : RegionCaps :=
  if wait_wq then set_writer_q (u32 (writer_q g - 1)) g
  else if wait_rq then set_reader_q (u32 (reader_q g - 1)) g
  else g.

(** The write part: returns whether the thread has to wait. *)
Definition write_part (self write_lock : Z) (g : RegionCaps) (l : LocalCaps)
    : RegionCaps * LocalCaps * bool :=
  if write_lock =? 0 then (g, l, false)
  else if negb (lwr l =? 0) then
    let l' := set_wr_cnt (u16 (lwr l + write_lock)) l in
    if lwr l' =? 0 then (set_writer_cv 0 g, l', false) else (g, l', false)
  else
    let canlock := (grd g <? 2) && ((grd g =? 0) || negb (lrd l =? 0))
                   && (writer_cv g =? 0) in
    if canlock then
      (set_writer_cv self (set_reader_cv 1 g), set_wr_cnt (u16 (lwr l + write_lock)) l, false)
    else (set_writer_q (u32 (writer_q g + 1)) g, l, true).

(** The read part. *)
Definition read_part (self read_lock : Z) (g : RegionCaps) (l : LocalCaps)
    : RegionCaps * LocalCaps * bool :=
  if read_lock =? 0 then (g, l, false)
  else if negb (lrd l =? 0) then
    let l' := set_rd_cnt (u16 (lrd l + read_lock)) l in
    if lrd l' =? 0 then (set_g_rd_cnt (u32 (grd g - 1)) g, l', false) else (g, l', false)
  else
    let wr := writer_cv g in
    if negb (wr =? self) && negb (wr =? 0) then
      (set_reader_q (u32 (reader_q g + 1)) g, l, true)
    else
      (set_g_rd_cnt (u32 (grd g + 1)) g, set_rd_cnt (u16 (lrd l + read_lock)) l, false).

(** With no writer registered, one waiting writer is woken if nobody reads,
    and otherwise all waiting readers. *)
Definition wake_part (g : RegionCaps) : RegionCaps * wakeup :=
  if writer_cv g =? 0 then
    if negb (writer_q g =? 0) && (grd g =? 0) then (g, WakeWriter)
    else if negb (reader_q g =? 0) then (set_reader_cv 0 g, WakeReaders)
    else (g, WakeNone)
  else (g, WakeNone).

(** The part of the loop body between [wait_lock] and [unlock]: the new counts,
    the two wait flags and the wake-up sent. *)
Definition lockop_section (self write_lock read_lock : Z) (wait_wq wait_rq : bool)
    (g : RegionCaps) (l : LocalCaps)
    : out (RegionCaps * LocalCaps * bool * bool * wakeup) :=
  let g0 := leave_queue wait_wq wait_rq g in
  let '(g1, l1, wq) := write_part self write_lock g0 l in
  let '(g2, l2, rq) := read_part self read_lock g1 l1 in
  let '(g3, w) := wake_part g2 in
  cassert (writer_assert self g3 l2) "writer";;
  Ret (g3, l2, wq, rq, w).

(** The assertions after the loop. *)
Definition lockop_exit (l : LocalCaps) : out unit :=
  cassert (0 <=? lwr l) "*local_wr_cnt >= 0";;
  cassert (0 <=? lrd l) "*local_rd_cnt >= 0".

(** ** Threads sharing the region *)

(** Where a thread is in the loop: about to take the mutex, waiting on a
    condition word with its flags set, or terminated by a failed assertion. *)
Inductive status : Type :=
| TIdle
| TReady (write_lock read_lock : Z) (wait_wq wait_rq : bool)
| TWait (write_lock read_lock : Z) (wait_wq wait_rq : bool)
| TAbort.

#[export] Instance status_eq_dec : EqDecision status.
Proof. solve_decision. Defined.

Record rw_state : Type := mk_rw {
  rw_caps : RegionCaps;
  rw_local : gmap Z LocalCaps;
  rw_stat : gmap Z status
}.

(** Thread [t] calls [__xregion_lockop]. *)
Definition rw_begin (t wl rl : Z) (s : rw_state) : option rw_state :=
  match rw_stat s !! t, rw_local s !! t with
  | Some TIdle, Some l =>
      let st := match lockop_entry t wl rl (rw_caps s) l with
                | Ret _ => TReady wl rl false false
                | _ => TAbort
                end in
      Some (mk_rw (rw_caps s) (rw_local s) (<[t := st]> (rw_stat s)))
  | _, _ => None
  end.

(** It runs the critical section. *)
Definition rw_section (t : Z) (s : rw_state) : option rw_state :=
  match rw_stat s !! t, rw_local s !! t with
  | Some (TReady wl rl wq rq), Some l =>
      match lockop_section t wl rl wq rq (rw_caps s) l with
      | Ret (g', l', wq', rq', _) =>
          let st := if wq' || rq' then TWait wl rl wq' rq'
                    else match lockop_exit l' with Ret _ => TIdle | _ => TAbort end in
          Some (mk_rw g' (<[t := l']> (rw_local s)) (<[t := st]> (rw_stat s)))
      | _ => Some (mk_rw (rw_caps s) (rw_local s) (<[t := TAbort]> (rw_stat s)))
      end
  | _, _ => None
  end.

(** It leaves the waiting loop when it reads 0 in its condition word. *)
Definition rw_retry (t : Z) (s : rw_state) : option rw_state :=
  match rw_stat s !! t with
  | Some (TWait wl rl wq rq) =>
      let cv := if wq then writer_cv (rw_caps s) else reader_cv (rw_caps s) in
      if cv =? 0 then
        Some (mk_rw (rw_caps s) (rw_local s) (<[t := TReady wl rl wq rq]> (rw_stat s)))
      else None
  | _ => None
  end.

(** ** The ownership invariant *)

Definition wf_local (l : LocalCaps) : Prop :=
  0 < l_rcnt l /\ 0 <= wr_cnt l < 32768 /\ 0 <= rd_cnt l < 32768.

(** The threads with a read count. *)
Definition readers (m : gmap Z LocalCaps) : gset Z :=
  dom (filter (fun tl : Z * LocalCaps => 0 < rd_cnt tl.2) m).

(** Either no writer is registered and nobody has a write count, or the
    registered thread is the only one with a write count and nobody else has a
    read count; the global read count is the number of reading threads. *)
Definition owner_inv (w : Z) (m : gmap Z LocalCaps) : Prop :=
  (w = 0 /\ forall t l, m !! t = Some l -> wr_cnt l = 0) \/
  (w <> 0 /\ (exists l, m !! w = Some l /\ 0 < wr_cnt l) /\
   forall t l, t <> w -> m !! t = Some l -> wr_cnt l = 0 /\ rd_cnt l = 0).

Record caps_inv (g : RegionCaps) (m : gmap Z LocalCaps) : Prop := {
  ci_few : Z.of_nat (size m) < 2147483648;
  ci_local : forall t l, m !! t = Some l -> t <> 0 /\ wf_local l;
  ci_owner : owner_inv (writer_cv g) m;
  ci_count : g_rd_cnt g = Z.of_nat (size (readers m))
}.
















(** ** The critical section keeps the invariant *)

























(** ** Reachable states *)










(** ** When a request waits *)







(** ** Properties *)

(** The counts of a region and the threads that know it, before any lock
    operation is in progress. *)
Definition rw_initial (s : rw_state) : Prop :=
  caps_inv (rw_caps s) (rw_local s) /\ forall t st, rw_stat s !! t = Some st -> st = TIdle.










(** A schedule of lock operations. *)
Inductive rw_action : Type :=
| ABegin (t wl rl : Z)
| ASection (t : Z)
| ARetry (t : Z).

Fixpoint rw_run (acts : list rw_action) (s : rw_state) : option rw_state :=
  match acts with
  | [] => Some s
  | a :: acts' =>
      s' ← match a with
           | ABegin t wl rl => rw_begin t wl rl s
           | ASection t => rw_section t s
           | ARetry t => rw_retry t s
           end;
      rw_run acts' s'
  end.

(** Thread 3 reads; thread 1 holds nothing. *)
Definition ex_reader : rw_state :=
  mk_rw (mk_rcaps 2 0 0 0 0 0 1)
    {[ 1 := mk_lcaps 1 0 0; 3 := mk_lcaps 1 0 1 ]} {[ 1 := TIdle; 3 := TIdle ]}.

Definition ex_overcount : rw_state :=
  mk_rw (mk_rcaps 2 0 1 1 0 0 1)
    {[ 1 := mk_lcaps 1 1 3; 3 := mk_lcaps 1 0 0 ]} {[ 1 := TIdle; 3 := TIdle ]}.

Lemma ex_reader_initial : rw_initial ex_reader.
Proof.
  split.
  - split; simpl; [vm_compute; done| | |vm_compute; done].
    + intros t l. rewrite lookup_insert, lookup_singleton.
      unfold wf_local. repeat case_decide; intros; simplify_eq; simpl; lia.
    + left. split; [done|]. intros t l. rewrite lookup_insert, lookup_singleton.
      repeat case_decide; intros; simplify_eq; done.
  - intros t st. simpl. rewrite lookup_insert, lookup_singleton.
    repeat case_decide; naive_solver.
Qed.

(** The restriction on combined requests is needed: a thread that asks for
    one write and one read count in the same call while another thread reads
    applies the read part again on every retry.  Here it ends with the write
    count it asked for but three read counts instead of one. *)
Theorem combined_request_overcounts :
  exists s s' : rw_state,
    rw_initial s /\
    rw_local s !! 1 = Some (mk_lcaps 1 0 0) /\
    rw_run [ABegin 1 1 1; ASection 1; ARetry 1; ASection 1;
            ABegin 3 0 (-1); ASection 3; ARetry 1; ASection 1] s = Some s' /\
    rw_stat s' !! 1 = Some TIdle /\
    rw_local s' !! 1 = Some (mk_lcaps 1 1 3).
Proof.
  exists ex_reader, ex_overcount. split; [apply ex_reader_initial|].
  split; [vm_compute; reflexivity|]. split; [vm_compute; reflexivity|].
  split; vm_compute; reflexivity.
Qed.
