(* ===== verification/ZeroTerm.v ===== *)
(** * Zero-terminated arrays

    Models lib/runtime_zeroterm.c.  The source repeats each function for seven
    element types; here each is one definition with the element size [esz] as
    its first parameter (1 for char, 2 for short, 4 for int, float and void
    pointer, 8 for double, 12 for long double).  [m] maps the address of an
    element to its value, 0 standing for a value that compares equal to 0; an
    element that is not in [m] is not readable. *)

From S2P Require Import Prelude.

(** ** Operations *)

(** The address of element [i] of the array at [x]. *)
Definition elt_addr (esz x i : Z) : Z := u32 (x + esz * i).

(** The loop over [_czs_temp] from [t], [n] elements long. *)
Fixpoint zero_arr_scan (esz : Z) (m : gmap Z Z) (orig_x : Z) (n : nat) (t : Z)
    (file : string) (line : Z) : out unit :=
  match n with
  | O => Ret tt
  | S n' =>
      v ← load m (elt_addr esz orig_x t);
      if v =? 0 then Thrown Cyc_Array_bounds file line
      else zero_arr_scan esz m orig_x n' (t + 1) file line
  end.

Definition _zero_arr_plus (esz : Z) (m : gmap Z Z) (orig_x orig_sz orig_i : Z)
    (file : string) (line : Z) : out Z :=
  if orig_x =? 0 then Thrown Cyc_Null_Exception file line
  else if (orig_i <? 0) || (orig_sz =? 0) then Thrown Cyc_Array_bounds file line
  else
    zero_arr_scan esz m orig_x (Z.to_nat (orig_i - (orig_sz - 1))) (orig_sz - 1) file line;;
    Ret (elt_addr esz orig_x orig_i).

(** [while ( *_gres_x != 0) { _gres_x++; _gres++; }]: [None] when [fuel] runs
    out before the loop ends. *)
Fixpoint zero_arr_count (esz : Z) (m : gmap Z Z) (fuel : nat) (_gres_x _gres : Z)
    : option (out Z) :=
  match fuel with
  | O => None
  | S fuel' =>
      match load m _gres_x with
      | Ret v =>
          if v =? 0 then Some (Ret _gres)
          else zero_arr_count esz m fuel' (u32 (_gres_x + esz)) (u32 (_gres + 1))
      | _ => Some Undef
      end
  end.

Definition _get_zero_arr_size (esz : Z) (m : gmap Z Z) (fuel : nat) (orig_x orig_offset : Z)
    : option (out Z) :=
  if orig_x =? 0 then Some (Ret 0)
  else zero_arr_count esz m fuel (elt_addr esz orig_x (orig_offset - 1)) orig_offset.

(** The in-place forms: [cells] holds the pointer variables. *)
Definition _zero_arr_inplace_plus (esz : Z) (m : gmap Z Z) (x orig_i : Z)
    (file : string) (line : Z) : ST (gmap Z Z) Z :=
  cells ← get;
  p ← lift (load cells x);
  q ← lift (_zero_arr_plus esz m p 1 orig_i file line);
  put (<[x := q]> cells);;
  mret q.

Definition _zero_arr_inplace_plus_post (esz : Z) (m : gmap Z Z) (x orig_i : Z)
    (file : string) (line : Z) : ST (gmap Z Z) Z :=
  cells ← get;
  _zap_res ← lift (load cells x);
  q ← lift (_zero_arr_plus esz m _zap_res 1 orig_i file line);
  put (<[x := q]> cells);;
  mret _zap_res.

(** ** Zero-terminated arrays in memory

    The array at [x] has its terminator at index [k]: elements 0 to [k-1] are
    readable and non-zero, element [k] is zero, and the array does not wrap
    around the address space. *)
Record zterm (esz : Z) (m : gmap Z Z) (x k : Z) : Prop := {
  zt_esz : 0 < esz;
  zt_base : 0 < x;
  zt_len : 0 <= k;
  zt_end : x + esz * (k + 1) <= 4294967296;
  zt_elts : forall i, 0 <= i < k -> exists v, m !! (x + esz * i) = Some v /\ v <> 0;
  zt_last : m !! (x + esz * k) = Some 0
}.

(** ** Lemmas *)

Lemma elt_addr_in esz m x k i : zterm esz m x k -> 0 <= i <= k -> elt_addr esz x i = x + esz * i.
Proof. intros [] ?. apply u32_small. nia. Qed.

Lemma zterm_load esz m x k i : zterm esz m x k -> 0 <= i < k ->
  exists v, load m (elt_addr esz x i) = Ret v /\ (v =? 0) = false.
Proof.
  intros Hz Hi. rewrite (elt_addr_in _ _ _ k) by (done || lia).
  destruct (zt_elts _ _ _ _ Hz i Hi) as (v & Hv & ?). exists v. rewrite load_Ret. split; [done|lia].
Qed.

Lemma zterm_load_last esz m x k : zterm esz m x k -> load m (elt_addr esz x k) = Ret 0.
Proof.
  intros Hz. rewrite (elt_addr_in _ _ _ k) by (done || destruct Hz; lia).
  apply load_Ret, Hz.
Qed.

(** Moving the start of the array forward by [j] elements. *)
Lemma zterm_shift esz m x k j : zterm esz m x k -> 0 <= j <= k -> zterm esz m (x + esz * j) (k - j).
Proof.
  intros Hz Hj. pose proof Hz as []. split; try nia.
  - intros i Hi. replace (x + esz * j + esz * i) with (x + esz * (j + i)) by lia.
    apply zt_elts0. lia.
  - replace (x + esz * j + esz * (k - j)) with (x + esz * k) by lia. done.
Qed.

Lemma zero_arr_scan_inside esz m x k n t fl ln :
  zterm esz m x k -> 0 <= t -> t + Z.of_nat n <= k ->
  zero_arr_scan esz m x n t fl ln = Ret tt.
Proof.
  intros Hz. revert t. induction n as [|n IH]; intros t Ht Hn; [done|]. simpl.
  destruct (zterm_load _ _ _ _ t Hz) as (v & -> & Hv); [lia|]. simpl. rewrite Hv.
  apply IH; lia.
Qed.

Lemma zero_arr_scan_beyond esz m x k n t fl ln :
  zterm esz m x k -> 0 <= t <= k -> k < t + Z.of_nat n ->
  zero_arr_scan esz m x n t fl ln = Thrown Cyc_Array_bounds fl ln.
Proof.
  intros Hz. revert t. induction n as [|n IH]; intros t Ht Hn; [lia|]. simpl.
  destruct (decide (t = k)) as [->|Hne].
  - by rewrite (zterm_load_last _ _ _ _ Hz).
  - destruct (zterm_load _ _ _ _ t Hz) as (v & -> & Hv); [lia|]. simpl. rewrite Hv.
    apply IH; lia.
Qed.

Lemma zero_arr_count_finds esz m x k fuel t c :
  zterm esz m x k -> 0 <= t <= k -> k - t < Z.of_nat fuel ->
  zero_arr_count esz m fuel (x + esz * t) c = Some (Ret (u32 (c + (k - t)))) \/
  (t = k /\ zero_arr_count esz m fuel (x + esz * t) c = Some (Ret c)).
Proof.
  intros Hz. revert t c. induction fuel as [|fuel IH]; intros t c Ht Hf; [lia|]. simpl.
  rewrite <- (elt_addr_in _ _ _ k t) by (done || lia).
  destruct (decide (t = k)) as [->|Hne].
  - rewrite (zterm_load_last _ _ _ _ Hz). by right.
  - destruct (zterm_load _ _ _ _ t Hz) as (v & -> & Hv); [lia|]. rewrite Hv. left.
    rewrite (elt_addr_in _ _ _ k t) by (done || lia).
    replace (u32 (x + esz * t + esz)) with (x + esz * (t + 1))
      by (rewrite u32_small; destruct Hz; nia).
    destruct (IH (t + 1) (u32 (c + 1))) as [-> |[Hk ->]]; [lia|lia| |].
    + do 2 f_equal. unfold u32. rewrite Zplus_mod_idemp_l. f_equal. lia.
    + do 3 f_equal. lia.
Qed.

Lemma zero_arr_plus_eq esz m x k sz i ln fl :
  zterm esz m x k -> 1 <= sz <= k + 1 ->
  _zero_arr_plus esz m x sz i fl ln =
  if (0 <=? i) && (i <=? k) then Ret (x + esz * i) else Thrown Cyc_Array_bounds fl ln.
Proof.
  intros Hz Hsz. unfold _zero_arr_plus. pose proof (zt_base _ _ _ _ Hz).
  assert ((x =? 0) = false) as -> by lia. assert ((sz =? 0) = false) as -> by lia.
  destruct (0 <=? i) eqn:Hi; simpl; [|by assert ((i <? 0) = true) as -> by lia].
  assert ((i <? 0) = false) as -> by lia. simpl.
  destruct (i <=? k) eqn:Hk.
  - rewrite (elt_addr_in _ _ _ k) by (done || lia).
    destruct (decide (i <= sz - 1)).
    + by replace (Z.to_nat (i - (sz - 1))) with O by lia.
    + by rewrite (zero_arr_scan_inside _ _ _ k) by (done || lia).
  - by rewrite (zero_arr_scan_beyond _ _ _ k) by (done || lia).
Qed.

(** ** Properties *)

(** C38. Exactness of zero-terminated pointer addition: on an array whose terminator
    is at index [k] and of which [sz >= 1] elements are known to exist, adding
    [i] succeeds exactly for [0 <= i <= k] and yields the address of element [i];
    every other offset throws [Array_bounds], and no element beyond the
    terminator is ever read.  The in-place increment [x++] of a pointer variable
    moves it by one element and leaves it on a zero-terminated array, except at
    the terminator, where it throws and leaves the variable unchanged. *)
Theorem zero_arr_plus_exact (esz : Z) (m cells : gmap Z Z) (px x k sz i ln : Z) (fl : string) :
  zterm esz m x k -> 1 <= sz <= k + 1 -> cells !! px = Some x ->
  _zero_arr_plus esz m x sz i fl ln =
    (if (0 <=? i) && (i <=? k) then Ret (x + esz * i) else Thrown Cyc_Array_bounds fl ln) /\
  _zero_arr_inplace_plus_post esz m px 1 fl ln cells =
    (if k =? 0 then (Thrown Cyc_Array_bounds fl ln, cells)
     else (Ret x, <[px := x + esz]> cells)) /\
  (k <> 0 -> zterm esz m (x + esz) (k - 1)).
Proof.
  intros Hz Hsz Hc. pose proof (zt_len _ _ _ _ Hz).
  split; [by apply zero_arr_plus_eq|]. split.
  - unfold _zero_arr_inplace_plus_post, mbind, st_bind, get, lift, load. rewrite Hc.
    rewrite (zero_arr_plus_eq esz m x k 1 1 ln fl Hz) by lia.
    assert ((0 <=? 1) = true) as -> by done. simpl.
    destruct (k =? 0) eqn:E.
    + assert ((1 <=? k) = false) as -> by lia. done.
    + assert ((1 <=? k) = true) as -> by lia. simpl. by rewrite Z.mul_1_r.
  - intros. replace (x + esz) with (x + esz * 1) by lia. apply zterm_shift; [done|lia].
Qed.

(** "ab" at address 100, as characters. *)
Definition ex_string : gmap Z Z := {[ 100 := 97; 101 := 98; 102 := 0 ]}.

Lemma ex_string_zterm : zterm 1 ex_string 100 2.
Proof.
  split; try lia; [|reflexivity].
  intros i Hi. assert (i = 0 \/ i = 1) as [-> | ->] by lia; eexists; (split; [reflexivity|lia]).
Qed.

Lemma zero_arr_plus_exact_witness :
  _zero_arr_plus 1 ex_string 100 1 3 "f.cyc" 9 = Thrown Cyc_Array_bounds "f.cyc" 9.
Proof.
  refine (eq_trans (proj1 (zero_arr_plus_exact 1 ex_string {[ 8 := 100 ]} 8 100 2 1 3 9 "f.cyc"
            ex_string_zterm _ _)) _); [lia|reflexivity|reflexivity].
Defined.

(** The size of a zero-terminated array counts its elements up to and including
    the terminator; the loop ends after as many iterations as there are
    elements from the known part to the terminator. *)
Theorem get_zero_arr_size_exact (esz : Z) (m : gmap Z Z) (x k sz : Z) (fuel : nat) :
  zterm esz m x k -> 1 <= sz <= k + 1 -> k + 1 - sz < Z.of_nat fuel -> k + 1 < 4294967296 ->
  _get_zero_arr_size esz m fuel x sz = Some (Ret (k + 1)).
Proof.
  intros Hz Hsz Hf Hk. unfold _get_zero_arr_size. pose proof (zt_base _ _ _ _ Hz).
  assert ((x =? 0) = false) as -> by lia.
  rewrite (elt_addr_in _ _ _ k) by (done || lia).
  destruct (zero_arr_count_finds esz m x k fuel (sz - 1) sz Hz) as [-> |[? ->]]; [lia|lia| |].
  - do 2 f_equal. rewrite u32_small; lia.
  - do 2 f_equal. lia.
Qed.

Lemma get_zero_arr_size_exact_witness :
  _get_zero_arr_size 1 ex_string 3 100 1 = Some (Ret 3).
Proof.
  apply (get_zero_arr_size_exact 1 ex_string 100 2 1 3); [apply ex_string_zterm|lia|lia|lia].
Defined.
