(* ===== verification/Alloc.v ===== *)
(** * The heap below the run-time system

    The run-time system allocates through the garbage collector's interface
    ([GC_malloc], [GC_malloc_atomic], [GC_free]) and, for some structures,
    through the C library ([malloc], [free]).  [Libc] and [Heap] state what the
    rest of the development uses of them; lib/nogc.c, which implements the
    collector's interface with the C library, is the instance [nogc_heap]; the
    bounded allocation functions of lib/runtime_memory.c are defined on top. *)

From S2P Require Import Prelude.

(** ** Interfaces *)

(** Live blocks: base address, size, and whether the block was handed out
    filled with zeros. *)
Abbreviation blocks := (gmap Z (Z * bool)).

Definition disjoint_block (p n q k : Z) : Prop :=
  p + Z.max 1 n <= q \/ q + Z.max 1 k <= p.

Definition fresh_in (p n : Z) (b : blocks) : Prop :=
  forall q k z, b !! q = Some (k, z) -> disjoint_block p n q k.

(** An address the allocator may return for a request of [n] bytes: non-null,
    aligned for a double, not wrapping around the address space; no object is
    larger than [PTRDIFF_MAX]. *)
Definition good_addr (p n : Z) : Prop :=
  0 < p /\ p mod 8 = 0 /\ p + Z.max 1 n < 4294967296 /\ n <= INT_MAX.

Class Libc (L : Type) : Type := {
  c_ok : L -> Prop;
  c_live : L -> blocks;
  malloc : Z -> L -> Z * L;
  calloc : Z -> Z -> L -> Z * L;
  free : Z -> L -> L
}.

(** What the C standard says of [malloc], [calloc] and [free]: a null pointer
    and an unchanged heap, or a fresh block. *)
Definition alloc_post {L} `{Libc L} (h : L) (n : Z) (z : bool) (r : Z * L) : Prop :=
  c_ok r.2 /\
  ((r.1 = 0 /\ c_live r.2 = c_live h) \/
   (good_addr r.1 n /\ fresh_in r.1 n (c_live h) /\ c_live r.2 = <[r.1 := (n, z)]> (c_live h))).

Class LibcLaws (L : Type) `{Libc L} : Prop := {
  malloc_law h n : c_ok h -> 0 <= n < 4294967296 -> alloc_post h n false (malloc n h);
  calloc_law h n t : c_ok h -> 0 <= n * t < 4294967296 -> 0 <= n -> 0 <= t ->
    alloc_post h (n * t) true (calloc n t h);
  free_law h p b : c_ok h -> c_live h !! p = Some b ->
    c_ok (free p h) /\ c_live (free p h) = delete p (c_live h)
}.

(** The heap as the run-time system sees it: blocks obtained from the collector
    and blocks obtained from the C library. *)
Class Heap (H : Type) : Type := {
  h_ok : H -> Prop;
  gc_live : H -> blocks;
  lib_live : H -> blocks;
  GC_malloc : Z -> H -> Z * H;
  GC_malloc_atomic : Z -> H -> Z * H;
  GC_free : Z -> H -> H;
  lib_malloc : Z -> H -> Z * H;
  lib_free : Z -> H -> H
}.

(** A collector allocation: null and nothing changed, or a block that overlaps
    no live block. *)
Definition gc_post {H} `{Heap H} (h : H) (n : Z) (z : bool) (r : Z * H) : Prop :=
  h_ok r.2 /\
  ((r.1 = 0 /\ gc_live r.2 = gc_live h /\ lib_live r.2 = lib_live h) \/
   (good_addr r.1 n /\ fresh_in r.1 n (gc_live h) /\ fresh_in r.1 n (lib_live h) /\
    gc_live r.2 = <[r.1 := (n, z)]> (gc_live h) /\
    forall q, q <> r.1 -> lib_live r.2 !! q = lib_live h !! q)).

Class HeapLaws (H : Type) `{Heap H} : Prop := {
  GC_malloc_law h n : h_ok h -> -2147483648 <= n < 2147483648 ->
    gc_post h (u32 n) true (GC_malloc n h);
  GC_malloc_atomic_law h n : h_ok h -> -2147483648 <= n < 2147483648 ->
    gc_post h (u32 n) false (GC_malloc_atomic n h);
  GC_free_law h p b : h_ok h -> gc_live h !! p = Some b ->
    h_ok (GC_free p h) /\ gc_live (GC_free p h) = delete p (gc_live h)
}.

(** ** lib/nogc.c: the collector's interface on the C library *)

Section nogc.
Context {L : Type} `{Libc L}.

Definition nogc_GC_malloc (x : Z) (h : L) : Z * L := calloc 1 (u32 x) h.

Definition nogc_GC_malloc_atomic (x : Z) (h : L) : Z * L := malloc (u32 x) h.

Definition nogc_GC_free (x : Z) (h : L) : L := free x h.

Definition nogc_GC_size (x : Z) : Z := 0.

Definition nogc_GC_get_heap_size : Z := 0.

Definition nogc_GC_get_free_bytes : Z := 0.

(** Every collector block is a C library block and conversely. *)
#[export] Instance nogc_heap : Heap L := {
  h_ok := c_ok;
  gc_live := c_live;
  lib_live := c_live;
  GC_malloc := nogc_GC_malloc;
  GC_malloc_atomic := nogc_GC_malloc_atomic;
  GC_free := nogc_GC_free;
  lib_malloc := malloc;
  lib_free := free
}.

Context `{!LibcLaws L}.

Lemma alloc_post_gc h n z r : alloc_post h n z r -> gc_post h n z r.
Proof.
  intros [Hok [[Hn Hl]|(Hg & Hf & Hl)]]; (split; [done|]); [left|right]; [done|].
  split_and!; try done. intros q Hq. simpl. rewrite Hl. by rewrite lookup_insert_ne.
Qed.

#[export] Instance nogc_laws : HeapLaws L.
Proof.
  split; simpl; intros h.
  - intros n Hok Hn. apply alloc_post_gc. unfold nogc_GC_malloc.
    pose proof (calloc_law h 1 (u32 n) Hok) as Hc. rewrite Z.mul_1_l in Hc.
    pose proof (u32_range n). apply Hc; lia.
  - intros n Hok Hn. apply alloc_post_gc, malloc_law; [done|apply u32_range].
  - intros p b Hok Hp. by apply (free_law h p b).
Qed.
End nogc.

(** ** A concrete C library heap: consecutive blocks up to a limit *)

Record bump : Type := mk_bump { b_next : Z; b_limit : Z; b_live : blocks }.

Definition block_size (n : Z) : Z := 8 * ((Z.max 1 n + 7) / 8).

Definition bump_alloc (z : bool) (n : Z) (h : bump) : Z * bump :=
  let top := b_next h + block_size n in
  if (top <? b_limit h) && (n <=? INT_MAX)
  then (b_next h, mk_bump top (b_limit h) (<[b_next h := (n, z)]> (b_live h)))
  else (0, h).

Definition bump_ok (h : bump) : Prop :=
  0 < b_next h /\ b_next h mod 8 = 0 /\ b_limit h <= 4294967296 /\
  forall q k z, b_live h !! q = Some (k, z) -> q + Z.max 1 k <= b_next h.

#[export] Instance bump_libc : Libc bump := {
  c_ok := bump_ok;
  c_live := b_live;
  malloc := bump_alloc false;
  calloc := fun n t => bump_alloc true (n * t);
  free := fun p h => mk_bump (b_next h) (b_limit h) (delete p (b_live h))
}.

Lemma block_size_spec n : block_size n mod 8 = 0 /\ Z.max 1 n <= block_size n.
Proof. unfold block_size. words. Qed.

Lemma bump_alloc_post h n z : bump_ok h -> alloc_post h n z (bump_alloc z n h).
Proof.
  intros (Hp & Ha & Hl & Hb). unfold bump_alloc. destruct (block_size_spec n) as [Hm Hs].
  destruct (_ && _) eqn:E; simpl; [|by split; [split_and!|left]].
  apply andb_prop in E as [E Hn]. split; [|right].
  - split_and!; simpl; try lia; [words|].
    intros q k z'. rewrite lookup_insert. case_decide; intros; simplify_eq; [lia|].
    pose proof (Hb _ _ _ ltac:(eassumption)). lia.
  - split; [unfold good_addr; simpl; lia|]. split; [|done].
    intros q k z' Hq. right. by eapply Hb.
Qed.

#[export] Instance bump_laws : LibcLaws bump.
Proof.
  split; simpl; intros.
  - by apply bump_alloc_post.
  - by apply bump_alloc_post.
  - split; [|done]. destruct H as (Hp & Ha & Hl & Hb). split_and!; simpl; try done.
    intros q k z. rewrite lookup_delete. case_decide; [done|]. apply Hb.
Qed.

Definition empty_bump : bump := mk_bump 4096 1048576 ∅.

Lemma empty_bump_ok : bump_ok empty_bump.
Proof. split_and!; simpl; try done; lia. Qed.
