(* ===== verification/Region.v ===== *)
(** * Regions

    Models the allocation part of lib/runtime_memory.c: the bounded collector
    allocations, lexical regions ([_new_region], [_region_malloc],
    [_region_calloc], [_free_region] and the inlined [_fast_region_malloc] of
    lib/cyc_include.h), the unique and reference-counted regions, the page
    statistics, and allocation in extended regions ([_xregion_malloc]).

    A region is a list of pages obtained from the heap; [curr] is the newest
    one, [offset] the first free byte in it and [last_plus_one] its end.  Page
    headers ([struct _RegionPage], 8 bytes on the target) are kept in the store
    [pages], region handles in [rgns], reference counts in [words]; the
    contents of the allocated objects are not part of the state. *)

From S2P Require Import Prelude Alloc RwLock.

(** ** Data *)

(** The only cleanup function the run-time system installs. *)
Inductive cleanup_fn : Type := __free_region_fn.

Record RuntimeStack : Type := mk_frame {
  tag : Z;
  next : Z;
  cleanup : option cleanup_fn
}.

Record RegionHandle : Type := mk_region {
  is_xrgn : Z;
  s : RuntimeStack;
  curr : Z;
  offset : Z;
  last_plus_one : Z;
  used_bytes : Z;
  wasted_bytes : Z
}.

Record XRegionHandle : Type := mk_xregion {
  x_is_xrgn : Z;
  caps : RegionCaps;
  x_curr : Z;
  x_offset : Z;
  x_last_plus_one : Z;
  single_thread_key : Z;
  mapped : Z
}.

(** A handle pointer designates one or the other; [is_xrgn] is the first field
    of both structures. *)
Inductive rgn : Type := ARegion (r : RegionHandle) | AnXRegion (x : XRegionHandle).

Record mem (H : Type) : Type := mk_mem {
  heap : H;
  rgns : gmap Z rgn;
  pages : gmap Z Z;           (* p->next *)
  words : gmap Z Z;           (* reference counts *)
  default_region_page_size : Z;
  default_xregion_page_size : Z
}.
Arguments mk_mem {H} _ _ _ _ _ _.
Arguments heap {H} _.
Arguments rgns {H} _.
Arguments pages {H} _.
Arguments words {H} _.
Arguments default_region_page_size {H} _.
Arguments default_xregion_page_size {H} _.

Definition set_heap {H} (h : H) (m : mem H) : mem H :=
  mk_mem h (rgns m) (pages m) (words m) (default_region_page_size m) (default_xregion_page_size m).
Definition set_rgn {H} (r : Z) (o : rgn) (m : mem H) : mem H :=
  mk_mem (heap m) (<[r := o]> (rgns m)) (pages m) (words m)
    (default_region_page_size m) (default_xregion_page_size m).
Definition set_page {H} (p n : Z) (m : mem H) : mem H :=
  mk_mem (heap m) (rgns m) (<[p := n]> (pages m)) (words m)
    (default_region_page_size m) (default_xregion_page_size m).
Definition del_page {H} (p : Z) (m : mem H) : mem H :=
  mk_mem (heap m) (rgns m) (delete p (pages m)) (words m)
    (default_region_page_size m) (default_xregion_page_size m).
Definition set_word {H} (p v : Z) (m : mem H) : mem H :=
  mk_mem (heap m) (rgns m) (pages m) (<[p := v]> (words m))
    (default_region_page_size m) (default_xregion_page_size m).
Definition del_word {H} (p : Z) (m : mem H) : mem H :=
  mk_mem (heap m) (rgns m) (pages m) (delete p (words m))
    (default_region_page_size m) (default_xregion_page_size m).
Definition set_default_page {H} (v : Z) (m : mem H) : mem H :=
  mk_mem (heap m) (rgns m) (pages m) (words m) v (default_xregion_page_size m).
Definition set_default_xpage {H} (v : Z) (m : mem H) : mem H :=
  mk_mem (heap m) (rgns m) (pages m) (words m) (default_region_page_size m) v.

Definition MAX_ALLOC_SIZE : Z := INT_MAX.
Definition _CYC_MAX_REGION_CONST : Z := 2.
Definition CYC_CORE_HEAP_REGION : Z := 0.
Definition CYC_CORE_UNIQUE_REGION : Z := 1.
Definition CYC_CORE_REFCNT_REGION : Z := 2.
Definition CYC_MIN_REGION_PAGE_SIZE : Z := 480.
Definition sizeof_RegionPage : Z := 8.
Definition sizeof_int : Z := 4.

Definition this_file : string := "runtime_memory.c".

Section ops.
Context {H : Type} `{Heap H}.

Definition throw {A} (e : exn) (file : string) (line : Z) : ST (mem H) A :=
  lift (Thrown e file line).

(** A call of an allocation function of the heap. *)
Definition on_heap (f : H -> Z * H) : ST (mem H) Z := fun m =>
  let '(p, h') := f (heap m) in (Ret p, set_heap h' m).

(** [GC_free]: freeing what is not allocated is undefined. *)
Definition gc_free (p : Z) : ST (mem H) unit := fun m =>
  match gc_live (heap m) !! p with
  | Some _ => (Ret tt, set_heap (GC_free p (heap m)) m)
  | None => (Undef, m)
  end.

Definition get_rgn (r : Z) : ST (mem H) rgn := m ← get; lift (load (rgns m) r).

(** ** Bounded collector allocation *)

Definition GC_calloc (n t : Z) : ST (mem H) Z := on_heap (GC_malloc (i32 (u32 (n * t)))).

Definition _bounded_GC_malloc (n : Z) (file : string) (lineno : Z) : ST (mem H) Z :=
  if MAX_ALLOC_SIZE <=? u32 n then throw Cyc_Bad_alloc file lineno
  else
    res ← on_heap (GC_malloc n);
    if res =? 0 then throw Cyc_Bad_alloc file lineno else mret res.

Definition _bounded_GC_malloc_atomic (n : Z) (file : string) (lineno : Z) : ST (mem H) Z :=
  if MAX_ALLOC_SIZE <=? u32 n then throw Cyc_Bad_alloc file lineno
  else
    res ← on_heap (GC_malloc_atomic n);
    if res =? 0 then throw Cyc_Bad_alloc file lineno else mret res.

Definition _bounded_GC_calloc (n s : Z) (file : string) (lineno : Z) : ST (mem H) Z :=
  let p := u32 (n * s) in
  if MAX_ALLOC_SIZE <=? p then throw Cyc_Bad_alloc file lineno
  else
    res ← GC_calloc n s;
    if res =? 0 then throw Cyc_Bad_alloc file lineno else mret res.

Definition _bounded_GC_calloc_atomic (n s : Z) (file : string) (lineno : Z) : ST (mem H) Z :=
  let p := u32 (n * s) in
  if MAX_ALLOC_SIZE <=? p then throw Cyc_Bad_alloc file lineno
  else
    res ← GC_calloc n s;
    if res =? 0 then throw Cyc_Bad_alloc file lineno else mret res.

(** The result is zeroed by [memset] whatever the allocator returned. *)
Definition GC_calloc_atomic (n t : Z) : ST (mem H) Z :=
  let p := u32 (n * t) in
  res ← on_heap (GC_malloc_atomic (i32 p));
  if res =? 0 then throw Cyc_Bad_alloc this_file 149 else mret res.

(** ** Unique and reference-counted pointers *)

Definition Cyc_Core_ufree (ptr : Z) : ST (mem H) unit :=
  if ptr =? 0 then mret tt else gc_free ptr.

(** [None] is the null pointer. *)
Definition get_refcnt (ptr : Z) : option Z :=
  if ptr =? 0 then None else Some (u32 (ptr - sizeof_int)).

Definition get_word (p : Z) : ST (mem H) Z := m ← get; lift (load (words m) p).

Definition Cyc_Core_refptr_count (ptr : Z) : ST (mem H) Z :=
  match get_refcnt ptr with Some cnt => get_word cnt | None => mret 0 end.

(** The argument is a fat pointer; only its base matters here. *)
Definition Cyc_Core_alias_refptr (base : Z) : ST (mem H) unit :=
  match get_refcnt base with
  | Some cnt => c ← get_word cnt; modify (set_word cnt (i32 (c + 1)))
  | None => mret tt
  end.

Definition Cyc_Core_drop_refptr (ptr : Z) : ST (mem H) unit :=
  match get_refcnt ptr with
  | Some cnt =>
      c ← get_word cnt;
      modify (set_word cnt (i32 (c - 1)));;
      c' ← get_word cnt;
      if c' =? 0 then gc_free (u32 (ptr - sizeof_int));; modify (del_word cnt) else mret tt
  | None => mret tt
  end.

(** ** Lexical regions *)

Definition Cyc_set_default_region_page_size (s : Z) : ST (mem H) bool :=
  if s <? CYC_MIN_REGION_PAGE_SIZE then mret false
  else modify (set_default_page s);; mret true.

Definition set_curr (p off lpo : Z) (used wasted : Z) (r : RegionHandle) : RegionHandle :=
  mk_region (is_xrgn r) (Region.s r) p off lpo used wasted.

Definition set_offset (off : Z) (r : RegionHandle) : RegionHandle :=
  mk_region (is_xrgn r) (Region.s r) (curr r) off (last_plus_one r) (used_bytes r) (wasted_bytes r).

(** Both page functions take the handle read through the pointer and return the
    one stored back. *)
Definition grow_region (r : RegionHandle) (s : Z) : ST (mem H) RegionHandle :=
  m ← get;
  let prev_size := u32 (last_plus_one r - (curr r + sizeof_RegionPage)) in
  let next_size := u32 (prev_size * 2) in
  let next_size := if next_size <? s then u32 (s + default_region_page_size m) else next_size in
  p ← _bounded_GC_calloc (u32 (sizeof_RegionPage + next_size)) 1 this_file 411;
  if p =? 0 then throw Cyc_Bad_alloc this_file 414
  else
    modify (set_page p (curr r));;
    mret (set_curr p (u32 (p + sizeof_RegionPage)) (u32 (p + sizeof_RegionPage + next_size))
            (u32 (used_bytes r + next_size))
            (u32 (wasted_bytes r + (last_plus_one r - offset r))) r).

Definition _get_first_region_page (r : RegionHandle) (s : Z) : ST (mem H) RegionHandle :=
  m ← get;
  let page_size := if default_region_page_size m <? s then s else default_region_page_size m in
  p ← _bounded_GC_calloc (u32 (sizeof_RegionPage + page_size)) 1 this_file 442;
  if p =? 0 then throw Cyc_Bad_alloc this_file 444
  else
    modify (set_page p 0);;
    mret (set_curr p (u32 (p + sizeof_RegionPage)) (u32 (p + sizeof_RegionPage + page_size))
            page_size 0 r).

(** The allocation in a lexical region shared by [_region_malloc] and
    [_region_calloc]; [s] is the rounded size. *)
Definition bump_region (r : Z) (h : RegionHandle) (s : Z) : ST (mem H) Z :=
  h' ← (if curr h =? 0 then _get_first_region_page h s
        else if u32 (last_plus_one h - offset h) <? s then grow_region h s
        else mret h);
  let result := offset h' in
  modify (set_rgn r (ARegion (set_offset (u32 (result + s)) h')));;
  mret result.

(** ** Extended regions *)

Definition x_set_caps (g : RegionCaps) (x : XRegionHandle) : XRegionHandle :=
  mk_xregion (x_is_xrgn x) g (x_curr x) (x_offset x) (x_last_plus_one x)
    (single_thread_key x) (mapped x).

(** [wait_lock] and [unlock] as seen by a thread running alone: the interleaved
    behaviour is in Futex.v. *)
Definition x_set_lock (v : Z) (x : XRegionHandle) : XRegionHandle :=
  let g := caps x in
  x_set_caps (mk_rcaps (g_rcnt g) v (writer_cv g) (reader_cv g) (writer_q g) (reader_q g)
    (g_rd_cnt g)) x.

Definition get_xrgn (r : Z) : ST (mem H) XRegionHandle :=
  o ← get_rgn r; match o with AnXRegion x => mret x | ARegion _ => lift Undef end.

Definition wait_lock (self r : Z) : ST (mem H) unit :=
  x ← get_xrgn r;
  if g_lock (caps x) =? 0 then modify (set_rgn r (AnXRegion (x_set_lock self x)))
  else lift Blocked.

Definition unlock (self r : Z) : ST (mem H) unit :=
  x ← get_xrgn r;
  lift (cassert (g_lock (caps x) =? self) "*lock == self");;
  modify (set_rgn r (AnXRegion (x_set_lock 0 x))).

Definition x_set_arena (c o l : Z) (x : XRegionHandle) : XRegionHandle :=
  mk_xregion (x_is_xrgn x) (caps x) c o l (single_thread_key x) (mapped x).

Definition Cyc_set_default_xregion_page_size (s : Z) : ST (mem H) bool :=
  modify (set_default_xpage s);; mret true.

(** The part of [_xregion_malloc] between [wait_lock] and [unlock]. *)
Definition xregion_bump (r s : Z) : ST (mem H) Z :=
  x ← get_xrgn r;
  m ← get;
  x' ← (if u32 (x_last_plus_one x - x_offset x) <? s then
          let next_size :=
            if x_offset x =? 0 then default_xregion_page_size m
            else u32 (u32 (x_last_plus_one x - (x_curr x + sizeof_RegionPage)) * 2) in
          let next_size := if next_size <? s then s else next_size in
          let alloc_size := u32 (sizeof_RegionPage + next_size) in
          p ← on_heap (GC_malloc_atomic (i32 alloc_size));
          if p =? 0 then throw Cyc_Bad_alloc this_file 1398
          else
            modify (set_page p (x_curr x));;
            mret (x_set_arena p (u32 (p + sizeof_RegionPage))
                    (u32 (p + sizeof_RegionPage + next_size)) x)
        else mret x);
  let off := x_offset x' in
  modify (set_rgn r (AnXRegion (x_set_arena (x_curr x') (u32 (off + s)) (x_last_plus_one x') x')));;
  mret off.

Definition _xregion_malloc (self r s : Z) : ST (mem H) Z :=
  let s := round_up s in
  x ← get_xrgn r;
  let rcnt := g_rcnt (caps x) in
  (if rcnt =? 1 then mret tt else wait_lock self r);;
  off ← xregion_bump r s;
  (if rcnt =? 1 then mret tt else unlock self r);;
  mret off.

Definition _xregion_calloc (self r s : Z) : ST (mem H) Z := _xregion_malloc self r s.

(** ** Allocation in a region designated by a handle pointer *)

Definition _region_malloc (self r s : Z) : ST (mem H) Z :=
  if _CYC_MAX_REGION_CONST <? r then
    o ← get_rgn r;
    match o with
    | AnXRegion x =>
        if x_is_xrgn x =? 0 then lift Undef else _xregion_malloc self r s
    | ARegion h =>
        if is_xrgn h =? 0 then bump_region r h (round_up s) else lift Undef
    end
  else if negb (r =? CYC_CORE_REFCNT_REGION) then
    result ← _bounded_GC_malloc (i32 s) this_file 495;
    if result =? 0 then throw Cyc_Bad_alloc this_file 497 else mret result
  else
    result ← _bounded_GC_malloc (i32 (u32 (s + sizeof_int))) this_file 513;
    if result =? 0 then throw Cyc_Bad_alloc this_file 515
    else modify (set_word result 1);; mret (u32 (result + sizeof_int)).

Definition _region_calloc (self r n t : Z) : ST (mem H) Z :=
  let s := u32 (n * t) in
  if _CYC_MAX_REGION_CONST <? r then
    o ← get_rgn r;
    match o with
    | AnXRegion x =>
        if x_is_xrgn x =? 0 then lift Undef else _xregion_calloc self r s
    | ARegion h =>
        if is_xrgn h =? 0 then bump_region r h (round_up s) else lift Undef
    end
  else if negb (r =? CYC_CORE_REFCNT_REGION) then
    result ← _bounded_GC_calloc n t this_file 558;
    if result =? 0 then throw Cyc_Bad_alloc this_file 560 else mret result
  else
    result ← _bounded_GC_calloc (u32 (n * t + sizeof_int)) 1 this_file 573;
    if result =? 0 then throw Cyc_Bad_alloc this_file 575
    else modify (set_word result 1);; mret (u32 (result + sizeof_int)).

(** The inlined fast path of the compiled code.  It does not look at [is_xrgn]:
    on an extended region the words at the offsets of [curr], [offset] and
    [last_plus_one] in [struct _RegionHandle] are [caps.reader_cv],
    [caps.writer_q] and [caps.reader_q]. *)
Definition _fast_region_malloc (self r orig_s : Z) : ST (mem H) Z :=
  if _CYC_MAX_REGION_CONST <? r then
    o ← get_rgn r;
    let '(cur, off, lpo) :=
      match o with
      | ARegion h => (curr h, offset h, last_plus_one h)
      | AnXRegion x => (reader_cv (caps x), writer_q (caps x), reader_q (caps x))
      end in
    if cur =? 0 then _region_malloc self r orig_s
    else
      let s := round_up orig_s in
      let result := off in
      if s <=? u32 (lpo - result)
      then
        modify (set_rgn r
          match o with
          | ARegion h => ARegion (set_offset (u32 (result + s)) h)
          | AnXRegion x =>
              AnXRegion (x_set_caps (set_writer_q (u32 (result + s)) (caps x)) x)
          end);;
        mret result
      else _region_malloc self r orig_s
  else _region_malloc self r orig_s.

Definition _new_region : RegionHandle :=
  mk_region 0 (mk_frame 1 0 None) 0 0 0 0 0.

(** The loop of [_free_region].  Every page visited is freed, so the number of
    pages in the store bounds the number of iterations. *)
Fixpoint free_pages (fuel : nat) (p : Z) : ST (mem H) unit :=
  if p =? 0 then mret tt
  else match fuel with
       | O => lift Undef
       | S fuel =>
           m ← get;
           n ← lift (load (pages m) p);
           gc_free p;;
           modify (del_page p);;
           free_pages fuel n
       end.

Definition _free_region (r : Z) : ST (mem H) unit :=
  o ← get_rgn r;
  match o with
  | AnXRegion _ => lift (Exit "internal error: _free_region: attempting to free a xrgn")
  | ARegion h =>
      if negb (is_xrgn h =? 0)
      then lift (Exit "internal error: _free_region: attempting to free a xrgn")
      else
        m ← get;
        free_pages (S (size (pages m))) (curr h);;
        modify (set_rgn r (ARegion (set_curr 0 0 0 (used_bytes h) (wasted_bytes h) h)))
  end.

(** ** Statistics *)

(** [gc] is what the collector reports for the heap and unique regions. *)
Definition region_get_heap_size (gc r : Z) : ST (mem H) Z :=
  if _CYC_MAX_REGION_CONST <? r then
    o ← get_rgn r;
    match o with
    | AnXRegion _ => mret 0
    | ARegion h => if is_xrgn h =? 0 then mret (i32 (used_bytes h)) else mret 0
    end
  else mret (i32 gc).

Definition region_get_free_bytes (gc r : Z) : ST (mem H) Z :=
  if _CYC_MAX_REGION_CONST <? r then
    o ← get_rgn r;
    match o with
    | AnXRegion _ => mret 0
    | ARegion h =>
        if is_xrgn h =? 0 then mret (i32 (u32 (last_plus_one h - offset h))) else mret 0
    end
  else mret (i32 gc).

Definition region_get_total_bytes (gc r : Z) : ST (mem H) Z :=
  if _CYC_MAX_REGION_CONST <? r then
    o ← get_rgn r;
    match o with
    | AnXRegion _ => mret 0
    | ARegion h =>
        if is_xrgn h =? 0
        then mret (i32 (u32 (used_bytes h - wasted_bytes h
                             - u32 (last_plus_one h - offset h))))
        else mret 0
    end
  else mret (i32 gc).
End ops.
