(* ===== verification/RegionSafety.v ===== *)
(** * Correctness of region allocation

    The abstract view of a region is its list of pages and the list of objects
    allocated in it ([arena]).  [mem_inv] relates the stores of Region.v to a
    map of arenas; every allocation adds an object that overlaps nothing, and
    freeing a region releases exactly its pages. *)

From S2P Require Import Prelude Alloc FatPtr RwLock Region.

Record arena : Type := mk_arena {
  a_lex : bool;              (* a lexical region, not an extended one *)
  a_pages : list (Z * Z);    (* page address and block size, newest first *)
  a_objs : list (Z * Z)      (* object address and requested size *)
}.

Definition apart (a b : Z * Z) : Prop := a.1 + a.2 <= b.1 \/ b.1 + b.2 <= a.1.

(** The [next] pointers from [p] visit exactly [l]. *)
Fixpoint chain (pg : gmap Z Z) (p : Z) (l : list Z) : Prop :=
  match l with
  | [] => p = 0
  | q :: l => p = q /\ q <> 0 /\ exists n, pg !! q = Some n /\ chain pg n l
  end.

Definition arena_of (o : rgn) : Z * Z * Z :=
  match o with
  | ARegion h => (curr h, offset h, last_plus_one h)
  | AnXRegion x => (x_curr x, x_offset x, x_last_plus_one x)
  end.

(** Lexical regions promise zero-filled pages, extended ones do not. *)
Definition zero_pages (o : rgn) : bool :=
  match o with ARegion _ => true | AnXRegion _ => false end.

Definition kind_ok (o : rgn) : Prop :=
  match o with ARegion h => is_xrgn h = 0 | AnXRegion x => x_is_xrgn x <> 0 end.

Definition has_kind (a : arena) (o : rgn) : Prop := kind_ok o /\ zero_pages o = a_lex a.

(** An object at [p] of size [n] in a page, below the cursor if the page is the
    current one. *)
Definition obj_in (a : arena) (c off : Z) (p n : Z) : Prop :=
  exists q k, (q, k) ∈ a_pages a /\ q + 8 <= p /\ p mod 8 = 0 /\ 0 <= n /\
    p + n <= q + k /\ (q = c -> p + n <= off).

Record arena_ok (pg : gmap Z Z) (lv : blocks) (z : bool) (cur : Z * Z * Z) (a : arena) : Prop := {
  ao_chain : chain pg cur.1.1 (a_pages a).*1;
  ao_nodup : NoDup (a_pages a).*1;
  ao_live q n : (q, n) ∈ a_pages a -> lv !! q = Some (n, z) /\ 8 <= n;
  ao_cursor :
    match a_pages a with
    | [] => cur.1.2 = 0 /\ cur.2 = 0
    | (q, n) :: _ => q + 8 <= cur.1.2 <= cur.2 /\ cur.2 = q + n /\ cur.1.2 mod 8 = 0
    end;
  ao_objs p n : (p, n) ∈ a_objs a -> obj_in a cur.1.1 cur.1.2 p n;
  ao_apart : ForallOrdPairs apart (a_objs a)
}.

Record mem_inv {H} `{Heap H} (m : mem H) (A : gmap Z arena) : Prop := {
  mi_ok : h_ok (heap m);
  mi_good p n z : gc_live (heap m) !! p = Some (n, z) -> good_addr p n;
  mi_disj p n z q k z' : gc_live (heap m) !! p = Some (n, z) ->
    gc_live (heap m) !! q = Some (k, z') -> p <> q -> disjoint_block p n q k;
  mi_rgn r a : A !! r = Some a -> _CYC_MAX_REGION_CONST < r /\
    exists o, rgns m !! r = Some o /\ has_kind a o /\
      arena_ok (pages m) (gc_live (heap m)) (zero_pages o) (arena_of o) a;
  mi_own r1 r2 a1 a2 q : A !! r1 = Some a1 -> A !! r2 = Some a2 ->
    q ∈ (a_pages a1).*1 -> q ∈ (a_pages a2).*1 -> r1 = r2;
  mi_dflt : CYC_MIN_REGION_PAGE_SIZE <= default_region_page_size m <= INT_MAX;
  mi_xdflt : 0 <= default_xregion_page_size m <= INT_MAX
}.

(** ** Lemmas on the invariant *)

Lemma chain_insert pg p n c l : p ∉ l -> chain pg c l -> chain (<[p := n]> pg) c l.
Proof.
  revert c. induction l as [|q l IH]; intros c Hp; [done|].
  intros (-> & Hq & k & Hk & Hc). apply not_elem_of_cons in Hp as [Hne Hp].
  split_and!; [done|done|]. exists k. rewrite lookup_insert_ne by congruence. auto.
Qed.

Lemma chain_delete pg p c l : p ∉ l -> chain pg c l -> chain (delete p pg) c l.
Proof.
  revert c. induction l as [|q l IH]; intros c Hp; [done|].
  intros (-> & Hq & k & Hk & Hc). apply not_elem_of_cons in Hp as [Hne Hp].
  split_and!; [done|done|]. exists k. rewrite lookup_delete_ne by congruence. auto.
Qed.

Lemma ForallOrdPairs_cons_apart (x : Z * Z) l :
  (forall y, y ∈ l -> apart x y) -> ForallOrdPairs apart l -> ForallOrdPairs apart (x :: l).
Proof. intros Hx Hl. constructor; [|done]. apply List.Forall_forall. intros y Hy.
  apply Hx. by apply list_elem_of_In. Qed.

Section lemmas.
Context {H : Type} `{HH : Heap H} `{!HeapLaws H}.
Implicit Types (m : mem H) (A : gmap Z arena) (lv : blocks).

(** Arenas survive changes of the stores outside their pages. *)
Lemma arena_ok_mono (pg pg' : gmap Z Z) lv lv' z cur a :
  (forall q, q ∈ (a_pages a).*1 -> lv' !! q = lv !! q) ->
  (forall c, chain pg c (a_pages a).*1 -> chain pg' c (a_pages a).*1) ->
  arena_ok pg lv z cur a -> arena_ok pg' lv' z cur a.
Proof.
  intros Hlv Hpg [Hc Hn Hl Hcu Ho Hd]. split; auto.
  intros q n Hq. rewrite Hlv; [by apply Hl|]. apply list_elem_of_fmap. by exists (q, n).
Qed.

Lemma page_live m A r a q : mem_inv m A -> A !! r = Some a -> q ∈ (a_pages a).*1 ->
  exists n z, gc_live (heap m) !! q = Some (n, z) /\ 8 <= n.
Proof.
  intros Hi Hr Hq. apply list_elem_of_fmap in Hq as ([q' n] & -> & Hq).
  destruct (mi_rgn _ _ Hi r a Hr) as (_ & o & _ & _ & Ho).
  destruct (ao_live _ _ _ _ _ Ho _ _ Hq). eauto.
Qed.

(** What a successful allocation of [n] bytes at [p] does to the heap. *)
Definition fresh_block (m m' : mem H) (n : Z) (z : bool) (p : Z) : Prop :=
  exists h', m' = set_heap h' m /\ h_ok h' /\ good_addr p n /\
    fresh_in p n (gc_live (heap m)) /\ gc_live h' = <[p := (n, z)]> (gc_live (heap m)).

(** A failed allocation leaves the live blocks alone. *)
Definition same_heap (m m' : mem H) : Prop :=
  exists h', m' = set_heap h' m /\ h_ok h' /\ gc_live h' = gc_live (heap m).

Lemma same_heap_inv m m' A : mem_inv m A -> same_heap m m' -> mem_inv m' A.
Proof.
  intros [Ho Hg Hd Hr Hw Hs Hx] (h' & -> & Hok & Hl).
  split; simpl; rewrite ?Hl; eauto.
Qed.

Lemma fresh_not_live m n p q k z : fresh_in p n (gc_live (heap m)) ->
  gc_live (heap m) !! q = Some (k, z) -> p <> q.
Proof. intros Hf Hq ->. destruct (Hf _ _ _ Hq); lia. Qed.

Lemma fresh_not_page m A r a n p : mem_inv m A -> fresh_in p n (gc_live (heap m)) ->
  A !! r = Some a -> p ∉ (a_pages a).*1.
Proof.
  intros Hi Hf Hr Hp. destruct (page_live _ _ _ _ _ Hi Hr Hp) as (k & z & Hk & _).
  by eapply fresh_not_live.
Qed.

(** A block allocated outside every region keeps the invariant. *)
Lemma fresh_block_inv m m' A n z p : mem_inv m A -> fresh_block m m' n z p -> mem_inv m' A.
Proof.
  intros Hi (h' & -> & Hok & Hgo & Hf & Hl). pose proof Hi as [Ho Hg Hd Hr Hw Hs Hx].
  split; simpl; rewrite ?Hl; try done.
  - intros q k z'. rewrite lookup_insert. case_decide; intros; simplify_eq; eauto.
  - intros q k z' q2 k2 z2. rewrite !lookup_insert.
    repeat case_decide; intros; simplify_eq; eauto. destruct (Hf q k z'); [done|right..|left]; lia.
  - intros r a Hra. destruct (Hr r a Hra) as (H2 & o & Hro & Hk & Ha).
    split; [done|]. exists o. split_and!; try done. eapply arena_ok_mono, Ha; [|done].
    intros q Hq. rewrite lookup_insert_ne; [done|]. intros ->.
    by eapply (fresh_not_page m A r a).
Qed.

(** Storing back a handle whose cursor moved. *)
Lemma set_rgn_inv m A r a o' :
  mem_inv m A -> A !! r = Some a -> has_kind a o' ->
  arena_ok (pages m) (gc_live (heap m)) (zero_pages o') (arena_of o') a ->
  mem_inv (set_rgn r o' m) A.
Proof.
  intros [Ho Hg Hd Hr Hw Hs Hx] Hra Hk Ha. split; simpl; try done.
  intros r1 a1 H1. destruct (Hr r1 a1 H1) as (H2 & o1 & Ho1 & Hk1 & Ha1).
  split; [done|]. destruct (decide (r1 = r)) as [-> |Hne].
  - exists o'. rewrite lookup_insert_eq. by simplify_eq.
  - exists o1. by rewrite lookup_insert_ne.
Qed.

(** Growing the object list of a region, in a state whose stores already agree. *)
Lemma arena_update_inv m A r a a' o' :
  mem_inv m A -> A !! r = Some a -> (a_pages a').*1 = (a_pages a).*1 -> has_kind a' o' ->
  arena_ok (pages m) (gc_live (heap m)) (zero_pages o') (arena_of o') a' ->
  mem_inv (set_rgn r o' m) (<[r := a']> A).
Proof.
  intros [Ho Hg Hd Hr Hw Hs Hx] Hra Hpg Hk Ha. split; simpl; try done.
  - intros r1 a1. rewrite !lookup_insert. case_decide; intros; simplify_eq.
    + destruct (Hr _ _ Hra) as (? & _). split; [done|]. by exists o'.
    + by apply Hr.
  - intros r1 r2 a1 a2 q. rewrite !lookup_insert.
    repeat case_decide; intros; simplify_eq; try done; try rewrite Hpg in *; eauto.
Qed.

(** The object handed out from the free part of the current page. *)
Lemma bump_inv m A r a o o' n rn :
  mem_inv m A -> A !! r = Some a -> rgns m !! r = Some o -> kind_ok o' ->
  zero_pages o' = zero_pages o -> a_pages a <> [] ->
  arena_of o' = ((arena_of o).1.1, (arena_of o).1.2 + rn, (arena_of o).2) ->
  0 <= n <= rn -> rn mod 8 = 0 -> (arena_of o).1.2 + rn <= (arena_of o).2 ->
  mem_inv (set_rgn r o' m)
    (<[r := mk_arena (a_lex a) (a_pages a) (((arena_of o).1.2, n) :: a_objs a)]> A).
Proof.
  intros Hi Hra Hro Hk Hz Hne Hao Hn Hm Hle.
  destruct (mi_rgn _ _ Hi _ _ Hra) as (_ & o1 & Ho1 & Hk1 & Ha). simplify_eq.
  apply (arena_update_inv m A r a); [done..| |]; [split; [done|]; rewrite Hz; apply Hk1|].
  rewrite Hao, Hz.
  destruct (arena_of o) as [[c off] l]. simpl in *.
  destruct Ha as [Hc Hnd Hl Hcu Ho Hd]. simpl in *.
  destruct (a_pages a) as [|[q k] pgs] eqn:Ep; [done|].
  destruct Hc as (-> & Hq0 & Hc). destruct Hcu as (Hcu & -> & Hom).
  assert (Hob : forall p s, (p, s) ∈ a_objs a -> obj_in a q off p s) by done.
  split; simpl; rewrite ?Ep; try done.
  - split_and!; try lia. words.
  - intros p s' Hp. apply elem_of_cons in Hp as [Hp|Hp].
    + simplify_eq. exists q, k. cbn [a_pages]. try rewrite Ep. split_and!; [left|..]; lia.
    + destruct (Hob p s' Hp) as (q1 & k1 & Hin & ?). exists q1, k1.
      simpl. rewrite Ep in *. split_and!; try tauto. intros. lia.
  - apply ForallOrdPairs_cons_apart; [|done]. intros [p s'] Hp. unfold apart. simpl.
    destruct (Hob p s' Hp) as (q1 & k1 & Hin & Hp1 & _ & Hs & Hp2 & Hp3). rewrite Ep in Hin.
    destruct (decide (q1 = q)) as [|Hqq]; [lia|].
    destruct (Hl q1 k1 Hin) as [Hl1 ?]. destruct (Hl q k ltac:(left)) as [Hl2 ?].
    destruct (mi_disj _ _ Hi _ _ _ _ _ _ Hl1 Hl2 Hqq); lia.
Qed.

(** The first object of a new page: the region that receives the page. *)
Lemma arena_new_page (pg : gmap Z Z) lv z c off l a p k n rn :
  arena_ok pg lv z (c, off, l) a -> good_addr p k -> fresh_in p k lv ->
  p ∉ (a_pages a).*1 -> 0 <= n <= rn -> rn mod 8 = 0 -> 8 + rn <= k ->
  arena_ok (<[p := c]> pg) (<[p := (k, z)]> lv) z (p, p + 8 + rn, p + k)
    (mk_arena (a_lex a) ((p, k) :: a_pages a) ((p + 8, n) :: a_objs a)).
Proof.
  intros [Hc Hnd Hlv Hcu Hob Hdj] (? & ? & ? & ?) Hf Hnew Hn Hm Hle. simpl in *.
  assert (Hin : forall q k', (q, k') ∈ a_pages a -> p <> q).
  { intros q k' Hq ->. apply Hnew, list_elem_of_fmap. by exists (q, k'). }
  split; simpl.
  - split_and!; [done|lia|]. exists c. rewrite lookup_insert_eq. split; [done|].
    by apply chain_insert.
  - by constructor.
  - intros q k' Hq. apply elem_of_cons in Hq as [Hq|Hq]; simplify_eq.
    + rewrite lookup_insert_eq. split; [done|lia].
    + rewrite lookup_insert_ne by eauto. auto.
  - split_and!; try lia. words.
  - intros p1 s' Hp. apply elem_of_cons in Hp as [Hp|Hp]; simplify_eq.
    + exists p, k. simpl. split_and!; [left|..]; try lia. words.
    + destruct (Hob _ _ Hp) as (q1 & k1 & Hq1 & ? & ? & ? & ? & ?). exists q1, k1.
      split_and!; try done; [by right|]. intros ->. by destruct (Hin _ _ Hq1).
  - apply ForallOrdPairs_cons_apart; [|done]. intros [p1 s'] Hp. unfold apart. simpl.
    destruct (Hob _ _ Hp) as (q1 & k1 & Hq1 & ? & ? & ? & ? & ?).
    destruct (Hlv _ _ Hq1) as [Hl1 ?]. destruct (Hf _ _ _ Hl1); lia.
Qed.

(** The first object of a new page: the whole state. *)
Lemma new_page_inv m m1 A r a o o' p k n rn :
  mem_inv m A -> A !! r = Some a -> rgns m !! r = Some o ->
  fresh_block m m1 k (zero_pages o) p -> kind_ok o' -> zero_pages o' = zero_pages o ->
  arena_of o' = (p, p + 8 + rn, p + k) ->
  0 <= n <= rn -> rn mod 8 = 0 -> 8 + rn <= k ->
  mem_inv (set_rgn r o' (set_page p (arena_of o).1.1 m1))
    (<[r := mk_arena (a_lex a) ((p, k) :: a_pages a) ((p + 8, n) :: a_objs a)]> A).
Proof.
  intros Hi Hra Hro Hfb Hk Hz Hao Hn Hm Hle.
  pose proof (fresh_block_inv _ _ _ _ _ _ Hi Hfb) as Hi1.
  destruct Hfb as (h' & -> & Hok & Hgo & Hf & Hl).
  assert (Hnew : forall r1 a1, A !! r1 = Some a1 -> p ∉ (a_pages a1).*1)
    by (intros r1 a1 Ha1; exact (fresh_not_page m A r1 a1 k p Hi Hf Ha1)).
  destruct (mi_rgn _ _ Hi _ _ Hra) as (Hr2 & o1 & Ho1 & Hk1 & Ha). simplify_eq.
  pose proof Hi1 as [Ho Hg Hd Hr Hw Hs Hx]. simpl in *.
  split; simpl; try done.
  - intros r1 a1. rewrite !lookup_insert. case_decide; intros Ha1; simplify_eq.
    + split; [done|]. exists o'. split; [done|].
      split; [split; [done|]; rewrite Hz; apply Hk1|]. rewrite Hao, Hz, Hl.
      destruct (arena_of o) as [[c off] l]. eapply arena_new_page; eauto.
    + destruct (Hr _ _ Ha1) as (? & o1 & Ho1' & Hk1' & Hao1). split; [done|].
      exists o1. split_and!; try done. eapply arena_ok_mono, Hao1; [done|].
      intros c. apply chain_insert; eauto.
  - intros r1 r2 a1 a2 q. rewrite !lookup_insert.
    repeat case_decide; intros Ha1 Ha2 Hq1 Hq2; simplify_eq; try done; simpl in *.
    + apply elem_of_cons in Hq1 as [-> |Hq1]; [by destruct (Hnew _ _ Ha2)|eauto].
    + apply elem_of_cons in Hq2 as [-> |Hq2]; [by destruct (Hnew _ _ Ha1)|eauto].
    + eauto.
Qed.

(** ** The heap functions *)

Lemma on_heap_cases f m n z : gc_post (heap m) n z (f (heap m)) ->
  exists p m', on_heap f m = (Ret p, m') /\
    ((p = 0 /\ same_heap m m') \/ (p <> 0 /\ fresh_block m m' n z p)).
Proof.
  unfold on_heap. destruct (f (heap m)) as [p h'].
  intros [Hok [(Hp & Hg & _)|(Hga & Hf & _ & Hg & _)]]; simpl in *; exists p; eexists;
    (split; [done|]); [left|right].
  - split; [done|]. by exists h'.
  - split; [destruct Hga; lia|]. by exists h'.
Qed.

Lemma bounded_malloc_cases m n file line : h_ok (heap m) -> 0 <= n < INT_MAX ->
  (exists m', _bounded_GC_malloc n file line m = (Thrown Cyc_Bad_alloc file line, m') /\
     same_heap m m') \/
  (exists p m', _bounded_GC_malloc n file line m = (Ret p, m') /\ p <> 0 /\
     fresh_block m m' n true p).
Proof.
  intros Hok Hn. unfold _bounded_GC_malloc, MAX_ALLOC_SIZE, INT_MAX in *.
  rewrite u32_small by lia. destruct (_ <=? n) eqn:E; [lia|].
  destruct (on_heap_cases (GC_malloc n) m n true) as (p & m' & He & Hc).
  { rewrite <- (u32_small n) at 1 by lia. apply GC_malloc_law; [done|lia]. }
  unfold mbind, st_bind. rewrite He. destruct Hc as [[-> Hs]|[Hp Hf]]; simpl.
  - left. by exists m'.
  - right. exists p, m'. by rewrite (proj2 (Z.eqb_neq p 0) Hp).
Qed.

Lemma bounded_malloc_atomic_cases m n file line : h_ok (heap m) -> 0 <= n < INT_MAX ->
  (exists m', _bounded_GC_malloc_atomic n file line m = (Thrown Cyc_Bad_alloc file line, m') /\
     same_heap m m') \/
  (exists p m', _bounded_GC_malloc_atomic n file line m = (Ret p, m') /\ p <> 0 /\
     fresh_block m m' n false p).
Proof.
  intros Hok Hn. unfold _bounded_GC_malloc_atomic, MAX_ALLOC_SIZE, INT_MAX in *.
  rewrite u32_small by lia. destruct (_ <=? n) eqn:E; [lia|].
  destruct (on_heap_cases (GC_malloc_atomic n) m n false) as (p & m' & He & Hc).
  { rewrite <- (u32_small n) at 1 by lia. apply GC_malloc_atomic_law; [done|lia]. }
  unfold mbind, st_bind. rewrite He. destruct Hc as [[-> Hs]|[Hp Hf]]; simpl.
  - left. by exists m'.
  - right. exists p, m'. by rewrite (proj2 (Z.eqb_neq p 0) Hp).
Qed.

Lemma set_word_inv m A a v : mem_inv m A -> mem_inv (set_word a v m) A.
Proof. intros [? ? ? ? ? ? ?]. by split. Qed.

Lemma bounded_calloc_cases m n s file line : h_ok (heap m) ->
  (exists m', _bounded_GC_calloc n s file line m = (Thrown Cyc_Bad_alloc file line, m') /\
     same_heap m m') \/
  (exists p m', _bounded_GC_calloc n s file line m = (Ret p, m') /\ p <> 0 /\
     fresh_block m m' (u32 (n * s)) true p /\ u32 (n * s) < INT_MAX).
Proof.
  intros Hok. unfold _bounded_GC_calloc, MAX_ALLOC_SIZE. destruct (INT_MAX <=? _) eqn:E.
  { left. exists m. split; [done|]. exists (heap m). by destruct m. }
  pose proof (u32_range (n * s)). unfold GC_calloc.
  rewrite i32_small by (unfold INT_MAX in *; lia).
  destruct (on_heap_cases (GC_malloc (u32 (n * s))) m (u32 (n * s)) true) as (p & m' & He & Hc).
  { rewrite <- (u32_u32 (n * s)) at 1. apply GC_malloc_law; [done|]. unfold INT_MAX in *. lia. }
  unfold mbind, st_bind. rewrite He. destruct Hc as [[-> Hs]|[Hp Hf]]; simpl.
  - left. by exists m'.
  - right. exists p, m'. rewrite (proj2 (Z.eqb_neq p 0) Hp). split_and!; try done. lia.
Qed.

(** ** Allocation in a region *)

(** The blocks [new] are added to the live blocks, and nothing else changes. *)
Definition grew (m m' : mem H) (new : list Z) : Prop :=
  (forall q, q ∈ new -> gc_live (heap m) !! q = None) /\
  (forall q, q ∉ new -> gc_live (heap m') !! q = gc_live (heap m) !! q).

Lemma grew_nil m m' : gc_live (heap m') = gc_live (heap m) -> grew m m' [].
Proof. intros He. split; intros q Hq; [by apply not_elem_of_nil in Hq|by rewrite He]. Qed.

Lemma fresh_block_grew m m0 k z p : fresh_block m m0 k z p -> grew m m0 [p].
Proof.
  intros (h' & -> & _ & _ & Hf & Hl). split; intros q Hq; rewrite list_elem_of_singleton in Hq.
  - subst q. apply eq_None_not_Some. intros [[k' z'] Hk]. by eapply fresh_not_live.
  - simpl. by rewrite Hl, lookup_insert_ne.
Qed.

(** The new object with the pages that had to be added for it, or
    [Cyc_Bad_alloc] and the same objects and blocks as before. *)
Definition alloc_result (m : mem H) (A : gmap Z arena) (r : Z) (a : arena) (n : Z)
    (res : out Z * mem H) : Prop :=
  match res with
  | (Ret p, m') => exists new,
      mem_inv m' (<[r := mk_arena (a_lex a) (new ++ a_pages a) ((p, n) :: a_objs a)]> A) /\
      grew m m' new.*1
  | (Thrown Cyc_Bad_alloc _ _, m') => mem_inv m' A /\ grew m m' []
  | _ => False
  end.

Lemma same_heap_result m m' A : mem_inv m A -> same_heap m m' -> mem_inv m' A /\ grew m m' [].
Proof.
  intros Hi Hs. split; [by eapply same_heap_inv|]. destruct Hs as (h' & -> & _ & Hl).
  by apply grew_nil.
Qed.

Lemma cursor_facts m A r a o : mem_inv m A -> A !! r = Some a -> rgns m !! r = Some o ->
  let '(c, off, l) := arena_of o in
  (a_pages a = [] /\ c = 0 /\ off = 0 /\ l = 0) \/
  (exists q k pgs, a_pages a = (q, k) :: pgs /\ c = q /\ 0 < q /\ q + 8 <= off <= l /\
     l = q + k /\ off mod 8 = 0 /\ l < 4294967296 /\ k <= INT_MAX).
Proof.
  intros Hi Hra Hro. destruct (mi_rgn _ _ Hi _ _ Hra) as (_ & o1 & Ho1 & _ & [Hc _ Hl Hcu _ _]).
  simplify_eq. destruct (arena_of o) as [[c off] l]. simpl in *.
  destruct (a_pages a) as [|[q k] pgs]; simpl in *; [left; by destruct Hcu|].
  right. destruct Hc as (-> & ? & _). destruct (Hl q k ltac:(left)) as [Hlv ?].
  destruct (mi_good _ _ Hi _ _ _ Hlv) as (? & ? & ? & ?).
  exists q, k, pgs. split_and!; try done; lia.
Qed.

Lemma rounded n : 0 <= n <= MAX_MALLOC_SIZE ->
  round_up n mod 8 = 0 /\ n <= round_up n < n + 8 /\ round_up n <= MAX_MALLOC_SIZE.
Proof.
  unfold MAX_MALLOC_SIZE. change (Z.shiftl 1 28) with 268435456. intros Hn.
  destruct (round_up_spec n) as [Hm Hr]; [lia|lia|]. split_and!; try done; try lia.
  words.
Qed.


(** A page of at least [rn] usable bytes in front of the page list. *)
Definition page_result (m : mem H) (h : RegionHandle) (rn : Z)
    (res : out RegionHandle * mem H) : Prop :=
  match res with
  | (Ret h', m1) => exists p k m0, m1 = set_page p (curr h) m0 /\ fresh_block m m0 k true p /\
      curr h' = p /\ offset h' = p + 8 /\ last_plus_one h' = p + k /\ 8 + rn <= k /\
      is_xrgn h' = is_xrgn h
  | (Thrown Cyc_Bad_alloc _ _, m1) => same_heap m m1
  | _ => False
  end.

Lemma new_page_result m h rn ps line line' c u w : h_ok (heap m) -> 0 <= rn <= ps ->
  ps + 8 < 4294967296 -> c = curr h ->
  page_result m h rn
    ((p ← _bounded_GC_calloc (u32 (sizeof_RegionPage + ps)) 1 this_file line;
      if p =? 0 then throw Cyc_Bad_alloc this_file line'
      else modify (set_page p c);;
           mret (set_curr p (u32 (p + sizeof_RegionPage)) (u32 (p + sizeof_RegionPage + ps))
                   u w h)) m).
Proof.
  intros Hok Hrn Hps ->. unfold mbind, st_bind, sizeof_RegionPage.
  destruct (bounded_calloc_cases m (u32 (8 + ps)) 1 this_file line Hok)
    as [(m' & -> & Hs)|(p & m' & -> & Hp0 & Hf & Hlt)]; [done|].
  rewrite (proj2 (Z.eqb_neq p 0) Hp0). simpl.
  rewrite Z.mul_1_r, u32_u32, u32_small in Hf by lia.
  assert (Hg : good_addr p (8 + ps)) by (by destruct Hf as (? & _ & _ & ? & _)).
  destruct Hg as (? & ? & ? & ?).
  exists p, (8 + ps), m'. rewrite !u32_small by lia. split_and!; try done; lia.
Qed.

Lemma first_page_result m h rn : h_ok (heap m) -> curr h = 0 -> 0 <= rn <= MAX_MALLOC_SIZE ->
  CYC_MIN_REGION_PAGE_SIZE <= default_region_page_size m <= INT_MAX ->
  page_result m h rn (_get_first_region_page h rn m).
Proof.
  unfold MAX_MALLOC_SIZE, INT_MAX. change (Z.shiftl 1 28) with 268435456. intros Hok Hc Hrn Hd.
  unfold _get_first_region_page, get, CYC_MIN_REGION_PAGE_SIZE in *.
  unfold mbind at 1, st_bind at 1.
  apply new_page_result; try done; destruct (_ <? _) eqn:E; lia.
Qed.

Lemma grow_region_result m h rn : h_ok (heap m) -> 0 <= rn <= MAX_MALLOC_SIZE ->
  0 <= last_plus_one h - (curr h + 8) <= INT_MAX - 8 ->
  CYC_MIN_REGION_PAGE_SIZE <= default_region_page_size m <= INT_MAX ->
  page_result m h rn (grow_region h rn m).
Proof.
  unfold MAX_MALLOC_SIZE, INT_MAX. change (Z.shiftl 1 28) with 268435456. intros Hok Hrn Hl Hd.
  unfold grow_region, get. unfold mbind at 1, st_bind at 1. unfold CYC_MIN_REGION_PAGE_SIZE in Hd.
  apply new_page_result; try done; unfold sizeof_RegionPage; rewrite (u32_small (_ - _)), (u32_small (_ * 2)) by lia;
    destruct (_ <? _) eqn:E; rewrite ?u32_small by lia; lia.
Qed.

Lemma bump_region_spec m A r a h n :
  mem_inv m A -> A !! r = Some a -> rgns m !! r = Some (ARegion h) ->
  0 <= n <= MAX_MALLOC_SIZE -> alloc_result m A r a n (bump_region r h (round_up n) m).
Proof.
  intros Hi Hra Hro Hn. pose proof (rounded n Hn) as (Hm & Hr & Hmax).
  pose proof (cursor_facts _ _ _ _ _ Hi Hra Hro) as Hcu. simpl in Hcu.
  pose proof (mi_dflt _ _ Hi) as Hdf. pose proof (mi_ok _ _ Hi) as Hok.
  assert (Hk : is_xrgn h = 0).
  { destruct (mi_rgn _ _ Hi _ _ Hra) as (_ & o1 & Ho1 & [Hk _] & _). by simplify_eq. }
  assert (Hnew : forall res, page_result m h (round_up n) res ->
    alloc_result m A r a n ((h' ← (fun _ => res);
      modify (set_rgn r (ARegion (set_offset (u32 (offset h' + round_up n)) h')));;
      mret (offset h')) m)).
  { intros [[h'|[]| | |] m1]; try done; simpl.
    - intros (p & k & m0 & -> & Hf & Hc & Ho & Hl & Hsz & Hx). exists [(p, k)].
      assert (Hg : good_addr p k) by (by destruct Hf as (? & _ & _ & ? & _)).
      destruct Hg as (? & ? & ? & ?). rewrite Ho.
      split; [|exact (fresh_block_grew _ _ _ _ _ Hf)].
      apply (new_page_inv m m0 A r a (ARegion h) _ p k n (round_up n)); simpl; try done; [congruence| |lia].
      rewrite Hc, Hl, u32_small by lia. done.
    - intros Hs. by apply same_heap_result. }
  unfold bump_region.
  destruct Hcu as [(Hp & Hc & Ho & Hl)|(q & k & pgs & Hp & Hc & Hq & Ho & Hl & Ha & Hw & Hkk)].
  - rewrite Hc. simpl. apply (Hnew (_get_first_region_page h (round_up n) m)).
    apply first_page_result; try done. lia.
  - destruct (curr h =? 0) eqn:E0; [lia|]. rewrite (u32_small (_ - _)) by lia.
    destruct (_ <? _) eqn:E.
    + apply (Hnew (grow_region h (round_up n) m)). apply grow_region_result; try done; lia.
    + simpl. exists []. split; [|by apply grew_nil]. simpl. rewrite u32_small by lia.
      eapply (bump_inv m A r a (ARegion h)); try done; simpl; try lia. by rewrite Hp.
Qed.

(** ** Allocation in an extended region *)

Lemma get_xrgn_Ret m r x : rgns m !! r = Some (AnXRegion x) -> get_xrgn r m = (Ret x, m).
Proof. intros Hr. unfold get_xrgn, get_rgn, get, load, lift, mbind, st_bind. by rewrite Hr. Qed.

Lemma get_rgn_Ret m r o : rgns m !! r = Some o -> get_rgn r m = (Ret o, m).
Proof. intros Hr. unfold get_rgn, get, load, lift, mbind, st_bind. by rewrite Hr. Qed.

(** The allocation proper also keeps the capabilities of the region. *)
Definition xalloc_result (m : mem H) (A : gmap Z arena) (r : Z) (a : arena) (n : Z) (g : RegionCaps)
    (res : out Z * mem H) : Prop :=
  alloc_result m A r a n res /\ exists x', rgns res.2 !! r = Some (AnXRegion x') /\ caps x' = g.

(** What the allocation of a page by [xregion_bump] gives. *)
Lemma xpage_cases m n : h_ok (heap m) -> 0 <= n < 4294967296 ->
  exists p m', on_heap (GC_malloc_atomic (i32 n)) m = (Ret p, m') /\
    ((p = 0 /\ same_heap m m') \/ (p <> 0 /\ fresh_block m m' n false p)).
Proof.
  intros Hok Hn. apply on_heap_cases.
  rewrite <- (u32_small n) at 1 by done. replace (u32 n) with (u32 (i32 n)) by words.
  apply GC_malloc_atomic_law; [done|]. words.
Qed.

Lemma xregion_bump_spec m A r a x n :
  mem_inv m A -> A !! r = Some a -> rgns m !! r = Some (AnXRegion x) ->
  0 < n <= MAX_MALLOC_SIZE ->
  xalloc_result m A r a n (caps x) (xregion_bump r (round_up n) m).
Proof.
  intros Hi Hra Hro Hn. pose proof (rounded n ltac:(lia)) as (Hm & Hr & Hmax).
  pose proof (cursor_facts _ _ _ _ _ Hi Hra Hro) as Hcu. simpl in Hcu.
  pose proof (mi_xdflt _ _ Hi) as Hdf. pose proof (mi_ok _ _ Hi) as Hok.
  assert (Hk : x_is_xrgn x <> 0).
  { destruct (mi_rgn _ _ Hi _ _ Hra) as (_ & o1 & Ho1 & [Hk _] & _). by simplify_eq. }
  unfold MAX_MALLOC_SIZE, INT_MAX in *. change (Z.shiftl 1 28) with 268435456 in *.
  unfold xregion_bump, get. unfold mbind at 1 2, st_bind at 1 2. rewrite (get_xrgn_Ret _ _ _ Hro).
  set (ns := if x_offset x =? 0 then _ else _).
  assert (Hns : 0 <= ns < 4294967296 - 8).
  { unfold ns, sizeof_RegionPage. destruct (x_offset x =? 0) eqn:E; [lia|].
    destruct Hcu as [(_ & _ & ? & _)|(q & k & pgs & _ & ? & ? & ? & ? & _ & ? & ?)]; [lia|].
    rewrite (u32_small (_ - _)), (u32_small (_ * 2)) by lia. lia. }
  set (ns' := if ns <? _ then _ else _).
  assert (Hns' : round_up n <= ns' < 4294967296 - 8) by (unfold ns'; destruct (_ <? _) eqn:E; lia).
  rewrite (u32_small (sizeof_RegionPage + ns')) by (unfold sizeof_RegionPage; lia).
  destruct (u32 _ <? _) eqn:E.
  - unfold mbind, st_bind.
    destruct (xpage_cases m (sizeof_RegionPage + ns') Hok) as (p & m' & -> & Hc);
      [unfold sizeof_RegionPage; lia|].
    destruct Hc as [[-> Hs]|[Hp Hf]]; simpl.
    + split; [by apply same_heap_result|]. destruct Hs as (h' & -> & _). exists x. split; [exact Hro|done].
    + rewrite (proj2 (Z.eqb_neq p 0) Hp). simpl. unfold sizeof_RegionPage in *.
      assert (Hg : good_addr p (8 + ns')) by (by destruct Hf as (? & _ & _ & ? & _)).
      destruct Hg as (? & ? & ? & ?). rewrite !u32_small by lia.
      split; [|eexists; split; [apply lookup_insert_eq|done]]. exists [(p, 8 + ns')].
      split; [|exact (fresh_block_grew _ _ _ _ _ Hf)].
      apply (new_page_inv m m' A r a (AnXRegion x) _ p (8 + ns') n (round_up n));
        simpl; try done; try lia. f_equal. lia.
  - simpl. destruct Hcu as [(Hp & Hc & Ho & Hl)|(q & k & pgs & Hp & Hc & Hq & Ho & Hl & Ha & Hw & Hkk)].
    { rewrite Hl, Ho in E. change (u32 (0 - 0)) with 0 in E. lia. }
    rewrite u32_small in E by lia.
    split; [|eexists; split; [apply lookup_insert_eq|done]].
    exists []. split; [|by apply grew_nil]. simpl.
    apply (bump_inv m A r a (AnXRegion x) _ n (round_up n)); try done; simpl; try lia.
    + by rewrite Hp.
    + by rewrite u32_small by lia.
Qed.

(** An allocation in a region may also sleep, when the region is shared and its
    mutex is taken. *)
Definition region_alloc_result (m : mem H) (A : gmap Z arena) (r : Z) (a : arena) (n : Z)
    (res : out Z * mem H) : Prop :=
  match res with
  | (Blocked, m') => m' = m /\
      exists x, rgns m !! r = Some (AnXRegion x) /\ g_rcnt (caps x) <> 1 /\ g_lock (caps x) <> 0
  | _ => alloc_result m A r a n res
  end.

Lemma alloc_region_result m A r a n res :
  alloc_result m A r a n res -> region_alloc_result m A r a n res.
Proof. by destruct res as [[]]. Qed.

Lemma x_lock_inv m A r a x v : mem_inv m A -> A !! r = Some a ->
  rgns m !! r = Some (AnXRegion x) -> mem_inv (set_rgn r (AnXRegion (x_set_lock v x)) m) A.
Proof.
  intros Hi Hra Hro. destruct (mi_rgn _ _ Hi _ _ Hra) as (_ & o & Ho & Hk & Ha). simplify_eq.
  by apply (set_rgn_inv m A r a).
Qed.

Lemma xregion_malloc_spec self m A r a x n :
  mem_inv m A -> A !! r = Some a -> rgns m !! r = Some (AnXRegion x) ->
  0 < n <= MAX_MALLOC_SIZE ->
  region_alloc_result m A r a n (_xregion_malloc self r n m).
Proof.
  intros Hi Hra Hro Hn. unfold _xregion_malloc. unfold mbind, st_bind.
  rewrite (get_xrgn_Ret _ _ _ Hro). destruct (g_rcnt (caps x) =? 1) eqn:E1; simpl.
  { destruct (xregion_bump_spec m A r a x n Hi Hra Hro Hn) as [Hs _].
    destruct (xregion_bump r (round_up n) m) as [[p|e fl ln|msg| |] m1]; try done. }
  unfold wait_lock, mbind, st_bind. rewrite (get_xrgn_Ret _ _ _ Hro).
  destruct (g_lock (caps x) =? 0) eqn:E2; simpl; [|split; [done|]; exists x; split_and!; [done|lia..]].
  set (x1 := x_set_lock self x). set (m1 := set_rgn r (AnXRegion x1) m).
  assert (Hi1 : mem_inv m1 A) by (by apply (x_lock_inv m A r a)).
  destruct (xregion_bump_spec m1 A r a x1 n Hi1 Hra (lookup_insert_eq _ _ _) Hn)
    as [Hs (x2 & Hx2 & Hcaps)].
  destruct (xregion_bump r (round_up n) m1) as [[p|e fl ln|msg| |] m2]; try done.
  unfold unlock, mbind, st_bind. simpl in Hx2. rewrite (get_xrgn_Ret _ _ _ Hx2).
  rewrite Hcaps. simpl. rewrite Z.eqb_refl. simpl. destruct Hs as (new & Hs & Hgr). exists new.
  split; [|exact Hgr]. eapply x_lock_inv; [exact Hs|apply lookup_insert_eq|exact Hx2].
Qed.

Lemma region_malloc_spec self m A r a n :
  mem_inv m A -> A !! r = Some a -> 0 < n <= MAX_MALLOC_SIZE ->
  region_alloc_result m A r a n (_region_malloc self r n m).
Proof.
  intros Hi Hra Hn. destruct (mi_rgn _ _ Hi _ _ Hra) as (Hr & o & Ho & [Hk _] & _).
  unfold _region_malloc. rewrite (proj2 (Z.ltb_lt _ _) Hr).
  unfold mbind, st_bind. rewrite (get_rgn_Ret _ _ _ Ho). destruct o as [h|x]; simpl in Hk.
  - rewrite Hk. simpl. apply alloc_region_result, bump_region_spec; try done. lia.
  - rewrite (proj2 (Z.eqb_neq _ _) Hk). by apply (xregion_malloc_spec self m A r a x).
Qed.

Lemma region_calloc_spec self m A r a n t :
  mem_inv m A -> A !! r = Some a -> 0 < n * t <= MAX_MALLOC_SIZE ->
  region_alloc_result m A r a (n * t) (_region_calloc self r n t m).
Proof.
  intros Hi Hra Hn. destruct (mi_rgn _ _ Hi _ _ Hra) as (Hr & o & Ho & [Hk _] & _).
  unfold _region_calloc. rewrite (proj2 (Z.ltb_lt _ _) Hr).
  rewrite (u32_small (n * t))
    by (unfold MAX_MALLOC_SIZE in Hn; change (Z.shiftl 1 28) with 268435456 in Hn; lia).
  unfold mbind, st_bind. rewrite (get_rgn_Ret _ _ _ Ho). destruct o as [h|x]; simpl in Hk.
  - rewrite Hk. simpl. apply alloc_region_result, bump_region_spec; try done. lia.
  - rewrite (proj2 (Z.eqb_neq _ _) Hk). by apply (xregion_malloc_spec self m A r a x).
Qed.

(** ** Freeing a region *)

Lemma chain_elem (pg : gmap Z Z) c l q : chain pg c l -> q ∈ l -> exists n, pg !! q = Some n.
Proof.
  revert c. induction l as [|p l IH]; intros c Hc Hq; [by apply elem_of_nil in Hq|].
  destruct Hc as (-> & _ & n & Hn & Hc). apply elem_of_cons in Hq as [-> |Hq]; eauto.
Qed.

Lemma chain_length (pg : gmap Z Z) c l : chain pg c l -> NoDup l -> (length l <= size pg)%nat.
Proof.
  intros Hc Hnd. rewrite <- size_dom, <- (size_list_to_set (C:=gset Z) l Hnd).
  apply subseteq_size. intros q. rewrite elem_of_list_to_set, elem_of_dom.
  intros Hq. by apply (chain_elem _ _ _ _ Hc).
Qed.

(** The pages [l] and their blocks are gone, everything else is unchanged. *)
Definition pages_freed (l : list Z) (m m' : mem H) : Prop :=
  h_ok (heap m') /\ rgns m' = rgns m /\ words m' = words m /\
  default_region_page_size m' = default_region_page_size m /\
  default_xregion_page_size m' = default_xregion_page_size m /\
  (forall q, pages m' !! q = if decide (q ∈ l) then None else pages m !! q) /\
  (forall q, gc_live (heap m') !! q = if decide (q ∈ l) then None else gc_live (heap m) !! q).

Lemma free_pages_spec fuel c l m : h_ok (heap m) -> chain (pages m) c l -> NoDup l ->
  (forall q, q ∈ l -> exists b, gc_live (heap m) !! q = Some b) -> (length l <= fuel)%nat ->
  exists m', free_pages fuel c m = (Ret tt, m') /\ pages_freed l m m'.
Proof.
  revert c l m. induction fuel as [|fuel IH]; intros c [|q l] m Hok Hc Hnd Hlv Hf;
    simpl in Hc, Hf; try lia.
  1,2: subst c; exists m; split; [done|]; split_and!; try done; intros; by destruct (decide _).
  destruct Hc as (-> & Hq0 & n & Hn & Hc). apply NoDup_cons in Hnd as [Hql Hnd].
  destruct (Hlv q ltac:(left)) as [b Hb]. destruct (GC_free_law _ _ _ Hok Hb) as [Hok' Hl'].
  simpl. rewrite (proj2 (Z.eqb_neq q 0) Hq0).
  unfold get, lift, gc_free, modify, mbind, st_bind. unfold load. rewrite Hn, Hb.
  set (m1 := del_page q (set_heap (GC_free q (heap m)) m)).
  destruct (IH n l m1) as (m' & He & Hp); simpl; try done; [by apply chain_delete| |lia|].
  { intros p Hp. rewrite Hl'. rewrite lookup_delete_ne by set_solver. apply Hlv. by right. }
  exists m'. split; [done|]. destruct Hp as (? & ? & ? & ? & ? & Hpg & Hlv').
  split_and!; try done; intros p; [rewrite Hpg|rewrite Hlv']; simpl; rewrite ?Hl', lookup_delete;
    repeat case_decide; set_solver.
Qed.

Lemma pages_freed_inv m m' A r a : mem_inv m A -> A !! r = Some a ->
  pages_freed (a_pages a).*1 m m' -> forall r1 a1 o1, A !! r1 = Some a1 -> r1 <> r ->
  arena_ok (pages m) (gc_live (heap m)) (zero_pages o1) (arena_of o1) a1 ->
  arena_ok (pages m') (gc_live (heap m')) (zero_pages o1) (arena_of o1) a1.
Proof.
  intros Hi Hra (_ & _ & _ & _ & _ & Hpg & Hlv) r1 a1 o1 H1 Hne Ha.
  assert (Hout : forall q, q ∈ (a_pages a1).*1 -> q ∉ (a_pages a).*1).
  { intros q H1q Hq. by destruct (mi_own _ _ Hi _ _ _ _ q H1 Hra H1q Hq). }
  eapply arena_ok_mono, Ha.
  - intros q Hq. rewrite Hlv. rewrite decide_False; [done|auto].
  - clear Ha. intros c. revert c Hout. induction (a_pages a1).*1 as [|q l IH]; intros c Hout; [done|].
    intros (-> & Hq & n & Hn & Hc). split_and!; try done. exists n. rewrite Hpg, decide_False.
    + split; [done|]. apply IH; [|done]. intros. apply Hout. by right.
    + apply Hout. left.
Qed.

Lemma free_region_spec m A r a h : mem_inv m A -> A !! r = Some a ->
  rgns m !! r = Some (ARegion h) ->
  exists m1 m', _free_region r m = (Ret tt, m') /\ pages_freed (a_pages a).*1 m m1 /\
    m' = set_rgn r (ARegion (set_curr 0 0 0 (used_bytes h) (wasted_bytes h) h)) m1 /\
    mem_inv m' (<[r := mk_arena (a_lex a) [] []]> A).
Proof.
  intros Hi Hra Hro. destruct (mi_rgn _ _ Hi _ _ Hra) as (Hr & o & Ho & [Hk Hz] & Ha). simplify_eq.
  simpl in Hk. pose proof Ha as [Hc Hnd Hl _ _ _]. simpl in Hc.
  destruct (free_pages_spec (S (size (pages m))) (curr h) (a_pages a).*1 m) as (m1 & He & Hp);
    try done.
  { apply (mi_ok _ _ Hi). }
  { intros q Hq. destruct (page_live _ _ _ _ _ Hi Hra Hq) as (? & ? & ? & _). eauto. }
  { pose proof (chain_length _ _ _ Hc Hnd). lia. }
  exists m1. eexists. unfold _free_region, get, mbind, st_bind.
  rewrite (get_rgn_Ret _ _ _ Hro), Hk. cbn [Z.eqb negb]. rewrite He. split; [done|].
  split_and!; try done. pose proof Hp as (Hok & Hrg & _ & Hd & Hxd & _ & Hlv).
  assert (Hsub : forall p b, gc_live (heap m1) !! p = Some b -> gc_live (heap m) !! p = Some b).
  { intros p b. rewrite Hlv. by destruct (decide _). }
  split; simpl; rewrite ?Hd, ?Hxd, ?Hrg.
  - done.
  - intros p n z Hp1. by eapply (mi_good _ _ Hi), Hsub.
  - intros p n z q k z' H1 H2. by eapply (mi_disj _ _ Hi); apply Hsub.
  - intros r1 a1. rewrite !lookup_insert. case_decide; intros H1; simplify_eq.
    + split; [done|]. eexists. split; [done|]. split; [done|].
      split; simpl; try done; [by constructor|set_solver..|constructor].
    + destruct (mi_rgn _ _ Hi _ _ H1) as (? & o1 & Ho1 & Hk1 & Ha1). split; [done|].
      exists o1. split_and!; try done. apply (pages_freed_inv m m1 A r a Hi Hra Hp r1 a1 o1 H1); [congruence|done].
  - intros r1 r2 a1 a2 q. rewrite !lookup_insert.
    repeat case_decide; intros Ha1 Ha2 Hq1 Hq2; simplify_eq; try done; simpl in *;
      try (by apply not_elem_of_nil in Hq1); try (by apply not_elem_of_nil in Hq2).
    exact (mi_own _ _ Hi _ _ _ _ _ Ha1 Ha2 Hq1 Hq2).
  - apply (mi_dflt _ _ Hi).
  - apply (mi_xdflt _ _ Hi).
Qed.

(** ** Programs of allocations and frees *)

Inductive cmd : Type :=
| CMalloc (r n : Z)
| CCalloc (r n t : Z)
| CFast (r n : Z)
| CFree (r : Z).

(** A live object: its region, address and size. *)
Definition obj : Type := Z * (Z * Z).

Definition alloc_obj (r n : Z) (objs : list obj) (op : ST (mem H) Z) : ST (mem H) (list obj) :=
  fun m => match op m with
  | (Thrown Cyc_Bad_alloc _ _, m') => (Ret objs, m')
  | _ => (p ← op; mret (M:=ST (mem H)) ((r, (p, n)) :: objs)) m
  end.

(** Runs one operation with the objects live before it; a program that catches
    [Cyc_Bad_alloc] goes on with the objects it has. *)
Definition exec1 (self : Z) (c : cmd) (objs : list obj) : ST (mem H) (list obj) :=
  match c with
  | CMalloc r n => alloc_obj r n objs (_region_malloc self r n)
  | CCalloc r n t => alloc_obj r (n * t) objs (_region_calloc self r n t)
  | CFast r n => alloc_obj r n objs (_fast_region_malloc self r n)
  | CFree r => _free_region r;; mret (filter (fun o => o.1 <> r) objs)
  end.

Fixpoint exec (self : Z) (cs : list cmd) (objs : list obj) : ST (mem H) (list obj) :=
  match cs with
  | [] => mret objs
  | c :: cs => objs' ← exec1 self c objs; exec self cs objs'
  end.

(** Sizes the compiler can ask for, regions that exist; only lexical regions
    are freed by [_free_region] and allocated from by the fast path. *)
Definition cmd_ok (R : gmap Z rgn) (c : cmd) : Prop :=
  match c with
  | CMalloc r n => is_Some (R !! r) /\ 0 < n <= MAX_MALLOC_SIZE
  | CCalloc r n t => is_Some (R !! r) /\ 0 < n * t <= MAX_MALLOC_SIZE
  | CFast r n => (exists h, R !! r = Some (ARegion h)) /\ 0 < n <= MAX_MALLOC_SIZE
  | CFree r => exists h, R !! r = Some (ARegion h)
  end.

(** Every object is aligned and inside a live heap block (a zero-filled one in
    a lexical region), and no two objects overlap. *)
Definition objs_safe (m : mem H) (objs : list obj) : Prop :=
  (forall r p n, (r, (p, n)) ∈ objs -> p mod 8 = 0 /\ exists q k z,
     gc_live (heap m) !! q = Some (k, z) /\ q + 8 <= p /\ p + n <= q + k /\
     (forall h, rgns m !! r = Some (ARegion h) -> z = true)) /\
  ForallOrdPairs (fun a b => apart a.2 b.2) objs.

(** Handles as [_new_region] and [_new_xregion] leave them. *)
Definition init_ok (m : mem H) : Prop :=
  h_ok (heap m) /\ gc_live (heap m) = ∅ /\
  CYC_MIN_REGION_PAGE_SIZE <= default_region_page_size m <= INT_MAX /\
  0 <= default_xregion_page_size m <= INT_MAX /\
  forall r o, rgns m !! r = Some o ->
    _CYC_MAX_REGION_CONST < r /\ kind_ok o /\ arena_of o = (0, 0, 0).

Lemma init_inv m : init_ok m ->
  mem_inv m ((fun o => mk_arena (zero_pages o) [] []) <$> rgns m).
Proof.
  intros (Hok & Hl & Hd & Hx & Hr). split; try done; rewrite ?Hl; try done.
  - intros r a. rewrite lookup_fmap, fmap_Some. intros (o & Ho & ->).
    destruct (Hr r o Ho) as (? & Hk & Ha). split; [done|]. exists o. split_and!; try done.
    rewrite Ha. split; simpl; try done; [constructor|set_solver..|constructor].
  - intros r1 r2 a1 a2 q. rewrite !lookup_fmap, !fmap_Some. intros (? & _ & ->) _ Hq.
    simpl in Hq. set_solver.
Qed.

Lemma region_malloc_lexical self r n m h : _CYC_MAX_REGION_CONST < r ->
  rgns m !! r = Some (ARegion h) -> is_xrgn h = 0 ->
  _region_malloc self r n m = bump_region r h (round_up n) m.
Proof.
  intros Hr Ho Hh. unfold _region_malloc. rewrite (proj2 (Z.ltb_lt _ _) Hr).
  unfold mbind, st_bind. by rewrite (get_rgn_Ret _ _ _ Ho), Hh.
Qed.

(** The fast path computes what [_region_malloc] computes. *)
Lemma fast_path_eq self r n m :
  (forall x, rgns m !! r = Some (AnXRegion x) -> reader_cv (caps x) = 0) ->
  (forall h, rgns m !! r = Some (ARegion h) -> is_xrgn h = 0) ->
  _fast_region_malloc self r n m = _region_malloc self r n m.
Proof.
  intros Hx Hh. unfold _fast_region_malloc. destruct (_ <? r) eqn:Er; [|done].
  unfold mbind at 1, st_bind at 1.
  destruct (rgns m !! r) as [o|] eqn:Ho; cycle 1.
  { unfold _region_malloc. rewrite Er. unfold get_rgn, get, mbind, st_bind, load, lift.
    by rewrite Ho. }
  rewrite (get_rgn_Ret _ _ _ Ho). destruct o as [h|x]; [|by rewrite (Hx x eq_refl)].
  destruct (curr h =? 0) eqn:Ec; [done|]. destruct (_ <=? _) eqn:Es; [|done].
  rewrite (region_malloc_lexical self r n m h); [|lia|done|by apply Hh].
  unfold bump_region. rewrite Ec. destruct (u32 _ <? _) eqn:Es'; [lia|done].
Qed.

(** Objects of two regions lie in two different blocks. *)
Lemma cross_apart m A r1 r2 a1 a2 x y : mem_inv m A -> r1 <> r2 -> A !! r1 = Some a1 ->
  A !! r2 = Some a2 -> x ∈ a_objs a1 -> y ∈ a_objs a2 -> apart x y.
Proof.
  intros Hi Hne H1 H2 Hx Hy. destruct x as [p n], y as [q k]. unfold apart. simpl.
  destruct (mi_rgn _ _ Hi _ _ H1) as (_ & o1 & _ & _ & [_ _ Hl1 _ Ho1 _]).
  destruct (mi_rgn _ _ Hi _ _ H2) as (_ & o2 & _ & _ & [_ _ Hl2 _ Ho2 _]).
  destruct (Ho1 _ _ Hx) as (q1 & k1 & Hq1 & ? & _ & ? & ? & _).
  destruct (Ho2 _ _ Hy) as (q2 & k2 & Hq2 & ? & _ & ? & ? & _).
  destruct (Hl1 _ _ Hq1) as [Hb1 ?], (Hl2 _ _ Hq2) as [Hb2 ?].
  assert (Hq : q1 <> q2).
  { intros ->. apply Hne. eapply (mi_own _ _ Hi _ _ _ _ q2 H1 H2);
      apply list_elem_of_fmap; [by exists (q2, k1)|by exists (q2, k2)]. }
  destruct (mi_disj _ _ Hi _ _ _ _ _ _ Hb1 Hb2 Hq); lia.
Qed.

(** The live objects of a program are objects of the arenas. *)
Definition tracked (R : gmap Z rgn) (A : gmap Z arena) (objs : list obj) : Prop :=
  (forall r o, R !! r = Some o -> exists a, A !! r = Some a /\ a_lex a = zero_pages o) /\
  (forall r x, (r, x) ∈ objs -> exists a, A !! r = Some a /\ x ∈ a_objs a) /\
  ForallOrdPairs (fun a b => apart a.2 b.2) objs.

Lemma tracked_safe m R A objs : mem_inv m A -> tracked R A objs -> objs_safe m objs.
Proof.
  intros Hi (_ & Ht & Hd). split; [|done]. intros r p n Hin.
  destruct (Ht _ _ Hin) as (a & Ha & Hx).
  destruct (mi_rgn _ _ Hi _ _ Ha) as (_ & o & Ho & _ & [_ _ Hl _ Hob _]).
  destruct (Hob _ _ Hx) as (q & k & Hq & ? & ? & ? & ? & _). split; [done|].
  destruct (Hl _ _ Hq) as [Hb _]. exists q, k, (zero_pages o). split_and!; try done.
  intros h Hh. by simplify_eq.
Qed.

(** The pages of one region change from [l] to [l']: the blocks that arrive are
    new, those that leave are released, and no other block changes. *)
Definition moved (m m' : mem H) (l l' : list Z) : Prop :=
  (forall q, q ∈ l' -> q ∉ l -> gc_live (heap m) !! q = None) /\
  (forall q, q ∉ l' -> q ∈ l -> gc_live (heap m') !! q = None) /\
  (forall q, q ∉ l' -> q ∉ l -> gc_live (heap m') !! q = gc_live (heap m) !! q).

(** The operation changed the arena of [r] alone, and the heap accordingly. *)
Definition step_result (R : gmap Z rgn) (m : mem H) (A : gmap Z arena) (r : Z) (a : arena)
    (objs' : list obj) (m' : mem H) : Prop :=
  exists a', mem_inv m' (<[r := a']> A) /\ tracked R (<[r := a']> A) objs' /\
    a_lex a' = a_lex a /\ moved m m' (a_pages a).*1 (a_pages a').*1.

Lemma grew_moved m m' (new l : list Z) : grew m m' new -> moved m m' l (new ++ l).
Proof.
  intros [Hn Hs]. split_and!; intros q; rewrite elem_of_app; intros Hq Hl;
    [apply Hn|exfalso|apply Hs]; tauto.
Qed.

(** One allocation. *)
Lemma alloc_obj_tracked m R A objs r n op a : mem_inv m A -> tracked R A objs ->
  A !! r = Some a -> region_alloc_result m A r a n (op m) ->
  match alloc_obj r n objs op m with
  | (Ret objs', m') => step_result R m A r a objs' m'
  | (Blocked, _) => exists x, rgns m !! r = Some (AnXRegion x)
  | _ => False
  end.
Proof.
  intros Hi Ht Ha Hres. unfold alloc_obj, mbind, st_bind.
  destruct (op m) as [[p|e fl ln|msg| |] m1]; try done; cycle 1.
  { destruct e; try done. destruct Hres as [Hi' Hg]. exists a. rewrite insert_id by done.
    split_and!; try done. exact (grew_moved _ _ [] _ Hg). }
  { destruct Hres as (_ & x & Hx & _). by exists x. }
  destruct Hres as (new & Hi' & Hg). simpl. eexists. split; [exact Hi'|].
  set (a' := mk_arena _ _ _) in *.
  apply and_comm. split.
  { split; [done|]. unfold a'. cbn [a_pages]. rewrite fmap_app. by apply grew_moved. } destruct Ht as (HR & Hob & Hd). split_and!.
  - intros r1 o1 H1. destruct (HR _ _ H1) as (a1 & Ha1 & Hl). rewrite lookup_insert.
    case_decide; [subst; exists a'|by exists a1]. split; [done|]. by simplify_eq.
  - intros r1 x Hx. apply elem_of_cons in Hx as [Hx|Hx].
    + simplify_eq. exists a'. rewrite lookup_insert_eq. split; [done|left].
    + destruct (Hob _ _ Hx) as (a1 & Ha1 & Hx1). rewrite lookup_insert.
      case_decide; [subst; exists a'|by exists a1]. simplify_eq. split; [done|by right].
  - constructor; [|done]. apply List.Forall_forall. intros [r1 x] Hx. simpl.
    apply list_elem_of_In in Hx. destruct (Hob _ _ Hx) as (a1 & Ha1 & Hx1).
    destruct (decide (r1 = r)) as [-> |Hne].
    + simplify_eq. destruct (mi_rgn _ _ Hi' r a' (lookup_insert_eq _ _ _)) as (_ & o & _ & _ & Hao).
      pose proof (ao_apart _ _ _ _ _ Hao) as Hp. simpl in Hp. inversion Hp as [|? ? Hf _]; subst.
      apply (proj1 (List.Forall_forall _ _) Hf). by apply list_elem_of_In.
    + eapply (cross_apart _ _ r r1 a' a1); try done; [apply lookup_insert_eq| |left].
      by rewrite lookup_insert_ne.
Qed.

Lemma ForallOrdPairs_filter {X} (P : X -> X -> Prop) (Q : X -> Prop) `{!forall x, Decision (Q x)} l :
  ForallOrdPairs P l -> ForallOrdPairs P (filter Q l).
Proof.
  induction 1 as [|x l Hx Hl IH]; [constructor|]. rewrite filter_cons. case_decide; [|done].
  constructor; [|done]. apply List.Forall_forall. intros y Hy.
  apply list_elem_of_In, list_elem_of_filter in Hy as [_ Hy].
  apply (proj1 (List.Forall_forall _ _) Hx). by apply list_elem_of_In.
Qed.

Lemma free_tracked m R A objs r a h : mem_inv m A -> tracked R A objs ->
  A !! r = Some a -> R !! r = Some (ARegion h) ->
  match exec1 0 (CFree r) objs m with
  | (Ret objs', m') => step_result R m A r a objs' m'
  | _ => False
  end.
Proof.
  intros Hi (HR & Hob & Hd) Ha Hr. destruct (HR _ _ Hr) as (a1 & Ha1 & Hlex). simplify_eq.
  destruct (mi_rgn _ _ Hi _ _ Ha) as (_ & o & Ho & [_ Hz] & _).
  destruct o as [h'|x]; [|simpl in *; congruence].
  destruct (free_region_spec _ _ _ _ _ Hi Ha Ho) as (m1 & m' & He & Hp & -> & Hi').
  simpl. unfold mbind, st_bind. rewrite He. simpl. eexists. split; [exact Hi'|].
  apply and_comm. split.
  { split; [done|]. destruct Hp as (_ & _ & _ & _ & _ & _ & Hlv). split_and!; intros q Hq Hq'; simpl in *.
    - by apply not_elem_of_nil in Hq.
    - rewrite Hlv. by rewrite decide_True.
    - rewrite Hlv. by rewrite decide_False. }
  split_and!.
  - intros r1 o1 H1. destruct (HR _ _ H1) as (a1 & Ha1 & Hl). rewrite lookup_insert.
    case_decide; [subst; eexists|by exists a1]. split; [done|]. by simplify_eq.
  - intros r1 x Hx. apply list_elem_of_filter in Hx as [Hne Hx]. simpl in Hne.
    rewrite lookup_insert_ne by congruence. eauto.
  - by apply ForallOrdPairs_filter.
Qed.

Definition cmd_rgn (c : cmd) : Z :=
  match c with CMalloc r _ | CCalloc r _ _ | CFast r _ | CFree r => r end.

(** One operation of a program: only an operation on an extended region can
    sleep. *)
Definition step_ok (R : gmap Z rgn) (m : mem H) (A : gmap Z arena) (r : Z) (a : arena)
    (res : out (list obj) * mem H) : Prop :=
  match res with
  | (Ret objs', m') => step_result R m A r a objs' m'
  | (Blocked, _) => exists x, R !! r = Some (AnXRegion x)
  | _ => False
  end.

Lemma alloc_step_ok m R A objs r n op o a : mem_inv m A -> tracked R A objs -> R !! r = Some o ->
  A !! r = Some a -> region_alloc_result m A r a n (op m) ->
  step_ok R m A r a (alloc_obj r n objs op m).
Proof.
  intros Hi Ht Ho Ha Hop. pose proof Ht as (HR & _). destruct (HR _ _ Ho) as (a1 & Ha1 & Hlex).
  pose proof (alloc_obj_tracked m R A objs r n op a Hi Ht Ha Hop) as Hs.
  destruct (alloc_obj r n objs op m) as [[] m1]; try done. destruct Hs as [x Hx].
  destruct (mi_rgn _ _ Hi _ _ Ha) as (_ & o1 & Ho1 & [_ Hz] & _). simplify_eq. simpl in Hz.
  destruct o as [h|x']; [simpl in *; congruence|]. by exists x'.
Qed.

Lemma cmd_ok_rgn R c : cmd_ok R c -> is_Some (R !! cmd_rgn c).
Proof. destruct c; simpl; naive_solver. Qed.

Lemma exec1_tracked self c m R A objs a : mem_inv m A -> tracked R A objs -> cmd_ok R c ->
  A !! cmd_rgn c = Some a -> step_ok R m A (cmd_rgn c) a (exec1 self c objs m).
Proof.
  intros Hi Ht Hc Ha. destruct c as [r n|r n t|r n|r]; simpl in *.
  - destruct Hc as [[o Ho] Hn]. eapply alloc_step_ok; try done. by apply region_malloc_spec.
  - destruct Hc as [[o Ho] Hn]. eapply alloc_step_ok; try done. by apply region_calloc_spec.
  - destruct Hc as [[h Ho] Hn]. eapply alloc_step_ok; try done.
    destruct Ht as (HR & _). destruct (HR _ _ Ho) as (a' & Ha' & Hlex). simplify_eq.
    destruct (mi_rgn _ _ Hi _ _ Ha) as (_ & o & Hro & [Hk Hz] & _).
    destruct o as [h'|x]; [|simpl in *; congruence].
    rewrite fast_path_eq by (intros; by simplify_eq). by apply region_malloc_spec.
  - destruct Hc as [h Ho]. pose proof (free_tracked m R A objs r a h Hi Ht Ha Ho) as Hf.
    change (step_ok R m A r a (exec1 0 (CFree r) objs m)).
    by destruct (exec1 0 (CFree r) objs m) as [[]].
Qed.

(** Every live block is a page of some region. *)
Definition owned (m : mem H) (A : gmap Z arena) : Prop :=
  forall q b, gc_live (heap m) !! q = Some b ->
    exists r a, A !! r = Some a /\ q ∈ (a_pages a).*1.

Lemma moved_owned m m' A r a a' : owned m A -> A !! r = Some a ->
  moved m m' (a_pages a).*1 (a_pages a').*1 -> owned m' (<[r := a']> A).
Proof.
  intros Ho Ha (Hn & Hg & Hs) q b Hq.
  destruct (decide (q ∈ (a_pages a').*1)) as [Hq'|Hq'].
  { exists r, a'. by rewrite lookup_insert_eq. }
  destruct (decide (q ∈ (a_pages a).*1)) as [Hqa|Hqa]; [by rewrite Hg in Hq|].
  rewrite Hs in Hq by done. destruct (Ho q b Hq) as (r1 & a1 & Ha1 & Hq1).
  exists r1, a1. rewrite lookup_insert_ne; [done|]. intros <-. by simplify_eq.
Qed.

(** The pages reachable from the handles of the state account for every live
    block: no block is lost. *)
Definition no_leak (m : mem H) : Prop :=
  forall q b, gc_live (heap m) !! q = Some b -> exists r o l,
    rgns m !! r = Some o /\ chain (pages m) (arena_of o).1.1 l /\ q ∈ l.

Lemma owned_no_leak m A : mem_inv m A -> owned m A -> no_leak m.
Proof.
  intros Hi Ho q b Hq. destruct (Ho q b Hq) as (r & a & Ha & Hqa).
  destruct (mi_rgn _ _ Hi _ _ Ha) as (_ & o & Hro & _ & Hao). exists r, o, (a_pages a).*1.
  split_and!; try done. apply (ao_chain _ _ _ _ _ Hao).
Qed.

Lemma exec_tracked self cs m R A objs : mem_inv m A -> tracked R A objs -> owned m A ->
  Forall (cmd_ok R) cs ->
  match exec self cs objs m with
  | (Ret objs', m') => objs_safe m' objs' /\ no_leak m'
  | (Blocked, _) => exists c x, c ∈ cs /\ R !! cmd_rgn c = Some (AnXRegion x)
  | _ => False
  end.
Proof.
  intros Hi Ht Hw Hcs. revert m A objs Hi Ht Hw.
  induction Hcs as [|c cs Hc Hcs IH]; intros m A objs Hi Ht Hw.
  - split; [by eapply tracked_safe|by eapply owned_no_leak].
  - destruct (cmd_ok_rgn _ _ Hc) as [o Ho]. destruct (proj1 Ht _ _ Ho) as (a & Ha & _).
    simpl. unfold mbind, st_bind. pose proof (exec1_tracked self c m R A objs a Hi Ht Hc Ha) as H1.
    destruct (exec1 self c objs m) as [[objs'|e fl ln|msg| |] m1]; try done.
    + destruct H1 as (a' & Hi' & Ht' & _ & Hm).
      specialize (IH m1 _ objs' Hi' Ht' (moved_owned _ _ _ _ _ _ Hw Ha Hm)).
      destruct (exec self cs objs' m1) as [[] ?]; try done.
      destruct IH as (c' & x & Hin & Hx). exists c', x. split; [by right|done].
    + destruct H1 as [x Hx]. exists c, x. split; [left|done].
Qed.

(** ** The theorems *)

(** C2. Safety of region allocation, for the programs of [cmd_ok]:
    [_region_malloc] and [_region_calloc] on any number of lexical and extended
    regions, [_fast_region_malloc] and [_free_region] on the lexical ones, with
    requests of 1 to [MAX_MALLOC_SIZE] = 2^28 bytes.  From handles as they are
    created and a heap without blocks such a program has no undefined behaviour
    and no failed assertion; at its end the objects still allocated are aligned,
    lie inside live heap blocks (zero-filled ones for lexical regions) and do
    not overlap, and no block is lost: every live block is on the page list of
    some region.  Only an allocation in an extended region can sleep.  Larger
    requests are the subject of [huge_requests_wrap], the fast path on extended
    regions that of [fast_path_confuses_xregion]; extended regions are freed
    with their tree, which is not an operation of these programs. *)
Theorem region_programs_safe self cs m :
  init_ok m -> Forall (cmd_ok (rgns m)) cs ->
  match exec self cs [] m with
  | (Ret objs, m') => objs_safe m' objs /\ no_leak m'
  | (Blocked, _) => exists c x, c ∈ cs /\ rgns m !! cmd_rgn c = Some (AnXRegion x)
  | _ => False
  end.
Proof.
  intros Hi Hcs. eapply exec_tracked; [by apply init_inv| | |done].
  - split_and!; [|set_solver|constructor].
    intros r o Ho. eexists. rewrite lookup_fmap, Ho. done.
  - intros q b Hq. destruct Hi as (_ & Hl & _). by rewrite Hl, lookup_empty in Hq.
Qed.

(** Freeing a region returns exactly its pages to the heap: every block
    that is a page of the region is released, every other block, handle and
    page is unchanged, and the handle is ready for new allocations. *)
Theorem free_region_exact m A r a h :
  mem_inv m A -> A !! r = Some a -> rgns m !! r = Some (ARegion h) ->
  exists m', _free_region r m = (Ret tt, m') /\
    (forall q, gc_live (heap m') !! q =
               if decide (q ∈ (a_pages a).*1) then None else gc_live (heap m) !! q) /\
    (forall r', r' <> r -> rgns m' !! r' = rgns m !! r') /\
    mem_inv m' (<[r := mk_arena (a_lex a) [] []]> A).
Proof.
  intros Hi Ha Hr. destruct (free_region_spec m A r a h Hi Ha Hr) as (m1 & m' & He & Hp & -> & Hi').
  destruct Hp as (_ & Hrg & _ & _ & _ & _ & Hlv). eexists. split_and!; try done.
  intros r' Hne. simpl. by rewrite lookup_insert_ne, Hrg.
Qed.

(** C33. The allocation inlined by the compiler, [_fast_region_malloc], which
    does not look at [is_xrgn], is equivalent to [_region_malloc] on every region
    constant, on every lexical region ([is_xrgn] 0) and on every extended region
    on which no reader is told to wait ([reader_cv] 0); with [reader_cv] set it
    is not, as [fast_path_confuses_xregion] shows. *)
Theorem fast_region_malloc_equiv self r n m :
  (forall x, rgns m !! r = Some (AnXRegion x) -> reader_cv (caps x) = 0) ->
  (forall h, rgns m !! r = Some (ARegion h) -> is_xrgn h = 0) ->
  _fast_region_malloc self r n m = _region_malloc self r n m.
Proof. apply fast_path_eq. Qed.

(** ** Statistics *)

(** What [region_alloc_bytes] computes for a lexical region. *)
Definition total_bytes (h : RegionHandle) : Z :=
  u32 (used_bytes h - wasted_bytes h - u32 (last_plus_one h - offset h)).


(** Moving the cursor by [n] bytes adds [n] to the total. *)
Lemma total_set_offset h n :
  total_bytes (set_offset (u32 (offset h + n)) h) = u32 (total_bytes h + n).
Proof.
  unfold total_bytes. simpl. rewrite u32_sub_r, u32_add_l.
  replace (used_bytes h - wasted_bytes h - (last_plus_one h - u32 (offset h + n)))
    with (used_bytes h - wasted_bytes h - last_plus_one h + u32 (offset h + n)) by lia.
  replace (used_bytes h - wasted_bytes h - u32 (last_plus_one h - offset h) + n)
    with (used_bytes h - wasted_bytes h + n - u32 (last_plus_one h - offset h)) by lia.
  rewrite u32_sub_r, Z.add_comm, u32_add_l. f_equal. lia.
Qed.

(** A new page is accounted as used and free, and what is left on the old page
    as wasted. *)
Lemma total_new_page h p ps u w :
  total_bytes (set_curr p (u32 (p + sizeof_RegionPage)) (u32 (p + sizeof_RegionPage + ps)) u w h)
  = u32 (u - w - ps).
Proof.
  unfold total_bytes. simpl. rewrite u32_sub_u32, u32_sub_r. f_equal. lia.
Qed.

Lemma u32_grow u n w d : u32 (u32 (u + n) - u32 (w + d) - n) = u32 (u - w - u32 d).
Proof.
  rewrite u32_sub_r. replace (u32 (u + n) - u32 (w + d) - n) with (u32 (u + n) - (n + u32 (w + d))) by lia.
  rewrite u32_sub_l. replace (u + n - (n + u32 (w + d))) with (u - u32 (w + d)) by lia.
  rewrite u32_sub_r. f_equal. lia.
Qed.

(** What the page functions do when they return. *)
Lemma first_page_total m h rn h' m1 : _get_first_region_page h rn m = (Ret h', m1) ->
  total_bytes h' = 0 /\ is_xrgn h' = is_xrgn h.
Proof.
  unfold _get_first_region_page. intros He. apply st_bind_Ret in He as (m0 & ? & Hg & He).
  apply st_bind_Ret in He as (p & m2 & _ & He). destruct (p =? 0); [done|].
  unfold mbind, st_bind, modify, mret, st_ret in He. injection He as <- _. split; [|done]. rewrite total_new_page.
  by rewrite Z.sub_0_r, Z.sub_diag.
Qed.

Lemma grow_region_total m h rn h' m1 : grow_region h rn m = (Ret h', m1) ->
  total_bytes h' = total_bytes h /\ is_xrgn h' = is_xrgn h.
Proof.
  unfold grow_region. intros He. apply st_bind_Ret in He as (m0 & ? & Hg & He).
  apply st_bind_Ret in He as (p & m2 & _ & He). destruct (p =? 0); [done|].
  unfold mbind, st_bind, modify, mret, st_ret in He. injection He as <- _. split; [|done]. rewrite total_new_page.
  apply u32_grow.
Qed.

(** The byte count reported for a lexical region ([region_alloc_bytes])
    grows by exactly the rounded size of every allocation, modulo 2^32: page
    headers, the unused end of full pages and the free part of the current page
    are never counted.  The count restarts at zero with the first page. *)
Theorem region_total_bytes_exact self gc r n m h p m' :
  _CYC_MAX_REGION_CONST < r -> rgns m !! r = Some (ARegion h) -> is_xrgn h = 0 ->
  _region_malloc self r n m = (Ret p, m') ->
  region_get_total_bytes gc r m' =
    (Ret (i32 (u32 ((if curr h =? 0 then 0 else total_bytes h) + round_up n))), m').
Proof.
  intros Hr Ho Hx He. rewrite (region_malloc_lexical self r n m h Hr Ho Hx) in He.
  unfold bump_region in He. apply st_bind_Ret in He as (h' & m1 & Hh & He).
  unfold mbind, st_bind in He. simpl in He. injection He as <- <-.
  assert (Ht : total_bytes h' = (if curr h =? 0 then 0 else total_bytes h) /\
    is_xrgn h' = is_xrgn h).
  { destruct (curr h =? 0); [by eapply first_page_total|].
    destruct (u32 (last_plus_one h - offset h) <? round_up n); [by eapply grow_region_total|].
    unfold mret, st_ret in Hh. by simplify_eq. }
  destruct Ht as [Ht Hx']. unfold region_get_total_bytes. rewrite (proj2 (Z.ltb_lt _ _) Hr).
  unfold mbind, st_bind. rewrite (get_rgn_Ret _ _ _ (lookup_insert_eq _ _ _)).
  cbn [is_xrgn set_offset]. rewrite Hx', Hx. simpl. rewrite <- Ht, <- total_set_offset. done.
Qed.

(** ** A failed allocation in a shared region *)

(** C40. When the heap has no page left, [_xregion_malloc] on a shared region
    throws [Cyc_Bad_alloc] without releasing the region's mutex, and from then
    on every allocation in the region, by any thread, sleeps. *)
Theorem xregion_bad_alloc_keeps_mutex self t r n m x h' k :
  rgns m !! r = Some (AnXRegion x) -> g_rcnt (caps x) <> 1 -> g_lock (caps x) = 0 ->
  self <> 0 -> u32 (x_last_plus_one x - x_offset x) < round_up n ->
  (forall sz, GC_malloc_atomic sz (heap m) = (0, h')) ->
  exists m', _xregion_malloc self r n m = (Thrown Cyc_Bad_alloc this_file 1398, m') /\
    _xregion_malloc t r k m' = (Blocked, m').
Proof.
  intros Hr Hs Hl Hself Hn Hgc. unfold _xregion_malloc at 1.
  unfold mbind at 1, st_bind at 1. rewrite (get_xrgn_Ret _ _ _ Hr).
  rewrite (proj2 (Z.eqb_neq _ _) Hs).
  unfold wait_lock, mbind, st_bind. rewrite (get_xrgn_Ret _ _ _ Hr), Hl.
  cbn [Z.eqb]. unfold modify. unfold xregion_bump, mbind, st_bind.
  rewrite (get_xrgn_Ret _ _ (x_set_lock self x)) by apply lookup_insert_eq.
  unfold get. cbn [x_last_plus_one x_offset x_set_lock x_set_caps].
  rewrite (proj2 (Z.ltb_lt _ _) Hn). unfold on_heap. cbn [heap set_rgn]. rewrite Hgc.
  eexists. split; [done|]. unfold _xregion_malloc, mbind, st_bind.
  rewrite (get_xrgn_Ret _ _ (x_set_lock self x)) by apply lookup_insert_eq.
  cbn [caps x_set_lock x_set_caps g_rcnt]. rewrite (proj2 (Z.eqb_neq _ _) Hs).
  unfold wait_lock, mbind, st_bind.
  rewrite (get_xrgn_Ret _ _ (x_set_lock self x)) by apply lookup_insert_eq.
  cbn [caps x_set_lock x_set_caps g_lock]. by rewrite (proj2 (Z.eqb_neq _ _) Hself).
Qed.

(** ** Reference-counted objects *)

Inductive refop : Type := Alias | Drop.

Definition run_refop (ptr : Z) (op : refop) : ST (mem H) unit :=
  match op with
  | Alias => Cyc_Core_alias_refptr ptr
  | Drop => Cyc_Core_drop_refptr ptr
  end.

Fixpoint run_refops (ptr : Z) (ops : list refop) : ST (mem H) unit :=
  match ops with
  | [] => mret tt
  | op :: ops => run_refop ptr op;; run_refops ptr ops
  end.

(** The references that exist after the operations, starting from [c]; [None]
    when an operation uses a pointer whose last reference is gone. *)
Fixpoint refs_after (c : Z) (ops : list refop) : option Z :=
  match ops with
  | [] => Some c
  | op :: ops =>
      if c <=? 0 then None
      else refs_after (match op with Alias => c + 1 | Drop => c - 1 end) ops
  end.

(** A reference-counted object at [ptr] with [c] references: the word before
    the object holds the count, in a live block. *)
Definition refptr_ok (m : mem H) (ptr c : Z) : Prop :=
  h_ok (heap m) /\ 4 < ptr < 4294967296 /\
  (if c =? 0 then gc_live (heap m) !! (ptr - 4) = None
   else words m !! (ptr - 4) = Some c /\ is_Some (gc_live (heap m) !! (ptr - 4))).

Lemma get_word_Ret m p v : words m !! p = Some v -> get_word p m = (Ret v, m).
Proof. intros Hp. unfold get_word, get, load, lift, mbind, st_bind. by rewrite Hp. Qed.

Lemma refop_step m ptr c op : refptr_ok m ptr c -> 0 < c < INT_MAX ->
  exists m', run_refop ptr op m = (Ret tt, m') /\
    refptr_ok m' ptr (match op with Alias => c + 1 | Drop => c - 1 end).
Proof.
  intros (Hok & Hp & Hc) Hr. unfold INT_MAX in Hr. rewrite (proj2 (Z.eqb_neq c 0)) in Hc by lia.
  destruct Hc as [Hw [b Hb]]. destruct op; simpl;
    unfold Cyc_Core_alias_refptr, Cyc_Core_drop_refptr, get_refcnt, sizeof_int;
    rewrite (proj2 (Z.eqb_neq ptr 0)), (u32_small (ptr - 4)) by lia;
    unfold mbind, st_bind; rewrite (get_word_Ret _ _ _ Hw); unfold modify.
  - eexists. split; [done|]. split_and!; try done; try lia. simpl. rewrite i32_small by lia.
    rewrite (proj2 (Z.eqb_neq (c + 1) 0)) by lia. rewrite lookup_insert_eq. eauto.
  - rewrite (get_word_Ret _ _ (i32 (c - 1))) by apply lookup_insert_eq.
    rewrite i32_small by lia. destruct (c - 1 =? 0) eqn:E.
    + unfold gc_free. simpl. rewrite Hb. destruct (GC_free_law _ _ _ Hok Hb) as [Hok' Hl].
      eexists. split; [done|]. split_and!; simpl; try done; try lia.
      by rewrite E, Hl, lookup_delete_eq.
    + eexists. split; [done|]. split_and!; try done; try lia. simpl.
      rewrite E, lookup_insert_eq. eauto.
Qed.

(** C34. Reference counting: after any sequence of [Cyc_Core_alias_refptr] and
    [Cyc_Core_drop_refptr] on an object that uses no reference it does not
    have, the count stored before the object is the number of references, and
    the block is released exactly when the last reference is dropped. *)
Theorem refptr_lifecycle ptr ops m c c' :
  refptr_ok m ptr c -> 0 <= c -> c + Z.of_nat (length ops) < INT_MAX ->
  refs_after c ops = Some c' ->
  exists m', run_refops ptr ops m = (Ret tt, m') /\ refptr_ok m' ptr c'.
Proof.
  revert m c. induction ops as [|op ops IH]; intros m c Hok H0 Hc Hr; simpl in *.
  - exists m. by simplify_eq.
  - destruct (c <=? 0) eqn:E; [done|].
    destruct (refop_step m ptr c op Hok) as (m1 & He & Hok1); [lia|].
    unfold mbind, st_bind. rewrite He. apply (IH m1 _ Hok1); destruct op; lia || done.
Qed.
End lemmas.

(** ** Concrete states and programs *)

Definition new_xhandle (tid : Z) : XRegionHandle :=
  mk_xregion 1 (mk_rcaps 1 0 tid 0 0 0 0) 0 0 0 0 0.

Definition ex_mem : mem bump :=
  mk_mem empty_bump
    (<[1000 := ARegion _new_region]> (<[2000 := AnXRegion (new_xhandle 1)]> ∅)) ∅ ∅ 480 480.

Definition ex_script : list cmd :=
  [CMalloc 1000 100; CFast 1000 3; CMalloc 2000 500; CCalloc 1000 10 100; CFree 1000;
   CCalloc 2000 8 8; CFast 1000 17].

Lemma ex_mem_ok : init_ok ex_mem.
Proof.
  split; [apply empty_bump_ok|]. split_and!; try done.
  intros r o. cbn [rgns ex_mem]. rewrite lookup_insert_Some, lookup_insert_Some.
  intros [[<- <-]|(_ & [[<- <-]|[_ Hr]])]; [by split_and!..|]. by rewrite lookup_empty in Hr.
Qed.

Lemma ex_script_ok : Forall (cmd_ok (rgns ex_mem)) ex_script.
Proof.
  unfold ex_script.
  repeat (apply Forall_cons_2; [simpl; first [split; [by eexists|done]|by eexists]|]).
  apply Forall_nil_2.
Qed.

(** The program runs to its end with three live objects. *)
Lemma region_programs_safe_witness :
  exists objs m', exec 1 ex_script [] ex_mem = (Ret objs, m') /\ length objs = 3%nat /\
    objs_safe m' objs /\ no_leak m'.
Proof.
  pose proof (region_programs_safe 1 ex_script ex_mem ex_mem_ok ex_script_ok) as Hs.
  destruct (exec 1 ex_script [] ex_mem) as [o m'] eqn:E.
  assert (Hl : match o with Ret l => length l = 3%nat | _ => False end)
    by (replace o with (exec 1 ex_script [] ex_mem).1 by (by rewrite E); vm_compute; done).
  clear E. destruct o as [objs|e fl ln|msg| |]; [|destruct Hl..].
  exists objs, m'. exact (conj eq_refl (conj Hl Hs)).
Defined.

(** A lexical region with two pages and one object in each. *)
Definition ex_mem1 : mem bump := (exec 1 [CMalloc 1000 100; CMalloc 1000 600] [] ex_mem).2.

Lemma ex_mem1_inv : exists A a, mem_inv ex_mem1 A /\ A !! 1000 = Some a.
Proof.
  pose proof (init_inv ex_mem ex_mem_ok) as Hi.
  pose proof (region_malloc_spec 1 ex_mem _ 1000 (mk_arena true [] []) 100 Hi eq_refl ltac:(done)) as H1.
  destruct (_region_malloc 1 1000 100 ex_mem) as [o1 m1] eqn:E1.
  assert (Ho1 : o1 = Ret 4104)
    by (change o1 with (o1, m1).1; rewrite <- E1; vm_compute; done).
  subst o1. destruct H1 as (n1 & Hi1 & _).
  pose proof (region_malloc_spec 1 m1 _ 1000 _ 600 Hi1 (lookup_insert_eq _ _ _) ltac:(done)) as H2.
  assert (Em : ex_mem1 = (_region_malloc 1 1000 600 m1).2).
  { change m1 with (Ret (A:=Z) 4104, m1).2. rewrite <- E1. vm_compute. done. }
  rewrite Em. destruct (_region_malloc 1 1000 600 m1) as [o2 m2] eqn:E2.
  assert (Ho2 : o2 = Ret 4592).
  { change o2 with (o2, m2).1. rewrite <- E2. change m1 with (Ret (A:=Z) 4104, m1).2.
    rewrite <- E1. vm_compute. done. }
  subst o2. destruct H2 as (n2 & Hi2 & _). eexists _, _. split; [exact Hi2|apply lookup_insert_eq].
Qed.

Lemma free_region_exact_witness :
  exists m', _free_region 1000 ex_mem1 = (Ret tt, m') /\
    rgns m' !! 2000 = Some (AnXRegion (new_xhandle 1)).
Proof.
  destruct ex_mem1_inv as (A & a & Hi & Ha).
  assert (Hr : exists h, rgns ex_mem1 !! 1000 = Some (ARegion h)) by (vm_compute; by eexists).
  destruct Hr as [h Hr].
  destruct (free_region_exact ex_mem1 A 1000 a h Hi Ha Hr) as (m' & He & _ & Hrg & _).
  exists m'. split; [exact He|]. rewrite (Hrg 2000 ltac:(lia)). vm_compute. done.
Defined.

Lemma fast_region_malloc_equiv_witness :
  _fast_region_malloc 1 1000 24 ex_mem1 = _region_malloc 1 1000 24 ex_mem1.
Proof.
  refine (fast_region_malloc_equiv 1 1000 24 ex_mem1 _ _).
  - intros x Hx. vm_compute in Hx. discriminate Hx.
  - intros h Hh. vm_compute in Hh. injection Hh as <-. reflexivity.
Defined.

Lemma region_total_bytes_exact_witness :
  region_get_total_bytes 0 1000 (_region_malloc 1 1000 100 ex_mem).2
  = (Ret 104, (_region_malloc 1 1000 100 ex_mem).2).
Proof.
  exact (region_total_bytes_exact 1 0 1000 100 ex_mem _new_region 4104
           (_region_malloc 1 1000 100 ex_mem).2 eq_refl eq_refl eq_refl eq_refl).
Defined.

(** A heap without room and a region shared by two threads. *)
Definition ex_full : mem bump :=
  mk_mem (mk_bump 4096 4096 ∅)
    (<[2000 := AnXRegion (x_set_caps (mk_rcaps 2 0 0 0 0 0 0) (new_xhandle 1))]> ∅) ∅ ∅ 480 480.

Lemma xregion_bad_alloc_keeps_mutex_witness :
  exists m', _xregion_malloc 1 2000 16 ex_full = (Thrown Cyc_Bad_alloc this_file 1398, m') /\
    _xregion_malloc 3 2000 8 m' = (Blocked, m').
Proof.
  refine (xregion_bad_alloc_keeps_mutex 1 3 2000 16 ex_full _ (heap ex_full) 8 eq_refl _ _ _ _ _);
    [done..|]. intros sz. simpl. unfold nogc_GC_malloc_atomic, malloc, bump_libc, bump_alloc.
  destruct (block_size_spec (u32 sz)) as [_ Hb]. cbn [b_next b_limit].
  destruct (_ <? _) eqn:E; [lia|]. done.
Defined.

(** A reference-counted object of 20 bytes with one reference. *)
Definition ex_ref : mem bump :=
  mk_mem (mk_bump 4120 1048576 {[4096 := (24, true)]}) ∅ ∅ {[4096 := 1]} 480 480.

Lemma ex_ref_ok : refptr_ok ex_ref 4100 1.
Proof.
  split; [|by split; [|split; [vm_compute|eexists]]].
  split_and!; simpl; try done. intros q k z Hq. apply lookup_singleton_Some in Hq as [<- Hq].
  injection Hq as <- <-. lia.
Qed.

Lemma refptr_lifecycle_witness :
  exists m', run_refops 4100 [Alias; Drop; Alias; Drop; Drop] ex_ref = (Ret tt, m') /\
    refptr_ok m' 4100 0.
Proof.
  exact (refptr_lifecycle 4100 [Alias; Drop; Alias; Drop; Drop] ex_ref 1 0 ex_ref_ok
           ltac:(done) ltac:(done) eq_refl).
Defined.

(** ** Sizes outside the compiler's bound *)

(** The size computations wrap around: [_bounded_GC_calloc] of 65537
    elements of 65536 bytes returns a block of 65536 bytes, a request of 2^32-1
    bytes in a lexical region is rounded up to 0 and returns without reserving
    anything, and one of 2^32-8 bytes gets a page of 0 bytes. *)
Theorem huge_requests_wrap :
  (exists p m', _bounded_GC_calloc 65537 65536 "f" 1 ex_mem = (Ret p, m') /\
     gc_live (heap m') !! p = Some (65536, true)) /\
  (exists p m', _region_malloc 1 1000 4294967295 ex_mem1 = (Ret p, m') /\
     _region_malloc 1 1000 4294967295 m' = (Ret p, m')) /\
  (exists m', _region_malloc 1 1000 4294967288 ex_mem = (Ret 4104, m') /\
     gc_live (heap m') !! 4096 = Some (0, true)).
Proof.
  split_and!.
  - eexists _, _. split; [vm_compute; reflexivity|]. vm_compute. reflexivity.
  - eexists _, _. split; [vm_compute; reflexivity|]. vm_compute. reflexivity.
  - eexists _. split; [vm_compute; reflexivity|]. vm_compute. reflexivity.
Qed.

(** [_region_calloc] in an extended region does not give zero-filled
    memory: the object lies in a page obtained with [GC_malloc_atomic], which
    is not cleared, while the same request in a lexical region gives a
    zero-filled one. *)
Theorem xregion_calloc_not_zeroed :
  (exists m', _region_calloc 1 2000 4 10 ex_mem = (Ret 4104, m') /\
     gc_live (heap m') !! 4096 = Some (488, false)) /\
  (exists m', _region_calloc 1 1000 4 10 ex_mem = (Ret 4104, m') /\
     gc_live (heap m') !! 4096 = Some (488, true)).
Proof.
  split; eexists; (split; [vm_compute; reflexivity|]); vm_compute; reflexivity.
Qed.

(** [_fast_region_malloc] takes an extended region for a lexical one: while
    a writer waits, the words it reads as [curr], [offset] and
    [last_plus_one] are the region's queue counters, the "object" it returns is
    at address 1 and the count of waiting writers is overwritten, whereas
    [_region_malloc] allocates in a page. *)
Theorem fast_path_confuses_xregion :
  let m := mk_mem empty_bump
    (<[2000 := AnXRegion (x_set_caps (mk_rcaps 1 0 1 1 1 0 0) (new_xhandle 1))]> ∅) ∅ ∅ 480 480 in
  (exists m', _fast_region_malloc 1 2000 16 m = (Ret 1, m') /\
     rgns m' !! 2000 = Some (AnXRegion (x_set_caps (mk_rcaps 1 0 1 1 17 0 0) (new_xhandle 1)))) /\
  (exists m', _region_malloc 1 2000 16 m = (Ret 4104, m')).
Proof.
  split; eexists; [split|]; vm_compute; reflexivity.
Qed.
