(* ===== verification/Frames.v ===== *)
(** * The frame stack and exceptions

    Models lib/runtime_stack.c ([_push_frame], [_npop_frame]),
    lib/runtime_exception.c (handlers and the throw functions) and the region
    frames of lib/runtime_memory.c ([_push_region], [_pop_region]).

    Each thread keeps a linked stack of frames.  An exception handler is a frame
    with tag 0; a lexical region is a frame with tag 1 whose cleanup function
    frees the region.  [longjmp] is modelled by returning the address of the
    handler that receives control. *)

From S2P Require Import Prelude Alloc RwLock Region RegionSafety.

(** The per-thread state: [tcb()->stack], [tcb()->exn] and the memory. *)
Record thread (H : Type) : Type := mk_thread {
  t_mem : mem H;
  handlers : gmap Z RuntimeStack;    (* the [s] field of each handler *)
  _current_frame : Z;
  top_handler : Z;                   (* address of [tcb()->exn.top_handler] *)
  _exn_thrown : option exn;
  _exn_filename : string;
  _exn_lineno : Z;
  uncaught_fun : Z;
  in_uncaught_fun : bool
}.
Arguments mk_thread {H} _ _ _ _ _ _ _ _ _.
Arguments t_mem {H} _.
Arguments handlers {H} _.
Arguments _current_frame {H} _.
Arguments top_handler {H} _.
Arguments _exn_thrown {H} _.
Arguments _exn_filename {H} _.
Arguments _exn_lineno {H} _.
Arguments uncaught_fun {H} _.
Arguments in_uncaught_fun {H} _.

Definition set_mem {H} (m : mem H) (t : thread H) : thread H :=
  mk_thread m (handlers t) (_current_frame t) (top_handler t) (_exn_thrown t)
    (_exn_filename t) (_exn_lineno t) (uncaught_fun t) (in_uncaught_fun t).
Definition set_handler {H} (p : Z) (f : RuntimeStack) (t : thread H) : thread H :=
  mk_thread (t_mem t) (<[p := f]> (handlers t)) (_current_frame t) (top_handler t)
    (_exn_thrown t) (_exn_filename t) (_exn_lineno t) (uncaught_fun t) (in_uncaught_fun t).
Definition set_current {H} (p : Z) (t : thread H) : thread H :=
  mk_thread (t_mem t) (handlers t) p (top_handler t) (_exn_thrown t)
    (_exn_filename t) (_exn_lineno t) (uncaught_fun t) (in_uncaught_fun t).
Definition set_exn {H} (e : exn) (file : string) (line : Z) (t : thread H) : thread H :=
  mk_thread (t_mem t) (handlers t) (_current_frame t) (top_handler t) (Some e)
    file line (uncaught_fun t) (in_uncaught_fun t).
Definition set_in_uncaught {H} (t : thread H) : thread H :=
  mk_thread (t_mem t) (handlers t) (_current_frame t) (top_handler t) (_exn_thrown t)
    (_exn_filename t) (_exn_lineno t) (uncaught_fun t) true.
Definition set_uncaught_fun {H} (f : Z) (t : thread H) : thread H :=
  mk_thread (t_mem t) (handlers t) (_current_frame t) (top_handler t) (_exn_thrown t)
    (_exn_filename t) (_exn_lineno t) f (in_uncaught_fun t).

Definition set_next (n : Z) (f : RuntimeStack) : RuntimeStack :=
  mk_frame (tag f) n (cleanup f).

(** [cast_stack_rgn] and [cast_rgn_stack]: the frame is the second field. *)
Definition stack_offset : Z := 4.
Definition cast_stack_rgn (x : Z) : Z := x - stack_offset.
Definition cast_rgn_stack (x : Z) : Z := x + stack_offset.

Section ops.
Context {H : Type} `{Heap H}.

Definition on_mem {A} (op : ST (mem H) A) : ST (thread H) A := fun t =>
  let '(o, m') := op (t_mem t) in (o, set_mem m' t).

Definition set_rgn_frame (f : RuntimeStack) (h : RegionHandle) : RegionHandle :=
  mk_region (is_xrgn h) f (curr h) (offset h) (last_plus_one h) (used_bytes h) (wasted_bytes h).

Definition load_frame (p : Z) : ST (thread H) RuntimeStack := fun t =>
  match handlers t !! p with
  | Some f => (Ret f, t)
  | None =>
      match rgns (t_mem t) !! cast_stack_rgn p with
      | Some (ARegion h) => (Ret (s h), t)
      | _ => (Undef, t)
      end
  end.

Definition store_frame (p : Z) (f : RuntimeStack) : ST (thread H) unit := fun t =>
  match handlers t !! p with
  | Some _ => (Ret tt, set_handler p f t)
  | None =>
      match rgns (t_mem t) !! cast_stack_rgn p with
      | Some (ARegion h) =>
          (Ret tt, set_mem (set_rgn (cast_stack_rgn p) (ARegion (set_rgn_frame f h)) (t_mem t)) t)
      | _ => (Undef, t)
      end
  end.

(** ** runtime_stack.c *)

Definition _push_frame (frame : Z) : ST (thread H) unit :=
  t ← get;
  f ← load_frame frame;
  store_frame frame (set_next (_current_frame t) f);;
  modify (set_current frame).

(** [frame->cleanup(frame)] *)
Definition __free_region (frame : Z) : ST (thread H) unit :=
  on_mem (_free_region (cast_stack_rgn frame)).

Definition run_cleanup (frame : Z) (f : RuntimeStack) : ST (thread H) unit :=
  match cleanup f with
  | None => mret tt
  | Some __free_region_fn => __free_region frame
  end.

(** The loop of [_npop_frame], [k] iterations from [current_frame]. *)
Fixpoint npop_loop (k : nat) (current_frame : Z) : ST (thread H) Z :=
  match k with
  | O => mret current_frame
  | S k =>
      if current_frame =? 0 then lift (Exit "internal error: empty frame stack")
      else
        f ← load_frame current_frame;
        run_cleanup current_frame f;;
        f' ← load_frame current_frame;
        npop_loop k (next f')
  end.

(** [for(i = n; i <= n; i--)] on an unsigned [i] makes [n+1] iterations (for
    [n] below the largest unsigned number). *)
Definition _npop_frame (n : Z) : ST (thread H) unit :=
  t ← get;
  c ← npop_loop (S (Z.to_nat n)) (_current_frame t);
  modify (set_current c).

(** ** Region frames *)

Definition _push_region (r : Z) : ST (thread H) unit :=
  o ← on_mem (get_rgn r);
  match o with
  | AnXRegion _ => lift Undef
  | ARegion h =>
      store_frame (cast_rgn_stack r) (mk_frame 1 (next (s h)) (Some __free_region_fn));;
      _push_frame (cast_rgn_stack r)
  end.

Definition _pop_region : ST (thread H) unit :=
  t ← get;
  let f := _current_frame t in
  if f =? 0 then lift (Exit "internal error: _pop_region")
  else
    fr ← load_frame f;
    if negb (tag fr =? 1) then lift (Exit "internal error: _pop_region")
    else _npop_frame 0.

(** ** runtime_exception.c *)

Definition _push_handler (new_handler : Z) : ST (thread H) unit :=
  f ← load_frame new_handler;
  store_frame new_handler (mk_frame 0 (next f) None);;
  _push_frame new_handler.

Definition _npop_handler (n : Z) : ST (thread H) unit := _npop_frame (u32 n).

Definition _pop_handler : ST (thread H) unit := _npop_handler 0.

Definition Cyc_Core_get_exn_thrown : ST (thread H) (option exn) :=
  t ← get; mret (_exn_thrown t).
Definition Cyc_Core_get_exn_filename : ST (thread H) string :=
  t ← get; mret (_exn_filename t).
Definition Cyc_Core_get_exn_lineno : ST (thread H) Z :=
  t ← get; mret (_exn_lineno t).

Definition Cyc_Core_get_exn_name (x : exn) : string :=
  match x with
  | Cyc_Null_Exception => "Cyc_Null_Exception"
  | Cyc_Array_bounds => "Cyc_Array_bounds"
  | Cyc_Match_Exception => "Cyc_Match_Exception"
  | Cyc_Bad_alloc => "Cyc_Bad_alloc"
  | Cyc_Stack_overflow => "Cyc_Stack_overflow"
  | Cyc_Other_exn tag => tag
  end.

Definition Cyc_Core_set_uncaught_exn_fun (f : Z) : ST (thread H) unit :=
  modify (set_uncaught_fun f).

(** First return of [setjmp] in [_set_top_handler]. *)
Definition _set_top_handler : ST (thread H) unit :=
  t ← get;
  modify (set_handler (top_handler t) (mk_frame 0 (_current_frame t) None));;
  modify (set_current (top_handler t)).

(** Second return: the name of the exception that reached the top. *)
Definition _set_top_handler_caught : ST (thread H) string :=
  t ← get;
  match _exn_thrown t with
  | Some e => mret (Cyc_Core_get_exn_name e)
  | None => lift Undef
  end.

(** The user's function for uncaught exceptions. *)
Context (call_uncaught : Z -> ST (thread H) unit).

(** The loop of [_throw_fn]; the number of frames in the stores bounds it. *)
Fixpoint throw_loop (fuel : nat) (current_frame : Z) : ST (thread H) Z :=
  if current_frame =? 0 then mret 0
  else
    f ← load_frame current_frame;
    if tag f =? 0 then mret current_frame
    else match fuel with
         | O => lift Undef
         | S fuel =>
             run_cleanup current_frame f;;
             f' ← load_frame current_frame;
             throw_loop fuel (next f')
         end.

(** Returns the handler that [longjmp] resumes. *)
Definition _throw_fn (e : exn) (filename : string) (lineno : Z) : ST (thread H) Z :=
  t ← get;
  current_frame ← throw_loop (size (handlers t) + size (rgns (t_mem t))) (_current_frame t);
  if current_frame =? 0
  then lift (Exit "_throw_fn: no handler found - top handler not installed ?")
  else
    f ← load_frame current_frame;
    modify (set_current (next f));;
    let my_handler := current_frame in
    modify (set_exn e filename lineno);;
    t' ← get;
    (if (my_handler =? top_handler t') && negb (in_uncaught_fun t') then
       modify set_in_uncaught;;
       if uncaught_fun t' =? 0 then mret tt else call_uncaught (uncaught_fun t')
     else mret tt);;
    mret my_handler.

Definition _rethrow (e : exn) : ST (thread H) Z :=
  t ← get; _throw_fn e (_exn_filename t) (_exn_lineno t).

Definition throw_unlocated (e : exn) : ST (thread H) Z := _throw_fn e "?" 0.
Definition _throw_null_fn (file : string) (line : Z) : ST (thread H) Z :=
  _throw_fn Cyc_Null_Exception file line.
Definition _throw_arraybounds_fn (file : string) (line : Z) : ST (thread H) Z :=
  _throw_fn Cyc_Array_bounds file line.
Definition _throw_badalloc_fn (file : string) (line : Z) : ST (thread H) Z :=
  _throw_fn Cyc_Bad_alloc file line.
Definition _throw_match_fn (file : string) (line : Z) : ST (thread H) Z :=
  _throw_fn Cyc_Match_Exception file line.
Definition _throw_stack_fn : ST (thread H) Z := _throw_fn Cyc_Stack_overflow "?" (-1).
End ops.

(** ** Specification: the stack as a list of frames *)

Inductive aframe : Type := FHandler (p : Z) | FRegion (r : Z).

#[export] Instance aframe_eq_dec : EqDecision aframe.
Proof. solve_decision. Defined.

Definition addr (f : aframe) : Z :=
  match f with FHandler p => p | FRegion r => cast_rgn_stack r end.

(** The regions above the nearest handler, and the stack from that handler. *)
Fixpoint regions_above (l : list aframe) : list Z :=
  match l with FRegion r :: l => r :: regions_above l | _ => [] end.
Fixpoint from_handler (l : list aframe) : list aframe :=
  match l with FRegion _ :: l => from_handler l | _ => l end.

Definition frame_regions (l : list aframe) : list Z :=
  omap (fun f => match f with FRegion r => Some r | FHandler _ => None end) l.

(** The arenas after the regions [rs] have been freed. *)
Definition clear (rs : list Z) (A : gmap Z arena) : gmap Z arena :=
  map_imap (fun r a => Some (if decide (r ∈ rs) then mk_arena (a_lex a) [] [] else a)) A.

(** The pages of the regions [rs], and the live blocks without them. *)
Definition pages_of (rs : list Z) (A : gmap Z arena) : list Z :=
  rs ≫= fun r => match A !! r with Some a => (a_pages a).*1 | None => [] end.

Definition release (rs : list Z) (A : gmap Z arena) (B : blocks) : blocks :=
  filter (fun b => b.1 ∉ pages_of rs A) B.

Section spec.
Context {H : Type} `{HH : Heap H} `{!HeapLaws H}.
Implicit Types (t : thread H) (m : mem H) (A : gmap Z arena).

Definition frame_at (hs : gmap Z RuntimeStack) m (f : aframe) (n : Z) : Prop :=
  match f with
  | FHandler p => hs !! p = Some (mk_frame 0 n None)
  | FRegion r => hs !! cast_rgn_stack r = None /\
      exists h, rgns m !! r = Some (ARegion h) /\ s h = mk_frame 1 n (Some __free_region_fn)
  end.

Fixpoint fchain (hs : gmap Z RuntimeStack) m (c : Z) (l : list aframe) : Prop :=
  match l with
  | [] => c = 0
  | f :: l => c = addr f /\ addr f <> 0 /\ exists n, frame_at hs m f n /\ fchain hs m n l
  end.

Record stack_inv t (l : list aframe) A : Prop := {
  si_chain : fchain (handlers t) (t_mem t) (_current_frame t) l;
  si_nodup : NoDup l;
  si_mem : mem_inv (t_mem t) A;
  si_live r : FRegion r ∈ l -> is_Some (A !! r)
}.

Lemma load_frame_at t f n : frame_at (handlers t) (t_mem t) f n ->
  load_frame (addr f) t =
    (Ret (match f with
          | FHandler _ => mk_frame 0 n None
          | FRegion _ => mk_frame 1 n (Some __free_region_fn)
          end), t).
Proof.
  unfold load_frame. destruct f as [p|r]; simpl; [by intros ->|].
  intros (-> & h & Hh & <-). unfold cast_stack_rgn, cast_rgn_stack.
  by rewrite Z.add_simpl_r, Hh.
Qed.

Lemma clear_nil A : clear [] A = A.
Proof.
  apply map_eq. intros r. unfold clear. rewrite map_lookup_imap. by destruct (A !! r).
Qed.

Lemma clear_lookup rs A r : clear rs A !! r =
  (fun a => if decide (r ∈ rs) then mk_arena (a_lex a) [] [] else a) <$> A !! r.
Proof. unfold clear. rewrite map_lookup_imap. by destruct (A !! r). Qed.

Lemma elem_of_pages_of rs A q :
  q ∈ pages_of rs A <-> exists r a, r ∈ rs /\ A !! r = Some a /\ q ∈ (a_pages a).*1.
Proof.
  unfold pages_of. rewrite list_elem_of_bind. split.
  - intros (r & Hq & Hr). destruct (A !! r) as [a|] eqn:Ha; [by exists r, a|].
    by apply not_elem_of_nil in Hq.
  - intros (r & a & Hr & Ha & Hq). exists r. by rewrite Ha.
Qed.

Lemma release_lookup rs A B q :
  release rs A B !! q = if decide (q ∈ pages_of rs A) then None else B !! q.
Proof.
  unfold release. destruct (decide (q ∈ pages_of rs A)) as [Hq|Hq].
  - apply map_lookup_filter_None. right. intros x _ Hx. by apply Hx.
  - destruct (B !! q) as [b|] eqn:E.
    + by apply map_lookup_filter_Some.
    + apply map_lookup_filter_None. by left.
Qed.

Lemma release_nil A B : release [] A B = B.
Proof.
  apply map_eq. intros q. rewrite release_lookup, decide_False; [done|apply not_elem_of_nil].
Qed.

Lemma clear_app rs1 rs2 A : clear rs2 (clear rs1 A) = clear (rs1 ++ rs2) A.
Proof.
  apply map_eq. intros r. rewrite !clear_lookup. destruct (A !! r) as [a|]; [|done].
  simpl. f_equal. rewrite (decide_ext (r ∈ rs1 ++ rs2) (r ∈ rs1 \/ r ∈ rs2)) by apply elem_of_app.
  repeat case_decide; try done; naive_solver.
Qed.

Lemma release_app rs1 rs2 A B :
  release rs2 (clear rs1 A) (release rs1 A B) = release (rs1 ++ rs2) A B.
Proof.
  assert (Hp : forall q, q ∈ pages_of (rs1 ++ rs2) A <->
    q ∈ pages_of rs1 A \/ q ∈ pages_of rs2 (clear rs1 A)).
  { intros q. rewrite !elem_of_pages_of. setoid_rewrite clear_lookup.
    setoid_rewrite elem_of_app. setoid_rewrite fmap_Some. split.
    - intros (r & a & Hr & Ha & Hq). destruct (decide (r ∈ rs1)) as [H1|H1]; [left; by exists r, a|].
      right. exists r, a. split; [tauto|]. split; [|done]. exists a. by case_decide.
    - intros [(r & a & Hr & Ha & Hq)|(r & a & Hr & (a' & Ha & ->) & Hq)]; [exists r, a; tauto|].
      case_decide; [by apply not_elem_of_nil in Hq|]. exists r, a'. tauto. }
  apply map_eq. intros q. rewrite !release_lookup.
  specialize (Hp q). repeat case_decide; try done; naive_solver.
Qed.

(** From [m] to [m'] the regions [rs] have lost their objects, the live blocks
    have lost exactly their pages, and the rest is kept. *)
Definition freed (rs : list Z) A m m' : Prop :=
  mem_inv m' (clear rs A) /\ gc_live (heap m') = release rs A (gc_live (heap m)).

Lemma freed_nil A m : mem_inv m A -> freed [] A m m.
Proof. intros Hi. split; [by rewrite clear_nil|by rewrite release_nil]. Qed.

Lemma freed_app rs1 rs2 A m m1 m2 :
  freed rs1 A m m1 -> freed rs2 (clear rs1 A) m1 m2 -> freed (rs1 ++ rs2) A m m2.
Proof.
  intros [_ H1] [Hi H2]. split; [by rewrite <- clear_app|]. by rewrite H2, H1, release_app.
Qed.

(** Freeing one region keeps every frame of the stack. *)
Lemma cleanup_region t r n A : frame_at (handlers t) (t_mem t) (FRegion r) n ->
  mem_inv (t_mem t) A -> is_Some (A !! r) ->
  exists m', run_cleanup (addr (FRegion r)) (mk_frame 1 n (Some __free_region_fn)) t
             = (Ret tt, set_mem m' t) /\
    (forall f k, frame_at (handlers t) (t_mem t) f k -> frame_at (handlers t) m' f k) /\
    freed [r] A (t_mem t) m'.
Proof.
  intros (Hno & h & Hh & Hs) Hi [a Ha].
  destruct (free_region_spec _ _ _ _ _ Hi Ha Hh) as (m1 & m' & He & Hp & -> & Hi').
  eexists. unfold run_cleanup, __free_region, on_mem. simpl.
  unfold cast_stack_rgn, cast_rgn_stack. rewrite Z.add_simpl_r, He. split; [done|].
  destruct Hp as (_ & Hrg & _ & _ & _ & _ & Hlv). split.
  - intros [p|r'] k; [done|]. simpl. intros (Hn & h' & Hh' & Hs'). split; [done|].
    rewrite Hrg, lookup_insert. case_decide; [|by exists h'].
    simplify_eq. eexists. split; [done|]. done.
  - split.
    + replace (clear [r] A) with (<[r := mk_arena (a_lex a) [] []]> A); [exact Hi'|].
      apply map_eq. intros r'. rewrite clear_lookup, lookup_insert.
      destruct (decide (r = r')) as [<-|Hne].
      { rewrite Ha. simpl. by rewrite decide_True by left. }
      destruct (A !! r') as [a'|]; [|done]. simpl. rewrite decide_False; [done|].
      rewrite list_elem_of_singleton. congruence.
    + apply map_eq. intros q. simpl. rewrite release_lookup, Hlv. unfold pages_of. simpl.
      by rewrite Ha, app_nil_r.
Qed.

Lemma fchain_mono hs m m' c l :
  (forall f k, frame_at hs m f k -> frame_at hs m' f k) -> fchain hs m c l -> fchain hs m' c l.
Proof.
  intros Hf. revert c. induction l as [|f l IH]; intros c; [done|].
  intros (-> & Hz & n & Hn & Hc). split_and!; try done. exists n. eauto.
Qed.

Lemma clear_live rs A r : is_Some (A !! r) -> is_Some (clear rs A !! r).
Proof. intros [a Ha]. rewrite clear_lookup, Ha. by eexists. Qed.

(** One frame is removed: its region, if it is one, is freed. *)
Lemma pop_one t f n A : frame_at (handlers t) (t_mem t) f n -> mem_inv (t_mem t) A ->
  (forall r, f = FRegion r -> is_Some (A !! r)) ->
  exists m' fr, load_frame (addr f) t = (Ret fr, t) /\
    run_cleanup (addr f) fr t = (Ret tt, set_mem m' t) /\
    (exists fr', load_frame (addr f) (set_mem m' t) = (Ret fr', set_mem m' t) /\ next fr' = n) /\
    (forall f' k, frame_at (handlers t) (t_mem t) f' k -> frame_at (handlers t) m' f' k) /\
    freed (frame_regions [f]) A (t_mem t) m'.
Proof.
  intros Hf Hi Hr. destruct f as [p|r].
  - exists (t_mem t), (mk_frame 0 n None). rewrite (load_frame_at _ _ _ Hf).
    assert (Ht : set_mem (t_mem t) t = t) by (by destruct t). rewrite Ht.
    split_and!; try done; [|by apply freed_nil].
    exists (mk_frame 0 n None). by rewrite (load_frame_at _ _ _ Hf).
  - destruct (cleanup_region t r n A Hf Hi (Hr r eq_refl)) as (m' & He & Hk & Hi').
    exists m', (mk_frame 1 n (Some __free_region_fn)). rewrite (load_frame_at _ _ _ Hf).
    split_and!; try done. eexists.
    rewrite (load_frame_at (set_mem m' t) (FRegion r) n (Hk _ _ Hf)). done.
Qed.

Lemma set_mem_set_mem (m1 m2 : mem H) t : set_mem m2 (set_mem m1 t) = set_mem m2 t.
Proof. done. Qed.

Lemma frame_regions_cons f l : frame_regions (f :: l) = frame_regions [f] ++ frame_regions l.
Proof. by destruct f. Qed.

Lemma npop_loop_spec k l c t A : fchain (handlers t) (t_mem t) c l -> mem_inv (t_mem t) A ->
  (forall r, FRegion r ∈ l -> is_Some (A !! r)) -> (k <= length l)%nat ->
  exists m' c', npop_loop k c t = (Ret c', set_mem m' t) /\
    fchain (handlers t) m' c' (drop k l) /\
    (forall f' n, frame_at (handlers t) (t_mem t) f' n -> frame_at (handlers t) m' f' n) /\
    freed (frame_regions (take k l)) A (t_mem t) m'.
Proof.
  revert l c t A. induction k as [|k IH]; intros l c t A Hc Hi Hl Hk.
  - exists (t_mem t), c. rewrite take_0. pose proof (freed_nil A (t_mem t) Hi). by destruct t.
  - destruct l as [|f l]; simpl in Hk; [lia|]. destruct Hc as (-> & Hz & n & Hn & Hc).
    destruct (pop_one t f n A Hn Hi) as (m1 & fr & Hlo & Hcl & (fr' & Hlo' & <-) & Hk1 & Hi1).
    { intros r ->. apply Hl. left. }
    simpl. rewrite (proj2 (Z.eqb_neq _ _) Hz). unfold mbind, st_bind. rewrite Hlo, Hcl, Hlo'.
    destruct (IH l (next fr') (set_mem m1 t) (clear (frame_regions [f]) A))
      as (m2 & c' & He & Hc' & Hk2 & Hi2); simpl; try done; [by eapply fchain_mono|apply Hi1| |lia|].
    { intros r Hr. apply clear_live, Hl. by right. }
    exists m2, c'. rewrite He, set_mem_set_mem. split_and!; try done.
    + intros f' n' Hf'. by apply Hk2, Hk1.
    + change (freed (frame_regions (f :: take k l)) A (t_mem t) m2).
      rewrite frame_regions_cons. by eapply freed_app.
Qed.

(** Popping more frames than there are ends the process. *)
Lemma npop_loop_empty k l c t A : fchain (handlers t) (t_mem t) c l -> mem_inv (t_mem t) A ->
  (forall r, FRegion r ∈ l -> is_Some (A !! r)) -> (length l < k)%nat ->
  (npop_loop k c t).1 = Exit "internal error: empty frame stack".
Proof.
  revert l c t A. induction k as [|k IH]; intros l c t A Hc Hi Hl Hk; [lia|].
  destruct l as [|f l]; simpl in Hc, Hk; [by subst c|].
  destruct Hc as (-> & Hz & n & Hn & Hc).
  destruct (pop_one t f n A Hn Hi) as (m1 & fr & Hlo & Hcl & (fr' & Hlo' & <-) & Hk1 & Hi1).
  { intros r ->. apply Hl. left. }
  simpl. rewrite (proj2 (Z.eqb_neq _ _) Hz). unfold mbind, st_bind. rewrite Hlo, Hcl, Hlo'.
  apply (IH l (next fr') (set_mem m1 t) (clear (frame_regions [f]) A)); simpl; try done.
  - by eapply fchain_mono.
  - apply Hi1.
  - intros r Hr. apply clear_live, Hl. by right.
  - lia.
Qed.

Lemma throw_loop_spec fuel l c t A : fchain (handlers t) (t_mem t) c l -> mem_inv (t_mem t) A ->
  (forall r, FRegion r ∈ l -> is_Some (A !! r)) -> (length (regions_above l) <= fuel)%nat ->
  exists m', throw_loop fuel c t =
      (Ret (match from_handler l with [] => 0 | f :: _ => addr f end), set_mem m' t) /\
    fchain (handlers t) m' (match from_handler l with [] => 0 | f :: _ => addr f end) (from_handler l) /\
    freed (regions_above l) A (t_mem t) m'.
Proof.
  revert fuel c t A. induction l as [|f l IH]; intros fuel c t A Hc Hi Hl Hk.
  { simpl in Hc. subst c. exists (t_mem t). pose proof (freed_nil A (t_mem t) Hi).
    destruct fuel; by destruct t. }
  destruct Hc as (-> & Hz & n & Hn & Hc). destruct f as [p|r].
  { exists (t_mem t). simpl. simpl in Hz. pose proof (freed_nil A (t_mem t) Hi).
    replace (set_mem (t_mem t) t) with t by (by destruct t).
    split; [|by split_and!; [|done|by exists n|]].
    pose proof (load_frame_at t (FHandler p) n Hn) as Hlo. simpl in Hlo.
    destruct fuel; simpl; rewrite (proj2 (Z.eqb_neq _ _) Hz); unfold mbind, st_bind;
      by rewrite Hlo. }
  destruct fuel as [|fuel]; simpl in Hk; [lia|].
  destruct (pop_one t (FRegion r) n A Hn Hi) as (m1 & fr & Hlo & Hcl & (fr' & Hlo' & <-) & Hk1 & Hi1).
  { intros r' Hr. apply Hl. rewrite Hr. left. }
  assert (Hfr : tag fr = 1).
  { rewrite (load_frame_at _ _ _ Hn) in Hlo. by simplify_eq. }
  cbn [throw_loop]. rewrite (proj2 (Z.eqb_neq _ _) Hz). unfold mbind, st_bind.
  rewrite Hlo, Hfr. cbn [Z.eqb]. rewrite Hcl, Hlo'.
  destruct (IH fuel (next fr') (set_mem m1 t) (clear [r] A)) as (m2 & He & Hc2 & Hi2); simpl; try done.
  - by eapply fchain_mono.
  - apply Hi1.
  - intros r' Hr. apply clear_live, Hl. by right.
  - lia.
  - exists m2. rewrite He, set_mem_set_mem. split_and!; try done.
    exact (freed_app [r] _ A _ _ _ Hi1 Hi2).
Qed.

(** ** Pushing *)

Lemma frame_at_set_next hs (m : mem H) r h f f' k v : hs !! cast_rgn_stack r = None ->
  rgns m !! r = Some (ARegion h) -> f' <> FRegion r -> frame_at hs m f' k ->
  frame_at hs (set_rgn r (ARegion (set_rgn_frame v f)) m) f' k.
Proof.
  intros Hn Hr Hne. destruct f' as [p|r']; [done|]. intros (Hn' & h' & Hh' & Hs').
  split; [done|]. exists h'. simpl. rewrite lookup_insert_ne by congruence. done.
Qed.

Lemma fchain_other hs hs' (m m' : mem H) c l :
  (forall f k, f ∈ l -> frame_at hs m f k -> frame_at hs' m' f k) ->
  fchain hs m c l -> fchain hs' m' c l.
Proof.
  revert c. induction l as [|f l IH]; intros c Hf; [done|].
  intros (-> & Hz & n & Hn & Hc). split_and!; try done. exists n. split.
  - apply Hf; [left|done].
  - apply IH; [|done]. intros f' k Hin. apply Hf. by right.
Qed.

Lemma push_region_spec t l A r a : stack_inv t l A -> A !! r = Some a -> a_lex a = true ->
  FRegion r ∉ l -> handlers t !! cast_rgn_stack r = None ->
  exists m', _push_region r t = (Ret tt, set_current (cast_rgn_stack r) (set_mem m' t)) /\
    stack_inv (set_current (cast_rgn_stack r) (set_mem m' t)) (FRegion r :: l) A /\
    gc_live (heap m') = gc_live (heap (t_mem t)).
Proof.
  intros [Hc Hnd Hi Hl] Ha Hlex Hnin Hno.
  destruct (mi_rgn _ _ Hi _ _ Ha) as (Hr & o & Ho & [Hk Hz] & Hao).
  destruct o as [h|x]; [|simpl in *; congruence].
  set (fr := mk_frame 1 (_current_frame t) (Some __free_region_fn)).
  exists (set_rgn r (ARegion (set_rgn_frame fr h)) (t_mem t)). split; [|split; [|done]].
  - unfold _push_region, on_mem, _push_frame, get, modify, mbind, st_bind.
    rewrite (get_rgn_Ret _ _ _ Ho). unfold store_frame, load_frame. simpl. rewrite Hno.
    unfold cast_stack_rgn, cast_rgn_stack in *. rewrite !Z.add_simpl_r, Ho. simpl.
    rewrite Hno, lookup_insert_eq. simpl. rewrite Hno, lookup_insert_eq. unfold fr, set_next.
    unfold set_current, set_mem. simpl. do 2 f_equal. unfold set_rgn. simpl. f_equal.
    rewrite insert_insert_eq. done.
  - split; simpl.
    + split_and!; [done|unfold _CYC_MAX_REGION_CONST, cast_rgn_stack, stack_offset in *; lia|].
      exists (_current_frame t). split.
      * split; [done|]. eexists. rewrite lookup_insert_eq. split; [done|]. done.
      * eapply fchain_other, Hc. intros f k Hf. eapply frame_at_set_next; try done.
        intros ->. done.
    + by constructor.
    + apply (set_rgn_inv _ _ _ a); try done.
    + intros r' Hr'. apply elem_of_cons in Hr' as [Hr'|Hr']; [|eauto]. simplify_eq. by exists a.
Qed.

Lemma push_handler_spec t l A p f : stack_inv t l A -> p <> 0 -> handlers t !! p = Some f ->
  FHandler p ∉ l ->
  exists hs', _push_handler p t = (Ret tt, set_current p (set_handler p
      (mk_frame 0 (_current_frame t) None) t)) /\
    hs' = <[p := mk_frame 0 (_current_frame t) None]> (handlers t) /\
    stack_inv (set_current p (set_handler p (mk_frame 0 (_current_frame t) None) t))
      (FHandler p :: l) A.
Proof.
  intros [Hc Hnd Hi Hl] Hp Hf Hnin. eexists. split; [|split; [done|]].
  - unfold _push_handler, _push_frame, get, modify, mbind, st_bind, load_frame, store_frame.
    rewrite Hf. simpl. rewrite Hf. simpl. rewrite lookup_insert_eq. simpl.
    rewrite lookup_insert_eq. unfold set_current, set_handler, set_next. simpl.
    by rewrite insert_insert_eq.
  - split; simpl; try done.
    + split_and!; [done|done|]. exists (_current_frame t). split; [apply lookup_insert_eq|].
      eapply fchain_other, Hc. intros [q|r] k Hin; simpl.
      * rewrite lookup_insert_ne; [done|]. intros ->. done.
      * intros [Hn Hh]. split; [|done]. rewrite lookup_insert_ne; [done|congruence].
    + by constructor.
    + intros r' Hr'. apply elem_of_cons in Hr' as [Hr'|Hr']; [done|eauto].
Qed.

(** ** Unwinding *)

Lemma regions_above_elem l r : r ∈ regions_above l -> FRegion r ∈ l.
Proof.
  induction l as [|[p|r'] l IH]; simpl; try (by intros Hr; apply not_elem_of_nil in Hr).
  intros Hr. apply elem_of_cons in Hr as [-> |Hr]; [left|right; auto].
Qed.

Lemma regions_above_nodup l : NoDup l -> NoDup (regions_above l).
Proof.
  induction l as [|[p|r] l IH]; simpl; intros Hn; try constructor;
    apply NoDup_cons in Hn as [Hx Hn]; auto. intros Hr. by apply Hx, regions_above_elem.
Qed.

Lemma fchain_elem hs (m : mem H) c l f : fchain hs m c l -> f ∈ l -> exists n, frame_at hs m f n.
Proof.
  revert c. induction l as [|f' l IH]; intros c Hc Hf; [by apply not_elem_of_nil in Hf|].
  destruct Hc as (_ & _ & n & Hn & Hc). apply elem_of_cons in Hf as [-> |Hf]; eauto.
Qed.

(** The fuel of the throw loop is enough. *)
Lemma throw_fuel t l A : stack_inv t l A ->
  (length (regions_above l) <= size (handlers t) + size (rgns (t_mem t)))%nat.
Proof.
  intros [Hc Hnd _ _]. etrans; [|apply Nat.le_add_l].
  rewrite <- size_dom, <- (size_list_to_set (C:=gset Z) _ (regions_above_nodup l Hnd)).
  apply subseteq_size. intros r. rewrite elem_of_list_to_set, elem_of_dom. intros Hr.
  destruct (fchain_elem _ _ _ _ _ Hc (regions_above_elem _ _ Hr)) as (n & _ & h & Hh & _).
  by eexists.
Qed.

Lemma from_handler_suffix l : exists rs, l = rs ++ from_handler l.
Proof.
  induction l as [|[p|r] l [rs IH]]; [by exists []|by exists []|].
  exists (FRegion r :: rs). simpl. by f_equal.
Qed.

Context (call_uncaught : Z -> ST (thread H) unit).

(** The exception information and control after a throw. *)
Lemma throw_fn_spec e file line t l A p l' : stack_inv t l A ->
  from_handler l = FHandler p :: l' ->
  p <> top_handler t \/ in_uncaught_fun t = true \/ uncaught_fun t = 0 ->
  exists m' b, _throw_fn call_uncaught e file line t =
      (Ret p, mk_thread m' (handlers t) (match l' with [] => 0 | f :: _ => addr f end)
                (top_handler t) (Some e) file line (uncaught_fun t) b) /\
    stack_inv (mk_thread m' (handlers t) (match l' with [] => 0 | f :: _ => addr f end)
                (top_handler t) (Some e) file line (uncaught_fun t) b) l'
      (clear (regions_above l) A) /\
    gc_live (heap m') = release (regions_above l) A (gc_live (heap (t_mem t))).
Proof.
  intros Hs Hfh Hun. pose proof Hs as [Hc Hnd Hi Hl].
  destruct (throw_loop_spec _ l (_current_frame t) t A Hc Hi Hl (throw_fuel t l A Hs))
    as (m' & He & Hc' & Hi' & Hlv). rewrite Hfh in He, Hc'.
  destruct Hc' as (_ & Hz & n & Hn & Hc'). exists m'.
  assert (Hlo : load_frame p (set_mem m' t) = (Ret (mk_frame 0 n None), set_mem m' t))
    by exact (load_frame_at (set_mem m' t) (FHandler p) n Hn).
  assert (Hnext : n = match l' with [] => 0 | f :: _ => addr f end).
  { destruct l' as [|f l'']; [done|]. by destruct Hc' as (-> & _). }
  exists (if (p =? top_handler t) && negb (in_uncaught_fun t) then true else in_uncaught_fun t).
  split; [|split; [|exact Hlv]].
  - unfold _throw_fn, get, mbind, st_bind. rewrite He. simpl. simpl in Hz.
    rewrite (proj2 (Z.eqb_neq _ _) Hz), Hlo. cbn [next modify]. unfold modify. cbn.
    rewrite <- Hnext. unfold set_exn, set_current, set_mem, set_in_uncaught. cbn.
    destruct (p =? top_handler t) eqn:Et; cbn; [|done].
    destruct (in_uncaught_fun t) eqn:Eu; cbn; [done|].
    destruct Hun as [Hun|[Hun|Hun]]; [lia|congruence|]. by rewrite Hun.
  - destruct (from_handler_suffix l) as [rs Hrs]. rewrite Hfh in Hrs. split; simpl.
    + by rewrite <- Hnext.
    + rewrite Hrs in Hnd. apply NoDup_app in Hnd as (_ & _ & Hnd). by apply NoDup_cons in Hnd as [_ ?].
    + done.
    + intros r Hr. apply clear_live, Hl. rewrite Hrs. apply elem_of_app. right. by right.
Qed.

Lemma throw_fn_uncaught e file line t l A : stack_inv t l A -> from_handler l = [] ->
  (_throw_fn call_uncaught e file line t).1 =
    Exit "_throw_fn: no handler found - top handler not installed ?".
Proof.
  intros Hs Hfh. pose proof Hs as [Hc Hnd Hi Hl].
  destruct (throw_loop_spec _ l (_current_frame t) t A Hc Hi Hl (throw_fuel t l A Hs))
    as (m' & He & _). rewrite Hfh in He.
  unfold _throw_fn, get, mbind, st_bind. by rewrite He.
Qed.

(** ** Refinement: programs of frame operations *)

Inductive fop : Type :=
| PushRegion (r : Z)
| PushHandler (p : Z)
| PopFrames (n : Z)
| PopRegion
| Throw (e : exn) (file : string) (line : Z).

Definition run_fop (op : fop) : ST (thread H) unit :=
  match op with
  | PushRegion r => _push_region r
  | PushHandler p => _push_handler p
  | PopFrames n => _npop_frame n
  | PopRegion => _pop_region
  | Throw e file line => _throw_fn call_uncaught e file line;; mret tt
  end.

Fixpoint run_fops (ops : list fop) : ST (thread H) unit :=
  match ops with
  | [] => mret tt
  | op :: ops => run_fop op;; run_fops ops
  end.

(** The specification: a list of frames, the arenas of the regions and the
    blocks live in the heap; [P] are the addresses of the handlers.  [Exit] is a
    run-time error the code must report, [Undef] a use the code does not promise
    anything about. *)
Record astack : Type := mk_astack {
  as_frames : list aframe;
  as_arenas : gmap Z arena;
  as_blocks : blocks
}.

(** The stack becomes [l] and the regions [rs] are freed. *)
Definition drop_to (l : list aframe) (rs : list Z) (st : astack) : astack :=
  mk_astack l (clear rs (as_arenas st)) (release rs (as_arenas st) (as_blocks st)).

Definition push_to (f : aframe) (st : astack) : astack :=
  mk_astack (f :: as_frames st) (as_arenas st) (as_blocks st).

Definition astep (P : gset Z) (op : fop) (st : astack) : out astack :=
  let l := as_frames st in
  match op with
  | PushRegion r =>
      match as_arenas st !! r with
      | Some a => if a_lex a && bool_decide (FRegion r ∉ l) && bool_decide (cast_rgn_stack r ∉ P)
                  then Ret (push_to (FRegion r) st) else Undef
      | None => Undef
      end
  | PushHandler p =>
      if bool_decide (p ∈ P) && bool_decide (FHandler p ∉ l) && negb (p =? 0)
      then Ret (push_to (FHandler p) st) else Undef
  | PopFrames n =>
      if n <? 0 then Undef
      else if bool_decide (Z.to_nat n < length l)%nat
      then Ret (drop_to (drop (S (Z.to_nat n)) l) (frame_regions (take (S (Z.to_nat n)) l)) st)
      else Exit "internal error: empty frame stack"
  | PopRegion =>
      match l with
      | FRegion r :: l' => Ret (drop_to l' [r] st)
      | _ => Exit "internal error: _pop_region"
      end
  | Throw _ _ _ =>
      match from_handler l with
      | [] => Exit "_throw_fn: no handler found - top handler not installed ?"
      | _ :: l' => Ret (drop_to l' (regions_above l) st)
      end
  end.

Fixpoint arun (P : gset Z) (ops : list fop) (st : astack) : out astack :=
  match ops with
  | [] => Ret st
  | op :: ops => st' ← astep P op st; arun P ops st'
  end.

(** The state represents an abstract stack; no function for uncaught exceptions
    is registered. *)
Definition represents (P : gset Z) t (st : astack) : Prop :=
  stack_inv t (as_frames st) (as_arenas st) /\ gc_live (heap (t_mem t)) = as_blocks st /\
  dom (handlers t) = P /\ uncaught_fun t = 0.

Definition refines (P : gset Z) (o : out astack) (res : out unit * thread H) : Prop :=
  match o with
  | Ret st' => exists t', res = (Ret tt, t') /\ represents P t' st'
  | Exit msg => res.1 = Exit msg
  | _ => True
  end.

Lemma npop_frame_refines P n t st : represents P t st -> 0 <= n ->
  refines P (astep P (PopFrames n) st) (_npop_frame n t).
Proof.
  destruct st as [l A B]. intros (Hs & Hb & Hd & Hu) Hn. cbn [astep as_frames].
  destruct (n <? 0) eqn:E0; [lia|]. simpl in Hb.
  pose proof Hs as [Hc Hnd Hi Hl]. simpl in Hc, Hnd, Hi, Hl. unfold _npop_frame, get, mbind, st_bind.
  case_bool_decide as Hlt; cbn [refines].
  - destruct (npop_loop_spec (S (Z.to_nat n)) l (_current_frame t) t A Hc Hi Hl)
      as (m' & c' & He & Hc' & _ & Hi' & Hlv); [lia|]. rewrite He.
    eexists. split; [done|]. split; [|split; [by rewrite <- Hb|done]]. split; simpl; try done.
    + by apply sublist_NoDup with (l2 := l), sublist_drop.
    + intros r Hr. apply clear_live, Hl. rewrite <- (take_drop (S (Z.to_nat n)) l).
      apply elem_of_app. by right.
  - pose proof (npop_loop_empty (S (Z.to_nat n)) l (_current_frame t) t A Hc Hi Hl) as He.
    destruct (npop_loop _ _ _) as [o t']. simpl in He. rewrite He by lia. done.
Qed.

Lemma pop_region_refines P t st : represents P t st ->
  refines P (astep P PopRegion st) (_pop_region t).
Proof.
  destruct st as [l A B]. intros Hr. pose proof Hr as (Hs & _). pose proof Hs as [Hc _ _ _]. simpl in Hc.
  unfold _pop_region, get, mbind, st_bind. destruct l as [|f l]; [by rewrite Hc|].
  pose proof Hc as (Hcf & Hz & n & Hn & _). rewrite Hcf, (proj2 (Z.eqb_neq _ _) Hz).
  rewrite (load_frame_at _ _ _ Hn). destruct f as [p|r]; [done|]. cbn [tag Z.eqb negb].
  exact (npop_frame_refines P 0 t (mk_astack (FRegion r :: l) A B) Hr ltac:(lia)).
Qed.

Lemma throw_refines P e file line t st : represents P t st ->
  refines P (astep P (Throw e file line) st) (run_fop (Throw e file line) t).
Proof.
  destruct st as [l A B]. intros (Hs & Hb & Hd & Hu). simpl in *. unfold mbind, st_bind.
  destruct (from_handler l) as [|f l'] eqn:Ef.
  - pose proof (throw_fn_uncaught e file line t l A Hs Ef) as He.
    destruct (_throw_fn _ _ _ _ _) as [o t']. simpl in He. by subst o.
  - assert (exists p, f = FHandler p) as [p ->].
    { clear -Ef. induction l as [|[q|r] l IH]; simpl in Ef; simplify_eq; eauto. }
    destruct (throw_fn_spec e file line t l A p l' Hs Ef (or_intror (or_intror Hu)))
      as (m' & b & He & Hs' & Hlv). rewrite He. eexists. split; [done|].
    split_and!; try done. simpl. by rewrite Hlv, Hb.
Qed.

Lemma push_refines P t st op : represents P t st ->
  match op with PushRegion _ | PushHandler _ => True | _ => False end ->
  refines P (astep P op st) (run_fop op t).
Proof.
  destruct st as [l A B]. intros (Hs & Hb & Hd & Hu) Hop. simpl in *.
  destruct op as [r|p| | |]; try done; simpl.
  - destruct (A !! r) as [a|] eqn:Ha; [|done]. destruct (a_lex a) eqn:Hlex; [|done].
    repeat case_bool_decide; try done. simpl.
    destruct (push_region_spec t l A r a Hs Ha Hlex) as (m' & He & Hs' & Hlv); [done| |].
    { apply not_elem_of_dom. by rewrite Hd. }
    eexists. split; [done|]. split_and!; try done. simpl. by rewrite Hlv.
  - repeat case_bool_decide; try done. destruct (p =? 0) eqn:E; [done|]. simpl.
    assert (Hp : is_Some (handlers t !! p)) by (apply elem_of_dom; by rewrite Hd).
    destruct Hp as [f Hf].
    destruct (push_handler_spec t l A p f Hs ltac:(lia) Hf) as (_ & He & _ & Hs'); [done|].
    eexists. split; [done|]. split_and!; try done. simpl.
    rewrite dom_insert_L, Hd. set_solver.
Qed.

Lemma fop_refines P t st op : represents P t st -> refines P (astep P op st) (run_fop op t).
Proof.
  intros Hr. destruct op as [r|p|n| |e file line].
  - by apply push_refines.
  - by apply push_refines.
  - destruct (decide (0 <= n)) as [Hn|Hn]; [by apply npop_frame_refines|].
    simpl. destruct (n <? 0) eqn:E; [done|lia].
  - by apply pop_region_refines.
  - by apply throw_refines.
Qed.

(** C25. The frame stack refines its specification: any program of
    [_push_region], [_push_handler], [_npop_frame], [_pop_region] and throws
    behaves like the list of frames, region arenas and live heap blocks of
    [arun].  Frames leave in last-in first-out order; when a region frame leaves,
    its pages, and no other block, disappear from the live blocks of the heap; a
    throw resumes after the nearest handler; popping an empty stack, popping a
    region that is not on top or throwing without a handler is reported.  The
    thread has no function for uncaught exceptions registered (part of
    [represents]), and the program pushes lexical regions and handlers that are
    not on the stack already ([Undef] in [astep] otherwise). *)
Theorem frames_refine P ops t st :
  represents P t st -> refines P (arun P ops st) (run_fops ops t).
Proof.
  revert t st. induction ops as [|op ops IH]; intros t st Hr; simpl.
  - by exists t.
  - pose proof (fop_refines P t st op Hr) as H1. unfold mbind, st_bind, out_bind.
    destruct (astep P op st) as [st'|e fl ln|msg| |] eqn:E; simpl in *; try done.
    + destruct H1 as (t' & -> & Hr'). by apply IH.
    + destruct (run_fop op t) as [o t']. simpl in H1. by subst o.
Qed.

(** C29. [_throw_fn] unwinds to the nearest handler: it returns to that handler
    with the stack below it, every region pushed after the handler is freed and
    no other region is touched: the live blocks of the heap are those before
    without the pages of these regions.  The exception, file and line are
    recorded for the handler.  The handler is not the top one, or the function
    for uncaught exceptions is running already or none is registered: otherwise
    [_throw_fn] calls that function first. *)
Theorem throw_unwinds e file line t l A p l' :
  stack_inv t l A -> from_handler l = FHandler p :: l' ->
  p <> top_handler t \/ in_uncaught_fun t = true \/ uncaught_fun t = 0 ->
  exists t', _throw_fn call_uncaught e file line t = (Ret p, t') /\
    stack_inv t' l' (clear (regions_above l) A) /\
    gc_live (heap (t_mem t')) = release (regions_above l) A (gc_live (heap (t_mem t))) /\
    _exn_thrown t' = Some e /\ _exn_filename t' = file /\ _exn_lineno t' = line.
Proof.
  intros Hs Hf Hu. destruct (throw_fn_spec e file line t l A p l' Hs Hf Hu) as (m' & b & He & Hs' & Hlv).
  eexists. by split_and!.
Qed.
End spec.

(** ** Witnesses *)

(** The memory of [ex_mem] after an allocation of 100 bytes in the region 1000,
    which has obtained a page of 488 bytes at 4096. *)
Definition ex_paged : mem bump := (_region_malloc 1 1000 100 ex_mem).2.

Definition ex_thread : thread bump :=
  mk_thread ex_paged (<[5000 := mk_frame 0 0 None]> (<[6000 := mk_frame 0 0 None]> ∅))
    0 6000 None "?" 0 0 false.

Definition ex_arenas : gmap Z arena :=
  <[1000 := mk_arena true [(4096, 488)] [(4104, 100)]]>
    ((fun o => mk_arena (zero_pages o) [] []) <$> rgns ex_mem).

Definition no_uncaught (f : Z) : ST (thread bump) unit := mret tt.

Definition ex_fops : list fop :=
  [PushHandler 6000; PushHandler 5000; PushRegion 1000; Throw Cyc_Null_Exception "a.cyc" 7;
   PushRegion 1000; PopRegion].

Lemma ex_paged_inv : mem_inv ex_paged ex_arenas.
Proof.
  refine (new_page_inv ex_mem (set_heap (heap ex_paged) ex_mem) _ 1000 (mk_arena true [] [])
            (ARegion _new_region) (default (ARegion _new_region) (rgns ex_paged !! 1000)) 4096 488 100 104
            (init_inv ex_mem ex_mem_ok) eq_refl eq_refl _ eq_refl eq_refl eq_refl _ eq_refl _); [|lia..].
  exists (heap ex_paged). split_and!; try done.
  - split_and!; simpl; try done. intros q k z Hq. vm_compute in Hq.
    destruct q as [|q|q]; try done. repeat (destruct q as [q|q|]; try done). by simplify_eq.
Qed.

Lemma ex_thread_inv : stack_inv ex_thread [] ex_arenas.
Proof.
  split; [done|constructor|apply ex_paged_inv|].
  intros r Hr. by apply not_elem_of_nil in Hr.
Qed.

Definition ex_stack : astack := mk_astack [] ex_arenas {[4096 := (488, true)]}.

Lemma ex_represents : represents {[5000; 6000]} ex_thread ex_stack.
Proof. split; [apply ex_thread_inv|]. by vm_compute. Qed.

(** The page is live before the program, and freed by the throw. *)
Lemma frames_refine_witness :
  gc_live (heap (t_mem ex_thread)) !! 4096 = Some (488, true) /\
  exists t', run_fops no_uncaught ex_fops ex_thread = (Ret tt, t') /\ _current_frame t' = 6000 /\
    gc_live (heap (t_mem t')) = ∅.
Proof.
  split; [by vm_compute|].
  pose proof (frames_refine no_uncaught {[5000; 6000]} ex_fops ex_thread ex_stack
                ex_represents) as Hr.
  assert (Ha : exists A', arun {[5000; 6000]} ex_fops ex_stack = Ret (mk_astack [FHandler 6000] A' ∅))
    by (eexists; vm_compute; reflexivity).
  destruct Ha as [A' Ha]. rewrite Ha in Hr. destruct Hr as (t' & He & Hs & Hb & _).
  exists t'. split; [exact He|]. split; [|exact Hb].
  destruct (si_chain _ _ _ Hs) as [Hc _]. exact Hc.
Defined.

(** A thread with a region above a handler above the top handler. *)
Definition ex_thread2 : thread bump :=
  (run_fops no_uncaught [PushHandler 6000; PushHandler 5000; PushRegion 1000] ex_thread).2.

Lemma ex_thread2_inv : stack_inv ex_thread2 [FRegion 1000; FHandler 5000; FHandler 6000] ex_arenas.
Proof.
  destruct (push_handler_spec _ _ _ 6000 (mk_frame 0 0 None) ex_thread_inv)
    as (_ & E1 & _ & H1); [done|by vm_compute|apply not_elem_of_nil|].
  destruct (push_handler_spec _ _ _ 5000 (mk_frame 0 0 None) H1)
    as (_ & E2 & _ & H2); [done|by vm_compute|by rewrite list_elem_of_singleton|].
  destruct (push_region_spec _ _ _ 1000 _ H2 (lookup_insert_eq _ _ _))
    as (m' & E3 & H3 & _); [done| |by vm_compute|].
  { intros Hin. repeat (apply elem_of_cons in Hin as [Hin|Hin]; [done|]).
    by apply not_elem_of_nil in Hin. }
  unfold ex_thread2. cbn [run_fops run_fop]. unfold mbind, st_bind.
  rewrite E1, E2, E3. exact H3.
Qed.

Lemma throw_unwinds_witness :
  exists t', _throw_fn no_uncaught Cyc_Bad_alloc "f.c" 3 ex_thread2 = (Ret 5000, t') /\
    stack_inv t' [FHandler 6000] (clear [1000] ex_arenas) /\
    gc_live (heap (t_mem t')) = ∅ /\
    _exn_thrown t' = Some Cyc_Bad_alloc /\ _exn_filename t' = "f.c"%string /\ _exn_lineno t' = 3.
Proof.
  assert (Ht : 5000 <> top_handler ex_thread2) by (vm_compute; discriminate).
  destruct (throw_unwinds no_uncaught Cyc_Bad_alloc "f.c" 3 ex_thread2 _ ex_arenas 5000 [FHandler 6000]
           ex_thread2_inv eq_refl (or_introl Ht)) as (t' & He & Hs & Hb & Hx).
  exists t'. split; [exact He|]. split; [exact Hs|]. split; [|exact Hx]. rewrite Hb. by vm_compute.
Defined.
