(* ===== verification/DynRegion.v ===== *)
(** * Dynamic regions

    Models the keys of dynamic regions of lib/runtime_memory.c: a key is a heap
    block holding a region handle; a reference-counted key has its count in the
    word before the handle.  [Cyc_Core_open_region] passes the handle on. *)

From S2P Require Import Prelude Alloc FatPtr RwLock Region RegionSafety.

(** [sizeof(struct Cyc_Core_DynamicRegion)]: is_xrgn, the frame (three words),
    curr, offset, last_plus_one, sub_regions, used_bytes, wasted_bytes. *)
Definition sizeof_DynamicRegion : Z := 40.

Section ops.
Context {H : Type} `{Heap H}.

Definition Cyc_Core__new_ukey : ST (mem H) Z :=
  key ← _bounded_GC_malloc sizeof_DynamicRegion this_file 663;
  if key =? 0 then throw Cyc_Bad_alloc this_file 666
  else modify (set_rgn key (ARegion _new_region));; mret key.

Definition Cyc_Core__new_rckey : ST (mem H) Z :=
  krc ← _bounded_GC_malloc (sizeof_int + sizeof_DynamicRegion) this_file 682;
  if krc =? 0 then throw Cyc_Bad_alloc this_file 686
  else
    modify (set_word krc 1);;
    let key := u32 (krc + 4) in
    modify (set_rgn key (ARegion _new_region));; mret key.

Definition del_rgn (r : Z) (m : mem H) : mem H :=
  mk_mem (heap m) (delete r (rgns m)) (pages m) (words m)
    (default_region_page_size m) (default_xregion_page_size m).

Definition Cyc_Core_free_ukey (k : Z) : ST (mem H) unit :=
  _free_region k;;
  gc_free k;;
  modify (del_rgn k).

(** [unsigned c = ( *p) - 1; if (c >= *p) errquit]: the comparison is unsigned. *)
Definition Cyc_Core_free_rckey (k : Z) : ST (mem H) unit :=
  let p := u32 (k - 4) in
  v ← get_word p;
  let c := u32 (v - 1) in
  if u32 v <=? c then lift (Exit "internal error: free rckey bad count")
  else
    modify (set_word p (i32 c));;
    if c =? 0 then
      _free_region k;;
      gc_free p;;
      modify (fun m => del_word p (del_rgn k m))
    else mret tt.

(** [body] is the Cyclone function called with the handle. *)
Definition Cyc_Core_open_region {E A} (k : Z) (env : E) (body : Z -> E -> ST (mem H) A)
    : ST (mem H) A := body k env.
End ops.

(** ** Lemmas *)

Section lemmas.
Context {H : Type} `{HH : Heap H} `{!HeapLaws H}.
Implicit Types (m : mem H) (A : gmap Z arena).

(** A key is a live heap block that no region uses as a page. *)
Definition key_block m A (b k : Z) : Prop :=
  is_Some (gc_live (heap m) !! b) /\ (forall r a, A !! r = Some a -> b ∉ (a_pages a).*1) /\
  exists h a, rgns m !! k = Some (ARegion h) /\ A !! k = Some a.

(** The handle of a fresh region enters the map of arenas. *)
Lemma new_handle_inv m A k : mem_inv m A -> 2 < k -> A !! k = None ->
  mem_inv (set_rgn k (ARegion _new_region) m) (<[k := mk_arena true [] []]> A).
Proof.
  intros Hi Hk Hn. pose proof Hi as [Ho Hg Hd Hr Hw Hs Hx]. split; simpl; try done.
  - intros r a. rewrite !lookup_insert. case_decide; intros Ha; simplify_eq.
    + split; [done|]. eexists. split; [done|]. split; [done|].
      split; simpl; try done; try constructor; intros; by exfalso; eapply not_elem_of_nil.
    + by apply Hr.
  - intros r1 r2 a1 a2 q. rewrite !lookup_insert. repeat case_decide; intros Ha1 Ha2 Hq1 Hq2;
      simplify_eq; simpl in *; try done; try (by apply not_elem_of_nil in Hq1);
      try (by apply not_elem_of_nil in Hq2). eauto.
Qed.

(** Releasing a block that is not a page, and forgetting a handle. *)
Lemma release_inv m A k b : mem_inv m (<[k := mk_arena true [] []]> A) -> A !! k = None ->
  is_Some (gc_live (heap m) !! b) -> (forall r a, A !! r = Some a -> b ∉ (a_pages a).*1) ->
  mem_inv (del_rgn k (set_heap (GC_free b (heap m)) m)) A.
Proof.
  intros [Ho Hg Hd Hr Hw Hs Hx] Hn [blk Hb] Hnp. destruct (GC_free_law _ _ _ Ho Hb) as [Hok Hl].
  assert (Hsub : forall q c, gc_live (GC_free b (heap m)) !! q = Some c ->
                             gc_live (heap m) !! q = Some c).
  { intros q c. rewrite Hl, lookup_delete_Some. tauto. }
  assert (HA : forall r a, A !! r = Some a -> <[k := mk_arena true [] []]> A !! r = Some a).
  { intros r a Ha. rewrite lookup_insert_ne; [done|congruence]. }
  split; simpl; try done; eauto.
  - intros r a Ha. destruct (Hr r a (HA _ _ Ha)) as (Hr2 & o & Hro & Hk & Hao).
    split; [done|]. exists o. split_and!; try done.
    + rewrite lookup_delete_ne; [done|congruence].
    + eapply arena_ok_mono, Hao; [|done]. intros q Hq. rewrite Hl, lookup_delete_ne; [done|].
      intros ->. by eapply Hnp.
Qed.

Lemma gc_free_Ret m p : is_Some (gc_live (heap m) !! p) ->
  gc_free p m = (Ret tt, set_heap (GC_free p (heap m)) m).
Proof. intros [b Hb]. unfold gc_free. by rewrite Hb. Qed.

(** Freeing the pages of a dynamic region and then its key. *)
Lemma free_key_spec m A a k b : mem_inv m A -> A !! k = Some a -> a_lex a = true ->
  is_Some (gc_live (heap m) !! b) -> (forall r a', A !! r = Some a' -> b ∉ (a_pages a').*1) ->
  exists m1, _free_region k m = (Ret tt, m1) /\ words m1 = words m /\
    is_Some (gc_live (heap m1) !! b) /\
    mem_inv (del_rgn k (set_heap (GC_free b (heap m1)) m1)) (delete k A) /\
    forall q, gc_live (GC_free b (heap m1)) !! q =
      if decide (q = b \/ q ∈ (a_pages a).*1) then None else gc_live (heap m) !! q.
Proof.
  intros Hi Ha Hlex Hb Hnp.
  destruct (mi_rgn _ _ Hi _ _ Ha) as (_ & o & Ho & [_ Hz] & _).
  destruct o as [h|x]; [|simpl in *; congruence].
  destruct (free_region_spec m A k a h Hi Ha Ho) as (m0 & m1 & He & Hp & -> & Hi').
  rewrite Hlex in Hi'. destruct Hp as (Hok & _ & Hw & _ & _ & _ & Hlv).
  assert (Hb1 : is_Some (gc_live (heap m0) !! b)).
  { rewrite Hlv, decide_False; [done|]. by eapply Hnp. }
  eexists. split; [exact He|]. split; [exact Hw|]. split; [exact Hb1|]. split.
  - apply release_inv; [|apply lookup_delete_eq|exact Hb1|].
    + by rewrite insert_delete_eq.
    + intros r a' Hr. apply lookup_delete_Some in Hr as [_ Hr]. by eapply Hnp.
  - destruct Hb1 as [blk Hb1]. simpl. destruct (GC_free_law _ _ _ Hok Hb1) as [_ Hl].
    intros q. rewrite Hl, lookup_delete, Hlv. repeat case_decide; try done; naive_solver.
Qed.

(** C35. Dropping a reference to a dynamic region: with more than one reference
    left only the count changes; with the last one the pages of the region and
    the block of its key are released, and nothing else; a count of zero is
    reported as an internal error. *)
Theorem free_rckey_exact m A a k c :
  mem_inv m A -> A !! k = Some a -> a_lex a = true -> 4 < k < 4294967296 ->
  words m !! (k - 4) = Some c -> 0 <= c <= INT_MAX ->
  is_Some (gc_live (heap m) !! (k - 4)) ->
  (forall r a', A !! r = Some a' -> k - 4 ∉ (a_pages a').*1) ->
  match Cyc_Core_free_rckey k m with
  | (Ret tt, m') =>
      (1 < c /\ m' = set_word (k - 4) (c - 1) m) \/
      (c = 1 /\ mem_inv m' (delete k A) /\
       forall q, gc_live (heap m') !! q =
         if decide (q = k - 4 \/ q ∈ (a_pages a).*1) then None else gc_live (heap m) !! q)
  | (Exit msg, m') => c = 0 /\ m' = m
  | _ => False
  end.
Proof.
  intros Hi Ha Hlex Hk Hw Hc Hb Hnp. unfold INT_MAX in Hc. unfold Cyc_Core_free_rckey.
  rewrite (u32_small (k - 4)) by lia. unfold mbind, st_bind. rewrite (get_word_Ret _ _ _ Hw).
  rewrite (u32_small c) by lia. destruct (decide (c = 0)) as [-> |Hc0]; [done|].
  rewrite (u32_small (c - 1)), (i32_small (c - 1)) by lia.
  destruct (c <=? c - 1) eqn:E; [lia|]. unfold modify. destruct (c - 1 =? 0) eqn:E1.
  - destruct (free_key_spec (set_word (k - 4) (c - 1) m) A a k (k - 4))
      as (m1 & He & _ & Hb1 & Hi1 & Hlv); try done; [by apply set_word_inv|].
    rewrite He, (gc_free_Ret _ _ Hb1). right. split; [lia|]. split; [|exact Hlv].
    destruct Hi1. by split.
  - left. split; [lia|done].
Qed.

(** Only the region of the key [k] differs from the heap [B] and the arenas [A]:
    what is live outside its pages is live in [B], and [B] has none of its pages. *)
Record key_open (B : blocks) (A : gmap Z arena) (k : Z) (a : arena) m : Prop := {
  ko_inv : mem_inv m (<[k := a]> A);
  ko_lex : a_lex a = true;
  ko_new q : q ∈ (a_pages a).*1 -> B !! q = None;
  ko_same q : q ∉ (a_pages a).*1 -> gc_live (heap m) !! q = B !! q
}.

(** The programs between the creation and the freeing of a key: allocations in
    its region, and releases of its pages by [_free_region]. *)
Definition key_cmd (k : Z) (c : cmd) : Prop :=
  cmd_rgn c = k /\ cmd_ok {[k := ARegion _new_region]} c.

Lemma exec_key_open self B A k cs objs a m : key_open B A k a m ->
  tracked {[k := ARegion _new_region]} (<[k := a]> A) objs -> Forall (key_cmd k) cs ->
  exists objs' a' m', exec self cs objs m = (Ret objs', m') /\ objs_safe m' objs' /\
    key_open B A k a' m'.
Proof.
  intros Hk Ht Hcs. revert a m objs Hk Ht.
  induction Hcs as [|c cs [Hr Hc] Hcs IH]; intros a m objs Hk Ht.
  - exists objs, a, m. split_and!; try done. eapply tracked_safe; [apply Hk|done].
  - destruct Hk as [Hi Hlex Hnew Hsame]. rewrite <- Hr in *.
    pose proof (exec1_tracked self c m _ _ objs a Hi Ht Hc (lookup_insert_eq _ _ _)) as H1.
    simpl. unfold mbind, st_bind.
    destruct (exec1 self c objs m) as [[objs'|e fl ln|msg| |] m1]; try done; cycle 1.
    { destruct H1 as [x Hx]. by rewrite lookup_singleton_eq in Hx. }
    destruct H1 as (a' & Hi' & Ht' & Hlex' & Hn & Hg & Hs). rewrite insert_insert_eq in Hi', Ht'.
    apply (IH a' m1 objs'); [|exact Ht']. split; [done|congruence|..]; intros q Hq.
    + destruct (decide (q ∈ (a_pages a).*1)) as [Hqa|Hqa]; [auto|].
      rewrite <- Hsame by done. by apply Hn.
    + destruct (decide (q ∈ (a_pages a).*1)) as [Hqa|Hqa].
      * rewrite Hnew by done. by apply Hg.
      * rewrite Hs by done. by apply Hsame.
Qed.

(** A new key opens an empty region over a heap that has gained one block. *)
Lemma new_ukey_spec m A : mem_inv m A ->
  match Cyc_Core__new_ukey m with
  | (Ret k, m1) => A !! k = None ->
      gc_live (heap m) !! k = None /\ is_Some (gc_live (heap m1) !! k) /\
      gc_live (heap m) = delete k (gc_live (heap m1)) /\
      (forall r a, A !! r = Some a -> k ∉ (a_pages a).*1) /\
      key_open (gc_live (heap m1)) A k (mk_arena true [] []) m1
  | (Thrown e _ _, m1) => e = Cyc_Bad_alloc /\ gc_live (heap m1) = gc_live (heap m)
  | _ => False
  end.
Proof.
  intros Hi. unfold Cyc_Core__new_ukey, mbind, st_bind.
  destruct (bounded_malloc_cases m sizeof_DynamicRegion this_file 663 (mi_ok _ _ Hi))
    as [(m' & -> & Hs)|(k & m' & -> & Hk0 & Hf)]; [done| |].
  { destruct Hs as (h' & -> & _ & Hl). done. }
  rewrite (proj2 (Z.eqb_neq _ _) Hk0). simpl. intros Hn.
  pose proof (fresh_block_inv _ _ _ _ _ _ Hi Hf) as Hi1.
  destruct (fresh_block_grew _ _ _ _ _ Hf) as [Hnone _].
  destruct Hf as (h' & -> & Hok & (? & ? & _) & Hfr & Hl). simpl. rewrite Hl.
  assert (Hk : gc_live (heap m) !! k = None) by (apply Hnone; left).
  split_and!; [done|rewrite lookup_insert_eq; by eexists|by rewrite delete_insert_id| |].
  - intros r a Hr. exact (fresh_not_page m A r a _ k Hi Hfr Hr).
  - split; simpl.
    + apply (new_handle_inv (set_heap h' m) A k Hi1); [words|done].
    + done.
    + intros q Hq. by apply not_elem_of_nil in Hq.
    + intros q _. by rewrite Hl.
Qed.

(** Freeing the key of an open region: its pages and the key are released. *)
Lemma free_ukey_spec B A k a m : key_open B A k a m -> A !! k = None -> is_Some (B !! k) ->
  (forall r a', A !! r = Some a' -> k ∉ (a_pages a').*1) ->
  exists m', Cyc_Core_free_ukey k m = (Ret tt, m') /\ mem_inv m' A /\
    gc_live (heap m') = delete k B /\ rgns m' !! k = None.
Proof.
  intros [Hi Hlex Hnew Hsame] Hn [b Hb] Hnp.
  assert (Hkp : k ∉ (a_pages a).*1) by (intros Hq; rewrite Hnew in Hb; done).
  destruct (free_key_spec _ _ a k k Hi (lookup_insert_eq _ _ _) Hlex)
    as (m1 & He & _ & Hb1 & Hi3 & Hlv).
  { rewrite Hsame by done. by eexists. }
  { intros r a'. rewrite lookup_insert. case_decide; intros Hr; simplify_eq; [done|by eapply Hnp]. }
  rewrite delete_insert_eq, delete_id in Hi3 by done.
  unfold Cyc_Core_free_ukey, mbind, st_bind. rewrite He, (gc_free_Ret _ _ Hb1).
  eexists. split_and!; [done|exact Hi3| |apply lookup_delete_eq].
  apply map_eq. intros q. simpl. rewrite Hlv, lookup_delete.
  destruct (decide (q ∈ (a_pages a).*1)) as [Hq|Hq].
  - rewrite decide_True by (by right). rewrite Hnew by done. by case_decide.
  - rewrite Hsame by done. repeat case_decide; try done; naive_solver.
Qed.

(** C36. A dynamic region with a unique key leaves no trace.  Creating the key
    throws [Cyc_Bad_alloc] and changes no block, or returns a key; then any
    program of allocations in its region (requests of 1 to 2^28 bytes, a failed
    one being caught) and of [_free_region] on it runs to its end with aligned,
    disjoint objects in live blocks, and freeing the key afterwards succeeds,
    keeps every object of the other regions, releases the key and every page
    the program obtained, and so restores exactly the live blocks there were
    before.  The key must not be the address of another handle of [A]. *)
Theorem ukey_roundtrip self m A :
  mem_inv m A ->
  match Cyc_Core__new_ukey m with
  | (Ret k, m1) => A !! k = None -> forall cs, Forall (key_cmd k) cs ->
      exists objs m2 m3,
      exec self cs [] m1 = (Ret objs, m2) /\ objs_safe m2 objs /\
      Cyc_Core_free_ukey k m2 = (Ret tt, m3) /\ mem_inv m3 A /\
      gc_live (heap m3) = gc_live (heap m) /\ rgns m3 !! k = None
  | (Thrown e _ _, m1) => e = Cyc_Bad_alloc /\ gc_live (heap m1) = gc_live (heap m)
  | _ => False
  end.
Proof.
  intros Hi. pose proof (new_ukey_spec m A Hi) as Hs.
  destruct (Cyc_Core__new_ukey m) as [[k|e fl ln|msg| |] m1]; try done. intros Hn cs Hcs.
  destruct (Hs Hn) as (Hk & Hk1 & Hd & Hnp & Ho).
  destruct (exec_key_open self _ A k cs [] _ m1 Ho) as (objs & a' & m2 & He & Hsafe & Ho2); [|done|].
  { split_and!; [|intros r x Hx; by apply not_elem_of_nil in Hx|constructor].
    intros r o Hr. apply lookup_singleton_Some in Hr as [<- <-].
    eexists. split; [apply lookup_insert_eq|done]. }
  destruct (free_ukey_spec _ _ _ _ _ Ho2 Hn Hk1 Hnp) as (m3 & Hf & Hi3 & Hl & Hr).
  exists objs, m2, m3. rewrite Hl, Hd. done.
Qed.
End lemmas.

(** ** Witnesses *)

(** A key at 4096, two pages and three objects in its region, all released. *)
Lemma ukey_roundtrip_witness :
  exists m1 objs m2 m3, Cyc_Core__new_ukey ex_mem = (Ret 4096, m1) /\
    exec 1 [CMalloc 4096 100; CFast 4096 20; CCalloc 4096 4 250] [] m1 = (Ret objs, m2) /\
    gc_live (heap m2) !! 4136 = Some (488, true) /\
    Cyc_Core_free_ukey 4096 m2 = (Ret tt, m3) /\ gc_live (heap m3) = gc_live (heap ex_mem).
Proof.
  pose proof (ukey_roundtrip 1 ex_mem _ (init_inv ex_mem ex_mem_ok)) as Hr.
  destruct (Cyc_Core__new_ukey ex_mem) as [o m1] eqn:E.
  assert (Ho : o = Ret 4096) by (change o with (o, m1).1; rewrite <- E; by vm_compute).
  assert (Hm : m1 = (Cyc_Core__new_ukey ex_mem).2) by (by rewrite E).
  clear E. subst o.
  destruct (Hr ltac:(by vm_compute) [CMalloc 4096 100; CFast 4096 20; CCalloc 4096 4 250])
    as (objs & m2 & m3 & He & _ & Hf & _ & Hl & _).
  { repeat (apply Forall_cons_2; [split; [done|split; [by eexists|done]]|]). apply Forall_nil_2. }
  exists m1, objs, m2, m3. split_and!; try done.
  replace m2 with (exec 1 [CMalloc 4096 100; CFast 4096 20; CCalloc 4096 4 250] [] m1).2
    by (by rewrite He). rewrite Hm. by vm_compute.
Defined.

(** A reference-counted key with one reference, at 4100. *)
Definition ex_rckey : mem bump := (Cyc_Core__new_rckey ex_mem).2.

Lemma ex_rckey_inv : mem_inv ex_rckey
  (<[4100 := mk_arena true [] []]> ((fun o => mk_arena (zero_pages o) [] []) <$> rgns ex_mem)).
Proof.
  pose proof (init_inv ex_mem ex_mem_ok) as Hi.
  destruct (bounded_malloc_cases ex_mem (sizeof_int + sizeof_DynamicRegion) this_file 682
              (mi_ok _ _ Hi)) as [(m' & He & _)|(k & m' & He & _ & Hf)]; [done| |].
  { exfalso. vm_compute in He. discriminate He. }
  assert (Hk : k = 4096) by (vm_compute in He; congruence). subst k.
  unfold ex_rckey, Cyc_Core__new_rckey, mbind, st_bind. rewrite He. cbn [Z.eqb].
  change (u32 (4096 + 4)) with 4100. unfold modify, mret, st_ret. cbn [snd].
  apply new_handle_inv; [|done|by vm_compute]. apply set_word_inv. by eapply fresh_block_inv.
Qed.

Lemma free_rckey_exact_witness :
  match Cyc_Core_free_rckey 4100 ex_rckey with
  | (Ret tt, m') => gc_live (heap m') !! 4096 = None
  | _ => False
  end.
Proof.
  pose proof (free_rckey_exact ex_rckey _ (mk_arena true [] []) 4100 1 ex_rckey_inv
                (lookup_insert_eq _ _ _) eq_refl) as Hr.
  specialize (Hr ltac:(lia) ltac:(by vm_compute) ltac:(done) ltac:(vm_compute; by eexists)).
  destruct (Cyc_Core_free_rckey 4100 ex_rckey) as [o m'] eqn:E.
  assert (Ho : o = Ret tt) by (change o with (o, m').1; rewrite <- E; by vm_compute).
  clear E. subst o. destruct Hr as [[Hc _]|(_ & _ & Hl)]; [|lia|].
  - intros r a'. rewrite lookup_insert_Some. intros [[_ <-]|[_ Ha]]; [apply not_elem_of_nil|].
    rewrite lookup_fmap, fmap_Some in Ha. destruct Ha as (? & _ & ->). apply not_elem_of_nil.
  - rewrite Hl. by rewrite decide_True by (by left).
Defined.
