(* ===== verification/Hashtable.v ===== *)
(** * The table of tree handles of a thread

    Models the hash table of lib/runtime_memory.c that maps a region handle to
    the thread's tree handle for it: chained buckets linked through the [next]
    field of the entries, a prime number of buckets that grows and shrinks with
    the load, and a two-entry cache in front.  Whether [malloc] succeeds is an
    argument of the operations that allocate. *)

From S2P Require Import Prelude RwLock.

(** ** Data *)

Record XTreeHandle : Type := mk_xtree {
  t_h : Z;             (* the region handle: the key of the table *)
  t_next : Z;          (* next entry of the bucket *)
  parent_key : Z;
  sub_keys : Z;
  next_key : Z;
  t_caps : LocalCaps
}.

Definition set_t_next (v : Z) (x : XTreeHandle) : XTreeHandle :=
  mk_xtree (t_h x) v (parent_key x) (sub_keys x) (next_key x) (t_caps x).

Record hashtable : Type := mk_hashtable {
  cache0 : Z;
  cache1 : Z;
  cache_idx : Z;
  tablelength : Z;
  entrycount : Z;
  upper_loadlimit : Z;
  lower_loadlimit : Z;
  primeindex : Z;
  table : list Z
}.

Definition set_table (tb : list Z) (h : hashtable) : hashtable :=
  mk_hashtable (cache0 h) (cache1 h) (cache_idx h) (tablelength h) (entrycount h)
    (upper_loadlimit h) (lower_loadlimit h) (primeindex h) tb.
Definition set_count (n : Z) (h : hashtable) : hashtable :=
  mk_hashtable (cache0 h) (cache1 h) (cache_idx h) (tablelength h) n
    (upper_loadlimit h) (lower_loadlimit h) (primeindex h) (table h).
Definition set_cache (c0 c1 i : Z) (h : hashtable) : hashtable :=
  mk_hashtable c0 c1 i (tablelength h) (entrycount h)
    (upper_loadlimit h) (lower_loadlimit h) (primeindex h) (table h).

(** The table of the running thread and the tree handles in memory. *)
Record hstate : Type := mk_hstate { ht : hashtable; ents : gmap Z XTreeHandle }.

Definition set_ht (h : hashtable) (s : hstate) : hstate := mk_hstate h (ents s).
Definition set_ent (p : Z) (x : XTreeHandle) (s : hstate) : hstate :=
  mk_hstate (ht s) (<[p := x]> (ents s)).

Definition primes : list Z :=
  [53; 97; 193; 389; 769; 1543; 3079; 6151; 12289; 24593; 49157; 98317; 196613; 393241; 786433;
   1572869; 3145739; 6291469; 12582917; 25165843; 50331653; 100663319; 201326611; 402653189;
   805306457; 1610612741].
Definition prime_table_length : Z := 26.
Definition max_load_factor : Z := 200.
Definition min_load_factor : Z := 50.
Definition H_CACHE_SIZE : Z := 2.

Definition indexFor (tablelength hashvalue : Z) : Z := hashvalue mod tablelength.

(** ** Operations *)

(** The loop of [create_hashtable]: the index and size it stops with. *)
Fixpoint find_prime (l : list Z) (pindex minsize : Z) : Z * Z :=
  match l with
  | [] => (pindex, 53)
  | p :: l => if minsize <? p then (pindex, p) else find_prime l (pindex + 1) minsize
  end.

Definition upper_limit (size : Z) : Z := u32 (size * max_load_factor) / 100.
Definition lower_limit (size : Z) : Z := u32 (size * min_load_factor) / 100.

Definition create_hashtable (ok : bool) (minsize : Z) : option hashtable :=
  let '(pindex, size) := find_prime primes 0 minsize in
  if ok then
    Some (mk_hashtable 0 0 0 size 0 (upper_limit size) (lower_limit size) pindex
            (replicate (Z.to_nat size) 0))
  else None.

Definition get_ent (p : Z) : ST hstate XTreeHandle := s ← get; lift (load (ents s) p).

(** [tbl[i]] *)
Definition tbl_get (tb : list Z) (i : Z) : out Z :=
  match tb !! Z.to_nat i with Some e => Ret e | None => Undef end.

(** The inner loop of [hashtable_expand]: moves the entries of one bucket to
    the new table [tb].  Every entry is visited once, so the number of entries
    bounds the loop. *)
Fixpoint move_bucket (fuel : nat) (newsize t : Z) (tb : list Z) : ST hstate (list Z) :=
  if t =? 0 then mret tb
  else match fuel with
       | O => lift Undef
       | S fuel =>
           x ← get_ent t;
           let index := indexFor newsize (t_h x) in
           let t1 := t in
           let t := t_next x in
           if t =? t1 then mret tb
           else
             head ← lift (tbl_get tb index);
             modify (set_ent t1 (set_t_next head x));;
             move_bucket fuel newsize t (<[Z.to_nat index := t1]> tb)
       end.

Fixpoint move_buckets (newsize : Z) (old : list Z) (tb : list Z) : ST hstate (list Z) :=
  match old with
  | [] => mret tb
  | t :: old =>
      s ← get;
      tb' ← move_bucket (S (size (ents s))) newsize t tb;
      move_buckets newsize old tb'
  end.

(** [None] is the null pointer; a table returned is the thread's new table. *)
Definition hashtable_expand (ok : bool) (grow : bool) : ST hstate (option hashtable) :=
  s ← get;
  let h := ht s in
  let pindex := primeindex h in
  let go (newsize pindex' : Z) : ST hstate (option hashtable) :=
    if negb ok then mret None
    else
      tb ← move_buckets newsize (table h) (replicate (Z.to_nat newsize) 0);
      mret (Some (mk_hashtable (cache0 h) (cache1 h) (cache_idx h) newsize (entrycount h)
                    (upper_limit newsize) (lower_limit newsize) pindex' tb)) in
  if grow then
    if pindex =? prime_table_length - 1 then mret None
    else match primes !! Z.to_nat (pindex + 1) with
         | Some newsize => go newsize (pindex + 1)
         | None => lift Undef
         end
  else
    if pindex =? 0 then mret (Some h)
    else match primes !! Z.to_nat (pindex - 1) with
         | Some newsize => go newsize (pindex - 1)
         | None => lift Undef
         end.

(** [h->cache[h->cache_idx++] = e; if (h->cache_idx == H_CACHE_SIZE) ...] *)
Definition cache_entry (e : Z) (h : hashtable) : hashtable :=
  let i := cache_idx h + 1 in
  set_cache (if cache_idx h =? 0 then e else cache0 h) (if cache_idx h =? 0 then cache1 h else e)
    (if i =? H_CACHE_SIZE then 0 else i) h.

Definition hashtable_insert (ok : bool) (kv : Z) : ST hstate Z :=
  s ← get;
  let h1 := ht s in
  r ← (if upper_loadlimit h1 <? u32 (entrycount h1 + 1) then hashtable_expand ok true
       else mret (Some h1));
  match r with
  | None => mret 0
  | Some h1 =>
      let h1 := set_count (u32 (entrycount h1 + 1)) h1 in
      x ← get_ent kv;
      let index := indexFor (tablelength h1) (t_h x) in
      head ← lift (tbl_get (table h1) index);
      modify (set_ent kv (set_t_next (if head =? kv then 0 else head) x));;
      modify (set_ht (cache_entry kv (set_table (<[Z.to_nat index := kv]> (table h1)) h1)));;
      mret 1
  end.

(** The loop of [hashtable_search] and [hashtable_remove]: the entry with key
    [k] and the one before it, 0 for none. *)
Fixpoint find_entry (fuel : nat) (k e pv : Z) : ST hstate (Z * Z) :=
  if e =? 0 then mret (0, pv)
  else match fuel with
       | O => lift Undef
       | S fuel =>
           x ← get_ent e;
           if t_h x =? k then mret (e, pv) else find_entry fuel k (t_next x) e
       end.

(** [h->cache[i] != 0 && h->cache[i]->h == k] *)
Definition cached (c k : Z) : ST hstate bool :=
  if c =? 0 then mret false else x ← get_ent c; mret (t_h x =? k).

Definition hashtable_search (k : Z) : ST hstate Z :=
  s ← get;
  let h := ht s in
  b0 ← cached (cache0 h) k;
  if b0 : bool then mret (cache0 h)
  else
    b1 ← cached (cache1 h) k;
    if b1 : bool then mret (cache1 h)
    else
      let index := indexFor (tablelength h) k in
      head ← lift (tbl_get (table h) index);
      r ← find_entry (S (size (ents s))) k head 0;
      let e := r.1 in
      if e =? 0 then lift (Exit "hashtable search for key failed.")
      else modify (set_ht (cache_entry e h));; mret e.

(** The unlinking step of [hashtable_remove]; [h1] is the table after the cache
    and the count have been updated. *)
Definition unlink (index e pv : Z) (h1 : hashtable) : ST hstate unit :=
  x ← get_ent e;
  if pv =? 0 then modify (set_ht (set_table (<[Z.to_nat index := t_next x]> (table h1)) h1))
  else
    p ← get_ent pv;
    modify (set_ent pv (set_t_next (if t_next x =? pv then 0 else t_next x) p));;
    modify (set_ht h1).

Definition hashtable_remove (ok : bool) (k : Z) : ST hstate Z :=
  s ← get;
  let h1 := ht s in
  b0 ← cached (cache0 h1) k;
  b1 ← (if b0 : bool then mret false else cached (cache1 h1) k);
  let h1 := set_cache (if b0 : bool then 0 else cache0 h1) (if b1 : bool then 0 else cache1 h1)
              (cache_idx h1) h1 in
  let index := indexFor (tablelength h1) k in
  head ← lift (tbl_get (table h1) index);
  r ← find_entry (S (size (ents s))) k head 0;
  let '(e, pv) := r in
  if e =? 0 then lift (Exit "Attempting to remove a non-existent key")
  else
    let h1 := set_count (u32 (entrycount h1 - 1)) h1 in
    unlink index e pv h1;;
    s' ← get;
    let h1 := ht s' in
    if (0 <? primeindex h1) && (entrycount h1 <=? lower_loadlimit h1) then
      r ← hashtable_expand ok false;
      match r with
      | None => mret 0
      | Some h' => modify (set_ht h');; mret 1
      end
    else mret 1.
