(* ===== verification/HashtableSpec.v ===== *)
(** * The hash table implements a finite map

    [represents M s]: the buckets of the table hold exactly the entries of the
    map [M] from region handles to tree handles.  Every operation of
    Hashtable.v keeps this relation and acts on [M] as the corresponding map
    operation, through growing and shrinking of the table. *)

From S2P Require Import Prelude RwLock Hashtable.

(** The [next] pointers from [p] visit exactly [l]. *)
Fixpoint echain (en : gmap Z XTreeHandle) (p : Z) (l : list Z) : Prop :=
  match l with
  | [] => p = 0
  | e :: l => p = e /\ e <> 0 /\ exists x, en !! e = Some x /\ echain en (t_next x) l
  end.

Definition key_of (en : gmap Z XTreeHandle) (e : Z) : option Z := t_h <$> en !! e.

(** [bs] are the buckets of a table of length [n]. *)
Record buckets_ok (en : gmap Z XTreeHandle) (n : Z) (tb : list Z) (bs : list (list Z)) : Prop := {
  bo_len : Z.of_nat (length tb) = n;
  bo_chain : Forall2 (echain en) tb bs;
  bo_nodup : NoDup (concat bs);
  bo_index i l e : bs !! i = Some l -> e ∈ l ->
    exists k, key_of en e = Some k /\ indexFor n k = Z.of_nat i
}.

(** The entries of the buckets are those of the map. *)
Definition holds (en : gmap Z XTreeHandle) (bs : list (list Z)) (M : gmap Z Z) : Prop :=
  forall k e, M !! k = Some e <-> e ∈ concat bs /\ key_of en e = Some k.

Definition cache_ok (en : gmap Z XTreeHandle) (M : gmap Z Z) (c0 c1 : Z) : Prop :=
  (c0 <> 0 -> exists k, key_of en c0 = Some k /\ M !! k = Some c0) /\
  (c1 <> 0 -> exists k, key_of en c1 = Some k /\ M !! k = Some c1) /\
  (c0 <> 0 -> c0 <> c1).

Record represents (M : gmap Z Z) (s : hstate) : Prop := {
  rp_buckets : exists bs, buckets_ok (ents s) (tablelength (ht s)) (table (ht s)) bs /\
                 holds (ents s) bs M;
  rp_prime : primes !! Z.to_nat (primeindex (ht s)) = Some (tablelength (ht s)) /\
             0 <= primeindex (ht s);
  rp_count : entrycount (ht s) = Z.of_nat (size M) /\ Z.of_nat (size M) < 4294967295;
  rp_upper : upper_loadlimit (ht s) = upper_limit (tablelength (ht s));
  rp_lower : lower_loadlimit (ht s) = lower_limit (tablelength (ht s));
  rp_cache : cache_ok (ents s) M (cache0 (ht s)) (cache1 (ht s));
  rp_idx : cache_idx (ht s) = 0 \/ cache_idx (ht s) = 1
}.

(** ** Chains *)

Lemma echain_insert en p l e x : e ∉ l -> echain en p l -> echain (<[e := x]> en) p l.
Proof.
  revert p. induction l as [|q l IH]; intros p He; [done|].
  intros (-> & Hq & y & Hy & Hc). apply not_elem_of_cons in He as [Hne He].
  split_and!; [done|done|]. exists y. rewrite lookup_insert_ne by congruence. auto.
Qed.

Lemma echain_dom en p l e : echain en p l -> e ∈ l -> is_Some (en !! e) /\ e <> 0.
Proof.
  revert p. induction l as [|q l IH]; intros p Hc He; [by apply not_elem_of_nil in He|].
  destruct Hc as (-> & Hq & x & Hx & Hc). apply elem_of_cons in He as [-> |He]; eauto.
Qed.

Lemma echain_length en p l : echain en p l -> NoDup l -> (length l <= size en)%nat.
Proof.
  intros Hc Hn. rewrite <- size_dom, <- (size_list_to_set (C:=gset Z) l Hn).
  apply subseteq_size. intros q. rewrite elem_of_list_to_set, elem_of_dom. intros Hq.
  by apply (echain_dom _ _ _ _ Hc).
Qed.

Lemma key_of_set_next en e e' x v : en !! e = Some x ->
  key_of (<[e := set_t_next v x]> en) e' = key_of en e'.
Proof.
  intros He. unfold key_of. rewrite lookup_insert. case_decide; [|done]. subst. by rewrite He.
Qed.

Lemma concat_elem (bs : list (list Z)) i l e : bs !! i = Some l -> e ∈ l -> e ∈ concat bs.
Proof.
  intros Hi He. apply list_elem_of_In, in_concat. exists l.
  split; apply list_elem_of_In; [|done]. by eapply list_elem_of_lookup_2.
Qed.

Lemma elem_concat (bs : list (list Z)) e : e ∈ concat bs -> exists i l, bs !! i = Some l /\ e ∈ l.
Proof.
  intros He. apply list_elem_of_In, in_concat in He as (l & Hl & He).
  apply list_elem_of_In, list_elem_of_lookup_1 in Hl as [i Hi]. exists i, l. split; [done|].
  by apply list_elem_of_In.
Qed.

(** Adding an element to one bucket permutes to adding it in front. *)
Lemma concat_insert (bs : list (list Z)) i l l' : bs !! i = Some l ->
  exists pre post, concat bs = pre ++ l ++ post /\ concat (<[i := l']> bs) = pre ++ l' ++ post.
Proof.
  intros Hi. exists (concat (take i bs)), (concat (drop (S i) bs)).
  rewrite <- (take_drop_middle bs i l Hi) at 1. rewrite insert_take_drop by by eapply lookup_lt_Some.
  rewrite !concat_app. simpl. done.
Qed.

Lemma nodup_bucket (bs : list (list Z)) i l : NoDup (concat bs) -> bs !! i = Some l -> NoDup l.
Proof.
  intros Hn Hi. destruct (concat_insert bs i l l Hi) as (pre & post & He & _). rewrite He in Hn.
  apply NoDup_app in Hn as (_ & _ & Hn). by apply NoDup_app in Hn as (Hn & _).
Qed.

(** Two buckets share no entry. *)
Lemma buckets_apart (bs : list (list Z)) i j l1 l2 e : NoDup (concat bs) ->
  bs !! i = Some l1 -> bs !! j = Some l2 -> e ∈ l1 -> e ∈ l2 -> i = j.
Proof.
  revert i j. induction bs as [|l bs IH]; intros i j Hn Hi Hj H1 H2; [done|].
  simpl in Hn. apply NoDup_app in Hn as (_ & Hd & Hn).
  destruct i as [|i], j as [|j]; simpl in Hi, Hj; simplify_eq; [done|..].
  - destruct (Hd e H1). by eapply concat_elem.
  - destruct (Hd e H2). by eapply concat_elem.
  - f_equal. by eapply IH.
Qed.

(** ** Buckets *)

Lemma bucket_at en n tb bs i : buckets_ok en n tb bs -> 0 <= i < n ->
  exists head l, tb !! Z.to_nat i = Some head /\ bs !! Z.to_nat i = Some l /\ echain en head l.
Proof.
  intros [Hlen Hc _ _] Hi. destruct (lookup_lt_is_Some_2 tb (Z.to_nat i)) as [head Hh]; [lia|].
  destruct (Forall2_lookup_l _ _ _ _ _ Hc Hh) as (l & Hl & He). by exists head, l.
Qed.

(** Linking an entry in front of its bucket. *)
Lemma bucket_push en n tb bs e x : buckets_ok en n tb bs -> 0 < n -> e <> 0 -> e ∉ concat bs ->
  en !! e = Some x -> let i := Z.to_nat (indexFor n (t_h x)) in
  exists head l, tb !! i = Some head /\ bs !! i = Some l /\
    buckets_ok (<[e := set_t_next head x]> en) n (<[i := e]> tb) (<[i := e :: l]> bs).
Proof.
  intros Hb Hn He Hnin Hx i. pose proof (Z.mod_pos_bound (t_h x) n Hn) as Hi.
  destruct (bucket_at en n tb bs _ Hb Hi) as (head & l & Hh & Hl & Hc).
  exists head, l. split_and!; [done|done|]. destruct Hb as [Hlen Hf Hnd Hix].
  assert (Hlt : (i < length bs)%nat) by (by eapply lookup_lt_Some).
  apply Forall2_same_length_lookup in Hf as [Hll Hf]. split.
  - by rewrite length_insert.
  - apply Forall2_same_length_lookup. rewrite !length_insert. split; [done|].
    intros j h2 l2. rewrite !list_lookup_insert_Some. intros [(<- & <- & _)|[Hne Hh2]].
    + intros [(_ & <- & _)|[? _]]; [|done]. split_and!; [done|done|].
      exists (set_t_next head x). rewrite lookup_insert_eq. split; [done|]. simpl.
      apply echain_insert; [|done]. intros Hin. by apply Hnin, (concat_elem bs i l).
    + intros [(? & _)|[_ Hl2]]; [done|]. apply echain_insert; [|by eapply Hf].
      intros Hin. by apply Hnin, (concat_elem bs j l2).
  - destruct (concat_insert bs i l (e :: l) Hl) as (pre & post & E1 & ->).
    rewrite E1 in Hnd, Hnin. rewrite <- (Permutation_middle pre (l ++ post) e).
    by constructor.
  - intros j l2 e2. rewrite list_lookup_insert_Some, key_of_set_next by done.
    intros [(<- & <- & _)|[Hne Hl2]] Hin; [|by eapply Hix].
    apply elem_of_cons in Hin as [-> |Hin]; [|by eapply Hix].
    exists (t_h x). unfold key_of. rewrite Hx. split; [done|]. unfold i, indexFor in *. simpl. lia.
Qed.

Lemma holds_push en bs M e x v i l : holds en bs M -> en !! e = Some x -> M !! t_h x = None ->
  bs !! i = Some l -> holds (<[e := set_t_next v x]> en) (<[i := e :: l]> bs) (<[t_h x := e]> M).
Proof.
  intros Hh Hx Hn Hl k e'. rewrite key_of_set_next by done.
  destruct (concat_insert bs i l (e :: l) Hl) as (pre & post & E1 & ->).
  assert (Hin : e' ∈ pre ++ (e :: l) ++ post <-> e' = e \/ e' ∈ concat bs).
  { rewrite E1, !elem_of_app, elem_of_cons. tauto. }
  rewrite Hin, lookup_insert_Some. specialize (Hh k e'). rewrite Hh.
  assert (Hkx : key_of en e = Some (t_h x)) by (unfold key_of; by rewrite Hx).
  split.
  - intros [[<- <-]|[Hne [? ?]]]; tauto.
  - intros [[-> |Hc] Hk]; [left; split; congruence|].
    destruct (decide (t_h x = k)) as [<-|]; [|by right].
    rewrite (proj2 Hh) in Hn; [done|]. done.
Qed.

(** ** Searching *)

Lemma get_ent_Ret s e x : ents s !! e = Some x -> get_ent e s = (Ret x, s).
Proof. intros He. unfold get_ent, get, load, lift, mbind, st_bind. by rewrite He. Qed.

(** The entry before position [i] of a bucket, 0 at its head. *)
Definition pred_of (l : list Z) (i : nat) (pv : Z) : Z :=
  match i with O => pv | S j => default 0 (l !! j) end.

Lemma find_entry_spec fuel k s e l pv : echain (ents s) e l -> (length l <= fuel)%nat ->
  (exists i e', l !! i = Some e' /\ key_of (ents s) e' = Some k /\
     (forall j e2, (j < i)%nat -> l !! j = Some e2 -> key_of (ents s) e2 <> Some k) /\
     find_entry fuel k e pv s = (Ret (e', pred_of l i pv), s)) \/
  ((forall e', e' ∈ l -> key_of (ents s) e' <> Some k) /\
   exists pv', find_entry fuel k e pv s = (Ret (0, pv'), s)).
Proof.
  revert e l pv. induction fuel as [|fuel IH]; intros e [|q l] pv Hc Hf; simpl in Hc, Hf; try lia;
    try (right; subst e; split; [by intros e' He'; apply not_elem_of_nil in He'|by exists pv]).
  destruct Hc as (-> & Hq & x & Hx & Hc).
  assert (Hkq : key_of (ents s) q = Some (t_h x)) by (unfold key_of; by rewrite Hx).
  simpl. rewrite (proj2 (Z.eqb_neq _ _) Hq). unfold mbind, st_bind.
  rewrite (get_ent_Ret _ _ _ Hx). destruct (t_h x =? k) eqn:E.
  - left. exists O, q. apply Z.eqb_eq in E as <-. split_and!; try done. intros j e2 Hj. lia.
  - destruct (IH (t_next x) l q Hc ltac:(lia)) as [(i & e' & Hi & Hk & Hmin & He)|[Hno [pv' He]]].
    + left. exists (S i), e'. split_and!; try done.
      * intros [|j] e2 Hj Hl; simpl in Hl; [|eapply Hmin; [|done]; lia].
        simplify_eq. rewrite Hkq. intros ?. simplify_eq. lia.
      * rewrite He. destruct i; done.
    + right. split; [|by exists pv']. intros e' He'. apply elem_of_cons in He' as [-> |He']; [|auto].
      rewrite Hkq. intros ?. simplify_eq. lia.
Qed.

Lemma table_find s n tb bs M k : buckets_ok (ents s) n tb bs -> holds (ents s) bs M -> 0 < n ->
  exists head l, tbl_get tb (indexFor n k) = Ret head /\
    tb !! Z.to_nat (indexFor n k) = Some head /\
    bs !! Z.to_nat (indexFor n k) = Some l /\ echain (ents s) head l /\
    match M !! k with
    | Some e => exists i, l !! i = Some e /\
        find_entry (S (size (ents s))) k head 0 s = (Ret (e, pred_of l i 0), s)
    | None => exists pv, find_entry (S (size (ents s))) k head 0 s = (Ret (0, pv), s)
    end.
Proof.
  intros Hb Hh Hn. pose proof (Z.mod_pos_bound k n Hn) as Hi.
  destruct (bucket_at _ _ _ _ _ Hb Hi) as (head & l & Hhd & Hl & Hc).
  exists head, l. unfold tbl_get, indexFor. rewrite Hhd. split_and!; try done.
  pose proof (nodup_bucket bs _ l (bo_nodup _ _ _ _ Hb) Hl) as Hnd.
  pose proof (echain_length _ _ _ Hc Hnd) as Hsz.
  destruct (find_entry_spec (S (size (ents s))) k s head l 0 Hc ltac:(lia))
    as [(i & e' & Hi' & Hk & _ & He)|[Hno He]].
  - assert (HM : M !! k = Some e').
    { apply Hh. split; [|done]. eapply concat_elem; [done|]. by eapply list_elem_of_lookup_2. }
    rewrite HM. by exists i.
  - destruct (M !! k) as [e|] eqn:HM; [|done]. apply Hh in HM as [Hin Hk].
    apply elem_concat in Hin as (j & l2 & Hj & Hin).
    destruct (bo_index _ _ _ _ Hb j l2 e Hj Hin) as (k' & Hk' & Hix). simplify_eq.
    unfold indexFor in *. rewrite Hix, Nat2Z.id in Hl. simplify_eq. by destruct (Hno e Hin).
Qed.

Lemma cached_spec (M : gmap Z Z) s c k : c <> 0 /\ (exists k', key_of (ents s) c = Some k' /\ M !! k' = Some c) \/ c = 0 ->
  cached c k s = (Ret (bool_decide (c <> 0 /\ key_of (ents s) c = Some k)), s).
Proof.
  unfold cached. intros [[Hc (k' & Hk & _)]| ->]; [|by rewrite bool_decide_eq_false_2 by tauto].
  rewrite (proj2 (Z.eqb_neq _ _) Hc). unfold mbind, st_bind.
  unfold key_of in *. destruct (ents s !! c) as [x|] eqn:Hx; [|done]. simpl in Hk. simplify_eq.
  rewrite (get_ent_Ret _ _ _ Hx). simpl. unfold mret, st_ret. do 2 f_equal.
  destruct (t_h x =? k) eqn:E; symmetry.
  - apply bool_decide_eq_true_2. split; [done|]. f_equal. lia.
  - apply bool_decide_eq_false_2. intros [_ ?]. simplify_eq. lia.
Qed.

Lemma prime_pos i n : primes !! i = Some n -> 53 <= n <= 1610612741.
Proof.
  assert (Hf : Forall (fun n => 53 <= n <= 1610612741) primes).
  { unfold primes. repeat (apply Forall_cons_2; [lia|]). apply Forall_nil_2. }
  intros Hi. by eapply Forall_lookup_1 in Hf; [|exact Hi].
Qed.

Lemma rp_pos M s : represents M s -> 0 < tablelength (ht s).
Proof. intros Hr. destruct (rp_prime _ _ Hr) as [Hp _]. apply prime_pos in Hp. lia. Qed.

(** Caching an entry of the table that is not yet cached. *)
Lemma cache_entry_ok en (M : gmap Z Z) h k e : cache_ok en M (cache0 h) (cache1 h) -> e <> 0 ->
  key_of en e = Some k -> M !! k = Some e -> e <> cache0 h -> e <> cache1 h ->
  cache_ok en M (cache0 (cache_entry e h)) (cache1 (cache_entry e h)).
Proof.
  intros (H0 & H1 & Hd) He Hk HM Hn0 Hn1. unfold cache_entry, cache_ok. simpl.
  destruct (cache_idx h =? 0); split_and!; auto; eauto.
Qed.

Lemma cache_entry_idx e h : cache_idx h = 0 \/ cache_idx h = 1 ->
  cache_idx (cache_entry e h) = 0 \/ cache_idx (cache_entry e h) = 1.
Proof. unfold cache_entry. simpl. intros [-> | ->]; simpl; auto. Qed.

Lemma represents_entry M s k e : represents M s -> M !! k = Some e ->
  e <> 0 /\ key_of (ents s) e = Some k.
Proof.
  intros Hr HM. destruct (rp_buckets _ _ Hr) as (bs & Hb & Hh). destruct (proj1 (Hh k e) HM) as [Hin Hk].
  split; [|done]. apply elem_concat in Hin as (i & l & Hi & Hel).
  destruct (Forall2_lookup_r _ _ _ _ _ (bo_chain _ _ _ _ Hb) Hi) as (hd & _ & Hc).
  exact (proj2 (echain_dom _ _ _ _ Hc Hel)).
Qed.

(** The cache slots as [cached] wants them. *)
Lemma slots_ok M s : represents M s ->
  (cache0 (ht s) <> 0 /\ (exists k', key_of (ents s) (cache0 (ht s)) = Some k' /\
                                      M !! k' = Some (cache0 (ht s))) \/ cache0 (ht s) = 0) /\
  (cache1 (ht s) <> 0 /\ (exists k', key_of (ents s) (cache1 (ht s)) = Some k' /\
                                      M !! k' = Some (cache1 (ht s))) \/ cache1 (ht s) = 0).
Proof.
  intros Hr. destruct (rp_cache _ _ Hr) as (H0 & H1 & _).
  split; [destruct (decide (cache0 (ht s) = 0))|destruct (decide (cache1 (ht s) = 0))]; eauto.
Qed.

Lemma search_spec M s k : represents M s ->
  match M !! k with
  | Some e => exists h', hashtable_search k s = (Ret e, set_ht h' s) /\
      represents M (set_ht h' s) /\ primeindex h' = primeindex (ht s)
  | None => (hashtable_search k s).1 = Exit "hashtable search for key failed."
  end.
Proof.
  intros Hr. destruct (slots_ok _ _ Hr) as [S0 S1]. pose proof (rp_buckets _ _ Hr) as (bs & Hb & Hh).
  unfold hashtable_search, get, mbind, st_bind.
  rewrite (cached_spec M s _ k S0). case_bool_decide as E0; [|].
  { destruct E0 as [E0 Hk]. destruct S0 as [[_ (k' & Hk' & HM)]|]; [|done]. simplify_eq.
    rewrite HM. exists (ht s). by destruct s. }
  rewrite (cached_spec M s _ k S1). case_bool_decide as E1; [|].
  { destruct E1 as [E1 Hk]. destruct S1 as [[_ (k' & Hk' & HM)]|]; [|done]. simplify_eq.
    rewrite HM. exists (ht s). by destruct s. }
  destruct (table_find s _ _ bs M k Hb Hh (rp_pos _ _ Hr)) as (head & l & Hg & _ & _ & _ & Hf).
  unfold lift. rewrite Hg. destruct (M !! k) as [e|] eqn:HM.
  - destruct Hf as (i & Hi & ->). destruct (represents_entry _ _ _ _ Hr HM) as [He Hk].
    simpl. rewrite (proj2 (Z.eqb_neq _ _) He). unfold modify. eexists. split; [done|].
    split; [|done]. destruct Hr as [_ Hp Hc Hu Hl Hca Hix]. split; simpl; try done.
    + by exists bs.
    + apply (cache_entry_ok _ M _ k); try done; intros Hec; [apply E0|apply E1]; by rewrite <- Hec.
    + exact (cache_entry_idx e _ Hix).
  - destruct Hf as (pv & ->). done.
Qed.

(** ** Growing and shrinking *)

Lemma concat_push_elem (bs : list (list Z)) i l e e' : bs !! i = Some l ->
  e' ∈ concat (<[i := e :: l]> bs) <-> e' = e \/ e' ∈ concat bs.
Proof.
  intros Hl. destruct (concat_insert bs i l (e :: l) Hl) as (pre & post & E1 & E2).
  rewrite E2, E1, !elem_of_app, elem_of_cons. tauto.
Qed.

Lemma echain_other en en' p l : (forall e, e ∈ l -> en' !! e = en !! e) ->
  echain en p l -> echain en' p l.
Proof.
  revert p. induction l as [|q l IH]; intros p Ho; [done|].
  intros (-> & Hq & x & Hx & Hc). split_and!; [done|done|]. exists x.
  rewrite Ho by left. split; [done|]. apply IH; [|done]. intros e He. apply Ho. by right.
Qed.

Lemma move_bucket_spec fuel n t l s tb nbs : echain (ents s) t l -> NoDup l ->
  (forall e, e ∈ l -> e ∉ concat nbs) -> buckets_ok (ents s) n tb nbs -> 0 < n ->
  (length l <= fuel)%nat ->
  exists en' tb' nbs', move_bucket fuel n t tb s = (Ret tb', mk_hstate (ht s) en') /\
    buckets_ok en' n tb' nbs' /\ (forall e, e ∈ concat nbs' <-> e ∈ l \/ e ∈ concat nbs) /\
    (forall e, key_of en' e = key_of (ents s) e) /\
    (forall e, e ∉ l -> e ∉ concat nbs -> en' !! e = ents s !! e).
Proof.
  revert t l s tb nbs. induction fuel as [|fuel IH]; intros t [|q l] s tb nbs Hc Hnd Hni Hb Hn Hf;
    simpl in Hc, Hf; try lia;
    try (subst t; exists (ents s), tb, nbs; split_and!; try done; [by destruct s|];
         intros e; rewrite elem_of_nil; tauto).
  destruct Hc as (-> & Hq & x & Hx & Hc). apply NoDup_cons in Hnd as [Hql Hnd].
  destruct (bucket_push _ _ _ _ q x Hb Hn Hq (Hni q ltac:(left)) Hx) as (head & l2 & Hh & Hl2 & Hb2).
  simpl. rewrite (proj2 (Z.eqb_neq _ _) Hq). unfold mbind, st_bind. rewrite (get_ent_Ret _ _ _ Hx).
  assert (Hne : t_next x <> q).
  { intros Heq. destruct l as [|q2 l]; simpl in Hc; [congruence|]. destruct Hc as [Hq2 _].
    apply Hql. rewrite <- Heq, Hq2. left. }
  rewrite (proj2 (Z.eqb_neq _ _) Hne). unfold lift, tbl_get. rewrite Hh. unfold modify.
  set (s1 := set_ent q (set_t_next head x) s).
  set (i := Z.to_nat (indexFor n (t_h x))) in *.
  destruct (IH (t_next x) l s1 (<[i := q]> tb) (<[i := q :: l2]> nbs))
    as (en' & tb' & nbs' & He & Hb' & Hin & Hk & Ho); try done; [by apply echain_insert| |lia|].
  { intros e Hel Hin. apply (concat_push_elem nbs i l2 q e Hl2) in Hin as [-> |Hin]; [done|].
    apply (Hni e); [by right|done]. }
  exists en', tb', nbs'. split_and!; [exact He|exact Hb'|..].
  - intros e. rewrite Hin, (concat_push_elem nbs i l2 q e Hl2), elem_of_cons. tauto.
  - intros e. rewrite Hk. by apply key_of_set_next.
  - intros e Hel Hen. apply not_elem_of_cons in Hel as [Hne' Hel]. rewrite Ho; [|done|].
    + unfold s1. simpl. by rewrite lookup_insert_ne.
    + rewrite (concat_push_elem nbs i l2 q e Hl2). tauto.
Qed.

Lemma move_buckets_spec n old obs s tb nbs : Forall2 (echain (ents s)) old obs ->
  NoDup (concat obs) -> (forall e, e ∈ concat obs -> e ∉ concat nbs) ->
  buckets_ok (ents s) n tb nbs -> 0 < n ->
  exists en' tb' nbs', move_buckets n old tb s = (Ret tb', mk_hstate (ht s) en') /\
    buckets_ok en' n tb' nbs' /\
    (forall e, e ∈ concat nbs' <-> e ∈ concat obs \/ e ∈ concat nbs) /\
    (forall e, key_of en' e = key_of (ents s) e).
Proof.
  revert obs s tb nbs. induction old as [|t old IH]; intros obs s tb nbs Hf Hnd Hni Hb Hn.
  - apply Forall2_nil_inv_l in Hf as ->. exists (ents s), tb, nbs. split_and!; try done.
    + by destruct s.
    + intros e. simpl. rewrite elem_of_nil. tauto.
  - apply Forall2_cons_inv_l in Hf as (l & obs' & Hc & Hf & ->). simpl in Hnd, Hni.
    apply NoDup_app in Hnd as (Hl & Hdj & Hnd).
    destruct (move_bucket_spec (S (size (ents s))) n t l s tb nbs Hc Hl)
      as (en1 & tb1 & nbs1 & He1 & Hb1 & Hin1 & Hk1 & Ho1); try done.
    { intros e He. apply Hni, elem_of_app. by left. }
    { pose proof (echain_length _ _ _ Hc Hl). lia. }
    destruct (IH obs' (mk_hstate (ht s) en1) tb1 nbs1) as (en2 & tb2 & nbs2 & He2 & Hb2 & Hin2 & Hk2);
      try done.
    { apply Forall2_same_length_lookup in Hf as [Hll Hf]. apply Forall2_same_length_lookup.
      split; [done|]. intros i h2 l2 Hi1 Hi2. eapply echain_other, Hf; [|done..].
      intros e He. pose proof (concat_elem obs' i l2 e Hi2 He) as Hin. apply Ho1.
      - intros Hel. by apply (Hdj e).
      - apply Hni, elem_of_app. by right. }
    { intros e He Hin. apply Hin1 in Hin as [Hin|Hin]; [by apply (Hdj e)|].
      apply (Hni e); [apply elem_of_app; by right|done]. }
    exists en2, tb2, nbs2. split_and!; [|exact Hb2|..].
    + cbn [move_buckets]. unfold get, mbind, st_bind. rewrite He1. exact He2.
    + intros e. rewrite Hin2, Hin1. simpl. rewrite elem_of_app. tauto.
    + intros e. by rewrite Hk2, Hk1.
Qed.

Lemma empty_buckets_ok en n : 0 <= n ->
  buckets_ok en n (replicate (Z.to_nat n) 0) (replicate (Z.to_nat n) []).
Proof.
  intros Hn. assert (Hc : concat (replicate (Z.to_nat n) ([] : list Z)) = []).
  { induction (Z.to_nat n) as [|k IH]; [done|]. exact IH. }
  split.
  - rewrite length_replicate. lia.
  - apply Forall2_same_length_lookup. rewrite !length_replicate. split; [done|].
    intros i x y Hx Hy. apply lookup_replicate in Hx as [-> _], Hy as [-> _]. done.
  - rewrite Hc. constructor.
  - intros i l e Hi He. apply lookup_replicate in Hi as [-> _]. by apply not_elem_of_nil in He.
Qed.

(** The outcome of [hashtable_expand]: no memory or no larger prime, or a table
    of another size that holds the same entries. *)
Lemma rehash_spec M s newsize pindex' : represents M s -> primes !! Z.to_nat pindex' = Some newsize ->
  0 <= pindex' ->
  exists en' h', (tb ← move_buckets newsize (table (ht s)) (replicate (Z.to_nat newsize) 0);
    mret (M:=ST hstate) (Some (mk_hashtable (cache0 (ht s)) (cache1 (ht s)) (cache_idx (ht s)) newsize
      (entrycount (ht s)) (upper_limit newsize) (lower_limit newsize) pindex' tb))) s
    = (Ret (Some h'), mk_hstate (ht s) en') /\ represents M (mk_hstate h' en') /\
    (forall e, key_of en' e = key_of (ents s) e) /\ primeindex h' = pindex'.
Proof.
  intros Hr Hp Hp0. destruct (rp_buckets _ _ Hr) as (bs & Hb & Hh).
  pose proof (prime_pos _ _ Hp) as Hpos.
  destruct (move_buckets_spec newsize (table (ht s)) bs s (replicate (Z.to_nat newsize) 0)
              (replicate (Z.to_nat newsize) []) (bo_chain _ _ _ _ Hb) (bo_nodup _ _ _ _ Hb))
    as (en' & tb' & nbs & He & Hb' & Hin & Hk).
  { intros e _ Hin. apply elem_concat in Hin as (i & l & Hi & Hin).
    apply lookup_replicate in Hi as [-> _]. by apply not_elem_of_nil in Hin. }
  { apply empty_buckets_ok. lia. }
  { lia. }
  exists en'. eexists. unfold mbind, st_bind. rewrite He. split; [done|]. split; [|split; [exact Hk|done]].
  assert (Hin' : forall e, e ∈ concat nbs <-> e ∈ concat bs).
  { intros e. rewrite Hin. split; [|by left]. intros [?|Hr']; [done|].
    apply elem_concat in Hr' as (i & l & Hi & Hr').
    apply lookup_replicate in Hi as [-> _]. by apply not_elem_of_nil in Hr'. }
  destruct Hr as [_ _ Hc Hu Hl (Hc0 & Hc1 & Hcd) Hix]. split; simpl; try done.
  - exists nbs. split; [done|]. intros k e. rewrite Hin', Hk. apply Hh.
  - split_and!; try done; intros Hz; [destruct (Hc0 Hz) as (k & ? & ?)|destruct (Hc1 Hz) as (k & ? & ?)];
      exists k; by rewrite Hk.
Qed.

(** When [hashtable_expand] returns null. *)
Definition expand_fails (ok grow : bool) (h : hashtable) : Prop :=
  (grow = true /\ primeindex h = prime_table_length - 1) \/
  (ok = false /\ (grow = false -> primeindex h <> 0)).

Definition expand_result (M : gmap Z Z) (s : hstate) (ok grow : bool)
    (res : out (option hashtable) * hstate) : Prop :=
  (expand_fails ok grow (ht s) /\ res = (Ret None, s)) \/
  (exists h' en', res = (Ret (Some h'), mk_hstate (ht s) en') /\
     represents M (mk_hstate h' en') /\ (forall e, key_of en' e = key_of (ents s) e) /\
     primeindex h' = if grow then primeindex (ht s) + 1 else Z.max 0 (primeindex (ht s) - 1)).

Lemma expand_spec M s ok grow : represents M s ->
  expand_result M s ok grow (hashtable_expand ok grow s).
Proof.
  intros Hr. destruct (rp_prime _ _ Hr) as [Hp Hp0].
  assert (Hlt : primeindex (ht s) < 26).
  { apply lookup_lt_Some in Hp. simpl in Hp. lia. }
  unfold hashtable_expand, get. unfold mbind at 1, st_bind at 1. unfold expand_result, expand_fails.
  unfold prime_table_length in *. destruct grow.
  - destruct (primeindex (ht s) =? 26 - 1) eqn:E; [left; split; [lia|done]|].
    destruct (lookup_lt_is_Some_2 primes (Z.to_nat (primeindex (ht s) + 1))) as [n Hn];
      [simpl; lia|]. rewrite Hn. destruct ok; cbn [negb]; [right|left; split; [by right|done]].
    destruct (rehash_spec M s n (primeindex (ht s) + 1) Hr Hn) as (en' & h' & He & Hr' & Hk & Hpi); [lia|].
    exists h', en'. split; [exact He|]. split_and!; [done|done|lia].
  - destruct (primeindex (ht s) =? 0) eqn:E.
    { right. exists (ht s), (ents s). destruct s. split_and!; try done. simpl in *. lia. }
    destruct (lookup_lt_is_Some_2 primes (Z.to_nat (primeindex (ht s) - 1))) as [n Hn];
      [simpl; lia|]. rewrite Hn.
    destruct ok; cbn [negb]; [right|left; split; [right; split; [done|lia]|done]].
    destruct (rehash_spec M s n (primeindex (ht s) - 1) Hr Hn) as (en' & h' & He & Hr' & Hk & Hpi); [lia|].
    exists h', en'. split; [exact He|]. split_and!; [done|done|lia].
Qed.

(** ** Inserting *)

(** Linking the new entry, the part of [hashtable_insert] after the growth. *)
Lemma link_spec M s h kv x : represents M (mk_hstate h (ents s)) ->
  ents s !! kv = Some x -> kv <> 0 -> M !! t_h x = None ->
  (forall k, M !! k <> Some kv) -> Z.of_nat (size M) + 1 < 4294967295 ->
  exists head, tbl_get (table h) (indexFor (tablelength h) (t_h x)) = Ret head /\ head <> kv /\
    represents (<[t_h x := kv]> M)
      (mk_hstate
        (cache_entry kv (set_table (<[Z.to_nat (indexFor (tablelength h) (t_h x)) := kv]> (table h))
           (set_count (u32 (entrycount h + 1)) h)))
        (<[kv := set_t_next head x]> (ents s))).
Proof.
  intros Hr Hx Hkv Hnew Hfr Hsz. destruct (rp_buckets _ _ Hr) as (bs & Hb & Hh). simpl in Hb, Hh.
  assert (Hkx : key_of (ents s) kv = Some (t_h x)) by (unfold key_of; by rewrite Hx).
  assert (Hnin : kv ∉ concat bs).
  { intros Hin. apply (Hfr (t_h x)), Hh. done. }
  pose proof (rp_pos _ _ Hr) as Hpos. simpl in Hpos.
  destruct (bucket_push _ _ _ _ kv x Hb Hpos Hkv Hnin Hx) as (head & l & Hhd & Hl & Hb').
  exists head. unfold tbl_get. rewrite Hhd. split; [done|].
  assert (Hne : head <> kv).
  { intros ->. destruct (Forall2_lookup_l _ _ _ _ _ (bo_chain _ _ _ _ Hb) Hhd) as (l2 & Hl2 & Hc). simplify_eq.
    destruct l as [|q l]; simpl in Hc; [done|]. destruct Hc as (-> & _).
    apply Hnin. eapply concat_elem; [done|left]. }
  split; [done|]. destruct Hr as [_ Hp [Hc Hs] Hu Hlo Hca Hix]. simpl in *.
  split; simpl; try done.
  - eexists. split; [exact Hb'|]. by apply holds_push.
  - rewrite map_size_insert_None by done. rewrite Hc, u32_small by lia. lia.
  - apply (cache_entry_ok _ _ h (t_h x)).
    + destruct Hca as (H0 & H1 & Hd). split_and!; [..|done];
        intros Hz; [destruct (H0 Hz) as (k & ? & ?)|destruct (H1 Hz) as (k & ? & ?)]; exists k;
        (rewrite key_of_set_next by done; split; [done|]; rewrite lookup_insert_ne; congruence).
    + done.
    + by rewrite key_of_set_next.
    + by rewrite lookup_insert_eq.
    + intros Heq. destruct Hca as (H0 & _). destruct (H0 ltac:(congruence)) as (k & _ & HM).
      apply (Hfr k). by rewrite HM, Heq.
    + intros Heq. destruct Hca as (_ & H1 & _). destruct (H1 ltac:(congruence)) as (k & _ & HM).
      apply (Hfr k). by rewrite HM, Heq.
  - exact (cache_entry_idx kv h Hix).
Qed.

(** The entry is in the table, or the table had to grow and could not: then
    nothing is inserted. *)
Definition insert_result (M : gmap Z Z) (s : hstate) (ok : bool) (kv k : Z) (res : out Z * hstate)
    : Prop :=
  (exists s', res = (Ret 1, s') /\ represents (<[k := kv]> M) s' /\
     (forall e, key_of (ents s') e = key_of (ents s) e) /\
     primeindex (ht s') = primeindex (ht s) +
       (if upper_limit (tablelength (ht s)) <? Z.of_nat (size M) + 1 then 1 else 0)) \/
  (upper_limit (tablelength (ht s)) < Z.of_nat (size M) + 1 /\ expand_fails ok true (ht s) /\
   res = (Ret 0, s)).

Lemma hashtable_insert_spec M s ok kv x : represents M s ->
  ents s !! kv = Some x -> kv <> 0 -> M !! t_h x = None -> (forall k, M !! k <> Some kv) ->
  Z.of_nat (size M) + 1 < 4294967295 ->
  insert_result M s ok kv (t_h x) (hashtable_insert ok kv s).
Proof.
  intros Hr Hx Hkv Hnew Hfr Hsz. destruct (rp_count _ _ Hr) as [Hc _].
  assert (Hlink : forall h en', represents M (mk_hstate h en') ->
    (forall e, key_of en' e = key_of (ents s) e) ->
    exists s', (x ← get_ent kv;
      head ← lift (tbl_get (table h) (indexFor (tablelength h) (t_h x)));
      modify (set_ent kv (set_t_next (if head =? kv then 0 else head) x));;
      modify (set_ht (cache_entry kv (set_table (<[Z.to_nat (indexFor (tablelength h) (t_h x)) := kv]>
        (table h)) (set_count (u32 (entrycount h + 1)) h))));;
      mret (M:=ST hstate) 1) (mk_hstate (ht s) en') = (Ret 1, s') /\
    represents (<[t_h x := kv]> M) s' /\ (forall e, key_of (ents s') e = key_of (ents s) e) /\
    primeindex (ht s') = primeindex h).
  { intros h en' Hr' Hk. pose proof (Hk kv) as Hkk. unfold key_of in Hkk. rewrite Hx in Hkk.
    destruct (en' !! kv) as [x'|] eqn:Hx'; [|done]. simpl in Hkk. injection Hkk as Hkk.
    destruct (link_spec M (mk_hstate (ht s) en') h kv x' Hr' Hx' Hkv) as (head & Hg & Hne & Hrep);
      try done; [by rewrite Hkk|].
    eexists. unfold mbind, st_bind. rewrite (get_ent_Ret (mk_hstate (ht s) en') kv x' Hx').
    unfold lift. rewrite Hg. rewrite (proj2 (Z.eqb_neq _ _) Hne). split; [done|].
    rewrite <- Hkk. split; [exact Hrep|]. split; [|done].
    intros e. simpl. rewrite key_of_set_next by done. apply Hk. }
  unfold hashtable_insert. unfold get at 1, mbind at 1, st_bind at 1.
  rewrite (rp_upper _ _ Hr), Hc, (u32_small (Z.of_nat (size M) + 1)) by lia.
  destruct (upper_limit _ <? _) eqn:E.
  - unfold mbind at 1, st_bind at 1. destruct (expand_spec M s ok true Hr)
      as [[Hf ->]|(h' & en' & -> & Hr' & Hk & Hpi)];
      [right; split; [lia|split; [exact Hf|reflexivity]]|left].
    destruct (Hlink h' en' Hr' Hk) as (s' & He & Hrep & Hk' & Hpi'). exists s'.
    split; [exact He|]. rewrite E. split_and!; [done|done|lia].
  - left. destruct s as [h en]. destruct (Hlink h en Hr (fun e => eq_refl)) as (s' & He & Hrep & Hk' & Hpi').
    exists s'. split; [exact He|]. rewrite E. split_and!; [done|done|]. simpl in *. lia.
Qed.

(** ** Removing *)

Lemma concat_delete (bs : list (list Z)) i l j e : bs !! i = Some l -> l !! j = Some e ->
  concat bs ≡ₚ e :: concat (<[i := delete j l]> bs).
Proof.
  intros Hi Hj. destruct (concat_insert bs i l (delete j l) Hi) as (pre & post & -> & ->).
  rewrite (delete_Permutation l j e Hj) at 1. symmetry.
  apply (Permutation_middle pre (delete j l ++ post) e).
Qed.

Lemma echain_unlink en p l j e pv x y : echain en p l -> NoDup l -> l !! S j = Some e ->
  l !! j = Some pv -> en !! e = Some x -> en !! pv = Some y ->
  echain (<[pv := set_t_next (t_next x) y]> en) p (delete (S j) l).
Proof.
  revert p l. induction j as [|j IH]; intros p l Hc Hn He Hpv Hx Hy;
    (destruct l as [|q l]; [done|]); destruct Hc as (-> & Hq & xq & Hxq & Hc);
    apply NoDup_cons in Hn as [Hql Hn]; simpl in He, Hpv.
  - simplify_eq. destruct l as [|e' l]; [done|]. simpl in He. simplify_eq. simpl.
    destruct Hc as (_ & _ & x' & Hx' & Hc). simplify_eq. split_and!; [done|done|].
    eexists. rewrite lookup_insert_eq. split; [done|]. simpl. apply echain_insert; [|done].
    intros Hin. apply Hql. by right.
  - change (delete (S (S j)) (q :: l)) with (q :: delete (S j) l). split_and!; [done|done|].
    exists xq. rewrite lookup_insert_ne.
    + split; [done|]. by apply IH.
    + intros ->. apply Hql. by eapply list_elem_of_lookup_2.
Qed.

Lemma echain_next en p l i e x : echain en p l -> NoDup l -> l !! i = Some e -> en !! e = Some x ->
  echain en (t_next x) (drop (S i) l).
Proof.
  revert p l. induction i as [|i IH]; intros p [|q l] Hc Hn He Hx; try done; simpl in He;
    destruct Hc as (-> & _ & xq & Hxq & Hc); apply NoDup_cons in Hn as [_ Hn]; simplify_eq; [done|].
  by eapply IH.
Qed.

(** The buckets after an entry has been unlinked. *)
Lemma buckets_unlink en en' n tb tb' bs i l j e : buckets_ok en n tb bs -> bs !! i = Some l ->
  l !! j = Some e -> length tb' = length tb ->
  (forall e', key_of en' e' = key_of en e') ->
  (forall k hd l', k <> i -> tb !! k = Some hd -> bs !! k = Some l' ->
     tb' !! k = Some hd /\ echain en' hd l') ->
  (exists hd', tb' !! i = Some hd' /\ echain en' hd' (delete j l)) ->
  buckets_ok en' n tb' (<[i := delete j l]> bs).
Proof.
  intros [Hlen Hf Hnd Hix] Hi Hj Htl Hk Ho (hd' & Hhd' & Hc').
  apply Forall2_same_length_lookup in Hf as [Hll Hf].
  assert (Hlt : (i < length bs)%nat) by (by eapply lookup_lt_Some). split.
  - by rewrite Htl.
  - apply Forall2_same_length_lookup. rewrite length_insert. split; [congruence|].
    intros k hd l'. intros Hhd. rewrite list_lookup_insert_Some.
    intros [(<- & <- & _)|[Hne Hl']]; [by simplify_eq|].
    destruct (lookup_lt_is_Some_2 tb k) as [hd0 Hhd0].
    { rewrite <- Htl. by eapply lookup_lt_Some. }
    destruct (Ho k hd0 l' ltac:(congruence) Hhd0 Hl') as [Hhd1 Hc]. by simplify_eq.
  - rewrite (concat_delete bs i l j e Hi Hj) in Hnd. by apply NoDup_cons in Hnd as [_ ?].
  - intros k l' e' Hl' He'. rewrite Hk. apply list_lookup_insert_Some in Hl' as [(<- & <- & _)|[Hne Hl']].
    + eapply Hix; [done|]. rewrite (delete_Permutation l j e Hj). by right.
    + by eapply Hix.
Qed.

Lemma holds_unlink en en' bs M i l j e k : holds en bs M -> NoDup (concat bs) -> bs !! i = Some l ->
  l !! j = Some e -> M !! k = Some e -> (forall e', key_of en' e' = key_of en e') ->
  holds en' (<[i := delete j l]> bs) (delete k M).
Proof.
  intros Hh Hnd Hi Hj HM Hk k' e'. rewrite Hk, lookup_delete_Some.
  pose proof (concat_delete bs i l j e Hi Hj) as Hp. rewrite Hp in Hnd.
  apply NoDup_cons in Hnd as [Hne _]. rewrite (Hh k' e').
  assert (Hin : e' ∈ concat bs <-> e' = e \/ e' ∈ concat (<[i := delete j l]> bs))
    by (rewrite Hp; apply elem_of_cons).
  rewrite Hin. destruct (proj1 (Hh k e) HM) as [_ Hke]. split.
  - intros (Hkk & [-> | ?] & ?); [congruence|done].
  - intros [He' Hk']. split; [|tauto]. intros ->. apply Hne.
    assert (M !! k' = Some e') as HM' by (apply Hh; rewrite Hin; tauto). by simplify_eq.
Qed.

(** The cache of [hashtable_remove]: the entry of the key is dropped, the other
    slot stays. *)
Lemma cache_drop en M c0 c1 k e (b0 b1 : bool) : cache_ok en M c0 c1 -> M !! k = Some e ->
  b0 = bool_decide (c0 <> 0 /\ key_of en c0 = Some k) ->
  b1 = (if b0 then false else bool_decide (c1 <> 0 /\ key_of en c1 = Some k)) ->
  cache_ok en (delete k M) (if b0 then 0 else c0) (if b1 then 0 else c1).
Proof.
  intros (H0 & H1 & Hd) HM Hb0 Hb1.
  assert (Hc : forall c, c <> 0 -> (exists k', key_of en c = Some k' /\ M !! k' = Some c) ->
    key_of en c <> Some k -> exists k', key_of en c = Some k' /\ delete k M !! k' = Some c).
  { intros c Hc (k' & Hk' & HM') Hne. exists k'. split; [done|].
    rewrite lookup_delete_ne; [done|congruence]. }
  symmetry in Hb0. destruct b0.
  - apply bool_decide_eq_true in Hb0 as [Hz Hk0]. subst b1. split_and!; [done| |done].
    intros Hz1. apply (Hc c1 Hz1 (H1 Hz1)). intros Hk1.
    destruct (H0 Hz) as (k0 & Hk0' & HM0), (H1 Hz1) as (k1 & Hk1' & HM1). simplify_eq.
    by apply Hd.
  - apply bool_decide_eq_false in Hb0. symmetry in Hb1. destruct b1.
    + split_and!; [|done|done]. intros Hz. apply (Hc c0 Hz (H0 Hz)). tauto.
    + apply bool_decide_eq_false in Hb1. split_and!; [| |done]; intros Hz.
      * apply (Hc c0 Hz (H0 Hz)). tauto.
      * apply (Hc c1 Hz (H1 Hz)). tauto.
Qed.

Lemma cache_ok_keys en en' M c0 c1 : (forall e, key_of en' e = key_of en e) ->
  cache_ok en M c0 c1 -> cache_ok en' M c0 c1.
Proof. intros Hk (H0 & H1 & Hd). split_and!; try done; by setoid_rewrite Hk. Qed.

Lemma unlink_spec n tb bs M s h1 k e l j : buckets_ok (ents s) n tb bs -> holds (ents s) bs M ->
  0 < n -> table h1 = tb -> M !! k = Some e -> bs !! Z.to_nat (indexFor n k) = Some l ->
  l !! j = Some e ->
  exists s', unlink (indexFor n k) e (pred_of l j 0) h1 s = (Ret tt, s') /\
    ht s' = set_table (table (ht s')) h1 /\
    (forall e', key_of (ents s') e' = key_of (ents s) e') /\
    exists bs', buckets_ok (ents s') n (table (ht s')) bs' /\ holds (ents s') bs' (delete k M).
Proof.
  intros Hb Hh Hn Htb HM Hl Hj. pose proof (bo_chain _ _ _ _ Hb) as Hf.
  destruct (Forall2_lookup_r _ _ _ _ _ Hf Hl) as (hd & Hhd & Hc).
  pose proof (bo_nodup _ _ _ _ Hb) as Hnd. pose proof (nodup_bucket _ _ _ Hnd Hl) as Hndl.
  destruct (echain_dom _ _ _ e Hc ltac:(by eapply list_elem_of_lookup_2)) as [[x Hx] He0].
  pose proof (echain_next _ _ _ _ _ _ Hc Hndl Hj Hx) as Hnx.
  set (i := Z.to_nat (indexFor n k)) in *.
  assert (Hlt : (i < length tb)%nat) by (by eapply lookup_lt_Some).
  unfold unlink, mbind, st_bind. rewrite (get_ent_Ret _ _ _ Hx).
  destruct j as [|j].
  - simpl. eexists. split; [done|]. simpl. rewrite Htb. split_and!; try done.
    exists (<[i := delete 0%nat l]> bs). split; [|by eapply holds_unlink].
    eapply buckets_unlink; try done; [by rewrite length_insert| |].
    + intros k' hd' l' Hne Hhd' Hl'. rewrite list_lookup_insert_ne by done. split; [done|].
      by apply (Forall2_lookup_lr _ _ _ _ _ _ Hf Hhd' Hl').
    + exists (t_next x). rewrite list_lookup_insert_eq by done. split; [done|].
      destruct l; exact Hnx.
  - simpl. destruct (lookup_lt_is_Some_2 l j) as [pv Hpv].
    { apply lookup_lt_Some in Hj. lia. }
    rewrite Hpv. simpl.
    destruct (echain_dom _ _ _ pv Hc ltac:(by eapply list_elem_of_lookup_2)) as [[y Hy] Hpv0].
    rewrite (proj2 (Z.eqb_neq _ _) Hpv0). unfold load. rewrite Hy.
    assert (Hnp : t_next x <> pv).
    { intros Heq. destruct (drop (S (S j)) l) as [|q l2] eqn:Ed; simpl in Hnx; [congruence|].
      destruct Hnx as [Hq _]. assert (Hq2 : l !! S (S j) = Some pv).
      { rewrite <- (Nat.add_0_r (S (S j))), <- lookup_drop, Ed. simpl. congruence. }
      pose proof (NoDup_lookup l _ _ pv Hndl Hpv Hq2). lia. }
    rewrite (proj2 (Z.eqb_neq _ _) Hnp). unfold modify. eexists. split; [done|]. simpl.
    assert (Hk : forall e', key_of (<[pv := set_t_next (t_next x) y]> (ents s)) e' = key_of (ents s) e')
      by (intros; by apply key_of_set_next).
    split_and!; [by destruct h1|done|]. rewrite Htb.
    exists (<[i := delete (S j) l]> bs). split; [|by eapply holds_unlink].
    eapply buckets_unlink; try done.
    + intros k' hd' l' Hne Hhd' Hl'. split; [done|]. apply echain_insert.
      * intros Hin. apply Hne. symmetry.
        apply (buckets_apart bs i k' l l' pv Hnd Hl Hl'); [by eapply list_elem_of_lookup_2|done].
      * by apply (Forall2_lookup_lr _ _ _ _ _ _ Hf Hhd' Hl').
    + exists hd. split; [done|]. by eapply echain_unlink.
Qed.

Lemma set_table_table h : set_table (table h) h = h.
Proof. by destruct h. Qed.

(** The entry is gone and the table represents the smaller map; the result is 0
    when the table should have shrunk and there was no memory. *)
Lemma remove_spec M s ok k e : represents M s -> M !! k = Some e ->
  exists r s', hashtable_remove ok k s = (Ret r, s') /\ represents (delete k M) s' /\
    (forall e', key_of (ents s') e' = key_of (ents s) e') /\
    (r, primeindex (ht s')) =
      if (0 <? primeindex (ht s)) &&
         (Z.of_nat (size (delete k M)) <=? lower_limit (tablelength (ht s)))
      then (if ok then (1, primeindex (ht s) - 1) else (0, primeindex (ht s)))
      else (1, primeindex (ht s)).
Proof.
  intros Hr HM. destruct (slots_ok _ _ Hr) as [S0 S1]. destruct (rp_buckets _ _ Hr) as (bs & Hb & Hh).
  unfold hashtable_remove. run_step (eq_refl (Ret s, s) : get s = _).
  run_step (cached_spec M s _ k S0). set (b0 := bool_decide _).
  assert (E1 : (if b0 then mret false else cached (cache1 (ht s)) k) s =
    (Ret (if b0 then false else bool_decide (cache1 (ht s) <> 0 /\
            key_of (ents s) (cache1 (ht s)) = Some k)), s)).
  { destruct b0; [done|]. by apply (cached_spec M). }
  run_step E1.
  set (b1 := if b0 then false else bool_decide (_ /\ key_of _ (cache1 (ht s)) = _)).
  pose proof (cache_drop _ _ _ _ k e b0 b1 (rp_cache _ _ Hr) HM eq_refl eq_refl) as Hcd.
  cbn [set_cache tablelength table cache0 cache1 cache_idx].
  destruct (table_find s _ _ bs M k Hb Hh (rp_pos _ _ Hr)) as (hd & l & Hg & _ & Hl & Hc & Hf).
  rewrite HM in Hf. destruct Hf as (j & Hj & Hf).
  assert (Hgl : lift (tbl_get (table (ht s)) (indexFor (tablelength (ht s)) k)) s = (Ret hd, s))
    by (unfold lift; by rewrite Hg).
  run_step Hgl. run_step Hf. destruct (represents_entry _ _ _ _ Hr HM) as [He _].
  rewrite (proj2 (Z.eqb_neq _ _) He).
  set (h1 := set_count _ _).
  destruct (unlink_spec _ _ bs M s h1 k e l j Hb Hh (rp_pos _ _ Hr) eq_refl HM Hl Hj)
    as (s1 & Hu & Hht & Hk & bs' & Hb' & Hh').
  run_step Hu.
  assert (Hr1 : represents (delete k M) s1).
  { destruct Hr as [_ Hp [Hcn Hcs] Hup Hlo _ Hix].
    assert (Hsz : size M = S (size (delete k M))).
    { rewrite <- (insert_delete_id M k e HM) at 1. by rewrite map_size_insert_None by apply lookup_delete_eq. }
    destruct s1 as [hs es]. simpl in *. rewrite Hht. split; simpl; try done.
    - by exists bs'.
    - rewrite Hcn, u32_small by lia. lia.
    - by eapply cache_ok_keys. }
  assert (Hpi1 : primeindex (ht s1) = primeindex (ht s)) by (by rewrite Hht).
  assert (Htl : tablelength (ht s1) = tablelength (ht s)) by (by rewrite Hht).
  run_step (eq_refl (Ret s1, s1) : get s1 = _).
  rewrite (proj1 (rp_count _ _ Hr1)), (rp_lower _ _ Hr1), Hpi1, Htl.
  destruct (_ && _) eqn:Eb; cycle 1.
  { exists 1, s1. split_and!; try done. by rewrite Hpi1. }
  destruct (expand_spec _ s1 ok false Hr1) as [[Hfail He1]|(h' & en' & He1 & Hr2 & Hk2 & Hpi)].
  - run_step He1. exists 0, s1. destruct Hfail as [[? _]|[-> _]]; [done|].
    split_and!; try done. by rewrite Hpi1.
  - destruct ok; cycle 1.
    { exfalso. unfold hashtable_expand, get, mbind, st_bind in He1. rewrite Hpi1 in He1.
      destruct (primeindex (ht s) =? 0) eqn:E0; [lia|]. by destruct (primes !! _). }
    run_step He1. exists 1, (mk_hstate h' en'). split_and!; try done.
    + intros e'. simpl. by rewrite Hk2.
    + simpl. f_equal. lia.
Qed.

Lemma remove_missing M s ok k : represents M s -> M !! k = None ->
  (hashtable_remove ok k s).1 = Exit "Attempting to remove a non-existent key".
Proof.
  intros Hr HM. destruct (slots_ok _ _ Hr) as [S0 S1]. destruct (rp_buckets _ _ Hr) as (bs & Hb & Hh).
  unfold hashtable_remove. run_step (eq_refl (Ret s, s) : get s = _).
  run_step (cached_spec M s _ k S0). set (b0 := bool_decide _).
  assert (E1 : exists b, (if b0 then mret false else cached (cache1 (ht s)) k) s = (Ret b, s)).
  { destruct b0; [by eexists|]. eexists. by apply (cached_spec M). }
  destruct E1 as [b1 E1]. run_step E1. cbn [set_cache tablelength table].
  destruct (table_find s _ _ bs M k Hb Hh (rp_pos _ _ Hr)) as (hd & l & Hg & _ & _ & _ & Hf).
  rewrite HM in Hf. destruct Hf as (pv & Hf).
  assert (Hgl : lift (tbl_get (table (ht s)) (indexFor (tablelength (ht s)) k)) s = (Ret hd, s))
    by (unfold lift; by rewrite Hg).
  run_step Hgl. run_step Hf. done.
Qed.

(** ** Refinement *)

(** [ok]: there is memory for another table, should the operation want one. *)
Inductive hop : Type :=
| HInsert (ok : bool) (kv : Z)
| HSearch (k : Z)
| HRemove (ok : bool) (k : Z).

Definition run_hop (op : hop) : ST hstate Z :=
  match op with
  | HInsert ok kv => hashtable_insert ok kv
  | HSearch k => hashtable_search k
  | HRemove ok k => hashtable_remove ok k
  end.

Fixpoint run_hops (ops : list hop) : ST hstate (list Z) :=
  match ops with
  | [] => mret []
  | op :: ops => r ← run_hop op; rs ← run_hops ops; mret (r :: rs)
  end.

(** The load limit of the largest table whose limits do not wrap around. *)
Definition max_entries : Z := 25165834.

(** The specification: a finite map from keys to entries, with the size class of
    the table (an index in [primes]). *)
Record amap : Type := mk_amap { am_map : gmap Z Z; am_class : Z }.

Definition class_length (i : Z) : Z := default 0 (primes !! Z.to_nat i).

(** The map is too full for its size class with one more entry, or sparse enough
    for the class below. *)
Definition must_grow (X : amap) : bool :=
  upper_limit (class_length (am_class X)) <? Z.of_nat (size (am_map X)) + 1.
Definition may_shrink (X : amap) : bool :=
  (0 <? am_class X) &&
  (Z.of_nat (size (am_map X)) <=? lower_limit (class_length (am_class X))).

(** [K] gives the key of an entry.  An insertion that must grow the table and
    has no memory answers 0 and inserts nothing; a removal that should shrink it
    and has no memory removes the entry and answers 0.  [Undef] marks uses
    outside the contract: an unknown entry, a key already present, too many
    entries. *)
Definition map_step (K : Z -> option Z) (op : hop) (X : amap) : out (Z * amap) :=
  match op with
  | HInsert ok kv =>
      match K kv with
      | Some k =>
          if (kv =? 0) || bool_decide (is_Some (am_map X !! k)) ||
             (max_entries <=? Z.of_nat (size (am_map X)))
          then Undef
          else if must_grow X then
            if ok then Ret (1, mk_amap (<[k := kv]> (am_map X)) (am_class X + 1)) else Ret (0, X)
          else Ret (1, mk_amap (<[k := kv]> (am_map X)) (am_class X))
      | None => Undef
      end
  | HSearch k =>
      match am_map X !! k with
      | Some e => Ret (e, X)
      | None => Exit "hashtable search for key failed."
      end
  | HRemove ok k =>
      match am_map X !! k with
      | Some _ =>
          let X' := mk_amap (delete k (am_map X)) (am_class X) in
          if may_shrink X' then
            if ok then Ret (1, mk_amap (am_map X') (am_class X - 1)) else Ret (0, X')
          else Ret (1, X')
      | None => Exit "Attempting to remove a non-existent key"
      end
  end.

Fixpoint map_run (K : Z -> option Z) (ops : list hop) (X : amap) : out (list Z * amap) :=
  match ops with
  | [] => Ret ([], X)
  | op :: ops =>
      match map_step K op X with
      | Ret (r, X') =>
          match map_run K ops X' with
          | Ret (rs, X2) => Ret (r :: rs, X2)
          | o => o
          end
      | Exit msg => Exit msg
      | _ => Undef
      end
  end.

(** A table of the size class of [X] with its entries; up to class 18 the load
    limits do not wrap around. *)
Definition is_map (K : Z -> option Z) (X : amap) (s : hstate) : Prop :=
  represents (am_map X) s /\ primeindex (ht s) = am_class X /\ am_class X <= 18 /\
  forall e, key_of (ents s) e = K e.

Definition hrefines {A} (K : Z -> option Z) (o : out (A * amap)) (res : out A * hstate) : Prop :=
  match o with
  | Ret (r, X') => exists s', res = (Ret r, s') /\ is_map K X' s'
  | Exit msg => res.1 = Exit msg
  | _ => True
  end.

Lemma class_length_eq M s : represents M s ->
  class_length (primeindex (ht s)) = tablelength (ht s).
Proof. intros Hr. unfold class_length. by rewrite (proj1 (rp_prime _ _ Hr)). Qed.

(** At the load limit of class 18 there are too many entries already. *)
Lemma must_grow_class X : must_grow X = true -> am_class X <= 18 ->
  Z.of_nat (size (am_map X)) < max_entries -> am_class X < 18.
Proof.
  intros Hg Hc Hm. destruct (decide (am_class X = 18)) as [E|]; [|lia]. unfold must_grow in Hg.
  rewrite E in Hg. change (upper_limit (class_length 18)) with max_entries in Hg. lia.
Qed.

Lemma insert_refines K X s ok kv : is_map K X s ->
  hrefines K (map_step K (HInsert ok kv) X) (hashtable_insert ok kv s).
Proof.
  intros (Hr & Hp & Hc & Hk). simpl. destruct (K kv) as [k|] eqn:HK; [|done].
  destruct (kv =? 0) eqn:E0; [done|]. case_bool_decide as Hn; [done|].
  destruct (max_entries <=? _) eqn:Em; [done|]. simpl.
  pose proof (Hk kv) as Hkv. rewrite HK in Hkv. unfold key_of in Hkv.
  destruct (ents s !! kv) as [x|] eqn:Hx; [|done]. simpl in Hkv. injection Hkv as Hkv.
  assert (HM : am_map X !! t_h x = None) by (rewrite Hkv; by apply eq_None_not_Some).
  assert (Hg : (upper_limit (tablelength (ht s)) <? Z.of_nat (size (am_map X)) + 1) = must_grow X)
    by (unfold must_grow; by rewrite <- Hp, (class_length_eq _ _ Hr)).
  destruct (hashtable_insert_spec (am_map X) s ok kv x Hr Hx ltac:(lia) HM)
    as [(s' & He & Hr' & Hk' & Hpi)|(Hlt & Hf & He)].
  - intros k' HM'. destruct (represents_entry _ _ _ _ Hr HM') as [_ Hkk].
    unfold key_of in Hkk. rewrite Hx in Hkk. simpl in Hkk. injection Hkk as <-. congruence.
  - unfold max_entries in Em. lia.
  - rewrite Hg, Hp in Hpi. rewrite Hkv in Hr'.
    assert (Hok : must_grow X = true -> ok = true).
    { intros Eg. destruct ok; [done|]. exfalso. revert He. unfold hashtable_insert.
      unfold get at 1, mbind at 1, st_bind at 1. destruct (rp_count _ _ Hr) as [Hcn _].
      rewrite (rp_upper _ _ Hr), Hcn, u32_small by (unfold max_entries in Em; lia). rewrite Hg, Eg.
      unfold hashtable_expand, get, mbind, st_bind, mret, st_ret, lift.
      destruct (primeindex (ht s) =? prime_table_length - 1); [intros [=]|].
      destruct (primes !! _); intros [=]. }
    destruct (must_grow X) eqn:Eg.
    + rewrite (Hok eq_refl) in *. exists s'. split; [exact He|]. split_and!; simpl; try done.
      * pose proof (must_grow_class X Eg Hc ltac:(lia)). lia.
      * intros e. by rewrite Hk'.
    + exists s'. split; [done|]. split_and!; simpl; try done; [lia|]. intros e. by rewrite Hk'.
  - assert (Eg : must_grow X = true) by (rewrite <- Hg; lia). rewrite Eg.
    pose proof (must_grow_class X Eg Hc ltac:(lia)).
    destruct Hf as [[_ Hf]|[-> _]]; [unfold prime_table_length in Hf; lia|]. by exists s.
Qed.

Lemma remove_refines K X s ok k : is_map K X s ->
  hrefines K (map_step K (HRemove ok k) X) (hashtable_remove ok k s).
Proof.
  intros (Hr & Hp & Hc & Hk). simpl.
  destruct (am_map X !! k) as [e|] eqn:HM; [|by apply (remove_missing (am_map X))].
  destruct (remove_spec (am_map X) s ok k e Hr HM) as (r & s' & He & Hr' & Hk' & Hpi).
  rewrite <- (class_length_eq _ _ Hr), Hp in Hpi. unfold may_shrink. simpl.
  destruct (_ && _); [destruct ok|]; injection Hpi as -> Hpi; exists s'; (split; [done|]);
    split_and!; simpl; try done; try lia; intros e'; by rewrite Hk'.
Qed.

Lemma hop_refines K X s op : is_map K X s -> hrefines K (map_step K op X) (run_hop op s).
Proof.
  intros Hm. destruct op as [ok kv|k|ok k]; [by apply insert_refines| |by apply remove_refines].
  destruct Hm as (Hr & Hp & Hc & Hk); simpl.
  pose proof (search_spec (am_map X) s k Hr) as Hs. destruct (am_map X !! k) as [e|]; [|done].
  destruct Hs as (h' & He & Hr' & Hpi). exists (set_ht h' s). split; [done|].
  split_and!; simpl; try done. lia.
Qed.

Lemma hops_refine K ops X s :
  is_map K X s -> hrefines K (map_run K ops X) (run_hops ops s).
Proof.
  revert X s. induction ops as [|op ops IH]; intros X s Hm; simpl; [by exists s|].
  pose proof (hop_refines K X s op Hm) as H1. unfold mbind, st_bind.
  destruct (map_step K op X) as [[r X1]|e fl ln|msg| |]; simpl in H1 |- *; try done.
  - destruct H1 as (s1 & -> & Hm1). specialize (IH X1 s1 Hm1).
    destruct (map_run K ops X1) as [[rs X2]|e fl ln|msg| |]; simpl in IH |- *; try done.
    + destruct IH as (s2 & -> & Hm2). by exists s2.
    + destruct (run_hops ops s1) as [o s2]. simpl in IH. by subst o.
  - destruct (run_hop op s) as [o s1]. simpl in H1. by subst o.
Qed.

(** C5. The table of tree handles implements a finite map: any program of
    insertions, searches and removals, with any allocation of a new table
    failing, gives the results and ends in a state of the map of [map_run],
    through the growing and shrinking of the table and whatever is in its cache.
    The table grows and shrinks exactly at its load limits; an insertion that
    must grow the table and has no memory returns 0 and does not insert (the
    comment in [hashtable_insert] says that the value is still put in the
    existing table), a removal without memory to shrink it removes the entry and
    returns 0; searching for or removing a key that is not there ends the
    process with the message of the code.  Nothing is claimed about inserting a
    key twice or into a table of 25165834 entries or more, whose load limits
    wrap around. *)
Theorem hashtable_refines_map K ops X s :
  is_map K X s -> hrefines K (map_run K ops X) (run_hops ops s).
Proof. apply hops_refine. Qed.

(** When the table has to grow and there is no memory, [hashtable_insert]
    returns 0 without inserting the entry: the table still represents the map
    without it, and a later search for its key ends the process. *)
Theorem insert_without_memory M s kv x :
  represents M s -> ents s !! kv = Some x -> kv <> 0 -> M !! t_h x = None ->
  (forall k, M !! k <> Some kv) -> Z.of_nat (size M) + 1 < 4294967295 ->
  upper_limit (tablelength (ht s)) < Z.of_nat (size M) + 1 ->
  hashtable_insert false kv s = (Ret 0, s) /\
  (hashtable_search (t_h x) s).1 = Exit "hashtable search for key failed.".
Proof.
  intros Hr Hx Hkv HM Hfr Hsz Hup. split.
  - unfold hashtable_insert. run_step (eq_refl (Ret s, s) : get s = _).
    destruct (rp_count _ _ Hr) as [Hc _].
    rewrite (rp_upper _ _ Hr), Hc, u32_small, (proj2 (Z.ltb_lt _ _) Hup) by lia.
    destruct (expand_spec M s false true Hr) as [[_ He]|(h' & en' & He & _)]; [by run_step He|].
    exfalso. unfold hashtable_expand, get, mbind, st_bind in He.
    destruct (primeindex (ht s) =? _); [done|]. by destruct (primes !! _).
  - pose proof (search_spec M s (t_h x) Hr) as Hs. by rewrite HM in Hs.
Qed.

(** A new table is empty. *)
Lemma create_represents minsize h en : create_hashtable true minsize = Some h ->
  minsize < 1610612741 -> represents ∅ (mk_hstate h en).
Proof.
  intros Hc Hm. unfold create_hashtable in Hc.
  assert (Hp : forall l k pi n, find_prime l pi minsize = (k, n) -> 0 <= pi ->
    (exists p, p ∈ l /\ minsize < p) -> pi <= k /\ l !! Z.to_nat (k - pi) = Some n).
  { induction l as [|p l IH]; intros k pi n Hf Hpi [q [Hq Hlt]]; [by apply not_elem_of_nil in Hq|].
    simpl in Hf. destruct (minsize <? p) eqn:E.
    - simplify_eq. rewrite Z.sub_diag. done.
    - destruct (IH k (pi + 1) n Hf ltac:(lia)) as [Hle Hl].
      { exists q. apply elem_of_cons in Hq as [-> |Hq]; [lia|done]. }
      split; [lia|]. replace (Z.to_nat (k - pi)) with (S (Z.to_nat (k - (pi + 1)))) by lia. done. }
  destruct (find_prime primes 0 minsize) as [pi n] eqn:Hf. injection Hc as <-.
  destruct (Hp primes pi 0 n Hf ltac:(lia)) as [Hpi Hn].
  { exists 1610612741. split; [|done]. apply list_elem_of_In. simpl. tauto. }
  rewrite Z.sub_0_r in Hn. pose proof (prime_pos _ _ Hn). split; simpl; try done; [|by left].
  - exists (replicate (Z.to_nat n) []). split; [apply empty_buckets_ok; lia|].
    intros k e. rewrite lookup_empty. split; [done|]. intros [Hin _].
    apply elem_concat in Hin as (i & l & Hi & Hin).
    apply lookup_replicate in Hi as [-> _]. by apply not_elem_of_nil in Hin.
Qed.

(** ** Witnesses *)

Definition ex_xtree (h : Z) : XTreeHandle := mk_xtree h 0 0 0 0 (mk_lcaps 1 1 0).

(** Three tree handles, two of them in the same bucket of a table of 53. *)
Definition ex_ents : gmap Z XTreeHandle :=
  <[8000 := ex_xtree 1000]> (<[8100 := ex_xtree 1053]> (<[8200 := ex_xtree 2000]> ∅)).

Definition ex_table : hstate :=
  mk_hstate (default (mk_hashtable 0 0 0 0 0 0 0 0 []) (create_hashtable true 10)) ex_ents.

Definition ex_hops : list hop :=
  [HInsert true 8000; HInsert false 8100; HSearch 1000; HInsert true 8200; HRemove true 1053;
   HSearch 2000; HSearch 1000].

Lemma ex_table_map : is_map (key_of ex_ents) (mk_amap ∅ 0) ex_table.
Proof. split; [by apply (create_represents 10)|]. by vm_compute. Qed.

(** A table of 53 buckets at its load limit. *)
Definition many_keys (n : nat) : list Z := (fun i => 10000 + 100 * Z.of_nat i) <$> seq 0 n.

Definition many_ents : gmap Z XTreeHandle :=
  list_to_map ((fun e => (e, ex_xtree (e + 1))) <$> many_keys 107).

Definition many_table : hstate :=
  mk_hstate (default (mk_hashtable 0 0 0 0 0 0 0 0 []) (create_hashtable true 10)) many_ents.

Definition full_table : hstate := (run_hops (HInsert true <$> many_keys 106) many_table).2.

Definition full_map : gmap Z Z :=
  list_to_map ((fun e => (e + 1, e)) <$> reverse (many_keys 106)).

Lemma full_table_map : is_map (key_of many_ents) (mk_amap full_map 0) full_table.
Proof.
  assert (Hm : is_map (key_of many_ents) (mk_amap ∅ 0) many_table).
  { split; [by apply (create_represents 10)|]. by vm_compute. }
  pose proof (hops_refine _ (HInsert true <$> many_keys 106) _ _ Hm) as Hr.
  assert (Ha : map_run (key_of many_ents) (HInsert true <$> many_keys 106) (mk_amap ∅ 0)
               = Ret (replicate 106 1, mk_amap full_map 0)) by (vm_compute; reflexivity).
  rewrite Ha in Hr. destruct Hr as (s' & He & Hm'). unfold full_table. rewrite He. exact Hm'.
Qed.

(** The full table refuses the next entry without memory, takes it with memory,
    in the next size class, and does not give up the larger table at once. *)
Lemma hashtable_refines_map_witness :
  (exists s', run_hops ex_hops ex_table = (Ret [1; 1; 8000; 1; 1; 8200; 8000], s')) /\
  exists s', run_hops [HInsert false 20600; HInsert true 20600; HSearch 20601; HRemove false 20601]
               full_table = (Ret [0; 1; 20600; 1], s') /\ primeindex (ht s') = 1.
Proof.
  split.
  - pose proof (hashtable_refines_map (key_of ex_ents) ex_hops _ ex_table ex_table_map) as Hr.
    assert (Ha : exists X', map_run (key_of ex_ents) ex_hops (mk_amap ∅ 0) = Ret ([1; 1; 8000; 1; 1; 8200; 8000], X'))
      by (eexists; vm_compute; reflexivity).
    destruct Ha as [X' Ha]. rewrite Ha in Hr. destruct Hr as (s' & He & _). exists s'. exact He.
  - pose proof (hashtable_refines_map (key_of many_ents)
      [HInsert false 20600; HInsert true 20600; HSearch 20601; HRemove false 20601]
      _ full_table full_table_map) as Hr.
    assert (Ha : exists M', map_run (key_of many_ents)
      [HInsert false 20600; HInsert true 20600; HSearch 20601; HRemove false 20601]
      (mk_amap full_map 0) = Ret ([0; 1; 20600; 1], mk_amap M' 1))
      by (eexists; vm_compute; reflexivity).
    destruct Ha as [M' Ha]. rewrite Ha in Hr. destruct Hr as (s' & He & _ & Hc & _).
    exists s'. split; [exact He|exact Hc].
Defined.

Lemma insert_without_memory_witness :
  hashtable_insert false 20600 full_table = (Ret 0, full_table) /\
  (hashtable_search 20601 full_table).1 = Exit "hashtable search for key failed.".
Proof.
  destruct full_table_map as (Hr & _).
  assert (Hx : exists x, ents full_table !! 20600 = Some x /\ t_h x = 20601)
    by (vm_compute; by eexists).
  destruct Hx as (x & Hx & Hk).
  assert (Hfr : forall k, full_map !! k <> Some 20600).
  { intros k Hk'. destruct (represents_entry _ _ _ _ Hr Hk') as [_ Hkk].
    unfold key_of in Hkk. rewrite Hx in Hkk. simpl in Hkk. injection Hkk as <-. rewrite Hk in Hk'.
    vm_compute in Hk'. discriminate Hk'. }
  rewrite <- Hk.
  exact (insert_without_memory full_map full_table 20600 x Hr Hx ltac:(lia)
           ltac:(rewrite Hk; vm_compute; reflexivity) Hfr
           ltac:(vm_compute; reflexivity) ltac:(vm_compute; reflexivity)).
Defined.
