(* ===== verification/XTree.v ===== *)
(** * Trees of extended regions

    Models the hierarchy of extended regions of lib/runtime_memory.c: creation
    ([_new_xregion]), the lock operation on a region and all its descendants
    ([__xregion_lockop]), the reference counts whose fall to zero releases a
    subtree ([__xregion_refcnt], [_xregion_cap], [_xregion_free]) and files
    attached to a region.  One thread runs at a time here: a lock that has to
    wait is the outcome [Blocked]; the interleaved behaviour of the lock of one
    region is in RwLock.v. *)

From S2P Require Import Prelude Alloc RwLock Region Hashtable.

(** ** State *)

Record Mapped : Type := mk_mapped {
  m_next : Z;
  m_begin : Z;
  m_size : Z;
  m_free : Z           (* the function to release it; 0 stands for [my_free] *)
}.

Record xst (H : Type) : Type := mk_xst {
  x_mem : mem H;
  x_tab : hstate;                (* the table of the thread and the tree handles *)
  x_self : Z;                    (* tcb()->tid *)
  x_mapped : gmap Z Mapped
}.
Arguments mk_xst {H} _ _ _ _.
Arguments x_mem {H} _.
Arguments x_tab {H} _.
Arguments x_self {H} _.
Arguments x_mapped {H} _.

Definition set_x_mem {H} (m : mem H) (s : xst H) : xst H :=
  mk_xst m (x_tab s) (x_self s) (x_mapped s).
Definition set_x_tab {H} (t : hstate) (s : xst H) : xst H :=
  mk_xst (x_mem s) t (x_self s) (x_mapped s).
Definition set_x_mapped {H} (mp : gmap Z Mapped) (s : xst H) : xst H :=
  mk_xst (x_mem s) (x_tab s) (x_self s) mp.

Definition set_parent_key (v : Z) (x : XTreeHandle) : XTreeHandle :=
  mk_xtree (t_h x) (t_next x) v (sub_keys x) (next_key x) (t_caps x).
Definition set_sub_keys (v : Z) (x : XTreeHandle) : XTreeHandle :=
  mk_xtree (t_h x) (t_next x) (parent_key x) v (next_key x) (t_caps x).
Definition set_next_key (v : Z) (x : XTreeHandle) : XTreeHandle :=
  mk_xtree (t_h x) (t_next x) (parent_key x) (sub_keys x) v (t_caps x).
Definition set_t_caps (l : LocalCaps) (x : XTreeHandle) : XTreeHandle :=
  mk_xtree (t_h x) (t_next x) (parent_key x) (sub_keys x) (next_key x) l.
Definition set_t_h (v : Z) (x : XTreeHandle) : XTreeHandle :=
  mk_xtree v (t_next x) (parent_key x) (sub_keys x) (next_key x) (t_caps x).

Definition sizeof_XRegionHandle : Z := 56.
Definition sizeof_Mapped : Z := 16.

Section ops.
Context {H : Type} `{Heap H}.

Definition on_xmem {A} (op : ST (mem H) A) : ST (xst H) A := fun s =>
  let '(o, m') := op (x_mem s) in (o, set_x_mem m' s).
Definition on_tab {A} (op : ST hstate A) : ST (xst H) A := fun s =>
  let '(o, t') := op (x_tab s) in (o, set_x_tab t' s).

Definition get_tree (p : Z) : ST (xst H) XTreeHandle := on_tab (get_ent p).
Definition put_tree (p : Z) (x : XTreeHandle) : ST (xst H) unit :=
  on_tab (modify (set_ent p x)).
Definition get_region (r : Z) : ST (xst H) XRegionHandle := on_xmem (get_xrgn r).
Definition put_region (r : Z) (x : XRegionHandle) : ST (xst H) unit :=
  on_xmem (modify (set_rgn r (AnXRegion x))).
Definition xassert (b : bool) (msg : string) : ST (xst H) unit := lift (cassert b msg).

(** The [get_tkey] macro of lib/runtime_internal.h. *)
Definition get_tkey (z : Z) : ST (xst H) Z :=
  xassert (100 <? z) "(void *)z > (void *)100";;
  h ← get_region z;
  ret ← (if (g_rcnt (caps h) =? 1) && negb (single_thread_key h =? 0)
         then mret (single_thread_key h)
         else on_tab (hashtable_search z));
  xassert (100 <? ret) "(void *)ret > (void *)100";;
  mret ret.

(** [malloc] of the C library, and [free] of something it returned. *)
Definition lib_alloc (n : Z) : ST (xst H) Z := on_xmem (on_heap (lib_malloc n)).
Definition lib_release (p : Z) : ST (xst H) unit := on_xmem (fun m =>
  match lib_live (heap m) !! p with
  | Some _ => (Ret tt, set_heap (lib_free p (heap m)) m)
  | None => (Undef, m)
  end).

(** ** Creation *)

(** The tree handle [tkey] is a variable of the caller; [ok] says whether the
    table of the thread can grow if it has to. *)
Definition _new_xregion (ok : bool) (parent idx tkey : Z) : ST (xst H) Z :=
  s ← get;
  let ret := mk_xregion 1 (mk_rcaps 1 0 (x_self s) 0 0 0 0) 0 0 0 tkey 0 in
  z ← lib_alloc sizeof_XRegionHandle;
  xassert (100 <? z) "(void *)z > (void *)100";;
  put_region z ret;;
  k ← (if negb (parent =? 0) then
         parent_tkey ← get_tkey parent;
         p ← get_tree parent_tkey;
         let next_k := sub_keys p in
         put_tree parent_tkey (set_sub_keys tkey p);;
         mret (parent_tkey, next_k, wr_cnt (t_caps p), rd_cnt (t_caps p))
       else mret (0, 0, 0, 0));
  let '(par, next_k, wr_par, rd_par) := k in
  put_tree tkey (mk_xtree z 0 par 0 next_k (mk_lcaps 1 (u16 (wr_par + 1)) rd_par));;
  on_tab (hashtable_insert ok tkey);;
  mret z.

(** ** The lock operation *)

(** The lock operation on the region of one tree handle: the part of
    [__xregion_lockop] after the loop over the children. *)
Definition lockop_node (tk write_lock read_lock : Z) : ST (xst H) unit :=
  s ← get;
  let self := x_self s in
  x ← get_tree tk;
  h ← get_region (t_h x);
  lift (lockop_entry self write_lock read_lock (caps h) (t_caps x));;
  if negb (g_lock (caps h) =? 0) then lift Blocked
  else
    r ← lift (lockop_section self write_lock read_lock false false (caps h) (t_caps x));
    let '(g', l', wait_wq, wait_rq, _) := r in
    put_tree tk (set_t_caps l' x);;
    put_region (t_h x) (x_set_caps g' h);;
    if wait_wq || wait_rq then lift Blocked else lift (lockop_exit l').

(** [siblings] distinguishes a call on [tk] from the loop over the list of
    children that starts at [tk]; the fuel bounds the number of calls. *)
Fixpoint lockop_tree (fuel : nat) (siblings : bool) (tk write_lock read_lock : Z)
    : ST (xst H) unit :=
  match fuel with
  | O => lift Undef
  | S fuel =>
      if siblings then
        if tk =? 0 then mret tt
        else
          lockop_tree fuel false tk write_lock read_lock;;
          x ← get_tree tk;
          lockop_tree fuel true (next_key x) write_lock read_lock
      else if (write_lock =? 0) && (read_lock =? 0) then mret tt
      else
        x ← get_tree tk;
        xassert (0 <? l_rcnt (t_caps x)) "*local_ref_cnt > 0";;
        lockop_tree fuel true (sub_keys x) write_lock read_lock;;
        lockop_node tk write_lock read_lock
  end.

(** Every tree handle is visited at most twice. *)
Definition __xregion_lockop (tk write_lock read_lock : Z) : ST (xst H) unit :=
  s ← get;
  lockop_tree (2 * size (ents (x_tab s)) + 2) false tk write_lock read_lock.

(** ** Release *)

(** The function a mapping was attached with, when it is not [my_free]. *)
Context (call_mfree : Z -> Z -> Z -> H -> H).

Definition run_mfree (m : Mapped) : ST (xst H) unit :=
  if m_free m =? 0 then lib_release (m_begin m)
  else on_xmem (modify (fun mm => set_heap (call_mfree (m_free m) (m_begin m) (m_size m) (heap mm)) mm)).

Fixpoint free_mapped (fuel : nat) (m : Z) : ST (xst H) unit :=
  if m =? 0 then mret tt
  else match fuel with
       | O => lift Undef
       | S fuel =>
           s ← get;
           mp ← lift (load (x_mapped s) m);
           run_mfree mp;;
           lib_release m;;
           modify (fun s => set_x_mapped (delete m (x_mapped s)) s);;
           free_mapped fuel (m_next mp)
       end.

Fixpoint free_xpages (fuel : nat) (p : Z) : ST (xst H) unit :=
  if p =? 0 then mret tt
  else match fuel with
       | O => lift Undef
       | S fuel =>
           s ← get;
           n ← lift (load (pages (x_mem s)) p);
           lib_release p;;
           on_xmem (modify (del_page p));;
           free_xpages fuel n
       end.

Definition del_region (r : Z) (m : mem H) : mem H :=
  mk_mem (heap m) (delete r (rgns m)) (pages m) (words m)
    (default_region_page_size m) (default_xregion_page_size m).

(** [memset(r,sizeof(struct _XRegionHandle),1)] overwrites one byte of a handle
    that is freed at once. *)
Definition _xregion_free (r : Z) : ST (xst H) unit :=
  if r =? 0 then lift (Exit "[RUNTIME _xregion_free] r is NULL.")
  else
    h ← get_region r;
    s ← get;
    free_mapped (S (size (x_mapped s))) (mapped h);;
    s ← get;
    free_xpages (S (size (pages (x_mem s)))) (x_curr h);;
    lib_release r;;
    on_xmem (modify (del_region r)).

(** Unlinking [tk] from the children of its parent: the loop finds the sibling
    before [tk]. *)
Fixpoint find_prev (fuel : nat) (tk iter prev : Z) : ST (xst H) Z :=
  if (iter =? 0) || (iter =? tk) then mret prev
  else match fuel with
       | O => lift Undef
       | S fuel => x ← get_tree iter; find_prev fuel tk (next_key x) iter
       end.

Definition unlink_from_parent (tk : Z) : ST (xst H) unit :=
  x ← get_tree tk;
  if parent_key x =? 0 then mret tt
  else
    p ← get_tree (parent_key x);
    s ← get;
    prev ← find_prev (S (size (ents (x_tab s)))) tk (sub_keys p) 0;
    (if prev =? 0 then put_tree (parent_key x) (set_sub_keys (next_key x) p)
     else pv ← get_tree prev; put_tree prev (set_next_key (next_key x) pv));;
    x' ← get_tree tk;
    put_tree tk (set_parent_key 0 x').

(** The reference count of [tk] changes by [rg]; at zero the subtree, its locks
    and, with the last thread, the region itself are released.  Returns whether
    [tk] is still referenced.  [siblings] is the loop over the children. *)
Fixpoint refcnt_tree (fuel : nat) (siblings : bool) (tk rg : Z) : ST (xst H) Z :=
  match fuel with
  | O => lift Undef
  | S fuel =>
      if siblings then
        if tk =? 0 then mret 0
        else
          x ← get_tree tk;
          refcnt_tree fuel false tk (- l_rcnt (t_caps x));;
          x' ← get_tree tk;
          refcnt_tree fuel true (next_key x') 0
      else
        x ← get_tree tk;
        let h := t_h x in
        r ← get_region h;
        xassert (0 <? l_rcnt (t_caps x)) "*rcnt > 0";;
        xassert (0 <=? l_rcnt (t_caps x) + rg) "*rcnt + rg >= 0";;
        xassert (0 <? g_rcnt (caps r)) "*g_rcnt > 0";;
        if 0 <? l_rcnt (t_caps x) + rg then
          put_tree tk (set_t_caps (set_l_rcnt (u16 (l_rcnt (t_caps x) + rg)) (t_caps x)) x);;
          mret 1
        else
          on_tab (hashtable_remove true h);;
          refcnt_tree fuel true (sub_keys x) 0;;
          x1 ← get_tree tk;
          __xregion_lockop tk (- wr_cnt (t_caps x1)) (- rd_cnt (t_caps x1));;
          unlink_from_parent tk;;
          x2 ← get_tree tk;
          put_tree tk (set_t_caps (set_l_rcnt 0 (t_caps x2)) x2);;
          r ← get_region h;
          let prev_cnt := g_rcnt (caps r) in
          put_region h (x_set_caps (set_g_rcnt (u32 (prev_cnt - 1)) (caps r)) r);;
          (if prev_cnt =? 1 then
             _xregion_free h;;
             x3 ← get_tree tk;
             put_tree tk (set_t_h 0 x3)
           else mret tt);;
          mret 0
  end.

Definition __xregion_refcnt (tk rg : Z) : ST (xst H) Z :=
  s ← get; refcnt_tree (2 * size (ents (x_tab s)) + 2) false tk rg.

Definition _xregion_cap_th (rgc wc rc t : Z) : ST (xst H) unit :=
  b ← __xregion_refcnt t rgc;
  if negb (b =? 0) && (negb (wc =? 0) || negb (rc =? 0)) then __xregion_lockop t wc rc
  else mret tt.

Definition _xregion_cap (h rgc wc rc : Z) : ST (xst H) unit :=
  t ← get_tkey h; _xregion_cap_th rgc wc rc t.

(** ** Attached files *)

Definition attach_region (r arg len fn : Z) : ST (xst H) unit :=
  m ← lib_alloc sizeof_Mapped;
  if m =? 0 then lift Undef
  else
    s ← get;
    on_xmem (wait_lock (x_self s) r);;
    h ← get_region r;
    modify (fun s => set_x_mapped (<[m := mk_mapped (mapped h) arg len fn]> (x_mapped s)) s);;
    put_region r (mk_xregion (x_is_xrgn h) (caps h) (x_curr h) (x_offset h) (x_last_plus_one h)
                    (single_thread_key h) m);;
    on_xmem (unlock (x_self s) r).
End ops.
