(* ===== verification/XTreeSpec.v ===== *)
(** * Correctness of the operations on region trees

    The children of a tree handle form a forest, linked through [sub_keys] and
    [next_key].  The lock operation on a handle is the lock operation on each
    region of its subtree in post-order; a thread that holds the whole subtree
    for writing never waits. *)

From S2P Require Import Prelude Alloc RwLock Region Hashtable HashtableSpec XTree.

(** First child, next sibling. *)
Inductive forest : Type := FNil | FCons (tk : Z) (children rest : forest).

Fixpoint forest_at (en : gmap Z XTreeHandle) (c : Z) (f : forest) : Prop :=
  match f with
  | FNil => c = 0
  | FCons k cs r => c = k /\ k <> 0 /\ exists x, en !! k = Some x /\
      forest_at en (sub_keys x) cs /\ forest_at en (next_key x) r
  end.

Fixpoint postorder (f : forest) : list Z :=
  match f with FNil => [] | FCons k cs r => postorder cs ++ k :: postorder r end.

(** What the lock operation does not change: everything but the lock counts. *)
Definition skeleton (x : XTreeHandle) : XTreeHandle :=
  set_t_caps (mk_lcaps (l_rcnt (t_caps x)) 0 0) x.

Definition same_skeleton (en en' : gmap Z XTreeHandle) : Prop :=
  forall p, skeleton <$> en' !! p = skeleton <$> en !! p.

#[export] Instance same_skeleton_equiv : Equivalence same_skeleton.
Proof.
  split; [by intros en p|by intros en en' He p|]. intros e1 e2 e3 H1 H2 p. by rewrite (H2 p), (H1 p).
Qed.

Lemma skeleton_lookup en en' p x : same_skeleton en en' -> en !! p = Some x ->
  exists x', en' !! p = Some x' /\ skeleton x' = skeleton x.
Proof.
  intros Hs Hx. specialize (Hs p). rewrite Hx in Hs. destruct (en' !! p) as [x'|]; [|done].
  exists x'. simpl in Hs. split; [done|congruence].
Qed.

Lemma skeleton_fields x x' : skeleton x' = skeleton x ->
  t_h x' = t_h x /\ sub_keys x' = sub_keys x /\ next_key x' = next_key x /\
  l_rcnt (t_caps x') = l_rcnt (t_caps x).
Proof. destruct x, x'. unfold skeleton, set_t_caps. simpl. intros. by simplify_eq. Qed.

Lemma forest_at_skeleton en en' c f : same_skeleton en en' -> forest_at en c f -> forest_at en' c f.
Proof.
  intros Hs. revert c. induction f as [|k cs IHc r IHr]; intros c; [done|].
  intros (-> & Hk & x & Hx & Hc & Hr). destruct (skeleton_lookup _ _ _ _ Hs Hx) as (x' & Hx' & Hsk).
  destruct (skeleton_fields _ _ Hsk) as (_ & E1 & E2 & _).
  split_and!; [done|done|]. exists x'. rewrite E1, E2. auto.
Qed.

Section lemmas.
Context {H : Type} `{Heap H}.
Implicit Types s : xst H.

Definition rcnts_pos (en : gmap Z XTreeHandle) (ks : list Z) : Prop :=
  forall k x, k ∈ ks -> en !! k = Some x -> 0 < l_rcnt (t_caps x).

Lemma rcnts_pos_skeleton en en' ks : same_skeleton en en' -> rcnts_pos en ks -> rcnts_pos en' ks.
Proof.
  intros Hs Hp k x' Hk Hx'. symmetry in Hs.
  destruct (skeleton_lookup _ _ _ _ Hs Hx') as (x & Hx & Hsk).
  destruct (skeleton_fields _ _ Hsk) as (_ & _ & _ & E). rewrite <- E. eauto.
Qed.

Lemma get_tree_Ret s p x : ents (x_tab s) !! p = Some x -> get_tree p s = (Ret x, s).
Proof.
  intros Hp. unfold get_tree, on_tab. rewrite (get_ent_Ret _ _ _ Hp). by destruct s.
Qed.

(** The critical section keeps the local reference count. *)
Lemma lockop_section_rcnt self wl rl wq rq g l g' l' wq' rq' w :
  lockop_section self wl rl wq rq g l = Ret (g', l', wq', rq', w) -> l_rcnt l' = l_rcnt l.
Proof.
  unfold lockop_section, write_part, read_part, wake_part, set_wr_cnt, set_rd_cnt. intros He.
  repeat (case_match; simplify_eq); unfold mbind, out_bind, cassert in He;
    repeat (case_match; simplify_eq); done.
Qed.

Lemma lockop_node_skeleton tk wl rl s s' o : lockop_node tk wl rl s = (o, s') ->
  same_skeleton (ents (x_tab s)) (ents (x_tab s')).
Proof.
  unfold lockop_node, get, lift. unfold mbind, st_bind.
  unfold get_tree, on_tab, get_ent, get, lift, load, mbind, st_bind.
  destruct (ents (x_tab s) !! tk) as [x|] eqn:Hx; [|intros He; simplify_eq; by destruct s].
  replace (set_x_tab (x_tab s) s) with s by (by destruct s).
  unfold get_region, on_xmem.
  destruct (get_xrgn (t_h x) (x_mem s)) as [[h| | | |] m1] eqn:Hr;
    try (intros He; by simplify_eq).
  destruct (lockop_entry _ _ _ _ _); try (intros He; by simplify_eq).
  destruct (negb _); [intros He; by simplify_eq|].
  destruct (lockop_section _ _ _ _ _ _ _) as [[[[[g' l'] wq] rq] w]| | | |] eqn:Hs;
    try (intros He; by simplify_eq).
  apply lockop_section_rcnt in Hs. unfold put_tree, put_region, on_tab, on_xmem, modify. simpl.
  assert (Hsk : same_skeleton (ents (x_tab s)) (<[tk := set_t_caps l' x]> (ents (x_tab s)))).
  { intros p. rewrite lookup_insert. case_decide; [|done]. subst. rewrite Hx. simpl.
    unfold skeleton, set_t_caps. simpl. by rewrite Hs. }
  destruct (_ || _); [intros He; by simplify_eq|].
  unfold lift. intros He. by simplify_eq.
Qed.

(** The lock operation on a list of handles, one after the other. *)
Fixpoint lock_list (ks : list Z) (wl rl : Z) : ST (xst H) unit :=
  match ks with
  | [] => mret tt
  | k :: ks => lockop_node k wl rl;; lock_list ks wl rl
  end.

Lemma lock_list_app ks1 ks2 wl rl s :
  lock_list (ks1 ++ ks2) wl rl s = (lock_list ks1 wl rl;; lock_list ks2 wl rl) s.
Proof.
  revert s. induction ks1 as [|k ks1 IH]; intros s; simpl; [done|].
  unfold mbind, st_bind. destruct (lockop_node k wl rl s) as [[] s1]; [apply IH|done..].
Qed.

Lemma lock_list_skeleton ks wl rl s s' o : lock_list ks wl rl s = (o, s') ->
  same_skeleton (ents (x_tab s)) (ents (x_tab s')).
Proof.
  revert s. induction ks as [|k ks IH]; intros s; simpl.
  - intros He. unfold mret, st_ret in He. by simplify_eq.
  - unfold mbind, st_bind. destruct (lockop_node k wl rl s) as [o1 s1] eqn:E.
    apply lockop_node_skeleton in E. intros He. etrans; [exact E|].
    destruct o1; [by eapply IH|by simplify_eq..].
Qed.

Fixpoint forest_size (f : forest) : nat :=
  match f with FNil => 0 | FCons _ cs r => S (forest_size cs + forest_size r) end.

Lemma postorder_length f : length (postorder f) = forest_size f.
Proof. induction f as [|k cs IH1 r IH2]; simpl; [done|]. rewrite length_app. simpl. lia. Qed.

Lemma lockop_forest fuel c f wl rl s : forest_at (ents (x_tab s)) c f ->
  rcnts_pos (ents (x_tab s)) (postorder f) -> wl <> 0 \/ rl <> 0 -> (2 * forest_size f < fuel)%nat ->
  lockop_tree fuel true c wl rl s = lock_list (postorder f) wl rl s.
Proof.
  intros Hf Hp Hw. revert fuel c s Hf Hp.
  induction f as [|k cs IHc r IHr]; intros fuel c s Hf Hp Hfu; simpl in Hfu;
    (destruct fuel as [|fuel]; [lia|]); simpl in Hf.
  { subst c. done. }
  destruct Hf as (-> & Hk & x & Hx & Hc & Hr). destruct fuel as [|fuel]; [lia|].
  cbn [lockop_tree postorder]. rewrite (proj2 (Z.eqb_neq _ _) Hk).
  assert (Hz : (wl =? 0) && (rl =? 0) = false) by lia. rewrite Hz, lock_list_app.
  assert (Hpx : 0 < l_rcnt (t_caps x)).
  { eapply Hp; [|exact Hx]. cbn [postorder]. apply elem_of_app. right. left. }
  unfold mbind, st_bind. rewrite (get_tree_Ret s k x Hx). unfold xassert, lift, cassert.
  rewrite (proj2 (Z.ltb_lt _ _) Hpx). rewrite (IHc fuel (sub_keys x) s Hc); [|..|lia].
  2: { intros k' x' Hk' Hx'. eapply Hp; [|exact Hx']. simpl. apply elem_of_app. by left. }
  destruct (lock_list (postorder cs) wl rl s) as [o1 s1] eqn:E1.
  pose proof (lock_list_skeleton _ _ _ _ _ _ E1) as Hs1. destruct o1; try done. cbn [lock_list].
  unfold mbind, st_bind. destruct (lockop_node k wl rl s1) as [o2 s2] eqn:E2.
  pose proof (lockop_node_skeleton _ _ _ _ _ _ E2) as Hs2. destruct o2; try done.
  assert (Hs : same_skeleton (ents (x_tab s)) (ents (x_tab s2))) by (by etrans).
  destruct (skeleton_lookup _ _ _ _ Hs Hx) as (x2 & Hx2 & Hsk).
  destruct (skeleton_fields _ _ Hsk) as (_ & _ & E & _).
  rewrite (get_tree_Ret s2 k x2 Hx2), E.
  change (lockop_tree (S fuel) true (next_key x) wl rl s2 = lock_list (postorder r) wl rl s2).
  apply IHr; [..|lia].
  - by eapply forest_at_skeleton.
  - eapply rcnts_pos_skeleton; [exact Hs|]. intros k' x' Hk' Hx'. eapply Hp; [|exact Hx'].
    simpl. apply elem_of_app. right. by right.
Qed.

Lemma forest_dom en c f k : forest_at en c f -> k ∈ postorder f -> is_Some (en !! k).
Proof.
  revert c. induction f as [|k' cs IHc r IHr]; intros c Hf Hk; [by apply not_elem_of_nil in Hk|].
  destruct Hf as (-> & _ & x & Hx & Hc & Hr). simpl in Hk.
  apply elem_of_app in Hk as [Hk|Hk]; [eauto|]. apply elem_of_cons in Hk as [-> |Hk]; eauto.
Qed.

Lemma lockop_subtree tk x cs wl rl s : ents (x_tab s) !! tk = Some x ->
  forest_at (ents (x_tab s)) (sub_keys x) cs -> NoDup (postorder cs) ->
  rcnts_pos (ents (x_tab s)) (postorder cs ++ [tk]) -> wl <> 0 \/ rl <> 0 ->
  __xregion_lockop tk wl rl s = lock_list (postorder cs ++ [tk]) wl rl s.
Proof.
  intros Hx Hf Hnd Hp Hw. unfold __xregion_lockop. run_step (eq_refl (Ret s, s) : get s = _).
  assert (Hsz : (forest_size cs <= size (ents (x_tab s)))%nat).
  { rewrite <- postorder_length, <- size_dom, <- (size_list_to_set (C:=gset Z) _ Hnd).
    apply subseteq_size. intros k. rewrite elem_of_list_to_set, elem_of_dom. intros Hk.
    by eapply forest_dom. }
  replace (2 * size (ents (x_tab s)) + 2)%nat with (S (S (2 * size (ents (x_tab s))))) by lia.
  set (fu := S (2 * size (ents (x_tab s)))).
  change (lockop_tree (S fu) false tk wl rl s) with
    ((if (wl =? 0) && (rl =? 0) then mret tt else
      x ← get_tree tk; xassert (0 <? l_rcnt (t_caps x)) "*local_ref_cnt > 0";;
      lockop_tree fu true (sub_keys x) wl rl;; lockop_node tk wl rl) s).
  assert (Hz : (wl =? 0) && (rl =? 0) = false) by lia. rewrite Hz.
  run_step (get_tree_Ret s tk x Hx).
  assert (Hpx : 0 < l_rcnt (t_caps x)).
  { eapply Hp; [|exact Hx]. apply elem_of_app. right. by apply list_elem_of_singleton. }
  assert (Ha : xassert (0 <? l_rcnt (t_caps x)) "*local_ref_cnt > 0" s = (Ret tt, s)).
  { unfold xassert, lift, cassert. by rewrite (proj2 (Z.ltb_lt _ _) Hpx). }
  run_step Ha. rewrite lock_list_app. unfold mbind, st_bind.
  rewrite (lockop_forest fu (sub_keys x) cs wl rl s); [|done|..|done|unfold fu; lia].
  2: { intros k y Hk Hy. eapply Hp; [|exact Hy]. apply elem_of_app. by left. }
  destruct (lock_list (postorder cs) wl rl s) as [o1 s1]; destruct o1; try done. simpl.
  unfold mbind, st_bind. destruct (lockop_node tk wl rl s1) as [[[]| | | |] s2]; done.
Qed.

(** C30. The lock operation on a region tree is the lock operation on every
    region of the subtree, children before their parent and in the order of the
    sibling lists, each exactly once, ending at the first one that has to wait
    or fails; the fuel of the model is always enough.  The subtree is a forest
    of distinct handles with positive reference counts and the request is not
    empty.  The order is that of the code, whose first step is the loop over the
    sub-regions; the note above the function in runtime_memory.c says that
    locking must be top-down or a deadlock may occur. *)
Theorem lockop_postorder tk x cs wl rl s :
  ents (x_tab s) !! tk = Some x -> forest_at (ents (x_tab s)) (sub_keys x) cs ->
  NoDup (postorder cs) -> rcnts_pos (ents (x_tab s)) (postorder cs ++ [tk]) ->
  wl <> 0 \/ rl <> 0 ->
  __xregion_lockop tk wl rl s = lock_list (postorder cs ++ [tk]) wl rl s.
Proof. apply lockop_subtree. Qed.

(** ** A thread that writes does not wait *)

(** The thread [self] holds region handle [k] for writing, with write count [w]
    and read count [r]; no other thread holds it. *)
Definition held_by (self : Z) (g : RegionCaps) (l : LocalCaps) (w r : Z) : Prop :=
  self <> 0 /\ writer_cv g = self /\ g_lock g = 0 /\ 0 < l_rcnt l /\
  wr_cnt l = w /\ rd_cnt l = r /\ 0 < w < 32768 /\ 0 <= r < 32768 /\
  g_rd_cnt g = (if r =? 0 then 0 else 1).

Lemma held_assert self g l w r : held_by self g l w r -> writer_assert self g l = true.
Proof.
  intros (Hs & Hw & _ & _ & Hwc & Hrc & Hwr & Hrr & Hg). unfold writer_assert, lwr, lrd, grd.
  rewrite Hw, Hwc, Hrc, Hg, Z.eqb_refl, !i16_small by lia.
  assert ((0 <? w) = true) as -> by lia. destruct (r =? 0) eqn:E; simpl; by rewrite ?E.
Qed.

Lemma held_entry self g l w r wl rl : held_by self g l w r -> 0 < w + wl -> 0 <= r + rl ->
  lockop_entry self wl rl g l = Ret tt.
Proof.
  intros Hh H1 H2. pose proof (held_assert _ _ _ _ _ Hh) as Ha.
  destruct Hh as (Hs & Hw & _ & Hrc & Hwc & Hrd & Hwr & Hrr & Hg).
  unfold lockop_entry, cassert. rewrite Ha. unfold lwr, lrd. rewrite Hwc, Hrd, !i16_small by lia.
  assert ((0 <? l_rcnt l) = true) as -> by lia. assert ((0 <=? w) = true) as -> by lia.
  assert ((0 <=? r) = true) as -> by lia. assert ((0 <=? w + wl) = true) as -> by lia.
  by assert ((0 <=? r + rl) = true) as -> by lia.
Qed.

Lemma held_write self g l w r wl : held_by self g l w r -> 0 < w + wl < 32768 ->
  exists l', write_part self wl g l = (g, l', false) /\ held_by self g l' (w + wl) r.
Proof.
  intros (Hs & Hw & Hl & Hrc & Hwc & Hrd & Hwr & Hrr & Hg) H1. unfold write_part, lwr.
  destruct (wl =? 0) eqn:E.
  { exists l. split; [done|]. assert (wl = 0) as -> by lia. rewrite Z.add_0_r. done. }
  rewrite Hwc, i16_small by lia. assert (negb (w =? 0) = true) as -> by lia.
  exists (set_wr_cnt (w + wl) l). split.
  - simpl. rewrite u16_small, i16_small by lia. by assert ((w + wl =? 0) = false) as -> by lia.
  - unfold held_by. simpl. split_and!; try done; lia.
Qed.

Lemma held_read self g l w r rl : held_by self g l w r -> 0 <= r + rl < 32768 ->
  exists g' l', read_part self rl g l = (g', l', false) /\ held_by self g' l' w (r + rl).
Proof.
  intros (Hs & Hw & Hl & Hrc & Hwc & Hrd & Hwr & Hrr & Hg) H1. unfold read_part, lrd, grd.
  destruct (rl =? 0) eqn:E.
  { exists g, l. split; [done|]. assert (rl = 0) as -> by lia. rewrite Z.add_0_r. done. }
  rewrite Hrd, Hg, i16_small by lia. destruct (r =? 0) eqn:Er; cbn [negb].
  - rewrite Hw, Z.eqb_refl. simpl. eexists _, _. split; [done|].
    assert ((r + rl =? 0) = false) as Hz by lia.
    unfold held_by. simpl. rewrite Hz, u16_small by lia. split_and!; try done; lia.
  - exists (if r + rl =? 0 then set_g_rd_cnt 0 g else g), (set_rd_cnt (r + rl) l). split.
    + simpl. rewrite u16_small, i16_small by lia. by destruct (r + rl =? 0).
    + unfold held_by. destruct (r + rl =? 0) eqn:Ez; simpl; split_and!; try done; lia.
Qed.

Lemma held_section self g l w r wl rl : held_by self g l w r -> 0 < w + wl < 32768 ->
  0 <= r + rl < 32768 ->
  exists g' l', lockop_section self wl rl false false g l = Ret (g', l', false, false, WakeNone) /\
    held_by self g' l' (w + wl) (r + rl).
Proof.
  intros Hh H1 H2. destruct (held_write _ _ _ _ _ wl Hh H1) as (l1 & E1 & Hh1).
  destruct (held_read _ _ _ _ _ rl Hh1 H2) as (g2 & l2 & E2 & Hh2).
  exists g2, l2. unfold lockop_section. cbn [leave_queue]. rewrite E1, E2. unfold wake_part.
  pose proof Hh2 as (Hs & Hw & _). rewrite Hw, (proj2 (Z.eqb_neq _ _) Hs).
  by rewrite (held_assert _ _ _ _ _ Hh2).
Qed.

(** [k] is held for writing in the state. *)
Definition held (s : xst H) (k w r : Z) : Prop :=
  exists x h, ents (x_tab s) !! k = Some x /\ rgns (x_mem s) !! t_h x = Some (AnXRegion h) /\
    held_by (x_self s) (caps h) (t_caps x) w r.

Lemma get_region_Ret s r x : rgns (x_mem s) !! r = Some (AnXRegion x) -> get_region r s = (Ret x, s).
Proof.
  intros Hr. unfold get_region, on_xmem, get_xrgn, get_rgn, get, lift, load, mbind, st_bind.
  rewrite Hr. by destruct s.
Qed.

Lemma held_node s k w r wl rl : held s k w r -> 0 < w + wl < 32768 -> 0 <= r + rl < 32768 ->
  exists s', lockop_node k wl rl s = (Ret tt, s') /\ held s' k (w + wl) (r + rl) /\
    x_self s' = x_self s /\
    (forall p, t_h <$> ents (x_tab s') !! p = t_h <$> ents (x_tab s) !! p) /\
    (forall p, p <> k -> ents (x_tab s') !! p = ents (x_tab s) !! p) /\
    (forall x p, ents (x_tab s) !! k = Some x -> p <> t_h x -> rgns (x_mem s') !! p = rgns (x_mem s) !! p).
Proof.
  intros (x & h & Hx & Hr & Hh) H1 H2.
  destruct (held_section _ _ _ _ _ wl rl Hh H1 H2) as (g' & l' & E & Hh').
  eexists. split; [|split_and!].
  - unfold lockop_node. run_step (eq_refl (Ret s, s) : get s = _). run_step (get_tree_Ret s k x Hx).
    run_step (get_region_Ret s _ h Hr).
    assert (He : lift (lockop_entry (x_self s) wl rl (caps h) (t_caps x)) s = (Ret tt, s)).
    { unfold lift. by rewrite (held_entry _ _ _ _ _ wl rl Hh) by lia. }
    run_step He. pose proof Hh as (_ & _ & Hl & _). rewrite Hl. cbn [Z.eqb negb].
    assert (Hs : lift (lockop_section (x_self s) wl rl false false (caps h) (t_caps x)) s
                 = (Ret (g', l', false, false, WakeNone), s)) by (unfold lift; by rewrite E).
    run_step Hs. unfold put_tree, put_region, on_tab, on_xmem, modify, mbind, st_bind. cbn.
    destruct Hh' as (_ & _ & _ & _ & Hw' & Hr' & Hwr & Hrr & _).
    unfold lockop_exit, cassert, lwr, lrd, lift. rewrite Hw', Hr', !i16_small by lia.
    assert ((0 <=? w + wl) = true) as -> by lia.
    by assert ((0 <=? r + rl) = true) as -> by lia.
  - exists (set_t_caps l' x), (x_set_caps g' h). simpl. by rewrite !lookup_insert_eq.
  - done.
  - intros p. simpl. rewrite lookup_insert. case_decide; [|done]. subst. by rewrite Hx.
  - intros p Hp. simpl. by rewrite lookup_insert_ne.
  - intros x' p Hx' Hp. simplify_eq. simpl. by rewrite lookup_insert_ne.
Qed.

(** Two handles of the list are handles of two regions. *)
Definition regions_differ (s : xst H) (ks : list Z) : Prop :=
  forall k1 k2 x1 x2, k1 ∈ ks -> k2 ∈ ks -> ents (x_tab s) !! k1 = Some x1 ->
    ents (x_tab s) !! k2 = Some x2 -> t_h x1 = t_h x2 -> k1 = k2.

Lemma held_other s s' k k' w r x : held s k w r -> k <> k' -> ents (x_tab s) !! k' = Some x ->
  (forall y, ents (x_tab s) !! k = Some y -> t_h y <> t_h x) -> x_self s' = x_self s ->
  (forall p, p <> k' -> ents (x_tab s') !! p = ents (x_tab s) !! p) ->
  (forall p, p <> t_h x -> rgns (x_mem s') !! p = rgns (x_mem s) !! p) -> held s' k w r.
Proof.
  intros (y & h & Hy & Hr & Hh) Hne Hx Hd Hs He Hg. exists y, h.
  rewrite He, Hg, Hs by (try done; by apply Hd). done.
Qed.

Lemma held_list ks wl rl s (w r : Z -> Z) : NoDup ks -> regions_differ s ks ->
  (forall k, k ∈ ks -> held s k (w k) (r k) /\ 0 < w k + wl < 32768 /\ 0 <= r k + rl < 32768) ->
  exists s', lock_list ks wl rl s = (Ret tt, s') /\
    (forall k, k ∈ ks -> held s' k (w k + wl) (r k + rl)) /\ x_self s' = x_self s /\
    (forall p, p ∉ ks -> ents (x_tab s') !! p = ents (x_tab s) !! p) /\
    (forall p, (forall k x, k ∈ ks -> ents (x_tab s) !! k = Some x -> p <> t_h x) ->
       rgns (x_mem s') !! p = rgns (x_mem s) !! p).
Proof.
  revert s. induction ks as [|k ks IH]; intros s Hnd Hd Hh.
  { exists s. split_and!; try done. intros k Hk. by apply not_elem_of_nil in Hk. }
  apply NoDup_cons in Hnd as [Hk Hnd]. destruct (Hh k ltac:(left)) as (Hhk & H1 & H2).
  destruct (held_node s k _ _ wl rl Hhk H1 H2) as (s1 & E1 & Hh1 & Hs1 & Ht1 & He1 & Hg1).
  pose proof Hhk as (x & h & Hx & _).
  assert (Hother : forall k', k' ∈ ks -> k' <> k) by (intros k' Hk' ->; done).
  assert (Hapart : forall k' y, k' ∈ ks -> ents (x_tab s) !! k' = Some y -> t_h y <> t_h x).
  { intros k' y Hk' Hy Hty. apply (Hother k' Hk'). apply (Hd k' k y x); [by right|left|done..]. }
  destruct (IH s1 Hnd) as (s2 & E2 & Hh2 & Hs2 & He2 & Hg2).
  - intros k1 k2 x1 x2 Hk1 Hk2. rewrite !He1 by auto. intros Hx1 Hx2.
    apply (Hd k1 k2 x1 x2); [by right|by right|done|done].
  - intros k' Hk'. destruct (Hh k' ltac:(by right)) as (Hhk' & ? & ?). split; [|done].
    apply (held_other s s1 k' k _ _ x Hhk'); try done; [by apply Hother|by eauto|by eauto].
  - exists s2. simpl. unfold mbind, st_bind. rewrite E1. split_and!; [done|..|congruence| |].
    + intros k' Hk'. apply elem_of_cons in Hk' as [-> |Hk']; [|by apply Hh2].
      destruct Hh1 as (x1 & h1 & Hx1 & Hr1 & Hb1). exists x1, h1.
      rewrite He2, Hg2, Hs2; [done| |done]. intros k' y Hk' Hy.
      assert (Hty : t_h x1 = t_h x) by (specialize (Ht1 k); rewrite Hx1, Hx in Ht1; by simplify_eq/=).
      rewrite He1 in Hy by auto. rewrite Hty. intros Heq. by apply (Hapart k' y).
    + intros p Hp. apply not_elem_of_cons in Hp as [Hp1 Hp2]. by rewrite He2, He1.
    + intros p Hp. rewrite Hg2, (Hg1 x); [done|done| |].
      * apply (Hp k); [left|done].
      * intros k' y Hk' Hy. rewrite He1 in Hy by auto. apply (Hp k'); [by right|done].
Qed.

(** C31. A thread that holds a region and all its descendants for writing, with
    the mutex of each region free, never waits in a lock operation on it that
    leaves it some write count on every region (not in the release of the last
    one) and keeps its write and read counts from 0 to 32767: the operation
    returns and adds the requested counts to every region of the subtree, which
    the thread still holds.  The handles of the subtree are distinct and belong
    to distinct regions, and the request is not empty. *)
Theorem writer_never_waits tk x cs wl rl s (w r : Z -> Z) :
  ents (x_tab s) !! tk = Some x -> forest_at (ents (x_tab s)) (sub_keys x) cs ->
  NoDup (postorder cs ++ [tk]) -> regions_differ s (postorder cs ++ [tk]) ->
  wl <> 0 \/ rl <> 0 ->
  (forall k, k ∈ postorder cs ++ [tk] ->
     held s k (w k) (r k) /\ 0 < w k + wl < 32768 /\ 0 <= r k + rl < 32768) ->
  exists s', __xregion_lockop tk wl rl s = (Ret tt, s') /\
    forall k, k ∈ postorder cs ++ [tk] -> held s' k (w k + wl) (r k + rl).
Proof.
  intros Hx Hf Hnd Hd Hw Hh.
  rewrite (lockop_subtree tk x cs wl rl s Hx Hf); [|by apply NoDup_app in Hnd as (? & _)| |done].
  - destruct (held_list _ wl rl s w r Hnd Hd Hh) as (s' & He & Hh' & _). by exists s'.
  - intros k y Hk Hy. destruct (Hh k Hk) as ((y' & h & Hy' & _ & Hb) & _). simplify_eq.
    by destruct Hb as (_ & _ & _ & ? & _).
Qed.
End lemmas.

(** ** A region with one child, both held by thread 7 *)

Definition ex_caps : RegionCaps := mk_rcaps 1 0 7 0 0 0 0.
Definition ex_xrgn (key : Z) : rgn := AnXRegion (mk_xregion 1 ex_caps 0 0 0 key 0).
Definition ex_parent : XTreeHandle := mk_xtree 4096 0 0 2008 0 (mk_lcaps 1 1 0).
Definition ex_child : XTreeHandle := mk_xtree 4160 0 2000 0 0 (mk_lcaps 1 2 0).
Definition ex_ents : gmap Z XTreeHandle := <[2000 := ex_parent]> (<[2008 := ex_child]> ∅).
Definition ex_tree : xst bump :=
  mk_xst (mk_mem empty_bump (<[4096 := ex_xrgn 2000]> (<[4160 := ex_xrgn 2008]> ∅)) ∅ ∅ 256 256)
    (mk_hstate (mk_hashtable 0 0 0 53 0 106 26 0 (replicate 53 0)) ex_ents) 7 ∅.

Lemma ex_forest : forest_at ex_ents 2008 (FCons 2008 FNil FNil).
Proof. simpl. split; [done|]. split; [lia|]. exists ex_child. by vm_compute. Qed.

Lemma ex_keys k : k ∈ [2008; 2000] -> k = 2008 \/ k = 2000.
Proof. intros Hk. apply elem_of_cons in Hk as [->|Hk]; [by left|]. apply list_elem_of_singleton in Hk. by right. Qed.

Lemma lockop_postorder_witness :
  __xregion_lockop 2000 1 0 ex_tree = lock_list [2008; 2000] 1 0 ex_tree.
Proof.
  apply (lockop_postorder 2000 ex_parent (FCons 2008 FNil FNil) 1 0 ex_tree).
  - by vm_compute.
  - exact ex_forest.
  - simpl. apply NoDup_singleton.
  - intros k x Hk. simpl in Hk. destruct (ex_keys k Hk) as [->| ->]; vm_compute; intros; by simplify_eq.
  - left. lia.
Defined.

Lemma ex_held k : k ∈ [2008; 2000] ->
  held ex_tree k (if k =? 2008 then 2 else 1) 0 /\
  0 < (if k =? 2008 then 2 else 1) + 1 < 32768 /\ 0 <= 0 + 0 < 32768.
Proof.
  intros Hk. destruct (ex_keys k Hk) as [->| ->]; (split; [|simpl; lia]).
  - exists ex_child, (mk_xregion 1 ex_caps 0 0 0 2008 0).
    split; [by vm_compute|]. split; [by vm_compute|]. unfold held_by. split_and!; try done; simpl; lia.
  - exists ex_parent, (mk_xregion 1 ex_caps 0 0 0 2000 0).
    split; [by vm_compute|]. split; [by vm_compute|]. unfold held_by. split_and!; try done; simpl; lia.
Qed.

Lemma writer_never_waits_witness :
  exists s', __xregion_lockop 2000 1 0 ex_tree = (Ret tt, s') /\ held s' 2000 2 0 /\ held s' 2008 3 0.
Proof.
  destruct (writer_never_waits 2000 ex_parent (FCons 2008 FNil FNil) 1 0 ex_tree
              (fun k => if k =? 2008 then 2 else 1) (fun _ => 0)) as (s' & He & Hh).
  - by vm_compute.
  - exact ex_forest.
  - apply NoDup_cons. split; [|apply NoDup_singleton]. intros Hk. by apply list_elem_of_singleton in Hk.
  - intros k1 k2 x1 x2 Hk1 Hk2. destruct (ex_keys k1 Hk1) as [->| ->], (ex_keys k2 Hk2) as [->| ->];
      vm_compute; intros; by simplify_eq.
  - left. lia.
  - exact ex_held.
  - exists s'. split; [exact He|]. split.
    + apply (Hh 2000). right. by left.
    + apply (Hh 2008). left.
Defined.
