(* ===== verification/Spawn.v ===== *)
(** * Creation of threads

    Models lib/runtime_stack.c from thread identifiers to [_xspawn]: the
    capabilities passed to a new thread are merged per region, a copy of the
    tree handles is made in the block of the new thread, and the counts are
    moved from the spawning thread to the new one.  The code runs in the
    spawning thread; results of the pthread calls are inputs. *)

From S2P Require Import Prelude Alloc RwLock Region Hashtable XTree.

(** ** Data *)

(** A capability: the region (or, after [merge_caps] has looked it up, the tree
    handle), and the numbers of references, write locks and read locks. *)
Record Caps : Type := mk_caps { c_h : Z; c_rc : Z; c_wc : Z; c_lc : Z }.

#[export] Instance Caps_eq_dec : EqDecision Caps.
Proof. solve_decision. Defined.

Record ssinfo_t : Type := mk_ssinfo { real_size : Z; begin_offset : Z; end_offset : Z }.

(** The header of the block of a new thread, at address [ts_addr]. *)
Record ThreadStack : Type := mk_tstack {
  ts_addr : Z;
  ts_thread : Z;
  ts_tid : Z;
  ts_h : hashtable;
  ts_info : ssinfo_t
}.

Definition sizeof_ThreadStack : Z := 24.
Definition sizeof_XTreeHandle : Z := 28.
Definition PAGE_SIZE : Z := 4096.
Definition SIGSTKSZ : Z := 16384.

(** The process: the state of the running thread, the counter of identifiers,
    the number of threads [main] waits for, and the threads that were started. *)
Record process (H : Type) : Type := mk_process {
  p_x : xst H;
  next_tid : Z;
  all_done : Z;
  started : list ThreadStack
}.
Arguments mk_process {H} _ _ _ _.
Arguments p_x {H} _.
Arguments next_tid {H} _.
Arguments all_done {H} _.
Arguments started {H} _.

(** ** Sizes *)

Definition ALIGN_SZ (x : Z) : Z := u32 (Z.land (u32 x) (u32 (Z.lnot 7)) + 8).
Definition ALIGN_PG (p : Z) : Z := Z.land (p + PAGE_SIZE - 1) (Z.lnot (PAGE_SIZE - 1)).

(** The estimate of the stack size is computed and not used. *)
Definition __get_stack_size (caps_len arg_len desired_stack_size : Z) : ssinfo_t :=
  let PADDING := 16 in
  let min_allocation := SIGSTKSZ + PAGE_SIZE in
  let default_allocation :=
    ALIGN_SZ (u32 (sizeof_ThreadStack + arg_len + sizeof_XTreeHandle * caps_len + PADDING)) in
  let stack_estimation :=
    u32 (default_allocation + PAGE_SIZE +
         (if desired_stack_size <? min_allocation then min_allocation else desired_stack_size)) in
  let stack_estimation :=
    if negb (ALIGN_PG stack_estimation =? stack_estimation)
    then u32 (ALIGN_PG stack_estimation + 2 * PAGE_SIZE) else stack_estimation in
  mk_ssinfo default_allocation default_allocation default_allocation.

(** ** Merging capabilities *)

(** [(int) -(c1->h - c2->h)]: the operands have type [struct _XRegionHandle *]
    and point to tree handles.  The difference of two such pointers is defined
    only when it is a multiple of the size of the structure. *)
Definition caps_cmp (c1 c2 : Caps) : out Z :=
  let d := c_h c1 - c_h c2 in
  if d mod sizeof_XRegionHandle =? 0 then Ret (i32 (- (d / sizeof_XRegionHandle))) else Undef.

(** [qsort] of the C library, by insertion. *)
Fixpoint sort_insert (x : Caps) (l : list Caps) : out (list Caps) :=
  match l with
  | [] => Ret [x]
  | y :: l' =>
      i ← caps_cmp x y;
      if i <=? 0 then Ret (x :: y :: l') else l'' ← sort_insert x l'; Ret (y :: l'')
  end.
Fixpoint qsort (l : list Caps) : out (list Caps) :=
  match l with [] => Ret [] | x :: l => l' ← qsort l; sort_insert x l' end.

Definition add_caps (a b : Caps) : Caps :=
  mk_caps (c_h a) (i32 (c_rc a + c_rc b)) (i32 (c_wc a + c_wc b)) (i32 (c_lc a + c_lc b)).

(** The loop over the sorted array [c] from index [i]: [it] and [next] are
    indices into it. *)
Fixpoint merge_loop (k : nat) (c : list Caps) (i it next n : nat) : out (list Caps * nat * nat * nat) :=
  match k with
  | O => Ret (c, it, next, n)
  | S k =>
      match c !! it, c !! i with
      | Some a, Some b =>
          if c_h a =? c_h b then merge_loop k (<[it := add_caps a b]> c) (S i) it next n
          else merge_loop k (<[next := a]> c) (S i) i (S next) (S n)
      | _, _ => Undef
      end
  end.

(** The array after merging and the number of its elements in use. *)
Definition merge_sorted (c : list Caps) : out (list Caps * nat) :=
  r ← merge_loop (length c - 1) c 1 0 0 1;
  let '(c, it, next, n) := r in
  match c !! it with Some a => Ret (<[next := a]> c, n) | None => Undef end.

Section ops.
Context {H : Type} `{Heap H}.

Fixpoint find_keys (c : list Caps) : ST (xst H) (list Caps) :=
  match c with
  | [] => mret []
  | a :: c => t ← get_tkey (c_h a); c' ← find_keys c; mret (mk_caps t (c_rc a) (c_wc a) (c_lc a) :: c')
  end.

Definition merge_caps (c : list Caps) : ST (xst H) (list Caps * nat) :=
  match c with
  | [] => mret ([], O)
  | _ => c' ← find_keys c; c'' ← lift (qsort c'); lift (merge_sorted c'')
  end.

(** ** Copying the tree *)

Definition null_handle : XTreeHandle := mk_xtree 0 0 0 0 0 (mk_lcaps 0 0 0).

(** [memset(n,0,len*sizeof(struct _XTreeHandle))] *)
Fixpoint clear_handles (k : nat) (n : Z) : ST (xst H) unit :=
  match k with
  | O => mret tt
  | S k => put_tree n null_handle;; clear_handles k (n + sizeof_XTreeHandle)
  end.

(** An operation on the table [h] of the new thread; the tree handles are in
    the memory of both threads. *)
Definition on_child {A} (h : hashtable) (op : ST hstate A) : ST (xst H) (A * hashtable) := fun s =>
  match op (mk_hstate h (ents (x_tab s))) with
  | (Ret a, t) => (Ret (a, ht t), set_x_tab (mk_hstate (ht (x_tab s)) (ents t)) s)
  | (Thrown e f l, t) => (Thrown e f l, set_x_tab (mk_hstate (ht (x_tab s)) (ents t)) s)
  | (Exit m, t) => (Exit m, set_x_tab (mk_hstate (ht (x_tab s)) (ents t)) s)
  | (Undef, t) => (Undef, set_x_tab (mk_hstate (ht (x_tab s)) (ents t)) s)
  | (Blocked, t) => (Blocked, set_x_tab (mk_hstate (ht (x_tab s)) (ents t)) s)
  end.

(** The index of the capability whose handle is [parent], or the length. *)
Fixpoint find_handle (o : list Caps) (parent : Z) : nat :=
  match o with [] => O | a :: o => if c_h a =? parent then O else S (find_handle o parent) end.

Definition set_single (k : Z) (x : XRegionHandle) : XRegionHandle :=
  mk_xregion (x_is_xrgn x) (caps x) (x_curr x) (x_offset x) (x_last_plus_one x) k (mapped x).

(** One iteration of the first loop: the handle [ni] for the capability [a]. *)
Definition copy_handle (ok : bool) (o : list Caps) (n tid : Z) (ni : Z) (a : Caps) (h : hashtable)
    : ST (xst H) hashtable :=
  t ← get_tree (c_h a);
  z ← get_tree ni;
  put_tree ni (set_t_h (t_h t) (set_t_caps (mk_lcaps (u16 (c_rc a)) (u16 (c_wc a)) (u16 (c_lc a))) z));;
  r ← on_child h (hashtable_insert ok ni);
  let h := r.2 in
  g ← get_region (t_h t);
  put_region (t_h t) (set_single 0 (x_set_caps (set_g_rcnt (u32 (g_rcnt (caps g) + 1)) (caps g)) g));;
  (if negb (c_wc a =? 0) then
     s ← get;
     g ← get_region (t_h t);
     if x_self s =? writer_cv (caps g)
     then put_region (t_h t) (x_set_caps (set_writer_cv tid (caps g)) g)
     else lift (Exit "_treecopy: writer_cv")
   else mret tt);;
  (if negb (c_lc a =? 0) then
     g ← get_region (t_h t);
     put_region (t_h t) (x_set_caps (set_g_rd_cnt (u32 (grd (caps g) + 1)) (caps g)) g)
   else mret tt);;
  let idx := if parent_key t =? 0 then length o else find_handle o (parent_key t) in
  (if (idx <? length o)%nat then
     let p := n + sizeof_XTreeHandle * Z.of_nat idx in
     x ← get_tree ni; y ← get_tree p;
     put_tree ni (set_next_key (sub_keys y) (set_parent_key p x));;
     y ← get_tree p;
     put_tree p (set_sub_keys ni y)
   else x ← get_tree ni; put_tree ni (set_parent_key 0 x));;
  mret h.

Fixpoint copy_handles (ok : bool) (o : list Caps) (n tid : Z) (ni : Z) (l : list Caps) (h : hashtable)
    : ST (xst H) hashtable :=
  match l with
  | [] => mret h
  | a :: l =>
      h ← copy_handle ok o n tid ni a h;
      copy_handles ok o n tid (ni + sizeof_XTreeHandle) l h
  end.

Context (call_mfree : Z -> Z -> Z -> H -> H).

(** The second loop, from the last capability to the first. *)
Fixpoint drop_caps (l : list Caps) : ST (xst H) unit :=
  match l with
  | [] => mret tt
  | a :: l =>
      drop_caps l;;
      _xregion_cap_th call_mfree (- c_rc a) (- c_wc a) (- c_lc a) (c_h a)
  end.

Definition __treecopy (ok : bool) (o : list Caps) (n tid : Z) (h : hashtable) : ST (xst H) hashtable :=
  clear_handles (length o) n;;
  h ← copy_handles ok o n tid n o h;
  drop_caps o;;
  mret h.

(** ** Starting a thread *)

Definition on_x {A} (op : ST (xst H) A) : ST (process H) A := fun p =>
  let '(o, x) := op (p_x p) in (o, mk_process x (next_tid p) (all_done p) (started p)).

Definition _next_tid : ST (process H) Z := fun p =>
  (Ret (next_tid p), mk_process (p_x p) (u32 (next_tid p + 2)) (all_done p) (started p)).

(** [ok] says whether there is memory for the table of the new thread. *)
Definition __init_new_thread_stack (ok : bool) (stack_space : Z) (c : list Caps) (f arg_len : Z)
    : ST (process H) ThreadStack :=
  r ← on_x (merge_caps c);
  let '(c, len) := r in
  let ss := __get_stack_size (Z.of_nat len) (u32 arg_len) stack_space in
  i ← on_x (on_xmem (on_heap (GC_malloc (i32 (real_size ss)))));
  if i =? 0 then lift Undef
  else
    tid ← _next_tid;
    match create_hashtable ok 25 with
    | None => lift Undef
    | Some h =>
        h ← on_x (__treecopy ok (take len c) (i + sizeof_ThreadStack + arg_len) tid h);
        mret (mk_tstack i f tid h ss)
    end.

(** The results of the five pthread calls, zero for success. *)
Definition _xspawn (ok : bool) (stack_space s1 s2 s3 s4 s5 : Z) (c : list Caps) (f arg_len : Z)
    : ST (process H) unit :=
  if negb (s1 =? 0) || negb (s2 =? 0) then lift (Exit "internal error: _xspawn aborting")
  else
    si ← __init_new_thread_stack ok stack_space c f arg_len;
    modify (fun p => mk_process (p_x p) (next_tid p) (u32 (all_done p + 1)) (started p));;
    if (0 <? stack_space) && negb (s3 =? 0) then lift (Exit "internal error: _xspawn aborting")
    else if negb (s4 =? 0) then lift (Exit "internal error: _xspawn aborting")
    else
      modify (fun p => mk_process (p_x p) (next_tid p) (all_done p) (si :: started p));;
      if negb (s5 =? 0) then lift (Exit "internal error: _xspawn aborting") else mret tt.
End ops.
