(* ===== verification/SpawnSpec.v ===== *)
(** * Correctness of thread creation

    Merging adds up the capabilities of each region; the block of a new thread
    has room for its arguments and tree handles; identifiers are never 0; a
    write lock passed to a new thread is lost. *)

From stdpp Require Import sorting.
From S2P Require Import Prelude Alloc RwLock Region Hashtable HashtableSpec XTree Spawn.

(** ** Merging *)

(** The sums of adjacent capabilities of one handle, starting with [a]. *)
Fixpoint groups (a : Caps) (l : list Caps) : list Caps :=
  match l with
  | [] => [a]
  | b :: l => if c_h a =? c_h b then groups (add_caps a b) l else a :: groups b l
  end.

(** The loop compacts the array in place: the elements before [next] and the
    one at [it] are the groups found so far. *)
Lemma merge_loop_groups k c i it next a : (next <= it < i)%nat -> (i + k = length c)%nat -> c !! it = Some a ->
  exists c' it' next' a', merge_loop k c i it next (S next) = Ret (c', it', next', S next') /\
    (next' < length c')%nat /\ c' !! it' = Some a' /\ take next' c' ++ [a'] = take next c ++ groups a (drop i c).
Proof.
  revert c i it next a. induction k as [|k IH]; intros c i it next a Hlt Hk Ha; simpl.
  { exists c, it, next, a. split_and!; [done|lia|done|]. by rewrite drop_ge by lia. }
  destruct (lookup_lt_is_Some_2 c i ltac:(lia)) as [b Hb]. rewrite Ha, Hb, (drop_S _ _ _ Hb). simpl.
  destruct (c_h a =? c_h b) eqn:E.
  - destruct (IH (<[it := add_caps a b]> c) (S i) it next (add_caps a b)) as (c' & it' & next' & a' & He & Hl & Hit & Ht).
    + lia.
    + rewrite length_insert. lia.
    + apply list_lookup_insert_eq. lia.
    + exists c', it', next', a'. split_and!; try done. rewrite Ht, take_insert_ge, drop_insert_lt by lia. done.
  - destruct (IH (<[next := a]> c) (S i) i (S next) b) as (c' & it' & next' & a' & He & Hl & Hit & Ht).
    + lia.
    + rewrite length_insert. lia.
    + by rewrite list_lookup_insert_ne by lia.
    + exists c', it', next', a'. split_and!; try done. rewrite Ht, drop_insert_lt by lia.
      rewrite (take_S_r _ _ a) by (apply list_lookup_insert_eq; lia). rewrite take_insert_ge by lia.
      by rewrite <- app_assoc.
Qed.

Lemma merge_sorted_groups a l : exists c n, merge_sorted (a :: l) = Ret (c, n) /\ take n c = groups a l.
Proof.
  destruct (merge_loop_groups (length l) (a :: l) 1 0 0 a) as (c' & it' & next' & a' & He & Hl & Hit & Ht);
    [lia|simpl; lia|done|].
  unfold merge_sorted. simpl length. replace (S (length l) - 1)%nat with (length l) by lia. rewrite He. simpl.
  rewrite Hit. eexists _, _. split; [done|].
  rewrite (take_S_r _ _ a') by (apply list_lookup_insert_eq; lia). by rewrite take_insert_ge by lia.
Qed.

(** The sum of [f] over the capabilities of [x]. *)
Fixpoint total (f : Caps -> Z) (x : Z) (l : list Caps) : Z :=
  match l with [] => 0 | a :: l => (if c_h a =? x then f a else 0) + total f x l end.

Lemma total_perm f x l l' : l ≡ₚ l' -> total f x l = total f x l'.
Proof. induction 1; simpl; lia. Qed.

(** The three counts of a capability. *)
Definition count (f : Caps -> Z) : Prop := f = c_rc \/ f = c_wc \/ f = c_lc.

Lemma add_caps_count f a b : count f -> u32 (f (add_caps a b)) = u32 (f a + f b).
Proof. intros [->|[->| ->]]; simpl; words. Qed.

Lemma groups_total f x a l : count f -> u32 (total f x (groups a l)) = u32 (total f x (a :: l)).
Proof.
  intros Hf. revert a. induction l as [|b l IH]; intros a; [done|]. cbn [groups].
  destruct (c_h a =? c_h b) eqn:E.
  - rewrite IH. cbn [total]. assert (Eh : c_h b = c_h a) by lia. cbn [c_h add_caps]. rewrite Eh.
    pose proof (add_caps_count f a b Hf) as Hadd. destruct (c_h a =? x); [|done].
    set (t := total f x l). set (s := f (add_caps a b)) in *. clearbody t s. words.
  - cbn [total]. specialize (IH b). cbn [total] in IH.
    set (u := (if c_h b =? x then f b else 0) + total f x l) in *. set (v := total f x (groups b l)) in *.
    set (z := if c_h a =? x then f a else 0). clearbody u v z. words.
Qed.

Lemma groups_elem a l x : x ∈ c_h <$> groups a l <-> x ∈ c_h <$> a :: l.
Proof.
  revert a. induction l as [|b l IH]; intros a; [done|]. cbn [groups]. destruct (c_h a =? c_h b) eqn:E.
  - rewrite IH, !fmap_cons, !elem_of_cons. cbn [c_h add_caps]. assert (c_h a = c_h b) by lia. intuition congruence.
  - rewrite fmap_cons, elem_of_cons, IH, !fmap_cons, !elem_of_cons. tauto.
Qed.

Abbreviation descending l := (StronglySorted Z.gt (c_h <$> l)).

Lemma groups_descending a l : StronglySorted Z.ge (c_h <$> a :: l) -> descending (groups a l).
Proof.
  revert a. induction l as [|b l IH]; intros a Hs; [constructor; constructor|].
  apply StronglySorted_inv in Hs as [Hs Ha]. cbn [groups]. destruct (c_h a =? c_h b) eqn:E.
  - apply IH. rewrite !fmap_cons in *. cbn [c_h add_caps]. assert (Eh : c_h a = c_h b) by lia. by rewrite Eh.
  - rewrite fmap_cons. constructor; [by apply IH|]. apply Forall_forall. intros x Hx. apply groups_elem in Hx.
    simpl in Ha. inversion Ha as [|? ? Hb Hl]; subst. apply StronglySorted_inv in Hs as [_ Hsb].
    rewrite Forall_forall in Hsb. rewrite fmap_cons in Hx. apply elem_of_cons in Hx as [->|Hx]; [lia|].
    pose proof (Hsb x Hx). lia.
Qed.

(** ** Sorting *)

(** Handles of one size class: their distances are multiples of 56. *)
Definition comparable (l : list Caps) : Prop :=
  forall a b, a ∈ l -> b ∈ l -> (c_h a - c_h b) mod sizeof_XRegionHandle = 0.

Definition addresses (l : list Caps) : Prop := forall a, a ∈ l -> 0 <= c_h a < 4294967296.

Lemma caps_cmp_Ret a b : (c_h a - c_h b) mod sizeof_XRegionHandle = 0 -> 0 <= c_h a < 4294967296 ->
  0 <= c_h b < 4294967296 -> exists i, caps_cmp a b = Ret i /\ (i <= 0 <-> c_h b <= c_h a).
Proof.
  intros Hd Ha Hb. unfold caps_cmp. rewrite Hd. eexists. split; [done|].
  unfold sizeof_XRegionHandle in *. words.
Qed.

Lemma sort_insert_spec x l : comparable (x :: l) -> addresses (x :: l) -> StronglySorted Z.ge (c_h <$> l) ->
  exists l', sort_insert x l = Ret l' /\ l' ≡ₚ x :: l /\ StronglySorted Z.ge (c_h <$> l').
Proof.
  induction l as [|y l IH]; intros Hc Had Hs; simpl.
  { eexists. split_and!; [done|done|]. constructor; constructor. }
  assert (Hx : x ∈ x :: y :: l) by left. assert (Hy : y ∈ x :: y :: l) by (right; left).
  destruct (caps_cmp_Ret x y (Hc x y Hx Hy) (Had x Hx) (Had y Hy)) as (i & -> & Hi). simpl.
  pose proof Hs as Hs'. apply StronglySorted_inv in Hs' as [Hl Hyl].
  destruct (i <=? 0) eqn:E.
  - eexists. split_and!; [done|done|]. rewrite fmap_cons. constructor; [done|].
    rewrite fmap_cons. constructor; [lia|]. eapply Forall_impl; [exact Hyl|]. simpl. lia.
  - destruct IH as (l' & He & Hp & Hs2); [..|done|].
    + intros a b Ha Hb. apply Hc; set_solver.
    + intros a Ha. apply Had. set_solver.
    + rewrite He. simpl. eexists. split_and!; [done|rewrite Hp; apply Permutation_swap|].
      rewrite fmap_cons. constructor; [done|]. rewrite Hp, fmap_cons. constructor; [lia|done].
Qed.

Lemma qsort_spec l : comparable l -> addresses l ->
  exists l', qsort l = Ret l' /\ l' ≡ₚ l /\ StronglySorted Z.ge (c_h <$> l').
Proof.
  induction l as [|x l IH]; intros Hc Had; simpl.
  { eexists. split_and!; [done|done|constructor]. }
  destruct IH as (l' & -> & Hp & Hs).
  { intros a b Ha Hb. apply Hc; by right. }
  { intros a Ha. apply Had. by right. }
  simpl. destruct (sort_insert_spec x l') as (l'' & He & Hp' & Hs').
  - intros a b Ha Hb. rewrite Hp in Ha, Hb. by apply Hc.
  - intros a Ha. rewrite Hp in Ha. by apply Had.
  - done.
  - exists l''. split_and!; [done| |done]. by rewrite Hp', Hp.
Qed.

Lemma find_keys_nil {H} `{Heap H} (c : list Caps) (s s' : xst H) : find_keys c s = (Ret [], s') -> c = [].
Proof.
  destruct c as [|a c]; [done|]. cbn [find_keys]. intros He.
  apply st_bind_Ret in He as (t & s1 & _ & He). apply st_bind_Ret in He as (c' & s2 & _ & He). discriminate.
Qed.

Lemma merge_keys_totals c : c <> [] -> comparable c -> addresses c ->
  exists arr n, (qsort c ≫= merge_sorted) = Ret (arr, n) /\ descending (take n arr) /\
    (forall x, x ∈ c_h <$> take n arr <-> x ∈ c_h <$> c) /\
    forall f x, count f -> u32 (total f x (take n arr)) = u32 (total f x c).
Proof.
  intros Hne Hc Had. destruct (qsort_spec c Hc Had) as (l & -> & Hp & Hs). simpl.
  destruct l as [|a l]; [apply Permutation_nil in Hp; by subst|].
  destruct (merge_sorted_groups a l) as (arr & n & He & Ht). exists arr, n. rewrite He, Ht. split_and!.
  - done.
  - by apply groups_descending.
  - intros x. rewrite groups_elem. by rewrite Hp.
  - intros f x Hf. rewrite (groups_total f x a l Hf). by rewrite (total_perm f x _ _ Hp).
Qed.

(** C37. Merging adds up capabilities: when the array is not empty, the thread
    has handles for all the regions and the handles can be compared, [merge_caps]
    returns an array that has each handle once, in descending order of addresses
    (the order of allocation on the stack), and in which for every handle the
    counts of references, write locks and read locks are the sums of those
    passed, modulo 2^32.  Handles can be compared ([comparable]) when their
    distances are multiples of 56 bytes: the comparison subtracts tree handles,
    structures of 28 bytes, as pointers to region handles of 56 bytes, which C
    leaves undefined for other distances ([qsort_undefined]). *)
Theorem merge_caps_totals {H} `{Heap H} (c keys : list Caps) (s s' : xst H) :
  c <> [] -> find_keys c s = (Ret keys, s') -> comparable keys -> addresses keys ->
  exists arr n, merge_caps c s = (Ret (arr, n), s') /\ descending (take n arr) /\
    (forall x, x ∈ c_h <$> take n arr <-> x ∈ c_h <$> keys) /\
    forall f x, count f -> u32 (total f x (take n arr)) = u32 (total f x keys).
Proof.
  intros Hne Hk Hc Had.
  assert (Hkn : keys <> []) by (intros ->; by apply find_keys_nil in Hk).
  destruct (merge_keys_totals keys Hkn Hc Had) as (arr & n & He & Hr). exists arr, n. split; [|exact Hr].
  destruct c as [|a c]; [done|]. unfold merge_caps. run_step Hk. unfold mbind, st_bind, lift.
  apply out_bind_Ret in He as (l & -> & ->). done.
Qed.

(** Three regions, with handles at 2000, 2056 and 2112 in the thread's table. *)
Definition idle_region : rgn := AnXRegion (mk_xregion 1 (mk_rcaps 2 0 0 0 0 0 0) 0 0 0 0 0).
Definition handle_of (r : Z) : XTreeHandle := mk_xtree r 0 0 0 0 (mk_lcaps 1 0 0).
Definition empty_table : hashtable :=
  match create_hashtable true 25 with Some h => h | None => mk_hashtable 0 0 0 0 0 0 0 0 [] end.
Definition three_regions : xst bump :=
  ((on_tab (hashtable_insert true 2000);; on_tab (hashtable_insert true 2056);; on_tab (hashtable_insert true 2112))
    (mk_xst (mk_mem empty_bump (<[512 := idle_region]> (<[600 := idle_region]> (<[700 := idle_region]> ∅))) ∅ ∅ 256 256)
       (mk_hstate empty_table
          (<[2000 := handle_of 512]> (<[2056 := handle_of 600]> (<[2112 := handle_of 700]> ∅)))) 1 ∅)).2.
Definition ex_caps : list Caps := [mk_caps 512 1 0 1; mk_caps 700 1 1 0; mk_caps 512 2 0 1; mk_caps 600 1 0 0].
Definition ex_keys : list Caps := [mk_caps 2000 1 0 1; mk_caps 2112 1 1 0; mk_caps 2000 2 0 1; mk_caps 2056 1 0 0].

Lemma ex_keys_comparable : comparable ex_keys.
Proof.
  intros a b Ha Hb. unfold ex_keys in *.
  repeat (apply elem_of_cons in Ha as [->|Ha]); try (by apply not_elem_of_nil in Ha);
    repeat (apply elem_of_cons in Hb as [->|Hb]); try (by apply not_elem_of_nil in Hb); done.
Qed.
Lemma ex_keys_addresses : addresses ex_keys.
Proof.
  intros a Ha. unfold ex_keys in *.
  repeat (apply elem_of_cons in Ha as [->|Ha]); try (by apply not_elem_of_nil in Ha); simpl; lia.
Qed.

Lemma merge_caps_totals_witness : exists arr n s', merge_caps ex_caps three_regions = (Ret (arr, n), s') /\
  take n arr = [mk_caps 2112 1 1 0; mk_caps 2056 1 0 0; mk_caps 2000 3 0 2] /\
  u32 (total c_rc 2000 (take n arr)) = 3.
Proof.
  assert (Hk : (find_keys ex_caps three_regions).1 = Ret ex_keys) by (vm_compute; reflexivity).
  assert (Hm : exists arr, (merge_caps ex_caps three_regions).1 = Ret (arr, 3%nat) /\
    take 3 arr = [mk_caps 2112 1 1 0; mk_caps 2056 1 0 0; mk_caps 2000 3 0 2])
    by (eexists; split; [vm_compute; reflexivity|reflexivity]).
  destruct (find_keys ex_caps three_regions) as [o s'] eqn:Ek. cbn [fst] in Hk. subst o.
  destruct (merge_caps_totals ex_caps ex_keys three_regions s') as (arr & n & He & _ & _ & Ht).
  - done.
  - exact Ek.
  - exact ex_keys_comparable.
  - exact ex_keys_addresses.
  - exists arr, n, s'. split; [exact He|]. split; [|rewrite (Ht c_rc 2000); [reflexivity|left; reflexivity]].
    destruct Hm as (arr' & Hm & Ht'). rewrite He in Hm. cbn [fst] in Hm.
    injection Hm as -> ->. exact Ht'.
Defined.

(** Two handles at any other distance cannot be compared. *)
Lemma qsort_undefined a b : (c_h a - c_h b) mod sizeof_XRegionHandle <> 0 -> qsort [a; b] = Undef.
Proof. intros Hd. simpl. unfold caps_cmp. by rewrite (proj2 (Z.eqb_neq _ _) Hd). Qed.

(** ** Sizes and identifiers *)

(** C39. The block allocated for a new thread holds its header, its arguments and
    all its tree handles, for every number of capabilities and argument length
    whose sum fits a word. *)
Theorem stack_size_fits caps_len arg_len desired : 0 <= caps_len -> 0 <= arg_len ->
  sizeof_ThreadStack + arg_len + sizeof_XTreeHandle * caps_len + 24 < 4294967296 ->
  let ss := __get_stack_size caps_len arg_len desired in
  sizeof_ThreadStack + arg_len + sizeof_XTreeHandle * caps_len < real_size ss /\ real_size ss mod 8 = 0 /\
  begin_offset ss = real_size ss /\ end_offset ss = real_size ss.
Proof.
  intros Hc Ha Hb ss. subst ss. unfold __get_stack_size. cbn [real_size begin_offset end_offset].
  unfold ALIGN_SZ, sizeof_ThreadStack, sizeof_XTreeHandle in *.
  set (x := 24 + arg_len + 28 * caps_len + 16) in *. rewrite (u32_small x) by lia.
  rewrite (u32_small x) by lia. change (u32 (Z.lnot 7)) with 4294967288. rewrite land_mask8 by lia.
  rewrite u32_small by words. split_and!; [words|words|done|done].
Qed.

Lemma stack_size_fits_witness : 24 + 100 + 28 * 3 < real_size (__get_stack_size 3 100 0) /\
  real_size (__get_stack_size 3 100 0) = 232.
Proof. split; [|done]. apply (stack_size_fits 3 100 0); unfold sizeof_ThreadStack, sizeof_XTreeHandle; lia. Defined.

(** Starting from an odd number, identifiers stay odd and so are never 0. *)
Lemma next_tid_odd {H} (p : process H) : next_tid p mod 2 = 1 -> 0 <= next_tid p < 4294967296 ->
  exists t p', _next_tid p = (Ret t, p') /\ t <> 0 /\ next_tid p' mod 2 = 1 /\ 0 <= next_tid p' < 4294967296.
Proof. intros Ho Hr. eexists _, _. split; [done|]. simpl. words. Qed.

(** ** Passing a write lock *)

(** Thread 1 holds the write lock of the region at 512 through the handle at
    2000; thread 5 shares the region through the handle at 3000. *)
Definition shared_region : rgn := AnXRegion (mk_xregion 1 (mk_rcaps 2 0 1 1 0 0 0) 0 0 0 0 0).
Definition writer_handle : XTreeHandle := mk_xtree 512 0 0 0 0 (mk_lcaps 1 1 0).
Definition idle_handle : XTreeHandle := mk_xtree 512 0 0 0 0 (mk_lcaps 1 0 0).
Definition before_spawn : process bump :=
  mk_process (mk_xst (mk_mem empty_bump (<[512 := shared_region]> ∅) ∅ ∅ 256 256)
    (mk_hstate empty_table (<[2000 := writer_handle]> (<[3000 := idle_handle]> ∅))) 1 ∅) 3 0 [].

Definition no_mfree (f b n : Z) (h : bump) : bump := h.
Definition run_as (tid : Z) (s : xst bump) : xst bump := mk_xst (x_mem s) (x_tab s) tid (x_mapped s).

(** Thread 1 passes its capability to a new thread; then thread 5 asks for the
    write lock. *)
Definition spawn_then_lock : ST (process bump) (list (Z * Z * Z)) :=
  on_x (on_tab (hashtable_insert true 2000));;
  _xspawn no_mfree true 0 0 0 0 0 0 [mk_caps 512 1 1 0] 77 0;;
  on_x (modify (run_as 5));;
  on_x (__xregion_lockop 3000 1 0);;
  p ← get;
  mret ((fun e => (e.1, t_h e.2, wr_cnt (t_caps e.2))) <$> map_to_list (ents (x_tab (p_x p)))).

(** Spawning a thread loses a write lock passed to it: [__treecopy] makes the
    new thread the writer of the region and then releases the counts of the
    spawning thread, which clears the writer.  In the run above thread 5 obtains
    the write lock while the handle of the new thread (at 4120) has a write
    count: two threads hold the region exclusively. *)
Theorem spawn_breaks_exclusion :
  exists l, (spawn_then_lock before_spawn).1 = Ret l /\ (3000, 512, 1) ∈ l /\ (4120, 512, 1) ∈ l.
Proof.
  eexists. split; [vm_compute; reflexivity|]. split; [left|right; left].
Qed.
