(* ===== verification/Words.v ===== *)
(** * Compiled Cyclone code on word memory

    The Cyclone libraries are compiled to C that allocates with
    [_region_malloc] and reads and writes words through pointers.  This file
    gives the loop and the accesses that models of such code use, total
    weakest preconditions for them, and what region allocation (RegionSafety.v)
    promises to that code: [heap_ok] and [region_malloc_fresh]. *)

From S2P Require Import Prelude Alloc FatPtr RwLock Region RegionSafety.

(** ** Weakest preconditions *)

(** [c] returns with [Q] or throws with [E]; it does not exit, block or run
    into undefined behaviour. *)
Definition wp {S A} (c : ST S A) (Q : A -> S -> Prop) (E : exn -> S -> Prop) (s : S) : Prop :=
  match c s with
  | (Ret a, s') => Q a s'
  | (Thrown e _ _, s') => E e s'
  | _ => False
  end.

Section wp.
Context {S : Type}.
Implicit Types (E : exn -> S -> Prop) (s : S).

Lemma wp_ret {A} (a : A) Q E s : Q a s -> wp (mret a) Q E s.
Proof. done. Qed.

Lemma wp_bind {A B} (c : ST S A) (f : A -> ST S B) Q E s :
  wp c (fun a => wp (f a) Q E) E s -> wp (c ≫= f) Q E s.
Proof. unfold wp, mbind, st_bind. by destruct (c s) as [[]]. Qed.

Lemma wp_bind_inv {A B} (c : ST S A) (f : A -> ST S B) Q E s :
  wp (c ≫= f) Q E s -> wp c (fun a => wp (f a) Q E) E s.
Proof. unfold wp, mbind, st_bind. by destruct (c s) as [[]]. Qed.

Lemma wp_mono {A} (c : ST S A) (Q Q' : A -> S -> Prop) E E' s :
  wp c Q E s -> (forall a s', Q a s' -> Q' a s') -> (forall e s', E e s' -> E' e s') ->
  wp c Q' E' s.
Proof. unfold wp. destruct (c s) as [[]]; auto. Qed.

Lemma wp_conseq {A} (c : ST S A) (Q Q' : A -> S -> Prop) E s :
  wp c Q E s -> (forall a s', Q a s' -> Q' a s') -> wp c Q' E s.
Proof. intros Hc HQ. by eapply wp_mono. Qed.

Lemma wp_get (Q : S -> S -> Prop) E s : Q s s -> wp get Q E s.
Proof. done. Qed.

Lemma wp_modify f (Q : unit -> S -> Prop) E s : Q tt (f s) -> wp (modify f) Q E s.
Proof. done. Qed.

Lemma wp_lift {A} (a : A) Q E s : Q a s -> wp (lift (Ret a)) Q E s.
Proof. done. Qed.

Lemma wp_run {A} (c : ST S A) (Q : A -> S -> Prop) E s a s' :
  c s = (Ret a, s') -> Q a s' -> wp c Q E s.
Proof. unfold wp. by intros ->. Qed.

Lemma wp_throws {A} (c : ST S A) (Q : A -> S -> Prop) E s e file line s' :
  c s = (Thrown e file line, s') -> E e s' -> wp c Q E s.
Proof. unfold wp. by intros ->. Qed.

Lemma wp_thrown {A} e file line (Q : A -> S -> Prop) E s : E e s -> wp (lift (Thrown e file line)) Q E s.
Proof. done. Qed.

Lemma wp_result {A} (c : ST S A) (Q : A -> S -> Prop) E s a s' :
  wp c Q E s -> c s = (Ret a, s') -> Q a s'.
Proof. unfold wp. intros Hwp Hc. by rewrite Hc in Hwp. Qed.

Lemma wp_exception {A} (c : ST S A) (Q : A -> S -> Prop) E s e file line s' :
  wp c Q E s -> c s = (Thrown e file line, s') -> E e s'.
Proof. unfold wp. intros Hwp Hc. by rewrite Hc in Hwp. Qed.

Lemma wp_cases {A} (c : ST S A) (Q : A -> S -> Prop) E s : wp c Q E s ->
  (exists a s', c s = (Ret a, s') /\ Q a s') \/ (exists e file line s', c s = (Thrown e file line, s') /\ E e s').
Proof. unfold wp. destruct (c s) as [[]]; try done; eauto 10. Qed.

(** A computation that cannot throw returns. *)
Lemma wp_total {A} (c : ST S A) (Q : A -> S -> Prop) s :
  wp c Q (fun _ _ => False) s -> exists a s', c s = (Ret a, s') /\ Q a s'.
Proof. unfold wp. destruct (c s) as [[]]; try done. eauto. Qed.

(** A loop: [step] gives the next state of the loop or the result. *)
Fixpoint loop {X B} (fuel : nat) (step : X -> ST S (X + B)) (x : X) : ST S B :=
  match fuel with
  | O => lift Undef
  | Datatypes.S fuel =>
      r ← step x;
      match r with inl x' => loop fuel step x' | inr b => mret b end
  end.

Lemma wp_loop {X B} (step : X -> ST S (X + B)) (I : nat -> X -> S -> Prop) Q E fuel :
  (forall k x s, I k x s ->
     wp (step x) (fun r s' => match r with
                              | inl x' => exists k', (k' < k)%nat /\ I k' x' s'
                              | inr b => Q b s'
                              end) E s) ->
  forall k x s, I k x s -> (k < fuel)%nat -> wp (loop fuel step x) Q E s.
Proof.
  intros Hstep. induction fuel as [|fuel IH]; intros k x s HI Hk; [lia|].
  cbn [loop]. apply wp_bind. eapply wp_mono; [exact (Hstep k x s HI)| |done].
  intros [x'|b] s'; [|done]. intros (k' & Hlt & HI'). apply (IH k'); [done|lia].
Qed.
End wp.

(** [try { ... } catch { case &x: ... }]: no value when [x] was thrown. *)
Definition attempt {S A} (x : exn) (c : ST S A) : ST S (option A) := fun s =>
  match c s with
  | (Ret a, s') => (Ret (Some a), s')
  | (Thrown e file line, s') => if decide (e = x) then (Ret None, s') else (Thrown e file line, s')
  | (Exit msg, s') => (Exit msg, s')
  | (Undef, s') => (Undef, s')
  | (Blocked, s') => (Blocked, s')
  end.

Lemma wp_attempt {S A} x (c : ST S A) Q E s :
  wp c (fun a => Q (Some a)) (fun e s' => if decide (e = x) then Q None s' else E e s') s -> wp (attempt x c) Q E s.
Proof. unfold wp, attempt. destruct (c s) as [[a|e file line|msg| |] s']; try done. by case_decide. Qed.

(** [try { ... } catch { case x: ... }] of a caller that looks at any exception
    but [Bad_alloc]: the exception or the value. *)
Definition caught {S A} (c : ST S A) : ST S (exn + A) := fun s =>
  match c s with
  | (Ret a, s') => (Ret (inr a), s')
  | (Thrown e file line, s') =>
      if decide (e = Cyc_Bad_alloc) then (Thrown e file line, s') else (Ret (inl e), s')
  | (Exit msg, s') => (Exit msg, s')
  | (Undef, s') => (Undef, s')
  | (Blocked, s') => (Blocked, s')
  end.

Lemma wp_caught {S A} (c : ST S A) Q E s :
  wp c (fun a => Q (inr a))
    (fun e s' => if decide (e = Cyc_Bad_alloc) then E e s' else Q (inl e) s') s -> wp (caught c) Q E s.
Proof. unfold wp, caught. destruct (c s) as [[a|e file line|msg| |] s']; try done. by case_decide. Qed.

(** Symbolic execution up to the next memory access or call. *)
Ltac wps := repeat lazymatch goal with
  | |- wp (mbind _ _) _ _ _ => apply wp_bind
  | |- wp get _ _ _ => apply wp_get
  | |- wp (modify _) _ _ _ => apply wp_modify
  | |- wp (mret _) _ _ _ => apply wp_ret
  | |- wp (lift (Ret _)) _ _ _ => apply wp_lift
  end; cbv beta.

(** ** Word accesses *)

Section ops.
Context {H : Type} `{Heap H}.

(** The first write to a word of a new object, and a write through a pointer. *)
Definition init_word (p v : Z) : ST (mem H) unit := modify (set_word p v).
Definition store_word (p v : Z) : ST (mem H) unit :=
  m ← get; match words m !! p with Some _ => modify (set_word p v) | None => lift Undef end.

(** The number of words bounds the length of an acyclic structure. *)
Definition with_fuel {A} (f : nat -> ST (mem H) A) : ST (mem H) A :=
  m ← get; f (S (size (words m))).

(** Memory from the collector and pages of lexical regions are filled with
    zeros; the code below writes every word before it reads it. *)
Fixpoint zero_words (p : Z) (k : nat) (w : gmap Z Z) : gmap Z Z :=
  match k with O => w | S k => <[p := 0]> (zero_words (p + 4) k w) end.

Definition zero_fill (p : Z) (k : nat) (m : mem H) : mem H :=
  mk_mem (heap m) (rgns m) (pages m) (zero_words p k (words m))
    (default_region_page_size m) (default_xregion_page_size m).

(** [_region_malloc(r, k * sizeof(void* ))] and [_cycalloc(k * sizeof(void* ))]. *)
Definition new_words (self r : Z) (k : nat) : ST (mem H) Z :=
  p ← _region_malloc self r (4 * Z.of_nat k); modify (zero_fill p k);; mret p.

Definition cycalloc_words (k : nat) (file : string) (line : Z) : ST (mem H) Z :=
  p ← _bounded_GC_malloc (4 * Z.of_nat k) file line; modify (zero_fill p k);; mret p.

(** [_cycalloc_atomic(k * sizeof(int))]: the words are not initialised, which
    the model does not distinguish from zeros. *)
Definition cycalloc_atomic_words (k : nat) (file : string) (line : Z) : ST (mem H) Z :=
  p ← _bounded_GC_malloc_atomic (4 * Z.of_nat k) file line; modify (zero_fill p k);; mret p.

(** The words of a new array: [for (i = 0; i < n; ++i) p[i] = f(i)]. *)
Definition fill_array (p n : Z) (f : Z -> ST (mem H) Z) : ST (mem H) unit :=
  loop (S (Z.to_nat n)) (fun i =>
    if i <? n then v ← f i; store_word (u32 (p + 4 * i)) v;; mret (inl (u32 (i + 1)))
    else mret (inr tt)) 0.

Definition Cyc_Core_heap_region : Z := CYC_CORE_HEAP_REGION.
Definition Cyc_Core_Not_found : exn := Cyc_Other_exn "Not_found".
Definition Cyc_Core_Invalid_argument : exn := Cyc_Other_exn "Invalid_argument".
End ops.

Section spec.
Context {H : Type} `{HH : Heap H} `{!HeapLaws H}.
Implicit Types m : mem H.

Lemma wp_get_word p v (Q : Z -> mem H -> Prop) E m :
  words m !! p = Some v -> Q v m -> wp (get_word p) Q E m.
Proof. intros Hp HQ. eapply wp_run; [by apply get_word_Ret|done]. Qed.

Lemma wp_store_word p v w (Q : unit -> mem H -> Prop) E m :
  words m !! p = Some w -> Q tt (set_word p v m) -> wp (store_word p v) Q E m.
Proof.
  intros Hp HQ. unfold store_word. apply wp_bind, wp_get. rewrite Hp. by apply wp_modify.
Qed.

(** The compiler's bound on requests is below the allocator's. *)
Ltac max_size := unfold MAX_MALLOC_SIZE, INT_MAX in *; change (Z.shiftl 1 28) with 268435456 in *.

(** ** What allocation promises *)

(** The word at [a] lies in an object: one of a region, or a heap block that is
    not a page of a region. *)
Definition slot (m : mem H) (A : gmap Z arena) (a : Z) : Prop :=
  exists p n, p <= a /\ a + 4 <= p + n /\
    ((exists r ar, A !! r = Some ar /\ (p, n) ∈ a_objs ar) \/
     (exists z, gc_live (heap m) !! p = Some (n, z) /\ pages m !! p = None)).

Definition arenas_ok (R : gset Z) (m : mem H) (A : gmap Z arena) : Prop :=
  mem_inv m A /\ dom A = R /\ (forall r a, A !! r = Some a -> a_lex a = true) /\
  (forall q, is_Some (pages m !! q) -> is_Some (gc_live (heap m) !! q)) /\
  forall a, is_Some (words m !! a) -> slot m A a.

(** Every word in use lies in an object of the heap or of one of the lexical
    regions [R]. *)
Definition heap_ok (R : gset Z) (m : mem H) : Prop := exists A, arenas_ok R m A.

(** A region the code may allocate in. *)
Definition rgn_in (R : gset Z) (r : Z) : Prop := r = CYC_CORE_HEAP_REGION \/ r ∈ R.

Lemma page_in_store m A r a q : mem_inv m A -> A !! r = Some a -> q ∈ (a_pages a).*1 ->
  is_Some (pages m !! q).
Proof.
  intros Hi Ha Hq. destruct (mi_rgn _ _ Hi _ _ Ha) as (_ & o & _ & _ & [Hc _ _ _ _ _]).
  destruct (chain_elem _ _ _ _ Hc Hq) as [n ->]. by exists n.
Qed.

(** The block around an object of a region. *)
Lemma obj_block m A r a p n : mem_inv m A -> A !! r = Some a -> (p, n) ∈ a_objs a ->
  exists q k z, gc_live (heap m) !! q = Some (k, z) /\ q + 8 <= p /\ p + n <= q + k /\ 0 <= n /\
    p mod 8 = 0 /\ is_Some (pages m !! q).
Proof.
  intros Hi Ha Hp. destruct (mi_rgn _ _ Hi _ _ Ha) as (_ & o & _ & _ & [_ _ Hl _ Ho _]).
  destruct (Ho _ _ Hp) as (q & k & Hq & ? & ? & ? & ? & _). destruct (Hl _ _ Hq) as [Hb ?].
  exists q, k, (zero_pages o). split_and!; try done.
  eapply page_in_store; [done..|]. apply list_elem_of_fmap. by exists (q, k).
Qed.

Lemma slot_bounds m A a : mem_inv m A -> slot m A a -> 0 < a /\ a + 4 < 4294967296.
Proof.
  intros Hi (p & n & H1 & H2 & [(r & ar & Ha & Hp)|(z & Hb & _)]).
  - destruct (obj_block _ _ _ _ _ _ Hi Ha Hp) as (q & k & z & Hb & ? & ? & ? & _ & _).
    destruct (mi_good _ _ Hi _ _ _ Hb) as (? & _ & ? & _). lia.
  - destruct (mi_good _ _ Hi _ _ _ Hb) as (? & _ & ? & _). lia.
Qed.

Lemma arenas_ok_set R m A a v : arenas_ok R m A -> slot m A a -> arenas_ok R (set_word a v m) A.
Proof.
  intros (Hi & Hd & Hl & Hpl & Hs) Ha. split_and!; [by apply set_word_inv|done..|].
  intros b Hb. simpl in Hb. rewrite lookup_insert in Hb. case_decide; [by subst|by apply Hs].
Qed.

Lemma heap_ok_store R m a v : heap_ok R m -> is_Some (words m !! a) -> heap_ok R (set_word a v m).
Proof.
  intros (A & HA) Ha. exists A. apply arenas_ok_set; [done|]. destruct HA as (_ & _ & _ & _ & Hs). auto.
Qed.

Lemma heap_ok_bounds R m a : heap_ok R m -> is_Some (words m !! a) -> 0 < a /\ a + 4 < 4294967296.
Proof. intros (A & Hi & _ & _ & _ & Hs) Ha. by eapply slot_bounds, Hs. Qed.

(** Allocation keeps the words, the live blocks and what is a page. *)
Definition grows (m m' : mem H) : Prop :=
  words m' = words m /\
  (forall q b, gc_live (heap m) !! q = Some b -> gc_live (heap m') !! q = Some b) /\
  (forall q, is_Some (gc_live (heap m) !! q) -> pages m' !! q = pages m !! q) /\
  (forall q, is_Some (pages m' !! q) -> is_Some (pages m !! q) \/ is_Some (gc_live (heap m') !! q)).

#[local] Instance grows_po : PreOrder grows.
Proof.
  split; [intros m; split_and!; auto|].
  intros m1 m2 m3 (Hw & Hg & Hp & Hl) (Hw' & Hg' & Hp' & Hl'). split_and!.
  - congruence.
  - auto.
  - intros q Hq. rewrite Hp', Hp; [done|done|]. destruct Hq as [b Hb]. exists b. auto.
  - intros q Hq. destruct (Hl' q Hq) as [Hq2|]; [|by right].
    destruct (Hl q Hq2) as [|[b Hb]]; [by left|]. right. exists b. auto.
Qed.

Lemma same_heap_grows m m' : same_heap m m' -> grows m m'.
Proof. intros (h' & -> & _ & Hl). split_and!; [done| |done|by left].
  intros q b. simpl. by rewrite Hl. Qed.

Lemma fresh_block_grows m m' n z p : fresh_block m m' n z p -> grows m m'.
Proof.
  intros (h' & -> & _ & _ & Hf & Hl). split_and!; [done| |done|by left].
  intros q [k z'] Hq. simpl. rewrite Hl.
  rewrite lookup_insert_ne; [done|]. intros ->. by eapply (fresh_not_live m n q q).
Qed.

Lemma fresh_page_grows m m' n z p c : fresh_block m m' n z p -> grows m (set_page p c m').
Proof.
  intros Hf. pose proof (fresh_block_grows _ _ _ _ _ Hf) as (Hw & Hg & Hp & Hq).
  destruct Hf as (h' & -> & _ & _ & Hf & Hl). split_and!; [done|done|..].
  - intros q [[k z'] Hk]. simpl. rewrite lookup_insert_ne; [done|].
    intros ->. by eapply (fresh_not_live m n q q).
  - intros q. simpl. rewrite lookup_insert. case_decide; [|by left]. subst. right.
    rewrite Hl, lookup_insert_eq. by eexists.
Qed.

Lemma calloc_page_grows m n line line' c (f : Z -> RegionHandle) : h_ok (heap m) ->
  grows m ((p ← _bounded_GC_calloc n 1 this_file line;
            if p =? 0 then throw Cyc_Bad_alloc this_file line'
            else modify (set_page p c);; mret (f p)) m).2.
Proof.
  intros Hok. unfold mbind, st_bind.
  destruct (bounded_calloc_cases m n 1 this_file line Hok)
    as [(m' & -> & Hs)|(p & m' & -> & Hp0 & Hf & _)]; [by apply same_heap_grows|].
  rewrite (proj2 (Z.eqb_neq _ _) Hp0). by apply (fresh_page_grows m m' (u32 (n * 1)) true p).
Qed.

Lemma bump_region_grows m r h s : h_ok (heap m) -> grows m (bump_region r h s m).2.
Proof.
  intros Hok. unfold bump_region, mbind at 1, st_bind at 1.
  assert (Hg : grows m ((if curr h =? 0 then _get_first_region_page h s
        else if u32 (last_plus_one h - offset h) <? s then grow_region h s else mret h) m).2).
  { destruct (curr h =? 0); [|destruct (_ <? _); [|done]].
    - unfold _get_first_region_page. run_step (eq_refl (Ret m, m) : get m = _).
      by apply (calloc_page_grows m).
    - unfold grow_region. run_step (eq_refl (Ret m, m) : get m = _). by apply (calloc_page_grows m). }
  match goal with Hg : grows m (?c m).2 |- _ => destruct (c m) as [[h'| | | |] m1]; exact Hg end.
Qed.

Lemma slot_grows m m' A A' a : grows m m' -> slot m A a ->
  (forall r ar, A !! r = Some ar -> exists ar', A' !! r = Some ar' /\ a_objs ar ⊆ a_objs ar') ->
  slot m' A' a.
Proof.
  intros (_ & Hg & Hp & _) (p & n & H1 & H2 & Hs) Hsub. exists p, n. split; [done|]. split; [done|].
  destruct Hs as [(r & ar & Ha & Ho)|(z & Hb & Hn)].
  - left. destruct (Hsub r ar Ha) as (ar' & Ha' & Hin). exists r, ar'. split; [done|]. by apply Hin.
  - right. exists z. split; [by apply Hg|]. rewrite Hp; [done|by eexists].
Qed.

(** The new object of [n] bytes at [p]: aligned, inside the address space, away
    from every word in use, and ready to be written. *)
Definition new_object (R : gset Z) (m : mem H) (n p : Z) (m' : mem H) : Prop :=
  heap_ok R m' /\ words m' = words m /\ 0 < p /\ p mod 8 = 0 /\ p + n < 4294967296 /\
  (forall a, is_Some (words m !! a) -> a + 4 <= p \/ p + n <= a) /\
  exists A, arenas_ok R m' A /\ forall a, p <= a -> a + 4 <= p + n -> slot m' A a.

Definition alloc_failed (R : gset Z) (m : mem H) (e : exn) (m' : mem H) : Prop :=
  e = Cyc_Bad_alloc /\ heap_ok R m' /\ words m' = words m.

(** The arenas after an allocation that may have added objects to them. *)
Lemma arenas_ok_grows R m m' A A' : arenas_ok R m A -> grows m m' -> mem_inv m' A' ->
  dom A' = dom A -> (forall r ar, A !! r = Some ar -> exists ar', A' !! r = Some ar' /\
    a_objs ar ⊆ a_objs ar' /\ a_lex ar' = a_lex ar) -> arenas_ok R m' A'.
Proof.
  intros (Hi & Hd & Hl & Hpl & Hs) Hg Hi' Hd' Hsub. pose proof Hg as (Hw & Hlv & _ & Hpg).
  split_and!; [done|congruence|..].
  - intros r a' Ha'. assert (Hr : is_Some (A !! r)) by (apply elem_of_dom; rewrite <- Hd'; by eapply elem_of_dom_2).
    destruct Hr as [a Ha]. destruct (Hsub r a Ha) as (a1 & Ha1 & _ & E). simplify_eq.
    rewrite E. by eapply Hl.
  - intros q Hq. destruct (Hpg q Hq) as [Hq'|]; [|done]. destruct (Hpl q Hq') as [b Hb].
    exists b. by apply Hlv.
  - intros a. rewrite Hw. intros Ha. eapply slot_grows; [exact Hg|by apply Hs|].
    intros r ar Har. destruct (Hsub r ar Har) as (ar' & ? & ? & _). by exists ar'.
Qed.

Lemma arenas_ok_heap R m m' A : arenas_ok R m A -> grows m m' -> mem_inv m' A -> arenas_ok R m' A.
Proof. intros HA Hg Hi'. eapply arenas_ok_grows; try done. intros r ar Har. by exists ar. Qed.

(** The new block is a slot of the same arenas. *)
Lemma heap_block_arenas R m m' A n z p : arenas_ok R m A -> fresh_block m m' n z p -> 0 <= n ->
  arenas_ok R m' A /\ words m' = words m /\ 0 < p /\ p mod 8 = 0 /\ p + n < 4294967296 /\
  (forall a, is_Some (words m !! a) -> a + 4 <= p \/ p + n <= a) /\
  gc_live (heap m') !! p = Some (n, z) /\ pages m' !! p = None.
Proof.
  intros HA Hf Hn. pose proof HA as (Hi & Hd & Hl & Hpl & Hs).
  pose proof (fresh_block_grows _ _ _ _ _ Hf) as Hg. pose proof Hg as (Hw & _).
  pose proof (arenas_ok_heap R m m' A HA Hg (fresh_block_inv _ _ _ _ _ _ Hi Hf)) as HA'.
  pose proof Hf as (h' & -> & _ & (? & ? & ? & _) & Hfr & Hlv).
  split_and!; [done|done|lia..| | |].
  - intros a Ha. destruct (Hs a Ha) as (q & k & ? & ? & [(r & ar & Har & Hq)|(z1 & Hb & _)]).
    + destruct (obj_block _ _ _ _ _ _ Hi Har Hq) as (b & kb & z1 & Hb & ? & ? & ? & _ & _).
      destruct (Hfr _ _ _ Hb); lia.
    + destruct (Hfr _ _ _ Hb); lia.
  - simpl. by rewrite Hlv, lookup_insert_eq.
  - apply eq_None_not_Some. intros Hp. destruct (Hpl p Hp) as [[k z'] Hb].
    by apply (fresh_not_live m n p p k z' Hfr Hb).
Qed.

Lemma heap_block_fresh R m m' n z p : heap_ok R m -> fresh_block m m' n z p -> 0 <= n ->
  new_object R m n p m'.
Proof.
  intros (A & HA) Hf Hn. destruct (heap_block_arenas R m m' A n z p HA Hf Hn) as (HA' & Hw & ? & ? & ? & Hap & Hb & Hpg).
  split_and!; try done; [by exists A|]. exists A. split; [done|]. intros a ? ?. exists p, n. split_and!; [done..|]. right. by exists z.
Qed.

(** A new object of a region is away from every slot there was before. *)
Lemma region_object_fresh m m' A r ar new p n a : mem_inv m A -> grows m m' ->
  A !! r = Some ar ->
  mem_inv m' (<[r := mk_arena (a_lex ar) (new ++ a_pages ar) ((p, n) :: a_objs ar)]> A) ->
  slot m A a -> a + 4 <= p \/ p + n <= a.
Proof.
  intros Hi (Hw & Hg & Hp & _) Har Hi' (q & k & ? & ? & Hs).
  assert (Hin : (p, n) ∈ a_objs (mk_arena (a_lex ar) (new ++ a_pages ar) ((p, n) :: a_objs ar))) by left.
  assert (Hap : apart (p, n) (q, k)); [|unfold apart in Hap; simpl in Hap; lia].
  destruct Hs as [(r1 & a1 & Ha1 & Hq)|(z & Hb & Hn)].
  - destruct (decide (r1 = r)) as [->|Hne].
    + simplify_eq. destruct (mi_rgn _ _ Hi' r _ (lookup_insert_eq _ _ _)) as (_ & o & _ & _ & Ho).
      pose proof (ao_apart _ _ _ _ _ Ho) as Hap. simpl in Hap. inversion Hap as [|? ? Hall _]. subst.
      rewrite List.Forall_forall in Hall. apply Hall. by apply list_elem_of_In.
    + apply (cross_apart m' _ r r1 _ a1 _ _ Hi' (not_eq_sym Hne) (lookup_insert_eq _ _ _));
        [by rewrite lookup_insert_ne|done|done].
  - destruct (obj_block _ _ _ _ _ _ Hi' (lookup_insert_eq _ _ _) Hin)
      as (b & kb & zb & Hbb & ? & ? & ? & _ & Hpb).
    assert (Hne : b <> q).
    { intros ->. rewrite Hp in Hpb by (by eexists). rewrite Hn in Hpb. by destruct Hpb. }
    unfold apart. simpl. destruct (mi_disj _ _ Hi' _ _ _ _ _ _ Hbb (Hg _ _ Hb) Hne); lia.
Qed.

(** Where the object of [n] bytes at [p] that was allocated in [r] lies. *)
Definition placed (m : mem H) (A : gmap Z arena) (r n p : Z) (A' : gmap Z arena) : Prop :=
  (r = CYC_CORE_HEAP_REGION /\ A' = A /\ exists z, gc_live (heap m) !! p = Some (n, z) /\ pages m !! p = None) \/
  (exists ar ar', A !! r = Some ar /\ A' = <[r := ar']> A /\ a_objs ar' = (p, n) :: a_objs ar).

Lemma placed_slot m A A' r n p a : placed m A r n p A' -> p <= a -> a + 4 <= p + n -> slot m A' a.
Proof.
  intros [(_ & -> & z & Hb & Hp)|(ar & ar' & _ & -> & Ho)] ? ?; exists p, n; (split_and!; [done..|]).
  - right. by exists z.
  - left. exists r, ar'. rewrite lookup_insert_eq, Ho. split; [done|left].
Qed.

(** Allocation in the heap or in a lexical region. *)
Lemma region_malloc_arenas self R A r n m : arenas_ok R m A -> rgn_in R r -> 0 <= n <= MAX_MALLOC_SIZE ->
  wp (_region_malloc self r n)
    (fun p m' => exists A', arenas_ok R m' A' /\ grows m m' /\ 0 < p /\ p mod 8 = 0 /\ p + n < 4294967296 /\
       (forall a, is_Some (words m !! a) -> a + 4 <= p \/ p + n <= a) /\ placed m' A r n p A')
    (fun e m' => e = Cyc_Bad_alloc /\ arenas_ok R m' A /\ grows m m') m.
Proof.
  intros HA Hr Hn. pose proof HA as (Hi & Hd & Hl & Hpl & Hs). destruct Hr as [->|Hr].
  - unfold _region_malloc. simpl. apply wp_bind. unfold wp at 1.
    assert (Hi32 : i32 n = n).
    { apply i32_small. unfold MAX_MALLOC_SIZE in Hn. change (Z.shiftl 1 28) with 268435456 in Hn. lia. }
    rewrite Hi32.
    destruct (bounded_malloc_cases m n this_file 495 (mi_ok _ _ Hi) ltac:(max_size; lia))
      as [(m' & -> & Hh)|(p & m' & -> & Hp & Hf)].
    + pose proof (same_heap_grows _ _ Hh) as Hg. split_and!; [done| |done].
      eapply arenas_ok_heap; [done..|]. by eapply same_heap_inv.
    + rewrite (proj2 (Z.eqb_neq _ _) Hp). apply wp_ret.
      destruct (heap_block_arenas R m m' A n true p HA Hf ltac:(lia)) as (HA' & Hw & ? & ? & ? & Hap & Hb & Hpg).
      exists A. split_and!; try done; [by eapply fresh_block_grows|]. left. eauto.
  - rewrite <- Hd, elem_of_dom in Hr. destruct Hr as [a Ha].
    destruct (mi_rgn _ _ Hi _ _ Ha) as (Hr2 & o & Ho & [Hk Hz] & _). rewrite (Hl _ _ Ha) in Hz.
    destruct o as [h|x]; [|done]. simpl in Hk. unfold wp.
    rewrite (region_malloc_lexical self r n m h Hr2 Ho Hk).
    pose proof (bump_region_grows m r h (round_up n) (mi_ok _ _ Hi)) as Hg.
    pose proof (bump_region_spec m A r a h n Hi Ha Ho ltac:(lia)) as Hres.
    destruct (bump_region r h (round_up n) m) as [[p|[]| | |] m']; try done; simpl in Hg.
    + destruct Hres as (new & Hi' & _). set (a' := mk_arena _ _ _) in Hi'.
      assert (HA' : arenas_ok R m' (<[r := a']> A)).
      { eapply arenas_ok_grows; try done.
        - rewrite dom_insert_L. apply elem_of_dom_2 in Ha. set_solver.
        - intros r1 a1 H1. rewrite lookup_insert. case_decide; [|by exists a1]. subst. simplify_eq.
          exists a'. split; [done|]. split; [|done]. simpl. intros x Hx. by right. }
      assert (Hin : (p, n) ∈ a_objs a') by left.
      destruct (obj_block _ _ _ _ _ _ Hi' (lookup_insert_eq _ _ _) Hin)
        as (b & kb & zb & Hbb & ? & ? & ? & ? & _).
      destruct (mi_good _ _ Hi' _ _ _ Hbb) as (? & _ & ? & _).
      exists (<[r := a']> A). split_and!; try done; try lia.
      * intros x Hx. apply (region_object_fresh m m' A r a new p n x Hi Hg Ha Hi'). by apply Hs.
      * right. by exists a, a'.
    + destruct Hres as [Hi' _]. split_and!; [done| |done]. by eapply arenas_ok_heap.
Qed.

Lemma region_malloc_fresh self R r n m : heap_ok R m -> rgn_in R r -> 0 <= n <= MAX_MALLOC_SIZE ->
  wp (_region_malloc self r n) (fun p m' => new_object R m n p m') (alloc_failed R m) m.
Proof.
  intros (A & HA) Hr Hn. eapply wp_mono; [by apply region_malloc_arenas| |].
  - intros p m' (A' & HA' & (Hw & _) & ? & ? & ? & Hap & Hpl). split_and!; try done; [by exists A'|].
    exists A'. split; [done|]. intros a ? ?. by eapply placed_slot.
  - intros e m' (-> & HA' & (Hw & _)). split_and!; [done|by exists A|done].
Qed.

(** ** Rules on words alone *)

(** The memory is in order and its words are [w]. *)
Definition at_words (R : gset Z) (w : gmap Z Z) (m : mem H) : Prop := heap_ok R m /\ words m = w.

(** The words [p], [p+4], ... of a new object of [k] words. *)
Definition fresh_words (p : Z) (k : nat) (w : gmap Z Z) : Prop :=
  0 < p /\ p mod 8 = 0 /\ p + 4 * Z.of_nat k < 4294967296 /\
  forall a, is_Some (w !! a) -> a + 4 <= p \/ p + 4 * Z.of_nat k <= a.

(** Out of memory: the words in use before are still there. *)
Definition oom (R : gset Z) (w : gmap Z Z) (e : exn) (m : mem H) : Prop :=
  e = Cyc_Bad_alloc /\ exists w', at_words R w' m /\ w ⊆ w'.

Lemma oom_mono R w1 w2 e m : w1 ⊆ w2 -> oom R w2 e m -> oom R w1 e m.
Proof. intros Hw (-> & w' & Hm & Hw'). split; [done|]. exists w'. split; [done|]. by etrans. Qed.

Lemma wp_load R w p v (Q : Z -> mem H -> Prop) E m :
  at_words R w m -> w !! p = Some v -> Q v m -> wp (get_word p) Q E m.
Proof. intros [_ Hw] Hp. apply wp_get_word. by rewrite Hw. Qed.

Lemma wp_store R w p v (Q : unit -> mem H -> Prop) E m :
  at_words R w m -> is_Some (w !! p) -> (forall m', at_words R (<[p := v]> w) m' -> Q tt m') ->
  wp (store_word p v) Q E m.
Proof.
  intros [Hok Hw] Hp HQ. subst w. pose proof Hp as [v0 Hv0]. apply (wp_store_word p v v0); [exact Hv0|].
  apply HQ. split; [by apply heap_ok_store|reflexivity].
Qed.

Lemma wp_with_fuel {A} R w (f : nat -> ST (mem H) A) Q E m : at_words R w m ->
  wp (f (S (size w))) Q E m -> wp (with_fuel f) Q E m.
Proof. intros [_ Hw] Hf. unfold with_fuel. apply wp_bind, wp_get. by rewrite Hw. Qed.

Lemma zero_fill_ok R m A p k : arenas_ok R m A ->
  (forall a, p <= a -> a + 4 <= p + 4 * Z.of_nat k -> slot m A a) -> arenas_ok R (zero_fill p k m) A.
Proof.
  intros (Hi & Hd & Hl & Hpl & Hs) Hsl. split_and!; try done; [by destruct Hi; split|].
  intros a. simpl. clear Hi. change (slot (zero_fill p k m) A a) with (slot m A a).
  revert p Hsl. induction k as [|k IH]; intros p Hsl; simpl; [apply Hs|].
  rewrite lookup_insert. case_decide; [subst; intros _; apply Hsl; lia|].
  apply IH. intros b ? ?. apply Hsl; lia.
Qed.

Lemma wp_zero_fill R m n k p m' (Q : Z -> mem H -> Prop) E : n = 4 * Z.of_nat k ->
  new_object R m n p m' ->
  (forall m2, at_words R (zero_words p k (words m)) m2 -> fresh_words p k (words m) -> Q p m2) ->
  wp (modify (zero_fill p k);; mret p) Q E m'.
Proof.
  intros -> (Hok & Hw & Hp & Hm & Hb & Hf & A & HA & Hsl) HQ. wps. apply HQ.
  - split; [|simpl; by rewrite Hw]. exists A. by apply zero_fill_ok.
  - by split_and!.
Qed.

Lemma wp_new_words self R w r k (Q : Z -> mem H -> Prop) E m : at_words R w m -> rgn_in R r ->
  4 * Z.of_nat k <= MAX_MALLOC_SIZE ->
  (forall p m', at_words R (zero_words p k w) m' -> fresh_words p k w -> Q p m') ->
  (forall m', at_words R w m' -> E Cyc_Bad_alloc m') ->
  wp (new_words self r k) Q E m.
Proof.
  intros [Hok Hw] Hr Hn HQ HE. unfold new_words. apply wp_bind.
  eapply wp_mono; [apply region_malloc_fresh; [done|done|lia]| |].
  - intros p m' Hno. eapply wp_zero_fill; [done|exact Hno|]. rewrite Hw. apply HQ.
  - intros e m' (-> & Hok' & Hw'). apply HE. split; [done|congruence].
Qed.

(** A new heap block, whether it is scanned or not. *)
Lemma wp_heap_words R w k (c : ST (mem H) Z) (Q : Z -> mem H -> Prop) E m : at_words R w m ->
  ((exists f l m', c m = (Thrown Cyc_Bad_alloc f l, m') /\ same_heap m m') \/
   (exists p m' z, c m = (Ret p, m') /\ fresh_block m m' (4 * Z.of_nat k) z p)) ->
  (forall p m', at_words R (zero_words p k w) m' -> fresh_words p k w -> Q p m') ->
  (forall m', at_words R w m' -> E Cyc_Bad_alloc m') ->
  wp (p ← c; modify (zero_fill p k);; mret p) Q E m.
Proof.
  intros [Hok Hw] Hc HQ HE. apply wp_bind. unfold wp at 1. pose proof Hok as (A & HA). pose proof HA as (Hi & _).
  destruct Hc as [(f & l & m' & -> & Hh)|(p & m' & z & -> & Hf)].
  - apply HE. pose proof (same_heap_grows _ _ Hh) as Hg. pose proof Hg as (Hw' & _).
    split; [|congruence]. exists A. eapply arenas_ok_heap; [done..|]. by eapply same_heap_inv.
  - eapply wp_zero_fill; [done|eapply heap_block_fresh; [done..|lia]|]. rewrite Hw. apply HQ.
Qed.

Lemma wp_cycalloc R w k file line (Q : Z -> mem H -> Prop) E m : at_words R w m ->
  4 * Z.of_nat k <= MAX_MALLOC_SIZE ->
  (forall p m', at_words R (zero_words p k w) m' -> fresh_words p k w -> Q p m') ->
  (forall m', at_words R w m' -> E Cyc_Bad_alloc m') ->
  wp (cycalloc_words k file line) Q E m.
Proof.
  intros Hm Hn. pose proof Hm as [(A & Hi & _) _]. apply wp_heap_words; [done|].
  destruct (bounded_malloc_cases m (4 * Z.of_nat k) file line (mi_ok _ _ Hi) ltac:(max_size; lia))
    as [(m' & -> & Hh)|(p & m' & -> & Hp & Hf)]; eauto 10.
Qed.

Lemma wp_cycalloc_atomic R w k file line (Q : Z -> mem H -> Prop) E m : at_words R w m ->
  4 * Z.of_nat k <= MAX_MALLOC_SIZE ->
  (forall p m', at_words R (zero_words p k w) m' -> fresh_words p k w -> Q p m') ->
  (forall m', at_words R w m' -> E Cyc_Bad_alloc m') ->
  wp (cycalloc_atomic_words k file line) Q E m.
Proof.
  intros Hm Hn. pose proof Hm as [(A & Hi & _) _]. apply wp_heap_words; [done|].
  destruct (bounded_malloc_atomic_cases m (4 * Z.of_nat k) file line (mi_ok _ _ Hi) ltac:(max_size; lia))
    as [(m' & -> & Hh)|(p & m' & -> & Hp & Hf)]; eauto 10.
Qed.

(** A state in which nothing has been allocated. *)
Lemma heap_ok_init R m : init_ok m -> words m = ∅ -> pages m = ∅ ->
  (forall r, r ∈ R -> exists h, rgns m !! r = Some (ARegion h)) -> at_words R ∅ m.
Proof.
  intros (Hok & Hl & Hd & Hx & Hr) Hw Hp HR. split; [|done].
  exists (gset_to_gmap (mk_arena true [] []) R). split_and!.
  - split; try done; rewrite ?Hl; try done.
    + intros r a. rewrite lookup_gset_to_gmap_Some. intros [Hin <-]. destruct (HR r Hin) as [h Hh].
      destruct (Hr r _ Hh) as (? & Hk & Ha). split; [done|]. exists (ARegion h). split_and!; try done.
      rewrite Ha. split; simpl; try done; [constructor|set_solver..|constructor].
    + intros r1 r2 a1 a2 q. rewrite !lookup_gset_to_gmap_Some. intros [_ <-] _ Hq. simpl in Hq. set_solver.
  - apply dom_gset_to_gmap.
  - intros r a. rewrite lookup_gset_to_gmap_Some. by intros [_ <-].
  - intros q. rewrite Hp, lookup_empty. by intros [? ?].
  - intros a. rewrite Hw, lookup_empty. by intros [? ?].
Qed.
End spec.
#[global] Opaque wp.
