(* ===== verification/CycList.v ===== *)
(** * The list library

    Models src/bin/genfiles/list.c, the C code of Cyclone's list library: cells
    of two words ([hd], [tl]) in word memory.  Functions that differ only in an
    environment argument or in the region they pass share a helper; a callback
    may read and change the memory and may throw.  [self] is the running
    thread.  A loop over a cyclic list does not end; in the model it runs out
    of fuel, which is [Undef]. *)

From S2P Require Import Prelude Alloc FatPtr RwLock Region Words.

Definition list_cyc : string := "list.cyc".
Definition Cyc_List_List_mismatch : exn := Cyc_Other_exn "List_mismatch".
Definition Cyc_List_Nth : exn := Cyc_Other_exn "Nth".

Section list.
Context {H : Type} `{Heap H} (self : Z).
Abbreviation M := (ST (mem H)).

(** ** Cells *)

Definition get_hd (x : Z) : M Z := get_word x.
Definition get_tl (x : Z) : M Z := get_word (x + 4).
Definition set_hd (x v : Z) : M unit := store_word x v.
Definition set_tl (x v : Z) : M unit := store_word (x + 4) v.
Definition throw_at {A} (e : exn) (line : Z) : M A := lift (Thrown e list_cyc line).

(** [({struct Cyc_List_List*_tmp=_region_malloc(r,sizeof( *_tmp));_tmp->hd=hd,_tmp->tl=tl;_tmp;})] *)
Definition new_cell (r hd tl : Z) : M Z :=
  p ← new_words self r 2; set_hd p hd;; set_tl p tl;; mret p.

Definition is_null (x : Z) : bool := x =? 0.

(** ** Length, access, construction *)

Definition Cyc_List_length (x : Z) : M Z :=
  with_fuel (fun n => loop n (fun '(x, i) =>
    if is_null x then mret (inr i)
    else t ← get_tl x; mret (inl (t, i32 (i + 1)))) (x, 0)).

Definition Cyc_List_hd (x : Z) : M Z := get_hd x.
Definition Cyc_List_tl (x : Z) : M Z := get_tl x.

(** The index counts down from the last element; being unsigned it wraps
    around below zero and fails the test. *)
Definition Cyc_List_rlist (r : Z) (argv : fat_ptr) : M Z :=
  let n := _get_fat_size argv 4 in
  loop (S (Z.to_nat n)) (fun '(i, result) =>
    if i <? n then
      p ← new_words self r 2;
      v ← get_word (u32 (FatPtr.curr argv + 4 * i32 i));
      set_hd p v;; set_tl p result;; mret (inl (u32 (i - 1), p))
    else mret (inr result)) (u32 (n - 1), 0).

Definition Cyc_List_list (argv : fat_ptr) : M Z :=
  let n := _get_fat_size argv 4 in
  loop (S (Z.to_nat n)) (fun '(i, result) =>
    if 0 <=? i then
      p ← cycalloc_words 2 list_cyc 66;
      a ← lift (_check_fat_subscript argv 4 i list_cyc 66);
      v ← get_word a;
      set_hd p v;; set_tl p result;; mret (inl (i - 1, p))
    else mret (inr result)) (i32 (u32 (n - 1)), 0).

(** ** Copying and mapping *)

(** The common code of [rcopy], [rmap] and [rmap_c]: a new list whose elements
    are computed by [f]. *)
Definition map_cells (r : Z) (f : Z -> M Z) (x : Z) : M Z :=
  if is_null x then mret 0
  else
    result ← new_words self r 2;
    h ← get_hd x; v ← f h; set_hd result v;; set_tl result 0;;
    x ← get_tl x;
    with_fuel (fun n => loop n (fun '(x, prev) =>
      if is_null x then mret (inr result)
      else
        temp ← new_words self r 2;
        h ← get_hd x; v ← f h; set_hd temp v;; set_tl temp 0;;
        set_tl prev temp;;
        t ← get_tl x; mret (inl (t, temp))) (x, result)).

Definition Cyc_List_rcopy (r2 x : Z) : M Z := map_cells r2 mret x.
Definition Cyc_List_copy (x : Z) : M Z := Cyc_List_rcopy Cyc_Core_heap_region x.
Definition Cyc_List_rmap (r2 : Z) (f : Z -> M Z) (x : Z) : M Z := map_cells r2 f x.
Definition Cyc_List_map (f : Z -> M Z) (x : Z) : M Z := Cyc_List_rmap Cyc_Core_heap_region f x.
Definition Cyc_List_rmap_c (r2 : Z) (f : Z -> Z -> M Z) (env x : Z) : M Z := map_cells r2 (f env) x.
Definition Cyc_List_map_c (f : Z -> Z -> M Z) (env x : Z) : M Z :=
  Cyc_List_rmap_c Cyc_Core_heap_region f env x.

(** The loop over two lists of [rmap2] and [rzip]; [mk] allocates the new cell
    and computes its head. *)
Definition map2_cells (mk : Z -> Z -> M Z) (throw1 throw2 : Z) (x y : Z) : M Z :=
  if is_null x && is_null y then mret 0
  else if is_null x || is_null y then throw_at Cyc_List_List_mismatch throw1
  else
    result ← mk x y;
    x ← get_tl x; y ← get_tl y;
    with_fuel (fun n => loop n (fun '(x, y, prev) =>
      if negb (is_null x) && negb (is_null y) then
        temp ← mk x y;
        set_tl prev temp;;
        x ← get_tl x; y ← get_tl y; mret (inl (x, y, temp))
      else if negb (is_null x) || negb (is_null y) then throw_at Cyc_List_List_mismatch throw2
      else mret (inr result)) (x, y, result)).

Definition Cyc_List_rmap2 (r3 : Z) (f : Z -> Z -> M Z) (x y : Z) : M Z :=
  map2_cells (fun x y =>
    p ← new_words self r3 2;
    a ← get_hd x; b ← get_hd y; v ← f a b; set_hd p v;; set_tl p 0;; mret p) 139 154 x y.
Definition Cyc_List_map2 (f : Z -> Z -> M Z) (x y : Z) : M Z :=
  Cyc_List_rmap2 Cyc_Core_heap_region f x y.

(** The same over three lists, for [rmap3] and [rzip3]. *)
Definition map3_cells (mk : Z -> Z -> Z -> M Z) (throw1 throw2 : Z) (x y z : Z) : M Z :=
  if is_null x && is_null y && is_null z then mret 0
  else if is_null x || is_null y || is_null z then throw_at Cyc_List_List_mismatch throw1
  else
    result ← mk x y z;
    x ← get_tl x; y ← get_tl y; z ← get_tl z;
    with_fuel (fun n => loop n (fun '(x, y, z, prev) =>
      if negb (is_null x) && negb (is_null y) && negb (is_null z) then
        temp ← mk x y z;
        set_tl prev temp;;
        x ← get_tl x; y ← get_tl y; z ← get_tl z; mret (inl (x, y, z, temp))
      else if negb (is_null x) || negb (is_null y) || negb (is_null z)
      then throw_at Cyc_List_List_mismatch throw2
      else mret (inr result)) (x, y, z, result)).

Definition Cyc_List_rmap3 (r3 : Z) (f : Z -> Z -> Z -> M Z) (x y z : Z) : M Z :=
  map3_cells (fun x y z =>
    p ← new_words self r3 2;
    a ← get_hd x; b ← get_hd y; c ← get_hd z; v ← f a b c;
    set_hd p v;; set_tl p 0;; mret p) 168 185 x y z.
Definition Cyc_List_map3 (f : Z -> Z -> Z -> M Z) (x y z : Z) : M Z :=
  Cyc_List_rmap3 Cyc_Core_heap_region f x y z.

(** ** Iteration and folds *)

(** [while(x != 0){ f(x->hd); x=x->tl; }] *)
Definition iter_cells {A} (f : Z -> M A) (x : Z) : M unit :=
  with_fuel (fun n => loop n (fun x =>
    if is_null x then mret (inr tt)
    else h ← get_hd x; f h;; t ← get_tl x; mret (inl t)) x).

Definition Cyc_List_app (f : Z -> M Z) (x : Z) : M unit := iter_cells f x.
Definition Cyc_List_app_c (f : Z -> Z -> M Z) (env x : Z) : M unit := iter_cells (f env) x.
Definition Cyc_List_iter (f : Z -> M unit) (x : Z) : M unit := iter_cells f x.
Definition Cyc_List_iter_c (f : Z -> Z -> M unit) (env x : Z) : M unit := iter_cells (f env) x.

Definition iter2_cells {A} (f : Z -> Z -> M A) (line : Z) (x y : Z) : M unit :=
  with_fuel (fun n => loop n (fun '(x, y) =>
    if negb (is_null x) && negb (is_null y) then
      a ← get_hd x; b ← get_hd y; f a b;;
      x ← get_tl x; y ← get_tl y; mret (inl (x, y))
    else if negb (is_null x) || negb (is_null y) then throw_at Cyc_List_List_mismatch line
    else mret (inr tt)) (x, y)).

Definition Cyc_List_app2 (f : Z -> Z -> M Z) (x y : Z) : M unit := iter2_cells f 235 x y.
Definition Cyc_List_app2_c (f : Z -> Z -> Z -> M Z) (env x y : Z) : M unit :=
  iter2_cells (f env) 244 x y.
Definition Cyc_List_iter2 (f : Z -> Z -> M unit) (x y : Z) : M unit := iter2_cells f 255 x y.
Definition Cyc_List_iter2_c (f : Z -> Z -> Z -> M unit) (env x y : Z) : M unit :=
  iter2_cells (f env) 263 x y.

Definition Cyc_List_fold_left (f : Z -> Z -> M Z) (accum x : Z) : M Z :=
  with_fuel (fun n => loop n (fun '(accum, x) =>
    if is_null x then mret (inr accum)
    else h ← get_hd x; accum ← f accum h; t ← get_tl x; mret (inl (accum, t))) (accum, x)).
Definition Cyc_List_fold_left_c (f : Z -> Z -> Z -> M Z) (env accum x : Z) : M Z :=
  Cyc_List_fold_left (f env) accum x.

Fixpoint fold_right_rec (fuel : nat) (f : Z -> Z -> M Z) (x accum : Z) : M Z :=
  match fuel with
  | O => lift Undef
  | S fuel =>
      if is_null x then mret accum
      else h ← get_hd x; t ← get_tl x; a ← fold_right_rec fuel f t accum; f h a
  end.
Definition Cyc_List_fold_right (f : Z -> Z -> M Z) (x accum : Z) : M Z :=
  with_fuel (fun n => fold_right_rec n f x accum).
Definition Cyc_List_fold_right_c (f : Z -> Z -> Z -> M Z) (env x accum : Z) : M Z :=
  Cyc_List_fold_right (f env) x accum.

(** ** Reversal and concatenation *)

Definition Cyc_List_rrevappend (r2 x y : Z) : M Z :=
  with_fuel (fun n => loop n (fun '(x, y) =>
    if is_null x then mret (inr y)
    else
      p ← new_words self r2 2; h ← get_hd x; set_hd p h;; set_tl p y;;
      t ← get_tl x; mret (inl (t, p))) (x, y)).
Definition Cyc_List_revappend (x y : Z) : M Z := Cyc_List_rrevappend Cyc_Core_heap_region x y.
Definition Cyc_List_rrev (r2 x : Z) : M Z :=
  if is_null x then mret 0 else Cyc_List_rrevappend r2 x 0.
Definition Cyc_List_rev (x : Z) : M Z := Cyc_List_rrev Cyc_Core_heap_region x.

Definition Cyc_List_imp_rev (x : Z) : M Z :=
  if is_null x then mret x
  else
    second ← get_tl x;
    set_tl x 0;;
    with_fuel (fun n => loop n (fun '(first, second) =>
      if is_null second then mret (inr first)
      else
        temp ← get_tl second;
        set_tl second first;;
        mret (inl (second, temp))) (x, second)).

Definition Cyc_List_rappend (r2 x y : Z) : M Z :=
  if is_null x then mret y
  else if is_null y then Cyc_List_rcopy r2 x
  else
    result ← new_words self r2 2;
    h ← get_hd x; set_hd result h;; set_tl result 0;;
    x ← get_tl x;
    with_fuel (fun n => loop n (fun '(x, prev) =>
      if is_null x then set_tl prev y;; mret (inr result)
      else
        temp ← new_words self r2 2;
        h ← get_hd x; set_hd temp h;; set_tl temp 0;;
        set_tl prev temp;;
        t ← get_tl x; mret (inl (t, temp))) (x, result)).
Definition Cyc_List_append (x y : Z) : M Z := Cyc_List_rappend Cyc_Core_heap_region x y.

Definition Cyc_List_imp_append (x y : Z) : M Z :=
  if is_null x then mret y
  else if is_null y then mret x
  else
    with_fuel (fun n => loop n (fun z =>
      z' ← lift (_check_null z list_cyc 367);
      t ← get_tl z';
      if is_null t then set_tl z y;; mret (inr x) else mret (inl t)) x).

Definition Cyc_List_rflatten (r3 x : Z) : M Z :=
  Cyc_List_fold_right_c Cyc_List_rappend r3 x 0.
Definition Cyc_List_flatten (x : Z) : M Z := Cyc_List_rflatten Cyc_Core_heap_region x.

(** ** Merging and sorting *)

Definition Cyc_List_imp_merge (less_eq : Z -> Z -> M Z) (a b : Z) : M Z :=
  if is_null a then mret b
  else if is_null b then mret a
  else
    ha ← get_hd a; hb ← get_hd b; i ← less_eq ha hb;
    st ← (if i <=? 0 then t ← get_tl a; mret (t, b, a) else t ← get_tl b; mret (a, t, b));
    let '(_, _, d) := st in
    with_fuel (fun n => loop n (fun '(a, b, c) =>
      if negb (is_null a) && negb (is_null b) then
        ha ← get_hd a; hb ← get_hd b; i ← less_eq ha hb;
        if i <=? 0 then set_tl c a;; t ← get_tl a; mret (inl (t, b, a))
        else set_tl c b;; t ← get_tl b; mret (inl (a, t, b))
      else
        (if is_null a then set_tl c b else set_tl c a);;
        mret (inr d)) st).

(** The loop that deals the cells from [x] on alternately to the lists ending
    in [aptr] and [bptr]. *)
Definition deal_cells (x aptr bptr : Z) : M unit :=
  with_fuel (fun n => loop n (fun '(x, aptr, bptr) =>
    if is_null x then
      set_tl aptr 0;; set_tl bptr 0;; mret (inr tt)
    else
      set_tl aptr x;;
      let aptr := x in
      x ← get_tl x;
      if negb (is_null x) then
        set_tl bptr x;;
        let bptr := x in
        x ← get_tl x; mret (inl (x, aptr, bptr))
      else mret (inl (x, aptr, bptr))) (x, aptr, bptr)).

Fixpoint imp_merge_sort_rec (fuel : nat) (less_eq : Z -> Z -> M Z) (x : Z) : M Z :=
  match fuel with
  | O => lift Undef
  | S fuel =>
      if is_null x then mret x
      else
        temp ← get_tl x;
        if is_null temp then mret x
        else
          let a := x in
          let b := temp in
          x ← get_tl b;
          deal_cells x a b;;
          a' ← imp_merge_sort_rec fuel less_eq a;
          b' ← imp_merge_sort_rec fuel less_eq b;
          Cyc_List_imp_merge less_eq a' b'
  end.
Definition Cyc_List_rimp_merge_sort (less_eq : Z -> Z -> M Z) (x : Z) : M Z :=
  with_fuel (fun n => imp_merge_sort_rec n less_eq x).

Definition Cyc_List_rmerge_sort (r2 : Z) (less_eq : Z -> Z -> M Z) (x : Z) : M Z :=
  y ← Cyc_List_rcopy r2 x; Cyc_List_rimp_merge_sort less_eq y.
Definition Cyc_List_merge_sort (less_eq : Z -> Z -> M Z) (x : Z) : M Z :=
  Cyc_List_rmerge_sort Cyc_Core_heap_region less_eq x.

Definition Cyc_List_rmerge (r3 : Z) (less_eq : Z -> Z -> M Z) (a b : Z) : M Z :=
  if is_null a then Cyc_List_rcopy r3 b
  else if is_null b then Cyc_List_rcopy r3 a
  else
    ha ← get_hd a; hb ← get_hd b; i ← less_eq ha hb;
    st ← (if i <=? 0 then
            c ← new_words self r3 2; h ← get_hd a; set_hd c h;; set_tl c 0;;
            t ← get_tl a; mret (t, b, c)
          else
            c ← new_words self r3 2; h ← get_hd b; set_hd c h;; set_tl c 0;;
            t ← get_tl b; mret (a, t, c));
    let '(_, _, d) := st in
    with_fuel (fun n => loop n (fun '(a, b, c) =>
      if negb (is_null a) && negb (is_null b) then
        ha ← get_hd a; hb ← get_hd b; i ← less_eq ha hb;
        if i <=? 0 then
          temp ← new_words self r3 2; h ← get_hd a; set_hd temp h;; set_tl temp 0;;
          set_tl c temp;; t ← get_tl a; mret (inl (t, b, temp))
        else
          temp ← new_words self r3 2; h ← get_hd b; set_hd temp h;; set_tl temp 0;;
          set_tl c temp;; t ← get_tl b; mret (inl (a, t, temp))
      else
        (if is_null a then y ← Cyc_List_rcopy r3 b; set_tl c y
         else y ← Cyc_List_rcopy r3 a; set_tl c y);;
        mret (inr d)) st).
Definition Cyc_List_merge (less_eq : Z -> Z -> M Z) (a b : Z) : M Z :=
  Cyc_List_rmerge Cyc_Core_heap_region less_eq a b.

(** ** Searching *)

Definition Cyc_List_nth (x i : Z) : M Z :=
  with_fuel (fun n => loop n (fun '(x, i) =>
    if (0 <? i) && negb (is_null x) then t ← get_tl x; mret (inl (t, i - 1))
    else if (i <? 0) || is_null x then throw_at Cyc_List_Nth 526
    else h ← get_hd x; mret (inr h)) (x, i)).

Definition Cyc_List_nth_tail (x i : Z) : M Z :=
  if i <? 0 then throw_at Cyc_List_Nth 533
  else
    with_fuel (fun n => loop n (fun '(x, i) =>
      if negb (i =? 0) then
        if is_null x then throw_at Cyc_List_Nth 535
        else t ← get_tl x; mret (inl (t, i - 1))
      else mret (inr x)) (x, i)).

(** [while(x != 0 && test(x->hd)){x=x->tl;}]: the cell the loop stops at. *)
Definition skip_while (test : Z -> M bool) (x : Z) : M Z :=
  with_fuel (fun n => loop n (fun x =>
    if is_null x then mret (inr x)
    else
      h ← get_hd x; b ← test h;
      if b : bool then t ← get_tl x; mret (inl t) else mret (inr x)) x).

Definition Cyc_List_forall (pred : Z -> M Z) (x : Z) : M bool :=
  x ← skip_while (fun h => i ← pred h; mret (negb (i =? 0))) x; mret (is_null x).
Definition Cyc_List_forall_c (pred : Z -> Z -> M Z) (env x : Z) : M bool :=
  Cyc_List_forall (pred env) x.
Definition Cyc_List_exists (pred : Z -> M Z) (x : Z) : M bool :=
  x ← skip_while (fun h => i ← pred h; mret (i =? 0)) x; mret (negb (is_null x)).
Definition Cyc_List_exists_c (pred : Z -> Z -> M Z) (env x : Z) : M bool :=
  Cyc_List_exists (pred env) x.

Definition Cyc_List_find_c (pred : Z -> Z -> M Z) (env x : Z) : M Z :=
  with_fuel (fun n => loop n (fun '(x, v) =>
    if is_null x then mret (inr v)
    else
      h ← get_hd x; v ← pred env h;
      if negb (v =? 0) then mret (inr v) else t ← get_tl x; mret (inl (t, v))) (x, 0)).

(** [while(l != 0){ if(test(l->hd)) return found(l->hd); l=l->tl; }] with what
    follows the loop. *)
Definition search_cells {A} (test : Z -> M bool) (found : Z -> M A) (missing : M A) (l : Z) : M A :=
  with_fuel (fun n => loop n (fun l =>
    if is_null l then a ← missing; mret (inr a)
    else
      h ← get_hd l; b ← test h;
      if b : bool then a ← found h; mret (inr a) else t ← get_tl l; mret (inl t)) l).

Definition Cyc_List_memq (l x : Z) : M bool :=
  search_cells (fun h => mret (h =? x)) (fun _ => mret true) (mret false) l.
Definition Cyc_List_mem (cmp : Z -> Z -> M Z) (l x : Z) : M bool :=
  search_cells (fun h => i ← cmp h x; mret (i =? 0)) (fun _ => mret true) (mret false) l.

(** The components of a pair ([struct _tuple2]). *)
Definition fst_word (p : Z) : M Z := get_word p.
Definition snd_word (p : Z) : M Z := get_word (p + 4).
Definition thd_word (p : Z) : M Z := get_word (p + 8).

Definition Cyc_List_assoc (l x : Z) : M Z :=
  search_cells (fun h => k ← fst_word h; mret (k =? x)) snd_word (throw_at Cyc_Core_Not_found 720) l.
Definition Cyc_List_assoc_cmp (cmp : Z -> Z -> M Z) (l x : Z) : M Z :=
  search_cells (fun h => k ← fst_word h; i ← cmp k x; mret (i =? 0)) snd_word
    (throw_at Cyc_Core_Not_found 728) l.
Definition Cyc_List_mem_assoc (l x : Z) : M bool :=
  search_cells (fun h => k ← fst_word h; mret (k =? x)) (fun _ => mret true) (mret false) l.
Definition Cyc_List_mem_assoc_cmp (cmp : Z -> Z -> M Z) (l x : Z) : M bool :=
  search_cells (fun h => k ← fst_word h; i ← cmp k x; mret (i =? 0)) (fun _ => mret true)
    (mret false) l.

Definition Cyc_List_delete_cmp (cmp : Z -> Z -> M Z) (l x : Z) : M Z :=
  with_fuel (fun n => loop n (fun '(iter, prev) =>
    if is_null iter then throw_at Cyc_Core_Not_found 750
    else
      h ← get_hd iter; i ← cmp h x;
      if i =? 0 then
        if is_null prev then l' ← lift (_check_null l list_cyc 741); t ← get_tl l'; mret (inr t)
        else t ← get_tl iter; set_tl prev t;; mret (inr l)
      else t ← get_tl iter; mret (inl (t, iter))) (l, 0)).

Definition Cyc_List_ptrequal (x y : Z) : M Z := mret (if x =? y then 0 else 1).
Definition Cyc_List_delete (l x : Z) : M Z := Cyc_List_delete_cmp Cyc_List_ptrequal l x.

(** A one-word [struct Cyc_Core_Opt] with the first of two equal neighbours. *)
Definition Cyc_List_check_unique (cmp : Z -> Z -> M Z) (x : Z) : M Z :=
  with_fuel (fun n => loop n (fun x =>
    if is_null x then mret (inr 0)
    else
      tl ← get_tl x;
      if negb (is_null tl) then
        a ← get_hd x; b ← get_hd tl; i ← cmp a b;
        if i =? 0 then
          p ← cycalloc_words 1 list_cyc 791; v ← get_hd x; store_word p v;; mret (inr p)
        else mret (inl tl)
      else mret (inl tl)) x).

(** ** Pairs and triples *)

Definition Cyc_List_rzip (r3 r4 x y : Z) : M Z :=
  map2_cells (fun x y =>
    p ← new_words self r3 2;
    q ← new_words self r4 2; a ← get_hd x; store_word q a;; b ← get_hd y; store_word (q + 4) b;;
    set_hd p q;; set_tl p 0;; mret p) 580 595 x y.
Definition Cyc_List_zip (x y : Z) : M Z :=
  Cyc_List_rzip Cyc_Core_heap_region Cyc_Core_heap_region x y.

Definition Cyc_List_rzip3 (r3 r4 x y z : Z) : M Z :=
  map3_cells (fun x y z =>
    p ← new_words self r3 2;
    q ← new_words self r4 3;
    a ← get_hd x; store_word q a;; b ← get_hd y; store_word (q + 4) b;;
    c ← get_hd z; store_word (q + 8) c;;
    set_hd p q;; set_tl p 0;; mret p) 608 625 x y z.
Definition Cyc_List_zip3 (x y z : Z) : M Z :=
  Cyc_List_rzip3 Cyc_Core_heap_region Cyc_Core_heap_region x y z.

(** A cell with the component of the pair at the head of [x]. *)
Definition proj_cell (r : Z) (proj : Z -> M Z) (x : Z) : M Z :=
  p ← new_words self r 2; h ← get_hd x; v ← proj h; set_hd p v;; set_tl p 0;; mret p.

Definition Cyc_List_rsplit (r3 r4 x : Z) : M (Z * Z) :=
  if is_null x then mret (0, 0)
  else
    result1 ← proj_cell r3 fst_word x;
    result2 ← proj_cell r4 snd_word x;
    x ← get_tl x;
    with_fuel (fun n => loop n (fun '(x, prev1, prev2) =>
      if is_null x then mret (inr (result1, result2))
      else
        temp1 ← proj_cell r3 fst_word x;
        temp2 ← proj_cell r4 snd_word x;
        set_tl prev1 temp1;; set_tl prev2 temp2;;
        t ← get_tl x; mret (inl (t, temp1, temp2))) (x, result1, result2)).
Definition Cyc_List_split (x : Z) : M (Z * Z) :=
  Cyc_List_rsplit Cyc_Core_heap_region Cyc_Core_heap_region x.

Definition Cyc_List_rsplit3 (r3 r4 r5 x : Z) : M (Z * Z * Z) :=
  if is_null x then mret (0, 0, 0)
  else
    result1 ← proj_cell r3 fst_word x;
    result2 ← proj_cell r4 snd_word x;
    result3 ← proj_cell r5 thd_word x;
    x ← get_tl x;
    with_fuel (fun n => loop n (fun '(x, prev1, prev2, prev3) =>
      if is_null x then mret (inr (result1, result2, result3))
      else
        temp1 ← proj_cell r3 fst_word x;
        temp2 ← proj_cell r4 snd_word x;
        temp3 ← proj_cell r5 thd_word x;
        set_tl prev1 temp1;; set_tl prev2 temp2;; set_tl prev3 temp3;;
        t ← get_tl x; mret (inl (t, temp1, temp2, temp3))) (x, result1, result2, result3)).
Definition Cyc_List_split3 (x : Z) : M (Z * Z * Z) :=
  Cyc_List_rsplit3 Cyc_Core_heap_region Cyc_Core_heap_region Cyc_Core_heap_region x.

(** ** Arrays *)

Definition Cyc_List_rto_array (r2 x : Z) : M fat_ptr :=
  s ← Cyc_List_length x;
  n ← lift (_check_times (u32 s) 4 list_cyc 800);
  a ← new_words self r2 (Z.to_nat (u32 s));
  loop (S (Z.to_nat (u32 s))) (fun '(i, x) =>
    if i <? u32 s then
      x ← lift (_check_null x list_cyc 800);
      v ← get_hd x; t ← get_tl x;
      store_word (u32 (a + 4 * i)) v;;
      mret (inl (u32 (i + 1), t))
    else mret (inr (_tag_fat a 4 (u32 s)))) (0, x).
Definition Cyc_List_to_array (x : Z) : M fat_ptr := Cyc_List_rto_array Cyc_Core_heap_region x.

Definition Cyc_List_rfrom_array (r2 : Z) (arr : fat_ptr) : M Z :=
  let n := _get_fat_size arr 4 in
  loop (S (Z.to_nat n)) (fun '(i, ans) =>
    if 0 <=? i then
      p ← new_words self r2 2;
      a ← lift (_check_fat_subscript arr 4 i list_cyc 811);
      v ← get_word a;
      set_hd p v;; set_tl p ans;; mret (inl (i - 1, p))
    else mret (inr ans)) (i32 (u32 (n - 1)), 0).
Definition Cyc_List_from_array (arr : fat_ptr) : M Z :=
  Cyc_List_rfrom_array Cyc_Core_heap_region arr.

Definition Cyc_List_rtabulate (r n : Z) (f : Z -> M Z) : M Z :=
  res ← loop (S (Z.to_nat n)) (fun '(i, res) =>
    if i <? n then
      p ← new_words self r 2; v ← f i; set_hd p v;; set_tl p res;; mret (inl (i + 1, p))
    else mret (inr res)) (0, 0);
  Cyc_List_imp_rev res.
Definition Cyc_List_tabulate (n : Z) (f : Z -> M Z) : M Z :=
  Cyc_List_rtabulate Cyc_Core_heap_region n f.
Definition Cyc_List_rtabulate_c (r n : Z) (f : Z -> Z -> M Z) (env : Z) : M Z :=
  Cyc_List_rtabulate r n (f env).
Definition Cyc_List_tabulate_c (n : Z) (f : Z -> Z -> M Z) (env : Z) : M Z :=
  Cyc_List_rtabulate_c Cyc_Core_heap_region n f env.

(** ** Comparison and filtering *)

(** The lists are compared element by element until they share their cells. *)
Definition Cyc_List_list_cmp (cmp : Z -> Z -> M Z) (l1 l2 : Z) : M Z :=
  with_fuel (fun n => loop n (fun '(l1, l2) =>
    if negb (is_null l1) && negb (is_null l2) then
      if l1 =? l2 then mret (inr 0)
      else
        a ← get_hd l1; b ← get_hd l2; i ← cmp a b;
        if negb (i =? 0) then mret (inr i)
        else t1 ← get_tl l1; t2 ← get_tl l2; mret (inl (t1, t2))
    else if negb (is_null l1) then mret (inr 1)
    else if negb (is_null l2) then mret (inr (-1))
    else mret (inr 0)) (l1, l2)).

Definition Cyc_List_list_prefix (cmp : Z -> Z -> M Z) (l1 l2 : Z) : M bool :=
  with_fuel (fun n => loop n (fun '(l1, l2) =>
    if negb (is_null l1) && negb (is_null l2) then
      if l1 =? l2 then mret (inr true)
      else
        a ← get_hd l1; b ← get_hd l2; i ← cmp a b;
        if negb (i =? 0) then mret (inr false)
        else t1 ← get_tl l1; t2 ← get_tl l2; mret (inl (t1, t2))
    else mret (inr (is_null l1))) (l1, l2)).

(** The first cell allocated is a dummy in front of the result. *)
Definition Cyc_List_rfilter (r : Z) (f : Z -> M Z) (l : Z) : M Z :=
  if is_null l then mret 0
  else
    result ← new_words self r 2;
    h ← get_hd l; set_hd result h;; set_tl result 0;;
    with_fuel (fun n => loop n (fun '(l, last) =>
      if is_null l then t ← get_tl result; mret (inr t)
      else
        h ← get_hd l; b ← f h;
        last ← (if negb (b =? 0) then
                  temp ← new_words self r 2;
                  h ← get_hd l; set_hd temp h;; set_tl temp 0;;
                  set_tl last temp;; mret temp
                else mret last);
        t ← get_tl l; mret (inl (t, last))) (l, result)).
Definition Cyc_List_rfilter_c (r : Z) (f : Z -> Z -> M Z) (env l : Z) : M Z :=
  Cyc_List_rfilter r (f env) l.
Definition Cyc_List_filter_c (f : Z -> Z -> M Z) (env l : Z) : M Z :=
  Cyc_List_rfilter_c Cyc_Core_heap_region f env l.
Definition Cyc_List_filter (f : Z -> M Z) (l : Z) : M Z :=
  Cyc_List_rfilter Cyc_Core_heap_region f l.
End list.
