(* ===== verification/ListCells.v ===== *)
(** * Lists in word memory

    The predicates with which the specifications of the list and set libraries
    describe memory: segments of cells, lists, new lists, and a list under
    construction at the end of which cells are appended. *)

From S2P Require Import Prelude Alloc FatPtr RwLock Region RegionSafety Words CycList.

(** ** Segments *)

(** A cell at [p] with head [v] and tail [n]; cells are aligned. *)
Definition cell (w : gmap Z Z) (p v n : Z) : Prop :=
  p <> 0 /\ p mod 8 = 0 /\ w !! p = Some v /\ w !! (p + 4) = Some n.

(** [c] are the addresses and heads of the cells from [x] up to [y]. *)
Fixpoint lseg (w : gmap Z Z) (x : Z) (c : list (Z * Z)) (y : Z) : Prop :=
  match c with
  | [] => x = y
  | (p, v) :: c => x = p /\ exists n, cell w p v n /\ lseg w n c y
  end.

Definition list_at (w : gmap Z Z) (x : Z) (l : list Z) : Prop :=
  exists c, lseg w x c 0 /\ c.*2 = l.

Lemma cell_mono w w' p v n : w ⊆ w' -> cell w p v n -> cell w' p v n.
Proof. intros Hw (? & ? & ? & ?). split_and!; try done; by eapply lookup_weaken. Qed.

Lemma lseg_mono w w' x c y : w ⊆ w' -> lseg w x c y -> lseg w' x c y.
Proof.
  intros Hw. revert x. induction c as [|[p v] c IH]; intros x; [done|].
  intros (-> & n & Hc & Hs). split; [done|]. exists n. split; [by eapply cell_mono|by apply IH].
Qed.

Lemma list_at_mono w w' x l : w ⊆ w' -> list_at w x l -> list_at w' x l.
Proof. intros Hw (c & Hc & Hl). exists c. split; [by eapply lseg_mono|done]. Qed.

Lemma lseg_app w x c1 c2 y : lseg w x (c1 ++ c2) y <-> exists z, lseg w x c1 z /\ lseg w z c2 y.
Proof.
  revert x. induction c1 as [|[p v] c1 IH]; intros x; simpl.
  - split; [by exists x|]. by intros (z & -> & ?).
  - split.
    + intros (-> & n & Hc & Hs). apply IH in Hs as (z & H1 & H2). exists z. split; [|done]. eauto.
    + intros (z & (-> & n & Hc & H1) & H2). split; [done|]. exists n. split; [done|]. apply IH. eauto.
Qed.

Lemma lseg_det w x c c' : lseg w x c 0 -> lseg w x c' 0 -> c = c'.
Proof.
  revert x c'. induction c as [|[p v] c IH]; intros x [|[q u] c']; simpl.
  - done.
  - by intros -> (<- & n & (? & _) & _).
  - by intros (<- & n & (? & _) & _) ->.
  - intros (-> & n & (_ & _ & H1 & H2) & H3) (-> & n' & (_ & _ & H1' & H2') & H3'). simplify_eq.
    f_equal. by eapply IH.
Qed.

Lemma lseg_elem w x c y p : lseg w x c y -> p ∈ c.*1 -> exists v n, cell w p v n.
Proof.
  revert x. induction c as [|[q v] c IH]; intros x Hs Hp; [by apply not_elem_of_nil in Hp|].
  destruct Hs as (-> & n & Hc & Hs). simpl in Hp. apply elem_of_cons in Hp as [->|Hp]; eauto.
Qed.

(** An acyclic list visits no cell twice. *)
Lemma lseg_nodup w x c : lseg w x c 0 -> NoDup c.*1.
Proof.
  revert x. induction c as [|[p v] c IH]; intros x; simpl; [by constructor|].
  intros (-> & n & Hc & Hs). constructor; [|by eapply IH]. intros Hp.
  apply list_elem_of_fmap in Hp as ([q u] & Hq & Hin). simpl in Hq. subst q.
  apply list_elem_of_split in Hin as (c1 & c2 & ->).
  assert (Hp : lseg w p ((p, u) :: c2) 0).
  { apply lseg_app in Hs as (z & _ & Hz). pose proof Hz as (-> & _). exact Hz. }
  assert (Hp' : lseg w p ((p, v) :: c1 ++ (p, u) :: c2) 0) by (simpl; eauto).
  pose proof (lseg_det _ _ _ _ Hp Hp') as E. apply (f_equal length) in E. simpl in E.
  rewrite length_app in E. simpl in E. lia.
Qed.

(** Distinct cells take two words each. *)
Lemma cells_size w (l : list Z) : NoDup l -> (forall p, p ∈ l -> exists v n, cell w p v n) ->
  (2 * length l <= size w)%nat.
Proof.
  intros Hnd Hl. set (l4 := (fun p => p + 4) <$> l).
  assert (Hnd2 : NoDup (l ++ l4)).
  { apply NoDup_app. split; [done|]. split; [|apply NoDup_fmap_2; [|done]; intros ? ? ?; lia].
    intros q Hq Hq4. apply list_elem_of_fmap in Hq4 as (p & -> & Hp).
    destruct (Hl _ Hq) as (? & ? & _ & Hm & _), (Hl p Hp) as (? & ? & _ & Hm' & _). words. }
  replace (2 * length l)%nat with (length (l ++ l4)) by (unfold l4; rewrite length_app, length_fmap; lia).
  rewrite <- size_dom, <- (size_list_to_set (C:=gset Z) _ Hnd2). apply subseteq_size.
  intros p. rewrite elem_of_list_to_set, elem_of_dom, elem_of_app. intros [Hp|Hp].
  - destruct (Hl p Hp) as (v & n & _ & _ & -> & _). by eexists.
  - apply list_elem_of_fmap in Hp as (q & -> & Hq). destruct (Hl q Hq) as (v & n & _ & _ & _ & ->).
    by eexists.
Qed.

Lemma lseg_size w x c : lseg w x c 0 -> (2 * length c <= size w)%nat.
Proof.
  intros Hs. rewrite <- (length_fmap fst). apply cells_size; [by eapply lseg_nodup|].
  intros p. by apply (lseg_elem w x c 0).
Qed.

Lemma lseg_size_2 w x y c d : lseg w x c 0 -> lseg w y d 0 -> NoDup (c ++ d).*1 ->
  (2 * (length c + length d) <= size w)%nat.
Proof.
  intros Hc Hd Hnd. rewrite <- length_app, <- (length_fmap fst). apply cells_size; [done|].
  intros p. rewrite fmap_app, elem_of_app. intros [Hp|Hp]; [exact (lseg_elem _ _ _ _ _ Hc Hp)|exact (lseg_elem _ _ _ _ _ Hd Hp)].
Qed.

Lemma lseg_null w x c y : lseg w x c y -> x = 0 -> c = [].
Proof. destruct c as [|[p v] c]; [done|]. by intros (-> & n & (? & _) & _). Qed.

Lemma list_at_nil w l : list_at w 0 l <-> l = [].
Proof.
  split; [|intros ->; by exists []]. intros (c & Hc & <-). by rewrite (lseg_null _ _ _ _ Hc).
Qed.

Lemma list_at_nil_0 w : list_at w 0 [].
Proof. by apply list_at_nil. Qed.

(** Destructing a list by the test for null. *)
Lemma list_at_cases w x l : list_at w x l ->
  (x = 0 /\ l = []) \/ (x <> 0 /\ exists v n l', l = v :: l' /\ cell w x v n /\ list_at w n l').
Proof.
  intros (c & Hc & <-). destruct c as [|[p v] c]; [left; done|].
  destruct Hc as (-> & n & Hc & Hs). right. split; [by destruct Hc|].
  exists v, n, c.*2. split_and!; try done. by exists c.
Qed.

Lemma list_at_cons w p v n l : cell w p v n -> list_at w n l -> list_at w p (v :: l).
Proof. intros Hc (c & Hs & <-). exists ((p, v) :: c). simpl. eauto. Qed.

Lemma list_at_size w x l : list_at w x l -> (2 * length l <= size w)%nat.
Proof. intros (c & Hs & <-). rewrite length_fmap. by eapply lseg_size. Qed.

(** Changing the tail of a cell that is not in the segment. *)
Lemma cell_set_tl w p q v n t : cell w q v n -> p mod 8 = 0 -> p <> q -> cell (<[p + 4 := t]> w) q v n.
Proof.
  intros (H0 & Hm & H1 & H2) Hp Hne. split_and!; try done; rewrite lookup_insert_ne; try done.
  - intros E. assert ((p + 4) mod 8 = 0) by (by rewrite E). words.
  - lia.
Qed.

Lemma lseg_set_tl w x c y p t : lseg w x c y -> p mod 8 = 0 -> p ∉ c.*1 ->
  lseg (<[p + 4 := t]> w) x c y.
Proof.
  revert x. induction c as [|[q v] c IH]; intros x Hs Hp Hn; [done|].
  destruct Hs as (-> & n & Hc & Hs). simpl in Hn. apply not_elem_of_cons in Hn as [Hne Hn].
  split; [done|]. exists n. split; [by apply cell_set_tl|by apply IH].
Qed.

Lemma cell_set_own_tl w p v n t : cell w p v n -> cell (<[p + 4 := t]> w) p v t.
Proof.
  intros (H0 & Hm & H1 & H2). split_and!; try done; [|apply lookup_insert_eq].
  rewrite lookup_insert_ne by lia. done.
Qed.

(** ** New cells *)

(** The words of a cell at [p] are not in [w]. *)
Definition absent (w : gmap Z Z) (p : Z) : Prop := w !! p = None /\ w !! (p + 4) = None.

Lemma fresh_absent w p k a : fresh_words p k w -> p <= a -> a + 4 <= p + 4 * Z.of_nat k -> w !! a = None.
Proof.
  intros (_ & _ & _ & Hf) H1 H2. apply eq_None_not_Some. intros Ha. destruct (Hf a Ha); lia.
Qed.

Lemma fresh_cell_absent w p : fresh_words p 2 w -> absent w p.
Proof. intros Hf. split; eapply fresh_absent; try done; lia. Qed.

Lemma zero_words_sub p k w : fresh_words p k w -> w ⊆ zero_words p k w.
Proof.
  intros (Hp & Hm & _ & Hf). clear Hm Hp. revert p Hf. induction k as [|k IH]; intros p Hf; [done|].
  simpl. etrans; [apply (IH (p + 4))|].
  - intros a Ha. destruct (Hf a Ha); lia.
  - apply insert_subseteq. assert (Hp : w !! p = None).
    { apply eq_None_not_Some. intros Ha. destruct (Hf p Ha); lia. }
    clear IH Hf. assert (Hlt : p < p + 4) by lia. revert Hlt. generalize (p + 4) as q.
    induction k as [|k IH]; intros q Hlt; [done|]. simpl. rewrite lookup_insert_ne by lia.
    apply IH. lia.
Qed.

(** The two words of a new cell have been written, in a memory [w2] in which
    it was allocated and which may have grown since. *)
Lemma new_cell_cell p v t w w2 : fresh_words p 2 w -> w ⊆ w2 ->
  cell (<[p + 4 := t]> (<[p := v]> w2)) p v t /\ w ⊆ <[p + 4 := t]> (<[p := v]> w2).
Proof.
  intros Hf Hw. pose proof Hf as (Hp & Hm & _). destruct (fresh_cell_absent _ _ Hf) as [H1 H2].
  split.
  - split_and!; try done; [lia| |apply lookup_insert_eq].
    rewrite lookup_insert_ne by lia. apply lookup_insert_eq.
  - apply insert_subseteq_r; [done|]. by apply insert_subseteq_r.
Qed.

(** A list all of whose cells are new. *)
Definition new_list (w w' : gmap Z Z) (y : Z) (l : list Z) : Prop :=
  exists c, lseg w' y c 0 /\ c.*2 = l /\ forall q, q ∈ c.*1 -> absent w q.

Lemma new_list_at w w' y l : new_list w w' y l -> list_at w' y l.
Proof. intros (c & ? & ? & _). by exists c. Qed.

Lemma new_list_nil w w' : new_list w w' 0 [].
Proof. exists []. split_and!; try done. intros q Hq. by apply not_elem_of_nil in Hq. Qed.

(** A new cell in front of a new list. *)
Lemma new_list_cons w w1 w2 p v y l : w ⊆ w1 -> new_list w w1 y l -> fresh_words p 2 w1 -> w1 ⊆ w2 ->
  new_list w (<[p + 4 := y]> (<[p := v]> w2)) p (v :: l) /\ w ⊆ <[p + 4 := y]> (<[p := v]> w2).
Proof.
  intros Hw1 (c & Hc & Hl & Ha) Hf Hw2. destruct (new_cell_cell p v y w1 w2 Hf Hw2) as [Hp Hs].
  split; [|by etrans]. exists ((p, v) :: c). split_and!.
  - split; [done|]. exists y. split; [done|]. by eapply lseg_mono.
  - by rewrite <- Hl.
  - intros q Hq. simpl in Hq. apply elem_of_cons in Hq as [->|Hq]; [|by apply Ha].
    destruct (fresh_cell_absent _ _ Hf). split; by eapply lookup_weaken_None.
Qed.

(** ** A list under construction *)

(** The new cells from [result] to [prev], whose tail is null; [vs] are their
    heads. *)
Definition building (w w' : gmap Z Z) (result prev : Z) (vs : list Z) : Prop :=
  w ⊆ w' /\ exists c pv, lseg w' result (c ++ [(prev, pv)]) 0 /\ (c ++ [(prev, pv)]).*2 = vs /\
    forall q, q ∈ (c ++ [(prev, pv)]).*1 -> absent w q.

Lemma building_mono w w1 w2 r p vs : w1 ⊆ w2 -> building w w1 r p vs -> building w w2 r p vs.
Proof.
  intros Hw (Hs & c & pv & Hc & Hv & Ha). split; [by etrans|]. exists c, pv.
  split; [by eapply lseg_mono|done].
Qed.

Lemma building_prev w w' r p vs : building w w' r p vs ->
  p mod 8 = 0 /\ absent w p /\ is_Some (w' !! (p + 4)).
Proof.
  intros (_ & c & pv & Hc & _ & Ha). apply lseg_app in Hc as (z & _ & (-> & n & Hp & _)).
  split_and!; [by destruct Hp as (_ & ? & _)| |by destruct Hp as (_ & _ & _ & ->); eexists].
  apply Ha. rewrite fmap_app. apply elem_of_app. right. left.
Qed.

(** Writing the tail of the last new cell. *)
Lemma building_link w w' r p vs t : building w w' r p vs -> 
  w ⊆ <[p + 4 := t]> w' /\ exists c, lseg (<[p + 4 := t]> w') r c t /\ c.*2 = vs /\
    forall q, q ∈ c.*1 -> absent w q.
Proof.
  intros Hb. destruct (building_prev _ _ _ _ _ Hb) as (Hm & [_ Hp] & _).
  destruct Hb as (Hw & c & pv & Hc & Hv & Ha). split; [by apply insert_subseteq_r|].
  exists (c ++ [(p, pv)]). split_and!; [|done..].
  pose proof (lseg_nodup _ _ _ Hc) as Hnd. rewrite fmap_app in Hnd. simpl in Hnd.
  apply NoDup_app in Hnd as (_ & Hnd & _).
  apply lseg_app in Hc as (z & H1 & (-> & n & Hcl & _)). apply lseg_app. exists p. split.
  - apply lseg_set_tl; [done|done|]. intros Hin. apply (Hnd p Hin). left.
  - split; [done|]. exists t. split; [by eapply cell_set_own_tl|done].
Qed.

Lemma building_start w w2 p v : fresh_words p 2 w -> w ⊆ w2 ->
  building w (<[p + 4 := 0]> (<[p := v]> w2)) p p [v].
Proof.
  intros Hf Hw2. destruct (new_cell_cell p v 0 w w2 Hf Hw2) as [Hc Hw]. split; [done|]. exists [], v.
  split_and!; [|done|].
  - split; [done|]. by exists 0.
  - intros q Hq. apply list_elem_of_singleton in Hq as ->. by apply fresh_cell_absent.
Qed.

Lemma absent_mono w w' q : w ⊆ w' -> absent w' q -> absent w q.
Proof. intros Hw [H1 H2]. split; by eapply lookup_weaken_None. Qed.

Lemma building_snoc w w' w2 r p vs q v : building w w' r p vs -> fresh_words q 2 w' -> w' ⊆ w2 ->
  building w (<[p + 4 := q]> (<[q + 4 := 0]> (<[q := v]> w2))) r q (vs ++ [v]).
Proof.
  intros Hb Hf Hw2. destruct (new_cell_cell q v 0 w' w2 Hf Hw2) as [Hc Hw].
  assert (Hb' : building w (<[q + 4 := 0]> (<[q := v]> w2)) r p vs) by (by eapply building_mono).
  destruct (building_link _ _ _ _ _ q Hb') as (Hw' & c & Hs & Hv & Ha).
  destruct (building_prev _ _ _ _ _ Hb) as (Hm & _ & [t Ht]).
  split; [done|]. exists c, v. split_and!.
  - apply lseg_app. exists q. split; [done|]. split; [done|]. exists 0. split; [|done].
    apply cell_set_tl; [done|done|]. intros ->. destruct (fresh_cell_absent _ _ Hf). congruence.
  - rewrite fmap_app. simpl. by rewrite Hv.
  - intros x. rewrite fmap_app. change ([(q, v)].*1) with [q]. rewrite elem_of_app, list_elem_of_singleton.
    intros [Hx| ->]; [by apply Ha|].
    apply fresh_cell_absent in Hf. eapply absent_mono; [|done]. by destruct Hb.
Qed.

Lemma building_done w w' r p vs : building w w' r p vs -> new_list w w' r vs.
Proof. intros (_ & c & pv & Hc & Hv & Ha). by exists (c ++ [(p, pv)]). Qed.

Lemma building_prev_ne w w' r p vs : building w w' r p vs -> p <> 0.
Proof.
  intros (_ & c & pv & Hc & _). apply lseg_app in Hc as (z & _ & (-> & n & (? & _) & _)). done.
Qed.

(** ** Rules for cells *)

Section rules.
Context {H : Type} `{HH : Heap H} `{!HeapLaws H} (self : Z).
Implicit Types (m : mem H) (w : gmap Z Z).

Lemma wp_get_hd R w x v n (Q : Z -> mem H -> Prop) E m :
  at_words R w m -> cell w x v n -> Q v m -> wp (get_hd x) Q E m.
Proof. intros Hm (_ & _ & Hx & _). by eapply wp_load. Qed.

Lemma wp_get_tl R w x v n (Q : Z -> mem H -> Prop) E m :
  at_words R w m -> cell w x v n -> Q n m -> wp (get_tl x) Q E m.
Proof. intros Hm (_ & _ & _ & Hx). by eapply wp_load. Qed.

Lemma wp_set_tl R w x t (Q : unit -> mem H -> Prop) E m :
  at_words R w m -> is_Some (w !! (x + 4)) ->
  (forall m', at_words R (<[x + 4 := t]> w) m' -> Q tt m') -> wp (set_tl x t) Q E m.
Proof. apply wp_store. Qed.

Lemma wp_new_cell_words R w r (Q : Z -> mem H -> Prop) E m : at_words R w m -> rgn_in R r ->
  (forall p m', at_words R (zero_words p 2 w) m' -> fresh_words p 2 w -> Q p m') ->
  (forall m', at_words R w m' -> E Cyc_Bad_alloc m') ->
  wp (new_words self r 2) Q E m.
Proof. intros Hm Hr. apply wp_new_words; [done|done|]. unfold MAX_MALLOC_SIZE. simpl. lia. Qed.

(** The head and the tail of a cell allocated in [w] are written. *)
Lemma wp_fill_cell {A} R w w2 p v t (K : ST (mem H) A) (Q : A -> mem H -> Prop) E m :
  fresh_words p 2 w -> zero_words p 2 w ⊆ w2 -> at_words R w2 m ->
  (forall m', at_words R (<[p + 4 := t]> (<[p := v]> w2)) m' -> wp K Q E m') ->
  wp (set_hd p v) (fun _ => wp (set_tl p t;; K) Q E) E m.
Proof.
  intros Hf Hw Hm HQ. pose proof Hf as (Hp & _).
  assert (H1 : w2 !! p = Some 0).
  { eapply lookup_weaken; [|exact Hw]. simpl. apply lookup_insert_eq. }
  assert (H2 : w2 !! (p + 4) = Some 0).
  { eapply lookup_weaken; [|exact Hw]. simpl. rewrite lookup_insert_ne by lia. apply lookup_insert_eq. }
  eapply wp_store; [done|by eexists|]. intros m1 Hm1. apply wp_bind.
  eapply wp_store; [done| |done]. rewrite lookup_insert_ne by lia. by eexists.
Qed.

Lemma wp_new_cell R w r v t (Q : Z -> mem H -> Prop) E m : at_words R w m -> rgn_in R r ->
  (forall p m', fresh_words p 2 w -> at_words R (<[p + 4 := t]> (<[p := v]> (zero_words p 2 w))) m' -> Q p m') ->
  (forall m', at_words R w m' -> E Cyc_Bad_alloc m') -> wp (new_cell self r v t) Q E m.
Proof.
  intros Hm Hr HQ HE. unfold new_cell. wps. eapply wp_new_cell_words; [done|done| |done].
  intros p m1 Hm1 Hf. wps. eapply wp_fill_cell; [exact Hf|done|done|]. intros m2 Hm2. wps. by apply HQ.
Qed.

Lemma wp_check_null x file line (Q : Z -> mem H -> Prop) E m : x <> 0 -> Q x m ->
  wp (lift (_check_null x file line)) Q E m.
Proof.
  intros Hx HQ. unfold _check_null. rewrite (proj2 (Z.eqb_neq _ _) Hx). by apply wp_lift.
Qed.

Lemma oom_now R w1 w' m' : w1 ⊆ w' -> at_words R w' m' -> oom R w1 Cyc_Bad_alloc m'.
Proof. intros Hw Hm. split; [done|]. by exists w'. Qed.

(** A callback that computes [g]: it may allocate, but changes no word in use. *)
Definition computes (R : gset Z) (f : Z -> ST (mem H) Z) (g : Z -> Z) : Prop :=
  forall v w m, at_words R w m ->
    wp (f v) (fun u m' => u = g v /\ exists w', w ⊆ w' /\ at_words R w' m') (oom R w) m.

(** A comparison or predicate that only looks at its arguments. *)
Definition pure1 (f : Z -> ST (mem H) Z) (g : Z -> Z) : Prop := forall v m, f v m = (Ret (g v), m).
Definition pure2 (f : Z -> Z -> ST (mem H) Z) (g : Z -> Z -> Z) : Prop :=
  forall u v m, f u v m = (Ret (g u v), m).

Lemma wp_pure1 f g v (Q : Z -> mem H -> Prop) E m : pure1 f g -> Q (g v) m -> wp (f v) Q E m.
Proof. intros Hf. by apply wp_run. Qed.

Lemma wp_pure2 f g u v (Q : Z -> mem H -> Prop) E m : pure2 f g -> Q (g u v) m -> wp (f u v) Q E m.
Proof. intros Hf. by apply wp_run. Qed.

Lemma pure1_computes R f g : pure1 f g -> computes R f g.
Proof. intros Hf v w m Hm. eapply wp_pure1; [done|]. split; [done|]. by exists w. Qed.
End rules.

(** ** A concrete list *)

(** Three cells in the lexical region 1000 of a memory where nothing else is
    allocated. *)
Definition build_ex : ST (mem bump) Z :=
  a ← new_cell 1 1000 5 0; b ← new_cell 1 1000 7 a; new_cell 1 1000 3 b.
Definition ex_head : Z := match (build_ex ex_mem).1 with Ret x => x | _ => 0 end.
Definition ex_list_mem : mem bump := (build_ex ex_mem).2.

Lemma ex_mem_words : at_words {[1000]} ∅ ex_mem.
Proof.
  apply heap_ok_init; [apply ex_mem_ok|done|done|]. intros r Hr. apply elem_of_singleton in Hr as ->.
  by eexists.
Qed.

Lemma ex_list_ok : exists w, at_words {[1000]} w ex_list_mem /\ list_at w ex_head [3; 7; 5].
Proof.
  assert (Hwp : wp build_ex (fun x m' => exists w, at_words {[1000]} w m' /\ list_at w x [3; 7; 5])
            (fun _ _ => True) ex_mem).
  { assert (Hr : rgn_in {[1000]} 1000) by (right; by apply elem_of_singleton).
    unfold build_ex. wps. eapply wp_new_cell; [apply ex_mem_words|done| |done]. intros a m1 Hfa Hm1.
    destruct (new_cell_cell a 5 0 _ _ Hfa (zero_words_sub _ _ _ Hfa)) as [Ha Hw1].
    wps. eapply wp_new_cell; [done|done| |done]. intros b m2 Hfb Hm2.
    destruct (new_cell_cell b 7 a _ _ Hfb (zero_words_sub _ _ _ Hfb)) as [Hb Hw2].
    eapply wp_new_cell; [done|done| |done]. intros c m3 Hfc Hm3.
    destruct (new_cell_cell c 3 b _ _ Hfc (zero_words_sub _ _ _ Hfc)) as [Hc Hw3].
    eexists. split; [exact Hm3|]. eapply list_at_cons; [exact Hc|].
    eapply list_at_cons; [by eapply cell_mono|]. eapply list_at_cons, list_at_nil_0.
    eapply cell_mono; [exact Hw3|]. by eapply cell_mono. }
  refine (wp_result _ _ _ _ ex_head ex_list_mem Hwp _). vm_compute. reflexivity.
Qed.
