(* ===== verification/WordMem.v ===== *)
(** * Memory as the libraries see it

    What memory promises to compiled code, and arrays in it. *)

From S2P Require Import Prelude DynRegion Alloc FatPtr RwLock Region RegionSafety Words CycList ListCells.

(** ** What memory promises to compiled code

    The interface between the run-time system and the libraries: a predicate
    [P w m] says that the words [w] of memory [m] may be read and written, and
    that allocation adds new ones.  Specifications proved against the interface
    hold for the whole memory, for a part of it while the rest stays as it is
    ([framed]), and for the words inside and outside of a region that lives only
    during a block ([at_split]). *)

(** ** The interface *)

Class WordMem {H} `{Heap H} (P : gmap Z Z -> mem H -> Prop) : Prop := {
  wm_sub w m : P w m -> w ⊆ words m;
  wm_bounds w m a : P w m -> is_Some (w !! a) -> 0 < a /\ a + 4 < 4294967296;
  wm_store w m a v : P w m -> is_Some (w !! a) -> P (<[a := v]> w) (set_word a v m)
}.

(** [c] returns the address of [k] new words, or throws [Cyc_Bad_alloc]. *)
Definition allocates {H} `{Heap H} (P : gmap Z Z -> mem H -> Prop) (k : nat) (c : ST (mem H) Z) : Prop :=
  forall w m, P w m -> wp c (fun p m' => P (zero_words p k w) m' /\ fresh_words p k w)
                         (fun e m' => e = Cyc_Bad_alloc /\ P w m') m.

(** Allocation in the region [r], and in the heap. *)
Class RgnAlloc {H} `{Heap H} (P : gmap Z Z -> mem H -> Prop) (r : Z) : Prop :=
  rgn_alloc self k : 4 * Z.of_nat k <= MAX_MALLOC_SIZE -> allocates P k (new_words self r k).
Class HeapAlloc {H} `{Heap H} (P : gmap Z Z -> mem H -> Prop) : Prop :=
  heap_alloc k file line : 4 * Z.of_nat k <= MAX_MALLOC_SIZE -> allocates P k (cycalloc_words k file line).

Section rules.
Context {H : Type} `{HH : Heap H} (P : gmap Z Z -> mem H -> Prop) `{!WordMem P}.
Implicit Types (m : mem H) (w : gmap Z Z).

(** Out of memory: the words are [w] and perhaps new ones. *)
Definition no_mem w (e : exn) m : Prop := e = Cyc_Bad_alloc /\ exists w', P w' m /\ w ⊆ w'.

Lemma no_mem_mono w1 w2 e m : w1 ⊆ w2 -> no_mem w2 e m -> no_mem w1 e m.
Proof. intros Hw (-> & w' & Hm & Hw'). split; [done|]. exists w'. split; [done|]. by etrans. Qed.

Lemma no_mem_now w w' m : P w' m -> w ⊆ w' -> no_mem w Cyc_Bad_alloc m.
Proof. intros. split; [done|]. by exists w'. Qed.

Lemma wm_load p v w (Q : Z -> mem H -> Prop) E m : P w m -> w !! p = Some v -> Q v m -> wp (get_word p) Q E m.
Proof. intros Hm Hp HQ. eapply wp_get_word; [|done]. eapply lookup_weaken; [done|by apply wm_sub]. Qed.

Lemma wm_put p v w (Q : unit -> mem H -> Prop) E m : P w m -> is_Some (w !! p) ->
  (forall m', P (<[p := v]> w) m' -> Q tt m') -> wp (store_word p v) Q E m.
Proof.
  intros Hm Hp HQ. pose proof Hp as [u Hu]. eapply (wp_store_word p v u).
  - eapply lookup_weaken; [done|by apply wm_sub].
  - apply HQ. by apply wm_store.
Qed.

(** The fuel of a loop exceeds the number of words. *)
Lemma wm_fuel {A} w (f : nat -> ST (mem H) A) Q E m : P w m ->
  (forall n, (size w < n)%nat -> wp (f n) Q E m) -> wp (with_fuel f) Q E m.
Proof.
  intros Hm Hf. unfold with_fuel. apply wp_bind, wp_get. apply Hf.
  pose proof (map_subseteq_size _ _ (wm_sub _ _ Hm)). lia.
Qed.

Lemma wm_new self r `{!RgnAlloc P r} k w (Q : Z -> mem H -> Prop) E m : P w m -> 4 * Z.of_nat k <= MAX_MALLOC_SIZE ->
  (forall p m', P (zero_words p k w) m' -> fresh_words p k w -> Q p m') ->
  (forall m', P w m' -> E Cyc_Bad_alloc m') -> wp (new_words self r k) Q E m.
Proof.
  intros Hm Hk HQ HE. eapply wp_mono; [by apply (rgn_alloc self k)| |].
  - intros p m' [? ?]. by apply HQ.
  - intros e m' [-> ?]. by apply HE.
Qed.

Lemma wm_cycalloc `{!HeapAlloc P} k file line w (Q : Z -> mem H -> Prop) E m : P w m -> 4 * Z.of_nat k <= MAX_MALLOC_SIZE ->
  (forall p m', P (zero_words p k w) m' -> fresh_words p k w -> Q p m') ->
  (forall m', P w m' -> E Cyc_Bad_alloc m') -> wp (cycalloc_words k file line) Q E m.
Proof.
  intros Hm Hk HQ HE. eapply wp_mono; [by apply (heap_alloc k file line)| |].
  - intros p m' [? ?]. by apply HQ.
  - intros e m' [-> ?]. by apply HE.
Qed.
End rules.

(** ** The whole memory *)

Section whole.
Context {H : Type} `{HH : Heap H} `{!HeapLaws H} (R : gset Z).

#[export] Instance at_words_mem : WordMem (at_words (H:=H) R).
Proof.
  split.
  - by intros w m [_ ->].
  - intros w m a [Hok <-]. by apply (heap_ok_bounds R).
  - intros w m a v [Hok <-] Ha. split; [by apply heap_ok_store|done].
Qed.

Lemma at_words_rgn r : rgn_in R r -> RgnAlloc (at_words (H:=H) R) r.
Proof. intros Hr self k Hk w m Hm. by eapply wp_new_words. Qed.

#[export] Instance at_words_heap : HeapAlloc (at_words (H:=H) R).
Proof. intros k file line Hk w m Hm. by eapply wp_cycalloc. Qed.
End whole.

(** ** A part of memory *)

Lemma zero_words_union p k w F : zero_words p k (w ∪ F) = zero_words p k w ∪ F.
Proof. revert p. induction k as [|k IH]; intros p; simpl; [done|]. by rewrite IH, insert_union_l. Qed.

Lemma fresh_words_sub p k w w' : w ⊆ w' -> fresh_words p k w' -> fresh_words p k w.
Proof.
  intros Hw (? & ? & ? & Hf). split_and!; try done. intros a [v Ha]. apply Hf. exists v. by eapply lookup_weaken.
Qed.

Lemma zero_words_dom p k w a : is_Some (zero_words p k w !! a) ->
  is_Some (w !! a) \/ (p <= a /\ a + 4 <= p + 4 * Z.of_nat k).
Proof.
  revert p. induction k as [|k IH]; intros p; simpl; [by left|]. rewrite lookup_insert. case_decide; [right; lia|].
  intros [?|?]%IH; [by left|right; lia].
Qed.

Lemma zero_words_disjoint p k w F : w ##ₘ F -> fresh_words p k F -> zero_words p k w ##ₘ F.
Proof.
  intros Hd (_ & _ & _ & Hf). apply map_disjoint_spec. intros a x y Hx Hy.
  destruct (zero_words_dom p k w a) as [[z Hz]|?]; [by exists x|by eapply map_disjoint_spec|].
  destruct (Hf a) as [?|?]; [by exists y|lia|lia].
Qed.

Section framed.
Context {H : Type} `{HH : Heap H} (P : gmap Z Z -> mem H -> Prop) `{!WordMem P} (F : gmap Z Z).

Definition framed (w : gmap Z Z) (m : mem H) : Prop := w ##ₘ F /\ P (w ∪ F) m.

#[export] Instance framed_mem : WordMem framed.
Proof.
  split.
  - intros w m [Hd Hm]. etrans; [|by eapply wm_sub]. apply map_union_subseteq_l.
  - intros w m a [Hd Hm] [v Ha]. eapply (wm_bounds _ _ a Hm). exists v. by apply lookup_union_Some_l.
  - intros w m a v [Hd Hm] [u Ha]. split.
    + apply map_disjoint_insert_l_2; [|done]. by eapply map_disjoint_Some_r.
    + rewrite <- insert_union_l. apply wm_store; [done|]. exists u. by apply lookup_union_Some_l.
Qed.

Lemma framed_allocates k c : allocates P k c -> allocates framed k c.
Proof.
  intros Hc w m [Hd Hm]. eapply wp_mono; [by apply Hc| |].
  - intros p m' [Hm' Hf]. assert (Hfw : fresh_words p k w) by (eapply fresh_words_sub; [apply map_union_subseteq_l|done]).
    split; [|done]. split; [|by rewrite <- zero_words_union].
    apply zero_words_disjoint; [done|]. eapply fresh_words_sub; [by apply map_union_subseteq_r|done].
  - intros e m' [-> Hm']. by split.
Qed.

#[export] Instance framed_rgn r : RgnAlloc P r -> RgnAlloc framed r.
Proof. intros Ha self k Hk. by apply framed_allocates, Ha. Qed.
#[export] Instance framed_heap : HeapAlloc P -> HeapAlloc framed.
Proof. intros Ha k file line Hk. by apply framed_allocates, Ha. Qed.
End framed.

(** ** Arrays in word memory

    Arrays of words, the arrays that fat pointers made by allocation denote, and
    the rule for the loop that fills a new array. *)

(** The words at [a], [a+4], ... are [l]. *)
Definition array_at (w : gmap Z Z) (a : Z) (l : list Z) : Prop :=
  forall i v, l !! i = Some v -> w !! (a + 4 * Z.of_nat i) = Some v.

Lemma zero_words_lookup p k w i : (i < k)%nat -> is_Some (zero_words p k w !! (p + 4 * Z.of_nat i)).
Proof.
  revert p i. induction k as [|k IH]; intros p i Hi; [lia|]. simpl. rewrite lookup_insert.
  case_decide; [by eexists|]. destruct i as [|i]; [lia|].
  replace (p + 4 * Z.of_nat (S i)) with (p + 4 + 4 * Z.of_nat i) by lia. apply IH. lia.
Qed.

(** The array after its first [i] elements have been written. *)
Definition filled (w : gmap Z Z) (a : Z) (l : list Z) (i : nat) (w' : gmap Z Z) : Prop :=
  w ⊆ w' /\ (forall j v, (j < i)%nat -> l !! j = Some v -> w' !! (a + 4 * Z.of_nat j) = Some v) /\
  (forall j, (j < length l)%nat -> is_Some (w' !! (a + 4 * Z.of_nat j))).

Lemma filled_step w a l i v w' : fresh_words a (length l) w -> filled w a l i w' -> l !! i = Some v ->
  filled w a l (S i) (<[a + 4 * Z.of_nat i := v]> w').
Proof.
  intros Hf (Hw & Hd & Hs) Hv. pose proof (lookup_lt_Some _ _ _ Hv) as Hi. split_and!.
  - apply insert_subseteq_r; [|done]. eapply fresh_absent; [done|lia..].
  - intros j u Hj Hu. rewrite lookup_insert. case_decide; [|apply Hd; [|done]].
    + assert (j = i) as -> by lia. congruence.
    + destruct (decide (j = i)); [subst; done|lia].
  - intros j Hj. rewrite lookup_insert. case_decide; [by eexists|by apply Hs].
Qed.

(** The fat pointer of an array with the elements [l]. *)
Definition array_of (w : gmap Z Z) (arr : fat_ptr) (l : list Z) : Prop :=
  exists a, arr = _tag_fat a 4 (Z.of_nat (length l)) /\ array_at w a l /\ 0 < a /\
    a + 4 * Z.of_nat (length l) < 4294967296.

Lemma array_of_size w arr l : array_of w arr l -> _get_fat_size arr 4 = Z.of_nat (length l).
Proof.
  intros (a & -> & _ & Ha & Hb). rewrite get_fat_size_tag by lia. done.
Qed.

Lemma array_of_get w arr l i v fl ln : array_of w arr l -> l !! i = Some v ->
  exists a, _check_fat_subscript arr 4 (Z.of_nat i) fl ln = Ret a /\ w !! a = Some v.
Proof.
  intros (a & -> & Har & Ha & Hb) Hv. pose proof (lookup_lt_Some _ _ _ Hv) as Hi.
  exists (a + 4 * Z.of_nat i). split; [|by apply Har]. apply check_fat_subscript_Ret. unfold _tag_fat.
  simpl. destruct (a =? 0) eqn:E; [lia|]. rewrite (u32_small (Z.of_nat (length l))) by lia.
  rewrite !u32_small by lia. lia.
Qed.


Section rules.
Context {H : Type} `{HH : Heap H} `{!HeapLaws H}.
Implicit Types (m : mem H) (w : gmap Z Z).

(** Filling the new array at [a] with [l]. *)
Lemma wp_fill_array R w a l f (Q : unit -> mem H -> Prop) E m : fresh_words a (length l) w ->
  at_words R (zero_words a (length l) w) m ->
  (forall i v, l !! i = Some v -> f (Z.of_nat i) = mret v) ->
  (forall w' m', at_words R w' m' -> w ⊆ w' -> array_at w' a l -> Q tt m') ->
  wp (fill_array a (Z.of_nat (length l)) f) Q E m.
Proof.
  intros Hf Hm Hv HQ. pose proof Hf as (Ha & _ & Hab & _). unfold fill_array. rewrite Nat2Z.id.
  apply (wp_loop _ (fun k i m' => exists j w', k = (length l - j)%nat /\ i = Z.of_nat j /\ (j <= length l)%nat /\
    at_words R w' m' /\ filled w a l j w')) with (k := length l).
  - intros k i m2 (j & w2 & -> & -> & Hj & Hm2 & Hfi). pose proof Hfi as (Hw2 & Hd2 & Hs2).
    destruct (Z.of_nat j <? Z.of_nat (length l)) eqn:Ej.
    + destruct (lookup_lt_is_Some_2 l j ltac:(lia)) as [v Hj']. rewrite (Hv j v Hj').
      wps. rewrite (u32_small (a + 4 * Z.of_nat j)) by lia. eapply wp_store; [done|apply Hs2; lia|].
      intros m3 Hm3. wps. rewrite u32_small by lia.
      exists (length l - S j)%nat. split; [lia|]. eexists (S j), _. split_and!; [done|lia|lia|exact Hm3|].
      by apply filled_step.
    + wps. assert (j = length l) as -> by lia. apply (HQ w2); try done.
      intros i u Hu. apply Hd2; [|done]. by eapply lookup_lt_Some.
  - exists 0%nat, (zero_words a (length l) w). split_and!; [lia|done|lia|done|].
    split_and!; [by apply zero_words_sub|lia|]. intros j Hj. by apply zero_words_lookup.
  - lia.
Qed.
End rules.

(** ** Objects under construction *)

(** A new object at [p] with the fields [vs], in memory [w] grown to [w']. *)
Definition object (w : gmap Z Z) (p : Z) (vs : list Z) (w' : gmap Z Z) : Prop :=
  fresh_words p (length vs) w /\ w ⊆ w' /\ array_at w' p vs.

Lemma zero_words_array p k w : array_at (zero_words p k w) p (replicate k 0).
Proof.
  revert p. induction k as [|k IH]; intros p i v Hi; [done|]. simpl. destruct i as [|i]; simpl in Hi.
  - replace (p + 4 * Z.of_nat 0) with p by lia. rewrite lookup_insert_eq. done.
  - rewrite lookup_insert_ne by lia. replace (p + 4 * Z.of_nat (S i)) with (p + 4 + 4 * Z.of_nat i) by lia. by apply IH.
Qed.

Lemma object_start p k w : fresh_words p k w -> object w p (replicate k 0) (zero_words p k w).
Proof. intros Hf. split_and!; [by rewrite length_replicate|by apply zero_words_sub|apply zero_words_array]. Qed.

Lemma object_mono w p vs w1 w2 : object w p vs w1 -> w1 ⊆ w2 -> object w p vs w2.
Proof. intros (Hf & Hw & Ha) Hw2. split_and!; [done|by etrans|]. intros i v Hi. eapply lookup_weaken; [by apply Ha|done]. Qed.

Lemma object_sub w p vs w' : object w p vs w' -> w ⊆ w'.
Proof. by intros (_ & ? & _). Qed.

Lemma object_get w p vs w' i v a : object w p vs w' -> vs !! i = Some v -> a = p + 4 * Z.of_nat i -> w' !! a = Some v.
Proof. intros (_ & _ & Ha) Hi ->. by apply Ha. Qed.

(** The words of an object were not in use before. *)
Lemma object_absent w p vs w' i a : object w p vs w' -> (i < length vs)%nat -> a = p + 4 * Z.of_nat i -> w !! a = None.
Proof. intros (Hf & _ & _) Hi ->. eapply fresh_absent; [exact Hf|lia..]. Qed.

Lemma object_put w p vs w' i v : object w p vs w' -> (i < length vs)%nat -> object w p (<[i := v]> vs) (<[p + 4 * Z.of_nat i := v]> w').
Proof.
  intros Ho Hi. pose proof (object_absent w p vs w' i _ Ho Hi eq_refl) as Hn. destruct Ho as (Hf & Hw & Ha).
  split_and!; [by rewrite length_insert|by apply insert_subseteq_r|].
  intros j u Hj. apply list_lookup_insert_Some in Hj as [(<- & <- & _)|[Hne Hj]]; [apply lookup_insert_eq|].
  rewrite lookup_insert_ne by lia. by apply Ha.
Qed.

Lemma wm_put_field {H} `{HH : Heap H} (P : gmap Z Z -> mem H -> Prop) `{!WordMem P} i w p vs w' a v (Q : unit -> mem H -> Prop) E m :
  object w p vs w' -> P w' m -> (i < length vs)%nat -> a = p + 4 * Z.of_nat i ->
  (forall m', P (<[a := v]> w') m' -> object w p (<[i := v]> vs) (<[a := v]> w') -> Q tt m') -> wp (store_word a v) Q E m.
Proof.
  intros Ho Hm Hi -> HQ. eapply (wm_put P); [done| |intros m' Hm'; apply HQ; [done|by apply object_put]].
  destruct (lookup_lt_is_Some_2 vs i Hi) as [u Hu]. exists u. by eapply object_get.
Qed.
