(* ===== verification/TempRegion.v ===== *)
(** * Regions that live during a block

    Compiled code for [region temp { body }]: the handle is a local variable,
    and at the end of the block, or when an exception leaves it, the pages of
    the region are freed.  The rule [wp_with_region] gives the body the words
    outside of the region and, apart from them, those it allocates inside; when
    the block is left only the former remain. *)

From S2P Require Import Prelude Alloc FatPtr RwLock Region RegionSafety DynRegion Words CycList ListCells WordMem.

(** ** The block *)

Section ops.
Context {H : Type} `{Heap H}.

(** Whether the word at [a] lies in a block. *)
Definition in_blocks (b : blocks) (a : Z) : bool :=
  existsb (fun '(p, (n, _)) => (p <=? a) && (a + 4 <=? p + n)) (map_to_list b).

(** The words of freed blocks are gone. *)
Definition drop_dead (m : mem H) : mem H :=
  mk_mem (heap m) (rgns m) (pages m) (filter (fun aw => in_blocks (gc_live (heap m)) aw.1 = true) (words m))
    (default_region_page_size m) (default_xregion_page_size m).

(** The frame of the region is popped: [_free_region] is called on the handle
    (Frames.v), which then goes out of scope. *)
Definition leave_region (temp : Z) : ST (mem H) unit :=
  _free_region temp;; modify (del_rgn temp);; modify drop_dead.

(** [region temp { body }], with the handle at address [temp]. *)
Definition with_region {A} (temp : Z) (body : ST (mem H) A) : ST (mem H) A := fun m =>
  match body (set_rgn temp (ARegion _new_region) m) with
  | (Ret a, m1) => (leave_region temp;; mret a) m1
  | (Thrown e file line, m1) => (leave_region temp;; lift (Thrown e file line)) m1
  | res => res
  end.
End ops.

(** ** Words inside and outside of the region *)

Section split.
Context {H : Type} `{HH : Heap H} `{!HeapLaws H} (R : gset Z) (temp : Z).
Implicit Types (m : mem H) (w t : gmap Z Z) (A : gmap Z arena).

(** The word at [a] lies in an object of the region, or outside of it. *)
Definition inside A (a : Z) : Prop :=
  exists ar p n, A !! temp = Some ar /\ (p, n) ∈ a_objs ar /\ p <= a /\ a + 4 <= p + n.
Definition outside m A (a : Z) : Prop :=
  exists p n, p <= a /\ a + 4 <= p + n /\
    ((exists r ar, r <> temp /\ A !! r = Some ar /\ (p, n) ∈ a_objs ar) \/
     (exists z, gc_live (heap m) !! p = Some (n, z) /\ pages m !! p = None)).

(** The words [w] are outside of the region and [t] inside. *)
Definition at_split w t m : Prop := exists A, arenas_ok ({[temp]} ∪ R) m A /\ words m = w ∪ t /\ w ##ₘ t /\
  (forall a, is_Some (w !! a) -> outside m A a) /\ (forall a, is_Some (t !! a) -> inside A a).

Lemma at_split_sub w t m : at_split w t m -> w ⊆ words m /\ t ⊆ words m.
Proof.
  intros (A & _ & -> & Hd & _). split; [apply map_union_subseteq_l|by apply map_union_subseteq_r].
Qed.

Lemma at_split_bounds w t m a : at_split w t m -> is_Some (words m !! a) -> 0 < a /\ a + 4 < 4294967296.
Proof. intros (A & (Hi & _ & _ & _ & Hs) & _) Ha. by eapply slot_bounds, Hs. Qed.

(** A write changes neither the arenas nor what lies where. *)
Lemma split_store w t w' t' m a v : at_split w t m -> is_Some (words m !! a) -> <[a := v]> (words m) = w' ∪ t' ->
  w' ##ₘ t' -> dom w' = dom w -> dom t' = dom t -> at_split w' t' (set_word a v m).
Proof.
  intros (A & HA & Hw & Hd & Ho & Hi) Ha Hw' Hd' Dw Dt. exists A. split_and!; [|done|done|..].
  - apply arenas_ok_set; [done|]. destruct HA as (_ & _ & _ & _ & Hs). auto.
  - intros b Hb. apply elem_of_dom in Hb. rewrite Dw in Hb. by apply elem_of_dom, Ho in Hb.
  - intros b Hb. apply elem_of_dom in Hb. rewrite Dt in Hb. by apply elem_of_dom, Hi in Hb.
Qed.

#[export] Instance outside_mem t : WordMem (fun w => at_split w t).
Proof.
  split.
  - intros w m Hm. by apply at_split_sub in Hm as [? _].
  - intros w m a Hm [v Ha]. apply (at_split_bounds w t m a Hm). exists v. eapply lookup_weaken; [done|by apply at_split_sub in Hm as [? _]].
  - intros w m a v Hm [u Ha]. pose proof Hm as (A & _ & Hw & Hd & _). assert (Hma : words m !! a = Some u)
      by (rewrite Hw; by apply lookup_union_Some_l).
    apply (split_store w t); [done|by exists u|by rewrite Hw, insert_union_l| |by apply dom_insert_lookup_L; exists u|done].
    apply map_disjoint_insert_l_2; [by eapply map_disjoint_Some_r|done].
Qed.

#[export] Instance inside_mem w : WordMem (fun t => at_split w t).
Proof.
  split.
  - intros t m Hm. by apply at_split_sub in Hm as [_ ?].
  - intros t m a Hm [v Ha]. apply (at_split_bounds w t m a Hm). exists v. eapply lookup_weaken; [done|by apply at_split_sub in Hm as [_ ?]].
  - intros t m a v Hm [u Ha]. pose proof Hm as (A & _ & Hw & Hd & _).
    assert (Hn : w !! a = None) by (by eapply map_disjoint_Some_l).
    apply (split_store w t); [done|rewrite Hw; exists u; by apply lookup_union_Some_r|by rewrite Hw, insert_union_r| |done|by apply dom_insert_lookup_L; exists u].
    by apply map_disjoint_insert_r_2.
Qed.

Lemma outside_grows m m' A A' a : grows m m' -> outside m A a ->
  (forall r ar, r <> temp -> A !! r = Some ar -> exists ar', A' !! r = Some ar' /\ a_objs ar ⊆ a_objs ar') ->
  outside m' A' a.
Proof.
  intros (_ & Hg & Hp & _) (p & n & H1 & H2 & Hs) Hsub. exists p, n. split_and!; [done..|].
  destruct Hs as [(r & ar & Hne & Ha & Ho)|(z & Hb & Hn)].
  - left. destruct (Hsub r ar Hne Ha) as (ar' & Ha' & Hin). exists r, ar'. split_and!; [done..|]. by apply Hin.
  - right. exists z. split; [by apply Hg|]. rewrite Hp; [done|by eexists].
Qed.

(** ** Allocation *)

(** [c] allocates [n] bytes in [r]. *)
Definition arena_alloc (r n : Z) (c : ST (mem H) Z) : Prop := forall A m, arenas_ok ({[temp]} ∪ R) m A ->
  wp c (fun p m' => exists A', arenas_ok ({[temp]} ∪ R) m' A' /\ grows m m' /\ 0 < p /\ p mod 8 = 0 /\ p + n < 4294967296 /\
          (forall a, is_Some (words m !! a) -> a + 4 <= p \/ p + n <= a) /\ placed m' A r n p A')
       (fun e m' => e = Cyc_Bad_alloc /\ arenas_ok ({[temp]} ∪ R) m' A /\ grows m m') m.

Lemma region_arena_alloc self r n : rgn_in ({[temp]} ∪ R) r -> 0 <= n <= MAX_MALLOC_SIZE ->
  arena_alloc r n (_region_malloc self r n).
Proof. intros Hr Hn A m HA. by apply region_malloc_arenas. Qed.

Lemma gc_arena_alloc n file line : 0 <= n <= MAX_MALLOC_SIZE -> arena_alloc CYC_CORE_HEAP_REGION n (_bounded_GC_malloc n file line).
Proof.
  intros Hn A m HA. pose proof HA as (Hi & _). unfold MAX_MALLOC_SIZE in Hn.
  destruct (bounded_malloc_cases m n file line (mi_ok _ _ Hi) ltac:(unfold INT_MAX; lia)) as [(m' & He & Hh)|(p & m' & He & Hp & Hf)].
  - eapply wp_throws; [exact He|]. pose proof (same_heap_grows _ _ Hh). split_and!; [done| |done].
    eapply arenas_ok_heap; [done..|]. by eapply same_heap_inv.
  - eapply wp_run; [exact He|].
    destruct (heap_block_arenas _ m m' A n true p HA Hf ltac:(lia)) as (HA' & Hw & ? & ? & ? & Hap & Hb & Hpg).
    exists A. split_and!; try done; [by eapply fresh_block_grows|]. left. eauto.
Qed.

(** The words that were there keep their place when memory grows. *)
Lemma split_grows w t m m' A : words m = w ∪ t -> w ##ₘ t -> (forall a, is_Some (w !! a) -> outside m A a) ->
  (forall a, is_Some (t !! a) -> inside A a) -> arenas_ok ({[temp]} ∪ R) m' A -> grows m m' -> at_split w t m'.
Proof.
  intros Hw Hd Ho Hi HA' Hg. pose proof Hg as (Hw' & _). exists A. split_and!; [done|congruence|done| |done].
  intros a Ha. eapply outside_grows; [done|by apply Ho|]. intros r ar _ Hr. by exists ar.
Qed.

Lemma fresh_of_apart p k w m : w ⊆ words m -> 0 < p -> p mod 8 = 0 -> p + 4 * Z.of_nat k < 4294967296 ->
  (forall a, is_Some (words m !! a) -> a + 4 <= p \/ p + 4 * Z.of_nat k <= a) -> fresh_words p k w.
Proof. intros Hw ? ? ? Hap. split_and!; try done. intros a [v Ha]. apply Hap. exists v. by eapply lookup_weaken. Qed.

Lemma alloc_outside t r k c : r <> temp -> arena_alloc r (4 * Z.of_nat k) c ->
  allocates (fun w => at_split w t) k (p ← c; modify (zero_fill p k);; mret p).
Proof.
  intros Hne Hc w m Hm. pose proof (at_split_sub _ _ _ Hm) as [Hws Hts]. destruct Hm as (A & HA & Hw & Hd & Ho & Hi).
  apply wp_bind. eapply wp_mono; [by apply (Hc A)| |].
  2: { intros e m' (-> & HA' & Hg). split; [done|]. by eapply split_grows. }
  intros p m' (A' & HA' & Hg & Hp & Hm8 & Hb & Hap & Hpl). pose proof Hg as (Hw' & _). wps.
  split; [|by eapply fresh_of_apart]. exists A'. split_and!.
  - apply zero_fill_ok; [done|]. intros a ? ?. by eapply placed_slot.
  - simpl. by rewrite Hw', Hw, zero_words_union.
  - apply zero_words_disjoint; [done|]. by eapply fresh_of_apart.
  - intros a [Ha|[? ?]]%zero_words_dom.
    + change (outside m' A' a). eapply outside_grows; [exact Hg|by apply Ho|]. intros r1 ar1 _ Hr1.
      destruct Hpl as [(_ & -> & _)|(ar & ar' & Har & -> & Hobj)]; [by exists ar1|].
      rewrite lookup_insert. case_decide; [|by exists ar1]. simplify_eq. exists ar'. split; [done|]. rewrite Hobj. set_solver.
    + exists p, (4 * Z.of_nat k). split_and!; [done..|].
      destruct Hpl as [(_ & -> & z & Hb' & Hpg)|(ar & ar' & Har & -> & Hobj)].
      * right. by exists z.
      * left. exists r, ar'. split_and!; [done|by rewrite lookup_insert_eq|]. rewrite Hobj. left.
  - intros a Ha. destruct (Hi a Ha) as (ar & q & n & Har & Hq & ? & ?). exists ar, q, n. split_and!; try done.
    destruct Hpl as [(_ & -> & _)|(ar1 & ar' & _ & -> & _)]; [done|]. by rewrite lookup_insert_ne.
Qed.

Lemma alloc_inside w k c : 2 < temp -> arena_alloc temp (4 * Z.of_nat k) c ->
  allocates (fun t => at_split w t) k (p ← c; modify (zero_fill p k);; mret p).
Proof.
  intros H2 Hc t m Hm. pose proof (at_split_sub _ _ _ Hm) as [Hws Hts]. destruct Hm as (A & HA & Hw & Hd & Ho & Hi).
  apply wp_bind. eapply wp_mono; [by apply (Hc A)| |].
  2: { intros e m' (-> & HA' & Hg). split; [done|]. by eapply split_grows. }
  intros p m' (A' & HA' & Hg & Hp & Hm8 & Hb & Hap & Hpl). pose proof Hg as (Hw' & _). wps.
  destruct Hpl as [(-> & _)|(ar & ar' & Har & -> & Hobj)]; [unfold CYC_CORE_HEAP_REGION in H2; lia|].
  assert (Hfw : fresh_words p k w) by (by eapply fresh_of_apart).
  split; [|by eapply fresh_of_apart]. eexists. split_and!.
  - apply zero_fill_ok; [done|]. intros a ? ?. eapply (placed_slot m' A _ temp); [|done|done]. right. by exists ar, ar'.
  - simpl. rewrite Hw', Hw, (map_union_comm w t), zero_words_union by done. apply map_union_comm.
    apply zero_words_disjoint; [by symmetry|done].
  - symmetry. apply zero_words_disjoint; [by symmetry|done].
  - intros a Ha. change (outside m' (<[temp := ar']> A) a). eapply outside_grows; [exact Hg|by apply Ho|].
    intros r1 ar1 Hne Hr1. exists ar1. by rewrite lookup_insert_ne.
  - intros a [Ha|[? ?]]%zero_words_dom.
    + destruct (Hi a Ha) as (ar1 & q & n & Har1 & Hq & ? & ?). simplify_eq. exists ar', q, n.
      rewrite lookup_insert_eq, Hobj. split_and!; try done. by right.
    + exists ar', p, (4 * Z.of_nat k). rewrite lookup_insert_eq, Hobj. split_and!; try done. left.
Qed.

Lemma outside_rgn t r : rgn_in R r -> temp ∉ R -> 2 < temp -> RgnAlloc (fun w => at_split w t) r.
Proof.
  intros Hr Hn H2 self k Hk. apply (alloc_outside t r).
  - intros ->. destruct Hr as [E|?]; [unfold CYC_CORE_HEAP_REGION in E; lia|done].
  - apply region_arena_alloc; [destruct Hr; [by left|right; set_solver]|lia].
Qed.

Lemma outside_heap t : 2 < temp -> HeapAlloc (fun w => at_split w t).
Proof.
  intros H2 k file line Hk. apply (alloc_outside t CYC_CORE_HEAP_REGION); [unfold CYC_CORE_HEAP_REGION; lia|].
  apply gc_arena_alloc. lia.
Qed.

Lemma inside_rgn w : 2 < temp -> RgnAlloc (fun t => at_split w t) temp.
Proof.
  intros H2 self k Hk. apply alloc_inside; [done|]. apply region_arena_alloc; [right; set_solver|lia].
Qed.

(** ** Entering and leaving the block *)

Lemma enter_region w m : at_words R w m -> temp ∉ R -> 2 < temp ->
  at_split w ∅ (set_rgn temp (ARegion _new_region) m).
Proof.
  intros [(A & Hi & Hd & Hl & Hpl & Hs) Hw] Hn H2.
  assert (HAn : A !! temp = None) by (apply not_elem_of_dom; by rewrite Hd).
  assert (Ho : forall a, is_Some (words m !! a) -> outside m (<[temp := mk_arena true [] []]> A) a).
  { intros a Ha. destruct (Hs a Ha) as (p & n & ? & ? & [(r & ar & Har & Hp)|(z & Hb & Hpg)]);
      exists p, n; (split_and!; [done..|]).
    - left. exists r, ar. assert (r <> temp) by congruence. split_and!; [done|by rewrite lookup_insert_ne|done].
    - right. by exists z. }
  exists (<[temp := mk_arena true [] []]> A). split_and!.
  - split_and!; [by apply new_handle_inv|rewrite dom_insert_L; set_solver| |done|].
    + intros r ar. rewrite lookup_insert. case_decide; intros ?; simplify_eq; [done|by eapply Hl].
    + intros a Ha. destruct (Ho a Ha) as (p & n & ? & ? & [(r & ar & _ & Har & Hp)|(z & Hb & Hpg)]);
        exists p, n; (split_and!; [done..|]); [left; by exists r, ar|right; by exists z].
  - simpl. by rewrite map_union_empty.
  - apply map_disjoint_empty_r.
  - intros a. rewrite <- Hw. apply Ho.
  - intros a. rewrite lookup_empty. by intros [? ?].
Qed.

Lemma in_blocks_spec (b : blocks) a : in_blocks b a = true <-> exists p n z, b !! p = Some (n, z) /\ p <= a /\ a + 4 <= p + n.
Proof.
  unfold in_blocks. rewrite existsb_exists. split.
  - intros ([p [n z]] & Hin & Ht). apply list_elem_of_In, elem_of_map_to_list in Hin. exists p, n, z. split; [done|lia].
  - intros (p & n & z & Hb & ? & ?). exists (p, (n, z)). split; [|lia]. by apply list_elem_of_In, elem_of_map_to_list.
Qed.

(** Forgetting the handle of a region without pages. *)
Lemma forget_handle_inv m A : mem_inv m (<[temp := mk_arena true [] []]> A) -> A !! temp = None -> mem_inv (del_rgn temp m) A.
Proof.
  intros [Ho Hg Hd Hr Hw Hs Hx] Hn.
  assert (HA : forall r a, A !! r = Some a -> r <> temp /\ <[temp := mk_arena true [] []]> A !! r = Some a).
  { intros r a Ha. assert (r <> temp) by congruence. by rewrite lookup_insert_ne. }
  split; simpl; try done.
  - intros r a Ha. destruct (HA _ _ Ha) as [Hne Ha']. destruct (Hr r a Ha') as (? & o & Hro & Hk & Hao).
    split; [done|]. exists o. by rewrite lookup_delete_ne.
  - intros r1 r2 a1 a2 q H1 H2. apply HA in H1 as [_ H1], H2 as [_ H2]. eauto.
Qed.

Lemma leave_region_spec w t m : at_split w t m -> temp ∉ R ->
  exists m', leave_region temp m = (Ret tt, m') /\ at_words R w m'.
Proof.
  intros (A & (Hi & Hdom & Hl & Hpl & Hs) & Hw & Hd & Ho & Hin) Hn.
  assert (Ha : is_Some (A !! temp)) by (apply elem_of_dom; rewrite Hdom; set_solver). destruct Ha as [a Ha].
  destruct (mi_rgn _ _ Hi _ _ Ha) as (_ & o & Hro & [_ Hz] & _). rewrite (Hl _ _ Ha) in Hz. destruct o as [h|]; [|done].
  destruct (free_region_spec m A temp a h Hi Ha Hro) as (m1 & m2 & He & Hp & Em2 & Hi2). rewrite (Hl _ _ Ha) in Hi2.
  unfold leave_region, mbind, st_bind. rewrite He. unfold modify. eexists. split; [reflexivity|].
  pose proof Hp as (_ & _ & Hw1 & _ & _ & Hpg & Hlv).
  set (A' := delete temp A).
  assert (Hi3 : mem_inv (del_rgn temp m2) A').
  { apply forget_handle_inv; [|apply lookup_delete_eq]. unfold A'. by rewrite insert_delete_eq. }
  assert (Hslot : forall x, is_Some (w !! x) -> slot (del_rgn temp m2) A' x).
  { intros x Hx. destruct (Ho x Hx) as (p & n & ? & ? & [(r & ar & Hne & Har & Hpn)|(z & Hb & Hpgn)]);
      exists p, n; (split_and!; [done..|]).
    - left. exists r, ar. unfold A'. by rewrite lookup_delete_ne.
    - right. exists z. rewrite Em2. simpl. rewrite Hlv, Hpg. rewrite !decide_False; [done|..];
        intros Hq; destruct (page_in_store _ _ _ _ _ Hi Ha Hq) as [? ?]; congruence. }
  assert (Hlive : forall x, is_Some (w !! x) -> in_blocks (gc_live (heap m2)) x = true).
  { intros x Hx. apply in_blocks_spec. destruct (Hslot x Hx) as (p & n & ? & ? & [(r & ar & Har & Hpn)|(z & Hb & _)]).
    - destruct (obj_block _ _ _ _ _ _ Hi3 Har Hpn) as (q & k & z & Hb & ? & ? & _). exists q, k, z. split; [done|lia].
    - exists p, n, z. split; [exact Hb|lia]. }
  assert (Hdead : forall x, is_Some (t !! x) -> in_blocks (gc_live (heap m2)) x = false).
  { intros x Hx. apply not_true_iff_false. rewrite in_blocks_spec. intros (p & n & z & Hb & ? & ?).
    rewrite Em2 in Hb. simpl in Hb. rewrite Hlv in Hb. case_decide as Hpa; [done|].
    destruct (Hin x Hx) as (ar & q & k & Har & Hq & ? & ?). simplify_eq.
    destruct (mi_rgn _ _ Hi _ _ Ha) as (_ & o' & Hro' & _ & [_ _ Hpage _ Hobj _]). simplify_eq.
    destruct (Hobj _ _ Hq) as (pg & kp & Hpk & ? & ? & ? & ? & _). destruct (Hpage _ _ Hpk) as [Hb' _].
    assert (Hne : p <> pg) by (intros ->; apply Hpa, list_elem_of_fmap; by exists (pg, kp)).
    destruct (mi_disj _ _ Hi _ _ _ _ _ _ Hb Hb' Hne); lia. }
  assert (Hwords : words (drop_dead (del_rgn temp m2)) = w).
  { simpl. rewrite Em2. simpl. rewrite Hw1, Hw. apply map_eq. intros x. rewrite map_lookup_filter.
    rewrite lookup_union. change (heap m1) with (heap (set_rgn temp (ARegion (set_curr 0 0 0 (used_bytes h) (wasted_bytes h) h)) m1)).
    rewrite <- Em2. destruct (w !! x) as [v|] eqn:E1.
    - rewrite union_Some_l. simpl. rewrite option_guard_True; [done|]. apply Hlive. by exists v.
    - rewrite (left_id_L None union). destruct (t !! x) as [v|] eqn:E2; simpl; [|done].
      rewrite option_guard_False; [done|]. rewrite Hdead; [done|by exists v]. }
  split; [|exact Hwords]. exists A'. split_and!.
  - destruct Hi3. by split.
  - unfold A'. rewrite dom_delete_L, Hdom. set_solver.
  - intros r ar Har. apply lookup_delete_Some in Har as [_ Har]. by eapply Hl.
  - intros q. rewrite Em2. simpl. rewrite Hpg, Hlv. case_decide; [by intros [? ?]|apply Hpl].
  - intros x. rewrite Hwords. apply Hslot.
Qed.

(** The rule for a block with its own region. *)
Lemma wp_with_region {B} w (body : ST (mem H) B) (Q : B -> mem H -> Prop) E m : at_words R w m -> temp ∉ R -> 2 < temp ->
  (forall m1, at_split w ∅ m1 ->
     wp body (fun a m2 => exists w2 t2, at_split w2 t2 m2 /\ forall m3, at_words R w2 m3 -> Q a m3)
             (fun e m2 => exists w2 t2, at_split w2 t2 m2 /\ forall m3, at_words R w2 m3 -> E e m3) m1) ->
  wp (with_region temp body) Q E m.
Proof.
  intros Hm Hn H2 Hb. specialize (Hb _ (enter_region w m Hm Hn H2)). apply wp_cases in Hb.
  destruct Hb as [(a & m2 & Hb & w2 & t2 & Hs & HQ)|(e & file & line & m2 & Hb & w2 & t2 & Hs & HE)];
    destruct (leave_region_spec w2 t2 m2 Hs Hn) as (m3 & Hl & Hm3).
  - eapply wp_run; [|by apply HQ]. unfold with_region. rewrite Hb. by run_step Hl.
  - eapply wp_throws; [|by apply HE]. unfold with_region. rewrite Hb. by run_step Hl.
Qed.
End split.
