(* ===== verification/CycListSpec.v ===== *)
(** * Correctness of the list library *)

From S2P Require Import Prelude Alloc FatPtr RwLock Region RegionSafety Words CycList ListCells.

Section spec.
Context {H : Type} `{HH : Heap H} `{!HeapLaws H} (self : Z).
Implicit Types (m : mem H) (w : gmap Z Z).

Lemma is_null_spec x : is_null x = bool_decide (x = 0).
Proof. unfold is_null. case_bool_decide; lia. Qed.

Lemma is_null_0 : is_null 0 = true.
Proof. done. Qed.

Lemma is_null_ne x : x <> 0 -> is_null x = false.
Proof. unfold is_null. lia. Qed.

(** ** Copying *)

(** [map_cells] builds a new list of the images and leaves every word there
    was alone. *)
Lemma map_cells_spec R r f g w x l m : rgn_in R r -> computes R f g -> list_at w x l ->
  at_words R w m ->
  wp (map_cells self r f x)
    (fun y m' => exists w', at_words R w' m' /\ w ⊆ w' /\ new_list w w' y (g <$> l)) (oom R w) m.
Proof.
  intros Hr Hf Hl Hm. unfold map_cells.
  destruct (list_at_cases _ _ _ Hl) as [[-> ->]|(Hx & v & n & l' & -> & Hc & Hl')].
  { rewrite is_null_0. wps. exists w. split; [done|]. split; [done|]. apply new_list_nil. }
  rewrite is_null_ne by done. wps. eapply wp_new_cell_words; [done|done| |].
  2: { intros m' Hm'. split; [done|]. by exists w. }
  intros p m1 Hm1 Hfr. pose proof (zero_words_sub _ _ _ Hfr) as Hz.
  wps. eapply wp_get_hd; [done|by eapply cell_mono|]. wps.
  eapply wp_mono; [by apply Hf| |intros e m' He; by eapply oom_mono].
  intros u m2 (-> & w2 & Hw2 & Hm2). wps.
  eapply wp_fill_cell; [exact Hfr|exact Hw2|done|]. intros m3 Hm3.
  assert (Hz2 : w ⊆ w2) by (by etrans).
  pose proof (building_start w w2 p (g v) Hfr Hz2) as Hb. pose proof Hb as [Hw3 _].
  wps. eapply wp_get_tl; [done|by eapply cell_mono|]. wps.
  eapply wp_with_fuel; [done|].
  eapply (wp_loop _ (fun k '(x, prev) m' => exists w' l1 l2, l' = l1 ++ l2 /\ k = length l2 /\
    list_at w x l2 /\ at_words R w' m' /\ building w w' p prev (g <$> (v :: l1))) _ _ _);
    [|exists (<[p + 4 := 0]> (<[p := g v]> w2)), [], l'; by split_and!|].
  2: { apply list_at_size in Hl'. apply map_subseteq_size in Hw3.  lia. }
  clear m1 m2 m3 Hm1 Hm2 Hm3 Hb Hw3 w2 Hw2 Hz2 Hz. intros k [x' prev] m1 (w1 & l1 & l2 & -> & -> & Hl2 & Hm1 & Hb).
  destruct (list_at_cases _ _ _ Hl2) as [[-> ->]|(Hx' & u & n' & l3 & -> & Hc' & Hl3)].
  { rewrite is_null_0. wps. exists w1. split; [done|]. split; [by destruct Hb|].
    rewrite app_nil_r. by eapply building_done. }
  pose proof Hb as [Hw1 _]. rewrite is_null_ne by done. wps. eapply wp_new_cell_words; [done|done| |].
  2: { intros m' Hm'. split; [done|]. by exists w1. }
  intros q m2 Hm2 Hfq. pose proof (zero_words_sub _ _ _ Hfq) as Hz.
  assert (Hwz : w ⊆ zero_words q 2 w1) by (by etrans).
  wps. eapply wp_get_hd; [done|by eapply cell_mono|]. wps.
  eapply wp_mono; [by apply Hf| |intros e m' He; by eapply oom_mono].
  intros u' m3 (-> & w3 & Hw3 & Hm3). wps.
  eapply wp_fill_cell; [exact Hfq|exact Hw3|done|]. intros m4 Hm4.
  assert (Hz3 : w1 ⊆ w3) by (by etrans).
  pose proof (building_snoc w w1 w3 p prev _ q (g u) Hb Hfq Hz3) as Hb'. pose proof Hb' as [Hw5 _].
  wps. eapply wp_set_tl; [done| |].
  { destruct (building_prev _ _ _ _ _ Hb) as (_ & _ & Hp).
    destruct (new_cell_cell q (g u) 0 w1 w3 Hfq Hz3) as [_ Hs]. destruct Hp as [t Ht].
    exists t. by eapply lookup_weaken. }
  intros m5 Hm5. wps. eapply wp_get_tl; [done|by eapply cell_mono|]. wps.
  exists (length l3). split; [simpl; lia|]. eexists _, (l1 ++ [u]), l3.
  split_and!; [by rewrite <- app_assoc|done|done|exact Hm5|].
  rewrite <- (fmap_snoc g (v :: l1) u) in Hb'. exact Hb'.
Qed.

(** ** Reversal in place *)

(** [w'] differs from [w] at most in the tails of the cells [c]. *)
Definition only_tails (c : list (Z * Z)) (w w' : gmap Z Z) : Prop :=
  forall a, (forall p, p ∈ c.*1 -> a <> p + 4) -> w' !! a = w !! a.

Lemma only_tails_set c w w' p t : only_tails c w w' -> p ∈ c.*1 -> only_tails c w (<[p + 4 := t]> w').
Proof.
  intros Hw Hp a Ha. rewrite lookup_insert_ne; [by apply Hw|]. intros E. by apply (Ha p).
Qed.

Lemma imp_rev_loop R w c m fuel first second w1 c1 c2 :
  at_words R w1 m -> only_tails c w w1 -> c = c1 ++ c2 -> NoDup c.*1 ->
  lseg w1 first (reverse c1) 0 -> lseg w1 second c2 0 -> (length c2 < fuel)%nat ->
  wp (loop fuel (fun '(first, second) =>
      if is_null second then mret (inr first)
      else
        temp ← get_tl second;
        set_tl second first;;
        mret (inl (second, temp))) (first, second))
    (fun y m' => exists w', at_words R w' m' /\ only_tails c w w' /\ lseg w' y (reverse c) 0)
    (fun _ _ => False) m.
Proof.
  intros Hm Ht -> Hnd H1 H2 Hfu.
  eapply (wp_loop _ (fun k '(first, second) m => exists w1 c1' c2', c1 ++ c2 = c1' ++ c2' /\
    k = length c2' /\ at_words R w1 m /\ only_tails (c1 ++ c2) w w1 /\
    lseg w1 first (reverse c1') 0 /\ lseg w1 second c2' 0)); [|by exists w1, c1, c2|done].
  clear Hm Ht H1 H2 Hfu w1 m first second.
  intros k [first second] m (w1 & d1 & d2 & Hc & -> & Hm & Ht & H1 & H2).
  destruct d2 as [|[p v] d2]; simpl in H2.
  { subst second. rewrite is_null_0. wps. exists w1. rewrite app_nil_r in Hc.
    split_and!; [done|done|]. by rewrite Hc. }
  destruct H2 as (-> & n & Hp & H2). rewrite Hc in Hnd. rewrite fmap_app in Hnd. simpl in Hnd.
  apply NoDup_app in Hnd as (_ & Hd & Hnd). apply NoDup_cons in Hnd as [Hp2 _].
  assert (Hp1 : p ∉ d1.*1) by (intros Hin; apply (Hd p Hin); left).
  pose proof Hp as (Hp0 & Hpm & _). rewrite is_null_ne by done.
  wps. eapply wp_get_tl; [done|done|]. wps. eapply wp_set_tl; [done|by destruct Hp as (_ & _ & _ & ->); eexists|].
  intros m1 Hm1. wps. exists (length d2). split; [simpl; lia|].
  exists (<[p + 4 := first]> w1), (d1 ++ [(p, v)]), d2. split_and!; try done.
  - by rewrite <- app_assoc.
  - apply only_tails_set; [done|]. rewrite Hc, fmap_app. apply elem_of_app. right. left.
  - rewrite reverse_snoc. split; [done|]. exists first. split; [by eapply cell_set_own_tl|].
    apply lseg_set_tl; [done|done|]. by rewrite fmap_reverse, elem_of_reverse.
  - by apply lseg_set_tl.
Qed.

Lemma imp_rev_spec R w c x m : at_words R w m -> lseg w x c 0 ->
  wp (Cyc_List_imp_rev x)
    (fun y m' => exists w', at_words R w' m' /\ only_tails c w w' /\ lseg w' y (reverse c) 0)
    (fun _ _ => False) m.
Proof.
  intros Hm Hs. unfold Cyc_List_imp_rev. pose proof (lseg_nodup _ _ _ Hs) as Hnd.
  destruct c as [|[p v] c]; simpl in Hs.
  { subst x. rewrite is_null_0. wps. exists w. by split_and!. }
  destruct Hs as (-> & n & Hp & Hs). pose proof Hp as (Hp0 & Hpm & _ & Hp4).
  pose proof Hnd as Hnd'. simpl in Hnd'. apply NoDup_cons in Hnd' as [Hpc _].
  rewrite is_null_ne by done. wps. eapply wp_get_tl; [done|done|].
  wps. eapply wp_set_tl; [done|by eexists|]. intros m1 Hm1. wps. eapply wp_with_fuel; [done|].
  apply (imp_rev_loop R w ((p, v) :: c) m1 _ p n (<[p + 4 := 0]> w) [(p, v)] c); try done.
  - apply only_tails_set; [by intros a|left].
  - split; [done|]. exists 0. split; [by eapply cell_set_own_tl|done].
  - by apply lseg_set_tl.
  - apply lseg_size in Hs. rewrite map_size_insert_Some by (by eexists). lia.
Qed.

Lemma lseg_tails w w' x c y p : lseg w x c y -> lseg w' x c y -> p ∈ c.*1 ->
  w !! (p + 4) = w' !! (p + 4).
Proof.
  revert x. induction c as [|[q v] c IH]; intros x H1 H2 Hp; [by apply not_elem_of_nil in Hp|].
  destruct H1 as (-> & n & (_ & _ & _ & E1) & H1), H2 as (_ & n' & (_ & _ & _ & E2) & H2).
  assert (n = n') as <-.
  { destruct c as [|[q' v'] c]; simpl in H1, H2; [congruence|]. by destruct H1 as [-> _], H2 as [-> _]. }
  simpl in Hp. apply elem_of_cons in Hp as [->|Hp]; [congruence|by eapply IH].
Qed.

(** Reversing a list in place and reversing it again restores the memory:
    the second call returns the original list, and every word of memory is what
    it was. *)
Theorem imp_rev_roundtrip R w c x m : at_words R w m -> lseg w x c 0 ->
  wp (y ← Cyc_List_imp_rev x; Cyc_List_imp_rev y)
    (fun z m' => z = x /\ words m' = words m) (fun _ _ => False) m.
Proof.
  intros Hm Hs. wps. eapply wp_mono; [by apply imp_rev_spec| |done].
  intros y m1 (w1 & Hm1 & Ht1 & Hs1). eapply wp_mono; [by apply imp_rev_spec| |done].
  intros z m2 (w2 & Hm2 & Ht2 & Hs2). rewrite reverse_involutive in Hs2.
  assert (z = x) as ->.
  { destruct c as [|[p v] c]; simpl in *; [congruence|]. by destruct Hs as [-> _], Hs2 as [-> _]. }
  split; [done|]. destruct Hm as [_ ->], Hm2 as [_ ->]. apply map_eq. intros a.
  destruct (decide (Exists (fun p => a = p + 4) c.*1)) as [He|Hn].
  - apply Exists_exists in He as (p & Hp & ->). symmetry. by eapply lseg_tails.
  - assert (Ha : forall p, p ∈ c.*1 -> a <> p + 4).
    { intros p Hp ->. apply Hn, Exists_exists. eauto. }
    rewrite Ht2; [by apply Ht1|]. intros p. rewrite fmap_reverse, elem_of_reverse. apply Ha.
Qed.
End spec.

Definition rev_twice : ST (mem bump) Z := y ← Cyc_List_imp_rev ex_head; Cyc_List_imp_rev y.

Lemma imp_rev_roundtrip_witness :
  rev_twice ex_list_mem = (Ret ex_head, (rev_twice ex_list_mem).2) /\
  words (rev_twice ex_list_mem).2 = words ex_list_mem.
Proof.
  destruct ex_list_ok as (w & Hm & (c & Hc & _)).
  assert (He : rev_twice ex_list_mem = (Ret ex_head, (rev_twice ex_list_mem).2))
    by (vm_compute; reflexivity).
  split; [exact He|].
  exact (proj2 (wp_result _ _ _ _ _ _ (imp_rev_roundtrip _ w c ex_head ex_list_mem Hm Hc) He)).
Defined.
