(* ===== verification/ListSort.v ===== *)
(** * Correctness of merging and sorting of lists

    [imp_merge] is the stable merge of stdpp on the cells of its arguments;
    [rimp_merge_sort] relinks the cells of its argument into a sorted list and
    touches nothing else; [rmerge_sort] sorts a copy. *)

From stdpp Require Import sorting.
From S2P Require Import Prelude Alloc FatPtr RwLock Region RegionSafety Words CycList ListCells CycListSpec.

Section sort.
Context {H : Type} `{HH : Heap H} `{!HeapLaws H} (self : Z).
Context (less_eq : Z -> Z -> ST (mem H) Z) (g : Z -> Z -> Z) (Hpure : pure2 less_eq g).
Implicit Types (m : mem H) (w : gmap Z Z) (c : list (Z * Z)).

(** The order of two cells by their heads. *)
Definition cell_le (p q : Z * Z) : Prop := g p.2 q.2 <= 0.
#[local] Instance cell_le_dec p q : Decision (cell_le p q).
Proof. unfold cell_le. apply _. Defined.

Lemma only_tails_mono c c' w w' : c.*1 ⊆ c'.*1 -> only_tails c w w' -> only_tails c' w w'.
Proof. intros Hc Ht a Ha. apply Ht. intros p Hp. by apply Ha, Hc. Qed.

Lemma only_tails_trans c w1 w2 w3 : only_tails c w1 w2 -> only_tails c w2 w3 -> only_tails c w1 w3.
Proof. intros H1 H2 a Ha. rewrite H2 by done. by apply H1. Qed.

Lemma cell_aligned w x c y p : lseg w x c y -> p ∈ c.*1 -> p mod 8 = 0.
Proof. intros Hs Hp. by destruct (lseg_elem _ _ _ _ _ Hs Hp) as (v & n & _ & ? & _). Qed.

(** A segment survives changes of the tails of other cells. *)
Lemma lseg_only_tails w w' c x d y : only_tails c w w' -> lseg w x d y -> d.*1 ## c.*1 ->
  (forall p, p ∈ c.*1 -> p mod 8 = 0) -> lseg w' x d y.
Proof.
  intros Ht Hs Hd Hal. revert x Hs Hd. induction d as [|[p v] d IH]; intros x; [done|].
  intros (-> & n & (H0 & Hm & H1 & H2) & Hs) Hd. simpl in Hd. split; [done|]. exists n. split.
  - split_and!; try done; rewrite Ht; try done; intros q Hq.
    + pose proof (Hal q Hq). intros ->. words.
    + intros E. assert (p = q) by lia. subst. apply (Hd q); [left|done].
  - apply IH; [done|]. intros q Hq. apply Hd. by right.
Qed.

(** ** Merging in place *)

(** The output up to its last cell [c], and what is left of the arguments. *)
Definition merging (w0 : gmap Z Z) (ca cb : list (Z * Z)) (w : gmap Z Z)
    (d a b cl : Z) (ra rb : list (Z * Z)) : Prop :=
  exists co v n, lseg w d co cl /\ cell w cl v n /\ lseg w a ra 0 /\ lseg w b rb 0 /\
    list_merge cell_le ca cb = co ++ (cl, v) :: list_merge cell_le ra rb /\
    NoDup (co ++ (cl, v) :: ra ++ rb).*1 /\ (co ++ (cl, v) :: ra ++ rb).*1 ⊆ (ca ++ cb).*1 /\
    only_tails (ca ++ cb) w0 w.

(** Linking the cell [p] that comes next. *)
Lemma merging_link w0 ca cb w d a b cl ra rb p n pv ra' rb' a' b' :
  merging w0 ca cb w d a b cl ra rb ->
  cell w p pv n -> lseg w a' ra' 0 -> lseg w b' rb' 0 ->
  list_merge cell_le ra rb = (p, pv) :: list_merge cell_le ra' rb' ->
  (p, pv) :: ra' ++ rb' ≡ₚ ra ++ rb ->
  cell (<[cl + 4 := p]> w) p pv n /\ merging w0 ca cb (<[cl + 4 := p]> w) d a' b' p ra' rb'.
Proof.
  intros (co & v & n0 & Hd & Hcl & Ha & Hb & Hmg & Hnd & Hsub & Ht) Hp Ha' Hb' Hstep Hperm.
  assert (Hnd' : NoDup (co ++ (cl, v) :: (p, pv) :: ra' ++ rb').*1).
  { by rewrite Hperm. }
  assert (Hall : (co ++ [(cl, v)]) ++ (p, pv) :: ra' ++ rb' ≡ₚ co ++ (cl, v) :: ra ++ rb).
  { rewrite <- app_assoc. simpl. by rewrite Hperm. }
  pose proof Hcl as (Hc0 & Hcm & _). rewrite fmap_app in Hnd'. simpl in Hnd'.
  apply NoDup_app in Hnd' as (Hn1 & Hn2 & Hn3). apply NoDup_cons in Hn3 as [Hn3 Hn4].
  apply not_elem_of_cons in Hn3 as [Hne Hn3]. rewrite fmap_app in Hn3.
  apply not_elem_of_app in Hn3 as [Hn5 Hn6].
  assert (Hco : cl ∉ co.*1) by (intros Hin; apply (Hn2 cl Hin); left).
  assert (Hp' : cell (<[cl + 4 := p]> w) p pv n) by (by apply cell_set_tl). split; [done|].
  exists (co ++ [(cl, v)]), pv, n. split_and!.
  - apply lseg_app. exists cl. split; [by apply lseg_set_tl|]. split; [done|]. exists p.
    split; [by eapply cell_set_own_tl|done].
  - done.
  - by apply lseg_set_tl.
  - by apply lseg_set_tl.
  - rewrite Hmg, Hstep. by rewrite <- app_assoc.
  - by rewrite Hall.
  - intros q Hq. apply Hsub. by rewrite <- Hall.
  - apply only_tails_set; [done|]. apply Hsub. rewrite fmap_app. apply elem_of_app. right. left.
Qed.

(** Linking what is left when one of the arguments is exhausted. *)
Lemma merging_finish w0 ca cb w d a b cl ra rb t rt :
  merging w0 ca cb w d a b cl ra rb -> lseg w t rt 0 -> list_merge cell_le ra rb = rt ->
  rt ≡ₚ ra ++ rb ->
  lseg (<[cl + 4 := t]> w) d (list_merge cell_le ca cb) 0 /\
  only_tails (ca ++ cb) w0 (<[cl + 4 := t]> w).
Proof.
  intros (co & v & n0 & Hd & Hcl & Ha & Hb & Hmg & Hnd & Hsub & Ht) Hrt Hm Hperm.
  pose proof Hcl as (Hc0 & Hcm & _). split.
  - rewrite Hmg, Hm. rewrite fmap_app in Hnd. simpl in Hnd.
    apply NoDup_app in Hnd as (Hn1 & Hn2 & Hn3). apply NoDup_cons in Hn3 as [Hn3 _].
    assert (Hco : cl ∉ co.*1) by (intros Hin; apply (Hn2 cl Hin); left).
    apply lseg_app. exists cl. split; [by apply lseg_set_tl|]. split; [done|]. exists t.
    split; [by eapply cell_set_own_tl|]. apply lseg_set_tl; [done|done|]. by rewrite Hperm.
  - apply only_tails_set; [done|]. apply Hsub. rewrite fmap_app. apply elem_of_app. right. left.
Qed.

Lemma imp_merge_loop R w0 ca cb w d a b cl ra rb m fuel : at_words R w m ->
  merging w0 ca cb w d a b cl ra rb -> (length ra + length rb < fuel)%nat ->
  wp (loop fuel (fun '(a, b, c) =>
      if negb (is_null a) && negb (is_null b) then
        ha ← get_hd a; hb ← get_hd b; i ← less_eq ha hb;
        if i <=? 0 then set_tl c a;; t ← get_tl a; mret (inl (t, b, a))
        else set_tl c b;; t ← get_tl b; mret (inl (a, t, b))
      else
        (if is_null a then set_tl c b else set_tl c a);;
        mret (inr d)) (a, b, cl))
    (fun y m' => exists w', at_words R w' m' /\ lseg w' y (list_merge cell_le ca cb) 0 /\
       only_tails (ca ++ cb) w0 w') (fun _ _ => False) m.
Proof.
  intros Hm Hmg Hfu.
  eapply (wp_loop _ (fun k '(a, b, cl) m => exists w ra rb, k = (length ra + length rb)%nat /\
    at_words R w m /\ merging w0 ca cb w d a b cl ra rb)); [|by exists w, ra, rb|done].
  clear Hm Hmg Hfu w a b cl ra rb m. intros k [[a b] cl] m (w & ra & rb & -> & Hm & Hmg).
  pose proof Hmg as (co & v & n & _ & (_ & _ & _ & Hcl) & Ha & Hb & _).
  destruct ra as [|[p pv] ra]; simpl in Ha.
  { subst a. rewrite is_null_0. simpl. wps. eapply wp_set_tl; [done|by eexists|]. intros m1 Hm1. wps.
    eexists. split; [exact Hm1|]. apply (merging_finish w0 ca cb w d 0 b cl [] rb b rb); try done.
    apply list_merge_nil_l. }
  pose proof Ha as (-> & na & Hp & Hra). rewrite (is_null_ne p) by (by destruct Hp).
  destruct rb as [|[q qv] rb]; simpl in Hb.
  { subst b. rewrite is_null_0. simpl. wps. eapply wp_set_tl; [done|by eexists|]. intros m1 Hm1. wps.
    eexists. split; [exact Hm1|].
    apply (merging_finish w0 ca cb w d p 0 cl ((p, pv) :: ra) [] p ((p, pv) :: ra)); try done.
    by rewrite app_nil_r. }
  pose proof Hb as (-> & nb & Hq & Hrb). rewrite (is_null_ne q) by (by destruct Hq). simpl.
  wps. eapply wp_get_hd; [done|exact Hp|]. wps. eapply wp_get_hd; [done|exact Hq|]. wps.
  eapply wp_pure2; [exact Hpure|]. pose proof (list_merge_cons cell_le (p, pv) (q, qv) ra rb) as E.
  destruct (decide (cell_le (p, pv) (q, qv))) as [Hle|Hle]; unfold cell_le in Hle; simpl in Hle.
  - assert ((g pv qv <=? 0) = true) as -> by lia. wps. eapply wp_set_tl; [done|by eexists|].
    destruct (merging_link _ _ _ _ _ _ _ _ _ _ p na pv ra ((q, qv) :: rb) na q Hmg Hp Hra Hb E
      (reflexivity _)) as [Hc' Hmg']. intros m1 Hm1. wps. eapply wp_get_tl; [done|exact Hc'|]. wps.
    exists (length ra + length ((q, qv) :: rb))%nat. split; [simpl; lia|].
    by eexists _, ra, ((q, qv) :: rb).
  - assert ((g pv qv <=? 0) = false) as -> by lia. wps. eapply wp_set_tl; [done|by eexists|].
    assert (Hpm : (q, qv) :: ((p, pv) :: ra) ++ rb ≡ₚ ((p, pv) :: ra) ++ (q, qv) :: rb)
      by (by rewrite <- Permutation_middle).
    destruct (merging_link _ _ _ _ _ _ _ _ _ _ q nb qv ((p, pv) :: ra) rb p nb Hmg Hq Ha Hrb E Hpm)
      as [Hc' Hmg']. intros m1 Hm1. wps. eapply wp_get_tl; [done|exact Hc'|]. wps.
    exists (length ((p, pv) :: ra) + length rb)%nat. split; [simpl; lia|].
    by eexists _, ((p, pv) :: ra), rb.
Qed.

Lemma imp_merge_spec R w a b ca cb m : at_words R w m -> lseg w a ca 0 -> lseg w b cb 0 ->
  NoDup (ca ++ cb).*1 ->
  wp (Cyc_List_imp_merge less_eq a b)
    (fun y m' => exists w', at_words R w' m' /\ lseg w' y (list_merge cell_le ca cb) 0 /\
       only_tails (ca ++ cb) w w') (fun _ _ => False) m.
Proof.
  intros Hm Ha Hb Hnd. unfold Cyc_List_imp_merge. destruct ca as [|[p pv] ra]; simpl in Ha.
  { subst a. rewrite is_null_0. wps. exists w. by rewrite list_merge_nil_l. }
  pose proof Ha as (-> & na & Hp & Hra). rewrite (is_null_ne p) by (by destruct Hp).
  destruct cb as [|[q qv] rb]; simpl in Hb.
  { subst b. rewrite is_null_0. wps. exists w. by rewrite list_merge_nil_r. }
  pose proof Hb as (-> & nb & Hq & Hrb). rewrite (is_null_ne q) by (by destruct Hq).
  wps. eapply wp_get_hd; [done|exact Hp|]. wps. eapply wp_get_hd; [done|exact Hq|]. wps.
  eapply wp_pure2; [exact Hpure|]. pose proof (list_merge_cons cell_le (p, pv) (q, qv) ra rb) as E.
  assert (Hsz : forall k, (k < length ra + length rb + 2)%nat -> (k < S (size w))%nat).
  { intros k Hk. pose proof (lseg_size_2 w p q ((p, pv) :: ra) ((q, qv) :: rb) Ha Hb Hnd) as Hle.
    simpl in Hle. lia. }
  destruct (decide (cell_le (p, pv) (q, qv))) as [Hle|Hle]; unfold cell_le in Hle; simpl in Hle.
  - assert ((g pv qv <=? 0) = true) as -> by lia. wps. eapply wp_get_tl; [done|exact Hp|]. wps.
    eapply wp_with_fuel; [done|].
    apply (imp_merge_loop R w _ _ w p na q p ra ((q, qv) :: rb)); [done| |apply Hsz; simpl; lia].
    exists [], pv, na. by split_and!.
  - assert ((g pv qv <=? 0) = false) as -> by lia. wps. eapply wp_get_tl; [done|exact Hq|]. wps.
    eapply wp_with_fuel; [done|].
    assert (Hpm : (q, qv) :: ((p, pv) :: ra) ++ rb ≡ₚ ((p, pv) :: ra) ++ (q, qv) :: rb)
      by (by rewrite <- Permutation_middle).
    apply (imp_merge_loop R w _ _ w q p nb q ((p, pv) :: ra) rb); [done| |apply Hsz; simpl; lia].
    exists [], qv, nb. split_and!; try done; [by rewrite Hpm|]. intros z. by rewrite Hpm.
Qed.

(** ** Dealing *)

Fixpoint deal {A} (l : list A) : list A * list A :=
  match l with
  | [] => ([], [])
  | [x] => ([x], [])
  | x :: y :: l => (x :: (deal l).1, y :: (deal l).2)
  end.

Lemma deal_ind {A} (P : list A -> Prop) : P [] -> (forall x, P [x]) ->
  (forall x y l, P l -> P (x :: y :: l)) -> forall l, P l.
Proof.
  intros H0 H1 H2 l. enough (P l /\ forall x, P (x :: l)) by tauto.
  induction l as [|a l [IH1 IH2]]; split; auto.
Qed.

Lemma deal_perm {A} (l : list A) : (deal l).1 ++ (deal l).2 ≡ₚ l.
Proof.
  induction l as [|x|x y l IH] using deal_ind; [done..|]. simpl.
  rewrite <- Permutation_middle, IH. done.
Qed.

Lemma deal_length {A} (l : list A) :
  (length (deal l).1 <= length l)%nat /\ (length (deal l).2 <= length l)%nat.
Proof. induction l as [|x|x y l IH] using deal_ind; simpl; lia. Qed.

(** The two lists dealt so far end in [aptr] and [bptr]; [r] is still to be
    dealt. *)
Definition dealing (w0 : gmap Z Z) (c ca cb : list (Z * Z)) (w : gmap Z Z)
    (a b x aptr bptr : Z) (r : list (Z * Z)) : Prop :=
  exists da db va vb na nb, lseg w a da aptr /\ cell w aptr va na /\ lseg w b db bptr /\
    cell w bptr vb nb /\ lseg w x r 0 /\
    ca = da ++ (aptr, va) :: (deal r).1 /\ cb = db ++ (bptr, vb) :: (deal r).2 /\
    NoDup (da ++ (aptr, va) :: db ++ (bptr, vb) :: r).*1 /\
    (da ++ (aptr, va) :: db ++ (bptr, vb) :: r).*1 ⊆ c.*1 /\ only_tails c w0 w.

(** The distinctness facts that linking a cell after [aptr] or [bptr] needs. *)
Lemma dealing_apart da aptr va db bptr vb (r : list (Z * Z)) :
  NoDup (da ++ (aptr, va) :: db ++ (bptr, vb) :: r).*1 ->
  aptr <> bptr /\ (aptr ∉ da.*1) /\ (aptr ∉ db.*1) /\ (aptr ∉ r.*1) /\ (bptr ∉ da.*1) /\
  (bptr ∉ db.*1) /\ (bptr ∉ r.*1).
Proof.
  rewrite fmap_app. simpl. rewrite fmap_app. simpl. intros Hnd.
  apply NoDup_app in Hnd as (_ & Hd & Hnd). apply NoDup_cons in Hnd as [Ha Hnd].
  apply NoDup_app in Hnd as (_ & Hd2 & Hnd). apply NoDup_cons in Hnd as [Hb _].
  rewrite elem_of_app, elem_of_cons in Ha.
  assert (bptr ∉ db.*1) by (intros Hin; apply (Hd2 bptr Hin); left).
  assert (aptr ∉ da.*1) by (intros Hin; apply (Hd aptr Hin); left).
  assert (bptr ∉ da.*1).
  { intros Hin. apply (Hd bptr Hin). right. apply elem_of_app. right. left. }
  split_and!; try done; intros Hin; apply Ha; tauto.
Qed.

Lemma not_elem_snoc p q v (d : list (Z * Z)) : p ∉ d.*1 -> p <> q -> p ∉ (d ++ [(q, v)]).*1.
Proof.
  intros Hd Hne. rewrite fmap_app. apply not_elem_of_app. split; [done|].
  apply not_elem_of_cons. split; [done|apply not_elem_of_nil].
Qed.

Lemma lseg_snoc_link w x d p v n t : lseg w x d p -> cell w p v n -> p ∉ d.*1 ->
  lseg (<[p + 4 := t]> w) x (d ++ [(p, v)]) t.
Proof.
  intros Hs Hp Hn. pose proof Hp as (_ & Hm & _). apply lseg_app. exists p.
  split; [by apply lseg_set_tl|]. split; [done|]. exists t. split; [by eapply cell_set_own_tl|done].
Qed.

(** The end: both lists are closed. *)
Lemma dealing_close w0 c ca cb w a b aptr bptr :
  dealing w0 c ca cb w a b 0 aptr bptr [] ->
  let w' := <[bptr + 4 := 0]> (<[aptr + 4 := 0]> w) in
  lseg w' a ca 0 /\ lseg w' b cb 0 /\ only_tails c w0 w'.
Proof.
  intros (da & db & va & vb & na & nb & Ha & Hca & Hb & Hcb & _ & -> & -> & Hnd & Hsub & Ht). simpl.
  destruct (dealing_apart _ _ _ _ _ _ _ Hnd) as (Hne & Ha1 & Ha2 & _ & Hb1 & Hb2 & _).
  pose proof Hca as (_ & Hma & _). pose proof Hcb as (_ & Hmb & _). split_and!.
  - apply lseg_set_tl; [by eapply lseg_snoc_link|done|]. by apply not_elem_snoc.
  - eapply lseg_snoc_link; [by apply lseg_set_tl| |done]. by apply cell_set_tl.
  - apply only_tails_set; [apply only_tails_set; [done|]|]; apply Hsub; rewrite fmap_app; simpl;
      apply elem_of_app; right; [left|]. right. rewrite fmap_app. apply elem_of_app. right. left.
Qed.

(** The last cell goes to the first list. *)
Lemma dealing_one w0 c ca cb w a b aptr bptr p pv :
  dealing w0 c ca cb w a b p aptr bptr [(p, pv)] ->
  cell (<[aptr + 4 := p]> w) p pv 0 /\
  dealing w0 c ca cb (<[aptr + 4 := p]> w) a b 0 p bptr [].
Proof.
  intros (da & db & va & vb & na & nb & Ha & Hca & Hb & Hcb & Hr & -> & -> & Hnd & Hsub & Ht).
  destruct (dealing_apart _ _ _ _ _ _ _ Hnd) as (Hne & Ha1 & Ha2 & Ha3 & Hb1 & Hb2 & Hb3).
  pose proof Hca as (_ & Hma & _). destruct Hr as (_ & n & Hp & Hn). simpl in Hn. subst n.
  simpl in Ha3, Hb3. apply not_elem_of_cons in Ha3 as [Hap _]. apply not_elem_of_cons in Hb3 as [Hbp _].
  assert (Hp' : cell (<[aptr + 4 := p]> w) p pv 0) by (by apply cell_set_tl). split; [done|].
  assert (Hall : (da ++ [(aptr, va)]) ++ (p, pv) :: db ++ [(bptr, vb)] ≡ₚ
    da ++ (aptr, va) :: db ++ [(bptr, vb); (p, pv)]).
  { rewrite <- app_assoc. simpl. do 2 f_equiv. 
    change [(bptr, vb); (p, pv)] with ([(bptr, vb)] ++ [(p, pv)]). rewrite app_assoc.
    apply Permutation_cons_append. }
  exists (da ++ [(aptr, va)]), db, pv, vb, 0, nb. split_and!; try done.
  - by eapply lseg_snoc_link.
  - by apply lseg_set_tl.
  - by apply cell_set_tl.
  - by rewrite <- app_assoc.
  - by rewrite Hall.
  - intros q Hq. apply Hsub. by rewrite <- Hall.
  - apply only_tails_set; [done|]. apply Hsub. rewrite fmap_app. apply elem_of_app. right. left.
Qed.

(** One cell goes to each list. *)
Lemma dealing_two w0 c ca cb w a b aptr bptr p pv q qv r :
  dealing w0 c ca cb w a b p aptr bptr ((p, pv) :: (q, qv) :: r) ->
  cell (<[aptr + 4 := p]> w) p pv q /\ is_Some (<[aptr + 4 := p]> w !! (bptr + 4)) /\
  exists n, cell (<[bptr + 4 := q]> (<[aptr + 4 := p]> w)) q qv n /\
  dealing w0 c ca cb (<[bptr + 4 := q]> (<[aptr + 4 := p]> w)) a b n p q r.
Proof.
  intros (da & db & va & vb & na & nb & Ha & Hca & Hb & Hcb & Hr & -> & -> & Hnd & Hsub & Ht).
  destruct (dealing_apart _ _ _ _ _ _ _ Hnd) as (Hne & Ha1 & Ha2 & Ha3 & Hb1 & Hb2 & Hb3).
  pose proof Hca as (_ & Hma & _). pose proof Hcb as (_ & Hmb & _ & Hbt).
  destruct Hr as (_ & n & Hp & (-> & n2 & Hq & Hr)).
  simpl in Ha3, Hb3. apply not_elem_of_cons in Ha3 as [Hap Ha3]. apply not_elem_of_cons in Hb3 as [Hbp Hb3].
  apply not_elem_of_cons in Ha3 as [Haq Ha3]. apply not_elem_of_cons in Hb3 as [Hbq Hb3].
  split; [by apply cell_set_tl|]. split; [rewrite lookup_insert_ne by lia; by eexists|].
  exists n2. assert (Hq' : cell (<[bptr + 4 := q]> (<[aptr + 4 := p]> w)) q qv n2)
    by (by do 2 (apply cell_set_tl; [|done|done])). split; [done|].
  assert (Hall : (da ++ [(aptr, va)]) ++ (p, pv) :: (db ++ [(bptr, vb)]) ++ (q, qv) :: r ≡ₚ
    da ++ (aptr, va) :: db ++ (bptr, vb) :: (p, pv) :: (q, qv) :: r).
  { rewrite <- !app_assoc. simpl. do 2 f_equiv. rewrite (Permutation_middle db _ (p, pv)).
    f_equiv. apply Permutation_swap. }
  exists (da ++ [(aptr, va)]), (db ++ [(bptr, vb)]), pv, qv, q, n2. split_and!; try done.
  - apply lseg_set_tl; [by eapply lseg_snoc_link|done|]. by apply not_elem_snoc.
  - do 2 (apply cell_set_tl; [|done|done]). done.
  - eapply lseg_snoc_link; [by apply lseg_set_tl| |done]. by apply cell_set_tl.
  - by do 2 (apply lseg_set_tl; [|done|done]).
  - by rewrite <- app_assoc.
  - by rewrite <- app_assoc.
  - by rewrite Hall.
  - intros z Hz. apply Hsub. by rewrite <- Hall.
  - apply only_tails_set; [apply only_tails_set; [done|]|]; apply Hsub; rewrite fmap_app; simpl;
      apply elem_of_app; right; [left|]. right. rewrite fmap_app. apply elem_of_app. right. left.
Qed.

Lemma deal_cells_spec R w0 c ca cb w a b x aptr bptr r m : at_words R w m ->
  dealing w0 c ca cb w a b x aptr bptr r ->
  wp (deal_cells x aptr bptr)
    (fun _ m' => exists w', at_words R w' m' /\ lseg w' a ca 0 /\ lseg w' b cb 0 /\
       only_tails c w0 w') (fun _ _ => False) m.
Proof.
  intros Hm Hd. unfold deal_cells. eapply wp_with_fuel; [done|].
  eapply (wp_loop _ (fun k '(x, aptr, bptr) m => exists w r, k = length r /\ at_words R w m /\
    dealing w0 c ca cb w a b x aptr bptr r)); [|by exists w, r|].
  2: { destruct Hd as (? & ? & ? & ? & ? & ? & _ & _ & _ & _ & Hr & _). apply lseg_size in Hr. lia. }
  clear Hm Hd w r m x aptr bptr. intros k [[x aptr] bptr] m (w & r & -> & Hm & Hd).
  pose proof Hd as (da & db & va & vb & na & nb & _ & Hca & _ & Hcb & Hr & _ & _ & Hnd & _).
  destruct (dealing_apart _ _ _ _ _ _ _ Hnd) as (Hne & _).
  assert (Hsa : is_Some (w !! (aptr + 4))) by (destruct Hca as (_ & _ & _ & ->); by eexists).
  assert (Hsb : is_Some (w !! (bptr + 4))) by (destruct Hcb as (_ & _ & _ & ->); by eexists).
  destruct r as [|[p pv] r]; simpl in Hr.
  { subst x. rewrite is_null_0. wps. eapply wp_set_tl; [done|done|]. intros m1 Hm1. wps.
    eapply wp_set_tl; [done|by rewrite lookup_insert_ne by lia|]. intros m2 Hm2. wps.
    eexists. split; [exact Hm2|]. by eapply dealing_close. }
  pose proof Hr as (-> & n & Hp & Hr'). rewrite (is_null_ne p) by (by destruct Hp).
  wps. eapply wp_set_tl; [done|done|]. intros m1 Hm1. wps.
  destruct r as [|[q qv] r]; simpl in Hr'.
  - subst n. destruct (dealing_one _ _ _ _ _ _ _ _ _ _ _ Hd) as [Hp' Hd'].
    eapply wp_get_tl; [done|exact Hp'|]. rewrite is_null_0. simpl. wps. exists 0%nat. split; [lia|].
    by eexists _, [].
  - destruct Hr' as (-> & n2 & Hq & _).
    destruct (dealing_two _ _ _ _ _ _ _ _ _ _ _ _ _ _ Hd) as (Hp' & Hb' & n3 & Hq' & Hd').
    eapply wp_get_tl; [done|exact Hp'|]. rewrite (is_null_ne q) by (by destruct Hq). simpl. wps.
    eapply wp_set_tl; [done|done|]. intros m2 Hm2. wps. eapply wp_get_tl; [done|exact Hq'|]. wps.
    exists (length r). split; [lia|]. by eexists _, r.
Qed.

(** ** Sorting *)

Context (Htotal : forall u v, g u v <= 0 \/ g v u <= 0).

#[local] Instance cell_le_total : Total cell_le.
Proof. intros p q. apply Htotal. Qed.

(** The cells [c] relinked into a sorted list. *)
Definition sorted_cells (w : gmap Z Z) (c : list (Z * Z)) (y : Z) (w' : gmap Z Z) : Prop :=
  exists c', lseg w' y c' 0 /\ c' ≡ₚ c /\ Sorted cell_le c' /\ only_tails c w w'.

Lemma imp_merge_sort_rec_spec R fuel : forall w x c m, at_words R w m -> lseg w x c 0 ->
  (length c < fuel)%nat ->
  wp (imp_merge_sort_rec fuel less_eq x)
    (fun y m' => exists w', at_words R w' m' /\ sorted_cells w c y w') (fun _ _ => False) m.
Proof.
  induction fuel as [|fuel IH]; intros w x c m Hm Hs Hfu; [lia|]. cbn [imp_merge_sort_rec].
  pose proof (lseg_nodup _ _ _ Hs) as Hnd.
  destruct c as [|[p pv] c]; simpl in Hs.
  { subst x. rewrite is_null_0. wps. exists w. split; [done|]. by exists []. }
  pose proof Hs as (-> & n & Hp & Hc). rewrite (is_null_ne p) by (by destruct Hp).
  wps. eapply wp_get_tl; [done|exact Hp|]. destruct c as [|[q qv] c]; simpl in Hc.
  { subst n. rewrite is_null_0. wps. exists w. split; [done|]. exists [(p, pv)].
    split_and!; try done. constructor; constructor. }
  pose proof Hc as (-> & n2 & Hq & Hr). rewrite (is_null_ne q) by (by destruct Hq).
  wps. eapply wp_get_tl; [done|exact Hq|]. wps.
  set (c0 := (p, pv) :: (q, qv) :: c) in *.
  set (ca := (p, pv) :: (deal c).1). set (cb := (q, qv) :: (deal c).2).
  assert (Hperm : ca ++ cb ≡ₚ c0).
  { unfold ca, cb, c0. simpl. f_equiv. by rewrite <- Permutation_middle, deal_perm. }
  destruct (deal_length c) as [Hl1 Hl2]. simpl in Hfu.
  eapply wp_mono; [apply (deal_cells_spec R w c0 ca cb w p q n2 p q c); [done|]| |done].
  { exists [], [], pv, qv, q, n2. split_and!; try done. }
  intros _ m1 (w1 & Hm1 & Ha & Hb & Ht1).
  assert (Hnd' : NoDup (ca ++ cb).*1) by (by rewrite Hperm).
  assert (Hdis : ca.*1 ## cb.*1).
  { rewrite fmap_app in Hnd'. apply NoDup_app in Hnd' as (_ & Hd & _). intros z Hz Hz'. by apply (Hd z). }
  assert (Hsubs : ca.*1 ⊆ c0.*1 /\ cb.*1 ⊆ c0.*1).
  { split; intros z Hz; rewrite <- Hperm, fmap_app, elem_of_app; tauto. }
  wps. eapply wp_mono; [apply (IH w1 p ca m1 Hm1 Ha); unfold ca; simpl; lia| |done].
  intros a' m2 (w2 & Hm2 & (ca' & Ha' & Hpa & Hsa & Ht2)).
  assert (Hb2 : lseg w2 q cb 0).
  { eapply lseg_only_tails; [exact Ht2|done| |]; [intros z Hz Hz'; by apply (Hdis z)|].
    intros z Hz. exact (cell_aligned _ _ _ _ _ Ha Hz). }
  wps. eapply wp_mono; [apply (IH w2 q cb m2 Hm2 Hb2); unfold cb; simpl; lia| |done].
  intros b' m3 (w3 & Hm3 & (cb' & Hb' & Hpb & Hsb & Ht3)).
  assert (Ha3 : lseg w3 a' ca' 0).
  { eapply lseg_only_tails; [exact Ht3|done| |].
    - intros z Hz. rewrite Hpa in Hz. by apply Hdis.
    - intros z Hz. exact (cell_aligned _ _ _ _ _ Hb2 Hz). }
  assert (Hp3 : ca' ++ cb' ≡ₚ c0) by (by rewrite Hpa, Hpb).
  eapply wp_mono; [apply (imp_merge_spec R w3 a' b' ca' cb' m3 Hm3 Ha3 Hb'); by rewrite Hp3| |done].
  intros y m4 (w4 & Hm4 & Hy & Ht4). exists w4. split; [done|].
  exists (list_merge cell_le ca' cb'). split_and!; try done.
  - etrans; [apply merge_Permutation|exact Hp3].
  - exact (Sorted_list_merge cell_le ca' cb' Hsa Hsb).
  - destruct Hsubs as [Hsa' Hsb']. eapply only_tails_trans; [exact Ht1|].
    eapply only_tails_trans; [exact (only_tails_mono _ _ _ _ Hsa' Ht2)|].
    eapply only_tails_trans; [exact (only_tails_mono _ _ _ _ Hsb' Ht3)|].
    eapply only_tails_mono, Ht4. intros z. by rewrite Hp3.
Qed.

Lemma imp_merge_sort_spec R w x c m : at_words R w m -> lseg w x c 0 ->
  wp (Cyc_List_rimp_merge_sort less_eq x)
    (fun y m' => exists w', at_words R w' m' /\ sorted_cells w c y w') (fun _ _ => False) m.
Proof.
  intros Hm Hs. unfold Cyc_List_rimp_merge_sort. eapply wp_with_fuel; [done|].
  eapply imp_merge_sort_rec_spec; [done|done|]. apply lseg_size in Hs. lia.
Qed.

(** The heads of sorted cells are sorted. *)
Lemma sorted_heads c : Sorted cell_le c -> Sorted (fun u v => g u v <= 0) c.*2.
Proof.
  induction 1 as [|p c _ IH Hh]; simpl; [constructor|]. constructor; [done|].
  destruct Hh as [|q c Hpq]; constructor. exact Hpq.
Qed.

Lemma rmerge_sort_spec R r w x l m : rgn_in R r -> list_at w x l -> at_words R w m ->
  wp (Cyc_List_rmerge_sort self r less_eq x)
    (fun y m' => exists w' l', at_words R w' m' /\ w ⊆ w' /\ new_list w w' y l' /\ l' ≡ₚ l /\
       Sorted (fun u v => g u v <= 0) l') (oom R w) m.
Proof.
  intros Hr Hl Hm. unfold Cyc_List_rmerge_sort. wps.
  eapply wp_mono; [eapply (map_cells_spec self R r mret id w x l m Hr); [|done|done]| |done].
  { by apply pure1_computes. }
  intros y m1 (w1 & Hm1 & Hw1 & (c & Hc & Hcl & Hab)). rewrite list_fmap_id in Hcl.
  eapply wp_mono; [by apply imp_merge_sort_spec| |done].
  intros z m2 (w2 & Hm2 & (c' & Hc' & Hp & Hs & Ht)).
  exists w2, c'.*2. split; [done|]. split; [|split_and!].
  - apply map_subseteq_spec. intros a v Ha. rewrite Ht; [by eapply lookup_weaken|].
    intros p Hp' ->. destruct (Hab p Hp') as [_ E]. congruence.
  - exists c'. split_and!; try done. intros q. rewrite Hp. apply Hab.
  - by rewrite Hp, Hcl.
  - by apply sorted_heads.
Qed.
End sort.

(** C10. [rmerge_sort] terminates and returns a new list that is a sorted
    permutation of its argument, for any comparison that orders every two
    elements; every word there was before is unchanged, so the argument is too.
    If memory runs out it throws [Cyc_Bad_alloc], again with every word kept. *)
Theorem merge_sort_correct {H : Type} `{HH : Heap H} `{!HeapLaws H} self R r
    (less_eq : Z -> Z -> ST (mem H) Z) g w x l m :
  pure2 less_eq g -> (forall u v, g u v <= 0 \/ g v u <= 0) ->
  rgn_in R r -> list_at w x l -> at_words R w m ->
  wp (Cyc_List_rmerge_sort self r less_eq x)
    (fun y m' => exists w' l', at_words R w' m' /\ w ⊆ w' /\ new_list w w' y l' /\ l' ≡ₚ l /\
       Sorted (fun u v => g u v <= 0) l') (oom R w) m.
Proof. intros Hp Ht. by apply rmerge_sort_spec. Qed.

Definition minus (u v : Z) : ST (mem bump) Z := mret (u - v).
#[local] Instance minus_antisymm : AntiSymm (=) (fun u v => u - v <= 0).
Proof. intros u v ? ?. lia. Qed.

Definition sort_ex : ST (mem bump) Z := Cyc_List_rmerge_sort 1 1000 minus ex_head.

Lemma merge_sort_correct_witness : exists y m' w', sort_ex ex_list_mem = (Ret y, m') /\
  at_words {[1000]} w' m' /\ list_at w' y [3; 5; 7].
Proof.
  destruct ex_list_ok as (w & Hm & Hl).
  assert (Hr : rgn_in {[1000]} 1000) by (right; by apply elem_of_singleton).
  pose proof (merge_sort_correct 1 {[1000]} 1000 minus Z.sub w ex_head [3; 7; 5] ex_list_mem
    (fun u v m => eq_refl) ltac:(intros; lia) Hr Hl Hm) as Hwp.
  destruct (sort_ex ex_list_mem) as [o m'] eqn:E.
  assert (Ho : exists y, o = Ret y) by (change o with (o, m').1; rewrite <- E; vm_compute; by eexists).
  destruct Ho as [y ->].
  destruct (wp_result _ _ _ _ _ _ Hwp E) as (w' & l' & Hm' & _ & Hn & Hp & Hs).
  exists y, m', w'. split_and!; [done|done|]. apply new_list_at in Hn.
  assert (Hsort : l' = [3; 5; 7]).
  { apply (StronglySorted_unique (fun u v => u - v <= 0)).
    - apply Sorted_StronglySorted; [intros ? ? ?; lia|done].
    - repeat constructor; lia.
    - rewrite Hp. rewrite (Permutation_swap 5 7). done. }
  by rewrite <- Hsort.
Defined.
