(* ===== verification/ListConv.v ===== *)
(** * Correctness of the conversions of the list library

    Length, conversion to and from arrays, pairing and splitting. *)

From S2P Require Import Prelude Alloc FatPtr RwLock Region RegionSafety Words CycList ListCells WordMem CycListSpec.

(** Distinct multiples of 8 between 0 and [8 * n]. *)
Lemma aligned_count (l : list Z) (n : nat) : NoDup l ->
  (forall p, p ∈ l -> 0 <= p < 8 * Z.of_nat n /\ p mod 8 = 0) -> (length l <= n)%nat.
Proof.
  intros Hnd Hl. rewrite <- (length_fmap (fun p => Z.to_nat (p / 8)) l), <- (length_seq n 0).
  apply submseteq_length, NoDup_submseteq.
  - apply NoDup_fmap_2_strong; [|done]. intros p q Hp Hq E.
    destruct (Hl p Hp) as [? ?], (Hl q Hq) as [? ?]. words.
  - intros k Hk. apply list_elem_of_fmap in Hk as (p & -> & Hp). destruct (Hl p Hp) as [? ?].
    apply elem_of_seq. words.
Qed.

Section conv.
Context {H : Type} `{HH : Heap H} `{!HeapLaws H} (self : Z).
Implicit Types (m : mem H) (w : gmap Z Z).

(** A list fits the address space, so an [int] holds its length. *)
Lemma list_length_bound R w x l m : at_words R w m -> list_at w x l -> Z.of_nat (length l) < 536870913.
Proof.
  intros [Hok Hw] (c & Hc & <-). rewrite length_fmap, <- (length_fmap fst).
  enough (length c.*1 <= Z.to_nat 536870912)%nat by lia.
  apply aligned_count; [by eapply lseg_nodup|]. intros p Hp.
  destruct (lseg_elem _ _ _ _ _ Hc Hp) as (v & n & _ & Hm & Hv & _). split; [|done].
  destruct (heap_ok_bounds R m p Hok) as [? ?]; [rewrite Hw; by eexists|]. lia.
Qed.

Lemma length_spec R w x l m E : at_words R w m -> list_at w x l ->
  wp (Cyc_List_length x) (fun n m' => n = Z.of_nat (length l) /\ m' = m) E m.
Proof.
  intros Hm Hl. pose proof (list_length_bound _ _ _ _ _ Hm Hl) as Hb.
  unfold Cyc_List_length. eapply wp_with_fuel; [done|].
  eapply (wp_loop _ (fun k '(x, i) m' => exists l2, k = length l2 /\ m' = m /\ list_at w x l2 /\
    i = Z.of_nat (length l - length l2) /\ (length l2 <= length l)%nat)).
  - intros k [y i] m' (l2 & -> & -> & Hl2 & -> & Hle).
    destruct (list_at_cases _ _ _ Hl2) as [[-> ->]|(Hy & v & n & l3 & -> & Hc & Hl3)].
    + rewrite is_null_0. wps. split; [|done]. simpl. lia.
    + rewrite is_null_ne by done. wps. eapply wp_get_tl; [done|done|]. wps.
      exists (length l3). split; [simpl; lia|]. exists l3. simpl in Hle. simpl.
      split_and!; try done; [|lia]. rewrite i32_small by lia. lia.
  - exists l. split_and!; try done. lia.
  - apply list_at_size in Hl. lia.
Qed.

(** ** Arrays *)

Lemma rto_array_spec R r w x l m : rgn_in R r -> at_words R w m -> list_at w x l ->
  wp (Cyc_List_rto_array self r x)
    (fun arr m' => exists w', at_words R w' m' /\ w ⊆ w' /\ array_of w' arr l) (oom R w) m.
Proof.
  intros Hr Hm Hl. pose proof (list_length_bound _ _ _ _ _ Hm Hl) as Hb.
  unfold Cyc_List_rto_array. wps. eapply wp_mono; [by eapply length_spec| |done].
  intros n m' (-> & ->). rewrite u32_small by lia. wps.
  unfold _check_times. destruct (_ || _) eqn:Ec.
  { apply (wp_mono _ (fun _ _ => False) _ (oom R w)); [|done|done].
    apply (wp_thrown Cyc_Bad_alloc). split; [done|]. by exists w. }
  apply orb_false_iff in Ec as [_ Ec]. rewrite u32_small in Ec by lia. apply Z.ltb_ge in Ec.
  wps. rewrite Nat2Z.id. eapply wp_new_words; [done|done|lia| |].
  2: { intros m' Hm'. split; [done|]. by exists w. }
  intros a m1 Hm1 Hf. pose proof Hf as (Ha & _ & Hab & _).
  eapply (wp_loop _ (fun k '(i, x) m' => exists w' j, k = (length l - j)%nat /\ i = Z.of_nat j /\
    (j <= length l)%nat /\ at_words R w' m' /\ filled w a l j w' /\ list_at w x (drop j l))).
  - intros k [i y] m2 (w2 & j & -> & -> & Hj & Hm2 & Hfi & Hly).
    destruct (Z.of_nat j <? Z.of_nat (length l)) eqn:Ej.
    + destruct (lookup_lt_is_Some_2 l j ltac:(lia)) as [v Hv].
      destruct (list_at_cases _ _ _ Hly) as [[-> E]|(Hy & v' & n & l3 & E & Hc & Hl3)].
      { apply (f_equal length) in E. rewrite length_drop in E. simpl in E. lia. }
      rewrite (drop_S _ _ _ Hv) in E. injection E as <- <-.
      pose proof Hfi as (Hw2 & _ & Hs2).
      unfold _check_null. rewrite (proj2 (Z.eqb_neq _ _) Hy). wps.
      eapply wp_get_hd; [done|by eapply cell_mono|]. wps.
      eapply wp_get_tl; [done|by eapply cell_mono|]. wps. rewrite u32_small by lia.
      eapply wp_store; [done|by apply Hs2; lia|]. intros m3 Hm3. wps. rewrite u32_small by lia.
      exists (length l - S j)%nat. split; [lia|]. eexists _, (S j). split_and!; [done|lia|lia|exact Hm3|by apply filled_step|done].
    + wps. assert (j = length l) as -> by lia. exists w2. pose proof Hfi as (Hw2 & Hd2 & _).
      split_and!; try done. exists a. split_and!; try done; try lia.
      intros i v Hv. apply Hd2; [|done]. by eapply lookup_lt_Some.
  - exists (zero_words a (length l) w), 0%nat. split_and!; try done; [lia..|].
    split_and!; [by apply zero_words_sub|lia|]. intros j Hj. by apply zero_words_lookup.
  - lia.
Qed.

Lemma rfrom_array_spec R r w arr l m : rgn_in R r -> at_words R w m -> array_of w arr l ->
  Z.of_nat (length l) < 536870913 ->
  wp (Cyc_List_rfrom_array self r arr)
    (fun y m' => exists w', at_words R w' m' /\ w ⊆ w' /\ new_list w w' y l) (oom R w) m.
Proof.
  intros Hr Hm Harr Hb. unfold Cyc_List_rfrom_array. rewrite (array_of_size _ _ _ Harr), Nat2Z.id.
  assert (Hi0 : i32 (u32 (Z.of_nat (length l) - 1)) = Z.of_nat (length l) - 1) by words.
  rewrite Hi0.
  eapply (wp_loop _ (fun k '(i, ans) m' => exists w' j, k = j /\ i = Z.of_nat j - 1 /\
    (j <= length l)%nat /\ at_words R w' m' /\ w ⊆ w' /\ new_list w w' ans (drop j l))).
  - intros k [i ans] m1 (w1 & j & -> & -> & Hj & Hm1 & Hw1 & Hn). destruct (0 <=? Z.of_nat j - 1) eqn:Ej.
    + destruct j as [|j]; [discriminate Ej|]. replace (Z.of_nat (S j) - 1) with (Z.of_nat j) in * by lia.
      destruct (lookup_lt_is_Some_2 l j ltac:(lia)) as [v Hv].
      wps. eapply wp_new_cell_words; [done|done| |].
      2: { intros m' Hm'. split; [done|]. by exists w1. }
      intros p m2 Hm2 Hf. pose proof (zero_words_sub _ _ _ Hf) as Hz. wps.
      destruct (array_of_get _ _ _ _ _ list_cyc 811 Harr Hv) as (a & -> & Ha). wps.
      eapply wp_load; [done|eapply lookup_weaken; [exact Ha|by etrans]|]. wps.
      eapply wp_fill_cell; [exact Hf|done|done|]. intros m3 Hm3. wps.
      destruct (new_list_cons w w1 _ p v ans _ Hw1 Hn Hf Hz) as [Hn' Hw'].
      exists j. split; [lia|]. eexists _, j. rewrite (drop_S _ _ _ Hv). by split_and!; [| |lia|..].
    + wps. assert (j = 0%nat) as -> by lia. rewrite drop_0 in Hn. by exists w1.
  - exists w, (length l). split_and!; try done. rewrite drop_all. apply new_list_nil.
  - lia.
Qed.

(** Converting a list to an array and back gives a new list with the same
    elements in the same order; every word there was before is unchanged.  A
    list too long for an array, or for the memory left, gives [Cyc_Bad_alloc]. *)
Theorem array_roundtrip R r r' w x l m :
  rgn_in R r -> rgn_in R r' -> at_words R w m -> list_at w x l ->
  wp (arr ← Cyc_List_rto_array self r x; Cyc_List_rfrom_array self r' arr)
    (fun y m' => exists w', at_words R w' m' /\ w ⊆ w' /\ new_list w w' y l) (oom R w) m.
Proof.
  intros Hr Hr' Hm Hl. pose proof (list_length_bound _ _ _ _ _ Hm Hl) as Hb. wps.
  eapply wp_mono; [by apply rto_array_spec| |done]. intros arr m1 (w1 & Hm1 & Hw1 & Harr).
  eapply wp_mono; [by eapply rfrom_array_spec| |].
  - intros y m2 (w2 & Hm2 & Hw2 & (c & Hc & Hcl & Ha)). exists w2. split; [done|].
    split; [by etrans|]. exists c. split_and!; try done. intros q Hq.
    eapply absent_mono; [exact Hw1|by apply Ha].
  - intros e m2. by apply oom_mono.
Qed.
End conv.

Definition array_ex : ST (mem bump) Z :=
  arr ← Cyc_List_rto_array 1 1000 ex_head; Cyc_List_rfrom_array 1 Cyc_Core_heap_region arr.

Lemma array_roundtrip_witness : exists y m' w', array_ex ex_list_mem = (Ret y, m') /\
  at_words {[1000]} w' m' /\ list_at w' y [3; 7; 5].
Proof.
  destruct ex_list_ok as (w & Hm & Hl).
  assert (Hr : rgn_in {[1000]} 1000) by (right; by apply elem_of_singleton).
  pose proof (array_roundtrip 1 {[1000]} 1000 Cyc_Core_heap_region w ex_head [3; 7; 5] ex_list_mem
    Hr (or_introl eq_refl) Hm Hl) as Hwp.
  destruct (array_ex ex_list_mem) as [o m'] eqn:E.
  assert (Ho : exists y, o = Ret y) by (change o with (o, m').1; rewrite <- E; vm_compute; by eexists).
  destruct Ho as [y ->].
  destruct (wp_result _ _ _ _ _ _ Hwp E) as (w' & Hm' & _ & Hn).
  exists y, m', w'. split_and!; [done|done|]. by eapply new_list_at.
Defined.
