(* ===== verification/CycSet.v ===== *)
(** * The set library

    Models src/bin/genfiles/set.c: a set is an object of three words, the
    comparison function, the cardinality and a list of elements in ascending
    order.  A function pointer is a word; [call] runs the function it points
    to. *)

From S2P Require Import Prelude Alloc FatPtr RwLock Region Words CycList.

Definition set_cyc : string := "set.cyc".
Definition Cyc_Set_Absent : exn := Cyc_Other_exn "Absent".

Section set.
Context {H : Type} `{Heap H} (self : Z) (call : Z -> Z -> Z -> ST (mem H) Z).
Abbreviation M := (ST (mem H)).

(** ** The fields *)

Definition s_cmp (s : Z) : M Z := get_word s.
Definition s_cardinality (s : Z) : M Z := get_word (s + 4).
Definition s_nodes (s : Z) : M Z := get_word (s + 8).
Definition s_set_nodes (s v : Z) : M unit := store_word (s + 8) v.

(** A set object whose words have been allocated at [p]. *)
Definition init_set (p cmp card nodes : Z) : M Z :=
  store_word p cmp;; store_word (p + 4) card;; store_word (p + 8) nodes;; mret p.

(** A cell from the heap: [_cycalloc] with the fields [hd] and [tl]. *)
Definition cyc_cell (line hd tl : Z) : M Z :=
  p ← cycalloc_words 2 set_cyc line; set_hd p hd;; set_tl p tl;; mret p.

(** ** Construction and tests *)

Definition Cyc_Set_empty (comp : Z) : M Z := p ← cycalloc_words 3 set_cyc 40; init_set p comp 0 0.
Definition Cyc_Set_rempty (rgn comp : Z) : M Z := p ← new_words self rgn 3; init_set p comp 0 0.
Definition Cyc_Set_singleton (comp x : Z) : M Z :=
  p ← cycalloc_words 3 set_cyc 47;
  store_word p comp;; store_word (p + 4) 1;;
  n ← cyc_cell 47 x 0; store_word (p + 8) n;; mret p.

Definition Cyc_Set_cardinality (s : Z) : M Z := s_cardinality s.
Definition Cyc_Set_is_empty (s : Z) : M bool := c ← s_cardinality s; mret (c =? 0).

Definition Cyc_Set_member_b (cmp n elt : Z) : M bool :=
  with_fuel (fun k => loop k (fun n =>
    if is_null n then mret (inr false)
    else
      h ← get_hd n; i ← call cmp elt h;
      if i =? 0 then mret (inr true)
      else if i <? 0 then mret (inr false)
      else t ← get_tl n; mret (inl t)) n).
Definition Cyc_Set_member (s elt : Z) : M bool :=
  c ← s_cmp s; n ← s_nodes s; Cyc_Set_member_b c n elt.

(** ** Insertion *)

Definition Cyc_Set_insert_b (rgn cmp n elt : Z) : M Z :=
  if is_null n then new_cell self rgn elt 0
  else
    h ← get_hd n; i ← call cmp elt h;
    if i <? 0 then new_cell self rgn elt n
    else
      h ← get_hd n; result ← new_cell self rgn h 0;
      n ← get_tl n;
      with_fuel (fun k => loop k (fun '(n, prev) =>
        go ← (if is_null n then mret false else h ← get_hd n; i ← call cmp h elt; mret (i <? 0));
        if go : bool then
          h ← get_hd n; p ← new_cell self rgn h 0;
          pv ← lift (_check_null prev set_cyc 92); set_tl pv p;;
          prev ← get_tl prev;
          n ← get_tl n; mret (inl (n, prev))
        else
          p ← new_cell self rgn elt n;
          pv ← lift (_check_null prev set_cyc 96); set_tl pv p;;
          mret (inr result)) (n, result)).

Definition Cyc_Set_insert (s elt : Z) : M Z :=
  b ← Cyc_Set_member s elt;
  if b : bool then mret s
  else
    p ← cycalloc_words 3 set_cyc 105;
    c ← s_cmp s; store_word p c;;
    k ← s_cardinality s; store_word (p + 4) (i32 (k + 1));;
    c ← s_cmp s; n ← s_nodes s; n ← Cyc_Set_insert_b Cyc_Core_heap_region c n elt;
    store_word (p + 8) n;; mret p.

Definition Cyc_Set_rinsert (rgn s elt : Z) : M Z :=
  b ← Cyc_Set_member s elt;
  if b : bool then mret s
  else
    p ← new_words self rgn 3;
    c ← s_cmp s; store_word p c;;
    k ← s_cardinality s; store_word (p + 4) (i32 (k + 1));;
    c ← s_cmp s; n ← s_nodes s; n ← Cyc_Set_insert_b rgn c n elt;
    store_word (p + 8) n;; mret p.

Definition Cyc_Set_imp_insert_b (rgn cmp n elt : Z) : M Z :=
  if is_null n then new_cell self rgn elt 0
  else
    h ← get_hd n; i ← call cmp elt h;
    if i <? 0 then new_cell self rgn elt n
    else
      let res := n in
      t ← get_tl n;
      with_fuel (fun k => loop k (fun '(n, prev) =>
        go ← (if is_null n then mret false else h ← get_hd n; i ← call cmp h elt; mret (i <? 0));
        if go : bool then
          pv ← lift (_check_null prev set_cyc 130); prev ← get_tl pv;
          n ← get_tl n; mret (inl (n, prev))
        else
          p ← new_cell self rgn elt n;
          pv ← lift (_check_null prev set_cyc 133); set_tl pv p;;
          mret (inr res)) (t, n)).

Definition Cyc_Set_imp_rinsert (rgn s elt : Z) : M unit :=
  b ← Cyc_Set_member s elt;
  if b : bool then mret tt
  else c ← s_cmp s; n ← s_nodes s; n ← Cyc_Set_imp_insert_b rgn c n elt; s_set_nodes s n.
Definition Cyc_Set_imp_insert (s elt : Z) : M unit := Cyc_Set_imp_rinsert Cyc_Core_heap_region s elt.

(** ** Union *)

(** The loop of [union_two]: [curr] is the last cell of the result, 0 when it
    is empty; gives the lists left over, the result and its size so far. *)
Definition union_loop (comp x1 x2 : Z) : M (Z * Z * Z * Z * Z) :=
  with_fuel (fun k => loop k (fun '(x1, x2, curr, nodes, card) =>
    if negb (is_null x1) && negb (is_null x2) then
      h1 ← get_hd x1; h2 ← get_hd x2; i ← call comp h1 h2;
      if i =? 0 then t ← get_tl x2; mret (inl (x1, t, curr, nodes, card))
      else
        let from := if i <? 0 then x1 else x2 in
        let line := if i <? 0 then (if is_null curr then 176 else 179)
                    else (if is_null curr then 187 else 190) in
        h ← get_hd from; p ← cyc_cell line h 0;
        (if is_null curr then mret tt else set_tl curr p);;
        t ← get_tl from;
        mret (inl (if i <? 0 then t else x1, if i <? 0 then x2 else t, p,
                   if is_null curr then p else nodes, i32 (card + 1)))
    else mret (inr (x1, x2, curr, nodes, card))) (x1, x2, 0, 0, 0)).

Definition Cyc_Set_union_two (s1 s2 : Z) : M Z :=
  if s1 =? s2 then mret s1
  else
    c1 ← s_cardinality s1;
    if c1 =? 0 then mret s2
    else
      c2 ← s_cardinality s2;
      if c2 =? 0 then mret s1
      else
        comp ← s_cmp s1; x1 ← s_nodes s1; x2 ← s_nodes s2;
        r ← union_loop comp x1 x2;
        let '(x1, x2, curr, nodes, card) := r in
        let rest := if negb (is_null x1) then x1 else x2 in
        nc ← (if negb (is_null rest) then
                (if is_null curr then mret tt else set_tl curr rest);;
                len ← Cyc_List_length rest;
                mret (if is_null curr then rest else nodes, i32 (card + len))
              else mret (nodes, card));
        let '(nodes, card) := nc in
        p ← cycalloc_words 3 set_cyc 197; init_set p comp card nodes.

(** ** Deletion *)

Definition Cyc_Set_delete_b (cmp n elt : Z) : M Z :=
  n' ← lift (_check_null n set_cyc 219);
  h ← get_hd n'; i ← call cmp h elt;
  if i =? 0 then get_tl n
  else
    h ← get_hd n; result ← cyc_cell 219 h 0;
    n ← get_tl n;
    with_fuel (fun k => loop k (fun '(n, prev) =>
      go ← (if is_null n then mret false
            else h ← get_hd n; i ← call cmp h elt; mret (negb (i =? 0)));
      if go : bool then
        h ← get_hd n; p ← cyc_cell 225 h 0;
        pv ← lift (_check_null prev set_cyc 225); set_tl pv p;;
        prev ← get_tl prev;
        n ← get_tl n; mret (inl (n, prev))
      else
        n' ← lift (_check_null n set_cyc 229); t ← get_tl n';
        pv ← lift (_check_null prev set_cyc 229); set_tl pv t;;
        mret (inr result)) (n, result)).

Definition Cyc_Set_delete (s elt : Z) : M Z :=
  b ← Cyc_Set_member s elt;
  if b : bool then
    p ← cycalloc_words 3 set_cyc 236;
    c ← s_cmp s; store_word p c;;
    k ← s_cardinality s; store_word (p + 4) (i32 (k - 1));;
    c ← s_cmp s; n ← s_nodes s; n ← Cyc_Set_delete_b c n elt;
    store_word (p + 8) n;; mret p
  else mret s.

(** The second result is the value of [*ret] afterwards. *)
Definition Cyc_Set_imp_delete_b (cmp n elt ret : Z) : M (Z * Z) :=
  n' ← lift (_check_null n set_cyc 246);
  h ← get_hd n'; i ← call cmp h elt;
  if i =? 0 then t ← get_tl n; mret (t, ret)
  else
    let res := n in
    t ← get_tl n;
    with_fuel (fun k => loop k (fun '(n, prev) =>
      go ← (if is_null n then mret false
            else h ← get_hd n; i ← call cmp h elt; mret (negb (i =? 0)));
      if go : bool then
        pv ← lift (_check_null prev set_cyc 251); prev ← get_tl pv;
        n ← get_tl n; mret (inl (n, prev))
      else
        n' ← lift (_check_null n set_cyc 254); t ← get_tl n';
        pv ← lift (_check_null prev set_cyc 254); set_tl pv t;;
        h ← get_hd n; mret (inr (res, h))) (t, n)).

Definition Cyc_Set_imp_delete (s elt : Z) : M Z :=
  b ← Cyc_Set_member s elt;
  if b : bool then
    c ← s_cmp s; n ← s_nodes s; r ← Cyc_Set_imp_delete_b c n elt elt;
    s_set_nodes s r.1;; mret r.2
  else mret elt.

(** ** Folds and iteration *)

Definition Cyc_Set_fold (f : Z -> Z -> M Z) (s accum : Z) : M Z :=
  n ← s_nodes s;
  with_fuel (fun k => loop k (fun '(n, accum) =>
    if is_null n then mret (inr accum)
    else h ← get_hd n; accum ← f h accum; t ← get_tl n; mret (inl (t, accum))) (n, accum)).
Definition Cyc_Set_fold_c (f : Z -> Z -> Z -> M Z) (env s accum : Z) : M Z :=
  Cyc_Set_fold (f env) s accum.
Definition Cyc_Set_app (f : Z -> M Z) (s : Z) : M unit := n ← s_nodes s; Cyc_List_app f n.
Definition Cyc_Set_iter (f : Z -> M unit) (s : Z) : M unit := n ← s_nodes s; Cyc_List_iter f n.
Definition Cyc_Set_iter_c (f : Z -> Z -> M unit) (env s : Z) : M unit :=
  n ← s_nodes s; Cyc_List_iter_c f env n.

(** ** Intersection, difference, comparison *)

Definition Cyc_Set_intersect (s1 s2 : Z) : M Z :=
  if s1 =? s2 then mret s1
  else
    comp ← s_cmp s1; x1 ← s_nodes s1; x2 ← s_nodes s2;
    if is_null x1 then mret s1
    else if is_null x2 then mret s2
    else
      with_fuel (fun k => loop k (fun '(x1, x2, result, prev, card) =>
        if negb (is_null x1) && negb (is_null x2) then
          h1 ← get_hd x1; h2 ← get_hd x2; i ← call comp h1 h2;
          if i =? 0 then
            h ← get_hd x1; p ← cyc_cell (if is_null result then 319 else 322) h 0;
            (if is_null result then mret tt
             else pv ← lift (_check_null prev set_cyc 322); set_tl pv p);;
            t1 ← get_tl x1; t2 ← get_tl x2;
            mret (inl (t1, t2, if is_null result then p else result, p, i32 (card + 1)))
          else if i <? 0 then t ← get_tl x1; mret (inl (t, x2, result, prev, card))
          else t ← get_tl x2; mret (inl (x1, t, result, prev, card))
        else
          p ← cycalloc_words 3 set_cyc 334; init_set p comp card result;; mret (inr p))
        (x1, x2, 0, 0, 0)).

Definition Cyc_Set_from_list (comp x : Z) : M Z :=
  z ← Cyc_List_merge_sort self (call comp) x;
  with_fuel (fun k => loop k (fun y =>
    if is_null y then mret (inr tt)
    else
      t ← get_tl y;
      (if negb (is_null t) then
         a ← get_hd y; t' ← lift (_check_null t set_cyc 341); b ← get_hd t'; i ← call comp a b;
         if i =? 0 then
           t ← get_tl y; t' ← lift (_check_null t set_cyc 342); n ← get_tl t'; set_tl y n
         else mret tt
       else mret tt);;
      t ← get_tl y; mret (inl t)) z);;
  p ← cycalloc_words 3 set_cyc 344;
  store_word p comp;;
  len ← Cyc_List_length z; store_word (p + 4) len;;
  store_word (p + 8) z;; mret p.

Definition Cyc_Set_subset (s1 s2 : Z) : M bool :=
  comp ← s_cmp s1; x1 ← s_nodes s1; x2 ← s_nodes s2;
  with_fuel (fun k => loop k (fun '(x1, x2) =>
    if is_null x1 then mret (inr true)
    else if is_null x2 then mret (inr false)
    else
      h1 ← get_hd x1; h2 ← get_hd x2; i ← call comp h1 h2;
      if i =? 0 then t1 ← get_tl x1; t2 ← get_tl x2; mret (inl (t1, t2))
      else if 0 <? i then t ← get_tl x2; mret (inl (x1, t))
      else mret (inr false)) (x1, x2)).

Definition Cyc_Set_diff (s1 s2 : Z) : M Z :=
  comp ← s_cmp s1; x1 ← s_nodes s1; x2 ← s_nodes s2; card ← s_cardinality s1;
  if is_null x2 then mret s1
  else
    with_fuel (fun k => loop k (fun '(x1, x2, card) =>
      if is_null x2 then
        p ← cycalloc_words 3 set_cyc 383; init_set p comp card x1;; mret (inr p)
      else
        elt ← get_hd x2;
        b ← Cyc_Set_member_b comp x1 elt;
        x1 ← (if b : bool then Cyc_Set_delete_b comp x1 elt else mret x1);
        t ← get_tl x2;
        mret (inl (x1, t, if b : bool then i32 (card - 1) else card))) (x1, x2, card)).

Definition Cyc_Set_setcmp (s1 s2 : Z) : M Z :=
  c1 ← s_cardinality s1; c2 ← s_cardinality s2;
  if negb (c1 =? c2) then mret (i32 (c1 - c2))
  else
    x1 ← s_nodes s1; x2 ← s_nodes s2; cmp ← s_cmp s1;
    with_fuel (fun k => loop k (fun '(x1, x2) =>
      if is_null x1 then mret (inr 0)
      else
        h1 ← get_hd x1; x2' ← lift (_check_null x2 set_cyc 395); h2 ← get_hd x2';
        diff ← call cmp h1 h2;
        if negb (diff =? 0) then mret (inr diff)
        else t1 ← get_tl x1; t2 ← get_tl x2; mret (inl (t1, t2))) (x1, x2)).

Definition Cyc_Set_equals (s1 s2 : Z) : M bool := i ← Cyc_Set_setcmp s1 s2; mret (i =? 0).

Definition Cyc_Set_choose (s : Z) : M Z :=
  n ← s_nodes s;
  if is_null n then lift (Thrown Cyc_Set_Absent set_cyc 414)
  else n' ← lift (_check_null n set_cyc 414); get_hd n'.

(** ** Iterators *)

Definition Cyc_Set_iter_f (elts_left dest : Z) : M bool :=
  e ← get_word elts_left;
  if is_null e then mret false
  else
    e' ← lift (_check_null e set_cyc 419); h ← get_hd e'; store_word dest h;;
    e ← get_word elts_left; e' ← lift (_check_null e set_cyc 422); t ← get_tl e';
    store_word elts_left t;; mret true.

(** The [env] of the iterator; its [next] is [Cyc_Set_iter_f]. *)
Definition Cyc_Set_make_iter (rgn s : Z) : M Z :=
  p ← new_words self rgn 1; n ← s_nodes s; store_word p n;; mret p.
End set.
