(* ===== verification/CycSetSpec.v ===== *)
(** * Correctness of the set library

    A set object represents the strictly ascending list of its elements;
    [member], [insert] and [delete] implement a set of keys, where two elements
    have the same key when the comparison function returns 0. *)

From stdpp Require Import sorting.
From S2P Require Import Prelude Alloc FatPtr RwLock Region RegionSafety Words CycList ListCells WordMem CycListSpec ListConv ListSort CycSet.

(** What a comparison function must satisfy: it orders its arguments. *)
Class Comparison (g : Z -> Z -> Z) : Prop := {
  cmp_opp u v : g u v < 0 <-> 0 < g v u;
  cmp_trans u v x : g u v <= 0 -> g v x <= 0 -> g u x <= 0
}.

Section comparison.
Context (g : Z -> Z -> Z) `{!Comparison g}.

Lemma cmp_refl u : g u u = 0.
Proof. pose proof (cmp_opp u u). lia. Qed.

Lemma cmp_sym u v : g u v = 0 -> g v u = 0.
Proof. intros E. pose proof (cmp_opp u v). pose proof (cmp_opp v u). lia. Qed.

Lemma cmp_lt_le u v x : g u v < 0 -> g v x <= 0 -> g u x < 0.
Proof.
  intros H1 H2. pose proof (cmp_trans (g:=g) u v x ltac:(lia) H2) as H3.
  destruct (decide (g u x = 0)) as [E|]; [|lia]. apply cmp_sym in E.
  pose proof (cmp_trans (g:=g) v x u H2 ltac:(lia)). pose proof (cmp_opp u v). lia.
Qed.

Lemma cmp_le_lt u v x : g u v <= 0 -> g v x < 0 -> g u x < 0.
Proof.
  intros H1 H2. pose proof (cmp_trans (g:=g) u v x H1 ltac:(lia)) as H3.
  destruct (decide (g u x = 0)) as [E|]; [|lia]. apply cmp_sym in E.
  pose proof (cmp_trans (g:=g) x u v ltac:(lia) H1). pose proof (cmp_opp v x). lia.
Qed.

Lemma cmp_total u v : g u v <= 0 \/ g v u <= 0.
Proof. pose proof (cmp_opp v u). lia. Qed.

(** Strictly ascending lists. *)
Abbreviation asc := (StronglySorted (fun u v => g u v < 0)).

(** [x] has the key of an element of [l]. *)
Definition keyed (l : list Z) (x : Z) : bool := existsb (fun u => g x u =? 0) l.

Lemma keyed_app l1 l2 x : keyed (l1 ++ l2) x = keyed l1 x || keyed l2 x.
Proof. apply existsb_app. Qed.

Lemma keyed_above l x : Forall (fun u => g x u < 0) l -> keyed l x = false.
Proof. induction 1 as [|u l Hu _ IH]; simpl; [done|]. rewrite IH. lia. Qed.

Lemma keyed_below l x : Forall (fun u => g u x < 0) l -> keyed l x = false.
Proof.
  induction 1 as [|u l Hu _ IH]; simpl; [done|]. rewrite IH. pose proof (cmp_opp u x). lia.
Qed.

Lemma asc_app l1 l2 : asc (l1 ++ l2) <->
  asc l1 /\ asc l2 /\ forall u v, u ∈ l1 -> v ∈ l2 -> g u v < 0.
Proof.
  induction l1 as [|x l1 IH]; simpl.
  { split; [intros Ha; split_and!; [constructor|done|]|tauto]. intros u v Hu. by apply not_elem_of_nil in Hu. }
  split.
  - intros Ha. apply StronglySorted_inv in Ha as [Ha Hx]. apply IH in Ha as (H1 & H2 & H3).
    rewrite Forall_app in Hx. destruct Hx as [Hx1 Hx2]. split_and!; [by constructor|done|].
    intros u v Hu Hv. apply elem_of_cons in Hu as [->|Hu]; [|by apply H3].
    rewrite Forall_forall in Hx2. by apply Hx2.
  - intros (Ha & H2 & H3). apply StronglySorted_inv in Ha as [Ha Hx]. constructor.
    + apply IH. split_and!; try done. intros u v Hu. apply H3. by right.
    + apply Forall_app. split; [done|]. apply Forall_forall. intros v Hv. apply H3; [left|done].
Qed.

(** Inserting between the smaller and the larger elements. *)
Lemma asc_insert l1 x l2 : asc (l1 ++ l2) -> Forall (fun u => g u x < 0) l1 ->
  Forall (fun u => g x u < 0) l2 -> asc (l1 ++ x :: l2).
Proof.
  rewrite !asc_app, !Forall_forall. intros (H1 & H2 & H3) Hl Hr. split_and!; [done| |].
  - constructor; [done|]. by apply Forall_forall.
  - intros u v Hu Hv. apply elem_of_cons in Hv as [->|Hv]; auto.
Qed.

Lemma asc_remove l1 x l2 : asc (l1 ++ x :: l2) -> asc (l1 ++ l2).
Proof.
  rewrite !asc_app. intros (H1 & H2 & H3). apply StronglySorted_inv in H2 as [H2 _].
  split_and!; try done. intros u v Hu Hv. apply H3; [done|by right].
Qed.

(** The elements before and after one with the key of [x]. *)
Lemma asc_around l1 u x l2 : asc (l1 ++ u :: l2) -> g u x = 0 ->
  Forall (fun v => g v x < 0) l1 /\ Forall (fun v => g x v < 0) l2.
Proof.
  rewrite asc_app. intros (_ & H2 & H3) E. apply StronglySorted_inv in H2 as [_ H2].
  rewrite Forall_forall in H2. split; apply Forall_forall; intros v Hv.
  - apply (cmp_lt_le _ u); [apply H3; [done|left]|lia].
  - apply (cmp_le_lt _ u); [apply cmp_sym in E; lia|by apply H2].
Qed.

Lemma keyed_compat l x y : g x y = 0 -> keyed l x = keyed l y.
Proof.
  intros E. induction l as [|u l IH]; simpl; [done|]. rewrite IH. f_equal.
  apply eq_true_iff_eq. rewrite !Z.eqb_eq. pose proof (cmp_sym x y E) as E'.
  pose proof (cmp_opp x u). pose proof (cmp_opp u x). pose proof (cmp_opp y u). pose proof (cmp_opp u y).
  split; intros Eu.
  - pose proof (cmp_trans (g:=g) y x u ltac:(lia) ltac:(lia)). pose proof (cmp_trans (g:=g) u x y ltac:(lia) ltac:(lia)). lia.
  - pose proof (cmp_trans (g:=g) x y u ltac:(lia) ltac:(lia)). pose proof (cmp_trans (g:=g) u y x ltac:(lia) ltac:(lia)). lia.
Qed.

(** An element strictly below or above another one does not have its key. *)
Lemma keyed_remove l1 u x l2 y : asc (l1 ++ u :: l2) -> g u x = 0 ->
  keyed (l1 ++ l2) y = keyed (l1 ++ u :: l2) y && negb (g y x =? 0).
Proof.
  intros Ha E. destruct (g y x =? 0) eqn:Ey.
  - rewrite andb_false_r. assert (Hyx : g y x = 0) by lia. rewrite (keyed_compat _ y x Hyx).
    destruct (asc_around _ _ _ _ Ha E) as [H1 H2]. rewrite keyed_app, keyed_below, keyed_above by done. done.
  - rewrite andb_true_r, !keyed_app. simpl. assert ((g y u =? 0) = false) as ->; [|done].
    apply Z.eqb_neq. intros Eu. apply Z.eqb_neq in Ey. apply Ey.
    pose proof (cmp_trans (g:=g) y u x ltac:(lia) ltac:(lia)). apply cmp_sym in Eu, E.
    pose proof (cmp_trans (g:=g) x u y ltac:(lia) ltac:(lia)). pose proof (cmp_opp y x). pose proof (cmp_opp x y). lia.
Qed.

Lemma keyed_insert l1 x l2 y : keyed (l1 ++ x :: l2) y = (g y x =? 0) || keyed (l1 ++ l2) y.
Proof.
  rewrite !keyed_app. simpl. destruct (keyed l1 y), (g y x =? 0), (keyed l2 y); done.
Qed.
End comparison.

(** ** Lists that share cells *)

(** A list in [w'] whose cells are cells of [w0] or are not in [w1]. *)
Definition mixed (w0 w1 w' : gmap Z Z) (y : Z) (l : list Z) : Prop :=
  exists c, lseg w' y c 0 /\ c.*2 = l /\
    forall q, q ∈ c.*1 -> is_Some (w0 !! q) \/ absent w1 q.

Lemma lseg_insert_other w x c y a v : lseg w x c y -> (forall q, q ∈ c.*1 -> q <> a /\ q + 4 <> a) ->
  lseg (<[a := v]> w) x c y.
Proof.
  revert x. induction c as [|[p u] c IH]; intros x Hs Ha; [done|].
  destruct Hs as (-> & n & (H0 & Hm & H1 & H2) & Hs). destruct (Ha p ltac:(left)) as [Ha1 Ha2].
  split; [done|]. exists n. split.
  - split_and!; try done; by rewrite lookup_insert_ne by congruence.
  - apply IH; [done|]. intros q Hq. apply Ha. by right.
Qed.

(** Writing an aligned word that is new in [w1] does not touch such a list. *)
Lemma mixed_store w0 w1 w' y l a v : mixed w0 w1 w' y l -> w0 !! a = None -> is_Some (w1 !! a) ->
  a mod 8 = 0 -> list_at (<[a := v]> w') y l.
Proof.
  intros (c & Hc & Hl & Hq) H0 H1 Hm. exists c. split; [|done]. apply lseg_insert_other; [done|].
  intros q Hin. split.
  - intros ->. destruct (Hq a Hin) as [Hs|[Hs _]]; [rewrite H0 in Hs; by destruct Hs|rewrite Hs in H1; by destruct H1].
  - destruct (lseg_elem _ _ _ _ _ Hc Hin) as (? & ? & _ & Hqm & _). intros <-. words.
Qed.

Lemma mixed_old w0 w1 w' y l : w0 ⊆ w' -> list_at w0 y l -> mixed w0 w1 w' y l.
Proof.
  intros Hw (c & Hc & Hl). exists c. split_and!; [by eapply lseg_mono|done|].
  intros q Hq. left. destruct (lseg_elem _ _ _ _ _ Hc Hq) as (? & ? & _ & _ & -> & _). by eexists.
Qed.

(** A new cell in front of an old list. *)
Lemma mixed_cons w0 w1 w2 w3 p v n l : w0 ⊆ w1 -> w1 ⊆ w2 -> list_at w0 n l -> fresh_words p 2 w2 -> w2 ⊆ w3 ->
  mixed w0 w1 (<[p + 4 := n]> (<[p := v]> w3)) p (v :: l).
Proof.
  intros Hw Hw2 (c & Hc & <-) Hf Hw3. destruct (new_cell_cell p v n w2 w3 Hf Hw3) as [Hp Hs].
  exists ((p, v) :: c). split_and!.
  - split; [done|]. exists n. split; [done|]. eapply lseg_mono; [|exact Hc]. by do 2 (etrans; [done|]).
  - done.
  - intros q Hq. simpl in Hq. apply elem_of_cons in Hq as [->|Hq].
    + right. eapply absent_mono; [exact Hw2|by apply fresh_cell_absent].
    + left. destruct (lseg_elem _ _ _ _ _ Hc Hq) as (? & ? & _ & _ & -> & _). by eexists.
Qed.

(** The list under construction is completed by a list of such cells. *)
Lemma building_mixed w0 w1 w' r prev vs t l :
  building w1 w' r prev vs -> mixed w0 w1 w' t l -> w0 ⊆ w1 -> 
  (forall c, lseg w' t c 0 -> prev ∉ c.*1) ->
  mixed w0 w1 (<[prev + 4 := t]> w') r (vs ++ l) /\ w1 ⊆ <[prev + 4 := t]> w'.
Proof.
  intros Hb (c & Hc & Hl & Hq) Hw Hn. destruct (building_prev _ _ _ _ _ Hb) as (Hm & _).
  destruct (building_link _ _ _ _ _ t Hb) as (Hw' & d & Hd & Hv & Ha). split; [|done].
  exists (d ++ c). split_and!.
  - apply lseg_app. exists t. split; [done|]. apply lseg_set_tl; [done|done|by apply Hn].
  - by rewrite fmap_app, Hv, Hl.
  - intros q. rewrite fmap_app, elem_of_app. intros [Hin|Hin]; [right; by apply Ha|by apply Hq].
Qed.

(** Old cells and a new one in front of them do not contain [prev]. *)
Lemma prev_not_in w0 w1 w3 p v n l prev : w0 ⊆ w3 -> w0 ⊆ w1 -> absent w1 prev -> prev <> p ->
  list_at w0 n l -> cell w3 p v n -> forall c, lseg w3 p c 0 -> prev ∉ c.*1.
Proof.
  intros Hw3 Hw1 [Ha _] Hne (c2 & Hc2 & _) Hp c Hc.
  assert (Hc' : lseg w3 p ((p, v) :: c2) 0).
  { split; [done|]. exists n. split; [done|]. by eapply lseg_mono. }
  rewrite (lseg_det _ _ _ _ Hc Hc'). simpl. apply not_elem_of_cons. split; [done|].
  intros Hin. destruct (lseg_elem _ _ _ _ _ Hc2 Hin) as (? & ? & _ & _ & Hs & _).
  eapply lookup_weaken in Hs; [|exact Hw1]. congruence.
Qed.

Section spec.
Context {H : Type} `{HH : Heap H} `{!HeapLaws H} (self : Z).
Context (call : Z -> Z -> Z -> ST (mem H) Z) (cmp : Z) (g : Z -> Z -> Z).
Context (Hpure : pure2 (call cmp) g) `{!Comparison g}.
Implicit Types (m : mem H) (w : gmap Z Z).
Abbreviation asc := (StronglySorted (fun u v => g u v < 0)).

Lemma wp_cyc_cell R w line v t (Q : Z -> mem H -> Prop) E m : at_words R w m ->
  (forall p m', fresh_words p 2 w -> at_words R (<[p + 4 := t]> (<[p := v]> (zero_words p 2 w))) m' -> Q p m') ->
  (forall m', at_words R w m' -> E Cyc_Bad_alloc m') -> wp (cyc_cell line v t) Q E m.
Proof.
  intros Hm HQ HE. unfold cyc_cell. wps.
  eapply wp_cycalloc; [done|unfold MAX_MALLOC_SIZE; simpl; lia| |done].
  intros p m1 Hm1 Hf. wps. eapply wp_fill_cell; [exact Hf|done|done|]. intros m2 Hm2. wps. by apply HQ.
Qed.

(** ** Membership *)

Lemma member_b_spec R w n l elt m E : at_words R w m -> list_at w n l -> asc l ->
  wp (Cyc_Set_member_b call cmp n elt) (fun b m' => b = keyed g l elt /\ m' = m) E m.
Proof.
  intros Hm Hl Ha. unfold Cyc_Set_member_b. eapply wp_with_fuel; [done|].
  eapply (wp_loop _ (fun k n m' => exists l2, k = length l2 /\ m' = m /\ list_at w n l2 /\ asc l2 /\
    keyed g l elt = keyed g l2 elt)).
  - intros k x m' (l2 & -> & -> & Hl2 & Ha2 & Hk).
    destruct (list_at_cases _ _ _ Hl2) as [[-> ->]|(Hx & v & t & l3 & -> & Hc & Hl3)].
    { rewrite is_null_0. wps. by rewrite Hk. }
    rewrite is_null_ne by done. wps. eapply wp_get_hd; [done|done|]. wps. eapply wp_pure2; [done|].
    apply StronglySorted_inv in Ha2 as [Ha3 Hv]. cbn [keyed existsb] in Hk.
    destruct (g elt v =? 0) eqn:E1; [wps; by rewrite Hk|].
    destruct (g elt v <? 0) eqn:E2.
    + wps. split; [|done]. rewrite Hk. symmetry. apply keyed_above.
      eapply Forall_impl; [exact Hv|]. intros u Hu. apply (cmp_lt_le g _ v); [lia|]. simpl in Hu. lia.
    + wps. eapply wp_get_tl; [done|done|]. wps. exists (length l3). split; [simpl; lia|]. by exists l3.
  - by exists l.
  - apply list_at_size in Hl. lia.
Qed.

(** ** Insertion *)

Definition inserted (R : gset Z) (w0 w1 : gmap Z Z) (l : list Z) (elt y : Z) (m' : mem H) : Prop :=
  exists w' l1 l2, at_words R w' m' /\ w1 ⊆ w' /\ l = l1 ++ l2 /\
    Forall (fun u => g u elt < 0) l1 /\ Forall (fun u => g elt u < 0) l2 /\
    mixed w0 w1 w' y (l1 ++ elt :: l2).

(** The new element comes first. *)
Lemma insert_b_front R rgn w0 w1 l elt x m : rgn_in R rgn -> w0 ⊆ w1 -> at_words R w1 m ->
  list_at w0 x l -> Forall (fun u => g elt u < 0) l ->
  wp (new_cell self rgn elt x) (inserted R w0 w1 l elt) (oom R w1) m.
Proof.
  intros Hr Hw Hm Hx Hf. eapply wp_new_cell; [done|done| |by intros; eapply oom_now]. intros p m1 Hfr Hm1.
  pose proof (zero_words_sub _ _ _ Hfr) as Hz. eexists _, [], l. split; [exact Hm1|]. split_and!; try done.
  - by apply (new_cell_cell p elt x w1).
  - by apply (mixed_cons w0 w1 w1).
Qed.

(** The new element goes between the copied cells and the rest. *)
Lemma insert_b_end R rgn w0 w1 w' l vs l2 elt p prev x m : rgn_in R rgn -> w0 ⊆ w1 ->
  at_words R w' m -> building w1 w' p prev vs -> l = vs ++ l2 -> list_at w0 x l2 ->
  Forall (fun u => g u elt < 0) vs -> Forall (fun u => g elt u < 0) l2 ->
  wp (q ← new_cell self rgn elt x; pv ← lift (_check_null prev set_cyc 96); set_tl pv q;; mret (inr p))
    (fun (r : Z * Z + Z) m' => exists y, r = inr y /\ inserted R w0 w1 l elt y m') (oom R w1) m.
Proof.
  intros Hr Hw Hm Hb El Hl2 Hlt Hgt. pose proof Hb as [Hw' _].
  destruct (building_prev _ _ _ _ _ Hb) as (_ & Hpa & [z Hz]).
  wps. eapply wp_new_cell; [done|done| |by intros; eapply oom_now]. intros q m1 Hfq Hm1.
  pose proof (zero_words_sub _ _ _ Hfq) as Hzq. destruct (new_cell_cell q elt x w' _ Hfq Hzq) as [Hq Hwq].
  wps. apply wp_check_null; [by eapply building_prev_ne|]. wps.
  eapply wp_set_tl; [done|exists z; by eapply lookup_weaken|].
  intros m2 Hm2. wps. exists p. split; [done|]. eexists _, vs, l2. split; [exact Hm2|].
  destruct (building_mixed w0 w1 _ p prev vs q (elt :: l2) (building_mono _ _ _ _ _ _ Hwq Hb)
    (mixed_cons w0 w1 w' _ q elt x l2 Hw Hw' Hl2 Hfq Hzq) Hw) as [Hmx Hwx]; [|by split_and!].
  apply (prev_not_in w0 w1 _ q elt x l2 prev); try done; [by do 2 (etrans; [done|])|].
  intros ->. destruct (fresh_cell_absent _ _ Hfq). congruence.
Qed.

(** Everything after an element above [elt] is above it. *)
Lemma asc_above elt v l : asc (v :: l) -> g elt v < 0 -> Forall (fun u => g elt u < 0) (v :: l).
Proof.
  intros Ha Hv. apply StronglySorted_inv in Ha as [_ Hl]. constructor; [done|].
  eapply Forall_impl; [exact Hl|]. intros u Hu. simpl in Hu. apply (cmp_lt_le g _ v); [done|lia].
Qed.

Lemma insert_b_spec R rgn w0 w1 n l elt m : rgn_in R rgn -> w0 ⊆ w1 -> list_at w0 n l -> asc l ->
  keyed g l elt = false -> at_words R w1 m ->
  wp (Cyc_Set_insert_b self call rgn cmp n elt) (inserted R w0 w1 l elt) (oom R w1) m.
Proof.
  intros Hr Hw Hl Ha Hk Hm. unfold Cyc_Set_insert_b.
  destruct (list_at_cases _ _ _ Hl) as [[-> El]|(Hx & v & t & l' & El & Hc & Hl')].
  { rewrite is_null_0. subst l. by apply insert_b_front. }
  rewrite is_null_ne by done. pose proof (cell_mono _ _ _ _ _ Hw Hc) as Hc1.
  wps. eapply wp_get_hd; [done|done|]. wps. eapply wp_pure2; [done|].
  assert (Hv : g elt v <> 0) by (rewrite El in Hk; cbn [keyed existsb] in Hk; lia).
  destruct (g elt v <? 0) eqn:E1.
  { apply insert_b_front; try done. rewrite El in Ha |- *. apply asc_above; [done|lia]. }
  wps. eapply wp_get_hd; [done|done|]. wps. eapply wp_new_cell; [done|done| |by intros; eapply oom_now].
  intros p m1 Hf Hm1. pose proof (zero_words_sub _ _ _ Hf) as Hz.
  pose proof (building_start w1 _ p v Hf Hz) as Hb. pose proof Hb as [Hwb _].
  wps. eapply wp_get_tl; [done|by eapply cell_mono|]. wps. eapply wp_with_fuel; [done|].
  eapply (wp_loop _ (fun k '(n, prev) m' => exists w' vs l2, k = length l2 /\ l = vs ++ l2 /\
    list_at w0 n l2 /\ at_words R w' m' /\ building w1 w' p prev vs /\ Forall (fun u => g u elt < 0) vs));
    [|eexists _, [v], l'; split_and!; try done; constructor; [|constructor];
      pose proof (cmp_opp (g:=g) v elt); lia
     |apply list_at_size in Hl'; apply map_subseteq_size in Hwb; apply map_subseteq_size in Hw; lia].
  clear m1 Hm1 Hb Hwb Hz m Hm. intros k [x prev] m (w' & vs & l2 & -> & El2 & Hl2 & Hm & Hb & Hlt).
  pose proof Hb as [Hw' _].
  assert (Hend : Forall (fun u => g elt u < 0) l2 ->
    wp (q ← new_cell self rgn elt x; pv ← lift (_check_null prev set_cyc 96); set_tl pv q;; mret (inr p))
    (fun (r : Z * Z + Z) m' => exists y, r = inr y /\ inserted R w0 w1 l elt y m') (oom R w1) m)
    by (intros; by eapply insert_b_end).
  destruct (list_at_cases _ _ _ Hl2) as [[-> El3]|(Hx2 & u & t2 & l3 & El3 & Hc2 & Hl3)].
  { rewrite is_null_0. apply wp_bind, wp_ret. eapply wp_mono; [apply Hend; by subst l2| |done].
    by intros r m' (y & -> & ?). }
  rewrite is_null_ne by done. pose proof (cell_mono _ _ _ _ _ (transitivity Hw Hw') Hc2) as Hc2'.
  wps. eapply wp_get_hd; [done|done|]. wps. eapply wp_pure2; [done|]. apply wp_ret.
  destruct (g u elt <? 0) eqn:E2; cycle 1.
  { eapply wp_mono; [apply Hend| |done]; [|by intros r m' (y & -> & ?)]. rewrite El3.
    rewrite El2, El3, keyed_app in Hk. cbn [keyed existsb] in Hk.
    rewrite El2, El3, asc_app in Ha. destruct Ha as (_ & Ha3 & _). apply asc_above; [done|].
    pose proof (cmp_opp (g:=g) elt u). pose proof (cmp_opp (g:=g) u elt).
    destruct (keyed g vs elt); simpl in Hk; lia. }
  clear Hend. wps. eapply wp_get_hd; [done|done|]. wps.
  eapply wp_new_cell; [done|done| |by intros; eapply oom_now].
  intros q m1 Hfq Hm1. pose proof (zero_words_sub _ _ _ Hfq) as Hzq.
  destruct (new_cell_cell q u 0 w' _ Hfq Hzq) as [Hq Hwq].
  destruct (building_prev _ _ _ _ _ Hb) as (_ & _ & [z Hz]).
  wps. apply wp_check_null; [by eapply building_prev_ne|]. wps.
  eapply wp_set_tl; [done|exists z; by eapply lookup_weaken|].
  pose proof (building_snoc w1 w' _ p prev vs q u Hb Hfq Hzq) as Hb'. pose proof Hb' as [Hw'' _].
  intros m2 Hm2. wps. eapply wp_load; [done|apply lookup_insert_eq|]. wps.
  eapply wp_get_tl; [done|eapply cell_mono; [exact Hw''|by eapply cell_mono]|]. wps.
  exists (length l3). split; [rewrite El3; simpl; lia|]. eexists _, (vs ++ [u]), l3.
  split_and!; [done|by rewrite El2, El3, <- app_assoc|done|exact Hm2|done|].
  apply Forall_app. split; [done|]. constructor; [lia|constructor].
Qed.

(** ** Deletion *)

Definition deleted (R : gset Z) (w0 w1 : gmap Z Z) (l : list Z) (elt y : Z) (m' : mem H) : Prop :=
  exists w' l1 u l2, at_words R w' m' /\ w1 ⊆ w' /\ l = l1 ++ u :: l2 /\ g u elt = 0 /\
    mixed w0 w1 w' y (l1 ++ l2).

(** The cell with the key is found: the copy of the cells before it is linked
    to the cells after it. *)
Lemma delete_b_end R w0 w1 w' l vs u t l3 elt p prev x m : w0 ⊆ w1 -> at_words R w' m ->
  building w1 w' p prev vs -> l = vs ++ u :: l3 -> g u elt = 0 -> cell w0 x u t -> list_at w0 t l3 ->
  wp (n' ← lift (_check_null x set_cyc 229); t ← get_tl n';
      pv ← lift (_check_null prev set_cyc 229); set_tl pv t;; mret (inr p))
    (fun (r : Z * Z + Z) m' => exists y, r = inr y /\ deleted R w0 w1 l elt y m') (oom R w1) m.
Proof.
  intros Hw Hm Hb El Hu Hc Hl3. pose proof Hb as [Hw' _].
  destruct (building_prev _ _ _ _ _ Hb) as (_ & [Hpa _] & Hps). pose proof (transitivity Hw Hw') as Hw0.
  wps. apply wp_check_null; [by destruct Hc|]. wps. eapply wp_get_tl; [done|by eapply cell_mono|].
  wps. apply wp_check_null; [by eapply building_prev_ne|]. wps. eapply wp_set_tl; [done|done|].
  intros m1 Hm1. wps. exists p. split; [done|]. eexists _, vs, u, l3. split; [exact Hm1|].
  destruct (building_mixed w0 w1 w' p prev vs t l3 Hb (mixed_old w0 w1 w' t l3 Hw0 Hl3) Hw)
    as [Hmx Hwx]; [|by split_and!].
  intros c Hct Hin. destruct Hl3 as (c3 & Hc3 & _).
  rewrite (lseg_det _ _ _ _ Hct (lseg_mono _ _ _ _ _ Hw0 Hc3)) in Hin.
  destruct (lseg_elem _ _ _ _ _ Hc3 Hin) as (? & ? & _ & _ & Hs & _).
  eapply lookup_weaken in Hs; [|exact Hw]. congruence.
Qed.

Lemma delete_b_spec R w0 w1 n l elt m : w0 ⊆ w1 -> list_at w0 n l -> 
  keyed g l elt = true -> at_words R w1 m ->
  wp (Cyc_Set_delete_b call cmp n elt) (deleted R w0 w1 l elt) (oom R w1) m.
Proof.
  intros Hw Hl Hk Hm. unfold Cyc_Set_delete_b.
  destruct (list_at_cases _ _ _ Hl) as [[-> El]|(Hx & v & t & l' & El & Hc & Hl')]; [by subst l|].
  pose proof (cell_mono _ _ _ _ _ Hw Hc) as Hc1. wps. apply wp_check_null; [done|].
  wps. eapply wp_get_hd; [done|done|]. wps. eapply wp_pure2; [done|]. destruct (g v elt =? 0) eqn:E1.
  { eapply wp_get_tl; [done|done|]. exists w1, [], v, l'. split_and!; try done; [lia|].
    by apply mixed_old. }
  wps. eapply wp_get_hd; [done|done|]. wps. eapply wp_cyc_cell; [done| |by intros; eapply oom_now].
  intros p m1 Hf Hm1. pose proof (zero_words_sub _ _ _ Hf) as Hz.
  pose proof (building_start w1 _ p v Hf Hz) as Hb. pose proof Hb as [Hwb _].
  assert (Hkey : forall u, g u elt <> 0 -> (g elt u =? 0) = false).
  { intros u Hu. apply Z.eqb_neq. intros E. by apply Hu, cmp_sym. }
  wps. eapply wp_get_tl; [done|by eapply cell_mono|]. wps. eapply wp_with_fuel; [done|].
  eapply (wp_loop _ (fun k '(n, prev) m' => exists w' vs l2, k = length l2 /\ l = vs ++ l2 /\
    list_at w0 n l2 /\ at_words R w' m' /\ building w1 w' p prev vs /\ keyed g l2 elt = true));
    [|eexists _, [v], l'; split_and!; try done; rewrite El in Hk; cbn [keyed existsb] in Hk;
      rewrite Hkey in Hk by lia; exact Hk
     |apply list_at_size in Hl'; apply map_subseteq_size in Hwb; apply map_subseteq_size in Hw; lia].
  clear m1 Hm1 Hb Hwb Hz m Hm Hk. intros k [x prev] m (w' & vs & l2 & -> & El2 & Hl2 & Hm & Hb & Hk).
  pose proof Hb as [Hw' _].
  destruct (list_at_cases _ _ _ Hl2) as [[-> El3]|(Hx2 & u & t2 & l3 & El3 & Hc2 & Hl3)]; [by subst l2|].
  rewrite is_null_ne by done. pose proof (cell_mono _ _ _ _ _ (transitivity Hw Hw') Hc2) as Hc2'.
  wps. eapply wp_get_hd; [done|done|]. wps. eapply wp_pure2; [done|]. apply wp_ret.
  destruct (g u elt =? 0) eqn:E2; simpl.
  { apply Z.eqb_eq in E2. rewrite El3 in El2.
    eapply wp_mono; [apply (delete_b_end R w0 w1 w' l vs u t2 l3 elt p prev x m); done| |done].
    by intros r m' (y & -> & Hd). }
  wps. eapply wp_get_hd; [done|done|]. wps. eapply wp_cyc_cell; [done| |by intros; eapply oom_now].
  intros q m1 Hfq Hm1. pose proof (zero_words_sub _ _ _ Hfq) as Hzq.
  destruct (new_cell_cell q u 0 w' _ Hfq Hzq) as [Hq Hwq].
  destruct (building_prev _ _ _ _ _ Hb) as (_ & _ & [z Hz]).
  wps. apply wp_check_null; [by eapply building_prev_ne|]. wps.
  eapply wp_set_tl; [done|exists z; by eapply lookup_weaken|].
  pose proof (building_snoc w1 w' _ p prev vs q u Hb Hfq Hzq) as Hb'. pose proof Hb' as [Hw'' _].
  intros m2 Hm2. wps. eapply wp_load; [done|apply lookup_insert_eq|]. wps.
  eapply wp_get_tl; [done|eapply cell_mono; [exact Hw''|by eapply cell_mono]|]. wps.
  exists (length l3). split; [rewrite El3; simpl; lia|]. eexists _, (vs ++ [u]), l3.
  split_and!; [done|by rewrite El2, El3, <- app_assoc|done|exact Hm2|done|].
  rewrite El3 in Hk. cbn [keyed existsb] in Hk. rewrite Hkey in Hk by lia. exact Hk.
Qed.

(** ** Set objects *)

(** The set at [s] with comparison function [cmp] and elements [l]. *)
Definition set_at (w : gmap Z Z) (s : Z) (l : list Z) : Prop :=
  w !! s = Some cmp /\ w !! (s + 4) = Some (Z.of_nat (length l)) /\
  exists n, w !! (s + 8) = Some n /\ list_at w n l /\ asc l.

Lemma set_at_mono w w' s l : w ⊆ w' -> set_at w s l -> set_at w' s l.
Proof.
  intros Hw (H1 & H2 & n & H3 & Hl & Ha). split_and!; [by eapply lookup_weaken..|].
  exists n. split_and!; [by eapply lookup_weaken|by eapply list_at_mono|done].
Qed.

(** The words of a new set object before its list is written. *)
Definition set_header (p k : Z) (w : gmap Z Z) : gmap Z Z :=
  <[p + 4 := k]> (<[p := cmp]> (zero_words p 3 w)).

Lemma set_header_sub p k w : fresh_words p 3 w -> w ⊆ set_header p k w.
Proof.
  intros Hf. unfold set_header. apply insert_subseteq_r; [eapply fresh_absent; [done|lia..]|].
  apply insert_subseteq_r; [eapply fresh_absent; [done|lia..]|]. by apply zero_words_sub.
Qed.

Lemma set_object p w w2 n l k : fresh_words p 3 w -> set_header p k w ⊆ w2 ->
  mixed w (set_header p k w) w2 n l -> asc l -> k = Z.of_nat (length l) ->
  set_at (<[p + 8 := n]> w2) p l /\ w ⊆ <[p + 8 := n]> w2.
Proof.
  intros Hf Hw2 Hmx Ha ->. pose proof Hf as (Hp & Hpm & _). split.
  - assert (Hn : forall a v, a <> p + 8 -> set_header p (Z.of_nat (length l)) w !! a = Some v ->
        <[p + 8 := n]> w2 !! a = Some v).
    { intros a v Hne Hv. rewrite lookup_insert_ne by congruence. by eapply lookup_weaken. }
    split_and!.
    + apply Hn; [lia|]. unfold set_header. rewrite lookup_insert_ne by lia. apply lookup_insert_eq.
    + apply Hn; [lia|]. apply lookup_insert_eq.
    + exists n. split_and!; [apply lookup_insert_eq| |done]. eapply mixed_store; [exact Hmx|..].
      * eapply fresh_absent; [done|lia..].
      * unfold set_header. rewrite !lookup_insert_ne by lia. apply (zero_words_lookup p 3 w 2). lia.
      * words.
  - apply insert_subseteq_r; [eapply fresh_absent; [done|lia..]|].
    etrans; [by apply set_header_sub|done].
Qed.

(** The code that allocates the result of [insert] and [delete] and writes its
    comparison function and cardinality, followed by [K]. *)
Lemma wp_set_header {A} R w s l p d (K : Z -> Z -> ST (mem H) A) Q E m :
  set_at w s l -> fresh_words p 3 w -> at_words R (zero_words p 3 w) m ->
  (forall n m', w !! (s + 8) = Some n -> list_at w n l ->
     at_words R (set_header p (i32 (Z.of_nat (length l) + d)) w) m' -> wp (K cmp n) Q E m') ->
  wp (c ← s_cmp s; store_word p c;; k ← s_cardinality s; store_word (p + 4) (i32 (k + d));;
      c ← s_cmp s; n ← s_nodes s; K c n) Q E m.
Proof.
  intros (H1 & H2 & n & H3 & Hl & Ha) Hf Hm HK. pose proof (zero_words_sub _ _ _ Hf) as Hz.
  pose proof Hf as (Hp & _). assert (Hab : forall a, p <= a -> a + 4 <= p + 12 -> w !! a = None).
  { intros a ? ?. eapply fresh_absent; [done|lia..]. }
  assert (Hold : forall a v, w !! a = Some v -> a <> p /\ a <> p + 4).
  { intros a v Hv. split; intros ->; rewrite Hab in Hv by lia; done. }
  pose proof (Hold _ _ H1) as [? ?]. pose proof (Hold _ _ H2) as [? ?]. pose proof (Hold _ _ H3) as [? ?].
  wps. eapply wp_load; [done|by eapply lookup_weaken|]. wps.
  eapply wp_store; [done|simpl; rewrite lookup_insert_eq; by eexists|].
  intros m1 Hm1. wps. eapply wp_load; [done|rewrite lookup_insert_ne by congruence; by eapply lookup_weaken|].
  wps. eapply wp_store; [done|rewrite lookup_insert_ne by lia; apply (zero_words_lookup p 3 w 1); lia|].
  intros m2 Hm2.
  wps. eapply wp_load; [done|rewrite !lookup_insert_ne by congruence; by eapply lookup_weaken|].
  wps. eapply wp_load; [done|rewrite !lookup_insert_ne by congruence; by eapply lookup_weaken|].
  by apply HK.
Qed.

(** What an operation does to the keys of a set. *)
Definition set_result (R : gset Z) (w : gmap Z Z) (f : Z -> bool) (s' : Z) (m' : mem H) : Prop :=
  exists w' l', at_words R w' m' /\ w ⊆ w' /\ set_at w' s' l' /\ forall x, keyed g l' x = f x.

Lemma set_member_spec R w s l elt m E : at_words R w m -> set_at w s l ->
  wp (Cyc_Set_member call s elt) (fun b m' => b = keyed g l elt /\ m' = m) E m.
Proof.
  intros Hm (H1 & _ & n & H3 & Hl & Ha). unfold Cyc_Set_member. wps. eapply wp_load; [done|done|].
  wps. eapply wp_load; [done|done|]. by eapply member_b_spec.
Qed.

Lemma set_insert_spec R w s l elt m : at_words R w m -> set_at w s l ->
  wp (Cyc_Set_insert self call s elt)
    (set_result R w (fun x => (g x elt =? 0) || keyed g l x)) (oom R w) m.
Proof.
  intros Hm Hs. unfold Cyc_Set_insert. wps. eapply wp_mono; [by eapply set_member_spec| |done].
  intros b m' (-> & ->). pose proof Hs as (_ & _ & n0 & _ & Hl0 & Ha).
  destruct (keyed g l elt) eqn:Ek.
  { wps. exists w, l. split_and!; try done. intros x. destruct (g x elt =? 0) eqn:E; [|done].
    rewrite (keyed_compat g _ x elt), Ek by lia. done. }
  wps. eapply wp_cycalloc; [done|unfold MAX_MALLOC_SIZE; simpl; lia| |by intros; eapply oom_now].
  intros p m1 Hm1 Hf. eapply wp_set_header; [done|done|done|]. intros n m2 Hn Hl Hm2.
  pose proof (set_header_sub p (i32 (Z.of_nat (length l) + 1)) w Hf) as Hsub.
  wps. eapply wp_mono; [eapply (insert_b_spec R Cyc_Core_heap_region w); try done; by left| |].
  2: { intros e m'. by apply oom_mono. }
  intros y m3 (w3 & l1 & l2 & Hm3 & Hw3 & -> & Hlt & Hgt & Hmx).
  pose proof (list_length_bound _ _ _ _ _ Hm Hl) as Hb.
  destruct (set_object p w w3 y (l1 ++ elt :: l2) _ Hf Hw3 Hmx) as [Hso Hwo].
  { by apply asc_insert. }
  { rewrite i32_small by lia. rewrite !length_app. simpl. lia. }
  wps. eapply wp_store; [done|eapply lookup_weaken_is_Some; [|exact Hw3]|].
  { unfold set_header. rewrite !lookup_insert_ne by lia. apply (zero_words_lookup p 3 w 2). lia. }
  intros m4 Hm4. wps. eexists _, _. split_and!; [exact Hm4|done|exact Hso|].
  intros x. apply keyed_insert.
Qed.

Lemma set_delete_spec R w s l elt m : at_words R w m -> set_at w s l ->
  wp (Cyc_Set_delete call s elt)
    (set_result R w (fun x => keyed g l x && negb (g x elt =? 0))) (oom R w) m.
Proof.
  intros Hm Hs. unfold Cyc_Set_delete. wps. eapply wp_mono; [by eapply set_member_spec| |done].
  intros b m' (-> & ->). pose proof Hs as (_ & _ & n0 & _ & Hl0 & Ha).
  destruct (keyed g l elt) eqn:Ek; cycle 1.
  { wps. exists w, l. split_and!; try done. intros x. destruct (g x elt =? 0) eqn:E.
    - rewrite (keyed_compat g _ x elt), Ek by lia. done.
    - by rewrite andb_true_r. }
  wps. eapply wp_cycalloc; [done|unfold MAX_MALLOC_SIZE; simpl; lia| |by intros; eapply oom_now].
  intros p m1 Hm1 Hf. eapply (wp_set_header R w s l p (-1)); [done|done|done|]. intros n m2 Hn Hl Hm2.
  pose proof (set_header_sub p (i32 (Z.of_nat (length l) - 1)) w Hf) as Hsub.
  wps. eapply wp_mono; [eapply (delete_b_spec R w); done| |].
  2: { intros e m'. by apply oom_mono. }
  intros y m3 (w3 & l1 & u & l2 & Hm3 & Hw3 & -> & Hu & Hmx).
  pose proof (list_length_bound _ _ _ _ _ Hm Hl) as Hb. pose proof (asc_remove _ _ _ _ Ha) as Ha'.
  destruct (set_object p w w3 y (l1 ++ l2) _ Hf Hw3 Hmx Ha') as [Hso Hwo].
  { rewrite i32_small by lia. rewrite !length_app. simpl. lia. }
  wps. eapply wp_store; [done|eapply lookup_weaken_is_Some; [|exact Hw3]|].
  { unfold set_header. rewrite !lookup_insert_ne by lia. apply (zero_words_lookup p 3 w 2). lia. }
  intros m4 Hm4. wps. eexists _, _. split_and!; [exact Hm4|done|exact Hso|].
  intros x. by apply keyed_remove.
Qed.
End spec.
