(* ===== verification/SetRefine.v ===== *)
(** * The set library implements sets

    Programs of [member], [insert] and [delete] give the answers of an abstract
    set of keys; two operations that do not keep the representation. *)

From stdpp Require Import sorting.
From S2P Require Import Prelude Alloc FatPtr RwLock Region RegionSafety Words CycList ListCells WordMem CycListSpec ListSort CycSet CycSetSpec.

Inductive sop : Type := SMember (e : Z) | SInsert (e : Z) | SDelete (e : Z).

Section refine.
Context {H : Type} `{HH : Heap H} `{!HeapLaws H} (self : Z).
Context (call : Z -> Z -> Z -> ST (mem H) Z).

(** The answers of the membership tests and the set at the end. *)
Fixpoint run_sops (ops : list sop) (s : Z) : ST (mem H) (list bool * Z) :=
  match ops with
  | [] => mret ([], s)
  | SMember e :: ops =>
      b ← Cyc_Set_member call s e; r ← run_sops ops s; mret (b :: r.1, r.2)
  | SInsert e :: ops => s' ← Cyc_Set_insert self call s e; run_sops ops s'
  | SDelete e :: ops => s' ← Cyc_Set_delete call s e; run_sops ops s'
  end.

Context (g : Z -> Z -> Z).

(** The specification: a set of keys as its characteristic function. *)
Fixpoint keys_run (ops : list sop) (X : Z -> bool) : list bool * (Z -> bool) :=
  match ops with
  | [] => ([], X)
  | SMember e :: ops => let r := keys_run ops X in (X e :: r.1, r.2)
  | SInsert e :: ops => keys_run ops (fun x => (g x e =? 0) || X x)
  | SDelete e :: ops => keys_run ops (fun x => X x && negb (g x e =? 0))
  end.

(** The answers depend on the characteristic function pointwise only. *)
Lemma keys_run_ext ops X Y : (forall x, X x = Y x) ->
  (keys_run ops X).1 = (keys_run ops Y).1 /\ forall x, (keys_run ops X).2 x = (keys_run ops Y).2 x.
Proof.
  revert X Y. induction ops as [|[e|e|e] ops IH]; intros X Y HX; simpl; [done|..].
  - destruct (IH X Y HX) as [-> H2]. by rewrite HX.
  - apply IH. intros x. by rewrite HX.
  - apply IH. intros x. by rewrite HX.
Qed.

Context (cmp : Z) (Hpure : pure2 (call cmp) g) `{!Comparison g}.

(** The run agrees with the specification from the keys of [l]. *)
Definition sops_agree (R : gset Z) (w : gmap Z Z) (ops : list sop) (l : list Z)
    (r : list bool * Z) (m' : mem H) : Prop :=
  r.1 = (keys_run ops (keyed g l)).1 /\ exists w' l', at_words R w' m' /\ w ⊆ w' /\
    set_at cmp g w' r.2 l' /\ forall x, keyed g l' x = (keys_run ops (keyed g l)).2 x.

Lemma sops_refine ops R w s l m : at_words R w m -> set_at cmp g w s l ->
  wp (run_sops ops s) (sops_agree R w ops l) (oom R w) m.
Proof.
  revert w s l m. induction ops as [|op ops IH]; intros w s l m Hm Hs.
  { wps. split; [done|]. by exists w, l. }
  assert (Hstep : forall f s' m1, set_result cmp g R w f s' m1 ->
    wp (run_sops ops s') (fun r m' => r.1 = (keys_run ops f).1 /\ exists w' l', at_words R w' m' /\
      w ⊆ w' /\ set_at cmp g w' r.2 l' /\ forall x, keyed g l' x = (keys_run ops f).2 x) (oom R w) m1).
  { intros f s' m1 (w1 & l1 & Hm1 & Hw1 & Hs1 & Hk1).
    eapply wp_mono; [by apply (IH w1 s' l1)| |intros e m'; by apply oom_mono].
    intros r m2 (Hr & w2 & l2 & Hm2 & Hw2 & Hs2 & Hk2).
    destruct (keys_run_ext ops (keyed g l1) f Hk1) as [He1 He2].
    split; [congruence|]. exists w2, l2. split_and!; try done; [by etrans|].
    intros x. by rewrite Hk2. }
  destruct op as [e|e|e]; simpl.
  - wps. eapply wp_mono; [by eapply (set_member_spec call cmp g)| |done]. intros b m' (-> & ->).
    wps. eapply wp_mono; [by apply (IH w s l)| |done].
    intros r m1 (Hr & w' & l' & Hrest). wps. split; [simpl; by rewrite Hr|]. by exists w', l'.
  - wps. eapply wp_mono; [by eapply (set_insert_spec self call cmp g)| |done].
    intros s' m1 Hres. by apply (Hstep _ s' m1 Hres).
  - wps. eapply wp_mono; [by eapply (set_delete_spec call cmp g)| |done].
    intros s' m1 Hres. by apply (Hstep _ s' m1 Hres).
Qed.
End refine.

(** C21. The set library implements sets: any program of membership tests,
    insertions and deletions on a well-formed set terminates, answers like the
    abstract set of keys, ends with a well-formed set with exactly the keys of
    the abstract one, and leaves every set there was before as it was; the only
    failure is [Cyc_Bad_alloc]. *)
Theorem set_programs_refine {H : Type} `{HH : Heap H} `{!HeapLaws H} self
    (call : Z -> Z -> Z -> ST (mem H) Z) g cmp ops R w s l m :
  pure2 (call cmp) g -> Comparison g -> at_words R w m -> set_at cmp g w s l ->
  wp (run_sops self call ops s) (sops_agree g cmp R w ops l) (oom R w) m.
Proof. intros Hp Hc. by apply sops_refine. Qed.

(** ** Concrete sets *)

(** Every function pointer compares its arguments by subtraction. *)
Definition sub_call (fn u v : Z) : ST (mem bump) Z := mret (u - v).

#[export] Instance sub_comparison : Comparison Z.sub.
Proof. split; lia. Qed.

Definition ex_set : Z := match (Cyc_Set_rempty 1 1000 9 ex_mem).1 with Ret x => x | _ => 0 end.
Definition ex_set_mem : mem bump := (Cyc_Set_rempty 1 1000 9 ex_mem).2.

Lemma ex_set_ok : exists w, at_words {[1000]} w ex_set_mem /\ set_at 9 Z.sub w ex_set [].
Proof.
  assert (Hwp : wp (Cyc_Set_rempty 1 1000 9) (fun s m' => exists w, at_words {[1000]} w m' /\
    set_at 9 Z.sub w s []) (fun _ _ => True) ex_mem).
  { assert (Hr : rgn_in {[1000]} 1000) by (right; by apply elem_of_singleton).
    unfold Cyc_Set_rempty. wps.
    eapply wp_new_words; [apply ex_mem_words|done|unfold MAX_MALLOC_SIZE; simpl; lia| |done].
    intros p m1 Hm1 Hf. pose proof Hf as (Hp & _). simpl in Hm1. unfold init_set.
    wps. eapply wp_store; [done|rewrite lookup_insert_eq; by eexists|]. intros m2 Hm2.
    wps. eapply wp_store; [done|rewrite !lookup_insert_ne, lookup_insert_eq by lia; by eexists|]. intros m3 Hm3.
    wps. eapply wp_store; [done|..].
    { rewrite !lookup_insert_ne by lia. replace (p + 8) with (p + 4 + 4) by lia.
      rewrite lookup_insert_eq. by eexists. }
    intros m4 Hm4. wps. eexists. split; [exact Hm4|]. split_and!.
    - rewrite !lookup_insert_ne by lia. apply lookup_insert_eq.
    - rewrite lookup_insert_ne by lia. apply lookup_insert_eq.
    - exists 0. split_and!; [apply lookup_insert_eq|apply list_at_nil_0|constructor]. }
  refine (wp_result _ _ _ _ ex_set ex_set_mem Hwp _). vm_compute. reflexivity.
Qed.

Definition ex_sops : list sop :=
  [SInsert 5; SInsert 3; SInsert 8; SInsert 5; SMember 3; SDelete 3; SMember 3; SMember 8].

Lemma set_programs_refine_witness : exists s m',
  run_sops 1 sub_call ex_sops ex_set ex_set_mem = (Ret ([true; false; true], s), m').
Proof.
  destruct ex_set_ok as (w & Hm & Hs).
  pose proof (set_programs_refine 1 sub_call Z.sub 9 ex_sops {[1000]} w ex_set [] ex_set_mem
    (fun u v m => eq_refl) _ Hm Hs) as Hwp.
  destruct (run_sops 1 sub_call ex_sops ex_set ex_set_mem) as [o m'] eqn:E.
  assert (Ho : exists r, o = Ret r) by (change o with (o, m').1; rewrite <- E; vm_compute; by eexists).
  destruct Ho as [[bs s] ->]. destruct (wp_result _ _ _ _ _ _ Hwp E) as [Hr _].
  exists s, m'. simpl in Hr. by rewrite Hr.
Defined.

(** ** Operations that do not keep the cardinality *)

Definition imp_insert_ex : ST (mem bump) (bool * bool * bool) :=
  s ← Cyc_Set_empty 9; Cyc_Set_imp_insert 1 sub_call s 5;;
  e ← Cyc_Set_is_empty s; b ← Cyc_Set_member sub_call s 5;
  t ← Cyc_Set_singleton 9 7; u ← Cyc_Set_union_two sub_call s t;
  b' ← Cyc_Set_member sub_call u 5; mret (e, b, b').

(** [imp_insert] does not count the element it inserts: after inserting 5
    into an empty set the set contains 5 and yet [is_empty] holds of it, and its
    union with another set does not contain 5. *)
Theorem imp_insert_not_counted : (imp_insert_ex ex_mem).1 = Ret (true, true, false).
Proof. vm_compute. reflexivity. Qed.

Definition from_list_ex : ST (mem bump) (Z * bool) :=
  a ← new_cell 1 0 4 0; b ← new_cell 1 0 4 a; c ← new_cell 1 0 4 b;
  s ← Cyc_Set_from_list 1 sub_call 9 c; k ← Cyc_Set_cardinality s;
  t ← Cyc_Set_singleton 9 4; e ← Cyc_Set_equals sub_call s t; mret (k, e).

(** [from_list] drops only one of several repetitions of an element: the set
    made from a list of three equal elements has cardinality 2 and is not equal
    to the set with that element. *)
Theorem from_list_keeps_duplicate : (from_list_ex ex_mem).1 = Ret (2, false).
Proof. vm_compute. reflexivity. Qed.
