(* ===== verification/CycDict.v ===== *)
(** * The dictionary library

    Models src/bin/genfiles/dict.c: immutable red-black trees whose nodes are
    objects of five words (colour, left, right, key, value).  A dictionary is a
    structure passed by value: the comparison function, the region of its nodes
    and the root.  A function pointer stored in a dictionary is a word; [call]
    runs the function it points to.  Callbacks may read and change the memory
    and may throw.  An environment that the code builds on the stack for a
    callback is a Rocq value; an accumulator or counter it updates through a
    pointer to a local variable is threaded through the traversal. *)

From S2P Require Import Prelude Alloc FatPtr RwLock Region DynRegion Words CycList ListCells WordMem TempRegion.

Definition dict_cyc : string := "dict.cyc".
Definition Cyc_Dict_Absent : exn := Cyc_Other_exn "Absent".
Definition Cyc_Dict_Present : exn := Cyc_Other_exn "Present".
Definition Cyc_Core_Failure : exn := Cyc_Other_exn "Failure".

(** [enum Cyc_Dict_Color]. *)
Definition Cyc_Dict_R : Z := 0.
Definition Cyc_Dict_B : Z := 1.

Record Cyc_Dict_Dict : Type := mk_dict { d_rel : Z; d_r : Z; d_t : Z }.

Section dict.
Context {H : Type} `{Heap H} (self : Z) (call : Z -> Z -> Z -> ST (mem H) Z).
Abbreviation M := (ST (mem H)).

(** ** Nodes *)

Definition n_color (t : Z) : M Z := get_word t.
Definition n_left (t : Z) : M Z := get_word (t + 4).
Definition n_right (t : Z) : M Z := get_word (t + 8).
Definition n_key (t : Z) : M Z := get_word (t + 12).
Definition n_val (t : Z) : M Z := get_word (t + 16).

(** The fields of a new node at [p]. *)
Definition init_node (p c l r k v : Z) : M Z :=
  store_word p c;; store_word (p + 4) l;; store_word (p + 8) r;;
  store_word (p + 12) k;; store_word (p + 16) v;; mret p.

(** [rnew(rgn) T(c,l,r,$(k,v))] *)
Definition new_node (rgn c l r k v : Z) : M Z :=
  p ← new_words self rgn 5; init_node p c l r k v.

(** [rnew(r) T(R,rnew(r) T(B,a,b,x),rnew(r) T(B,c,d,z),y)]: the outer node is
    allocated first. *)
Definition new_nodes (rgn : Z) (a b : Z) (x : Z * Z) (c d : Z) (z y : Z * Z) : M Z :=
  p ← new_words self rgn 5;
  store_word p Cyc_Dict_R;;
  l ← new_node rgn Cyc_Dict_B a b x.1 x.2; store_word (p + 4) l;;
  r ← new_node rgn Cyc_Dict_B c d z.1 z.2; store_word (p + 8) r;;
  store_word (p + 12) y.1;; store_word (p + 16) y.2;; mret p.

Definition n_key_val (t : Z) : M (Z * Z) := k ← n_key t; v ← n_val t; mret (k, v).

(** ** Construction *)

Definition Cyc_Dict_rempty (r comp : Z) : M Cyc_Dict_Dict := mret (mk_dict comp r 0).
Definition Cyc_Dict_empty (comp : Z) : M Cyc_Dict_Dict := Cyc_Dict_rempty Cyc_Core_heap_region comp.
Definition Cyc_Dict_rsingleton (r comp key data : Z) : M Cyc_Dict_Dict :=
  t ← new_node r Cyc_Dict_B 0 0 key data; mret (mk_dict comp r t).
Definition Cyc_Dict_singleton (comp key data : Z) : M Cyc_Dict_Dict :=
  Cyc_Dict_rsingleton Cyc_Core_heap_region comp key data.
Definition Cyc_Dict_rshare (r : Z) (d : Cyc_Dict_Dict) : M Cyc_Dict_Dict :=
  mret (mk_dict (d_rel d) r (d_t d)).
Definition Cyc_Dict_is_empty (d : Cyc_Dict_Dict) : bool := d_t d =? 0.

(** ** Lookup *)

(** The loop of [member] and of the lookups: the node with the key, or null. *)
Definition find_node (cmp key t : Z) : M Z :=
  with_fuel (fun n => loop n (fun t =>
    if is_null t then mret (inr 0)
    else
      k ← n_key t; i ← call cmp key k;
      if i <? 0 then l ← n_left t; mret (inl l)
      else if 0 <? i then r ← n_right t; mret (inl r)
      else mret (inr t)) t).

Definition Cyc_Dict_member (d : Cyc_Dict_Dict) (key : Z) : M bool :=
  t ← find_node (d_rel d) key (d_t d); mret (negb (is_null t)).

Definition Cyc_Dict_lookup_other (d : Cyc_Dict_Dict) (cmp key : Z) : M Z :=
  t ← find_node cmp key (d_t d);
  if is_null t then lift (Thrown Cyc_Dict_Absent dict_cyc 96) else n_val t.

Definition Cyc_Dict_lookup (d : Cyc_Dict_Dict) (key : Z) : M Z :=
  t ← find_node (d_rel d) key (d_t d);
  if is_null t then lift (Thrown Cyc_Dict_Absent dict_cyc 85) else n_val t.

(** A pointer to the value, inside the node. *)
Definition Cyc_Dict_lookup_opt (d : Cyc_Dict_Dict) (key : Z) : M Z :=
  t ← find_node (d_rel d) key (d_t d);
  mret (if is_null t then 0 else t + 16).

Definition Cyc_Dict_lookup_bool (d : Cyc_Dict_Dict) (key ans_place : Z) : M bool :=
  t ← find_node (d_rel d) key (d_t d);
  if is_null t then mret false
  else v ← n_val t; store_word ans_place v;; mret true.

(** ** Insertion *)

(** [p] matches the pattern [&T(R,...)]. *)
Definition is_red (p : Z) : M bool :=
  if is_null p then mret false else c ← n_color p; mret (c =? Cyc_Dict_R).

(** The last three cases of [balance], which look at the right subtree. *)
Definition balance_right (rgn color l r : Z) (kv : Z * Z) : M Z :=
  red ← is_red r;
  if red : bool then
    rl ← n_left r; redl ← is_red rl;
    if redl : bool then
      b ← n_left rl; c ← n_right rl; y ← n_key_val rl;
      d ← n_right r; z ← n_key_val r;
      new_nodes rgn l b kv c d z y
    else
      rr ← n_right r; redr ← is_red rr;
      if redr : bool then
        b ← n_left r; c ← n_left rr; d ← n_right rr; z ← n_key_val rr; y ← n_key_val r;
        new_nodes rgn l b kv c d z y
      else new_node rgn color l r kv.1 kv.2
  else new_node rgn color l r kv.1 kv.2.

Definition Cyc_Dict_balance (rgn color l r : Z) (kv : Z * Z) : M Z :=
  if color =? Cyc_Dict_B then
    red ← is_red l;
    if red : bool then
      ll ← n_left l; redl ← is_red ll;
      if redl : bool then
        a ← n_left ll; b ← n_right ll; x ← n_key_val ll;
        c ← n_right l; y ← n_key_val l;
        new_nodes rgn a b x c r kv y
      else
        lr ← n_right l; redr ← is_red lr;
        if redr : bool then
          a ← n_left l; b ← n_left lr; c ← n_right lr; y ← n_key_val lr; x ← n_key_val l;
          new_nodes rgn a b x c r kv y
        else balance_right rgn color l r kv
    else balance_right rgn color l r kv
  else new_node rgn color l r kv.1 kv.2.

Fixpoint ins (fuel : nat) (rgn rel : Z) (kv : Z * Z) (t : Z) : M Z :=
  match fuel with
  | O => lift Undef
  | S fuel =>
      if is_null t then new_node rgn Cyc_Dict_R 0 0 kv.1 kv.2
      else
        color ← n_color t; a ← n_left t; b ← n_right t; y ← n_key_val t;
        i ← call rel kv.1 y.1;
        if i <? 0 then a' ← ins fuel rgn rel kv a; Cyc_Dict_balance rgn color a' b y
        else if 0 <? i then b' ← ins fuel rgn rel kv b; Cyc_Dict_balance rgn color a b' y
        else new_node rgn color a b kv.1 kv.2
  end.
Definition Cyc_Dict_ins (rgn rel : Z) (kv : Z * Z) (t : Z) : M Z :=
  with_fuel (fun n => ins n rgn rel kv t).

Definition Cyc_Dict_insert (d : Cyc_Dict_Dict) (key data : Z) : M Cyc_Dict_Dict :=
  ans ← Cyc_Dict_ins (d_r d) (d_rel d) (key, data) (d_t d);
  p ← lift (_check_null ans dict_cyc 157); store_word p Cyc_Dict_B;;
  mret (mk_dict (d_rel d) (d_r d) ans).

Definition Cyc_Dict_insert_new (d : Cyc_Dict_Dict) (key data : Z) : M Cyc_Dict_Dict :=
  b ← Cyc_Dict_member d key;
  if b : bool then lift (Thrown Cyc_Dict_Absent dict_cyc 164) else Cyc_Dict_insert d key data.

(** The elements of [kds] are pointers to pairs. *)
Definition Cyc_Dict_inserts (d : Cyc_Dict_Dict) (kds : Z) : M Cyc_Dict_Dict :=
  with_fuel (fun n => loop n (fun '(d, kds) =>
    if is_null kds then mret (inr d)
    else
      p ← get_hd kds; k ← fst_word p;
      p ← get_hd kds; v ← snd_word p;
      d ← Cyc_Dict_insert d k v;
      t ← get_tl kds; mret (inl (d, t))) (d, kds)).

(** ** Traversal in order *)

(** The common recursion of [fold_tree], [app_tree] and [iter_tree]. *)
Fixpoint walk_tree {A} (fuel : nat) (f : Z -> Z -> A -> M A) (t : Z) (accum : A) : M A :=
  match fuel with
  | O => lift Undef
  | S fuel =>
      left ← n_left t; right ← n_right t; kv ← n_key_val t;
      accum ← (if is_null left then mret accum else walk_tree fuel f left accum);
      accum ← f kv.1 kv.2 accum;
      if is_null right then mret accum else walk_tree fuel f right accum
  end.

Definition Cyc_Dict_fold_tree {A} (f : Z -> Z -> A -> M A) (t : Z) (accum : A) : M A :=
  with_fuel (fun n => walk_tree n f t accum).
Definition Cyc_Dict_fold {A} (f : Z -> Z -> A -> M A) (d : Cyc_Dict_Dict) (accum : A) : M A :=
  if is_null (d_t d) then mret accum else Cyc_Dict_fold_tree f (d_t d) accum.
Definition Cyc_Dict_fold_tree_c {E A} (f : E -> Z -> Z -> A -> M A) (env : E) (t : Z) (accum : A) : M A :=
  with_fuel (fun n => walk_tree n (f env) t accum).
Definition Cyc_Dict_fold_c {E A} (f : E -> Z -> Z -> A -> M A) (env : E) (d : Cyc_Dict_Dict) (accum : A) : M A :=
  if is_null (d_t d) then mret accum else Cyc_Dict_fold_tree_c f env (d_t d) accum.

(** The result of the callback of [app] is dropped. *)
Definition Cyc_Dict_app_tree {B} (f : Z -> Z -> M B) (t : Z) : M unit :=
  with_fuel (fun n => walk_tree n (fun k v _ => f k v;; mret tt) t tt).
Definition Cyc_Dict_app {B} (f : Z -> Z -> M B) (d : Cyc_Dict_Dict) : M unit :=
  if is_null (d_t d) then mret tt else Cyc_Dict_app_tree f (d_t d).
Definition Cyc_Dict_app_tree_c {E B} (f : E -> Z -> Z -> M B) (env : E) (t : Z) : M unit :=
  with_fuel (fun n => walk_tree n (fun k v _ => f env k v;; mret tt) t tt).
Definition Cyc_Dict_app_c {E B} (f : E -> Z -> Z -> M B) (env : E) (d : Cyc_Dict_Dict) : M unit :=
  if is_null (d_t d) then mret tt else Cyc_Dict_app_tree_c f env (d_t d).
Definition Cyc_Dict_iter_tree (f : Z -> Z -> M unit) (t : Z) : M unit :=
  with_fuel (fun n => walk_tree n (fun k v _ => f k v) t tt).
Definition Cyc_Dict_iter (f : Z -> Z -> M unit) (d : Cyc_Dict_Dict) : M unit :=
  if is_null (d_t d) then mret tt else Cyc_Dict_iter_tree f (d_t d).
(** [S] is what the callback updates through its environment. *)
Definition Cyc_Dict_iter_tree_c {E S} (f : E -> Z -> Z -> S -> M S) (env : E) (t : Z) (s : S) : M S :=
  with_fuel (fun n => walk_tree n (f env) t s).
Definition Cyc_Dict_iter_c {E S} (f : E -> Z -> Z -> S -> M S) (env : E) (d : Cyc_Dict_Dict) (s : S) : M S :=
  if is_null (d_t d) then mret s else Cyc_Dict_iter_tree_c f env (d_t d) s.

Definition Cyc_Dict_count_elem (_ : unit) (a b cnt : Z) : M Z := mret (i32 (cnt + 1)).
Definition Cyc_Dict_cardinality (d : Cyc_Dict_Dict) : M Z :=
  Cyc_Dict_iter_c Cyc_Dict_count_elem tt d 0.

Definition Cyc_Dict_iter2_f (env : (Z -> Z -> M unit) * Cyc_Dict_Dict) (a b1 : Z) (_ : unit) : M unit :=
  b2 ← Cyc_Dict_lookup env.2 a; env.1 b1 b2.
Definition Cyc_Dict_iter2 (f : Z -> Z -> M unit) (d1 d2 : Cyc_Dict_Dict) : M unit :=
  Cyc_Dict_iter_c Cyc_Dict_iter2_f (f, d2) d1 tt.
Definition Cyc_Dict_iter2_c_f {E} (env : (E -> Z -> Z -> M unit) * Cyc_Dict_Dict * E) (a b1 : Z)
    (_ : unit) : M unit :=
  b2 ← Cyc_Dict_lookup env.1.2 a; env.1.1 env.2 b1 b2.
Definition Cyc_Dict_iter2_c {E} (f : E -> Z -> Z -> M unit) (inner_env : E) (d1 d2 : Cyc_Dict_Dict) : M unit :=
  Cyc_Dict_iter_c Cyc_Dict_iter2_c_f (f, d2, inner_env) d1 tt.
Definition Cyc_Dict_fold2_c_f {E A} (env : (E -> Z -> Z -> Z -> A -> M A) * Cyc_Dict_Dict * E)
    (a b1 : Z) (accum : A) : M A :=
  b2 ← Cyc_Dict_lookup env.1.2 a; env.1.1 env.2 a b1 b2 accum.
Definition Cyc_Dict_fold2_c {E A} (f : E -> Z -> Z -> Z -> A -> M A) (inner_env : E)
    (d1 d2 : Cyc_Dict_Dict) (accum : A) : M A :=
  Cyc_Dict_fold_c Cyc_Dict_fold2_c_f (f, d2, inner_env) d1 accum.

(** ** Copying and mapping *)

Fixpoint copy_tree (fuel : nat) (r2 t : Z) : M Z :=
  match fuel with
  | O => lift Undef
  | S fuel =>
      if is_null t then mret 0
      else
        c ← n_color t; left ← n_left t; right ← n_right t; pr ← n_key_val t;
        new_left ← copy_tree fuel r2 left;
        new_right ← copy_tree fuel r2 right;
        new_node r2 c new_left new_right pr.1 pr.2
  end.
Definition Cyc_Dict_copy_tree (r2 t : Z) : M Z := with_fuel (fun n => copy_tree n r2 t).
Definition Cyc_Dict_rcopy (r2 : Z) (d : Cyc_Dict_Dict) : M Cyc_Dict_Dict :=
  t ← Cyc_Dict_copy_tree r2 (d_t d); mret (mk_dict (d_rel d) r2 t).
Definition Cyc_Dict_copy (d : Cyc_Dict_Dict) : M Cyc_Dict_Dict := Cyc_Dict_rcopy Cyc_Core_heap_region d.

Fixpoint map_tree (fuel : nat) (r : Z) (f : Z -> M Z) (t : Z) : M Z :=
  match fuel with
  | O => lift Undef
  | S fuel =>
      c ← n_color t; left ← n_left t; right ← n_right t; kv ← n_key_val t;
      new_left ← (if is_null left then mret 0 else map_tree fuel r f left);
      new_val ← f kv.2;
      new_right ← (if is_null right then mret 0 else map_tree fuel r f right);
      new_node r c new_left new_right kv.1 new_val
  end.
Definition Cyc_Dict_map_tree (r : Z) (f : Z -> M Z) (t : Z) : M Z :=
  with_fuel (fun n => map_tree n r f t).
Definition Cyc_Dict_rmap (r : Z) (f : Z -> M Z) (d : Cyc_Dict_Dict) : M Cyc_Dict_Dict :=
  if is_null (d_t d) then mret (mk_dict (d_rel d) r 0)
  else t ← Cyc_Dict_map_tree r f (d_t d); mret (mk_dict (d_rel d) r t).
Definition Cyc_Dict_map (f : Z -> M Z) (d : Cyc_Dict_Dict) : M Cyc_Dict_Dict :=
  Cyc_Dict_rmap Cyc_Core_heap_region f d.
Definition Cyc_Dict_map_tree_c {E} (r : Z) (f : E -> Z -> M Z) (env : E) (t : Z) : M Z :=
  with_fuel (fun n => map_tree n r (f env) t).
Definition Cyc_Dict_rmap_c {E} (r : Z) (f : E -> Z -> M Z) (env : E) (d : Cyc_Dict_Dict) : M Cyc_Dict_Dict :=
  if is_null (d_t d) then mret (mk_dict (d_rel d) r 0)
  else t ← Cyc_Dict_map_tree_c r f env (d_t d); mret (mk_dict (d_rel d) r t).
Definition Cyc_Dict_map_c {E} (f : E -> Z -> M Z) (env : E) (d : Cyc_Dict_Dict) : M Cyc_Dict_Dict :=
  Cyc_Dict_rmap_c Cyc_Core_heap_region f env d.

(** A new pair with the key and the value of the root. *)
Definition Cyc_Dict_rchoose (r : Z) (d : Cyc_Dict_Dict) : M Z :=
  if is_null (d_t d) then lift (Thrown Cyc_Dict_Absent dict_cyc 374)
  else
    p ← new_words self r 2;
    k ← n_key (d_t d); store_word p k;; v ← n_val (d_t d); store_word (p + 4) v;; mret p.

(** ** Universal quantification *)

Fixpoint forall_tree_c (fuel : nat) (f : Z -> Z -> M bool) (t : Z) : M bool :=
  match fuel with
  | O => lift Undef
  | S fuel =>
      left ← n_left t; right ← n_right t; kv ← n_key_val t;
      b ← (if is_null left then mret true else forall_tree_c fuel f left);
      b ← (if b : bool then f kv.1 kv.2 else mret false);
      if b : bool then (if is_null right then mret true else forall_tree_c fuel f right)
      else mret false
  end.
Definition Cyc_Dict_forall_tree_c {E} (f : E -> Z -> Z -> M bool) (env : E) (t : Z) : M bool :=
  with_fuel (fun n => forall_tree_c n (f env) t).
Definition Cyc_Dict_forall_c {E} (f : E -> Z -> Z -> M bool) (env : E) (d : Cyc_Dict_Dict) : M bool :=
  if is_null (d_t d) then mret true else Cyc_Dict_forall_tree_c f env (d_t d).

Definition Cyc_Dict_forall_intersect_f (env : (Z -> Z -> Z -> M bool) * Cyc_Dict_Dict) (a b : Z) : M bool :=
  present ← Cyc_Dict_member env.2 a;
  if present : bool then v ← Cyc_Dict_lookup env.2 a; env.1 a b v else mret true.
Definition Cyc_Dict_forall_intersect (f : Z -> Z -> Z -> M bool) (d1 d2 : Cyc_Dict_Dict) : M bool :=
  Cyc_Dict_forall_c Cyc_Dict_forall_intersect_f (f, d2) d1.

(** ** Union *)

Definition Cyc_Dict_union_f {E} (env : (E -> Z -> Z -> Z -> M Z) * E) (a b : Z) (d1 : Cyc_Dict_Dict)
    : M Cyc_Dict_Dict :=
  present ← Cyc_Dict_member d1 a;
  if present : bool then
    old_val ← Cyc_Dict_lookup d1 a;
    new_val ← env.1 env.2 a old_val b;
    if negb (new_val =? old_val) then Cyc_Dict_insert d1 a new_val else mret d1
  else Cyc_Dict_insert d1 a b.
Definition Cyc_Dict_union_two_c {E} (f : E -> Z -> Z -> Z -> M Z) (env : E) (d1 d2 : Cyc_Dict_Dict)
    : M Cyc_Dict_Dict :=
  if d_t d1 =? d_t d2 then mret d1
  else if is_null (d_t d1) then mret d2
  else if is_null (d_t d2) then mret d1
  else Cyc_Dict_fold_c Cyc_Dict_union_f (f, env) d2 d1.

(** ** Intersection *)

Definition new_array (rgn n : Z) (line : Z) (f : Z -> M Z) : M fat_ptr :=
  lift (_check_times n 4 dict_cyc line);;
  p ← new_words self rgn (Z.to_nat n);
  fill_array p n f;; mret (_tag_fat p 4 n).

(** One iteration of the loop of [intersect_c] on the state [queue], [ind] and
    [ans_tree]. *)
Definition intersect_step {E} (f : E -> Z -> Z -> Z -> M Z) (env : E) (d1 d2 : Cyc_Dict_Dict) (temp : Z)
    (st : fat_ptr * Z * Z) : M ((fat_ptr * Z * Z) + Z) :=
  let '(queue, ind, ans_tree) := st in
  if ind =? -1 then mret (inr ans_tree)
  else
    a ← lift (_check_fat_subscript queue 4 ind dict_cyc 447); t ← get_word a;
    let ind := i32 (ind - 1) in
    l ← n_left t; r ← n_right t; kv ← n_key_val t;
    let n := _get_fat_size queue 4 in
    queue ← (if n <=? u32 (ind + 2) then
               new_array temp (u32 (n * 2)) 449 (fun i =>
                 if i <? n then get_word (u32 (FatPtr.curr queue + 4 * i)) else mret (d_t d2))
             else mret queue);
    ind ← (if is_null l then mret ind
           else a ← lift (_check_fat_subscript queue 4 (i32 (ind + 1)) dict_cyc 451);
                store_word a l;; mret (i32 (ind + 1)));
    ind ← (if is_null r then mret ind
           else a ← lift (_check_fat_subscript queue 4 (i32 (ind + 1)) dict_cyc 452);
                store_word a r;; mret (i32 (ind + 1)));
    b ← Cyc_Dict_member d1 kv.1;
    ans_tree ← (if b : bool then
                  v1 ← Cyc_Dict_lookup d1 kv.1;
                  v ← f env kv.1 v1 kv.2;
                  Cyc_Dict_ins (d_r d2) (d_rel d2) (kv.1, v) ans_tree
                else mret ans_tree);
    mret (inl (queue, ind, ans_tree)).

Definition Cyc_Dict_intersect_c {E} (f : E -> Z -> Z -> Z -> M Z) (env : E) (d1 d2 : Cyc_Dict_Dict) (temp : Z)
    : M Cyc_Dict_Dict :=
  let t2 := d_t d2 in
  if is_null t2 then mret d2
  else if d_t d1 =? t2 then mret d2
  else
    ans_tree ← with_region temp (
      queue ← new_array temp 16 444 (fun _ => mret t2);
      with_fuel (fun n => loop n (intersect_step f env d1 d2 temp) (queue, 0, 0)));
    mret (mk_dict (d_rel d2) (d_r d2) ans_tree).

Definition Cyc_Dict_intersect_f (f : Z -> Z -> Z -> M Z) (a b1 b2 : Z) : M Z := f a b1 b2.
Definition Cyc_Dict_intersect (f : Z -> Z -> Z -> M Z) (d1 d2 : Cyc_Dict_Dict) (temp : Z) : M Cyc_Dict_Dict :=
  Cyc_Dict_intersect_c Cyc_Dict_intersect_f f d1 d2 temp.

(** ** Lists of bindings *)

Definition Cyc_Dict_to_list_f (r k v accum : Z) : M Z :=
  p ← new_words self r 2;
  q ← new_words self r 2; store_word q k;; store_word (q + 4) v;;
  set_hd p q;; set_tl p accum;; mret p.
Definition Cyc_Dict_rto_list (r : Z) (d : Cyc_Dict_Dict) : M Z := Cyc_Dict_fold_c Cyc_Dict_to_list_f r d 0.
Definition Cyc_Dict_to_list (d : Cyc_Dict_Dict) : M Z := Cyc_Dict_rto_list Cyc_Core_heap_region d.

(** ** Filters *)

Definition Cyc_Dict_filter_f (env : (Z -> Z -> M bool) * Z) (x y : Z) (acc : Cyc_Dict_Dict) : M Cyc_Dict_Dict :=
  b ← env.1 x y; if b : bool then Cyc_Dict_insert acc x y else mret acc.
Definition Cyc_Dict_rfilter (r2 : Z) (f : Z -> Z -> M bool) (d : Cyc_Dict_Dict) : M Cyc_Dict_Dict :=
  res ← Cyc_Dict_rempty r2 (d_rel d);
  Cyc_Dict_fold_c Cyc_Dict_filter_f (f, r2) d res.
Definition Cyc_Dict_filter (f : Z -> Z -> M bool) (d : Cyc_Dict_Dict) : M Cyc_Dict_Dict :=
  Cyc_Dict_rfilter Cyc_Core_heap_region f d.
Definition Cyc_Dict_filter_c_f {E} (env : (E -> Z -> Z -> M bool) * E * Z) (x y : Z) (acc : Cyc_Dict_Dict)
    : M Cyc_Dict_Dict :=
  b ← env.1.1 env.1.2 x y; if b : bool then Cyc_Dict_insert acc x y else mret acc.
Definition Cyc_Dict_rfilter_c {E} (r2 : Z) (f : E -> Z -> Z -> M bool) (f_env : E) (d : Cyc_Dict_Dict)
    : M Cyc_Dict_Dict :=
  res ← Cyc_Dict_rempty r2 (d_rel d);
  Cyc_Dict_fold_c Cyc_Dict_filter_c_f (f, f_env, r2) d res.
Definition Cyc_Dict_filter_c {E} (f : E -> Z -> Z -> M bool) (f_env : E) (d : Cyc_Dict_Dict) : M Cyc_Dict_Dict :=
  Cyc_Dict_rfilter_c Cyc_Core_heap_region f f_env d.

Definition Cyc_Dict_difference_f (d : Cyc_Dict_Dict) (x y : Z) : M bool :=
  b ← Cyc_Dict_member d x; mret (negb b).
Definition Cyc_Dict_rdifference (r2 : Z) (d1 d2 : Cyc_Dict_Dict) : M Cyc_Dict_Dict :=
  Cyc_Dict_rfilter_c r2 Cyc_Dict_difference_f d2 d1.
Definition Cyc_Dict_difference (d1 d2 : Cyc_Dict_Dict) : M Cyc_Dict_Dict :=
  Cyc_Dict_rdifference Cyc_Core_heap_region d1 d2.

Definition Cyc_Dict_delete_f (env : Z * Z) (x y : Z) : M bool :=
  i ← call env.1 env.2 x; mret (negb (i =? 0)).
Definition Cyc_Dict_rdelete (r2 : Z) (d : Cyc_Dict_Dict) (x : Z) : M Cyc_Dict_Dict :=
  b ← Cyc_Dict_member d x;
  if negb b then Cyc_Dict_rcopy r2 d else Cyc_Dict_rfilter_c r2 Cyc_Dict_delete_f (d_rel d, x) d.
Definition Cyc_Dict_rdelete_same (d : Cyc_Dict_Dict) (x : Z) : M Cyc_Dict_Dict :=
  b ← Cyc_Dict_member d x;
  if negb b then mret d else Cyc_Dict_rfilter_c (d_r d) Cyc_Dict_delete_f (d_rel d, x) d.
Definition Cyc_Dict_delete (d : Cyc_Dict_Dict) (x : Z) : M Cyc_Dict_Dict :=
  Cyc_Dict_rdelete Cyc_Core_heap_region d x.

(** ** Iterators *)

(** The environment at [stk] is a fat pointer (three words) to an array used as
    a stack, and the index of its top. *)
Definition Cyc_Dict_iter_f (stk dest : Z) : M bool :=
  c ← get_word stk; b ← get_word (stk + 4); e ← get_word (stk + 8);
  let stack := mk_fat c b e in
  ind ← get_word (stk + 12);
  if ind =? -1 then mret false
  else
    a ← lift (_check_fat_subscript stack 4 ind dict_cyc 568); t ← get_word a;
    t ← lift (_check_null t dict_cyc 569);
    k ← n_key t; store_word dest k;; v ← n_val t; store_word (dest + 4) v;;
    let ind := i32 (ind - 1) in
    l ← n_left t;
    ind ← (if is_null l then mret ind
           else a ← lift (_check_fat_subscript stack 4 (i32 (ind + 1)) dict_cyc 572);
                l ← n_left t; store_word a l;; mret (i32 (ind + 1)));
    r ← n_right t;
    ind ← (if is_null r then mret ind
           else a ← lift (_check_fat_subscript stack 4 (i32 (ind + 1)) dict_cyc 574);
                r ← n_right t; store_word a r;; mret (i32 (ind + 1)));
    store_word (stk + 12) ind;; mret true.

(** The length of the path of left children from [t], plus one. *)
Definition left_path (t : Z) : M Z :=
  with_fuel (fun n => loop n (fun '(t, half_max_size) =>
    if is_null t then mret (inr half_max_size)
    else l ← n_left t; mret (inl (l, i32 (half_max_size + 1)))) (t, 1)).

(** The [env] of the iterator; its [next] is [Cyc_Dict_iter_f]. *)
Definition Cyc_Dict_make_iter (rgn : Z) (d : Cyc_Dict_Dict) : M Z :=
  half_max_size ← left_path (d_t d);
  let t := d_t d in
  stack ← new_array rgn (u32 (2 * half_max_size)) 591 (fun _ => mret t);
  p ← new_words self rgn 4;
  store_word p (FatPtr.curr stack);; store_word (p + 4) (FatPtr.base stack);;
  store_word (p + 8) (FatPtr.last_plus_one stack);;
  store_word (p + 12) (if is_null t then -1 else 0);; mret p.

(** ** Marshalling *)

(** The exception value: its tag and the message (a fat pointer). *)
Definition throw_failure {A} (line : Z) : M A :=
  cycalloc_words 4 dict_cyc line;; lift (Thrown Cyc_Core_Failure dict_cyc line).

(** The statement before the loop throws unconditionally. *)
Definition Cyc_Dict_marshal {E F} (rgn : Z) (env : E) (write_key write_val : E -> F -> Z -> M E) (fp : F)
    (dict : Cyc_Dict_Dict) : M E :=
  dict_list ← Cyc_Dict_rto_list rgn dict;
  Cyc_List_length dict_list;;
  throw_failure (A:=unit) 611;;
  with_fuel (fun n => loop n (fun '(env, dict_list) =>
    if is_null dict_list then mret (inr env)
    else
      h ← get_hd dict_list; env ← write_key env fp h;
      h ← get_hd dict_list; env ← write_val env fp h;
      t ← get_tl dict_list; mret (inl (env, t))) (env, dict_list)).

(** [getw] reads a word of the file. *)
Definition Cyc_Dict_unmarshal {E F} (getw : F -> M Z) (env : E) (cmp : Z)
    (read_key read_val : E -> F -> M Z) (fp : F) : M Cyc_Dict_Dict :=
  dict ← Cyc_Dict_empty cmp;
  len ← getw fp;
  (if len =? -1 then throw_failure 631 else mret tt);;
  loop (S (Z.to_nat len)) (fun '(i, dict) =>
    if i <? len then
      key ← read_key env fp; val ← read_val env fp;
      dict ← Cyc_Dict_insert dict key val; mret (inl (i + 1, dict))
    else mret (inr dict)) (0, dict).
End dict.
