(* ===== verification/CycBitvec.v ===== *)
(** * The bit vector library

    Models src/bin/genfiles/bitvec.c: sets of small integers as arrays of [int],
    32 to a word.  The words hold signed integers.  A failed assertion ends the
    process ([Cyc___assert_fail] calls [exit]).  Printing is not modelled. *)

From S2P Require Import Prelude Alloc FatPtr RwLock Region Words CycList CycDict.

Definition bitvec_cyc : string := "bitvec.cyc".

Section bitvec.
Context {H : Type} `{Heap H}.
Abbreviation M := (ST (mem H)).

(** [((int* )b.curr)[i]], without a check, and [( *((int* )_check_fat_subscript(...)))]. *)
Definition int_at (b : fat_ptr) (i : Z) : Z := u32 (FatPtr.curr b + 4 * i).
Definition get_int (a : Z) : M Z := v ← get_word a; mret (i32 v).
Definition get_checked (b : fat_ptr) (i line : Z) : M Z :=
  a ← lift (_check_fat_subscript b 4 i bitvec_cyc line); get_int a.

(** [pos >> 5], [pos & 31], [1 << offset] and [(slot >> offset & 1) == 1]. *)
Definition word_of (pos : Z) : Z := Z.shiftr pos 5.
Definition offset_of (pos : Z) : Z := Z.land pos 31.
Definition bit_mask (offset : Z) : Z := i32 (Z.shiftl 1 offset).
Definition bit_of (slot offset : Z) : bool := Z.land (Z.shiftr slot offset) 1 =? 1.

(** ** Single bits *)

Definition Cyc_Bitvec_get (bvec : fat_ptr) (pos : Z) : M bool :=
  slot ← get_checked bvec (word_of pos) 44; mret (bit_of slot (offset_of pos)).

Definition Cyc_Bitvec_set (bvec : fat_ptr) (pos : Z) : M unit :=
  slot ← get_checked bvec (word_of pos) 50;
  store_word (int_at bvec (word_of pos)) (Z.lor slot (bit_mask (offset_of pos))).

Definition Cyc_Bitvec_clear (bvec : fat_ptr) (pos : Z) : M unit :=
  slot ← get_checked bvec (word_of pos) 56;
  store_word (int_at bvec (word_of pos)) (Z.land slot (Z.lnot (bit_mask (offset_of pos)))).

Definition Cyc_Bitvec_get_and_set (bvec : fat_ptr) (pos : Z) : M bool :=
  slot ← get_checked bvec (word_of pos) 62;
  let ans := bit_of slot (offset_of pos) in
  (if ans then mret tt
   else store_word (int_at bvec (word_of pos)) (Z.lor slot (bit_mask (offset_of pos))));;
  mret ans.

(** ** Whole vectors *)

(** [for (i = 0; (unsigned)i < len; ++i) body(i)] *)
Definition for_words (len : Z) (body : Z -> M unit) : M unit :=
  loop (S (Z.to_nat len)) (fun i =>
    if u32 i <? len then body i;; mret (inl (i32 (i + 1))) else mret (inr tt)) 0.

(** The assertion and the loop of [union_two], [intersect_two] and [diff_two]. *)
Definition combine_two (op : Z -> Z -> Z) (dest src1 src2 : fat_ptr) : M unit :=
  let len := _get_fat_size dest 4 in
  lift (cassert ((len <=? _get_fat_size src1 4) && (len <=? _get_fat_size src2 4))
          "len <= numelts(src1) && len <= numelts(src2)");;
  for_words len (fun i =>
    a ← get_int (int_at src1 i); b ← get_int (int_at src2 i); store_word (int_at dest i) (op a b)).

Definition Cyc_Bitvec_union_two (dest src1 src2 : fat_ptr) : M unit := combine_two Z.lor dest src1 src2.
Definition Cyc_Bitvec_intersect_two (dest src1 src2 : fat_ptr) : M unit := combine_two Z.land dest src1 src2.
Definition Cyc_Bitvec_diff_two (dest src1 src2 : fat_ptr) : M unit :=
  combine_two (fun a b => Z.land a (Z.lnot b)) dest src1 src2.

Definition Cyc_Bitvec_compare_two (src1 src2 : fat_ptr) : M bool :=
  let len := _get_fat_size src1 4 in
  lift (cassert (len <=? _get_fat_size src2 4) "len <= numelts(src2)");;
  loop (S (Z.to_nat len)) (fun i =>
    if u32 i <? len then
      a ← get_int (int_at src1 i); b ← get_int (int_at src2 i);
      if a =? b then mret (inl (i32 (i + 1))) else mret (inr false)
    else mret (inr true)) 0.

Definition Cyc_Bitvec_clear_all (bvec : fat_ptr) : M unit :=
  for_words (_get_fat_size bvec 4) (fun i => store_word (int_at bvec i) 0).

Definition Cyc_Bitvec_set_all (bvec : fat_ptr) : M unit :=
  for_words (_get_fat_size bvec 4) (fun i => store_word (int_at bvec i) (-1)).

Definition Cyc_Bitvec_all_set (bvec : fat_ptr) (sz : Z) : M bool :=
  let words := Z.shiftr sz 5 in
  lift (cassert (u32 words <? _get_fat_size bvec 4) "words < numelts(bvec)");;
  full ← loop (S (Z.to_nat words)) (fun i =>
    if i <? words then
      v ← get_checked bvec i 151;
      if v =? -1 then mret (inl (i32 (i + 1))) else mret (inr false)
    else mret (inr true)) 0;
  if (full : bool) then
    loop (S (Z.to_nat sz)) (fun i =>
      if i <? sz then
        b ← Cyc_Bitvec_get bvec i;
        if (b : bool) then mret (inl (i32 (i + 1))) else mret (inr false)
      else mret (inr true)) (i32 (words * 32))
  else mret false.

(** ** New vectors *)

(** [new {for i < n : v}] of [int]. *)
Definition new_ints (n v line : Z) : M fat_ptr :=
  lift (_check_times n 4 bitvec_cyc line);;
  p ← cycalloc_atomic_words (Z.to_nat n) bitvec_cyc line;
  fill_array p n (fun _ => mret v);;
  mret (_tag_fat p 4 n).

Definition Cyc_Bitvec_new_empty (sz : Z) : M fat_ptr := new_ints (u32 (Z.quot sz 32 + 1)) 0 101.
Definition Cyc_Bitvec_new_full (sz : Z) : M fat_ptr := new_ints (u32 (Z.quot sz 32 + 1)) (-1) 105.

(** [new_empty] is given a number of words where it expects a number of bits. *)
Definition Cyc_Bitvec_new_copy (old : fat_ptr) : M fat_ptr :=
  copy ← Cyc_Bitvec_new_empty (i32 (_get_fat_size old 4));
  Cyc_Bitvec_union_two copy copy old;;
  mret copy.

(** ** Lists *)

Context (call : Z -> Z -> Z -> M Z).

Definition Cyc_Bitvec_from_list (d : Cyc_Dict_Dict) (f : Z -> M Z) (sz l : Z) : M fat_ptr :=
  ans ← new_ints (u32 (Z.rem sz 32 + 1)) 0 117;
  with_fuel (fun n => loop n (fun l =>
    if is_null l then mret (inr ans)
    else
      h ← get_hd l; v ← Cyc_Dict_lookup call d h; pos ← f v;
      Cyc_Bitvec_set ans pos;;
      t ← get_tl l; mret (inl t)) l).

(** The inner loop, over the bits of one word. *)
Definition word_to_list (bits offset pos ans : Z) : M (Z * Z) :=
  loop 33 (fun '(offset, pos, ans) =>
    if 0 <=? offset then
      ans ← (if bit_of bits offset then
               lift (_check_times 1 8 bitvec_cyc 130);;
               p ← cycalloc_words 2 bitvec_cyc 130; set_hd p pos;; set_tl p ans;; mret p
             else mret ans);
      mret (inl (offset - 1, pos - 1, ans))
    else mret (inr (pos, ans))) (offset, pos, ans).

Definition Cyc_Bitvec_to_sorted_list (bvec : fat_ptr) (sz : Z) : M Z :=
  loop (S (Z.to_nat sz)) (fun '(pos, ans) =>
    if 0 <=? pos then
      bits ← get_checked bvec (word_of pos) 127;
      r ← word_to_list bits (offset_of pos) pos ans;
      mret (inl r)
    else mret (inr ans)) (i32 (sz - 1), 0).
End bitvec.
