(* ===== verification/BitvecSpec.v ===== *)
(** * Bit vectors implement sets of integers

    Bits of signed words, vectors in memory, and the refinement: programs on any
    number of vectors behave like programs on finite sets, errors included. *)

From S2P Require Import Prelude Alloc FatPtr RwLock Region RegionSafety Words CycList ListCells WordMem CycListSpec ListConv CycDict CycBitvec.

(** ** Bits of an [int] *)

Definition int_ok (x : Z) : Prop := -2147483648 <= x < 2147483648.

Lemma int_ok_shiftr x : int_ok x <-> Z.shiftr x 31 = 0 \/ Z.shiftr x 31 = -1.
Proof. unfold int_ok. rewrite Z.shiftr_div_pow2 by lia. change (2 ^ 31) with 2147483648. words. Qed.

Lemma int_ok_lor x y : int_ok x -> int_ok y -> int_ok (Z.lor x y).
Proof. rewrite !int_ok_shiftr, Z.shiftr_lor. by intros [-> | ->] [-> | ->]; auto. Qed.

Lemma int_ok_land x y : int_ok x -> int_ok y -> int_ok (Z.land x y).
Proof. rewrite !int_ok_shiftr, Z.shiftr_land. by intros [-> | ->] [-> | ->]; auto. Qed.

Lemma int_ok_lnot x : int_ok x -> int_ok (Z.lnot x).
Proof. unfold int_ok, Z.lnot. lia. Qed.

Lemma int_ok_i32 x : int_ok x -> i32 x = x.
Proof. apply i32_small. Qed.

(** An [int] is determined by its 32 bits. *)
Lemma int_bits_inj x y : int_ok x -> int_ok y -> (forall i, 0 <= i < 32 -> Z.testbit x i = Z.testbit y i) -> x = y.
Proof.
  intros Hx Hy Hb. apply Z.bits_inj'. intros i Hi. destruct (decide (i < 32)); [by apply Hb|].
  assert (Hhi : forall z, int_ok z -> Z.testbit z i = Z.testbit z 31).
  { intros z Hz. apply int_ok_shiftr in Hz. rewrite <- (Z.sub_add 31 i), <- (Z.shiftr_spec z) by lia.
    rewrite <- (Z.add_0_l 31) at 3. rewrite <- (Z.shiftr_spec z) by lia.
    destruct Hz as [-> | ->]; [by rewrite !Z.bits_0|by rewrite !Z.bits_m1 by lia]. }
  rewrite !Hhi by done. by apply Hb.
Qed.

Lemma bit_of_testbit x o : 0 <= o -> bit_of x o = Z.testbit x o.
Proof.
  intros Ho. unfold bit_of. change 1 with (Z.ones 1) at 1. rewrite Z.land_ones by lia. change (2 ^ 1) with 2.
  rewrite <- (Z.add_0_l o) at 2. rewrite <- (Z.shiftr_spec x o 0) by lia.
  rewrite Z.bit0_odd. destruct (Z.odd (Z.shiftr x o)) eqn:E; rewrite Zmod_odd, E; done.
Qed.

Lemma bit_mask_range o : 0 <= o < 32 -> int_ok (bit_mask o).
Proof. intros _. unfold bit_mask, int_ok. words. Qed.

Lemma bit_mask_testbit o i : 0 <= o < 32 -> 0 <= i < 32 -> Z.testbit (bit_mask o) i = (i =? o).
Proof.
  intros Ho Hi. unfold bit_mask. rewrite Z.shiftl_1_l. destruct (decide (o = 31)) as [->|Hne].
  - change (i32 (2 ^ 31)) with (- 2 ^ 31). rewrite Z.bits_opp by lia. change (Z.pred (2 ^ 31)) with (Z.ones 31).
    destruct (decide (i < 31)); [rewrite Z.ones_spec_low by lia|rewrite Z.ones_spec_high by lia]; simpl; lia.
  - assert (2 ^ o <= 2 ^ 30) by (apply Z.pow_le_mono_r; lia). change (2 ^ 30) with 1073741824 in *.
    pose proof (Z.pow_nonneg 2 o). rewrite i32_small by lia. rewrite Z.pow2_bits_eqb by lia. lia.
Qed.

Lemma word_of_div p : word_of p = p / 32.
Proof. unfold word_of. by rewrite Z.shiftr_div_pow2 by lia. Qed.
Lemma offset_of_mod p : offset_of p = p mod 32.
Proof. unfold offset_of. change 31 with (Z.ones 5). by rewrite Z.land_ones by lia. Qed.

(** ** The set of a list of words *)

Definition bit_at (l : list Z) (i : Z) : bool :=
  match l !! Z.to_nat (i / 32) with Some x => Z.testbit x (i mod 32) | None => false end.

Definition bits_of (l : list Z) : gset Z :=
  list_to_set (filter (fun i => bit_at l i = true) (seqZ 0 (32 * Z.of_nat (length l)))).

Lemma elem_of_bits l i : i ∈ bits_of l <-> 0 <= i < 32 * Z.of_nat (length l) /\ bit_at l i = true.
Proof. unfold bits_of. rewrite elem_of_list_to_set, list_elem_of_filter, elem_of_seqZ, Z.add_0_l. tauto. Qed.

(** The bits of a word of the list. *)
Lemma elem_of_bits_word l k x o : l !! k = Some x -> 0 <= o < 32 ->
  32 * Z.of_nat k + o ∈ bits_of l <-> Z.testbit x o = true.
Proof.
  intros Hk Ho. pose proof (lookup_lt_Some _ _ _ Hk). rewrite elem_of_bits. unfold bit_at.
  replace ((32 * Z.of_nat k + o) / 32) with (Z.of_nat k) by words.
  replace ((32 * Z.of_nat k + o) mod 32) with o by words. rewrite Nat2Z.id, Hk. split; [tauto|]. intros. split; [lia|done].
Qed.

(** Every element is a bit of a word. *)
Lemma bits_cases l i : i ∈ bits_of l ->
  exists k x o, i = 32 * Z.of_nat k + o /\ 0 <= o < 32 /\ l !! k = Some x /\ Z.testbit x o = true.
Proof.
  rewrite elem_of_bits. unfold bit_at. intros [Hi Hb]. destruct (l !! Z.to_nat (i / 32)) as [x|] eqn:E; [|done].
  exists (Z.to_nat (i / 32)), x, (i mod 32). split_and!; try done; words.
Qed.

Lemma in_range_cases (n i : Z) : 0 <= i < 32 * n ->
  exists k o, i = 32 * Z.of_nat k + o /\ 0 <= o < 32 /\ Z.of_nat k < n.
Proof. intros Hi. exists (Z.to_nat (i / 32)), (i mod 32). words. Qed.

(** Two lists of words of one length with the same set are equal. *)
Lemma bits_of_inj l1 l2 : length l1 = length l2 -> Forall int_ok l1 -> Forall int_ok l2 ->
  bits_of l1 = bits_of l2 -> l1 = l2.
Proof.
  intros Hl H1 H2 He. apply list_eq_same_length with (length l1); [done|done|].
  intros k x y Hk Hx Hy. apply int_bits_inj; [exact (Forall_lookup_1 _ _ _ _ H1 Hx)|exact (Forall_lookup_1 _ _ _ _ H2 Hy)|].
  intros o Ho. apply Bool.eq_iff_eq_true. by rewrite <- (elem_of_bits_word l1 k x o), <- (elem_of_bits_word l2 k y o), He.
Qed.

(** Changing one word. *)
Lemma bits_of_insert l k x y i : l !! k = Some x ->
  i ∈ bits_of (<[k := y]> l) <->
  (i / 32 = Z.of_nat k /\ Z.testbit y (i mod 32) = true) \/ (i / 32 <> Z.of_nat k /\ i ∈ bits_of l).
Proof.
  intros Hk. pose proof (lookup_lt_Some _ _ _ Hk) as Hlt. rewrite !elem_of_bits, length_insert. unfold bit_at.
  destruct (decide (i / 32 = Z.of_nat k)) as [E|E].
  - rewrite E, Nat2Z.id, list_lookup_insert_eq by done. split; [tauto|]. intros [[_ Hb]|[? _]]; [|done].
    split; [|done]. words.
  - split; [|intros [[? _]|[_ [Hi Hb]]]; [done|]].
    + intros [Hi Hb]. rewrite list_lookup_insert_ne in Hb by (intros ->; words). tauto.
    + rewrite list_lookup_insert_ne by (intros ->; words). done.
Qed.

(** ** Vectors in memory *)

(** A vector: its address and its words. *)
Abbreviation vec := (Z * list Z)%type.

Definition fat_of (v : vec) : fat_ptr := _tag_fat v.1 4 (Z.of_nat (length v.2)).

Record vec_ok (w : gmap Z Z) (v : vec) : Prop := {
  vo_words : array_at w v.1 v.2;
  vo_ints : Forall int_ok v.2;
  vo_pos : 0 < v.1;
  vo_size : 4 * Z.of_nat (length v.2) <= MAX_MALLOC_SIZE;
  vo_end : v.1 + 4 * Z.of_nat (length v.2) < 4294967296
}.

(** The addresses of the words of a vector. *)
Definition in_vec (v : vec) (x : Z) : Prop := exists i, (i < length v.2)%nat /\ x = v.1 + 4 * Z.of_nat i.

Lemma in_vec_elem v x : x ∈ ((fun i => v.1 + 4 * Z.of_nat i) <$> seq 0 (length v.2)) <-> in_vec v x.
Proof.
  rewrite list_elem_of_fmap. split.
  - intros (i & -> & Hi%elem_of_seq). exists i. split; [lia|done].
  - intros (i & Hi & ->). exists i. split; [done|]. apply elem_of_seq. lia.
Qed.

#[export] Instance in_vec_dec v x : Decision (in_vec v x).
Proof.
  destruct (decide (x ∈ (fun i => v.1 + 4 * Z.of_nat i) <$> seq 0 (length v.2))) as [Hx|Hx]; rewrite in_vec_elem in Hx; [by left|by right].
Defined.

(** The vectors [vs] are in memory and do not overlap. *)
Definition vecs_ok (w : gmap Z Z) (vs : list vec) : Prop :=
  (forall k v, vs !! k = Some v -> vec_ok w v) /\
  forall j k u v, j <> k -> vs !! j = Some u -> vs !! k = Some v -> forall x, ~ (in_vec u x /\ in_vec v x).

Lemma fat_of_eq w v : vec_ok w v -> fat_of v = mk_fat v.1 v.1 (v.1 + 4 * Z.of_nat (length v.2)).
Proof.
  intros [_ _ Hp Hs He]. unfold fat_of, _tag_fat. rewrite (proj2 (Z.eqb_neq _ _)) by lia.
  by rewrite (u32_small (Z.of_nat _)), u32_small by lia.
Qed.

Lemma fat_of_size w v : vec_ok w v -> _get_fat_size (fat_of v) 4 = Z.of_nat (length v.2).
Proof. intros [_ _ Hp Hs He]. apply get_fat_size_tag; lia. Qed.

(** A checked access to the word of bit [p] succeeds exactly when the bit is one
    of the vector, for every [int] position. *)
Lemma checked_subscript w v i line : vec_ok w v -> -67108864 <= i < 67108864 ->
  _check_fat_subscript (fat_of v) 4 i bitvec_cyc line =
    if (0 <=? i) && (i <? Z.of_nat (length v.2)) then Ret (v.1 + 4 * i)
    else Thrown Cyc_Array_bounds bitvec_cyc line.
Proof.
  intros Hv Hi. rewrite (fat_of_eq w v Hv). destruct Hv as [_ _ Hp Hs He].
  unfold MAX_MALLOC_SIZE in Hs. unfold _check_fat_subscript. cbn [FatPtr.curr FatPtr.base FatPtr.last_plus_one].
  destruct ((0 <=? i) && (i <? Z.of_nat (length v.2))) eqn:E.
  - rewrite u32_small by lia. destruct (_ || _) eqn:E2; [lia|done].
  - destruct (_ || _) eqn:E2; [done|]. words.
Qed.

Lemma int_at_fat w v k : vec_ok w v -> (k < length v.2)%nat -> int_at (fat_of v) (Z.of_nat k) = v.1 + 4 * Z.of_nat k.
Proof.
  intros Hv Hk. unfold int_at. rewrite (fat_of_eq w v Hv). simpl. destruct Hv as [_ _ Hp Hs He].
  apply u32_small. lia.
Qed.

Lemma vec_store w v k y : vec_ok w v -> (k < length v.2)%nat -> int_ok y ->
  vec_ok (<[v.1 + 4 * Z.of_nat k := y]> w) (v.1, <[k := y]> v.2).
Proof.
  intros [Hw Hi Hp Hs He] Hk Hy. split; simpl; rewrite ?length_insert; try done.
  - intros i x Hx. rewrite lookup_insert. case_decide as E.
    + assert (i = k) as -> by lia. rewrite list_lookup_insert_eq in Hx by done. congruence.
    + rewrite list_lookup_insert_ne in Hx by (intros ->; lia). by apply Hw.
  - by apply Forall_insert.
Qed.

Lemma vecs_store w vs k v i y : vecs_ok w vs -> vs !! k = Some v -> (i < length v.2)%nat -> int_ok y ->
  vecs_ok (<[v.1 + 4 * Z.of_nat i := y]> w) (<[k := (v.1, <[i := y]> v.2)]> vs).
Proof.
  intros [Hv Hd] Hk Hi Hy. pose proof (lookup_lt_Some _ _ _ Hk) as Hlt. split.
  - intros j u Hu. destruct (decide (j = k)) as [->|Hne].
    + rewrite list_lookup_insert_eq in Hu by done. injection Hu as <-. apply vec_store; [by eapply Hv|done|done].
    + rewrite list_lookup_insert_ne in Hu by done. destruct (Hv j u Hu) as [Hw ? ? ? ?]. split; try done.
      intros a x Hx. rewrite lookup_insert_ne; [by apply Hw|]. pose proof (lookup_lt_Some _ _ _ Hx) as Hlx.
      intros E. apply (Hd j k u v Hne Hu Hk (v.1 + 4 * Z.of_nat i)). split; [by exists a|by exists i].
  - assert (Hin : forall x, in_vec (v.1, <[i := y]> v.2) x <-> in_vec v x)
      by (intros x; unfold in_vec; simpl; by rewrite length_insert).
    intros j j' u u' Hne Hu Hu' x. rewrite list_lookup_insert in Hu, Hu'.
    repeat case_decide; simplify_eq; rewrite ?Hin; try (eapply Hd; cycle 1; try done; naive_solver).
Qed.

(** ** Accesses and loops *)

Definition shape (vs : list vec) : list (Z * nat) := (fun v => (v.1, length v.2)) <$> vs.

Lemma shape_fat vs vs' : shape vs' = shape vs -> fat_of <$> vs' = fat_of <$> vs.
Proof.
  intros Hs. assert (He : forall l, fat_of <$> l = (fun s : Z * nat => _tag_fat s.1 4 (Z.of_nat s.2)) <$> shape l).
  { intros l. unfold shape. rewrite <- list_fmap_compose. done. }
  by rewrite !He, Hs.
Qed.

Lemma shape_insert vs k v l : vs !! k = Some v -> length l = length v.2 -> shape (<[k := (v.1, l)]> vs) = shape vs.
Proof.
  intros Hk Hl. unfold shape. rewrite list_fmap_insert. cbn [fst snd]. rewrite Hl. apply list_insert_id.
  by rewrite list_lookup_fmap, Hk.
Qed.

Lemma shape_lookup vs vs' k v : shape vs' = shape vs -> vs !! k = Some v ->
  exists l, vs' !! k = Some (v.1, l) /\ length l = length v.2.
Proof.
  intros Hs Hk. assert (He : shape vs' !! k = Some (v.1, length v.2)).
  { rewrite Hs. unfold shape. by rewrite list_lookup_fmap, Hk. }
  unfold shape in He. rewrite list_lookup_fmap in He. destruct (vs' !! k) as [[a l]|]; [|done]. simpl in He.
  injection He as -> Hl. by exists l.
Qed.

Section vectors.
Context {H : Type} `{HH : Heap H} `{!HeapLaws H}.
Implicit Types (m : mem H) (w : gmap Z Z) (vs : list vec).

(** The memory [m], reached from one with words [w0] and vectors [vs0], has the
    vectors [vs] in their place; other words are as before. *)
Definition vec_state (R : gset Z) w0 vs0 m vs : Prop := exists w, at_words R w m /\ vecs_ok w vs /\
  shape vs = shape vs0 /\
  forall x, (forall v, v ∈ vs0 -> ~ in_vec v x) -> w !! x = w0 !! x.

Lemma vec_state_start R w m vs : at_words R w m -> vecs_ok w vs -> vec_state R w vs m vs.
Proof. intros. by exists w. Qed.

Lemma vec_state_ok R w0 vs0 m vs k v : vec_state R w0 vs0 m vs -> vs !! k = Some v -> exists w, vec_ok w v.
Proof. intros (w & _ & [Hv _] & _) Hk. eauto. Qed.

Lemma wp_get_int R w0 vs0 m vs k v i x (Q : Z -> mem H -> Prop) E : vec_state R w0 vs0 m vs ->
  vs !! k = Some v -> v.2 !! i = Some x -> Q x m -> wp (get_int (int_at (fat_of v) (Z.of_nat i))) Q E m.
Proof.
  intros (w & Hm & [Hv _] & _) Hk Hi HQ. pose proof (Hv _ _ Hk) as Hok.
  rewrite (int_at_fat w) by (done || by eapply lookup_lt_Some). unfold get_int. wps.
  eapply wp_load; [done|by apply (vo_words _ _ Hok)|]. wps. rewrite int_ok_i32; [done|].
  exact (Forall_lookup_1 _ _ _ _ (vo_ints _ _ Hok) Hi).
Qed.

Lemma wp_get_checked R w0 vs0 m vs k v i x line (Q : Z -> mem H -> Prop) E : vec_state R w0 vs0 m vs ->
  vs !! k = Some v -> v.2 !! i = Some x -> Q x m -> wp (get_checked (fat_of v) (Z.of_nat i) line) Q E m.
Proof.
  intros Hst Hk Hi HQ. pose proof Hst as (w & Hm & [Hv _] & _). pose proof (Hv _ _ Hk) as Hok.
  pose proof (lookup_lt_Some _ _ _ Hi) as Hlt. pose proof (vo_size _ _ Hok) as Hsz. unfold MAX_MALLOC_SIZE in Hsz.
  unfold get_checked. rewrite (checked_subscript w) by (done || lia).
  destruct (_ && _) eqn:E'; [|lia]. wps. rewrite <- (int_at_fat w) by done. by eapply wp_get_int.
Qed.

Lemma get_checked_throws R w0 vs0 m vs k v i line : vec_state R w0 vs0 m vs -> vs !! k = Some v ->
  -67108864 <= i < 67108864 -> ~ (0 <= i < Z.of_nat (length v.2)) ->
  get_checked (fat_of v) i line m = (Thrown Cyc_Array_bounds bitvec_cyc line, m).
Proof.
  intros (w & Hm & [Hv _] & _) Hk Hi Hn. unfold get_checked.
  rewrite (checked_subscript w) by (done || by eapply Hv). by destruct (_ && _) eqn:E; [lia|].
Qed.

Lemma wp_store_vec R w0 vs0 m vs k v i y (Q : unit -> mem H -> Prop) E : vec_state R w0 vs0 m vs ->
  vs !! k = Some v -> (i < length v.2)%nat -> int_ok y ->
  (forall m', vec_state R w0 vs0 m' (<[k := (v.1, <[i := y]> v.2)]> vs) -> Q tt m') ->
  wp (store_word (int_at (fat_of v) (Z.of_nat i)) y) Q E m.
Proof.
  intros (w & Hm & Hvs & Hs & Hf) Hk Hi Hy HQ. pose proof Hvs as [Hv _]. pose proof (Hv _ _ Hk) as Hok.
  rewrite (int_at_fat w) by done. destruct (lookup_lt_is_Some_2 _ _ Hi) as [x Hx].
  eapply wp_store; [done|rewrite (vo_words _ _ Hok i x Hx); by eexists|]. intros m' Hm'. apply HQ.
  eexists. split_and!; [exact Hm'|by apply vecs_store|by rewrite (shape_insert _ _ v) by (done || apply length_insert)|].
  intros a Ha. destruct (shape_lookup vs vs0 k v (eq_sym Hs) Hk) as (l & Hl & Hlen).
  rewrite lookup_insert_ne; [by apply Hf|]. apply list_elem_of_lookup_2 in Hl.
  intros <-. apply (Ha _ Hl). exists i. simpl. by rewrite Hlen.
Qed.

Lemma wp_for_words (n : nat) body (I : nat -> mem H -> Prop) (Q : unit -> mem H -> Prop) E m :
  Z.of_nat n < 2147483648 -> I 0%nat m ->
  (forall j m', (j < n)%nat -> I j m' -> wp (body (Z.of_nat j)) (fun _ => I (S j)) E m') ->
  (forall m', I n m' -> Q tt m') -> wp (for_words (Z.of_nat n) body) Q E m.
Proof.
  intros Hn H0 Hstep HQ. unfold for_words. rewrite Nat2Z.id.
  apply (wp_loop _ (fun k i m' => exists j, k = (n - j)%nat /\ i = Z.of_nat j /\ (j <= n)%nat /\ I j m')) with (k := n).
  - intros k i m1 (j & -> & -> & Hj & HI). rewrite u32_small by lia. destruct (_ <? _) eqn:E1.
    + wps. eapply wp_mono; [apply Hstep; [lia|done]| |done]. intros [] m2 HI2. wps. rewrite i32_small by lia.
      exists (n - S j)%nat. split; [lia|]. exists (S j). split_and!; [done|lia|lia|done].
    + wps. assert (j = n) as -> by lia. by apply HQ.
  - exists 0%nat. split_and!; [lia|done|lia|done].
  - lia.
Qed.

(** [take j new ++ drop j old]: the first [j] words have been written. *)
Definition mix (j : nat) (new old : list Z) : list Z := take j new ++ drop j old.

Lemma mix_lookup j new old i : (j <= length new)%nat ->
  mix j new old !! i = if decide (i < j)%nat then new !! i else old !! i.
Proof.
  intros Hj. unfold mix. case_decide.
  - rewrite lookup_app_l by (rewrite length_take; lia). by apply lookup_take_lt.
  - rewrite lookup_app_r by (rewrite length_take; lia). rewrite length_take, lookup_drop. f_equal. lia.
Qed.

Lemma mix_length j new old : length new = length old -> length (mix j new old) = length old.
Proof. intros. unfold mix. rewrite length_app, length_take, length_drop. lia. Qed.

Lemma mix_step j new old x : length new = length old -> new !! j = Some x ->
  <[j := x]> (mix j new old) = mix (S j) new old.
Proof.
  intros Hl Hx. pose proof (lookup_lt_Some _ _ _ Hx) as Hj. apply list_eq. intros i.
  rewrite list_lookup_insert, mix_length by done. rewrite !mix_lookup by lia.
  repeat case_decide; destruct_and?; subst; try done; lia || congruence.
Qed.

Lemma mix_all new old : length new = length old -> mix (length old) new old = new.
Proof. intros Hl. unfold mix. by rewrite <- Hl, firstn_all, Hl, drop_all, app_nil_r. Qed.

Lemma fat_of_len v l : length l = length v.2 -> fat_of (v.1, l) = fat_of v.
Proof. intros Hl. unfold fat_of. simpl. by rewrite Hl. Qed.

(** ** Whole vectors *)

Lemma vec_len R w0 vs0 m vs k v : vec_state R w0 vs0 m vs -> vs !! k = Some v ->
  _get_fat_size (fat_of v) 4 = Z.of_nat (length v.2) /\ Z.of_nat (length v.2) <= 67108864.
Proof.
  intros Hst Hk. destruct (vec_state_ok _ _ _ _ _ _ _ Hst Hk) as [w Hok]. split; [by eapply fat_of_size|].
  pose proof (vo_size _ _ Hok) as Hs. unfold MAX_MALLOC_SIZE in Hs. lia.
Qed.

(** A loop that writes [new] over the vector [k], word by word. *)
Lemma wp_overwrite R w0 vs0 m vs k v new body (Q : unit -> mem H -> Prop) E : vec_state R w0 vs0 m vs ->
  vs !! k = Some v -> length new = length v.2 -> Forall int_ok new ->
  (forall j m' y (K : unit -> mem H -> Prop), (j < length v.2)%nat -> new !! j = Some y ->
     vec_state R w0 vs0 m' (<[k := (v.1, mix j new v.2)]> vs) ->
     wp (store_word (int_at (fat_of v) (Z.of_nat j)) y) K E m' -> wp (body (Z.of_nat j)) K E m') ->
  (forall m', vec_state R w0 vs0 m' (<[k := (v.1, new)]> vs) -> Q tt m') ->
  wp (for_words (_get_fat_size (fat_of v) 4) body) Q E m.
Proof.
  intros Hst Hk Hl Hi Hbody HQ. destruct (vec_len _ _ _ _ _ _ _ Hst Hk) as [-> Hn].
  apply (wp_for_words (length v.2) body (fun j m' => vec_state R w0 vs0 m' (<[k := (v.1, mix j new v.2)]> vs))).
  - lia.
  - unfold mix. simpl. rewrite drop_0. destruct v as [a l]. simpl. by rewrite list_insert_id.
  - intros j m' Hj Hst'. destruct (lookup_lt_is_Some_2 new j ltac:(lia)) as [y Hy].
    apply (Hbody j m' y); [done|done|done|]. pose proof (lookup_lt_Some _ _ _ Hk) as Hlt.
    rewrite <- (fat_of_len v (mix j new v.2)) by (by apply mix_length).
    eapply (wp_store_vec _ _ _ _ _ k (v.1, mix j new v.2)); [done|by apply list_lookup_insert_eq|..].
    + simpl. by rewrite mix_length.
    + exact (Forall_lookup_1 _ _ _ _ Hi Hy).
    + intros m2. simpl. by rewrite list_insert_insert_eq, mix_step.
  - intros m'. rewrite mix_all by done. apply HQ.
Qed.

Lemma wp_fill_vec R w0 vs0 m vs k v y (Q : unit -> mem H -> Prop) E : vec_state R w0 vs0 m vs ->
  vs !! k = Some v -> int_ok y ->
  (forall m', vec_state R w0 vs0 m' (<[k := (v.1, replicate (length v.2) y)]> vs) -> Q tt m') ->
  wp (for_words (_get_fat_size (fat_of v) 4) (fun i => store_word (int_at (fat_of v) i) y)) Q E m.
Proof.
  intros Hst Hk Hy. apply (wp_overwrite R w0 vs0 m vs k v); [done|done|apply length_replicate|by apply Forall_replicate|].
  intros j m' y' K Hj Hy' _ Hw. by apply lookup_replicate_1 in Hy' as [-> _].
Qed.

(** The words that [combine_two op] stores. *)
Definition combined (op : Z -> Z -> Z) (n : nat) (l1 l2 : list Z) : list Z := zip_with op (take n l1) (take n l2).

Lemma combined_lookup op n l1 l2 i : (n <= length l1)%nat -> (n <= length l2)%nat -> (i < n)%nat ->
  exists x y, l1 !! i = Some x /\ l2 !! i = Some y /\ combined op n l1 l2 !! i = Some (op x y).
Proof.
  intros H1 H2 Hi. destruct (lookup_lt_is_Some_2 l1 i ltac:(lia)) as [x Hx], (lookup_lt_is_Some_2 l2 i ltac:(lia)) as [y Hy].
  exists x, y. split_and!; try done. unfold combined. rewrite lookup_zip_with, !lookup_take_lt by done. by rewrite Hx, Hy.
Qed.

Lemma combined_length op n l1 l2 : (n <= length l1)%nat -> (n <= length l2)%nat -> length (combined op n l1 l2) = n.
Proof. intros. unfold combined. rewrite length_zip_with, !length_take. lia. Qed.

(** The word [j] of a vector while the vector [d] is being overwritten from the
    left: it has not been written yet. *)
Lemma mix_source vs d vd new s v j : length new = length vd.2 -> (j < length vd.2)%nat -> vs !! d = Some vd ->
  vs !! s = Some v -> exists l, <[d := (vd.1, mix j new vd.2)]> vs !! s = Some (v.1, l) /\
    length l = length v.2 /\ l !! j = v.2 !! j.
Proof.
  intros Hl Hj Hd Hs. pose proof (lookup_lt_Some _ _ _ Hd) as Hlt. destruct (decide (s = d)) as [->|Hne].
  - rewrite Hd in Hs. injection Hs as ->. exists (mix j new v.2). rewrite list_lookup_insert_eq by done.
    split_and!; [done|by apply mix_length|]. rewrite mix_lookup by lia. case_decide; [lia|done].
  - exists v.2. rewrite list_lookup_insert_ne by done. by destruct v.
Qed.

Lemma combine_spec R w0 vs0 m vs d s t vd v1 v2 op (Q : unit -> mem H -> Prop) E : vec_state R w0 vs0 m vs ->
  vs !! d = Some vd -> vs !! s = Some v1 -> vs !! t = Some v2 ->
  (length vd.2 <= length v1.2)%nat -> (length vd.2 <= length v2.2)%nat ->
  (forall x y, int_ok x -> int_ok y -> int_ok (op x y)) ->
  (forall m', vec_state R w0 vs0 m' (<[d := (vd.1, combined op (length vd.2) v1.2 v2.2)]> vs) -> Q tt m') ->
  wp (combine_two op (fat_of vd) (fat_of v1) (fat_of v2)) Q E m.
Proof.
  intros Hst Hd Hs Ht H1 H2 Hop HQ. unfold combine_two.
  destruct (vec_len _ _ _ _ _ _ _ Hst Hs) as [-> _], (vec_len _ _ _ _ _ _ _ Hst Ht) as [-> _].
  destruct (vec_len _ _ _ _ _ _ _ Hst Hd) as [El _]. rewrite El. unfold cassert. destruct (_ && _) eqn:Ea; [|lia].
  wps. rewrite <- El.
  assert (Hints : forall k v, vs !! k = Some v -> Forall int_ok v.2).
  { intros k v Hk. destruct (vec_state_ok _ _ _ _ _ _ _ Hst Hk) as [w Hok]. exact (vo_ints _ _ Hok). }
  apply (wp_overwrite R w0 vs0 m vs d vd (combined op (length vd.2) v1.2 v2.2)); [done|done|by apply combined_length| | |done].
  - apply Forall_lookup_2. intros i z Hz. pose proof (lookup_lt_Some _ _ _ Hz) as Hlt. rewrite combined_length in Hlt by done.
    destruct (combined_lookup op _ _ _ i H1 H2 Hlt) as (x & y & Hx & Hy & E'). simplify_eq.
    apply Hop; [exact (Forall_lookup_1 _ _ _ _ (Hints _ _ Hs) Hx)|exact (Forall_lookup_1 _ _ _ _ (Hints _ _ Ht) Hy)].
  - intros j m' z K Hj Hz Hst' HK.
    destruct (combined_lookup op _ _ _ j H1 H2 Hj) as (x & y & Hx & Hy & E'). simplify_eq.
    assert (Hlen := combined_length op _ _ _ H1 H2).
    destruct (mix_source vs d vd _ s v1 j Hlen Hj Hd Hs) as (l1 & Hl1 & Hn1 & Hj1).
    destruct (mix_source vs d vd _ t v2 j Hlen Hj Hd Ht) as (l2 & Hl2 & Hn2 & Hj2).
    wps. rewrite <- (fat_of_len v1 l1 Hn1). eapply (wp_get_int _ _ _ _ _ s); [done|done|simpl; by rewrite Hj1|].
    wps. rewrite <- (fat_of_len v2 l2 Hn2). eapply (wp_get_int _ _ _ _ _ t); [done|done|simpl; by rewrite Hj2|]. done.
Qed.
End vectors.
