(* ===== verification/BitvecRefine.v ===== *)
(** * Bit vectors refine finite sets

    The specification: a vector is a number of words and a finite set of
    integers; an operation reads or changes one of several vectors, throws when
    a position is not in the vector, and ends the process when the sizes do not
    fit.  Programs of the library have exactly the outcomes of the specification. *)

From S2P Require Import Prelude Alloc FatPtr RwLock Region RegionSafety Words CycList ListCells WordMem CycListSpec ListConv CycDict CycBitvec BitvecSpec.

(** ** The specification *)

(** Operations on the vectors of a family, by their indices. *)
Inductive bop : Type :=
| BGet (k : nat) (pos : Z)
| BSet (k : nat) (pos : Z)
| BClear (k : nat) (pos : Z)
| BGetAndSet (k : nat) (pos : Z)
| BUnion (dest src1 src2 : nat)
| BIntersect (dest src1 src2 : nat)
| BDiff (dest src1 src2 : nat)
| BCompare (src1 src2 : nat)
| BClearAll (k : nat)
| BSetAll (k : nat)
| BAllSet (k : nat) (sz : Z).

(** A vector of [n] words holds a subset of [0, 32 n). *)
Abbreviation bset := (Z * gset Z)%type.
Abbreviation spec := (ST (list bset) (list bool)).

Definition below (n : Z) (X : gset Z) : gset Z := filter (fun i => i < 32 * n) X.
Definition full (n : Z) : gset Z := list_to_set (seqZ 0 (32 * n)).

Definition at_index {S T} (l : list T) (k : nat) (f : T -> ST S (list bool)) : ST S (list bool) :=
  match l !! k with Some v => f v | None => mret [] end.
Definition spec_at (k : nat) (f : bset -> spec) : spec := st ← get; at_index st k f.
Definition update (k : nat) (v : bset) : spec := modify (<[k := v]>);; mret [].

(** At a position of the vector, or the exception of the given line. *)
Definition at_pos (v : bset) (pos line : Z) (f : spec) : spec :=
  if (0 <=? pos) && (pos <? 32 * v.1) then f else lift (Thrown Cyc_Array_bounds bitvec_cyc line).

Definition spec_combine (op : gset Z -> gset Z -> gset Z) (d s t : nat) : spec :=
  spec_at d (fun vd => spec_at s (fun v1 => spec_at t (fun v2 =>
    if (vd.1 <=? v1.1) && (vd.1 <=? v2.1) then update d (vd.1, below vd.1 (op v1.2 v2.2))
    else lift (Exit "len <= numelts(src1) && len <= numelts(src2)")))).

(** [compare_two] of vectors with the same number of words is equality of the
    sets.  When the second vector is longer the code looks only at the positions
    that the first one has, where include/bitvec.h speaks of equality. *)
Definition spec_bop (op : bop) : spec :=
  match op with
  | BGet k pos => spec_at k (fun v => at_pos v pos 44 (mret [bool_decide (pos ∈ v.2)]))
  | BSet k pos => spec_at k (fun v => at_pos v pos 50 (update k (v.1, {[pos]} ∪ v.2)))
  | BClear k pos => spec_at k (fun v => at_pos v pos 56 (update k (v.1, v.2 ∖ {[pos]})))
  | BGetAndSet k pos => spec_at k (fun v => at_pos v pos 62
      (update k (v.1, {[pos]} ∪ v.2);; mret [bool_decide (pos ∈ v.2)]))
  | BUnion d s t => spec_combine union d s t
  | BIntersect d s t => spec_combine intersection d s t
  | BDiff d s t => spec_combine difference d s t
  | BCompare s t => spec_at s (fun v1 => spec_at t (fun v2 =>
      if v1.1 <=? v2.1 then mret [bool_decide (v1.2 = below v1.1 v2.2)] else lift (Exit "len <= numelts(src2)")))
  | BClearAll k => spec_at k (fun v => update k (v.1, ∅))
  | BSetAll k => spec_at k (fun v => update k (v.1, full v.1))
  | BAllSet k sz => spec_at k (fun v =>
      if (0 <=? sz) && (sz / 32 <? v.1) then mret [bool_decide (list_to_set (seqZ 0 sz) ⊆ v.2)]
      else lift (Exit "words < numelts(bvec)"))
  end.

Fixpoint spec_run (ops : list bop) : spec :=
  match ops with [] => mret [] | op :: ops => a ← spec_bop op; b ← spec_run ops; mret (a ++ b) end.

(** ** The programs *)

Section run.
Context {H : Type} `{Heap H} (bs : list fat_ptr).

Definition answer (c : ST (mem H) bool) : ST (mem H) (list bool) := b ← c; mret [b].
Definition silent (c : ST (mem H) unit) : ST (mem H) (list bool) := c;; mret [].

Definition run_bop (op : bop) : ST (mem H) (list bool) :=
  match op with
  | BGet k pos => at_index bs k (fun b => answer (Cyc_Bitvec_get b pos))
  | BSet k pos => at_index bs k (fun b => silent (Cyc_Bitvec_set b pos))
  | BClear k pos => at_index bs k (fun b => silent (Cyc_Bitvec_clear b pos))
  | BGetAndSet k pos => at_index bs k (fun b => answer (Cyc_Bitvec_get_and_set b pos))
  | BUnion d s t => at_index bs d (fun b => at_index bs s (fun b1 => at_index bs t (fun b2 =>
      silent (Cyc_Bitvec_union_two b b1 b2))))
  | BIntersect d s t => at_index bs d (fun b => at_index bs s (fun b1 => at_index bs t (fun b2 =>
      silent (Cyc_Bitvec_intersect_two b b1 b2))))
  | BDiff d s t => at_index bs d (fun b => at_index bs s (fun b1 => at_index bs t (fun b2 =>
      silent (Cyc_Bitvec_diff_two b b1 b2))))
  | BCompare s t => at_index bs s (fun b1 => at_index bs t (fun b2 => answer (Cyc_Bitvec_compare_two b1 b2)))
  | BClearAll k => at_index bs k (fun b => silent (Cyc_Bitvec_clear_all b))
  | BSetAll k => at_index bs k (fun b => silent (Cyc_Bitvec_set_all b))
  | BAllSet k sz => at_index bs k (fun b => answer (Cyc_Bitvec_all_set b sz))
  end.

Fixpoint run_bops (ops : list bop) : ST (mem H) (list bool) :=
  match ops with [] => mret [] | op :: ops => a ← run_bop op; b ← run_bops ops; mret (a ++ b) end.
End run.

(** Positions and sizes are values of type [int]. *)
Definition bop_ints (op : bop) : Prop :=
  match op with
  | BGet _ p | BSet _ p | BClear _ p | BGetAndSet _ p | BAllSet _ p => int_ok p
  | _ => True
  end.

(** ** Words and sets *)

Definition abs_vec (v : vec) : bset := (Z.of_nat (length v.2), bits_of v.2).

Lemma bits_of_set l k x o : l !! k = Some x -> 0 <= o < 32 ->
  bits_of (<[k := Z.lor x (bit_mask o)]> l) = {[32 * Z.of_nat k + o]} ∪ bits_of l.
Proof.
  intros Hk Ho. apply set_eq. intros i. rewrite (bits_of_insert l k x) by done.
  rewrite elem_of_union, elem_of_singleton, Z.lor_spec, bit_mask_testbit by words.
  destruct (decide (i / 32 = Z.of_nat k)) as [E|E].
  - pose proof (elem_of_bits_word l k x (i mod 32) Hk ltac:(words)) as Hi.
    replace (32 * Z.of_nat k + i mod 32) with i in Hi by words. rewrite Hi, orb_true_iff, Z.eqb_eq.
    split; [intros [[_ [?|<-]]|[? _]]; [tauto|left; words|done]|]. intros [->|?]; left; split; [done|right; words|done|tauto].
  - split; [tauto|]. intros [->|?]; [exfalso; words|tauto].
Qed.

Lemma bits_of_clear l k x o : l !! k = Some x -> 0 <= o < 32 ->
  bits_of (<[k := Z.land x (Z.lnot (bit_mask o))]> l) = bits_of l ∖ {[32 * Z.of_nat k + o]}.
Proof.
  intros Hk Ho. apply set_eq. intros i. rewrite (bits_of_insert l k x) by done.
  rewrite elem_of_difference, elem_of_singleton, Z.land_spec, Z.lnot_spec, bit_mask_testbit by words.
  destruct (decide (i / 32 = Z.of_nat k)) as [E|E].
  - pose proof (elem_of_bits_word l k x (i mod 32) Hk ltac:(words)) as Hi.
    replace (32 * Z.of_nat k + i mod 32) with i in Hi by words. rewrite Hi, andb_true_iff, negb_true_iff, Z.eqb_neq.
    split; [intros [[_ [? Hne]]|[? _]]; [|done]; split; [done|intros ->; apply Hne; words]|].
    intros [? Hne]. left. split_and!; [done|done|]. intros Ho'. apply Hne. words.
  - split; [intros [[? _]|[_ ?]]; [done|]; split; [done|intros ->; apply E; words]|tauto].
Qed.

(** An operation on words that acts on each bit. *)
Definition bitwise (op : Z -> Z -> Z) (f : bool -> bool -> bool) : Prop :=
  (forall x y, int_ok x -> int_ok y -> int_ok (op x y)) /\
  forall x y i, 0 <= i -> Z.testbit (op x y) i = f (Z.testbit x i) (Z.testbit y i).

Lemma bits_of_combined op f n l1 l2 i : bitwise op f -> (n <= length l1)%nat -> (n <= length l2)%nat ->
  i ∈ bits_of (combined op n l1 l2) <-> 0 <= i < 32 * Z.of_nat n /\ f (bit_at l1 i) (bit_at l2 i) = true.
Proof.
  intros [_ Hf] H1 H2. rewrite elem_of_bits, combined_length by done. 
  enough (0 <= i < 32 * Z.of_nat n -> bit_at (combined op n l1 l2) i = f (bit_at l1 i) (bit_at l2 i)) as He
    by (split; intros [Hi Hb]; (split; [done|]); [rewrite <- He|rewrite He]; done).
  intros Hi.
  destruct (combined_lookup op n l1 l2 (Z.to_nat (i / 32)) H1 H2 ltac:(words)) as (x & y & Hx & Hy & Hc).
  unfold bit_at. rewrite Hx, Hy, Hc. rewrite Hf by words. done.
Qed.

Lemma lor_bitwise : bitwise Z.lor orb.
Proof. split; [apply int_ok_lor|]. intros. apply Z.lor_spec. Qed.
Lemma land_bitwise : bitwise Z.land andb.
Proof. split; [apply int_ok_land|]. intros. apply Z.land_spec. Qed.
Lemma diff_bitwise : bitwise (fun a b => Z.land a (Z.lnot b)) (fun a b => a && negb b).
Proof.
  split; [intros x y Hx Hy; apply int_ok_land; [done|by apply int_ok_lnot]|].
  intros. by rewrite Z.land_spec, Z.lnot_spec.
Qed.

(** The set operation of a bitwise operation. *)
Definition setwise (f : bool -> bool -> bool) (F : gset Z -> gset Z -> gset Z) : Prop :=
  forall X Y i, i ∈ F X Y <-> f (bool_decide (i ∈ X)) (bool_decide (i ∈ Y)) = true.

Lemma union_setwise : setwise orb union.
Proof. intros X Y i. rewrite elem_of_union, orb_true_iff, !bool_decide_eq_true. done. Qed.
Lemma intersection_setwise : setwise andb intersection.
Proof. intros X Y i. rewrite elem_of_intersection, andb_true_iff, !bool_decide_eq_true. done. Qed.
Lemma difference_setwise : setwise (fun a b => a && negb b) difference.
Proof. intros X Y i. rewrite elem_of_difference, andb_true_iff, negb_true_iff, bool_decide_eq_true, bool_decide_eq_false. done. Qed.

Lemma bit_at_decide l i : 0 <= i -> bit_at l i = bool_decide (i ∈ bits_of l).
Proof.
  intros Hi. apply Bool.eq_iff_eq_true. rewrite bool_decide_eq_true, elem_of_bits. split; [|tauto].
  intros Hb. split; [|done]. split; [done|]. unfold bit_at in Hb.
  destruct (l !! Z.to_nat (i / 32)) as [x|] eqn:E; [|done]. apply lookup_lt_Some in E. words.
Qed.

Lemma bits_nonneg l i : i ∈ bits_of l -> 0 <= i.
Proof. rewrite elem_of_bits. lia. Qed.

Lemma combined_sets op f F n l1 l2 : bitwise op f -> setwise f F -> f false false = false ->
  (n <= length l1)%nat -> (n <= length l2)%nat ->
  bits_of (combined op n l1 l2) = below (Z.of_nat n) (F (bits_of l1) (bits_of l2)).
Proof.
  intros Hop HF Hff H1 H2. apply set_eq. intros i. rewrite (bits_of_combined op f) by done. unfold below.
  rewrite elem_of_filter, (HF _ _ i). destruct (decide (0 <= i)) as [Hi|Hi].
  - rewrite !bit_at_decide by done. tauto.
  - rewrite !bool_decide_eq_false_2 by (intros ?%bits_nonneg; lia). rewrite Hff. intuition (congruence || lia).
Qed.

Lemma bits_of_zero n : bits_of (replicate n 0) = ∅.
Proof.
  apply set_eq. intros i. split; [|by intros ?%not_elem_of_empty]. intros (k & x & o & -> & Ho & Hk & Hb)%bits_cases.
  apply lookup_replicate_1 in Hk as [-> _]. by rewrite Z.bits_0 in Hb.
Qed.

Lemma bits_of_ones n : bits_of (replicate n (-1)) = full (Z.of_nat n).
Proof.
  apply set_eq. intros i. unfold full. rewrite elem_of_list_to_set, elem_of_seqZ, Z.add_0_l. split.
  - rewrite elem_of_bits, length_replicate. tauto.
  - intros Hi. destruct (in_range_cases _ _ Hi) as (k & o & -> & Ho & Hk).
    apply (elem_of_bits_word _ k (-1)); [apply lookup_replicate_2; lia|done|]. apply Z.bits_m1. lia.
Qed.

Lemma bits_of_take n l : (n <= length l)%nat -> bits_of (take n l) = below (Z.of_nat n) (bits_of l).
Proof.
  intros Hn. apply set_eq. intros i. unfold below. rewrite elem_of_filter, !elem_of_bits, length_take. unfold bit_at.
  rewrite Nat.min_l by done. split.
  - intros [Hi Hb]. rewrite lookup_take_lt in Hb by words. split_and!; try done; lia.
  - intros (Hi & Hi' & Hb). rewrite lookup_take_lt by words. split; [lia|done].
Qed.

(** ** Operations refine their specification *)

Section refine.
Context {H : Type} `{HH : Heap H} `{!HeapLaws H} (R : gset Z) (w0 : gmap Z Z) (vs0 : list vec).
Implicit Types (m : mem H) (vs : list vec).
Abbreviation state := (vec_state R w0 vs0).

(** The code [c] has the outcome of [sp] and leads to vectors that represent
    the sets [sp] leads to. *)
Definition refines (c : ST (mem H) (list bool)) (sp : spec) (m : mem H) (vs : list vec) : Prop :=
  exists m' vs', c m = ((sp (abs_vec <$> vs)).1, m') /\ state m' vs' /\ abs_vec <$> vs' = (sp (abs_vec <$> vs)).2.

Lemma refines_wp c sp m vs :
  wp c (fun a m' => exists vs', state m' vs' /\ sp (abs_vec <$> vs) = (Ret a, abs_vec <$> vs')) (fun _ _ => False) m ->
  refines c sp m vs.
Proof. intros (a & m' & Hc & vs' & Hst & Hs)%wp_total. exists m', vs'. by rewrite Hs. Qed.

Lemma refines_at k f g m vs : state m vs ->
  (forall v, vs !! k = Some v -> refines (f (fat_of v)) (g (abs_vec v)) m vs) ->
  refines (at_index (fat_of <$> vs0) k f) (spec_at k g) m vs.
Proof.
  intros Hst Hk. pose proof Hst as (w & _ & _ & Hs & _). unfold refines, spec_at, at_index, mbind, st_bind, get.
  rewrite <- (shape_fat _ _ Hs), !list_lookup_fmap. destruct (vs !! k) as [v|] eqn:E; simpl.
  - by apply Hk.
  - by exists m, vs.
Qed.

Lemma refines_throw {A} (c : ST (mem H) A) (k : A -> ST (mem H) (list bool)) e f l m vs : state m vs ->
  c m = (Thrown e f l, m) -> refines (c ≫= k) (lift (Thrown e f l)) m vs.
Proof. intros Hst Hc. exists m, vs. unfold mbind, st_bind. by rewrite Hc. Qed.

(** The word and the offset of a position of the vector. *)
Lemma position_in (v : vec) pos : 0 <= pos < 32 * Z.of_nat (length v.2) ->
  exists i x, word_of pos = Z.of_nat i /\ v.2 !! i = Some x /\ 0 <= offset_of pos < 32 /\
    pos = 32 * Z.of_nat i + offset_of pos.
Proof.
  intros Hp. rewrite word_of_div, offset_of_mod.
  destruct (lookup_lt_is_Some_2 v.2 (Z.to_nat (pos / 32)) ltac:(words)) as [x Hx].
  exists (Z.to_nat (pos / 32)), x. split_and!; [words|done|words..].
Qed.

(** An operation that first reads the word of [pos]. *)
Lemma refines_pos {A} (body : Z -> ST (mem H) A) (K : A -> ST (mem H) (list bool)) f k v pos line m vs : state m vs ->
  vs !! k = Some v -> int_ok pos ->
  (forall i x, word_of pos = Z.of_nat i -> v.2 !! i = Some x -> 0 <= offset_of pos < 32 ->
     pos = 32 * Z.of_nat i + offset_of pos ->
     wp (body x ≫= K) (fun a m' => exists vs', state m' vs' /\ f (abs_vec <$> vs) = (Ret a, abs_vec <$> vs')) (fun _ _ => False) m) ->
  refines ((slot ← get_checked (fat_of v) (word_of pos) line; body slot) ≫= K) (at_pos (abs_vec v) pos line f) m vs.
Proof.
  intros Hst Hk Hp Hin. unfold at_pos. cbn [fst abs_vec]. destruct (_ && _) eqn:E.
  - destruct (position_in v pos ltac:(lia)) as (i & x & Hi & Hx & Ho & Hpos). apply refines_wp. rewrite Hi.
    apply wp_bind, wp_bind. eapply wp_get_checked; [done|done|done|].
    specialize (Hin i x Hi Hx Ho Hpos). by apply wp_bind_inv in Hin.
  - apply refines_throw; [done|]. unfold mbind at 1, st_bind at 1.
    rewrite (get_checked_throws R w0 vs0 m vs k v) by (done || (rewrite word_of_div; unfold int_ok in Hp; words)). done.
Qed.

Lemma abs_update vs k v l : vs !! k = Some v -> length l = length v.2 ->
  abs_vec <$> <[k := (v.1, l)]> vs = <[k := ((abs_vec v).1, bits_of l)]> (abs_vec <$> vs).
Proof.
  intros Hk Hl. rewrite list_fmap_insert.
  assert (abs_vec (v.1, l) = ((abs_vec v).1, bits_of l)) as ->; [|done]. unfold abs_vec. simpl. by rewrite Hl.
Qed.

Lemma vec_ints m vs k v i x : state m vs -> vs !! k = Some v -> v.2 !! i = Some x -> int_ok x.
Proof.
  intros Hst Hk Hx. destruct (vec_state_ok _ _ _ _ _ _ _ Hst Hk) as [w Hok].
  exact (Forall_lookup_1 _ _ _ _ (vo_ints _ _ Hok) Hx).
Qed.

Lemma bit_member v i x pos : v.2 !! i = Some x -> 0 <= offset_of pos < 32 -> pos = 32 * Z.of_nat i + offset_of pos ->
  bit_of x (offset_of pos) = bool_decide (pos ∈ (abs_vec v).2).
Proof.
  intros Hx Ho Hp. rewrite bit_of_testbit by lia. apply Bool.eq_iff_eq_true. rewrite bool_decide_eq_true.
  unfold abs_vec. cbn [snd]. rewrite Hp at 2. by rewrite (elem_of_bits_word _ _ x).
Qed.

Lemma get_refines k v pos m vs : state m vs -> vs !! k = Some v -> int_ok pos ->
  refines (answer (Cyc_Bitvec_get (fat_of v) pos))
    (at_pos (abs_vec v) pos 44 (mret [bool_decide (pos ∈ (abs_vec v).2)])) m vs.
Proof.
  intros Hst Hk Hp. eapply refines_pos; [done..|]. intros i x Hi Hx Ho Hpos. wps. exists vs. split; [done|].
  by rewrite (bit_member v i x pos).
Qed.

(** Setting or clearing a bit. *)
Lemma put_refines k v pos line g F m vs : state m vs -> vs !! k = Some v -> int_ok pos ->
  (forall x, int_ok x -> int_ok (g x)) ->
  (forall i x, v.2 !! i = Some x -> 0 <= offset_of pos < 32 -> pos = 32 * Z.of_nat i + offset_of pos ->
     bits_of (<[i := g x]> v.2) = F (bits_of v.2)) ->
  refines (silent (slot ← get_checked (fat_of v) (word_of pos) line; store_word (int_at (fat_of v) (word_of pos)) (g slot)))
    (at_pos (abs_vec v) pos line (update k ((abs_vec v).1, F (abs_vec v).2))) m vs.
Proof.
  intros Hst Hk Hp Hg HF. eapply refines_pos; [done..|]. intros i x Hi Hx Ho Hpos. wps. rewrite Hi.
  eapply wp_store_vec; [done|done|by eapply lookup_lt_Some|apply Hg; by eapply vec_ints|].
  intros m' Hst'. wps. eexists. split; [exact Hst'|]. rewrite abs_update by (done || apply length_insert).
  by rewrite (HF i x).
Qed.

Lemma set_refines k v pos m vs : state m vs -> vs !! k = Some v -> int_ok pos ->
  refines (silent (Cyc_Bitvec_set (fat_of v) pos))
    (at_pos (abs_vec v) pos 50 (update k ((abs_vec v).1, {[pos]} ∪ (abs_vec v).2))) m vs.
Proof.
  intros Hst Hk Hp. apply (put_refines k v pos 50 (fun x => Z.lor x (bit_mask (offset_of pos))) (fun X => {[pos]} ∪ X)); try done.
  - intros x Hx. apply int_ok_lor; [done|]. unfold bit_mask, int_ok. words.
  - intros i x Hx Ho Hpos. rewrite (bits_of_set _ _ x) by done. by rewrite <- Hpos.
Qed.

Lemma clear_refines k v pos m vs : state m vs -> vs !! k = Some v -> int_ok pos ->
  refines (silent (Cyc_Bitvec_clear (fat_of v) pos))
    (at_pos (abs_vec v) pos 56 (update k ((abs_vec v).1, (abs_vec v).2 ∖ {[pos]}))) m vs.
Proof.
  intros Hst Hk Hp.
  apply (put_refines k v pos 56 (fun x => Z.land x (Z.lnot (bit_mask (offset_of pos)))) (fun X => X ∖ {[pos]})); try done.
  - intros x Hx. apply int_ok_land; [done|]. apply int_ok_lnot. unfold bit_mask, int_ok. words.
  - intros i x Hx Ho Hpos. rewrite (bits_of_clear _ _ x) by done. by rewrite <- Hpos.
Qed.

Lemma get_and_set_refines k v pos m vs : state m vs -> vs !! k = Some v -> int_ok pos ->
  refines (answer (Cyc_Bitvec_get_and_set (fat_of v) pos))
    (at_pos (abs_vec v) pos 62
       (update k ((abs_vec v).1, {[pos]} ∪ (abs_vec v).2);; mret [bool_decide (pos ∈ (abs_vec v).2)])) m vs.
Proof.
  intros Hst Hk Hp. eapply refines_pos; [done..|]. intros i x Hi Hx Ho Hpos.
  rewrite (bit_member v i x pos) by done. wps. case_bool_decide as Hin.
  - wps. exists vs. split; [done|]. unfold update, modify, mbind, st_bind, mret, st_ret. f_equal.
    rewrite subseteq_union_1_L by set_solver. apply list_insert_id. by rewrite list_lookup_fmap, Hk.
  - rewrite Hi. eapply wp_store_vec; [done|done|by eapply lookup_lt_Some|..].
    + apply int_ok_lor; [by eapply vec_ints|unfold bit_mask, int_ok; words].
    + intros m' Hst'. wps. eexists. split; [exact Hst'|]. rewrite abs_update by (done || apply length_insert).
      rewrite (bits_of_set _ _ x) by done. by rewrite <- Hpos.
Qed.

Lemma combine_refines op f F d s t vd v1 v2 m vs : bitwise op f -> setwise f F -> f false false = false ->
  state m vs -> vs !! d = Some vd -> vs !! s = Some v1 -> vs !! t = Some v2 ->
  refines (silent (combine_two op (fat_of vd) (fat_of v1) (fat_of v2)))
    (if ((abs_vec vd).1 <=? (abs_vec v1).1) && ((abs_vec vd).1 <=? (abs_vec v2).1)
     then update d ((abs_vec vd).1, below (abs_vec vd).1 (F (abs_vec v1).2 (abs_vec v2).2))
     else lift (Exit "len <= numelts(src1) && len <= numelts(src2)")) m vs.
Proof.
  intros Hop HF Hff Hst Hd Hs Ht. cbn [fst snd abs_vec]. destruct (_ && _) eqn:E.
  - apply refines_wp. unfold silent. wps.
    eapply (combine_spec _ _ _ _ _ d s t); [done..|lia|lia|apply Hop|]. intros m' Hst'. wps.
    eexists. split; [exact Hst'|]. rewrite abs_update by (done || apply combined_length; lia).
    by rewrite (combined_sets op f F) by (done || lia).
  - exists m, vs. unfold silent, combine_two, mbind, st_bind, lift, cassert.
    destruct (vec_len _ _ _ _ _ _ _ Hst Hs) as [-> _], (vec_len _ _ _ _ _ _ _ Hst Ht) as [-> _],
      (vec_len _ _ _ _ _ _ _ Hst Hd) as [-> _]. by rewrite E.
Qed.

Lemma fill_refines k v y X m vs : state m vs -> vs !! k = Some v -> int_ok y ->
  bits_of (replicate (length v.2) y) = X ->
  refines (silent (for_words (_get_fat_size (fat_of v) 4) (fun i => store_word (int_at (fat_of v) i) y)))
    (update k ((abs_vec v).1, X)) m vs.
Proof.
  intros Hst Hk Hy <-. apply refines_wp. unfold silent. wps. eapply (wp_fill_vec _ _ _ _ _ k); [done..|].
  intros m' Hst'. wps. eexists. split; [exact Hst'|]. by rewrite abs_update by (done || apply length_replicate).
Qed.

Lemma compare_refines s t v1 v2 m vs : state m vs -> vs !! s = Some v1 -> vs !! t = Some v2 ->
  refines (answer (Cyc_Bitvec_compare_two (fat_of v1) (fat_of v2)))
    (if (abs_vec v1).1 <=? (abs_vec v2).1 then mret [bool_decide ((abs_vec v1).2 = below (abs_vec v1).1 (abs_vec v2).2)]
     else lift (Exit "len <= numelts(src2)")) m vs.
Proof.
  intros Hst Hs Ht. destruct (vec_len _ _ _ _ _ _ _ Hst Hs) as [E1 Hn], (vec_len _ _ _ _ _ _ _ Hst Ht) as [E2 _].
  cbn [fst snd abs_vec]. destruct (_ <=? _) eqn:E.
  2: { exists m, vs. unfold answer, Cyc_Bitvec_compare_two, mbind, st_bind, lift, cassert. by rewrite E1, E2, E. }
  apply refines_wp. unfold answer, Cyc_Bitvec_compare_two. rewrite E1, E2, E, Nat2Z.id. unfold cassert. wps.
  assert (Hdec : bool_decide (bits_of v1.2 = below (Z.of_nat (length v1.2)) (bits_of v2.2)) =
    bool_decide (v1.2 = take (length v1.2) v2.2)).
  { rewrite <- bits_of_take by lia. apply bool_decide_ext. split; [|congruence].
    assert (Hi : forall k v, vs !! k = Some v -> Forall int_ok v.2)
      by (intros k v Hk; apply Forall_lookup_2; intros; by eapply vec_ints).
    apply bits_of_inj; [rewrite length_take; lia|by eapply Hi|apply Forall_take; by eapply Hi]. }
  rewrite Hdec. clear Hdec. eapply wp_conseq with (Q := fun b m' => m' = m /\ b = bool_decide (v1.2 = take (length v1.2) v2.2)).
  2: { intros b m' (-> & ->). wps. by exists vs. }
  apply (wp_loop _ (fun k i m' => m' = m /\ exists j, k = (length v1.2 - j)%nat /\ i = Z.of_nat j /\ (j <= length v1.2)%nat /\
    take j v1.2 = take j v2.2)) with (k := length v1.2).
  - intros k i m' (-> & j & -> & -> & Hj & Hpre). rewrite u32_small by lia. destruct (_ <? _) eqn:Ej.
    + destruct (lookup_lt_is_Some_2 v1.2 j ltac:(lia)) as [x Hx], (lookup_lt_is_Some_2 v2.2 j ltac:(lia)) as [y Hy].
      wps. eapply wp_get_int; [done..|]. wps. eapply wp_get_int; [done..|]. wps. destruct (x =? y) eqn:Exy; wps.
      * rewrite i32_small by lia. exists (length v1.2 - S j)%nat. split; [lia|]. split; [done|]. exists (S j).
        split_and!; [done|lia|lia|]. rewrite (take_S_r _ _ _ Hx), (take_S_r _ _ _ Hy), Hpre. repeat f_equal. lia.
      * split; [done|]. symmetry. apply bool_decide_eq_false_2. intros Heq.
        assert (Hx' : take (length v1.2) v2.2 !! j = Some x) by (by rewrite <- Heq).
        rewrite lookup_take_lt in Hx' by lia. simplify_eq. lia.
    + wps. split; [done|]. assert (j = length v1.2) as -> by lia. rewrite firstn_all in Hpre.
      symmetry. by apply bool_decide_eq_true_2.
  - split; [done|]. exists 0%nat. split_and!; [lia|done|lia|done].
  - lia.
Qed.

Lemma wp_bit_get k v pos m vs (Q : bool -> mem H -> Prop) E : state m vs -> vs !! k = Some v ->
  0 <= pos < 32 * Z.of_nat (length v.2) -> Q (bool_decide (pos ∈ bits_of v.2)) m ->
  wp (Cyc_Bitvec_get (fat_of v) pos) Q E m.
Proof.
  intros Hst Hk Hp HQ. destruct (position_in v pos Hp) as (i & x & Hi & Hx & Ho & Hpos).
  unfold Cyc_Bitvec_get. rewrite Hi. wps. eapply wp_get_checked; [done..|]. wps.
  by rewrite (bit_member v i x pos).
Qed.

(** The bits below [n] are all set. *)
Abbreviation all_below n X := (forall i, 0 <= i < n -> i ∈ X).

Lemma subseteq_seqZ (n : Z) (X : gset Z) : list_to_set (seqZ 0 n) ⊆ X <-> all_below n X.
Proof.
  split.
  - intros Hs i Hi. apply Hs. rewrite elem_of_list_to_set, elem_of_seqZ. lia.
  - intros Ha i. rewrite elem_of_list_to_set, elem_of_seqZ. intros. apply Ha. lia.
Qed.

(** The first loop of [all_set], over whole words. *)
Lemma full_words_spec k v (n : nat) m vs E : state m vs -> vs !! k = Some v -> (n <= length v.2)%nat ->
  wp (loop (S n) (fun i =>
    if i <? Z.of_nat n then
      v ← get_checked (fat_of v) i 151;
      if v =? -1 then mret (inl (i32 (i + 1))) else mret (inr false)
    else mret (inr true)) 0)
    (fun b m' => m' = m /\ (b = true <-> all_below (32 * Z.of_nat n) (bits_of v.2))) E m.
Proof.
  intros Hst Hk Hn. destruct (vec_len _ _ _ _ _ _ _ Hst Hk) as [_ Hlen].
  apply (wp_loop _ (fun k i m' => m' = m /\ exists j, k = (n - j)%nat /\ i = Z.of_nat j /\ (j <= n)%nat /\
    all_below (32 * Z.of_nat j) (bits_of v.2))) with (k := n).
  - intros k' i m' (-> & j & -> & -> & Hj & Hpre). destruct (_ <? _) eqn:Ej.
    + destruct (lookup_lt_is_Some_2 v.2 j ltac:(lia)) as [x Hx]. wps. eapply wp_get_checked; [done..|]. wps.
      destruct (x =? -1) eqn:Ex; wps.
      * rewrite i32_small by lia. exists (n - S j)%nat. split; [lia|]. split; [done|]. exists (S j).
        split_and!; [done|lia|lia|]. intros i Hi. destruct (decide (i < 32 * Z.of_nat j)); [apply Hpre; lia|].
        replace i with (32 * Z.of_nat j + (i - 32 * Z.of_nat j)) by lia. apply (elem_of_bits_word _ _ x); [done|lia|].
        replace x with (-1) by lia. apply Z.bits_m1. lia.
      * split; [done|]. split; [done|]. intros Ha. exfalso. assert (x = -1); [|lia].
        apply int_bits_inj; [by eapply vec_ints|done|]. intros o Ho. rewrite Z.bits_m1 by lia.
        apply (elem_of_bits_word v.2 j); [done|done|]. apply Ha. lia.
    + wps. split; [done|]. assert (j = n) as -> by lia. done.
  - split; [done|]. exists 0%nat. split_and!; [lia|done|lia|lia].
  - lia.
Qed.

Lemma all_set_refines k v sz m vs : state m vs -> vs !! k = Some v -> int_ok sz ->
  refines (answer (Cyc_Bitvec_all_set (fat_of v) sz))
    (if (0 <=? sz) && (sz / 32 <? (abs_vec v).1) then mret [bool_decide (list_to_set (seqZ 0 sz) ⊆ (abs_vec v).2)]
     else lift (Exit "words < numelts(bvec)")) m vs.
Proof.
  intros Hst Hk Hsz. destruct (vec_len _ _ _ _ _ _ _ Hst Hk) as [E1 Hn]. cbn [fst snd abs_vec].
  unfold Cyc_Bitvec_all_set. rewrite Z.shiftr_div_pow2 by lia. change (2 ^ 5) with 32. rewrite E1.
  assert (Hguard : (u32 (sz / 32) <? Z.of_nat (length v.2)) = (0 <=? sz) && (sz / 32 <? Z.of_nat (length v.2)))
    by (unfold int_ok in Hsz; destruct (0 <=? sz) eqn:E0; simpl; words).
  rewrite Hguard. destruct (_ && _) eqn:Eg.
  2: { exists m, vs. by unfold answer, mbind, st_bind, lift, cassert. }
  clear Hguard. apply refines_wp. unfold answer. set (n := Z.to_nat (sz / 32)).
  assert (En : sz / 32 = Z.of_nat n) by (unfold n; words). rewrite En. unfold cassert. wps.
  eapply wp_conseq; [eapply full_words_spec; [done|done|lia]|]. intros full m' [-> Hfull].
  eapply wp_conseq with (Q := fun b m' => m' = m /\ (b = true <-> all_below sz (bits_of v.2))).
  2: { intros b m' [-> Hb]. wps. exists vs. split; [done|]. unfold mret, st_ret. do 3 f_equal. symmetry.
       apply Bool.eq_iff_eq_true. rewrite bool_decide_eq_true, subseteq_seqZ. done. }
  destruct full; cycle 1.
  { wps. split; [done|]. split; [done|]. intros Ha. apply Hfull. intros i Hi. apply Ha. words. }
  assert (Hpre : all_below (32 * Z.of_nat n) (bits_of v.2)) by (by apply Hfull).
  rewrite i32_small by words.
  apply (wp_loop _ (fun k' i m' => m' = m /\ k' = Z.to_nat (sz - i) /\ 0 <= i <= sz /\ all_below i (bits_of v.2))) with (k := Z.to_nat (sz - 32 * Z.of_nat n)).
  - intros k' i m' (-> & -> & Hi & Ha). destruct (i <? sz) eqn:Ei; wps.
    + eapply wp_bit_get; [done|done|words|]. case_bool_decide as Hin; wps.
      * unfold int_ok in Hsz. rewrite i32_small by lia. exists (Z.to_nat (sz - (i + 1))). split; [lia|]. split_and!; [done|done|lia..|].
        intros j Hj. destruct (decide (j = i)) as [->|]; [done|apply Ha; lia].
      * split; [done|]. split; [done|]. intros Hall. exfalso. apply Hin, Hall. lia.
    + split; [done|]. split; [|done]. intros _. replace sz with i by lia. done.
  - replace (32 * Z.of_nat n) with (Z.of_nat n * 32) in * by lia. split_and!; [done|done|words..|done].
  - words.
Qed.

Lemma bop_refines op m vs : state m vs -> bop_ints op -> refines (run_bop (fat_of <$> vs0) op) (spec_bop op) m vs.
Proof.
  intros Hst Hi. destruct op; simpl in Hi; cbn [run_bop spec_bop]; unfold spec_combine;
    repeat (apply refines_at; [done|intros ? ?]).
  - by eapply get_refines.
  - by eapply set_refines.
  - by eapply clear_refines.
  - by eapply get_and_set_refines.
  - by eapply (combine_refines Z.lor orb); [apply lor_bitwise|apply union_setwise|..].
  - by eapply (combine_refines Z.land andb); [apply land_bitwise|apply intersection_setwise|..].
  - by eapply (combine_refines _ (fun a b => a && negb b)); [apply diff_bitwise|apply difference_setwise|..].
  - by eapply compare_refines.
  - eapply fill_refines; [done|done|unfold int_ok; lia|apply bits_of_zero].
  - eapply fill_refines; [done|done|unfold int_ok; lia|apply bits_of_ones].
  - by eapply all_set_refines.
Qed.

Lemma bops_refine ops m vs : state m vs -> Forall bop_ints ops -> refines (run_bops (fat_of <$> vs0) ops) (spec_run ops) m vs.
Proof.
  intros Hst Hi. revert m vs Hst. induction Hi as [|op ops Hop _ IH]; intros m vs Hst.
  { by exists m, vs. }
  destruct (bop_refines op m vs Hst Hop) as (m1 & vs1 & Hc & Hst1 & Ha). unfold refines.
  cbn [run_bops spec_run]. unfold mbind at 1 3, st_bind at 1 3. rewrite Hc. clear Hc.
  unfold mbind at 3, st_bind at 3.
  destruct (spec_bop op (abs_vec <$> vs)) as [[a| | | |] st1]; simpl in Ha |- *; subst st1; try by exists m1, vs1.
  destruct (IH m1 vs1 Hst1) as (m2 & vs2 & Hc & Hst2 & Ha2). exists m2, vs2. unfold mbind, st_bind. rewrite Hc. clear Hc.
  destruct (spec_run ops (abs_vec <$> vs1)) as [[b| | | |] st2]; simpl in Ha2 |- *; by subst st2.
Qed.
End refine.

(** C22. Bit vectors refine finite sets: a program of single-bit operations,
    unions, intersections, differences, comparisons and fills on any number of
    vectors has exactly the outcome of the same program on finite sets, with the
    vectors used as sources and destinations in any combination.  Comparing two
    vectors of one length answers whether their sets are equal; comparing one with
    a longer one ignores the positions beyond the first, so that the answer is
    true for sets that differ there ([compare_ignores_longer]), although
    include/bitvec.h says that it is true only for equal vectors.  Where the
    specification throws [Array_bounds] or fails an assertion, so does the code;
    in the end the vectors hold the sets of the specification and no other word
    has changed. *)
Theorem bitvec_programs_refine {H : Type} `{HH : Heap H} `{!HeapLaws H} ops R w (m : mem H) vs :
  at_words R w m -> vecs_ok w vs -> Forall bop_ints ops ->
  exists m' vs', run_bops (fat_of <$> vs) ops m = ((spec_run ops (abs_vec <$> vs)).1, m') /\
    vec_state R w vs m' vs' /\ abs_vec <$> vs' = (spec_run ops (abs_vec <$> vs)).2.
Proof. intros Hm Hv. apply bops_refine. by apply vec_state_start. Qed.
