(* ===== verification/BitvecAlloc.v ===== *)
(** * New bit vectors and their lists

    Allocation of vectors, the vector [new_copy] makes, and the list of the
    elements of a vector. *)

From S2P Require Import Prelude Alloc FatPtr RwLock Region RegionSafety Words CycList ListCells WordMem CycListSpec ListConv CycDict CycBitvec BitvecSpec BitvecRefine.

Section alloc.
Context {H : Type} `{HH : Heap H} `{!HeapLaws H}.
Implicit Types (m : mem H) (w : gmap Z Z) (vs : list vec).

Lemma vec_ok_mono w w' v : w ⊆ w' -> vec_ok w v -> vec_ok w' v.
Proof. intros Hw [Ha ? ? ? ?]. split; try done. intros i x Hx. eapply lookup_weaken; [by apply Ha|done]. Qed.

(** The memory has grown, and a new vector [v] is the last of the family. *)
Definition added (R : gset Z) w vs (l : list Z) (b : fat_ptr) m : Prop := exists a w', b = fat_of (a, l) /\
  at_words R w' m /\ w ⊆ w' /\ vecs_ok w' (vs ++ [(a, l)]) /\ forall x, in_vec (a, l) x -> w !! x = None.

Lemma new_vec_ok w w' vs a l : vecs_ok w vs -> w ⊆ w' -> fresh_words a (length l) w -> array_at w' a l ->
  Forall int_ok l -> 4 * Z.of_nat (length l) <= MAX_MALLOC_SIZE -> vecs_ok w' (vs ++ [(a, l)]).
Proof.
  intros [Hv Hd] Hw Hf Ha Hi Hs. pose proof Hf as (Hp & _ & Hb & Hfr).
  assert (Hnew : forall k u x, vs !! k = Some u -> ~ (in_vec u x /\ in_vec (a, l) x)).
  { intros k u x Hu [(i & Hlt & ->) (j & Hj & E)]. simpl in *.
    destruct (lookup_lt_is_Some_2 _ _ Hlt) as [y Hy]. pose proof (vo_words _ _ (Hv _ _ Hu) i y Hy) as Hin.
    destruct (Hfr (u.1 + 4 * Z.of_nat i)) as [?|?]; [by rewrite Hin; eexists|lia|lia]. }
  split.
  - intros k v Hk. apply lookup_snoc_Some in Hk as [[_ Hk]|[_ <-]]; [by eapply vec_ok_mono, Hv|]. by split.
  - intros j k u v Hne Hu Hk x. apply lookup_snoc_Some in Hu as [[_ Hu]|[-> <-]], Hk as [[_ Hk]|[-> <-]]; [by eapply Hd|by eapply Hnew| |done].
    intros [? ?]. by eapply (Hnew k v x).
Qed.

Lemma new_ints_spec R w vs (n : nat) v line m : at_words R w m -> vecs_ok w vs -> int_ok v -> Z.of_nat n < 4294967296 ->
  wp (new_ints (Z.of_nat n) v line) (added R w vs (replicate n v)) (oom R w) m.
Proof.
  intros Hm Hv Hi Hn. unfold new_ints, _check_times. apply wp_bind. destruct (_ || _) eqn:Ec.
  { apply (wp_thrown Cyc_Bad_alloc). by eapply oom_now. }
  pose proof (u32_range (Z.of_nat n * 4)) as Hr. apply orb_false_iff in Ec as [E1 E2].
  assert (Hsz : 4 * Z.of_nat n <= MAX_MALLOC_SIZE) by (unfold MAX_MALLOC_SIZE in *; words).
  wps. rewrite Nat2Z.id. eapply wp_cycalloc_atomic; [done|done| |intros; by eapply oom_now].
  intros a m1 Hm1 Hf. wps. assert (Hl : length (replicate n v) = n) by apply length_replicate.
  rewrite <- Hl in Hm1, Hf |- * at 1. eapply (wp_fill_array R w a (replicate n v)); [done|done| |].
  - intros i u Hu. by apply lookup_replicate_1 in Hu as [-> _].
  - intros w' m' Hm' Hw Har. wps. exists a, w'. unfold fat_of. simpl. rewrite Hl. split_and!; [done..| |].
    + eapply new_vec_ok; [done..| |by rewrite Hl]. by apply Forall_replicate.
    + intros x (i & Hlt & ->). simpl in Hlt |- *. eapply fresh_absent; [done|lia..].
Qed.

(** [new_empty(sz)] has room for [sz] bits, none of them set. *)
Lemma new_empty_spec R w vs sz m : at_words R w m -> vecs_ok w vs -> 0 <= sz < 2147483648 ->
  wp (Cyc_Bitvec_new_empty sz) (added R w vs (replicate (Z.to_nat (sz / 32 + 1)) 0)) (oom R w) m.
Proof.
  intros Hm Hv Hs. unfold Cyc_Bitvec_new_empty. rewrite Z.quot_div_nonneg, u32_small by words.
  rewrite <- (Z2Nat.id (sz / 32 + 1)) at 1 by words. apply new_ints_spec; [done|done|unfold int_ok; lia|words].
Qed.

(** [new_copy] copies only a prefix: the copy of a vector of [n] words has
    [n/32 + 1] words, because [new_empty] is asked for [n] bits; it holds the
    elements of the original below [32 * (n/32 + 1)] and has no room for the
    others.  Nothing else in memory changes. *)
Theorem new_copy_prefix R w v m : at_words R w m -> vec_ok w v -> v.2 <> [] ->
  wp (Cyc_Bitvec_new_copy (fat_of v))
    (fun b m' => exists l, added R w [v] l b m' /\ length l = (length v.2 / 32 + 1)%nat /\
       bits_of l = below (Z.of_nat (length v.2 / 32 + 1)) (bits_of v.2)) (oom R w) m.
Proof.
  intros Hm Hv Hne. assert (Hvs : vecs_ok w [v]).
  { split; [intros k u Hk; destruct k; [by injection Hk as <-|done]|].
    intros j k u u' Hjk Hj Hk. apply list_lookup_singleton_Some in Hj as [-> _], Hk as [-> _]. done. }
  pose proof (vo_size _ _ Hv) as Hs. unfold MAX_MALLOC_SIZE in Hs.
  assert (Hpos : (0 < length v.2)%nat) by (destruct v.2; [done|simpl; lia]).
  unfold Cyc_Bitvec_new_copy. rewrite (fat_of_size w v Hv), i32_small by lia. wps.
  eapply wp_mono; [apply (new_empty_spec R w [v]); [done|done|lia]| |done].
  set (n := Z.to_nat (Z.of_nat (length v.2) / 32 + 1)). assert (Hn : n = (length v.2 / 32 + 1)%nat).
  { unfold n. rewrite Z2Nat.inj_add by (apply Z.div_pos || lia; lia). f_equal.
    rewrite <- (Nat2Z.id (length v.2 / 32)). by rewrite Nat2Z.inj_div. }
  assert (Hle : (n <= length v.2)%nat) by (unfold n; words).
  intros b m1 (a & w1 & -> & Hm1 & Hw1 & Hv1 & Hfresh). wps. unfold Cyc_Bitvec_union_two.
  eapply (combine_spec R w1 ([v] ++ [(a, replicate n 0)]) m1 _ 1 1 0 _ _ v Z.lor);
    [by apply vec_state_start|done|done|done|done|simpl; rewrite length_replicate; done|apply int_ok_lor|].
  intros m2 (w2 & Hm2 & Hv2 & _ & Hf). wps. simpl in Hv2. rewrite length_replicate in Hv2.
  set (l := combined Z.lor n (replicate n 0) v.2) in *.
  assert (Hl : length l = n) by (apply combined_length; [by rewrite length_replicate|done]).
  assert (Hin : forall x, in_vec (a, l) x <-> in_vec (a, replicate n 0) x)
    by (intros x; unfold in_vec; simpl; by rewrite Hl, length_replicate).
  exists l. split_and!; [|by rewrite Hl|].
  - exists a, w2. split_and!; [unfold fat_of; simpl; by rewrite Hl, length_replicate|done| |done|by intros x Hx%Hin; apply Hfresh].
    apply map_subseteq_spec. intros x y Hx. destruct (decide (in_vec v x)) as [(i & Hi & ->)|Hout].
    { destruct (lookup_lt_is_Some_2 _ _ Hi) as [z Hz]. pose proof (vo_words _ _ Hv i z Hz) as Hz'.
      destruct Hv2 as [Hv2 _]. pose proof (vo_words _ _ (Hv2 0%nat v eq_refl) i z Hz). congruence. }
    rewrite Hf; [by eapply lookup_weaken|]. intros u Hu Hux. apply elem_of_app in Hu as [->%list_elem_of_singleton| ->%list_elem_of_singleton]; [done|].
    rewrite (Hfresh x Hux) in Hx. done.
  - unfold l. rewrite (combined_sets Z.lor orb union), bits_of_zero, union_empty_l_L by (apply lor_bitwise || apply union_setwise || done || by rewrite length_replicate).
    by rewrite Hn.
Qed.

Lemma vecs_ok_one w v : vec_ok w v -> vecs_ok w [v].
Proof.
  intros Hv. split; [intros k u Hk; by apply list_lookup_singleton_Some in Hk as [_ <-]|].
  intros j k u u' Hjk Hj Hk. by apply list_lookup_singleton_Some in Hj as [-> _], Hk as [-> _].
Qed.

(** ** The elements in order *)

(** The elements of [X] from [lo] to [hi - 1], in ascending order. *)
Definition members (X : gset Z) (lo hi : Z) : list Z := filter (fun i => i ∈ X) (seqZ lo (hi - lo)).

Lemma members_step X lo hi : lo < hi ->
  members X lo hi = (if bool_decide (lo ∈ X) then [lo] else []) ++ members X (lo + 1) hi.
Proof.
  intros Hlt. unfold members. rewrite (seqZ_cons lo) by lia. rewrite filter_cons.
  replace (Z.pred (hi - lo)) with (hi - (lo + 1)) by lia. change (Z.succ lo) with (lo + 1).
  case_bool_decide; case_decide; done.
Qed.

Lemma members_nil X n : members X n n = [].
Proof. unfold members. by rewrite Z.sub_diag. Qed.

(** The bits of the word [k], from bit [32 k + o] down. *)
Lemma word_to_list_spec R w v k x o sz ans m : vec_ok w v -> v.2 !! k = Some x -> -1 <= o < 32 ->
  32 * Z.of_nat k + o < sz -> at_words R w m -> list_at w ans (members (bits_of v.2) (32 * Z.of_nat k + o + 1) sz) ->
  wp (word_to_list x o (32 * Z.of_nat k + o) ans) (fun r m' => r.1 = 32 * Z.of_nat k - 1 /\ exists w', at_words R w' m' /\
     w ⊆ w' /\ list_at w' r.2 (members (bits_of v.2) (32 * Z.of_nat k) sz)) (oom R w) m.
Proof.
  intros Hv Hk Ho Hsz Hm Hl. unfold word_to_list.
  apply (wp_loop _ (fun j '(o, pos, ans) m' => j = Z.to_nat (o + 1) /\ -1 <= o < 32 /\ pos = 32 * Z.of_nat k + o /\
    pos < sz /\ exists w', at_words R w' m' /\ w ⊆ w' /\ list_at w' ans (members (bits_of v.2) (pos + 1) sz))) with (k := Z.to_nat (o + 1)).
  - clear o ans Ho Hsz Hl Hm. intros j [[o pos] ans] m1 (-> & Ho & -> & Hsz & w1 & Hm1 & Hw1 & Hl1).
    destruct (0 <=? o) eqn:E; cycle 1.
    { wps. assert (o = -1) as -> by lia. simpl. split; [lia|]. exists w1. split_and!; try done.
      by replace (32 * Z.of_nat k + -1 + 1) with (32 * Z.of_nat k) in Hl1 by lia. }
    assert (Hbit : bit_of x o = bool_decide (32 * Z.of_nat k + o ∈ bits_of v.2)).
    { rewrite bit_of_testbit by lia. apply Bool.eq_iff_eq_true.
      by rewrite bool_decide_eq_true, (elem_of_bits_word _ _ x) by (done || lia). }
    pose proof (members_step (bits_of v.2) (32 * Z.of_nat k + o) sz Hsz) as Hstep. rewrite <- Hbit in Hstep.
    wps. destruct (bit_of x o).
    + unfold _check_times. simpl. wps. eapply wp_cycalloc; [done|unfold MAX_MALLOC_SIZE; lia| |intros; by eapply oom_now].
      intros p m2 Hm2 Hf. wps. eapply wp_fill_cell; [exact Hf|done|done|]. intros m3 Hm3. wps.
      destruct (new_cell_cell p (32 * Z.of_nat k + o) ans _ _ Hf (zero_words_sub _ _ _ Hf)) as [Hc Hw3].
      exists (Z.to_nat (o - 1 + 1)). split; [lia|]. split_and!; [done|lia..|]. eexists. split_and!; [exact Hm3|by etrans|].
      replace (32 * Z.of_nat k + o - 1 + 1) with (32 * Z.of_nat k + o) by lia. rewrite Hstep.
      eapply list_at_cons; [exact Hc|]. by eapply list_at_mono.
    + wps. exists (Z.to_nat (o - 1 + 1)). split; [lia|]. split_and!; [done|lia..|]. exists w1. split_and!; [done..|].
      replace (32 * Z.of_nat k + o - 1 + 1) with (32 * Z.of_nat k + o) by lia. by rewrite Hstep.
  - split_and!; [done|lia..|]. by exists w.
  - lia.
Qed.

(** [to_sorted_list] gives exactly the elements of the vector below [sz], in
    ascending order, as a list, and keeps the words there were; without memory
    left it throws [Cyc_Bad_alloc]. *)
Theorem to_sorted_list_exact R w v sz m : at_words R w m -> vec_ok w v -> 0 <= sz <= 32 * Z.of_nat (length v.2) ->
  sz < 2147483648 ->
  wp (Cyc_Bitvec_to_sorted_list (fat_of v) sz)
    (fun y m' => exists w', at_words R w' m' /\ w ⊆ w' /\ list_at w' y (members (bits_of v.2) 0 sz)) (oom R w) m.
Proof.
  intros Hm Hv Hsz Hi. unfold Cyc_Bitvec_to_sorted_list. rewrite i32_small by lia.
  apply (wp_loop _ (fun j '(pos, ans) m' => j = Z.to_nat (pos + 1) /\ -1 <= pos < sz /\ exists w', at_words R w' m' /\ w ⊆ w' /\
    list_at w' ans (members (bits_of v.2) (pos + 1) sz))) with (k := Z.to_nat sz).
  - intros j [pos ans] m1 (-> & Hp & w1 & Hm1 & Hw1 & Hl1). destruct (0 <=? pos) eqn:E; cycle 1.
    { wps. assert (pos = -1) as -> by lia. by exists w1. }
    pose proof (vec_ok_mono _ _ _ Hw1 Hv) as Hv1.
    destruct (position_in v pos ltac:(lia)) as (i & x & Hi' & Hx & Ho & Hpos). rewrite Hi'. wps.
    eapply (wp_get_checked R w1 [v] m1 [v] 0); [by apply vec_state_start, vecs_ok_one|done|done|]. wps.
    pose proof (word_to_list_spec R w1 v i x (offset_of pos) sz ans m1 Hv1 Hx ltac:(lia)) as Hword.
    rewrite <- Hpos in Hword. eapply wp_mono; [apply Hword; [lia|done|done]|..].
    + intros [pos' ans'] m2 (Ep & w2 & Hm2 & Hw2 & Hl2). simpl in Ep, Hl2. wps. subst pos'.
      exists (Z.to_nat (32 * Z.of_nat i - 1 + 1)). split; [lia|]. split_and!; [done|lia..|]. exists w2.
      split_and!; [done|by etrans|]. by replace (32 * Z.of_nat i - 1 + 1) with (32 * Z.of_nat i) by lia.
    + intros e m2. by apply oom_mono.
  - split; [f_equal; lia|]. split; [lia|]. exists w. split_and!; [done..|]. replace (sz - 1 + 1) with sz by lia.
    rewrite members_nil. apply list_at_nil_0.
  - lia.
Qed.
End alloc.

(** ** Concrete vectors *)

(** A vector for 70 bits with the elements 3, 40 and 69, and one with 5 and 40. *)
Definition ex_vecs : ST (mem bump) (fat_ptr * fat_ptr) :=
  a ← Cyc_Bitvec_new_empty 70; b ← Cyc_Bitvec_new_empty 70; mret (a, b).
Definition ex_vec_a : fat_ptr := match (ex_vecs ex_mem).1 with Ret r => r.1 | _ => mk_fat 0 0 0 end.
Definition ex_vec_b : fat_ptr := match (ex_vecs ex_mem).1 with Ret r => r.2 | _ => mk_fat 0 0 0 end.
Definition ex_vec_mem : mem bump := (ex_vecs ex_mem).2.

Lemma ex_vecs_ok : exists w a b, at_words {[1000]} w ex_vec_mem /\ vecs_ok w [(a, [0; 0; 0]); (b, [0; 0; 0])] /\
  ex_vec_a = fat_of (a, [0; 0; 0]) /\ ex_vec_b = fat_of (b, [0; 0; 0]).
Proof.
  assert (Hwp : wp ex_vecs (fun r m' => exists w a b, at_words {[1000]} w m' /\
    vecs_ok w [(a, [0; 0; 0]); (b, [0; 0; 0])] /\ r.1 = fat_of (a, [0; 0; 0]) /\ r.2 = fat_of (b, [0; 0; 0]))
    (fun _ _ => True) ex_mem).
  { unfold ex_vecs. wps. assert (H0 : vecs_ok ∅ []) by (split; done).
    eapply wp_mono; [apply (new_empty_spec {[1000]} ∅ []); [apply ex_mem_words|done|lia]| |done].
    intros b1 m1 (a & w1 & -> & Hm1 & _ & Hv1 & _). wps.
    eapply wp_mono; [eapply (new_empty_spec {[1000]} w1); [done|exact Hv1|lia]| |done].
    intros b2 m2 (b & w2 & -> & Hm2 & _ & Hv2 & _). wps. by exists w2, a, b. }
  refine (wp_result _ _ _ _ (ex_vec_a, ex_vec_b) ex_vec_mem Hwp _). vm_compute. reflexivity.
Qed.

Definition ex_bops : list bop :=
  [BSet 0 3; BSet 0 40; BSet 0 69; BSet 1 5; BSet 1 40; BGet 0 40; BUnion 1 0 1; BGet 1 69; BIntersect 0 0 1;
   BCompare 0 1; BClear 0 3; BGet 0 3; BGetAndSet 0 3; BSetAll 1; BAllSet 1 70].

(** The answers of the program, and the exception of a position that is not in
    the vector. *)
Lemma bitvec_programs_refine_witness : exists m1 m2,
  run_bops [ex_vec_a; ex_vec_b] ex_bops ex_vec_mem = (Ret [true; true; false; false; false; true], m1) /\
  run_bops [ex_vec_a; ex_vec_b] [BSet 0 3; BGet 0 96] ex_vec_mem = (Thrown Cyc_Array_bounds bitvec_cyc 44, m2).
Proof.
  destruct ex_vecs_ok as (w & a & b & Hm & Hv & -> & ->).
  set (vs := [(a, [0; 0; 0]); (b, [0; 0; 0])]) in *.
  assert (Ha : abs_vec <$> vs = [(3, ∅); (3, ∅)]) by (unfold vs; reflexivity).
  assert (Hi : Forall bop_ints ex_bops /\ Forall bop_ints [BSet 0 3; BGet 0 96])
    by (split; repeat constructor; unfold int_ok; simpl; lia).
  destruct Hi as [Hi1 Hi2].
  destruct (bitvec_programs_refine ex_bops {[1000]} w ex_vec_mem vs Hm Hv Hi1) as (m1 & _ & H1 & _).
  destruct (bitvec_programs_refine _ {[1000]} w ex_vec_mem vs Hm Hv Hi2) as (m2 & _ & H2 & _).
  rewrite Ha in H1, H2. exists m1, m2. split; [exact H1|exact H2].
Defined.

(** The empty vector for 20 bits and the set {40} in a vector for 70 bits: the
    comparison of the first with the second is true, that of two vectors for 70
    bits is false, that of the longer with the shorter fails an assertion. *)
Definition compare_sizes (sz1 sz2 : Z) (flip : bool) : ST (mem bump) bool :=
  a ← Cyc_Bitvec_new_empty sz1; b ← Cyc_Bitvec_new_empty sz2; Cyc_Bitvec_set b 40;;
  if flip then Cyc_Bitvec_compare_two b a else Cyc_Bitvec_compare_two a b.

Example compare_ignores_longer :
  (compare_sizes 20 70 false ex_mem).1 = Ret true /\ (compare_sizes 70 70 false ex_mem).1 = Ret false /\
  (compare_sizes 20 70 true ex_mem).1 = Exit "len <= numelts(src2)".
Proof. split_and!; by vm_compute. Qed.

(** A vector of one word with every bit set, and one of 33 words. *)
Definition ex_full : fat_ptr := match (Cyc_Bitvec_new_full 20 ex_mem).1 with Ret r => r | _ => mk_fat 0 0 0 end.
Definition ex_full_mem : mem bump := (Cyc_Bitvec_new_full (H:=bump) 20 ex_mem).2.
Definition ex_long : fat_ptr := match (Cyc_Bitvec_new_full 1055 ex_mem).1 with Ret r => r | _ => mk_fat 0 0 0 end.
Definition ex_long_mem : mem bump := (Cyc_Bitvec_new_full (H:=bump) 1055 ex_mem).2.

Lemma ex_ones_ok (n : nat) b m' : (n < 1000)%nat -> new_ints (Z.of_nat n) (-1) 105 ex_mem = (Ret b, m') ->
  exists w a, at_words {[1000]} w m' /\ vec_ok w (a, replicate n (-1)) /\ b = fat_of (a, replicate n (-1)).
Proof.
  intros Hn He. pose proof (new_ints_spec {[1000]} ∅ [] n (-1) 105 ex_mem ex_mem_words) as Hwp.
  destruct (wp_result _ _ _ _ _ _ (Hwp ltac:(by split) ltac:(unfold int_ok; lia) ltac:(lia)) He) as (a & w & -> & Hm & _ & [Hv _] & _).
  exists w, a. split_and!; [done|exact (Hv 0%nat _ eq_refl)|done].
Qed.

Lemma to_sorted_list_exact_witness : exists y m' w',
  Cyc_Bitvec_to_sorted_list ex_full 5 ex_full_mem = (Ret y, m') /\ at_words {[1000]} w' m' /\ list_at w' y [0; 1; 2; 3; 4].
Proof.
  destruct (ex_ones_ok 1 ex_full ex_full_mem) as (w & a & Hm & Hv & Ea); [lia|vm_compute; reflexivity|].
  pose proof (to_sorted_list_exact {[1000]} w (a, [-1]) 5 ex_full_mem Hm Hv ltac:(simpl; lia) ltac:(lia)) as Hwp.
  change (fat_of (a, [-1])) with (fat_of (a, replicate 1 (-1))) in Hwp. rewrite <- Ea in Hwp.
  destruct (Cyc_Bitvec_to_sorted_list ex_full 5 ex_full_mem) as [o m'] eqn:E.
  assert (Ho : exists y, o = Ret y) by (change o with (o, m').1; rewrite <- E; vm_compute; by eexists).
  destruct Ho as [y ->]. destruct (wp_result _ _ _ _ _ _ Hwp E) as (w' & Hm' & _ & Hl). exists y, m', w'.
  split_and!; [done|done|exact Hl].
Defined.

(** A vector of 33 words is copied to one of two. *)
Lemma new_copy_prefix_witness : exists b m', Cyc_Bitvec_new_copy ex_long ex_long_mem = (Ret b, m') /\
  _get_fat_size ex_long 4 = 33 /\ _get_fat_size b 4 = 2.
Proof.
  destruct (ex_ones_ok 33 ex_long ex_long_mem) as (w & a & Hm & Hv & Ea); [lia|vm_compute; reflexivity|].
  pose proof (new_copy_prefix {[1000]} w _ ex_long_mem Hm Hv ltac:(done)) as Hwp. rewrite <- Ea in Hwp.
  destruct (Cyc_Bitvec_new_copy ex_long ex_long_mem) as [o m'] eqn:E.
  assert (Ho : exists y, o = Ret y) by (change o with (o, m').1; rewrite <- E; vm_compute; by eexists).
  destruct Ho as [b ->]. destruct (wp_result _ _ _ _ _ _ Hwp E) as (l & (a' & w' & -> & _ & _ & [Hv' _] & _) & Hl & _).
  eexists _, m'. split; [reflexivity|]. split; [vm_compute; reflexivity|].
  rewrite (fat_of_size w' (a', l) (Hv' 1%nat _ eq_refl)). cbn [snd]. rewrite Hl. reflexivity.
Defined.

(** The list [l] holds one key, mapped to 40; the vector is for 64 positions. *)
Definition bitvec_list_ex : ST (mem bump) fat_ptr :=
  d ← Cyc_Dict_empty 9; d ← Cyc_Dict_insert 1 (fun _ u v => mret (u - v)) d 7 40;
  l ← new_cell 1 0 7 0; Cyc_Bitvec_from_list (fun _ u v => mret (u - v)) d mret 64 l.

(** [from_list] computes the number of words with a remainder instead of a
    quotient: the vector for 64 positions has one word, and the position 40 is
    out of bounds. *)
Theorem from_list_throws : (bitvec_list_ex ex_mem).1 = Thrown Cyc_Array_bounds bitvec_cyc 50.
Proof. vm_compute. reflexivity. Qed.
