(* ===== verification/CycQueue.v ===== *)
(** * The queue library

    Models src/bin/genfiles/queue.c: a queue is an object of three words (the
    first cell, the last cell and the number of elements) on a list of cells. *)

From S2P Require Import Prelude Alloc FatPtr RwLock Region DynRegion Words CycList ListCells WordMem TempRegion.

Definition queue_cyc : string := "queue.cyc".
Definition Cyc_Queue_Empty : exn := Cyc_Other_exn "Empty".

Section queue.
Context {H : Type} `{Heap H} (self : Z).
Abbreviation M := (ST (mem H)).

(** ** Fields *)

Definition q_front (q : Z) : M Z := get_word q.
Definition q_rear (q : Z) : M Z := get_word (q + 4).
Definition q_len (q : Z) : M Z := get_word (q + 8).
Definition set_front (q v : Z) : M unit := store_word q v.
Definition set_rear (q v : Z) : M unit := store_word (q + 4) v.
Definition set_len (q v : Z) : M unit := store_word (q + 8) v.
Definition not_null (x line : Z) : M Z := lift (_check_null x queue_cyc line).
Definition throw_empty {A} (line : Z) : M A := lift (Thrown Cyc_Queue_Empty queue_cyc line).

Definition init_queue (q : Z) : M Z := set_front q 0;; set_rear q 0;; set_len q 0;; mret q.

(** ** Operations *)

Definition Cyc_Queue_is_empty (q : Z) : M bool := f ← q_front q; mret (f =? 0).

Definition Cyc_Queue_create : M Z := q ← cycalloc_words 3 queue_cyc 48; init_queue q.
Definition Cyc_Queue_rcreate (r : Z) : M Z := q ← new_words self r 3; init_queue q.

Definition Cyc_Queue_radd (r q x : Z) : M unit :=
  cell ← new_cell self r x 0;
  f ← q_front q;
  (if f =? 0 then set_front q cell;; set_rear q cell
   else e ← q_rear q; e ← not_null e 63; set_tl e cell;; set_rear q cell);;
  n ← q_len q; set_len q (u32 (n + 1)).
Definition Cyc_Queue_add (q x : Z) : M unit := Cyc_Queue_radd Cyc_Core_heap_region q x.

Definition Cyc_Queue_rpush (r q x : Z) : M unit :=
  p ← new_words self r 2;
  set_hd p x;; f ← q_front q; set_tl p f;;
  set_front q p;;
  e ← q_rear q;
  (if e =? 0 then f ← q_front q; set_rear q f else mret tt);;
  n ← q_len q; set_len q (u32 (n + 1)).
Definition Cyc_Queue_push (q x : Z) : M unit := Cyc_Queue_rpush Cyc_Core_heap_region q x.

(** The end of both functions that take an element. *)
Definition drop_front (q line : Z) : M unit :=
  f ← q_front q; f ← not_null f line; t ← get_tl f; set_front q t;;
  f ← q_front q;
  (if f =? 0 then set_rear q 0 else mret tt);;
  n ← q_len q; set_len q (u32 (n - 1)).

Definition Cyc_Queue_take (q : Z) : M Z :=
  f ← q_front q;
  if f =? 0 then throw_empty 88
  else
    f ← q_front q; f ← not_null f 90; x ← get_hd f;
    drop_front q 91;;
    mret x.

(** The element is exchanged with [null_elem], so that the cell does not keep it. *)
Definition Cyc_Queue_noalias_take (q null_elem : Z) : M Z :=
  f ← q_front q;
  if f =? 0 then throw_empty 102
  else
    f ← q_front q; f ← not_null f 104; x ← get_hd f;
    f ← q_front q; f ← not_null f 104; set_hd f null_elem;;
    drop_front q 105;;
    mret x.
Definition Cyc_Queue_ptr_take (q : Z) : M Z := Cyc_Queue_noalias_take q 0.

Definition Cyc_Queue_peek (q : Z) : M Z :=
  f ← q_front q;
  if f =? 0 then throw_empty 121 else f ← q_front q; f ← not_null f 123; get_hd f.

Definition Cyc_Queue_clear (q : Z) : M unit := set_front q 0;; set_rear q 0;; set_len q 0.

Definition Cyc_Queue_remove (q v : Z) : M unit :=
  x ← q_front q;
  with_fuel (fun n => loop n (fun '(x, y) =>
    if is_null x then mret (inr tt)
    else
      h ← get_hd x;
      if h =? v then
        n ← q_len q; set_len q (u32 (n - 1));;
        f ← q_front q;
        (if f =? x then t ← get_tl x; set_front q t
         else y' ← not_null y 144; t ← get_tl x; set_tl y' t);;
        e ← q_rear q;
        (if e =? x then set_rear q y else mret tt);;
        mret (inr tt)
      else t ← get_tl x; mret (inl (t, x))) (x, 0)).

(** [do { ... } while (!is_empty(q))]: elements go from [q] to [saveq] up to the
    first for which [f] holds; the result says whether there was one. *)
Definition match_loop (g q saveq : Z) (f : Z -> Z -> M Z) (env : Z) : M bool :=
  with_fuel (fun n => loop n (fun _ : unit =>
    x ← Cyc_Queue_ptr_take q;
    b ← f env x;
    let ok := negb (b =? 0) in
    Cyc_Queue_rpush g saveq x;;
    if ok then mret (inr true)
    else e ← Cyc_Queue_is_empty q; if (e : bool) then mret (inr false) else mret (inl tt)) tt).

(** [while (!is_empty(saveq)) rpush(r, q, ptr_take(saveq))] *)
Definition restore_loop (r q saveq : Z) : M unit :=
  with_fuel (fun n => loop n (fun _ : unit =>
    e ← Cyc_Queue_is_empty saveq;
    if (e : bool) then mret (inr tt)
    else x ← Cyc_Queue_ptr_take saveq; Cyc_Queue_rpush r q x;; mret (inl tt)) tt).

(** [g] is the address of the handle of the local region. *)
Definition Cyc_Queue_take_match (g r q : Z) (f : Z -> Z -> M Z) (env : Z) : M Z :=
  with_region g (
    saveq ← Cyc_Queue_rcreate g;
    e ← Cyc_Queue_is_empty q;
    if (e : bool) then mret 0
    else
      ok ← match_loop g q saveq f env;
      x ← (if (ok : bool) then Cyc_Queue_ptr_take saveq else mret 0);
      restore_loop r q saveq;;
      mret x).

Definition Cyc_Queue_length (q : Z) : M Z := n ← q_len q; mret (i32 n).

Definition Cyc_Queue_iter (f : Z -> M unit) (q : Z) : M unit := x ← q_front q; iter_cells f x.
Definition Cyc_Queue_app (f : Z -> M Z) (q : Z) : M unit := x ← q_front q; iter_cells f x.
End queue.
