(* ===== verification/QueueSpec.v ===== *)
(** * Queues implement lists

    A queue in memory and the effect of the operations on the list of its
    elements, for every part of memory that keeps the promises of WordMem.v. *)

From S2P Require Import Prelude Alloc FatPtr RwLock Region RegionSafety DynRegion Words CycList ListCells WordMem TempRegion CycListSpec ListConv CycQueue.

(** ** Queues in memory *)

(** The words of a queue object. *)
Definition header_at (w : gmap Z Z) (q front rear n : Z) : Prop :=
  q mod 8 = 0 /\ w !! q = Some front /\ w !! (q + 4) = Some rear /\ w !! (q + 8) = Some n.

(** No cell overlaps the queue object. *)
Definition apart_from (q : Z) (c : list (Z * Z)) : Prop := (q ∉ c.*1) /\ ((q + 8) ∉ c.*1).

Definition last_cell (c : list (Z * Z)) : Z := match last c with Some (p, _) => p | None => 0 end.

Definition queue_at (w : gmap Z Z) (q : Z) (l : list Z) : Prop :=
  exists front c, header_at w q front (last_cell c) (Z.of_nat (length l)) /\ lseg w front c 0 /\ c.*2 = l /\ apart_from q c.

(** Writing a word that is not of a cell of the segment. *)
Lemma lseg_store w x c y a v : lseg w x c y -> (forall p, p ∈ c.*1 -> p <> a /\ p + 4 <> a) -> lseg (<[a := v]> w) x c y.
Proof.
  revert x. induction c as [|[p u] c IH]; intros x Hs Ha; [done|]. destruct Hs as (-> & n & (H0 & Hm & H1 & H2) & Hs).
  destruct (Ha p ltac:(left)) as [? ?]. split; [done|]. exists n. split.
  - split_and!; try done; by rewrite lookup_insert_ne by done.
  - apply IH; [done|]. intros p' Hp'. apply Ha. by right.
Qed.

Lemma lseg_aligned w x c y p : lseg w x c y -> p ∈ c.*1 -> p mod 8 = 0.
Proof. intros Hs Hp. destruct (lseg_elem _ _ _ _ _ Hs Hp) as (v & n & _ & Hm & _). done. Qed.

Lemma lseg_header w x c y q i v : lseg w x c y -> apart_from q c -> q mod 8 = 0 -> i = 0 \/ i = 4 \/ i = 8 ->
  lseg (<[q + i := v]> w) x c y.
Proof.
  intros Hs [H1 H2] Hq Hi. apply lseg_store; [done|]. intros p Hp. pose proof (lseg_aligned _ _ _ _ _ Hs Hp) as Hm.
  destruct (decide (p = q)) as [->|]; [done|]. destruct (decide (p = q + 8)) as [->|]; [done|].
  destruct Hi as [-> | [-> | ->]]; words.
Qed.

Lemma header_front w q f e n f' : header_at w q f e n -> header_at (<[q := f']> w) q f' e n.
Proof. intros (? & ? & ? & ?). split_and!; rewrite ?lookup_insert_ne by lia; try done. apply lookup_insert_eq. Qed.
Lemma header_rear w q f e n e' : header_at w q f e n -> header_at (<[q + 4 := e']> w) q f e' n.
Proof. intros (? & ? & ? & ?). split_and!; rewrite ?lookup_insert_ne by lia; try done. apply lookup_insert_eq. Qed.
Lemma header_len w q f e n n' : header_at w q f e n -> header_at (<[q + 8 := n']> w) q f e n'.
Proof. intros (? & ? & ? & ?). split_and!; rewrite ?lookup_insert_ne by lia; try done. apply lookup_insert_eq. Qed.

Lemma header_mono w w' q f e n : w ⊆ w' -> header_at w q f e n -> header_at w' q f e n.
Proof. intros Hw (? & ? & ? & ?). split_and!; try done; by eapply lookup_weaken. Qed.

(** Writing a word of a cell. *)
Lemma header_cell w q f e n p i v : header_at w q f e n -> p mod 8 = 0 -> p <> q -> p <> q + 8 -> i = 0 \/ i = 4 ->
  header_at (<[p + i := v]> w) q f e n.
Proof.
  intros (Hq & ? & ? & ?) Hp ? ? Hi. assert (p + i <> q /\ p + i <> q + 4 /\ p + i <> q + 8) as (? & ? & ?) by (destruct Hi as [-> | ->]; words).
  split_and!; rewrite ?lookup_insert_ne by done; done.
Qed.

Lemma last_cell_snoc c p v : last_cell (c ++ [(p, v)]) = p.
Proof. unfold last_cell. by rewrite last_snoc. Qed.

Lemma last_cell_cons p v a c : last_cell ((p, v) :: a :: c) = last_cell (a :: c).
Proof. done. Qed.

Lemma lseg_front w x c : lseg w x c 0 -> (x = 0 <-> c = []).
Proof. destruct c as [|[p v] c]; [done|]. intros (-> & n & (? & _) & _). split; done. Qed.

(** A new cell after the last one. *)
Lemma lseg_snoc w x c e v p u : lseg w x (c ++ [(e, v)]) 0 -> cell w p u 0 -> p ∉ (c ++ [(e, v)]).*1 ->
  lseg (<[e + 4 := p]> w) x ((c ++ [(e, v)]) ++ [(p, u)]) 0.
Proof.
  intros Hs Hp Hn. pose proof (lseg_nodup _ _ _ Hs) as Hnd. rewrite fmap_app in Hnd, Hn. simpl in Hnd, Hn.
  apply NoDup_app in Hnd as (_ & Hnd & _). apply lseg_app in Hs as (z & H1 & (-> & n & He & _)).
  assert (Hm : e mod 8 = 0) by (by destruct He as (_ & ? & _)).
  assert (Hpe : e <> p) by (intros ->; apply Hn, elem_of_app; right; left).
  apply lseg_app. exists p. split; [apply lseg_app; exists e; split|].
  - apply lseg_set_tl; [done|done|]. intros Hin. apply (Hnd e Hin). left.
  - split; [done|]. exists p. split; [by eapply cell_set_own_tl|done].
  - split; [done|]. exists 0. split; [by apply cell_set_tl|done].
Qed.

(** ** Operations *)

Section ops.
Context {H : Type} `{HH : Heap H} (self : Z) (P : gmap Z Z -> mem H -> Prop) `{!WordMem P}.
Implicit Types (m : mem H) (w : gmap Z Z).

(** The cells fit the address space, so the count does not overflow. *)
Lemma cells_bound w m x c : P w m -> lseg w x c 0 -> Z.of_nat (length c) < 536870913.
Proof.
  intros Hm Hc. rewrite <- (length_fmap fst). enough (length c.*1 <= Z.to_nat 536870912)%nat by lia.
  apply aligned_count; [by eapply lseg_nodup|]. intros p Hp.
  destruct (lseg_elem _ _ _ _ _ Hc Hp) as (v & n & _ & Hm8 & Hv & _). split; [|done].
  destruct (wm_bounds _ _ p Hm) as [? ?]; [by eexists|]. lia.
Qed.

(** The queue holds [l] afterwards. *)
Definition holds (q : Z) (l : list Z) m : Prop := exists w, P w m /\ queue_at w q l.

(** Out of memory, with the queue as it was. *)
Definition unchanged (q : Z) (l : list Z) (e : exn) m : Prop := e = Cyc_Bad_alloc /\ holds q l m.

Lemma wp_front q f e n w (Q : Z -> mem H -> Prop) E m : P w m -> header_at w q f e n -> Q f m -> wp (q_front q) Q E m.
Proof. intros Hm (_ & Hf & _). by eapply (wm_load P). Qed.
Lemma wp_rear q f e n w (Q : Z -> mem H -> Prop) E m : P w m -> header_at w q f e n -> Q e m -> wp (q_rear q) Q E m.
Proof. intros Hm (_ & _ & Hf & _). by eapply (wm_load P). Qed.
Lemma wp_len q f e n w (Q : Z -> mem H -> Prop) E m : P w m -> header_at w q f e n -> Q n m -> wp (q_len q) Q E m.
Proof. intros Hm (_ & _ & _ & Hf). by eapply (wm_load P). Qed.

Lemma wp_hd p v n w (Q : Z -> mem H -> Prop) E m : P w m -> cell w p v n -> Q v m -> wp (get_hd p) Q E m.
Proof. intros Hm (_ & _ & Hv & _). by eapply (wm_load P). Qed.
Lemma wp_tl p v n w (Q : Z -> mem H -> Prop) E m : P w m -> cell w p v n -> Q n m -> wp (get_tl p) Q E m.
Proof. intros Hm (_ & _ & _ & Hv). by eapply (wm_load P). Qed.

Lemma wp_set_front q f e n f' w (Q : unit -> mem H -> Prop) E m : P w m -> header_at w q f e n ->
  (forall m', P (<[q := f']> w) m' -> header_at (<[q := f']> w) q f' e n -> Q tt m') -> wp (set_front q f') Q E m.
Proof.
  intros Hm Hh HQ. eapply (wm_put P); [done|destruct Hh as (_ & -> & _); by eexists|]. intros m' Hm'.
  apply HQ; [done|]. by eapply header_front.
Qed.
Lemma wp_set_rear q f e n e' w (Q : unit -> mem H -> Prop) E m : P w m -> header_at w q f e n ->
  (forall m', P (<[q + 4 := e']> w) m' -> header_at (<[q + 4 := e']> w) q f e' n -> Q tt m') -> wp (set_rear q e') Q E m.
Proof.
  intros Hm Hh HQ. eapply (wm_put P); [done|destruct Hh as (_ & _ & -> & _); by eexists|]. intros m' Hm'.
  apply HQ; [done|]. by eapply header_rear.
Qed.
Lemma wp_set_len q f e n n' w (Q : unit -> mem H -> Prop) E m : P w m -> header_at w q f e n ->
  (forall m', P (<[q + 8 := n']> w) m' -> header_at (<[q + 8 := n']> w) q f e n' -> Q tt m') -> wp (set_len q n') Q E m.
Proof.
  intros Hm Hh HQ. eapply (wm_put P); [done|destruct Hh as (_ & _ & _ & ->); by eexists|]. intros m' Hm'.
  apply HQ; [done|]. by eapply header_len.
Qed.

(** Closing a proof that the queue holds [l]. *)
Lemma holds_intro w m q front c l : P w m -> header_at w q front (last_cell c) (Z.of_nat (length l)) -> lseg w front c 0 ->
  c.*2 = l -> apart_from q c -> holds q l m.
Proof. intros. exists w. split; [done|]. by exists front, c. Qed.

Lemma is_empty_spec q l w m (Q : bool -> mem H -> Prop) E : P w m -> queue_at w q l ->
  Q (bool_decide (l = [])) m -> wp (Cyc_Queue_is_empty q) Q E m.
Proof.
  intros Hm (f & c & Hh & Hs & <- & _) HQ. unfold Cyc_Queue_is_empty. wps. eapply wp_front; [done..|]. wps.
  replace (f =? 0) with (bool_decide (c.*2 = [])); [done|]. apply Bool.eq_iff_eq_true.
  rewrite bool_decide_eq_true, Z.eqb_eq, (lseg_front _ _ _ Hs). destruct c; done.
Qed.

Lemma length_spec_q q l w m (Q : Z -> mem H -> Prop) E : P w m -> queue_at w q l -> Q (Z.of_nat (length l)) m ->
  wp (Cyc_Queue_length q) Q E m.
Proof.
  intros Hm (f & c & Hh & Hs & <- & _) HQ. pose proof (cells_bound _ _ _ _ Hm Hs) as Hb. rewrite length_fmap in *.
  unfold Cyc_Queue_length. wps. eapply wp_len; [done..|]. wps. by rewrite i32_small by lia.
Qed.

Lemma peek_spec q x l w m (Q : Z -> mem H -> Prop) E : P w m -> queue_at w q (x :: l) -> Q x m ->
  wp (Cyc_Queue_peek q) Q E m.
Proof.
  intros Hm (f & c & Hh & Hs & Hl & _) HQ. destruct c as [|[p v] c]; [done|]. injection Hl as -> Hl.
  destruct Hs as (-> & n & Hc & Hs). pose proof Hc as (Hp & _). unfold Cyc_Queue_peek, not_null. wps. eapply wp_front; [done..|].
  rewrite (proj2 (Z.eqb_neq _ _) Hp). wps. eapply wp_front; [done..|]. wps. eapply wp_check_null; [done|].
  by eapply wp_hd.
Qed.

Lemma empty_front q w : queue_at w q [] -> exists e, header_at w q 0 e 0.
Proof. intros (f & c & Hh & Hs & Hl & _). destruct c; [|done]. simpl in Hs. subst f. by eexists. Qed.

Lemma clear_spec q l w m (Q : unit -> mem H -> Prop) E : P w m -> queue_at w q l -> (forall m', holds q [] m' -> Q tt m') ->
  wp (Cyc_Queue_clear q) Q E m.
Proof.
  intros Hm (f & c & Hh & Hs & Hl & _) HQ. unfold Cyc_Queue_clear. wps. eapply wp_set_front; [done..|]. intros m1 Hm1 Hh1.
  wps. eapply wp_set_rear; [done..|]. intros m2 Hm2 Hh2. eapply wp_set_len; [done..|]. intros m3 Hm3 Hh3.
  apply HQ. eapply (holds_intro _ _ _ 0 []); try done. split; apply not_elem_of_nil.
Qed.

(** A new cell overlaps neither the queue nor its cells. *)
Lemma fresh_queue w q f e n c x p : header_at w q f e n -> lseg w x c 0 -> fresh_words p 2 w ->
  p mod 8 = 0 /\ p <> q /\ p <> q + 8 /\ (p ∉ c.*1) /\ q <> p.
Proof.
  intros (Hq & H1 & H2 & H3) Hs Hf. pose proof Hf as (Hp & Hm & _). destruct (fresh_cell_absent _ _ Hf) as [Ha _].
  split_and!; try done; try congruence. intros Hin. destruct (lseg_elem _ _ _ _ _ Hs Hin) as (v & t & _ & _ & Hv & _). congruence.
Qed.

Context (r : Z) `{!RgnAlloc P r}.

Lemma rpush_spec q l x w m (Q : unit -> mem H -> Prop) E : P w m -> queue_at w q l ->
  (forall m', holds q (x :: l) m' -> Q tt m') -> (forall m', P w m' -> E Cyc_Bad_alloc m') ->
  wp (Cyc_Queue_rpush self r q x) Q E m.
Proof.
  intros Hm (f & c & Hh & Hs & <- & Hap) HQ HE. pose proof (cells_bound _ _ _ _ Hm Hs) as Hb. rewrite length_fmap in Hh.
  unfold Cyc_Queue_rpush. wps. eapply (wm_new P _ r); [done|unfold MAX_MALLOC_SIZE; lia| |done]. intros p m1 Hm1 Hf.
  destruct (fresh_queue _ _ _ _ _ _ _ _ Hh Hs Hf) as (Hp8 & Hpq & Hpq8 & Hpc & _).
  pose proof (zero_words_sub _ _ _ Hf) as Hz. pose proof (header_mono _ _ _ _ _ _ Hz Hh) as Hh1.
  wps. eapply (wm_put P); [done|apply (lookup_insert_is_Some'); by left|]. intros m2 Hm2. wps.
  assert (Hh2 : header_at (<[p := x]> (zero_words p 2 w)) q f (last_cell c) (Z.of_nat (length c))).
  { replace p with (p + 0) at 1 by lia. apply header_cell; [done..|by left]. }
  eapply wp_front; [done..|]. wps. eapply (wm_put P); [done| |].
  { rewrite lookup_insert_ne by lia. simpl. rewrite lookup_insert_ne, lookup_insert_eq by lia. by eexists. }
  intros m3 Hm3. wps. destruct (new_cell_cell p x f w _ Hf Hz) as [Hc Hw3].
  set (w3 := <[p + 4 := f]> (<[p := x]> (zero_words p 2 w))) in *.
  assert (Hh3 : header_at w3 q f (last_cell c) (Z.of_nat (length c))) by (by eapply header_mono).
  assert (Hs3 : lseg w3 p ((p, x) :: c) 0) by (split; [done|]; exists f; split; [done|]; by eapply lseg_mono).
  assert (Hap3 : apart_from q ((p, x) :: c)).
  { destruct Hap. split; apply not_elem_of_cons; split; congruence || done. }
  assert (Hq8 : q mod 8 = 0) by (by destruct Hh).
  eapply wp_set_front; [done..|]. intros m4 Hm4 Hh4. wps. eapply wp_rear; [done..|].
  assert (Hs4 : lseg (<[q := p]> w3) p ((p, x) :: c) 0).
  { replace q with (q + 0) by lia. apply lseg_header; auto. }
  destruct (last_cell c =? 0) eqn:El.
  - assert (c = []) as ->.
    { destruct c as [|a c] using rev_ind; [done|]. exfalso. destruct a as [e v]. rewrite last_cell_snoc in El.
      apply lseg_app in Hs as (z & _ & (_ & n & (? & _) & _)). lia. }
    wps. eapply wp_front; [done..|]. wps. eapply wp_set_rear; [done..|]. intros m5 Hm5 Hh5. wps.
    eapply wp_len; [done..|]. wps. eapply wp_set_len; [done..|]. intros m6 Hm6 Hh6. apply HQ.
    eapply (holds_intro _ _ _ p [(p, x)]); [done|exact Hh6| |done|done].
    apply lseg_header; auto. apply lseg_header; auto.
  - wps. eapply wp_len; [done..|]. wps. eapply wp_set_len; [done..|]. intros m6 Hm6 Hh6. apply HQ.
    rewrite u32_small in Hm6, Hh6 by lia. destruct c as [|a c]; [done|].
    eapply (holds_intro _ _ _ p ((p, x) :: a :: c)); [done| | |done|done].
    + rewrite last_cell_cons. simpl length. rewrite length_fmap. simpl length in Hh6.
      by replace (Z.of_nat (S (S (length c)))) with (Z.of_nat (S (length c)) + 1) by lia.
    + apply lseg_header; auto.
Qed.

Lemma radd_spec q l x w m (Q : unit -> mem H -> Prop) E : P w m -> queue_at w q l ->
  (forall m', holds q (l ++ [x]) m' -> Q tt m') -> (forall m', P w m' -> E Cyc_Bad_alloc m') ->
  wp (Cyc_Queue_radd self r q x) Q E m.
Proof.
  intros Hm (f & c & Hh & Hs & <- & Hap) HQ HE. pose proof (cells_bound _ _ _ _ Hm Hs) as Hb. rewrite length_fmap in Hh.
  unfold Cyc_Queue_radd, new_cell. wps. eapply (wm_new P _ r); [done|unfold MAX_MALLOC_SIZE; lia| |done]. intros p m1 Hm1 Hf.
  destruct (fresh_queue _ _ _ _ _ _ _ _ Hh Hs Hf) as (Hp8 & Hpq & Hpq8 & Hpc & _).
  pose proof (zero_words_sub _ _ _ Hf) as Hz.
  wps. eapply (wm_put P); [done|apply (lookup_insert_is_Some'); by left|]. intros m2 Hm2. wps. eapply (wm_put P); [done| |].
  { rewrite lookup_insert_ne by lia. simpl. rewrite lookup_insert_ne, lookup_insert_eq by lia. by eexists. }
  intros m3 Hm3. wps. destruct (new_cell_cell p x 0 w _ Hf Hz) as [Hc Hw3].
  set (w3 := <[p + 4 := 0]> (<[p := x]> (zero_words p 2 w))) in *.
  assert (Hh3 : header_at w3 q f (last_cell c) (Z.of_nat (length c))) by (by eapply header_mono).
  assert (Hs3 : lseg w3 f c 0) by (by eapply lseg_mono). assert (Hq8 : q mod 8 = 0) by (by destruct Hh).
  assert (Hap3 : apart_from q (c ++ [(p, x)])).
  { destruct Hap. split; rewrite fmap_app; simpl; rewrite not_elem_of_app, list_elem_of_singleton; (split; [done|congruence]). }
  eapply wp_front; [done..|]. assert (Hlen : Z.of_nat (length (c.*2 ++ [x])) = u32 (Z.of_nat (length c) + 1)).
  { rewrite length_app, length_fmap, u32_small by lia. simpl. lia. }
  destruct (f =? 0) eqn:Ef.
  - assert (c = []) as -> by (apply (lseg_front _ _ _ Hs); lia). simpl in Hap3.
    wps. eapply wp_set_front; [done..|]. intros m4 Hm4 Hh4. eapply wp_set_rear; [done..|]. intros m5 Hm5 Hh5.
    wps. eapply wp_len; [done..|]. wps. eapply wp_set_len; [done..|]. intros m6 Hm6 Hh6. apply HQ.
    eapply (holds_intro _ _ _ p [(p, x)]); [done|exact Hh6| |done|done].
    apply lseg_header; auto. apply lseg_header; auto. replace q with (q + 0) by lia. apply lseg_header; auto.
    split; [done|]. by exists 0.
  - destruct c as [|[e v] c _] using rev_ind; [simpl in Hs; lia|]. rewrite last_cell_snoc in Hh3.
    pose proof Hs3 as Hs3'. apply lseg_app in Hs3' as (z & _ & (-> & t & He & _)). pose proof He as (He0 & He8 & _ & He4).
    wps. eapply wp_rear; [done..|]. unfold not_null. wps. eapply wp_check_null; [done|]. wps.
    eapply (wm_put P); [done|by eexists|]. intros m4 Hm4.
    assert (Hs4 : lseg (<[e + 4 := p]> w3) f ((c ++ [(e, v)]) ++ [(p, x)]) 0) by (by apply lseg_snoc).
    assert (Hein : e ∈ (c ++ [(e, v)]).*1) by (rewrite fmap_app; apply elem_of_app; right; left).
    assert (Hh4 : header_at (<[e + 4 := p]> w3) q f e (Z.of_nat (length (c ++ [(e, v)])))).
    { destruct Hap. apply header_cell; [done|done|congruence|congruence|by right]. }
    eapply wp_set_rear; [done..|]. intros m5 Hm5 Hh5. wps. eapply wp_len; [done..|]. wps. eapply wp_set_len; [done..|].
    intros m6 Hm6 Hh6. apply HQ. eapply (holds_intro _ _ _ f ((c ++ [(e, v)]) ++ [(p, x)])); [done| | |by rewrite !fmap_app|done].
    + rewrite last_cell_snoc, Hlen. done.
    + apply lseg_header; auto. apply lseg_header; auto.
Qed.
End ops.

(** [l] without the first occurrence of [v]. *)
Fixpoint remove_first (v : Z) (l : list Z) : list Z :=
  match l with [] => [] | x :: l => if x =? v then l else x :: remove_first v l end.

Lemma remove_first_app v l1 l2 : v ∉ l1 -> remove_first v (l1 ++ l2) = l1 ++ remove_first v l2.
Proof.
  induction l1 as [|x l1 IH]; intros Hv; [done|]. apply not_elem_of_cons in Hv as [Hne Hv]. simpl.
  rewrite (proj2 (Z.eqb_neq _ _)) by done. by rewrite IH.
Qed.

Section ops2.
Context {H : Type} `{HH : Heap H} (self : Z) (P : gmap Z Z -> mem H -> Prop) `{!WordMem P}.
Implicit Types (m : mem H) (w : gmap Z Z).

Lemma apart_cons q p v c : apart_from q ((p, v) :: c) -> q <> p /\ p <> q + 8 /\ apart_from q c.
Proof. intros [H1 H2]. simpl in *. apply not_elem_of_cons in H1 as [? ?], H2 as [? ?]. by split_and!. Qed.

Lemma drop_front_spec q p v n c line w m (Q : unit -> mem H -> Prop) E : P w m ->
  header_at w q p (last_cell ((p, v) :: c)) (Z.of_nat (S (length c))) -> cell w p v n -> lseg w n c 0 -> apart_from q ((p, v) :: c) ->
  (forall m', holds P q c.*2 m' -> Q tt m') -> wp (drop_front q line) Q E m.
Proof.
  intros Hm Hh Hc Hs Hap HQ. pose proof Hc as (Hp & _). pose proof Hh as (Hq8 & _). apply apart_cons in Hap as (_ & _ & Hap).
  pose proof (cells_bound P _ _ _ _ Hm Hs) as Hb. unfold drop_front, not_null. wps.
  eapply (wp_front P); [done..|]. wps. eapply wp_check_null; [done|]. wps. eapply (wp_tl P); [done..|]. wps.
  eapply (wp_set_front P); [done..|]. intros m1 Hm1 Hh1. wps. eapply (wp_front P); [done..|].
  assert (Hs1 : lseg (<[q := n]> w) n c 0) by (replace q with (q + 0) by lia; apply lseg_header; auto).
  destruct (n =? 0) eqn:En.
  - assert (c = []) as -> by (apply (lseg_front _ _ _ Hs); lia). wps. eapply (wp_set_rear P); [done..|]. intros m2 Hm2 Hh2.
    wps. eapply (wp_len P); [done..|]. wps. eapply (wp_set_len P); [done..|]. intros m3 Hm3 Hh3. apply HQ.
    apply (holds_intro P _ _ _ n []) with (1 := Hm3); [exact Hh3|simpl in *; lia|done|done].
  - destruct c as [|a c]; [simpl in Hs; lia|]. rewrite last_cell_cons in Hh1.
    wps. eapply (wp_len P); [done..|]. wps. eapply (wp_set_len P); [done..|]. intros m3 Hm3 Hh3. apply HQ.
    rewrite u32_small in Hm3, Hh3 by lia. apply (holds_intro P _ _ _ n (a :: c)) with (1 := Hm3).
    + rewrite length_fmap. by replace (Z.of_nat (length (a :: c))) with (Z.of_nat (S (length (a :: c))) - 1) by lia.
    + apply lseg_header; auto.
    + done.
    + done.
Qed.

Lemma take_spec q x l w m (Q : Z -> mem H -> Prop) E : P w m -> queue_at w q (x :: l) ->
  (forall m', holds P q l m' -> Q x m') -> wp (Cyc_Queue_take q) Q E m.
Proof.
  intros Hm (f & c & Hh & Hs & Hl & Hap) HQ. destruct c as [|[p v] c]; [done|]. simpl in Hl. injection Hl as -> <-.
  destruct Hs as (-> & n & Hc & Hs). pose proof Hc as (Hp & _). unfold Cyc_Queue_take, not_null. wps.
  eapply (wp_front P); [done..|]. rewrite (proj2 (Z.eqb_neq _ _) Hp). wps. eapply (wp_front P); [done..|]. wps.
  eapply wp_check_null; [done|]. wps. eapply (wp_hd P); [done..|]. wps.
  simpl length in Hh. rewrite length_fmap in Hh. eapply drop_front_spec; [done..|]. intros m' Hm'. wps. by apply HQ.
Qed.

Lemma noalias_take_spec q x y l w m (Q : Z -> mem H -> Prop) E : P w m -> queue_at w q (x :: l) ->
  (forall m', holds P q l m' -> Q x m') -> wp (Cyc_Queue_noalias_take q y) Q E m.
Proof.
  intros Hm (f & c & Hh & Hs & Hl & Hap) HQ. destruct c as [|[p v] c]; [done|]. simpl in Hl. injection Hl as -> <-.
  pose proof (lseg_nodup _ _ _ Hs) as Hnd. simpl in Hnd. apply NoDup_cons in Hnd as [Hpc _].
  destruct Hs as (-> & n & Hc & Hs). pose proof Hc as (Hp & Hp8 & Hp0 & Hp4). unfold Cyc_Queue_noalias_take, not_null. wps.
  eapply (wp_front P); [done..|]. rewrite (proj2 (Z.eqb_neq _ _) Hp). wps. eapply (wp_front P); [done..|]. wps.
  eapply wp_check_null; [done|]. wps. eapply (wp_hd P); [done..|]. wps. eapply (wp_front P); [done..|]. wps.
  eapply wp_check_null; [done|]. wps. eapply (wm_put P); [done|by eexists|]. intros m1 Hm1. wps.
  simpl length in Hh. rewrite length_fmap in Hh. pose proof (apart_cons _ _ _ _ Hap) as (Hqp & Hqp8 & _).
  eapply (drop_front_spec q p y n c); [done| |..].
  - replace p with (p + 0) at 1 by lia. change (last_cell ((p, y) :: c)) with (match last ((p, y) :: c) with Some (p0, _) => p0 | None => 0 end).
    replace (match last ((p, y) :: c) with Some (p0, _) => p0 | None => 0 end) with (last_cell ((p, x) :: c)) by (by destruct c).
    apply header_cell; auto.
  - split_and!; try done; [apply lookup_insert_eq|by rewrite lookup_insert_ne by lia].
  - apply lseg_store; [done|]. intros p' Hp'. pose proof (lseg_aligned _ _ _ _ _ Hs Hp'). split; [by intros ->|words].
  - done.
  - intros m' Hm'. wps. by apply HQ.
Qed.

(** The cells before and after the one that is removed. *)
Lemma queue_unlink w q f c1 x v t c2 : header_at w q f (last_cell (c1 ++ (x, v) :: c2)) (Z.of_nat (length (c1 ++ (x, v) :: c2))) ->
  lseg w f c1 x -> cell w x v t -> lseg w t c2 0 -> apart_from q (c1 ++ (x, v) :: c2) ->
  (f = x <-> c1 = []) /\ (last_cell (c1 ++ (x, v) :: c2) = x <-> c2 = []) /\
  (c2 <> [] -> last_cell (c1 ++ (x, v) :: c2) = last_cell (c1 ++ c2)) /\ apart_from q (c1 ++ c2) /\
  (c1 <> [] -> lseg (<[last_cell c1 + 4 := t]> w) f (c1 ++ c2) 0 /\ last_cell c1 <> 0 /\ is_Some (w !! (last_cell c1 + 4)) /\
     last_cell c1 mod 8 = 0 /\ last_cell c1 <> q /\ last_cell c1 <> q + 8).
Proof.
  intros Hh H1 Hc H2 [Hq1 Hq2].
  assert (Hall : lseg w f (c1 ++ (x, v) :: c2) 0) by (apply lseg_app; exists x; split; [done|]; split; [done|]; by exists t).
  pose proof (lseg_nodup _ _ _ Hall) as Hnd. rewrite fmap_app in Hnd. simpl in Hnd. apply NoDup_app in Hnd as (Hnd1 & Hd & Hnd2).
  apply NoDup_cons in Hnd2 as [Hx2 Hnd2]. rewrite !fmap_app in Hq1, Hq2. simpl in Hq1, Hq2.
  apply not_elem_of_app in Hq1 as [Hq1 Hq1'], Hq2 as [Hq2 Hq2']. apply not_elem_of_cons in Hq1' as [_ Hq1'], Hq2' as [_ Hq2'].
  split_and!.
  - split; [|by intros ->]. intros ->. destruct c1 as [|[p u] c1]; [done|]. destruct H1 as (-> & _). exfalso. apply (Hd p); left.
  - destruct c2 as [|[p u] c2] using rev_ind; [by rewrite last_cell_snoc|].
    rewrite app_comm_cons, app_assoc, last_cell_snoc. split; [|by destruct c2]. intros ->. exfalso. apply Hx2. rewrite fmap_app.
    apply elem_of_app. right. left.
  - intros Hne. destruct c2 as [|[p u] c2 _] using rev_ind; [done|].
    by rewrite app_comm_cons, !app_assoc, !last_cell_snoc.
  - split; rewrite fmap_app; by apply not_elem_of_app.
  - intros Hne. destruct c1 as [|[y u] c0 _] using rev_ind; [done|]. rewrite last_cell_snoc.
    apply lseg_app in H1 as (z & H1 & (-> & n & Hy & <-)). rewrite fmap_app in *. simpl in *.
    apply NoDup_app in Hnd1 as (_ & Hd1 & _).
    assert (Hy8 : y mod 8 = 0) by (by destruct Hy as (_ & ? & _)).
    assert (Hy1 : y ∉ c0.*1) by (intros Hin; apply (Hd1 y Hin); left).
    assert (Hy2 : y ∉ c2.*1) by (intros Hin; apply (Hd y); [apply elem_of_app; right; left|by right]).
    split_and!.
    + rewrite <- app_assoc. apply lseg_app. exists y. split; [by apply lseg_set_tl|]. split; [done|]. exists t.
      split; [by eapply cell_set_own_tl|by apply lseg_set_tl].
    + by destruct Hy.
    + destruct Hy as (_ & _ & _ & ->). by eexists.
    + done.
    + intros ->. apply Hq1, elem_of_app. right. left.
    + intros ->. apply Hq2, elem_of_app. right. left.
Qed.

(** The link to the removed cell, in the queue or in the cell before, skips it. *)
Lemma relink_spec q w f c1 p u t c2 n m1 E :
  header_at w q f (last_cell (c1 ++ (p, u) :: c2)) (Z.of_nat (length c1 + S (length c2))) ->
  lseg w f c1 p -> cell w p u t -> lseg w t c2 0 -> apart_from q (c1 ++ (p, u) :: c2) -> P (<[q + 8 := n]> w) m1 ->
  wp (if f =? p then t' ← get_tl p; set_front q t' else y' ← not_null (last_cell c1) 144; t' ← get_tl p; set_tl y' t')
    (fun _ m2 => exists w2 f2, P w2 m2 /\ header_at w2 q f2 (last_cell (c1 ++ (p, u) :: c2)) n /\ lseg w2 f2 (c1 ++ c2) 0) E m1.
Proof.
  intros Hh H1 Hc H2 Hap Hm1. pose proof (header_len _ _ _ _ _ n Hh) as Hh1. pose proof Hh as (Hq8 & _).
  destruct (queue_unlink w q f c1 p u t c2) as (Hfx & _ & _ & Hap' & Hmid); try done.
  { by rewrite length_app. }
  assert (Hcell1 : cell (<[q + 8 := n]> w) p u t).
  { assert (Hone : lseg (<[q + 8 := n]> w) p [(p, u)] t).
    { apply lseg_header; auto; [split; [done|by exists t]|]. destruct Hap as [Ha1 Ha2].
      rewrite fmap_app in Ha1, Ha2. simpl in Ha1, Ha2. apply not_elem_of_app in Ha1 as [_ Ha1], Ha2 as [_ Ha2].
      apply not_elem_of_cons in Ha1 as [? _], Ha2 as [? _]. split; simpl; by rewrite list_elem_of_singleton. }
    by destruct Hone as (_ & t' & Hone & ->). }
  destruct (f =? p) eqn:Ef.
  - assert (c1 = []) as -> by (apply Hfx; lia). wps. eapply (wp_tl P); [done..|]. wps. eapply (wp_set_front P); [done..|].
    intros m2 Hm2 Hh2. exists (<[q := t]> (<[q + 8 := n]> w)), t. split_and!; [done|done|]. replace q with (q + 0) at 1 by lia.
    apply lseg_header; auto. apply lseg_header; auto.
  - assert (Hc1 : c1 <> []) by (intros E'; apply Hfx in E'; lia). destruct (Hmid Hc1) as (Hseg & Hy0 & [z Hz] & Hy8 & Hyq & Hyq8).
    unfold not_null. wps. eapply wp_check_null; [done|]. wps. eapply (wp_tl P); [done..|]. wps. eapply (wm_put P); [done| |].
    { rewrite lookup_insert_ne by words. by eexists. }
    intros m2 Hm2. eexists _, f. split_and!; [exact Hm2|apply header_cell; auto|].
    rewrite insert_insert_ne by words. apply lseg_header; auto.
Qed.

Lemma queue_remove_spec q v l w m (Q : unit -> mem H -> Prop) E : P w m -> queue_at w q l ->
  (forall m', holds P q (remove_first v l) m' -> Q tt m') -> wp (Cyc_Queue_remove q v) Q E m.
Proof.
  intros Hm (f & c & Hh & Hs & <- & Hap) HQ. pose proof (cells_bound P _ _ _ _ Hm Hs) as Hb. rewrite length_fmap in Hh.
  unfold Cyc_Queue_remove. wps. eapply (wp_front P); [done..|]. eapply (wm_fuel P); [done|]. intros fuel Hfuel.
  apply (wp_loop _ (fun k '(x, y) m' => P w m' /\ exists c1 c2, c = c1 ++ c2 /\ k = length c2 /\ lseg w f c1 x /\ lseg w x c2 0 /\
    y = last_cell c1 /\ v ∉ c1.*2)) with (k := length c).
  - clear Hm m. intros k [x y] m (Hm & c1 & c2 & -> & -> & H1 & H2 & -> & Hv). destruct c2 as [|[p u] c2].
    { simpl in H2. subst x. rewrite is_null_0. wps. apply HQ. rewrite app_nil_r in *. exists w. split; [done|].
      rewrite <- (app_nil_r c1.*2), remove_first_app, app_nil_r by done. exists f, c1. by rewrite length_fmap. }
    destruct H2 as (-> & t & Hc & H2). pose proof Hc as (Hp & _). rewrite is_null_ne by done. wps. eapply (wp_hd P); [done..|].
    destruct (u =? v) eqn:Eu; cycle 1.
    { wps. eapply (wp_tl P); [done..|]. wps. exists (length c2). split; [simpl; lia|]. split; [done|].
      exists (c1 ++ [(p, u)]), c2. split_and!; [by rewrite <- app_assoc|done| |done|by rewrite last_cell_snoc|].
      - apply lseg_app. exists p. split; [done|]. split; [done|]. by exists t.
      - rewrite fmap_app. simpl. rewrite not_elem_of_app, list_elem_of_singleton. split; [done|lia]. }
    destruct (queue_unlink w q f c1 p u t c2 Hh H1 Hc H2 Hap) as (Hfx & Hlast & Hlast2 & Hap' & Hmid).
    pose proof Hh as (Hq8 & _). rewrite length_app in Hh, Hb. simpl in Hh, Hb.
    assert (Hlen : u32 (Z.of_nat (length c1 + S (length c2)) - 1) = Z.of_nat (length (remove_first v (c1 ++ (p, u) :: c2).*2))).
    { rewrite u32_small by lia. rewrite fmap_app, remove_first_app by done. simpl. rewrite Eu, length_app, !length_fmap. lia. }
    assert (Hrem : (c1 ++ c2).*2 = remove_first v (c1 ++ (p, u) :: c2).*2).
    { rewrite !fmap_app, remove_first_app by done. simpl. by rewrite Eu. }
    wps. eapply (wp_len P); [done..|]. wps. eapply (wp_set_len P); [done..|]. intros m1 Hm1 Hh1. rewrite Hlen in Hm1, Hh1.
    set (w1 := <[q + 8 := _]> w) in *. wps. eapply (wp_front P); [done..|].
    wps. eapply wp_conseq; [exact (relink_spec q w f c1 p u t c2 _ m1 E Hh H1 Hc H2 Hap Hm1)|]. intros [] m2 (w2 & f2 & Hm2 & Hh2 & Hs2). wps. eapply (wp_rear P); [done..|].
    destruct (last_cell (c1 ++ (p, u) :: c2) =? p) eqn:El.
    + assert (c2 = []) as -> by (apply Hlast; lia). rewrite app_nil_r in *. wps. eapply (wp_set_rear P); [done..|]. intros m3 Hm3 Hh3. wps.
      apply HQ. apply (holds_intro P _ _ _ f2 c1) with (1 := Hm3); [exact Hh3|apply lseg_header; auto|done|done].
    + assert (Hne : c2 <> []) by (intros E'; apply Hlast in E'; lia). rewrite (Hlast2 Hne) in Hh2. wps. apply HQ.
      by apply (holds_intro P _ _ _ f2 (c1 ++ c2)) with (1 := Hm2).
  - split; [done|]. exists [], c. split_and!; try done. apply not_elem_of_nil.
  - pose proof (lseg_size _ _ _ Hs). lia.
Qed.

Lemma init_queue_spec q w w' m (Q : Z -> mem H -> Prop) E : P w' m -> w' = zero_words q 3 w -> fresh_words q 3 w ->
  (forall m', holds P q [] m' -> Q q m') -> wp (init_queue q) Q E m.
Proof.
  intros Hm -> (Hq & Hq8 & _) HQ. unfold init_queue.
  assert (Hh : header_at (zero_words q 3 w) q 0 0 0).
  { split_and!; [done|..]; simpl; rewrite ?lookup_insert_ne by lia; try apply lookup_insert_eq.
    replace (q + 8) with (q + 4 + 4) by lia. apply lookup_insert_eq. }
  wps. eapply (wp_set_front P); [done..|]. intros m1 Hm1 Hh1. wps. eapply (wp_set_rear P); [done..|]. intros m2 Hm2 Hh2.
  wps. eapply (wp_set_len P); [done..|]. intros m3 Hm3 Hh3. wps. apply HQ.
  apply (holds_intro P _ _ _ 0 []) with (1 := Hm3); try done. split; apply not_elem_of_nil.
Qed.

Lemma rcreate_spec r `{!RgnAlloc P r} w m (Q : Z -> mem H -> Prop) E : P w m ->
  (forall q m', holds P q [] m' -> Q q m') -> (forall m', P w m' -> E Cyc_Bad_alloc m') -> wp (Cyc_Queue_rcreate self r) Q E m.
Proof.
  intros Hm HQ HE. unfold Cyc_Queue_rcreate. wps. eapply (wm_new P _ r); [done|unfold MAX_MALLOC_SIZE; lia| |done].
  intros q m1 Hm1 Hf. eapply init_queue_spec; [done|done|done|]. intros m2. apply HQ.
Qed.
End ops2.
