(* ===== verification/QueueRefine.v ===== *)
(** * Queues refine lists

    [take_match] with its local region, and the refinement: programs on a queue
    behave like programs on a list, and leave the rest of memory alone. *)

From S2P Require Import Prelude Alloc FatPtr RwLock Region RegionSafety DynRegion Words CycList ListCells WordMem TempRegion CycListSpec ListConv CycQueue QueueSpec.

(** The first element that satisfies [b], and the others. *)
Fixpoint take_first (b : Z -> bool) (l : list Z) : option Z * list Z :=
  match l with
  | [] => (None, [])
  | x :: l => if b x then (Some x, l) else let r := take_first b l in (r.1, x :: r.2)
  end.

Lemma take_first_app b l1 l2 : Forall (fun x => b x = false) l1 ->
  take_first b (l1 ++ l2) = ((take_first b l2).1, l1 ++ (take_first b l2).2).
Proof.
  induction 1 as [|x l1 Hx _ IH]; [simpl; by destruct (take_first b l2)|]. simpl. by rewrite Hx, IH.
Qed.

Section matching.
Context {H : Type} `{HH : Heap H} `{!HeapLaws H} (self : Z).
Context (R : gset Z) (F : gmap Z Z) (g r : Z) (Hg : g ∉ R) (H2 : 2 < g) (Hr : rgn_in R r).
Implicit Types (m : mem H) (w t : gmap Z Z).

(** The memory of the queue, while the frame [F] and the words [t] of the local
    region stay as they are; and the memory of the local region. *)
Abbreviation main t := (framed (fun w => at_split R g w t) F).
Abbreviation local w := (fun t => at_split R g (w ∪ F) t).

#[local] Instance main_rgn t : RgnAlloc (main t) r.
Proof. apply framed_rgn. by apply outside_rgn. Qed.
#[local] Instance local_rgn w : RgnAlloc (local w) g.
Proof. by apply inside_rgn. Qed.

(** The queue [q] holds [l] and the queue [s] of the local region holds [k]. *)
Definition both (q s : Z) (l k : list Z) m : Prop := exists w t, main t w m /\ queue_at w q l /\ queue_at t s k.

(** Something is left to free when memory runs out. *)
Definition spilled (e : exn) m : Prop := e = Cyc_Bad_alloc /\ exists w t, main t w m.

Lemma both_take_main q s x l k m (Q : Z -> mem H -> Prop) E : both q s (x :: l) k m ->
  (forall m', both q s l k m' -> Q x m') -> wp (Cyc_Queue_ptr_take q) Q E m.
Proof.
  intros (w & t & Hm & Hq & Hs) HQ. eapply (noalias_take_spec (main t)); [done..|].
  intros m' (w' & Hm' & Hq'). apply HQ. by exists w', t.
Qed.

Lemma both_take_local q s x l k m (Q : Z -> mem H -> Prop) E : both q s l (x :: k) m ->
  (forall m', both q s l k m' -> Q x m') -> wp (Cyc_Queue_ptr_take s) Q E m.
Proof.
  intros (w & t & [Hd Hm] & Hq & Hs) HQ. eapply (noalias_take_spec (local w)); [done..|].
  intros m' (t' & Hm' & Hs'). apply HQ. by exists w, t'.
Qed.

Lemma both_push_main q s x l k m (Q : unit -> mem H -> Prop) E : both q s l k m ->
  (forall m', both q s (x :: l) k m' -> Q tt m') -> (forall e m', spilled e m' -> E e m') -> wp (Cyc_Queue_rpush self r q x) Q E m.
Proof.
  intros (w & t & Hm & Hq & Hs) HQ HE. eapply (rpush_spec self (main t) r); [done..| |].
  - intros m' (w' & Hm' & Hq'). apply HQ. by exists w', t.
  - intros m' Hm'. apply HE. split; [done|]. by exists w, t.
Qed.

Lemma both_push_local q s x l k m (Q : unit -> mem H -> Prop) E : both q s l k m ->
  (forall m', both q s l (x :: k) m' -> Q tt m') -> (forall e m', spilled e m' -> E e m') -> wp (Cyc_Queue_rpush self g s x) Q E m.
Proof.
  intros (w & t & [Hd Hm] & Hq & Hs) HQ HE. eapply (rpush_spec self (local w) g); [done..| |].
  - intros m' (t' & Hm' & Hs'). apply HQ. by exists w, t'.
  - intros m' Hm'. apply HE. split; [done|]. by exists w, t.
Qed.

Lemma both_empty_main q s l k m (Q : bool -> mem H -> Prop) E : both q s l k m -> Q (bool_decide (l = [])) m -> wp (Cyc_Queue_is_empty q) Q E m.
Proof. intros (w & t & Hm & Hq & Hs). by apply (is_empty_spec (main t) q l w). Qed.
Lemma both_empty_local q s l k m (Q : bool -> mem H -> Prop) E : both q s l k m -> Q (bool_decide (k = [])) m -> wp (Cyc_Queue_is_empty s) Q E m.
Proof. intros (w & t & [Hd Hm] & Hq & Hs). by apply (is_empty_spec (local w) s k t). Qed.

Lemma queue_size w q l : queue_at w q l -> (2 * length l <= size w)%nat.
Proof. intros (f & c & _ & Hs & <- & _). rewrite length_fmap. by eapply lseg_size. Qed.

Context (f : Z -> Z -> ST (mem H) Z) (env : Z) (b : Z -> bool) (Hf : forall x m, f env x m = (Ret (Z.b2z (b x)), m)).

Lemma match_loop_spec q s l m : l <> [] -> both q s l [] m ->
  wp (match_loop self g q s f env)
    (fun ok m' => match take_first b l with
                  | (Some x, rest) => ok = true /\ exists pre post, rest = pre ++ post /\ both q s post (x :: reverse pre) m'
                  | (None, rest) => ok = false /\ both q s [] (reverse l) m'
                  end) spilled m.
Proof.
  intros Hne Hb. pose proof Hb as (w & t & Hm & Hq & _). unfold match_loop. eapply (wm_fuel (main t)); [done|]. intros fuel Hfuel.
  apply (wp_loop _ (fun n _ m' => exists pre rest, l = pre ++ rest /\ rest <> [] /\ n = length rest /\
    Forall (fun x => b x = false) pre /\ both q s rest (reverse pre) m')) with (k := length l).
  - clear Hb Hm m. intros n [] m (pre & rest & -> & Hrest & -> & Hpre & Hb). destruct rest as [|x rest]; [done|].
    wps. eapply both_take_main; [done|]. intros m1 Hb1. wps. eapply wp_run; [apply Hf|]. wps.
    eapply both_push_local; [done| |done]. intros m2 Hb2. rewrite take_first_app by done. simpl. destruct (b x) eqn:Ex; simpl.
    + wps. split; [done|]. by exists pre, rest.
    + wps. eapply both_empty_main; [done|]. case_bool_decide as Hr0; wps.
      * subst rest. simpl. split; [done|]. by rewrite reverse_snoc.
      * exists (length rest). split; [simpl; lia|]. exists (pre ++ [x]), rest. split_and!; try done.
        { by rewrite <- app_assoc. }
        { apply Forall_app. split; [done|]. by constructor. }
        { by rewrite reverse_snoc. }
  - exists [], l. by split_and!.
  - apply queue_size in Hq. lia.
Qed.

Lemma restore_loop_spec q s l k m : both q s l k m ->
  wp (restore_loop self r q s) (fun _ m' => both q s (reverse k ++ l) [] m') spilled m.
Proof.
  intros Hb. pose proof Hb as (w & t & [Hd Hm] & _ & Hs). unfold restore_loop. eapply (wm_fuel (local w)); [done|]. intros fuel Hfuel.
  apply (wp_loop _ (fun n _ m' => exists l' k', n = length k' /\ reverse k' ++ l' = reverse k ++ l /\ both q s l' k' m')) with (k := length k).
  - clear Hb Hm m. intros n [] m (l' & k' & -> & He & Hb). wps. eapply both_empty_local; [done|]. case_bool_decide as Hk; wps.
    + subst k'. by rewrite <- He.
    + destruct k' as [|x k']; [done|]. eapply both_take_local; [done|]. intros m1 Hb1. wps.
      eapply both_push_main; [done| |done]. intros m2 Hb2. wps. exists (length k'). split; [simpl; lia|].
      exists (x :: l'), k'. split_and!; [done| |done]. by rewrite <- He, reverse_cons, <- app_assoc.
  - by exists l, k.
  - apply queue_size in Hs. lia.
Qed.

(** [take_match] takes the first element that matches and keeps the others in
    their order; without one it returns null. *)
Lemma take_match_spec q l w m : framed (at_words R) F w m -> queue_at w q l ->
  wp (Cyc_Queue_take_match self g r q f env)
    (fun x m' => x = default 0 (take_first b l).1 /\ holds (framed (at_words R) F) q (take_first b l).2 m')
    (fun e m' => e = Cyc_Bad_alloc /\ exists w', framed (at_words R) F w' m') m.
Proof.
  intros [Hd Hm] Hq. unfold Cyc_Queue_take_match. eapply wp_with_region; [done|done|done|]. clear Hm m. intros m Hm.
  assert (HE : forall e m', spilled e m' -> exists w2 t2, at_split R g w2 t2 m' /\
    forall m3, at_words R w2 m3 -> e = Cyc_Bad_alloc /\ exists w', framed (at_words R) F w' m3).
  { intros e m' (-> & w' & t' & Hd' & Hm'). exists (w' ∪ F), t'. split; [done|]. intros m3 Hm3. split; [done|]. by exists w'. }
  wps. eapply (rcreate_spec self (local w) g); [done| |intros m' Hm'; apply HE; split; [done|]; by exists w, ∅].
  intros s m1 (t & Hm1 & Hs). assert (Hb : both q s l [] m1) by (by exists w, t).
  assert (Hfin : forall x l' k' m', x = default 0 (take_first b l).1 -> l' = (take_first b l).2 -> both q s l' k' m' ->
    exists w2 t2, at_split R g w2 t2 m' /\ forall m3, at_words R w2 m3 ->
      x = default 0 (take_first b l).1 /\ holds (framed (at_words R) F) q (take_first b l).2 m3).
  { intros x l' k' m' -> -> (w' & t' & [Hd' Hm'] & Hq' & _). exists (w' ∪ F), t'. split; [done|]. intros m3 Hm3. split; [done|]. by exists w'. }
  wps. eapply both_empty_main; [done|]. case_bool_decide as Hl; [subst l; wps; by eapply Hfin|].
  wps. eapply wp_mono; [by apply match_loop_spec| |exact HE]. intros ok m2 Hok. wps.
  destruct (take_first b l) as [[x|] rest] eqn:Et; simpl in *.
  - destruct Hok as (-> & pre & post & -> & Hb2). eapply both_take_local; [done|]. intros m3 Hb3. wps.
    eapply wp_mono; [by apply restore_loop_spec| |exact HE]. intros [] m4 Hb4. wps. rewrite reverse_involutive in Hb4. by eapply Hfin.
  - destruct Hok as (-> & Hb2). wps. eapply wp_mono; [by apply restore_loop_spec| |exact HE]. intros [] m4 Hb4. wps.
    rewrite reverse_involutive, app_nil_r in Hb4. eapply Hfin; [done| |done].
    clear -Et. revert rest Et. induction l as [|y l' IH]; intros rest Et; simpl in Et; [by injection Et|].
    destruct (b y); [done|]. destruct (take_first b l') as [o rest'] eqn:E'. simpl in Et. injection Et as -> <-. f_equal. by apply IH.
Qed.
End matching.

(** ** Programs *)

Inductive qop : Type :=
| QAdd (r x : Z)
| QPush (r x : Z)
| QTake
| QNoaliasTake (y : Z)
| QPeek
| QRemove (v : Z)
| QClear
| QIsEmpty
| QLength
| QTakeMatch (r : Z) (b : Z -> bool).

(** The specification: the answers of the operations on a list; taking from the
    empty list throws. *)
Definition spec_take (line : Z) : ST (list Z) (list Z) :=
  l ← get; match l with [] => lift (Thrown Cyc_Queue_Empty queue_cyc line) | x :: l => put l;; mret [x] end.

Definition spec_qop (op : qop) : ST (list Z) (list Z) :=
  match op with
  | QAdd _ x => modify (fun l => l ++ [x]);; mret []
  | QPush _ x => modify (cons x);; mret []
  | QTake => spec_take 88
  | QNoaliasTake _ => spec_take 102
  | QPeek => l ← get; match l with [] => lift (Thrown Cyc_Queue_Empty queue_cyc 121) | x :: _ => mret [x] end
  | QRemove v => modify (remove_first v);; mret []
  | QClear => put [];; mret []
  | QIsEmpty => l ← get; mret [Z.b2z (bool_decide (l = []))]
  | QLength => l ← get; mret [Z.of_nat (length l)]
  | QTakeMatch _ b => l ← get; put (take_first b l).2;; mret [default 0 (take_first b l).1]
  end.

Fixpoint spec_qops (ops : list qop) : ST (list Z) (list Z) :=
  match ops with [] => mret [] | op :: ops => a ← spec_qop op; k ← spec_qops ops; mret (a ++ k) end.

Section programs.
Context {H : Type} `{HH : Heap H} (self g q : Z).

Definition run_qop (op : qop) : ST (mem H) (list Z) :=
  match op with
  | QAdd r x => Cyc_Queue_radd self r q x;; mret []
  | QPush r x => Cyc_Queue_rpush self r q x;; mret []
  | QTake => x ← Cyc_Queue_take q; mret [x]
  | QNoaliasTake y => x ← Cyc_Queue_noalias_take q y; mret [x]
  | QPeek => x ← Cyc_Queue_peek q; mret [x]
  | QRemove v => Cyc_Queue_remove q v;; mret []
  | QClear => Cyc_Queue_clear q;; mret []
  | QIsEmpty => b ← Cyc_Queue_is_empty q; mret [Z.b2z b]
  | QLength => n ← Cyc_Queue_length q; mret [n]
  | QTakeMatch r b => x ← Cyc_Queue_take_match self g r q (fun _ x => mret (Z.b2z (b x))) 0; mret [x]
  end.

Fixpoint run_qops (ops : list qop) : ST (mem H) (list Z) :=
  match ops with [] => mret [] | op :: ops => a ← run_qop op; k ← run_qops ops; mret (a ++ k) end.

Context `{!HeapLaws H} (R : gset Z) (F : gmap Z Z) (Hg : g ∉ R) (H2 : 2 < g).

Definition qop_rgn (op : qop) : Prop :=
  match op with QAdd r _ | QPush r _ | QTakeMatch r _ => rgn_in R r | _ => True end.

(** The code returns or throws as the specification, with the list of the
    specification in the queue and the frame as it was. *)
Definition q_returns (sp : out (list Z) * list Z) (a : list Z) (m : mem H) : Prop :=
  sp.1 = Ret a /\ holds (framed (at_words R) F) q sp.2 m.
Definition q_throws (sp : out (list Z) * list Z) (e : exn) (m : mem H) : Prop :=
  (exists line, sp.1 = Thrown e queue_cyc line /\ holds (framed (at_words R) F) q sp.2 m) \/
  (e = Cyc_Bad_alloc /\ exists w, framed (at_words R) F w m).

Lemma qop_refines op l m : qop_rgn op -> holds (framed (at_words R) F) q l m ->
  wp (run_qop op) (q_returns (spec_qop op l)) (q_throws (spec_qop op l)) m.
Proof.
  intros Hop (w & Hm & Hq). set (P := framed (at_words R) F) in *.
  assert (Hoom : forall m' sp, P w m' -> q_throws sp Cyc_Bad_alloc m') by (intros m' sp Hm'; right; split; [done|]; by exists w).
  destruct op; cbn [run_qop qop_rgn] in *; wps.
  - assert (RgnAlloc P r) by (apply framed_rgn; by apply at_words_rgn).
    eapply (radd_spec self P r); [done..| |intros; by apply Hoom]. intros m' Hh. wps. by split.
  - assert (RgnAlloc P r) by (apply framed_rgn; by apply at_words_rgn).
    eapply (rpush_spec self P r); [done..| |intros; by apply Hoom]. intros m' Hh. wps. by split.
  - destruct l as [|x l].
    + destruct (empty_front q w Hq) as (e & Hh). unfold Cyc_Queue_take. wps. eapply (wp_front P); [done..|].
      apply wp_thrown. left. exists 88. split; [done|]. by exists w.
    + eapply (take_spec P); [done..|]. intros m' Hh. wps. by split.
  - destruct l as [|x l].
    + destruct (empty_front q w Hq) as (e & Hh). unfold Cyc_Queue_noalias_take. wps. eapply (wp_front P); [done..|].
      apply wp_thrown. left. exists 102. split; [done|]. by exists w.
    + eapply (noalias_take_spec P); [done..|]. intros m' Hh. wps. by split.
  - destruct l as [|x l].
    + destruct (empty_front q w Hq) as (e & Hh). unfold Cyc_Queue_peek. wps. eapply (wp_front P); [done..|].
      apply wp_thrown. left. exists 121. split; [done|]. by exists w.
    + eapply (peek_spec P); [done..|]. wps. split; [done|]. by exists w.
  - eapply (queue_remove_spec P); [done..|]. intros m' Hh. wps. by split.
  - eapply (clear_spec P); [done..|]. intros m' Hh. wps. by split.
  - eapply (is_empty_spec P); [done..|]. wps. split; [done|]. by exists w.
  - eapply (length_spec_q P); [done..|]. wps. split; [done|]. by exists w.
  - eapply wp_mono; [by eapply (take_match_spec self R F g r Hg H2 Hop _ 0 b)| |].
    + intros x m' [-> Hh]. wps. by split.
    + intros e m' [-> Hh]. by right.
Qed.
End programs.

(** C23. Queues refine lists: any program of additions at both ends, takes, peeks,
    removals, tests and [take_match] on a queue gives the answers of the same
    program on a list, throws [Empty] exactly where the list is empty, and ends
    with the list of the specification in the queue; the words [F] outside of the
    queue never change.  The only other failure is [Cyc_Bad_alloc]. *)
Theorem queue_programs_refine {H : Type} `{HH : Heap H} `{!HeapLaws H} self g q ops R (w F : gmap Z Z) l (m : mem H) :
  g ∉ R -> 2 < g -> Forall (qop_rgn R) ops -> w ##ₘ F -> at_words R (w ∪ F) m -> queue_at w q l ->
  wp (run_qops self g q ops) (q_returns q R F (spec_qops ops l)) (q_throws q R F (spec_qops ops l)) m.
Proof.
  intros Hg H2 Hops Hd Hm Hq. assert (Hh : holds (framed (at_words R) F) q l m) by (by exists w). clear w Hd Hm Hq.
  revert l m Hh. induction Hops as [|op ops Hop _ IH]; intros l m Hh.
  { cbn [run_qops]. wps. by split. }
  cbn [run_qops spec_qops]. wps. eapply wp_mono; [by apply (qop_refines self g q R F Hg H2 op l)| |].
  - intros a m1 [Ha Hh1]. destruct (spec_qop op l) as [o l1] eqn:Eo. simpl in Ha, Hh1. subst o.
    rewrite !(st_bind_run _ _ _ _ _ Eo). wps. eapply wp_mono; [by apply (IH l1)| |]; unfold mbind, st_bind.
    + intros k m2 [Hk Hh2]. wps. destruct (spec_qops ops l1) as [o l2]. simpl in Hk, Hh2. subst o. by split.
    + intros e m2 [(line & Ht & Hh2)|Hb]; [left|by right]. exists line. destruct (spec_qops ops l1) as [o l2]. simpl in Ht, Hh2. by subst o.
  - intros e m1 [(line & Ht & Hh1)|Hb]; [left|by right]. exists line. unfold mbind, st_bind.
    destruct (spec_qop op l) as [o l1]. simpl in Ht, Hh1. by subst o.
Qed.

(** ** A concrete queue *)

Definition ex_queue : Z := match (Cyc_Queue_rcreate 1 1000 ex_mem).1 with Ret x => x | _ => 0 end.
Definition ex_queue_mem : mem bump := (Cyc_Queue_rcreate 1 1000 ex_mem).2.

Lemma ex_queue_ok : exists w, at_words {[1000]} w ex_queue_mem /\ queue_at w ex_queue [].
Proof.
  assert (Hwp : wp (Cyc_Queue_rcreate 1 1000) (fun q m' => exists w, at_words {[1000]} w m' /\ queue_at w q [])
    (fun _ _ => True) ex_mem).
  { assert (RgnAlloc (at_words (H:=bump) {[1000]}) 1000) by (apply at_words_rgn; right; by apply elem_of_singleton).
    eapply (rcreate_spec 1 (at_words {[1000]}) 1000); [apply ex_mem_words|by intros|done]. }
  refine (wp_result _ _ _ _ ex_queue ex_queue_mem Hwp _). vm_compute. reflexivity.
Qed.

Definition ex_qops : list qop :=
  [QAdd 1000 3; QAdd 0 5; QPush 1000 1; QAdd 1000 8; QLength; QTakeMatch 1000 (fun x => 4 <? x); QTake; QRemove 8; QPeek; QTake; QIsEmpty].

Lemma queue_programs_refine_witness : exists m1,
  run_qops 1 5000 ex_queue ex_qops ex_queue_mem = (Ret [4; 5; 1; 3; 3; 1], m1).
Proof.
  destruct ex_queue_ok as (w & Hm & Hq). rewrite <- (map_union_empty w) in Hm.
  assert (Hg : 5000 ∉ ({[1000]} : gset Z)) by (rewrite elem_of_singleton; lia).
  assert (Hin : rgn_in {[1000]} 1000) by (right; by apply elem_of_singleton).
  assert (Hops : Forall (qop_rgn {[1000]}) ex_qops) by (repeat constructor; done || by left).
  pose proof (queue_programs_refine 1 5000 ex_queue ex_qops {[1000]} w ∅ [] ex_queue_mem Hg ltac:(lia) Hops
    (map_disjoint_empty_r w) Hm Hq) as H1.
  destruct (run_qops 1 5000 ex_queue ex_qops ex_queue_mem) as [o m1] eqn:E1.
  assert (Ho : exists a, o = Ret a) by (change o with (o, m1).1; rewrite <- E1; vm_compute; by eexists).
  destruct Ho as [a ->]. destruct (wp_result _ _ _ _ _ _ H1 E1) as [Ha _].
  assert (Hs1 : (spec_qops ex_qops []).1 = Ret [4; 5; 1; 3; 3; 1]) by reflexivity. rewrite Hs1 in Ha. injection Ha as <-.
  exists m1. reflexivity.
Defined.
