(* ===== verification/DictTree.v ===== *)
(** * Red-black trees as values

    The functions of the dictionary library on trees as Rocq values: balancing,
    insertion and search, the bindings of a tree in order, the red-black
    invariant and the height it guarantees.  DictSpec.v relates the code to
    them. *)

From stdpp Require Import sorting.
From S2P Require Import Prelude Alloc FatPtr RwLock Region RegionSafety Words CycList ListCells CycListSpec ListConv ListSort CycSet CycSetSpec.

Inductive color : Type := Red | Black.

Inductive tree : Type := Leaf | Node (c : color) (l : tree) (kv : Z * Z) (r : tree).

(** ** Operations *)

Definition tbalance_right (c : color) (l : tree) (x : Z * Z) (r : tree) : tree :=
  match r with
  | Node Red (Node Red b y c') z d => Node Red (Node Black l x b) y (Node Black c' z d)
  | Node Red b y (Node Red c' z d) => Node Red (Node Black l x b) y (Node Black c' z d)
  | _ => Node c l x r
  end.

Definition tbalance (c : color) (l : tree) (z : Z * Z) (r : tree) : tree :=
  match c, l with
  | Red, _ => Node Red l z r
  | Black, Node Red (Node Red a x b) y c' => Node Red (Node Black a x b) y (Node Black c' z r)
  | Black, Node Red a x (Node Red b y c') => Node Red (Node Black a x b) y (Node Black c' z r)
  | Black, _ => tbalance_right Black l z r
  end.

Definition blacken (t : tree) : tree :=
  match t with Leaf => Leaf | Node _ l kv r => Node Black l kv r end.

Section ops.
Context (g : Z -> Z -> Z).

Fixpoint tins (kv : Z * Z) (t : tree) : tree :=
  match t with
  | Leaf => Node Red Leaf kv Leaf
  | Node c a y b =>
      if g kv.1 y.1 <? 0 then tbalance c (tins kv a) y b
      else if 0 <? g kv.1 y.1 then tbalance c a y (tins kv b)
      else Node c a kv b
  end.

Definition tinsert (kv : Z * Z) (t : tree) : tree := blacken (tins kv t).

Fixpoint tfind (x : Z) (t : tree) : option Z :=
  match t with
  | Leaf => None
  | Node c a y b =>
      if g x y.1 <? 0 then tfind x a else if 0 <? g x y.1 then tfind x b else Some y.2
  end.
End ops.

(** The bindings in order. *)
Fixpoint elems (t : tree) : list (Z * Z) :=
  match t with Leaf => [] | Node _ l kv r => elems l ++ kv :: elems r end.

Fixpoint height (t : tree) : nat :=
  match t with Leaf => O | Node _ l _ r => S (height l `max` height r) end.

Lemma elems_balance_right c l x r : elems (tbalance_right c l x r) = elems l ++ x :: elems r.
Proof.
  destruct r as [|[] [|[] b y c'] z [|[] b2 y2 c2]]; simpl; try done;
    repeat (rewrite <- ?app_assoc; simpl); done.
Qed.

Lemma elems_balance c l x r : elems (tbalance c l x r) = elems l ++ x :: elems r.
Proof.
  destruct c; [done|]. destruct l as [|[] [|[] a y b] z [|[] b2 y2 c2]]; simpl;
    rewrite ?elems_balance_right; simpl; repeat (rewrite <- ?app_assoc; simpl); done.
Qed.

Lemma elems_blacken t : elems (blacken t) = elems t.
Proof. by destruct t. Qed.

(** ** Association lists in ascending order *)

Section alist.
Context (g : Z -> Z -> Z).

Fixpoint alist_ins (kv : Z * Z) (l : list (Z * Z)) : list (Z * Z) :=
  match l with
  | [] => [kv]
  | y :: l =>
      if g kv.1 y.1 <? 0 then kv :: y :: l
      else if 0 <? g kv.1 y.1 then y :: alist_ins kv l
      else kv :: l
  end.

Fixpoint alist_get (x : Z) (l : list (Z * Z)) : option Z :=
  match l with [] => None | y :: l => if g x y.1 =? 0 then Some y.2 else alist_get x l end.

Context `{!Comparison g}.
Abbreviation ordered l := (StronglySorted (fun u v => g u v < 0) (fst <$> (l : list (Z * Z)))).

(** Keys the comparison identifies compare alike. *)
Lemma cmp_eqv x y u : g x y = 0 -> (g x u =? 0) = (g y u =? 0).
Proof.
  intros E. pose proof (cmp_sym g x y E) as E'.
  assert (Hiff : forall x y, g x y = 0 -> g y x = 0 -> g x u = 0 -> g y u = 0).
  { intros x' y' E1 E2 E3. pose proof (cmp_sym g x' u E3).
    pose proof (cmp_trans (g:=g) y' x' u ltac:(lia) ltac:(lia)).
    pose proof (cmp_trans (g:=g) u x' y' ltac:(lia) ltac:(lia)).
    pose proof (cmp_opp y' u). pose proof (cmp_opp u y'). lia. }
  pose proof (Hiff x y E E'). pose proof (Hiff y x E' E).
  destruct (g x u =? 0) eqn:E1, (g y u =? 0) eqn:E2; lia.
Qed.

Lemma alist_get_eqv x y l : g x y = 0 -> alist_get x l = alist_get y l.
Proof.
  intros E. induction l as [|u l IH]; simpl; [done|]. by rewrite (cmp_eqv x y u.1 E), IH.
Qed.

Lemma ordered_mid l1 y l2 : ordered (l1 ++ y :: l2) <->
  ordered l1 /\ ordered l2 /\ Forall (fun u => g u.1 y.1 < 0) l1 /\ Forall (fun u => g y.1 u.1 < 0) l2.
Proof.
  rewrite fmap_app, fmap_cons, (asc_app g). split.
  - intros (H1 & H2 & H3). apply StronglySorted_inv in H2 as [H2 Hy]. split_and!; try done.
    + apply Forall_forall. intros u Hu. apply H3; [by apply list_elem_of_fmap_2|left].
    + by apply Forall_fmap in Hy.
  - intros (H1 & H2 & Hl & Hr). split_and!; [done|constructor; [done|by apply Forall_fmap]|].
    rewrite Forall_forall in Hl, Hr. intros u v (p & -> & Hp)%list_elem_of_fmap Hv.
    apply elem_of_cons in Hv as [->|Hv]; [by apply Hl|].
    apply list_elem_of_fmap in Hv as (q & -> & Hq).
    apply (cmp_lt_le g _ y.1); [by apply Hl|]. pose proof (Hr q Hq). lia.
Qed.

(** Comparisons with everything on the smaller side. *)
Lemma above_all l y x : Forall (fun u => g u.1 y < 0) l -> 0 <= g x y -> Forall (fun u : Z * Z => 0 < g x u.1) l.
Proof.
  intros Hl Hx. eapply Forall_impl; [exact Hl|]. intros u Hu. cbv beta in *. apply cmp_opp.
  apply (cmp_lt_le g _ y); [done|]. pose proof (cmp_opp x y). pose proof (cmp_opp y x). lia.
Qed.

Lemma below_all l y x : Forall (fun u => g y u.1 < 0) l -> g x y <= 0 -> Forall (fun u : Z * Z => g x u.1 < 0) l.
Proof. intros Hl Hx. eapply Forall_impl; [exact Hl|]. intros u Hu. by apply (cmp_le_lt g _ y). Qed.

Lemma alist_ins_above l1 l2 kv : Forall (fun u : Z * Z => 0 < g kv.1 u.1) l1 ->
  alist_ins kv (l1 ++ l2) = l1 ++ alist_ins kv l2.
Proof.
  induction 1 as [|u l1 Hu _ IH]; simpl; [done|]. rewrite IH.
  destruct (g kv.1 u.1 <? 0) eqn:E; [lia|]. destruct (0 <? g kv.1 u.1) eqn:E2; [done|lia].
Qed.

Lemma alist_ins_left l1 y l2 kv : g kv.1 y.1 < 0 ->
  alist_ins kv (l1 ++ y :: l2) = alist_ins kv l1 ++ y :: l2.
Proof.
  intros Hy. induction l1 as [|u l1 IH]; simpl.
  - by destruct (g kv.1 y.1 <? 0) eqn:E; [|lia].
  - rewrite IH. by destruct (g kv.1 u.1 <? 0), (0 <? g kv.1 u.1).
Qed.

Lemma alist_get_skip l1 l2 x : Forall (fun u : Z * Z => g x u.1 <> 0) l1 ->
  alist_get x (l1 ++ l2) = alist_get x l2.
Proof.
  induction 1 as [|u l1 Hu _ IH]; simpl; [done|]. destruct (g x u.1 =? 0) eqn:E; [lia|done].
Qed.

Lemma alist_get_none l x : Forall (fun u : Z * Z => g x u.1 <> 0) l -> alist_get x l = None.
Proof. intros Hl. rewrite <- (app_nil_r l). by rewrite alist_get_skip. Qed.

Lemma alist_get_left l1 l2 x : Forall (fun u : Z * Z => g x u.1 <> 0) l2 ->
  alist_get x (l1 ++ l2) = alist_get x l1.
Proof.
  intros Hl. induction l1 as [|u l1 IH]; simpl; [by apply alist_get_none|]. by rewrite IH.
Qed.

(** Insertion into an association list is insertion into a partial map. *)
Lemma alist_get_ins kv l x : ordered l ->
  alist_get x (alist_ins kv l) = if g x kv.1 =? 0 then Some kv.2 else alist_get x l.
Proof.
  induction l as [|y l IH]; simpl; [done|]. intros Ho.
  apply StronglySorted_inv in Ho as [Ho Hy].
  destruct (g kv.1 y.1 <? 0) eqn:E1; [done|]. destruct (0 <? g kv.1 y.1) eqn:E2; simpl.
  - rewrite (IH Ho). destruct (g x kv.1 =? 0) eqn:Ek; [|done].
    rewrite (cmp_eqv x kv.1 y.1) by lia. by destruct (g kv.1 y.1 =? 0) eqn:E3; [lia|].
  - destruct (g x kv.1 =? 0) eqn:Ek; [done|]. destruct (g x y.1 =? 0) eqn:Ey; [|done].
    rewrite (cmp_eqv x y.1 kv.1) in Ek by lia. pose proof (cmp_sym g kv.1 y.1 ltac:(lia)). lia.
Qed.

Lemma alist_ins_Forall (P : Z * Z -> Prop) kv l : P kv -> Forall P l -> Forall P (alist_ins kv l).
Proof.
  intros Hkv. induction 1 as [|u l Hu Hl IH]; simpl; [by constructor|].
  destruct (_ <? 0); [by constructor; [|constructor]|]. destruct (0 <? _); by constructor.
Qed.

Lemma alist_ins_ordered kv l : ordered l -> ordered (alist_ins kv l).
Proof.
  induction l as [|y l IH]; simpl; [intros _; constructor; constructor|].
  intros Ho. pose proof Ho as Ho'. apply StronglySorted_inv in Ho' as [Hl Hy].
  destruct (g kv.1 y.1 <? 0) eqn:E1; [|destruct (0 <? g kv.1 y.1) eqn:E2].
  - simpl. constructor; [done|]. constructor; [lia|].
    apply Forall_fmap. apply (below_all _ y.1); [by apply Forall_fmap in Hy|lia].
  - simpl. constructor; [by apply IH|]. apply Forall_fmap in Hy. apply Forall_fmap.
    apply alist_ins_Forall; [|done]. apply cmp_opp. lia.
  - simpl. constructor; [done|]. apply Forall_fmap. apply (below_all _ y.1); [by apply Forall_fmap in Hy|lia].
Qed.

(** An element larger than all others is added at the end. *)
Lemma alist_ins_last kv l : Forall (fun u : Z * Z => g u.1 kv.1 < 0) l -> alist_ins kv l = l ++ [kv].
Proof.
  intros Hl. rewrite <- (app_nil_r l) at 1. rewrite alist_ins_above; [done|].
  eapply Forall_impl; [exact Hl|]. intros u Hu. by apply cmp_opp.
Qed.

(** ** Trees in order *)

Lemma elems_ins kv t : ordered (elems t) -> elems (tins g kv t) = alist_ins kv (elems t).
Proof.
  induction t as [|c a IHa y b IHb]; [done|]. simpl. intros Ho.
  apply ordered_mid in Ho as (Ha & Hb & Hya & Hyb).
  destruct (g kv.1 y.1 <? 0) eqn:E1; [|destruct (0 <? g kv.1 y.1) eqn:E2].
  - rewrite elems_balance, alist_ins_left, (IHa Ha); [done|lia].
  - rewrite elems_balance, (IHb Hb), alist_ins_above; [|by apply (above_all _ y.1); [|lia]].
    simpl. by rewrite E1, E2.
  - simpl. rewrite alist_ins_above; [|by apply (above_all _ y.1); [|lia]]. simpl. by rewrite E1, E2.
Qed.

Lemma elems_insert kv t : ordered (elems t) -> elems (tinsert g kv t) = alist_ins kv (elems t).
Proof. intros Ho. unfold tinsert. by rewrite elems_blacken, elems_ins. Qed.

Lemma tfind_elems x t : ordered (elems t) -> tfind g x t = alist_get x (elems t).
Proof.
  induction t as [|c a IHa y b IHb]; [done|]. simpl. intros Ho.
  apply ordered_mid in Ho as (Ha & Hb & Hya & Hyb).
  destruct (g x y.1 <? 0) eqn:E1; [|destruct (0 <? g x y.1) eqn:E2].
  - rewrite (IHa Ha), alist_get_left; [done|]. constructor; [lia|].
    eapply Forall_impl; [apply (below_all _ y.1 x Hyb); lia|]. simpl. lia.
  - rewrite (IHb Hb), alist_get_skip; [|eapply Forall_impl; [apply (above_all _ y.1 x Hya); lia|simpl; lia]].
    simpl. destruct (g x y.1 =? 0) eqn:E3; [lia|done].
  - rewrite alist_get_skip; [|eapply Forall_impl; [apply (above_all _ y.1 x Hya); lia|simpl; lia]].
    simpl. destruct (g x y.1 =? 0) eqn:E3; [done|lia].
Qed.
End alist.

(** ** The red-black invariant *)

Definition is_red_node (t : tree) : bool := match t with Node Red _ _ _ => true | _ => false end.

(** No red node has a red child, and every path has [n] black nodes. *)
Inductive rb : nat -> tree -> Prop :=
| rb_leaf : rb 0 Leaf
| rb_red n l kv r : is_red_node l = false -> is_red_node r = false -> rb n l -> rb n r ->
    rb n (Node Red l kv r)
| rb_black n l kv r : rb n l -> rb n r -> rb (S n) (Node Black l kv r).

(** Like [rb], but the root may be red with a red child. *)
Inductive almost_rb : nat -> tree -> Prop :=
| arb_rb n t : rb n t -> almost_rb n t
| arb_red n l kv r : rb n l -> rb n r -> almost_rb n (Node Red l kv r).

Create HintDb rb.
#[export] Hint Constructors rb almost_rb : rb.

Ltac invert_rb := repeat match goal with
  | H : rb _ Leaf |- _ => inversion H; clear H; subst
  | H : rb _ (Node _ _ _ _) |- _ => inversion H; clear H; subst
  | H : almost_rb _ Leaf |- _ => inversion H; clear H; subst
  | H : almost_rb _ (Node _ _ _ _) |- _ => inversion H; clear H; subst
  end; simpl in *; try discriminate.

Lemma balance_right_rb n l x r : rb n l -> almost_rb n r -> rb (S n) (tbalance_right Black l x r).
Proof.
  intros Hl Hr. destruct r as [|[] [|[] b y c'] z [|[] b2 y2 c2]]; simpl; invert_rb; auto with rb.
Qed.

Lemma balance_left_rb n l x r : almost_rb n l -> rb n r -> rb (S n) (tbalance Black l x r).
Proof.
  intros Hl Hr. destruct l as [|[] [|[] a y b] z [|[] b2 y2 c2]]; simpl; invert_rb;
    try (apply balance_right_rb; auto with rb); auto with rb.
Qed.

(** A black node whose right subtree has been inserted into. *)
Lemma balance_rb n l x r : rb n l -> almost_rb n r -> rb (S n) (tbalance Black l x r).
Proof.
  intros Hl Hr. destruct l as [|[] [|[] a y b] z [|[] b2 y2 c2]]; simpl; invert_rb;
    apply balance_right_rb; auto with rb.
Qed.

Section rb.
Context (g : Z -> Z -> Z).

Lemma ins_rb kv n t : rb n t ->
  almost_rb n (tins g kv t) /\ (is_red_node t = false -> rb n (tins g kv t)).
Proof.
  induction 1 as [|n l x r Hl Hr Hbl IHl Hbr IHr|n l x r Hbl [IHl _] Hbr [IHr _]]; simpl; [auto with rb|..].
  - split; [|done]. destruct IHl as [_ IHl], IHr as [_ IHr]. specialize (IHl Hl). specialize (IHr Hr).
    destruct (_ <? 0); [by constructor 2|]. destruct (0 <? _); [by constructor 2|]. auto with rb.
  - assert (Hb : rb (S n) (if g kv.1 x.1 <? 0 then tbalance Black (tins g kv l) x r
                           else if 0 <? g kv.1 x.1 then tbalance Black l x (tins g kv r)
                           else Node Black l kv r)).
    { destruct (_ <? 0); [by apply balance_left_rb|]. destruct (0 <? _); [by apply balance_rb|auto with rb]. }
    auto with rb.
Qed.

Lemma insert_rb kv n t : rb n t -> exists n', rb n' (tinsert g kv t).
Proof.
  intros Ht. destruct (ins_rb kv n t Ht) as [Hi _]. unfold tinsert.
  destruct Hi as [n t' Ht'|n l x r Hl Hr]; [|exists (S n); simpl; auto with rb].
  destruct Ht'; simpl; eauto with rb.
Qed.
End rb.

(** The height is at most twice the number of black nodes on a path. *)
Lemma rb_height n t : rb n t -> (height t <= 2 * n + if is_red_node t then 1 else 0)%nat.
Proof.
  induction 1 as [|n l kv r Hl Hr _ IHl _ IHr|n l kv r _ IHl _ IHr]; simpl; [done|..].
  - rewrite Hl, Hr in *. lia.
  - destruct (is_red_node l), (is_red_node r); lia.
Qed.

(** A tree whose paths have [n] black nodes has at least [2^n - 1] bindings. *)
Lemma rb_size n t : rb n t -> 2 ^ Z.of_nat n <= Z.of_nat (length (elems t)) + 1.
Proof.
  induction 1 as [|n l kv r _ _ _ IHl _ IHr|n l kv r _ IHl _ IHr]; simpl; [done|..];
    rewrite length_app; simpl.
  - lia.
  - rewrite Nat2Z.inj_succ, Z.pow_succ_r by lia. lia.
Qed.

(** Logarithmic height. *)
Lemma rb_balanced n t : rb n t ->
  Z.of_nat (height t) <= 2 * Z.log2 (Z.of_nat (length (elems t)) + 1) + 1.
Proof.
  intros Ht. pose proof (rb_height n t Ht) as Hh. pose proof (rb_size n t Ht) as Hs.
  apply Z.log2_le_mono in Hs. rewrite Z.log2_pow2 in Hs by lia. destruct (is_red_node t); lia.
Qed.
