(* ===== verification/DictSpec.v ===== *)
(** * Correctness of the dictionary library

    Trees in word memory, and what insertion, search and traversal do to them:
    the code computes the functions of DictTree.v on the tree it is given and
    never changes a node that was there before. *)

From stdpp Require Import sorting.
From S2P Require Import Prelude Alloc FatPtr RwLock Region RegionSafety Words CycList ListCells WordMem CycListSpec ListConv ListSort CycSet CycSetSpec CycDict DictTree.

Definition color_word (c : color) : Z := match c with Red => Cyc_Dict_R | Black => Cyc_Dict_B end.

Lemma color_word_black c : (color_word c =? Cyc_Dict_B) = match c with Black => true | Red => false end.
Proof. by destruct c. Qed.

(** A node of five words at [p]. *)
Definition node (w : gmap Z Z) (p c l r : Z) (kv : Z * Z) : Prop :=
  0 < p /\ w !! p = Some c /\ w !! (p + 4) = Some l /\ w !! (p + 8) = Some r /\
  w !! (p + 12) = Some kv.1 /\ w !! (p + 16) = Some kv.2.

Fixpoint tree_at (w : gmap Z Z) (p : Z) (t : tree) : Prop :=
  match t with
  | Leaf => p = 0
  | Node c l kv r => exists pl pr, node w p (color_word c) pl pr kv /\ tree_at w pl l /\ tree_at w pr r
  end.

Lemma node_mono w w' p c l r kv : w ⊆ w' -> node w p c l r kv -> node w' p c l r kv.
Proof. intros Hw (? & ? & ? & ? & ? & ?). split_and!; try done; by eapply lookup_weaken. Qed.

Lemma tree_at_mono w w' p t : w ⊆ w' -> tree_at w p t -> tree_at w' p t.
Proof.
  intros Hw. revert p. induction t as [|c l IHl kv r IHr]; intros p; [done|].
  intros (pl & pr & Hn & Hl & Hr). exists pl, pr. split_and!; [by eapply node_mono|by apply IHl|by apply IHr].
Qed.

Lemma tree_at_0 w t : tree_at w 0 t -> t = Leaf.
Proof. destruct t; [done|]. intros (? & ? & (? & _) & _). lia. Qed.

Lemma tree_at_node w p t : tree_at w p t -> p <> 0 -> exists c l kv r, t = Node c l kv r.
Proof. destruct t; [done|]. intros _ _. by do 4 eexists. Qed.

Lemma tree_at_ne w p c l kv r : tree_at w p (Node c l kv r) -> p <> 0.
Proof. intros (? & ? & (? & _) & _). lia. Qed.

Lemma tree_at_null w p t : tree_at w p t -> is_null p = match t with Leaf => true | _ => false end.
Proof.
  destruct t as [|c l kv r]; intros Ht; [by rewrite Ht|]. apply is_null_ne. by eapply tree_at_ne.
Qed.

Lemma color_word_inj c c' : color_word c = color_word c' -> c = c'.
Proof. by destruct c, c'. Qed.

Lemma tree_at_det w p t t' : tree_at w p t -> tree_at w p t' -> t = t'.
Proof.
  revert p t'. induction t as [|c l IHl kv r IHr]; intros p t' H1 H2.
  - simpl in H1. subst p. by apply tree_at_0 in H2 as ->.
  - destruct (tree_at_node w p t' H2 (tree_at_ne _ _ _ _ _ _ H1)) as (c' & l' & kv' & r' & ->).
    destruct H1 as (pl & pr & (_ & Hc & Hl & Hr & Hk & Hv) & H1l & H1r).
    destruct H2 as (pl' & pr' & (_ & Hc' & Hl' & Hr' & Hk' & Hv') & H2l & H2r).
    assert (Ec : color_word c = color_word c') by congruence. apply color_word_inj in Ec as ->.
    destruct kv, kv'. simpl in *. simplify_eq.
    f_equal; [by eapply IHl|by eapply IHr].
Qed.

(** The nodes on a longest path are distinct. *)
Lemma tree_at_path w p t : tree_at w p t -> exists ps, length ps = height t /\ NoDup ps /\
  forall q, q ∈ ps -> is_Some (w !! q) /\ exists t', tree_at w q t' /\ (height t' <= height t)%nat.
Proof.
  revert p. induction t as [|c l IHl kv r IHr]; intros p Ht.
  { exists []. split_and!; [done|constructor|]. intros q Hq. by apply not_elem_of_nil in Hq. }
  pose proof Ht as (pl & pr & (_ & Hc & _) & Hl & Hr).
  assert (Hch : exists ps, length ps = (height l `max` height r)%nat /\ NoDup ps /\
    forall q, q ∈ ps -> is_Some (w !! q) /\
      exists t', tree_at w q t' /\ (height t' <= height l `max` height r)%nat).
  { destruct (decide (height l <= height r)%nat) as [E|E].
    - destruct (IHr pr Hr) as (ps & Hlen & Hnd & Hps). exists ps. split_and!; [lia|done|].
      intros q Hq. destruct (Hps q Hq) as (? & t' & ? & ?). split; [done|]. exists t'. split; [done|lia].
    - destruct (IHl pl Hl) as (ps & Hlen & Hnd & Hps). exists ps. split_and!; [lia|done|].
      intros q Hq. destruct (Hps q Hq) as (? & t' & ? & ?). split; [done|]. exists t'. split; [done|lia]. }
  destruct Hch as (ps & Hlen & Hnd & Hps). exists (p :: ps). split_and!; [simpl; lia| |].
  - constructor; [|done]. intros Hp. destruct (Hps p Hp) as (_ & t' & Ht' & Hh).
    rewrite (tree_at_det _ _ _ _ Ht' Ht) in Hh. simpl in Hh. lia.
  - intros q Hq. apply elem_of_cons in Hq as [->|Hq].
    + split; [by eexists|]. by exists (Node c l kv r).
    + destruct (Hps q Hq) as (? & t' & ? & ?). split; [done|]. exists t'. split; [done|]. simpl. lia.
Qed.

Lemma tree_at_height w p t : tree_at w p t -> (height t <= size w)%nat.
Proof.
  intros Ht. destruct (tree_at_path w p t Ht) as (ps & <- & Hnd & Hps).
  apply nodup_size; [done|]. intros q Hq. by apply Hps.
Qed.

(** ** New nodes *)

Definition node_words (p c l r : Z) (kv : Z * Z) (w : gmap Z Z) : gmap Z Z :=
  <[p + 16 := kv.2]> (<[p + 12 := kv.1]> (<[p + 8 := r]> (<[p + 4 := l]> (<[p := c]> w)))).

Lemma node_words_node p c l r kv w : 0 < p -> node (node_words p c l r kv w) p c l r kv.
Proof.
  intros Hp. unfold node_words. split_and!; [done|..]; rewrite ?lookup_insert_ne by lia; apply lookup_insert_eq.
Qed.

Lemma node_words_sub p c l r kv w w2 : fresh_words p 5 w -> w ⊆ w2 -> w ⊆ node_words p c l r kv w2.
Proof.
  intros Hf Hw. unfold node_words.
  repeat (apply insert_subseteq_r; [eapply fresh_absent; [exact Hf|lia..]|]). done.
Qed.

Lemma node_insert_ne w q c l r kv a v : node w q c l r kv -> a < q \/ q + 20 <= a ->
  node (<[a := v]> w) q c l r kv.
Proof. intros (? & ? & ? & ? & ? & ?) Ha. split_and!; [done|..]; rewrite lookup_insert_ne by lia; done. Qed.

Lemma node_delete_ne w q c l r kv a : node w q c l r kv -> a < q \/ q + 20 <= a ->
  node (delete a w) q c l r kv.
Proof. intros (? & ? & ? & ? & ? & ?) Ha. split_and!; [done|..]; rewrite lookup_delete_ne by lia; done. Qed.

Lemma sub_delete (w w' : gmap Z Z) p : w ⊆ w' -> w !! p = None -> w ⊆ delete p w'.
Proof.
  intros Hw Hp. apply map_subseteq_spec. intros a v Ha.
  rewrite lookup_delete_ne by congruence. by eapply lookup_weaken.
Qed.

Section spec.
Context {H : Type} `{HH : Heap H} `{!HeapLaws H} (self : Z).
Implicit Types (m : mem H) (w : gmap Z Z) (t : tree).

(** [p] is a new node with tree [t]; without its first word the memory still
    holds the subtrees, so the colour of the node may be changed. *)
Definition new_root (R : gset Z) (w : gmap Z Z) (t : tree) (p : Z) (m : mem H) : Prop :=
  exists w' c pl pr l kv r, at_words R w' m /\ w ⊆ w' /\ w !! p = None /\ t = Node c l kv r /\
    node w' p (color_word c) pl pr kv /\ tree_at (delete p w') pl l /\ tree_at (delete p w') pr r.

Lemma new_root_tree R w t p m : new_root R w t p m ->
  exists w', at_words R w' m /\ w ⊆ w' /\ tree_at w' p t.
Proof.
  intros (w' & c & pl & pr & l & kv & r & Hm & Hw & _ & -> & Hn & Hl & Hr).
  exists w'. split_and!; [done|done|]. exists pl, pr.
  pose proof (delete_subseteq w' p). split_and!; [done|by eapply tree_at_mono|by eapply tree_at_mono].
Qed.

Lemma new_root_weaken R w1 w2 t p m : w1 ⊆ w2 -> new_root R w2 t p m -> new_root R w1 t p m.
Proof.
  intros Hw (w' & c & pl & pr & l & kv & r & Hm & Hw' & Hp & Hrest).
  exists w', c, pl, pr, l, kv, r.
  split; [done|]. split; [by etrans|]. split; [by eapply lookup_weaken_None|done].
Qed.

Lemma wp_init_node R w w2 p c l r kv (Q : Z -> mem H -> Prop) E m :
  fresh_words p 5 w -> zero_words p 5 w ⊆ w2 -> at_words R w2 m ->
  (forall m', at_words R (node_words p c l r kv w2) m' -> Q p m') ->
  wp (init_node p c l r kv.1 kv.2) Q E m.
Proof.
  intros Hf Hz Hm HQ.
  assert (Hd : forall i, (i < 5)%nat -> is_Some (w2 !! (p + 4 * Z.of_nat i))).
  { intros i Hi. destruct (zero_words_lookup p 5 w i Hi) as [x Hx]. exists x. by eapply lookup_weaken. }
  unfold init_node.
  wps. eapply wp_store; [done|replace p with (p + 4 * Z.of_nat 0) by lia; apply Hd; lia|]. intros m1 Hm1.
  wps. eapply wp_store; [done|rewrite !lookup_insert_ne by lia; apply (Hd 1%nat); lia|]. intros m2 Hm2.
  wps. eapply wp_store; [done|rewrite !lookup_insert_ne by lia; apply (Hd 2%nat); lia|]. intros m3 Hm3.
  wps. eapply wp_store; [done|rewrite !lookup_insert_ne by lia; apply (Hd 3%nat); lia|]. intros m4 Hm4.
  wps. eapply wp_store; [done|rewrite !lookup_insert_ne by lia; apply (Hd 4%nat); lia|]. intros m5 Hm5.
  wps. by apply HQ.
Qed.

Lemma wp_new_node_words R w rgn (Q : Z -> mem H -> Prop) E m : at_words R w m -> rgn_in R rgn ->
  (forall p m', at_words R (zero_words p 5 w) m' -> fresh_words p 5 w -> Q p m') ->
  (forall m', at_words R w m' -> E Cyc_Bad_alloc m') -> wp (new_words self rgn 5) Q E m.
Proof. intros Hm Hr. apply wp_new_words; [done|done|]. unfold MAX_MALLOC_SIZE. simpl. lia. Qed.

Lemma wp_new_node R w rgn c l r kv (Q : Z -> mem H -> Prop) E m : at_words R w m -> rgn_in R rgn ->
  (forall p m', fresh_words p 5 w -> at_words R (node_words p c l r kv (zero_words p 5 w)) m' -> Q p m') ->
  (forall m', at_words R w m' -> E Cyc_Bad_alloc m') ->
  wp (new_node self rgn c l r kv.1 kv.2) Q E m.
Proof.
  intros Hm Hr HQ HE. unfold new_node. wps. eapply wp_new_node_words; [done|done| |done].
  intros p m1 Hm1 Hf. eapply wp_init_node; [exact Hf|done|done|]. intros m2 Hm2. by apply HQ.
Qed.

Lemma new_node_spec R w rgn c pl pr l kv r m : rgn_in R rgn -> at_words R w m ->
  tree_at w pl l -> tree_at w pr r ->
  wp (new_node self rgn (color_word c) pl pr kv.1 kv.2) (new_root R w (Node c l kv r)) (oom R w) m.
Proof.
  intros Hr Hm Hl Hrr. eapply wp_new_node; [done|done| |intros m' Hm'; by eapply oom_now].
  intros p m' Hf Hm'. pose proof (zero_words_sub _ _ _ Hf) as Hz. pose proof Hf as (Hp & _).
  assert (Hpn : w !! p = None) by (eapply fresh_absent; [exact Hf|lia..]).
  pose proof (node_words_sub p (color_word c) pl pr kv _ _ Hf Hz) as Hsub.
  pose proof (sub_delete _ _ _ Hsub Hpn) as Hsub'.
  eexists _, c, pl, pr, l, kv, r. split_and!; [exact Hm'|done|done|done|by apply node_words_node|..];
    by eapply tree_at_mono.
Qed.

(** The object of five words at [p], allocated over [w], is being filled; the
    memory is now [w']. *)
Definition filling (p : Z) (w w' : gmap Z Z) : Prop :=
  fresh_words p 5 w /\ w ⊆ w' /\ forall i, (i < 5)%nat -> is_Some (w' !! (p + 4 * Z.of_nat i)).

Lemma filling_start p w : fresh_words p 5 w -> filling p w (zero_words p 5 w).
Proof. intros Hf. split_and!; [done|by apply zero_words_sub|]. intros i. apply zero_words_lookup. Qed.

Lemma filling_mono p w w1 w2 : filling p w w1 -> w1 ⊆ w2 -> filling p w w2.
Proof.
  intros (Hf & Hw & Hd) Hw2. split_and!; [done|by etrans|]. intros i Hi.
  destruct (Hd i Hi) as [u Hu]. exists u. by eapply lookup_weaken.
Qed.

Lemma wp_filling R w w' p i a v (Q : unit -> mem H -> Prop) E m : filling p w w' -> at_words R w' m ->
  (i < 5)%nat -> a = p + 4 * Z.of_nat i ->
  (forall m', at_words R (<[a := v]> w') m' -> filling p w (<[a := v]> w') -> Q tt m') ->
  wp (store_word a v) Q E m.
Proof.
  intros (Hf & Hw & Hd) Hm Hi -> HQ. eapply wp_store; [done|by apply Hd|].
  intros m' Hm'. apply HQ; [done|]. split_and!; [done|..].
  - apply insert_subseteq_r; [eapply fresh_absent; [exact Hf|lia..]|done].
  - intros j Hj. rewrite lookup_insert. case_decide; [by eexists|by apply Hd].
Qed.

(** A node allocated meanwhile lies elsewhere. *)
Lemma wp_filling_node R w w' p rgn c l r kv (Q : Z -> mem H -> Prop) m :
  rgn_in R rgn -> filling p w w' -> at_words R w' m ->
  (forall q w2 m', at_words R w2 m' -> filling p w w2 -> w' ⊆ w2 -> node w2 q c l r kv ->
     p + 20 <= q \/ q + 20 <= p -> Q q m') ->
  wp (new_node self rgn c l r kv.1 kv.2) Q (oom R w) m.
Proof.
  intros Hr Hfl Hm HQ. pose proof Hfl as (_ & Hw & Hd).
  eapply wp_new_node; [done|done| |intros m' Hm'; by eapply oom_now].
  intros q m' Hf Hm'. pose proof Hf as (Hq & _ & _ & Hqd).
  pose proof (node_words_sub q c l r kv _ _ Hf (zero_words_sub _ _ _ Hf)) as Hsub.
  eapply HQ; [exact Hm'|by eapply filling_mono|done|by apply node_words_node|].
  pose proof (fun i Hi => Hqd _ (Hd i Hi)) as Hdj.
  pose proof (Hdj 0%nat ltac:(lia)). pose proof (Hdj 1%nat ltac:(lia)). pose proof (Hdj 2%nat ltac:(lia)).
  pose proof (Hdj 3%nat ltac:(lia)). pose proof (Hdj 4%nat ltac:(lia)). lia.
Qed.

(** The three nodes of a rotation. *)
Lemma new_nodes_spec R w rgn pa pb pc pd a b c d x y z m : rgn_in R rgn -> at_words R w m ->
  tree_at w pa a -> tree_at w pb b -> tree_at w pc c -> tree_at w pd d ->
  wp (new_nodes self rgn pa pb x pc pd z y)
    (new_root R w (Node Red (Node Black a x b) y (Node Black c z d))) (oom R w) m.
Proof.
  intros Hr Hm Ha Hb Hc Hd. unfold new_nodes.
  wps. eapply wp_new_node_words; [done|done| |intros m' Hm'; by eapply oom_now].
  intros p m1 Hm1 Hf. pose proof Hf as (Hp & _). pose proof (filling_start p w Hf) as Hf1.
  wps. eapply (wp_filling _ _ _ _ 0); [exact Hf1|done|lia|lia|]. intros m2 Hm2 Hf2.
  wps. eapply wp_filling_node; [done|exact Hf2|done|]. intros q w2 m3 Hm3 Hf3 Hw2 Hq Hpq.
  wps. eapply (wp_filling _ _ _ _ 1); [exact Hf3|done|lia|lia|]. intros m4 Hm4 Hf4.
  apply (node_insert_ne _ _ _ _ _ _ (p + 4) q) in Hq; [|lia].
  wps. eapply wp_filling_node; [done|exact Hf4|done|]. intros s w3 m5 Hm5 Hf5 Hw3 Hs Hps.
  wps. eapply (wp_filling _ _ _ _ 2); [exact Hf5|done|lia|lia|]. intros m6 Hm6 Hf6.
  wps. eapply (wp_filling _ _ _ _ 3); [exact Hf6|done|lia|lia|]. intros m7 Hm7 Hf7.
  wps. eapply (wp_filling _ _ _ _ 4); [exact Hf7|done|lia|lia|]. intros m8 Hm8 (_ & Hsub & _). wps.
  assert (Hpn : w !! p = None) by (eapply fresh_absent; [exact Hf|lia..]).
  pose proof (sub_delete _ _ _ Hsub Hpn) as Hdel.
  eexists _, Red, q, s, (Node Black a x b), y, (Node Black c z d). split_and!; [exact Hm8|done|done|done|..].
  - assert (Hp0 : <[p := Cyc_Dict_R]> (zero_words p 5 w) !! p = Some Cyc_Dict_R) by apply lookup_insert_eq.
    assert (Hp4 : <[p + 4 := q]> w2 !! (p + 4) = Some q) by apply lookup_insert_eq.
    split_and!; [done|..]; rewrite ?lookup_insert_ne by lia; try apply lookup_insert_eq.
    + eapply lookup_weaken; [|exact Hw3]. rewrite lookup_insert_ne by lia. by eapply lookup_weaken.
    + by eapply lookup_weaken.
  - exists pa, pb. split_and!; [|by eapply tree_at_mono..].
    apply node_delete_ne; [|lia]. repeat (apply node_insert_ne; [|lia]). by eapply node_mono.
  - exists pc, pd. split_and!; [|by eapply tree_at_mono..].
    apply node_delete_ne; [|lia]. by repeat (apply node_insert_ne; [|lia]).
Qed.

(** ** Reading a node *)

Section reads.
Context R w p c l r kv m (Hm : at_words R w m) (Hn : node w p c l r kv).

Lemma wp_n_color (Q : Z -> mem H -> Prop) E : Q c m -> wp (n_color p) Q E m.
Proof. intros HQ. eapply wp_load; [exact Hm|apply Hn|done]. Qed.
Lemma wp_n_left (Q : Z -> mem H -> Prop) E : Q l m -> wp (n_left p) Q E m.
Proof. intros HQ. eapply wp_load; [exact Hm|apply Hn|done]. Qed.
Lemma wp_n_right (Q : Z -> mem H -> Prop) E : Q r m -> wp (n_right p) Q E m.
Proof. intros HQ. eapply wp_load; [exact Hm|apply Hn|done]. Qed.
Lemma wp_n_key (Q : Z -> mem H -> Prop) E : Q kv.1 m -> wp (n_key p) Q E m.
Proof. intros HQ. eapply wp_load; [exact Hm|apply Hn|done]. Qed.
Lemma wp_n_val (Q : Z -> mem H -> Prop) E : Q kv.2 m -> wp (n_val p) Q E m.
Proof. intros HQ. eapply wp_load; [exact Hm|apply Hn|done]. Qed.
Lemma wp_n_key_val (Q : Z * Z -> mem H -> Prop) E : Q kv m -> wp (n_key_val p) Q E m.
Proof.
  intros HQ. unfold n_key_val. wps. apply wp_n_key. wps. apply wp_n_val. wps. by destruct kv.
Qed.
End reads.

Lemma wp_is_red R w p t (Q : bool -> mem H -> Prop) E m : at_words R w m -> tree_at w p t ->
  Q (is_red_node t) m -> wp (is_red p) Q E m.
Proof.
  intros Hm Ht HQ. unfold is_red. rewrite (tree_at_null w p t Ht).
  destruct t as [|c l kv r]; [by apply wp_ret|].
  destruct Ht as (pl & pr & Hn & _). wps. eapply wp_n_color; [exact Hm|exact Hn|]. wps.
  by destruct c.
Qed.

End spec.

(** Symbolic execution of reads from the nodes in the context. *)
Ltac node_step := lazymatch goal with
  | |- wp (mbind _ _) _ _ _ => apply wp_bind
  | |- wp (mret _) _ _ _ => apply wp_ret
  | |- wp (n_color _) _ _ _ => eapply wp_n_color; [eassumption|eassumption|]
  | |- wp (n_left _) _ _ _ => eapply wp_n_left; [eassumption|eassumption|]
  | |- wp (n_right _) _ _ _ => eapply wp_n_right; [eassumption|eassumption|]
  | |- wp (n_key _) _ _ _ => eapply wp_n_key; [eassumption|eassumption|]
  | |- wp (n_val _) _ _ _ => eapply wp_n_val; [eassumption|eassumption|]
  | |- wp (n_key_val _) _ _ _ => eapply wp_n_key_val; [eassumption|eassumption|]
  | |- wp (is_red _) _ _ _ => eapply wp_is_red; [eassumption|eassumption|]
  end; cbn [is_red_node].
Ltac node_steps := repeat node_step.

Section programs.
Context {H : Type} `{HH : Heap H} `{!HeapLaws H} (self : Z).
Implicit Types (m : mem H) (w : gmap Z Z) (t : tree).

(** ** Balancing *)

Lemma balance_right_spec R w rgn c pl pr l kv r m : rgn_in R rgn -> at_words R w m ->
  tree_at w pl l -> tree_at w pr r ->
  wp (balance_right self rgn (color_word c) pl pr kv) (new_root R w (tbalance_right c l kv r)) (oom R w) m.
Proof.
  intros Hr Hm Hl Hrr. unfold balance_right.
  pose proof (new_node_spec self R w rgn c pl pr l kv r m Hr Hm Hl Hrr) as Hplain.
  node_step. node_step. destruct r as [|[] b z d]; [exact Hplain| |exact Hplain]. cbn [is_red_node].
  pose proof Hrr as (pb & pd & Hn & Hb & Hd). node_steps.
  destruct b as [|[] b y c']; cbn [is_red_node].
  2: { destruct Hb as (pb' & pc & Hnb & Hb & Hc). node_steps. by apply new_nodes_spec. }
  all: node_steps; destruct d as [|[] c2 z2 d]; cbn [is_red_node]; [exact Hplain| |exact Hplain].
  all: destruct Hd as (pc & pd' & Hnd & Hc & Hd); node_steps; by apply new_nodes_spec.
Qed.

Lemma balance_spec R w rgn c pl pr l kv r m : rgn_in R rgn -> at_words R w m ->
  tree_at w pl l -> tree_at w pr r ->
  wp (Cyc_Dict_balance self rgn (color_word c) pl pr kv) (new_root R w (tbalance c l kv r)) (oom R w) m.
Proof.
  intros Hr Hm Hl Hrr. unfold Cyc_Dict_balance. rewrite color_word_black.
  destruct c; [by apply (new_node_spec self R w rgn Red pl pr l kv r m)|].
  pose proof (balance_right_spec R w rgn Black pl pr l kv r m Hr Hm Hl Hrr) as Hplain.
  node_step. node_step. destruct l as [|[] a y c]; [exact Hplain| |exact Hplain]. cbn [is_red_node].
  pose proof Hl as (pa & pc & Hn & Ha & Hc). node_steps.
  destruct a as [|[] a x b]; cbn [is_red_node].
  2: { destruct Ha as (pa' & pb & Hna & Ha & Hb). node_steps. by apply new_nodes_spec. }
  all: node_steps; destruct c as [|[] b2 y2 c]; cbn [is_red_node]; [exact Hplain| |exact Hplain].
  all: destruct Hc as (pb & pc' & Hnc & Hb & Hc); node_steps; by apply new_nodes_spec.
Qed.

(** ** Insertion *)

Context (call : Z -> Z -> Z -> ST (mem H) Z) (rel : Z) (g : Z -> Z -> Z).
Context (Hpure : pure2 (call rel) g).

Lemma ins_spec fuel R w rgn kv p t m : rgn_in R rgn -> at_words R w m -> tree_at w p t ->
  (height t < fuel)%nat ->
  wp (ins self call fuel rgn rel kv p) (new_root R w (tins g kv t)) (oom R w) m.
Proof.
  intros Hr. revert w p t m. induction fuel as [|fuel IH]; intros w p t m Hm Ht Hh; [lia|].
  cbn [ins]. rewrite (tree_at_null w p t Ht). destruct t as [|c a y b].
  { by apply (new_node_spec self R w rgn Red 0 0 Leaf kv Leaf m). }
  pose proof Ht as (pa & pb & Hn & Ha & Hb). simpl in Hh. node_steps. eapply wp_pure2; [exact Hpure|].
  cbn [tins]. destruct (g kv.1 y.1 <? 0); [|destruct (0 <? g kv.1 y.1)].
  - node_step. eapply wp_mono; [apply (IH w pa a m); [done|done|lia]| |done].
    intros pa' m1 Hroot. apply new_root_tree in Hroot as (w1 & Hm1 & Hw1 & Ha').
    eapply wp_mono; [apply (balance_spec R w1 rgn c pa' pb (tins g kv a) y b m1)|..]; try done.
    + by eapply tree_at_mono.
    + intros q m2. by apply new_root_weaken.
    + intros e m2. by apply oom_mono.
  - node_step. eapply wp_mono; [apply (IH w pb b m); [done|done|lia]| |done].
    intros pb' m1 Hroot. apply new_root_tree in Hroot as (w1 & Hm1 & Hw1 & Hb').
    eapply wp_mono; [apply (balance_spec R w1 rgn c pa pb' a y (tins g kv b) m1)|..]; try done.
    + by eapply tree_at_mono.
    + intros q m2. by apply new_root_weaken.
    + intros e m2. by apply oom_mono.
  - by apply new_node_spec.
Qed.

(** The tree [t] of a dictionary with root [d_t d]. *)
Definition dict_tree (w : gmap Z Z) (d : Cyc_Dict_Dict) (t : tree) : Prop :=
  d_rel d = rel /\ tree_at w (d_t d) t.

(** A dictionary with tree [t] made while every word of [w] was kept. *)
Definition dict_result (R : gset Z) (w : gmap Z Z) (rgn : Z) (t : tree) (d : Cyc_Dict_Dict) (m : mem H) : Prop :=
  d_r d = rgn /\ exists w', at_words R w' m /\ w ⊆ w' /\ dict_tree w' d t.

Lemma insert_tree_spec R w d t k v m : rgn_in R (d_r d) -> at_words R w m -> dict_tree w d t ->
  wp (Cyc_Dict_insert self call d k v) (dict_result R w (d_r d) (tinsert g (k, v) t)) (oom R w) m.
Proof.
  intros Hr Hm [Hrel Ht]. unfold Cyc_Dict_insert, Cyc_Dict_ins. rewrite Hrel. wps.
  eapply wp_with_fuel; [done|]. eapply wp_mono; [apply (ins_spec _ R w _ (k, v) (d_t d) t); try done| |done].
  { pose proof (tree_at_height w _ t Ht). lia. }
  intros p m1 (w' & c & pl & pr & l & kv & r & Hm1 & Hw & Hp & Et & Hn & Hl & Hrr).
  pose proof Hn as (Hp0 & Hc & H1 & H2 & H3 & H4).
  wps. apply wp_check_null; [lia|]. wps. eapply wp_store; [done|by eexists|]. intros m2 Hm2. wps.
  split; [done|]. eexists. split; [exact Hm2|]. split; [by apply insert_subseteq_r|].
  split; [done|]. unfold tinsert. rewrite Et. simpl.
  assert (Hsub : delete p w' ⊆ <[p := Cyc_Dict_B]> w').
  { rewrite <- insert_delete_eq. apply insert_subseteq, lookup_delete_eq. }
  exists pl, pr. split_and!; [|by eapply tree_at_mono..].
  split_and!; [done|by rewrite lookup_insert_eq|..]; rewrite lookup_insert_ne by lia; done.
Qed.

(** ** Search *)

(** The node found: null when the key is absent. *)
Definition found (w : gmap Z Z) (x : Z) (t : tree) (q : Z) : Prop :=
  match tfind g x t with
  | None => q = 0
  | Some v => 0 < q /\ w !! (q + 16) = Some v
  end.

Lemma find_node_spec R w x p t E m : at_words R w m -> tree_at w p t ->
  wp (find_node call rel x p) (fun q m' => m' = m /\ found w x t q) E m.
Proof.
  intros Hm Ht. unfold find_node. eapply wp_with_fuel; [done|].
  set (I := fun (k : nat) q m' => m' = m /\ exists t', tree_at w q t' /\ k = height t' /\
    tfind g x t' = tfind g x t).
  apply (wp_loop _ I) with (k := height t).
  2: { split; [done|]. by exists t. }
  2: { pose proof (tree_at_height w p t Ht). lia. }
  intros k q ? (-> & t' & Ht' & -> & Hf). rewrite (tree_at_null w q t' Ht').
  destruct t' as [|c a y b].
  { wps. split; [done|]. unfold found. by rewrite <- Hf. }
  pose proof Ht' as (pa & pb & Hn & Ha & Hb). node_steps. eapply wp_pure2; [exact Hpure|].
  simpl in Hf. destruct (g x y.1 <? 0); [|destruct (0 <? g x y.1)]; node_steps.
  - exists (height a). split; [simpl; lia|]. split; [done|]. by exists a.
  - exists (height b). split; [simpl; lia|]. split; [done|]. by exists b.
  - split; [done|]. unfold found. rewrite <- Hf. pose proof Hn as (? & _ & _ & _ & _ & ?). done.
Qed.

Lemma found_null w x t q : found w x t q -> is_null q = match tfind g x t with None => true | _ => false end.
Proof. unfold found. destruct (tfind g x t); [intros [? _]; apply is_null_ne; lia|by intros ->]. Qed.

Lemma member_tree_spec R w d t x E m : at_words R w m -> dict_tree w d t ->
  wp (Cyc_Dict_member call d x) (fun b m' => m' = m /\ b = match tfind g x t with None => false | _ => true end) E m.
Proof.
  intros Hm [Hrel Ht]. unfold Cyc_Dict_member. rewrite Hrel. wps.
  eapply wp_mono; [by apply (find_node_spec R w x _ t)| |done].
  intros q m' [-> Hf]. wps. split; [done|]. rewrite (found_null _ _ _ _ Hf). by destruct (tfind g x t).
Qed.

(** Absent keys throw. *)
Lemma lookup_tree_spec R w d t x m : at_words R w m -> dict_tree w d t ->
  wp (Cyc_Dict_lookup call d x) (fun v m' => m' = m /\ tfind g x t = Some v)
    (fun e m' => m' = m /\ e = Cyc_Dict_Absent /\ tfind g x t = None) m.
Proof.
  intros Hm [Hrel Ht]. unfold Cyc_Dict_lookup. rewrite Hrel. wps.
  eapply wp_mono; [by apply (find_node_spec R w x _ t (fun _ _ => False))| |done].
  intros q m' [-> Hf]. rewrite (found_null _ _ _ _ Hf). unfold found in Hf.
  destruct (tfind g x t) as [v|]; [|by apply wp_thrown].
  destruct Hf as [_ Hv]. by eapply wp_load.
Qed.
End programs.
