(* ===== verification/DictRefine.v ===== *)
(** * The dictionary library implements finite maps

    Traversals, copies, filters and deletion on trees in memory; the invariant
    of dictionaries (nodes in order, red-black) and that the operations keep it;
    programs of dictionary operations give the answers of a partial map. *)

From stdpp Require Import sorting.
From S2P Require Import Prelude Alloc FatPtr RwLock Region RegionSafety Words CycList ListCells WordMem CycListSpec ListConv ListSort CycSet CycSetSpec SetRefine CycDict DictTree DictSpec.

Abbreviation ordered g l := (StronglySorted (fun u v => g u v < 0) (fst <$> (l : list (Z * Z)))).

(** The bindings whose keys differ from [x]. *)
Definition without (g : Z -> Z -> Z) (x : Z) (l : list (Z * Z)) : list (Z * Z) :=
  filter (fun kv => g x kv.1 <> 0) l.

Section lists.
Context (g : Z -> Z -> Z) `{!Comparison g}.

Lemma alist_get_without x y l : alist_get g y (without g x l) = if g y x =? 0 then None else alist_get g y l.
Proof.
  induction l as [|u l IH]; simpl; [by destruct (_ =? _)|]. unfold without in *. rewrite filter_cons.
  destruct (g y x =? 0) eqn:E; case_decide as Eu; simpl; rewrite IH; [| |done|].
  - rewrite (cmp_eqv g y x u.1) by lia. by destruct (g x u.1 =? 0) eqn:E1; [lia|].
  - done.
  - destruct (g y u.1 =? 0) eqn:E1; [|done].
    rewrite (cmp_eqv g y u.1 x) in E by lia.
    assert (E0 : g x u.1 = 0) by (destruct (decide (g x u.1 = 0)); [done|by destruct Eu]).
    pose proof (cmp_sym g x u.1 E0). lia.
Qed.

Lemma filter_Forall (P Q : Z * Z -> Prop) `{forall x, Decision (P x)} l : Forall Q l -> Forall Q (filter P l).
Proof. rewrite !Forall_forall. intros Hl x Hx. apply Hl. by apply list_elem_of_filter in Hx as [_ ?]. Qed.

Lemma filter_ordered (P : Z * Z -> Prop) `{forall x, Decision (P x)} l : ordered g l -> ordered g (filter P l).
Proof.
  induction l as [|u l IH]; [done|]. rewrite fmap_cons. intros Ho. apply StronglySorted_inv in Ho as [Ho Hu].
  rewrite filter_cons. case_decide; [|by apply IH]. rewrite fmap_cons. constructor; [by apply IH|].
  apply Forall_fmap in Hu. apply Forall_fmap. by apply filter_Forall.
Qed.
End lists.

Section refine.
Context {H : Type} `{HH : Heap H} `{!HeapLaws H} (self : Z).
Context (call : Z -> Z -> Z -> ST (mem H) Z) (rel : Z) (g : Z -> Z -> Z).
Context (Hpure : pure2 (call rel) g) `{!Comparison g}.
Implicit Types (m : mem H) (w : gmap Z Z) (t : tree).

(** ** Traversal *)

(** A traversal of [t] in [w] calls [f] on the bindings in order.  [L] are the
    bindings of the whole tree and [I] relates those already visited to the
    accumulator and the memory. *)
Lemma walk_spec {A} R w (f : Z -> Z -> A -> ST (mem H) A) (I : list (Z * Z) -> A -> gmap Z Z -> Prop) L :
  (forall pre kv post acc w1 m, pre ++ kv :: post = L -> w ⊆ w1 -> at_words R w1 m -> I pre acc w1 ->
     wp (f kv.1 kv.2 acc) (fun acc' m' => exists w2, at_words R w2 m' /\ w1 ⊆ w2 /\ I (pre ++ [kv]) acc' w2)
       (oom R w) m) ->
  forall fuel t p pre post acc w1 m, tree_at w p t -> p <> 0 -> (height t <= fuel)%nat ->
  pre ++ elems t ++ post = L -> w ⊆ w1 -> at_words R w1 m -> I pre acc w1 ->
  wp (walk_tree fuel f p acc)
    (fun acc' m' => exists w2, at_words R w2 m' /\ w1 ⊆ w2 /\ I (pre ++ elems t) acc' w2) (oom R w) m.
Proof.
  intros Hf. induction fuel as [|fuel IH]; intros t p pre post acc w1 m Ht Hp Hh HL Hw Hm HI;
    destruct (tree_at_node w p t Ht Hp) as (c & l & kv & r & ->); simpl in Hh; [lia|].
  pose proof (tree_at_mono _ _ _ _ Hw Ht) as (pl & pr & Hn & Hl1 & Hr1).
  assert (Hsub : tree_at w pl l /\ tree_at w pr r).
  { destruct Ht as (pl' & pr' & Hn' & Hl & Hr). apply (node_mono _ w1) in Hn'; [|done].
    destruct Hn as (_ & _ & E1 & E2 & _), Hn' as (_ & _ & E1' & E2' & _). by simplify_eq. }
  destruct Hsub as [Hl Hr]. cbn [walk_tree]. node_steps. simpl in HL. rewrite <- app_assoc in HL. simpl in HL.
  assert (Hleft : wp (if is_null pl then mret acc else walk_tree fuel f pl acc)
    (fun acc' m' => exists w2, at_words R w2 m' /\ w1 ⊆ w2 /\ I (pre ++ elems l) acc' w2) (oom R w) m).
  { rewrite (tree_at_null _ _ _ Hl). destruct l as [|c' ll kv' lr].
    - wps. exists w1. by rewrite app_nil_r.
    - apply (IH (Node c' ll kv' lr) pl pre (kv :: elems r ++ post)); try done; [by eapply tree_at_ne|lia]. }
  eapply wp_mono; [exact Hleft| |done]. intros acc1 m1 (w2 & Hm1 & Hw2 & HI1). apply wp_bind.
  eapply wp_mono; [eapply (Hf (pre ++ elems l) kv (elems r ++ post)); [by rewrite <- app_assoc|by etrans|done..]| |done].
  intros acc2 m2 (w3 & Hm2 & Hw3 & HI2). rewrite (tree_at_null _ _ _ Hr).
  assert (Hw13 : w1 ⊆ w3) by (by etrans).
  assert (E : pre ++ elems (Node c l kv r) = ((pre ++ elems l) ++ [kv]) ++ elems r).
  { simpl. by rewrite <- !app_assoc. }
  rewrite E. destruct r as [|c' rl kv' rr].
  - wps. exists w3. by rewrite app_nil_r.
  - eapply wp_mono; [apply (IH (Node c' rl kv' rr) pr ((pre ++ elems l) ++ [kv]) post _ w3)| |done]; try done.
    + by eapply tree_at_ne.
    + lia.
    + by rewrite <- !app_assoc.
    + by etrans.
    + intros acc3 m3 (w4 & Hm3 & Hw4 & HI3). exists w4. split_and!; [done|by etrans|done].
Qed.

Lemma fold_c_spec {E A} R w (f : E -> Z -> Z -> A -> ST (mem H) A) env (I : list (Z * Z) -> A -> gmap Z Z -> Prop)
    d t acc m :
  (forall pre kv post acc w1 m, pre ++ kv :: post = elems t -> w ⊆ w1 -> at_words R w1 m -> I pre acc w1 ->
     wp (f env kv.1 kv.2 acc) (fun acc' m' => exists w2, at_words R w2 m' /\ w1 ⊆ w2 /\ I (pre ++ [kv]) acc' w2)
       (oom R w) m) ->
  at_words R w m -> tree_at w (d_t d) t -> I [] acc w ->
  wp (Cyc_Dict_fold_c f env d acc)
    (fun acc' m' => exists w2, at_words R w2 m' /\ w ⊆ w2 /\ I (elems t) acc' w2) (oom R w) m.
Proof.
  intros Hf Hm Ht HI. unfold Cyc_Dict_fold_c, Cyc_Dict_fold_tree_c. rewrite (tree_at_null _ _ _ Ht).
  destruct t as [|c l kv r]; [wps; by exists w|]. eapply wp_with_fuel; [done|].
  apply (walk_spec R w (f env) I (elems (Node c l kv r)) Hf (S (size w)) (Node c l kv r) (d_t d) [] [] acc w m); try done.
  - by eapply tree_at_ne.
  - pose proof (tree_at_height _ _ _ Ht). lia.
  - by rewrite app_nil_r.
Qed.

(** ** Copies *)

Lemma copy_tree_spec fuel R w r2 p t m : rgn_in R r2 -> at_words R w m -> tree_at w p t ->
  (height t < fuel)%nat ->
  wp (copy_tree self fuel r2 p) (fun q m' => exists w', at_words R w' m' /\ w ⊆ w' /\ tree_at w' q t)
    (oom R w) m.
Proof.
  intros Hr. revert w p t m. induction fuel as [|fuel IH]; intros w p t m Hm Ht Hh; [lia|].
  cbn [copy_tree]. rewrite (tree_at_null _ _ _ Ht). destruct t as [|c l kv r]; [wps; by exists w|].
  pose proof Ht as (pl & pr & Hn & Hl & Hrr). simpl in Hh. node_steps.
  eapply wp_mono; [apply (IH w pl l m); [done|done|lia]| |done]. intros ql m1 (w1 & Hm1 & Hw1 & Hql).
  apply wp_bind. eapply wp_mono; [apply (IH w1 pr r m1); [done|by eapply tree_at_mono|lia]| |].
  2: { intros e m2. by apply oom_mono. }
  intros qr m2 (w2 & Hm2 & Hw2 & Hqr). assert (Hw : w ⊆ w2) by (by etrans).
  eapply wp_mono; [apply (new_node_spec self R w2 r2 c ql qr l kv r m2); [done|done|by apply (tree_at_mono w1)|done]| |].
  2: { intros e m3. by apply oom_mono. }
  intros q m3 Hroot. apply new_root_tree in Hroot as (w3 & Hm3 & Hw3 & Hq). exists w3.
  split_and!; [done|by etrans|done].
Qed.

(** ** Well-formed dictionaries *)

(** The type of dictionaries: [l] are the bindings of [d] in order of their
    keys; the nodes form a red-black tree. *)
Definition dict_at (R : gset Z) (w : gmap Z Z) (d : Cyc_Dict_Dict) (l : list (Z * Z)) : Prop :=
  rgn_in R (d_r d) /\ ordered g l /\ exists t n, dict_tree rel w d t /\ elems t = l /\ rb n t.

(** [d] is a dictionary with the bindings [l]; every word of [w] was kept. *)
Definition made (R : gset Z) (w : gmap Z Z) (l : list (Z * Z)) (d : Cyc_Dict_Dict) (m : mem H) : Prop :=
  exists w', at_words R w' m /\ w ⊆ w' /\ dict_at R w' d l.

Lemma dict_at_mono R w w' d l : w ⊆ w' -> dict_at R w d l -> dict_at R w' d l.
Proof.
  intros Hw (Hr & Ho & t & n & [Hrel Ht] & Hl & Hrb). split; [done|]. split; [done|].
  exists t, n. split; [|done]. split; [done|]. by eapply tree_at_mono.
Qed.

Lemma dict_at_empty R w r : rgn_in R r -> dict_at R w (mk_dict rel r 0) [].
Proof. intros Hr. split; [done|]. split; [constructor|]. exists Leaf, O. split_and!; [done|done|constructor]. Qed.

Lemma dict_insert_spec R w d l k v m : at_words R w m -> dict_at R w d l ->
  wp (Cyc_Dict_insert self call d k v)
    (fun d' m' => d_r d' = d_r d /\ made R w (alist_ins g (k, v) l) d' m') (oom R w) m.
Proof.
  intros Hm (Hr & Ho & t & n & Hd & Hl & Hrb).
  eapply wp_mono; [by apply (insert_tree_spec self call rel g Hpure R w d t)| |done].
  intros d' m' (Hr' & w' & Hm' & Hw' & Hd'). split; [done|]. exists w'. split_and!; [done|done|].
  destruct (insert_rb g (k, v) n t Hrb) as (n' & Hrb').
  split; [by rewrite Hr'|]. split; [by apply alist_ins_ordered|].
  exists (tinsert g (k, v) t), n'. split_and!; [done| |done]. rewrite elems_insert; congruence.
Qed.

Lemma dict_member_spec R w d l x E m : at_words R w m -> dict_at R w d l ->
  wp (Cyc_Dict_member call d x)
    (fun b m' => m' = m /\ b = match alist_get g x l with None => false | _ => true end) E m.
Proof.
  intros Hm (Hr & Ho & t & n & Hd & <- & Hrb). rewrite <- tfind_elems by done.
  by apply (member_tree_spec call rel g Hpure R w).
Qed.

Lemma lookup_spec R w d l x m : at_words R w m -> dict_at R w d l ->
  wp (Cyc_Dict_lookup call d x) (fun v m' => m' = m /\ alist_get g x l = Some v)
    (fun e m' => m' = m /\ e = Cyc_Dict_Absent /\ alist_get g x l = None) m.
Proof.
  intros Hm (Hr & Ho & t & n & Hd & <- & Hrb). rewrite <- tfind_elems by done.
  by apply (lookup_tree_spec call rel g Hpure R w).
Qed.

Lemma rcopy_spec R w r2 d l m : rgn_in R r2 -> at_words R w m -> dict_at R w d l ->
  wp (Cyc_Dict_rcopy self r2 d) (made R w l) (oom R w) m.
Proof.
  intros Hr2 Hm (Hr & Ho & t & n & [Hrel Ht] & Hl & Hrb). unfold Cyc_Dict_rcopy, Cyc_Dict_copy_tree.
  wps. eapply wp_with_fuel; [done|].
  eapply wp_mono; [apply (copy_tree_spec _ R w r2 _ t); try done; pose proof (tree_at_height _ _ _ Ht); lia| |done].
  intros q m1 (w' & Hm1 & Hw & Hq). wps. exists w'. split_and!; [done|done|]. split; [done|]. split; [done|].
  exists t, n. by split_and!.
Qed.

(** ** Filters *)

(** The test [f env] only looks at its arguments. *)
Definition tests {E} (f : E -> Z -> Z -> ST (mem H) bool) (env : E) (P : Z * Z -> bool) : Prop :=
  forall k v m, f env k v m = (Ret (P (k, v)), m).

Lemma rfilter_c_spec {E} R w r2 (f : E -> Z -> Z -> ST (mem H) bool) env P d l m :
  tests f env P -> rgn_in R r2 -> at_words R w m -> dict_at R w d l ->
  wp (Cyc_Dict_rfilter_c self call r2 f env d) (made R w (filter (fun kv => P kv = true) l)) (oom R w) m.
Proof.
  intros Hf Hr2 Hm (Hr & Ho & t & n & [Hrel Ht] & Hl & Hrb). unfold Cyc_Dict_rfilter_c, Cyc_Dict_rempty.
  apply wp_bind, wp_ret. rewrite Hrel.
  set (I := fun (pre : list (Z * Z)) acc w1 => d_r acc = r2 /\ dict_at R w1 acc (filter (fun kv => P kv = true) pre)).
  eapply wp_mono; [apply (fold_c_spec R w _ _ I d t)| |done]; try done.
  - intros pre kv post acc w1 m1 Hpre Hw1 Hm1 [Hr1 Hacc]. unfold Cyc_Dict_filter_c_f. simpl.
    apply wp_bind. eapply wp_run; [by apply Hf|]. destruct kv as [k v]. simpl. unfold I.
    rewrite filter_app, filter_cons, filter_nil.
    destruct (P (k, v)) eqn:EP.
    2: { case_decide; [done|]. wps. exists w1. rewrite app_nil_r. by split_and!. }
    case_decide as Hd; [|done]. clear Hd.
    eapply wp_mono; [by apply (dict_insert_spec R w1)| |intros e m'; by apply oom_mono].
    intros d' m' (Hr' & w2 & Hm' & Hw2 & Hd'). exists w2. split_and!; [done|done|congruence|].
    rewrite <- (alist_ins_last g (k, v)); [done|]. rewrite <- Hl, <- Hpre in Ho.
    apply ordered_mid in Ho as (_ & _ & Hlt & _); [|done]. by apply filter_Forall.
  - split; [done|]. by apply dict_at_empty.
  - intros d' m' (w2 & Hm' & Hw2 & _ & Hd'). exists w2. rewrite <- Hl. by split_and!.
Qed.

Lemma delete_tests x : tests (Cyc_Dict_delete_f call) (rel, x) (fun kv => negb (g x kv.1 =? 0)).
Proof. intros k v m. unfold Cyc_Dict_delete_f. simpl. unfold mbind, st_bind. by rewrite Hpure. Qed.

Lemma filter_without x l : filter (fun kv => negb (g x kv.1 =? 0) = true) l = without g x l.
Proof.
  unfold without. apply list_filter_iff. intros kv. destruct (g x kv.1 =? 0) eqn:E; simpl; split; intros; try done; lia.
Qed.

Lemma rdelete_spec R w r2 d l x m : rgn_in R r2 -> at_words R w m -> dict_at R w d l ->
  wp (Cyc_Dict_rdelete self call r2 d x)
    (fun d' m' => exists l', made R w l' d' m' /\
       forall y, alist_get g y l' = if g y x =? 0 then None else alist_get g y l) (oom R w) m.
Proof.
  intros Hr2 Hm Hd. unfold Cyc_Dict_rdelete. wps. eapply wp_mono; [by eapply dict_member_spec| |done].
  intros b m' (-> & ->). pose proof Hd as (_ & _ & t & n & [Hrel _] & _). rewrite Hrel.
  destruct (alist_get g x l) as [v|] eqn:Ex; simpl.
  - eapply wp_mono; [by eapply (rfilter_c_spec R w r2 _ (rel, x)); [apply delete_tests|..]| |done].
    intros d' m' Hmade. exists (without g x l). rewrite <- filter_without at 1. split; [done|].
    intros y. by apply alist_get_without.
  - eapply wp_mono; [by eapply (rcopy_spec R w r2 d l)| |done]. intros d' m' Hmade. exists l. split; [done|].
    intros y. destruct (g y x =? 0) eqn:E; [|done]. by rewrite (alist_get_eqv g y x l) by lia.
Qed.

Lemma rdelete_same_spec R w d l x m : at_words R w m -> dict_at R w d l ->
  wp (Cyc_Dict_rdelete_same self call d x)
    (fun d' m' => exists l', made R w l' d' m' /\
       forall y, alist_get g y l' = if g y x =? 0 then None else alist_get g y l) (oom R w) m.
Proof.
  intros Hm Hd. unfold Cyc_Dict_rdelete_same. wps. eapply wp_mono; [by eapply dict_member_spec| |done].
  intros b m' (-> & ->). pose proof Hd as (Hr & _ & t & n & [Hrel _] & _). rewrite Hrel.
  destruct (alist_get g x l) as [v|] eqn:Ex; simpl.
  - eapply wp_mono; [by eapply (rfilter_c_spec R w (d_r d) _ (rel, x)); [apply delete_tests|..]| |done].
    intros d' m' Hmade. exists (without g x l). rewrite <- filter_without at 1. split; [done|].
    intros y. by apply alist_get_without.
  - wps. exists l. split; [by exists w|].
    intros y. destruct (g y x =? 0) eqn:E; [|done]. by rewrite (alist_get_eqv g y x l) by lia.
Qed.

(** A key that is present is refused with [Absent]. *)
Lemma insert_new_spec R w d l k v m : at_words R w m -> dict_at R w d l ->
  wp (Cyc_Dict_insert_new self call d k v)
    (fun d' m' => alist_get g k l = None /\ d_r d' = d_r d /\ made R w (alist_ins g (k, v) l) d' m')
    (fun e m' => (e = Cyc_Dict_Absent /\ m' = m /\ is_Some (alist_get g k l)) \/ oom R w e m') m.
Proof.
  intros Hm Hd. unfold Cyc_Dict_insert_new. wps. eapply wp_mono; [by eapply dict_member_spec| |by right].
  intros b m' (-> & ->). destruct (alist_get g k l) as [u|]; simpl.
  - apply wp_thrown. left. split_and!; [done|done|by eexists].
  - eapply wp_mono; [by eapply dict_insert_spec| |by right]. intros d' m' [Hr Hmade]. by split_and!.
Qed.
End refine.

(** ** Programs *)

Inductive dop : Type :=
| DMember (x : Z) | DLookup (x : Z) | DInsert (k v : Z) | DInsertNew (k v : Z)
| DDelete (x : Z) | DDeleteSame (x : Z).

(** What an operation answers: a boolean, a value or none, an exception. *)
Inductive answer : Type := ABool (b : bool) | AVal (v : option Z) | AThrown (e : exn).

Section programs.
Context {H : Type} `{HH : Heap H} `{!HeapLaws H} (self : Z).
Context (call : Z -> Z -> Z -> ST (mem H) Z).

Definition run_dop (op : dop) (d : Cyc_Dict_Dict) : ST (mem H) (list answer * Cyc_Dict_Dict) :=
  match op with
  | DMember x => b ← Cyc_Dict_member call d x; mret ([ABool b], d)
  | DLookup x =>
      o ← caught (Cyc_Dict_lookup call d x);
      mret (match o with inr v => [AVal (Some v)] | inl e => [AThrown e] end, d)
  | DInsert k v => d' ← Cyc_Dict_insert self call d k v; mret ([], d')
  | DInsertNew k v =>
      o ← caught (Cyc_Dict_insert_new self call d k v);
      mret (match o with inr d' => ([], d') | inl e => ([AThrown e], d) end)
  | DDelete x => d' ← Cyc_Dict_delete self call d x; mret ([], d')
  | DDeleteSame x => d' ← Cyc_Dict_rdelete_same self call d x; mret ([], d')
  end.

Fixpoint run_dops (ops : list dop) (d : Cyc_Dict_Dict) : ST (mem H) (list answer * Cyc_Dict_Dict) :=
  match ops with
  | [] => mret ([], d)
  | op :: ops => r ← run_dop op d; r' ← run_dops ops r.2; mret (r.1 ++ r'.1, r'.2)
  end.

Context (g : Z -> Z -> Z).

(** The specification: a partial map from keys.  A lookup of an absent key throws
    [Absent].  So does an [insert_new] of a present one: this is what the code
    does, where include/dict.h promises [Present]. *)
Definition pmap_step (op : dop) (X : Z -> option Z) : list answer * (Z -> option Z) :=
  match op with
  | DMember x => ([ABool (match X x with None => false | _ => true end)], X)
  | DLookup x => ([match X x with Some v => AVal (Some v) | None => AThrown Cyc_Dict_Absent end], X)
  | DInsert k v => ([], fun x => if g x k =? 0 then Some v else X x)
  | DInsertNew k v =>
      match X k with
      | Some _ => ([AThrown Cyc_Dict_Absent], X)
      | None => ([], fun x => if g x k =? 0 then Some v else X x)
      end
  | DDelete x | DDeleteSame x => ([], fun y => if g y x =? 0 then None else X y)
  end.

Fixpoint pmap_run (ops : list dop) (X : Z -> option Z) : list answer * (Z -> option Z) :=
  match ops with
  | [] => ([], X)
  | op :: ops => let r := pmap_step op X in let r' := pmap_run ops r.2 in (r.1 ++ r'.1, r'.2)
  end.

Definition same_map (X Y : Z -> option Z) : Prop := forall x, X x = Y x.

Lemma pmap_step_ext op X Y : same_map X Y ->
  (pmap_step op X).1 = (pmap_step op Y).1 /\ same_map (pmap_step op X).2 (pmap_step op Y).2.
Proof.
  intros E. destruct op as [x|x|k v|k v|x|x]; simpl; unfold same_map in *; rewrite ?E; try done.
  1, 3, 4: split; [done|]; intros y; by rewrite E.
  destruct (Y k); simpl; [done|]. split; [done|]. intros y. by rewrite E.
Qed.

Lemma pmap_run_ext ops X Y : same_map X Y ->
  (pmap_run ops X).1 = (pmap_run ops Y).1 /\ same_map (pmap_run ops X).2 (pmap_run ops Y).2.
Proof.
  revert X Y. induction ops as [|op ops IH]; intros X Y E; simpl; [done|].
  destruct (pmap_step_ext op X Y E) as [-> E2]. destruct (IH _ _ E2) as [-> E3]. done.
Qed.

Context (rel : Z) (Hpure : pure2 (call rel) g) `{!Comparison g}.

(** The result agrees with the answers and the map of [r]. *)
Definition dops_agree (R : gset Z) (w : gmap Z Z) (r : list answer * (Z -> option Z))
    (res : list answer * Cyc_Dict_Dict) (m : mem H) : Prop :=
  res.1 = r.1 /\ exists l, made rel g R w l res.2 m /\ same_map (fun x => alist_get g x l) r.2.

Lemma dop_refine op R w d l m : at_words R w m -> dict_at rel g R w d l ->
  wp (run_dop op d) (dops_agree R w (pmap_step op (fun x => alist_get g x l))) (oom R w) m.
Proof.
  intros Hm Hd. assert (Hself : made rel g R w l d m) by (by exists w).
  pose proof Hd as (_ & Ho & _).
  destruct op as [x|x|k v|k v|x|x]; simpl; apply wp_bind.
  - eapply wp_mono; [by eapply (dict_member_spec call rel g Hpure)| |done]. intros b m' (-> & ->). wps.
    split; [done|]. by exists l.
  - apply wp_caught. eapply wp_mono; [by eapply (lookup_spec call rel g Hpure)|..].
    + intros v m' (-> & Hx). wps. split; [simpl; by rewrite Hx|]. by exists l.
    + intros e m' (-> & -> & Hx). case_decide; [done|]. wps. split; [simpl; by rewrite Hx|]. by exists l.
  - eapply wp_mono; [by eapply (dict_insert_spec self call rel g Hpure)| |done]. intros d' m' [_ Hmade]. wps.
    split; [done|]. eexists. split; [exact Hmade|]. intros x. by apply alist_get_ins.
  - apply wp_caught. eapply wp_mono; [by eapply (insert_new_spec self call rel g Hpure)|..].
    + intros d' m' (Hk & _ & Hmade). wps. rewrite Hk. split; [done|]. eexists. split; [exact Hmade|].
      intros x. by apply alist_get_ins.
    + intros e m' [(-> & -> & u & Hk)|Hoom].
      * case_decide; [done|]. wps. rewrite Hk. split; [done|]. by exists l.
      * case_decide as E; [done|]. by destruct Hoom.
  - eapply wp_mono; [eapply (rdelete_spec self call rel g Hpure); [by left|done..]| |done].
    intros d' m' (l' & Hmade & Hl'). wps. split; [done|]. by exists l'.
  - eapply wp_mono; [by eapply (rdelete_same_spec self call rel g Hpure)| |done].
    intros d' m' (l' & Hmade & Hl'). wps. split; [done|]. by exists l'.
Qed.

Lemma dops_refine ops R w d l m : at_words R w m -> dict_at rel g R w d l ->
  wp (run_dops ops d) (dops_agree R w (pmap_run ops (fun x => alist_get g x l))) (oom R w) m.
Proof.
  revert w d l m. induction ops as [|op ops IH]; intros w d l m Hm Hd; simpl.
  { wps. split; [done|]. exists l. split; [by exists w|done]. }
  apply wp_bind. eapply wp_mono; [by apply dop_refine| |done].
  intros [a1 d1] m1 (Ha & l1 & (w1 & Hm1 & Hw1 & Hd1) & Hl1). simpl in *. apply wp_bind.
  eapply wp_mono; [by apply (IH w1 d1 l1)| |intros e m'; by apply oom_mono].
  intros [a2 d2] m2 (Ha2 & l2 & (w2 & Hm2 & Hw2 & Hd2) & Hl2). simpl in *. wps.
  destruct (pmap_run_ext ops _ _ Hl1) as [E1 E2].
  split; [simpl; congruence|]. exists l2. split.
  - exists w2. split_and!; [done|by etrans|done].
  - intros x. simpl. by rewrite Hl2, E2.
Qed.
End programs.

(** C4. The dictionary library implements finite maps: any program of membership
    tests, lookups, insertions and deletions on a well-formed dictionary whose
    comparison is a pure total order terminates, answers like a partial map from
    keys (where a comparison of 0 means the same key), ends with a well-formed
    dictionary with exactly the bindings of that map, and changes no dictionary
    there was before; the only failure is [Cyc_Bad_alloc].  The other exceptions
    are answers: [Absent] for a lookup of a key that is absent, and also, where
    include/dict.h documents [Present], for an [insert_new] of a key that is
    present, which leaves the dictionary unchanged. *)
Theorem dict_programs_refine {H : Type} `{HH : Heap H} `{!HeapLaws H} self
    (call : Z -> Z -> Z -> ST (mem H) Z) g rel ops R w d l m :
  pure2 (call rel) g -> Comparison g -> at_words R w m -> dict_at rel g R w d l ->
  wp (run_dops self call ops d)
    (dops_agree g rel R w (pmap_run g ops (fun x => alist_get g x l))) (oom R w) m.
Proof. intros Hp Hc. by apply dops_refine. Qed.

(** C28. Insertion keeps the type of dictionaries: from a red-black tree in key
    order it makes one with the binding added or replaced, whose height is
    logarithmic in the number of bindings, and the argument is still the
    dictionary it was. *)
Theorem dict_insert_typed {H : Type} `{HH : Heap H} `{!HeapLaws H} self
    (call : Z -> Z -> Z -> ST (mem H) Z) g rel R w d l k v m :
  pure2 (call rel) g -> Comparison g -> at_words R w m -> dict_at rel g R w d l ->
  wp (Cyc_Dict_insert self call d k v)
    (fun d' m' => exists w' t n, at_words R w' m' /\ w ⊆ w' /\ dict_tree rel w' d' t /\ rb n t /\
       ordered g (elems t) /\ elems t = alist_ins g (k, v) l /\
       Z.of_nat (height t) <= 2 * Z.log2 (Z.of_nat (length (elems t)) + 1) + 1 /\
       dict_at rel g R w' d l) (oom R w) m.
Proof.
  intros Hp Hc Hm Hd. eapply wp_mono; [by eapply (dict_insert_spec self call rel g Hp)| |done].
  intros d' m' (_ & w' & Hm' & Hw' & _ & Ho & t & n & Ht & El & Hrb). exists w', t, n.
  pose proof (rb_balanced n t Hrb). rewrite El in *. split_and!; try done. by eapply dict_at_mono.
Qed.

(** ** A concrete program *)

Definition ex_dict : Cyc_Dict_Dict := mk_dict 9 1000 0.

Definition ex_dops : list dop :=
  [DInsert 5 50; DInsert 3 30; DInsert 8 80; DInsert 5 51; DLookup 5; DLookup 4; DInsertNew 3 31;
   DDelete 8; DMember 8; DInsertNew 8 81; DLookup 8; DDeleteSame 3; DMember 3].

Lemma dict_programs_refine_witness : exists d m',
  run_dops 1 sub_call ex_dops ex_dict ex_mem =
  (Ret ([AVal (Some 51); AThrown Cyc_Dict_Absent; AThrown Cyc_Dict_Absent; ABool false; AVal (Some 81);
         ABool false], d), m').
Proof.
  assert (Hr : rgn_in {[1000]} 1000) by (right; by apply elem_of_singleton).
  pose proof (dict_programs_refine 1 sub_call Z.sub 9 ex_dops {[1000]} ∅ ex_dict [] ex_mem
    (fun u v m => eq_refl) _ ex_mem_words (dict_at_empty 9 Z.sub {[1000]} ∅ 1000 Hr)) as Hwp.
  destruct (run_dops 1 sub_call ex_dops ex_dict ex_mem) as [o m'] eqn:E.
  assert (Ho : exists r, o = Ret r) by (change o with (o, m').1; rewrite <- E; vm_compute; by eexists).
  destruct Ho as [[a d] ->]. destruct (wp_result _ _ _ _ _ _ Hwp E) as [Hr' _].
  exists d, m'. simpl in Hr'. by rewrite Hr'.
Defined.

Lemma dict_insert_typed_witness : exists d' m' w' t, Cyc_Dict_insert 1 sub_call ex_dict 7 70 ex_mem = (Ret d', m') /\
  dict_tree 9 w' d' t /\ elems t = [(7, 70)].
Proof.
  assert (Hr : rgn_in {[1000]} 1000) by (right; by apply elem_of_singleton).
  pose proof (dict_insert_typed 1 sub_call Z.sub 9 {[1000]} ∅ ex_dict [] 7 70 ex_mem
    (fun u v m => eq_refl) _ ex_mem_words (dict_at_empty 9 Z.sub {[1000]} ∅ 1000 Hr)) as Hwp.
  destruct (Cyc_Dict_insert 1 sub_call ex_dict 7 70 ex_mem) as [o m'] eqn:E.
  assert (Ho : exists r, o = Ret r) by (change o with (o, m').1; rewrite <- E; vm_compute; by eexists).
  destruct Ho as [d' ->]. destruct (wp_result _ _ _ _ _ _ Hwp E) as (w' & t & n & _ & _ & Ht & _ & _ & El & _).
  exists d', m', w', t. done.
Defined.
