(* ===== verification/DictIter.v ===== *)
(** * Iterators of the dictionary library

    The iterator keeps a stack of subtrees in an array whose size
    [Cyc_Dict_make_iter] computes from the path of left children alone.  For
    red-black trees the array is large enough and the iterator yields every
    binding once; [Cyc_Dict_intersect_c] makes trees for which it is not. *)

From stdpp Require Import sorting.
From S2P Require Import Prelude Alloc FatPtr RwLock Region RegionSafety Words CycList ListCells WordMem CycListSpec ListConv ListSort CycSet CycSetSpec SetRefine CycDict DictTree DictSpec DictRefine.

(** ** The size of the stack *)

Fixpoint spine (t : tree) : nat := match t with Leaf => O | Node _ l _ _ => S (spine l) end.

Lemma rb_spine n t : rb n t -> (n <= spine t)%nat.
Proof. induction 1; simpl; lia. Qed.

Lemma rb_stack n t : rb n t -> (height t <= 2 * S (spine t))%nat.
Proof.
  intros Ht. pose proof (rb_height n t Ht). pose proof (rb_spine n t Ht).
  destruct (is_red_node t); lia.
Qed.

Lemma spine_height t : (spine t <= height t)%nat.
Proof. induction t; simpl; lia. Qed.

(** Distinct keys are in distinct nodes. *)
Lemma tree_at_nodes w p t : tree_at w p t -> exists ps,
  Forall2 (fun q kv => w !! (q + 12) = Some kv.1) ps (elems t).
Proof.
  revert p. induction t as [|c l IHl kv r IHr]; intros p; simpl; [intros _; by exists []|].
  intros (pl & pr & (_ & _ & _ & _ & Hk & _) & Hl & Hr).
  destruct (IHl pl Hl) as [ps1 H1], (IHr pr Hr) as [ps2 H2]. exists (ps1 ++ p :: ps2).
  apply Forall2_app; [done|]. by constructor.
Qed.

Lemma nodes_nodup (w : gmap Z Z) (ps : list Z) (l : list (Z * Z)) :
  Forall2 (fun q kv => w !! (q + 12) = Some kv.1) ps l -> NoDup l.*1 -> NoDup ps.
Proof.
  induction 1 as [|q kv ps l Hq Hps IH]; simpl; [constructor|]. intros Hnd. apply NoDup_cons in Hnd as [Hn Hnd].
  constructor; [|by apply IH]. intros Hin. apply Hn. apply list_elem_of_lookup in Hin as [i Hi].
  destruct (Forall2_lookup_l _ _ _ _ _ Hps Hi) as (kv' & Hkv' & Hq'). assert (E : kv.1 = kv'.1) by congruence.
  rewrite E. apply list_elem_of_fmap_2. by eapply list_elem_of_lookup_2.
Qed.

Section iter.
Context {H : Type} `{HH : Heap H} `{!HeapLaws H} (self : Z).
Context (g : Z -> Z -> Z) `{!Comparison g}.
Implicit Types (m : mem H) (w : gmap Z Z) (t : tree).

Lemma ordered_nodup l : ordered g l -> NoDup l.*1.
Proof.
  intros Ho. induction (l.*1) as [|x l' IH]; [constructor|]. apply StronglySorted_inv in Ho as [Ho Hx].
  constructor; [|by apply IH]. intros Hin. rewrite Forall_forall in Hx. pose proof (Hx x Hin).
  pose proof (cmp_refl g x). lia.
Qed.

Lemma elems_size w p t : tree_at w p t -> ordered g (elems t) -> (length (elems t) <= size w)%nat.
Proof.
  intros Ht Ho. destruct (tree_at_nodes w p t Ht) as [ps Hps].
  pose proof (nodes_nodup _ _ _ Hps (ordered_nodup _ Ho)) as Hnd.
  rewrite <- (Forall2_length _ _ _ Hps), <- (length_fmap (fun q => q + 12)). apply nodup_size.
  - apply NoDup_fmap_2; [intros ? ? ?; lia|done].
  - intros q (q' & -> & Hq')%list_elem_of_fmap. apply list_elem_of_lookup in Hq' as [i Hi].
    destruct (Forall2_lookup_l _ _ _ _ _ Hps Hi) as (kv & _ & ->). by eexists.
Qed.

Lemma words_count R w m : at_words R w m -> Z.of_nat (size w) <= 4294967296.
Proof.
  intros [Hok Hw]. subst w.
  enough (length (Z.mul 8 <$> elements (dom (words m))) <= Z.to_nat 4294967296)%nat as Hlen.
  { rewrite length_fmap in Hlen. rewrite <- size_dom. unfold size, set_size. simpl. lia. }
  apply aligned_count.
  - apply NoDup_fmap_2; [intros ? ? ?; lia|apply NoDup_elements].
  - intros q (q' & -> & Hq')%list_elem_of_fmap. apply elem_of_elements, elem_of_dom in Hq'.
    destruct (heap_ok_bounds R m q' Hok Hq') as [? ?]. split; [lia|words].
Qed.

(** A red-black tree in memory has few levels. *)
Lemma rb_levels R w p t n m : at_words R w m -> tree_at w p t -> ordered g (elems t) -> rb n t ->
  (height t <= 67)%nat.
Proof.
  intros Hm Ht Ho Hrb. pose proof (elems_size w p t Ht Ho) as Hs. pose proof (words_count R w m Hm) as Hc.
  pose proof (rb_balanced n t Hrb) as Hh.
  assert (Hlog : Z.log2 (Z.of_nat (length (elems t)) + 1) <= Z.log2 8589934592) by (apply Z.log2_le_mono; lia).
  change (Z.log2 8589934592) with 33 in Hlog. lia.
Qed.

(** ** Making an iterator *)

Lemma left_path_spec R w p t E m : at_words R w m -> tree_at w p t -> (height t <= 67)%nat ->
  wp (left_path p) (fun h m' => m' = m /\ h = Z.of_nat (S (spine t))) E m.
Proof.
  intros Hm Ht Hh. pose proof (spine_height t) as Hs. unfold left_path. eapply wp_with_fuel; [done|].
  apply (wp_loop _ (fun k '(q, h) m' => m' = m /\ exists t', tree_at w q t' /\ k = spine t' /\
    (spine t' <= spine t)%nat /\ h = Z.of_nat (S (spine t - spine t')))) with (k := spine t).
  - intros k [q h] ? (-> & t' & Ht' & -> & Hle & ->). rewrite (tree_at_null w q t' Ht').
    destruct t' as [|c l kv r]; [wps; split; [done|]; simpl; lia|].
    destruct Ht' as (pl & pr & Hn & Hl & Hr). simpl in Hle. node_steps.
    exists (spine l). split; [simpl; lia|]. split; [done|]. exists l.
    split_and!; [done|done|lia|]. simpl. rewrite i32_small by lia. lia.
  - split; [done|]. exists t. split_and!; [done|done|lia|lia].
  - pose proof (tree_at_height w p t Ht). lia.
Qed.

(** A new array of [n] copies of [v]. *)
Lemma new_array_spec R w rgn n line v m : rgn_in R rgn -> at_words R w m -> (n <= 1000)%nat ->
  wp (new_array self rgn (Z.of_nat n) line (fun _ => mret v))
    (fun arr m' => exists a w', arr = _tag_fat a 4 (Z.of_nat n) /\ fresh_words a n w /\ at_words R w' m' /\
       w ⊆ w' /\ array_at w' a (replicate n v)) (oom R w) m.
Proof.
  intros Hr Hm Hn. unfold new_array. apply wp_bind. unfold _check_times.
  rewrite u32_small by lia. unfold MAX_MALLOC_SIZE. destruct (_ || _) eqn:Ec; [lia|]. apply wp_lift.
  wps. rewrite Nat2Z.id. eapply wp_new_words; [done|done|unfold MAX_MALLOC_SIZE; lia| |].
  2: { intros m' Hm'. by eapply oom_now. }
  intros a m1 Hm1 Hf. wps. assert (Hl : length (replicate n v) = n) by apply length_replicate.
  rewrite <- Hl in Hm1, Hf |- * at 1. eapply (wp_fill_array R w a (replicate n v)); [done|done| |].
  - intros i u Hu. by apply lookup_replicate_1 in Hu as [-> _].
  - intros w' m' Hm' Hw Har. wps. rewrite Hl in Hf. by exists a, w'.
Qed.

(** Where an iterator of a tree in [w0] keeps its state: four words at [stk], an
    array of [n] words at [a], and the pair [dest] it stores into. *)
Record layout (w0 : gmap Z Z) (stk a dest : Z) (n : nat) : Prop := {
  lo_stk : forall b, stk <= b < stk + 16 -> w0 !! b = None;
  lo_arr : forall b, a <= b < a + 4 * Z.of_nat n -> w0 !! b = None;
  lo_dest : forall b, dest <= b < dest + 8 -> w0 !! b = None;
  lo_stk_arr : a + 4 * Z.of_nat n <= stk \/ stk + 16 <= a;
  lo_dest_arr : a + 4 * Z.of_nat n <= dest \/ dest + 8 <= a;
  lo_dest_stk : dest + 8 <= stk \/ stk + 16 <= dest;
  lo_range : 0 < a /\ a + 4 * Z.of_nat n < 4294967296 /\ (n <= 1000)%nat
}.

(** The words of the iterator other than the index and the stack. *)
Definition header (w0 w : gmap Z Z) (stk a dest : Z) (n : nat) : Prop :=
  w0 ⊆ w /\ w !! stk = Some a /\ w !! (stk + 4) = Some a /\ w !! (stk + 8) = Some (a + 4 * Z.of_nat n) /\
  is_Some (w !! dest) /\ is_Some (w !! (dest + 4)) /\
  forall i, (i < n)%nat -> is_Some (w !! (a + 4 * Z.of_nat i)).

(** The stack holds the trees [ts], the top last; the tree at index [i] leaves
    room for its traversal. *)
Definition stack_at (w0 w : gmap Z Z) (a : Z) (n : nat) (ts : list tree) : Prop :=
  forall i t, ts !! i = Some t -> t <> Leaf /\ (i + height t <= n)%nat /\
    exists p, w !! (a + 4 * Z.of_nat i) = Some p /\ tree_at w0 p t.

Definition iter_at (w0 w : gmap Z Z) (stk a dest : Z) (n : nat) (ts : list tree) : Prop :=
  layout w0 stk a dest n /\ header w0 w stk a dest n /\ stack_at w0 w a n ts /\
  w !! (stk + 12) = Some (Z.of_nat (length ts) - 1).

Lemma header_store w0 w stk a dest n b v : header w0 w stk a dest n -> w0 !! b = None ->
  b <> stk -> b <> stk + 4 -> b <> stk + 8 -> header w0 (<[b := v]> w) stk a dest n.
Proof.
  intros (Hw & H1 & H2 & H3 & H4 & H5 & H6) Hb N1 N2 N3.
  assert (Hs : forall q, is_Some (w !! q) -> is_Some (<[b := v]> w !! q)).
  { intros q Hq. rewrite lookup_insert. case_decide; [by eexists|done]. }
  split_and!; [by apply insert_subseteq_r|rewrite lookup_insert_ne by congruence; done..| | |]; auto.
Qed.

Lemma stack_store w0 w a n ts b v : stack_at w0 w a n ts ->
  (forall i, (i < length ts)%nat -> b <> a + 4 * Z.of_nat i) -> stack_at w0 (<[b := v]> w) a n ts.
Proof.
  intros Hst Hb i t Hi. destruct (Hst i t Hi) as (Hne & Hh & p & Hp & Ht). split_and!; [done|done|].
  exists p. split; [|done]. rewrite lookup_insert_ne; [done|]. apply Hb. by eapply lookup_lt_Some.
Qed.

Lemma stack_push w0 w a n ts t p : stack_at w0 w a n ts -> tree_at w0 p t -> t <> Leaf ->
  (length ts + height t <= n)%nat -> stack_at w0 (<[a + 4 * Z.of_nat (length ts) := p]> w) a n (ts ++ [t]).
Proof.
  intros Hst Ht Hne Hh i t' Hi. apply lookup_app_Some in Hi as [Hi|[Hge Hi]].
  - apply (stack_store w0 w a n ts); [done| |done]. intros j Hj. lia.
  - apply list_lookup_singleton_Some in Hi as [Hi <-]. assert (i = length ts) as -> by lia.
    split_and!; [done|done|]. exists p. by rewrite lookup_insert_eq.
Qed.

Lemma stack_pop w0 w a n ts t : stack_at w0 w a n (ts ++ [t]) -> stack_at w0 w a n ts.
Proof. intros Hst i t' Hi. apply Hst. by apply lookup_app_l_Some. Qed.

(** A subscript of the stack array. *)
Lemma stack_slot w0 stk a dest n i file line : layout w0 stk a dest n -> (i < n)%nat ->
  _check_fat_subscript (mk_fat a a (a + 4 * Z.of_nat n)) 4 (Z.of_nat i) file line = Ret (a + 4 * Z.of_nat i).
Proof.
  intros Hlo Hi. destruct (lo_range _ _ _ _ _ Hlo) as (Ha & Hb & _). apply check_fat_subscript_Ret. simpl.
  rewrite u32_small by lia. lia.
Qed.

(** ** One step *)

Definition kids (t : tree) : list tree := match t with Leaf => [] | Node _ _ _ _ => [t] end.

(** Pushing the child [t] at [p], which [fld] reads, when it is not null. *)
Lemma push_spec R w0 w stk a dest n ts t p (fld : ST (mem H) Z) line E m :
  layout w0 stk a dest n -> at_words R w m -> header w0 w stk a dest n -> stack_at w0 w a n ts ->
  (length ts + height t <= n)%nat -> tree_at w0 p t ->
  (forall w1 m1 (Q : Z -> mem H -> Prop), at_words R w1 m1 -> w0 ⊆ w1 -> Q p m1 -> wp fld Q E m1) ->
  let ind := Z.of_nat (length ts) - 1 in
  wp (if is_null p then mret ind
      else b ← lift (_check_fat_subscript (mk_fat a a (a + 4 * Z.of_nat n)) 4 (i32 (ind + 1)) dict_cyc line);
           l ← fld; store_word b l;; mret (i32 (ind + 1)))
    (fun ind' m' => exists w', at_words R w' m' /\ header w0 w' stk a dest n /\
       stack_at w0 w' a n (ts ++ kids t) /\ ind' = Z.of_nat (length (ts ++ kids t)) - 1 /\
       forall b, b < a \/ a + 4 * Z.of_nat n <= b -> w' !! b = w !! b) E m.
Proof.
  intros Hlo Hm Hh Hst Hn Ht Hfld ind. rewrite (tree_at_null w0 p t Ht).
  destruct (lo_range _ _ _ _ _ Hlo) as (Ha & Hb & Hn1).
  destruct t as [|c l kv r]; cbn [kids].
  { wps. exists w. rewrite app_nil_r. by split_and!. }
  cbn [height] in Hn. subst ind.
  replace (i32 (Z.of_nat (length ts) - 1 + 1)) with (Z.of_nat (length ts)) by (rewrite i32_small; lia).
  wps. rewrite (stack_slot w0 stk a dest n) by (done || lia). wps.
  pose proof Hh as (Hw0 & _ & _ & _ & _ & _ & Hs). eapply Hfld; [done|done|].
  wps. eapply wp_store; [done|apply Hs; lia|]. intros m1 Hm1. wps.
  eexists. split; [exact Hm1|]. pose proof (lo_stk_arr _ _ _ _ _ Hlo) as Hdis. split_and!.
  - apply header_store; [done|apply (lo_arr _ _ _ _ _ Hlo); lia|lia..].
  - apply stack_push; [done|done|done|simpl; lia].
  - rewrite length_app. simpl. lia.
  - intros b Hbb. rewrite lookup_insert_ne by lia. done.
Qed.

(** Storing the binding of the node [p] into [dest]. *)
Lemma yield_spec {A} R w0 w stk a dest n ts p c pl pr kv (K : ST (mem H) A) (Q : A -> mem H -> Prop) E m :
  layout w0 stk a dest n -> at_words R w m -> header w0 w stk a dest n -> stack_at w0 w a n ts ->
  (length ts <= n)%nat -> node w0 p c pl pr kv ->
  (forall w2 m', at_words R w2 m' -> header w0 w2 stk a dest n -> stack_at w0 w2 a n ts ->
     w2 !! dest = Some kv.1 -> w2 !! (dest + 4) = Some kv.2 -> w2 !! (stk + 12) = w !! (stk + 12) ->
     wp K Q E m') ->
  wp (k ← n_key p; store_word dest k;; v ← n_val p; store_word (dest + 4) v;; K) Q E m.
Proof.
  intros Hlo Hm Hh Hst Hlen Hn HK. pose proof Hh as (Hw0 & _ & _ & _ & H4 & H5 & _).
  pose proof (lo_dest_arr _ _ _ _ _ Hlo) as D2. pose proof (lo_dest_stk _ _ _ _ _ Hlo) as D3.
  pose proof (lo_dest _ _ _ _ _ Hlo) as D4.
  pose proof (node_mono _ _ _ _ _ _ _ Hw0 Hn) as Hnw. node_steps.
  eapply wp_store; [done|done|]. intros m1 Hm1.
  pose proof (header_store _ _ _ _ _ _ dest kv.1 Hh (D4 dest ltac:(lia)) ltac:(lia) ltac:(lia) ltac:(lia)) as Hh1.
  pose proof Hh1 as (Hw1 & _ & _ & _ & _ & Hd4 & _). pose proof (node_mono _ _ _ _ _ _ _ Hw1 Hn) as Hnw1.
  node_steps. eapply wp_store; [done|done|]. intros m2 Hm2. eapply HK; [exact Hm2|..].
  - apply header_store; [done|apply D4; lia|lia..].
  - apply stack_store; [by apply stack_store; [|intros i Hi; lia]|]. intros i Hi. lia.
  - rewrite lookup_insert_ne by lia. apply lookup_insert_eq.
  - apply lookup_insert_eq.
  - rewrite !lookup_insert_ne by lia. done.
Qed.

(** Pushing both children of the node [p]. *)
Lemma push_kids_spec R w0 w stk a dest n ts p c pl pr l kv r E m :
  layout w0 stk a dest n -> at_words R w m -> header w0 w stk a dest n -> stack_at w0 w a n ts ->
  is_Some (w !! (stk + 12)) -> node w0 p c pl pr kv -> tree_at w0 pl l -> tree_at w0 pr r ->
  (length ts + S (height l `max` height r) <= n)%nat ->
  let ind := Z.of_nat (length ts) - 1 in
  wp (l ← n_left p;
      ind ← (if is_null l then mret ind
             else b ← lift (_check_fat_subscript (mk_fat a a (a + 4 * Z.of_nat n)) 4 (i32 (ind + 1)) dict_cyc 572);
                  l ← n_left p; store_word b l;; mret (i32 (ind + 1)));
      r ← n_right p;
      ind ← (if is_null r then mret ind
             else b ← lift (_check_fat_subscript (mk_fat a a (a + 4 * Z.of_nat n)) 4 (i32 (ind + 1)) dict_cyc 574);
                  r ← n_right p; store_word b r;; mret (i32 (ind + 1)));
      store_word (stk + 12) ind;; mret true)
    (fun b m' => b = true /\ exists w', at_words R w' m' /\ w' !! dest = w !! dest /\
       w' !! (dest + 4) = w !! (dest + 4) /\ iter_at w0 w' stk a dest n ((ts ++ kids l) ++ kids r)) E m.
Proof.
  intros Hlo Hm Hh Hst Hi Hn Hl Hr Hht ind. pose proof Hh as (Hw0 & _).
  pose proof (node_mono _ _ _ _ _ _ _ Hw0 Hn) as Hnw.
  assert (Hfl : forall w1 m1 (Q : Z -> mem H -> Prop), at_words R w1 m1 -> w0 ⊆ w1 -> Q pl m1 -> wp (n_left p) Q E m1).
  { intros w1 m3 Q Hm3 Hsub HQ. eapply wp_n_left; [exact Hm3|by eapply node_mono|done]. }
  assert (Hfr : forall w1 m1 (Q : Z -> mem H -> Prop), at_words R w1 m1 -> w0 ⊆ w1 -> Q pr m1 -> wp (n_right p) Q E m1).
  { intros w1 m3 Q Hm3 Hsub HQ. eapply wp_n_right; [exact Hm3|by eapply node_mono|done]. }
  node_steps.
  eapply wp_mono; [apply (push_spec R w0 w stk a dest n ts l pl (n_left p) 572 E m); try done; lia| |done].
  intros ind1 m3 (w3 & Hm3 & Hh3 & Hst3 & -> & Hag3). pose proof Hh3 as (Hw3 & _).
  pose proof (node_mono _ _ _ _ _ _ _ Hw3 Hn) as Hnw3. node_steps.
  eapply wp_mono; [apply (push_spec R w0 w3 stk a dest n (ts ++ kids l) r pr (n_right p) 574 E m3); try done| |done].
  { rewrite length_app. destruct l; simpl in *; lia. }
  intros ind2 m4 (w4 & Hm4 & Hh4 & Hst4 & -> & Hag4).
  pose proof (lo_stk_arr _ _ _ _ _ Hlo) as D1. pose proof (lo_dest_arr _ _ _ _ _ Hlo) as D2.
  pose proof (lo_dest_stk _ _ _ _ _ Hlo) as D3. pose proof (lo_stk _ _ _ _ _ Hlo) as D4.
  assert (Hag : forall b, b < a \/ a + 4 * Z.of_nat n <= b -> w4 !! b = w !! b) by (intros b Hb; by rewrite Hag4, Hag3).
  wps. eapply wp_store; [done|by rewrite Hag by lia|]. intros m5 Hm5. wps. split; [done|].
  eexists. split; [exact Hm5|]. rewrite !lookup_insert_ne, !Hag by lia. split_and!; [done..|].
  split_and!; [done| | |apply lookup_insert_eq].
  - apply header_store; [done|apply D4; lia|lia..].
  - apply stack_store; [done|]. intros i Hi'. 
    destruct (lookup_lt_is_Some_2 _ _ Hi') as [t' Ht']. destruct (Hst4 i t' Ht') as (Hne & Hle & _).
    destruct t'; [done|]. simpl in Hle. lia.
Qed.

(** [next] on an iterator that has a tree left: it stores the binding at the
    root and replaces the tree by its subtrees. *)
Lemma iter_f_spec R w0 w stk a dest n ts c l kv r E m :
  at_words R w m -> iter_at w0 w stk a dest n (ts ++ [Node c l kv r]) ->
  wp (Cyc_Dict_iter_f stk dest)
    (fun b m' => b = true /\ exists w', at_words R w' m' /\ w' !! dest = Some kv.1 /\
       w' !! (dest + 4) = Some kv.2 /\ iter_at w0 w' stk a dest n ((ts ++ kids l) ++ kids r)) E m.
Proof.
  intros Hm (Hlo & Hh & Hst & Hind). pose proof Hh as (Hw0 & H1 & H2 & H3 & _).
  destruct (Hst (length ts) (Node c l kv r)) as (_ & Hht & p & Hp & Ht); [by apply list_lookup_middle|].
  pose proof (lo_range _ _ _ _ _ Hlo) as (Ha & Hb & Hn1). cbn [height] in Hht.
  assert (Eind : Z.of_nat (length (ts ++ [Node c l kv r])) - 1 = Z.of_nat (length ts))
    by (rewrite length_app; simpl; lia). rewrite Eind in Hind.
  unfold Cyc_Dict_iter_f.
  wps. eapply wp_load; [done|exact H1|]. wps. eapply wp_load; [done|exact H2|].
  wps. eapply wp_load; [done|exact H3|]. wps. eapply wp_load; [done|exact Hind|].
  destruct (Z.of_nat (length ts) =? -1) eqn:E1; [lia|].
  wps. rewrite (stack_slot w0 stk a dest n) by (done || lia). wps. eapply wp_load; [done|exact Hp|].
  pose proof (tree_at_ne _ _ _ _ _ _ Ht) as Hp0. wps. apply wp_check_null; [done|].
  destruct Ht as (pl & pr & Hn & Hl & Hr).
  eapply (yield_spec R w0 w stk a dest n ts p); [done|done|done|by eapply stack_pop|lia|exact Hn|].
  intros w2 m2 Hm2 Hh2 Hst2 Hd Hd4 Hi2.
  replace (i32 (Z.of_nat (length ts) - 1)) with (Z.of_nat (length ts) - 1) by (rewrite i32_small; lia).
  eapply wp_mono; [by eapply (push_kids_spec R w0 w2 stk a dest n ts p); [..|exact Hn|exact Hl|exact Hr|]; [..|rewrite Hi2, Hind; by eexists|]| |done].
  intros b m3 (-> & w3 & Hm3 & E3 & E4 & Hit). split; [done|]. exists w3. rewrite E3, E4. by split_and!.
Qed.

Lemma iter_f_done R w0 w stk a dest n E m : at_words R w m -> iter_at w0 w stk a dest n [] ->
  wp (Cyc_Dict_iter_f stk dest) (fun b m' => b = false /\ m' = m) E m.
Proof.
  intros Hm (Hlo & (Hw0 & H1 & H2 & H3 & _) & _ & Hind). unfold Cyc_Dict_iter_f.
  wps. eapply wp_load; [done|exact H1|]. wps. eapply wp_load; [done|exact H2|].
  wps. eapply wp_load; [done|exact H3|]. wps. eapply wp_load; [done|exact Hind|]. by wps.
Qed.

(** ** All bindings *)

(** A new object lies beside an array in use. *)
Lemma fresh_beside w p k a n : fresh_words p k w -> a mod 8 = 0 -> (0 < n)%nat -> (0 < k)%nat ->
  (forall i, (i < n)%nat -> is_Some (w !! (a + 4 * Z.of_nat i))) ->
  a + 4 * Z.of_nat n <= p \/ p + 4 * Z.of_nat k <= a.
Proof.
  intros (Hp & Hpm & _ & Hf) Ha Hn Hk Hi. destruct (decide (p < a)) as [Hlt|Hge].
  - pose proof (Hf _ (Hi 0%nat Hn)). lia.
  - destruct (decide (a + 4 * Z.of_nat n <= p)) as [|Hno]; [by left|]. exfalso.
    assert (Hq : exists i, (i < n)%nat /\ a + 4 * Z.of_nat i = p).
    { exists (Z.to_nat ((p - a) / 4)). words. }
    destruct Hq as (i & Hin & <-). pose proof (Hf _ (Hi i Hin)). lia.
Qed.

Lemma fresh_none w p k b : fresh_words p k w -> p <= b < p + 4 * Z.of_nat k -> w !! b = None.
Proof.
  intros (_ & _ & _ & Hf) Hb. apply eq_None_not_Some. intros Hs. pose proof (Hf b Hs). lia.
Qed.

(** The stack of a new iterator: the tree, or nothing when it is empty. *)
Lemma stack_start w0 w a n p t : tree_at w0 p t -> (height t <= n)%nat -> (0 < n)%nat ->
  array_at w a (replicate n p) -> stack_at w0 w a n (kids t).
Proof.
  intros Ht Hh Hn Har i t' Hi. destruct t as [|c l kv r]; [done|].
  apply list_lookup_singleton_Some in Hi as [-> <-]. split_and!; [done|done|]. exists p. split; [|done].
  apply (Har 0%nat). apply lookup_replicate_2. lia.
Qed.

Definition env_words (stk c b e i : Z) (w : gmap Z Z) : gmap Z Z :=
  <[stk + 12 := i]> (<[stk + 8 := e]> (<[stk + 4 := b]> (<[stk := c]> w))).

Lemma wp_env R w stk c b e i (Q : Z -> mem H -> Prop) E m : fresh_words stk 4 w ->
  at_words R (zero_words stk 4 w) m ->
  (forall m', at_words R (env_words stk c b e i (zero_words stk 4 w)) m' -> Q stk m') ->
  wp (store_word stk c;; store_word (stk + 4) b;; store_word (stk + 8) e;; store_word (stk + 12) i;; mret stk) Q E m.
Proof.
  intros Hf Hm HQ. pose proof (zero_words_lookup stk 4 w) as Hd.
  pose proof (Hd 0%nat ltac:(lia)) as Hd0. replace (stk + 4 * Z.of_nat 0) with stk in Hd0 by lia.
  wps. eapply wp_store; [done|exact Hd0|]. intros m3 Hm3.
  wps. eapply wp_store; [done|rewrite lookup_insert_ne by lia; apply (Hd 1%nat); lia|]. intros m4 Hm4.
  wps. eapply wp_store; [done|rewrite !lookup_insert_ne by lia; apply (Hd 2%nat); lia|]. intros m5 Hm5.
  wps. eapply wp_store; [done|rewrite !lookup_insert_ne by lia; apply (Hd 3%nat); lia|]. intros m6 Hm6.
  wps. by apply HQ.
Qed.

Lemma env_words_sub stk c b e i w w2 : fresh_words stk 4 w -> w ⊆ w2 -> w ⊆ env_words stk c b e i w2.
Proof.
  intros Hf Hw. unfold env_words.
  repeat (apply insert_subseteq_r; [eapply fresh_absent; [exact Hf|lia..]|]). done.
Qed.

(** The iterator after its three objects have been allocated. *)
Lemma iter_start w0 w1 stk a dest n p t : tree_at w0 p t -> (height t <= n <= 1000)%nat -> (0 < n)%nat ->
  fresh_words a n w0 -> w0 ⊆ w1 -> array_at w1 a (replicate n p) -> fresh_words stk 4 w1 ->
  let w2 := env_words stk a a (a + 4 * Z.of_nat n) (Z.of_nat (length (kids t)) - 1) (zero_words stk 4 w1) in
  fresh_words dest 2 w2 -> iter_at w0 (zero_words dest 2 w2) stk a dest n (kids t).
Proof.
  intros Ht Hh Hn Hfa Hw1 Har Hfs w2 Hfd. pose proof Hfa as (Ha & Ham & Hab & _). pose proof Hfs as (_ & Hsm & _).
  assert (Hw2 : w1 ⊆ w2) by (apply env_words_sub; [done|by apply zero_words_sub]).
  pose proof (zero_words_sub _ _ _ Hfd) as Hw3. set (w3 := zero_words dest 2 w2) in *.
  assert (Hw03 : w0 ⊆ w3) by (etrans; [exact Hw1|]; by etrans).
  assert (Har3 : array_at w3 a (replicate n p)).
  { intros i v Hv. eapply lookup_weaken; [|exact Hw3]. eapply lookup_weaken; [by apply Har|done]. }
  assert (Hs1 : forall i, (i < n)%nat -> is_Some (w1 !! (a + 4 * Z.of_nat i))).
  { intros i Hi. eexists. apply Har. by apply lookup_replicate_2. }
  assert (E : w2 !! stk = Some a /\ w2 !! (stk + 4) = Some a /\ w2 !! (stk + 8) = Some (a + 4 * Z.of_nat n) /\
    w2 !! (stk + 12) = Some (Z.of_nat (length (kids t)) - 1)).
  { unfold w2, env_words. split_and!; rewrite ?lookup_insert_ne by lia; apply lookup_insert_eq. }
  destruct E as (E0 & E4 & E8 & E12). split_and!.
  - split.
    + intros b Hb. eapply lookup_weaken_None; [|exact Hw1]. eapply fresh_none; [exact Hfs|lia].
    + intros b Hb. eapply fresh_none; [exact Hfa|lia].
    + intros b Hb. eapply lookup_weaken_None; [|exact Hw1]. eapply lookup_weaken_None; [|exact Hw2].
      eapply fresh_none; [exact Hfd|lia].
    + apply (fresh_beside w1 stk 4); try done. lia.
    + apply (fresh_beside w2 dest 2); try done; [lia|]. intros i Hi. destruct (Hs1 i Hi) as [v Hv].
      exists v. by eapply lookup_weaken.
    + pose proof (fresh_beside w2 dest 2 stk 4 Hfd Hsm) as Hbs. enough (stk + 16 <= dest \/ dest + 8 <= stk) by lia.
      apply Hbs; [lia|lia|]. intros [|[|[|[|]]]] Hi; try lia; eexists; [|exact E4|exact E8|exact E12].
      by rewrite Z.add_0_r.
    + lia.
  - split_and!; try done; try (by eapply lookup_weaken).
    + replace dest with (dest + 4 * Z.of_nat 0) by lia. apply zero_words_lookup. lia.
    + apply (zero_words_lookup dest 2 w2 1). lia.
    + intros i Hi. destruct (Hs1 i Hi) as [v Hv]. exists v. eapply lookup_weaken; [|exact Hw3]. by eapply lookup_weaken.
  - eapply stack_start; [done|lia|done|done].
  - by eapply lookup_weaken.
Qed.

Lemma make_iter_spec R w0 rgn rel d t k m : rgn_in R rgn -> at_words R w0 m -> dict_tree rel w0 d t ->
  ordered g (elems t) -> rb k t ->
  wp (stk ← Cyc_Dict_make_iter self rgn d; dest ← new_words self rgn 2; mret (stk, dest))
    (fun r m' => exists w a n, at_words R w m' /\ iter_at w0 w r.1 a r.2 n (kids t)) (oom R w0) m.
Proof.
  intros Hr Hm [_ Ht] Ho Hrb. pose proof (rb_levels R w0 _ t k m Hm Ht Ho Hrb) as Hlev.
  pose proof (rb_stack k t Hrb) as Hcap. pose proof (spine_height t) as Hsp.
  unfold Cyc_Dict_make_iter. wps. eapply wp_mono; [by apply (left_path_spec R w0 _ t)| |done].
  intros h m0 (-> & ->). set (n := (2 * S (spine t))%nat) in *.
  replace (u32 (2 * Z.of_nat (S (spine t)))) with (Z.of_nat n) by (rewrite u32_small; lia).
  apply wp_bind. eapply wp_mono; [by apply (new_array_spec R w0 rgn n 591 (d_t d)); [..|lia]| |done].
  intros arr m1 (a & w1 & -> & Hfa & Hm1 & Hw1 & Har). pose proof Hfa as (Ha & _ & Hab & _).
  apply wp_bind. eapply wp_new_words; [done|done|unfold MAX_MALLOC_SIZE; simpl; lia| |intros m' Hm'; by eapply oom_now].
  intros stk m2 Hm2 Hfs. pose proof (zero_words_sub _ _ _ Hfs) as Hz.
  unfold _tag_fat. cbn [FatPtr.curr FatPtr.base FatPtr.last_plus_one].
  destruct (a =? 0) eqn:Ea0; [lia|]. rewrite (u32_small (Z.of_nat n)), u32_small by lia.
  replace (if is_null (d_t d) then -1 else 0) with (Z.of_nat (length (kids t)) - 1)
    by (rewrite (tree_at_null _ _ _ Ht); by destruct t).
  eapply wp_env; [exact Hfs|done|]. intros m3 Hm3. apply wp_bind.
  eapply wp_new_words; [exact Hm3|done|unfold MAX_MALLOC_SIZE; simpl; lia| |].
  - intros dest m4 Hm4 Hfd. wps. eexists _, a, n. split; [exact Hm4|].
    eapply iter_start; try done; lia.
  - intros m' Hm'. eapply oom_now; [|exact Hm']. etrans; [exact Hw1|]. apply env_words_sub; [done|by apply zero_words_sub].
Qed.

(** A client: calls [next] until it returns false. *)
Definition collect (stk dest : Z) : ST (mem H) (list (Z * Z)) :=
  with_fuel (fun n => loop n (fun acc =>
    b ← Cyc_Dict_iter_f stk dest;
    if b : bool then
      k ← get_word dest; v ← get_word (dest + 4); mret (inl (acc ++ [(k, v)]))
    else mret (inr acc)) []).

Definition iterate_all (rgn : Z) (d : Cyc_Dict_Dict) : ST (mem H) (list (Z * Z)) :=
  r ← (stk ← Cyc_Dict_make_iter self rgn d; dest ← new_words self rgn 2; mret (stk, dest));
  collect r.1 r.2.

Definition left_in (ts : list tree) : list (Z * Z) := concat (elems <$> ts).

Lemma left_in_kids ts l r : left_in ((ts ++ kids l) ++ kids r) = left_in ts ++ elems l ++ elems r.
Proof.
  assert (E : forall t, concat (elems <$> kids t) = elems t) by (intros []; simpl; by rewrite ?app_nil_r).
  unfold left_in. rewrite !fmap_app, !concat_app, !E. by rewrite (assoc_L (++)).
Qed.

Lemma left_in_top ts c l kv r : left_in (ts ++ [Node c l kv r]) ≡ₚ kv :: left_in ts ++ elems l ++ elems r.
Proof.
  unfold left_in. rewrite fmap_app, concat_app. simpl. rewrite app_nil_r.
  rewrite <- (Permutation_middle (elems l)). symmetry. apply Permutation_middle.
Qed.

Lemma collect_spec R w0 w stk a dest n ts E m : at_words R w m -> iter_at w0 w stk a dest n ts ->
  (length (left_in ts) <= size w)%nat ->
  wp (collect stk dest) (fun L m' => L ≡ₚ left_in ts /\ exists w', at_words R w' m' /\ w0 ⊆ w') E m.
Proof.
  intros Hm Hit Hlen. unfold collect. eapply wp_with_fuel; [done|].
  apply (wp_loop _ (fun k acc m' => exists w' ts', at_words R w' m' /\ iter_at w0 w' stk a dest n ts' /\
    k = length (left_in ts') /\ acc ++ left_in ts' ≡ₚ left_in ts)) with (k := length (left_in ts)).
  - intros k acc m1 (w1 & ts1 & Hm1 & Hit1 & -> & Hp).
    destruct ts1 as [|t ts1 _] using rev_ind.
    + apply wp_bind. eapply wp_mono; [by eapply iter_f_done| |done]. intros b m2 (-> & ->). wps.
      unfold left_in at 1 in Hp. simpl in Hp. rewrite app_nil_r in Hp. split; [done|]. exists w1.
      destruct Hit1 as (_ & (? & _) & _). done.
    + pose proof Hit1 as (_ & _ & Hst & _).
      destruct (Hst (length ts1) t) as (Hne & _); [by apply list_lookup_middle|].
      destruct t as [|c l kv r]; [done|].
      apply wp_bind. eapply wp_mono; [by eapply iter_f_spec| |done].
      intros b m2 (-> & w2 & Hm2 & Hk & Hv & Hit2). wps. eapply wp_load; [done|exact Hk|]. wps.
      eapply wp_load; [done|exact Hv|]. wps. rewrite left_in_top in Hp.
      exists (length (left_in ((ts1 ++ kids l) ++ kids r))). rewrite left_in_kids. split.
      { rewrite (Permutation_length (left_in_top ts1 c l kv r)). simpl. lia. }
      exists w2, ((ts1 ++ kids l) ++ kids r). split_and!; [done|done|by rewrite left_in_kids|].
      rewrite left_in_kids, <- app_assoc. destruct kv. simpl. exact Hp.
  - exists w, ts. by split_and!.
  - lia.
Qed.

Lemma iterate_all_spec rel R w rgn d l m : rgn_in R rgn -> at_words R w m -> dict_at rel g R w d l ->
  wp (iterate_all rgn d) (fun L m' => L ≡ₚ l /\ exists w', at_words R w' m' /\ w ⊆ w') (oom R w) m.
Proof.
  intros Hr Hm (_ & Ho & t & k & Hd & <- & Hrb). unfold iterate_all. apply wp_bind.
  eapply wp_mono; [by eapply make_iter_spec| |done]. intros [stk dest] m1 (w1 & a & n & Hm1 & Hit).
  simpl in *. pose proof Hit as (_ & (Hsub & _) & _). pose proof Hd as [_ Ht].
  assert (El : left_in (kids t) = elems t) by (destruct t; unfold left_in; simpl; by rewrite ?app_nil_r).
  rewrite <- El. eapply collect_spec; [done|done|]. rewrite El.
  pose proof (elems_size w _ t Ht Ho) as Hsz. pose proof (subseteq_size (dom w) (dom w1)) as Hd1.
  rewrite !size_dom in Hd1. etrans; [exact Hsz|]. apply Hd1. by apply subseteq_dom.
Qed.
End iter.

(** C26. The iterator of a dictionary is complete and stays within its stack: on
    every well-formed dictionary, creating an iterator and calling it until it
    returns false terminates without a bounds error and yields every binding
    exactly once, and the dictionaries in memory are unchanged. *)
Theorem dict_iterator_complete {H : Type} `{HH : Heap H} `{!HeapLaws H} self g rel R w rgn d l m :
  Comparison g -> rgn_in R rgn -> at_words R w m -> dict_at rel g R w d l ->
  wp (iterate_all self rgn d) (fun L m' => L ≡ₚ l /\ exists w', at_words R w' m' /\ w ⊆ w') (oom R w) m.
Proof. intros Hc. by apply iterate_all_spec. Qed.

(** ** Concrete dictionaries *)

Fixpoint insert_all (ks : list Z) (d : Cyc_Dict_Dict) : ST (mem bump) Cyc_Dict_Dict :=
  match ks with
  | [] => mret d
  | k :: ks => d ← Cyc_Dict_insert 1 sub_call d k (100 + k); insert_all ks d
  end.

Definition three : ST (mem bump) Cyc_Dict_Dict := insert_all [2; 1; 3] ex_dict.
Definition three_dict : Cyc_Dict_Dict := match (three ex_mem).1 with Ret d => d | _ => ex_dict end.
Definition three_mem : mem bump := (three ex_mem).2.

Lemma three_ok : exists w, at_words {[1000]} w three_mem /\
  dict_at 9 Z.sub {[1000]} w three_dict [(1, 101); (2, 102); (3, 103)].
Proof.
  assert (Hr : rgn_in {[1000]} 1000) by (right; by apply elem_of_singleton).
  assert (Hp : pure2 (sub_call 9) Z.sub) by done.
  assert (Hwp : wp three (fun d m' => exists w, at_words {[1000]} w m' /\
    dict_at 9 Z.sub {[1000]} w d [(1, 101); (2, 102); (3, 103)]) (fun _ _ => True) ex_mem).
  { unfold three. cbn [insert_all]. apply wp_bind.
    eapply wp_mono; [eapply (dict_insert_spec 1 sub_call 9 Z.sub Hp); [apply ex_mem_words|exact (dict_at_empty 9 Z.sub {[1000]} ∅ 1000 Hr)]| |done].
    intros d1 m1 (_ & w1 & Hm1 & _ & Hd1). apply wp_bind.
    eapply wp_mono; [by eapply (dict_insert_spec 1 sub_call 9 Z.sub Hp)| |done].
    intros d2 m2 (_ & w2 & Hm2 & _ & Hd2). apply wp_bind.
    eapply wp_mono; [by eapply (dict_insert_spec 1 sub_call 9 Z.sub Hp)| |done].
    intros d3 m3 (_ & w3 & Hm3 & _ & Hd3). wps. by exists w3. }
  refine (wp_result _ _ _ _ three_dict three_mem Hwp _). vm_compute. reflexivity.
Qed.

Lemma dict_iterator_complete_witness : exists L m', iterate_all 1 0 three_dict three_mem = (Ret L, m') /\
  L ≡ₚ [(1, 101); (2, 102); (3, 103)].
Proof.
  destruct three_ok as (w & Hm & Hd).
  pose proof (dict_iterator_complete 1 Z.sub 9 {[1000]} w 0 three_dict _ three_mem _ (or_introl eq_refl) Hm Hd) as Hwp.
  destruct (iterate_all 1 0 three_dict three_mem) as [o m'] eqn:E.
  assert (Ho : exists L, o = Ret L) by (change o with (o, m').1; rewrite <- E; vm_compute; by eexists).
  destruct Ho as [L ->]. destruct (wp_result _ _ _ _ _ _ Hwp E) as [HL _]. exists L, m'. split; [reflexivity|exact HL].
Defined.

(** ** Intersection loses the balance *)

Definition keep_first (_ : unit) (k v1 v2 : Z) : ST (mem bump) Z := mret v1.

(** The keys 1, ..., 40, and those of the right half of that tree that are on
    its right edge or next to it. *)
Definition all_keys : list Z := Z.of_nat <$> seq 1 40.
Definition right_keys : list Z := [16; 20; 24; 28; 32; 34; 36; 37; 38; 39].

Definition intersect_iter : ST (mem bump) (list (Z * Z)) :=
  d2 ← insert_all all_keys ex_dict; d1 ← insert_all right_keys ex_dict;
  d ← Cyc_Dict_intersect_c 1 sub_call keep_first tt d1 d2 5000;
  iterate_all 1 0 d.

(** An iterator over an intersection can run over its stack: [intersect_c]
    builds its result with [ins] and never colours a node black, so that the
    result is not balanced, and iterating over the intersection of two
    dictionaries with 10 and 40 keys throws [Cyc_Array_bounds]. *)
Theorem intersect_iterator_overflows :
  exists line, (intersect_iter ex_mem).1 = Thrown Cyc_Array_bounds dict_cyc line.
Proof. exists 574. vm_compute. reflexivity. Qed.

(** ** Marshalling *)

Section marshal.
Context {H : Type} `{HH : Heap H} `{!HeapLaws H} (self : Z) (rel : Z) (g : Z -> Z -> Z) `{!Comparison g}.

Lemma rto_list_spec R w rgn d l m : rgn_in R rgn -> at_words R w m -> dict_at rel g R w d l ->
  wp (Cyc_Dict_rto_list self rgn d) (fun x m' => exists w' ps, at_words R w' m' /\ w ⊆ w' /\ list_at w' x ps)
    (oom R w) m.
Proof.
  intros Hr Hm (_ & _ & t & n & [_ Ht] & <- & _). unfold Cyc_Dict_rto_list.
  eapply wp_mono; [apply (fold_c_spec R w _ _ (fun _ x w' => exists ps, list_at w' x ps) d t)| |done]; try done.
  - intros pre kv post acc w1 m1 _ Hw1 Hm1 [ps Hps]. unfold Cyc_Dict_to_list_f.
    apply wp_bind. eapply wp_new_cell_words; [done|done| |intros m' Hm'; by eapply oom_now].
    intros p m2 Hm2 Hfp. pose proof (zero_words_sub _ _ _ Hfp) as Hzp.
    apply wp_bind. eapply wp_new_cell_words; [done|done| |].
    2: { intros m' Hm'. eapply oom_now; [|exact Hm']. by etrans. }
    intros q m3 Hm3 Hfq. pose proof (zero_words_sub _ _ _ Hfq) as Hzq.
    apply wp_bind. eapply wp_fill_cell; [exact Hfq|done|exact Hm3|]. intros m4 Hm4.
    destruct (new_cell_cell q kv.1 kv.2 _ _ Hfq Hzq) as [_ Hw4].
    apply wp_bind. eapply wp_fill_cell; [exact Hfp|exact Hw4|exact Hm4|]. intros m5 Hm5. wps.
    assert (Hw14 : w1 ⊆ <[q + 4 := kv.2]> (<[q := kv.1]> (zero_words q 2 (zero_words p 2 w1)))) by (by etrans).
    destruct (new_cell_cell p q acc _ _ Hfp Hw14) as [Hc Hw5].
    eexists. split; [exact Hm5|]. split; [exact Hw5|]. exists (q :: ps).
    eapply list_at_cons; [exact Hc|]. by eapply list_at_mono.
  - exists []. apply list_at_nil_0.
  - intros x m' (w2 & Hm' & Hw2 & ps & Hps). by exists w2, ps.
Qed.

Lemma throw_failure_spec {A} R w line (Q : A -> mem H -> Prop) m : at_words R w m ->
  wp (throw_failure line) Q (fun e m' => e = Cyc_Core_Failure \/ oom R w e m') m.
Proof.
  intros Hm. unfold throw_failure. apply wp_bind.
  eapply wp_cycalloc; [done|unfold MAX_MALLOC_SIZE; simpl; lia| |intros m' Hm'; right; by eapply oom_now].
  intros p m' _ _. apply wp_thrown. by left.
Qed.

Lemma marshal_spec {E F} R w rgn (env : E) (wk wv : E -> F -> Z -> ST (mem H) E) fp d l m :
  rgn_in R rgn -> at_words R w m -> dict_at rel g R w d l ->
  wp (Cyc_Dict_marshal self rgn env wk wv fp d) (fun _ _ => False)
    (fun e m' => e = Cyc_Core_Failure \/ oom R w e m') m.
Proof.
  intros Hr Hm Hd. unfold Cyc_Dict_marshal. apply wp_bind.
  eapply wp_mono; [by eapply rto_list_spec| |by right]. intros x m1 (w1 & ps & Hm1 & Hw1 & Hl).
  apply wp_bind. eapply wp_mono; [by eapply length_spec| |exact (fun e m' Hf => Hf)]. intros n m2 (_ & ->).
  apply wp_bind. eapply wp_mono; [by eapply (throw_failure_spec R w1 611 (fun _ _ => False))|done|].
  intros e m3 [->|Ho]; [by left|]. right. by eapply oom_mono.
Qed.
End marshal.

(** Marshalling a dictionary never succeeds: on every well-formed dictionary,
    and whatever the functions that write keys and values do, [marshal] throws
    [Failure] (or runs out of memory before) and writes nothing. *)
Theorem dict_marshal_fails {H : Type} `{HH : Heap H} `{!HeapLaws H} {E F} self rel g R w rgn
    (env : E) (write_key write_val : E -> F -> Z -> ST (mem H) E) fp d l m :
  Comparison g -> rgn_in R rgn -> at_words R w m -> dict_at rel g R w d l ->
  wp (Cyc_Dict_marshal self rgn env write_key write_val fp d) (fun _ _ => False)
    (fun e m' => e = Cyc_Core_Failure \/ oom R w e m') m.
Proof. intros Hc. by apply (marshal_spec self rel g). Qed.

Definition no_write (_ : unit) (_ : unit) (_ : Z) : ST (mem bump) unit := mret tt.

Lemma dict_marshal_fails_witness : exists w e line m',
  Cyc_Dict_marshal 1 0 tt no_write no_write tt three_dict three_mem = (Thrown e dict_cyc line, m') /\
  (e = Cyc_Core_Failure \/ oom {[1000]} w e m').
Proof.
  destruct three_ok as (w & Hm & Hd).
  pose proof (dict_marshal_fails 1 9 Z.sub {[1000]} w 0 tt no_write no_write tt three_dict _ three_mem _
    (or_introl eq_refl) Hm Hd) as Hwp.
  destruct (Cyc_Dict_marshal 1 0 tt no_write no_write tt three_dict three_mem) as [o m'] eqn:E.
  assert (Ho : exists e line, o = Thrown e dict_cyc line)
    by (change o with (o, m').1; rewrite <- E; vm_compute; by do 2 eexists).
  destruct Ho as (e & line & ->). exists w, e, line, m'. split; [reflexivity|].
  exact (wp_exception _ _ _ _ _ _ _ _ Hwp E).
Defined.

(** [insert_new] of a key that is present throws [Absent], the exception of a
    failed lookup, and not [Present]; memory is unchanged. *)
Theorem insert_new_throws_absent {H : Type} `{HH : Heap H} `{!HeapLaws H} self
    (call : Z -> Z -> Z -> ST (mem H) Z) g rel R w d l k v u m :
  pure2 (call rel) g -> Comparison g -> at_words R w m -> dict_at rel g R w d l ->
  alist_get g k l = Some u ->
  wp (Cyc_Dict_insert_new self call d k v) (fun _ _ => False) (fun e m' => e = Cyc_Dict_Absent /\ m' = m) m.
Proof.
  intros Hp Hc Hm Hd Hk. unfold Cyc_Dict_insert_new. apply wp_bind.
  eapply wp_mono; [by eapply (dict_member_spec call rel g Hp _ _ _ _ _ (fun _ _ => False))| |done].
  intros b m' (-> & ->). rewrite Hk. by apply wp_thrown.
Qed.

Lemma insert_new_throws_absent_witness : exists e line m',
  Cyc_Dict_insert_new 1 sub_call three_dict 2 5 three_mem = (Thrown e dict_cyc line, m') /\
  e = Cyc_Dict_Absent /\ m' = three_mem.
Proof.
  destruct three_ok as (w & Hm & Hd).
  pose proof (insert_new_throws_absent 1 sub_call Z.sub 9 {[1000]} w three_dict _ 2 5 102 three_mem
    (fun u v m => eq_refl) _ Hm Hd eq_refl) as Hwp.
  destruct (Cyc_Dict_insert_new 1 sub_call three_dict 2 5 three_mem) as [o m'] eqn:E.
  assert (Ho : exists e line, o = Thrown e dict_cyc line)
    by (change o with (o, m').1; rewrite <- E; vm_compute; by do 2 eexists).
  destruct Ho as (e & line & ->). exists e, line, m'. split; [reflexivity|].
  exact (wp_exception _ _ _ _ _ _ _ _ Hwp E).
Defined.
