(* ===== verification/CycSplay.v ===== *)
(** * The splay tree library

    Models src/bin/genfiles/splay.c.  A tree is an object of two words: a tag
    and, for a node, a reference.  The reference is an object of one word that
    points to the node proper (key, data, left and right subtree).  Rotations
    build new nodes and then overwrite the reference, so that every tree that
    shares it sees the rotated shape. *)

From S2P Require Import Prelude Alloc FatPtr RwLock Region DynRegion Words CycList ListCells WordMem TempRegion.

Definition splay_cyc : string := "splay.cyc".

(** [enum Cyc_Splay_direction]. *)
Definition Cyc_Splay_LEFT : Z := 0.
Definition Cyc_Splay_RIGHT : Z := 1.

(** The tags of [datatype tree]. *)
Definition Leaf_tag : Z := 0.
Definition Node_tag : Z := 1.

Section splay.
Context {H : Type} `{Heap H} (self : Z).
Abbreviation M := (ST (mem H)).

(** ** Trees *)

Definition t_tag (t : Z) : M Z := get_word t.
Definition t_ref (t : Z) : M Z := get_word (t + 4).
Definition ref_node (nr : Z) : M Z := get_word nr.
Definition sn_key (n : Z) : M Z := get_word n.
Definition sn_data (n : Z) : M Z := get_word (n + 4).
Definition sn_left (n : Z) : M Z := get_word (n + 8).
Definition sn_right (n : Z) : M Z := get_word (n + 12).

(** [node{k,d,l,r}] in memory from [alloc]: the fields are evaluated and stored
    one after the other, after the allocation. *)
Definition new_splay_node (alloc : nat -> M Z) (k d l r : M Z) : M Z :=
  n ← alloc 4%nat;
  k ← k; store_word n k;; d ← d; store_word (n + 4) d;;
  l ← l; store_word (n + 8) l;; r ← r; store_word (n + 12) r;; mret n.

(** [new Node(new noderef(new node{k,d,l,r}))]: the outer objects are allocated
    first and filled last. *)
Definition new_tree (alloc : nat -> M Z) (k d l r : M Z) : M Z :=
  t ← alloc 2%nat; store_word t Node_tag;;
  nr ← alloc 1%nat;
  n ← new_splay_node alloc k d l r;
  store_word nr n;; store_word (t + 4) nr;; mret t.

(** [new List(new $(x,y), tl)] *)
Definition cons_pair (alloc : nat -> M Z) (x y tl : Z) : M Z :=
  c ← alloc 2%nat;
  p ← alloc 2%nat; store_word p x;; store_word (p + 4) y;;
  set_hd c p;; set_tl c tl;; mret c.

(** ** Rotations *)

(** The exception value: its tag and the message (a fat pointer). *)
Definition throw_invalid {A} (line : Z) : M A :=
  cycalloc_words 4 splay_cyc line;; lift (Thrown Cyc_Core_Invalid_argument splay_cyc line).

Definition Cyc_Splay_rotate_left (r nr : Z) : M unit :=
  n ← ref_node nr;
  s ← sn_left n; tag ← t_tag s;
  if tag =? Node_tag then
    nr2 ← t_ref s;
    n2 ← ref_node nr2;
    t ← new_tree (new_words self r) (sn_key n) (sn_data n) (sn_right n2) (sn_right n);
    n' ← new_splay_node (new_words self r) (sn_key n2) (sn_data n2) (sn_left n2) (mret t);
    store_word nr n'
  else throw_invalid 59.

Definition Cyc_Splay_rotate_right (r nr : Z) : M unit :=
  n ← ref_node nr;
  s ← sn_right n; tag ← t_tag s;
  if tag =? Node_tag then
    nr2 ← t_ref s;
    n2 ← ref_node nr2;
    t ← new_tree (new_words self r) (sn_key n) (sn_data n) (sn_left n) (sn_left n2);
    n' ← new_splay_node (new_words self r) (sn_key n2) (sn_data n2) (mret t) (sn_right n2);
    store_word nr n'
  else throw_invalid 72.

(** ** Splaying *)

Definition step_dir (step : Z) : M Z := get_word step.
Definition step_ref (step : Z) : M Z := get_word (step + 4).
Definition splay_not_null (x line : Z) : M Z := lift (_check_null x splay_cyc line).

(** One double rotation: zig-zig or zig-zag. *)
Definition lift_pair (r parent_dir parent grandparent_dir grandparent : Z) : M unit :=
  if parent_dir =? Cyc_Splay_LEFT then
    if grandparent_dir =? Cyc_Splay_LEFT then
      Cyc_Splay_rotate_left r grandparent;; Cyc_Splay_rotate_left r grandparent
    else
      Cyc_Splay_rotate_left r parent;; Cyc_Splay_rotate_right r grandparent
  else
    if grandparent_dir =? Cyc_Splay_LEFT then
      Cyc_Splay_rotate_right r parent;; Cyc_Splay_rotate_left r grandparent
    else
      Cyc_Splay_rotate_right r grandparent;; Cyc_Splay_rotate_right r grandparent.

Definition Cyc_Splay_lift (r dnl : Z) : M unit :=
  with_fuel (fun n => loop n (fun dnl =>
    if is_null dnl then mret (inr tt)
    else
      t ← get_tl dnl;
      if is_null t then
        step ← get_hd dnl; dir ← step_dir step; nr ← step_ref step;
        (if dir =? Cyc_Splay_LEFT then Cyc_Splay_rotate_left r nr else Cyc_Splay_rotate_right r nr);;
        mret (inr tt)
      else
        step ← get_hd dnl; parent_dir ← step_dir step; parent ← step_ref step;
        t ← get_tl dnl; t ← splay_not_null t 118;
        step ← get_hd t; grandparent_dir ← step_dir step; grandparent ← step_ref step;
        t ← get_tl dnl; t ← splay_not_null t 119; dnl ← get_tl t;
        lift_pair r parent_dir parent grandparent_dir grandparent;;
        mret (inl dnl)) dnl).

(** [temp] is the address of the handle of the local region, which holds the
    path from the root. *)
Definition Cyc_Splay_rsplay (temp r : Z) (reln : Z -> Z -> M Z) (reln_first_arg tree : Z) : M bool :=
  with_region temp (with_fuel (fun n => loop n (fun '(tree, path) =>
    tag ← t_tag tree;
    if tag =? Node_tag then
      nr ← t_ref tree;
      n ← ref_node nr;
      k ← sn_key n; comp ← reln reln_first_arg k;
      if comp =? 0 then Cyc_Splay_lift r path;; mret (inr true)
      else if comp <? 0 then
        path ← cons_pair (new_words self temp) Cyc_Splay_LEFT nr path;
        tree ← sn_left n; mret (inl (tree, path))
      else
        path ← cons_pair (new_words self temp) Cyc_Splay_RIGHT nr path;
        tree ← sn_right n; mret (inl (tree, path))
    else
      (if is_null path then mret tt else t ← get_tl path; Cyc_Splay_lift r t);;
      mret (inr false)) (tree, 0))).

Definition Cyc_Splay_splay (temp : Z) (reln : Z -> Z -> M Z) (reln_first_arg tree : Z) : M bool :=
  Cyc_Splay_rsplay temp Cyc_Core_heap_region reln reln_first_arg tree.
End splay.
