(* ===== verification/CycSlowDict.v ===== *)
(** * The dictionaries of splay trees

    Models src/bin/genfiles/slowdict.c.  A dictionary is an object of two words,
    the comparison function and a splay tree.  Searching splays the tree in
    place, so that a search writes to nodes that other dictionaries share. *)

From S2P Require Import Prelude Alloc FatPtr RwLock Region DynRegion Words CycList ListCells WordMem TempRegion CycSplay.

Definition slowdict_cyc : string := "slowdict.cyc".
Definition Cyc_SlowDict_Absent : exn := Cyc_Other_exn "Absent".
Definition Cyc_SlowDict_Present : exn := Cyc_Other_exn "Present".
Definition Cyc_Core_Impossible : exn := Cyc_Other_exn "Impossible".

Section slowdict.
Context {H : Type} `{Heap H} (self : Z).
(** [call] runs the function a word points to; [temp] is the address of the
    handle of the region that a splay operation uses. *)
Context (call : Z -> Z -> Z -> ST (mem H) Z) (temp : Z).
Abbreviation M := (ST (mem H)).

(** ** Fields and allocation *)

Definition sd_reln (d : Z) : M Z := get_word d.
Definition sd_tree (d : Z) : M Z := get_word (d + 4).
Definition sd_alloc (line : Z) (k : nat) : M Z := cycalloc_words k slowdict_cyc line.

(** [new Leaf(0)] *)
Definition new_leaf (line : Z) : M Z := t ← sd_alloc line 2; store_word t Leaf_tag;; store_word (t + 4) 0;; mret t.

(** [new Dict{reln,tree}], with fields evaluated after the allocation. *)
Definition new_dict (line : Z) (reln tree : M Z) : M Z :=
  d ← sd_alloc line 2; f ← reln; store_word d f;; t ← tree; store_word (d + 4) t;; mret d.

Definition throw_impossible {A} (line : Z) : M A :=
  sd_alloc line 4;; lift (Thrown Cyc_Core_Impossible slowdict_cyc line).
Definition throw_absent {A} (line : Z) : M A := lift (Thrown Cyc_SlowDict_Absent slowdict_cyc line).
Definition throw_present {A} (line : Z) : M A := lift (Thrown Cyc_SlowDict_Present slowdict_cyc line).

(** [Splay::splay(d->reln, key, d->tree)] *)
Definition splay_dict (d key : Z) : M bool :=
  f ← sd_reln d; t ← sd_tree d; Cyc_Splay_splay self temp (call f) key t.

(** ** Construction and tests *)

Definition Cyc_SlowDict_empty (comp : Z) : M Z := t ← new_leaf 42; new_dict 43 (mret comp) (mret t).

Definition Cyc_SlowDict_is_empty (d : Z) : M bool := t ← sd_tree d; tag ← t_tag t; mret (tag =? Leaf_tag).

Definition Cyc_SlowDict_member (d key : Z) : M bool := splay_dict d key.

(** The subtrees of the new root, when the key is present: those of the root. *)
Definition insert_found (d leaf : Z) : M (Z * Z) :=
  t ← sd_tree d; tag ← t_tag t;
  if tag =? Node_tag then
    nr ← t_ref t;
    n ← ref_node nr; newleft ← sn_left n;
    n ← ref_node nr; newright ← sn_right n; mret (newleft, newright)
  else mret (leaf, leaf).

(** When it is absent, the root goes to one side. *)
Definition insert_missing (d key leaf : Z) : M (Z * Z) :=
  t ← sd_tree d; tag ← t_tag t;
  if tag =? Node_tag then
    nr ← t_ref t;
    n ← ref_node nr;
    f ← sd_reln d; k ← sn_key n; c ← call f key k;
    if c <? 0 then
      newleft ← sn_left n;
      newright ← new_tree (sd_alloc 80) (sn_key n) (sn_data n) (mret leaf) (sn_right n);
      mret (newleft, newright)
    else
      newleft ← new_tree (sd_alloc 84) (sn_key n) (sn_data n) (sn_left n) (mret leaf);
      newright ← sn_right n; mret (newleft, newright)
  else mret (leaf, leaf).

Definition Cyc_SlowDict_insert (d key data : Z) : M Z :=
  leaf ← new_leaf 61;
  found ← splay_dict d key;
  '(newleft, newright) ← (if (found : bool) then insert_found d leaf else insert_missing d key leaf);
  new_dict 93 (sd_reln d)
    (new_tree (fun k => sd_alloc (if (k =? 4)%nat then 94 else 93) k) (mret key) (mret data) (mret newleft) (mret newright)).

Definition Cyc_SlowDict_insert_new (d key data : Z) : M Z :=
  found ← splay_dict d key;
  (if (found : bool) then throw_present 101 else mret tt);;
  Cyc_SlowDict_insert d key data.

Definition Cyc_SlowDict_inserts (d kds : Z) : M Z :=
  with_fuel (fun n => loop n (fun '(d, kds) =>
    if is_null kds then mret (inr d)
    else
      p ← get_hd kds; k ← get_word p;
      p ← get_hd kds; v ← get_word (p + 4);
      d ← Cyc_SlowDict_insert d k v;
      kds ← get_tl kds; mret (inl (d, kds))) (d, kds)).

Definition Cyc_SlowDict_singleton (comp key data : Z) : M Z :=
  leaf ← new_leaf 113;
  new_dict 114 (mret comp) (new_tree (sd_alloc 114) (mret key) (mret data) (mret leaf) (mret leaf)).

(** ** Search and deletion *)

Definition Cyc_SlowDict_lookup (d key : Z) : M Z :=
  found ← splay_dict d key;
  if (found : bool) then
    t ← sd_tree d; tag ← t_tag t;
    if tag =? Node_tag then nr ← t_ref t; n ← ref_node nr; sn_data n
    else throw_impossible 121
  else throw_absent 118.

Definition Cyc_SlowDict_lookup_opt (d key : Z) : M Z :=
  found ← splay_dict d key;
  if (found : bool) then
    t ← sd_tree d; tag ← t_tag t;
    if tag =? Node_tag then
      nr ← t_ref t;
      p ← sd_alloc 129 1; n ← ref_node nr; v ← sn_data n; store_word p v;; mret p
    else throw_impossible 130
  else mret 0.

(** A comparison that sends every search to the right. *)
Definition Cyc_SlowDict_get_largest (x y : Z) : M Z := mret 1.

Definition Cyc_SlowDict_delete (d key : Z) : M Z :=
  found ← splay_dict d key;
  if (found : bool) then
    t ← sd_tree d; tag ← t_tag t;
    if tag =? Leaf_tag then throw_impossible 140
    else
      nr ← t_ref t;
      n ← ref_node nr;
      l ← sn_left n; ltag ← t_tag l;
      if ltag =? Leaf_tag then new_dict 144 (sd_reln d) (sn_right n)
      else
        noderef_left ← t_ref l;
        r ← sn_right n; rtag ← t_tag r;
        if rtag =? Leaf_tag then new_dict 147 (sd_reln d) (sn_left n)
        else
          l ← sn_left n; Cyc_Splay_splay self temp Cyc_SlowDict_get_largest key l;;
          newtop ← ref_node noderef_left;
          new_dict 151 (sd_reln d)
            (new_tree (sd_alloc 152) (sn_key newtop) (sn_data newtop) (sn_left newtop) (sn_right n))
  else mret d.

Definition Cyc_SlowDict_delete_present (d key : Z) : M Z :=
  d2 ← Cyc_SlowDict_delete d key;
  if d =? d2 then throw_absent 164 else mret d2.

(** ** Traversals *)

(** [f(key, data, fold_tree(left, fold_tree(right, accum)))] *)
Fixpoint fold_rec {A} (fuel : nat) (f : Z -> Z -> A -> M A) (t : Z) (accum : A) : M A :=
  match fuel with
  | O => lift Undef
  | S fuel =>
      tag ← t_tag t;
      if tag =? Leaf_tag then mret accum
      else
        nr ← t_ref t;
        n ← ref_node nr;
        k ← sn_key n; v ← sn_data n; l ← sn_left n;
        r ← sn_right n; a ← fold_rec fuel f r accum;
        a ← fold_rec fuel f l a;
        f k v a
  end.
Definition Cyc_SlowDict_fold_tree {A} (f : Z -> Z -> A -> M A) (t : Z) (accum : A) : M A :=
  with_fuel (fun n => fold_rec n f t accum).
Definition Cyc_SlowDict_fold {A} (f : Z -> Z -> A -> M A) (d : Z) (accum : A) : M A :=
  t ← sd_tree d; Cyc_SlowDict_fold_tree f t accum.
Definition Cyc_SlowDict_fold_tree_c {E A} (f : E -> Z -> Z -> A -> M A) (env : E) (t : Z) (accum : A) : M A :=
  with_fuel (fun n => fold_rec n (f env) t accum).
Definition Cyc_SlowDict_fold_c {E A} (f : E -> Z -> Z -> A -> M A) (env : E) (dict : Z) (accum : A) : M A :=
  t ← sd_tree dict; Cyc_SlowDict_fold_tree_c f env t accum.

(** [app_tree(left); f(key, data); app_tree(right)] *)
Fixpoint app_rec {A} (fuel : nat) (f : Z -> Z -> M A) (t : Z) : M unit :=
  match fuel with
  | O => lift Undef
  | S fuel =>
      tag ← t_tag t;
      if tag =? Leaf_tag then mret tt
      else
        nr ← t_ref t;
        n ← ref_node nr;
        l ← sn_left n; app_rec fuel f l;;
        k ← sn_key n; v ← sn_data n; f k v;;
        r ← sn_right n; app_rec fuel f r
  end.
Definition Cyc_SlowDict_app_tree (f : Z -> Z -> M Z) (t : Z) : M unit := with_fuel (fun n => app_rec n f t).
Definition Cyc_SlowDict_app (f : Z -> Z -> M Z) (d : Z) : M unit := t ← sd_tree d; Cyc_SlowDict_app_tree f t.
Definition Cyc_SlowDict_iter_tree (f : Z -> Z -> M unit) (t : Z) : M unit := with_fuel (fun n => app_rec n f t).
Definition Cyc_SlowDict_iter (f : Z -> Z -> M unit) (d : Z) : M unit := t ← sd_tree d; Cyc_SlowDict_iter_tree f t.
Definition Cyc_SlowDict_app_tree_c {E} (f : E -> Z -> Z -> M Z) (env : E) (t : Z) : M unit :=
  with_fuel (fun n => app_rec n (f env) t).
Definition Cyc_SlowDict_app_c {E} (f : E -> Z -> Z -> M Z) (env : E) (d : Z) : M unit :=
  t ← sd_tree d; Cyc_SlowDict_app_tree_c f env t.
Definition Cyc_SlowDict_iter_tree_c {E} (f : E -> Z -> Z -> M unit) (env : E) (t : Z) : M unit :=
  with_fuel (fun n => app_rec n (f env) t).
Definition Cyc_SlowDict_iter_c {E} (f : E -> Z -> Z -> M unit) (env : E) (d : Z) : M unit :=
  t ← sd_tree d; Cyc_SlowDict_iter_tree_c f env t.

(** The copy of a node is allocated before its data and subtrees are computed. *)
Fixpoint map_rec (fuel : nat) (leaf_line node_line : Z) (f : Z -> M Z) (t : Z) : M Z :=
  match fuel with
  | O => lift Undef
  | S fuel =>
      tag ← t_tag t;
      if tag =? Leaf_tag then new_leaf leaf_line
      else
        nr ← t_ref t;
        n ← ref_node nr;
        new_tree (sd_alloc node_line) (sn_key n) (v ← sn_data n; f v)
          (l ← sn_left n; map_rec fuel leaf_line node_line f l) (r ← sn_right n; map_rec fuel leaf_line node_line f r)
  end.
Definition Cyc_SlowDict_map_tree (f : Z -> M Z) (t : Z) : M Z := with_fuel (fun n => map_rec n 258 261 f t).
Definition Cyc_SlowDict_map (f : Z -> M Z) (d : Z) : M Z :=
  new_dict 268 (sd_reln d) (t ← sd_tree d; Cyc_SlowDict_map_tree f t).
Definition Cyc_SlowDict_map_tree_c {E} (f : E -> Z -> M Z) (env : E) (t : Z) : M Z :=
  with_fuel (fun n => map_rec n 273 276 (f env) t).
Definition Cyc_SlowDict_map_c {E} (f : E -> Z -> M Z) (env : E) (d : Z) : M Z :=
  new_dict 282 (sd_reln d) (t ← sd_tree d; Cyc_SlowDict_map_tree_c f env t).

Definition Cyc_SlowDict_choose (d : Z) : M Z :=
  t ← sd_tree d; tag ← t_tag t;
  if tag =? Leaf_tag then throw_absent 287
  else
    nr ← t_ref t;
    p ← sd_alloc 288 2;
    n ← ref_node nr; k ← sn_key n; store_word p k;;
    n ← ref_node nr; v ← sn_data n; store_word (p + 4) v;; mret p.

Definition Cyc_SlowDict_to_list_f (k v accum : Z) : M Z := cons_pair (sd_alloc 293) k v accum.
Definition Cyc_SlowDict_to_list (d : Z) : M Z := Cyc_SlowDict_fold Cyc_SlowDict_to_list_f d 0.
End slowdict.
