(* ===== verification/SplaySpec.v ===== *)
(** * Splay trees in memory

    Trees as graphs of linked objects, and the specifications of the rotations. *)

From S2P Require Import Prelude Alloc FatPtr RwLock Region RegionSafety DynRegion Words CycList ListCells WordMem TempRegion CycSplay.

(** ** Splay trees in memory

    Splay trees share subtrees and are rotated in place, through the references
    of their nodes.  A state of the heap of trees is a word memory with the set
    [X] of the words that are references: only these are overwritten.  The
    relation [evolves] between two states says that every tree is still a tree
    with the same bindings in order, whatever its new shape, and that every word
    that is not a reference is as it was.  Rotations change the state along it. *)

(** ** Trees as values *)

Inductive stree : Type := SLeaf | SNode (l : stree) (kv : Z * Z) (r : stree).

Fixpoint inorder (s : stree) : list (Z * Z) :=
  match s with SLeaf => [] | SNode l kv r => inorder l ++ kv :: inorder r end.

Fixpoint ssize (s : stree) : nat :=
  match s with SLeaf => O | SNode l _ r => S (ssize l + ssize r) end.

(** ** Trees in memory *)

Section graph.
Implicit Types (X : gset Z) (w : gmap Z Z).

(** A word that is not a reference. *)
Definition fixed X w (a v : Z) : Prop := (a ∉ X) /\ w !! a = Some v.
(** A reference to the node at [n]. *)
Definition ref_to X w (nr n : Z) : Prop := nr ∈ X /\ w !! nr = Some n.
(** A tree object with tag [Node]. *)
Definition tree_ref X w (t nr : Z) : Prop := fixed X w t Node_tag /\ fixed X w (t + 4) nr.
(** The fields of a node. *)
Definition node_is X w (n : Z) (kv : Z * Z) (l r : Z) : Prop :=
  fixed X w n kv.1 /\ fixed X w (n + 4) kv.2 /\ fixed X w (n + 8) l /\ fixed X w (n + 12) r.

Fixpoint splay_at X w (t : Z) (s : stree) : Prop :=
  match s with
  | SLeaf => fixed X w t Leaf_tag
  | SNode l kv r => exists nr n lt rt, tree_ref X w t nr /\ ref_to X w nr n /\ node_is X w n kv lt rt /\
      splay_at X w lt l /\ splay_at X w rt r
  end.

(** The tree whose root is the node at [n]. *)
Definition node_tree X w (n : Z) (s : stree) : Prop :=
  exists kv l r lt rt, s = SNode l kv r /\ node_is X w n kv lt rt /\ splay_at X w lt l /\ splay_at X w rt r.

Definition refs_in X w : Prop := forall a, a ∈ X -> is_Some (w !! a).

Lemma fixed_det X w a u v : fixed X w a u -> fixed X w a v -> u = v.
Proof. intros [_ E1] [_ E2]. congruence. Qed.

Lemma ref_det X w a u v : ref_to X w a u -> ref_to X w a v -> u = v.
Proof. intros [_ E1] [_ E2]. congruence. Qed.

Lemma tree_ref_det X w t nr nr' : tree_ref X w t nr -> tree_ref X w t nr' -> nr = nr'.
Proof. intros [_ ?] [_ ?]. by eapply fixed_det. Qed.

Lemma node_det X w n kv l r kv' l' r' : node_is X w n kv l r -> node_is X w n kv' l' r' -> kv = kv' /\ l = l' /\ r = r'.
Proof.
  intros (H1 & H2 & H3 & H4) (H1' & H2' & H3' & H4'). destruct kv, kv'. simpl in *.
  pose proof (fixed_det _ _ _ _ _ H1 H1'). pose proof (fixed_det _ _ _ _ _ H2 H2').
  pose proof (fixed_det _ _ _ _ _ H3 H3'). pose proof (fixed_det _ _ _ _ _ H4 H4'). by subst.
Qed.

(** A tree object is a leaf or a node. *)
Lemma splay_leaf X w t s : splay_at X w t s -> fixed X w t Leaf_tag -> s = SLeaf.
Proof.
  destruct s as [|l kv r]; [done|]. intros (nr & n & lt & rt & [H1 _] & _) H2.
  by pose proof (fixed_det _ _ _ _ _ H1 H2).
Qed.

Lemma splay_node X w t s nr : splay_at X w t s -> tree_ref X w t nr -> exists n, ref_to X w nr n /\ node_tree X w n s.
Proof.
  destruct s as [|l kv r]; simpl.
  - intros H1 [H2 _]. by pose proof (fixed_det _ _ _ _ _ H1 H2).
  - intros (nr' & n & lt & rt & Ht & Hr & Hn & Hl & Hrt) Ht'. rewrite (tree_ref_det _ _ _ _ _ Ht' Ht).
    exists n. split; [done|]. by exists kv, l, r, lt, rt.
Qed.

Lemma splay_det X w t s s' : splay_at X w t s -> splay_at X w t s' -> s = s'.
Proof.
  revert t s'. induction s as [|l IHl kv r IHr]; intros t s' H1 H2; [symmetry; by eapply splay_leaf|].
  destruct H1 as (nr & n & lt & rt & Ht & Hr & Hn & Hl & Hrt).
  destruct (splay_node _ _ _ _ _ H2 Ht) as (n' & Hr' & kv' & l' & r' & lt' & rt' & -> & Hn' & Hl' & Hrt').
  rewrite (ref_det _ _ _ _ _ Hr' Hr) in Hn'. destruct (node_det _ _ _ _ _ _ _ _ _ Hn Hn') as (<- & <- & <-).
  f_equal; eauto.
Qed.

Lemma node_tree_det X w n s s' : node_tree X w n s -> node_tree X w n s' -> s = s'.
Proof.
  intros (kv & l & r & lt & rt & -> & Hn & Hl & Hr) (kv' & l' & r' & lt' & rt' & -> & Hn' & Hl' & Hr').
  destruct (node_det _ _ _ _ _ _ _ _ _ Hn Hn') as (<- & <- & <-). f_equal; by eapply splay_det.
Qed.

(** ** States that keep all trees *)

Definition keeps_fixed X w X' w' : Prop := X ⊆ X' /\ forall a v, fixed X w a v -> fixed X' w' a v.

Definition evolves X w X' w' : Prop := keeps_fixed X w X' w' /\
  forall t s, splay_at X w t s -> exists s', splay_at X' w' t s' /\ inorder s' = inorder s.

Lemma keeps_tree_ref X w X' w' t nr : keeps_fixed X w X' w' -> tree_ref X w t nr -> tree_ref X' w' t nr.
Proof. intros [_ Hk] [? ?]. split; auto. Qed.

Lemma keeps_node X w X' w' n kv l r : keeps_fixed X w X' w' -> node_is X w n kv l r -> node_is X' w' n kv l r.
Proof. intros [_ Hk] (? & ? & ? & ?). split_and!; auto. Qed.

Lemma keeps_trans X1 w1 X2 w2 X3 w3 : keeps_fixed X1 w1 X2 w2 -> keeps_fixed X2 w2 X3 w3 -> keeps_fixed X1 w1 X3 w3.
Proof. intros [H1 K1] [H2 K2]. split; [by etrans|]. auto. Qed.

Lemma evolves_refl X w : evolves X w X w.
Proof. split; [done|]. intros t s Hs. by exists s. Qed.

Lemma evolves_trans X1 w1 X2 w2 X3 w3 : evolves X1 w1 X2 w2 -> evolves X2 w2 X3 w3 -> evolves X1 w1 X3 w3.
Proof.
  intros [K1 H1] [K2 H2]. split; [by eapply keeps_trans|]. intros t s Hs.
  destruct (H1 t s Hs) as (s1 & Hs1 & E1). destruct (H2 t s1 Hs1) as (s2 & Hs2 & E2). exists s2. split; [done|congruence].
Qed.

(** New words, of which some become references. *)
Definition extends X w X' w' : Prop := X ⊆ X' /\ w ⊆ w' /\ forall a, a ∈ X' -> a ∉ X -> w !! a = None.

Lemma extends_refl X w : extends X w X w.
Proof. by split_and!. Qed.

Lemma extends_trans X1 w1 X2 w2 X3 w3 : extends X1 w1 X2 w2 -> extends X2 w2 X3 w3 -> extends X1 w1 X3 w3.
Proof.
  intros (H1 & S1 & N1) (H2 & S2 & N2). split_and!; [by etrans|by etrans|]. intros a Ha Hn.
  destruct (decide (a ∈ X2)) as [?|Hn2]; [by apply N1|]. eapply lookup_weaken_None; [by apply N2|done].
Qed.

Lemma extends_words X w w' : w ⊆ w' -> extends X w X w'.
Proof. intros Hw. split_and!; [done..|]. intros a Ha Hn. done. Qed.

Lemma extends_fixed X w X' w' : extends X w X' w' -> keeps_fixed X w X' w'.
Proof.
  intros (HX & Hw & Hn). split; [done|]. intros a v [Ha Hv]. split; [|by eapply lookup_weaken].
  intros Hin. pose proof (Hn a Hin Ha). congruence.
Qed.

Lemma extends_ref X w X' w' nr n : extends X w X' w' -> ref_to X w nr n -> ref_to X' w' nr n.
Proof. intros (HX & Hw & _) [? ?]. split; [by apply HX|by eapply lookup_weaken]. Qed.

Lemma extends_splay X w X' w' t s : extends X w X' w' -> splay_at X w t s -> splay_at X' w' t s.
Proof.
  intros He. pose proof (extends_fixed _ _ _ _ He) as Hk.
  revert t. induction s as [|l IHl kv r IHr]; intros t; simpl; [by apply Hk|].
  intros (nr & n & lt & rt & Ht & Hr & Hn & Hl & Hrt). exists nr, n, lt, rt.
  split_and!; [by eapply keeps_tree_ref|by eapply extends_ref|by eapply keeps_node|auto..].
Qed.

Lemma extends_evolves X w X' w' : extends X w X' w' -> evolves X w X' w'.
Proof. intros He. split; [by apply extends_fixed|]. intros t s Hs. exists s. split; [by eapply extends_splay|done]. Qed.

(** Overwriting the reference [nr] of a node [n] with a node [n'] that denotes a
    tree with the same bindings, provided that smaller trees keep theirs. *)
Lemma fixed_swing X w nr v : nr ∈ X -> keeps_fixed X w X (<[nr := v]> w).
Proof. intros Hr. split; [done|]. intros a u [Ha Hu]. split; [done|]. rewrite lookup_insert_ne; [done|]. by intros ->. Qed.

Lemma ref_swing X w nr v q n : ref_to X w q n -> q <> nr -> ref_to X (<[nr := v]> w) q n.
Proof. intros [Hq Hn] Hne. split; [done|]. by rewrite lookup_insert_ne. Qed.

Definition keeps_tree X w X' w' (t : Z) (s : stree) : Prop :=
  splay_at X w t s -> exists s', splay_at X' w' t s' /\ inorder s' = inorder s.

Lemma swing_evolves X w nr n n' : ref_to X w nr n ->
  (forall s, node_tree X w n s -> (forall t s0, (ssize s0 < ssize s)%nat -> keeps_tree X w X (<[nr := n']> w) t s0) ->
     exists s', node_tree X (<[nr := n']> w) n' s' /\ inorder s' = inorder s) ->
  evolves X w X (<[nr := n']> w).
Proof.
  intros Hr Hn. set (w' := <[nr := n']> w). assert (Hk : keeps_fixed X w X w') by (apply fixed_swing; by destruct Hr).
  split; [done|]. assert (Hall : forall k t s, (ssize s < k)%nat -> keeps_tree X w X w' t s); [|intros t s; apply (Hall (S (ssize s))); lia].
  induction k as [|k IH]; intros t s Hlt Hs; [lia|]. destruct s as [|l kv r]; [exists SLeaf; split; [by apply Hk|done]|].
  pose proof Hs as (q & n1 & lt & rt & Ht & Hq & Hn1 & Hl & Hrt). simpl in Hlt.
  pose proof (keeps_tree_ref _ _ _ _ _ _ Hk Ht) as Ht'. destruct (decide (q = nr)) as [->|Hne].
  - rewrite (ref_det _ _ _ _ _ Hq Hr) in Hn1.
    destruct (Hn (SNode l kv r)) as (s' & (kv' & l' & r' & lt' & rt' & -> & Hn' & Hl' & Hr') & E).
    { by exists kv, l, r, lt, rt. }
    { intros t0 s0 H0. apply IH. simpl in H0. lia. }
    exists (SNode l' kv' r'). split; [|done]. exists nr, n', lt', rt'. split_and!; try done.
    split; [by destruct Hr|apply lookup_insert_eq].
  - destruct (IH lt l ltac:(lia) Hl) as (l' & Hl' & El). destruct (IH rt r ltac:(lia) Hrt) as (r' & Hr' & Er).
    exists (SNode l' kv r'). split; [|simpl; congruence]. exists q, n1, lt, rt.
    split_and!; [done|by apply ref_swing|by eapply keeps_node|done|done].
Qed.
End graph.

(** ** Splaying keeps every tree

    Rotations and splaying on these states: every tree of the heap,
    not only the one that is searched, keeps its bindings in order, and the
    binding that the search visits last is moved to the root. *)

(** ** One rotation *)

(** The subtree in direction [d]. *)
Definition child (d l r : Z) : Z := if d =? Cyc_Splay_LEFT then l else r.

Section turn.
Implicit Types (X : gset Z) (w : gmap Z Z).

(** The reference [p] has a child with reference [c] in direction [d]. *)
Definition link X w (d p c : Z) : Prop :=
  exists n kv l r, ref_to X w p n /\ node_is X w n kv l r /\ tree_ref X w (child d l r) c.
(** The node behind the reference [c]. *)
Definition root_is X w (c : Z) (kv : Z * Z) (l r : Z) : Prop := exists n, ref_to X w c n /\ node_is X w n kv l r.

(** Only the reference [p] is overwritten. *)
Definition turned (p : Z) X w X' w' : Prop :=
  evolves X w X' w' /\ forall q n, q <> p -> ref_to X w q n -> ref_to X' w' q n.

Lemma turned_link p X w X' w' d q c : turned p X w X' w' -> q <> p -> link X w d q c -> link X' w' d q c.
Proof.
  intros [[Hk _] Hr] Hne (n & kv & l & r & Hq & Hn & Ht). exists n, kv, l, r.
  split_and!; [by apply Hr|by eapply keeps_node|by eapply keeps_tree_ref].
Qed.

Lemma turned_root p X w X' w' c kv l r : turned p X w X' w' -> c <> p -> root_is X w c kv l r -> root_is X' w' c kv l r.
Proof. intros [[Hk _] Hr] Hne (n & Hq & Hn). exists n. split; [by apply Hr|by eapply keeps_node]. Qed.

(** The trees at [t] and below, when [p] is overwritten in [w1]. *)
Lemma swing_child X w1 p n' t s nr n kv l r : tree_ref X w1 t nr -> ref_to X w1 nr n -> node_is X w1 n kv l r -> nr <> p -> p ∈ X ->
  (exists s1, splay_at X (<[p := n']> w1) l s1 /\ inorder s1 = inorder s.1) ->
  (exists s2, splay_at X (<[p := n']> w1) r s2 /\ inorder s2 = inorder s.2) ->
  exists s', splay_at X (<[p := n']> w1) t s' /\ inorder s' = inorder s.1 ++ kv :: inorder s.2.
Proof.
  intros Ht Hr Hn Hne Hp (s1 & H1 & E1) (s2 & H2 & E2). pose proof (fixed_swing X w1 p n' Hp) as Hk.
  exists (SNode s1 kv s2). split; [|simpl; congruence]. exists nr, n, l, r.
  split_and!; [by eapply keeps_tree_ref|by apply ref_swing|by eapply keeps_node|done|done].
Qed.

Lemma swing_root X w1 p n' kv l r s : node_is X w1 n' kv l r -> p ∈ X ->
  (exists s1, splay_at X (<[p := n']> w1) l s1 /\ inorder s1 = s.1) ->
  (exists s2, splay_at X (<[p := n']> w1) r s2 /\ inorder s2 = s.2) ->
  exists s', node_tree X (<[p := n']> w1) n' s' /\ inorder s' = s.1 ++ kv :: s.2.
Proof.
  intros Hn Hp (s1 & H1 & E1) (s2 & H2 & E2). pose proof (fixed_swing X w1 p n' Hp) as Hk.
  exists (SNode s1 kv s2). split; [|simpl; congruence]. exists kv, s1, s2, l, r. split_and!; try done. by eapply keeps_node.
Qed.

Section rotation.
Context X w (p n : Z) (x : Z * Z) (l r c n2 : Z) (y : Z * Z) (l2 r2 : Z) X1 w1 (t3 nr3 n3 n' : Z).
Context (Hp : ref_to X w p n) (Hn : node_is X w n x l r) (Hc : ref_to X w c n2) (Hn2 : node_is X w n2 y l2 r2).
Context (He : extends X w X1 w1) (Ht3 : tree_ref X1 w1 t3 nr3) (Hr3 : ref_to X1 w1 nr3 n3) (Hf : nr3 ∉ X).

Lemma turned_from : evolves X1 w1 X1 (<[p := n']> w1) -> turned p X w X1 (<[p := n']> w1).
Proof using Hp He.
  intros Hs. split; [eapply evolves_trans; [by apply extends_evolves|done]|].
  intros q n0 Hne Hq. apply ref_swing; [by eapply extends_ref|done].
Qed.

Lemma turn_left : tree_ref X w l c -> node_is X1 w1 n3 x r2 r -> node_is X1 w1 n' y l2 t3 -> turned p X w X1 (<[p := n']> w1).
Proof using Hp Hn Hc Hn2 He Ht3 Hr3 Hf.
  intros Hl Hn3 Hn'. apply turned_from. pose proof (extends_fixed _ _ _ _ He) as Hk.
  pose proof (extends_ref _ _ _ _ _ _ He Hp) as Hp1. eapply swing_evolves; [done|].
  intros s (x' & sl & sr & l' & r' & -> & Hnx & Hsl & Hsr) IH.
  destruct (node_det _ _ _ _ _ _ _ _ _ (keeps_node _ _ _ _ _ _ _ _ Hk Hn) Hnx) as (<- & <- & <-).
  destruct (splay_node _ _ _ _ _ Hsl (keeps_tree_ref _ _ _ _ _ _ Hk Hl)) as (n2' & Hc' & y' & a & b & l2' & r2' & -> & Hny & Ha & Hb).
  rewrite (ref_det _ _ _ _ _ Hc' (extends_ref _ _ _ _ _ _ He Hc)) in Hny.
  destruct (node_det _ _ _ _ _ _ _ _ _ (keeps_node _ _ _ _ _ _ _ _ Hk Hn2) Hny) as (<- & <- & <-). simpl in IH.
  assert (Hp' : p ∈ X1) by (by destruct Hp1). assert (Hne : nr3 <> p) by (intros ->; apply Hf; by destruct Hp).
  destruct (swing_root X1 w1 p n' y l2 t3 (inorder a, inorder b ++ x :: inorder sr)) as (s' & Hs' & E); [done|done|..].
  - apply (IH l2 a); [lia|done].
  - apply (swing_child X1 w1 p n' t3 (b, sr) nr3 n3 x r2 r); try done; apply IH; simpl; try lia; done.
  - exists s'. split; [done|]. rewrite E. simpl. by rewrite <- app_assoc.
Qed.

Lemma turn_right : tree_ref X w r c -> node_is X1 w1 n3 x l l2 -> node_is X1 w1 n' y t3 r2 -> turned p X w X1 (<[p := n']> w1).
Proof using Hp Hn Hc Hn2 He Ht3 Hr3 Hf.
  intros Hl Hn3 Hn'. apply turned_from. pose proof (extends_fixed _ _ _ _ He) as Hk.
  pose proof (extends_ref _ _ _ _ _ _ He Hp) as Hp1. eapply swing_evolves; [done|].
  intros s (x' & sl & sr & l' & r' & -> & Hnx & Hsl & Hsr) IH.
  destruct (node_det _ _ _ _ _ _ _ _ _ (keeps_node _ _ _ _ _ _ _ _ Hk Hn) Hnx) as (<- & <- & <-).
  destruct (splay_node _ _ _ _ _ Hsr (keeps_tree_ref _ _ _ _ _ _ Hk Hl)) as (n2' & Hc' & y' & a & b & l2' & r2' & -> & Hny & Ha & Hb).
  rewrite (ref_det _ _ _ _ _ Hc' (extends_ref _ _ _ _ _ _ He Hc)) in Hny.
  destruct (node_det _ _ _ _ _ _ _ _ _ (keeps_node _ _ _ _ _ _ _ _ Hk Hn2) Hny) as (<- & <- & <-). simpl in IH.
  assert (Hp' : p ∈ X1) by (by destruct Hp1). assert (Hne : nr3 <> p) by (intros ->; apply Hf; by destruct Hp).
  destruct (swing_root X1 w1 p n' y t3 r2 (inorder sl ++ x :: inorder a, inorder b)) as (s' & Hs' & E); [done|done|..].
  - apply (swing_child X1 w1 p n' t3 (sl, a) nr3 n3 x l l2); try done; apply IH; simpl; try lia; done.
  - apply (IH r2 b); [lia|done].
  - exists s'. split; [done|]. rewrite E. simpl. by rewrite <- app_assoc.
Qed.
End rotation.
End turn.

(** ** New trees *)

(** Values that are read from the words [w], whatever is added to them. *)
Definition reads {H} `{Heap H} (w : gmap Z Z) (c : ST (mem H) Z) (v : Z) : Prop :=
  forall m, w ⊆ words m -> c m = (Ret v, m).

Lemma reads_ret {H} `{Heap H} w v : reads w (mret v) v.
Proof. done. Qed.

Lemma reads_word {H} `{Heap H} w a v : w !! a = Some v -> reads w (get_word a) v.
Proof. intros Ha m Hw. apply get_word_Ret. by eapply lookup_weaken. Qed.

Lemma reads_mono {H} `{Heap H} w w' c v : reads w c v -> w ⊆ w' -> reads w' c v.
Proof. intros Hc Hw m Hm. apply Hc. by etrans. Qed.

Lemma node_reads {H} `{Heap H} X w n kv l r : node_is X w n kv l r ->
  reads w (sn_key n) kv.1 /\ reads w (sn_data n) kv.2 /\ reads w (sn_left n) l /\ reads w (sn_right n) r.
Proof. intros ([_ ?] & [_ ?] & [_ ?] & [_ ?]). split_and!; by apply reads_word. Qed.

(** New words are not references. *)
Lemma fresh_not_ref X w p k a : refs_in X w -> fresh_words p k w -> p <= a -> a + 4 <= p + 4 * Z.of_nat k -> (a ∉ X) /\ w !! a = None.
Proof.
  intros HX (_ & _ & _ & Hf) H1 H2. assert (Hn : w !! a = None) by (apply eq_None_not_Some; intros Ha; apply Hf in Ha; lia).
  split; [|done]. intros Hin. apply HX in Hin. rewrite Hn in Hin. by destruct Hin.
Qed.

Section objects.
Implicit Types (X : gset Z) (w : gmap Z Z).

Lemma refs_in_mono X w w' : refs_in X w -> w ⊆ w' -> refs_in X w'.
Proof. intros HX Hw a Ha. destruct (HX a Ha) as [v Hv]. exists v. by eapply lookup_weaken. Qed.

(** The fields of a new node. *)
Lemma object_node X w n kv l r w' : refs_in X w -> object w n [kv.1; kv.2; l; r] w' -> node_is X w' n kv l r.
Proof.
  intros HX Ho. assert (Hin : forall i v, [kv.1; kv.2; l; r] !! i = Some v -> fixed X w' (n + 4 * Z.of_nat i) v).
  { intros i v Hi. split; [|by eapply object_get]. pose proof Ho as (Hf & _). apply lookup_lt_Some in Hi.
    apply (fresh_not_ref X w n 4 _ HX Hf); simpl in Hi; lia. }
  pose proof (Hin 0%nat _ eq_refl) as H0. replace (n + 4 * Z.of_nat 0) with n in H0 by lia.
  split_and!; [exact H0|by apply (Hin 1%nat)|by apply (Hin 2%nat)|by apply (Hin 3%nat)].
Qed.

(** A new tree object, reference and node. *)
Definition new_root X w t kv l r X' w' : Prop :=
  extends X w X' w' /\ refs_in X' w' /\ exists nr n, (nr ∉ X) /\ tree_ref X' w' t nr /\ ref_to X' w' nr n /\ node_is X' w' n kv l r.

Lemma node_weaken X Y w n kv l r : X ⊆ Y -> node_is Y w n kv l r -> node_is X w n kv l r.
Proof. intros HX ([? ?] & [? ?] & [? ?] & [? ?]). unfold node_is, fixed. split_and!; try done; set_solver. Qed.

Lemma new_tree_graph X w t w1 nr w2 n kv l r w3 : refs_in X w -> object w t [Node_tag; 0] w1 -> object w1 nr [0] w2 ->
  object w2 n [kv.1; kv.2; l; r] w3 -> object w t [Node_tag; nr] (<[t + 4 := nr]> (<[nr := n]> w3)) ->
  new_root X w t kv l r ({[nr]} ∪ X) (<[t + 4 := nr]> (<[nr := n]> w3)).
Proof.
  intros HX Ho Hr1 Hn Ho5. set (w5 := <[t + 4 := nr]> _) in *.
  assert (N1 : w1 !! nr = None) by (eapply (object_absent _ _ _ _ 0); [exact Hr1|simpl; lia|lia]).
  assert (N0 : w !! nr = None) by (eapply lookup_weaken_None; [done|by eapply object_sub]).
  assert (T0 : w1 !! t = Some Node_tag) by (eapply (object_get _ _ _ _ 0); [exact Ho|done|lia]).
  assert (T4 : w1 !! (t + 4) = Some 0) by (eapply (object_get _ _ _ _ 1); [exact Ho|done|lia]).
  assert (Ht : nr <> t) by congruence. assert (Ht4 : nr <> t + 4) by congruence.
  assert (Hnr : w5 !! nr = Some n) by (unfold w5; rewrite lookup_insert_ne, lookup_insert_eq; done).
  assert (HnX : nr ∉ X) by (intros Hin; apply HX in Hin; rewrite N0 in Hin; by destruct Hin).
  assert (HtX : forall i, 0 <= i -> i + 4 <= 8 -> t + i ∉ X).
  { intros i ? ?. destruct Ho as (Hf & _). apply (fresh_not_ref X w t 2); simpl in *; [done|done|lia|lia]. }
  pose proof (HtX 0 ltac:(lia) ltac:(lia)) as Ht0. rewrite Z.add_0_r in Ht0. pose proof (HtX 4 ltac:(lia) ltac:(lia)) as Ht4X.
  split; [|split].
  - split_and!; [set_solver|by eapply object_sub|]. intros a Ha Hna. assert (a = nr) as -> by set_solver. done.
  - intros a [->%elem_of_singleton|Ha]%elem_of_union; [by exists n|].
    eapply refs_in_mono; [exact HX|by eapply object_sub|done].
  - exists nr, n. split; [done|]. split; [|split].
    + split; (split; [set_solver|]); [eapply (object_get _ _ _ _ 0)|eapply (object_get _ _ _ _ 1)]; [exact Ho5|done|lia|exact Ho5|done|lia].
    + split; [set_solver|done].
    + set (Y := {[t + 4]} ∪ ({[nr]} ∪ X)). assert (HY : refs_in Y w2).
      { intros a [->%elem_of_singleton|[->%elem_of_singleton|Ha]%elem_of_union]%elem_of_union.
        - exists 0. eapply lookup_weaken; [done|by eapply object_sub].
        - exists 0. eapply (object_get _ _ _ _ 0); [exact Hr1|done|lia].
        - eapply refs_in_mono; [exact HX| |done]. etrans; eapply object_sub; [exact Ho|exact Hr1]. }
      eapply (node_weaken _ Y); [set_solver|]. eapply keeps_node; [apply fixed_swing; set_solver|].
      eapply keeps_node; [apply fixed_swing; set_solver|]. by eapply object_node.
Qed.

End objects.

Section memory.
Context {H : Type} `{HH : Heap H} (P : gmap Z Z -> mem H -> Prop) `{!WordMem P}.
Implicit Types (X : gset Z) (w : gmap Z Z) (m : mem H).

(** The state of the trees may have changed to one that keeps all of them. *)
Definition evolved X w (Q : gset Z -> gmap Z Z -> Prop) m : Prop :=
  exists X' w', P w' m /\ refs_in X' w' /\ evolves X w X' w' /\ Q X' w'.
Definition tree_oom X w (e : exn) m : Prop := e = Cyc_Bad_alloc /\ evolved X w (fun _ _ => True) m.

Lemma tree_oom_mono X w X' w' e m : evolves X w X' w' -> tree_oom X' w' e m -> tree_oom X w e m.
Proof. intros He (-> & X2 & w2 & ? & ? & ? & _). split; [done|]. exists X2, w2. split_and!; try done. by eapply evolves_trans. Qed.

Lemma tree_oom_words X w w' m : P w' m -> w ⊆ w' -> refs_in X w -> tree_oom X w Cyc_Bad_alloc m.
Proof.
  intros Hm Hw HX. split; [done|]. exists X, w'. split_and!; try done; [by eapply refs_in_mono|].
  by apply extends_evolves, extends_words.
Qed.

Lemma wm_reads w c v (Q : Z -> mem H -> Prop) E m : P w m -> reads w c v -> Q v m -> wp c Q E m.
Proof. intros Hm Hc HQ. eapply wp_run; [|done]. apply Hc. by apply wm_sub. Qed.

Context (alloc : nat -> ST (mem H) Z) (Halloc : forall k, (k <= 4)%nat -> allocates P k (alloc k)).

Lemma wm_alloc k w (Q : Z -> mem H -> Prop) E m : (k <= 4)%nat -> P w m ->
  (forall p m', P (zero_words p k w) m' -> fresh_words p k w -> Q p m') ->
  (forall m', P w m' -> E Cyc_Bad_alloc m') -> wp (alloc k) Q E m.
Proof using Halloc.
  intros Hk Hm HQ HE. eapply wp_mono; [by apply (Halloc k Hk w m)|intros p m' [? ?]; by apply HQ|intros e m' [-> ?]; by apply HE].
Qed.

Lemma new_splay_node_spec k d l r kv lt rt w m (Q : Z -> mem H -> Prop) E : P w m ->
  reads w k kv.1 -> reads w d kv.2 -> reads w l lt -> reads w r rt ->
  (forall n w' m', P w' m' -> object w n [kv.1; kv.2; lt; rt] w' -> Q n m') ->
  (forall m', P w m' -> E Cyc_Bad_alloc m') -> wp (new_splay_node alloc k d l r) Q E m.
Proof using Halloc WordMem0.
  intros Hm Hk Hd Hl Hr HQ HE. unfold new_splay_node. wps. eapply (wm_alloc 4); [lia|done| |done].
  clear Hm m. intros n m Hm Ho%object_start. simpl in Ho.
  wps. eapply wm_reads; [done|by eapply reads_mono; [|eapply object_sub]|].
  wps. eapply (wm_put_field P 0); [exact Ho|done|simpl; lia|lia|]. clear Hm m Ho. intros m Hm Ho. simpl in Ho.
  wps. eapply wm_reads; [done|by eapply reads_mono; [|eapply object_sub]|].
  wps. eapply (wm_put_field P 1); [exact Ho|done|simpl; lia|lia|]. clear Hm m Ho. intros m Hm Ho. simpl in Ho.
  wps. eapply wm_reads; [done|by eapply reads_mono; [|eapply object_sub]|].
  wps. eapply (wm_put_field P 2); [exact Ho|done|simpl; lia|lia|]. clear Hm m Ho. intros m Hm Ho. simpl in Ho.
  wps. eapply wm_reads; [done|by eapply reads_mono; [|eapply object_sub]|].
  wps. eapply (wm_put_field P 3); [exact Ho|done|simpl; lia|lia|]. clear Hm m Ho. intros m Hm Ho. simpl in Ho.
  wps. by eapply HQ.
Qed.

Lemma new_tree_spec X k d l r kv lt rt w m (Q : Z -> mem H -> Prop) E : P w m -> refs_in X w ->
  reads w k kv.1 -> reads w d kv.2 -> reads w l lt -> reads w r rt ->
  (forall t X' w' m', P w' m' -> new_root X w t kv lt rt X' w' -> Q t m') ->
  (forall w' m', P w' m' -> w ⊆ w' -> E Cyc_Bad_alloc m') -> wp (new_tree alloc k d l r) Q E m.
Proof using Halloc WordMem0.
  intros Hm HX Hk Hd Hl Hr HQ HE. unfold new_tree. wps. eapply (wm_alloc 2); [lia|done| |intros; by eapply HE].
  clear Hm m. intros t m Hm Ho%object_start. simpl in Ho.
  wps. eapply (wm_put_field P 0); [exact Ho|done|simpl; lia|lia|]. clear Hm m Ho. intros m Hm Ho. simpl in Ho.
  set (w1 := <[t := _]> _) in *. wps. eapply (wm_alloc 1); [lia|done| |intros; eapply HE; [done|by eapply object_sub]].
  clear Hm m. intros nr m Hm Hr1%object_start. simpl in Hr1. set (w2 := <[nr := 0]> w1) in *.
  pose proof (object_sub _ _ _ _ Ho) as S1. pose proof (object_sub _ _ _ _ Hr1) as S2. assert (S02 : w ⊆ w2) by (by etrans).
  wps. eapply new_splay_node_spec; [done|by eapply reads_mono..| |intros; by eapply HE].
  clear Hm m. intros n w3 m Hm Hn. pose proof (object_sub _ _ _ _ Hn) as S3.
  pose proof (object_mono _ _ _ _ _ Hr1 S3) as Hr3.
  wps. eapply (wm_put_field P 0); [exact Hr3|done|simpl; lia|lia|]. clear Hm m Hr3. intros m Hm Hr3. simpl in Hr3.
  set (w4 := <[nr := n]> w3) in *. pose proof (object_sub _ _ _ _ Hr3) as S4. pose proof (object_mono _ _ _ _ _ Ho S4) as Ho4.
  wps. eapply (wm_put_field P 1); [exact Ho4|done|simpl; lia|lia|]. clear Hm m. intros m Hm Ho5. simpl in Ho5.
  set (w5 := <[t + 4 := nr]> w4) in *. wps. eapply (HQ t ({[nr]} ∪ X) w5); [done|].
  exact (new_tree_graph X w t w1 nr w2 n kv lt rt w3 HX Ho Hr1 Hn Ho5).
Qed.
End memory.

(** ** Rotations and lifting *)

Section rotate.
Context {H : Type} `{HH : Heap H} (P : gmap Z Z -> mem H -> Prop) `{!WordMem P} (self r : Z) `{!RgnAlloc P r}.
Implicit Types (X : gset Z) (w : gmap Z Z) (m : mem H).

Lemma new_words_allocates k : (k <= 4)%nat -> allocates P k (new_words self r k).
Proof. intros Hk. apply rgn_alloc. unfold MAX_MALLOC_SIZE. change (Z.shiftl 1 28) with 268435456. lia. Qed.

(** The reference [p] now has the node of its child. *)
Definition lifted X w d p kv l2 r2 m : Prop := exists X' w', P w' m /\ refs_in X' w' /\ turned p X w X' w' /\
  exists l' r', root_is X' w' p kv l' r' /\ child d l' r' = child d l2 r2.

Definition rotate (d p : Z) : ST (mem H) unit :=
  if d =? Cyc_Splay_LEFT then Cyc_Splay_rotate_left self r p else Cyc_Splay_rotate_right self r p.

Lemma rotate_spec X w d p c kv l2 r2 m : P w m -> refs_in X w -> link X w d p c -> root_is X w c kv l2 r2 ->
  wp (rotate d p) (fun _ => lifted X w d p kv l2 r2) (tree_oom P X w) m.
Proof.
  intros Hm HX (n & x & lt & rt & Hp & Hn & Ht) (n2 & Hc & Hn2).
  destruct (node_reads _ _ _ _ _ _ Hn) as (Rk & Rd & Rl & Rr). destruct (node_reads _ _ _ _ _ _ Hn2) as (Rk2 & Rd2 & Rl2 & Rr2).
  pose proof Hp as [HpX Hpn]. pose proof Hc as [_ Hcn]. pose proof Ht as [[_ Ht0] [_ Ht4]]. unfold rotate, child in *.
  destruct (d =? Cyc_Splay_LEFT) eqn:Ed; [unfold Cyc_Splay_rotate_left|unfold Cyc_Splay_rotate_right]; wps.
  all: eapply (wm_load P); [done..|]; wps; eapply (wm_reads P); [done..|]; wps; eapply (wm_load P); [done..|].
  all: rewrite Z.eqb_refl; wps; eapply (wm_load P); [done..|]; wps; eapply (wm_load P); [done..|].
  all: wps; eapply (new_tree_spec P _ new_words_allocates X _ _ _ _ x); [done..| |intros; by eapply tree_oom_words].
  all: clear Hm m; intros t3 X1 w1 m Hm (He & HX1 & nr3 & n3 & Hf & Ht3 & Hr3 & Hn3).
  all: assert (Hw : w ⊆ w1) by (by destruct He as (_ & ? & _)).
  all: wps; eapply (new_splay_node_spec P _ new_words_allocates _ _ _ _ kv); [done|by eapply reads_mono| by eapply reads_mono|try done; by eapply reads_mono|try done; by eapply reads_mono| |].
  2, 4: intros m1 Hm1; split; [done|]; exists X1, w1; split_and!; try done; by apply extends_evolves.
  all: clear Hm m; intros n' w2 m Hm Ho; pose proof (object_sub _ _ _ _ Ho) as Hw2; pose proof (extends_words X1 _ _ Hw2) as He2.
  all: pose proof (object_node X1 _ _ _ _ _ _ HX1 Ho) as Hn'; pose proof (extends_trans _ _ _ _ _ _ He He2) as He3.
  all: pose proof (extends_fixed _ _ _ _ He2) as Hk2; apply (keeps_tree_ref _ _ _ _ _ _ Hk2) in Ht3; apply (extends_ref _ _ _ _ _ _ He2) in Hr3;
       apply (keeps_node _ _ _ _ _ _ _ _ Hk2) in Hn3.
  all: assert (Hp2 : p ∈ X1) by (by apply He).
  all: eapply (wm_put P); [done|eexists; by eapply (extends_ref _ _ _ _ _ _ He3)|]; clear Hm m; intros m Hm.
  all: exists X1, (<[p := n']> w2); split; [done|].
  all: pose proof (keeps_node _ _ _ _ _ _ _ _ (fixed_swing X1 w2 p n' Hp2) Hn') as Hn4.
  all: split; [intros a Ha; rewrite lookup_insert; case_decide; [by eexists|by eapply refs_in_mono]|].
  - split; [by eapply (turn_left X w p n x lt rt c n2 kv l2 r2 X1 w2 t3 nr3 n3 n')|].
    exists l2, t3. split; [|unfold child; by rewrite Ed]. exists n'. split; [split; [done|apply lookup_insert_eq]|done].
  - split; [by eapply (turn_right X w p n x lt rt c n2 kv l2 r2 X1 w2 t3 nr3 n3 n')|].
    exists t3, r2. split; [|unfold child; by rewrite Ed]. exists n'. split; [split; [done|apply lookup_insert_eq]|done].
Qed.
End rotate.
