(* ===== verification/SplayRefine.v ===== *)
(** * Splaying moves the visited binding to the root

    The loops of [lift] and [rsplay].  The path of a search is a list of steps
    in the local region; its references are distinct, because the trees below
    them get smaller.  [rsplay_spec] is the contract that clients of the splay
    trees use. *)

From S2P Require Import Prelude Alloc FatPtr RwLock Region RegionSafety DynRegion Words CycList ListCells WordMem TempRegion CycListSpec CycSplay SplaySpec.

(** ** Paths *)

(** A list cell with a pair of words. *)
Definition pair_cell (t : gmap Z Z) (c x y tl : Z) : Prop :=
  c <> 0 /\ t !! (c + 4) = Some tl /\ exists h, t !! c = Some h /\ t !! h = Some x /\ t !! (h + 4) = Some y.

Fixpoint steps_at (t : gmap Z Z) (c : Z) (l : list (Z * Z)) : Prop :=
  match l with [] => c = 0 | (d, p) :: l => exists c', pair_cell t c d p c' /\ steps_at t c' l end.

Lemma pair_cell_mono t t' c x y tl : t ⊆ t' -> pair_cell t c x y tl -> pair_cell t' c x y tl.
Proof.
  intros Ht (H0 & H4 & h & Hh & Hx & Hy). split_and!; [done|by eapply lookup_weaken|].
  exists h. split_and!; by eapply lookup_weaken.
Qed.

Lemma steps_at_mono t t' c l : t ⊆ t' -> steps_at t c l -> steps_at t' c l.
Proof.
  intros Ht. revert c. induction l as [|[d p] l IH]; intros c; [done|]. intros (c' & Hc & Hl).
  exists c'. split; [by eapply pair_cell_mono|auto].
Qed.

Lemma cons_pair_spec {H} `{HH : Heap H} (P : gmap Z Z -> mem H -> Prop) `{!WordMem P} (alloc : nat -> ST (mem H) Z)
    (Halloc : forall k, (k <= 4)%nat -> allocates P k (alloc k)) x y tl t m (Q : Z -> mem H -> Prop) E : P t m ->
  (forall c t' m', P t' m' -> t ⊆ t' -> pair_cell t' c x y tl -> Q c m') ->
  (forall t' m', P t' m' -> t ⊆ t' -> E Cyc_Bad_alloc m') -> wp (cons_pair alloc x y tl) Q E m.
Proof.
  intros Hm HQ HE. unfold cons_pair. wps. eapply (wm_alloc P alloc Halloc 2); [lia|done| |intros; by eapply HE].
  clear Hm m. intros c m Hm Hf. pose proof Hf as (Hc & _). apply object_start in Hf as Ho. simpl in Ho. set (t1 := <[c := 0]> _) in *.
  wps. eapply (wm_alloc P alloc Halloc 2); [lia|done| |intros; eapply HE; [done|by eapply object_sub]].
  clear Hm m. intros p m Hm Hp%object_start. simpl in Hp. set (t2 := <[p := 0]> _) in *.
  wps. eapply (wm_put_field P 0); [exact Hp|done|simpl; lia|lia|]. clear Hm m. intros m Hm Hp1. simpl in Hp1.
  wps. eapply (wm_put_field P 1); [exact Hp1|done|simpl; lia|lia|]. clear Hm m Hp1. intros m Hm Hp1. simpl in Hp1. set (t3 := <[p + 4 := y]> _) in *.
  pose proof (object_mono _ _ _ _ _ Ho (object_sub _ _ _ _ Hp1)) as Ho3.
  unfold set_hd, set_tl. wps. eapply (wm_put_field P 0); [exact Ho3|done|simpl; lia|lia|]. clear Hm m. intros m Hm Ho4. simpl in Ho4.
  wps. eapply (wm_put_field P 1); [exact Ho4|done|simpl; lia|lia|]. clear Hm m. intros m Hm Ho5. simpl in Ho5. wps.
  assert (C0 : t1 !! c = Some 0) by (eapply (object_get _ _ _ _ 0); [exact Ho|done|lia]).
  assert (C4 : t1 !! (c + 4) = Some 0) by (eapply (object_get _ _ _ _ 1); [exact Ho|done|lia]).
  assert (N0 : t1 !! p = None) by (eapply (object_absent _ _ _ _ 0); [exact Hp|simpl; lia|lia]).
  assert (N4 : t1 !! (p + 4) = None) by (eapply (object_absent _ _ _ _ 1); [exact Hp|simpl; lia|lia]).
  assert (P0 : t3 !! p = Some x) by (eapply (object_get _ _ _ _ 0); [exact Hp1|done|lia]).
  assert (P4 : t3 !! (p + 4) = Some y) by (eapply (object_get _ _ _ _ 1); [exact Hp1|done|lia]).
  eapply HQ; [exact Hm|by eapply object_sub|]. split_and!; [lia|apply lookup_insert_eq|].
  exists p. split_and!; rewrite ?lookup_insert_ne by congruence; try done.
  rewrite lookup_insert_ne by lia. apply lookup_insert_eq.
Qed.

(** The reference [c] hangs below the references of the path, last step first. *)
Fixpoint upward X w (c : Z) (l : list (Z * Z)) : Prop :=
  match l with [] => True | (d, p) :: l => link X w d p c /\ upward X w p l end.

(** The reference at the top of the path. *)
Fixpoint top (c : Z) (l : list (Z * Z)) : Z := match l with [] => c | (_, p) :: l => top p l end.

Lemma link_ref X w d p c : link X w d p c -> is_Some (w !! p).
Proof. intros (n & kv & l & r & [_ Hp] & _). by exists n. Qed.

Lemma upward_refs X w c l : upward X w c l -> Forall (fun p => is_Some (w !! p)) l.*2.
Proof.
  revert c. induction l as [|[d p] l IH]; intros c; simpl; [constructor|]. intros [Hl Hu]. constructor; [by eapply link_ref|by eapply IH].
Qed.

(** Distinct references with a value are at most as many as there are words. *)
Lemma refs_size (w : gmap Z Z) (l : list Z) : NoDup l -> Forall (fun p => is_Some (w !! p)) l -> (length l <= size w)%nat.
Proof.
  intros Hnd Hl. rewrite <- size_dom, <- (size_list_to_set l (C := gset Z)) by done. apply subseteq_size.
  intros a Ha%elem_of_list_to_set. rewrite Forall_forall in Hl. by apply elem_of_dom, Hl.
Qed.

(** Only references in [ps] are overwritten. *)
Definition kept_refs (ps : list Z) X w X' w' : Prop := forall q n, q ∉ ps -> ref_to X w q n -> ref_to X' w' q n.

Lemma upward_kept ps X w X' w' c l : evolves X w X' w' -> kept_refs ps X w X' w' -> (forall p, p ∈ l.*2 -> p ∉ ps) ->
  upward X w c l -> upward X' w' c l.
Proof.
  intros [Hk _] Hr. revert c. induction l as [|[d p] l IH]; intros c Hps; simpl; [done|]. intros [(n & kv & lt & rt & Hp & Hn & Ht) Hu].
  split; [|apply IH; [|done]; intros q Hq; apply Hps; by right]. exists n, kv, lt, rt.
  split_and!; [apply Hr; [apply Hps; left|done]|by eapply keeps_node|by eapply keeps_tree_ref].
Qed.

(** ** Lifting *)

Section lift.
Context {H : Type} `{HH : Heap H} (P : gmap Z Z -> mem H -> Prop) `{!WordMem P} (self r : Z) `{!RgnAlloc P r}.
Implicit Types (X : gset Z) (w : gmap Z Z) (m : mem H).

Lemma lift_pair_spec X w d1 p1 d2 p2 c kv l0 r0 m : P w m -> refs_in X w -> link X w d1 p1 c -> link X w d2 p2 p1 ->
  root_is X w c kv l0 r0 -> NoDup [c; p1; p2] ->
  wp (lift_pair self r d1 p1 d2 p2)
    (fun _ => evolved P X w (fun X' w' => kept_refs [p1; p2] X w X' w' /\ exists l' r', root_is X' w' p2 kv l' r')) (tree_oom P X w) m.
Proof.
  intros Hm HX H1 H2 Hc Hnd. apply NoDup_cons in Hnd as [Hc12 Hnd]. apply NoDup_cons in Hnd as [H12 _].
  assert (Hc1 : c <> p1) by set_solver. assert (Hc2 : c <> p2) by set_solver. assert (Hne : p2 <> p1) by set_solver. clear Hc12 H12.
  (* the second rotation, in the state after the first *)
  assert (Hsnd : forall X1 w1 d p q m1 e, P w1 m1 -> refs_in X1 w1 -> turned q X w X1 w1 -> q = p1 \/ q = p2 -> p = p2 ->
    link X1 w1 d p e -> (exists l' r', root_is X1 w1 e kv l' r') ->
    wp (rotate self r d p) (fun _ => evolved P X w (fun X' w' => kept_refs [p1; p2] X w X' w' /\ exists l' r', root_is X' w' p2 kv l' r')) (tree_oom P X w) m1).
  { intros X1 w1 d p q m1 e Hm1 HX1 [He1 Hr1] Hq -> Hl (l' & r' & Hroot).
    eapply wp_mono; [by eapply (rotate_spec P self r)| |intros e' m2; by apply tree_oom_mono].
    intros [] m2 (X2 & w2 & Hm2 & HX2 & [He2 Hr2] & l2 & r2 & Hroot2 & _). exists X2, w2. split_and!; [done|done|by eapply evolves_trans|..].
    - intros a n Ha Hn. rewrite !not_elem_of_cons in Ha. apply Hr2; [by apply Ha|]. apply Hr1; [|done].
      destruct Hq as [-> | ->]; by apply Ha.
    - by exists l2, r2. }
  assert (Hcode : lift_pair self r d1 p1 d2 p2 =
    if bool_decide ((d1 =? Cyc_Splay_LEFT) = (d2 =? Cyc_Splay_LEFT)) then rotate self r d2 p2;; rotate self r d2 p2
    else rotate self r d1 p1;; rotate self r d2 p2).
  { unfold lift_pair, rotate. by destruct (d1 =? Cyc_Splay_LEFT), (d2 =? Cyc_Splay_LEFT). }
  rewrite Hcode. clear Hcode. case_bool_decide as Ed; wps.
  - destruct H1 as (n1 & kv1 & l1 & r1 & Hp1 & Hn1 & Ht1).
    eapply wp_mono; [eapply (rotate_spec P self r X w d2 p2 p1 kv1 l1 r1); try done; by exists n1| |done].
    intros [] m1 (X1 & w1 & Hm1 & HX1 & Htn & l' & r' & (n' & Hp' & Hn') & Hch). assert (Htn0 := Htn). destruct Htn as [[Hk1 _] _].
    eapply (Hsnd X1 w1 d2 p2 p2 m1 c); try done; [by right| |].
    + exists n', kv1, l', r'. split_and!; [done|done|]. rewrite Hch. eapply keeps_tree_ref; [done|].
      unfold child in *. by rewrite Ed in Ht1.
    + exists l0, r0. by eapply turned_root.
  - eapply wp_mono; [by eapply (rotate_spec P self r X w d1 p1 c kv l0 r0)| |done].
    intros [] m1 (X1 & w1 & Hm1 & HX1 & Htn & l' & r' & Hroot & _).
    eapply (Hsnd X1 w1 d2 p2 p1 m1 p1); try done; [by left|by eapply turned_link|by exists l', r'].
Qed.
(** The steps are in words that the rotations do not touch. *)
Context (t : gmap Z Z) (Ht : forall w m, P w m -> t ⊆ words m).

Lemma wp_inside a v (Q : Z -> mem H -> Prop) E w m : P w m -> t !! a = Some v -> Q v m -> wp (get_word a) Q E m.
Proof using Ht. intros Hm Ha HQ. eapply wp_get_word; [|done]. eapply lookup_weaken; [done|by eapply Ht]. Qed.

Lemma lift_spec X w dnl l c kv l0 r0 m : P w m -> refs_in X w -> steps_at t dnl l -> upward X w c l -> NoDup (c :: l.*2) ->
  root_is X w c kv l0 r0 ->
  wp (Cyc_Splay_lift self r dnl) (fun _ => evolved P X w (fun X' w' => exists l' r', root_is X' w' (top c l) kv l' r')) (tree_oom P X w) m.
Proof using WordMem0 RgnAlloc0 Ht.
  intros Hm HX Hst Hup Hnd Hroot. unfold Cyc_Splay_lift. eapply (wm_fuel P); [done|]. intros fuel Hfuel.
  apply (wp_loop _ (fun k x m' => exists X1 w1 l1 c1 l' r', k = length l1 /\ P w1 m' /\ refs_in X1 w1 /\ evolves X w X1 w1 /\
    steps_at t x l1 /\ upward X1 w1 c1 l1 /\ NoDup (c1 :: l1.*2) /\ root_is X1 w1 c1 kv l' r' /\ top c1 l1 = top c l)) with (k := length l).
  - clear Hm m Hst Hup Hnd Hroot HX Hfuel. intros k x m (X1 & w1 & l1 & c1 & l' & r' & -> & Hm & HX1 & He1 & Hst & Hup & Hnd & Hroot & <-).
    destruct l1 as [|[d1 p1] l1]. { simpl in Hst. subst x. rewrite is_null_0. wps. exists X1, w1. split_and!; try done. by exists l', r'. }
    destruct Hst as (y & (Hx & Hy & h & Hh & Hd & Hp) & Hst), Hup as [Hl1 Hup]. rewrite is_null_ne by done.
    wps. eapply wp_inside; [done|exact Hy|]. destruct l1 as [|[d2 p2] l1].
    + simpl in Hst. subst y. rewrite is_null_0. wps. do 3 (eapply wp_inside; [done..|]; wps).
      eapply wp_mono; [by eapply (rotate_spec P self r X1 w1 d1 p1 c1)| |intros e m2; by apply tree_oom_mono].
      intros [] m2 (X2 & w2 & Hm2 & HX2 & [He2 _] & l2 & r2 & Hroot2 & _). wps. exists X2, w2.
      split_and!; [done|done|by eapply evolves_trans|by exists l2, r2].
    + destruct Hst as (z & (Hy0 & Hz & h2 & Hh2 & Hd2 & Hp2) & Hst), Hup as [Hl2 Hup]. rewrite is_null_ne by done.
      wps. do 3 (eapply wp_inside; [done..|]; wps). eapply wp_inside; [done..|]. unfold splay_not_null. wps. eapply wp_check_null; [done|].
      wps. do 3 (eapply wp_inside; [done..|]; wps). eapply wp_inside; [done..|]. wps. eapply wp_check_null; [done|].
      wps. eapply wp_inside; [done..|]. wps. simpl in Hnd. eapply wp_mono; [eapply (lift_pair_spec X1 w1 d1 p1 d2 p2 c1); try done| |intros e m2; by apply tree_oom_mono].
      { by apply (NoDup_app [c1; p1; p2] l1.*2) in Hnd as [? _]. }
      intros [] m2 (X2 & w2 & Hm2 & HX2 & He2 & Hk2 & l2 & r2 & Hroot2). wps. exists (length l1). split; [simpl; lia|].
      apply NoDup_cons in Hnd as [_ Hnd]. apply NoDup_cons in Hnd as [Hn1 Hnd]. pose proof Hnd as Hnd2. apply NoDup_cons in Hnd2 as [Hn2 _].
      exists X2, w2, l1, p2, l2, r2. split_and!; try done; [by eapply evolves_trans|].
      eapply upward_kept; [done|done| |done]. intros q Hq. set_solver.
  - exists X, w, l, c, l0, r0. split_and!; try done. apply evolves_refl.
  - apply upward_refs in Hup. apply NoDup_cons in Hnd as [_ Hnd]. pose proof (refs_size w l.*2 Hnd Hup). rewrite length_fmap in *. lia.
Qed.
End lift.

(** ** Searching *)

(** The search on a value: whether the key is found, and the binding visited
    last. *)
Fixpoint visit (g : Z -> Z -> Z) (x : Z) (s : stree) (last : option (Z * Z)) : bool * option (Z * Z) :=
  match s with
  | SLeaf => (false, last)
  | SNode l kv r =>
      if g x kv.1 =? 0 then (true, Some kv)
      else if g x kv.1 <? 0 then visit g x l (Some kv) else visit g x r (Some kv)
  end.

Definition sroot (s : stree) : option (Z * Z) := match s with SLeaf => None | SNode _ kv _ => Some kv end.

Section descent.
Implicit Types (X : gset Z) (w : gmap Z Z).

(** The tree [tree] is where the path [l] from [root] leads, and [last] is the
    binding above it. *)
Definition hangs X w (root tree : Z) (last : option (Z * Z)) (l : list (Z * Z)) : Prop :=
  match l with
  | [] => tree = root /\ last = None
  | (d, p) :: l => exists kv lt rt, root_is X w p kv lt rt /\ child d lt rt = tree /\ last = Some kv /\
      upward X w p l /\ tree_ref X w root (top p l)
  end.

(** The references of the path are distinct and head trees larger than [s]. *)
Definition above X w (s : stree) (ps : list Z) : Prop := NoDup ps /\
  Forall (fun p => exists n s', ref_to X w p n /\ node_tree X w n s' /\ (ssize s < ssize s')%nat) ps.

Lemma hangs_up X w root tree last l c : hangs X w root tree last l -> tree_ref X w tree c ->
  upward X w c l /\ tree_ref X w root (top c l).
Proof.
  destruct l as [|[d p] l]; simpl; [by intros [-> _]|].
  intros (kv & lt & rt & (n & Hp & Hn) & <- & _ & Hu & Hr) Ht. split; [|done]. split; [|done]. by exists n, kv, lt, rt.
Qed.

Lemma above_node X w s ps c n : above X w s ps -> ref_to X w c n -> node_tree X w n s -> NoDup (c :: ps).
Proof.
  intros [Hnd Hall] Hc Hn. constructor; [|done]. intros Hin. rewrite Forall_forall in Hall.
  destruct (Hall c Hin) as (n' & s' & Hc' & Hn' & Hlt). rewrite (ref_det _ _ _ _ _ Hc' Hc) in Hn'.
  rewrite (node_tree_det _ _ _ _ _ Hn Hn') in Hlt. lia.
Qed.

Lemma above_child X w s s1 ps c n : above X w s ps -> ref_to X w c n -> node_tree X w n s -> (ssize s1 < ssize s)%nat ->
  above X w s1 (c :: ps).
Proof.
  intros Ha Hc Hn Hlt. split; [by eapply above_node|]. constructor; [by exists n, s|].
  destruct Ha as [_ Hall]. eapply Forall_impl; [exact Hall|]. intros p (n' & s' & ? & ? & ?). exists n', s'. split_and!; try done. lia.
Qed.
End descent.

Section rsplay.
Context {H : Type} `{HH : Heap H} `{!HeapLaws H} (self : Z) (R : gset Z) (temp r : Z) (Htemp : temp ∉ R) (H2 : 2 < temp) (Hr : rgn_in R r).
Context (reln : Z -> Z -> ST (mem H) Z) (g : Z -> Z -> Z) (Hpure : pure2 reln g).
Implicit Types (X : gset Z) (w t : gmap Z Z) (m : mem H).

(** The result in the state outside of the local region. *)
Definition splayed X w (x root : Z) (s0 : stree) (b : bool) X' w' : Prop :=
  evolves X w X' w' /\ b = (visit g x s0 None).1 /\
  exists s', splay_at X' w' root s' /\ inorder s' = inorder s0 /\ sroot s' = (visit g x s0 None).2.

Lemma splayed_root X w X' w' x root s0 c kv l l' r' : splay_at X w root s0 -> evolves X w X' w' -> tree_ref X w root (top c l) ->
  root_is X' w' (top c l) kv l' r' -> (visit g x s0 None).2 = Some kv -> splayed X w x root s0 (visit g x s0 None).1 X' w'.
Proof using.
  intros Hs [Hk He] Ht (n & Hc & Hn) Hv. split; [done|]. split; [done|]. destruct (He _ _ Hs) as (s' & Hs' & E).
  exists s'. split_and!; [done|done|]. rewrite Hv.
  destruct (splay_node _ _ _ _ _ Hs' (keeps_tree_ref _ _ _ _ _ _ Hk Ht)) as (n' & Hc' & kv' & a & b & lt & rt & -> & Hn' & _).
  rewrite (ref_det _ _ _ _ _ Hc' Hc) in Hn'. by destruct (node_det _ _ _ _ _ _ _ _ _ Hn Hn') as (<- & _).
Qed.

Abbreviation split w t := (at_split R temp w t).

Lemma inside_allocates w k : (k <= 4)%nat -> allocates (fun t => split w t) k (new_words self temp k).
Proof using HeapLaws0 H2.
  intros Hk. pose proof (inside_rgn R temp w H2) as Hi. apply Hi. unfold MAX_MALLOC_SIZE. change (Z.shiftl 1 28) with 268435456. lia.
Qed.

(** [lift] on a path in the local region. *)
Lemma lift_split X w t dnl l c kv l0 r0 m : split w t m -> refs_in X w -> steps_at t dnl l -> upward X w c l -> NoDup (c :: l.*2) ->
  root_is X w c kv l0 r0 ->
  wp (Cyc_Splay_lift self r dnl) (fun _ => evolved (fun w => split w t) X w (fun X' w' => exists l' r', root_is X' w' (top c l) kv l' r'))
     (tree_oom (fun w => split w t) X w) m.
Proof using HeapLaws0 Htemp H2 Hr.
  intros. pose proof (outside_rgn R temp t r Hr Htemp H2) as Hrgn. eapply (lift_spec (fun w => split w t)); try done.
  intros w' m' Hm'. by apply at_split_sub in Hm' as [_ ?].
Qed.

(** A state of the descent. *)
Definition descending X w x root s0 (k : nat) (tp : Z * Z) m : Prop := exists t l s last,
  split w t m /\ steps_at t tp.2 l /\ splay_at X w tp.1 s /\ hangs X w root tp.1 last l /\ above X w s l.*2 /\
  visit g x s last = visit g x s0 None /\ k = (size w - length l)%nat.

(** What the body of the block ends with. *)
Definition body_returns X w x root s0 (b : bool) m : Prop := exists w' t',
  split w' t' m /\ exists X', refs_in X' w' /\ splayed X w x root s0 b X' w'.
Definition body_throws X w (e : exn) m : Prop := exists w' t',
  split w' t' m /\ e = Cyc_Bad_alloc /\ exists X', refs_in X' w' /\ evolves X w X' w'.

Lemma body_throws_oom X w t e m : tree_oom (fun w => split w t) X w e m -> body_throws X w e m.
Proof using. intros (-> & X' & w' & ? & ? & ? & _). exists w', t. split_and!; try done. by exists X'. Qed.

(** The end of a search: the binding visited last goes to the root. *)
Lemma lift_end X w t x root s0 path l c kv l0 r0 b m : splay_at X w root s0 -> split w t m -> refs_in X w -> steps_at t path l ->
  upward X w c l -> tree_ref X w root (top c l) -> NoDup (c :: l.*2) -> root_is X w c kv l0 r0 -> visit g x s0 None = (b, Some kv) ->
  wp (Cyc_Splay_lift self r path;; mret (inr (A:=Z * Z) b))
    (fun res m' => match res with inl _ => False | inr b => body_returns X w x root s0 b m' end) (body_throws X w) m.
Proof using HeapLaws0 Htemp H2 Hr.
  intros Hs Hm HX Hst Hup Htop Hnd Hroot Hv. wps. eapply wp_mono; [by eapply lift_split| |].
  - intros [] m' (X' & w' & Hm' & HX' & He & l' & r' & Hroot'). wps. exists w', t. split; [done|]. exists X'. split; [done|].
    replace b with (visit g x s0 None).1 by (by rewrite Hv). eapply splayed_root; try done. by rewrite Hv.
  - intros e m'. by apply body_throws_oom.
Qed.

Lemma rsplay_step X w x root s0 k tp m : splay_at X w root s0 -> refs_in X w -> descending X w x root s0 k tp m ->
  wp (let '(tree, path) := tp in
      tag ← t_tag tree;
      if tag =? Node_tag then
        nr ← t_ref tree;
        n ← ref_node nr;
        k ← sn_key n; comp ← reln x k;
        if comp =? 0 then Cyc_Splay_lift self r path;; mret (inr true)
        else if comp <? 0 then
          path ← cons_pair (new_words self temp) Cyc_Splay_LEFT nr path;
          tree ← sn_left n; mret (inl (tree, path))
        else
          path ← cons_pair (new_words self temp) Cyc_Splay_RIGHT nr path;
          tree ← sn_right n; mret (inl (tree, path))
      else
        (if is_null path then mret tt else t ← get_tl path; Cyc_Splay_lift self r t);;
        mret (inr false))
    (fun res m' => match res with inl tp' => exists k', (k' < k)%nat /\ descending X w x root s0 k' tp' m' | inr b => body_returns X w x root s0 b m' end)
    (body_throws X w) m.
Proof using HeapLaws0 Htemp H2 Hr Hpure.
  intros Hs0 HX (t & l & s & last & Hm & Hst & Hs & Hh & Ha & Hv & ->). destruct tp as [tree path]. simpl in *.
  set (P := fun w => split w t). assert (HP : P w m) by done. wps. destruct s as [|a kv b]; simpl in Hs.
  - eapply (wm_load P); [done|by apply Hs|]. change (Leaf_tag =? Node_tag) with false. cbv iota. simpl in Hv. destruct l as [|[d p] l].
    + simpl in Hst. subst path. rewrite is_null_0. destruct Hh as [-> ->]. wps. exists w, t. split; [done|]. exists X. split; [done|].
      split; [apply evolves_refl|]. rewrite <- Hv. split; [done|]. exists s0. split_and!; [done|done|].
      by rewrite (splay_leaf _ _ _ _ Hs0 Hs).
    + destruct Hst as (y & (Hp0 & Hy & _) & Hst), Hh as (kv & lt & rt & Hroot & _ & -> & Hup & Htop). rewrite is_null_ne by done.
      wps. eapply wp_get_word; [eapply lookup_weaken; [exact Hy|by apply at_split_sub in Hm as [_ ?]]|].
      apply (wp_bind_inv _ (fun _ => mret (inr false))). eapply wp_conseq; [eapply (lift_end X w t x root s0 y l p kv); try done; by destruct Ha|].
      by intros [].
  - destruct Hs as (nr & n & lt & rt & Htr & Href & Hn & Hsa & Hsb). pose proof Htr as [[_ Ht0] [_ Ht4]]. pose proof Href as [_ Hrn].
    pose proof Hn as ([_ Hkey] & _ & [_ Hl] & [_ Hrt]).
    assert (Hnt : node_tree X w n (SNode a kv b)) by (by exists kv, a, b, lt, rt).
    pose proof (above_node _ _ _ _ _ _ Ha Href Hnt) as Hnd. destruct (hangs_up _ _ _ _ _ _ _ Hh Htr) as [Hup Htop].
    assert (Hlen : (length (nr :: l.*2) <= size w)%nat) by (apply refs_size; [done|]; constructor; [by exists n|by eapply upward_refs]).
    simpl in Hlen. rewrite length_fmap in Hlen.
    eapply (wm_load P); [done..|]. rewrite Z.eqb_refl. wps. do 3 (eapply (wm_load P); [done..|]; wps). eapply wp_pure2; [done|]. simpl in Hv.
    destruct (g x kv.1 =? 0).
    { eapply wp_conseq; [eapply (lift_end X w t x root s0 path l nr kv lt rt true); try done; by exists n|]. by intros []. }
    assert (Hgo : forall d c' t' m' s1, split w t' m' -> t ⊆ t' -> pair_cell t' c' d nr path -> splay_at X w (child d lt rt) s1 ->
      (ssize s1 < ssize (SNode a kv b))%nat -> visit g x s1 (Some kv) = visit g x s0 None ->
      exists k', (k' < size w - length l)%nat /\ descending X w x root s0 k' (child d lt rt, c') m').
    { intros d c' t' m' s1 Hm' Ht' Hc Hs1 Hsz Hv1. exists (size w - S (length l))%nat. split; [lia|].
      exists t', ((d, nr) :: l), s1, (Some kv). split_and!; [done| |done| |by eapply above_child|done|done].
      - exists path. split; [done|by eapply steps_at_mono].
      - exists kv, lt, rt. split_and!; try done. by exists n. }
    assert (Hoom : forall t' m', split w t' m' -> t ⊆ t' -> body_throws X w Cyc_Bad_alloc m').
    { intros t' m' Hm' _. exists w, t'. split_and!; try done. exists X. split; [done|apply evolves_refl]. }
    destruct (g x kv.1 <? 0); wps; (eapply (cons_pair_spec (fun t => split w t) _ (inside_allocates w)); [done| |done]).
    all: intros c' t' m' Hm' Ht' Hc; wps; eapply (wm_load (fun w => split w t')); [done..|]; wps.
    + by eapply (Hgo Cyc_Splay_LEFT c' t' m' a); [..|simpl; lia|].
    + by eapply (Hgo Cyc_Splay_RIGHT c' t' m' b); [..|simpl; lia|].
Qed.

(** Splaying keeps every tree, answers whether the key is in the tree and moves
    the binding visited last to the root. *)
Lemma rsplay_spec X w x root s0 m : at_words R w m -> refs_in X w -> splay_at X w root s0 ->
  wp (Cyc_Splay_rsplay self temp r reln x root)
    (fun b m' => exists X' w', at_words R w' m' /\ refs_in X' w' /\ splayed X w x root s0 b X' w') (tree_oom (at_words R) X w) m.
Proof using HeapLaws0 Htemp H2 Hr Hpure.
  intros Hm HX Hs. unfold Cyc_Splay_rsplay. eapply wp_with_region; [done|done|done|]. clear Hm m. intros m Hm.
  eapply (wm_fuel (fun w => split w ∅)); [done|]. intros fuel Hfuel.
  eapply (wp_mono _ (body_returns X w x root s0) _ (body_throws X w)).
  - eapply (wp_loop _ (descending X w x root s0)) with (k := size w).
    + intros k tp m'. by apply rsplay_step.
    + exists ∅, [], s0, None. split_and!; try done; [split; simpl; constructor|simpl; lia].
    + done.
  - intros b m' (w' & t' & Hm' & X' & HX' & Hsp). exists w', t'. split; [done|]. intros m3 Hm3. by exists X', w'.
  - intros e m' (w' & t' & Hm' & -> & X' & HX' & He). exists w', t'. split; [done|]. intros m3 Hm3. split; [done|]. by exists X', w'.
Qed.
End rsplay.
