(* ===== verification/SlowDictSpec.v ===== *)
(** * Dictionaries of splay trees

    What a search of an ordered tree finds, and the effect of the dictionary
    operations on the bindings: each leaves every dictionary there was with the
    bindings it had, although searching rotates shared nodes. *)

From stdpp Require Import sorting.
From S2P Require Import Prelude Alloc FatPtr RwLock Region RegionSafety DynRegion Words CycList ListCells WordMem TempRegion CycListSpec CycSetSpec DictTree DictSpec DictRefine CycSplay CycSlowDict SplaySpec SplayRefine.

Lemma filter_all {A} (P : A -> Prop) `{!forall x, Decision (P x)} (l : list A) : Forall P l -> filter P l = l.
Proof. induction 1 as [|x l Hx _ IH]; [done|]. rewrite filter_cons. by rewrite decide_True, IH. Qed.

(** ** Searching an ordered list of bindings *)

Section search.
Context (g : Z -> Z -> Z) `{!Comparison g} (x : Z).

(** The key [x] belongs between [l1] and [l2], and [o] is the binding before or
    after it. *)
Definition gap (l1 l2 : list (Z * Z)) (o : option (Z * Z)) : Prop :=
  Forall (fun u => 0 < g x u.1) l1 /\ Forall (fun u => g x u.1 < 0) l2 /\
  match o with None => l1 = [] /\ l2 = [] | Some kv => last l1 = Some kv \/ head l2 = Some kv end.

Definition visited (l : list (Z * Z)) (res : bool * option (Z * Z)) : Prop :=
  if res.1 then exists kv l1 l2, res.2 = Some kv /\ l = l1 ++ kv :: l2 /\ g x kv.1 = 0
  else exists l1 l2, l = l1 ++ l2 /\ gap l1 l2 res.2.

Lemma visit_between s l1 l2 o : ordered g (l1 ++ inorder s ++ l2) -> gap l1 l2 o -> visited (l1 ++ inorder s ++ l2) (visit g x s o).
Proof.
  revert l1 l2 o. induction s as [|a IHa kv b IHb]; intros l1 l2 o Ho (H1 & H2 & Hg); simpl.
  { exists l1, l2. by split. }
  simpl in Ho. rewrite <- app_assoc in Ho. simpl in Ho. pose proof Ho as Hm. rewrite app_assoc in Hm. apply (ordered_mid g) in Hm as (_ & _ & Ha & Hb).
  destruct (g x kv.1 =? 0) eqn:E0; [exists kv, (l1 ++ inorder a), (inorder b ++ l2); rewrite <- !app_assoc; split_and!; [done|done|lia]|].
  destruct (g x kv.1 <? 0) eqn:E1.
  - rewrite <- app_assoc. simpl. apply IHa; [done|]. split_and!; [done| |by right].
    constructor; [lia|]. apply (below_all g _ kv.1); [done|lia].
  - rewrite app_assoc, <- !app_assoc. simpl. replace (l1 ++ inorder a ++ kv :: inorder b ++ l2) with ((l1 ++ inorder a ++ [kv]) ++ inorder b ++ l2) in * by (by rewrite <- !app_assoc).
    apply IHb; [done|]. split_and!; [|done|left; by rewrite app_assoc, last_snoc].
    rewrite app_assoc. apply Forall_app. split; [|repeat constructor; lia]. apply (above_all g _ kv.1); [done|lia].
Qed.

Lemma visit_found s : ordered g (inorder s) -> visited (inorder s) (visit g x s None).
Proof.
  intros Ho. pose proof (visit_between s [] [] None) as Hv. simpl in Hv. rewrite app_nil_r in Hv. apply Hv; [done|]. by split_and!.
Qed.

(** The lists around a key. *)
Lemma gap_split l1 l2 o : gap l1 l2 o -> alist_get g x (l1 ++ l2) = None /\ forall v, alist_ins g (x, v) (l1 ++ l2) = l1 ++ (x, v) :: l2.
Proof.
  intros (H1 & H2 & _). split.
  - apply alist_get_none, Forall_app. split; eapply Forall_impl; try done; intros u Hu; cbv beta in *; lia.
  - intros v. rewrite (alist_ins_above g l1 l2 (x, v)) by done. f_equal. destruct l2 as [|y l2]; [done|].
    apply Forall_cons in H2 as [H2 _]. simpl. by destruct (g x y.1 <? 0) eqn:E; [|lia].
Qed.

(** The bindings on the side of the root where the key is not. *)
Lemma gap_left l1 l2 kv A B : ordered g (A ++ kv :: B) -> A ++ kv :: B = l1 ++ l2 -> gap l1 l2 (Some kv) -> g x kv.1 < 0 ->
  forall v, alist_ins g (x, v) (A ++ kv :: B) = A ++ (x, v) :: kv :: B.
Proof.
  intros Ho El (H1 & H2 & Hg) Hlt v. assert (Hh : head l2 = Some kv).
  { destruct Hg as [Hl|?]; [|done]. apply last_Some_elem_of in Hl. rewrite Forall_forall in H1. pose proof (H1 _ Hl). lia. }
  destruct l2 as [|y l2]; [done|]. injection Hh as ->. pose proof Ho as Ho2. rewrite El in Ho2.
  apply (ordered_mid g) in Ho2 as (_ & _ & _ & Hb). apply (ordered_mid g) in Ho as (_ & _ & Ha & _). rewrite (alist_ins_above g A).
  - f_equal. simpl. by destruct (g x kv.1 <? 0) eqn:E; [|lia].
  - rewrite Forall_forall in *. intros u Hu. assert (Hin : u ∈ l1 ++ kv :: l2) by (rewrite <- El; apply elem_of_app; by left).
    apply elem_of_app in Hin as [Hin|[->|Hin]%elem_of_cons]; [by apply H1|..].
    + pose proof (Ha _ Hu) as Hu'. cbv beta in Hu'. rewrite (cmp_refl g) in Hu'. lia.
    + pose proof (Ha _ Hu). pose proof (Hb _ Hin). pose proof (cmp_opp (g:=g) u.1 kv.1). lia.
Qed.

Lemma gap_right l1 l2 kv A B : ordered g (A ++ kv :: B) -> A ++ kv :: B = l1 ++ l2 -> gap l1 l2 (Some kv) -> 0 <= g x kv.1 ->
  forall v, alist_ins g (x, v) (A ++ kv :: B) = A ++ kv :: (x, v) :: B.
Proof.
  intros Ho El (H1 & H2 & Hg) Hlt v. assert (Hh : last l1 = Some kv).
  { destruct Hg as [?|Hh]; [done|]. destruct l2 as [|y l2]; [done|]. injection Hh as ->. apply Forall_cons in H2 as [? _]. lia. }
  apply last_Some in Hh as (l1' & ->). pose proof Ho as Ho2. rewrite El, <- app_assoc in Ho2. simpl in Ho2.
  apply (ordered_mid g) in Ho2 as (_ & _ & Hb & _). apply (ordered_mid g) in Ho as (_ & _ & Ha & Hbb).
  apply Forall_app in H1 as [H1 Hkv]. apply Forall_cons in Hkv as [Hkv _].
  replace (A ++ kv :: B) with ((A ++ [kv]) ++ B) by (by rewrite <- app_assoc). rewrite (alist_ins_above g (A ++ [kv])).
  - rewrite <- app_assoc. simpl. do 2 f_equal. assert (HB : Forall (fun u => g x u.1 < 0) B).
    { rewrite Forall_forall in *. intros u Hu. assert (Hin : u ∈ (l1' ++ [kv]) ++ l2) by (rewrite <- El; apply elem_of_app; right; by right).
      apply elem_of_app in Hin as [Hin|Hin]; [apply elem_of_app in Hin as [Hin|Hin]|by apply H2].
      - pose proof (Hbb _ Hu). pose proof (Hb _ Hin). pose proof (cmp_opp (g:=g) u.1 kv.1). lia.
      - apply list_elem_of_singleton in Hin as ->. pose proof (Hbb _ Hu) as Hu'. cbv beta in Hu'. rewrite (cmp_refl g) in Hu'. lia. }
    destruct B as [|y B]; [done|]. apply Forall_cons in HB as [HB _]. simpl. by destruct (g x y.1 <? 0) eqn:E; [|lia].
  - apply Forall_app. split; [by apply (above_all g _ kv.1)|by repeat constructor].
Qed.

Lemma found_split l1 kv l2 : ordered g (l1 ++ kv :: l2) -> g x kv.1 = 0 ->
  Forall (fun u : Z * Z => 0 < g x u.1) l1 /\ Forall (fun u : Z * Z => g x u.1 < 0) l2.
Proof.
  intros (_ & _ & H1 & H2)%(ordered_mid g) E. split; [apply (above_all g _ kv.1)|apply (below_all g _ kv.1)]; try done; lia.
Qed.

Lemma found_get l1 kv l2 : ordered g (l1 ++ kv :: l2) -> g x kv.1 = 0 -> alist_get g x (l1 ++ kv :: l2) = Some kv.2.
Proof.
  intros Ho E. destruct (found_split _ _ _ Ho E) as [H1 H2]. rewrite (alist_get_skip g l1).
  - simpl. by rewrite E.
  - eapply Forall_impl; [exact H1|]. intros u Hu. cbv beta in *. lia.
Qed.

Lemma found_ins l1 kv l2 v : ordered g (l1 ++ kv :: l2) -> g x kv.1 = 0 -> alist_ins g (x, v) (l1 ++ kv :: l2) = l1 ++ (x, v) :: l2.
Proof.
  intros Ho E. destruct (found_split _ _ _ Ho E) as [H1 H2]. rewrite (alist_ins_above g l1) by done. simpl. rewrite E. done.
Qed.

Lemma found_without l1 kv l2 : ordered g (l1 ++ kv :: l2) -> g x kv.1 = 0 -> without g x (l1 ++ kv :: l2) = l1 ++ l2.
Proof.
  intros Ho E. destruct (found_split _ _ _ Ho E) as [H1 H2]. unfold without. rewrite filter_app, filter_cons.
  case_decide; [lia|]. f_equal; apply filter_all; eapply Forall_impl; try done; intros u Hu; cbv beta in *; lia.
Qed.

Lemma absent_without l : alist_get g x l = None -> without g x l = l.
Proof.
  intros Hn. unfold without. apply filter_all. induction l as [|u l IH]; [done|]. simpl in Hn.
  destruct (g x u.1 =? 0) eqn:E; [done|]. constructor; [lia|by apply IH].
Qed.
End search.

(** ** Dictionaries in memory *)

Section dicts.
Implicit Types (X : gset Z) (w : gmap Z Z).

(** The object [d] has the comparison [rel] and the tree [s] at [t]. *)
Definition sdict_tree (rel : Z) X w (d t : Z) (s : stree) : Prop := fixed X w d rel /\ fixed X w (d + 4) t /\ splay_at X w t s.
(** The bindings of a dictionary, in order. *)
Definition sdict (rel : Z) (g : Z -> Z -> Z) X w (d : Z) (l : list (Z * Z)) : Prop :=
  ordered g l /\ exists t s, sdict_tree rel X w d t s /\ inorder s = l.

Lemma sdict_evolves rel g X w X' w' d l : evolves X w X' w' -> sdict rel g X w d l -> sdict rel g X' w' d l.
Proof.
  intros [[_ Hk] He] (Ho & t & s & (H1 & H2 & Hs) & <-). split; [done|]. destruct (He t s Hs) as (s' & Hs' & E).
  exists t, s'. split_and!; [split; [by apply Hk|split; [by apply Hk|done]]|done].
Qed.

(** A new object for a dictionary whose tree is in memory. *)
Lemma sdict_object rel X w d t w' s : refs_in X w -> object w d [rel; t] w' -> splay_at X w t s ->
  extends X w X w' /\ refs_in X w' /\ sdict_tree rel X w' d t s.
Proof.
  intros HX Ho Hs. pose proof (object_sub _ _ _ _ Ho) as Hw. pose proof (extends_words X _ _ Hw) as He.
  split_and!; [done|by eapply refs_in_mono|]. destruct Ho as (Hf & _ & Ha). split_and!; [| |by eapply extends_splay].
  - split; [apply (fresh_not_ref X w d 2); simpl in *; [done|done|lia|lia]|]. rewrite <- (Z.add_0_r d). by apply (Ha 0%nat).
  - split; [apply (fresh_not_ref X w d 2); simpl in *; [done|done|lia|lia]|]. by apply (Ha 1%nat).
Qed.

(** A dictionary object whose tree is made after it: the second word of the
    object is written last. *)
Lemma sdict_graph rel X w d w1 t kv l r X2 w2 : refs_in X w -> object w d [rel; 0] w1 ->
  new_root ({[d + 4]} ∪ X) w1 t kv l r X2 w2 -> object w d [rel; t] (<[d + 4 := t]> w2) ->
  let X' := X2 ∖ {[d + 4]} in let w' := <[d + 4 := t]> w2 in
  new_root X w t kv l r X' w' /\ fixed X' w' d rel /\ fixed X' w' (d + 4) t.
Proof.
  intros HX Ho ((HX2 & Hw2 & Hn2) & Hr2 & nr & n & Hnr & Ht & Hrn & Hn) Ho2 X' w'.
  assert (D0 : w1 !! d = Some rel) by (eapply (object_get _ _ _ _ 0); [exact Ho|done|lia]).
  assert (D4 : w1 !! (d + 4) = Some 0) by (eapply (object_get _ _ _ _ 1); [exact Ho|done|lia]).
  pose proof Ho as (Hf & Hw1 & _). simpl in Hf. destruct (fresh_not_ref X w d 2 d HX Hf) as [Hd0 N0]; [lia..|].
  destruct (fresh_not_ref X w d 2 (d + 4) HX Hf) as [Hd4 N4]; [lia..|].
  assert (HdX2 : d ∉ X2) by (intros Hin; assert (w1 !! d = None) by (apply Hn2; [done|]; rewrite not_elem_of_union, not_elem_of_singleton; split; [lia|done]); congruence).
  assert (HX' : X' ⊆ X2) by set_solver. assert (Hin : d + 4 ∈ X2) by set_solver.
  pose proof (fixed_swing X2 w2 (d + 4) t Hin) as Hk. assert (Hnr4 : nr <> d + 4) by set_solver.
  assert (Hfix : forall a v, fixed X2 w2 a v -> fixed X' w' a v) by (intros a v Ha; destruct (proj2 Hk _ _ Ha) as [? ?]; split; [set_solver|done]).
  split; [|split].
  - split; [|split].
    + split_and!; [set_solver|by eapply object_sub|]. intros a Ha Hna. assert (Ha1 : w1 !! a = None) by (apply Hn2; set_solver).
      by eapply lookup_weaken_None.
    + intros a Ha. destruct (Hr2 a) as [v Hv]; [set_solver|]. exists v. unfold w'. rewrite lookup_insert_ne by set_solver. done.
    + exists nr, n. split_and!; [set_solver| | |].
      * destruct Ht. split; by apply Hfix.
      * destruct Hrn. split; [set_solver|]. unfold w'. by rewrite lookup_insert_ne.
      * destruct Hn as (? & ? & ? & ?). split_and!; by apply Hfix.
  - split; [set_solver|]. eapply (object_get _ _ _ _ 0); [exact Ho2|done|lia].
  - split; [set_solver|apply lookup_insert_eq].
Qed.

Lemma new_root_splay X w t kv l r X' w' a b : new_root X w t kv l r X' w' -> splay_at X w l a -> splay_at X w r b ->
  splay_at X' w' t (SNode a kv b).
Proof.
  intros (He & _ & nr & n & _ & Ht & Hr & Hn) Ha Hb. exists nr, n, l, r. split_and!; try done; by eapply extends_splay.
Qed.
End dicts.

Section ops.
Context {H : Type} `{HH : Heap H} `{!HeapLaws H} (self : Z) (R : gset Z) (temp : Z) (Htemp : temp ∉ R) (H2 : 2 < temp).
Context (call : Z -> Z -> Z -> ST (mem H) Z) (rel : Z) (g : Z -> Z -> Z) (Hpure : pure2 (call rel) g) `{!Comparison g}.
Implicit Types (X : gset Z) (w : gmap Z Z) (m : mem H).

(** The trees have been kept, and [Q] holds of the new state. *)
Abbreviation state X w Q := (evolved (at_words R) X w Q).

Lemma sd_allocates line k : (k <= 4)%nat -> allocates (at_words R) k (sd_alloc line k).
Proof. intros Hk. apply heap_alloc. unfold MAX_MALLOC_SIZE. change (Z.shiftl 1 28) with 268435456. lia. Qed.

Lemma insert_allocates k : (k <= 4)%nat -> allocates (at_words R) k (sd_alloc (if (k =? 4)%nat then 94 else 93) k).
Proof. apply sd_allocates. Qed.

Lemma new_leaf_spec X line w m (Q : Z -> mem H -> Prop) E : at_words R w m -> refs_in X w ->
  (forall t w' m', at_words R w' m' -> extends X w X w' -> refs_in X w' -> splay_at X w' t SLeaf -> Q t m') ->
  (forall m', at_words R w m' -> E Cyc_Bad_alloc m') -> wp (new_leaf line) Q E m.
Proof.
  intros Hm HX HQ HE. unfold new_leaf. wps. eapply (wm_alloc (at_words R) _ (sd_allocates line) 2); [lia|done| |done].
  clear Hm m. intros t m Hm Ho%object_start. simpl in Ho.
  wps. eapply (wm_put_field (at_words R) 0); [exact Ho|done|simpl; lia|lia|]. clear Hm m Ho. intros m Hm Ho. simpl in Ho.
  wps. eapply (wm_put_field (at_words R) 1); [exact Ho|done|simpl; lia|lia|]. clear Hm m Ho. intros m Hm Ho. simpl in Ho. wps.
  pose proof (object_sub _ _ _ _ Ho) as Hw. eapply HQ; [exact Hm|by apply extends_words|by eapply refs_in_mono|].
  split; [|eapply (object_get _ _ _ _ 0); [exact Ho|done|lia]]. destruct Ho as (Hf & _).
  apply (fresh_not_ref X w t 2); simpl in *; [done|done|lia|lia].
Qed.

(** [new Dict{reln,tree}] with a tree that is there. *)
Lemma new_dict_spec X line c1 c2 t s w m (Q : Z -> mem H -> Prop) E : at_words R w m -> refs_in X w ->
  reads w c1 rel -> reads w c2 t -> splay_at X w t s ->
  (forall d w' m', at_words R w' m' -> extends X w X w' -> refs_in X w' -> sdict_tree rel X w' d t s -> w !! d = None -> Q d m') ->
  (forall m', at_words R w m' -> E Cyc_Bad_alloc m') -> wp (new_dict line c1 c2) Q E m.
Proof using HeapLaws0.
  intros Hm HX R1 R2 Hs HQ HE. unfold new_dict. wps. eapply (wm_alloc (at_words R) _ (sd_allocates line) 2); [lia|done| |done].
  clear Hm m. intros d m Hm Ho%object_start. simpl in Ho.
  wps. eapply (wm_reads (at_words R)); [done|by eapply reads_mono; [|eapply object_sub]|].
  wps. eapply (wm_put_field (at_words R) 0); [exact Ho|done|simpl; lia|lia|]. clear Hm m Ho. intros m Hm Ho. simpl in Ho.
  wps. eapply (wm_reads (at_words R)); [done|by eapply reads_mono; [|eapply object_sub]|].
  wps. eapply (wm_put_field (at_words R) 1); [exact Ho|done|simpl; lia|lia|]. clear Hm m Ho. intros m Hm Ho. simpl in Ho. wps.
  destruct (sdict_object rel X w d t _ s HX Ho Hs) as (? & ? & ?). eapply HQ; try done.
  eapply (object_absent _ _ _ _ 0); [exact Ho|simpl; lia|lia].
Qed.

(** [new Dict{reln,new Node(...)}] *)
Lemma new_dict_tree_spec X line alloc c1 k d l r kv lt rt a b w m (Q : Z -> mem H -> Prop) : (forall k, (k <= 4)%nat -> allocates (at_words R) k (alloc k)) ->
  at_words R w m -> refs_in X w -> reads w c1 rel -> reads w k kv.1 -> reads w d kv.2 -> reads w l lt -> reads w r rt ->
  splay_at X w lt a -> splay_at X w rt b ->
  (forall d t X' w' m', at_words R w' m' -> extends X w X' w' -> refs_in X' w' -> sdict_tree rel X' w' d t (SNode a kv b) -> w !! d = None -> Q d m') ->
  wp (new_dict line c1 (new_tree alloc k d l r)) Q (tree_oom (at_words R) X w) m.
Proof using HeapLaws0.
  intros Ha Hm HX R1 Rk Rd Rl Rr Hsa Hsb HQ. unfold new_dict. wps.
  eapply (wm_alloc (at_words R) _ (sd_allocates line) 2); [lia|done| |intros; by eapply tree_oom_words].
  clear Hm m. intros p m Hm Ho%object_start. simpl in Ho.
  wps. eapply (wm_reads (at_words R)); [done|by eapply reads_mono; [|eapply object_sub]|].
  wps. eapply (wm_put_field (at_words R) 0); [exact Ho|done|simpl; lia|lia|]. clear Hm m Ho. intros m Hm Ho. simpl in Ho.
  set (w1 := <[p := rel]> _) in *. pose proof (object_sub _ _ _ _ Ho) as Hw1.
  assert (HX1 : refs_in ({[p + 4]} ∪ X) w1).
  { intros q [->%elem_of_singleton|Hq]%elem_of_union; [exists 0; eapply (object_get _ _ _ _ 1); [exact Ho|done|lia]|]. by eapply refs_in_mono. }
  wps. eapply (new_tree_spec (at_words R) alloc Ha ({[p + 4]} ∪ X)); [done|done|by eapply reads_mono..| |].
  2: { intros w' m' Hm' Hw'. eapply tree_oom_words; [done|by etrans|done]. }
  clear Hm m. intros t X2 w2 m Hm Hnew. pose proof Hnew as ((_ & Hw2 & _) & _).
  pose proof (object_mono _ _ _ _ _ Ho Hw2) as Ho2.
  wps. eapply (wm_put_field (at_words R) 1); [exact Ho2|done|simpl; lia|lia|]. clear Hm m Ho2. intros m Hm Ho2. simpl in Ho2. wps.
  destruct (sdict_graph rel X w p w1 t kv lt rt X2 w2 HX Ho Hnew Ho2) as (Hroot & F0 & F4).
  pose proof Hroot as (He & HX' & _). eapply HQ; [exact Hm|exact He|done| |eapply (object_absent _ _ _ _ 0); [exact Ho|simpl; lia|lia]].
  split_and!; [done|done|]. by eapply new_root_splay.
Qed.

(** ** Searching *)

(** The root after a search. *)
Definition searched (x : Z) (l : list (Z * Z)) (b : bool) (s' : stree) : Prop :=
  inorder s' = l /\ visited g x l (b, sroot s').

Lemma splay_dict_spec X d x t s w m : at_words R w m -> refs_in X w -> sdict_tree rel X w d t s -> ordered g (inorder s) ->
  wp (splay_dict self call temp d x)
    (fun b => state X w (fun X' w' => exists s', sdict_tree rel X' w' d t s' /\ searched x (inorder s) b s')) (tree_oom (at_words R) X w) m.
Proof using HeapLaws0 Htemp H2 Hpure Comparison0.
  intros Hm HX ([H0 Hd0] & [H4 Hd4] & Hs) Ho. unfold splay_dict. wps. do 2 (eapply (wm_load (at_words R)); [done..|]; wps).
  unfold Cyc_Splay_splay. eapply wp_mono; [eapply (rsplay_spec self R temp _ Htemp H2); try done; by left| |done].
  intros b m' (X' & w' & Hm' & HX' & He & -> & s' & Hs' & E & Er). exists X', w'. split_and!; [done|done|done|].
  exists s'. split; [|split; [done|]].
  - destruct He as [[_ Hk] _]. split_and!; [by apply Hk|by apply Hk|done].
  - rewrite Er, <- surjective_pairing. by apply visit_found.
Qed.

Lemma sd_reln_reads X w d t s : sdict_tree rel X w d t s -> reads w (sd_reln d) rel.
Proof using. intros ([_ ?] & _). by apply reads_word. Qed.

Lemma oom_after X w X' w' e m : evolves X w X' w' -> tree_oom (at_words R) X' w' e m -> tree_oom (at_words R) X w e m.
Proof using. apply tree_oom_mono. Qed.

(** The words of the root node. *)
Lemma root_words X w t a kv b : splay_at X w t (SNode a kv b) -> exists nr n lt rt,
  w !! t = Some Node_tag /\ w !! (t + 4) = Some nr /\ w !! nr = Some n /\ w !! n = Some kv.1 /\ w !! (n + 4) = Some kv.2 /\
  w !! (n + 8) = Some lt /\ w !! (n + 12) = Some rt /\ splay_at X w lt a /\ splay_at X w rt b /\ node_is X w n kv lt rt.
Proof using.
  intros (nr & n & lt & rt & [[_ ?] [_ ?]] & [_ ?] & Hn & ? & ?). exists nr, n, lt, rt.
  pose proof Hn as ([_ ?] & [_ ?] & [_ ?] & [_ ?]). by split_and!.
Qed.

Lemma searched_found x l s' : searched x l true s' -> exists a kv b, s' = SNode a kv b /\ l = inorder a ++ kv :: inorder b /\ g x kv.1 = 0.
Proof using.
  intros [<- (kv & l1 & l2 & Er & _ & E)]. simpl in Er. destruct s' as [|a kv' b]; [done|]. injection Er as ->. by exists a, kv, b.
Qed.

Lemma wp_root_data X w d t a kv b m (Q : Z -> mem H -> Prop) E : at_words R w m -> sdict_tree rel X w d t (SNode a kv b) -> Q kv.2 m ->
  wp (t ← sd_tree d; tag ← t_tag t; if tag =? Node_tag then nr ← t_ref t; n ← ref_node nr; sn_data n else throw_impossible 121) Q E m.
Proof using HeapLaws0.
  intros Hm (_ & [_ Hd4] & Hs) HQ. destruct (root_words _ _ _ _ _ _ Hs) as (nr & n & lt & rt & W0 & W1 & W2 & W3 & W4 & _).
  wps. do 2 (eapply (wm_load (at_words R)); [done..|]; wps). rewrite Z.eqb_refl. wps. do 3 (eapply (wm_load (at_words R)); [done..|]; wps). done.
Qed.

Lemma lookup_spec_s X d x l w m : at_words R w m -> refs_in X w -> sdict rel g X w d l ->
  wp (Cyc_SlowDict_lookup self call temp d x) (fun v => state X w (fun _ _ => alist_get g x l = Some v))
    (fun e m' => (e = Cyc_SlowDict_Absent /\ state X w (fun _ _ => alist_get g x l = None) m') \/ tree_oom (at_words R) X w e m') m.
Proof using HeapLaws0 Htemp H2 Hpure Comparison0.
  intros Hm HX (Ho & t & s & Hd & <-). unfold Cyc_SlowDict_lookup. wps.
  eapply wp_mono; [by apply splay_dict_spec| |by right].
  intros b m' (X' & w' & Hm' & HX' & He & s' & Hd' & Hse). destruct b.
  - destruct (searched_found _ _ _ Hse) as (a & kv & b & -> & El & Ek). eapply wp_root_data; [done..|].
    exists X', w'. split_and!; try done. rewrite El in *. by apply found_get.
  - apply wp_thrown. left. split; [done|]. exists X', w'. split_and!; try done.
    destruct Hse as [_ (l1 & l2 & El & Hg)]. rewrite El. by eapply gap_split.
Qed.

Lemma member_spec_s X d x l w m : at_words R w m -> refs_in X w -> sdict rel g X w d l ->
  wp (Cyc_SlowDict_member self call temp d x)
    (fun b => state X w (fun _ _ => b = match alist_get g x l with None => false | _ => true end)) (tree_oom (at_words R) X w) m.
Proof using HeapLaws0 Htemp H2 Hpure Comparison0.
  intros Hm HX (Ho & t & s & Hd & <-). unfold Cyc_SlowDict_member. eapply wp_mono; [by apply splay_dict_spec| |done].
  intros b m' (X' & w' & Hm' & HX' & He & s' & Hd' & Hse). exists X', w'. split_and!; try done. destruct b.
  - destruct (searched_found _ _ _ Hse) as (a & kv & b & -> & El & Ek). rewrite El in *. by rewrite found_get.
  - destruct Hse as [_ (l1 & l2 & El & Hg)]. rewrite El. by destruct (gap_split g x _ _ _ Hg) as [-> _].
Qed.

(** ** Insertion *)

(** The subtrees of the new root. *)
Definition parts (d x : Z) (l : list (Z * Z)) (lr : Z * Z) X w : Prop := exists a b, reads (H:=H) w (sd_reln d) rel /\
  splay_at X w lr.1 a /\ splay_at X w lr.2 b /\ forall v, inorder a ++ (x, v) :: inorder b = alist_ins g (x, v) l.

Lemma insert_found_spec X d t x l leaf s w m : at_words R w m -> refs_in X w -> sdict_tree rel X w d t s -> searched x l true s -> ordered g l ->
  wp (insert_found d leaf) (fun lr => state X w (parts d x l lr)) (tree_oom (at_words R) X w) m.
Proof using HeapLaws0 Comparison0.
  intros Hm HX Hd Hse Ho. pose proof Hd as (_ & [_ Hd4] & Hs). destruct (searched_found _ _ _ Hse) as (a & kv & b & -> & -> & Ek).
  destruct (root_words _ _ _ _ _ _ Hs) as (nr & n & lt & rt & W0 & W1 & W2 & W3 & W4 & W5 & W6 & Ha & Hb & _).
  unfold insert_found. wps. do 2 (eapply (wm_load (at_words R)); [done..|]; wps). rewrite Z.eqb_refl.
  wps. do 5 (eapply (wm_load (at_words R)); [done..|]; wps). exists X, w. split_and!; [done|done|apply evolves_refl|].
  exists a, b. split_and!; [by eapply sd_reln_reads|done|done|]. intros v. symmetry. by apply found_ins.
Qed.

Lemma insert_missing_spec X d t x l leaf s w m : at_words R w m -> refs_in X w -> sdict_tree rel X w d t s -> searched x l false s ->
  ordered g l -> splay_at X w leaf SLeaf ->
  wp (insert_missing call d x leaf) (fun lr => state X w (parts d x l lr)) (tree_oom (at_words R) X w) m.
Proof using HeapLaws0 Comparison0 Hpure.
  intros Hm HX Hd [<- (l1 & l2 & El & Hg)] Ho Hleaf. pose proof Hd as ([_ Hd0] & [_ Hd4] & Hs). pose proof (sd_reln_reads _ _ _ _ _ Hd) as Rd.
  unfold insert_missing. wps. eapply (wm_load (at_words R)); [done..|]. wps. destruct s as [|a kv b].
  { eapply (wm_load (at_words R)); [done|by apply Hs|]. wps. change (Leaf_tag =? Node_tag) with false. cbv iota. wps.
    exists X, w. split_and!; [done|done|apply evolves_refl|]. by exists SLeaf, SLeaf. }
  destruct (root_words _ _ _ _ _ _ Hs) as (nr & n & lt & rt & W0 & W1 & W2 & W3 & W4 & W5 & W6 & Ha & Hb & Hn).
  destruct (node_reads _ _ _ _ _ _ Hn) as (Rk & Rv & Rl & Rr). simpl in El, Ho, Hg.
  eapply (wm_load (at_words R)); [done..|]. rewrite Z.eqb_refl. wps. do 4 (eapply (wm_load (at_words R)); [done..|]; wps). eapply wp_pure2; [done|].
  assert (Hnew : forall line c1 c2 t1 t2 s1 s2 (Q : Z -> mem H -> Prop), reads w c1 t1 -> reads w c2 t2 -> splay_at X w t1 s1 -> splay_at X w t2 s2 ->
    (forall t X' w' m', at_words R w' m' -> extends X w X' w' -> refs_in X' w' -> splay_at X' w' t (SNode s1 kv s2) -> Q t m') ->
    wp (new_tree (sd_alloc line) (sn_key n) (sn_data n) c1 c2) Q (tree_oom (at_words R) X w) m).
  { intros line c1 c2 t1 t2 s1 s2 Q R1 R2 S1 S2 HQ. eapply (new_tree_spec (at_words R) _ (sd_allocates line) X _ _ _ _ kv); [done..| |].
    - intros t' X' w' m' Hm' Hroot. pose proof Hroot as (He & HX' & _). eapply HQ; [done|done|done|by eapply new_root_splay].
    - intros; by eapply tree_oom_words. }
  destruct (g x kv.1 <? 0) eqn:E; wps.
  - eapply (wm_load (at_words R)); [done..|]. wps. eapply Hnew; [apply reads_ret|done|done|done|]. intros t' X' w' m' Hm' He HX' Hs'. wps.
    exists X', w'. split_and!; [done|done|by apply extends_evolves|]. exists a, (SNode SLeaf kv b). split_and!; [|by eapply extends_splay|done|].
    + eapply reads_mono; [done|by destruct He as (_ & ? & _)].
    + intros v. symmetry. eapply (gap_left g x l1 l2); [done|done|done|lia].
  - eapply Hnew; [done|apply reads_ret|done|done|]. intros t' X' w' m' Hm' He HX' Hs'. wps.
    assert (Hw : w ⊆ w') by (by destruct He as (_ & ? & _)). eapply (wm_load (at_words R)); [done|by eapply lookup_weaken|]. wps.
    exists X', w'. split_and!; [done|done|by apply extends_evolves|]. exists (SNode a kv SLeaf), b. split_and!; [by eapply reads_mono|done|by eapply extends_splay|].
    intros v. simpl. rewrite <- app_assoc. symmetry. eapply (gap_right g x l1 l2); [done|done|done|lia].
Qed.

Lemma insert_spec_s X d x v l w m : at_words R w m -> refs_in X w -> sdict rel g X w d l ->
  wp (Cyc_SlowDict_insert self call temp d x v) (fun d' => state X w (fun X' w' => sdict rel g X' w' d' (alist_ins g (x, v) l)))
    (tree_oom (at_words R) X w) m.
Proof using HeapLaws0 Htemp H2 Hpure Comparison0.
  intros Hm HX (Ho & t & s & Hd & <-). unfold Cyc_SlowDict_insert. wps.
  eapply (new_leaf_spec X); [done|done| |intros; by eapply tree_oom_words].
  clear Hm m. intros leaf w1 m Hm He1 HX1 Hleaf. pose proof (extends_evolves _ _ _ _ He1) as Hev1.
  assert (Hd1 : sdict_tree rel X w1 d t s).
  { destruct Hd as (F0 & F4 & Hs). pose proof (extends_fixed _ _ _ _ He1) as [_ Hk]. split_and!; [by apply Hk|by apply Hk|by eapply extends_splay]. }
  wps. eapply wp_mono; [by apply splay_dict_spec| |intros e m'; by apply oom_after].
  clear Hm m. intros found m (X2 & w2 & Hm & HX2 & Hev2 & s' & Hd2 & Hse). pose proof (evolves_trans _ _ _ _ _ _ Hev1 Hev2) as Hev.
  destruct (proj2 Hev2 _ _ Hleaf) as (sl & Hleaf2 & El). assert (sl = SLeaf) as -> by (destruct sl as [|a0 ? b0]; [done|]; simpl in El; by destruct (inorder a0)).
  wps. apply (wp_mono _ (fun lr => state X2 w2 (parts d x (inorder s) lr)) _ (tree_oom (at_words R) X2 w2)); [| |intros e m'; by apply oom_after].
  { destruct found; [by eapply insert_found_spec|by eapply insert_missing_spec]. }
  clear Hm m. intros [nl nr] m (X3 & w3 & Hm & HX3 & Hev3 & a & b & Rd & Ha & Hb & Hins). simpl in Ha, Hb.
  pose proof (evolves_trans _ _ _ _ _ _ Hev Hev3) as Hev'.
  eapply wp_mono; [eapply (new_dict_tree_spec X3 93 _ _ _ _ _ _ (x, v) nl nr a b w3 m (fun d' => state X3 w3 (fun X' w' => sdict rel g X' w' d' (alist_ins g (x, v) (inorder s)))) insert_allocates);
    try done| |intros e m'; by apply oom_after].
  - clear Hm m. intros d' t' X4 w4 m Hm He4 HX4 Hd4 _. exists X4, w4. split_and!; [done|done|by apply extends_evolves|].
    split; [by apply alist_ins_ordered|]. exists t', (SNode a (x, v) b). split; [done|]. simpl. by rewrite Hins.
  - intros d' m' (X4 & w4 & Hm4 & HX4 & Hev4 & Hd4). exists X4, w4. split_and!; try done. by eapply evolves_trans.
Qed.
End ops.
