(* ===== verification/SlowDictRefine.v ===== *)
(** * Dictionaries of splay trees refine finite maps

    Deletion, the operations that throw, and the refinement: programs that
    create, extend, shrink and search any number of dictionaries behave as
    programs on finite maps, and every dictionary keeps its map for ever. *)

From stdpp Require Import sorting.
From S2P Require Import Prelude Alloc FatPtr RwLock Region RegionSafety DynRegion Words CycList ListCells WordMem TempRegion CycListSpec CycSetSpec DictTree DictSpec DictRefine CycSplay CycSlowDict SplaySpec SplayRefine SlowDictSpec CycSet SetRefine.

(** The search for the largest key ends at the last binding. *)
Lemma visit_largest x s o : visit (fun _ _ => 1) x s o = (false, match last (inorder s) with Some kv => Some kv | None => o end).
Proof.
  revert o. induction s as [|a _ kv b IH]; intros o; [done|]. simpl. rewrite IH. f_equal.
  rewrite last_app, last_cons. by destruct (last (inorder b)).
Qed.

Lemma last_at_root (g : Z -> Z -> Z) `{!Comparison g} a kv b : ordered g (inorder (SNode a kv b)) -> last (inorder (SNode a kv b)) = Some kv -> inorder b = [].
Proof.
  simpl. intros (_ & _ & _ & Hb)%(ordered_mid g) Hl. rewrite last_app, last_cons in Hl.
  destruct (last (inorder b)) as [z|] eqn:E; [|by apply last_None in E]. exfalso. injection Hl as ->. apply last_Some_elem_of in E. rewrite Forall_forall in Hb. pose proof (Hb _ E) as Hz. cbv beta in Hz.
  rewrite (cmp_refl g) in Hz. lia.
Qed.

Section delete.
Context {H : Type} `{HH : Heap H} `{!HeapLaws H} (self : Z) (R : gset Z) (temp : Z) (Htemp : temp ∉ R) (H2 : 2 < temp).
Context (call : Z -> Z -> Z -> ST (mem H) Z) (rel : Z) (g : Z -> Z -> Z) (Hpure : pure2 (call rel) g) `{!Comparison g}.
Implicit Types (X : gset Z) (w : gmap Z Z) (m : mem H).
Abbreviation state X w Q := (evolved (at_words R) X w Q).

(** A new dictionary object, elsewhere than [d]. *)
Definition shrunk (d x : Z) (l : list (Z * Z)) (d' : Z) X w : Prop :=
  sdict rel g X w d' (without g x l) /\ (d' = d <-> alist_get g x l = None).

Lemma shrunk_intro X w d x a kv b d' t' s' : ordered g (inorder a ++ kv :: inorder b) -> g x kv.1 = 0 -> d' <> d ->
  sdict_tree rel X w d' t' s' -> inorder s' = inorder a ++ inorder b -> shrunk d x (inorder a ++ kv :: inorder b) d' X w.
Proof using Comparison0.
  intros Ho Ek Hne Hd' E. split.
  - split; [by apply filter_ordered|]. exists t', s'. split; [done|]. by rewrite found_without.
  - rewrite found_get by done. split; [by intros ->|done].
Qed.

(** The largest binding of the left subtree becomes the new root. *)
Lemma join_spec X d t x a kv b n lt rt nl w m : at_words R w m -> refs_in X w -> sdict_tree rel X w d t (SNode a kv b) -> node_is X w n kv lt rt ->
  tree_ref X w lt nl -> splay_at X w lt a -> splay_at X w rt b -> ordered g (inorder a ++ kv :: inorder b) -> g x kv.1 = 0 ->
  wp (l ← sn_left n; Cyc_Splay_splay self temp Cyc_SlowDict_get_largest x l;;
      newtop ← ref_node nl;
      new_dict 151 (sd_reln d) (new_tree (sd_alloc 152) (sn_key newtop) (sn_data newtop) (sn_left newtop) (sn_right n)))
    (fun d' => state X w (shrunk d x (inorder a ++ kv :: inorder b) d')) (tree_oom (at_words R) X w) m.
Proof using HeapLaws0 Htemp H2 Comparison0.
  intros Hm HX Hd Hn Htl Ha Hb Ho Ek. pose proof Hn as (_ & _ & [_ Wl] & _). wps. eapply (wm_load (at_words R)); [done..|]. wps.
  unfold Cyc_Splay_splay. eapply wp_mono; [exact (rsplay_spec self R temp _ Htemp H2 (or_introl eq_refl) Cyc_SlowDict_get_largest (fun _ _ => 1)
    (fun _ _ _ => eq_refl) X w x lt a m Hm HX Ha)| |done].
  clear Hm m. intros b0 m (X1 & w1 & Hm & HX1 & He & _ & s' & Hs' & E & Er). rewrite visit_largest in Er. simpl in Er.
  pose proof He as [Hk Hall]. pose proof (keeps_tree_ref _ _ _ _ _ _ Hk Htl) as Htl1.
  destruct (splay_node _ _ _ _ _ Hs' Htl1) as (nt & [_ Hnl] & kv2 & a2 & b2 & lt2 & rt2 & -> & Hnt & Ha2 & Hb2). simpl in Er.
  assert (Hlast : last (inorder a) = Some kv2) by (by destruct (last (inorder a)); [injection Er as ->|]).
  apply (ordered_mid g) in Ho as Hparts. destruct Hparts as (Hoa & _). rewrite <- E in Hlast, Hoa.
  pose proof (last_at_root g a2 kv2 b2 Hoa Hlast) as Hb2nil. destruct (Hall _ _ Hb) as (b' & Hb' & Eb).
  assert (Rd : reads (H:=H) w1 (sd_reln d) rel) by (apply reads_word; destruct Hd as (F0 & _); by apply Hk).
  destruct (node_reads (H:=H) _ _ _ _ _ _ Hnt) as (Rk & Rv & Rl & _).
  destruct (node_reads (H:=H) _ _ _ _ _ _ (keeps_node _ _ _ _ _ _ _ _ Hk Hn)) as (_ & _ & _ & Rr).
  wps. eapply (wm_load (at_words R)); [done..|]. wps.
  apply (wp_mono _ (fun d' => state X1 w1 (shrunk d x (inorder a ++ kv :: inorder b) d')) _ (tree_oom (at_words R) X1 w1)).
  - eapply (new_dict_tree_spec R rel X1 151 _ _ _ _ _ _ kv2 lt2 rt a2 b'); try done; [apply sd_allocates|].
    intros d' t' X2 w2 m2 Hm2 He2 HX2 Hd2 Hnew. exists X2, w2. split_and!; [done|done|by apply extends_evolves|].
    eapply shrunk_intro; try done.
    + intros ->. destruct Hd as (F0 & _). destruct (proj2 Hk _ _ F0) as [_ W]. congruence.
    + simpl. rewrite <- E, Eb. simpl. rewrite Hb2nil. by rewrite <- app_assoc.
  - intros d' m2 (X2 & w2 & ? & ? & ? & ?). exists X2, w2. split_and!; try done. by eapply evolves_trans.
  - intros e m2. by apply tree_oom_mono.
Qed.

Lemma wp_tag X w t s m (Q : Z -> mem H -> Prop) E : at_words R w m -> splay_at X w t s ->
  Q (match s with SLeaf => Leaf_tag | _ => Node_tag end) m -> wp (t_tag t) Q E m.
Proof using HeapLaws0.
  intros Hm Hs HQ. eapply (wm_load (at_words R)); [done| |exact HQ]. destruct s as [|a kv b]; [by apply Hs|].
  by destruct Hs as (nr & n & lt & rt & [[_ ?] _] & _).
Qed.

(** The three cases of a deletion, after the search. *)
Lemma delete_found_spec X d t x a kv b w m : at_words R w m -> refs_in X w -> sdict_tree rel X w d t (SNode a kv b) ->
  ordered g (inorder a ++ kv :: inorder b) -> g x kv.1 = 0 ->
  wp (t ← sd_tree d; tag ← t_tag t;
      if tag =? Leaf_tag then throw_impossible 140
      else
        nr ← t_ref t;
        n ← ref_node nr;
        l ← sn_left n; ltag ← t_tag l;
        if ltag =? Leaf_tag then new_dict 144 (sd_reln d) (sn_right n)
        else
          noderef_left ← t_ref l;
          r ← sn_right n; rtag ← t_tag r;
          if rtag =? Leaf_tag then new_dict 147 (sd_reln d) (sn_left n)
          else
            l ← sn_left n; Cyc_Splay_splay self temp Cyc_SlowDict_get_largest x l;;
            newtop ← ref_node noderef_left;
            new_dict 151 (sd_reln d)
              (new_tree (sd_alloc 152) (sn_key newtop) (sn_data newtop) (sn_left newtop) (sn_right n)))
    (fun d' => state X w (shrunk d x (inorder a ++ kv :: inorder b) d')) (tree_oom (at_words R) X w) m.
Proof using HeapLaws0 Htemp H2 Comparison0.
  intros Hm HX Hd Ho Ek. pose proof Hd as ([_ W0] & [_ W4] & Hs). pose proof (sd_reln_reads (H:=H) rel _ _ _ _ _ Hd) as Rd.
  destruct (root_words _ _ _ _ _ _ Hs) as (nr & n & lt & rt & T0 & T1 & T2 & _ & _ & T5 & T6 & Ha & Hb & Hn).
  destruct (node_reads (H:=H) _ _ _ _ _ _ Hn) as (_ & _ & Rl & Rr).
  assert (Hone : forall line c t' s', reads w c t' -> splay_at X w t' s' -> inorder s' = inorder a ++ inorder b ->
    wp (new_dict line (sd_reln d) c) (fun d' => state X w (shrunk d x (inorder a ++ kv :: inorder b) d')) (tree_oom (at_words R) X w) m).
  { intros line c t' s' Rc Hs' Es'. eapply (new_dict_spec R rel X); [done..| |intros; by eapply tree_oom_words].
    intros d' w' m' Hm' He HX' Hd' Hnew. exists X, w'. split_and!; [done|done|by apply extends_evolves|].
    eapply shrunk_intro; try done. intros ->. congruence. }
  wps. eapply (wm_load (at_words R)); [done..|]. wps. eapply (wp_tag X); [done..|]. cbv iota. change (Node_tag =? Leaf_tag) with false. cbv iota.
  wps. do 3 (eapply (wm_load (at_words R)); [done..|]; wps). eapply (wp_tag X); [done..|]. destruct a as [|a1 kva a2].
  { change (Leaf_tag =? Leaf_tag) with true. cbv iota. by eapply Hone. }
  change (Node_tag =? Leaf_tag) with false. cbv iota. pose proof Ha as (nl & nn & l1 & r1 & Htl & _). pose proof Htl as [_ [_ Wl]].
  wps. do 2 (eapply (wm_load (at_words R)); [done..|]; wps). eapply (wp_tag X); [done..|]. destruct b as [|b1 kvb b2].
  { change (Leaf_tag =? Leaf_tag) with true. cbv iota. eapply Hone; [done..|]. by rewrite app_nil_r. }
  change (Node_tag =? Leaf_tag) with false. cbv iota. by eapply join_spec.
Qed.

Lemma delete_spec_s X d x l w m : at_words R w m -> refs_in X w -> sdict rel g X w d l ->
  wp (Cyc_SlowDict_delete self call temp d x) (fun d' => state X w (shrunk d x l d')) (tree_oom (at_words R) X w) m.
Proof using HeapLaws0 Htemp H2 Hpure Comparison0.
  intros Hm HX (Ho & t & s & Hd & <-). unfold Cyc_SlowDict_delete. wps.
  eapply wp_mono; [by eapply (splay_dict_spec self R temp Htemp H2 call rel g Hpure)| |done].
  clear Hm m. intros found m (X1 & w1 & Hm & HX1 & He & s' & Hd' & Hse). destruct found.
  - destruct (searched_found _ _ _ _ Hse) as (a & kv & b & -> & El & Ek). rewrite El in *.
    eapply wp_mono; [by eapply delete_found_spec| |intros e m'; by apply tree_oom_mono].
    intros d' m' (X2 & w2 & ? & ? & ? & ?). exists X2, w2. split_and!; try done. by eapply evolves_trans.
  - wps. exists X1, w1. split_and!; try done. destruct Hse as [Es (l1 & l2 & El & Hg)].
    assert (Hnone : alist_get g x (inorder s) = None) by (rewrite El; by eapply gap_split).
    split; [|done]. rewrite absent_without by done. split; [done|]. by exists t, s'.
Qed.

(** ** Operations that throw, and new dictionaries *)

Lemma delete_present_spec X d x l w m : at_words R w m -> refs_in X w -> sdict rel g X w d l ->
  wp (Cyc_SlowDict_delete_present self call temp d x)
    (fun d' => state X w (fun X' w' => alist_get g x l <> None /\ sdict rel g X' w' d' (without g x l)))
    (fun e m' => (e = Cyc_SlowDict_Absent /\ state X w (fun _ _ => alist_get g x l = None) m') \/ tree_oom (at_words R) X w e m') m.
Proof using HeapLaws0 Htemp H2 Hpure Comparison0.
  intros Hm HX Hd. unfold Cyc_SlowDict_delete_present. wps. eapply wp_mono; [by apply delete_spec_s| |by right].
  intros d' m' (X1 & w1 & Hm1 & HX1 & He & Hd' & Heq). destruct (d =? d') eqn:E.
  - apply wp_thrown. left. split; [done|]. exists X1, w1. split_and!; try done. apply Heq. lia.
  - wps. exists X1, w1. split_and!; try done. intros Hn. apply Heq in Hn. lia.
Qed.

Lemma insert_new_spec_s X d x v l w m : at_words R w m -> refs_in X w -> sdict rel g X w d l ->
  wp (Cyc_SlowDict_insert_new self call temp d x v)
    (fun d' => state X w (fun X' w' => alist_get g x l = None /\ sdict rel g X' w' d' (alist_ins g (x, v) l)))
    (fun e m' => (e = Cyc_SlowDict_Present /\ state X w (fun _ _ => alist_get g x l <> None) m') \/ tree_oom (at_words R) X w e m') m.
Proof using HeapLaws0 Htemp H2 Hpure Comparison0.
  intros Hm HX Hd. pose proof Hd as (Ho & t & s & Hd' & <-). unfold Cyc_SlowDict_insert_new. wps.
  eapply wp_mono; [by eapply (splay_dict_spec self R temp Htemp H2 call rel g Hpure)| |by right].
  clear Hm m. intros found m (X1 & w1 & Hm & HX1 & He & s' & Hd1 & Hse). destruct found.
  - apply wp_thrown. left. split; [done|]. exists X1, w1. split_and!; try done.
    destruct (searched_found _ _ _ _ Hse) as (a & kv & b & -> & El & Ek). rewrite El in *. by rewrite found_get.
  - wps. eapply wp_mono; [eapply (insert_spec_s self R temp Htemp H2 call rel g Hpure X1 d x v (inorder s)); try done; by eapply sdict_evolves| |].
    + intros d' m' (X2 & w2 & ? & ? & ? & ?). exists X2, w2. split_and!; try done; [by eapply evolves_trans|].
      destruct Hse as [_ (l1 & l2 & El & Hg)]. rewrite El. by eapply gap_split.
    + intros e m' Hoom. right. by eapply tree_oom_mono.
Qed.

Lemma empty_spec_s X w m : at_words R w m -> refs_in X w ->
  wp (Cyc_SlowDict_empty rel) (fun d => state X w (fun X' w' => sdict rel g X' w' d [])) (tree_oom (at_words R) X w) m.
Proof using HeapLaws0.
  intros Hm HX. unfold Cyc_SlowDict_empty. wps. eapply (new_leaf_spec R X); [done..| |intros; by eapply tree_oom_words].
  clear Hm m. intros t w1 m Hm He HX1 Ht. eapply (new_dict_spec R rel X); [done|done|apply reads_ret|apply reads_ret|done| |].
  - intros d w2 m2 Hm2 He2 HX2 Hd _. exists X, w2. split_and!; [done|done|apply extends_evolves; by eapply extends_trans|].
    split; [constructor|]. by exists t, SLeaf.
  - intros m2 Hm2. eapply tree_oom_words; [done|by destruct He as (_ & ? & _)|done].
Qed.
End delete.

(** ** Programs *)

(** Operations on the [i]-th dictionary; each of the first five adds one. *)
Inductive sop : Type :=
| SEmpty
| SInsert (i : nat) (k v : Z)
| SInsertNew (i : nat) (k v : Z)
| SDelete (i : nat) (k : Z)
| SDeletePresent (i : nat) (k : Z)
| SMember (i : nat) (k : Z)
| SLookup (i : nat) (k : Z).

Definition sop_dict (op : sop) : option nat :=
  match op with
  | SEmpty => None
  | SInsert i _ _ | SInsertNew i _ _ | SDelete i _ | SDeletePresent i _ | SMember i _ | SLookup i _ => Some i
  end.
Definition sop_adds (op : sop) : bool := match op with SMember _ _ | SLookup _ _ => false | _ => true end.

(** Every operation names a dictionary there is. *)
Fixpoint sops_ok (n : nat) (ops : list sop) : bool :=
  match ops with
  | [] => true
  | op :: ops => match sop_dict op with Some i => (i <? n)%nat | None => true end && sops_ok (if sop_adds op then S n else n) ops
  end.

Section programs.
Context {H : Type} `{HH : Heap H} (self : Z) (call : Z -> Z -> Z -> ST (mem H) Z) (temp rel : Z).

Definition run_sop (op : sop) (ds : list Z) : ST (mem H) (list answer * list Z) :=
  let d := default 0 (i ← sop_dict op; ds !! i) in
  match op with
  | SEmpty => d ← Cyc_SlowDict_empty rel; mret ([], ds ++ [d])
  | SInsert _ k v => d' ← Cyc_SlowDict_insert self call temp d k v; mret ([], ds ++ [d'])
  | SInsertNew _ k v =>
      o ← attempt Cyc_SlowDict_Present (Cyc_SlowDict_insert_new self call temp d k v);
      mret ([ABool (bool_decide (is_Some o))], ds ++ [default d o])
  | SDelete _ k => d' ← Cyc_SlowDict_delete self call temp d k; mret ([], ds ++ [d'])
  | SDeletePresent _ k =>
      o ← attempt Cyc_SlowDict_Absent (Cyc_SlowDict_delete_present self call temp d k);
      mret ([ABool (bool_decide (is_Some o))], ds ++ [default d o])
  | SMember _ k => b ← Cyc_SlowDict_member self call temp d k; mret ([ABool b], ds)
  | SLookup _ k => o ← attempt Cyc_SlowDict_Absent (Cyc_SlowDict_lookup self call temp d k); mret ([AVal o], ds)
  end.

Fixpoint run_sops (ops : list sop) (ds : list Z) : ST (mem H) (list answer * list Z) :=
  match ops with
  | [] => mret ([], ds)
  | op :: ops => r ← run_sop op ds; r' ← run_sops ops r.2; mret (r.1 ++ r'.1, r'.2)
  end.

Context (g : Z -> Z -> Z).

(** The specification: a list of partial maps. *)
Definition pmap_ins (k v : Z) (f : Z -> option Z) : Z -> option Z := fun x => if g x k =? 0 then Some v else f x.
Definition pmap_del (k : Z) (f : Z -> option Z) : Z -> option Z := fun x => if g x k =? 0 then None else f x.

Definition spec_sop (op : sop) (fs : list (Z -> option Z)) : list answer * list (Z -> option Z) :=
  let f := default (fun _ => None) (i ← sop_dict op; fs !! i) in
  match op with
  | SEmpty => ([], fs ++ [fun _ => None])
  | SInsert _ k v => ([], fs ++ [pmap_ins k v f])
  | SInsertNew _ k v =>
      ([ABool (bool_decide (f k = None))], fs ++ [match f k with None => pmap_ins k v f | Some _ => f end])
  | SDelete _ k => ([], fs ++ [pmap_del k f])
  | SDeletePresent _ k => ([ABool (bool_decide (is_Some (f k)))], fs ++ [match f k with None => f | Some _ => pmap_del k f end])
  | SMember _ k => ([ABool (bool_decide (is_Some (f k)))], fs)
  | SLookup _ k => ([AVal (f k)], fs)
  end.

Fixpoint spec_sops (ops : list sop) (fs : list (Z -> option Z)) : list answer * list (Z -> option Z) :=
  match ops with
  | [] => ([], fs)
  | op :: ops => let r := spec_sop op fs in let r' := spec_sops ops r.2 in (r.1 ++ r'.1, r'.2)
  end.

Context `{!HeapLaws H} (R : gset Z) (Htemp : temp ∉ R) (H2 : 2 < temp) (Hpure : pure2 (call rel) g) `{!Comparison g}.
Implicit Types (X : gset Z) (w : gmap Z Z).

(** The dictionary [d] holds the map [f]. *)
Definition holds_map X w (d : Z) (f : Z -> option Z) : Prop := exists l, sdict rel g X w d l /\ forall x, alist_get g x l = f x.

(** The answers and the maps of the specification, in a state that keeps all
    trees. *)
Definition sops_agree X w (r : list answer * list (Z -> option Z)) (res : list answer * list Z) : mem H -> Prop :=
  evolved (at_words R) X w (fun X' w' => res.1 = r.1 /\ Forall2 (holds_map X' w') res.2 r.2).

Lemma holds_evolves X w X' w' ds fs : evolves X w X' w' -> Forall2 (holds_map X w) ds fs -> Forall2 (holds_map X' w') ds fs.
Proof using.
  intros He Hds. eapply Forall2_impl; [exact Hds|]. intros d f (l & Hd & Hl). exists l. split; [by eapply sdict_evolves|done].
Qed.

Lemma agree_add X w X' w' ds fs ans d f m : at_words R w' m -> refs_in X' w' -> evolves X w X' w' ->
  Forall2 (holds_map X w) ds fs -> holds_map X' w' d f -> sops_agree X w (ans, fs ++ [f]) (ans, ds ++ [d]) m.
Proof using.
  intros Hm HX He Hds Hd. exists X', w'. split_and!; [done..|]. simpl. apply Forall2_app; [by eapply holds_evolves|by constructor].
Qed.

Lemma agree_same X w X' w' ds fs ans m : at_words R w' m -> refs_in X' w' -> evolves X w X' w' ->
  Forall2 (holds_map X w) ds fs -> sops_agree X w (ans, fs) (ans, ds) m.
Proof using. intros Hm HX He Hds. exists X', w'. split_and!; [done..|]. by eapply holds_evolves. Qed.

Lemma tree_oom_exn X w e m : tree_oom (at_words R) X w e m -> e = Cyc_Bad_alloc.
Proof using. by intros [-> _]. Qed.

Lemma sop_refine op ds fs X w m : at_words R w m -> refs_in X w -> Forall2 (holds_map X w) ds fs ->
  match sop_dict op with Some i => (i < length ds)%nat | None => True end ->
  wp (run_sop op ds) (sops_agree X w (spec_sop op fs)) (tree_oom (at_words R) X w) m.
Proof using HeapLaws0 Htemp H2 Hpure Comparison0.
  intros Hm HX Hds Hi. unfold run_sop, spec_sop.
  assert (Hd : forall i, sop_dict op = Some i -> exists d f, ds !! i = Some d /\ fs !! i = Some f /\ holds_map X w d f).
  { intros i Ei. rewrite Ei in Hi. destruct (lookup_lt_is_Some_2 ds i Hi) as [d Hd].
    destruct (Forall2_lookup_l _ _ _ _ _ Hds Hd) as (f & Hf & Hh). by exists d, f. }
  assert (Hself : forall d f, holds_map X w d f -> forall X' w', evolves X w X' w' -> holds_map X' w' d f).
  { intros d f (l & Hdl & Hl) X' w' He. exists l. split; [by eapply sdict_evolves|done]. }
  destruct op as [|i k v|i k v|i k|i k|i k|i k]; cbn [sop_dict] in *; wps.
  { eapply wp_mono; [by apply (empty_spec_s R rel g X w)| |done]. intros d m' (X' & w' & ? & ? & ? & ?). wps.
    eapply agree_add; try done. by exists []. }
  all: destruct (Hd i eq_refl) as (d & f & Ed & Ef & Hh); pose proof Hh as (l & Hdl & Hl); change (mbind (lookup i) (Some ?x)) with (x !! i); cbn [mbind option_bind];
    rewrite Ed, Ef; cbn [default from_option]; unfold id.
  - eapply wp_mono; [by eapply (insert_spec_s self R temp Htemp H2 call rel g Hpure)| |done]. intros d' m' (X' & w' & ? & ? & ? & Hd').
    wps. eapply agree_add; try done. eexists. split; [exact Hd'|]. intros x. unfold pmap_ins. rewrite <- Hl. destruct Hdl as [Hord _]. by apply (alist_get_ins g (k, v)).
  - apply wp_attempt. eapply wp_mono; [by eapply (insert_new_spec_s self R temp Htemp H2 call rel g Hpure)|..].
    + intros d' m' (X' & w' & ? & ? & ? & Hn & Hd'). wps. rewrite Hl in Hn. rewrite Hn. eapply agree_add; try done. eexists. split; [exact Hd'|].
      intros x. unfold pmap_ins. rewrite <- Hl. destruct Hdl as [Hord _]. by apply (alist_get_ins g (k, v)).
    + intros e m' [(-> & X' & w' & ? & ? & ? & Hn)|Hoom].
      * rewrite decide_True by done. wps. rewrite Hl in Hn. destruct (f k) eqn:Ef'; [|done]. eapply agree_add; try done. by apply Hself.
      * pose proof (tree_oom_exn _ _ _ _ Hoom) as ->. by rewrite decide_False.
  - eapply wp_mono; [by eapply (delete_spec_s self R temp Htemp H2 call rel g Hpure)| |done]. intros d' m' (X' & w' & ? & ? & ? & Hd' & _).
    wps. eapply agree_add; try done. eexists. split; [exact Hd'|]. intros x. unfold pmap_del. rewrite <- Hl. by apply alist_get_without.
  - apply wp_attempt. eapply wp_mono; [by eapply (delete_present_spec self R temp Htemp H2 call rel g Hpure)|..].
    + intros d' m' (X' & w' & ? & ? & ? & Hn & Hd'). wps. rewrite Hl in Hn. destruct (f k) as [u|] eqn:Ef'; [|done].
      eapply agree_add; try done. eexists. split; [exact Hd'|]. intros x. unfold pmap_del. rewrite <- Hl. by apply alist_get_without.
    + intros e m' [(-> & X' & w' & ? & ? & ? & Hn)|Hoom].
      * rewrite decide_True by done. wps. rewrite Hl in Hn. rewrite Hn. eapply agree_add; try done. by apply Hself.
      * pose proof (tree_oom_exn _ _ _ _ Hoom) as ->. by rewrite decide_False.
  - eapply wp_mono; [by eapply (member_spec_s self R temp Htemp H2 call rel g Hpure)| |done]. intros b m' (X' & w' & ? & ? & ? & ->).
    wps. rewrite Hl. destruct (f k); by eapply agree_same.
  - apply wp_attempt. eapply wp_mono; [by eapply (lookup_spec_s self R temp Htemp H2 call rel g Hpure)|..].
    + intros v m' (X' & w' & ? & ? & ? & Hv). wps. rewrite Hl in Hv. rewrite Hv. by eapply agree_same.
    + intros e m' [(-> & X' & w' & ? & ? & ? & Hn)|Hoom].
      * rewrite decide_True by done. wps. rewrite Hl in Hn. rewrite Hn. by eapply agree_same.
      * pose proof (tree_oom_exn _ _ _ _ Hoom) as ->. by rewrite decide_False.
Qed.

Lemma spec_sop_length op fs : length (spec_sop op fs).2 = if sop_adds op then S (length fs) else length fs.
Proof using. destruct op; simpl; rewrite ?length_app; simpl; lia. Qed.

Lemma slow_ops_refine ops ds fs X w m : at_words R w m -> refs_in X w -> Forall2 (holds_map X w) ds fs -> sops_ok (length ds) ops = true ->
  wp (run_sops ops ds) (sops_agree X w (spec_sops ops fs)) (tree_oom (at_words R) X w) m.
Proof using HeapLaws0 Htemp H2 Hpure Comparison0.
  revert ds fs X w m. induction ops as [|op ops IH]; intros ds fs X w m Hm HX Hds Hok; cbn [run_sops spec_sops].
  { wps. eapply agree_same; try done. apply evolves_refl. }
  cbn [sops_ok] in Hok. apply andb_true_iff in Hok as [Hi Hok]. wps.
  eapply wp_mono; [apply (sop_refine op ds fs X w); [done..|]| |done].
  { destruct (sop_dict op); [by apply Nat.ltb_lt|done]. }
  intros [a1 ds1] m1 (X1 & w1 & Hm1 & HX1 & He1 & Ha & Hds1). simpl in Ha, Hds1. wps.
  eapply wp_mono; [apply (IH ds1 (spec_sop op fs).2 X1 w1); try done| |intros e m'; by apply tree_oom_mono].
  { rewrite (Forall2_length _ _ _ Hds1), spec_sop_length. by rewrite (Forall2_length _ _ _ Hds) in Hok. }
  intros [a2 ds2] m2 (X2 & w2 & Hm2 & HX2 & He2 & Ha2 & Hds2). simpl in Ha2, Hds2. wps.
  exists X2, w2. split_and!; [done|done|by eapply evolves_trans|simpl; congruence|done].
Qed.
End programs.

(** C7. Dictionaries of splay trees refine persistent finite maps: a program that
    creates dictionaries, inserts, deletes and searches, on any number of them
    that share nodes, terminates and answers as the same program on partial maps
    (where a comparison of 0 means the same key).  In the end every dictionary
    ever made holds the map it was made with, although each search rotated nodes
    that it shares with others.  The only failure is [Cyc_Bad_alloc], and then
    too all trees have kept their bindings. *)
Theorem slowdict_programs_refine {H : Type} `{HH : Heap H} `{!HeapLaws H} self (call : Z -> Z -> Z -> ST (mem H) Z)
    temp rel g ops ds fs R X w m :
  pure2 (call rel) g -> Comparison g -> temp ∉ R -> 2 < temp -> at_words R w m -> refs_in X w ->
  Forall2 (holds_map rel g X w) ds fs -> sops_ok (length ds) ops = true ->
  wp (run_sops self call temp rel ops ds) (sops_agree rel g R X w (spec_sops g ops fs)) (tree_oom (at_words R) X w) m.
Proof. intros Hp Hc Ht H2. by apply slow_ops_refine. Qed.

(** Two versions of a dictionary with a shared node, searched in turn. *)
Definition ex_sops : list sop :=
  [SEmpty; SInsert 0 5 50; SInsert 1 3 30; SInsert 2 8 80; SInsertNew 3 4 40; SInsertNew 4 8 81; SDelete 4 5;
   SLookup 6 5; SLookup 4 5; SLookup 3 3; SMember 2 8; SMember 6 8; SDeletePresent 6 9; SInsert 3 3 31; SLookup 8 3; SLookup 6 3].

Lemma slowdict_programs_refine_witness : exists ds m',
  run_sops 1 sub_call 5000 9 ex_sops [] ex_mem =
  (Ret ([ABool true; ABool false; AVal None; AVal (Some 50); AVal (Some 30); ABool false; ABool true; ABool false; AVal (Some 31); AVal (Some 30)], ds), m').
Proof.
  assert (Hg : 5000 ∉ ({[1000]} : gset Z)) by (rewrite elem_of_singleton; lia).
  assert (HX : refs_in ∅ ∅) by (intros a Ha; by apply not_elem_of_empty in Ha).
  pose proof (slowdict_programs_refine 1 sub_call 5000 9 Z.sub ex_sops [] [] {[1000]} ∅ ∅ ex_mem (fun u v m => eq_refl) _ Hg ltac:(lia)
    ex_mem_words HX (Forall2_nil_2 _ _ _) eq_refl) as Hwp.
  destruct (run_sops 1 sub_call 5000 9 ex_sops [] ex_mem) as [o m'] eqn:E.
  assert (Ho : exists r, o = Ret r) by (change o with (o, m').1; rewrite <- E; vm_compute; by eexists).
  destruct Ho as [[a ds] ->]. destruct (wp_result _ _ _ _ _ _ Hwp E) as (X' & w' & _ & _ & _ & Ha & _).
  exists ds, m'. assert (Hs : (spec_sops Z.sub ex_sops []).1 =
    [ABool true; ABool false; AVal None; AVal (Some 50); AVal (Some 30); ABool false; ABool true; ABool false; AVal (Some 31); AVal (Some 30)]) by reflexivity.
  rewrite Hs in Ha. cbn [fst] in Ha. rewrite Ha. reflexivity.
Defined.
