(* ===== verification/SlowDictIter.v ===== *)
(** * Traversals of dictionaries of splay trees

    [fold] and its uses visit every binding once, the root before its subtrees;
    [app] and [iter] visit the bindings in the order of the keys.  The recursion
    ends because the references on a path are distinct. *)

From stdpp Require Import sorting.
From S2P Require Import Prelude Alloc FatPtr RwLock Region RegionSafety DynRegion Words CycList ListCells WordMem TempRegion CycListSpec CycSet CycSetSpec SetRefine DictTree DictSpec DictRefine CycSplay CycSlowDict SplaySpec SplayRefine SlowDictSpec SlowDictRefine.

Fixpoint sheight (s : stree) : nat := match s with SLeaf => O | SNode l _ r => S (sheight l `max` sheight r) end.

(** The order in which [fold] puts the bindings together. *)
Fixpoint preorder (s : stree) : list (Z * Z) :=
  match s with SLeaf => [] | SNode l kv r => kv :: preorder l ++ preorder r end.

Lemma preorder_perm s : preorder s ≡ₚ inorder s.
Proof.
  induction s as [|l IHl kv r IHr]; simpl; [done|]. rewrite IHl, IHr. apply Permutation_middle.
Qed.

Lemma splay_height X w t s ps : splay_at X w t s -> above X w s ps -> Forall (fun p => is_Some (w !! p)) ps ->
  (length ps + sheight s <= size w)%nat.
Proof.
  revert t ps. induction s as [|l IHl kv r IHr]; intros t ps Hs Ha Hps.
  { simpl. rewrite Nat.add_0_r. apply refs_size; [by destruct Ha|done]. }
  destruct Hs as (nr & n & lt & rt & Ht & Hr & Hn & Hl & Hrt).
  assert (Hnt : node_tree X w n (SNode l kv r)) by (by exists kv, l, r, lt, rt).
  assert (Hps' : Forall (fun p => is_Some (w !! p)) (nr :: ps)) by (constructor; [by eexists; apply Hr|done]).
  assert (Hal : above X w l (nr :: ps)) by (eapply above_child; [done|done|done|simpl; lia]).
  assert (Har : above X w r (nr :: ps)) by (eapply above_child; [done|done|done|simpl; lia]).
  pose proof (IHl lt (nr :: ps) Hl Hal Hps'). pose proof (IHr rt (nr :: ps) Hrt Har Hps'). simpl in *. lia.
Qed.

Lemma splay_depth X w t s : splay_at X w t s -> (sheight s <= size w)%nat.
Proof. intros Hs. apply (splay_height X w t s []); [done|split; constructor|constructor]. Qed.

Section traversals.
Context {H : Type} `{HH : Heap H} `{!HeapLaws H} (R : gset Z).
Implicit Types (X : gset Z) (w : gmap Z Z) (m : mem H).

Section walk.
Context (X : gset Z) (w : gmap Z Z) (E : exn -> mem H -> Prop).

(** The words of the tree stay while the callback adds others. *)
Definition grown {A} (w1 : gmap Z Z) (Q : A -> gmap Z Z -> Prop) (a : A) (m : mem H) : Prop :=
  exists w2, at_words R w2 m /\ w1 ⊆ w2 /\ Q a w2.

Lemma wp_old a v w1 (Q : Z -> mem H -> Prop) m : at_words R w1 m -> w ⊆ w1 -> w !! a = Some v -> Q v m -> wp (get_word a) Q E m.
Proof. intros Hm Hw Ha. eapply (wm_load (at_words R)); [done|by eapply lookup_weaken]. Qed.

Lemma fold_rec_spec {A} (f : Z -> Z -> A -> ST (mem H) A) (I : list (Z * Z) -> A -> gmap Z Z -> Prop) :
  (forall kv ps a w1 m1, at_words R w1 m1 -> w ⊆ w1 -> I ps a w1 -> wp (f kv.1 kv.2 a) (grown w1 (I (kv :: ps))) E m1) ->
  forall s n t ps a w1 m1, splay_at X w t s -> (sheight s < n)%nat -> at_words R w1 m1 -> w ⊆ w1 -> I ps a w1 ->
  wp (fold_rec n f t a) (grown w1 (I (preorder s ++ ps))) E m1.
Proof.
  intros Hf. induction s as [|l IHl kv r IHr]; intros n t ps a w1 m1 Hs Hn Hm Hw HI; (destruct n as [|n]; [simpl in Hn; lia|]); cbn [fold_rec]; wps.
  { eapply wp_old; [done..|by apply Hs|]. wps. exists w1. by split_and!. }
  destruct (root_words _ _ _ _ _ _ Hs) as (nr & p & lt & rt & T0 & T1 & T2 & T3 & T4 & T5 & T6 & Hl & Hr & _). simpl in Hn.
  eapply wp_old; [done..|]. change (Node_tag =? Leaf_tag) with false. cbv iota. wps. do 6 (eapply wp_old; [done..|]; wps).
  eapply wp_mono; [by eapply (IHr n); [|lia|..]| |done]. intros a2 m2 (w2 & Hm2 & Hw2 & HI2). assert (w ⊆ w2) by (by etrans).
  wps. eapply wp_mono; [by eapply (IHl n); [|lia|..]| |done]. intros a3 m3 (w3 & Hm3 & Hw3 & HI3). assert (w ⊆ w3) by (by etrans).
  eapply wp_mono; [by apply Hf| |done]. intros a4 m4 (w4 & Hm4 & Hw4 & HI4). exists w4. split_and!; [done|etrans; [exact Hw2|by etrans]|].
  simpl. by rewrite <- app_assoc.
Qed.

Lemma app_rec_spec {A} (f : Z -> Z -> ST (mem H) A) (I : list (Z * Z) -> gmap Z Z -> Prop) :
  (forall kv ps w1 m1, at_words R w1 m1 -> w ⊆ w1 -> I ps w1 -> wp (f kv.1 kv.2) (grown w1 (fun _ => I (ps ++ [kv]))) E m1) ->
  forall s n t ps w1 m1, splay_at X w t s -> (sheight s < n)%nat -> at_words R w1 m1 -> w ⊆ w1 -> I ps w1 ->
  wp (app_rec n f t) (grown w1 (fun _ => I (ps ++ inorder s))) E m1.
Proof.
  intros Hf. induction s as [|l IHl kv r IHr]; intros n t ps w1 m1 Hs Hn Hm Hw HI; (destruct n as [|n]; [simpl in Hn; lia|]); cbn [app_rec]; wps.
  { eapply wp_old; [done..|by apply Hs|]. wps. exists w1. split_and!; [done|done|]. simpl. by rewrite app_nil_r. }
  destruct (root_words _ _ _ _ _ _ Hs) as (nr & p & lt & rt & T0 & T1 & T2 & T3 & T4 & T5 & T6 & Hl & Hr & _). simpl in Hn.
  eapply wp_old; [done..|]. change (Node_tag =? Leaf_tag) with false. cbv iota. wps. do 3 (eapply wp_old; [done..|]; wps).
  eapply wp_mono; [by eapply (IHl n); [|lia|..]| |done]. intros [] m2 (w2 & Hm2 & Hw2 & HI2). assert (w ⊆ w2) by (by etrans).
  wps. do 2 (eapply wp_old; [done..|]; wps). eapply wp_mono; [by apply Hf| |done]. intros a3 m3 (w3 & Hm3 & Hw3 & HI3). assert (w ⊆ w3) by (by etrans).
  wps. eapply wp_old; [done..|]. wps. eapply wp_mono; [by eapply (IHr n); [|lia|..]| |done]. intros [] m4 (w4 & Hm4 & Hw4 & HI4).
  exists w4. split_and!; [done|etrans; [exact Hw2|by etrans]|]. simpl. by rewrite <- !app_assoc in HI4.
Qed.
End walk.

(** [is_empty] and [choose]. *)
Lemma is_empty_spec_s rel g X d l w m : at_words R w m -> sdict rel g X w d l ->
  wp (Cyc_SlowDict_is_empty d) (fun b m' => m' = m /\ b = bool_decide (l = [])) (fun _ _ => False) m.
Proof.
  intros Hm (_ & t & s & (_ & [_ W4] & Hs) & <-). unfold Cyc_SlowDict_is_empty. wps. eapply (wm_load (at_words R)); [done..|].
  wps. eapply (wp_tag R X); [done..|]. wps. split; [done|]. destruct s as [|a kv b]; simpl; [done|]. by destruct (inorder a).
Qed.

Lemma choose_spec_s rel g X d l w m : at_words R w m -> sdict rel g X w d l ->
  wp (Cyc_SlowDict_choose d) (grown w (fun p w' => exists kv, kv ∈ l /\ w' !! p = Some kv.1 /\ w' !! (p + 4) = Some kv.2))
    (fun e m' => at_words R w m' /\ (e = Cyc_SlowDict_Absent /\ l = [] \/ e = Cyc_Bad_alloc)) m.
Proof.
  intros Hm (_ & t & s & (_ & [_ W4] & Hs) & <-). unfold Cyc_SlowDict_choose. wps. eapply (wm_load (at_words R)); [done..|].
  wps. eapply (wp_tag R X); [done..|]. destruct s as [|a kv b].
  { change (Leaf_tag =? Leaf_tag) with true. cbv iota. apply wp_thrown. split; [done|]. by left. }
  change (Node_tag =? Leaf_tag) with false. cbv iota.
  destruct (root_words _ _ _ _ _ _ Hs) as (nr & n & lt & rt & T0 & T1 & T2 & T3 & T4 & _). wps. eapply (wm_load (at_words R)); [done..|].
  wps. eapply (wm_alloc (at_words R) _ (sd_allocates R 288) 2); [lia|done| |by intros; split; [|right]].
  clear Hm m. intros p m Hm Ho%object_start. simpl in Ho. pose proof (object_sub _ _ _ _ Ho) as Hw.
  wps. do 2 (eapply (wm_load (at_words R)); [done|by eapply lookup_weaken|]; wps).
  eapply (wm_put_field (at_words R) 0); [exact Ho|done|simpl; lia|lia|]. clear Hm m Ho Hw. intros m Hm Ho. simpl in Ho. pose proof (object_sub _ _ _ _ Ho) as Hw.
  wps. do 2 (eapply (wm_load (at_words R)); [done|by eapply lookup_weaken|]; wps).
  eapply (wm_put_field (at_words R) 1); [exact Ho|done|simpl; lia|lia|]. clear Hm m Ho Hw. intros m Hm Ho. simpl in Ho. wps.
  eexists. split_and!; [exact Hm|by eapply object_sub|]. exists kv. split_and!.
  - apply elem_of_app. right. left.
  - eapply (object_get _ _ _ _ 0); [exact Ho|done|lia].
  - eapply (object_get _ _ _ _ 1); [exact Ho|done|lia].
Qed.
End traversals.

(** [to_list] of a dictionary of splay trees terminates and returns a list of
    new cells with every binding of the dictionary exactly once, and changes no
    word that was in use; or it throws [Cyc_Bad_alloc], and changes none either. *)
Theorem slowdict_to_list_complete {H : Type} `{HH : Heap H} `{!HeapLaws H} rel g R X d l w (m : mem H) :
  at_words R w m -> sdict rel g X w d l ->
  wp (Cyc_SlowDict_to_list d) (fun y m' => exists w' ps, at_words R w' m' /\ w ⊆ w' /\ steps_at w' y ps /\ ps ≡ₚ l) (oom R w) m.
Proof.
  intros Hm (_ & t & s & (_ & [_ W4] & Hs) & <-). unfold Cyc_SlowDict_to_list, Cyc_SlowDict_fold, Cyc_SlowDict_fold_tree. wps.
  eapply (wm_load (at_words R)); [done..|]. eapply (wm_fuel (at_words R)); [done|]. intros fuel Hfuel. pose proof (splay_depth _ _ _ _ Hs) as Hh.
  eapply wp_mono; [eapply (fold_rec_spec R X w (oom R w) _ (fun ps y w' => steps_at w' y ps) _ s fuel t [] 0 w); try done; lia| |done].
  intros y m' (w' & Hm' & Hw' & Hst). rewrite app_nil_r in Hst. exists w', (preorder s). split_and!; try done. apply preorder_perm.
  Unshelve. intros kv ps y w1 m1 Hm1 Hw1 Hst. eapply (cons_pair_spec (at_words R) _ (sd_allocates R 293)); [done|..].
  - intros c w2 m2 Hm2 Hw2 Hc. exists w2. split_and!; [done|done|]. destruct kv as [k v]. exists y. split; [done|by eapply steps_at_mono].
  - intros w2 m2 Hm2 Hw2. split; [done|]. exists w2. split; [done|by etrans].
Qed.

(** A dictionary of two bindings. *)
Definition build_sdict : ST (mem bump) Z :=
  d ← Cyc_SlowDict_empty 9; d ← Cyc_SlowDict_insert 1 sub_call 5000 d 5 50; Cyc_SlowDict_insert 1 sub_call 5000 d 3 30.
Definition ex_sdict : Z := match (build_sdict ex_mem).1 with Ret d => d | _ => 0 end.
Definition ex_sdict_mem : mem bump := (build_sdict ex_mem).2.

Lemma ex_sdict_ok : exists X w, at_words {[1000]} w ex_sdict_mem /\ sdict 9 Z.sub X w ex_sdict [(3, 30); (5, 50)].
Proof.
  assert (Hg : 5000 ∉ ({[1000]} : gset Z)) by (rewrite elem_of_singleton; lia).
  assert (HX : refs_in ∅ ∅) by (intros a Ha; by apply not_elem_of_empty in Ha).
  assert (Hp : pure2 (sub_call 9) Z.sub) by done.
  assert (Hwp : wp build_sdict (fun d m => exists X w, at_words {[1000]} w m /\ sdict 9 Z.sub X w d [(3, 30); (5, 50)]) (fun _ _ => True) ex_mem).
  { unfold build_sdict. wps. eapply wp_mono; [eapply (empty_spec_s {[1000]} 9 Z.sub ∅ ∅); [apply ex_mem_words|done]| |done].
    intros d m (X1 & w1 & Hm1 & HX1 & _ & Hd1). wps.
    eapply wp_mono; [by eapply (insert_spec_s 1 {[1000]} 5000 Hg ltac:(lia) sub_call 9 Z.sub Hp)| |done]. intros d2 m2 (X2 & w2 & Hm2 & HX2 & _ & Hd2).
    eapply wp_mono; [by eapply (insert_spec_s 1 {[1000]} 5000 Hg ltac:(lia) sub_call 9 Z.sub Hp)| |done]. intros d3 m3 (X3 & w3 & Hm3 & _ & _ & Hd3).
    by exists X3, w3. }
  refine (wp_result _ _ _ _ ex_sdict ex_sdict_mem Hwp _). vm_compute. reflexivity.
Qed.

Lemma slowdict_to_list_complete_witness : exists y m' w' ps, Cyc_SlowDict_to_list ex_sdict ex_sdict_mem = (Ret y, m') /\
  at_words {[1000]} w' m' /\ steps_at w' y ps /\ ps ≡ₚ [(3, 30); (5, 50)].
Proof.
  destruct ex_sdict_ok as (X & w & Hm & Hd).
  pose proof (slowdict_to_list_complete 9 Z.sub {[1000]} X ex_sdict _ w ex_sdict_mem Hm Hd) as Hwp.
  destruct (Cyc_SlowDict_to_list ex_sdict ex_sdict_mem) as [o m'] eqn:E.
  assert (Ho : exists r, o = Ret r) by (change o with (o, m').1; rewrite <- E; vm_compute; by eexists).
  destruct Ho as [y ->]. destruct (wp_result _ _ _ _ _ _ Hwp E) as (w' & ps & Hm' & _ & Hst & Hperm).
  exists y, m', w', ps. split; [reflexivity|]. split; [exact Hm'|]. split; [exact Hst|exact Hperm].
Defined.
