(* ===== verification/CycBytes.v ===== *)
(** * Byte memory and the memory operations of the string library

    Compiled code that works on characters and digits reads and writes single
    bytes: memory is a finite map from addresses to bytes, and an access outside
    it is undefined.  On it, the operations of src/bin/genfiles/string.c that
    copy, fill and search memory.  The allocation of the exception a failed
    argument test throws is not part of this memory. *)

From S2P Require Import Prelude RwLock Alloc Region RegionSafety Words FatPtr.

Abbreviation bytes := (gmap Z Z).
Abbreviation BM := (ST bytes).

Definition string_cyc : string := "string.cyc".

(** ** Accesses *)

Definition get_byte (a : Z) : BM Z := fun m => (load m a, m).

Definition put_byte (a v : Z) : BM unit :=
  m ← get; lift (load m a);; put (<[a := u8 v]> m).

Fixpoint read_bytes (p : Z) (k : nat) : BM (list Z) :=
  match k with
  | O => mret []
  | S k => d ← get_byte p; l ← read_bytes (p + 1) k; mret (d :: l)
  end.

Fixpoint write_bytes (p : Z) (l : list Z) : BM unit :=
  match l with
  | [] => mret tt
  | d :: l => put_byte p d;; write_bytes (p + 1) l
  end.

(** Newly allocated bytes. *)
Fixpoint zero_bytes (p : Z) (k : nat) (m : bytes) : bytes :=
  match k with O => m | S k => <[p := 0]> (zero_bytes (p + 1) k m) end.

(** ** The C library *)

Definition memmove (d s n : Z) : BM unit :=
  l ← read_bytes s (Z.to_nat n); write_bytes d l.

(** Undefined when the objects overlap. *)
Definition memcpy (d s n : Z) : BM unit :=
  if (n =? 0) || (d + n <=? s) || (s + n <=? d) then memmove d s n else lift Undef.

Definition memset (d c n : Z) : BM unit := write_bytes d (replicate (Z.to_nat n) (u8 c)).

(** The first of [n] bytes that is [c], or null. *)
Fixpoint memchr_loop (s c : Z) (k : nat) : BM Z :=
  match k with
  | O => mret 0
  | S k => d ← get_byte s; if d =? u8 c then mret s else memchr_loop (s + 1) c k
  end.
Definition memchr (s c n : Z) : BM Z := memchr_loop s c (Z.to_nat n).

(** ** The checked operations *)

Definition Cyc__memcpy (d s : fat_ptr) (n sz : Z) : BM fat_ptr :=
  if (curr d =? 0) || (_get_fat_size d 1 <? n) || (curr s =? 0) || (_get_fat_size s 1 <? n)
  then lift (Thrown Cyc_Core_Invalid_argument string_cyc 748)
  else
    pd ← lift (_untag_fat_ptr d 1 1 string_cyc 747);
    ps ← lift (_untag_fat_ptr s 1 1 string_cyc 747);
    memcpy pd ps (u32 (n * sz));; mret d.

Definition Cyc__memmove (d s : fat_ptr) (n sz : Z) : BM fat_ptr :=
  if (curr d =? 0) || (_get_fat_size d 1 <? n) || (curr s =? 0) || (_get_fat_size s 1 <? n)
  then lift (Thrown Cyc_Core_Invalid_argument string_cyc 755)
  else
    pd ← lift (_untag_fat_ptr d 1 1 string_cyc 754);
    ps ← lift (_untag_fat_ptr s 1 1 string_cyc 754);
    memmove pd ps (u32 (n * sz));; mret d.

Definition Cyc_memset (s : fat_ptr) (c n : Z) : BM fat_ptr :=
  if (curr s =? 0) || (_get_fat_size s 1 <? n)
  then lift (Thrown Cyc_Core_Invalid_argument string_cyc 792)
  else
    p ← lift (_untag_fat_ptr s 1 1 string_cyc 791);
    memset p c n;; mret s.

Definition Cyc_bzero (s : fat_ptr) (n : Z) : BM unit :=
  if (curr s =? 0) || (_get_fat_size s 1 <? n)
  then lift (Thrown Cyc_Core_Invalid_argument string_cyc 799)
  else
    p ← lift (_untag_fat_ptr s 1 1 string_cyc 798);
    memset p 0 n.

Definition Cyc__bcopy (src dst : fat_ptr) (n sz : Z) : BM unit :=
  if (curr src =? 0) || (_get_fat_size src 1 <? n) || (curr dst =? 0) || (_get_fat_size dst 1 <? n)
  then lift (Thrown Cyc_Core_Invalid_argument string_cyc 805)
  else
    ps ← lift (_untag_fat_ptr src 1 1 string_cyc 804);
    pd ← lift (_untag_fat_ptr dst 1 1 string_cyc 804);
    memmove pd ps (u32 (n * sz)).

(** The common body of [Cyc_memchr] and [Cyc_mmemchr], which differ in the
    constness of the result. *)
Definition memchr_body (s : fat_ptr) (c n throw_line call_line sub_line : Z) : BM fat_ptr :=
  if (curr s =? 0) || (_get_fat_size s 1 <? n)
  then lift (Thrown Cyc_Core_Invalid_argument string_cyc throw_line)
  else
    ps ← lift (_untag_fat_ptr s 1 1 string_cyc call_line);
    p ← memchr ps c n;
    if p =? 0 then mret (_tag_fat 0 0 0)
    else
      sval ← lift (_untag_fat_ptr s 1 1 string_cyc sub_line);
      let delta := u32 (p - sval) in
      mret (_fat_ptr_plus s 1 (i32 delta)).

Definition Cyc_memchr (s : fat_ptr) (c n : Z) : BM fat_ptr := memchr_body s c n 769 768 771.

Definition Cyc_mmemchr (s : fat_ptr) (c n : Z) : BM fat_ptr := memchr_body s c n 781 780 783.
