(* ===== verification/ByteMem.v ===== *)
(** * Reasoning about byte memory

    The contents of byte memory as lists of bytes, rules for the accesses and
    loops of compiled code, and the checked memory operations: within their
    arrays they do not throw and copy or fill exactly. *)

From S2P Require Import Prelude RwLock Alloc Region RegionSafety Words FatPtr CycBytes.

(** ** Memory contents *)

(** The bytes from [p] on are [l]. *)
Definition holds (m : bytes) (p : Z) (l : list Z) : Prop :=
  forall i d, l !! i = Some d -> m !! (p + Z.of_nat i) = Some d.

Definition byte_ok (d : Z) : Prop := 0 <= d < 256.

(** Writing [l] at [p]. *)
Fixpoint write (p : Z) (l : list Z) (m : bytes) : bytes :=
  match l with [] => m | d :: l => <[p := d]> (write (p + 1) l m) end.

(** The [n] bytes at [p] are allocated. *)
Definition room (m : bytes) (p n : Z) : Prop := forall a, p <= a < p + n -> is_Some (m !! a).

(** A fat pointer at [p] with at least [n] bytes from there on. *)
Record spans (f : fat_ptr) (p n : Z) : Prop := {
  sp_curr : curr f = p;
  sp_base : 0 <= base f <= p;
  sp_last : p + n <= last_plus_one f;
  sp_pos : 0 < p;
  sp_end : last_plus_one f < 4294967296
}.

(** Digits of a number in memory: readable through [f]. *)
Definition digits_of (m : bytes) (f : fat_ptr) (p : Z) (l : list Z) : Prop :=
  spans f p (Z.of_nat (length l)) /\ holds m p l /\ Forall byte_ok l.

(** [a] is outside the [n] bytes at [p]. *)
Definition outside (p n a : Z) : Prop := a < p \/ p + n <= a.

(** ** Contents *)

Lemma write_lookup p l m a : write p l m !! a =
  if decide (p <= a < p + Z.of_nat (length l)) then l !! Z.to_nat (a - p) else m !! a.
Proof.
  revert p. induction l as [|d l IH]; intros p; simpl.
  - case_decide; [lia|done].
  - rewrite lookup_insert, IH. destruct (decide (p = a)) as [->|Hne].
    + rewrite decide_True by lia. by rewrite Z.sub_diag.
    + destruct (decide (p + 1 <= a < _)) as [Ha|Ha].
      * rewrite decide_True by lia. replace (Z.to_nat (a - p)) with (S (Z.to_nat (a - (p + 1)))) by lia. done.
      * by rewrite decide_False by lia.
Qed.

Lemma write_out p l m a : outside p (Z.of_nat (length l)) a -> write p l m !! a = m !! a.
Proof. intros Ha. rewrite write_lookup, decide_False; [done|]. unfold outside in Ha. lia. Qed.

Lemma write_in p l m : holds (write p l m) p l.
Proof.
  intros i d Hd. pose proof (lookup_lt_Some _ _ _ Hd). rewrite write_lookup, decide_True by lia.
  by replace (Z.to_nat (p + Z.of_nat i - p)) with i by lia.
Qed.

Lemma write_snoc p l d m : write p (l ++ [d]) m = <[p + Z.of_nat (length l) := d]> (write p l m).
Proof.
  revert p. induction l as [|e l IH]; intros p; simpl; [by rewrite Z.add_0_r|].
  rewrite IH. replace (p + 1 + Z.of_nat (length l)) with (p + Z.pos (Pos.of_succ_nat (length l))) by lia.
  apply insert_insert_ne. lia.
Qed.

Lemma write_app p l1 l2 m : write p (l1 ++ l2) m = write (p + Z.of_nat (length l1)) l2 (write p l1 m).
Proof.
  apply map_eq. intros a. rewrite !write_lookup, length_app.
  destruct (decide (p + Z.of_nat (length l1) <= a < p + Z.of_nat (length l1) + Z.of_nat (length l2))).
  - rewrite decide_True by lia. rewrite lookup_app_r by lia. f_equal. lia.
  - destruct (decide (p <= a < p + Z.of_nat (length l1))).
    + rewrite decide_True by lia. by rewrite lookup_app_l by lia.
    + by rewrite decide_False by lia.
Qed.

Lemma write_insert p l k d m : (k < length l)%nat -> write p (<[k := d]> l) m = <[p + Z.of_nat k := d]> (write p l m).
Proof.
  intros Hk. apply map_eq. intros a. rewrite write_lookup, length_insert, lookup_insert, write_lookup.
  destruct (decide (p + Z.of_nat k = a)) as [<-|Hne].
  - rewrite decide_True by lia. replace (Z.to_nat _) with k by lia. by apply list_lookup_insert_eq.
  - case_decide; [|done]. apply list_lookup_insert_ne. lia.
Qed.

Lemma write_write p l1 l2 m : length l1 = length l2 -> write p l1 (write p l2 m) = write p l1 m.
Proof.
  intros Hl. apply map_eq. intros a. rewrite !write_lookup, Hl. by case_decide.
Qed.

Lemma holds_write p l q k m : holds m p l -> (forall a, p <= a < p + Z.of_nat (length l) -> outside q (Z.of_nat (length k)) a) ->
  holds (write q k m) p l.
Proof.
  intros Hm Ho i d Hd. pose proof (lookup_lt_Some _ _ _ Hd). rewrite write_out; [by apply Hm|]. apply Ho. lia.
Qed.

Lemma holds_same m p l : holds m p l -> write p l m = m.
Proof.
  intros Hm. apply map_eq. intros a. rewrite write_lookup. case_decide as Ha; [|done].
  destruct (lookup_lt_is_Some_2 l (Z.to_nat (a - p))) as [d Hd]; [lia|]. rewrite Hd. symmetry.
  apply Hm in Hd. by replace (p + Z.of_nat (Z.to_nat (a - p))) with a in Hd by lia.
Qed.

Lemma holds_app m p l1 l2 : holds m p (l1 ++ l2) <-> holds m p l1 /\ holds m (p + Z.of_nat (length l1)) l2.
Proof.
  split.
  - intros Hm. split; intros i d Hd; [apply Hm; by apply lookup_app_l_Some|].
    rewrite <- Z.add_assoc, <- Nat2Z.inj_add. apply Hm. rewrite lookup_app_r by lia. by rewrite Nat.add_comm, Nat.add_sub.
  - intros [H1 H2] i d [Hd|[Hle Hd]]%lookup_app_Some; [by apply H1|]. apply H2 in Hd.
    by replace (p + Z.of_nat (length l1) + Z.of_nat (i - length l1)) with (p + Z.of_nat i) in Hd by lia.
Qed.

Lemma holds_sub m p l k n : holds m p l -> holds m (p + Z.of_nat k) (take n (drop k l)).
Proof.
  intros Hm i d Hd. apply lookup_take_Some in Hd as [Hd Hi]. rewrite lookup_drop in Hd. apply Hm in Hd.
  by rewrite Nat2Z.inj_add, Z.add_assoc in Hd.
Qed.

Lemma holds_room m p l : holds m p l -> room m p (Z.of_nat (length l)).
Proof.
  intros Hm a Ha. destruct (lookup_lt_is_Some_2 l (Z.to_nat (a - p))) as [d Hd]; [lia|]. exists d. apply Hm in Hd.
  by replace (p + Z.of_nat (Z.to_nat (a - p))) with a in Hd by lia.
Qed.

(** Every allocated range has some contents. *)
Lemma room_holds m p (k : nat) : room m p (Z.of_nat k) -> exists l, length l = k /\ holds m p l.
Proof.
  revert p. induction k as [|k IH]; intros p Hr; [by exists []|].
  destruct (Hr p) as [d Hd]; [lia|]. destruct (IH (p + 1)) as (l & <- & Hl); [intros a Ha; apply Hr; lia|].
  exists (d :: l). split; [done|]. intros [|i] e He; simplify_eq/=; [by rewrite Z.add_0_r|].
  apply Hl in He. by replace (p + Z.of_nat (S i)) with (p + 1 + Z.of_nat i) by lia.
Qed.

Lemma room_write m p n q l : room m p n -> room (write q l m) p n.
Proof.
  intros Hr a Ha. rewrite write_lookup. case_decide; [apply lookup_lt_is_Some; lia|by apply Hr].
Qed.

Lemma room_sub m p n q k : room m p n -> p <= q -> q + k <= p + n -> room m q k.
Proof. intros Hr ? ? a Ha. apply Hr. lia. Qed.

(** A fat pointer made from an array of [n] bytes. *)
Lemma tag_spans p n : 0 < p -> 0 <= n -> p + n < 4294967296 -> spans (_tag_fat p 1 n) p n.
Proof.
  intros Hp Hn He. unfold _tag_fat. rewrite (proj2 (Z.eqb_neq p 0)), (u32_small n), u32_small by lia. split; simpl; lia.
Qed.

Lemma spans_sub f p n k : spans f p n -> k <= n -> spans f p k.
Proof. intros [? ? ? ? ?] ?. split; lia || done. Qed.

Lemma spans_plus f p n k : spans f p n -> 0 <= k <= n -> k < 2147483648 -> spans (_fat_ptr_plus f 1 k) (p + k) (n - k).
Proof.
  intros [Hc Hb Hl Hp He] Hk Hi. unfold _fat_ptr_plus. rewrite i32_small by lia. split; simpl; try lia.
  rewrite u32_small; lia.
Qed.

Lemma u8_ok x : byte_ok (u8 x).
Proof. unfold byte_ok. words. Qed.
Lemma u8_small x : byte_ok x -> u8 x = x.
Proof. unfold byte_ok. words. Qed.

(** ** Accesses *)

(** No exception is allowed. *)
Abbreviation returns c Q m := (wp c Q (fun (_ : exn) (_ : bytes) => False) m).

Lemma wp_assert {S} (b : bool) msg (Q : unit -> S -> Prop) E s : b = true -> Q tt s -> wp (lift (cassert b msg)) Q E s.
Proof. by intros ->. Qed.

Lemma wp_get_byte a v (Q : Z -> bytes -> Prop) E m : m !! a = Some v -> Q v m -> wp (get_byte a) Q E m.
Proof. intros Ha HQ. eapply wp_run; [|exact HQ]. unfold get_byte, load. by rewrite Ha. Qed.

Lemma wp_put_byte a v (Q : unit -> bytes -> Prop) E m : is_Some (m !! a) -> Q tt (<[a := u8 v]> m) -> wp (put_byte a v) Q E m.
Proof.
  intros [u Ha] HQ. unfold put_byte. apply wp_bind, wp_get, wp_bind. unfold load. rewrite Ha. by apply wp_lift.
Qed.

Lemma spans_check f p n i file line : spans f p n -> 0 <= i < n -> _check_fat_subscript f 1 i file line = Ret (p + i).
Proof.
  intros [Hc Hb Hl Hp He] Hi. apply check_fat_subscript_Ret. rewrite Hc, u32_small by lia. lia.
Qed.

Lemma spans_size f p n : spans f p n -> 0 < n -> n <= _get_fat_size f 1.
Proof.
  intros [Hc Hb Hl Hp He] Hn. unfold _get_fat_size. rewrite Hc. destruct (_ || _) eqn:E; [lia|].
  rewrite Z.div_1_r, u32_small; lia.
Qed.

Lemma spans_all f p n : spans f p n -> 0 < n -> spans f p (_get_fat_size f 1).
Proof.
  intros [Hc Hb Hl Hp He] Hn. split; try done. unfold _get_fat_size. rewrite Hc. destruct (_ || _) eqn:E; [lia|].
  rewrite Z.div_1_r, u32_small; lia.
Qed.

Lemma spans_untag f p n file line : spans f p n -> 0 < n -> _untag_fat_ptr f 1 1 file line = Ret p.
Proof.
  intros [Hc Hb Hl Hp He] Hn. unfold _untag_fat_ptr. rewrite Hc, u32_small by lia. destruct (_ && _) eqn:E; [lia|done].
Qed.

Lemma wp_read_bytes p l (Q : list Z -> bytes -> Prop) E m : holds m p l -> Q l m -> wp (read_bytes p (length l)) Q E m.
Proof.
  revert p Q. induction l as [|d l IH]; intros p Q Hm HQ; [done|]. simpl. apply wp_bind, (wp_get_byte p d).
  { rewrite <- (Z.add_0_r p). by apply (Hm 0%nat). }
  apply wp_bind, IH; [|done]. apply (holds_app m p [d] l) in Hm. apply Hm.
Qed.

Lemma wp_write_bytes p l (Q : unit -> bytes -> Prop) E m : room m p (Z.of_nat (length l)) -> Forall byte_ok l ->
  Q tt (write p l m) -> wp (write_bytes p l) Q E m.
Proof.
  revert p m Q. induction l as [|d l IH]; intros p m Q Hr Hl HQ; [done|]. simpl. inversion_clear Hl as [|? ? Hd Hl'].
  apply wp_bind, wp_put_byte; [apply Hr; simpl; lia|]. rewrite u8_small by done. apply IH; [|done|].
  - intros a Ha. rewrite lookup_insert_ne by lia. apply Hr. simpl. lia.
  - simpl in HQ. replace (write (p + 1) l (<[p := d]> m)) with (<[p := d]> (write (p + 1) l m)); [done|].
    apply map_eq. intros a. rewrite lookup_insert, !write_lookup, lookup_insert. repeat case_decide; done || lia.
Qed.

(** ** Memory operations *)

Lemma memset_spec f p k n c (Q : fat_ptr -> bytes -> Prop) E m : spans f p k -> 0 < k -> 0 <= n <= k -> room m p n ->
  Q f (write p (replicate (Z.to_nat n) (u8 c)) m) -> wp (Cyc_memset f c n) Q E m.
Proof.
  intros Hf Hk Hn Hr HQ. unfold Cyc_memset. pose proof (sp_pos _ _ _ Hf). pose proof (sp_curr _ _ _ Hf).
  pose proof (spans_size f p k Hf Hk). destruct (_ || _) eqn:E2; [lia|].
  rewrite (spans_untag f p k) by done. apply wp_bind, wp_lift, wp_bind, wp_write_bytes.
  - rewrite length_replicate. by rewrite Z2Nat.id by lia.
  - apply Forall_replicate, u8_ok.
  - done.
Qed.

Lemma memcpy_spec d s p q l (Q : fat_ptr -> bytes -> Prop) E m : let n := Z.of_nat (length l) in
  spans d p n -> spans s q n -> 0 < n -> p + n <= q \/ q + n <= p -> room m p n -> holds m q l -> Forall byte_ok l ->
  Q d (write p l m) -> wp (Cyc__memcpy d s n 1) Q E m.
Proof.
  intros n Hd Hs Hn Hov Hr Hm Hl HQ. unfold Cyc__memcpy. pose proof (sp_pos _ _ _ Hd). pose proof (sp_curr _ _ _ Hd).
  pose proof (sp_pos _ _ _ Hs). pose proof (sp_curr _ _ _ Hs).
  pose proof (spans_size d p n Hd Hn). pose proof (spans_size s q n Hs Hn). destruct (_ || _ || _ || _) eqn:E2; [lia|].
  rewrite (spans_untag d p n), (spans_untag s q n) by done. apply wp_bind, wp_lift, wp_bind, wp_lift, wp_bind.
  pose proof (sp_last _ _ _ Hd). pose proof (sp_end _ _ _ Hd). rewrite Z.mul_1_r, u32_small by lia.
  unfold memcpy. destruct ((n =? 0) || (p + n <=? q) || (q + n <=? p)) eqn:E3; [|lia]. unfold memmove, n. rewrite Nat2Z.id.
  apply wp_bind, wp_read_bytes; [done|]. by apply wp_write_bytes.
Qed.
