(* ===== verification/CycXP.v ===== *)
(** * Multiple-precision arithmetic

    Models src/bin/genfiles/xp.c: unsigned numbers as arrays of base-256 digits,
    least significant first.  It underlies the signed numbers with which the
    compiler's solver for array bounds computes.  The digits are bytes in the
    memory of CycBytes.v; every access is the checked access of the source, at
    its line.  [int] arithmetic truncates ([Z.quot], [Z.rem]); [unsigned] wraps. *)

From S2P Require Import Prelude RwLock Alloc Region RegionSafety Words FatPtr CycBytes.

Definition xp_cyc : string := "xp.cyc".

(** ** Digits and loops *)

(** [x[i]] and [z[i] = v] *)
Definition digit (x : fat_ptr) (i line : Z) : BM Z :=
  a ← lift (_check_fat_subscript x 1 i xp_cyc line); get_byte a.

Definition set_digit (z : fat_ptr) (i v line : Z) : BM unit :=
  a ← lift (_check_fat_subscript z 1 i xp_cyc line); put_byte a v.

(** [for (i = lo; i < n; ++i) acc = body(i, acc)] *)
Definition for_up {A} (lo n : Z) (body : Z -> A -> BM A) (acc : A) : BM A :=
  loop (S (Z.to_nat (n - lo))) (fun '(i, acc) =>
    if i <? n then acc' ← body i acc; mret (inl (i + 1, acc')) else mret (inr acc)) (lo, acc).

(** [for (i = hi; i >= lo; --i) acc = body(i, acc)] *)
Definition for_down {A} (hi lo : Z) (body : Z -> A -> BM A) (acc : A) : BM A :=
  loop (S (Z.to_nat (hi - lo + 1))) (fun '(i, acc) =>
    if lo <=? i then acc' ← body i acc; mret (inl (i - 1, acc')) else mret (inr acc)) (hi, acc).

(** [carry += t; z[i] = carry % BASE; carry /= BASE], with [int] and with
    [unsigned] carries. *)
Definition put_carry (z : fat_ptr) (i c line : Z) : BM Z :=
  set_digit z i (Z.rem c 256) line;; mret (Z.quot c 256).

Definition put_ucarry (z : fat_ptr) (i c line : Z) : BM Z :=
  set_digit z i (c mod 256) line;; mret (c / 256).

(** ** Conversion from and to machine integers *)

Definition Cyc_XP_fromint (n : Z) (z : fat_ptr) (u : Z) : BM Z :=
  '(i, u) ← loop 5 (fun '(i, u) =>
    set_digit z i (u mod 256) 20;;
    let i := i + 1 in let u := u / 256 in
    if (0 <? u) && (i <? n) then mret (inl (i, u)) else mret (inr (i, u))) (0, u);
  for_up i n (fun i _ => set_digit z i 0 23) tt;;
  mret u.

Definition Cyc_XP_toint (n : Z) (x : fat_ptr) : BM Z :=
  let i := if n <? 4 then n else 4 in
  for_down (i - 1) 0 (fun i u => d ← digit x i 32; mret (u32 (256 * u + d))) 0.

(** ** Significant digits *)

(** [while (n > 1 && x[n-1] == 0) --n;] *)
Definition trim (n : Z) (x : fat_ptr) (line : Z) : BM Z :=
  loop (S (Z.to_nat n)) (fun n =>
    if 1 <? n then
      d ← digit x (n - 1) line;
      if d =? 0 then mret (inl (n - 1)) else mret (inr n)
    else mret (inr n)) n.

Definition Cyc_XP_length (n : Z) (x : fat_ptr) : BM Z := trim n x 36.

(** ** Addition and subtraction *)

Definition Cyc_XP_add (n : Z) (z x y : fat_ptr) (carry : Z) : BM Z :=
  for_up 0 n (fun i carry =>
    a ← digit x i 43; b ← digit y i 43;
    put_carry z i (i32 (carry + (a + b))) 44) carry.

Definition Cyc_XP_sub (n : Z) (z x y : fat_ptr) (borrow : Z) : BM Z :=
  for_up 0 n (fun i borrow =>
    a ← digit x i 52; b ← digit y i 52;
    let d := i32 (a + 256 - borrow - b) in
    set_digit z i (Z.rem d 256) 53;; mret (1 - Z.quot d 256)) borrow.

Definition Cyc_XP_sum (n : Z) (z x : fat_ptr) (y : Z) : BM Z :=
  for_up 0 n (fun i y => a ← digit x i 61; put_carry z i (i32 (y + a)) 62) y.

Definition Cyc_XP_diff (n : Z) (z x : fat_ptr) (y : Z) : BM Z :=
  for_up 0 n (fun i y =>
    a ← digit x i 70;
    let d := i32 (a + 256 - y) in
    set_digit z i (Z.rem d 256) 71;; mret (1 - Z.quot d 256)) y.

(** The complement is that of an [int]. *)
Definition Cyc_XP_neg (n : Z) (z x : fat_ptr) (carry : Z) : BM Z :=
  for_up 0 n (fun i carry => a ← digit x i 79; put_carry z i (i32 (carry + Z.lnot a)) 80) carry.

(** ** Multiplication and division *)

Definition Cyc_XP_mul (z : fat_ptr) (n : Z) (x : fat_ptr) (m : Z) (y : fat_ptr) : BM Z :=
  for_up 0 n (fun i carryout =>
    carry ← for_up 0 m (fun j carry =>
      a ← digit x i 90; b ← digit y j 90; c ← digit z (i + j) 90;
      put_ucarry z (i + j) (u32 (carry + u32 (a * b + c))) 91) 0;
    carry ← for_up (Z.max 0 m) (n + m - i) (fun j carry =>
      c ← digit z (i + j) 95;
      put_ucarry z (i + j) (u32 (carry + c)) 96) carry;
    mret (i32 (Z.lor (u32 carryout) carry))) 0.

Definition Cyc_XP_product (n : Z) (z x : fat_ptr) (y : Z) : BM Z :=
  carry ← for_up 0 n (fun i carry =>
    a ← digit x i 107; put_ucarry z i (u32 (carry + u32 (i32 (a * y)))) 108) 0;
  mret (i32 carry).

Definition Cyc_XP_quotient (n : Z) (z x : fat_ptr) (y : Z) : BM Z :=
  carry ← for_down (n - 1) 0 (fun i carry =>
    a ← digit x i 177;
    let c := u32 (carry * 256 + a) in
    if u32 y =? 0 then lift Undef
    else set_digit z i (c / u32 y) 178;; mret (c mod u32 y)) 0;
  mret (i32 carry).

(** One digit of a quotient: the estimate from the three leading digits of the
    remainder and the two of the divisor, ... *)
Definition estimate (m k : Z) (rem y : fat_ptr) : BM Z :=
  let km := k + m in
  a ← digit y (m - 1) 140; b ← digit y (m - 2) 140;
  let y2 := u32 (a * 256 + b) in
  a ← digit rem km 141; b ← digit rem (km - 1) 141; c ← digit rem (km - 2) 141;
  let r3 := u32 (a * 65536 + b * 256 + c) in
  if y2 =? 0 then lift Undef
  else
    let qk := i32 (r3 / y2) in
    mret (if 256 <=? qk then 255 else qk).

(** ... and the test whether the product [dq] of the estimate and the divisor
    exceeds the remainder: the first digit in which they differ decides. *)
Definition exceeds (m k : Z) (rem dq : fat_ptr) : BM bool :=
  i ← loop (S (Z.to_nat m)) (fun i =>
    if 0 <? i then
      a ← digit rem (i + k) 149; b ← digit dq i 149;
      if a =? b then mret (inl (i - 1)) else mret (inr i)
    else mret (inr i)) m;
  a ← digit rem (i + k) 151; b ← digit dq i 151; mret (a <? b).

(** The body of the loop of [Cyc_XP_div] over the digits of the quotient. *)
Definition quotient_digit (n m k : Z) (q rem y dq : fat_ptr) : BM unit :=
  lift (cassert ((2 <=? m) && (m <=? k + m) && (k + m <=? n)) "2 <= m && m <= k+m && k+m <= n");;
  qk ← estimate m k rem y;
  c ← Cyc_XP_product m dq y qk; set_digit dq m c 147;;
  e ← exceeds m k rem dq;
  qk ← (if e : bool then
          c ← Cyc_XP_product m dq y (i32 (qk - 1)); put_byte (u32 (curr dq + m)) c;; mret (i32 (qk - 1))
        else mret qk);
  set_digit q k qk 154;;
  lift (cassert ((0 <=? k) && (k <=? k + m)) "0 <= k && k <= k+m");;
  borrow ← Cyc_XP_sub (m + 1) (_fat_ptr_plus rem 1 k) (_fat_ptr_plus rem 1 k) dq 0;
  lift (cassert (borrow =? 0) "borrow == 0").

(** The last branch of [Cyc_XP_div], long division. *)
Definition long_division (nx my n m : Z) (q x y r tmp : fat_ptr) : BM unit :=
  let rem := tmp in
  let dq := _fat_ptr_plus (_fat_ptr_plus tmp 1 n) 1 1 in
  lift (cassert ((2 <=? m) && (m <=? n)) "2 <= m && m <= n");;
  Cyc__memcpy rem x (u32 n) 1;;
  set_digit rem n 0 132;;
  for_down (n - m) 0 (fun k _ => quotient_digit n m k q rem y dq) tt;;
  Cyc__memcpy r rem (u32 m) 1;;
  for_up (n - m + 1) nx (fun i _ => set_digit q i 0 166) tt;;
  for_up m my (fun i _ => set_digit r i 0 168) tt.

Definition Cyc_XP_div (n : Z) (q x : fat_ptr) (m : Z) (y r tmp : fat_ptr) : BM Z :=
  let nx := n in let my := m in
  n ← Cyc_XP_length n x;
  m ← Cyc_XP_length m y;
  if m =? 1 then
    y0 ← digit y 0 118;
    if y0 =? 0 then mret 0
    else
      d ← get_byte (curr y);
      c ← Cyc_XP_quotient nx q x d; set_digit r 0 c 118;;
      (if 1 <? _get_fat_size r 1 then Cyc_memset (_fat_ptr_plus r 1 1) 0 (u32 (my - 1));; mret tt else mret tt);;
      mret 1
  else if n <? m then
    Cyc_memset q 0 (u32 nx);;
    Cyc__memcpy r x (u32 n) 1;;
    Cyc_memset (_fat_ptr_plus r 1 n) 0 (u32 (my - n));;
    mret 1
  else long_division nx my n m q x y r tmp;; mret 1.

(** ** Comparison, shifts and bits *)

Definition Cyc_XP_cmp (n : Z) (x y : fat_ptr) : BM Z :=
  i ← loop (S (Z.to_nat n)) (fun i =>
    if 0 <? i then
      a ← digit x i 185; b ← digit y i 185;
      if a =? b then mret (inl (i - 1)) else mret (inr i)
    else mret (inr i)) (n - 1);
  a ← digit x i 187; b ← digit y i 187; mret (a - b).

Definition Cyc_XP_lshift (n : Z) (z : fat_ptr) (m : Z) (x : fat_ptr) (s fill : Z) : BM unit :=
  let fill := if fill =? 0 then 0 else 255 in
  let i := if m <? n then m - 1 else n - Z.quot s 8 - 1 in
  j ← for_down (n - 1) (m + Z.quot s 8) (fun j _ => set_digit z j 0 198;; mret (j - 1)) (n - 1);
  j ← for_down i 0 (fun i j => d ← digit x i 200; set_digit z j d 200;; mret (j - 1)) j;
  for_down j 0 (fun j _ => set_digit z j fill 202) tt;;
  let s := Z.rem s 8 in
  if 0 <? s then
    Cyc_XP_product n z z (Z.shiftl 1 s);;
    d ← digit z 0 208; set_digit z 0 (Z.lor d (Z.shiftr fill (8 - s))) 208
  else mret tt.

Definition Cyc_XP_rshift (n : Z) (z : fat_ptr) (m : Z) (x : fat_ptr) (s fill : Z) : BM unit :=
  let fill := if fill =? 0 then 0 else 255 in
  j ← loop (S (Z.to_nat n)) (fun '(i, j) =>
    if (i <? m) && (j <? n) then
      d ← digit x i 216; set_digit z j d 216;; mret (inl (i + 1, j + 1))
    else mret (inr j)) (Z.quot s 8, 0);
  for_up j n (fun j _ => set_digit z j fill 218) tt;;
  let s := Z.rem s 8 in
  if 0 <? s then
    Cyc_XP_quotient n z z (Z.shiftl 1 s);;
    d ← digit z (n - 1) 224; set_digit z (n - 1) (Z.lor d (Z.shiftl fill (8 - s))) 224
  else mret tt.

Definition Cyc_XP_and (n : Z) (z x y : fat_ptr) : BM unit :=
  for_up 0 n (fun i _ => a ← digit x i 230; b ← digit y i 230; set_digit z i (Z.land a b) 230) tt.

Definition Cyc_XP_or (n : Z) (z x y : fat_ptr) : BM unit :=
  for_up 0 n (fun i _ => a ← digit x i 235; b ← digit y i 235; set_digit z i (Z.lor a b) 235) tt.

Definition Cyc_XP_xor (n : Z) (z x y : fat_ptr) : BM unit :=
  for_up 0 n (fun i _ => a ← digit x i 240; b ← digit y i 240; set_digit z i (Z.lxor a b) 240) tt.

Definition Cyc_XP_not (n : Z) (z x : fat_ptr) : BM unit :=
  for_up 0 n (fun i _ => a ← digit x i 245; set_digit z i (Z.lnot a) 245) tt.

(** ** Conversion from and to strings *)

(** A byte as a [char]. *)
Definition schar (d : Z) : Z := if d <? 128 then d else d - 256.

(** The tests of the C locale. *)
Definition isspace (c : Z) : bool := (c =? 32) || ((9 <=? c) && (c <=? 13)).
Definition isalnum (c : Z) : bool :=
  ((48 <=? c) && (c <=? 57)) || ((65 <=? c) && (c <=? 90)) || ((97 <=? c) && (c <=? 122)).

(** The values of the characters from '0' to 'z' as digits; 36 for those that are
    none. *)
Definition Cyc_map : list Z :=
  seqZ 0 10 ++ replicate 7 36 ++ seqZ 10 26 ++ replicate 6 36 ++ seqZ 10 26.

Definition map_at (c line : Z) : out Z :=
  i ← _check_known_subscript_notnull 0 75 1 (c - 48) xp_cyc line;
  match Cyc_map !! Z.to_nat i with Some v => Ret v | None => Undef end.

(** ["0123456789ABCDEFGHIJKLMNOPQRSTUVWXYZ"] with its zero. *)
Definition Cyc_digits : list Z := seqZ 48 10 ++ seqZ 65 26 ++ [0].

Definition digits_at (r line : Z) : out Z :=
  if (0 <=? r) && (r <? 37) then
    match Cyc_digits !! Z.to_nat r with Some v => Ret v | None => Undef end
  else Thrown Cyc_Array_bounds xp_cyc line.

(** [*p && isalnum( *p ) && map[*p - '0'] < base] *)
Definition is_digit (p base line : Z) : BM bool :=
  c ← get_byte p;
  if (c =? 0) || negb (isalnum (schar c)) then mret false
  else v ← lift (map_at (schar c) line); mret (v <? base).

(** Skips white space. *)
Definition skip_space (p : Z) : BM Z :=
  m ← get;
  loop (S (size m)) (fun p =>
    p ← lift (_check_null p xp_cyc 252);
    c ← get_byte p;
    if negb (c =? 0) && isspace (schar c) then mret (inl (u32 (p + 1))) else mret (inr p)) p.

Definition Cyc_XP_fromstr (n : Z) (z : fat_ptr) (str base : Z) : BM Z :=
  lift (cassert (negb (str =? 0)) "p");;
  lift (cassert ((2 <=? base) && (base <=? 36)) "base >= 2 && base <= 36");;
  p ← skip_space str;
  b ← is_digit p base 254;
  if b : bool then
    m ← get;
    c ← loop (S (size m)) (fun '(p, carry) =>
      p ← lift (_check_null p xp_cyc 256);
      b ← is_digit p base 256;
      if b : bool then
        carry ← Cyc_XP_product n z z base;
        if negb (carry =? 0) then mret (inr (Some carry))
        else
          c ← get_byte p; v ← lift (map_at (schar c) 258);
          Cyc_XP_sum n z z v;; mret (inl (u32 (p + 1), Some carry))
      else mret (inr carry)) (p, None);
    match c with Some c => mret c | None => lift Undef end
  else mret 0.

(** [*p = v] through a zero-terminated fat pointer: its last byte, when zero,
    cannot be overwritten.  [v] is evaluated after [*p]. *)
Definition put_char (p : fat_ptr) (v : BM Z) (line : Z) : BM unit :=
  old ← digit p 0 line;
  new ← v;
  if (_get_fat_size p 1 =? 1) && (old =? 0) && negb (new =? 0)
  then lift (Thrown Cyc_Array_bounds xp_cyc line)
  else put_byte (curr p) new.

(** The digits of the quotients, least significant first; the number of them. *)
Definition put_digits (str : fat_ptr) (size base n : Z) (x : fat_ptr) : BM Z :=
  loop (S (Z.to_nat (8 * n))) (fun '(i, n) =>
    r ← Cyc_XP_quotient n x x base;
    lift (cassert (i <? size) "i < size");;
    put_char (_fat_ptr_plus str 1 i) (lift (digits_at r 275)) 275;;
    n ← trim n x 276;
    c ← (if 1 <? n then mret true else d ← digit x 0 278; mret (negb (d =? 0)));
    if c : bool then mret (inl (i + 1, n)) else mret (inr (i + 1))) (0, n).

(** [for (j = 0; j < --i; ++j)] exchanges [str[j]] and [str[i]]. *)
Definition reverse_chars (str : fat_ptr) (i : Z) : BM unit :=
  loop (S (Z.to_nat i)) (fun '(i, j) =>
    let i := i - 1 in
    if j <? i then
      c ← digit str j 284;
      put_char (_fat_ptr_plus str 1 j) (digit str i 285) 285;;
      put_char (_fat_ptr_plus str 1 i) (mret c) 286;;
      mret (inl (i, j + 1))
    else mret (inr tt)) (i, 0).

Definition Cyc_XP_tostr (str : fat_ptr) (size base n : Z) (x : fat_ptr) : BM fat_ptr :=
  lift (cassert (negb (curr str =? 0)) "str");;
  lift (cassert ((2 <=? base) && (base <=? 36)) "base >= 2 && base <= 36");;
  i ← put_digits str size base n x;
  lift (cassert (i <? size) "i < size");;
  put_char (_fat_ptr_plus str 1 i) (mret 0) 280;;
  reverse_chars str i;;
  mret str.
