(* ===== verification/XPSpec.v ===== *)
(** * Multiple-precision numbers and their routines

    The number that a list of digits denotes, and the specifications of the
    routines that work digit by digit. *)

From S2P Require Import Prelude RwLock Alloc Region RegionSafety Words FatPtr CycBytes ByteMem CycXP.

(** ** Numbers as lists of digits, and loops over digits

    The number of a list of base-256 digits, least significant first; rules for
    the counting loops of xp.c; and the common shape of its routines: a pass over
    the digits from the least significant one, which writes one digit at a step
    and hands on a carry.  The result may overwrite an operand, as the callers
    do, provided it does not run ahead of the digits still to be read. *)

(** ** The number of a list of digits *)

Fixpoint num (l : list Z) : Z := match l with [] => 0 | d :: l => d + 256 * num l end.

(** The weight of digit [k]. *)
Definition weight (k : nat) : Z := 256 ^ Z.of_nat k.

Lemma weight_0 : weight 0 = 1.
Proof. done. Qed.
Lemma weight_S k : weight (S k) = 256 * weight k.
Proof. unfold weight. by rewrite Nat2Z.inj_succ, Z.pow_succ_r by lia. Qed.
Lemma weight_pos k : 0 < weight k.
Proof. unfold weight. apply Z.pow_pos_nonneg; lia. Qed.
Lemma weight_add j k : weight (j + k) = weight j * weight k.
Proof. unfold weight. by rewrite Nat2Z.inj_add, Z.pow_add_r by lia. Qed.

Lemma num_app l1 l2 : num (l1 ++ l2) = num l1 + weight (length l1) * num l2.
Proof. induction l1 as [|d l IH]; simpl length; simpl; [rewrite weight_0; lia|]. rewrite IH, weight_S. lia. Qed.

Lemma num_snoc l d : num (l ++ [d]) = num l + weight (length l) * d.
Proof. rewrite num_app. simpl. lia. Qed.

Lemma num_bound l : Forall byte_ok l -> 0 <= num l < weight (length l).
Proof.
  unfold byte_ok. induction 1 as [|d l Hd Hl IH]; simpl length; simpl; [rewrite weight_0; lia|].
  rewrite weight_S. lia.
Qed.

Lemma num_zeros k : num (replicate k 0) = 0.
Proof. induction k as [|k IH]; simpl; lia. Qed.

Lemma num_take_S l i d : l !! i = Some d -> num (take (S i) l) = num (take i l) + weight i * d.
Proof.
  intros Hd. pose proof (lookup_lt_Some _ _ _ Hd). rewrite (take_S_r _ _ _ Hd), num_snoc, length_take.
  by rewrite Nat.min_l by lia.
Qed.

Lemma num_drop_S l i d : l !! i = Some d -> num (drop i l) = d + 256 * num (drop (S i) l).
Proof. intros Hd. by rewrite (drop_S _ _ _ Hd). Qed.

Lemma num_split l k : (k <= length l)%nat -> num l = num (take k l) + weight k * num (drop k l).
Proof.
  intros Hk. rewrite <- (take_drop k l) at 1. by rewrite num_app, length_take, Nat.min_l.
Qed.

Lemma num_insert l k v d : l !! k = Some v -> num (<[k := d]> l) = num l + weight k * (d - v).
Proof.
  revert k. induction l as [|e l IH]; intros [|k] Hv; simplify_eq/=; [rewrite weight_0; lia|].
  rewrite IH, weight_S by done. lia.
Qed.

(** A small number is in the low digits. *)
Lemma num_low l k : Forall byte_ok l -> (k <= length l)%nat -> num l < weight k -> num (take k l) = num l.
Proof.
  intros Hb Hk Hlt. rewrite (num_split l k) in * by done. pose proof (num_bound _ (Forall_take _ k _ Hb)) as H1.
  pose proof (num_bound _ (Forall_drop _ k _ Hb)) as H2. pose proof (weight_pos k).
  assert (num (drop k l) < 1) by (apply (Z.mul_lt_mono_pos_l (weight k)); lia).
  replace (num (drop k l)) with 0 by lia. lia.
Qed.

(** Lists of one length with the same number are equal. *)
Lemma num_inj l1 l2 : Forall byte_ok l1 -> Forall byte_ok l2 -> length l1 = length l2 -> num l1 = num l2 -> l1 = l2.
Proof.
  intros H1. revert l2. unfold byte_ok in *. induction H1 as [|d l Hd Hl IH]; intros [|e l2] H2 Hlen; try done.
  simpl. inversion_clear H2. intros Hn. assert (d = e) as -> by lia. f_equal. apply IH; [done|simpl in Hlen; lia|lia].
Qed.

(** ** Counting loops *)

Lemma wp_for_up {A} lo n body (I : Z -> A -> bytes -> Prop) (acc : A) Q E m :
  lo <= n -> I lo acc m ->
  (forall i acc m, lo <= i < n -> I i acc m -> wp (body i acc) (fun acc' m' => I (i + 1) acc' m') E m) ->
  (forall acc m, I n acc m -> Q acc m) ->
  wp (for_up lo n body acc) Q E m.
Proof.
  intros Hn H0 Hs HQ. unfold for_up.
  apply (wp_loop _ (fun k '(i, acc) m => k = Z.to_nat (n - i) /\ lo <= i <= n /\ I i acc m) _ _ _) with (Z.to_nat (n - lo)); [|split_and!; try done; lia|lia].
  clear H0 acc m. intros k [i acc] m (-> & Hi & HI). destruct (i <? n) eqn:E1.
  - apply wp_bind. eapply wp_mono; [apply Hs; [lia|exact HI]| |done]. intros acc' m' HI'. apply wp_ret.
    exists (Z.to_nat (n - (i + 1))). split_and!; try done; lia.
  - apply wp_ret, HQ. by replace n with i by lia.
Qed.

Lemma wp_for_down {A} hi lo body (I : Z -> A -> bytes -> Prop) (acc : A) Q E m :
  lo - 1 <= hi -> I hi acc m ->
  (forall i acc m, lo <= i <= hi -> I i acc m -> wp (body i acc) (fun acc' m' => I (i - 1) acc' m') E m) ->
  (forall acc m, I (lo - 1) acc m -> Q acc m) ->
  wp (for_down hi lo body acc) Q E m.
Proof.
  intros Hn H0 Hs HQ. unfold for_down.
  apply (wp_loop _ (fun k '(i, acc) m => k = Z.to_nat (i - lo + 1) /\ lo - 1 <= i <= hi /\ I i acc m) _ _ _) with (Z.to_nat (hi - lo + 1));
    [|split_and!; try done; lia|lia].
  clear H0 acc m. intros k [i acc] m (-> & Hi & HI). destruct (lo <=? i) eqn:E1.
  - apply wp_bind. eapply wp_mono; [apply Hs; [lia|exact HI]| |done]. intros acc' m' HI'. apply wp_ret.
    exists (Z.to_nat (i - 1 - lo + 1)). split_and!; try done; lia.
  - apply wp_ret, HQ. by replace (lo - 1) with i by lia.
Qed.

(** ** Accesses *)

Lemma wp_digit f p n i v line (Q : Z -> bytes -> Prop) E m : spans f p n -> 0 <= i < n -> m !! (p + i) = Some v ->
  Q v m -> wp (digit f i line) Q E m.
Proof. intros Hf Hi Hv HQ. unfold digit. rewrite (spans_check f p n) by done. apply wp_bind, wp_lift. by apply (wp_get_byte _ v). Qed.

Lemma wp_set_digit f p n i v line (Q : unit -> bytes -> Prop) E m : spans f p n -> 0 <= i < n -> is_Some (m !! (p + i)) ->
  Q tt (<[p + i := u8 v]> m) -> wp (set_digit f i v line) Q E m.
Proof.
  intros Hf Hi Hv HQ. unfold set_digit. rewrite (spans_check f p n) by done. apply wp_bind, wp_lift. by apply wp_put_byte.
Qed.

(** Reading a digit of [l], which is in memory at [p]. *)
Lemma wp_read m0 f p l i v line (Q : Z -> bytes -> Prop) E m : digits_of m0 f p l -> l !! i = Some v ->
  m !! (p + Z.of_nat i) = m0 !! (p + Z.of_nat i) -> (byte_ok v -> Q v m) -> wp (digit f (Z.of_nat i) line) Q E m.
Proof.
  intros (Hs & Hm & Hb) Hv Hsame HQ. pose proof (lookup_lt_Some _ _ _ Hv). eapply (wp_digit f p _ _ v); [exact Hs|lia| |].
  - rewrite Hsame. by apply Hm.
  - apply HQ. by apply (Forall_lookup_1 _ _ _ _ Hb Hv).
Qed.

(** ** Passes from the least significant digit *)

(** Writing [n] digits at [p] from below does not run ahead of reading [n]
    digits at [q]. *)
Definition behind (p q n : Z) : Prop := p <= q \/ q + n <= p.

Lemma behind_same p l q n m : behind p q n -> Z.of_nat (length l) < n ->
  write p l m !! (q + Z.of_nat (length l)) = m !! (q + Z.of_nat (length l)).
Proof. intros Hb Hl. apply write_out. unfold outside, behind in *. lia. Qed.

Lemma forward_pass {C} z p (n : nat) (body : Z -> C -> BM C) (P : list Z -> C -> Prop) c0 (Q : C -> bytes -> Prop) E m0 :
  spans z p (Z.of_nat n) -> room m0 p (Z.of_nat n) -> P [] c0 ->
  (forall l c, (length l < n)%nat -> Forall byte_ok l -> P l c ->
     wp (body (Z.of_nat (length l)) c)
       (fun c' m' => exists d, byte_ok d /\ m' = write p (l ++ [d]) m0 /\ P (l ++ [d]) c') E (write p l m0)) ->
  (forall l c, length l = n -> Forall byte_ok l -> P l c -> Q c (write p l m0)) ->
  wp (for_up 0 (Z.of_nat n) body c0) Q E m0.
Proof.
  intros Hz Hr H0 Hs HQ.
  apply (wp_for_up _ _ _ (fun i c m => exists l, Z.of_nat (length l) = i /\ Forall byte_ok l /\ m = write p l m0 /\ P l c)); [lia| | |].
  - by exists [].
  - intros i c m Hi (l & <- & Hl & -> & HP). eapply wp_conseq; [apply Hs; [lia|done|done]|].
    intros c' m' (d & Hd & -> & HP'). exists (l ++ [d]). rewrite length_app. simpl. split_and!; [lia| |done|done].
    apply Forall_app_2; [done|]. by apply Forall_singleton.
  - intros c m (l & Hl & Hb & -> & HP). apply HQ; [lia|done|done].
Qed.

(** Writing the next digit of a pass. *)
Lemma wp_put_next z p (n : nat) l v line (Q : unit -> bytes -> Prop) E m0 : spans z p (Z.of_nat n) -> room m0 p (Z.of_nat n) ->
  (length l < n)%nat -> Q tt (write p (l ++ [u8 v]) m0) -> wp (set_digit z (Z.of_nat (length l)) v line) Q E (write p l m0).
Proof.
  intros Hz Hr Hl HQ. eapply (wp_set_digit z p); [done|lia| |by rewrite <- write_snoc].
  apply room_write with (1 := Hr). lia.
Qed.

(** The digit and the carry of a sum: [c = c mod 256 + 256 * (c / 256)]. *)
Lemma wp_put_carry z p (n : nat) l c line (Q : Z -> bytes -> Prop) E m0 : spans z p (Z.of_nat n) -> room m0 p (Z.of_nat n) ->
  (length l < n)%nat -> 0 <= c ->
  (forall d, byte_ok d -> c = d + 256 * (c / 256) -> Q (c / 256) (write p (l ++ [d]) m0)) ->
  wp (put_carry z (Z.of_nat (length l)) c line) Q E (write p l m0).
Proof.
  intros Hz Hr Hl Hc HQ. unfold put_carry. rewrite Z.rem_mod_nonneg, Z.quot_div_nonneg by lia.
  apply wp_bind. eapply wp_put_next; [done|done|done|]. apply wp_ret, HQ; [apply u8_ok|]. unfold u8.
  rewrite Zmod_mod. pose proof (Z.div_mod c 256). lia.
Qed.

Lemma wp_put_ucarry z p (n : nat) l c line (Q : Z -> bytes -> Prop) E m0 : spans z p (Z.of_nat n) -> room m0 p (Z.of_nat n) ->
  (length l < n)%nat -> 0 <= c ->
  (forall d, byte_ok d -> c = d + 256 * (c / 256) -> Q (c / 256) (write p (l ++ [d]) m0)) ->
  wp (put_ucarry z (Z.of_nat (length l)) c line) Q E (write p l m0).
Proof.
  intros Hz Hr Hl Hc HQ. unfold put_ucarry.
  apply wp_bind. eapply wp_put_next; [done|done|done|]. apply wp_ret, HQ; [apply u8_ok|]. unfold u8.
  rewrite Zmod_mod. pose proof (Z.div_mod c 256). lia.
Qed.

(** ** Passes from the most significant digit *)

(** The digits written so far start above the next one. *)
Lemma backward_pass {C} p hi lo (body : Z -> C -> BM C) (P : list Z -> C -> Prop) c0 l0 (Q : C -> bytes -> Prop) E m mm :
  lo - 1 <= hi -> mm = write (p + hi + 1) l0 m -> P l0 c0 ->
  (forall i l c, lo <= i <= hi -> Z.of_nat (length l) = Z.of_nat (length l0) + (hi - i) -> P l c ->
     wp (body i c) (fun c' m' => exists d, m' = write (p + i) (d :: l) m /\ P (d :: l) c') E (write (p + i + 1) l m)) ->
  (forall l c, Z.of_nat (length l) = Z.of_nat (length l0) + (hi - lo + 1) -> P l c -> Q c (write (p + lo) l m)) ->
  wp (for_down hi lo body c0) Q E mm.
Proof.
  intros Hlo -> H0 Hs HQ.
  apply (wp_for_down _ _ _ (fun i c m' => exists l, Z.of_nat (length l) = Z.of_nat (length l0) + (hi - i) /\ m' = write (p + i + 1) l m /\ P l c)); [lia| | |].
  - exists l0. split_and!; [lia|done|done].
  - intros i c m' Hi (l & Hl & -> & HP). eapply wp_conseq; [apply Hs; [lia|lia|done]|]. intros c' m' (d & -> & HP').
    exists (d :: l). split_and!; [simpl; lia| |done]. by replace (p + (i - 1) + 1) with (p + i) by lia.
  - intros c m' (l & Hl & -> & HP). replace (p + (lo - 1) + 1) with (p + lo) by lia. apply HQ; [lia|done].
Qed.

(** Writing the next digit of such a pass. *)
Lemma wp_put_prev z p n i l v line (Q : unit -> bytes -> Prop) E m : spans z p n -> room m p n -> 0 <= i < n ->
  (Q tt (write (p + i) (u8 v :: l) m)) -> wp (set_digit z i v line) Q E (write (p + i + 1) l m).
Proof.
  intros Hz Hr Hi HQ. eapply (wp_set_digit z p); [done|lia| |done]. rewrite write_out by (unfold outside; lia). apply Hr. lia.
Qed.

(** ** Addition, subtraction and multiplication by a digit are exact

    Each routine writes exactly [n] digits of the result, whose number together
    with the carry it returns is the exact result.  The result may be an operand
    itself. *)

(** The [n] digits [zs] with [P zs] have been written at [p], nothing else. *)
Definition wrote (m : bytes) (p : Z) (n : nat) (P : list Z -> Prop) (m' : bytes) : Prop :=
  exists zs, length zs = n /\ Forall byte_ok zs /\ m' = write p zs m /\ P zs.

(** An operand that a pass writing [n] digits at [p] can read. *)
Definition operand (m : bytes) (p : Z) (n : nat) (x : fat_ptr) (q : Z) (xs : list Z) : Prop :=
  digits_of m x q xs /\ length xs = n /\ behind p q (Z.of_nat n).

(** A place for [n] digits. *)
Definition target (m : bytes) (z : fat_ptr) (p : Z) (n : nat) : Prop :=
  spans z p (Z.of_nat n) /\ room m p (Z.of_nat n).

Lemma wp_operand m p n x q xs l line (Q : Z -> bytes -> Prop) E : operand m p n x q xs -> (length l < n)%nat ->
  (forall v, xs !! length l = Some v -> byte_ok v -> Q v (write p l m)) ->
  wp (digit x (Z.of_nat (length l)) line) Q E (write p l m).
Proof.
  intros (Hd & Hn & Hb) Hl HQ. destruct (lookup_lt_is_Some_2 xs (length l)) as [v Hv]; [lia|].
  eapply (wp_read m x q xs); [done|done| |by apply HQ]. eapply behind_same; [done|lia].
Qed.

(** Unfolds the numbers of lists grown by one digit. *)
Ltac grow := rewrite ?length_app; simpl length; rewrite ?Nat.add_1_r, ?weight_S, ?num_snoc;
  repeat match goal with Hv : ?xs !! length ?l = Some ?v |- context [num (take (S (length ?l)) ?xs)] =>
    rewrite (num_take_S _ _ _ Hv) end.

(** Before the first digit. *)
Ltac none_yet := cbn [length num firstn]; rewrite ?take_0, weight_0; cbn [num]; lia.

Section routines.
Context (m : bytes) (z : fat_ptr) (p : Z) (n : nat) (Hz : target m z p n).

Lemma add_spec x q xs y r ys carry : operand m p n x q xs -> operand m p n y r ys -> 0 <= carry <= 1 ->
  returns (Cyc_XP_add (Z.of_nat n) z x y carry)
    (fun c => wrote m p n (fun zs => 0 <= c <= 1 /\ num zs + weight n * c = num xs + num ys + carry)) m.
Proof.
  intros Hx Hy Hc. destruct Hz as [Hs Hr]. unfold Cyc_XP_add.
  apply (forward_pass z p n _ (fun l c => 0 <= c <= 1 /\
    num l + weight (length l) * c = num (take (length l) xs) + num (take (length l) ys) + carry)); [done|done| | |].
  - none_yet.
  - intros l c Hl Hb [Hc1 Hn]. apply wp_bind. eapply wp_operand; [done|done|]. intros a Ha Hab.
    apply wp_bind. eapply wp_operand; [done|done|]. intros b Hbv Hbb. unfold byte_ok in Hab, Hbb.
    rewrite i32_small by lia. eapply wp_put_carry; [done|done|done|lia|]. intros d Hd Hdc.
    exists d. split_and!; [done|done|words|words|]. grow. nia.
  - intros l c Hl Hb [Hc1 Hn]. exists l. rewrite Hl in Hn. destruct Hx as (_ & Hx & _), Hy as (_ & Hy & _).
    rewrite !firstn_all2 in Hn by lia. split_and!; done || lia.
Qed.

(** The digit and the borrow of a difference. *)
Lemma borrow_digit d : 0 <= d < 512 -> d = u8 (Z.rem d 256) + 256 * Z.quot d 256 /\ 0 <= Z.quot d 256 <= 1.
Proof. intros Hd. rewrite Z.rem_mod_nonneg, Z.quot_div_nonneg by lia. words. Qed.

Lemma sub_spec x q xs y r ys borrow : operand m p n x q xs -> operand m p n y r ys -> 0 <= borrow <= 1 ->
  returns (Cyc_XP_sub (Z.of_nat n) z x y borrow)
    (fun c => wrote m p n (fun zs => 0 <= c <= 1 /\ num zs - weight n * c = num xs - num ys - borrow)) m.
Proof.
  intros Hx Hy Hc. destruct Hz as [Hs Hr]. unfold Cyc_XP_sub.
  apply (forward_pass z p n _ (fun l c => 0 <= c <= 1 /\
    num l - weight (length l) * c = num (take (length l) xs) - num (take (length l) ys) - borrow)); [done|done| | |].
  - none_yet.
  - intros l c Hl Hb [Hc1 Hn]. apply wp_bind. eapply wp_operand; [done|done|]. intros a Ha Hab.
    apply wp_bind. eapply wp_operand; [done|done|]. intros b Hbv Hbb. unfold byte_ok in Hab, Hbb.
    rewrite i32_small by lia. destruct (borrow_digit (a + 256 - c - b)) as [Hd Hq]; [lia|].
    apply wp_bind. eapply wp_put_next; [done|done|done|]. apply wp_ret.
    eexists. split_and!; [apply u8_ok|done|lia|lia|]. grow. nia.
  - intros l c Hl Hb [Hc1 Hn]. exists l. rewrite Hl in Hn. destruct Hx as (_ & Hx & _), Hy as (_ & Hy & _).
    rewrite !firstn_all2 in Hn by lia. split_and!; done || lia.
Qed.

Lemma sum_spec x q xs y : operand m p n x q xs -> 0 <= y < 2147483392 ->
  returns (Cyc_XP_sum (Z.of_nat n) z x y)
    (fun c => wrote m p n (fun zs => 0 <= c <= y /\ num zs + weight n * c = num xs + y)) m.
Proof.
  intros Hx Hc. destruct Hz as [Hs Hr]. unfold Cyc_XP_sum.
  apply (forward_pass z p n _ (fun l c => 0 <= c <= y /\
    num l + weight (length l) * c = num (take (length l) xs) + y)); [done|done| | |].
  - none_yet.
  - intros l c Hl Hb [Hc1 Hn]. apply wp_bind. eapply wp_operand; [done|done|]. intros a Ha Hab. unfold byte_ok in Hab.
    rewrite i32_small by lia. eapply wp_put_carry; [done|done|done|lia|]. intros d Hd Hdc.
    exists d. split_and!; [done|done|words| |grow; nia]. unfold byte_ok in Hd.
    words.
  - intros l c Hl Hb [Hc1 Hn]. exists l. rewrite Hl in Hn. destruct Hx as (_ & Hx & _).
    rewrite !firstn_all2 in Hn by lia. split_and!; done || lia.
Qed.

Lemma diff_spec x q xs y : operand m p n x q xs -> 0 <= y <= 256 ->
  returns (Cyc_XP_diff (Z.of_nat n) z x y)
    (fun c => wrote m p n (fun zs => 0 <= c <= 256 /\ num zs - weight n * c = num xs - y)) m.
Proof.
  intros Hx Hc. destruct Hz as [Hs Hr]. unfold Cyc_XP_diff.
  apply (forward_pass z p n _ (fun l c => 0 <= c <= 256 /\
    num l - weight (length l) * c = num (take (length l) xs) - y)); [done|done| | |].
  - none_yet.
  - intros l c Hl Hb [Hc1 Hn]. apply wp_bind. eapply wp_operand; [done|done|]. intros a Ha Hab. unfold byte_ok in Hab.
    rewrite i32_small by lia. destruct (borrow_digit (a + 256 - c)) as [Hd Hq]; [lia|].
    apply wp_bind. eapply wp_put_next; [done|done|done|]. apply wp_ret.
    eexists. split_and!; [apply u8_ok|done|lia|lia|]. grow. nia.
  - intros l c Hl Hb [Hc1 Hn]. exists l. rewrite Hl in Hn. destruct Hx as (_ & Hx & _).
    rewrite !firstn_all2 in Hn by lia. split_and!; done || lia.
Qed.

Lemma product_spec x q xs y : operand m p n x q xs -> 0 <= y <= 8388608 ->
  returns (Cyc_XP_product (Z.of_nat n) z x y)
    (fun c => wrote m p n (fun zs => 0 <= c < Z.max 1 y /\ num zs + weight n * c = num xs * y)) m.
Proof.
  intros Hx Hy. destruct Hz as [Hs Hr]. unfold Cyc_XP_product. apply wp_bind.
  apply (forward_pass z p n _ (fun l c => 0 <= c < Z.max 1 y /\
    num l + weight (length l) * c = num (take (length l) xs) * y)); [done|done| | |].
  - none_yet.
  - intros l c Hl Hb [Hc1 Hn]. apply wp_bind. eapply wp_operand; [done|done|]. intros a Ha Hab. unfold byte_ok in Hab.
    rewrite i32_small, (u32_small (a * y)), u32_small by nia. eapply wp_put_ucarry; [done|done|done|nia|]. intros d Hd Hdc.
    exists d. split_and!; [done|done|apply Z.div_pos; nia|apply Z.div_lt_upper_bound; nia|grow; nia].
  - intros l c Hl Hb [Hc1 Hn]. apply wp_ret. rewrite i32_small by lia. exists l. rewrite Hl in Hn. destruct Hx as (_ & Hx & _).
    rewrite !firstn_all2 in Hn by lia. split_and!; done || lia.
Qed.

(** Writing [n] digits at [p] from above does not run ahead of reading at [q]. *)
Definition operand_down (x : fat_ptr) (q : Z) (xs : list Z) : Prop :=
  digits_of m x q xs /\ length xs = n /\ (q <= p \/ p + Z.of_nat n <= q).

Lemma quotient_spec x q xs y : operand_down x q xs -> 0 < y <= 16777216 ->
  returns (Cyc_XP_quotient (Z.of_nat n) z x y)
    (fun c => wrote m p n (fun zs => 0 <= c < y /\ num zs * y + c = num xs)) m.
Proof.
  intros (Hx & Hxn & Hq) Hy. destruct Hz as [Hs Hr]. unfold Cyc_XP_quotient. apply wp_bind.
  apply (backward_pass p _ _ _ (fun l c => Forall byte_ok l /\ 0 <= c < y /\ num l * y + c = num (drop (n - length l) xs)) 0 [] _ _ m); [lia|done| | |].
  - rewrite drop_ge by (simpl; lia). simpl. split_and!; try done; lia.
  - intros i l c Hi Hl (Hb & Hc & Hn). simpl in Hl. set (k := (n - S (length l))%nat).
    assert (i = Z.of_nat k) as -> by lia. destruct (lookup_lt_is_Some_2 xs k) as [a Ha]; [lia|]. apply wp_bind.
    eapply (wp_read m x q xs); [done|done|apply write_out; unfold outside; lia|]. intros Hab. unfold byte_ok in Hab.
    rewrite (u32_small y), u32_small by nia. destruct (y =? 0) eqn:E0; [lia|]. apply wp_bind.
    assert (Hd : byte_ok ((c * 256 + a) / y)) by (split; [apply Z.div_pos; nia|apply Z.div_lt_upper_bound; nia]).
    eapply wp_put_prev; [done|done|lia|]. rewrite u8_small by done. apply wp_ret. eexists. split; [done|].
    split; [by constructor|]. split; [apply Z.mod_pos_bound; lia|]. simpl length. fold k.
    rewrite (num_drop_S xs k a Ha). replace (S k) with (n - length l)%nat by lia. rewrite <- Hn. simpl.
    pose proof (Z.div_mod (c * 256 + a) y). nia.
  - intros l c Hl (Hb & Hc & Hn). apply wp_ret. rewrite i32_small, Z.add_0_r by lia. simpl in Hl. exists l.
    assert (length l = n) as Hln by lia. rewrite Hln, Nat.sub_diag, drop_0 in Hn. split_and!; done || lia.
Qed.
End routines.

(** ** Reading *)

(** The [k] significant digits of [l] make up its number. *)
Definition significant (l : list Z) (k : nat) : Prop :=
  (0 < k <= length l)%nat /\ num (take k l) = num l /\ (k = 1%nat \/ exists d, l !! (k - 1)%nat = Some d /\ 0 < d).

Lemma significant_lower l k : Forall byte_ok l -> significant l k -> (1 < k)%nat -> weight (k - 1) <= num l.
Proof.
  intros Hb (Hk & Hn & Hd) H1. destruct Hd as [->|(d & Hd & Hpos)]; [lia|]. rewrite <- Hn.
  pose proof (num_take_S _ _ _ Hd) as Hs. replace (S (k - 1)) with k in Hs by lia. rewrite Hs.
  pose proof (num_bound _ (Forall_take _ (k - 1) _ Hb)). pose proof (weight_pos (k - 1)). nia.
Qed.

Lemma significant_upper l k : Forall byte_ok l -> significant l k -> num l < weight k.
Proof.
  intros Hb (Hk & Hn & _). rewrite <- Hn. pose proof (num_bound _ (Forall_take _ k _ Hb)) as H. rewrite length_take, Nat.min_l in H by lia. lia.
Qed.

Lemma prefix_digits f p l k m : digits_of m f p l -> (k <= length l)%nat -> digits_of m f p (take k l).
Proof.
  intros (Hs & Hh & Hb) Hk. split_and!; [|rewrite <- (Z.add_0_r p); by apply (holds_sub m p l 0)|by apply Forall_take].
  eapply spans_sub; [exact Hs|]. rewrite length_take. lia.
Qed.

Lemma trim_spec x q xs line m : digits_of m x q xs -> (0 < length xs)%nat ->
  returns (trim (Z.of_nat (length xs)) x line)
    (fun k m' => m' = m /\ exists j, k = Z.of_nat j /\ significant xs j) m.
Proof.
  intros Hx Hn. unfold trim, significant.
  apply (wp_loop _ (fun k i m' => k = Z.to_nat i /\ m' = m /\ exists j, i = Z.of_nat j /\ (0 < j <= length xs)%nat /\ num (take j xs) = num xs)) with (length xs); [| |lia].
  - intros k i m' (-> & -> & j & -> & Hj & Ht). destruct (1 <? Z.of_nat j) eqn:E1.
    + replace (Z.of_nat j - 1) with (Z.of_nat (j - 1)) by lia.
      destruct (lookup_lt_is_Some_2 xs (j - 1)) as [d Hd]; [lia|].
      apply wp_bind. eapply (wp_read m x q xs); [done|done|done|]. intros Hdb. unfold byte_ok in Hdb.
      destruct (d =? 0) eqn:E2; apply wp_ret.
      * exists (j - 1)%nat. split; [lia|]. split_and!; [lia|done|]. exists (j - 1)%nat. split_and!; try lia.
        pose proof (num_take_S xs (j - 1) d Hd) as H1. replace (S (j - 1)) with j in H1 by lia. nia.
      * split; [done|]. exists j. split_and!; try done; try lia. right. exists d. split; [done|lia].
    + apply wp_ret. split; [done|]. exists j. split_and!; try done; try lia.
  - split_and!; [lia|done|]. exists (length xs). split_and!; try lia. by rewrite firstn_all.
Qed.

(** The digits above [k] agree. *)
Lemma num_agree xs ys (k : nat) : length xs = length ys -> (k <= length xs)%nat -> drop k xs = drop k ys ->
  num xs - num ys = num (take k xs) - num (take k ys).
Proof. intros Hl Hk Hd. rewrite (num_split xs k), (num_split ys k), Hd by lia. lia. Qed.

(** The leading digits decide. *)
Lemma num_compare xs ys i a b : Forall byte_ok xs -> Forall byte_ok ys -> length xs = length ys -> xs !! i = Some a -> ys !! i = Some b ->
  drop (S i) xs = drop (S i) ys -> a <> b \/ i = 0%nat -> Z.sgn (a - b) = Z.sgn (num xs - num ys).
Proof.
  intros Hx Hy Hl Ha Hb Hd Hne. pose proof (lookup_lt_Some _ _ _ Ha) as Hi. rewrite (num_agree xs ys (S i)) by (done || lia).
  rewrite (num_take_S _ _ _ Ha), (num_take_S _ _ _ Hb).
  pose proof (num_bound (take i xs) (Forall_take _ i _ Hx)) as H1. pose proof (num_bound (take i ys) (Forall_take _ i _ Hy)) as H2.
  rewrite length_take, Nat.min_l in H1, H2 by lia. destruct Hne as [Hne| ->]; [|rewrite weight_0, !take_0; f_equal; simpl; lia].
  pose proof (weight_pos i). destruct (decide (a < b)).
  - rewrite (Z.sgn_neg (a - b)) by lia. rewrite Z.sgn_neg; [done|nia].
  - rewrite (Z.sgn_pos (a - b)) by lia. rewrite Z.sgn_pos; [done|nia].
Qed.

(** Reading [f i] gives digit [i] of [xs]. *)
Definition reads_as (f : Z -> BM Z) (xs : list Z) (m : bytes) : Prop :=
  forall i v (Q : Z -> bytes -> Prop) E, xs !! i = Some v -> Q v m -> wp (f (Z.of_nat i)) Q E m.

Lemma digits_read m x q xs line : digits_of m x q xs -> reads_as (fun i => digit x i line) xs m.
Proof. intros Hx i v Q E Hv HQ. by eapply (wp_read m x q xs). Qed.

(** The leading digit in which two numbers differ, or the last one. *)
Definition differ_at (xs ys : list Z) (j : nat) : Prop :=
  exists a b, xs !! j = Some a /\ ys !! j = Some b /\ drop (S j) xs = drop (S j) ys /\ (a <> b \/ j = 0%nat).

(** [while (i > 0 && f(i) == g(i)) --i] *)
Lemma differ_loop f g xs ys m fuel : reads_as f xs m -> reads_as g ys m -> length xs = length ys -> (0 < length xs <= fuel)%nat ->
  returns (loop fuel (fun i =>
      if 0 <? i then a ← f i; b ← g i; if a =? b then mret (inl (i - 1)) else mret (inr i)
      else mret (inr i)) (Z.of_nat (length xs - 1)))
    (fun i m' => m' = m /\ exists j, i = Z.of_nat j /\ differ_at xs ys j) m.
Proof.
  intros Hf Hg Hl Hn.
  apply (wp_loop _ (fun k i m' => k = Z.to_nat i /\ m' = m /\ exists j, i = Z.of_nat j /\ (j < length xs)%nat /\ drop (S j) xs = drop (S j) ys)) with (length xs - 1)%nat; [| |lia].
  - intros k i m' (-> & -> & j & -> & Hj & Hd).
    destruct (lookup_lt_is_Some_2 xs j) as [a Ha]; [lia|]. destruct (lookup_lt_is_Some_2 ys j) as [b Hb]; [lia|].
    assert (Hend : a <> b \/ j = 0%nat -> differ_at xs ys j) by (exists a, b; done).
    destruct (0 <? Z.of_nat j) eqn:E1; [|apply wp_ret; split; [done|]; exists j; split; [done|apply Hend; lia]].
    apply wp_bind, (Hf j a); [done|]. apply wp_bind, (Hg j b); [done|].
    destruct (a =? b) eqn:E2; apply wp_ret; [|split; [done|]; exists j; split; [done|apply Hend; lia]].
    exists (j - 1)%nat. split; [lia|]. split_and!; [lia|done|]. exists (j - 1)%nat. split_and!; try lia.
    replace (S (j - 1)) with j by lia. rewrite (drop_S _ _ _ Ha), (drop_S _ _ _ Hb), Hd. f_equal. lia.
  - split_and!; [lia|done|]. exists (length xs - 1)%nat. split_and!; try lia. by rewrite !drop_ge by lia.
Qed.

Lemma cmp_spec x q xs y r ys m : digits_of m x q xs -> digits_of m y r ys -> length xs = length ys -> (0 < length xs)%nat ->
  returns (Cyc_XP_cmp (Z.of_nat (length xs)) x y) (fun c m' => m' = m /\ Z.sgn c = Z.sgn (num xs - num ys)) m.
Proof.
  intros Hx Hy Hl Hn. unfold Cyc_XP_cmp. apply wp_bind. replace (Z.of_nat (length xs) - 1) with (Z.of_nat (length xs - 1)) by lia.
  eapply wp_conseq; [eapply differ_loop; [eapply digits_read, Hx|eapply digits_read, Hy|done|lia]|].
  intros i m' (-> & j & -> & a & b & Ha & Hb & Hd & Hne).
  apply wp_bind. eapply (wp_read m x q xs); [done|done|done|]. intros _.
  apply wp_bind. eapply (wp_read m y r ys); [done|done|done|]. intros _. apply wp_ret. split; [done|].
  eapply num_compare; try done; [apply Hx|apply Hy].
Qed.

(** ** Machine integers *)

Lemma toint_spec x q xs m : digits_of m x q xs ->
  returns (Cyc_XP_toint (Z.of_nat (length xs)) x) (fun u m' => m' = m /\ u = num xs mod 4294967296) m.
Proof.
  intros Hx. pose proof Hx as (_ & _ & Hb). unfold Cyc_XP_toint. set (k := Nat.min (length xs) 4).
  replace (if _ <? 4 then _ else 4) with (Z.of_nat k) by (destruct (_ <? _) eqn:E; lia).
  assert (Hk : num xs mod 4294967296 = num (take k xs)).
  { destruct (decide (length xs <= 4)%nat) as [Hle|Hle].
    - rewrite firstn_all2 by lia. apply Z.mod_small. pose proof (num_bound xs Hb) as Hn.
      assert (weight (length xs) <= weight 4) by (apply Z.pow_le_mono_r; lia). change (weight 4) with 4294967296 in *. lia.
    - replace k with 4%nat by lia. rewrite (num_split xs 4) by lia. change (weight 4) with 4294967296.
      pose proof (num_bound (take 4 xs) (Forall_take _ 4 _ Hb)) as Hn. rewrite length_take, Nat.min_l in Hn by lia.
      change (weight 4) with 4294967296 in Hn. rewrite (Z.mul_comm 4294967296), Z_mod_plus_full. by apply Z.mod_small. }
  apply (wp_for_down _ _ _ (fun i u m' => m' = m /\ u = num (drop (Z.to_nat (i + 1)) (take k xs)))); [lia| | |].
  - split; [done|]. rewrite drop_ge; [done|]. rewrite length_take. lia.
  - intros i u m' Hi [-> ->]. replace i with (Z.of_nat (Z.to_nat i)) at 1 by lia.
    destruct (lookup_lt_is_Some_2 xs (Z.to_nat i)) as [d Hd]; [lia|].
    apply wp_bind. eapply (wp_read m x q xs); [done|done|done|]. intros Hdb. apply wp_ret. split; [done|].
    replace (Z.to_nat (i - 1 + 1)) with (Z.to_nat i) by lia. rewrite (num_drop_S (take k xs) (Z.to_nat i) d) by (rewrite lookup_take_lt by lia; done).
    replace (S (Z.to_nat i)) with (Z.to_nat (i + 1)) by lia. rewrite Z.add_comm. apply u32_small.
    pose proof (num_bound (drop (Z.to_nat (i + 1)) (take k xs)) (Forall_drop _ _ _ (Forall_take _ _ _ Hb))) as Hn. rewrite length_drop, length_take in Hn.
    assert (weight (Nat.min k (length xs) - Z.to_nat (i + 1)) <= weight 3) by (apply Z.pow_le_mono_r; lia).
    change (weight 3) with 16777216 in *. unfold byte_ok in Hdb. lia.
  - intros u m' [-> ->]. split; [done|]. by rewrite Hk.
Qed.

(** Filling the digits above [l] with one value. *)
Lemma fill_pass m z p n l v line (Q : unit -> bytes -> Prop) E : target m z p n -> (length l <= n)%nat ->
  Q tt (write p (l ++ replicate (n - length l) (u8 v)) m) ->
  wp (for_up (Z.of_nat (length l)) (Z.of_nat n) (fun i _ => set_digit z i v line) tt) Q E (write p l m).
Proof.
  intros [Hs Hr] Hl HQ.
  apply (wp_for_up _ _ _ (fun i _ m' => exists k, i = Z.of_nat (length l + k) /\ m' = write p (l ++ replicate k (u8 v)) m)); [lia| | |].
  - exists 0%nat. simpl. rewrite app_nil_r. split; [lia|done].
  - intros i ? m' Hi (k & -> & ->). replace (length l + k)%nat with (length (l ++ replicate k (u8 v)))
      by (rewrite length_app, length_replicate; done).
    eapply wp_put_next; [done|done|rewrite length_app, length_replicate; lia|]. exists (S k). split.
    + rewrite length_app, length_replicate. lia.
    + by rewrite replicate_S_end, app_assoc.
  - intros [] m' (k & Hk & ->). by replace k with (n - length l)%nat by lia.
Qed.

Lemma fromint_spec m z p n u : target m z p n -> (0 < n)%nat -> 0 <= u < 4294967296 ->
  returns (Cyc_XP_fromint (Z.of_nat n) z u)
    (fun c => wrote m p n (fun zs => num zs = u mod weight n /\ c = u / weight n)) m.
Proof.
  intros Hz Hn Hu. pose proof Hz as [Hs Hr]. unfold Cyc_XP_fromint. apply wp_bind.
  apply (wp_loop _ (fun k '(i, v) m' => exists l, i = Z.of_nat (length l) /\ k = (3 - length l)%nat /\ (length l < Nat.min n 4)%nat /\
    Forall byte_ok l /\ m' = write p l m /\ u = num l + weight (length l) * v /\ 0 <= v < weight (4 - length l))) with 3%nat; [| |lia].
  - intros k [i v] m' (l & -> & -> & Hl & Hb & -> & Heq & Hv). apply wp_bind.
    eapply wp_put_next; [done|done|lia|].
    assert (Hv' : 0 <= v / 256 < weight (3 - length l)).
    { replace (4 - length l)%nat with (S (3 - length l)) in Hv by lia. rewrite weight_S in Hv. words. }
    set (l' := l ++ [u8 (v mod 256)]). assert (Hlen : length l' = S (length l)) by (unfold l'; rewrite length_app; simpl; lia).
    assert (Hb' : Forall byte_ok l') by (apply Forall_app_2; [done|apply Forall_singleton, u8_ok]).
    assert (Heq' : u = num l' + weight (length l') * (v / 256)).
    { rewrite Hlen, weight_S. unfold l'. rewrite num_snoc, u8_small by (unfold byte_ok; words). pose proof (Z.div_mod v 256). nia. }
    destruct ((0 <? v / 256) && (Z.of_nat (length l) + 1 <? Z.of_nat n)) eqn:E1; apply wp_ret.
    + exists (3 - length l')%nat. assert (length l < 3)%nat.
      { destruct (decide (length l < 3)%nat); [done|]. replace (3 - length l)%nat with 0%nat in Hv' by lia. rewrite weight_0 in Hv'. lia. }
      split; [lia|]. exists l'. rewrite Hlen. split_and!; try done; try lia.
      * by rewrite <- Hlen.
      * replace (4 - S (length l))%nat with (3 - length l)%nat by lia. lia.
    + replace (Z.of_nat (length l) + 1) with (Z.of_nat (length l')) by lia. apply wp_bind. eapply fill_pass; [done|lia|]. apply wp_ret.
      assert (Hlast : v / 256 = 0 \/ length l' = n) by lia.
      assert (Hall : u = num (l' ++ replicate (n - length l') (u8 0)) + weight n * (v / 256)).
      { rewrite num_app. change (u8 0) with 0. rewrite num_zeros. destruct Hlast as [E0|E0]; [rewrite E0 in *|rewrite E0 in *]; lia. }
      set (zs := l' ++ _) in *. assert (Hzl : length zs = n) by (unfold zs; rewrite length_app, length_replicate; lia).
      assert (Hzb : Forall byte_ok zs) by (apply Forall_app_2; [done|apply Forall_replicate, u8_ok]).
      pose proof (num_bound zs Hzb) as Hnz. rewrite Hzl in Hnz. exists zs. split_and!; try done.
      * apply Z.mod_unique with (v / 256); [by left|lia].
      * apply Z.div_unique with (num zs); [by left|lia].
  - exists []. simpl length. rewrite weight_0. change (weight (4 - 0)) with 4294967296. simpl. split_and!; try done; lia.
Qed.
