(* ===== verification/XPMul.v ===== *)
(** * Multiplication is exact

    [Cyc_XP_mul] adds the product of [x] and [y] to the [n + m] digits of [z]:
    the digits it leaves and the carry it returns make up the exact sum. *)

From S2P Require Import Prelude RwLock Alloc Region RegionSafety Words FatPtr CycBytes ByteMem CycXP XPSpec.

(** ** Updating digits in place *)

(** [x] is not among the [N] bytes at [p]. *)
Definition apart (p : Z) (N : nat) (q : Z) (xs : list Z) : Prop :=
  q + Z.of_nat (length xs) <= p \/ p + Z.of_nat N <= q.

Lemma apart_same p zs q xs i m : apart p (length zs) q xs -> (i < length xs)%nat ->
  write p zs m !! (q + Z.of_nat i) = m !! (q + Z.of_nat i).
Proof. intros Ha Hi. apply write_out. unfold outside, apart in *. lia. Qed.

Section update.
Context (m : bytes) (z : fat_ptr) (p : Z) (N : nat) (Hz : target m z p N).

Lemma wp_get_at zs k v line (Q : Z -> bytes -> Prop) E : length zs = N -> zs !! k = Some v ->
  Q v (write p zs m) -> wp (digit z (Z.of_nat k) line) Q E (write p zs m).
Proof.
  intros Hl Hk HQ. destruct Hz as [Hs _]. pose proof (lookup_lt_Some _ _ _ Hk).
  eapply (wp_digit z p); [done|lia|by apply write_in|done].
Qed.

Lemma wp_set_at zs k v line (Q : unit -> bytes -> Prop) E : length zs = N -> (k < N)%nat ->
  Q tt (write p (<[k := u8 v]> zs) m) -> wp (set_digit z (Z.of_nat k) v line) Q E (write p zs m).
Proof.
  intros Hl Hk HQ. destruct Hz as [Hs Hr]. eapply (wp_set_digit z p); [done|lia| |].
  - apply (room_write m p (Z.of_nat N)); [done|lia].
  - by rewrite <- write_insert by lia.
Qed.

(** Replacing digit [k], which holds [d0], by the low digit of [c]. *)
Lemma wp_ucarry_at zs k d0 c line (Q : Z -> bytes -> Prop) E : length zs = N -> Forall byte_ok zs -> zs !! k = Some d0 -> 0 <= c ->
  (forall zs', length zs' = N -> Forall byte_ok zs' -> num zs' + weight (S k) * (c / 256) = num zs + weight k * (c - d0) ->
     (forall j, (k < j)%nat -> zs' !! j = zs !! j) -> Q (c / 256) (write p zs' m)) ->
  wp (put_ucarry z (Z.of_nat k) c line) Q E (write p zs m).
Proof.
  intros Hl Hb Hk Hc HQ. pose proof (lookup_lt_Some _ _ _ Hk). unfold put_ucarry. apply wp_bind, wp_set_at; [done|lia|].
  apply wp_ret, HQ.
  - by rewrite length_insert.
  - apply Forall_insert; [done|apply u8_ok].
  - rewrite (num_insert zs k d0) by done. rewrite weight_S. unfold u8. rewrite Zmod_mod. pose proof (Z.div_mod c 256). nia.
  - intros j Hj. apply list_lookup_insert_ne. lia.
Qed.
End update.

(** ** Multiplication *)

Section mul.
Context (m0 : bytes) (z : fat_ptr) (p : Z) (x : fat_ptr) (q : Z) (xs : list Z) (y : fat_ptr) (r : Z) (ys : list Z).
Local Definition N : nat := length xs + length ys.
Context (Hz : target m0 z p N) (Hx : digits_of m0 x q xs) (Hy : digits_of m0 y r ys)
  (Hxa : apart p N q xs) (Hya : apart p N r ys).

(** The digits [zs] and the carry [c] out of digit [k] make up [v]. *)
Definition makes (k : nat) (v : Z) (c : Z) (m : bytes) : Prop :=
  exists zs, length zs = N /\ Forall byte_ok zs /\ m = write p zs m0 /\ 0 <= c <= 255 /\ num zs + weight k * c = v.

Lemma row_products i a v : (i < length xs)%nat -> xs !! i = Some a ->
  forall m, makes i v 0 m ->
  returns (for_up 0 (Z.of_nat (length ys)) (fun j carry =>
      a ← digit x (Z.of_nat i) 90; b ← digit y j 90; c ← digit z (Z.of_nat i + j) 90;
      put_ucarry z (Z.of_nat i + j) (u32 (carry + u32 (a * b + c))) 91) 0)
    (makes (i + length ys) (v + weight i * (a * num ys))) m.
Proof.
  intros Hi Ha m Hm.
  apply (wp_for_up _ _ _ (fun j c m => exists k, j = Z.of_nat k /\ (k <= length ys)%nat /\
    makes (i + k) (v + weight i * (a * num (take k ys))) c m)); [lia| | |].
  - exists 0%nat. rewrite Nat.add_0_r, take_0. simpl. split_and!; [done|lia|]. by replace (v + _) with v by lia.
  - intros j c m1 Hj (k & -> & Hk & zs & Hl & Hb & -> & Hc & Hn).
    destruct (lookup_lt_is_Some_2 ys k) as [b Hbk]; [lia|]. destruct (lookup_lt_is_Some_2 zs (i + k)) as [d Hd]; [unfold N in *; lia|].
    apply wp_bind. eapply (wp_read m0 x q xs); [done|done|apply (apart_same p zs q xs); [by rewrite Hl|lia]|]. intros Hab.
    apply wp_bind. eapply (wp_read m0 y r ys); [done|done|apply (apart_same p zs r ys); [by rewrite Hl|lia]|]. intros Hbb.
    rewrite <- Nat2Z.inj_add. apply wp_bind. eapply wp_get_at; [done|done|done|].
    pose proof (Forall_lookup_1 _ _ _ _ Hb Hd) as Hdb. unfold byte_ok in Hab, Hbb, Hdb.
    rewrite (u32_small (a * b + d)), u32_small by nia. eapply wp_ucarry_at; [done|done|done|done|nia|].
    intros zs' Hl' Hb' Hn' _. exists (S k). split_and!; [lia|lia|]. exists zs'. rewrite Nat.add_succ_r. split_and!; try done.
    + apply Z.div_pos; nia.
    + assert ((c + (a * b + d)) / 256 < 256) by (apply Z.div_lt_upper_bound; nia). lia.
    + rewrite Hn', (num_take_S ys k b) by done. rewrite weight_add in *. nia.
  - intros c m1 (k & Hk & _ & Hm1). assert (k = length ys) as -> by lia. by rewrite firstn_all in Hm1.
Qed.

Lemma row_carry i v : (i < length xs)%nat -> forall c m, makes (i + length ys) v c m ->
  returns (for_up (Z.max 0 (Z.of_nat (length ys))) (Z.of_nat (length xs) + Z.of_nat (length ys) - Z.of_nat i) (fun j carry =>
      c ← digit z (Z.of_nat i + j) 95; put_ucarry z (Z.of_nat i + j) (u32 (carry + c)) 96) c)
    (makes N v) m.
Proof.
  intros Hi c m Hm.
  apply (wp_for_up _ _ _ (fun j c m => exists k, j = Z.of_nat k /\ (length ys <= k <= N - i)%nat /\ makes (i + k) v c m)); [lia| | |].
  - exists (length ys). unfold N. split_and!; [lia|lia|lia|done].
  - intros j c1 m1 Hj (k & -> & Hk & zs & Hl & Hb & -> & Hc & Hn). unfold N in *.
    destruct (lookup_lt_is_Some_2 zs (i + k)) as [d Hd]; [lia|]. rewrite <- Nat2Z.inj_add.
    apply wp_bind. eapply wp_get_at; [done|done|done|]. pose proof (Forall_lookup_1 _ _ _ _ Hb Hd) as Hdb. unfold byte_ok in Hdb.
    rewrite u32_small by lia. eapply wp_ucarry_at; [done|done|done|done|lia|]. intros zs' Hl' Hb' Hn' _.
    exists (S k). split_and!; [lia|lia|lia|]. exists zs'. rewrite Nat.add_succ_r. split_and!; try done; [words|words|].
    rewrite Hn'. lia.
  - intros c1 m1 (k & Hk & _ & Hm1). unfold N in *. by replace (i + k)%nat with (length xs + length ys)%nat in Hm1 by lia.
Qed.

(** Bits do not overlap in a carry out of the number. *)
Lemma lor_carry a c : 0 <= a -> 0 <= c -> a + c <= 1 -> i32 (Z.lor (u32 a) c) = a + c.
Proof.
  intros Ha Hc Hs. assert (a = 0 \/ a = 1) as [-> | ->] by lia; assert (c = 0 \/ c = 1) as [-> | ->] by lia; done || lia.
Qed.

Lemma mul_spec zs : length zs = N -> holds m0 p zs -> Forall byte_ok zs ->
  returns (Cyc_XP_mul z (Z.of_nat (length xs)) x (Z.of_nat (length ys)) y)
    (fun c => wrote m0 p N (fun zs' => 0 <= c <= 1 /\ num zs' + weight N * c = num zs + num xs * num ys)) m0.
Proof.
  intros Hl Hh Hb. unfold Cyc_XP_mul. pose proof (num_bound zs Hb) as Hzb. rewrite Hl in Hzb.
  pose proof (num_bound ys (proj2 (proj2 Hy))) as Hyb. pose proof (proj2 (proj2 Hx)) as Hxf.
  assert (Htot : forall k, (k <= length xs)%nat -> 0 <= num zs + num (take k xs) * num ys < 2 * weight N).
  { intros k Hk. pose proof (num_bound (take k xs) (Forall_take _ _ _ Hxf)) as Hkb. rewrite length_take, Nat.min_l in Hkb by lia.
    assert (weight k <= weight (length xs)) by (apply Z.pow_le_mono_r; lia). unfold N in *. rewrite weight_add in *. nia. }
  apply (wp_for_up _ _ _ (fun i c m => exists k, i = Z.of_nat k /\ (k <= length xs)%nat /\ exists zs', length zs' = N /\ Forall byte_ok zs' /\
    m = write p zs' m0 /\ 0 <= c <= 1 /\ num zs' + weight N * c = num zs + num (take k xs) * num ys)); [lia| | |].
  - exists 0%nat. split_and!; [done|lia|]. exists zs. rewrite holds_same by done. rewrite take_0. simpl. split_and!; try done; lia.
  - intros i c m Hi (k & -> & Hk & zs1 & Hl1 & Hb1 & -> & Hc & Hn1).
    destruct (lookup_lt_is_Some_2 xs k) as [a Ha]; [lia|]. apply wp_bind. eapply wp_conseq.
    { apply (row_products k a (num zs1)); [lia|done|]. exists zs1. split_and!; try done; lia. }
    intros c1 m1 Hm1. apply wp_bind. eapply wp_conseq; [apply row_carry; [lia|exact Hm1]|].
    intros c2 m2 (zs2 & Hl2 & Hb2 & -> & Hc2 & Hn2). apply wp_ret. exists (S k). split_and!; [lia|lia|].
    pose proof (num_bound zs2 Hb2) as Hzb2. rewrite Hl2 in Hzb2. specialize (Htot (S k) ltac:(lia)).
    rewrite (num_take_S xs k a Ha) in *. pose proof (weight_pos N).
    assert (Hsum : num zs2 + weight N * (c + c2) = num zs + (num (take k xs) + weight k * a) * num ys) by nia.
    assert (c + c2 <= 1) by nia. exists zs2. rewrite lor_carry by lia. split_and!; try done; lia.
  - intros c m (k & Hk & _ & zs' & Hl' & Hb' & -> & Hc & Hn). assert (k = length xs) as -> by lia.
    rewrite firstn_all in Hn. exists zs'. split_and!; done || lia.
Qed.
End mul.

(** Multiplication of multiple-precision numbers is exact: [Cyc_XP_mul] adds the
    product of two numbers of any lengths to the number at [z]; the digits it
    leaves and the carry it returns are the exact sum, and it writes nothing
    else. *)
Theorem xp_mul_exact m z p x q xs y r ys zs :
  let N := (length xs + length ys)%nat in
  spans z p (Z.of_nat N) -> length zs = N -> holds m p zs -> Forall byte_ok zs ->
  digits_of m x q xs -> digits_of m y r ys -> apart p N q xs -> apart p N r ys ->
  exists c zs', Cyc_XP_mul z (Z.of_nat (length xs)) x (Z.of_nat (length ys)) y m = (Ret c, write p zs' m) /\
    length zs' = N /\ Forall byte_ok zs' /\ num zs' + weight N * c = num zs + num xs * num ys.
Proof.
  intros N Hz Hl Hh Hb Hx Hy Hxa Hya. assert (Ht : target m z p N) by (split; [done|]; rewrite <- Hl; by apply holds_room).
  destruct (wp_total _ _ _ (mul_spec m z p x q xs y r ys Ht Hx Hy Hxa Hya zs Hl Hh Hb)) as (c & m' & Hrun & zs' & Hl' & Hb' & -> & _ & Hn).
  exists c, zs'. by rewrite Hrun.
Qed.

(** 65535 times 513, added to 7. *)
Lemma xp_mul_exact_witness :
  exists c zs', Cyc_XP_mul (_tag_fat 1020 1 4) 2 (_tag_fat 1000 1 2) 2 (_tag_fat 1010 1 2)
      (write 1000 [255; 255] (write 1010 [1; 2] (write 1020 [7; 0; 0; 0] ∅))) =
    (Ret c, write 1020 zs' (write 1000 [255; 255] (write 1010 [1; 2] (write 1020 [7; 0; 0; 0] ∅)))) /\
    length zs' = 4%nat /\ Forall byte_ok zs' /\ num zs' + 4294967296 * c = 7 + 65535 * 513.
Proof.
  apply (xp_mul_exact (write 1000 [255; 255] (write 1010 [1; 2] (write 1020 [7; 0; 0; 0] ∅)))
    (_tag_fat 1020 1 4) 1020 (_tag_fat 1000 1 2) 1000 [255; 255] (_tag_fat 1010 1 2) 1010 [1; 2] [7; 0; 0; 0]);
    unfold digits_of, apart, byte_ok; simpl length; split_and?; try (split; simpl; lia); try done; try (repeat constructor; lia); try lia;
    repeat (apply write_in || (apply holds_write; [|intros a Ha; unfold outside; simpl in *; lia])).
Defined.
