(* ===== verification/XPDivSpec.v ===== *)
(** * Division of multiple-precision numbers

    Estimation and correction of one digit of the quotient, and the long division
    built from them. *)

From S2P Require Import Prelude RwLock Alloc Region RegionSafety Words FatPtr CycBytes ByteMem CycXP XPSpec XPMul.

(** ** Division is exact

    [Cyc_XP_div] computes quotient and remainder.  The long division estimates
    each digit of the quotient from three digits of the remainder and two of the
    divisor; the estimate is the digit or one more, the comparison finds out
    which, and no assertion of the code can fail. *)

(** ** The estimate of a digit *)

(** With [r3] and [y2] the leading parts of [R] and [Y] above the weight [B],
    and [y2] of two digits: the estimate is at most one too large. *)
Lemma estimate_close B R Y r3 y2 : 0 < B -> B * r3 <= R < B * (r3 + 1) -> B * y2 <= Y < B * (y2 + 1) -> 256 <= y2 ->
  0 <= R < 256 * Y -> let e := r3 / y2 in let qk := if 256 <=? e then 255 else e in
  0 <= qk <= 255 /\ R / Y <= qk <= R / Y + 1.
Proof.
  intros HB HR HY Hy2 Hlt e qk. assert (0 <= r3) by nia. assert (He : 0 <= e) by (apply Z.div_pos; lia).
  assert (Hq : 0 <= R / Y <= 255) by (split; [apply Z.div_pos; nia|assert (R / Y < 256) by (apply Z.div_lt_upper_bound; nia); lia]).
  assert (Hqk : 0 <= qk <= 255) by (unfold qk; destruct (256 <=? e) eqn:E; lia). split; [done|].
  assert (HYpos : 0 < Y) by nia. pose proof (Z.mul_div_le R Y HYpos) as Hle.
  assert (Hqe : R / Y <= e).
  { apply Z.div_le_lower_bound; [lia|]. assert (B * (R / Y * y2) <= Y * (R / Y)) by nia. nia. }
  assert (Heq : qk <= e) by (unfold qk; destruct (256 <=? e) eqn:E; lia).
  split; [unfold qk; destruct (256 <=? e) eqn:E; lia|].
  assert (Hm : y2 * e <= r3) by (apply Z.mul_div_le; lia).
  assert (qk * Y < R + Y) by nia.
  assert (qk - 1 <= R / Y) by (apply Z.div_le_lower_bound; nia). lia.
Qed.

(** The estimate, corrected when its product with [Y] exceeds [R], is exact. *)
Lemma estimate_corrected R Y qk : 0 < Y -> 0 <= R -> R / Y <= qk <= R / Y + 1 ->
  (if R <? Y * qk then qk - 1 else qk) = R / Y.
Proof.
  intros HY HR Hqk. pose proof (Z.div_mod R Y). pose proof (Z.mod_pos_bound R Y).
  destruct (R <? Y * qk) eqn:E; nia.
Qed.

(** ** Memory of a division *)

(** Everything allocated in [m] still is, and outside [t] and [q] nothing changed. *)
Record kept (m : bytes) (t nt q nq : Z) (m' : bytes) : Prop := {
  k_room : forall a, is_Some (m !! a) -> is_Some (m' !! a);
  k_same : forall a, outside t nt a -> outside q nq a -> m' !! a = m !! a
}.

Lemma kept_refl m t nt q nq : kept m t nt q nq m.
Proof. by split. Qed.

Lemma kept_write m t nt q nq m' p l : kept m t nt q nq m' ->
  (t <= p /\ p + Z.of_nat (length l) <= t + nt) \/ (q <= p /\ p + Z.of_nat (length l) <= q + nq) ->
  kept m t nt q nq (write p l m').
Proof.
  intros [Hr Hs] Hp. split.
  - intros a Ha. rewrite write_lookup. case_decide; [apply lookup_lt_is_Some; lia|by apply Hr].
  - intros a Ht Hq. rewrite write_out; [by apply Hs|]. unfold outside in *. lia.
Qed.

Lemma kept_room m t nt q nq m' p n : kept m t nt q nq m' -> room m p n -> room m' p n.
Proof. intros [Hr _] Hm a Ha. by apply Hr, Hm. Qed.

Lemma kept_holds m t nt q nq m' p l : kept m t nt q nq m' -> holds m p l ->
  (p + Z.of_nat (length l) <= t \/ t + nt <= p) -> (p + Z.of_nat (length l) <= q \/ q + nq <= p) -> holds m' p l.
Proof.
  intros [_ Hs] Hm Ht Hq i d Hd. pose proof (lookup_lt_Some _ _ _ Hd). rewrite Hs; [by apply Hm| |]; unfold outside; lia.
Qed.

(** ** One digit of the quotient *)

Definition disjoint (p np q nq : Z) : Prop := p + np <= q \/ q + nq <= p.

Section digits.
Context (m0 : bytes) (q y rem dq : fat_ptr) (pq py t : Z) (ys : list Z) (nq n : nat).
Local Definition m : nat := length ys.
Local Definition Y : Z := num ys.
(** The remainder has [n + 1] digits at [t]; after it, [m + 1] for [dq]. *)
Local Definition d : Z := t + Z.of_nat n + 1.
Context (Hm : (2 <= m <= n)%nat) (Hlead : exists e, ys !! (m - 1)%nat = Some e /\ 0 < e).
Context (Hy : digits_of m0 y py ys) (Hq : target m0 q pq nq) (Hnq : (n <= nq)%nat) (Hint : Z.of_nat n < 2147483648).
Context (Hrem : spans rem t (Z.of_nat n + 1)) (Hdq : spans dq d (Z.of_nat m + 1)) (Hroom : room m0 t (Z.of_nat n + Z.of_nat m + 2)).
Context (Hyt : disjoint py (Z.of_nat m) t (Z.of_nat n + Z.of_nat m + 2)) (Hyq : disjoint py (Z.of_nat m) pq (Z.of_nat nq))
  (Htq : disjoint t (Z.of_nat n + Z.of_nat m + 2) pq (Z.of_nat nq)).

Abbreviation kept0 := (kept m0 t (Z.of_nat n + Z.of_nat m + 2) pq (Z.of_nat nq)).

Lemma divisor_bounds : weight (m - 1) <= Y < weight m.
Proof.
  destruct Hlead as (e & He & Hpos). pose proof (proj2 (proj2 Hy)) as Hb. pose proof (num_bound ys Hb) as H1. fold m in H1.
  unfold Y. split; [|lia]. rewrite (num_split ys (m - 1)) by (unfold m; lia). rewrite (drop_S _ _ _ He). simpl.
  pose proof (num_bound (take (m - 1) ys) (Forall_take _ _ _ Hb)). pose proof (num_bound _ (Forall_drop _ (S (m - 1)) _ Hb)).
  pose proof (weight_pos (m - 1)). nia.
Qed.

Lemma divisor_at mm : kept0 mm -> digits_of mm y py ys.
Proof.
  intros Hk. destruct Hy as (Hs & Hh & Hb). split_and!; [done| |done]. eapply kept_holds; [done|done|exact Hyt|exact Hyq].
Qed.

(** The product of the divisor and a digit, at [dq]. *)
Lemma times_spec mm qk : kept0 mm -> 0 <= qk <= 255 ->
  returns (Cyc_XP_product (Z.of_nat m) dq y qk)
    (fun c mm' => byte_ok c /\ exists l, length l = m /\ Forall byte_ok l /\ mm' = write d l mm /\ num (l ++ [c]) = Y * qk) mm.
Proof.
  intros Hk Hqk. eapply wp_conseq.
  { apply (product_spec mm dq d m) with (q := py).
    - split; [eapply spans_sub; [done|lia]|]. eapply kept_room; [done|]. eapply room_sub; [done|unfold d; lia..].
    - split_and!; [by apply divisor_at|done|]. unfold behind. unfold disjoint in Hyt. unfold d. lia.
    - lia. }
  intros c mm' (l & Hl & Hb & -> & Hc & Hn). unfold byte_ok. split; [lia|]. exists l. split_and!; try done.
  rewrite num_snoc, Hl. unfold Y. lia.
Qed.

(** The remainder [rs], seen from digit [k]. *)
Definition window (k : nat) (rs : list Z) : list Z := take (S m) (drop k rs).

Lemma window_lookup k rs i : (i <= m)%nat -> window k rs !! i = rs !! (k + i)%nat.
Proof. intros Hi. unfold window. rewrite lookup_take_lt by lia. by rewrite lookup_drop. Qed.

Lemma window_length k rs : (k + m < length rs)%nat -> length (window k rs) = S m.
Proof. intros Hk. unfold window. rewrite length_take, length_drop. lia. Qed.

(** Above the window the remainder is zero. *)
Lemma window_num k rs : Forall byte_ok rs -> (k + m < length rs)%nat -> num rs < Y * weight (S k) ->
  num rs = num (take k rs) + weight k * num (window k rs) /\ 0 <= num (window k rs) < 256 * Y /\ 0 <= num (take k rs) < weight k /\
  num (drop (k + S m) rs) = 0.
Proof.
  intros Hb Hk Hlt. pose proof divisor_bounds as HY. pose proof (num_bound (take k rs) (Forall_take _ _ _ Hb)) as H1.
  rewrite length_take, Nat.min_l in H1 by lia. pose proof (num_bound (drop (k + S m) rs) (Forall_drop _ _ _ Hb)) as H2.
  pose proof (num_bound (window k rs) (Forall_take _ _ _ (Forall_drop _ _ _ Hb))) as H3.
  assert (Hs : num rs = num (take k rs) + weight k * (num (window k rs) + weight (S m) * num (drop (k + S m) rs))).
  { rewrite (num_split rs k) at 1 by lia. rewrite (num_split (drop k rs) (S m)) by (rewrite length_drop; lia).
    by rewrite drop_drop. }
  pose proof (weight_pos k). pose proof (weight_pos m). rewrite !weight_S in *. 
  assert (Hz : num (drop (k + S m) rs) = 0).
  { assert (weight k * (256 * weight m * num (drop (k + S m) rs)) < weight k * (256 * weight m)) by nia. nia. }
  rewrite Hz in *. split_and!; try lia; nia.
Qed.

(** The leading part of a number. *)
Lemma leading_part l j v : Forall byte_ok l -> (j <= length l)%nat -> num (drop j l) = v ->
  weight j * v <= num l < weight j * (v + 1).
Proof.
  intros Hb Hj <-. rewrite (num_split l j) by done. pose proof (num_bound (take j l) (Forall_take _ _ _ Hb)) as H1.
  rewrite length_take, Nat.min_l in H1 by lia. lia.
Qed.

Lemma estimate_spec mm rs k : digits_of mm y py ys -> digits_of mm rem t rs -> (k + m < length rs)%nat ->
  num rs < Y * weight (S k) ->
  returns (estimate (Z.of_nat m) (Z.of_nat k) rem y)
    (fun qk mm' => mm' = mm /\ 0 <= qk <= 255 /\ num (window k rs) / Y <= qk <= num (window k rs) / Y + 1) mm.
Proof.
  intros Hym Hrm Hk Hlt. pose proof (proj2 (proj2 Hym)) as Hyb. pose proof (proj2 (proj2 Hrm)) as Hrb.
  destruct (window_num k rs) as (_ & HR & _ & _); [done..|]. set (W := window k rs) in *.
  assert (HWl : length W = S m) by (by apply window_length).
  assert (HWb : Forall byte_ok W) by (apply Forall_take, Forall_drop, Hrb).
  destruct (lookup_lt_is_Some_2 ys (m - 2)) as [y0 Hy0]; [unfold m in *; lia|]. destruct Hlead as (y1 & Hy1 & Hpos).
  destruct (lookup_lt_is_Some_2 W (m - 2)) as [c Hc]; [lia|]. destruct (lookup_lt_is_Some_2 W (m - 1)) as [b Hb]; [lia|].
  destruct (lookup_lt_is_Some_2 W m) as [a Ha]; [lia|].
  pose proof (Forall_lookup_1 _ _ _ _ Hyb Hy0) as By0. pose proof (Forall_lookup_1 _ _ _ _ Hyb Hy1) as By1.
  pose proof (Forall_lookup_1 _ _ _ _ HWb Hc) as Bc. pose proof (Forall_lookup_1 _ _ _ _ HWb Hb) as Bb.
  pose proof (Forall_lookup_1 _ _ _ _ HWb Ha) as Ba. unfold byte_ok in By0, By1, Bc, Bb, Ba.
  assert (HY2 : num (drop (m - 2) ys) = y1 * 256 + y0).
  { rewrite (num_drop_S _ _ _ Hy0). replace (S (m - 2)) with (m - 1)%nat by lia. rewrite (num_drop_S _ _ _ Hy1).
    rewrite drop_ge by (unfold m; lia). simpl. lia. }
  assert (HR3 : num (drop (m - 2) W) = a * 65536 + b * 256 + c).
  { rewrite (num_drop_S _ _ _ Hc). replace (S (m - 2)) with (m - 1)%nat by lia. rewrite (num_drop_S _ _ _ Hb).
    replace (S (m - 1)) with m by lia. rewrite (num_drop_S _ _ _ Ha). rewrite drop_ge by lia. simpl. lia. }
  unfold W in Ha, Hb, Hc. rewrite window_lookup in Ha, Hb, Hc by lia.
  unfold estimate. replace (Z.of_nat m - 1) with (Z.of_nat (m - 1)) by lia. replace (Z.of_nat m - 2) with (Z.of_nat (m - 2)) by lia.
  replace (Z.of_nat k + Z.of_nat m - 1) with (Z.of_nat (k + (m - 1))) by lia.
  replace (Z.of_nat k + Z.of_nat m - 2) with (Z.of_nat (k + (m - 2))) by lia. rewrite <- Nat2Z.inj_add.
  do 2 (apply wp_bind; eapply (wp_read mm y py ys); [done|done|done|intros _]).
  do 3 (apply wp_bind; eapply (wp_read mm rem t rs); [done|done|done|intros _]).
  rewrite !u32_small by lia. destruct (y1 * 256 + y0 =? 0) eqn:E0; [lia|].
  assert (Hi : 0 <= (a * 65536 + b * 256 + c) / (y1 * 256 + y0) < 2147483648) by (split; [apply Z.div_pos; lia|apply Z.div_lt_upper_bound; nia]).
  rewrite i32_small by lia. apply wp_ret. split; [done|].
  apply (estimate_close (weight (m - 2))); [apply weight_pos|apply leading_part; [done|lia|done]| |lia|done].
  apply leading_part; [done|unfold m in *; lia|done].
Qed.

Lemma exceeds_spec mm rs D k : digits_of mm rem t rs -> digits_of mm dq d D -> (k + m < length rs)%nat -> length D = S m ->
  returns (exceeds (Z.of_nat m) (Z.of_nat k) rem dq) (fun e mm' => mm' = mm /\ e = (num (window k rs) <? num D)) mm.
Proof.
  intros Hrm Hdm Hk HD. pose proof (proj2 (proj2 Hrm)) as Hrb. pose proof (proj2 (proj2 Hdm)) as Hdb.
  set (W := window k rs). assert (HWl : length W = S m) by (by apply window_length).
  assert (HWb : Forall byte_ok W) by (apply Forall_take, Forall_drop, Hrb).
  unfold exceeds. apply wp_bind. replace (Z.of_nat m) with (Z.of_nat (length W - 1)) at 2 by lia.
  eapply wp_conseq; [apply (differ_loop (fun i => digit rem (i + Z.of_nat k) 149) (fun i => digit dq i 149) W D)|].
  - intros i a Q E Ha HQ. assert (Hi : (i <= m)%nat) by (apply lookup_lt_Some in Ha; lia). unfold W in Ha. rewrite window_lookup in Ha by done.
    replace (Z.of_nat i + Z.of_nat k) with (Z.of_nat (k + i)) by lia. by eapply (wp_read mm rem t rs).
  - by eapply digits_read.
  - lia.
  - lia.
  - intros i mm' (-> & j & -> & a & b & Ha & Hb & Hd & Hne). pose proof (lookup_lt_Some _ _ _ Ha). pose proof Ha as Hak.
    unfold W in Hak. rewrite window_lookup in Hak by lia. replace (Z.of_nat j + Z.of_nat k) with (Z.of_nat (k + j)) by lia.
    apply wp_bind. eapply (wp_read mm rem t rs); [done|done|done|]. intros _.
    apply wp_bind. eapply (wp_read mm dq d D); [done|done|done|]. intros _. apply wp_ret. split; [done|].
    assert (Hs : Z.sgn (a - b) = Z.sgn (num W - num D)) by (eapply num_compare; done || lia). lia.
Qed.

(** Writing a product at [dq] keeps the remainder. *)
Lemma product_kept mm l : kept0 mm -> (length l <= S m)%nat -> kept0 (write d l mm).
Proof. intros Hk Hl. apply kept_write; [done|]. unfold d. lia. Qed.

Lemma rem_after_product mm rs l : length rs = S n -> digits_of mm rem t rs -> digits_of (write d l mm) rem t rs.
Proof.
  intros Hl (Hs & Hh & Hb). split_and!; [done| |done]. apply holds_write; [done|]. intros a Ha. unfold outside, d. lia.
Qed.

(** The part of the loop body that finds the digit: the digit is exact and [dq]
    holds its product with the divisor. *)
Lemma find_digit_spec {A} mm rs k (cont : Z -> BM A) Q : kept0 mm -> digits_of mm rem t rs -> length rs = S n -> (k + m <= n)%nat ->
  num rs < Y * weight (S k) ->
  (forall D, length D = S m -> Forall byte_ok D -> num D = Y * (num (window k rs) / Y) ->
     returns (cont (num (window k rs) / Y)) Q (write d D mm)) ->
  returns (qk ← estimate (Z.of_nat m) (Z.of_nat k) rem y;
    c ← Cyc_XP_product (Z.of_nat m) dq y qk; set_digit dq (Z.of_nat m) c 147;;
    e ← exceeds (Z.of_nat m) (Z.of_nat k) rem dq;
    qk ← (if e : bool then
            c ← Cyc_XP_product (Z.of_nat m) dq y (i32 (qk - 1)); put_byte (u32 (curr dq + Z.of_nat m)) c;; mret (i32 (qk - 1))
          else mret qk);
    cont qk) Q mm.
Proof.
  intros Hk Hr Hl Hkm Hlt Hcont. pose proof divisor_bounds as HY. pose proof (weight_pos (m - 1)) as Hw.
  destruct (window_num k rs) as (_ & HR & _ & _); [apply Hr|lia|done|]. set (R := num (window k rs)) in *.
  pose proof (sp_curr _ _ _ Hdq) as Hcd. pose proof (sp_last _ _ _ Hdq) as Hld. pose proof (sp_end _ _ _ Hdq) as Hed. pose proof (sp_pos _ _ _ Hdq) as Hpd.
  apply wp_bind. eapply wp_conseq; [apply estimate_spec; [by apply divisor_at|done|lia|done]|].
  intros qk mm' (-> & Hqk & Hest). fold R in Hest. pose proof (estimate_corrected R Y qk ltac:(lia) ltac:(lia) Hest) as Hcor.
  apply wp_bind. eapply wp_conseq; [by apply times_spec|]. intros c mm1 (Hc & l & Hll & Hlb & -> & Hn1).
  apply wp_bind. eapply (wp_set_digit dq d); [done|lia| |].
  { apply (room_write mm d (Z.of_nat m + 1)); [|lia]. eapply kept_room; [done|]. eapply room_sub; [done|unfold d; lia..]. }
  rewrite u8_small, <- Hll, <- write_snoc by done. rewrite Hll. set (D1 := l ++ [c]) in *.
  assert (HD1 : length D1 = S m) by (unfold D1; rewrite length_app; simpl; lia).
  assert (HB1 : Forall byte_ok D1) by (apply Forall_app_2; [done|by apply Forall_singleton]).
  apply wp_bind. eapply wp_conseq.
  { apply (exceeds_spec _ rs D1); [by apply rem_after_product| |lia|done].
    split_and!; [rewrite HD1; eapply spans_sub; [done|lia]|apply write_in|done]. }
  intros e mm' (-> & ->). fold R. rewrite Hn1. apply wp_bind. destruct (R <? Y * qk) eqn:E1.
  - assert (Hq1 : i32 (qk - 1) = qk - 1) by (apply i32_small; lia). rewrite Hq1. apply wp_bind. eapply wp_conseq.
    { apply times_spec; [apply product_kept; [done|lia]|nia]. }
    intros c2 mm2 (Hc2 & l2 & Hll2 & Hlb2 & -> & Hn2). rewrite Hcd, u32_small by lia. apply wp_bind, wp_put_byte.
    { apply (room_write _ d (Z.of_nat m + 1)); [|lia]. apply room_write. eapply kept_room; [done|]. eapply room_sub; [done|unfold d; lia..]. }
    rewrite u8_small, <- Hll2, <- write_snoc, write_write by (done || (rewrite length_app, HD1; simpl; lia)).
    apply wp_ret. rewrite Hcor. apply Hcont.
    + rewrite length_app. simpl. lia.
    + apply Forall_app_2; [done|by apply Forall_singleton].
    + by rewrite Hn2, Hcor.
  - apply wp_ret. rewrite Hcor. apply Hcont; [done|done|by rewrite Hn1, Hcor].
Qed.

(** ** The loop *)

(** The digits of the quotient from [k] on are [qd], and the remainder [rs]
    completes them to [X]. *)
Definition progress (X : Z) (k : nat) (mm : bytes) : Prop :=
  kept0 mm /\ exists rs qd, length rs = S n /\ Forall byte_ok rs /\ holds mm t rs /\
    (length qd + k = n - m + 1)%nat /\ Forall byte_ok qd /\ holds mm (pq + Z.of_nat k) qd /\
    num rs < Y * weight k /\ num rs + Y * weight k * num qd = X.

(** Replacing the window of the remainder. *)
Lemma window_replace mm rs k w : length rs = S n -> holds mm t rs -> (k + m <= n)%nat -> length w = S m ->
  holds (write (t + Z.of_nat k) w mm) t (take k rs ++ w ++ drop (k + S m) rs).
Proof.
  intros Hl Hh Hk Hw. assert (Hkl : length (take k rs) = k) by (rewrite length_take; lia).
  rewrite !holds_app, Hkl, Hw. split_and!.
  - apply holds_write; [apply (holds_sub mm t rs 0 k) in Hh; by rewrite Z.add_0_r in Hh|]. intros a Ha. unfold outside. lia.
  - apply write_in.
  - apply holds_write; [|intros a Ha; rewrite length_drop in Ha; unfold outside; lia].
    pose proof (holds_sub mm t rs (k + S m) (length rs) Hh) as H1. rewrite firstn_all2 in H1 by (rewrite length_drop; lia).
    by replace (t + Z.of_nat k + Z.of_nat (S m)) with (t + Z.of_nat (k + S m)) by lia.
Qed.

(** Subtracting the product from the window leaves the remainder of the window,
    without a borrow. *)
Lemma subtract_spec mm rs k D : (k + m <= n)%nat -> length rs = S n -> Forall byte_ok rs -> holds mm t rs -> num rs < Y * weight (S k) ->
  length D = S m -> Forall byte_ok D -> holds mm d D -> num D = Y * (num (window k rs) / Y) ->
  returns (borrow ← Cyc_XP_sub (Z.of_nat m + 1) (_fat_ptr_plus rem 1 (Z.of_nat k)) (_fat_ptr_plus rem 1 (Z.of_nat k)) dq 0;
           lift (cassert (borrow =? 0) "borrow == 0"))
    (fun _ mm' => exists w, length w = S m /\ Forall byte_ok w /\ mm' = write (t + Z.of_nat k) w mm /\ num w = num (window k rs) mod Y) mm.
Proof.
  intros Hkm Hl Hb Hh Hlt HD HDb HDh HDn. pose proof divisor_bounds as HY. pose proof (weight_pos (m - 1)) as Hwm.
  destruct (window_num k rs) as (_ & HR & _ & _); [done|lia|done|]. set (R := num (window k rs)) in *.
  pose proof (Z.div_mod R Y ltac:(lia)) as Hdm. pose proof (Z.mod_pos_bound R Y ltac:(lia)) as Hmod.
  assert (Hw4 : digits_of mm (_fat_ptr_plus rem 1 (Z.of_nat k)) (t + Z.of_nat k) (window k rs)).
  { split_and!; [|by apply holds_sub|apply Forall_take, Forall_drop, Hb]. rewrite window_length by lia.
    eapply spans_sub; [eapply spans_plus; [done|lia|lia]|lia]. }
  apply wp_bind. replace (Z.of_nat m + 1) with (Z.of_nat (S m)) by lia. eapply wp_conseq.
  { apply (sub_spec mm (_fat_ptr_plus rem 1 (Z.of_nat k)) (t + Z.of_nat k) (S m)) with (q := t + Z.of_nat k) (xs := window k rs) (r := d) (ys := D).
    - split; [destruct Hw4 as (Hsp & _); by rewrite window_length in Hsp by lia|]. eapply room_sub; [exact (holds_room _ _ _ Hh)|lia|lia].
    - split_and!; [done|apply window_length; lia|]. left. lia.
    - split_and!; [|done|left; unfold d; lia]. split_and!; [|done|done]. rewrite HD. eapply spans_sub; [done|lia].
    - lia. }
  intros c mm5 (w & Hwl & Hwb & -> & Hc & Hwn). rewrite HDn in Hwn. fold R in Hwn. pose proof (num_bound w Hwb) as Hwbd. rewrite Hwl in Hwbd.
  assert (c = 0) as -> by (rewrite weight_S in *; nia). apply wp_assert; [done|]. exists w. split_and!; done || lia.
Qed.

Lemma quotient_digit_spec X k mm : (k + m <= n)%nat -> progress X (S k) mm ->
  returns (quotient_digit (Z.of_nat n) (Z.of_nat m) (Z.of_nat k) q rem y dq) (fun _ => progress X k) mm.
Proof.
  intros Hkm (Hk & rs & qd & Hl & Hb & Hh & Hql & Hqb & Hqh & Hlt & HX). pose proof divisor_bounds as HY.
  pose proof (weight_pos (m - 1)) as Hwm. unfold disjoint in Htq. destruct Hq as [Hsq Hrq].
  assert (Hr : digits_of mm rem t rs) by (split_and!; [rewrite Hl; eapply spans_sub; [done|lia]|done|done]).
  destruct (window_num k rs) as (Hs & HR & Hlow & Hhigh); [done|lia|done|]. set (R := num (window k rs)) in *.
  pose proof (Z.div_mod R Y ltac:(lia)) as Hdm. pose proof (Z.mod_pos_bound R Y ltac:(lia)) as Hmod.
  assert (Hqk : byte_ok (R / Y)) by (split; [apply Z.div_pos; lia|apply Z.div_lt_upper_bound; lia]).
  unfold quotient_digit. apply wp_bind, wp_assert; [lia|].
  apply (find_digit_spec mm rs); [done|done|done|done|done|]. intros D HD HDb HDn. fold R.
  set (mm3 := write d D mm). assert (Hk3 : kept0 mm3) by (apply product_kept; [done|lia]).
  apply wp_bind. eapply (wp_set_digit q pq); [done|lia| |].
  { by apply (k_room _ _ _ _ _ _ Hk3), Hrq; lia. }
  rewrite u8_small by done. change (<[pq + Z.of_nat k := R / Y]> mm3) with (write (pq + Z.of_nat k) [R / Y] mm3).
  set (mm4 := write (pq + Z.of_nat k) [R / Y] mm3). apply wp_bind, wp_assert; [lia|].
  assert (Hk4 : kept0 mm4) by (apply kept_write; [done|simpl; lia]).
  assert (Hh4 : holds mm4 t rs).
  { apply holds_write; [by apply rem_after_product|]. intros a Ha. unfold outside. simpl. lia. }
  assert (Hd4 : holds mm4 d D).
  { apply holds_write; [apply write_in|]. intros a Ha. unfold outside, d in *. simpl. lia. }
  eapply wp_conseq; [by eapply (subtract_spec mm4 rs k D)|]. intros _ mm5 (w & Hwl & Hwb & -> & Hwr). fold R in Hwr. split.
  { apply kept_write; [done|]. lia. }
  exists (take k rs ++ w ++ drop (k + S m) rs), ((R / Y) :: qd). assert (Hkl : length (take k rs) = k) by (rewrite length_take; lia).
  assert (Hnum : num (take k rs ++ w ++ drop (k + S m) rs) = num (take k rs) + weight k * (R mod Y)).
  { rewrite !num_app, Hkl, Hhigh, Hwr. lia. }
  rewrite Hnum. split_and!.
  - rewrite !length_app, Hkl, Hwl, length_drop. lia.
  - repeat apply Forall_app_2; [by apply Forall_take|done|by apply Forall_drop].
  - by apply window_replace.
  - simpl. lia.
  - by constructor.
  - apply holds_write; [|intros a Ha; simpl in Ha; unfold outside; lia]. apply (holds_app _ _ [R / Y] qd). split; [apply write_in|].
    simpl length. apply holds_write; [|intros a Ha; unfold outside; simpl; lia].
    apply holds_write; [|intros a Ha; unfold outside, d; lia]. by replace (pq + Z.of_nat k + Z.of_nat 1) with (pq + Z.of_nat (S k)) by lia.
  - nia.
  - simpl. rewrite weight_S in HX. rewrite Hs in HX. nia.
Qed.
End digits.

(** ** Quotient and remainder

    The three cases of [Cyc_XP_div] (a divisor of one digit, a divisor with more
    digits than the dividend, long division) all compute the quotient and the
    remainder of the Euclidean division, and write nothing else but the
    temporary digits. *)

Section division.
Context (m0 : bytes) (q x y r tmp : fat_ptr) (pq px py pr t : Z) (xs ys : list Z).
Local Definition nx : nat := length xs.
Local Definition my : nat := length ys.
Abbreviation nt := (nx + my + 2)%nat.
Context (Hx : digits_of m0 x px xs) (Hy : digits_of m0 y py ys).
Context (Hnx : (0 < nx)%nat) (Hmy : (0 < my)%nat) (Hxi : Z.of_nat nx < 2147483648) (Hyi : Z.of_nat my < 2147483648).
Context (Hq : target m0 q pq nx) (Hr : target m0 r pr my) (Ht : target m0 tmp t nt).
Context (Hqr : disjoint pq (Z.of_nat nx) pr (Z.of_nat my)) (Hqt : disjoint pq (Z.of_nat nx) t (Z.of_nat nt))
  (Hrt : disjoint pr (Z.of_nat my) t (Z.of_nat nt)).
Context (Hxq : disjoint px (Z.of_nat nx) pq (Z.of_nat nx)) (Hxr : disjoint px (Z.of_nat nx) pr (Z.of_nat my))
  (Hxt : disjoint px (Z.of_nat nx) t (Z.of_nat nt)).
Context (Hyq : disjoint py (Z.of_nat my) pq (Z.of_nat nx)) (Hyt : disjoint py (Z.of_nat my) t (Z.of_nat nt)).

(** The result of a division. *)
Definition divided (m' : bytes) : Prop :=
  (exists qs rs, length qs = nx /\ length rs = my /\ Forall byte_ok qs /\ Forall byte_ok rs /\ holds m' pq qs /\ holds m' pr rs /\
     num qs = num xs / num ys /\ num rs = num xs mod num ys) /\
  forall a, outside pq (Z.of_nat nx) a -> outside pr (Z.of_nat my) a -> outside t (Z.of_nat nt) a -> m' !! a = m0 !! a.

(** The remainder padded with zeros, and the quotient, after the temporary digits. *)
Lemma divided_intro mm qs rs : length qs = nx -> length rs = my -> Forall byte_ok qs -> Forall byte_ok rs ->
  (forall a, outside pq (Z.of_nat nx) a -> outside pr (Z.of_nat my) a -> outside t (Z.of_nat nt) a -> mm !! a = m0 !! a) ->
  num qs * num ys + num rs = num xs -> num rs < num ys -> divided (write pr rs (write pq qs mm)).
Proof.
  intros Hql Hrl Hqb Hrb Hmm Hn Hlt. unfold disjoint in *. pose proof (num_bound rs Hrb). split.
  - exists qs, rs. split_and!; try done.
    + apply holds_write; [apply write_in|]. intros a Ha. unfold outside. lia.
    + apply write_in.
    + apply Z.div_unique with (num rs); [by left; lia|lia].
    + apply Z.mod_unique with (num qs); [by left; lia|lia].
  - intros a Ha1 Ha2 Ha3. rewrite !write_out; [by apply Hmm|by rewrite Hql|by rewrite Hrl].
Qed.

(** ** A divisor of one digit *)

Lemma small_divisor d mm : num ys = d -> 0 < d < 256 -> mm = m0 ->
  returns (c ← Cyc_XP_quotient (Z.of_nat nx) q x d; set_digit r 0 c 118;;
      (if 1 <? _get_fat_size r 1 then Cyc_memset (_fat_ptr_plus r 1 1) 0 (u32 (Z.of_nat my - 1));; mret tt else mret tt))
    (fun _ => divided) mm.
Proof.
  intros Hd Hd1 ->. destruct Hr as [Hsr Hrr]. apply wp_bind. eapply wp_conseq.
  { eapply quotient_spec; [exact Hq| |lia]. split_and!; [exact Hx|done|]. unfold disjoint in Hxq. lia. }
  intros c m1 (qs & Hql & Hqb & -> & Hc & Hn). apply wp_bind. eapply (wp_set_digit r pr); [exact Hsr|lia| |].
  { apply (room_write m0 pr (Z.of_nat my)); [done|lia]. }
  rewrite Z.add_0_r, u8_small by (unfold byte_ok; lia).
  assert (Hdone : divided (write pr (c :: replicate (my - 1) 0) (write pq qs m0))).
  { apply divided_intro; try done.
    - simpl. rewrite length_replicate. lia.
    - constructor; [unfold byte_ok; lia|]. by apply Forall_replicate.
    - simpl. rewrite num_zeros, Hd. lia.
    - simpl. rewrite num_zeros, Hd. lia. }
  destruct (1 <? _get_fat_size r 1) eqn:E1.
  - apply wp_bind. rewrite u32_small by lia. pose proof (spans_all r pr _ Hsr ltac:(lia)) as Ha.
    pose proof (spans_size r pr _ Hsr ltac:(lia)) as Hle.
    eapply memset_spec; [eapply spans_plus; [exact Ha|lia|lia]|lia|lia| |].
    + intros a Ha'. rewrite lookup_insert_ne by lia. apply (room_write m0 pr (Z.of_nat my)); [done|lia].
    + apply wp_ret. replace (Z.to_nat (Z.of_nat my - 1)) with (my - 1)%nat by lia. change (u8 0) with 0.
      change (<[pr := c]> (write pq qs m0)) with (write pr [c] (write pq qs m0)).
      replace (pr + 1) with (pr + Z.of_nat (length [c])) by (simpl; lia). by rewrite <- write_app.
  - apply wp_ret. pose proof (spans_size r pr _ Hsr ltac:(lia)). by replace (my - 1)%nat with 0%nat in Hdone by lia.
Qed.

(** ** A divisor with more digits *)

Lemma large_divisor n m : significant xs n -> significant ys m -> (n < m)%nat ->
  returns (Cyc_memset q 0 (u32 (Z.of_nat nx));;
      Cyc__memcpy r x (u32 (Z.of_nat n)) 1;;
      Cyc_memset (_fat_ptr_plus r 1 (Z.of_nat n)) 0 (u32 (Z.of_nat my - Z.of_nat n)))
    (fun _ => divided) m0.
Proof.
  intros Hn Hm Hlt. pose proof Hn as ((Hn1 & Hn2) & Hnum & _). pose proof Hm as ((_ & Hm2) & _ & _). fold nx in Hn2. fold my in Hm2.
  destruct Hq as [Hsq Hrq], Hr as [Hsr Hrr]. unfold disjoint in *.
  rewrite !u32_small by lia. apply wp_bind. eapply memset_spec; [exact Hsq|lia|lia|done|]. rewrite Nat2Z.id. change (u8 0) with 0.
  destruct (prefix_digits x px xs n m0) as (Hsx & Hhx & Hbx); [done|done|].
  assert (Hlen : length (take n xs) = n) by (rewrite length_take; unfold nx in *; lia). rewrite Hlen in Hsx.
  apply wp_bind. rewrite <- Hlen at 1. eapply memcpy_spec; rewrite ?Hlen; [eapply spans_sub; [exact Hsr|lia]|exact Hsx|lia|lia| | |done|].
  { apply room_write. eapply room_sub; [exact Hrr|lia|lia]. }
  { apply holds_write; [done|]. rewrite Hlen, length_replicate. intros a Ha. unfold outside. lia. }
  eapply memset_spec; [eapply spans_plus; [exact Hsr|lia|lia]|lia|lia| |].
  { apply room_write, room_write. eapply room_sub; [exact Hrr|lia|lia]. }
  rewrite <- Hlen at 1. rewrite <- write_app. replace (Z.to_nat _) with (my - n)%nat by lia.
  pose proof (significant_upper xs n (proj2 (proj2 Hx)) Hn). pose proof (significant_lower ys m (proj2 (proj2 Hy)) Hm ltac:(lia)).
  assert (weight n <= weight (m - 1)) by (apply Z.pow_le_mono_r; lia).
  apply divided_intro; try done.
  - by rewrite length_replicate.
  - rewrite length_app, Hlen, length_replicate. lia.
  - by apply Forall_replicate.
  - apply Forall_app_2; [done|]. by apply Forall_replicate.
  - rewrite num_zeros, num_app. change (u8 0) with 0. rewrite num_zeros, Hnum. lia.
  - rewrite num_app. change (u8 0) with 0. rewrite num_zeros, Hnum. lia.
Qed.

(** ** Long division *)

Section long.
Context (n m : nat) (Hn : significant xs n) (Hm : significant ys m) (Hmn : (2 <= m <= n)%nat).
Local Definition dq : fat_ptr := _fat_ptr_plus (_fat_ptr_plus tmp 1 (Z.of_nat n)) 1 1.
Abbreviation running := (progress m0 pq t (take m ys) nx n (num xs)).

Lemma sizes : (n <= nx)%nat /\ (m <= my)%nat /\ length (take m ys) = m /\ length (take n xs) = n.
Proof. destruct Hn as ((_ & H1) & _), Hm as ((_ & H2) & _). unfold nx, my. rewrite !length_take. lia. Qed.

(** The remainder is the dividend at first. *)
Lemma long_start : running (n - m + 1) (write t (take n xs ++ [0]) m0).
Proof.
  destruct sizes as (Hn1 & Hm1 & Hly & Hlx). pose proof Hn as (_ & Hnum & _). pose proof Hm as (_ & HnumY & _).
  pose proof (significant_upper xs n (proj2 (proj2 Hx)) Hn) as Hup. pose proof (significant_lower ys m (proj2 (proj2 Hy)) Hm ltac:(lia)) as Hlow.
  assert (Hl : length (take n xs ++ [0]) = S n) by (rewrite length_app, Hlx; simpl; lia).
  assert (HX : num (take n xs ++ [0]) = num xs) by (rewrite num_snoc, Hnum; lia). split.
  { apply kept_write; [apply kept_refl|]. rewrite Hl. lia. }
  exists (take n xs ++ [0]), []. rewrite HX. unfold XPDivSpec.m, XPDivSpec.Y. rewrite Hly, HnumY. split_and!; try done.
  - apply Forall_app_2; [apply Forall_take, Hx|]. by apply Forall_singleton.
  - apply write_in.
  - assert (weight n = weight (m - 1) * weight (n - m + 1)) by (rewrite <- weight_add; f_equal; lia).
    pose proof (weight_pos (n - m + 1)). nia.
  - simpl. lia.
Qed.

Lemma long_loop mm : running (n - m + 1) mm ->
  returns (for_down (Z.of_nat n - Z.of_nat m) 0
      (fun k _ => quotient_digit (Z.of_nat n) (Z.of_nat m) k q tmp y dq) tt) (fun _ => running 0) mm.
Proof.
  destruct sizes as (Hn1 & Hm1 & Hly & Hlx). intros H0. destruct Ht as [Hst Hrt']. unfold disjoint in *.
  apply (wp_for_down _ _ _ (fun i _ mm => running (Z.to_nat (i + 1)) mm)); [lia| | |].
  - by replace (Z.to_nat _) with (n - m + 1)%nat by lia.
  - intros i [] mm1 Hi HI. replace (Z.to_nat (i - 1 + 1)) with (Z.to_nat i) by lia. replace i with (Z.of_nat (Z.to_nat i)) at 1 by lia.
    replace (Z.to_nat (i + 1)) with (S (Z.to_nat i)) in HI by lia. rewrite <- Hly at 1.
    pose proof Hm as (_ & _ & Hd).
    apply (quotient_digit_spec m0 q y tmp dq pq py t (take m ys) nx n); unfold XPDivSpec.m, XPDivSpec.d, disjoint; rewrite ?Hly; try done; try lia.
    + destruct Hd as [->|(e & He & Hpos)]; [lia|]. exists e. rewrite lookup_take_lt by lia. done.
    + by apply prefix_digits.
    + eapply spans_sub; [exact Hst|lia].
    + unfold dq. eapply spans_sub; [eapply spans_plus; [eapply spans_plus; [exact Hst|lia|lia]|lia|lia]|lia].
    + eapply room_sub; [exact Hrt'|lia|lia].
  - intros [] mm1 HI. done.
Qed.

Lemma long_finish mm : running 0 mm ->
  returns (Cyc__memcpy r tmp (Z.of_nat m) 1;;
      for_up (Z.of_nat n - Z.of_nat m + 1) (Z.of_nat nx) (fun i _ => set_digit q i 0 166) tt;;
      for_up (Z.of_nat m) (Z.of_nat my) (fun i _ => set_digit r i 0 168) tt) (fun _ => divided) mm.
Proof.
  destruct sizes as (Hn1 & Hm1 & Hly & Hlx). destruct Ht as [Hst Hrt'], Hq as [Hsq Hrq], Hr as [Hsr Hrr]. unfold disjoint in *.
  intros (Hk & rs & qd & Hl & Hb & Hh & Hql & Hqb & Hqh & Hlt & HX). unfold XPDivSpec.m, XPDivSpec.Y in *. rewrite Hly in *.
  pose proof Hm as (_ & HnumY & _). rewrite HnumY, weight_0 in *. rewrite Z.add_0_r in Hqh.
  assert (Hrs : num (take m rs) = num rs).
  { pose proof (significant_upper ys m (proj2 (proj2 Hy)) Hm). apply num_low; [done|lia|lia]. }
  assert (Hlr : length (take m rs) = m) by (rewrite length_take; lia).
  apply wp_bind. rewrite <- Hlr at 1. eapply memcpy_spec; rewrite ?Hlr;
    [eapply spans_sub; [exact Hsr|lia]|eapply spans_sub; [exact Hst|lia]|lia|lia| | |by apply Forall_take|].
  { eapply kept_room; [exact Hk|]. eapply room_sub; [exact Hrr|lia|lia]. }
  { rewrite <- (Z.add_0_r t). by apply (holds_sub mm t rs 0). }
  set (mm1 := write pr (take m rs) mm). assert (Hq1 : holds mm1 pq qd).
  { apply holds_write; [done|]. rewrite Hlr. intros a Ha. unfold outside. lia. }
  rewrite <- (holds_same mm1 pq qd Hq1). replace (Z.of_nat n - Z.of_nat m + 1) with (Z.of_nat (length qd)) by lia.
  apply wp_bind. eapply fill_pass; [|lia|].
  { split; [exact Hsq|]. apply room_write. by eapply kept_room. }
  set (qs := qd ++ _). set (mm2 := write pq qs mm1). assert (Hql2 : length qs = nx) by (unfold qs; rewrite length_app, length_replicate; lia).
  assert (Hr2 : holds mm2 pr (take m rs)).
  { apply holds_write; [apply write_in|]. rewrite Hlr, Hql2. intros a Ha. unfold outside. lia. }
  rewrite <- (holds_same mm2 pr _ Hr2). rewrite <- Hlr at 1. eapply fill_pass; [|lia|].
  { split; [exact Hsr|]. apply room_write, room_write. by eapply kept_room. }
  change (u8 0) with 0 in *. apply divided_intro; try done.
  - rewrite length_app, length_replicate. lia.
  - apply Forall_app_2; [done|]. by apply Forall_replicate.
  - apply Forall_app_2; [by apply Forall_take|]. by apply Forall_replicate.
  - intros a Ha1 Ha2 Ha3. unfold mm1. rewrite write_out by (rewrite Hlr; unfold outside in *; lia).
    apply (k_same _ _ _ _ _ _ Hk); [unfold outside in *; lia|done].
  - unfold qs. rewrite !num_app, !num_zeros, Hrs. lia.
  - rewrite num_app, num_zeros, Hrs. lia.
Qed.

Lemma long_division_spec :
  returns (long_division (Z.of_nat nx) (Z.of_nat my) (Z.of_nat n) (Z.of_nat m) q x y r tmp) (fun _ => divided) m0.
Proof.
  destruct sizes as (Hn1 & Hm1 & Hly & Hlx). destruct Ht as [Hst Hrt']. unfold disjoint in *.
  unfold long_division. fold dq. apply wp_bind, wp_assert; [lia|]. rewrite !u32_small by lia.
  destruct (prefix_digits x px xs n m0) as (Hsx & Hhx & Hbx); [done|done|]. rewrite Hlx in Hsx.
  apply wp_bind. rewrite <- Hlx at 1. eapply memcpy_spec; rewrite ?Hlx;
    [eapply spans_sub; [exact Hst|lia]|exact Hsx|lia|lia|eapply room_sub; [exact Hrt'|lia|lia]|done|done|].
  apply wp_bind. eapply (wp_set_digit tmp t); [exact Hst|lia|apply (room_write m0 t (Z.of_nat nt)); [done|lia]|].
  change (u8 0) with 0. replace (t + Z.of_nat n) with (t + Z.of_nat (length (take n xs))) by lia. rewrite <- write_snoc.
  apply wp_bind. eapply wp_conseq; [apply long_loop, long_start|]. intros [] mm Hmm. by apply long_finish.
Qed.
End long.

Lemma div_spec :
  returns (Cyc_XP_div (Z.of_nat nx) q x (Z.of_nat my) y r tmp)
    (fun c m' => if num ys =? 0 then c = 0 /\ m' = m0 else c = 1 /\ divided m') m0.
Proof.
  unfold Cyc_XP_div. pose proof (proj2 (proj2 Hy)) as Hyb.
  apply wp_bind. eapply wp_conseq; [exact (trim_spec x px xs 36 m0 Hx Hnx)|]. intros kn m1 (-> & n & -> & Hn).
  apply wp_bind. eapply wp_conseq; [exact (trim_spec y py ys 36 m0 Hy Hmy)|]. intros km m1 (-> & m & -> & Hm).
  destruct (Z.of_nat m =? 1) eqn:E1.
  - assert (m = 1%nat) as -> by lia. destruct Hm as (Hm1 & Hnum & _).
    destruct (lookup_lt_is_Some_2 ys 0) as [y0 Hy0]; [lia|]. pose proof (num_take_S _ _ _ Hy0) as Hs. rewrite weight_0, take_0, Hnum in Hs. simpl in Hs.
    apply wp_bind. eapply (wp_read m0 y py ys _ _ _ _ _ _ Hy Hy0); [done|]. intros Hb0. unfold byte_ok in Hb0.
    destruct (y0 =? 0) eqn:E2; [rewrite (proj2 (Z.eqb_eq (num ys) 0)) by lia; by apply wp_ret|].
    rewrite (proj2 (Z.eqb_neq (num ys) 0)) by lia.
    apply wp_bind. destruct Hy as (Hsy & Hhy & _). rewrite (sp_curr _ _ _ Hsy). apply (wp_get_byte _ y0).
    { apply Hhy in Hy0. by rewrite Z.add_0_r in Hy0. }
    pose proof (small_divisor y0 m0 ltac:(lia) ltac:(lia) eq_refl) as Hd.
    apply wp_bind_inv in Hd. apply wp_bind. eapply wp_conseq; [exact Hd|]. intros c m1 Hd1.
    apply wp_bind_inv in Hd1. apply wp_bind. eapply wp_conseq; [exact Hd1|]. intros u m2 Hd2.
    apply wp_bind. eapply wp_conseq; [exact Hd2|]. intros u' m3 Hd3. by apply wp_ret.
  - assert (H2 : (1 < m)%nat) by (destruct Hm as (Hm1 & _); lia).
    pose proof (significant_lower ys m Hyb Hm H2) as Hlow. pose proof (weight_pos (m - 1)). rewrite (proj2 (Z.eqb_neq (num ys) 0)) by lia.
    destruct (Z.of_nat n <? Z.of_nat m) eqn:E3.
    + pose proof (large_divisor n m Hn Hm ltac:(lia)) as Hd. apply wp_bind_inv in Hd. apply wp_bind. eapply wp_conseq; [exact Hd|].
      intros u m1 Hd1. apply wp_bind_inv in Hd1. apply wp_bind. eapply wp_conseq; [exact Hd1|]. intros u' m2 Hd2.
      apply wp_bind. eapply wp_conseq; [exact Hd2|]. intros u'' m3 Hd3. by apply wp_ret.
    + apply wp_bind. eapply wp_conseq; [apply (long_division_spec n m Hn Hm); lia|]. intros u m1 Hd. by apply wp_ret.
Qed.
End division.

(** ** Theorem *)

(** The arguments of a division: numbers at [x] and [y], places for the results
    and for [n + m + 2] temporary digits that overlap neither each other nor the
    numbers (the remainder may overwrite nothing but itself). *)
Record div_ready (m : bytes) (q x y r tmp : fat_ptr) (pq px py pr t : Z) (xs ys : list Z) : Prop := {
  dr_x : digits_of m x px xs;
  dr_y : digits_of m y py ys;
  dr_nx : (0 < length xs)%nat /\ Z.of_nat (length xs) < 2147483648;
  dr_my : (0 < length ys)%nat /\ Z.of_nat (length ys) < 2147483648;
  dr_q : target m q pq (length xs);
  dr_r : target m r pr (length ys);
  dr_t : target m tmp t (length xs + length ys + 2);
  dr_qr : disjoint pq (Z.of_nat (length xs)) pr (Z.of_nat (length ys));
  dr_qt : disjoint pq (Z.of_nat (length xs)) t (Z.of_nat (length xs + length ys + 2));
  dr_rt : disjoint pr (Z.of_nat (length ys)) t (Z.of_nat (length xs + length ys + 2));
  dr_xq : disjoint px (Z.of_nat (length xs)) pq (Z.of_nat (length xs));
  dr_xr : disjoint px (Z.of_nat (length xs)) pr (Z.of_nat (length ys));
  dr_xt : disjoint px (Z.of_nat (length xs)) t (Z.of_nat (length xs + length ys + 2));
  dr_yq : disjoint py (Z.of_nat (length ys)) pq (Z.of_nat (length xs));
  dr_yt : disjoint py (Z.of_nat (length ys)) t (Z.of_nat (length xs + length ys + 2))
}.

(** C18. Division of multiple-precision numbers is exact and total: for operands
    of any length, [Cyc_XP_div] returns without an exception, a failed assertion
    or an access outside memory; it returns 0 and changes nothing when the divisor is
    zero, and otherwise returns 1 with quotient and remainder of the Euclidean
    division in the digits of [q] and [r], leading zeros included, and changes
    nothing else but the temporary digits. *)
Theorem xp_div_exact m q x y r tmp pq px py pr t xs ys :
  div_ready m q x y r tmp pq px py pr t xs ys ->
  exists m', Cyc_XP_div (Z.of_nat (length xs)) q x (Z.of_nat (length ys)) y r tmp m =
      (Ret (if num ys =? 0 then 0 else 1), m') /\
    if num ys =? 0 then m' = m else divided m pq pr t xs ys m'.
Proof.
  intros [Hx Hy [Hnx Hxi] [Hmy Hyi] Hq Hr Ht Hqr Hqt Hrt Hxq Hxr Hxt Hyq Hyt].
  destruct (wp_total _ _ _ (div_spec m q x y r tmp pq px py pr t xs ys Hx Hy Hnx Hmy Hxi Hyi Hq Hr Ht Hqr Hqt Hrt Hxq Hxr Hxt Hyq Hyt))
    as (c & m' & Hrun & Hpost).
  exists m'. unfold nx, my in Hrun. rewrite Hrun. destruct (num ys =? 0); destruct Hpost as [-> ?]; done.
Qed.

(** 1193046 divided by 4660. *)
Definition ex_digits : bytes :=
  write 1000 [86; 52; 18] (write 1010 [52; 18] (write 1020 [7; 7; 7] (write 1030 [9; 9] (write 1040 [1; 1; 1; 1; 1; 1; 1] ∅)))).

Definition ex_fat (p n : Z) : fat_ptr := _tag_fat p 1 n.

Lemma ex_holds : holds ex_digits 1000 [86; 52; 18] /\ holds ex_digits 1010 [52; 18] /\ holds ex_digits 1020 [7; 7; 7] /\
  holds ex_digits 1030 [9; 9] /\ holds ex_digits 1040 [1; 1; 1; 1; 1; 1; 1].
Proof.
  unfold ex_digits. split_and!; repeat (apply write_in || (apply holds_write; [|intros a Ha; unfold outside; simpl in *; lia])).
Qed.

Lemma ex_div_ready : div_ready ex_digits (ex_fat 1020 3) (ex_fat 1000 3) (ex_fat 1010 2) (ex_fat 1030 2) (ex_fat 1040 7)
  1020 1000 1010 1030 1040 [86; 52; 18] [52; 18].
Proof.
  destruct ex_holds as (H1 & H2 & H3 & H4 & H5).
  split; unfold digits_of, target, disjoint, byte_ok; simpl length; split_and?; try lia; try done;
    try (split; simpl; lia); try (repeat constructor; lia);
    [exact (holds_room _ _ _ H3)|exact (holds_room _ _ _ H4)|exact (holds_room _ _ _ H5)].
Qed.

Lemma xp_div_exact_witness :
  exists m', Cyc_XP_div 3 (ex_fat 1020 3) (ex_fat 1000 3) 2 (ex_fat 1010 2) (ex_fat 1030 2) (ex_fat 1040 7) ex_digits = (Ret 1, m') /\
    divided ex_digits 1020 1030 1040 [86; 52; 18] [52; 18] m'.
Proof. exact (xp_div_exact _ _ _ _ _ _ _ _ _ _ _ _ _ ex_div_ready). Defined.
