(* ===== verification/XPString.v ===== *)
(** * Conversion to and from strings

    [Cyc_XP_tostr] writes the numeral of a number in any base from 2 to 36, and
    [Cyc_XP_fromstr] reads it back. *)

From S2P Require Import Prelude RwLock Alloc Region RegionSafety Words FatPtr CycBytes ByteMem CycXP XPSpec XPMul XPDivSpec.

(** ** Numerals *)

(** The number of digits [l] in base [b], least significant first. *)
Fixpoint numeral (b : Z) (l : list Z) : Z := match l with [] => 0 | d :: l => d + b * numeral b l end.

Lemma numeral_app b l1 l2 : numeral b (l1 ++ l2) = numeral b l1 + b ^ Z.of_nat (length l1) * numeral b l2.
Proof.
  induction l1 as [|d l IH]; [simpl; lia|]. rewrite <- app_comm_cons. cbn [numeral length]. rewrite IH, Nat2Z.inj_succ, Z.pow_succ_r by lia. lia.
Qed.

Lemma numeral_bound b l : 0 < b -> Forall (fun d => 0 <= d < b) l -> 0 <= numeral b l < b ^ Z.of_nat (length l).
Proof.
  intros Hb. induction 1 as [|d l Hd Hl IH]; [simpl; lia|]. cbn [numeral length]. rewrite Nat2Z.inj_succ, Z.pow_succ_r by lia. nia.
Qed.

(** The character of a digit. *)
Definition chr (d : Z) : Z := if d <? 10 then 48 + d else 55 + d.

Lemma below_36 (P : Z -> Prop) : Forall P (seqZ 0 36) -> forall d, 0 <= d < 36 -> P d.
Proof. intros Hp d Hd. rewrite Forall_forall in Hp. apply Hp, elem_of_seqZ. lia. Qed.

Lemma digits_at_chr r line : 0 <= r < 36 -> digits_at r line = Ret (chr r).
Proof. intros Hr. revert r Hr. apply (below_36 (fun r => digits_at r line = Ret (chr r))). repeat (constructor; [done|]). constructor. Qed.

Lemma chr_facts d : 0 <= d < 36 -> byte_ok (chr d) /\ 0 < chr d < 128 /\ isalnum (chr d) = true /\ isspace (chr d) = false.
Proof.
  intros Hd. unfold byte_ok, chr, isalnum, isspace. destruct (d <? 10) eqn:E; split_and!; lia.
Qed.

Lemma map_at_chr d line : 0 <= d < 36 -> map_at (chr d) line = Ret d.
Proof. intros Hd. revert d Hd. apply (below_36 (fun d => map_at (chr d) line = Ret d)). repeat (constructor; [done|]). constructor. Qed.

Lemma schar_small c : 0 <= c < 128 -> schar c = c.
Proof. intros Hc. unfold schar. destruct (c <? 128) eqn:E; lia. Qed.

(** ** Characters in memory *)

(** Storing a character: not when it would overwrite the final zero. *)
Lemma wp_put_char p a v old (c : BM Z) line (Q : unit -> bytes -> Prop) E m : spans p a 1 -> m !! a = Some old ->
  (forall Q', Q' v m -> wp c Q' E m) -> old <> 0 \/ v = 0 \/ spans p a 2 -> byte_ok v ->
  Q tt (<[a := v]> m) -> wp (put_char p c line) Q E m.
Proof.
  intros Hp Ho Hc Hcase Hv HQ. unfold put_char. apply wp_bind. eapply (wp_digit p a 1 0 old); [done|lia|by rewrite Z.add_0_r|].
  apply wp_bind, Hc. pose proof (sp_curr _ _ _ Hp) as ->. destruct (_ && _ && _) eqn:E1.
  - exfalso. destruct Hcase as [?|[->|H2]]; [lia|lia|]. pose proof (spans_size p a 2 H2). lia.
  - apply wp_put_byte; [by eexists|]. by rewrite u8_small.
Qed.

Lemma room_size (m : bytes) p (n : nat) : room m p (Z.of_nat n) -> (n <= size m)%nat.
Proof.
  intros Hr. rewrite <- (length_seq n 0), <- (length_fmap (fun i => p + Z.of_nat i)). apply nodup_size.
  - apply NoDup_fmap_2, NoDup_seq. intros i j ?. lia.
  - intros q (i & -> & Hi%elem_of_seq)%list_elem_of_fmap. apply Hr. lia.
Qed.

(** ** Reversing them *)

(** The first and last [j] characters have been exchanged. *)
Definition exchanged (cs : list Z) (j : nat) (cur : list Z) : Prop :=
  length cur = length cs /\
  forall a, cur !! a = if decide (a < j \/ length cs <= a + j)%nat then reverse cs !! a else cs !! a.

Lemma exchanged_step cs j cur c d : (j + j + 1 < length cs)%nat -> exchanged cs j cur ->
  cs !! j = Some c -> cs !! (length cs - S j)%nat = Some d ->
  exchanged cs (S j) (<[(length cs - S j)%nat := c]> (<[j := d]> cur)).
Proof.
  intros Hj [Hl Hc] Hcj Hdj. split; [by rewrite !length_insert|]. intros a.
  destruct (decide (a = (length cs - S j)%nat)) as [->|Ha1].
  - rewrite list_lookup_insert_eq by (rewrite length_insert; lia). rewrite decide_True by lia.
    rewrite reverse_lookup by lia. rewrite <- Hcj. f_equal. lia.
  - rewrite list_lookup_insert_ne by done. destruct (decide (a = j)) as [->|Ha2].
    + rewrite list_lookup_insert_eq by lia. rewrite decide_True by lia. by rewrite reverse_lookup by lia.
    + rewrite list_lookup_insert_ne by done. rewrite Hc. destruct (decide (a < j ∨ _)%nat); [by rewrite decide_True by lia|].
      by rewrite decide_False by lia.
Qed.

Lemma exchanged_all cs j cur : (length cs <= j + j + 1)%nat -> exchanged cs j cur -> cur = reverse cs.
Proof.
  intros Hj [Hl Hc]. apply list_eq. intros a. rewrite Hc. case_decide as Hd; [done|].
  rewrite reverse_lookup by lia. f_equal. lia.
Qed.

Lemma reverse_chars_spec str ps size cs mm : spans str ps size -> Z.of_nat (length cs) < size < 2147483648 -> holds mm ps cs ->
  Forall (fun c => 0 < c < 256) cs ->
  returns (reverse_chars str (Z.of_nat (length cs))) (fun _ mm' => mm' = write ps (reverse cs) mm) mm.
Proof.
  intros Hs Hsz Hh Hcs. unfold reverse_chars.
  apply (wp_loop _ (fun k '(i, j) m' => k = Z.to_nat i /\ exists h cur, j = Z.of_nat h /\ i = Z.of_nat (length cs) - j /\ (h <= length cs)%nat /\
    exchanged cs h cur /\ m' = write ps cur mm)) with (length cs); [| |lia].
  - intros k [i j] m' (-> & h & cur & -> & -> & Hhl & Hex & ->).
    destruct (Z.of_nat h <? Z.of_nat (length cs) - Z.of_nat h - 1) eqn:E1.
    2: { apply wp_ret. by rewrite (exchanged_all cs h cur) by (done || lia). }
    destruct (lookup_lt_is_Some_2 cs h) as [c Hc]; [lia|]. destruct (lookup_lt_is_Some_2 cs (length cs - S h)) as [d Hd]; [lia|].
    pose proof (Forall_lookup_1 _ _ _ _ Hcs Hc) as Bc. pose proof (Forall_lookup_1 _ _ _ _ Hcs Hd) as Bd. simpl in Bc, Bd.
    pose proof Hex as [Hl Hcur]. assert (Hch : cur !! h = Some c) by (rewrite Hcur, decide_False by lia; done).
    assert (Hdh : cur !! (length cs - S h)%nat = Some d) by (rewrite Hcur, decide_False by lia; done).
    replace (Z.of_nat (length cs) - Z.of_nat h - 1) with (Z.of_nat (length cs - S h)) by lia.
    apply wp_bind. eapply (wp_digit str ps size); [done|lia|apply write_in, Hch|].
    apply wp_bind. eapply (wp_put_char _ (ps + Z.of_nat h) d c); [|apply write_in, Hch| |lia|unfold byte_ok; lia|].
    { eapply spans_sub; [eapply spans_plus; [exact Hs|lia|lia]|lia]. }
    { intros Q' HQ'. eapply (wp_digit str ps size); [done|lia|apply write_in, Hdh|done]. }
    rewrite <- write_insert by lia.
    apply wp_bind. eapply (wp_put_char _ (ps + Z.of_nat (length cs - S h)) c d); [|apply write_in| |lia|unfold byte_ok; lia|].
    { eapply spans_sub; [eapply spans_plus; [exact Hs|lia|lia]|lia]. }
    { rewrite list_lookup_insert_ne by lia. done. }
    { done. }
    rewrite <- write_insert by (rewrite length_insert; lia). apply wp_ret. exists (length cs - S h)%nat. split; [lia|].
    split; [lia|]. exists (S h). eexists. split_and!; [lia|lia|lia| |reflexivity]. apply exchanged_step; [lia|done|done|done].
  - split; [lia|]. exists 0%nat, cs. split_and!; try done; try lia.
    + split; [done|]. intros a. case_decide as Ha; [|done]. rewrite (lookup_ge_None_2 cs) by lia. symmetry. apply lookup_ge_None_2. rewrite length_reverse. lia.
    + by rewrite holds_same.
Qed.

(** ** Writing the digits *)

Section tostr.
Context (m0 : bytes) (str x : fat_ptr) (ps px size b : Z) (xs : list Z).
Abbreviation n := (Z.of_nat (length xs)).
Abbreviation X := (num xs).
Context (Hx : digits_of m0 x px xs) (Hn : (0 < length xs)%nat) (Hni : n < 2147483648).
Context (Hs : spans str ps size) (Hroom : room m0 ps size) (Hd : disjoint px n ps size) (Hsi : 2 <= size < 2147483648).
Context (Hb : 2 <= b <= 36) (Hfit : X < b ^ (size - 1)).

Abbreviation digit_ok := (fun d => 0 <= d < b).

(** After the digits [ds], the number [cur] is left. *)
Definition written (ds cur : list Z) (mm : bytes) : Prop :=
  Forall digit_ok ds /\ holds mm ps (chr <$> ds) /\ kept m0 px n ps size mm /\ digits_of mm x px cur /\
  (0 < length cur <= length xs)%nat /\ X = numeral b ds + b ^ Z.of_nat (length ds) * num cur.

Lemma written_fits ds cur mm : written ds cur mm -> ds = [] \/ 0 < num cur -> Z.of_nat (length ds) + 1 < size.
Proof.
  intros (Hds & _ & _ & _ & _ & HX) [->|Hpos]; [simpl; lia|]. pose proof (numeral_bound b ds ltac:(lia) Hds).
  pose proof (Z.pow_pos_nonneg b (Z.of_nat (length ds))).
  assert (b ^ Z.of_nat (length ds) < b ^ (size - 1)) as Hlt%Z.pow_lt_mono_r_iff by nia; lia.
Qed.

(** One digit: the quotient replaces the number. *)
Lemma put_digit_spec {A} ds cur mm (cont : BM A) Q : written ds cur mm -> ds = [] \/ 0 < num cur ->
  (forall r zs mm', length zs = length cur -> num zs * b + r = num cur -> 0 <= r -> written (ds ++ [r]) zs mm' -> returns cont Q mm') ->
  returns (r ← Cyc_XP_quotient (Z.of_nat (length cur)) x x b;
    lift (cassert (Z.of_nat (length ds) <? size) "i < size");;
    put_char (_fat_ptr_plus str 1 (Z.of_nat (length ds))) (lift (digits_at r 275)) 275;; cont) Q mm.
Proof.
  intros Hw Hne Hcont. pose proof (written_fits ds cur mm Hw Hne) as Hsz. destruct Hw as (Hds & Hh & Hk & Hc & Hl & HX).
  pose proof Hc as (Hcs & Hch & Hcb). unfold disjoint in Hd. apply wp_bind. eapply wp_conseq.
  { apply (quotient_spec mm x px (length cur)) with (q := px); [by split; [|apply holds_room]| |lia]. split_and!; try done. lia. }
  intros r mm1 (zs & Hzl & Hzb & -> & Hr & Hnum). apply wp_bind, wp_assert; [lia|].
  assert (Hk1 : kept m0 px n ps size (write px zs mm)) by (apply kept_write; [done|lia]).
  destruct (k_room _ _ _ _ _ _ Hk1 (ps + Z.of_nat (length ds))) as [old Hold]; [apply Hroom; lia|].
  destruct (chr_facts r) as (Hcr & _); [lia|].
  apply wp_bind. eapply (wp_put_char _ (ps + Z.of_nat (length ds)) (chr r) old); [|exact Hold| | |done|].
  { eapply spans_sub; [eapply spans_plus; [exact Hs|lia|lia]|lia]. }
  { intros Q' HQ'. rewrite digits_at_chr by lia. by apply wp_lift. }
  { right. right. eapply spans_sub; [eapply spans_plus; [exact Hs|lia|lia]|lia]. }
  change (<[ps + Z.of_nat (length ds) := chr r]> (write px zs mm)) with (write (ps + Z.of_nat (length ds)) [chr r] (write px zs mm)).
  apply (Hcont r zs); [done|done|lia|]. split_and!.
  - apply Forall_app_2; [done|]. apply Forall_singleton. lia.
  - rewrite fmap_app. apply holds_app. rewrite length_fmap. split; [|apply write_in].
    repeat (apply holds_write; [|intros a Ha; rewrite length_fmap in Ha; unfold outside; simpl; lia]). done.
  - apply kept_write; [done|]. simpl. lia.
  - split_and!; [by rewrite Hzl| |done]. apply holds_write; [apply write_in|]. intros a Ha. unfold outside. simpl. lia.
  - lia.
  - lia.
  - rewrite HX, numeral_app, length_app, Nat2Z.inj_add, Z.pow_add_r by lia. simpl. rewrite Z.pow_1_r. nia.
Qed.

Lemma put_digits_spec :
  returns (put_digits str size b n x) (fun L mm => exists ds, L = Z.of_nat (length ds) /\ (0 < length ds)%nat /\ L < size /\
    Forall digit_ok ds /\ numeral b ds = X /\ holds mm ps (chr <$> ds) /\ kept m0 px n ps size mm) m0.
Proof.
  unfold put_digits.
  apply (wp_loop _ (fun c '(i, k) mm => exists ds cur, i = Z.of_nat (length ds) /\ k = Z.of_nat (length cur) /\ written ds cur mm /\
    num cur < 2 ^ Z.of_nat c /\ (ds = [] \/ 0 < num cur))) with (Z.to_nat (8 * n)); [| |lia].
  - intros c [i k] mm (ds & cur & -> & -> & Hw & Hc & Hne). pose proof (written_fits ds cur mm Hw Hne) as Hsz.
    pose proof Hw as (_ & _ & _ & (_ & _ & Hcb) & _). pose proof (num_bound cur Hcb) as Hcp.
    apply (put_digit_spec ds cur); [done|done|]. intros r zs mm1 Hzl Hnum Hr Hw1. pose proof Hw1 as (Hds1 & Hh1 & Hk1 & Hz1 & Hl1 & HX1).
    apply wp_bind. rewrite <- Hzl. eapply wp_conseq; [exact (trim_spec x px zs 276 mm1 Hz1 (proj1 Hl1))|].
    intros j mm2 (-> & k & -> & Hsig).  pose proof (proj2 (proj2 Hz1)) as Hzb.
    apply wp_bind. apply (wp_conseq _ (fun (more : bool) mm' => mm' = mm1 /\ more = negb (num zs =? 0))).
    { destruct (1 <? Z.of_nat k) eqn:E1.
      - apply wp_ret. split; [done|]. pose proof (significant_lower zs k Hzb Hsig ltac:(lia)). pose proof (weight_pos (k - 1)). lia.
      - destruct Hsig as ((Hk & _) & Hn1 & _). assert (k = 1%nat) as -> by lia. destruct (lookup_lt_is_Some_2 zs 0) as [e He]; [lia|].
        pose proof (num_take_S _ _ _ He) as Ht. rewrite Hn1, weight_0, take_0 in Ht. simpl in Ht.
        apply wp_bind. eapply (wp_read mm1 x px zs _ _ _ _ _ _ Hz1 He); [done|]. intros _. apply wp_ret. split; [done|].
        destruct (e =? 0) eqn:E2; lia. }
    intros more mm2 [-> ->]. pose proof (num_bound zs Hzb) as Hzp. destruct (num zs =? 0) eqn:E2; simpl.
    + apply wp_ret. exists (ds ++ [r]). rewrite length_app. simpl. split_and!; try done; try lia.
    + assert (c <> 0%nat) by (intros ->; simpl in Hc; nia). apply wp_ret. exists (c - 1)%nat. split; [lia|].
      destruct Hsig as (Hk & Hn1 & _). exists (ds ++ [r]), (take k zs). rewrite length_app, length_take, Nat.min_l, Hn1 by lia.
      replace (Z.of_nat c) with (1 + Z.of_nat (c - 1)) in Hc by lia. rewrite Z.pow_add_r in Hc by lia. change (2 ^ 1) with 2 in Hc.
      split_and!; [simpl; lia|done| |nia|right; lia].
      do 3 (split; [done|]). split; [apply prefix_digits; [done|lia]|]. split; [rewrite length_take; lia|]. by rewrite HX1, Hn1.
  - exists [], xs. split; [done|]. split; [done|]. split.
    { split_and!; try done; try apply kept_refl; try apply Hx; simpl; lia. }
    split; [|by left]. pose proof (num_bound xs (proj2 (proj2 Hx))) as H1.
    replace (2 ^ Z.of_nat (Z.to_nat (8 * n))) with (weight (length xs)); [lia|]. unfold weight.
    by rewrite Z2Nat.id, Z.pow_mul_r by lia.
Qed.

Lemma tostr_spec :
  returns (Cyc_XP_tostr str size b n x) (fun s mm => s = str /\ exists ds, (0 < length ds)%nat /\ Z.of_nat (length ds) < size /\
    Forall digit_ok ds /\ numeral b ds = X /\ holds mm ps ((chr <$> reverse ds) ++ [0]) /\ kept m0 px n ps size mm) m0.
Proof.
  unfold Cyc_XP_tostr. pose proof (sp_curr _ _ _ Hs) as Hcur. pose proof (sp_pos _ _ _ Hs) as Hpos.
  apply wp_bind, wp_assert; [lia|]. apply wp_bind, wp_assert; [lia|]. apply wp_bind. eapply wp_conseq; [exact put_digits_spec|].
  intros L mm (ds & -> & Hdl & HL & Hds & Hnum & Hh & Hk). apply wp_bind, wp_assert; [lia|].
  destruct (k_room _ _ _ _ _ _ Hk (ps + Z.of_nat (length ds))) as [old Hold]; [apply Hroom; lia|].
  apply wp_bind. eapply (wp_put_char _ (ps + Z.of_nat (length ds)) 0 old); [|exact Hold|done|by right; left|done|].
  { eapply spans_sub; [eapply spans_plus; [exact Hs|lia|lia]|lia]. }
  set (mm1 := <[ps + Z.of_nat (length ds) := 0]> mm). assert (Hmm1 : mm1 = write (ps + Z.of_nat (length ds)) [0] mm) by done.
  assert (Hk1 : kept m0 px n ps size mm1) by (rewrite Hmm1; apply kept_write; [done|simpl; lia]).
  assert (Hh1 : holds mm1 ps (chr <$> ds)).
  { rewrite Hmm1. apply holds_write; [done|]. rewrite length_fmap. intros a Ha. unfold outside. simpl. lia. }
  assert (Hcs : Forall (fun c => 0 < c < 256) (chr <$> ds)).
  { apply Forall_fmap. eapply Forall_impl; [exact Hds|]. intros d Hd1. simpl in *. destruct (chr_facts d) as (_ & ? & _); [lia|]. simpl. lia. }
  rewrite <- (length_fmap chr ds) at 1. apply wp_bind. eapply wp_conseq.
  { apply (reverse_chars_spec str ps size (chr <$> ds)); [done|rewrite length_fmap; lia|exact Hh1|exact Hcs]. }
  intros _ mm2 ->. apply wp_ret. split; [done|]. exists ds. split_and!; try done.
  - rewrite fmap_reverse. apply holds_app. split; [apply write_in|]. apply holds_write; rewrite ?length_reverse, ?length_fmap.
    + rewrite Hmm1. apply write_in.
    + intros a Ha. unfold outside. lia.
  - apply kept_write; [done|]. rewrite length_reverse, length_fmap. lia.
Qed.
End tostr.

(** ** Reading them back *)

Section fromstr.
Context (m0 : bytes) (z : fat_ptr) (pz p b : Z) (n : nat) (vs : list Z).
Context (Hz : target m0 z pz n) (Hb : 2 <= b <= 36) (Hvs : Forall (fun d => 0 <= d < b) vs) (Hne : vs <> []).
Context (Hstr : holds m0 p ((chr <$> vs) ++ [0])) (Hp : 0 < p /\ p + Z.of_nat (length vs) + 1 < 4294967296).
Context (Hapart : disjoint pz (Z.of_nat n) p (Z.of_nat (length vs) + 1)) (Hfit : numeral b (reverse vs) < weight n).

Lemma string_at mm zs i : length zs = n -> mm = write pz zs m0 ->
  forall v, vs !! i = Some v -> mm !! (p + Z.of_nat i) = Some (chr v).
Proof.
  intros Hl -> v Hv. pose proof (lookup_lt_Some _ _ _ Hv). unfold disjoint in Hapart. rewrite write_out by (unfold outside; lia).
  apply Hstr. apply lookup_app_l_Some. by rewrite list_lookup_fmap, Hv.
Qed.

Lemma is_digit_true mm i v line (Q : bool -> bytes -> Prop) E : mm !! (p + Z.of_nat i) = Some (chr v) -> 0 <= v < b ->
  Q true mm -> wp (is_digit (p + Z.of_nat i) b line) Q E mm.
Proof.
  intros Hv Hvb HQ. destruct (chr_facts v) as (_ & Hc & Ha & _); [lia|]. unfold is_digit. apply wp_bind. eapply wp_get_byte; [exact Hv|].
  rewrite schar_small, Ha by lia. destruct (_ || _) eqn:E1; [lia|]. rewrite map_at_chr by lia. apply wp_bind, wp_lift, wp_ret.
  by rewrite (proj2 (Z.ltb_lt v b)) by lia.
Qed.

(** A prefix of the string denotes no larger number. *)
Lemma prefix_fits l1 l2 : vs = l1 ++ l2 -> 0 <= numeral b (reverse l1) < weight n.
Proof.
  intros He. assert (Hf : Forall (fun d => 0 <= d < b) (reverse l1) /\ Forall (fun d => 0 <= d < b) (reverse l2)).
  { rewrite He in Hvs. apply Forall_app in Hvs as [H1 H2]. by split; apply Forall_reverse. }
  destruct Hf as [H1 H2]. pose proof (numeral_bound b _ ltac:(lia) H1) as B1. pose proof (numeral_bound b _ ltac:(lia) H2) as B2.
  pose proof Hfit as Hfit'. rewrite He, reverse_app, numeral_app in Hfit'. split; [lia|].
  pose proof (Z.pow_pos_nonneg b (Z.of_nat (length (reverse l2)))). nia.
Qed.

(** No space to skip. *)
Lemma skip_space_none a c (Q : Z -> bytes -> Prop) E mm : mm !! a = Some c -> a <> 0 -> isspace (schar c) = false ->
  Q a mm -> wp (skip_space a) Q E mm.
Proof.
  intros Ha Hnz Hc HQ. unfold skip_space. apply wp_bind, wp_get. cbn [loop]. unfold _check_null.
  rewrite (proj2 (Z.eqb_neq a 0)) by done. apply wp_bind, wp_bind, wp_lift, wp_bind. eapply wp_get_byte; [exact Ha|].
  rewrite Hc, andb_false_r. by apply wp_ret, wp_ret.
Qed.

(** One more digit of the string: [z = z * base + v]. *)
Lemma next_digit_spec {A} zs l v rest (other cont : Z -> BM A) Q : vs = l ++ v :: rest -> length zs = n -> Forall byte_ok zs ->
  num zs = numeral b (reverse l) ->
  (forall zs', length zs' = n -> Forall byte_ok zs' -> num zs' = numeral b (reverse (l ++ [v])) -> returns (cont 0) Q (write pz zs' m0)) ->
  returns (carry ← Cyc_XP_product (Z.of_nat n) z z b;
    if negb (carry =? 0) then other carry else
      c ← get_byte (p + Z.of_nat (length l)); v ← lift (map_at (schar c) 258); Cyc_XP_sum (Z.of_nat n) z z v;; cont carry) Q (write pz zs m0).
Proof.
  intros He Hl Hzb Hn Hcont. destruct (prefix_fits (l ++ [v]) rest) as [H1 H2]; [by rewrite <- app_assoc|].
  assert (Hv : vs !! length l = Some v) by (by rewrite He, list_lookup_middle).
  pose proof (Forall_lookup_1 _ _ _ _ Hvs Hv) as Hvb. simpl in Hvb. rewrite reverse_app in H2. simpl in H2.
  change (numeral b (reverse [v] ++ reverse l)) with (v + b * numeral b (reverse l)) in H2. pose proof (weight_pos n).
  pose proof (num_bound zs Hzb) as Hzn. rewrite Hl in Hzn. destruct Hz as [Hsz Hrz].
  assert (Hop : forall ds, length ds = n -> Forall byte_ok ds -> operand (write pz ds m0) pz n z pz ds /\ target (write pz ds m0) z pz n).
  { intros ds Hdl Hdb. split; [|by split; [|apply room_write]]. split_and!; [|done|by left]. split_and!; [by rewrite Hdl|apply write_in|done]. }
  apply wp_bind. destruct (Hop zs Hl Hzb) as [Ho Ht]. eapply wp_conseq; [eapply product_spec; [exact Ht|exact Ho|lia]|].
  intros c mm1 (zs1 & Hl1 & Hb1 & -> & Hc & Hn1). rewrite write_write by lia. pose proof (num_bound zs1 Hb1).
  assert (c = 0) as -> by nia. simpl. apply wp_bind. eapply wp_get_byte; [by eapply (string_at _ zs1)|].
  destruct (chr_facts v) as (_ & Hcv & _); [lia|]. rewrite schar_small, map_at_chr by lia. apply wp_bind, wp_lift, wp_bind.
  destruct (Hop zs1 Hl1 Hb1) as [Ho1 Ht1]. eapply wp_conseq; [eapply sum_spec; [exact Ht1|exact Ho1|lia]|].
  intros c2 mm2 (zs2 & Hl2 & Hb2 & -> & Hc2 & Hn2). rewrite write_write by lia. pose proof (num_bound zs2 Hb2).
  assert (c2 = 0) as -> by nia. apply Hcont; [done|done|]. rewrite reverse_app.
  change (numeral b (reverse [v] ++ reverse l)) with (v + b * numeral b (reverse l)). nia.
Qed.

(** The digits [l] of the string have been read; a carry exists after the first. *)
Definition parsed (k : nat) (s : Z * option Z) (mm : bytes) : Prop :=
  exists l rest zs, k = length rest /\ vs = l ++ rest /\ s = (p + Z.of_nat (length l), match l with [] => None | _ => Some 0 end) /\
    length zs = n /\ Forall byte_ok zs /\ mm = write pz zs m0 /\ num zs = numeral b (reverse l).

Lemma fromstr_spec zs : length zs = n -> holds m0 pz zs -> Forall byte_ok zs -> num zs = 0 ->
  returns (Cyc_XP_fromstr (Z.of_nat n) z p b)
    (fun c => wrote m0 pz n (fun zs' => c = 0 /\ num zs' = numeral b (reverse vs))) m0.
Proof.
  intros Hl Hh Hzb Hn. unfold Cyc_XP_fromstr. apply wp_bind, wp_assert; [lia|]. apply wp_bind, wp_assert; [lia|].
  assert (Hm0 : m0 = write pz zs m0) by (by rewrite holds_same).
  destruct (lookup_lt_is_Some_2 vs 0) as [v0 Hv0]; [clear -Hne; destruct vs; [done|simpl; lia]|].
  pose proof (Forall_lookup_1 _ _ _ _ Hvs Hv0) as Hvb0. simpl in Hvb0. destruct (chr_facts v0) as (_ & Hc0 & _ & Hsp); [lia|].
  pose proof (string_at m0 zs 0 Hl Hm0 v0 Hv0) as Hp0. rewrite Z.add_0_r in Hp0.
  assert (Hfuel : (length vs < size m0)%nat).
  { apply (room_size m0 p (S (length vs))). replace (Z.of_nat (S (length vs))) with (Z.of_nat (length ((chr <$> vs) ++ [0]))); [by apply holds_room|].
    rewrite length_app, length_fmap. simpl. lia. }
  apply wp_bind, (skip_space_none p (chr v0)); [done|lia|by rewrite schar_small by lia|]. apply wp_bind. rewrite <- (Z.add_0_r p).
  apply (is_digit_true m0 0 v0); [by rewrite Z.add_0_r|done|]. apply wp_bind, wp_get, wp_bind.
  apply (wp_loop _ parsed) with (length vs); [|exists [], vs, zs; rewrite <- Hm0; done|lia].
  intros k s mm (l & rest & zs' & -> & He & -> & Hl' & Hb' & -> & Hn').
  assert (Hle : (length l + length rest = length vs)%nat) by (by rewrite He, length_app).
  unfold _check_null. rewrite (proj2 (Z.eqb_neq (p + Z.of_nat (length l)) 0)) by lia. apply wp_bind, wp_lift.
  destruct rest as [|v rest].
  - assert (Hend : write pz zs' m0 !! (p + Z.of_nat (length l)) = Some 0).
    { simpl in Hle. unfold disjoint in Hapart. rewrite write_out by (unfold outside; lia). apply Hstr.
      rewrite lookup_app_r by (rewrite length_fmap; lia). rewrite length_fmap. by replace (length l - length vs)%nat with 0%nat by lia. }
    unfold is_digit. apply wp_bind, wp_bind. eapply wp_get_byte; [exact Hend|]. apply wp_ret, wp_ret. rewrite app_nil_r in He.
    destruct l as [|e l]; [done|]. apply wp_ret. exists zs'. by rewrite He.
  - assert (Hv : vs !! length l = Some v) by (by rewrite He, list_lookup_middle).
    apply wp_bind, (is_digit_true _ (length l) v); [by eapply string_at|by apply (Forall_lookup_1 _ _ _ _ Hvs Hv)|].
    eapply next_digit_spec; [exact He|done|done|done|]. intros zs2 Hl2 Hb2 Hn2. apply wp_ret.
    exists (length rest). split; [simpl; lia|]. exists (l ++ [v]), rest, zs2. split_and!; try done.
    + by rewrite <- app_assoc.
    + rewrite length_app, u32_small by lia. destruct l; simpl; f_equal; lia.
Qed.
End fromstr.

(** ** Theorem *)

(** A number at [x], room for its numeral in base [b] at [str], and zero digits
    at [z], enough for the number; the three do not overlap. *)
Record str_ready (m : bytes) (str x z : fat_ptr) (ps px pz size b : Z) (xs zs : list Z) : Prop := {
  sr_x : digits_of m x px xs;
  sr_n : (0 < length xs)%nat /\ Z.of_nat (length xs) < 2147483648;
  sr_str : spans str ps size /\ room m ps size /\ 2 <= size < 2147483648;
  sr_base : 2 <= b <= 36;
  sr_fits : num xs < b ^ (size - 1) /\ num xs < weight (length zs);
  sr_z : digits_of m z pz zs /\ num zs = 0;
  sr_xs : disjoint px (Z.of_nat (length xs)) ps size;
  sr_zs : disjoint pz (Z.of_nat (length zs)) ps size;
  sr_zx : disjoint pz (Z.of_nat (length zs)) px (Z.of_nat (length xs))
}.

(** Numbers survive conversion to a string and back: for every base from 2 to 36
    and every number whose numeral fits, [Cyc_XP_tostr] followed by
    [Cyc_XP_fromstr] on the resulting string runs without an exception or a
    failed assertion, reports no overflow, and leaves the same number in [z]. *)
Theorem xp_string_roundtrip m str x z ps px pz size b xs zs : str_ready m str x z ps px pz size b xs zs ->
  exists m' zs', (s ← Cyc_XP_tostr str size b (Z.of_nat (length xs)) x; Cyc_XP_fromstr (Z.of_nat (length zs)) z (curr s) b) m = (Ret 0, m') /\
    length zs' = length zs /\ holds m' pz zs' /\ Forall byte_ok zs' /\ num zs' = num xs.
Proof.
  intros [Hx [Hn Hni] (Hs & Hr & Hsi) Hb [Hf1 Hf2] [(Hzs & Hzh & Hzb) Hz0] Hxs Hzps Hzx].
  destruct (wp_total (s ← Cyc_XP_tostr str size b (Z.of_nat (length xs)) x; Cyc_XP_fromstr (Z.of_nat (length zs)) z (curr s) b)
    (fun c m' => c = 0 /\ exists zs', length zs' = length zs /\ holds m' pz zs' /\ Forall byte_ok zs' /\ num zs' = num xs) m)
    as (c & m' & Hrun & -> & Hpost); [|destruct Hpost as (zs' & ?); by exists m', zs'].
  apply wp_bind. eapply wp_conseq; [exact (tostr_spec m str x ps px size b xs Hx Hn Hni Hs Hr Hxs Hsi Hb Hf1)|].
  intros s mm (-> & ds & Hdl & Hds & Hdb & Hnum & Hh & Hk). rewrite (sp_curr _ _ _ Hs).
  pose proof (sp_pos _ _ _ Hs). pose proof (sp_last _ _ _ Hs). pose proof (sp_end _ _ _ Hs). unfold disjoint in *.
  assert (Hzh1 : holds mm pz zs) by (eapply kept_holds; [exact Hk|done|lia|lia]).
  eapply wp_conseq.
  { apply (fromstr_spec mm z pz ps b (length zs) (reverse ds)) with (zs := zs); rewrite ?length_reverse, ?reverse_involutive; try done; try lia.
    - split; [done|by apply holds_room].
    - by apply Forall_reverse.
    - intros He. apply (f_equal length) in He. rewrite length_reverse in He. simpl in He. lia. 
    - unfold disjoint. lia. }
  intros c m' (zs' & Hl' & Hb' & -> & -> & Hn'). split; [done|]. exists zs'. split_and!; [done|apply write_in|done|].
  by rewrite Hn', reverse_involutive.
Qed.

(** 54321 in base 10. *)
Definition ex_string : bytes :=
  write 1000 [49; 212] (write 1010 [1; 1; 1; 1; 1; 1; 1; 1] (write 1020 [0; 0; 0] ∅)).

Lemma xp_string_roundtrip_witness :
  exists m' zs', (s ← Cyc_XP_tostr (_tag_fat 1010 1 8) 8 10 2 (_tag_fat 1000 1 2); Cyc_XP_fromstr 3 (_tag_fat 1020 1 3) (curr s) 10) ex_string =
      (Ret 0, m') /\ length zs' = 3%nat /\ holds m' 1020 zs' /\ Forall byte_ok zs' /\ num zs' = 54321.
Proof.
  apply (xp_string_roundtrip ex_string (_tag_fat 1010 1 8) (_tag_fat 1000 1 2) (_tag_fat 1020 1 3) 1010 1000 1020 8 10 [49; 212] [0; 0; 0]).
  assert (Hh : holds ex_string 1000 [49; 212] /\ holds ex_string 1010 [1; 1; 1; 1; 1; 1; 1; 1] /\ holds ex_string 1020 [0; 0; 0]).
  { unfold ex_string. split_and!; repeat (apply write_in || (apply holds_write; [|intros a Ha; unfold outside; simpl in *; lia])). }
  destruct Hh as (H1 & H2 & H3). split; unfold digits_of, disjoint, byte_ok; simpl length; split_and?; try lia; try done;
    try (split; simpl; lia); try (repeat constructor; lia); exact (holds_room _ _ _ H2).
Defined.
