(* ===== verification/XPBits.v ===== *)
(** * Bits, shifts and machine integers

    The bitwise operations work on the binary representation of the numbers,
    shifts multiply and divide by powers of two, and numbers survive conversion
    to machine integers; then the cases in which the code does not do what its
    source means. *)

From S2P Require Import Prelude RwLock Alloc Region RegionSafety Words FatPtr CycBytes ByteMem CycXP XPSpec XPDivSpec.

(** ** Bits of a number *)

Lemma digit_bits a v i : byte_ok a -> 0 <= i -> Z.testbit (a + 256 * v) i = if i <? 8 then Z.testbit a i else Z.testbit v (i - 8).
Proof.
  intros Ha Hi. unfold byte_ok in Ha. change 256 with (2 ^ 8). destruct (i <? 8) eqn:E.
  - rewrite <- (Z.mod_pow2_bits_low _ 8) by lia. rewrite Z.mul_comm, Z_mod_plus_full. by rewrite Z.mod_pow2_bits_low by lia.
  - replace v with ((a + 2 ^ 8 * v) / 2 ^ 8) at 2 by (change (2 ^ 8) with 256; words). rewrite Z.div_pow2_bits by lia. f_equal. lia.
Qed.

(** Combining digits bit by bit combines numbers bit by bit. *)
Lemma num_bitwise op f xs ys : (forall a b i, Z.testbit (op a b) i = f (Z.testbit a i) (Z.testbit b i)) -> op 0 0 = 0 ->
  (forall a b, byte_ok a -> byte_ok b -> byte_ok (op a b)) -> Forall byte_ok xs -> Forall byte_ok ys -> length xs = length ys ->
  num (zip_with op xs ys) = op (num xs) (num ys).
Proof.
  intros Hop H0 Hb Hx. revert ys. induction Hx as [|a xs Ha Hx IH]; intros [|b ys] Hy Hl; simplify_eq/=; [done|].
  inversion_clear Hy as [|? ? Hbb Hys]. rewrite IH by done. apply Z.bits_inj'. intros i Hi.
  rewrite Hop, !digit_bits by (try apply Hb; done). destruct (i <? 8); by rewrite Hop.
Qed.

Lemma land_byte a b : byte_ok a -> byte_ok b -> byte_ok (Z.land a b).
Proof.
  unfold byte_ok. intros Ha Hb. split; [apply Z.land_nonneg; lia|]. change 256 with (2 ^ 8). rewrite <- (Z.mod_small b (2 ^ 8)) by (simpl; lia).
  rewrite <- Z.land_ones, Z.land_assoc, Z.land_ones by lia. apply Z.mod_pos_bound. lia.
Qed.

(** A byte has no bits above the eighth. *)
Lemma byte_shiftr a : byte_ok a <-> Z.shiftr a 8 = 0.
Proof. unfold byte_ok. rewrite Z.shiftr_div_pow2 by lia. change (2 ^ 8) with 256. words. Qed.

Lemma lor_byte a b : byte_ok a -> byte_ok b -> byte_ok (Z.lor a b).
Proof. rewrite !byte_shiftr, Z.shiftr_lor. by intros -> ->. Qed.

Lemma lxor_byte a b : byte_ok a -> byte_ok b -> byte_ok (Z.lxor a b).
Proof. rewrite !byte_shiftr, Z.shiftr_lxor. by intros -> ->. Qed.

Section passes.
Context (m : bytes) (z : fat_ptr) (p : Z) (n : nat) (Hz : target m z p n).

(** A digit of the result from a digit of each operand. *)
Lemma zip_pass op x q xs y r ys line : operand m p n x q xs -> operand m p n y r ys -> (forall a b, byte_ok a -> byte_ok b -> byte_ok (op a b)) ->
  returns (for_up 0 (Z.of_nat n) (fun i _ => a ← digit x i line; b ← digit y i line; set_digit z i (op a b) line) tt)
    (fun _ => wrote m p n (fun zs => zs = zip_with op xs ys)) m.
Proof.
  intros Hx Hy Hop. destruct Hz as [Hs Hr].
  apply (forward_pass z p n _ (fun l _ => l = zip_with op (take (length l) xs) (take (length l) ys))); [done|done|done| |].
  - intros l [] Hl Hb HP. apply wp_bind. eapply wp_operand; [done|done|]. intros a Ha Hab.
    apply wp_bind. eapply wp_operand; [done|done|]. intros b Hbv Hbb. eapply wp_put_next; [done|done|done|].
    rewrite u8_small by (by apply Hop). exists (op a b). split; [by apply Hop|]. split; [done|].
    rewrite length_app. simpl. rewrite Nat.add_1_r, (take_S_r _ _ _ Ha), (take_S_r _ _ _ Hbv), zip_with_app; [by rewrite <- HP|].
    rewrite !length_take. destruct Hx as (_ & -> & _), Hy as (_ & -> & _). done.
  - intros l [] Hl Hb HP. destruct Hx as (_ & Hxl & _), Hy as (_ & Hyl & _).
    rewrite !firstn_all2 in HP by lia. by exists l.
Qed.

(** The bitwise operation [op], which is [f] on bits. *)
Lemma bitwise_spec op f x q xs y r ys line : operand m p n x q xs -> operand m p n y r ys ->
  (forall a b i, Z.testbit (op a b) i = f (Z.testbit a i) (Z.testbit b i)) -> op 0 0 = 0 ->
  (forall a b, byte_ok a -> byte_ok b -> byte_ok (op a b)) ->
  returns (for_up 0 (Z.of_nat n) (fun i _ => a ← digit x i line; b ← digit y i line; set_digit z i (op a b) line) tt)
    (fun _ => wrote m p n (fun zs => num zs = op (num xs) (num ys))) m.
Proof.
  intros Hx Hy Hf H0 Hb. eapply wp_conseq; [by eapply zip_pass|]. intros _ m' (zs & Hl & Hzb & -> & ->).
  destruct Hx as ((_ & _ & Hxb) & Hxl & _), Hy as ((_ & _ & Hyb) & Hyl & _). eexists. split_and!; [done|done|done|].
  eapply num_bitwise; done || lia.
Qed.

Lemma and_spec x q xs y r ys : operand m p n x q xs -> operand m p n y r ys ->
  returns (Cyc_XP_and (Z.of_nat n) z x y) (fun _ => wrote m p n (fun zs => num zs = Z.land (num xs) (num ys))) m.
Proof. intros Hx Hy. eapply bitwise_spec; [done|done|exact Z.land_spec|done|exact land_byte]. Qed.

Lemma or_spec x q xs y r ys : operand m p n x q xs -> operand m p n y r ys ->
  returns (Cyc_XP_or (Z.of_nat n) z x y) (fun _ => wrote m p n (fun zs => num zs = Z.lor (num xs) (num ys))) m.
Proof. intros Hx Hy. eapply bitwise_spec; [done|done|exact Z.lor_spec|done|exact lor_byte]. Qed.

Lemma xor_spec x q xs y r ys : operand m p n x q xs -> operand m p n y r ys ->
  returns (Cyc_XP_xor (Z.of_nat n) z x y) (fun _ => wrote m p n (fun zs => num zs = Z.lxor (num xs) (num ys))) m.
Proof. intros Hx Hy. eapply bitwise_spec; [done|done|exact Z.lxor_spec|done|exact lxor_byte]. Qed.

Lemma not_spec x q xs : operand m p n x q xs ->
  returns (Cyc_XP_not (Z.of_nat n) z x) (fun _ => wrote m p n (fun zs => num zs = weight n - 1 - num xs)) m.
Proof.
  intros Hx. destruct Hz as [Hs Hr]. unfold Cyc_XP_not.
  apply (forward_pass z p n _ (fun l _ => num l = weight (length l) - 1 - num (take (length l) xs))); [done|done|none_yet| |].
  - intros l [] Hl Hb HP. apply wp_bind. eapply wp_operand; [done|done|]. intros a Ha Hab. eapply wp_put_next; [done|done|done|].
    exists (u8 (Z.lnot a)). split; [apply u8_ok|]. split; [done|]. grow. unfold byte_ok, Z.lnot in *.
    replace (u8 (Z.pred (- a))) with (255 - a) by words. rewrite HP. lia.
  - intros l [] Hl Hb HP. exists l. rewrite Hl in HP. destruct Hx as (_ & Hx & _). by rewrite !firstn_all2 in HP by lia.
Qed.
End passes.

(** ** Shifts *)

Lemma pow2_split s : 0 <= s -> 2 ^ s = weight (Z.to_nat (s / 8)) * 2 ^ (s mod 8).
Proof.
  intros Hs. unfold weight. rewrite Z2Nat.id by (apply Z.div_pos; lia). change 256 with (2 ^ 8). rewrite <- Z.pow_mul_r by words.
  rewrite <- Z.pow_add_r by words. f_equal. words.
Qed.

(** [z[i] |= 0] *)
Lemma or_zero_spec m z p n zs i line : target m z p n -> length zs = n -> Forall byte_ok zs -> (i < n)%nat ->
  returns (d ← digit z (Z.of_nat i) line; set_digit z (Z.of_nat i) (Z.lor d 0) line) (fun _ m' => m' = write p zs m) (write p zs m).
Proof.
  intros [Hs Hr] Hl Hb Hi. destruct (lookup_lt_is_Some_2 zs i) as [d Hd]; [lia|]. pose proof (Forall_lookup_1 _ _ _ _ Hb Hd).
  apply wp_bind. eapply (wp_digit z p); [done|lia|apply write_in, Hd|]. eapply (wp_set_digit z p); [done|lia|eexists; apply write_in, Hd|].
  rewrite Z.lor_0_r, u8_small, <- write_insert, list_insert_id by (done || lia). done.
Qed.

Section shifts.
Context (m : bytes) (z x : fat_ptr) (p q : Z) (n : nat) (xs : list Z) (s : Z).
Context (Hz : target m z p n) (Hx : digits_of m x q xs) (Hn : (0 < n)%nat) (Hs : 0 <= s).
Local Definition k : nat := Z.to_nat (s / 8).

Lemma shift_parts : Z.quot s 8 = Z.of_nat k /\ Z.rem s 8 = s mod 8 /\ 0 <= s mod 8 < 8.
Proof. unfold k. rewrite Z.quot_div_nonneg, Z.rem_mod_nonneg by lia. split_and!; [words|done|words|words]. Qed.

(** The digits moved up by whole bytes. *)
Lemma lshift_bytes (Q : unit -> bytes -> Prop) : (length xs + k <= n)%nat -> q <= p \/ p + Z.of_nat n <= q ->
  Q tt (write p (replicate k 0 ++ xs ++ replicate (n - length xs - k) 0) m) ->
  returns (j ← for_down (Z.of_nat n - 1) (Z.of_nat (length xs) + Z.of_nat k) (fun j _ => set_digit z j 0 198;; mret (j - 1)) (Z.of_nat n - 1);
    j ← for_down (Z.of_nat (length xs) - 1) 0 (fun i j => d ← digit x i 200; set_digit z j d 200;; mret (j - 1)) j;
    for_down j 0 (fun j _ => set_digit z j 0 202) tt) Q m.
Proof.
  intros Hfit Hq HQ. destruct Hz as [Hsz Hr]. pose proof Hx as (Hxs & Hxh & Hxb). set (zs := replicate (n - length xs - k) 0) in *.
  apply wp_bind.
  apply (backward_pass p _ _ _ (fun l j => l = replicate (length l) 0 /\ j = Z.of_nat n - 1 - Z.of_nat (length l)) _ [] _ _ m); [lia|done|split; [done|simpl; lia]| |].
  { intros i l j Hi Hl [Hrep ->]. simpl in Hl. apply wp_bind. eapply wp_put_prev; [done|done|lia|]. apply wp_ret. exists 0. change (u8 0) with 0.
    split; [done|]. simpl. split; [by rewrite <- Hrep|lia]. }
  intros l j Hl [-> ->]. simpl in Hl. replace (length l) with (n - length xs - k)%nat by lia. fold zs.
  assert (Hzl : length zs = (n - length xs - k)%nat) by (unfold zs; apply length_replicate).
  apply wp_bind.
  apply (backward_pass (p + Z.of_nat k) _ _ _ (fun l j => (length zs <= length l <= length zs + length xs)%nat /\ l = drop (length xs + length zs - length l) xs ++ zs /\
    j = Z.of_nat n - 1 - Z.of_nat (length l)) _ zs _ _ m); [lia| | | |].
  { f_equal. lia. }
  { split_and!; [lia|lia| |lia]. by rewrite drop_ge by lia. }
  { intros i l1 j Hi Hl1 (Hle & Hdrop & ->). set (h := (length xs + length zs - S (length l1))%nat).
    replace i with (Z.of_nat h) at 1 by lia. destruct (lookup_lt_is_Some_2 xs h) as [d Hd]; [lia|].
    apply wp_bind. eapply (wp_read m x q xs); [done|done|apply write_out; unfold outside; lia|]. intros Hdb.
    apply wp_bind. replace (p + Z.of_nat k + i + 1) with (p + (Z.of_nat n - 1 - Z.of_nat (length l1)) + 1) by lia.
    eapply wp_put_prev; [done|done|lia|]. rewrite u8_small by done. apply wp_ret. exists d. split; [f_equal; lia|].
    simpl length. split; [lia|]. split; [|lia]. fold h. rewrite (drop_S _ _ _ Hd). simpl. f_equal.
    replace (S h) with (length xs + length zs - length l1)%nat by lia. done. }
  intros l1 j Hl1 (Hle & Hdrop & ->). assert (length l1 = (length xs + length zs)%nat) as Hll by lia.
  rewrite Hll, Nat.sub_diag, drop_0 in Hdrop. subst l1. clear Hl1 Hle.
  apply (backward_pass p _ _ _ (fun l _ => l = replicate (length l - length xs - length zs) 0 ++ xs ++ zs) _ (xs ++ zs) _ _ m); [lia| | | |].
  { f_equal. lia. }
  { rewrite length_app. replace (_ - _ - _)%nat with 0%nat by lia. done. }
  { intros i l1 [] Hi Hl1 HP. rewrite length_app in Hl1. eapply wp_put_prev; [done|done|lia|]. exists 0. split; [done|].
    simpl length. replace (S (length l1) - length xs - length zs)%nat with (S (length l1 - length xs - length zs)) by lia. simpl. by f_equal. }
  intros l1 [] Hl1 HP. rewrite length_app in Hl1. rewrite HP, Z.add_0_r. replace (length l1 - length xs - length zs)%nat with k by lia. done.
Qed.

Lemma lshift_spec : (length xs + k <= n)%nat -> q <= p \/ p + Z.of_nat n <= q ->
  returns (Cyc_XP_lshift (Z.of_nat n) z (Z.of_nat (length xs)) x s 0)
    (fun _ => wrote m p n (fun zs => num zs = (num xs * 2 ^ s) mod weight n)) m.
Proof.
  intros Hfit Hq. destruct shift_parts as (Hk & Hrem & Hb). pose proof (proj2 (proj2 Hx)) as Hxb. unfold Cyc_XP_lshift. simpl (if 0 =? 0 then 0 else 255).
  rewrite Hk, Hrem.
  replace (if _ <? _ then _ else _) with (Z.of_nat (length xs) - 1) by (destruct (_ <? _) eqn:E; lia).
  set (zs0 := replicate k 0 ++ xs ++ replicate (n - length xs - k) 0).
  assert (Hl0 : length zs0 = n) by (unfold zs0; rewrite !length_app, !length_replicate; lia).
  assert (Hb0 : Forall byte_ok zs0) by (unfold zs0; repeat apply Forall_app_2; [by apply Forall_replicate|done|by apply Forall_replicate]).
  assert (Hn0 : num zs0 * 2 ^ (s mod 8) = num xs * 2 ^ s).
  { unfold zs0. rewrite !num_app, !num_zeros, length_replicate, (pow2_split s) by done. fold k. lia. }
  pose proof (lshift_bytes (fun _ m1 => m1 = write p zs0 m) Hfit Hq eq_refl) as Hw.
  apply wp_bind_inv in Hw. apply wp_bind. eapply wp_conseq; [exact Hw|]. intros j m1 Hw1.
  apply wp_bind_inv in Hw1. apply wp_bind. eapply wp_conseq; [exact Hw1|]. intros j2 m2 Hw2.
  apply wp_bind. eapply wp_conseq; [exact Hw2|]. intros _ m3 ->. destruct (0 <? s mod 8) eqn:E1.
  2: { apply wp_ret. exists zs0. split_and!; try done. replace (s mod 8) with 0 in Hn0 by lia. rewrite <- Hn0, Z.mul_1_r. symmetry. apply Z.mod_small.
       pose proof (num_bound zs0 Hb0) as H. by rewrite Hl0 in H. }
  rewrite Z.shiftl_1_l. assert (Hp2 : 2 ^ (s mod 8) <= 2 ^ 7) by (apply Z.pow_le_mono_r; lia). change (2 ^ 7) with 128 in Hp2.
  pose proof (Z.pow_pos_nonneg 2 (s mod 8)). apply wp_bind. eapply wp_conseq.
  { apply (product_spec (write p zs0 m) z p n) with (q := p) (xs := zs0); [|split_and!; [|done|by left]|lia].
    - destruct Hz as [Hsz Hr]. by split; [|apply room_write].
    - destruct Hz as [Hsz Hr]. split_and!; [by rewrite Hl0|apply write_in|done]. }
  intros c m4 (zs & Hzl & Hzb & -> & Hc & Hn1). rewrite write_write by lia. rewrite Z.shiftr_0_l.
  eapply wp_conseq; [exact (or_zero_spec m z p n zs 0 208 Hz Hzl Hzb Hn)|]. intros _ m5 ->. exists zs. split_and!; try done.
  rewrite <- Hn0, <- Hn1. pose proof (num_bound zs Hzb) as Hzn. rewrite Hzl in Hzn. apply Z.mod_unique with c; [by left|lia].
Qed.

(** The digits moved down by whole bytes. *)
Lemma rshift_bytes (Q : unit -> bytes -> Prop) : (length xs - k <= n)%nat -> p <= q \/ q + Z.of_nat (length xs) <= p ->
  Q tt (write p (drop k xs ++ replicate (n - (length xs - k)) 0) m) ->
  returns (j ← loop (S n) (fun '(i, j) =>
      if (i <? Z.of_nat (length xs)) && (j <? Z.of_nat n) then
        d ← digit x i 216; set_digit z j d 216;; mret (inl (i + 1, j + 1))
      else mret (inr j)) (Z.of_nat k, 0);
    for_up j (Z.of_nat n) (fun j _ => set_digit z j 0 218) tt) Q m.
Proof.
  intros Hfit Hq HQ. destruct Hz as [Hsz Hr]. pose proof Hx as (Hxs & Hxh & Hxb). apply wp_bind.
  apply (wp_loop _ (fun c '(i, j) m' => exists t, i = Z.of_nat (k + t) /\ j = Z.of_nat t /\ (t <= length xs - k)%nat /\ c = (n - t)%nat /\
    m' = write p (take t (drop k xs)) m)) with n; [| |lia].
  - intros c [i j] m' (t & -> & -> & Ht & -> & ->).
    assert (Htl : length (take t (drop k xs)) = t) by (rewrite length_take, length_drop; lia).
    destruct ((Z.of_nat (k + t) <? Z.of_nat (length xs)) && (Z.of_nat t <? Z.of_nat n)) eqn:E1.
    + apply andb_true_iff in E1 as [E1%Z.ltb_lt E2%Z.ltb_lt]. destruct (lookup_lt_is_Some_2 xs (k + t)) as [d Hd]; [lia|].
      apply wp_bind. eapply (wp_read m x q xs); [done|done|apply write_out; rewrite Htl; unfold outside; lia|]. intros Hdb.
      apply wp_bind. rewrite <- Htl at 1. eapply wp_put_next; [done|done|rewrite Htl; lia|]. rewrite u8_small by done. apply wp_ret.
      exists (n - S t)%nat. split; [lia|]. exists (S t). split_and!; [lia|lia|lia|done|].
      rewrite (take_S_r _ _ d) by (by rewrite lookup_drop). done.
    + apply wp_ret. assert (t = (length xs - k)%nat) as -> by (apply andb_false_iff in E1 as [E1%Z.ltb_ge|E1%Z.ltb_ge]; lia). rewrite firstn_all2 in * by (rewrite length_drop; lia).
      rewrite <- length_drop at 1. eapply fill_pass; [done|rewrite length_drop; lia|]. by rewrite length_drop.
  - exists 0%nat. rewrite take_0. split_and!; try done; lia.
Qed.

Lemma rshift_spec : (length xs - k <= n)%nat -> p <= q \/ q + Z.of_nat (length xs) <= p ->
  returns (Cyc_XP_rshift (Z.of_nat n) z (Z.of_nat (length xs)) x s 0)
    (fun _ => wrote m p n (fun zs => num zs = num xs / 2 ^ s)) m.
Proof.
  intros Hfit Hq. destruct shift_parts as (Hk & Hrem & Hb). pose proof (proj2 (proj2 Hx)) as Hxb. unfold Cyc_XP_rshift. simpl (if 0 =? 0 then 0 else 255).
  rewrite Hk, Hrem, Nat2Z.id. set (zs0 := drop k xs ++ replicate (n - (length xs - k)) 0).
  assert (Hl0 : length zs0 = n) by (unfold zs0; rewrite !length_app, length_drop, length_replicate; lia).
  assert (Hb0 : Forall byte_ok zs0) by (unfold zs0; apply Forall_app_2; [by apply Forall_drop|by apply Forall_replicate]).
  assert (Hn0 : num zs0 = num xs / weight k).
  { unfold zs0. rewrite num_app, num_zeros. pose proof (num_bound _ (Forall_take _ k _ Hxb)) as Ht. destruct (decide (k <= length xs)%nat) as [Hle|Hgt].
    - rewrite length_take, Nat.min_l in Ht by lia. apply Z.div_unique with (num (take k xs)); [by left|]. rewrite (num_split xs k) by done. lia.
    - rewrite drop_ge by lia. simpl. symmetry. apply Z.div_small. pose proof (num_bound xs Hxb).
      assert (weight (length xs) <= weight k) by (apply Z.pow_le_mono_r; lia). lia. }
  pose proof (rshift_bytes (fun _ m1 => m1 = write p zs0 m) Hfit Hq eq_refl) as Hw.
  apply wp_bind_inv in Hw. apply wp_bind. eapply wp_conseq; [exact Hw|]. intros j m1 Hw1.
  apply wp_bind. eapply wp_conseq; [exact Hw1|]. intros _ m3 ->. pose proof (pow2_split s Hs) as Hsplit. fold k in Hsplit. pose proof (weight_pos k).
  destruct (0 <? s mod 8) eqn:E1.
  2: { apply wp_ret. exists zs0. split_and!; try done. replace (s mod 8) with 0 in Hsplit by lia. by rewrite Hsplit, Z.mul_1_r. }
  rewrite Z.shiftl_1_l. assert (Hp2 : 2 ^ (s mod 8) <= 2 ^ 7) by (apply Z.pow_le_mono_r; lia). change (2 ^ 7) with 128 in Hp2.
  pose proof (Z.pow_pos_nonneg 2 (s mod 8)). apply wp_bind. eapply wp_conseq.
  { apply (quotient_spec (write p zs0 m) z p n) with (q := p) (xs := zs0); [|split_and!; [|done|by left]|lia].
    - destruct Hz as [Hsz Hr]. by split; [|apply room_write].
    - destruct Hz as [Hsz Hr]. split_and!; [by rewrite Hl0|apply write_in|done]. }
  intros c m4 (zs & Hzl & Hzb & -> & Hc & Hn1). rewrite write_write by lia. rewrite Z.shiftl_0_l.
  replace (Z.of_nat n - 1) with (Z.of_nat (n - 1)) by lia.
  eapply wp_conseq; [apply (or_zero_spec m z p n zs (n - 1) 224 Hz Hzl Hzb); lia|]. intros _ m5 ->. exists zs. split_and!; try done.
  rewrite Hsplit, <- Z.div_div, <- Hn0 by lia. apply Z.div_unique with c; [by left|lia].
Qed.
End shifts.

(** ** Theorems *)

(** Numbers survive conversion to digits and back: [Cyc_XP_fromint] followed by
    [Cyc_XP_toint] on the same [n] digits gives the low [8 n] bits of the machine
    integer, all of it when there are four digits or more, and what
    [Cyc_XP_fromint] returns are the bits that did not fit. *)
Theorem xp_int_roundtrip m z p n u : spans z p (Z.of_nat n) -> room m p (Z.of_nat n) -> (0 < n)%nat -> 0 <= u < 4294967296 ->
  exists m', (c ← Cyc_XP_fromint (Z.of_nat n) z u; v ← Cyc_XP_toint (Z.of_nat n) z; mret (c, v)) m = (Ret (u / weight n, u mod weight n), m').
Proof.
  intros Hs Hr Hn Hu. pose proof (weight_pos n).
  destruct (wp_total (c ← Cyc_XP_fromint (Z.of_nat n) z u; v ← Cyc_XP_toint (Z.of_nat n) z; mret (c, v))
    (fun r _ => r = (u / weight n, u mod weight n)) m) as (r & m' & Hrun & ->); [|by exists m'].
  apply wp_bind. eapply wp_conseq; [by apply (fromint_spec m z p n u)|]. intros c m1 (zs & Hl & Hb & -> & Hz & ->).
  apply wp_bind. rewrite <- Hl at 1. eapply wp_conseq; [apply (toint_spec z p zs); split_and!; [by rewrite Hl|apply write_in|done]|].
  intros v m2 [-> ->]. apply wp_ret. f_equal. rewrite Hz. apply Z.mod_small. pose proof (Z.mod_pos_bound u (weight n)).
  pose proof (Z.mod_le u (weight n)). lia.
Qed.

Lemma xp_int_roundtrip_witness : exists m', (c ← Cyc_XP_fromint 2 (ex_fat 1000 2) 305419896; v ← Cyc_XP_toint 2 (ex_fat 1000 2); mret (c, v))
    (write 1000 [1; 1] ∅) = (Ret (4660, 22136), m').
Proof.
  apply (xp_int_roundtrip (write 1000 [1; 1] ∅) (ex_fat 1000 2) 1000 2 305419896);
    [by apply tag_spans|exact (holds_room _ _ _ (write_in 1000 [1; 1] ∅))|lia|lia].
Defined.

(** ** Behaviours the source does not intend *)

(** The source casts [~x[i]] to a digit; the compiled code does not, so a zero
    digit contributes a negative number and its carry is lost: the complement of
    256 comes out as [0xFE00] instead of [0xFF00]. *)
Example neg_loses_carry :
  (Cyc_XP_neg 2 (ex_fat 1010 2) (ex_fat 1000 2) 1 (write 1000 [0; 1] (write 1010 [7; 7] ∅))).2 !! 1011 = Some 254.
Proof. reflexivity. Qed.

(** With fewer digits than the shifted number needs but more than the operand
    has, the digits are copied to the wrong places: 2 shifted left by 16 bits
    into two digits gives 512, not 0. *)
Example lshift_misplaces :
  (Cyc_XP_lshift 2 (ex_fat 1010 2) 1 (ex_fat 1000 1) 16 0 (write 1000 [2] (write 1010 [7; 7] ∅))).2 !! 1011 = Some 2.
Proof. reflexivity. Qed.

(** The bound test of [Cyc__memcpy] compares the number of bytes of the arrays
    with the number of elements: two 4-byte elements are copied out of arrays of
    two bytes, over the byte behind the destination. *)
Example memcpy_overruns :
  let m := write 1000 [1; 2; 3; 4; 5; 6; 7; 8] (write 1020 [0; 0; 99; 99; 99; 99; 99; 99] ∅) in
  (Cyc__memcpy (ex_fat 1020 2) (ex_fat 1000 2) 2 4 m).2 !! 1022 = Some 3.
Proof. reflexivity. Qed.
