(* ===== verification/CycAP.v ===== *)
(** * Arbitrary-precision integers

    Models src/bin/genfiles/ap.c: signed numbers as heap objects that point to
    their digits, on the routines of CycXP.v.  The state has the objects, the
    digits in byte memory, the heap they are allocated in and the three static
    variables.  Every operation makes a new object. *)

From S2P Require Import Prelude RwLock Alloc Region RegionSafety Words FatPtr ZeroTerm CycBytes CycXP.

Definition ap_cyc : string := "ap.cyc".

(** ** Data *)

Record AP_T : Type := mk_AP { sign : Z; ndigits : Z; ap_size : Z; digits : fat_ptr }.

Definition set_sign (v : Z) (t : AP_T) : AP_T := mk_AP v (ndigits t) (ap_size t) (digits t).
Definition set_ndigits (v : Z) (t : AP_T) : AP_T := mk_AP (sign t) v (ap_size t) (digits t).
Definition set_size (v : Z) (t : AP_T) : AP_T := mk_AP (sign t) (ndigits t) v (digits t).
Definition set_digits (v : fat_ptr) (t : AP_T) : AP_T := mk_AP (sign t) (ndigits t) (ap_size t) v.

Record ap_mem (H : Type) : Type := mk_ap_mem {
  nums : gmap Z AP_T;
  dig : bytes;
  hp : mem H;
  AP_zero : Z;
  AP_one : Z;
  ap_init : Z
}.
Arguments mk_ap_mem {H} _ _ _ _ _ _.
Arguments nums {H} _.
Arguments dig {H} _.
Arguments hp {H} _.
Arguments AP_zero {H} _.
Arguments AP_one {H} _.
Arguments ap_init {H} _.

Definition Cyc_long_min : Z := -2147483648.
Definition Cyc_long_max : Z := 2147483647.
Definition sizeof_AP_T : Z := 24.
Definition sizeof_long : Z := 4.

Section ap.
Context {H : Type} `{Heap H}.
Abbreviation M := (ST (ap_mem H)).

(** ** Accesses *)

Definition on_dig {A} (c : BM A) : M A := fun s =>
  let '(r, d) := c (dig s) in (r, mk_ap_mem (nums s) d (hp s) (AP_zero s) (AP_one s) (ap_init s)).

Definition on_hp {A} (c : ST (mem H) A) : M A := fun s =>
  let '(r, h) := c (hp s) in (r, mk_ap_mem (nums s) (dig s) h (AP_zero s) (AP_one s) (ap_init s)).

Definition put_num (z : Z) (t : AP_T) : M unit := fun s =>
  (Ret tt, mk_ap_mem (<[z := t]> (nums s)) (dig s) (hp s) (AP_zero s) (AP_one s) (ap_init s)).

Definition put_statics (zero one i : Z) : M unit := fun s =>
  (Ret tt, mk_ap_mem (nums s) (dig s) (hp s) zero one i).

(** [*x], and [x->f = v]. *)
Definition num_of (x : Z) : M AP_T := s ← get; lift (load (nums s) x).
Definition upd (z : Z) (f : AP_T -> AP_T) : M unit := t ← num_of z; put_num z (f t).

Definition chk (x line : Z) : M unit := lift (_check_null x ap_cyc line);; mret tt.
Definition ap_assert (b : bool) (msg : string) : M unit := lift (cassert b msg).

(** [x->digits[i]] *)
Definition ap_digit (x i line : Z) : M Z :=
  t ← num_of x; a ← lift (_check_fat_subscript (digits t) 1 i ap_cyc line); on_dig (get_byte a).

Definition set_ap_digit (z i v line : Z) : M unit :=
  t ← num_of z; a ← lift (_check_fat_subscript (digits t) 1 i ap_cyc line); on_dig (put_byte a v).

(** [x->ndigits == 1 && x->digits[0] == v] *)
Definition is_digit_number (x v line : Z) : M bool :=
  t ← num_of x; if ndigits t =? 1 then d ← ap_digit x 0 line; mret (d =? v) else mret false.

(** [_tag_fat(_cyccalloc_atomic(sizeof(unsigned char), n), sizeof(unsigned char), n)]
    and the same with [_cycalloc_atomic]: new bytes. *)
Definition calloc_bytes (n line : Z) : M fat_ptr :=
  p ← on_hp (_bounded_GC_calloc_atomic 1 (u32 n) ap_cyc line);
  on_dig (modify (zero_bytes p (Z.to_nat (u32 n))));;
  mret (_tag_fat p 1 (u32 n)).

Definition malloc_bytes (n line : Z) : M fat_ptr :=
  p ← on_hp (_bounded_GC_malloc_atomic (i32 (u32 n)) ap_cyc line);
  on_dig (modify (zero_bytes p (Z.to_nat (u32 n))));;
  mret (_tag_fat p 1 (u32 n)).

(** ** Making numbers *)

Definition Cyc_normalize (z n : Z) : M Z :=
  chk z 54;; t ← num_of z;
  k ← on_dig (Cyc_XP_length n (digits t));
  upd z (set_ndigits k);; mret z.

Definition Cyc_set (z n : Z) : M Z :=
  chk z (if n =? Cyc_long_min then 45 else if n <? 0 then 47 else 49);; t ← num_of z;
  on_dig (Cyc_XP_fromint (ap_size t) (digits t)
            (if n =? Cyc_long_min then u32 (Cyc_long_max + 1) else if n <? 0 then u32 (- n) else u32 n));;
  upd z (set_sign (if n <? 0 then -1 else 1));;
  Cyc_normalize z (ap_size t).

(** [Cyc_mk] once the static numbers exist. *)
Definition mk_initialized (n : Z) : M Z :=
  z ← on_hp (_bounded_GC_malloc sizeof_AP_T ap_cyc 35);
  put_num z (mk_AP 0 0 0 (mk_fat 0 0 0));;
  d ← calloc_bytes n 36; upd z (set_digits d);;
  ap_assert (0 <? n) "size > 0";;
  upd z (set_sign 1);; upd z (set_size n);; upd z (set_ndigits 1);;
  mret z.

Definition fromint_initialized (n : Z) : M Z := t ← mk_initialized sizeof_long; Cyc_set t n.

Definition Cyc_AP_init : M unit :=
  s ← get; put_statics (AP_zero s) (AP_one s) 1;;
  zero ← fromint_initialized 0;
  s ← get; put_statics zero (AP_one s) (ap_init s);;
  one ← fromint_initialized 1;
  s ← get; put_statics (AP_zero s) one (ap_init s).

Definition Cyc_mk (n : Z) : M Z :=
  s ← get; (if ap_init s =? 0 then Cyc_AP_init else mret tt);; mk_initialized n.

Definition Cyc_AP_new (n : Z) : M Z := z ← Cyc_mk sizeof_long; Cyc_set z n.
Definition Cyc_AP_fromint (n : Z) : M Z := z ← Cyc_mk sizeof_long; Cyc_set z n.

(** ** Addition and subtraction of magnitudes *)

(** [Cyc_add] with [x] at least as long as [y]. *)
Definition add_ordered (z x y : Z) : M Z :=
  tx ← num_of x; ty ← num_of y; let n := ndigits ty in
  chk z (if n <? ndigits tx then 62 else 67);; tz ← num_of z;
  (if n <? ndigits tx then
     carry ← on_dig (Cyc_XP_add n (digits tz) (digits tx) (digits ty) 0);
     c ← on_dig (Cyc_XP_sum (ndigits tx - n) (_fat_ptr_plus (digits tz) 1 n) (_fat_ptr_plus (digits tx) 1 n) carry);
     set_ap_digit z (ap_size tz - 1) c 64
   else
     c ← on_dig (Cyc_XP_add n (digits tz) (digits tx) (digits ty) 0);
     set_ap_digit z n c 67);;
  Cyc_normalize z (ap_size tz).

Definition Cyc_add (z x y : Z) : M Z :=
  chk y 58;; chk x 59;; ty ← num_of y; tx ← num_of x;
  if ndigits tx <? ndigits ty then add_ordered z y x else add_ordered z x y.

Definition Cyc_sub (z x y : Z) : M Z :=
  chk y 72;; ty ← num_of y; let n := ndigits ty in
  chk z 73;; chk x 73;; tz ← num_of z; tx ← num_of x;
  borrow ← on_dig (Cyc_XP_sub n (digits tz) (digits tx) (digits ty) 0);
  borrow ← (if n <? ndigits tx then
              on_dig (Cyc_XP_diff (ndigits tx - n) (_fat_ptr_plus (digits tz) 1 n) (_fat_ptr_plus (digits tx) 1 n) borrow)
            else mret borrow);
  ap_assert (borrow =? 0) "borrow == 0";;
  Cyc_normalize z (ap_size tz).

Definition Cyc_cmp (x y : Z) : M Z :=
  chk x 87;; chk y 87;; tx ← num_of x; ty ← num_of y;
  if negb (ndigits tx =? ndigits ty) then mret (ndigits tx - ndigits ty)
  else on_dig (Cyc_XP_cmp (ndigits tx) (digits tx) (digits ty)).

(** ** Signs *)

(** [z = mk(x->ndigits); memcpy(z->digits, x->digits, x->ndigits); z->ndigits = x->ndigits] *)
Definition copy_number (x line : Z) : M Z :=
  tx ← num_of x;
  z ← Cyc_mk (ndigits tx); chk z line;; tz ← num_of z; tx ← num_of x;
  on_dig (Cyc__memcpy (digits tz) (digits tx) (u32 (ndigits tx)) 1);;
  upd z (set_ndigits (ndigits tx));; mret z.

Definition Cyc_AP_neg (x : Z) : M Z :=
  ap_assert (negb (x =? 0)) "x";;
  z ← copy_number x 99;
  b ← is_digit_number z 0 101; tx ← num_of x;
  upd z (set_sign (if b : bool then 1 else - sign tx));; mret z.

Definition Cyc_AP_abs (x : Z) : M Z :=
  ap_assert (negb (x =? 0)) "x";;
  z ← copy_number x 108;
  upd z (set_sign 1);; mret z.

(** [(x->sign ^ y->sign) == 0] *)
Definition same_sign (tx ty : AP_T) : bool := Z.lxor (sign tx) (sign ty) =? 0.

(** [z->sign = iszero(z) ? 1 : v] *)
Definition sign_result (z v line : Z) : M Z :=
  b ← is_digit_number z 0 line; upd z (set_sign (if b : bool then 1 else v));; mret z.

(** ** Arithmetic *)

Definition Cyc_AP_mul (x y : Z) : M Z :=
  ap_assert (negb (x =? 0)) "x";; ap_assert (negb (y =? 0)) "y";;
  tx ← num_of x; ty ← num_of y;
  z ← Cyc_mk (i32 (ndigits tx + ndigits ty)); chk z 118;; tz ← num_of z;
  on_dig (Cyc_XP_mul (digits tz) (ndigits tx) (digits tx) (ndigits ty) (digits ty));;
  Cyc_normalize z (ap_size tz);;
  sign_result z (if same_sign tx ty then 1 else -1) 121.

(** The three cases of [Cyc_AP_add] and [Cyc_AP_sub]: the magnitudes are added, or
    the smaller one is subtracted from the larger one. *)
Definition add_magnitudes (x y sg line : Z) : M Z :=
  tx ← num_of x; ty ← num_of y;
  z ← Cyc_mk (Z.max (ndigits tx) (ndigits ty) + 1);
  z ← Cyc_add z x y; chk z line;; sign_result z sg line.

Definition sub_magnitudes (x y sg line : Z) : M Z :=
  tx ← num_of x;
  z ← Cyc_mk (ndigits tx);
  z ← Cyc_sub z x y; chk z line;; sign_result z sg line.

Definition Cyc_AP_add (x y : Z) : M Z :=
  ap_assert (negb (x =? 0)) "x";; ap_assert (negb (y =? 0)) "y";;
  tx ← num_of x; ty ← num_of y;
  if same_sign tx ty then add_magnitudes x y (sign tx) 131
  else
    c ← Cyc_cmp x y;
    if 0 <? c then sub_magnitudes x y (sign tx) 135 else sub_magnitudes y x (- sign tx) 139.

Definition Cyc_AP_sub (x y : Z) : M Z :=
  ap_assert (negb (x =? 0)) "x";; ap_assert (negb (y =? 0)) "y";;
  tx ← num_of x; ty ← num_of y;
  if negb (same_sign tx ty) then add_magnitudes x y (sign tx) 149
  else
    c ← Cyc_cmp x y;
    if 0 <? c then sub_magnitudes x y (sign tx) 153 else sub_magnitudes y x (- sign tx) 156.

(** Quotient and remainder of the magnitudes. *)
Definition divide (x y zero_line alloc_line call_line : Z) : M (Z * Z) :=
  ap_assert (negb (x =? 0)) "x";; ap_assert (negb (y =? 0)) "y";;
  b ← is_digit_number y 0 zero_line;
  ap_assert (negb b) "!((y)->ndigits==1 && (y)->digits[0]==0)";;
  tx ← num_of x; ty ← num_of y;
  q ← Cyc_mk (ndigits tx);
  r ← Cyc_mk (ndigits ty);
  tmp ← malloc_bytes (ndigits tx + ndigits ty + 2) alloc_line;
  chk q call_line;; chk r call_line;; tq ← num_of q; tr ← num_of r;
  on_dig (Cyc_XP_div (ndigits tx) (digits tq) (digits tx) (ndigits ty) (digits ty) (digits tr) tmp);;
  Cyc_normalize q (ap_size tq);;
  Cyc_normalize r (ap_size tr);;
  mret (q, r).

Definition Cyc_AP_div (x y : Z) : M Z :=
  '(q, _) ← divide x y 164 168 169;
  tx ← num_of x; ty ← num_of y;
  sign_result q (if same_sign tx ty then 1 else -1) 174.

Definition Cyc_AP_mod (x y : Z) : M Z :=
  '(_, r) ← divide x y 182 186 187;
  tx ← num_of x;
  sign_result r (sign tx) 192.

Definition Cyc_mulmod (x y p : Z) : M Z := xy ← Cyc_AP_mul x y; Cyc_AP_mod xy p.

Definition Cyc_AP_cmp (x y : Z) : M Z :=
  ap_assert (negb (x =? 0)) "x";; ap_assert (negb (y =? 0)) "y";;
  tx ← num_of x; ty ← num_of y;
  if negb (same_sign tx ty) then mret (sign tx)
  else if sign tx =? 1 then Cyc_cmp x y else Cyc_cmp y x.

(** ** Shifts and bits *)

Definition Cyc_AP_lshift (x s : Z) : M Z :=
  ap_assert (negb (x =? 0)) "x";; ap_assert (0 <=? s) "s >= 0";;
  tx ← num_of x;
  z ← Cyc_mk (ndigits tx + Z.quot (Z.land (i32 (s + 7)) (Z.lnot 7)) 8);
  chk z 272;; tz ← num_of z;
  on_dig (Cyc_XP_lshift (ap_size tz) (digits tz) (ndigits tx) (digits tx) s 0);;
  upd z (set_sign (sign tx));;
  Cyc_normalize z (ap_size tz).

Definition Cyc_AP_rshift (x s : Z) : M Z :=
  ap_assert (negb (x =? 0)) "x";; ap_assert (0 <=? s) "s >= 0";;
  tx ← num_of x;
  if i32 (8 * ndigits tx) <=? s then Cyc_AP_new 0
  else
    z ← Cyc_mk (ndigits tx - Z.quot s 8); chk z 284;; tz ← num_of z;
    on_dig (Cyc_XP_rshift (ap_size tz) (digits tz) (ndigits tx) (digits tx) s 0);;
    Cyc_normalize z (ap_size tz);;
    sign_result z (sign tx) 287.

(** The body of [Cyc_AP_and] with [x] at least as long as [y]. *)
Definition and_ordered (x y : Z) : M Z :=
  ty ← num_of y;
  z ← Cyc_mk (ndigits ty); chk z 297;; tz ← num_of z; tx ← num_of x;
  on_dig (Cyc_XP_and (ndigits ty) (digits tz) (digits tx) (digits ty));;
  Cyc_normalize z (ap_size tz);;
  upd z (set_sign 1);; mret z.

Definition Cyc_AP_and (x y : Z) : M Z :=
  chk x 294;; chk y 294;; tx ← num_of x; ty ← num_of y;
  if ndigits tx <? ndigits ty then and_ordered y x else and_ordered x y.

(** The body of [Cyc_AP_or] and [Cyc_AP_xor]; the loop over the digits that only
    [x] has normalizes the result at each of them. *)
Definition bits_ordered (op : Z -> fat_ptr -> fat_ptr -> fat_ptr -> BM unit) (x y line : Z) : M Z :=
  tx ← num_of x;
  z ← Cyc_mk (ndigits tx); chk z line;; tz ← num_of z; ty ← num_of y;
  on_dig (op (ndigits ty) (digits tz) (digits tx) (digits ty));;
  loop (S (Z.to_nat (ndigits tx - ndigits ty))) (fun i =>
    if i <? ndigits tx then Cyc_normalize z (ap_size tz);; mret (inl (i + 1)) else mret (inr tt)) (ndigits ty);;
  upd z (set_sign 1);; mret z.

Definition Cyc_AP_or (x y : Z) : M Z :=
  chk x 305;; chk y 305;; tx ← num_of x; ty ← num_of y;
  if ndigits tx <? ndigits ty then bits_ordered Cyc_XP_or y x 308 else bits_ordered Cyc_XP_or x y 308.

Definition Cyc_AP_xor (x y : Z) : M Z :=
  chk x 317;; chk y 317;; tx ← num_of x; ty ← num_of y;
  if ndigits tx <? ndigits ty then bits_ordered Cyc_XP_xor y x 320 else bits_ordered Cyc_XP_xor x y 320.

(** ** Operations with a machine integer *)

Definition Cyc_AP_addi (x y : Z) : M Z := t ← Cyc_mk sizeof_long; t ← Cyc_set t y; Cyc_AP_add x t.
Definition Cyc_AP_subi (x y : Z) : M Z := t ← Cyc_mk sizeof_long; t ← Cyc_set t y; Cyc_AP_sub x t.
Definition Cyc_AP_muli (x y : Z) : M Z := t ← Cyc_mk sizeof_long; t ← Cyc_set t y; Cyc_AP_mul x t.
Definition Cyc_AP_divi (x y : Z) : M Z := t ← Cyc_mk sizeof_long; t ← Cyc_set t y; Cyc_AP_div x t.
Definition Cyc_AP_cmpi (x y : Z) : M Z := t ← Cyc_mk sizeof_long; t ← Cyc_set t y; Cyc_AP_cmp x t.

Definition Cyc_AP_modi (x y : Z) : M Z :=
  t ← Cyc_mk sizeof_long; t ← Cyc_set t y; r ← Cyc_AP_mod x t;
  chk r 264;; tr ← num_of r; u ← on_dig (Cyc_XP_toint (ndigits tr) (digits tr)); mret (i32 u).

Definition Cyc_AP_toint (x : Z) : M Z :=
  ap_assert (negb (x =? 0)) "x";;
  tx ← num_of x; u ← on_dig (Cyc_XP_toint (ndigits tx) (digits tx));
  let u := u mod u32 (Cyc_long_max + 1) in
  mret (if sign tx =? -1 then - i32 u else i32 u).

(** ** Powers and divisors *)

(** [x] to the power [y], modulo [p] unless [p] is null. *)
Fixpoint pow_rec (fuel : nat) (x y p : Z) : M Z :=
  match fuel with
  | O => lift Undef
  | S fuel =>
      ap_assert (negb (x =? 0)) "x";; ap_assert (negb (y =? 0)) "y";;
      ty ← num_of y; ap_assert (sign ty =? 1) "y->sign == 1";;
      (if p =? 0 then mret tt
       else tp ← num_of p; b0 ← is_digit_number p 0 200; b1 ← is_digit_number p 1 200;
            ap_assert ((sign tp =? 1) && negb b0 && negb b1) "!p || p->sign==1 && !((p)->ndigits==1 && (p)->digits[0]==0) && !((p)->ndigits==1 && (p)->digits[0]==1)");;
      bx0 ← is_digit_number x 0 201;
      if bx0 : bool then Cyc_AP_new 0 else
      by0 ← is_digit_number y 0 203;
      if by0 : bool then Cyc_AP_new 1 else
      bx1 ← is_digit_number x 1 205;
      if bx1 : bool then
        d ← ap_digit y 0 206; tx ← num_of x; Cyc_AP_new (if Z.land d 1 =? 0 then 1 else sign tx)
      else
      by1 ← is_digit_number y 1 (if p =? 0 then 218 else 208);
      if by1 : bool then (if p =? 0 then Cyc_AP_addi x 0 else Cyc_AP_mod x p)
      else
        y2 ← Cyc_AP_rshift y 1; t ← pow_rec fuel x y2 p;
        z ← (if p =? 0 then Cyc_AP_mul t t else Cyc_mulmod t t p);
        d ← ap_digit y 0 (if p =? 0 then 223 else 213);
        if Z.land d 1 =? 0 then mret z
        else if p =? 0 then Cyc_AP_mul x z
        else y2 ← Cyc_AP_mod x p; Cyc_mulmod y2 z p
  end.

(** Each call halves the exponent. *)
Definition Cyc_AP_pow (x y p : Z) : M Z :=
  s ← get; pow_rec (S (Z.to_nat (8 * match nums s !! y with Some t => ndigits t | None => 0 end))) x y p.

(** Two steps of the loop halve [y]. *)
Definition gcd_fuel (s : ap_mem H) (y : Z) : nat :=
  S (S (Z.to_nat (16 * match nums s !! y with Some t => ndigits t | None => 0 end))).

Definition Cyc_AP_gcd (x y : Z) : M Z :=
  ap_assert (negb (x =? 0)) "x";; ap_assert (negb (y =? 0)) "y";;
  s ← get;
  x ← loop (gcd_fuel s y) (fun '(x, y) =>
    chk y 397;; b ← is_digit_number y 0 397;
    if b : bool then mret (inr x) else tmp ← Cyc_AP_mod x y; mret (inl (y, tmp))) (x, y);
  z ← copy_number x 403;
  tx ← num_of x; upd z (set_sign (sign tx));; mret z.

Definition Cyc_AP_lcm (x y : Z) : M Z :=
  g ← Cyc_AP_gcd x y; q ← Cyc_AP_div y g; Cyc_AP_mul x q.

(** ** Conversion from and to strings *)

(** [p[i]], a character. *)
Definition ap_char (p : fat_ptr) (i line : Z) : M Z :=
  a ← lift (_check_fat_subscript p 1 i ap_cyc line); d ← on_dig (get_byte a); mret (schar d).

(** A zero-terminated pointer as a fat one. *)
Definition fat_string (str : Z) : M fat_ptr :=
  s ← get;
  match _get_zero_arr_size 1 (dig s) (S (size (dig s))) str 1 with
  | Some o => n ← lift o; mret (_tag_fat str 1 (u32 n))
  | None => lift Undef
  end.

(** [while (test(p)) p = p + 1], for a test that fails at the end of the string;
    the number of steps. *)
Definition advance_while (test : fat_ptr -> M bool) (p : fat_ptr) : M (fat_ptr * Z) :=
  s ← get;
  loop (S (size (dig s))) (fun '(p, n) =>
    b ← test p; if b : bool then mret (inl (_fat_ptr_plus p 1 1, n + 1)) else mret (inr (p, n))) (p, 0).

(** The digits of [base]: '0' to '9', 'a' to 'z' and 'A' to 'Z'. *)
Definition is_base_digit (base c : Z) : bool :=
  ((48 <=? c) && (c <=? 57) && (c <? 48 + base)) ||
  ((97 <=? c) && (c <=? 122) && (c <? 97 + base - 10)) ||
  ((65 <=? c) && (c <=? 90) && (c <? 65 + base - 10)).

(** [for (k = 1; 1 << k < base; ++k)] and [for (k = 5; 1 << k > base; --k)] *)
Definition bits_up (base : Z) : Z :=
  if 2 <? base then if 4 <? base then if 8 <? base then if 16 <? base then if 32 <? base then 6 else 5 else 4 else 3 else 2 else 1.
Definition bits_down (base : Z) : Z :=
  if base <? 32 then if base <? 16 then if base <? 8 then if base <? 4 then 1 else 2 else 3 else 4 else 5.

Definition Cyc_AP_fromstr (str base : Z) : M Z :=
  p ← fat_string str;
  ap_assert (negb (curr p =? 0)) "p";;
  ap_assert ((2 <=? base) && (base <=? 36)) "base >= 2 && base <= 36";;
  '(p, _) ← advance_while (fun p => c ← ap_char p 0 346; mret (negb (c =? 0) && isspace c)) p;
  c ← ap_char p 0 348;
  let signed := (c =? 45) || (c =? 43) in
  let p := if signed then _fat_ptr_plus p 1 1 else p in
  '(p, _) ← advance_while (fun p =>
    c ← ap_char p 0 353; if c =? 48 then d ← ap_char p 1 353; mret (d =? 48) else mret false) p;
  start ← lift (_untag_fat_ptr p 1 1 ap_cyc 355);
  '(_, n) ← advance_while (fun p => c ← ap_char p 0 356; mret (is_base_digit base c)) p;
  z ← Cyc_mk (Z.quot (Z.land (i32 (bits_up base * n + 7)) (Z.lnot 7)) 8);
  p ← fat_string start;
  chk z 365;; tz ← num_of z;
  start ← lift (_untag_fat_ptr p 1 1 ap_cyc 365);
  carry ← on_dig (Cyc_XP_fromstr (ap_size tz) (digits tz) start base);
  ap_assert (carry =? 0) "carry == 0";;
  Cyc_normalize z (ap_size tz);;
  sign_result z (if signed && (c =? 45) then -1 else 1) 369.

(** [str[0] = '-'] *)
Definition put_minus (str : fat_ptr) : M unit :=
  let p := _fat_ptr_plus str 1 0 in
  old ← ap_char p 0 387;
  if (_get_fat_size p 1 =? 1) && (old =? 0) then lift (Thrown Cyc_Array_bounds ap_cyc 387)
  else on_dig (put_byte (curr p) 45).

Definition Cyc_AP_tostr (x base : Z) : M Z :=
  ap_assert (negb (x =? 0)) "x";;
  ap_assert ((2 <=? base) && (base <=? 36)) "base >= 2 && base <= 36";;
  tx ← num_of x;
  let n := Z.quot (i32 (8 * ndigits tx)) (bits_down base) + 1 + 1 in
  let n := if sign tx =? -1 then n + 1 else n in
  str ← calloc_bytes n 381;
  q ← malloc_bytes (ndigits tx) 384;
  on_dig (Cyc__memcpy q (digits tx) (u32 (ndigits tx)) 1);;
  (if sign tx =? -1 then
     put_minus str;; on_dig (Cyc_XP_tostr (_fat_ptr_plus str 1 1) (n - 1) base (ndigits tx) q)
   else on_dig (Cyc_XP_tostr str n base (ndigits tx) q));;
  lift (_untag_fat_ptr str 1 1 ap_cyc 391).
End ap.
