(* ===== verification/APSpec.v ===== *)
(** * Numbers and the state they live in

    The invariant of the state of CycAP.v, the integer a number object denotes,
    and the life of a new number: allocation, digits, normalization, sign.  Every
    operation only adds to the state, so the numbers there were keep their
    values. *)

From S2P Require Import Prelude RwLock Alloc Region RegionSafety Words FatPtr ZeroTerm CycBytes ByteMem CycXP XPSpec XPMul CycAP.

Section ap.
Context {H : Type} `{HH : Heap H} `{!HeapLaws H}.
Implicit Types (s : ap_mem H).

(** ** State *)

Abbreviation live s := (gc_live (heap (hp s))).

(** Objects and digits lie in live blocks of the heap. *)
Record heap_inv s : Prop := {
  hi_ok : h_ok (heap (hp s));
  hi_nums : forall z, is_Some (nums s !! z) -> is_Some (live s !! z);
  hi_dig : forall a, is_Some (dig s !! a) -> exists q k b, live s !! q = Some (k, b) /\ q <= a < q + k
}.

(** Numbers, digits and live blocks have been added, none changed; the static
    numbers are set once. *)
Record ext s s' : Prop := {
  ext_nums : nums s ⊆ nums s';
  ext_dig : dig s ⊆ dig s';
  ext_live : live s ⊆ live s';
  ext_init : ap_init s <> 0 -> AP_zero s' = AP_zero s /\ AP_one s' = AP_one s /\ ap_init s' <> 0
}.

#[export] Instance ext_preorder : PreOrder ext.
Proof.
  split; [by split|]. intros s1 s2 s3 [N1 D1 L1 I1] [N2 D2 L2 I2]. split; [by etrans|by etrans|by etrans|].
  intros Hi. destruct (I1 Hi) as (<- & <- & Hi2). exact (I2 Hi2).
Qed.

(** A sign and digits without leading zeros, of the value [v]. *)
Record denotes (m : bytes) (t : AP_T) (p : Z) (ds : list Z) (v : Z) : Prop := {
  dn_digits : digits_of m (digits t) p ds;
  dn_len : ndigits t = Z.of_nat (length ds);
  dn_sig : significant ds (length ds);
  dn_size : Z.of_nat (length ds) < INT_MAX;
  dn_sign : sign t = 1 \/ (sign t = -1 /\ num ds <> 0);
  dn_val : v = sign t * num ds
}.

Definition is_num s (x v : Z) : Prop :=
  x <> 0 /\ exists t p ds, nums s !! x = Some t /\ denotes (dig s) t p ds v.

Definition initialized s : Prop :=
  ap_init s <> 0 /\ is_num s (AP_zero s) 0 /\ is_num s (AP_one s) 1.

Definition ap_ok s : Prop := heap_inv s /\ (ap_init s = 0 \/ initialized s).

(** The only exception is that of an exhausted heap. *)
Definition ap_oom s (e : exn) s' : Prop := e = Cyc_Bad_alloc /\ heap_inv s' /\ ext s s'.

Lemma holds_sub_map (m m' : bytes) p l : m ⊆ m' -> holds m p l -> holds m' p l.
Proof. intros Hm Hh i d Hd. eapply lookup_weaken; [by apply Hh|done]. Qed.

Lemma digits_of_sub (m m' : bytes) f p l : m ⊆ m' -> digits_of m f p l -> digits_of m' f p l.
Proof. intros Hm (Hs & Hh & Hb). split; [done|]. split; [by eapply holds_sub_map|done]. Qed.

Lemma denotes_sub m m' t p ds v : m ⊆ m' -> denotes m t p ds v -> denotes m' t p ds v.
Proof. intros Hm [? ? ? ? ? ?]. split; try done. by eapply digits_of_sub. Qed.

Lemma is_num_ext s s' x v : ext s s' -> is_num s x v -> is_num s' x v.
Proof.
  intros [Hn Hd _ _] (Hx & t & p & ds & Ht & Hv). split; [done|]. exists t, p, ds.
  split; [by eapply lookup_weaken|by eapply denotes_sub].
Qed.

Lemma initialized_ext s s' : ext s s' -> initialized s -> initialized s'.
Proof.
  intros He (Hi & H0 & H1). destruct (ext_init _ _ He Hi) as (E0 & E1 & Hi').
  split; [done|]. rewrite E0, E1. split; by eapply is_num_ext.
Qed.

Lemma ap_oom_ext s s1 e s' : ext s s1 -> ap_oom s1 e s' -> ap_oom s e s'.
Proof. intros He (-> & Hi & He'). split_and!; [done|done|by etrans]. Qed.

Lemma wp_oom {A} (c : ST (ap_mem H) A) Q s s1 s2 : ext s s1 -> wp c Q (ap_oom s1) s2 -> wp c Q (ap_oom s) s2.
Proof. intros Hx Hc. eapply wp_mono; [exact Hc|done|]. intros e s'. by apply ap_oom_ext. Qed.

(** ** Accesses *)

Definition set_dig s (d : bytes) : ap_mem H := mk_ap_mem (nums s) d (hp s) (AP_zero s) (AP_one s) (ap_init s).
Definition set_hp s (h : mem H) : ap_mem H := mk_ap_mem (nums s) (dig s) h (AP_zero s) (AP_one s) (ap_init s).
Definition set_num s (z : Z) (t : AP_T) : ap_mem H :=
  mk_ap_mem (<[z := t]> (nums s)) (dig s) (hp s) (AP_zero s) (AP_one s) (ap_init s).

Lemma wp_on_dig {A} (c : BM A) (Q : A -> ap_mem H -> Prop) E s :
  returns c (fun a d => Q a (set_dig s d)) (dig s) -> wp (on_dig c) Q E s.
Proof.
  intros (a & d & Hrun & HQ)%wp_total. eapply wp_run; [|exact HQ]. unfold on_dig. by rewrite Hrun.
Qed.

(** Reading digits does not change them. *)
Lemma wp_on_dig_read {A} (c : BM A) (R : A -> Prop) (Q : A -> ap_mem H -> Prop) E s :
  returns c (fun a d => d = dig s /\ R a) (dig s) -> (forall a, R a -> Q a s) -> wp (on_dig c) Q E s.
Proof.
  intros Hc HQ. apply wp_on_dig. eapply wp_conseq; [exact Hc|]. intros a d [-> Ha].
  destruct s. by apply HQ.
Qed.

Lemma wp_num_of x t (Q : AP_T -> ap_mem H -> Prop) E s : nums s !! x = Some t -> Q t s -> wp (num_of x) Q E s.
Proof. intros Hx HQ. unfold num_of. wps. unfold load. rewrite Hx. by apply wp_lift. Qed.

Lemma wp_upd z f t (Q : unit -> ap_mem H -> Prop) E s : nums s !! z = Some t -> Q tt (set_num s z (f t)) -> wp (upd z f) Q E s.
Proof. intros Hz HQ. unfold upd. wps. by eapply wp_num_of. Qed.

Lemma wp_chk x line (Q : unit -> ap_mem H -> Prop) E s : x <> 0 -> Q tt s -> wp (chk x line) Q E s.
Proof. intros Hx HQ. unfold chk, _check_null. rewrite (proj2 (Z.eqb_neq x 0)) by done. by wps. Qed.

Lemma wp_ap_assert (b : bool) msg (Q : unit -> ap_mem H -> Prop) E s : b = true -> Q tt s -> wp (ap_assert b msg) Q E s.
Proof. apply wp_assert. Qed.

Lemma wp_ap_digit t p ds x i v line (Q : Z -> ap_mem H -> Prop) E s : nums s !! x = Some t -> digits_of (dig s) (digits t) p ds ->
  ds !! i = Some v -> Q v s -> wp (ap_digit x (Z.of_nat i) line) Q E s.
Proof.
  intros Hx (Hs & Hh & _) Hv HQ. unfold ap_digit. wps. eapply wp_num_of; [done|]. wps. pose proof (lookup_lt_Some _ _ _ Hv).
  rewrite (spans_check _ p (Z.of_nat (length ds))) by (done || lia). wps. apply wp_on_dig. eapply wp_get_byte; [by apply Hh|].
  by destruct s.
Qed.

(** [iszero] and the like decide the magnitude. *)
Lemma wp_is_digit_number t p ds v x d line (Q : bool -> ap_mem H -> Prop) E s : nums s !! x = Some t -> denotes (dig s) t p ds v ->
  0 <= d < 256 -> Q (num ds =? d) s -> wp (is_digit_number x d line) Q E s.
Proof.
  intros Hx Hd Hr HQ. unfold is_digit_number. wps. eapply wp_num_of; [done|]. rewrite (dn_len _ _ _ _ _ Hd).
  pose proof (proj2 (proj2 (dn_digits _ _ _ _ _ Hd))) as Hb. pose proof (dn_sig _ _ _ _ _ Hd) as Hsig.
  destruct (Z.of_nat (length ds) =? 1) eqn:E1.
  - destruct ds as [|e [|]]; [done| |apply Z.eqb_eq in E1; cbn [length] in E1; lia]. wps. eapply (wp_ap_digit t p [e] x 0); [done|apply Hd|done|].
    wps. simpl in HQ. by replace (e + 256 * 0) with e in HQ by lia.
  - wps. pose proof (proj1 (proj1 Hsig)). assert (Hl : (1 < length ds)%nat) by lia.
    pose proof (significant_lower ds (length ds) Hb Hsig Hl) as Hlow.
    assert (256 <= weight (length ds - 1)) by (change 256 with (weight 1); apply Z.pow_le_mono_r; lia).
    destruct (num ds =? d) eqn:E2; [lia|done].
Qed.

(** ** Allocation *)

Lemma heap_inv_digits s p l : heap_inv s -> room (dig s) p (Z.of_nat (length l)) -> heap_inv (set_dig s (write p l (dig s))).
Proof.
  intros [Ho Hn Hd] Hr. split; [done|done|]. simpl. intros a Ha. apply Hd. rewrite write_lookup in Ha.
  case_decide; [apply Hr; lia|done].
Qed.

Lemma heap_inv_num s z t : heap_inv s -> is_Some (nums s !! z) -> heap_inv (set_num s z t).
Proof.
  intros [Ho Hn Hd] Hz. split; [done| |done]. simpl. intros y Hy. apply Hn. rewrite lookup_insert in Hy.
  case_decide; [by subst|done].
Qed.

Lemma zero_bytes_write p k m : zero_bytes p k m = write p (replicate k 0) m.
Proof. revert p. induction k as [|k IH]; intros p; simpl; [done|]. by rewrite IH. Qed.

(** An allocation fails with the heap as it was, or gives a fresh block. *)
Definition allocates (c : ST (mem H) Z) (n : Z) (m : mem H) : Prop :=
  (exists f l m', c m = (Thrown Cyc_Bad_alloc f l, m') /\ same_heap m m') \/
  (exists p m' z, c m = (Ret p, m') /\ p <> 0 /\ fresh_block m m' n z p).

Lemma fresh_block_live (m m' : mem H) n z p : fresh_block m m' n z p ->
  gc_live (heap m) !! p = None /\ gc_live (heap m) ⊆ gc_live (heap m') /\ is_Some (gc_live (heap m') !! p).
Proof.
  intros (h' & -> & _ & _ & Hf & Hl). simpl. rewrite Hl.
  assert (Hp : gc_live (heap m) !! p = None).
  { apply eq_None_not_Some. intros [[k b] Hk]. destruct (Hf _ _ _ Hk); lia. }
  split_and!; [done|by apply insert_subseteq|rewrite lookup_insert_eq; by eexists].
Qed.

(** A fresh block is no object and holds no digits. *)
Lemma fresh_unused s m' n z p : heap_inv s -> fresh_block (hp s) m' n z p -> 0 <= n ->
  nums s !! p = None /\ (forall a, p <= a < p + n -> dig s !! a = None) /\ 0 < p /\ p + n < 4294967296 /\
  heap_inv (set_hp s m') /\ is_Some (gc_live (heap m') !! p) /\
  (forall a, p <= a < p + n -> exists q k b, gc_live (heap m') !! q = Some (k, b) /\ q <= a < q + k).
Proof.
  intros [Ho Hn Hd] (h' & -> & Hok & (Hp & _ & He & _) & Hf & Hl) Hpos.
  assert (Hkeep : forall q k b, live s !! q = Some (k, b) -> q <> p).
  { intros q k b Hq ->. destruct (Hf _ _ _ Hq); lia. }
  split_and!; [| |done|lia| | |].
  - apply eq_None_not_Some. intros Hs. destruct (Hn _ Hs) as [[k b] Hk]. by apply Hkeep in Hk.
  - intros a Ha. apply eq_None_not_Some. intros Hs. destruct (Hd _ Hs) as (q & k & b & Hk & Hq). destruct (Hf _ _ _ Hk); lia.
  - split; simpl; [done| |].
    + intros x Hx. rewrite Hl. destruct (Hn _ Hx) as [[k b] Hk]. rewrite lookup_insert_ne; [by eexists|]. intros ->. by apply Hkeep in Hk.
    + intros a Ha. destruct (Hd _ Ha) as (q & k & b & Hk & Hq). exists q, k, b. rewrite Hl, lookup_insert_ne; [done|].
      intros ->. by apply Hkeep in Hk.
  - simpl. rewrite Hl, lookup_insert_eq. by eexists.
  - intros a Ha. exists p, n, z. simpl. rewrite Hl, lookup_insert_eq. split; [done|lia].
Qed.

Lemma oom_heap s m' : heap_inv s -> same_heap (hp s) m' -> ap_oom s Cyc_Bad_alloc (set_hp s m').
Proof.
  intros [Ho Hn Hd] (h' & -> & Hok & Hl). split; [done|]. split; [|by split; [done|done|simpl; rewrite Hl|]]. split; simpl; rewrite ?Hl; done.
Qed.

Lemma wp_on_hp (c : ST (mem H) Z) n (Q : Z -> ap_mem H -> Prop) s : heap_inv s -> allocates c n (hp s) ->
  (forall p m' z, p <> 0 -> fresh_block (hp s) m' n z p -> Q p (set_hp s m')) -> wp (on_hp c) Q (ap_oom s) s.
Proof.
  intros Hi [(f & l & m' & Hc & Hs)|(p & m' & z & Hc & Hp & Hf)] HQ.
  - eapply (wp_throws _ _ _ _ Cyc_Bad_alloc f l (set_hp s m')); [|by apply oom_heap]. unfold on_hp. by rewrite Hc.
  - eapply (wp_run _ _ _ _ p (set_hp s m')); [|by eapply HQ]. unfold on_hp. by rewrite Hc.
Qed.

Lemma malloc_allocates n file line m : h_ok (heap m) -> 0 <= n < INT_MAX -> allocates (_bounded_GC_malloc n file line) n m.
Proof.
  intros Ho Hn. destruct (bounded_malloc_cases m n file line Ho Hn) as [(m' & Hc & Hs)|(p & m' & Hc & Hp & Hf)]; [left|right]; eauto 10.
Qed.

Lemma calloc_atomic_allocates n file line m : h_ok (heap m) -> 0 <= n < 4294967296 ->
  allocates (_bounded_GC_calloc_atomic 1 n file line) n m /\ (INT_MAX <= n -> exists f l m',
    _bounded_GC_calloc_atomic 1 n file line m = (Thrown Cyc_Bad_alloc f l, m') /\ same_heap m m').
Proof.
  intros Ho Hn. assert (Hsz : u32 (1 * n) = n) by (rewrite Z.mul_1_l; by apply u32_small).
  change (_bounded_GC_calloc_atomic 1 n file line) with (_bounded_GC_calloc 1 n file line).
  destruct (bounded_calloc_cases m 1 n file line Ho) as [(m' & Hc & Hs)|(p & m' & Hc & Hp & Hf & Hb)].
  - split; [left; eauto 10|]. intros _. eauto 10.
  - rewrite Hsz in Hf, Hb. split; [right; eauto 10|]. lia.
Qed.

Lemma malloc_atomic_allocates n file line m : h_ok (heap m) -> 0 <= n < 4294967296 ->
  allocates (_bounded_GC_malloc_atomic (i32 n) file line) n m.
Proof.
  intros Ho Hn. destruct (decide (n < INT_MAX)) as [Hlt|Hge].
  - rewrite i32_small by (unfold INT_MAX in *; lia).
    destruct (bounded_malloc_atomic_cases m n file line Ho) as [(m' & Hc & Hs)|(p & m' & Hc & Hp & Hf)]; [lia|left|right]; eauto 10.
  - left. exists file, line, m. split; [|exists (heap m); by destruct m]. unfold _bounded_GC_malloc_atomic, MAX_ALLOC_SIZE.
    replace (u32 (i32 n)) with n by (unfold i32, u32 in *; words). by rewrite (proj2 (Z.leb_le _ _)) by lia.
Qed.

(** New digits, all zero. *)
Record new_digits s (p : Z) (k : nat) s' : Prop := {
  nd_nums : nums s' = nums s;
  nd_live : live s ⊆ live s';
  nd_dig : dig s' = write p (replicate k 0) (dig s);
  nd_statics : AP_zero s' = AP_zero s /\ AP_one s' = AP_one s /\ ap_init s' = ap_init s;
  nd_free : forall a, p <= a < p + Z.of_nat k -> dig s !! a = None;
  nd_pos : 0 < p;
  nd_end : p + Z.of_nat k < 4294967296;
  nd_inv : heap_inv s'
}.

Lemma write_free_sub (m : bytes) p l : (forall a, p <= a < p + Z.of_nat (length l) -> m !! a = None) -> m ⊆ write p l m.
Proof.
  intros Hf. apply map_subseteq_spec. intros a d Ha. rewrite write_lookup. case_decide as Hin; [|done].
  by rewrite (Hf a Hin) in Ha.
Qed.

Lemma new_digits_ext s p k s' : new_digits s p k s' -> ext s s'.
Proof.
  intros [Hn Hlv Hd (E0 & E1 & E2) Hf _ _ _]. split; [by rewrite Hn| |done|by rewrite E0, E1, E2].
  rewrite Hd. apply write_free_sub. by rewrite length_replicate.
Qed.

Lemma wp_new_bytes (c : ST (mem H) Z) n (Q : fat_ptr -> ap_mem H -> Prop) s : heap_inv s -> 0 <= n -> allocates c n (hp s) ->
  (forall p s', new_digits s p (Z.to_nat n) s' -> Q (_tag_fat p 1 n) s') ->
  wp (p ← on_hp c; on_dig (modify (zero_bytes p (Z.to_nat n)));; mret (_tag_fat p 1 n)) Q (ap_oom s) s.
Proof.
  intros Hi Hn Hc HQ. wps. eapply wp_on_hp; [done|exact Hc|]. intros p m' z Hp Hf.
  destruct (fresh_unused _ _ _ _ _ Hi Hf Hn) as (_ & Hfree & Hpos & Hend & [Ho' Hn' Hd'] & _ & Hin). wps. apply wp_on_dig. wps.
  apply HQ. split; simpl; rewrite ?Z2Nat.id by done; try done.
  - by apply (fresh_block_live _ _ _ _ _ Hf).
  - by rewrite zero_bytes_write.
  - split; [done|done|]. simpl. intros a. rewrite zero_bytes_write, write_lookup, length_replicate, Z2Nat.id by done.
    case_decide; [intros _; by apply Hin|apply Hd'].
Qed.

Lemma calloc_bytes_spec n line (Q : fat_ptr -> ap_mem H -> Prop) s : heap_inv s ->
  (forall p s', u32 n < INT_MAX -> new_digits s p (Z.to_nat (u32 n)) s' -> Q (_tag_fat p 1 (u32 n)) s') ->
  wp (calloc_bytes n line) Q (ap_oom s) s.
Proof.
  intros Hi HQ. unfold calloc_bytes. pose proof (u32_range n) as Hr.
  destruct (calloc_atomic_allocates (u32 n) ap_cyc line (hp s) (hi_ok _ Hi) Hr) as [Ha Hbig].
  destruct (decide (u32 n < INT_MAX)) as [Hlt|Hge].
  - apply wp_new_bytes; [done|lia|done|]. intros p s'. by apply HQ.
  - destruct Hbig as (f & l & m' & Hc & Hs); [lia|]. apply wp_bind.
    eapply (wp_throws _ _ _ _ Cyc_Bad_alloc f l (set_hp s m')); [|by apply oom_heap]. unfold on_hp. by rewrite Hc.
Qed.

Lemma malloc_bytes_spec n line (Q : fat_ptr -> ap_mem H -> Prop) s : heap_inv s ->
  (forall p s', new_digits s p (Z.to_nat (u32 n)) s' -> Q (_tag_fat p 1 (u32 n)) s') ->
  wp (malloc_bytes n line) Q (ap_oom s) s.
Proof.
  intros Hi HQ. pose proof (u32_range n) as Hr. apply wp_new_bytes; [done|lia| |done].
  apply malloc_atomic_allocates; [apply Hi|lia].
Qed.

(** ** Numbers under construction *)

(** The object [z], made since the state [s0], with the digits [zs] at [p]. *)
Record under s0 (z p sg nd : Z) (zs : list Z) s : Prop := {
  un_new : nums s0 !! z = None;
  un_nz : z <> 0;
  un_num : nums s !! z = Some (mk_AP sg nd (Z.of_nat (length zs)) (_tag_fat p 1 (Z.of_nat (length zs))));
  un_holds : holds (dig s) p zs;
  un_bytes : Forall byte_ok zs;
  un_len : (0 < length zs)%nat /\ Z.of_nat (length zs) < INT_MAX;
  un_pos : 0 < p;
  un_end : p + Z.of_nat (length zs) < 4294967296;
  un_free : forall a, p <= a < p + Z.of_nat (length zs) -> dig s0 !! a = None;
  un_ext : ext s0 s;
  un_inv : heap_inv s
}.

Section under.
Context (s0 : ap_mem H) (z p : Z).

Lemma under_target sg nd zs s : under s0 z p sg nd zs s ->
  target (dig s) (_tag_fat p 1 (Z.of_nat (length zs))) p (length zs).
Proof. intros [_ _ _ Hh _ _ ? ? _ _ _]. split; [apply tag_spans; lia|by apply holds_room]. Qed.

Lemma under_digits sg nd zs s : under s0 z p sg nd zs s -> digits_of (dig s) (_tag_fat p 1 (Z.of_nat (length zs))) p zs.
Proof. intros Hu. split; [apply (under_target _ _ _ _ Hu)|]. by destruct Hu. Qed.

(** Its digits are its own. *)
Lemma under_apart sg nd zs s q xs : under s0 z p sg nd zs s -> holds (dig s0) q xs -> (0 < length xs)%nat ->
  p + Z.of_nat (length zs) <= q \/ q + Z.of_nat (length xs) <= p.
Proof.
  intros Hu Hh Hx. pose proof (un_free _ _ _ _ _ _ _ Hu) as Hf. pose proof (proj1 (un_len _ _ _ _ _ _ _ Hu)).
  destruct (decide (p + Z.of_nat (length zs) <= q)) as [|H1]; [by left|].
  destruct (decide (q + Z.of_nat (length xs) <= p)) as [|H2]; [by right|].
  destruct (holds_room _ _ _ Hh (Z.max p q)) as [d Hd]; [lia|]. rewrite Hf in Hd; [done|lia].
Qed.

Lemma under_write sg nd zs zs' s : under s0 z p sg nd zs s -> length zs' = length zs -> Forall byte_ok zs' ->
  under s0 z p sg nd zs' (set_dig s (write p zs' (dig s))).
Proof.
  intros [Hn Hz Ht Hh Hb Hl Hp He Hf [Xn Xd Xl Xi] Hi] Hl' Hb'. split; rewrite ?Hl'; try done; simpl; [apply write_in| |].
  - split; [done| |done|done]. simpl. apply map_subseteq_spec. intros a d Ha. rewrite write_out; [by eapply lookup_weaken|].
    destruct (decide (p <= a < p + Z.of_nat (length zs))) as [Hin|Ho]; [by rewrite (Hf a Hin) in Ha|]. unfold outside. lia.
  - apply heap_inv_digits; [done|]. rewrite Hl'. by apply holds_room.
Qed.

Lemma under_wrote sg nd zs s n P d' : under s0 z p sg nd zs s -> wrote (dig s) p n P d' -> n = length zs ->
  exists zs', under s0 z p sg nd zs' (set_dig s d') /\ length zs' = n /\ P zs'.
Proof. intros Hu (zs' & Hl & Hb & -> & HP) Hn. exists zs'. split; [eapply under_write; [done|lia|done]|done]. Qed.

(** Writing some of the digits. *)
Lemma under_part sg nd zs s (i n : nat) P d' : under s0 z p sg nd zs s -> wrote (dig s) (p + Z.of_nat i) n P d' -> (i + n <= length zs)%nat ->
  exists l, under s0 z p sg nd (take i zs ++ l ++ drop (i + n) zs) (set_dig s d') /\ length l = n /\ P l.
Proof.
  intros Hu (l & Hl & Hb & -> & HP) Hi. exists l. split; [|done]. pose proof (un_bytes _ _ _ _ _ _ _ Hu) as Hzb.
  pose proof (un_holds _ _ _ _ _ _ _ Hu) as Hh.
  set (zs' := take i zs ++ l ++ drop (i + n) zs). assert (Hlen : length zs' = length zs).
  { unfold zs'. rewrite !length_app, length_take, length_drop. lia. }
  replace (write (p + Z.of_nat i) l (dig s)) with (write p zs' (dig s)).
  - eapply under_write; [done|done|]. apply Forall_app_2; [by apply Forall_take|]. apply Forall_app_2; [done|by apply Forall_drop].
  - unfold zs'. rewrite !write_app, length_take, Nat.min_l by lia. rewrite (holds_same (dig s) p (take i zs)).
    + apply holds_same. pose proof (holds_sub _ p zs (i + n) (length zs) Hh) as Hd. rewrite firstn_all2 in Hd by (rewrite length_drop; lia).
      rewrite <- Z.add_assoc, Hl, <- Nat2Z.inj_add. apply holds_write; [done|]. unfold outside. rewrite Hl. lia.
    + pose proof (holds_sub _ p zs 0 i Hh) as Hd. by rewrite Z.add_0_r in Hd.
Qed.

Lemma under_set sg nd zs s sg' nd' : under s0 z p sg nd zs s ->
  under s0 z p sg' nd' zs (set_num s z (mk_AP sg' nd' (Z.of_nat (length zs)) (_tag_fat p 1 (Z.of_nat (length zs))))).
Proof.
  intros [Hn Hz Ht Hh Hb Hl Hp He Hf [Xn Xd Xl Xi] Hi]. split; try done; simpl.
  - by rewrite lookup_insert_eq.
  - split; [|done|done|done]. simpl. by apply insert_subseteq_r.
  - apply heap_inv_num; [done|by eexists].
Qed.

Lemma under_frame sg nd zs s s' : under s0 z p sg nd zs s -> ext s s' -> heap_inv s' -> under s0 z p sg nd zs s'.
Proof.
  intros [Hn Hz Ht Hh Hb Hl Hp He Hf Hx Hi] Hx' Hi'. split; try done.
  - eapply lookup_weaken; [done|apply Hx'].
  - eapply holds_sub_map; [apply Hx'|done].
  - by etrans.
Qed.

(** Another object changes. *)
Lemma under_other sg nd zs s y t : under s0 z p sg nd zs s -> y <> z -> nums s0 !! y = None -> is_Some (nums s !! y) ->
  under s0 z p sg nd zs (set_num s y t).
Proof.
  intros [Hn Hz Ht Hh Hb Hl Hp He Hf [Xn Xd Xl Xi] Hi] Hne Hy Hys. split; try done; simpl.
  - by rewrite lookup_insert_ne.
  - split; [|done|done|done]. simpl. by apply insert_subseteq_r.
  - by apply heap_inv_num.
Qed.

Lemma under_done sg k zs s : under s0 z p sg (Z.of_nat k) zs s -> significant zs k -> sg = 1 \/ (sg = -1 /\ num zs <> 0) ->
  is_num s z (sg * num zs).
Proof.
  intros Hu Hs Hsg. pose proof (proj1 Hs) as Hk. pose proof (proj1 (proj2 Hs)) as Hn. pose proof (un_len _ _ _ _ _ _ _ Hu).
  assert (Hl : length (take k zs) = k) by (rewrite length_take; lia).
  split; [apply Hu|]. eexists _, p, (take k zs). split; [apply Hu|]. split; simpl; rewrite ?Hl, ?Hn; try done; try lia.
  - apply prefix_digits; [by eapply under_digits|lia].
  - split; [lia|]. rewrite take_take, Nat.min_id, lookup_take_lt by lia. destruct Hs as (_ & _ & Hs). by rewrite Hn.
Qed.
End under.

Lemma under_base s0 s1 z p sg nd zs s : ext s0 s1 -> under s1 z p sg nd zs s -> under s0 z p sg nd zs s.
Proof.
  intros Hx [Hn Hz Ht Hh Hb Hl Hp He Hf Hx' Hi]. split; try done.
  - eapply lookup_weaken_None; [done|apply Hx].
  - intros a Ha. eapply lookup_weaken_None; [by apply Hf|apply Hx].
  - by etrans.
Qed.

(** ** Making numbers *)

(** A new number of value [v]. *)
Definition result s (v : Z) (r : Z) s' : Prop := is_num s' r v /\ ext s s' /\ heap_inv s' /\ initialized s'.

Lemma result_ext s s1 v r s' : ext s s1 -> result s1 v r s' -> result s v r s'.
Proof. intros Hx (Hn & Hx' & Hr). split; [done|]. split; [by etrans|done]. Qed.

Lemma normalize_spec s0 z p sg nd zs n (Q : Z -> ap_mem H -> Prop) E s : under s0 z p sg nd zs s -> n = Z.of_nat (length zs) ->
  (forall k t, significant zs k -> under s0 z p sg (Z.of_nat k) zs (set_num s z t) -> Q z (set_num s z t)) ->
  wp (Cyc_normalize z n) Q E s.
Proof.
  intros Hu -> HQ. unfold Cyc_normalize. wps. apply wp_chk; [apply Hu|]. wps. eapply wp_num_of; [apply Hu|]. wps.
  apply (wp_on_dig_read _ (fun k => exists j, k = Z.of_nat j /\ significant zs j)).
  { simpl. eapply (trim_spec _ p); [by eapply under_digits|apply Hu]. }
  intros k (j & -> & Hj). wps. eapply wp_upd; [apply Hu|]. wps. apply (HQ j); [done|]. by eapply (under_set _ _ _ sg nd).
Qed.

(** A normalized number gets its sign. *)
Lemma sign_result_spec s0 z p k zs v line (Q : Z -> ap_mem H -> Prop) E s : under s0 z p 1 (Z.of_nat k) zs s -> significant zs k ->
  v = 1 \/ v = -1 ->
  (forall s', is_num s' z (v * num zs) -> ext s0 s' -> heap_inv s' -> Q z s') -> wp (sign_result z v line) Q E s.
Proof.
  intros Hu Hs Hv HQ. unfold sign_result. wps.
  destruct (under_done _ _ _ _ _ _ _ Hu Hs ltac:(by left)) as (_ & t & q & ds & Ht & Hd).
  rewrite (un_num _ _ _ _ _ _ _ Hu) in Ht. injection Ht as <-.
  eapply wp_is_digit_number; [apply Hu|exact Hd|lia|]. pose proof (dn_val _ _ _ _ _ Hd) as Hval. simpl in Hval.
  wps. eapply wp_upd; [apply Hu|]. wps. set (sg := if _ : bool then 1 else v).
  pose proof (under_set _ _ _ _ _ _ _ sg (Z.of_nat k) Hu) as Hu'. unfold set_sign. simpl. apply HQ; [|apply Hu'|apply Hu'].
  replace (v * num zs) with (sg * num zs).
  - apply (under_done _ _ _ _ _ _ _ Hu' Hs). unfold sg. destruct (num ds =? 0) eqn:E0; [by left|]. destruct Hv as [->| ->]; [by left|right]. lia.
  - unfold sg. destruct (num ds =? 0) eqn:E0; [|done]. nia.
Qed.

(** The number of a machine integer. *)
Lemma set_spec s0 z p sg nd zs n (Q : Z -> ap_mem H -> Prop) E s : under s0 z p sg nd zs s -> length zs = 4%nat ->
  -2147483648 <= n < 2147483648 ->
  (forall s', is_num s' z n -> ext s0 s' -> heap_inv s' -> Q z s') -> wp (Cyc_set z n) Q E s.
Proof.
  intros Hu Hl Hn HQ. unfold Cyc_set. wps. apply wp_chk; [apply Hu|]. wps. eapply wp_num_of; [apply Hu|]. wps.
  replace (if n =? Cyc_long_min then _ else _) with (Z.abs n); cycle 1.
  { unfold Cyc_long_min, Cyc_long_max. destruct (n =? -2147483648) eqn:E1; [|destruct (n <? 0) eqn:E2]; words. }
  apply wp_on_dig. simpl. eapply wp_conseq; [eapply fromint_spec; [by eapply under_target|lia|lia]|].
  intros c d Hw. destruct (under_wrote _ _ _ _ _ _ _ _ _ _ Hu Hw eq_refl) as (zs' & Hu1 & Hl' & Hv & _). wps.
  eapply wp_upd; [apply Hu1|]. wps. unfold set_sign. simpl.
  eapply (normalize_spec s0 z p (if n <? 0 then -1 else 1) nd zs').
  { by eapply under_set. }
  { by rewrite Hl'. }
  intros k t Hk Hu2. rewrite Hl in Hv. change (weight 4) with 4294967296 in Hv. rewrite Z.mod_small in Hv by lia.
  apply HQ; [|apply Hu2|apply Hu2].
  assert (Hs : (if n <? 0 then -1 else 1) = 1 \/ ((if n <? 0 then -1 else 1) = -1 /\ num zs' <> 0)) by (destruct (n <? 0) eqn:E1; lia).
  pose proof (under_done _ _ _ _ _ _ _ Hu2 Hk Hs) as Hd. replace (_ * num zs') with n in Hd; [done|].
  rewrite Hv. destruct (n <? 0) eqn:E1; lia.
Qed.

Lemma mk_initialized_spec n (Q : Z -> ap_mem H -> Prop) s : heap_inv s -> 0 < u32 n -> i32 n = n ->
  (forall z p s', under s z p 1 1 (replicate (Z.to_nat n) 0) s' -> 0 < n -> Q z s') ->
  wp (mk_initialized n) Q (ap_oom s) s.
Proof.
  intros Hi Hp Hn HQ. unfold mk_initialized. wps.
  eapply wp_on_hp; [done|apply malloc_allocates; [apply Hi|unfold sizeof_AP_T, INT_MAX; lia]|].
  intros z m' b Hz Hf. destruct (fresh_unused _ _ _ _ _ Hi Hf) as (Hnone & _ & _ & _ & Hi1 & Hlive & _); [unfold sizeof_AP_T; lia|].
  wps. unfold put_num. eapply wp_run; [done|]. set (s1 := mk_ap_mem _ _ _ _ _ _).
  assert (Hi2 : heap_inv s1).
  { destruct Hi1 as [? Hn1 ?]. split; [done| |done]. simpl. intros y. rewrite lookup_insert. case_decide; [by subst|apply Hn1]. }
  assert (Hx : ext s s1).
  { split; [|done| |done]; simpl; [by apply insert_subseteq|by apply (fresh_block_live _ _ _ _ _ Hf)]. }
  wps. apply (wp_oom _ _ _ s1); [done|]. apply calloc_bytes_spec; [done|]. intros p s2 Hlt Hnd. pose proof (new_digits_ext _ _ _ _ Hnd) as Hx2.
  assert (Hpos : 0 < n /\ u32 n = n) by (unfold INT_MAX in *; words). destruct Hpos as [Hpos Hu]. rewrite Hu in *.
  assert (Hz2 : nums s2 !! z = Some (mk_AP 0 0 0 (mk_fat 0 0 0))) by (rewrite (nd_nums _ _ _ _ Hnd); apply lookup_insert_eq).
  wps. eapply wp_upd; [exact Hz2|]. wps. apply wp_ap_assert; [lia|].
  do 3 (wps; eapply wp_upd; [apply lookup_insert_eq|]). wps. apply (HQ z p); [|done].
  assert (Hl : Z.of_nat (length (replicate (Z.to_nat n) 0)) = n) by (rewrite length_replicate; lia).
  destruct Hnd as [Hn2 Hlv2 Hd2 Hs2 Hfree2 Hpos2 Hend2 Hinv2]. rewrite Z2Nat.id in * by lia.
  split; rewrite ?Hl; simpl; try done.
  - by rewrite lookup_insert_eq.
  - rewrite Hd2. apply write_in.
  - apply Forall_replicate. unfold byte_ok. lia.
  - split; [|done]. lia.
  - destruct Hx2 as [? ? ? ?], Hx as [? ? ? ?]. split; simpl; [|by etrans|by etrans|].
    + rewrite !insert_insert_eq. apply insert_subseteq_r; [done|]. rewrite Hn2. by apply insert_subseteq.
    + destruct Hs2 as (-> & -> & ->). done.
  - do 4 (apply heap_inv_num; [|simpl; rewrite ?lookup_insert_eq; by eexists]). done.
Qed.

Lemma fromint_initialized_spec n (Q : Z -> ap_mem H -> Prop) s : heap_inv s -> -2147483648 <= n < 2147483648 ->
  (forall z s', is_num s' z n -> ext s s' -> heap_inv s' -> Q z s') -> wp (fromint_initialized n) Q (ap_oom s) s.
Proof.
  intros Hi Hn HQ. unfold fromint_initialized. wps. apply mk_initialized_spec; [done|done|done|].
  intros z p s' Hu _. eapply set_spec; [exact Hu|done|done|]. intros s2 H1 H2 H3. by apply HQ.
Qed.

(** The static numbers are set up by the first allocation. *)
Lemma init_spec (Q : unit -> ap_mem H -> Prop) s : heap_inv s -> ap_init s = 0 ->
  (forall s', initialized s' -> ext s s' -> heap_inv s' -> Q tt s') -> wp Cyc_AP_init Q (ap_oom s) s.
Proof.
  intros Hi H0 HQ. unfold Cyc_AP_init. wps. eapply wp_run; [done|]. set (s1 := mk_ap_mem _ _ _ _ _ _).
  assert (Hi1 : heap_inv s1) by (by destruct Hi). assert (Hx1 : ext s s1) by (by split).
  wps. apply (wp_oom _ _ _ s1); [done|]. apply fromint_initialized_spec; [done|lia|]. intros z s2 Hz Hx2 Hi2. wps. eapply wp_run; [done|].
  set (s3 := mk_ap_mem _ _ _ _ _ _). assert (Hi3 : heap_inv s3) by (by destruct Hi2).
  assert (Hext : forall s', nums s ⊆ nums s' -> dig s ⊆ dig s' -> live s ⊆ live s' -> ext s s') by (intros s' ? ? ?; by split).
  assert (Hx3 : ext s s3) by (apply Hext; (etrans; [apply Hx1|apply Hx2])).
  destruct (ext_init _ _ Hx2) as (_ & _ & Hi2n); [done|].
  wps. apply (wp_oom _ _ _ s3); [done|]. apply fromint_initialized_spec; [done|lia|]. intros o s4 Ho Hx4 Hi4. wps. eapply wp_run; [done|].
  destruct (ext_init _ _ Hx4) as (Hz4 & _ & Hn4); [done|]. simpl in Hz4.
  assert (Hz' : is_num s4 z 0) by (eapply is_num_ext; [exact Hx4|exact Hz]).
  apply HQ; [|apply Hext; simpl; (etrans; [apply Hx3|apply Hx4])|by destruct Hi4].
  split; [done|]. simpl. rewrite Hz4. split; [exact Hz'|exact Ho].
Qed.

Lemma mk_spec n (Q : Z -> ap_mem H -> Prop) s : ap_ok s -> 0 < u32 n -> i32 n = n ->
  (forall s1 z p s', ext s s1 -> initialized s1 -> under s1 z p 1 1 (replicate (Z.to_nat n) 0) s' -> 0 < n -> Q z s') ->
  wp (Cyc_mk n) Q (ap_oom s) s.
Proof.
  intros [Hi Hini] Hp Hn HQ. unfold Cyc_mk. wps. destruct (ap_init s =? 0) eqn:E0.
  - apply init_spec; [done|lia|]. intros s1 Hini1 Hx1 Hi1. wps. apply (wp_oom _ _ _ s1); [done|].
    apply mk_initialized_spec; [done..|]. intros z p s'. by apply HQ.
  - destruct Hini as [Hini|Hini]; [lia|]. wps. apply mk_initialized_spec; [done..|]. intros z p s'. by apply HQ.
Qed.

(** The new number of a machine integer. *)
Lemma new_spec n s : ap_ok s -> -2147483648 <= n < 2147483648 -> wp (Cyc_AP_new n) (result s n) (ap_oom s) s.
Proof.
  intros Hs Hn. unfold Cyc_AP_new. wps. apply mk_spec; [done|done|done|]. intros s1 z p s2 Hx Hini Hu _.
  eapply set_spec; [exact Hu|done|done|]. intros s3 H3 Hx3 Hi3. split_and!; [done|by etrans|done|by eapply initialized_ext].
Qed.
End ap.
