(* ===== verification/APArith.v ===== *)
(** * Arithmetic on numbers is exact

    For numbers of any size, the operations of CycAP.v return a new number of
    the exact value, or run out of memory; no check, assertion or access outside
    memory fails. *)

From S2P Require Import Prelude RwLock Alloc Region RegionSafety Words FatPtr ZeroTerm CycBytes ByteMem CycXP XPSpec XPMul XPDivSpec XPBits CycAP APSpec.

Section arith.
Context {H : Type} `{HH : Heap H} `{!HeapLaws H}.
Implicit Types (s : ap_mem H).

(** ** Operands *)

(** The parts of a number in [s]. *)
Definition number s (x v : Z) (t : AP_T) (p : Z) (ds : list Z) : Prop :=
  x <> 0 /\ nums s !! x = Some t /\ denotes (dig s) t p ds v.

Lemma number_of s x v : is_num s x v -> exists t p ds, number s x v t p ds.
Proof. intros (Hx & t & p & ds & Ht & Hd). by exists t, p, ds. Qed.

Lemma number_ext s s' x v t p ds : ext s s' -> number s x v t p ds -> number s' x v t p ds.
Proof.
  intros Hx (Hz & Ht & Hd). split; [done|]. split; [eapply lookup_weaken; [done|apply Hx]|].
  eapply denotes_sub; [apply Hx|done].
Qed.

Lemma number_pos s x v t p ds : number s x v t p ds -> (0 < length ds)%nat /\ Z.of_nat (length ds) < INT_MAX /\ Forall byte_ok ds /\ 0 <= num ds.
Proof.
  intros (_ & _ & [(_ & _ & Hb) _ ((? & _) & _) ? _ _]). pose proof (num_bound _ Hb). split_and!; done || lia.
Qed.

(** An operand is apart from a number under construction. *)
Lemma number_apart s0 s x v t q ds z p sg nd zs : number s0 x v t q ds -> under s0 z p sg nd zs s ->
  digits_of (dig s) (digits t) q ds /\ (p + Z.of_nat (length zs) <= q \/ q + Z.of_nat (length ds) <= p).
Proof.
  intros Hn Hu. split.
  - apply (number_ext s0 s) in Hn; [apply Hn|apply Hu].
  - pose proof (number_pos _ _ _ _ _ _ Hn) as (? & _). eapply under_apart; [exact Hu| |done]. destruct Hn as (_ & _ & Hd). apply Hd.
Qed.

(** The first [n] digits of an operand, and the digits from [n] on. *)
Lemma operand_take m f q xs p (n : nat) : digits_of m f q xs -> (n <= length xs)%nat -> p + Z.of_nat n <= q \/ q + Z.of_nat n <= p ->
  operand m p n f q (take n xs).
Proof.
  intros Hd Hn Ha. split; [by apply prefix_digits|]. split; [rewrite length_take; lia|]. unfold behind. lia.
Qed.

Lemma operand_drop m f q xs p (n k : nat) : digits_of m f q xs -> (k + n = length xs)%nat -> Z.of_nat (length xs) < INT_MAX ->
  p + Z.of_nat n <= q + Z.of_nat k \/ q + Z.of_nat (length xs) <= p ->
  operand m p n (_fat_ptr_plus f 1 (Z.of_nat k)) (q + Z.of_nat k) (drop k xs).
Proof.
  intros (Hs & Hh & Hb) Hn Hi Ha. unfold INT_MAX in *. assert (Hl : length (drop k xs) = n) by (rewrite length_drop; lia).
  split; [|split; [done|unfold behind; lia]]. split_and!.
  - rewrite Hl. replace (Z.of_nat n) with (Z.of_nat (length xs) - Z.of_nat k) by lia. apply spans_plus; [done|lia|lia].
  - pose proof (holds_sub m q xs k n Hh) as Hd. by rewrite firstn_all2 in Hd by lia.
  - by apply Forall_drop.
Qed.

Lemma target_sub m f p (N n : nat) : target m f p N -> (n <= N)%nat -> target m f p n.
Proof. intros [Hs Hr] Hn. split; [eapply spans_sub; [done|lia]|eapply room_sub; [done|lia|lia]]. Qed.

Lemma target_tail m f p (N k n : nat) : target m f p N -> (k + n <= N)%nat -> Z.of_nat k < 2147483648 ->
  target m (_fat_ptr_plus f 1 (Z.of_nat k)) (p + Z.of_nat k) n.
Proof.
  intros [Hs Hr] Hn Hk. split; [eapply spans_sub; [apply spans_plus; [exact Hs|lia|lia]|lia]|eapply room_sub; [exact Hr|lia|lia]].
Qed.

(** Same signs. *)
Lemma same_sign_iff m m' t p ds v t' p' ds' v' : denotes m t p ds v -> denotes m' t' p' ds' v' ->
  same_sign t t' = (sign t =? sign t').
Proof.
  intros [_ _ _ _ S1 _] [_ _ _ _ S2 _]. unfold same_sign.
  destruct S1 as [->|[-> _]], S2 as [->|[-> _]]; done.
Qed.

(** ** Multiplication *)

Lemma mul_value s x y vx vy : ap_ok s -> is_num s x vx -> is_num s y vy ->
  wp (Cyc_AP_mul x y) (result s (vx * vy)) (ap_oom s) s.
Proof.
  intros Hs (tx & px & xs & Hx)%number_of (ty & py & ys & Hy)%number_of.
  pose proof (number_pos _ _ _ _ _ _ Hx) as (Hxl & Hxi & Hxb & Hxp). pose proof (number_pos _ _ _ _ _ _ Hy) as (Hyl & Hyi & Hyb & Hyp).
  pose proof Hx as (Hx0 & Htx & Hdx). pose proof Hy as (Hy0 & Hty & Hdy). unfold INT_MAX in *.
  unfold Cyc_AP_mul. wps. apply wp_ap_assert; [lia|]. wps. apply wp_ap_assert; [lia|].
  wps. eapply wp_num_of; [done|]. wps. eapply wp_num_of; [done|]. wps. rewrite (dn_len _ _ _ _ _ Hdx), (dn_len _ _ _ _ _ Hdy).
  apply mk_spec; [done|words|words|]. intros s1 z p s2 Hx1 Hini Hu Hpos. wps.
  assert (Hsum : Z.to_nat (i32 (Z.of_nat (length xs) + Z.of_nat (length ys))) = (length xs + length ys)%nat) by words.
  rewrite Hsum in Hu. set (N := (length xs + length ys)%nat) in *.
  destruct (number_apart _ _ _ _ _ _ _ _ _ _ _ _ (number_ext _ _ _ _ _ _ _ Hx1 Hx) Hu) as [Hxd Hxa].
  destruct (number_apart _ _ _ _ _ _ _ _ _ _ _ _ (number_ext _ _ _ _ _ _ _ Hx1 Hy) Hu) as [Hyd Hya].
  apply wp_chk; [apply Hu|]. wps. eapply wp_num_of; [apply Hu|]. wps. apply wp_on_dig. simpl.
  pose proof (under_target _ _ _ _ _ _ _ Hu) as Ht. rewrite length_replicate in Ht, Hxa, Hya.
  rewrite length_replicate. assert (Ha : apart p N px xs /\ apart p N py ys) by (unfold apart; lia). destruct Ha as [Hxa' Hya'].
  eapply wp_conseq.
  { apply (mul_spec (dig s2) _ p _ px xs _ py ys Ht Hxd Hyd Hxa' Hya' (replicate N 0)); [apply length_replicate|apply Hu|apply Hu]. }
  intros c d Hw. destruct (under_wrote _ _ _ _ _ _ _ _ _ _ Hu Hw) as (zs & Hu2 & Hl & Hc & Hn); [by rewrite length_replicate|].
  assert (Hprod : num zs = num xs * num ys).
  { rewrite num_zeros in Hn. pose proof (num_bound zs (un_bytes _ _ _ _ _ _ _ Hu2)). pose proof (num_bound xs Hxb). pose proof (num_bound ys Hyb).
    assert (HN : weight (XPMul.N xs ys) = weight (length xs) * weight (length ys)) by apply weight_add. rewrite Hl in *.
    assert (num xs * num ys < weight (length xs) * weight (length ys)) by nia. assert (c = 0 \/ c = 1) as [-> | ->] by lia; lia. }
  wps. eapply normalize_spec; [exact Hu2|by rewrite Hl|]. intros k t Hk Hu3. wps. eapply sign_result_spec; [exact Hu3|done| |].
  { destruct (same_sign tx ty); lia. }
  intros s3 Hz Hx3 Hi3. split_and!; [|by etrans|done|by eapply initialized_ext].
  replace (vx * vy) with ((if same_sign tx ty then 1 else -1) * num zs); [done|].
  rewrite (same_sign_iff _ _ _ _ _ _ _ _ _ _ Hdx Hdy), Hprod, (dn_val _ _ _ _ _ Hdx), (dn_val _ _ _ _ _ Hdy).
  destruct (dn_sign _ _ _ _ _ Hdx) as [->|[-> _]], (dn_sign _ _ _ _ _ Hdy) as [->|[-> _]]; simpl; lia.
Qed.

(** ** Addition and subtraction of magnitudes *)

(** [z->digits[i] = v] *)
Lemma set_ap_digit_spec s0 z p sg nd zs (i : nat) v line (Q : unit -> ap_mem H -> Prop) E s : under s0 z p sg nd zs s -> (i < length zs)%nat ->
  byte_ok v -> (forall s', under s0 z p sg nd (<[i := v]> zs) s' -> Q tt s') -> wp (set_ap_digit z (Z.of_nat i) v line) Q E s.
Proof.
  intros Hu Hi Hv HQ. unfold set_ap_digit. wps. eapply wp_num_of; [apply Hu|]. wps. simpl.
  destruct (under_target _ _ _ _ _ _ _ Hu) as [Hs Hr]. rewrite (spans_check _ p (Z.of_nat (length zs))) by (done || lia). wps.
  apply wp_on_dig, wp_put_byte; [apply Hr; lia|]. rewrite u8_small by done. apply HQ.
  replace (<[p + Z.of_nat i := v]> (dig s)) with (write p (<[i := v]> zs) (dig s)).
  - eapply under_write; [done|by rewrite length_insert|]. apply Forall_insert; [apply Hu|done].
  - rewrite write_insert by done. f_equal. apply holds_same, Hu.
Qed.

Section magnitudes.
Context (s0 : ap_mem H) (x y vx vy px py : Z) (tx ty : AP_T) (xs ys : list Z).
Context (Hx : number s0 x vx tx px xs) (Hy : number s0 y vy ty py ys) (Hle : (length ys <= length xs)%nat).

Lemma add_ordered_spec z p s (Q : Z -> ap_mem H -> Prop) E : under s0 z p 1 1 (replicate (S (length xs)) 0) s ->
  (forall k zs s', under s0 z p 1 (Z.of_nat k) zs s' -> significant zs k -> num zs = num xs + num ys -> Q z s') ->
  wp (add_ordered z x y) Q E s.
Proof.
  intros Hu HQ. pose proof (number_pos _ _ _ _ _ _ Hx) as (Hxl & Hxi & Hxb & Hxp). pose proof (number_pos _ _ _ _ _ _ Hy) as (Hyl & Hyi & Hyb & Hyp).
  destruct (number_apart _ _ _ _ _ _ _ _ _ _ _ _ Hx Hu) as [Hxd Hxa]. destruct (number_apart _ _ _ _ _ _ _ _ _ _ _ _ Hy Hu) as [Hyd Hya].
  rewrite length_replicate in Hxa, Hya.
  pose proof (number_ext _ _ _ _ _ _ _ (un_ext _ _ _ _ _ _ _ Hu) Hx) as (_ & Htx & Hdx).
  pose proof (number_ext _ _ _ _ _ _ _ (un_ext _ _ _ _ _ _ _ Hu) Hy) as (_ & Hty & Hdy).
  unfold add_ordered. wps. eapply wp_num_of; [done|]. wps. eapply wp_num_of; [done|]. rewrite (dn_len _ _ _ _ _ Hdx), (dn_len _ _ _ _ _ Hdy).
  wps. apply wp_chk; [apply Hu|]. wps. eapply wp_num_of; [apply Hu|]. simpl. rewrite length_replicate. set (n := length ys) in *.
  pose proof (under_target _ _ _ _ _ _ _ Hu) as Ht. rewrite length_replicate in Ht.
  pose proof (target_sub _ _ _ _ n Ht ltac:(lia)) as Htn.
  assert (Hadd : returns (Cyc_XP_add (Z.of_nat n) (_tag_fat p 1 (Z.of_nat (S (length xs)))) (digits tx) (digits ty) 0)
    (fun c => wrote (dig s) p n (fun zs => 0 <= c <= 1 /\ num zs + weight n * c = num (take n xs) + num ys)) (dig s)).
  { eapply wp_conseq; [eapply (add_spec _ _ p n Htn _ px (take n xs) _ py ys)|]; [apply operand_take; [done|lia|lia]|..|lia|].
    - rewrite <- (firstn_all ys). apply operand_take; [done|lia|lia].
    - intros c d (zs & Hl & Hb & Hd & Hc & Hn). exists zs. split_and!; try done; lia. }
  assert (Hlast : forall l c line s1, under s0 z p 1 1 (l ++ [0]) s1 -> length l = length xs -> 0 <= c <= 1 ->
    num l + weight (length xs) * c = num xs + num ys -> wp (set_ap_digit z (Z.of_nat (length xs)) c line)
      (fun _ s' => exists zs, under s0 z p 1 1 zs s' /\ length zs = S (length xs) /\ num zs = num xs + num ys) E s1).
  { intros l c line s1 Hu1 Hl Hc Hn. eapply set_ap_digit_spec; [exact Hu1|rewrite length_app; simpl; lia|unfold byte_ok; lia|].
    rewrite <- Hl, insert_app_r_alt, Nat.sub_diag by lia. change (<[0%nat := c]> [0]) with [c]. intros s2 Hu2. exists (l ++ [c]). split; [exact Hu2|].
    rewrite length_app, num_snoc. simpl. split; [lia|]. by rewrite Hl. }
  apply wp_bind. eapply (wp_conseq _ (fun _ s' => exists zs, under s0 z p 1 1 zs s' /\ length zs = S (length xs) /\ num zs = num xs + num ys)).
  - destruct (Z.of_nat n <? Z.of_nat (length xs)) eqn:E1.
    + wps. apply wp_on_dig. eapply wp_conseq; [exact Hadd|]. intros c d Hw. rewrite <- (Z.add_0_r p) in Hw.
      destruct (under_part _ _ _ _ _ _ _ 0 n _ _ Hu Hw) as (l1 & Hu1 & Hl1 & Hc & Hn); [rewrite length_replicate; lia|].
      rewrite take_0, drop_replicate in Hu1. simpl app in Hu1. wps. apply wp_on_dig.
      destruct (number_apart _ _ _ _ _ _ _ _ _ _ _ _ Hx Hu1) as [Hxd1 _].
      pose proof (under_target _ _ _ _ _ _ _ Hu1) as Ht1. rewrite length_app, length_replicate, Hl1 in Ht1.
      replace (n + (S (length xs) - n))%nat with (S (length xs)) in Ht1 by lia. unfold INT_MAX in *.
      pose proof (target_tail _ _ _ _ n (length xs - n) Ht1 ltac:(lia) ltac:(lia)) as Htt.
      replace (Z.of_nat (length xs) - Z.of_nat n) with (Z.of_nat (length xs - n)) by lia.
      eapply wp_conseq; [eapply (sum_spec _ _ _ _ Htt); [eapply operand_drop; [exact Hxd1|lia|unfold INT_MAX; lia|lia]|lia]|].
      intros c2 d2 Hw2. destruct (under_part _ _ _ _ _ _ _ n _ _ _ Hu1 Hw2) as (l2 & Hu2 & Hl2 & Hc2 & Hn2); [rewrite length_app, length_replicate; lia|].
      rewrite take_app_length', drop_app_ge, drop_replicate, Hl1 in Hu2 by lia.
      replace (S (length xs) - n - (n + (length xs - n) - n))%nat with 1%nat in Hu2 by lia. simpl replicate in Hu2. rewrite app_assoc in Hu2.
      replace (Z.of_nat (S (length xs)) - 1) with (Z.of_nat (length xs)) by lia. apply (Hlast (l1 ++ l2)); [exact Hu2|rewrite length_app; lia|lia|].
      rewrite num_app, Hl1. rewrite (num_split xs n) by lia. replace (length xs) with (n + (length xs - n))%nat at 1 by lia. rewrite weight_add. nia.
    + assert (Hn : n = length xs) by lia. wps. apply wp_on_dig. eapply wp_conseq; [exact Hadd|]. intros c d Hw. rewrite <- (Z.add_0_r p) in Hw.
      destruct (under_part _ _ _ _ _ _ _ 0 n _ _ Hu Hw) as (l1 & Hu1 & Hl1 & Hc & Hn1); [rewrite length_replicate; lia|].
      rewrite take_0, drop_replicate in Hu1. simpl app in Hu1. replace (S (length xs) - n)%nat with 1%nat in Hu1 by lia.
      rewrite Hn. apply (Hlast l1); [exact Hu1|lia|done|]. rewrite <- Hn. by rewrite firstn_all2 in Hn1 by lia.
  - intros _ s1 (zs & Hu1 & Hl & Hn). eapply normalize_spec; [exact Hu1|by rewrite Hl|]. intros k t Hk Hu2. by eapply HQ.
Qed.

Lemma sub_magnitude z p s (Q : Z -> ap_mem H -> Prop) E : under s0 z p 1 1 (replicate (length xs) 0) s -> num ys <= num xs ->
  (forall k zs s', under s0 z p 1 (Z.of_nat k) zs s' -> significant zs k -> num zs = num xs - num ys -> Q z s') ->
  wp (Cyc_sub z x y) Q E s.
Proof.
  intros Hu Hge HQ. pose proof (number_pos _ _ _ _ _ _ Hx) as (Hxl & Hxi & Hxb & Hxp). pose proof (number_pos _ _ _ _ _ _ Hy) as (Hyl & Hyi & Hyb & Hyp).
  destruct (number_apart _ _ _ _ _ _ _ _ _ _ _ _ Hx Hu) as [Hxd Hxa]. destruct (number_apart _ _ _ _ _ _ _ _ _ _ _ _ Hy Hu) as [Hyd Hya].
  rewrite length_replicate in Hxa, Hya.
  pose proof (number_ext _ _ _ _ _ _ _ (un_ext _ _ _ _ _ _ _ Hu) Hx) as (Hx0 & Htx & Hdx).
  pose proof (number_ext _ _ _ _ _ _ _ (un_ext _ _ _ _ _ _ _ Hu) Hy) as (Hy0 & Hty & Hdy).
  unfold Cyc_sub. wps. apply wp_chk; [done|]. wps. eapply wp_num_of; [done|]. wps. apply wp_chk; [apply Hu|]. wps. apply wp_chk; [done|].
  wps. eapply wp_num_of; [apply Hu|]. wps. eapply wp_num_of; [done|]. wps. rewrite (dn_len _ _ _ _ _ Hdx), (dn_len _ _ _ _ _ Hdy). simpl.
  rewrite length_replicate. set (n := length ys) in *. unfold INT_MAX in *.
  pose proof (under_target _ _ _ _ _ _ _ Hu) as Ht. rewrite length_replicate in Ht.
  pose proof (target_sub _ _ _ _ n Ht ltac:(lia)) as Htn. apply wp_on_dig.
  eapply wp_conseq; [eapply (sub_spec _ _ p n Htn _ px (take n xs) _ py ys); [apply operand_take; [done|lia|lia]| |lia]|].
  { rewrite <- (firstn_all ys). apply operand_take; [done|lia|lia]. }
  intros c d Hw. rewrite <- (Z.add_0_r p) in Hw.
  destruct (under_part _ _ _ _ _ _ _ 0 n _ _ Hu Hw) as (l1 & Hu1 & Hl1 & Hc & Hn); [rewrite length_replicate; lia|].
  rewrite take_0, drop_replicate in Hu1. simpl app in Hu1. wps.
  eapply (wp_conseq _ (fun b s' => exists l2, under s0 z p 1 1 (l1 ++ l2) s' /\ length l2 = (length xs - n)%nat /\
    num (l1 ++ l2) - weight (length xs) * b = num xs - num ys /\ 0 <= b)).
  - destruct (Z.of_nat n <? Z.of_nat (length xs)) eqn:E1.
    + apply wp_on_dig. destruct (number_apart _ _ _ _ _ _ _ _ _ _ _ _ Hx Hu1) as [Hxd1 _].
      pose proof (under_target _ _ _ _ _ _ _ Hu1) as Ht1. rewrite length_app, length_replicate, Hl1 in Ht1.
      replace (n + (length xs - n))%nat with (length xs) in Ht1 by lia.
      pose proof (target_tail _ _ _ _ n (length xs - n) Ht1 ltac:(lia) ltac:(lia)) as Htt.
      replace (Z.of_nat (length xs) - Z.of_nat n) with (Z.of_nat (length xs - n)) by lia.
      eapply wp_conseq; [eapply (diff_spec _ _ _ _ Htt); [eapply operand_drop; [exact Hxd1|lia|unfold INT_MAX; lia|lia]|lia]|].
      intros c2 d2 Hw2. destruct (under_part _ _ _ _ _ _ _ n _ _ _ Hu1 Hw2) as (l2 & Hu2 & Hl2 & Hc2 & Hn2); [rewrite length_app, length_replicate; lia|].
      rewrite take_app_length', drop_app_ge, drop_replicate, Hl1 in Hu2 by lia.
      replace (length xs - n - (n + (length xs - n) - n))%nat with 0%nat in Hu2 by lia. simpl replicate in Hu2. rewrite app_nil_r in Hu2.
      exists l2. split; [exact Hu2|]. split; [done|]. split; [|lia].
      rewrite num_app, Hl1. rewrite (num_split xs n) by lia. replace (length xs) with (n + (length xs - n))%nat at 1 by lia. rewrite weight_add. nia.
    + wps. assert (Hnx : n = length xs) by lia. exists []. replace (length xs - n)%nat with 0%nat in * by lia. simpl replicate in Hu1.
      split; [exact Hu1|]. split; [done|]. rewrite app_nil_r, <- Hnx. rewrite firstn_all2 in Hn by lia. lia.
  - intros b s1 (l2 & Hu2 & Hl2 & Hn2 & Hb). pose proof (num_bound _ (un_bytes _ _ _ _ _ _ _ Hu2)) as Hbd.
    assert (Hlen : length (l1 ++ l2) = length xs) by (rewrite length_app; lia). rewrite Hlen in Hbd.
    pose proof (num_bound _ Hxb). assert (b = 0) as -> by nia. apply wp_bind, wp_ap_assert; [done|].
    eapply normalize_spec; [exact Hu2|by rewrite Hlen|]. intros k t Hk Hu3. eapply HQ; [exact Hu3|done|lia].
Qed.
End magnitudes.

(** ** Comparison *)

(** Numbers with more digits are larger. *)
Lemma longer_larger s x vx tx px xs s' y vy ty py ys : number s x vx tx px xs -> number s' y vy ty py ys ->
  (length xs < length ys)%nat -> num xs < num ys.
Proof.
  intros Hx Hy Hlt. pose proof (number_pos _ _ _ _ _ _ Hx) as (Hxl & _ & Hxb & _). pose proof (number_pos _ _ _ _ _ _ Hy) as (_ & _ & Hyb & _).
  destruct Hy as (_ & _ & Hdy). pose proof (significant_lower ys _ Hyb (dn_sig _ _ _ _ _ Hdy) ltac:(lia)).
  pose proof (num_bound _ Hxb). assert (weight (length xs) <= weight (length ys - 1)) by (apply Z.pow_le_mono_r; lia). lia.
Qed.

Lemma cmp_magnitudes s x vx tx px xs y vy ty py ys (Q : Z -> ap_mem H -> Prop) E : number s x vx tx px xs -> number s y vy ty py ys ->
  (forall c, Z.sgn c = Z.sgn (num xs - num ys) -> Q c s) -> wp (Cyc_cmp x y) Q E s.
Proof.
  intros Hx Hy HQ. pose proof Hx as (Hx0 & Htx & Hdx). pose proof Hy as (Hy0 & Hty & Hdy).
  unfold Cyc_cmp. wps. apply wp_chk; [done|]. wps. apply wp_chk; [done|]. wps. eapply wp_num_of; [done|]. wps. eapply wp_num_of; [done|].
  rewrite (dn_len _ _ _ _ _ Hdx), (dn_len _ _ _ _ _ Hdy). destruct (Z.of_nat (length xs) =? Z.of_nat (length ys)) eqn:E1; simpl.
  - apply (wp_on_dig_read _ (fun c => Z.sgn c = Z.sgn (num xs - num ys))); [|done].
    eapply (cmp_spec _ px xs _ py ys); [apply Hdx|apply Hdy|lia|]. pose proof (number_pos _ _ _ _ _ _ Hx). lia.
  - wps. apply HQ. destruct (decide (length xs < length ys)%nat) as [Hlt|Hge].
    + pose proof (longer_larger _ _ _ _ _ _ _ _ _ _ _ _ Hx Hy Hlt). rewrite !Z.sgn_neg by lia. done.
    + pose proof (longer_larger _ _ _ _ _ _ _ _ _ _ _ _ Hy Hx ltac:(lia)). rewrite !Z.sgn_pos by lia. done.
Qed.

(** ** Sums and differences *)

Lemma add_any s0 x vx tx px xs y vy ty py ys z p s (Q : Z -> ap_mem H -> Prop) E :
  number s0 x vx tx px xs -> number s0 y vy ty py ys ->
  under s0 z p 1 1 (replicate (S (Nat.max (length xs) (length ys))) 0) s ->
  (forall k zs s', under s0 z p 1 (Z.of_nat k) zs s' -> significant zs k -> num zs = num xs + num ys -> Q z s') ->
  wp (Cyc_add z x y) Q E s.
Proof.
  intros Hx Hy Hu HQ. pose proof (number_ext _ _ _ _ _ _ _ (un_ext _ _ _ _ _ _ _ Hu) Hx) as (Hx0 & Htx & Hdx).
  pose proof (number_ext _ _ _ _ _ _ _ (un_ext _ _ _ _ _ _ _ Hu) Hy) as (Hy0 & Hty & Hdy).
  unfold Cyc_add. wps. apply wp_chk; [done|]. wps. apply wp_chk; [done|]. wps. eapply wp_num_of; [done|]. wps. eapply wp_num_of; [done|].
  rewrite (dn_len _ _ _ _ _ Hdx), (dn_len _ _ _ _ _ Hdy). destruct (Z.of_nat (length xs) <? Z.of_nat (length ys)) eqn:E1.
  - rewrite Nat.max_r in Hu by lia. eapply (add_ordered_spec s0 y x); [exact Hy|exact Hx|lia|exact Hu|].
    intros k zs s' ? ? ?. eapply HQ; [done|done|lia].
  - rewrite Nat.max_l in Hu by lia. eapply (add_ordered_spec s0 x y); [exact Hx|exact Hy|lia|exact Hu|exact HQ].
Qed.

(** The end of every operation: the new number has its sign. *)
Lemma signed_result s s1 z p k zs v w line s2 : ext s s1 -> initialized s1 -> under s1 z p 1 (Z.of_nat k) zs s2 -> significant zs k ->
  v = 1 \/ v = -1 -> w = v * num zs -> wp (sign_result z v line) (result s w) (ap_oom s) s2.
Proof.
  intros Hx Hini Hu Hk Hv ->. eapply sign_result_spec; [exact Hu|done|done|]. intros s3 Hz Hx3 Hi3.
  split_and!; [done|by etrans|done|by eapply initialized_ext].
Qed.

Section signed.
Context (s : ap_mem H) (x y vx vy px py : Z) (tx ty : AP_T) (xs ys : list Z).
Context (Hs : ap_ok s) (Hx : number s x vx tx px xs) (Hy : number s y vy ty py ys).

Lemma add_magnitudes_spec sg line : sg = 1 \/ sg = -1 ->
  wp (add_magnitudes x y sg line) (result s (sg * (num xs + num ys))) (ap_oom s) s.
Proof.
  intros Hsg. pose proof (number_pos _ _ _ _ _ _ Hx) as (Hxl & Hxi & _). pose proof (number_pos _ _ _ _ _ _ Hy) as (Hyl & Hyi & _).
  pose proof Hx as (_ & Htx & Hdx). pose proof Hy as (_ & Hty & Hdy). unfold INT_MAX in *.
  unfold add_magnitudes. wps. eapply wp_num_of; [done|]. wps. eapply wp_num_of; [done|]. wps.
  rewrite (dn_len _ _ _ _ _ Hdx), (dn_len _ _ _ _ _ Hdy). apply mk_spec; [done|words|words|]. intros s1 z p s2 Hx1 Hini Hu _.
  replace (Z.to_nat _) with (S (Nat.max (length xs) (length ys))) in Hu by lia. wps.
  eapply add_any; [by eapply number_ext|by eapply number_ext|exact Hu|]. intros k zs s3 Hu3 Hk Hn. wps. apply wp_chk; [apply Hu3|].
  eapply signed_result; [done|done|exact Hu3|done|done|by rewrite Hn].
Qed.

Lemma sub_magnitudes_spec sg line : sg = 1 \/ sg = -1 -> num ys <= num xs ->
  wp (sub_magnitudes x y sg line) (result s (sg * (num xs - num ys))) (ap_oom s) s.
Proof.
  intros Hsg Hge. pose proof (number_pos _ _ _ _ _ _ Hx) as (Hxl & Hxi & _). pose proof (number_pos _ _ _ _ _ _ Hy) as (Hyl & Hyi & _).
  pose proof Hx as (_ & Htx & Hdx). unfold INT_MAX in *.
  assert (Hle : (length ys <= length xs)%nat).
  { destruct (decide (length xs < length ys)%nat) as [Hlt|]; [|lia]. pose proof (longer_larger _ _ _ _ _ _ _ _ _ _ _ _ Hx Hy Hlt). lia. }
  unfold sub_magnitudes. wps. eapply wp_num_of; [done|]. wps. rewrite (dn_len _ _ _ _ _ Hdx). apply mk_spec; [done|words|words|].
  intros s1 z p s2 Hx1 Hini Hu _. rewrite Nat2Z.id in Hu. wps.
  eapply sub_magnitude; [by eapply number_ext|by eapply number_ext|done|exact Hu|done|]. intros k zs s3 Hu3 Hk Hn. wps. apply wp_chk; [apply Hu3|].
  eapply signed_result; [done|done|exact Hu3|done|done|by rewrite Hn].
Qed.
End signed.

Lemma sign_cases m t p ds v : denotes m t p ds v -> (sign t = 1 /\ v = num ds) \/ (sign t = -1 /\ v = - num ds /\ num ds <> 0).
Proof. intros [_ _ _ _ [Hs|[Hs Hn]] ->]; rewrite Hs; [left|right]; lia. Qed.

Lemma result_val s v w r s' : result s v r s' -> v = w -> result s w r s'.
Proof. by intros ? <-. Qed.

Ltac value Hdx Hdy := destruct (sign_cases _ _ _ _ _ Hdx) as [[? ?]|(? & ? & ?)], (sign_cases _ _ _ _ _ Hdy) as [[? ?]|(? & ? & ?)].

(** The smaller magnitude is subtracted from the larger one. *)
Lemma difference_spec s x y vx vy px py tx ty xs ys sg l1 l2 : ap_ok s -> number s x vx tx px xs -> number s y vy ty py ys -> sg = 1 \/ sg = -1 ->
  wp (c ← Cyc_cmp x y; if 0 <? c then sub_magnitudes x y sg l1 else sub_magnitudes y x (- sg) l2)
    (result s (sg * (num xs - num ys))) (ap_oom s) s.
Proof.
  intros Hs Hx Hy Hsg. wps. eapply cmp_magnitudes; [done|done|]. intros c Hc. destruct (0 <? c) eqn:E2.
  - rewrite Z.sgn_pos in Hc by lia. symmetry in Hc. apply Z.sgn_pos_iff in Hc. eapply sub_magnitudes_spec; [done|done|done|done|lia].
  - assert (Hn : num xs - num ys <= 0) by (apply Z.sgn_nonpos; rewrite <- Hc; apply Z.sgn_nonpos; lia).
    eapply wp_conseq; [eapply sub_magnitudes_spec; [done|done|done|lia|lia]|]. intros r s' Hr. eapply result_val; [exact Hr|]. lia.
Qed.

Lemma add_value s x y vx vy : ap_ok s -> is_num s x vx -> is_num s y vy ->
  wp (Cyc_AP_add x y) (result s (vx + vy)) (ap_oom s) s.
Proof.
  intros Hs (tx & px & xs & Hx)%number_of (ty & py & ys & Hy)%number_of. pose proof Hx as (Hx0 & Htx & Hdx). pose proof Hy as (Hy0 & Hty & Hdy).
  unfold Cyc_AP_add. wps. apply wp_ap_assert; [lia|]. wps. apply wp_ap_assert; [lia|]. wps. eapply wp_num_of; [done|]. wps. eapply wp_num_of; [done|].
  rewrite (same_sign_iff _ _ _ _ _ _ _ _ _ _ Hdx Hdy). destruct (sign tx =? sign ty) eqn:E1.
  - eapply wp_conseq; [eapply add_magnitudes_spec; [done|done|done|]; value Hdx Hdy; lia|].
    intros r s' Hr. eapply result_val; [exact Hr|]. value Hdx Hdy; lia.
  - eapply wp_conseq; [eapply difference_spec; [done|done|done|]; value Hdx Hdy; lia|].
    intros r s' Hr. eapply result_val; [exact Hr|]. value Hdx Hdy; lia.
Qed.

Lemma sub_value s x y vx vy : ap_ok s -> is_num s x vx -> is_num s y vy ->
  wp (Cyc_AP_sub x y) (result s (vx - vy)) (ap_oom s) s.
Proof.
  intros Hs (tx & px & xs & Hx)%number_of (ty & py & ys & Hy)%number_of. pose proof Hx as (Hx0 & Htx & Hdx). pose proof Hy as (Hy0 & Hty & Hdy).
  unfold Cyc_AP_sub. wps. apply wp_ap_assert; [lia|]. wps. apply wp_ap_assert; [lia|]. wps. eapply wp_num_of; [done|]. wps. eapply wp_num_of; [done|].
  rewrite (same_sign_iff _ _ _ _ _ _ _ _ _ _ Hdx Hdy). destruct (sign tx =? sign ty) eqn:E1; simpl.
  - eapply wp_conseq; [eapply difference_spec; [done|done|done|]; value Hdx Hdy; lia|].
    intros r s' Hr. eapply result_val; [exact Hr|]. value Hdx Hdy; lia.
  - eapply wp_conseq; [eapply add_magnitudes_spec; [done|done|done|]; value Hdx Hdy; lia|].
    intros r s' Hr. eapply result_val; [exact Hr|]. value Hdx Hdy; lia.
Qed.

Lemma cmp_value s x y vx vy (Q : Z -> ap_mem H -> Prop) E : is_num s x vx -> is_num s y vy ->
  (forall c, Z.sgn c = Z.sgn (vx - vy) -> Q c s) -> wp (Cyc_AP_cmp x y) Q E s.
Proof.
  intros (tx & px & xs & Hx)%number_of (ty & py & ys & Hy)%number_of HQ. pose proof Hx as (Hx0 & Htx & Hdx). pose proof Hy as (Hy0 & Hty & Hdy).
  pose proof (number_pos _ _ _ _ _ _ Hx) as (_ & _ & _ & Hxp). pose proof (number_pos _ _ _ _ _ _ Hy) as (_ & _ & _ & Hyp).
  unfold Cyc_AP_cmp. wps. apply wp_ap_assert; [lia|]. wps. apply wp_ap_assert; [lia|]. wps. eapply wp_num_of; [done|]. wps. eapply wp_num_of; [done|].
  rewrite (same_sign_iff _ _ _ _ _ _ _ _ _ _ Hdx Hdy). destruct (sign tx =? sign ty) eqn:E1; simpl.
  - destruct (sign tx =? 1) eqn:E2.
    + eapply cmp_magnitudes; [done|done|]. intros c Hc. apply HQ. rewrite Hc. f_equal. value Hdx Hdy; lia.
    + eapply cmp_magnitudes; [done|done|]. intros c Hc. apply HQ. rewrite Hc. f_equal. value Hdx Hdy; lia.
  - wps. apply HQ. value Hdx Hdy; try lia.
Qed.
End arith.
