(* ===== verification/APDiv.v ===== *)
(** * Quotients, remainders and divisors

    Division of numbers truncates towards zero, as division of machine integers
    does; the loop of [Cyc_AP_gcd] ends with a greatest common divisor. *)

From S2P Require Import Prelude RwLock Alloc Region RegionSafety Words FatPtr ZeroTerm CycBytes ByteMem CycXP XPSpec XPMul XPDivSpec CycAP APSpec APArith.

Section div.
Context {H : Type} `{HH : Heap H} `{!HeapLaws H}.
Implicit Types (s : ap_mem H).

(** ** Several arrays at once *)

Lemma new_digits_apart s p k s' q (xs : list Z) : new_digits s p k s' -> (0 < k)%nat -> holds (dig s) q xs -> (0 < length xs)%nat ->
  disjoint q (Z.of_nat (length xs)) p (Z.of_nat k).
Proof.
  intros Hn Hk Hh Hx. unfold disjoint. pose proof (nd_free _ _ _ _ Hn) as Hf.
  destruct (decide (q + Z.of_nat (length xs) <= p)) as [|H1]; [by left|].
  destruct (decide (p + Z.of_nat k <= q)) as [|H2]; [by right|].
  destruct (holds_room _ _ _ Hh (Z.max p q)) as [d Hd]; [lia|]. rewrite Hf in Hd; [done|lia].
Qed.

Lemma new_digits_target s p k s' : new_digits s p k s' -> target (dig s') (_tag_fat p 1 (Z.of_nat k)) p k.
Proof.
  intros [_ _ Hd _ _ Hp He _]. split; [apply tag_spans; lia|]. rewrite Hd. pose proof (write_in p (replicate k 0) (dig s)) as Hh.
  apply holds_room in Hh. by rewrite length_replicate in Hh.
Qed.

(** Digits change, none that were there at [s0]. *)
Lemma under_changed s0 z p sg nd zs zs' s d : under s0 z p sg nd zs s -> holds d p zs' -> length zs' = length zs -> Forall byte_ok zs' ->
  (forall a, is_Some (dig s0 !! a) -> d !! a = dig s !! a) -> (forall a, is_Some (d !! a) -> is_Some (dig s !! a)) ->
  under s0 z p sg nd zs' (set_dig s d).
Proof.
  intros [Hn Hz Ht Hh Hb Hl Hp He Hf [Xn Xd Xl Xi] [Ho Hnn Hd]] Hh' Hl' Hb' Hkeep Hdom. split; rewrite ?Hl'; try done.
  - split; [done| |done|done]. simpl. apply map_subseteq_spec. intros a v Ha. rewrite Hkeep by done. by eapply lookup_weaken.
  - split; [done|done|]. simpl. intros a Ha. by apply Hd, Hdom.
Qed.

(** ** Division *)

(** The quotient and the remainder of the magnitudes, not yet signed. *)
Definition divides s (X Y : Z) (r : Z * Z) s' : Prop := exists s1 pq pr kq kr qs rs, ext s s1 /\ initialized s1 /\
  under s1 r.1 pq 1 (Z.of_nat kq) qs s' /\ significant qs kq /\ num qs = X / Y /\
  under s1 r.2 pr 1 (Z.of_nat kr) rs s' /\ significant rs kr /\ num rs = X mod Y.

(** The division once the results and the temporary digits are allocated. *)
Lemma divide_digits s1 x y vx vy px py tx ty xs ys q pq r pr t s line (Q : Z * Z -> ap_mem H -> Prop) E :
  let nt := (length xs + length ys + 2)%nat in
  number s1 x vx tx px xs -> number s1 y vy ty py ys -> num ys <> 0 ->
  under s1 q pq 1 1 (replicate (length xs) 0) s -> under s1 r pr 1 1 (replicate (length ys) 0) s -> q <> r ->
  target (dig s) (_tag_fat t 1 (Z.of_nat nt)) t nt -> (forall a, t <= a < t + Z.of_nat nt -> dig s1 !! a = None) ->
  disjoint pq (Z.of_nat (length xs)) pr (Z.of_nat (length ys)) -> disjoint pq (Z.of_nat (length xs)) t (Z.of_nat nt) ->
  disjoint pr (Z.of_nat (length ys)) t (Z.of_nat nt) ->
  (forall kq kr qs rs s', under s1 q pq 1 (Z.of_nat kq) qs s' -> significant qs kq -> num qs = num xs / num ys ->
     under s1 r pr 1 (Z.of_nat kr) rs s' -> significant rs kr -> num rs = num xs mod num ys -> Q (q, r) s') ->
  wp (chk q line;; chk r line;; tq ← num_of q; tr ← num_of r;
    on_dig (Cyc_XP_div (Z.of_nat (length xs)) (digits tq) (digits tx) (Z.of_nat (length ys)) (digits ty) (digits tr) (_tag_fat t 1 (Z.of_nat nt)));;
    Cyc_normalize q (ap_size tq);; Cyc_normalize r (ap_size tr);; mret (q, r)) Q E s.
Proof.
  intros nt Hx Hy Hnz Hq Hr Hne Ht Hfree Hqr Hqt Hrt HQ.
  pose proof (number_pos _ _ _ _ _ _ Hx) as (Hxl & Hxi & _). pose proof (number_pos _ _ _ _ _ _ Hy) as (Hyl & Hyi & _).
  wps. apply wp_chk; [apply Hq|]. wps. apply wp_chk; [apply Hr|]. wps. eapply wp_num_of; [apply Hq|]. wps. eapply wp_num_of; [apply Hr|].
  wps. simpl. rewrite !length_replicate. apply wp_on_dig. unfold INT_MAX in *.
  destruct (number_apart _ _ _ _ _ _ _ _ _ _ _ _ Hx Hq) as [Hxd Hxq]. destruct (number_apart _ _ _ _ _ _ _ _ _ _ _ _ Hy Hq) as [Hyd Hyq].
  destruct (number_apart _ _ _ _ _ _ _ _ _ _ _ _ Hx Hr) as [_ Hxr].
  assert (Hfar : forall f px xs, digits_of (dig s1) f px xs -> (0 < length xs)%nat -> disjoint px (Z.of_nat (length xs)) t (Z.of_nat nt)).
  { intros f p0 l (_ & Hh & _) Hl. unfold disjoint. destruct (decide (p0 + Z.of_nat (length l) <= t)) as [|H1]; [by left|].
    destruct (decide (t + Z.of_nat nt <= p0)) as [|H2]; [by right|]. destruct (holds_room _ _ _ Hh (Z.max t p0)) as [d Hd]; [lia|].
    rewrite Hfree in Hd; [done|lia]. }
  pose proof (Hfar _ _ _ (dn_digits _ _ _ _ _ (proj2 (proj2 Hx))) Hxl) as Hxt.
  pose proof (Hfar _ _ _ (dn_digits _ _ _ _ _ (proj2 (proj2 Hy))) Hyl) as Hyt.
  pose proof (under_target _ _ _ _ _ _ _ Hq) as Htq. pose proof (under_target _ _ _ _ _ _ _ Hr) as Htr.
  rewrite length_replicate in *. unfold disjoint in *.
  eapply wp_conseq; [apply (div_spec (dig s) _ _ _ _ _ pq px py pr t xs ys); unfold disjoint, XPDivSpec.nx, XPDivSpec.my; try done; lia|].
  intros c d. rewrite (proj2 (Z.eqb_neq (num ys) 0)) by done. intros (_ & (qs & rs & Hql & Hrl & Hqb & Hrb & Hqh & Hrh & Hqv & Hrv) & Hout).
  change (XPDivSpec.nx xs) with (length xs) in *. change (XPDivSpec.my ys) with (length ys) in *.
  assert (Hkeep : forall a, is_Some (dig s1 !! a) -> d !! a = dig s !! a).
  { intros a [v Ha]. pose proof (un_free _ _ _ _ _ _ _ Hq a) as Fq. pose proof (un_free _ _ _ _ _ _ _ Hr a) as Fr. rewrite length_replicate in Fq, Fr.
    rewrite Ha in *. unfold outside in Hout. specialize (Hfree a). rewrite Ha in Hfree.
    apply Hout; [destruct (decide (pq <= a < pq + Z.of_nat (length xs))) as [Hin|]; [by specialize (Fq Hin)|lia]
      |destruct (decide (pr <= a < pr + Z.of_nat (length ys))) as [Hin|]; [by specialize (Fr Hin)|lia]
      |destruct (decide (t <= a < t + Z.of_nat nt)) as [Hin|]; [by specialize (Hfree Hin)|lia]]. }
  assert (Hdom : forall a, is_Some (d !! a) -> is_Some (dig s !! a)).
  { intros a Ha. destruct (decide (pq <= a < pq + Z.of_nat (length xs))); [by apply Htq|].
    destruct (decide (pr <= a < pr + Z.of_nat (length ys))); [by apply Htr|].
    destruct (decide (t <= a < t + Z.of_nat nt)); [by apply Ht|]. by rewrite <- Hout by (unfold outside; lia). }
  assert (Hq1 : under s1 q pq 1 1 qs (set_dig s d)) by (eapply under_changed; [exact Hq|done|by rewrite length_replicate|done..]).
  assert (Hr1 : under s1 r pr 1 1 rs (set_dig s d)) by (eapply under_changed; [exact Hr|done|by rewrite length_replicate|done..]).
  wps. eapply normalize_spec; [exact Hq1|by rewrite Hql|]. intros kq tq Hkq Hq2. wps.
  assert (Hr2 : under s1 r pr 1 1 rs (set_num (set_dig s d) q tq)) by (apply under_other; [done|done|apply Hq|by eexists; apply Hq1]).
  eapply normalize_spec; [exact Hr2|by rewrite Hrl|]. intros kr tr Hkr Hr3. wps. apply (HQ kq kr qs rs); [|done|done|exact Hr3|done|done].
  apply under_other; [done|done|apply Hr|by eexists; apply Hr2].
Qed.

Lemma divide_spec s x y vx vy px py tx ty xs ys l1 l2 l3 : ap_ok s -> number s x vx tx px xs -> number s y vy ty py ys -> num ys <> 0 ->
  wp (divide x y l1 l2 l3) (divides s (num xs) (num ys)) (ap_oom s) s.
Proof.
  intros Hs Hx Hy Hnz. pose proof (number_pos _ _ _ _ _ _ Hx) as (Hxl & Hxi & Hxb & Hxp). pose proof (number_pos _ _ _ _ _ _ Hy) as (Hyl & Hyi & Hyb & Hyp).
  pose proof Hx as (Hx0 & Htx & Hdx). pose proof Hy as (Hy0 & Hty & Hdy). unfold INT_MAX in *.
  unfold divide. wps. apply wp_ap_assert; [lia|]. wps. apply wp_ap_assert; [lia|]. wps. eapply wp_is_digit_number; [done|exact Hdy|lia|].
  wps. apply wp_ap_assert; [lia|]. wps. eapply wp_num_of; [done|]. wps. eapply wp_num_of; [done|]. wps.
  rewrite (dn_len _ _ _ _ _ Hdx), (dn_len _ _ _ _ _ Hdy). apply mk_spec; [done|words|words|]. intros s1 q pq s2 Hx1 Hini Hq2 _. rewrite Nat2Z.id in Hq2.
  wps. pose proof (un_ext _ _ _ _ _ _ _ Hq2) as Hx2. assert (Hini2 : initialized s2) by (by eapply initialized_ext).
  apply (wp_oom _ _ _ s2); [by transitivity s1|]. apply mk_spec; [split; [apply Hq2|by right]|words|words|].
  intros s3 r pr s4 Hx3 Hini3 Hr4 _. rewrite Nat2Z.id in Hr4. pose proof (un_ext _ _ _ _ _ _ _ Hr4) as Hx4.
  assert (Hx24 : ext s2 s4) by (by transitivity s3).
  wps. apply (wp_oom _ _ _ s4); [transitivity s2; [by transitivity s1|done]|]. apply malloc_bytes_spec; [apply Hr4|].
  rewrite u32_small by lia. replace (Z.to_nat _) with (length xs + length ys + 2)%nat by lia.
  replace (Z.of_nat (length xs) + Z.of_nat (length ys) + 2) with (Z.of_nat (length xs + length ys + 2)) by lia.
  intros t s5 Hnd. pose proof (new_digits_ext _ _ _ _ Hnd) as Hx5. pose proof (nd_inv _ _ _ _ Hnd) as Hi5.
  assert (Hx14 : ext s1 s4) by (by transitivity s2).
  assert (Hq4 : under s1 q pq 1 1 (replicate (length xs) 0) s4) by (eapply under_frame; [exact Hq2|done|apply Hr4]).
  assert (Hx13 : ext s1 s3) by (by transitivity s2). pose proof (under_base s1 s3 _ _ _ _ _ _ Hx13 Hr4) as Hr4'.
  assert (Hqs3 : holds (dig s3) pq (replicate (length xs) 0)) by (eapply holds_sub_map; [apply Hx3|apply Hq2]).
  pose proof (under_apart _ _ _ _ _ _ _ _ _ Hr4 Hqs3) as Hqr. rewrite !length_replicate in Hqr. specialize (Hqr Hxl).
  assert (Hk : (0 < length xs + length ys + 2)%nat) by lia.
  pose proof (new_digits_apart _ _ _ _ _ _ Hnd Hk (un_holds _ _ _ _ _ _ _ Hq4)) as Hqt.
  pose proof (new_digits_apart _ _ _ _ _ _ Hnd Hk (un_holds _ _ _ _ _ _ _ Hr4)) as Hrt. rewrite length_replicate in Hqt, Hrt.
  eapply (divide_digits s1 x y vx vy px py tx ty xs ys q pq r pr t); [by eapply number_ext|by eapply number_ext|done| | | | | | | | |].
  - by eapply under_frame.
  - by eapply under_frame.
  - intros ->. pose proof (un_new _ _ _ _ _ _ _ Hr4) as Hnone. eapply lookup_weaken_None in Hnone; [|apply Hx3].
    by rewrite (un_num _ _ _ _ _ _ _ Hq2) in Hnone.
  - by eapply new_digits_target.
  - intros a Ha. eapply lookup_weaken_None; [by apply (nd_free _ _ _ _ Hnd)|apply Hx14].
  - unfold disjoint. lia.
  - by apply Hqt.
  - by apply Hrt.
  - intros kq kr qs rs s6 H1 H2 H3 H4 H5 H6. by exists s1, pq, pr, kq, kr, qs, rs.
Qed.

Lemma divides_ext s X Y r s' : divides s X Y r s' -> ext s s' /\ ap_ok s'.
Proof.
  intros (s1 & pq & pr & kq & kr & qs & rs & Hx & Hini & Hq & _). pose proof (un_ext _ _ _ _ _ _ _ Hq) as Hx1.
  split; [by etrans|]. split; [apply Hq|]. right. by eapply initialized_ext.
Qed.

Lemma quot_magnitudes m t p ds v m' t' p' ds' v' : denotes m t p ds v -> denotes m' t' p' ds' v' -> 0 <= num ds -> 0 < num ds' ->
  Z.quot v v' = (if same_sign t t' then 1 else -1) * (num ds / num ds') /\ Z.rem v v' = sign t * (num ds mod num ds').
Proof.
  intros Hd Hd' Hn Hn'. rewrite (same_sign_iff _ _ _ _ _ _ _ _ _ _ Hd Hd'), <- Z.quot_div_nonneg, <- Z.rem_mod_nonneg by lia.
  destruct (sign_cases _ _ _ _ _ Hd) as [[-> ->]|(-> & -> & _)], (sign_cases _ _ _ _ _ Hd') as [[-> ->]|(-> & -> & _)]; simpl;
    rewrite ?Z.quot_opp_opp, ?Z.rem_opp_opp, ?Z.quot_opp_l, ?Z.quot_opp_r, ?Z.rem_opp_l, ?Z.rem_opp_r by lia; lia.
Qed.

Lemma value_zero m t p ds v : denotes m t p ds v -> v <> 0 <-> num ds <> 0.
Proof. intros Hd. destruct (sign_cases _ _ _ _ _ Hd) as [[_ ->]|(_ & -> & _)]; lia. Qed.

Lemma div_value s x y vx vy : ap_ok s -> is_num s x vx -> is_num s y vy -> vy <> 0 ->
  wp (Cyc_AP_div x y) (result s (Z.quot vx vy)) (ap_oom s) s.
Proof.
  intros Hs (tx & px & xs & Hx)%number_of (ty & py & ys & Hy)%number_of Hnz. pose proof Hx as (_ & _ & Hdx). pose proof Hy as (_ & _ & Hdy).
  apply (value_zero _ _ _ _ _ Hdy) in Hnz. unfold Cyc_AP_div. wps. eapply wp_conseq; [by eapply (divide_spec s x y)|].
  intros [q r] s2 Hd. pose proof (divides_ext _ _ _ _ _ Hd) as [Hx2 _].
  destruct Hd as (s1 & pq & pr & kq & kr & qs & rs & Hx1 & Hini & Hq & Hkq & Hqv & _). simpl in Hq.
  destruct (number_ext _ _ _ _ _ _ _ Hx2 Hx) as (_ & Htx & _). destruct (number_ext _ _ _ _ _ _ _ Hx2 Hy) as (_ & Hty & _).
  wps. eapply wp_num_of; [done|]. wps. eapply wp_num_of; [done|].
  eapply signed_result; [exact Hx1|done|exact Hq|done|destruct (same_sign tx ty); lia|].
  pose proof (number_pos _ _ _ _ _ _ Hx). pose proof (number_pos _ _ _ _ _ _ Hy). rewrite Hqv. eapply quot_magnitudes; [exact Hdx|exact Hdy|lia|lia].
Qed.

Lemma mod_value s x y vx vy : ap_ok s -> is_num s x vx -> is_num s y vy -> vy <> 0 ->
  wp (Cyc_AP_mod x y) (result s (Z.rem vx vy)) (ap_oom s) s.
Proof.
  intros Hs (tx & px & xs & Hx)%number_of (ty & py & ys & Hy)%number_of Hnz. pose proof Hx as (_ & _ & Hdx). pose proof Hy as (_ & _ & Hdy).
  apply (value_zero _ _ _ _ _ Hdy) in Hnz. unfold Cyc_AP_mod. wps. eapply wp_conseq; [by eapply (divide_spec s x y)|].
  intros [q r] s2 Hd. pose proof (divides_ext _ _ _ _ _ Hd) as [Hx2 _].
  destruct Hd as (s1 & pq & pr & kq & kr & qs & rs & Hx1 & Hini & _ & _ & _ & Hr & Hkr & Hrv). simpl in Hr.
  destruct (number_ext _ _ _ _ _ _ _ Hx2 Hx) as (_ & Htx & _).
  wps. eapply wp_num_of; [done|].
  eapply signed_result; [exact Hx1|done|exact Hr|done|destruct (sign_cases _ _ _ _ _ Hdx); lia|].
  pose proof (number_pos _ _ _ _ _ _ Hx). pose proof (number_pos _ _ _ _ _ _ Hy). rewrite Hrv. eapply quot_magnitudes; [exact Hdx|exact Hdy|lia|lia].
Qed.

(** ** Copies *)

Lemma copy_number_spec s x v t q xs line (Q : Z -> ap_mem H -> Prop) : ap_ok s -> number s x v t q xs ->
  (forall s1 z p s', ext s s1 -> initialized s1 -> under s1 z p 1 (Z.of_nat (length xs)) xs s' -> Q z s') ->
  wp (copy_number x line) Q (ap_oom s) s.
Proof.
  intros Hs Hx HQ. pose proof (number_pos _ _ _ _ _ _ Hx) as (Hxl & Hxi & Hxb & _). pose proof Hx as (Hx0 & Htx & Hdx). unfold INT_MAX in *.
  unfold copy_number. wps. eapply wp_num_of; [done|]. rewrite (dn_len _ _ _ _ _ Hdx). wps. apply mk_spec; [done|words|words|].
  intros s1 z p s2 Hx1 Hini Hu _. rewrite Nat2Z.id in Hu. wps. apply wp_chk; [apply Hu|]. wps. eapply wp_num_of; [apply Hu|]. wps.
  pose proof (number_ext _ _ _ _ _ _ _ Hx1 Hx) as Hx2. destruct (number_apart _ _ _ _ _ _ _ _ _ _ _ _ Hx2 Hu) as [Hd Ha].
  pose proof (number_ext _ _ _ _ _ _ _ (un_ext _ _ _ _ _ _ _ Hu) Hx2) as (_ & Htx2 & _). eapply wp_num_of; [exact Htx2|]. wps.
  rewrite (dn_len _ _ _ _ _ Hdx), u32_small by lia. simpl. rewrite length_replicate in *. apply wp_on_dig.
  pose proof (under_target _ _ _ _ _ _ _ Hu) as [Ht1 Ht2]. rewrite length_replicate in Ht1, Ht2. destruct Hd as (Hd1 & Hd2 & Hd3).
  eapply (memcpy_spec _ _ p q xs); [exact Ht1|exact Hd1|lia|lia|exact Ht2|exact Hd2|exact Hd3|].
  assert (Hu2 : under s1 z p 1 1 xs (set_dig s2 (write p xs (dig s2)))) by (eapply under_write; [exact Hu|by rewrite length_replicate|done]).
  wps. eapply wp_upd; [apply Hu2|]. wps. eapply HQ; [done|done|]. by eapply (under_set _ _ _ 1 1).
Qed.

(** A copy gets a sign. *)
Lemma copy_signed s s1 z p xs sg v s2 : ext s s1 -> initialized s1 -> significant xs (length xs) ->
  under s1 z p 1 (Z.of_nat (length xs)) xs s2 -> sg = 1 \/ (sg = -1 /\ num xs <> 0) -> v = sg * num xs ->
  wp (upd z (set_sign sg);; mret z) (result s v) (ap_oom s) s2.
Proof.
  intros Hx Hini Hsig Hu Hsg ->. wps. eapply wp_upd; [apply Hu|]. wps. unfold set_sign. simpl.
  pose proof (under_set _ _ _ _ _ _ _ sg (Z.of_nat (length xs)) Hu) as Hu2. pose proof (un_ext _ _ _ _ _ _ _ Hu2).
  split_and!; [by eapply under_done|by etrans|apply Hu2|by eapply initialized_ext].
Qed.

Lemma neg_value s x v : ap_ok s -> is_num s x v -> wp (Cyc_AP_neg x) (result s (- v)) (ap_oom s) s.
Proof.
  intros Hs (t & q & xs & Hx)%number_of. pose proof Hx as (Hx0 & _ & Hd). unfold Cyc_AP_neg. wps. apply wp_ap_assert; [lia|]. wps.
  eapply copy_number_spec; [done|exact Hx|]. intros s1 z p s2 Hx1 Hini Hu. wps.
  destruct (under_done _ _ _ _ _ _ _ Hu (dn_sig _ _ _ _ _ Hd) ltac:(by left)) as (_ & t' & q' & ds & Ht' & Hd').
  rewrite (un_num _ _ _ _ _ _ _ Hu) in Ht'. injection Ht' as <-. pose proof (dn_val _ _ _ _ _ Hd') as Hval. simpl in Hval.
  eapply wp_is_digit_number; [apply Hu|exact Hd'|lia|]. wps.
  destruct (number_ext _ _ _ _ _ _ _ (un_ext _ _ _ _ _ _ _ Hu) (number_ext _ _ _ _ _ _ _ Hx1 Hx)) as (_ & Htx & _). eapply wp_num_of; [exact Htx|].
  eapply copy_signed; [exact Hx1|done|apply Hd|exact Hu|..]; destruct (sign_cases _ _ _ _ _ Hd) as [[-> ->]|(-> & -> & ?)], (num ds =? 0) eqn:E0; lia.
Qed.

Lemma abs_value s x v : ap_ok s -> is_num s x v -> wp (Cyc_AP_abs x) (result s (Z.abs v)) (ap_oom s) s.
Proof.
  intros Hs (t & q & xs & Hx)%number_of. pose proof Hx as (Hx0 & _ & Hd). unfold Cyc_AP_abs. wps. apply wp_ap_assert; [lia|]. wps.
  eapply copy_number_spec; [done|exact Hx|]. intros s1 z p s2 Hx1 Hini Hu. eapply copy_signed; [exact Hx1|done|apply Hd|exact Hu|by left|].
  pose proof (number_pos _ _ _ _ _ _ Hx). destruct (sign_cases _ _ _ _ _ Hd) as [[_ ->]|(_ & -> & ?)]; lia.
Qed.

(** ** Greatest common divisors *)

(** [k] more steps of Euclid's algorithm are enough: after the first, each
    step halves the product of the two numbers. *)
Definition euclid_steps (k : nat) (a b : Z) : Prop :=
  b = 0 \/ (Z.abs b < Z.abs a /\ Z.abs a * Z.abs b < 2 ^ Z.of_nat k) \/ ((0 < k)%nat /\ b * b < 2 ^ Z.of_nat (k - 1)).

Lemma euclid_next k a b : euclid_steps k a b -> b <> 0 -> (0 < k)%nat /\ euclid_steps (k - 1) b (Z.rem a b).
Proof.
  intros Hk Hb. pose proof (Z.rem_bound_abs a b Hb) as Hr.
  assert (Hab : Z.abs (Z.rem a b) = Z.abs a mod Z.abs b) by (rewrite <- Z.rem_abs by done; apply Z.rem_mod_nonneg; lia).
  assert (Hpow : (0 < k)%nat -> 2 ^ Z.of_nat k = 2 * 2 ^ Z.of_nat (k - 1)).
  { intros ?. rewrite <- Z.pow_succ_r by lia. f_equal. lia. }
  destruct Hk as [->|[[Hlt Hp]|[Hk Hp]]]; [done| |].
  - assert (0 < k)%nat by (destruct k; [simpl in Hp; nia|lia]). split; [done|]. right. left. split; [done|].
    pose proof (Z.div_mod (Z.abs a) (Z.abs b) ltac:(lia)) as Hdm. rewrite Hpow in Hp by done.
    assert (1 <= Z.abs a / Z.abs b) by (apply Z.div_le_lower_bound; lia). rewrite <- Hab in Hdm. nia.
  - split; [done|]. right. left. split; [done|]. assert (Z.abs b * Z.abs b = b * b) by nia. nia.
Qed.

Lemma gcd_signed s x y vx vy : ap_ok s -> is_num s x vx -> is_num s y vy ->
  wp (Cyc_AP_gcd x y) (fun r s' => exists g, Z.abs g = Z.gcd vx vy /\ (0 <= vx -> 0 <= vy -> 0 <= g) /\ result s g r s') (ap_oom s) s.
Proof.
  intros Hs Hx Hy. unfold Cyc_AP_gcd. wps. apply wp_ap_assert; [destruct Hx; lia|]. wps. apply wp_ap_assert; [destruct Hy; lia|]. wps.
  apply (wp_conseq _ (fun r s' => exists g, is_num s' r g /\ Z.abs g = Z.gcd vx vy /\ (0 <= vx -> 0 <= vy -> 0 <= g) /\ ext s s' /\ ap_ok s')).
  - destruct (number_of _ _ _ Hy) as (ty & py & ys & Hny). pose proof (number_pos _ _ _ _ _ _ Hny) as (_ & _ & Hyb & _).
    pose proof Hny as (_ & Hty & Hdy).
    apply (wp_loop _ (fun k '(x, y) s' => exists a b, is_num s' x a /\ is_num s' y b /\ ext s s' /\ ap_ok s' /\
      Z.gcd a b = Z.gcd vx vy /\ (0 <= vx -> 0 <= vy -> 0 <= a /\ 0 <= b) /\ euclid_steps k a b)) with (S (16 * length ys)).
    + intros k [x1 y1] s1 (a & b & Hx1 & Hy1 & Hxt & Hs1 & Hg & Hsg & Hk). wps. apply wp_chk; [apply Hy1|]. wps.
      destruct (number_of _ _ _ Hy1) as (t1 & p1 & l1 & _ & Ht1 & Hd1). eapply wp_is_digit_number; [done|exact Hd1|lia|].
      destruct (num l1 =? 0) eqn:E0.
      * wps. exists a. assert (b = 0) as -> by (destruct (sign_cases _ _ _ _ _ Hd1); lia). rewrite Z.gcd_0_r in Hg.
        split_and!; try done. intros Hvx Hvy. by destruct (Hsg Hvx Hvy).
      * assert (Hb : b <> 0) by (apply (value_zero _ _ _ _ _ Hd1); lia). wps. apply (wp_oom _ _ _ s1); [done|].
        eapply wp_conseq; [by apply (mod_value s1 x1 y1 a b)|]. intros r s2 (Hr & Hxt2 & Hi2 & Hini2). wps.
        destruct (euclid_next _ _ _ Hk Hb) as [Hpos Hk']. exists (k - 1)%nat. split; [lia|]. exists b, (Z.rem a b).
        split_and!; [by eapply is_num_ext|done|by etrans|split; [done|by right]| | |done].
        -- rewrite Z.gcd_comm, Z.gcd_rem by done. by rewrite Z.gcd_comm.
        -- intros Hvx Hvy. destruct (Hsg Hvx Hvy). split; [done|]. apply Z.rem_nonneg; lia.
    + exists vx, vy. split_and!; try done. right. right. split; [lia|]. simpl. rewrite Nat.sub_0_r.
      assert (Hv : vy * vy = num ys * num ys) by (destruct (sign_cases _ _ _ _ _ Hdy) as [[_ ->]|(_ & -> & _)]; lia).
      pose proof (num_bound _ Hyb) as Hn. replace (2 ^ _) with (weight (length ys) * weight (length ys)); [nia|].
      rewrite <- weight_add. unfold weight. change 256 with (2 ^ 8). rewrite <- Z.pow_mul_r by lia. f_equal. lia.
    + unfold gcd_fuel. rewrite Hty, (dn_len _ _ _ _ _ Hdy). lia.
  - intros r s1 (g & Hr & Hg & Hsg & Hxt & Hs1). wps. destruct (number_of _ _ _ Hr) as (t & q & xs & Hn). pose proof Hn as (_ & _ & Hd).
    apply (wp_oom _ _ _ s1); [done|]. eapply copy_number_spec; [done|exact Hn|]. intros s2 z p s3 Hxt2 Hini Hu. wps.
    destruct (number_ext _ _ _ _ _ _ _ (un_ext _ _ _ _ _ _ _ Hu) (number_ext _ _ _ _ _ _ _ Hxt2 Hn)) as (_ & Htx & _). eapply wp_num_of; [exact Htx|].
    assert (Hxt' : ext s s2) by (by etrans).
    eapply wp_conseq; [eapply (copy_signed s s2 z p xs (sign t) g); [done|done|apply Hd|done|apply Hd|apply Hd]|].
    intros r' s4 Hr'. by exists g.
Qed.

Lemma gcd_value s x y vx vy : ap_ok s -> is_num s x vx -> is_num s y vy ->
  wp (Cyc_AP_gcd x y) (fun r s' => exists g, Z.abs g = Z.gcd vx vy /\ result s g r s') (ap_oom s) s.
Proof. intros Hs Hx Hy. eapply wp_conseq; [by apply gcd_signed|]. intros r s' (g & Hg & _ & Hr). by exists g. Qed.

Lemma lcm_signed s x y vx vy : ap_ok s -> is_num s x vx -> is_num s y vy -> vx <> 0 \/ vy <> 0 ->
  wp (Cyc_AP_lcm x y) (fun r s' => exists l, Z.abs l = Z.lcm vx vy /\ (0 <= vx -> 0 <= vy -> 0 <= l) /\ result s l r s') (ap_oom s) s.
Proof.
  intros Hs Hx Hy Hnz. unfold Cyc_AP_lcm. wps. eapply wp_conseq; [by apply (gcd_signed s x y vx vy)|].
  intros g s1 (vg & Hg & Hsg & Hng & Hx1 & Hi1 & Hini1). wps.
  assert (Hg0 : vg <> 0). { intros ->. symmetry in Hg. simpl in Hg. apply Z.gcd_eq_0 in Hg. lia. }
  apply (wp_oom _ _ _ s1); [done|]. eapply wp_conseq; [eapply (div_value s1); [split; [done|by right]|by eapply is_num_ext|done|done]|].
  intros q s2 (Hq & Hx2 & Hi2 & Hini2). assert (Hxs : ext s s2) by (by etrans).
  apply (wp_oom _ _ _ s2); [done|]. eapply wp_conseq; [eapply (mul_value s2 x q vx); [split; [done|by right]|by eapply is_num_ext|done]|].
  intros r s3 Hr. exists (vx * Z.quot vy vg). split; [|split; [|by eapply result_ext]].
  2: { intros Hvx Hvy. specialize (Hsg Hvx Hvy). apply Z.mul_nonneg_nonneg; [done|]. apply Z.quot_pos; lia. }
  unfold Z.lcm. rewrite !Z.abs_mul, <- Z.quot_abs by done. f_equal. rewrite <- Hg. rewrite Z.quot_div_nonneg by lia.
  destruct (Z.gcd_divide_r vx vy) as [c Hc]. rewrite <- Hg in Hc. rewrite Hc at 1. rewrite Z.abs_mul, Z.abs_idemp, Z.div_mul by lia.
  rewrite Hc, Z.div_mul by lia. done.
Qed.

Lemma lcm_value s x y vx vy : ap_ok s -> is_num s x vx -> is_num s y vy -> vx <> 0 \/ vy <> 0 ->
  wp (Cyc_AP_lcm x y) (fun r s' => exists l, Z.abs l = Z.lcm vx vy /\ result s l r s') (ap_oom s) s.
Proof. intros Hs Hx Hy Hnz. eapply wp_conseq; [by apply lcm_signed|]. intros r s' (l & Hl & _ & Hr). by exists l. Qed.
End div.
