(* ===== verification/APPow.v ===== *)
(** * Shifts, bits, machine operands and powers *)

From S2P Require Import Prelude RwLock Alloc Region RegionSafety Words FatPtr ZeroTerm CycBytes ByteMem CycXP XPSpec XPMul XPDivSpec XPBits CycAP APSpec APArith APDiv.

Section pow.
Context {H : Type} `{HH : Heap H} `{!HeapLaws H}.
Implicit Types (s : ap_mem H).

Lemma result_ok s v r s' : result s v r s' -> ap_ok s' /\ ext s s' /\ is_num s' r v.
Proof. intros (? & ? & ? & ?). split_and!; [split; [done|by right]|done|done]. Qed.

(** One operation after another. *)
Lemma wp_then {A} (c : ST (ap_mem H) Z) (f : Z -> ST (ap_mem H) A) v Q s s1 : ext s s1 -> wp c (result s1 v) (ap_oom s1) s1 ->
  (forall r s2, ap_ok s2 -> ext s s2 -> initialized s2 -> is_num s2 r v -> wp (f r) Q (ap_oom s) s2) -> wp (c ≫= f) Q (ap_oom s) s1.
Proof.
  intros Hx Hc Hf. apply wp_bind, (wp_oom _ _ _ s1); [done|]. eapply wp_conseq; [exact Hc|].
  intros r s2 Hres. pose proof (result_ok _ _ _ _ Hres) as (Hs2 & Hx2 & Hr). apply Hf; [done|by etrans|apply Hres|done].
Qed.

Lemma wp_last (c : ST (ap_mem H) Z) v w s s1 : ext s s1 -> wp c (result s1 v) (ap_oom s1) s1 -> v = w -> wp c (result s w) (ap_oom s) s1.
Proof.
  intros Hx Hc <-. apply (wp_oom _ _ _ s1); [done|]. eapply wp_conseq; [exact Hc|]. intros r s2. by apply result_ext.
Qed.

(** ** Operations with a machine integer *)

Lemma set_value n s : ap_ok s -> -2147483648 <= n < 2147483648 -> wp (t ← Cyc_mk sizeof_long; Cyc_set t n) (result s n) (ap_oom s) s.
Proof. apply new_spec. Qed.

Lemma wp_operand_of {A} n (f : Z -> ST (ap_mem H) A) Q s : ap_ok s -> -2147483648 <= n < 2147483648 ->
  (forall r s2, ap_ok s2 -> ext s s2 -> is_num s2 r n -> wp (f r) Q (ap_oom s) s2) -> wp (t ← Cyc_mk sizeof_long; t ← Cyc_set t n; f t) Q (ap_oom s) s.
Proof.
  intros Hs Hn Hf. apply wp_bind. pose proof (wp_bind_inv _ _ _ _ _ (set_value n s Hs Hn)) as Hw. eapply wp_conseq; [exact Hw|].
  intros t s1 Ht. apply wp_bind. eapply wp_conseq; [exact Ht|]. intros r s2 (Hs2 & Hx2 & Hr)%result_ok. by apply Hf.
Qed.

Section immediate.
Context (s : ap_mem H) (x v n : Z) (Hs : ap_ok s) (Hx : is_num s x v) (Hn : -2147483648 <= n < 2147483648).

Lemma addi_value : wp (Cyc_AP_addi x n) (result s (v + n)) (ap_oom s) s.
Proof.
  apply wp_operand_of; [done|done|]. intros r s2 Hs2 Hx2 Hr. eapply wp_last; [done|apply add_value; [done|by eapply is_num_ext|done]|done].
Qed.

Lemma subi_value : wp (Cyc_AP_subi x n) (result s (v - n)) (ap_oom s) s.
Proof.
  apply wp_operand_of; [done|done|]. intros r s2 Hs2 Hx2 Hr. eapply wp_last; [done|apply sub_value; [done|by eapply is_num_ext|done]|done].
Qed.

Lemma muli_value : wp (Cyc_AP_muli x n) (result s (v * n)) (ap_oom s) s.
Proof.
  apply wp_operand_of; [done|done|]. intros r s2 Hs2 Hx2 Hr. eapply wp_last; [done|apply mul_value; [done|by eapply is_num_ext|done]|done].
Qed.

Lemma divi_value : n <> 0 -> wp (Cyc_AP_divi x n) (result s (Z.quot v n)) (ap_oom s) s.
Proof.
  intros ?. apply wp_operand_of; [done|done|]. intros r s2 Hs2 Hx2 Hr. eapply wp_last; [done|apply div_value; [done|by eapply is_num_ext|done|done]|done].
Qed.

Lemma cmpi_value (Q : Z -> ap_mem H -> Prop) : (forall c s', Z.sgn c = Z.sgn (v - n) -> ext s s' -> ap_ok s' -> Q c s') ->
  wp (Cyc_AP_cmpi x n) Q (ap_oom s) s.
Proof.
  intros HQ. apply wp_operand_of; [done|done|]. intros r s2 Hs2 Hx2 Hr. eapply cmp_value; [by eapply is_num_ext|done|]. intros c Hc. by apply HQ.
Qed.
End immediate.

(** The low 31 bits of the magnitude, with the sign. *)
Lemma toint_value s x v (Q : Z -> ap_mem H -> Prop) E : is_num s x v -> Q (Z.sgn v * (Z.abs v mod 2147483648)) s -> wp (Cyc_AP_toint x) Q E s.
Proof.
  intros (t & p & ds & Hn)%number_of HQ. pose proof (number_pos _ _ _ _ _ _ Hn) as (_ & _ & Hb & Hpos). destruct Hn as (Hx0 & Ht & Hd).
  unfold Cyc_AP_toint. wps. apply wp_ap_assert; [lia|]. wps. eapply wp_num_of; [done|]. wps. rewrite (dn_len _ _ _ _ _ Hd).
  apply (wp_on_dig_read _ (fun u => u = num ds mod 4294967296)); [eapply toint_spec; apply Hd|]. intros u ->. wps.
  change (u32 (Cyc_long_max + 1)) with 2147483648. replace ((num ds mod 4294967296) mod 2147483648) with (num ds mod 2147483648) by words.
  rewrite i32_small by words. destruct (sign_cases _ _ _ _ _ Hd) as [[-> Hv]|(-> & Hv & Hnz)]; simpl.
  - replace (num ds mod 2147483648) with (Z.sgn v * (Z.abs v mod 2147483648)); [done|]. subst v. rewrite Z.abs_eq by lia.
    destruct (decide (num ds = 0)) as [->|]; [done|]. rewrite Z.sgn_pos; lia.
  - replace (- (num ds mod 2147483648)) with (Z.sgn v * (Z.abs v mod 2147483648)); [done|]. subst v. rewrite Z.abs_opp, Z.abs_eq, Z.sgn_neg by lia. lia.
Qed.

Lemma modi_value s x v n (Q : Z -> ap_mem H -> Prop) : ap_ok s -> is_num s x v -> -2147483648 <= n < 2147483648 -> n <> 0 ->
  (forall s', ext s s' -> ap_ok s' -> Q (Z.abs (Z.rem v n)) s') -> wp (Cyc_AP_modi x n) Q (ap_oom s) s.
Proof.
  intros Hs Hx Hn Hnz HQ. apply wp_operand_of; [done|done|]. intros r s2 Hs2 Hx2 Hr.
  eapply wp_then; [done|apply mod_value; [done|by eapply is_num_ext|done|done]|]. intros z s3 Hs3 Hx3 _ (t & p & ds & Hz)%number_of.
  pose proof (number_pos _ _ _ _ _ _ Hz) as (_ & _ & _ & Hpos). destruct Hz as (Hz0 & Ht & Hd).
  wps. apply wp_chk; [done|]. wps. eapply wp_num_of; [done|]. wps. rewrite (dn_len _ _ _ _ _ Hd).
  apply (wp_on_dig_read _ (fun u => u = num ds mod 4294967296)); [eapply toint_spec; apply Hd|]. intros u ->. wps.
  assert (Habs : Z.abs (Z.rem v n) = num ds) by (destruct (sign_cases _ _ _ _ _ Hd) as [[_ ->]|(_ & -> & _)]; lia).
  pose proof (Z.rem_bound_abs v n Hnz). rewrite Z.mod_small, i32_small, <- Habs by lia. by apply HQ.
Qed.

(** ** Shifts *)

Lemma weight_pow2 k : weight k = 2 ^ (8 * Z.of_nat k).
Proof. unfold weight. change 256 with (2 ^ 8). by rewrite <- Z.pow_mul_r by lia. Qed.

(** [(s + 7 & ~7) / 8] *)
Lemma round_bits n : 0 <= n <= 2147483640 -> Z.quot (Z.land (i32 (n + 7)) (Z.lnot 7)) 8 = (n + 7) / 8.
Proof.
  intros Hs. rewrite i32_small by lia. change (Z.lnot 7) with (Z.lnot (Z.ones 3)). rewrite <- Z.ldiff_land, Z.ldiff_ones_r by lia.
  rewrite Z.shiftl_mul_pow2, Z.shiftr_div_pow2 by lia. change (2 ^ 3) with 8. by rewrite Z.quot_mul by lia.
Qed.

Lemma rshift_value s x v n t p ds : ap_ok s -> number s x v t p ds -> 0 <= n -> 8 * Z.of_nat (length ds) < 2147483648 ->
  wp (Cyc_AP_rshift x n) (result s (Z.quot v (2 ^ n))) (ap_oom s) s.
Proof.
  intros Hs Hx Hn Hsh. pose proof (number_pos _ _ _ _ _ _ Hx) as (Hl & Hi & Hb & Hpos). pose proof Hx as (Hx0 & Ht & Hd).
  pose proof (Z.pow_pos_nonneg 2 n ltac:(lia) Hn) as Hp2.
  assert (Hv : Z.quot v (2 ^ n) = sign t * (num ds / 2 ^ n)).
  { rewrite <- Z.quot_div_nonneg by lia. destruct (sign_cases _ _ _ _ _ Hd) as [[-> ->]|(-> & -> & _)]; rewrite ?Z.quot_opp_l by lia; lia. }
  unfold Cyc_AP_rshift. wps. apply wp_ap_assert; [lia|]. wps. apply wp_ap_assert; [lia|]. wps. eapply wp_num_of; [done|].
  rewrite (dn_len _ _ _ _ _ Hd), i32_small by lia. destruct (8 * Z.of_nat (length ds) <=? n) eqn:E1.
  - eapply wp_last; [done|by apply new_spec|]. rewrite Hv, Z.div_small; [lia|]. pose proof (num_bound _ Hb) as Hlt. rewrite weight_pow2 in Hlt.
    assert (2 ^ (8 * Z.of_nat (length ds)) <= 2 ^ n) by (apply Z.pow_le_mono_r; lia). lia.
  - rewrite Z.quot_div_nonneg by lia. assert (Hk : 0 <= n / 8 < Z.of_nat (length ds)) by words. unfold INT_MAX in *.
    wps. apply mk_spec; [done|words|words|]. intros s1 z q s2 Hx1 Hini Hu _. set (k := Z.to_nat (Z.of_nat (length ds) - n / 8)) in *.
    wps. apply wp_chk; [apply Hu|]. wps. eapply wp_num_of; [apply Hu|]. wps. simpl. rewrite length_replicate. apply wp_on_dig.
    destruct (number_apart _ _ _ _ _ _ _ _ _ _ _ _ (number_ext _ _ _ _ _ _ _ Hx1 Hx) Hu) as [Hxd Hxa].
    pose proof (under_target _ _ _ _ _ _ _ Hu) as Htg. rewrite length_replicate in *.
    eapply wp_conseq; [eapply (rshift_spec _ _ _ q p k ds n Htg Hxd); [lia|done|unfold XPBits.k; lia|lia]|]. intros [] d Hw.
    destruct (under_wrote _ _ _ _ _ _ _ _ _ _ Hu Hw) as (zs & Hu2 & Hzl & Hz); [by rewrite length_replicate|].
    wps. eapply normalize_spec; [exact Hu2|by rewrite Hzl|]. intros j t' Hj Hu3. wps.
    eapply signed_result; [exact Hx1|done|exact Hu3|done|destruct (sign_cases _ _ _ _ _ Hd); lia|by rewrite Hz].
Qed.

Lemma lshift_value s x v n t p ds : ap_ok s -> number s x v t p ds -> 0 <= n <= 2147483640 -> Z.of_nat (length ds) + (n + 7) / 8 < 2147483648 ->
  wp (Cyc_AP_lshift x n) (result s (v * 2 ^ n)) (ap_oom s) s.
Proof.
  intros Hs Hx Hn Hsh. pose proof (number_pos _ _ _ _ _ _ Hx) as (Hl & Hi & Hb & Hpos). pose proof Hx as (Hx0 & Ht & Hd).
  pose proof (Z.pow_pos_nonneg 2 n ltac:(lia) ltac:(lia)) as Hp2.
  unfold Cyc_AP_lshift. wps. apply wp_ap_assert; [lia|]. wps. apply wp_ap_assert; [lia|]. wps. eapply wp_num_of; [done|].
  rewrite (dn_len _ _ _ _ _ Hd), round_bits by lia. assert (H0 : 0 <= (n + 7) / 8) by words.
  wps. apply mk_spec; [done|words|words|]. intros s1 z q s2 Hx1 Hini Hu _. set (k := Z.to_nat (Z.of_nat (length ds) + (n + 7) / 8)) in *.
  wps. apply wp_chk; [apply Hu|]. wps. eapply wp_num_of; [apply Hu|]. wps. simpl. rewrite length_replicate. apply wp_on_dig.
  destruct (number_apart _ _ _ _ _ _ _ _ _ _ _ _ (number_ext _ _ _ _ _ _ _ Hx1 Hx) Hu) as [Hxd Hxa].
  pose proof (under_target _ _ _ _ _ _ _ Hu) as Htg. rewrite length_replicate in *.
  assert (Hfit : (length ds + Z.to_nat (n / 8) <= k)%nat) by words.
  eapply wp_conseq; [eapply (lshift_spec _ _ _ q p k ds n Htg Hxd); [lia|lia|done|lia]|]. intros [] d Hw.
  destruct (under_wrote _ _ _ _ _ _ _ _ _ _ Hu Hw) as (zs & Hu2 & Hzl & Hz); [by rewrite length_replicate|].
  assert (Hval : num zs = num ds * 2 ^ n).
  { rewrite Hz. apply Z.mod_small. pose proof (num_bound _ Hb) as Hlt. rewrite weight_pow2 in *. split; [nia|].
    assert (2 ^ (8 * Z.of_nat (length ds)) * 2 ^ n <= 2 ^ (8 * Z.of_nat k)) by (rewrite <- Z.pow_add_r by lia; apply Z.pow_le_mono_r; words). nia. }
  wps. eapply wp_upd; [apply Hu2|]. wps. unfold set_sign. simpl. pose proof (under_set _ _ _ _ _ _ _ (sign t) 1 Hu2) as Hu3.
  eapply normalize_spec; [exact Hu3|by rewrite Hzl|]. intros j t' Hj Hu4. pose proof (un_ext _ _ _ _ _ _ _ Hu4).
  split_and!; [|by etrans|apply Hu4|by eapply initialized_ext]. replace (v * 2 ^ n) with (sign t * num zs) by (rewrite Hval, (dn_val _ _ _ _ _ Hd); lia).
  eapply under_done; [exact Hu4|done|]. destruct (dn_sign _ _ _ _ _ Hd) as [?|[? ?]]; [by left|right]. split; [done|]. rewrite Hval. nia.
Qed.

(** ** Conjunction of the magnitudes *)

Lemma land_low a b k : 0 <= b < 2 ^ k -> 0 <= k -> Z.land (a mod 2 ^ k) b = Z.land a b.
Proof.
  intros Hb Hk. rewrite <- (Z.mod_small b (2 ^ k)) by lia. rewrite <- !Z.land_ones by lia.
  rewrite <- !Z.land_assoc. f_equal. rewrite (Z.land_comm (Z.ones k)), <- Z.land_assoc. by rewrite Z.land_diag.
Qed.

Lemma num_take l (k : nat) : Forall byte_ok l -> (k <= length l)%nat -> num (take k l) = num l mod weight k.
Proof.
  intros Hb Hk. rewrite (num_split l k Hk), Z.mul_comm, Z_mod_plus_full. symmetry. apply Z.mod_small.
  pose proof (num_bound _ (Forall_take _ k _ Hb)) as Hn. by rewrite length_take, Nat.min_l in Hn.
Qed.

Lemma and_ordered_spec s x y vx vy px py tx ty xs ys : ap_ok s -> number s x vx tx px xs -> number s y vy ty py ys ->
  (length ys <= length xs)%nat -> wp (and_ordered x y) (result s (Z.land (num xs) (num ys))) (ap_oom s) s.
Proof.
  intros Hs Hx Hy Hle. pose proof (number_pos _ _ _ _ _ _ Hx) as (Hxl & Hxi & Hxb & Hxp). pose proof (number_pos _ _ _ _ _ _ Hy) as (Hyl & Hyi & Hyb & Hyp).
  pose proof Hx as (_ & Htx & Hdx). pose proof Hy as (_ & Hty & Hdy). unfold INT_MAX in *.
  unfold and_ordered. wps. eapply wp_num_of; [done|]. wps. rewrite (dn_len _ _ _ _ _ Hdy). apply mk_spec; [done|words|words|].
  intros s1 z p s2 Hx1 Hini Hu _. rewrite Nat2Z.id in Hu. wps. apply wp_chk; [apply Hu|]. wps. eapply wp_num_of; [apply Hu|]. wps.
  pose proof (number_ext _ _ _ _ _ _ _ Hx1 Hx) as Hx2. pose proof (number_ext _ _ _ _ _ _ _ Hx1 Hy) as Hy2.
  destruct (number_ext _ _ _ _ _ _ _ (un_ext _ _ _ _ _ _ _ Hu) Hx2) as (_ & Htx2 & _). eapply wp_num_of; [exact Htx2|]. wps.
  destruct (number_apart _ _ _ _ _ _ _ _ _ _ _ _ Hx2 Hu) as [Hxd Hxa]. destruct (number_apart _ _ _ _ _ _ _ _ _ _ _ _ Hy2 Hu) as [Hyd Hya].
  pose proof (under_target _ _ _ _ _ _ _ Hu) as Htg. rewrite length_replicate in *. simpl. apply wp_on_dig.
  eapply wp_conseq; [eapply (and_spec _ _ _ _ Htg _ px (take (length ys) xs) _ py ys); [apply operand_take; [exact Hxd|lia|lia]|]|].
  { pose proof (operand_take _ _ _ _ p (length ys) Hyd ltac:(lia) ltac:(lia)) as Ho. by rewrite firstn_all in Ho. }
  intros [] d Hw. destruct (under_wrote _ _ _ _ _ _ _ _ _ _ Hu Hw) as (zs & Hu2 & Hzl & Hz); [by rewrite length_replicate|].
  rewrite num_take in Hz by (done || lia). pose proof (num_bound _ Hyb) as Hyn. rewrite weight_pow2 in Hz, Hyn. rewrite land_low in Hz by lia.
  wps. eapply normalize_spec; [exact Hu2|by rewrite Hzl|]. intros j t' Hj Hu3. wps. eapply wp_upd; [apply Hu3|]. wps. unfold set_sign. simpl.
  pose proof (under_set _ _ _ _ _ _ _ 1 (Z.of_nat j) Hu3) as Hu4. pose proof (un_ext _ _ _ _ _ _ _ Hu4).
  split_and!; [|by etrans|apply Hu4|by eapply initialized_ext]. rewrite <- Hz, <- (Z.mul_1_l (num zs)). eapply under_done; [exact Hu4|done|by left].
Qed.

Lemma and_value s x y vx vy : ap_ok s -> is_num s x vx -> is_num s y vy ->
  wp (Cyc_AP_and x y) (result s (Z.land (Z.abs vx) (Z.abs vy))) (ap_oom s) s.
Proof.
  intros Hs (tx & px & xs & Hx)%number_of (ty & py & ys & Hy)%number_of. pose proof Hx as (Hx0 & Htx & Hdx). pose proof Hy as (Hy0 & Hty & Hdy).
  pose proof (number_pos _ _ _ _ _ _ Hx) as (_ & _ & _ & Hxp). pose proof (number_pos _ _ _ _ _ _ Hy) as (_ & _ & _ & Hyp).
  assert (Hxv : Z.abs vx = num xs) by (destruct (sign_cases _ _ _ _ _ Hdx); lia). assert (Hyv : Z.abs vy = num ys) by (destruct (sign_cases _ _ _ _ _ Hdy); lia).
  unfold Cyc_AP_and. wps. apply wp_chk; [done|]. wps. apply wp_chk; [done|]. wps. eapply wp_num_of; [done|]. wps. eapply wp_num_of; [done|].
  rewrite (dn_len _ _ _ _ _ Hdx), (dn_len _ _ _ _ _ Hdy), Hxv, Hyv. destruct (_ <? _) eqn:E1.
  - rewrite Z.land_comm. eapply and_ordered_spec; [done|done|done|lia].
  - eapply and_ordered_spec; [done|done|done|lia].
Qed.

(** ** Powers *)

(** The modulus of [Cyc_AP_pow], if there is one. *)
Definition modulus s (p : Z) (po : option Z) : Prop :=
  match po with None => p = 0 | Some v => is_num s p v /\ 2 <= v end.

Definition reduce (po : option Z) (v : Z) : Z := match po with None => v | Some p => Z.rem v p end.

(** A zero base gives zero, also to the power zero. *)
Definition power (a b : Z) : Z := if a =? 0 then 0 else a ^ b.

Lemma modulus_ext s s' p po : ext s s' -> modulus s p po -> modulus s' p po.
Proof. destruct po; [|done]. intros Hx [Hp ?]. split; [by eapply is_num_ext|done]. Qed.

(** The product of two numbers, reduced. *)
Lemma mul_reduced s x y p vx vy po : ap_ok s -> is_num s x vx -> is_num s y vy -> modulus s p po ->
  wp (if p =? 0 then Cyc_AP_mul x y else Cyc_mulmod x y p) (result s (reduce po (vx * vy))) (ap_oom s) s.
Proof.
  intros Hs Hx Hy Hp. destruct po as [vp|]; simpl in Hp; [|subst p; by apply mul_value].
  destruct Hp as [Hp Hvp]. rewrite (proj2 (Z.eqb_neq p 0)) by apply Hp. unfold Cyc_mulmod. eapply wp_then; [done|by apply mul_value|].
  intros r s2 Hs2 Hx2 _ Hr. eapply wp_last; [done|eapply mod_value; [done|exact Hr|by eapply is_num_ext|lia]|done].
Qed.

Lemma wp_modulus_checks s p po (Q : unit -> ap_mem H -> Prop) E msg : modulus s p po -> Q tt s ->
  wp (if p =? 0 then mret tt
      else tp ← num_of p; b0 ← is_digit_number p 0 200; b1 ← is_digit_number p 1 200;
           ap_assert ((sign tp =? 1) && negb b0 && negb b1) msg) Q E s.
Proof.
  intros Hp HQ. destruct po as [vp|]; simpl in Hp; [|by subst p]. destruct Hp as [Hp Hvp].
  destruct (number_of _ _ _ Hp) as (t & q & ds & Hn). pose proof (number_pos _ _ _ _ _ _ Hn) as (_ & _ & _ & Hpos). destruct Hn as (Hp0 & Ht & Hd).
  rewrite (proj2 (Z.eqb_neq p 0)) by done. wps. eapply wp_num_of; [done|]. wps. eapply wp_is_digit_number; [done|exact Hd|lia|]. wps.
  eapply wp_is_digit_number; [done|exact Hd|lia|]. apply wp_ap_assert; [|done]. destruct (sign_cases _ _ _ _ _ Hd) as [[-> ->]|(-> & -> & _)]; [|lia].
  destruct (num ds =? 0) eqn:E0, (num ds =? 1) eqn:E1; lia || done.
Qed.

Lemma pow_parity d l : Forall byte_ok (d :: l) -> (Z.land d 1 =? 0) = Z.even (num (d :: l)).
Proof.
  intros Hb. simpl. rewrite Z.even_add, Z.even_mul. simpl. replace (Z.land d 1) with (d mod 2) by (change 1 with (Z.ones 1); by rewrite Z.land_ones).
  rewrite Zmod_even. by destruct (Z.even d).
Qed.

Lemma unit_power v b : v = 1 \/ v = -1 -> 0 <= b -> v ^ b = if Z.even b then 1 else v.
Proof.
  intros [-> | ->] Hb; [rewrite Z.pow_1_l by done; by destruct (Z.even b)|]. destruct (Z.even b) eqn:Eb.
  - apply Z.even_spec in Eb as [c ->]. rewrite Z.pow_mul_r by lia. apply Z.pow_1_l. lia.
  - rewrite <- Z.negb_odd in Eb. apply negb_false_iff, Z.odd_spec in Eb as [c ->]. rewrite Z.pow_add_r, Z.pow_mul_r by lia.
    change ((-1) ^ 2) with 1. rewrite Z.pow_1_l by lia. done.
Qed.

Lemma reduce_mul po a b : match po with Some p => 2 <= p | None => True end ->
  reduce po (reduce po a * reduce po b) = reduce po (a * b).
Proof. destruct po as [p|]; simpl; [|done]. intros Hp. by rewrite <- Z.mul_rem by lia. Qed.

Lemma reduce_unit po v : match po with Some p => 2 <= p | None => True end -> -1 <= v <= 1 -> reduce po v = v.
Proof.
  destruct po as [p|]; simpl; [|done]. intros Hp Hv. assert (v = 0 \/ v = 1 \/ v = -1) as [->|[->| ->]] by lia; [apply Z.rem_0_l; lia|by apply Z.rem_small; lia|].
  change (-1) with (- (1)). rewrite Z.rem_opp_l by lia. by rewrite Z.rem_small by lia.
Qed.

(** [x] itself, reduced. *)
Lemma copy_reduced s x p vx po : ap_ok s -> is_num s x vx -> modulus s p po ->
  wp (if p =? 0 then Cyc_AP_addi x 0 else Cyc_AP_mod x p) (result s (reduce po vx)) (ap_oom s) s.
Proof.
  intros Hs Hx Hp. destruct po as [vp|]; simpl in Hp.
  - destruct Hp as [Hp Hvp]. rewrite (proj2 (Z.eqb_neq p 0)) by apply Hp. apply mod_value; [done|done|done|lia].
  - subst p. eapply wp_last; [done|apply addi_value; [done|done|lia]|simpl; lia].
Qed.

(** The last step of an odd power. *)
Lemma odd_step s x z p vx vz po : ap_ok s -> is_num s x vx -> is_num s z vz -> modulus s p po ->
  wp (if p =? 0 then Cyc_AP_mul x z else y2 ← Cyc_AP_mod x p; Cyc_mulmod y2 z p) (result s (reduce po (reduce po vx * vz))) (ap_oom s) s.
Proof.
  intros Hs Hx Hz Hp. destruct po as [vp|]; simpl in Hp; [|subst p; by apply mul_value].
  pose proof Hp as [Hp' Hvp]. rewrite (proj2 (Z.eqb_neq p 0)) by apply Hp'. eapply wp_then; [done|apply mod_value; [done|exact Hx|exact Hp'|lia]|].
  intros r s2 Hs2 Hx2 _ Hr. eapply wp_last; [done| |done].
  pose proof (mul_reduced s2 r z p _ vz (Some vp) Hs2 Hr (is_num_ext _ _ _ _ Hx2 Hz) (modulus_ext _ _ p (Some vp) Hx2 Hp)) as Hm.
  by rewrite (proj2 (Z.eqb_neq p 0)) in Hm by apply Hp'.
Qed.

Lemma modulus_ge s p po : modulus s p po -> match po with Some p => 2 <= p | None => True end.
Proof. destruct po; [|done]. by intros [_ ?]. Qed.

Lemma pow_rec_value fuel : forall s x y p vx vy po ty py ys, ap_ok s -> is_num s x vx -> number s y vy ty py ys ->
  8 * Z.of_nat (length ys) < 2147483648 -> 0 <= vy < 2 ^ Z.of_nat fuel -> (0 < fuel)%nat -> modulus s p po ->
  wp (pow_rec fuel x y p) (result s (reduce po (power vx vy))) (ap_oom s) s.
Proof.
  induction fuel as [|fuel IH]; [lia|]. intros s x y p vx vy po ty py ys Hs Hx Hny Hsh Hvy _ Hp.
  pose proof (number_pos _ _ _ _ _ _ Hny) as (Hyl & _ & Hyb & Hyp). pose proof Hny as (Hy0 & Hty & Hdy).
  destruct (number_of _ _ _ Hx) as (tx & px & xs & Hnx). pose proof (number_pos _ _ _ _ _ _ Hnx) as (_ & _ & _ & Hxp). destruct Hnx as (Hx0 & Htx & Hdx).
  pose proof (modulus_ge _ _ _ Hp) as Hge. destruct (sign_cases _ _ _ _ _ Hdy) as [[Hsy Hyv]|(_ & ? & ?)]; [|lia].
  cbn [pow_rec]. wps. apply wp_ap_assert; [lia|]. wps. apply wp_ap_assert; [lia|]. wps. eapply wp_num_of; [done|]. wps. apply wp_ap_assert; [lia|].
  wps. eapply wp_modulus_checks; [exact Hp|]. wps. eapply wp_is_digit_number; [done|exact Hdx|lia|]. destruct (num xs =? 0) eqn:Ex0.
  { eapply wp_last; [done|by apply new_spec|]. unfold power. replace vx with 0 by (destruct (sign_cases _ _ _ _ _ Hdx); lia). by rewrite reduce_unit by (done || lia). }
  assert (Hvx : vx <> 0) by (destruct (sign_cases _ _ _ _ _ Hdx); lia). unfold power. rewrite (proj2 (Z.eqb_neq vx 0)) by done.
  wps. eapply wp_is_digit_number; [done|exact Hdy|lia|]. destruct (num ys =? 0) eqn:Ey0.
  { eapply wp_last; [done|by apply new_spec|]. replace vy with 0 by lia. by rewrite reduce_unit by (done || simpl; lia). }
  wps. eapply wp_is_digit_number; [done|exact Hdx|lia|]. destruct ys as [|d ys']; [simpl in Hyl; lia|]. set (ys := d :: ys') in *.
  assert (Hpar : (Z.land d 1 =? 0) = Z.even vy) by (rewrite Hyv; by apply pow_parity).
  destruct (num xs =? 1) eqn:Ex1.
  { wps. eapply (wp_ap_digit ty py ys y 0); [done|apply Hdy|done|]. wps. eapply wp_num_of; [done|]. rewrite Hpar.
    assert (Hu : vx = sign tx /\ (sign tx = 1 \/ sign tx = -1)) by (destruct (sign_cases _ _ _ _ _ Hdx); lia). destruct Hu as [Hu1 Hu2].
    eapply wp_last; [done|apply new_spec; [done|destruct (Z.even vy); lia]|]. rewrite Hu1, unit_power by (done || lia).
    rewrite reduce_unit by (done || destruct (Z.even vy); lia). done. }
  wps. eapply wp_is_digit_number; [done|exact Hdy|lia|]. destruct (num ys =? 1) eqn:Ey1.
  { eapply wp_last; [done|by eapply copy_reduced|]. replace vy with 1 by lia. by rewrite Z.pow_1_r. }
  eapply wp_then; [done|by eapply (rshift_value s y vy 1)|]. intros y2 s2 Hs2 Hxt2 _ Hy2.
  rewrite Z.quot_div_nonneg in Hy2 by (simpl; lia). change (2 ^ 1) with 2 in Hy2. set (h := vy / 2) in *.
  assert (Hh : 1 <= h < 2 ^ Z.of_nat fuel /\ h <= vy).
  { rewrite Nat2Z.inj_succ, Z.pow_succ_r in Hvy by lia. unfold h. split; [split|]; [apply Z.div_le_lower_bound; lia|apply Z.div_lt_upper_bound; lia|words]. }
  destruct (number_of _ _ _ Hy2) as (t2 & p2 & l2 & Hn2). pose proof (number_ext _ _ _ _ _ _ _ Hxt2 Hny) as Hny2.
  assert (Hl2 : (length l2 <= length ys)%nat).
  { destruct (decide (length ys < length l2)%nat) as [Hlt|]; [|lia]. pose proof (longer_larger _ _ _ _ _ _ _ _ _ _ _ _ Hny2 Hn2 Hlt).
    destruct Hn2 as (_ & _ & Hd2). destruct (sign_cases _ _ _ _ _ Hd2); lia. }
  eapply wp_then; [done|eapply (IH s2 x y2 p vx h); [done|by eapply is_num_ext|exact Hn2|lia|lia| |by eapply modulus_ext]|].
  { destruct fuel; [simpl in Hh; lia|lia]. }
  intros t s3 Hs3 Hxt3 _ Ht. eapply wp_then; [done|eapply mul_reduced; [done|exact Ht|exact Ht|by eapply modulus_ext]|].
  intros z s4 Hs4 Hxt4 Hini4 Hz. rewrite reduce_mul in Hz by done. unfold power in Hz. rewrite (proj2 (Z.eqb_neq vx 0)) in Hz by done.
  rewrite <- Z.pow_add_r in Hz by lia.
  destruct (number_ext _ _ _ _ _ _ _ Hxt4 Hny) as (_ & Hty4 & Hdy4). wps. eapply (wp_ap_digit ty py ys y 0); [done|apply Hdy4|done|]. rewrite Hpar.
  pose proof (Z.div_mod vy 2 ltac:(lia)) as Hdm. fold h in Hdm. rewrite Zmod_even in Hdm. destruct (Z.even vy) eqn:Ev.
  - wps. split_and!; [|done|apply Hs4|done]. by replace vy with (h + h) by lia.
  - eapply wp_last; [done|eapply odd_step; [done|by eapply is_num_ext|exact Hz|by eapply modulus_ext]|]. rewrite reduce_mul by done.
    replace vy with (1 + (h + h)) by lia. by rewrite (Z.pow_add_r vx 1), Z.pow_1_r by lia.
Qed.

Lemma pow_value s x y p vx vy po ty py ys : ap_ok s -> is_num s x vx -> number s y vy ty py ys -> 0 <= vy ->
  8 * Z.of_nat (length ys) < 2147483648 -> modulus s p po ->
  wp (Cyc_AP_pow x y p) (result s (reduce po (power vx vy))) (ap_oom s) s.
Proof.
  intros Hs Hx Hy Hvy Hsh Hp. pose proof (number_pos _ _ _ _ _ _ Hy) as (_ & _ & Hyb & Hyp). pose proof Hy as (_ & Hty & Hdy).
  unfold Cyc_AP_pow. wps. rewrite Hty, (dn_len _ _ _ _ _ Hdy). eapply pow_rec_value; [done|done|exact Hy|done| |lia|done]. split; [done|].
  pose proof (num_bound _ Hyb) as Hn. rewrite weight_pow2 in Hn. rewrite Nat2Z.inj_succ, Z2Nat.id, Z.pow_succ_r by lia.
  destruct (sign_cases _ _ _ _ _ Hdy); lia.
Qed.

(** ** The number of digits *)

(** The digits of [v] can be counted in bits. *)
Definition short (v : Z) : Prop := Z.log2 (Z.abs v) < 2147483640.

Lemma digits_log2 s x v t p ds : number s x v t p ds -> 8 * Z.of_nat (length ds) <= Z.log2 (Z.abs v) + 8.
Proof.
  intros Hn. pose proof (number_pos _ _ _ _ _ _ Hn) as (Hl & _ & Hb & Hpos). destruct Hn as (_ & _ & Hd).
  pose proof (Z.log2_nonneg (Z.abs v)). destruct (decide (length ds = 1)%nat) as [->|H1]; [lia|].
  pose proof (significant_lower ds _ Hb (dn_sig _ _ _ _ _ Hd) ltac:(lia)) as Hlow. rewrite weight_pow2 in Hlow.
  assert (Habs : Z.abs v = num ds) by (destruct (sign_cases _ _ _ _ _ Hd); lia). rewrite Habs.
  apply Z.log2_le_pow2 in Hlow; [lia|]. pose proof (Z.pow_pos_nonneg 2 (8 * Z.of_nat (length ds - 1)) ltac:(lia) ltac:(lia)). lia.
Qed.

Lemma short_digits s x v t p ds : number s x v t p ds -> short v -> 8 * Z.of_nat (length ds) < 2147483648.
Proof. intros Hn Hv. pose proof (digits_log2 _ _ _ _ _ _ Hn). unfold short in Hv. lia. Qed.
End pow.
