(* ===== verification/APRefine.v ===== *)
(** * Programs on numbers compute with integers

    A program names its numbers by their position in a pool; every operation
    that makes a number adds it to the pool, the others give an answer.  The
    abstract program works on integers.  Running the code either runs out of
    memory or leaves numbers that denote the integers of the abstract program,
    with the same answers. *)

From S2P Require Import Prelude RwLock Alloc Region RegionSafety Words FatPtr ZeroTerm CycBytes ByteMem CycXP XPSpec XPMul XPDivSpec XPBits CycAP APSpec APArith APDiv APPow.

Inductive binary : Type := BAdd | BSub | BMul | BDiv | BMod | BAnd.
Inductive unary : Type :=
  | UNeg | UAbs | ULshift (n : Z) | URshift (n : Z) | UAddi (n : Z) | USubi (n : Z) | UMuli (n : Z) | UDivi (n : Z).
Inductive query : Type := QToint | QModi (n : Z) | QCmpi (n : Z).

Inductive aop : Type :=
  | ANew (n : Z)
  | ABin (o : binary) (i j : nat)
  | AUn (o : unary) (i : nat)
  | ACmp (i j : nat)
  | AAsk (q : query) (i : nat).

(** ** Integers *)

Definition long_ok (n : Z) : bool := (-2147483648 <=? n) && (n <? 2147483648).
Definition shift_ok (v n : Z) : bool := (0 <=? n) && (n <=? 2147483640) && (Z.log2 (Z.abs v) <? 2147483640).

Definition spec_bin (o : binary) (a b : Z) : option Z :=
  match o with
  | BAdd => Some (a + b)
  | BSub => Some (a - b)
  | BMul => Some (a * b)
  | BDiv => if b =? 0 then None else Some (Z.quot a b)
  | BMod => if b =? 0 then None else Some (Z.rem a b)
  | BAnd => Some (Z.land (Z.abs a) (Z.abs b))
  end.

Definition spec_un (o : unary) (a : Z) : option Z :=
  match o with
  | UNeg => Some (- a)
  | UAbs => Some (Z.abs a)
  | ULshift n => if shift_ok a n then Some (a * 2 ^ n) else None
  | URshift n => if shift_ok a n then Some (Z.quot a (2 ^ n)) else None
  | UAddi n => if long_ok n then Some (a + n) else None
  | USubi n => if long_ok n then Some (a - n) else None
  | UMuli n => if long_ok n then Some (a * n) else None
  | UDivi n => if long_ok n && negb (n =? 0) then Some (Z.quot a n) else None
  end.

(** [Cyc_AP_toint] keeps the low 31 bits of the magnitude; [Cyc_AP_modi] loses
    the sign of the remainder. *)
Definition spec_ask (q : query) (a : Z) : option Z :=
  match q with
  | QToint => Some (Z.sgn a * (Z.abs a mod 2147483648))
  | QModi n => if long_ok n && negb (n =? 0) then Some (Z.abs (Z.rem a n)) else None
  | QCmpi n => if long_ok n then Some (Z.sgn (a - n)) else None
  end.

Definition spec_op (o : aop) (vs : list Z) : option (list Z * list Z) :=
  match o with
  | ANew n => if long_ok n then Some (vs ++ [n], []) else None
  | ABin o i j => a ← vs !! i; b ← vs !! j; v ← spec_bin o a b; Some (vs ++ [v], [])
  | AUn o i => a ← vs !! i; v ← spec_un o a; Some (vs ++ [v], [])
  | ACmp i j => a ← vs !! i; b ← vs !! j; Some (vs, [Z.sgn (a - b)])
  | AAsk q i => a ← vs !! i; r ← spec_ask q a; Some (vs, [r])
  end.

Fixpoint spec_ops (os : list aop) (vs : list Z) : option (list Z * list Z) :=
  match os with
  | [] => Some (vs, [])
  | o :: os => '(vs, r) ← spec_op o vs; '(vs, l) ← spec_ops os vs; Some (vs, r ++ l)
  end.

(** ** The code *)

Section run.
Context {H : Type} `{HH : Heap H}.
Abbreviation M := (ST (ap_mem H)).

Definition run_bin (o : binary) : Z -> Z -> M Z :=
  match o with
  | BAdd => Cyc_AP_add | BSub => Cyc_AP_sub | BMul => Cyc_AP_mul | BDiv => Cyc_AP_div | BMod => Cyc_AP_mod | BAnd => Cyc_AP_and
  end.

Definition run_un (o : unary) (x : Z) : M Z :=
  match o with
  | UNeg => Cyc_AP_neg x | UAbs => Cyc_AP_abs x | ULshift n => Cyc_AP_lshift x n | URshift n => Cyc_AP_rshift x n
  | UAddi n => Cyc_AP_addi x n | USubi n => Cyc_AP_subi x n | UMuli n => Cyc_AP_muli x n | UDivi n => Cyc_AP_divi x n
  end.

(** A comparison answers with the sign of the result. *)
Definition run_ask (q : query) (x : Z) : M Z :=
  match q with
  | QToint => Cyc_AP_toint x | QModi n => Cyc_AP_modi x n | QCmpi n => c ← Cyc_AP_cmpi x n; mret (Z.sgn c)
  end.

Definition nth_num (pool : list Z) (i : nat) : M Z := match pool !! i with Some x => mret x | None => lift Undef end.

Definition run_op (o : aop) (pool : list Z) : M (list Z * list Z) :=
  match o with
  | ANew n => z ← Cyc_AP_new n; mret (pool ++ [z], [])
  | ABin o i j => x ← nth_num pool i; y ← nth_num pool j; z ← run_bin o x y; mret (pool ++ [z], [])
  | AUn o i => x ← nth_num pool i; z ← run_un o x; mret (pool ++ [z], [])
  | ACmp i j => x ← nth_num pool i; y ← nth_num pool j; c ← Cyc_AP_cmp x y; mret (pool, [Z.sgn c])
  | AAsk q i => x ← nth_num pool i; r ← run_ask q x; mret (pool, [r])
  end.

Fixpoint run_ops (os : list aop) (pool : list Z) : M (list Z * list Z) :=
  match os with
  | [] => mret (pool, [])
  | o :: os => '(pool, r) ← run_op o pool; '(pool, l) ← run_ops os pool; mret (pool, r ++ l)
  end.
End run.

(** ** Refinement *)

Section refine.
Context {H : Type} `{HH : Heap H} `{!HeapLaws H}.
Implicit Types (s : ap_mem H).

Lemma long_ok_true n : long_ok n = true -> -2147483648 <= n < 2147483648.
Proof. unfold long_ok. intros [?%Z.leb_le ?%Z.ltb_lt]%andb_true_iff. lia. Qed.

Lemma shift_ok_true v n : shift_ok v n = true -> 0 <= n <= 2147483640 /\ short v.
Proof. unfold shift_ok, short. intros [[?%Z.leb_le ?%Z.leb_le]%andb_true_iff ?%Z.ltb_lt]%andb_true_iff. lia. Qed.

(** The pool denotes the integers. *)
Abbreviation denote s pool vs := (Forall2 (is_num s) pool vs).

Lemma denote_ext s s' pool vs : ext s s' -> denote s pool vs -> denote s' pool vs.
Proof. intros Hx Hd. eapply Forall2_impl; [exact Hd|]. intros x v. by apply is_num_ext. Qed.

Lemma wp_nth_num s pool vs i v (Q : Z -> ap_mem H -> Prop) E : denote s pool vs -> vs !! i = Some v ->
  (forall x, is_num s x v -> Q x s) -> wp (nth_num pool i) Q E s.
Proof.
  intros Hd Hv HQ. destruct (Forall2_lookup_r _ _ _ _ _ Hd Hv) as (x & Hx & Hn). unfold nth_num. rewrite Hx. by apply wp_ret, HQ.
Qed.

Lemma run_bin_spec o s x y a b v : ap_ok s -> is_num s x a -> is_num s y b -> spec_bin o a b = Some v ->
  wp (run_bin o x y) (result s v) (ap_oom s) s.
Proof.
  intros Hs Hx Hy Hv. destruct o; simpl in Hv |- *; [| | |destruct (b =? 0) eqn:Eb|destruct (b =? 0) eqn:Eb|]; simplify_eq.
  - by apply add_value.
  - by apply sub_value.
  - by apply mul_value.
  - apply div_value; [done..|lia].
  - apply mod_value; [done..|lia].
  - by apply and_value.
Qed.

Lemma run_un_spec o s x a v : ap_ok s -> is_num s x a -> spec_un o a = Some v -> wp (run_un o x) (result s v) (ap_oom s) s.
Proof.
  intros Hs Hx Hv. destruct o as [| |n|n|n|n|n|n]; simpl in Hv |- *; [| |
    destruct (shift_ok a n) eqn:Es|destruct (shift_ok a n) eqn:Es|destruct (long_ok n) eqn:El|destruct (long_ok n) eqn:El|destruct (long_ok n) eqn:El|
    destruct (long_ok n && negb (n =? 0)) eqn:El]; simplify_eq.
  - by apply neg_value.
  - by apply abs_value.
  - apply shift_ok_true in Es as [Hn Hsh]. destruct (number_of _ _ _ Hx) as (t & p & ds & Hnum).
    pose proof (short_digits _ _ _ _ _ _ Hnum Hsh). eapply lshift_value; [done|exact Hnum|done|]. words.
  - apply shift_ok_true in Es as [Hn Hsh]. destruct (number_of _ _ _ Hx) as (t & p & ds & Hnum).
    pose proof (short_digits _ _ _ _ _ _ Hnum Hsh). by eapply rshift_value; [done|exact Hnum|lia|].
  - apply addi_value; [done|done|by apply long_ok_true].
  - apply subi_value; [done|done|by apply long_ok_true].
  - apply muli_value; [done|done|by apply long_ok_true].
  - apply andb_true_iff in El as [El En]. apply divi_value; [done|done|by apply long_ok_true|lia].
Qed.

Lemma run_ask_spec q s x a r : ap_ok s -> is_num s x a -> spec_ask q a = Some r ->
  wp (run_ask q x) (fun r' s' => r' = r /\ ext s s' /\ ap_ok s') (ap_oom s) s.
Proof.
  intros Hs Hx Hr. destruct q as [|n|n]; simpl in Hr |- *.
  - injection Hr as <-. by eapply toint_value.
  - destruct (long_ok n && negb (n =? 0)) eqn:El; simplify_eq. apply andb_true_iff in El as [El En].
    eapply modi_value; [done|done|by apply long_ok_true|lia|]. done.
  - destruct (long_ok n) eqn:El; simplify_eq. wps. eapply cmpi_value; [done|done|by apply long_ok_true|]. intros c s' Hc Hx' Hs'. wps. done.
Qed.

Lemma run_op_spec o s pool vs vs' l : ap_ok s -> denote s pool vs -> spec_op o vs = Some (vs', l) ->
  wp (run_op o pool) (fun r s' => r.2 = l /\ denote s' r.1 vs' /\ ext s s' /\ ap_ok s') (ap_oom s) s.
Proof.
  intros Hs Hd Ho.
  assert (Hnew : forall c v, wp c (result s v) (ap_oom s) s ->
    wp (z ← c; mret (pool ++ [z], [] : list Z)) (fun r s' => r.2 = [] /\ denote s' r.1 (vs ++ [v]) /\ ext s s' /\ ap_ok s') (ap_oom s) s).
  { intros c v Hc. eapply wp_then; [done|exact Hc|]. intros z s2 Hs2 Hx2 _ Hz. wps. split_and!; [done| |done|done].
    apply Forall2_app; [by eapply denote_ext|by constructor]. }
  destruct o as [n|o i j|o i|i j|q i]; simpl in Ho |- *.
  - destruct (long_ok n) eqn:El; simplify_eq. by apply Hnew, new_spec, long_ok_true.
  - destruct (vs !! i) as [a|] eqn:Ea; [|done]. destruct (vs !! j) as [b|] eqn:Eb; [|done]. simpl in Ho.
    destruct (spec_bin o a b) as [v|] eqn:Ev; simplify_eq/=. wps. eapply wp_nth_num; [done|exact Ea|]. intros x Hx.
    wps. eapply wp_nth_num; [done|exact Eb|]. intros y Hy. by eapply Hnew, run_bin_spec.
  - destruct (vs !! i) as [a|] eqn:Ea; [|done]. simpl in Ho.
    destruct (spec_un o a) as [v|] eqn:Ev; simplify_eq/=. wps. eapply wp_nth_num; [done|exact Ea|]. intros x Hx. by eapply Hnew, run_un_spec.
  - destruct (vs !! i) as [a|] eqn:Ea; [|done]. destruct (vs !! j) as [b|] eqn:Eb; simplify_eq/=.
    wps. eapply wp_nth_num; [done|exact Ea|]. intros x Hx. wps. eapply wp_nth_num; [done|exact Eb|]. intros y Hy. wps.
    eapply cmp_value; [done|done|]. intros c Hc. wps. simpl. by rewrite Hc.
  - destruct (vs !! i) as [a|] eqn:Ea; [|done]. simpl in Ho. destruct (spec_ask q a) as [r|] eqn:Er; simplify_eq/=.
    wps. eapply wp_nth_num; [done|exact Ea|]. intros x Hx. wps. eapply wp_conseq; [by eapply run_ask_spec|].
    intros r' s' (-> & Hx' & Hs'). wps. split_and!; [done|by eapply denote_ext|done|done].
Qed.

Lemma run_ops_spec os s pool vs vs' l : ap_ok s -> denote s pool vs -> spec_ops os vs = Some (vs', l) ->
  wp (run_ops os pool) (fun r s' => r.2 = l /\ denote s' r.1 vs' /\ ext s s' /\ ap_ok s') (ap_oom s) s.
Proof.
  revert s pool vs l. induction os as [|o os IH]; intros s pool vs l Hs Hd Ho; simpl in Ho |- *.
  { simplify_eq. wps. done. }
  destruct (spec_op o vs) as [[vs1 r]|] eqn:E1; [|done]. simpl in Ho. destruct (spec_ops os vs1) as [[vs2 l2]|] eqn:E2; simplify_eq/=.
  wps. eapply wp_conseq; [by eapply run_op_spec|]. intros [pool1 r1] s1 (<- & Hd1 & Hx1 & Hs1). simpl in Hd1. wps.
  apply (wp_oom _ _ _ s1); [done|]. eapply wp_conseq; [by eapply IH|]. intros [pool2 l3] s2 (<- & Hd2 & Hx2 & Hs2). wps. simpl.
  split_and!; [done|done|by etrans|done].
Qed.

(** C16. Arbitrary-precision arithmetic refines the integers.  A program of
    additions, subtractions, multiplications, divisions and remainders (truncated),
    negations, shifts, conjunctions of magnitudes, operations with machine integers,
    comparisons and conversions, run on numbers of any size, either runs out of
    memory with [Cyc_Bad_alloc] and the earlier numbers intact, or ends with a
    pool of well-formed numbers that denote exactly the integers of the abstract
    program, and with its answers. *)
Theorem ap_programs_refine os s pool vs vs' l : ap_ok s -> Forall2 (is_num s) pool vs -> spec_ops os vs = Some (vs', l) ->
  wp (run_ops os pool) (fun r s' => r.2 = l /\ Forall2 (is_num s') r.1 vs' /\ ap_ok s') (ap_oom s) s.
Proof.
  intros Hs Hd Ho. eapply wp_conseq; [by eapply run_ops_spec|]. intros r s' (? & ? & _ & ?). done.
Qed.

(** C20. Euclid's algorithm ends: [Cyc_AP_gcd] returns a number whose magnitude is
    the greatest common divisor, for any two numbers, and unless both are zero
    [Cyc_AP_lcm] one whose magnitude is the least common multiple; or memory runs
    out. *)
Theorem ap_divisors_exact s x y vx vy : ap_ok s -> is_num s x vx -> is_num s y vy ->
  wp (Cyc_AP_gcd x y) (fun r s' => exists g, Z.abs g = Z.gcd vx vy /\ result s g r s') (ap_oom s) s /\
  (vx <> 0 \/ vy <> 0 -> wp (Cyc_AP_lcm x y) (fun r s' => exists l, Z.abs l = Z.lcm vx vy /\ result s l r s') (ap_oom s) s).
Proof. intros Hs Hx Hy. split; [by apply gcd_value|]. by apply lcm_value. Qed.

(** Repeated squaring is exact: for a non-negative exponent whose bits can be
    counted in an int, [Cyc_AP_pow] returns the power of the base, reduced (as a
    truncated remainder) by the modulus if one is given that is at least 2; except
    that a zero base gives zero for every exponent. *)
Theorem ap_pow_exact s x y p vx vy po : ap_ok s -> is_num s x vx -> is_num s y vy -> 0 <= vy -> short vy -> modulus s p po ->
  wp (Cyc_AP_pow x y p) (result s (reduce po (if vx =? 0 then 0 else vx ^ vy))) (ap_oom s) s.
Proof.
  intros Hs Hx (t & q & ds & Hy)%number_of Hvy Hsh Hp. eapply pow_value; [done|done|exact Hy|done|by eapply short_digits|done].
Qed.
End refine.

(** Before any number is made. *)
Definition ex_ap : ap_mem bump := mk_ap_mem ∅ ∅ ex_mem 0 0 0.

Lemma ex_ap_ok : ap_ok ex_ap.
Proof. split; [|by left]. split; simpl; [apply empty_bump_ok|by intros z [? Hz]|by intros a [? Ha]]. Qed.

(** The square of (10^5)^4, its quotient and remainder by a multiple of 997, and
    more. *)
Definition ex_aops : list aop :=
  [ANew 100000; ABin BMul 0 0; ABin BMul 1 1; ABin BMul 2 2; ANew (-997); AUn (UAddi (-1)) 3; ABin BDiv 5 4; ABin BMod 5 4;
   ABin BSub 7 6; AUn UNeg 6; ACmp 6 9; AUn (URshift 40) 3; AUn (ULshift 41) 10; ACmp 11 3; ABin BAnd 5 10; AAsk QToint 7; AAsk (QModi 10) 5].

Lemma ap_programs_refine_witness : exists pool s',
  run_ops ex_aops [] ex_ap = (Ret (pool, [-1; 1; 202; 9]), s') /\
  Forall2 (is_num s') pool [100000; 10 ^ 10; 10 ^ 20; 10 ^ 40; -997; 10 ^ 40 - 1; -10030090270812437311935807422266800401; 202;
    10030090270812437311935807422266800603; 10030090270812437311935807422266800401; 9094947017729282379150390625; 2 * 10 ^ 40;
    8704462497496033117104371041].
Proof.
  pose proof (ap_programs_refine ex_aops ex_ap [] [] _ _ ex_ap_ok ltac:(constructor) ltac:(vm_compute; reflexivity)) as Hw.
  assert (Hr : exists pool s', run_ops ex_aops [] ex_ap = (Ret (pool, [-1; 1; 202; 9]), s')).
  { eexists _, _. vm_compute. reflexivity. }
  destruct Hr as (pool & s' & Hr). exists pool, s'. split; [exact Hr|]. exact (proj1 (proj2 (wp_result _ _ _ _ _ _ Hw Hr))).
Defined.

(** A state with the numbers of a list of machine integers. *)
Definition made (ns : list Z) : list Z * ap_mem bump :=
  match run_ops (ANew <$> ns) [] ex_ap with (Ret (pool, _), s) => (pool, s) | (_, s) => ([], s) end.

Lemma made_ok ns pool s : made ns = (pool, s) -> length pool = length ns -> (0 < length ns)%nat -> forallb long_ok ns = true ->
  ap_ok s /\ Forall2 (is_num s) pool ns.
Proof.
  intros Hm Hl Hpos Hn. assert (Hspec : forall vs, spec_ops (ANew <$> ns) vs = Some (vs ++ ns, [])).
  { clear Hm Hl Hpos. induction ns as [|n ns IH]; intros vs; simpl; [by rewrite app_nil_r|]. simpl in Hn. apply andb_true_iff in Hn as [-> Hn].
    simpl. rewrite (IH Hn). simpl. by rewrite <- app_assoc. }
  pose proof (run_ops_spec (ANew <$> ns) ex_ap [] [] _ _ ex_ap_ok ltac:(constructor) (Hspec [])) as Hw. unfold made in Hm.
  destruct (wp_cases _ _ _ _ Hw) as [([pool1 l] & s1 & Hr & _ & Hd & _ & Hs)|(e & f & line & s1 & Hr & _)]; rewrite Hr in Hm; simplify_eq; [done|].
  simpl in Hl. lia.
Qed.

(** The numbers -48 and 36. *)
Definition ex_two : ap_mem bump := (made [-48; 36]).2.

Lemma ex_two_ok : ap_ok ex_two /\ is_num ex_two 4160 (-48) /\ is_num ex_two 4192 36.
Proof.
  destruct (made_ok [-48; 36] [4160; 4192] ex_two) as [Hs Hd]; [by vm_compute|done|simpl; lia|done|].
  inversion_clear Hd as [|? ? ? ? Hx Hd']. inversion_clear Hd' as [|? ? ? ? Hy _]. done.
Qed.

Lemma ap_divisors_exact_witness : exists r s', Cyc_AP_gcd 4160 4192 ex_two = (Ret r, s') /\ exists g, Z.abs g = 12 /\ is_num s' r g.
Proof.
  destruct ex_two_ok as (Hs & Hx & Hy). pose proof (proj1 (ap_divisors_exact ex_two 4160 4192 (-48) 36 Hs Hx Hy)) as Hw.
  assert (Hr : exists r s', Cyc_AP_gcd 4160 4192 ex_two = (Ret r, s')) by (eexists _, _; vm_compute; reflexivity).
  destruct Hr as (r & s' & Hr). exists r, s'. split; [exact Hr|]. destruct (wp_result _ _ _ _ _ _ Hw Hr) as (g & Hg & Hn & _). exists g. split; [exact Hg|exact Hn].
Defined.

Lemma ap_pow_exact_witness : exists r s', Cyc_AP_pow 4160 4192 0 ex_two = (Ret r, s') /\ is_num s' r (48 ^ 36).
Proof.
  destruct ex_two_ok as (Hs & Hx & Hy).
  pose proof (ap_pow_exact ex_two 4160 4192 0 (-48) 36 None Hs Hx Hy ltac:(lia) ltac:(by vm_compute) eq_refl) as Hw.
  assert (Hr : exists r s', Cyc_AP_pow 4160 4192 0 ex_two = (Ret r, s')) by (eexists _, _; vm_compute; reflexivity).
  destruct Hr as (r & s' & Hr). exists r, s'. split; [exact Hr|]. exact (proj1 (wp_result _ _ _ _ _ _ Hw Hr)).
Defined.

(** ** Lost digits *)

(** The result of an operation as a machine integer. *)
Definition answer (c : ST (ap_mem bump) Z) (s : ap_mem bump) : out Z := ((r ← c; Cyc_AP_toint r) s).1.

(** [Cyc_AP_or] and [Cyc_AP_xor] lose digits: the digits of the longer number
    above those of the shorter one are not copied, and a result of two equally
    long numbers keeps one digit. *)
Example or_loses_digits :
  answer (Cyc_AP_or 4160 4192) (made [257; 2]).2 = Ret 3 /\ Z.lor 257 2 = 259 /\
  answer (Cyc_AP_or 4160 4192) (made [257; 514]).2 = Ret 3 /\ Z.lor 257 514 = 771 /\
  answer (Cyc_AP_xor 4160 4192) (made [257; 2]).2 = Ret 3 /\ Z.lxor 257 2 = 259.
Proof. by vm_compute. Qed.

(** [Cyc_AP_modi] loses the sign that [Cyc_AP_mod] gives a remainder. *)
Example modi_loses_sign :
  answer (Cyc_AP_mod 4160 4192) (made [-7; 3]).2 = Ret (-1) /\ (Cyc_AP_modi 4160 3 (made [-7; 3]).2).1 = Ret 1.
Proof. by vm_compute. Qed.

(** The smallest machine integer does not survive the conversion to a number and
    back. *)
Example toint_long_min : answer (Cyc_AP_new (-2147483648)) ex_ap = Ret 0 /\ answer (Cyc_AP_new (-2147483647)) ex_ap = Ret (-2147483647).
Proof. by vm_compute. Qed.

(** Once the allocation of the static numbers has failed, they stay null: the
    flag that they are initialized is set first. *)
Definition ex_full_ap : ap_mem bump := mk_ap_mem ∅ ∅ (set_heap (mk_bump 4096 4120 ∅) ex_mem) 0 0 0.

Example failed_init_sticks : exists f l s', Cyc_AP_new 5 ex_full_ap = (Thrown Cyc_Bad_alloc f l, s') /\ ap_init s' = 1 /\ AP_zero s' = 0.
Proof. eexists _, _, _. vm_compute. split_and!; reflexivity. Qed.
