(* ===== verification/APString.v ===== *)
(** * Numerals of numbers

    [Cyc_AP_tostr] makes a new string with the sign and the numeral of a number
    in any base from 2 to 36; [Cyc_AP_fromstr] reads white space, a sign and a
    numeral. *)

From S2P Require Import Prelude RwLock Alloc Region RegionSafety Words FatPtr ZeroTerm CycBytes ByteMem CycXP XPSpec XPMul XPDivSpec XPString XPBits CycAP APSpec APArith APDiv APPow APRefine.

(** ** Bits of a digit *)

Lemma bits_down_spec b : 2 <= b <= 36 -> 1 <= bits_down b <= 5 /\ 2 ^ bits_down b <= b.
Proof. intros Hb. unfold bits_down. repeat case_match; simpl; lia. Qed.

Lemma bits_up_spec b : 2 <= b <= 36 -> 1 <= bits_up b <= 6 /\ b <= 2 ^ bits_up b.
Proof. intros Hb. unfold bits_up. repeat case_match; simpl; lia. Qed.

(** The string [cs] at [a]. *)
Definition text (m : bytes) (a : Z) (cs : list Z) : Prop :=
  holds m a (cs ++ [0]) /\ Forall (fun c => 0 < c < 128) cs /\ 0 < a /\ a + Z.of_nat (length cs) + 1 < 4294967296.

Section string.
Context {H : Type} `{HH : Heap H} `{!HeapLaws H}.
Implicit Types (s : ap_mem H).

(** ** Writing *)

(** [str[0] = '-'] in a string of more than one character. *)
Lemma put_minus_spec str a n (Q : unit -> ap_mem H -> Prop) E s : spans str a n -> 1 < n -> n <= 2147483647 -> is_Some (dig s !! a) ->
  Q tt (set_dig s (write a [45] (dig s))) -> wp (put_minus str) Q E s.
Proof.
  intros Hs Hn Hi Ha HQ. pose proof (spans_plus _ _ _ 0 Hs ltac:(lia) ltac:(lia)) as Hp. rewrite Z.add_0_r, Z.sub_0_r in Hp.
  unfold put_minus, ap_char. wps. rewrite (spans_check _ a n) by (done || lia). rewrite Z.add_0_r. wps.
  destruct Ha as [d Ha]. apply wp_on_dig. eapply wp_get_byte; [exact Ha|]. wps.
  pose proof (spans_size _ _ _ Hp ltac:(lia)). rewrite (proj2 (Z.eqb_neq (_get_fat_size _ 1) 1)) by lia. cbn [andb].
  rewrite (sp_curr _ _ _ Hp). apply wp_on_dig, wp_put_byte; [by eexists|]. exact HQ.
Qed.

(** The sign and the digits, into [n] zero bytes at [a], the digits [xs] at [q]
    being used up. *)
Lemma write_numeral t xs b a n q s (Q : fat_ptr -> ap_mem H -> Prop) E :
  let str := _tag_fat a 1 n in let x := _tag_fat q 1 (Z.of_nat (length xs)) in let neg := sign t =? -1 in
  digits_of (dig s) x q xs -> (0 < length xs)%nat -> Z.of_nat (length xs) < 2147483648 -> spans str a n -> room (dig s) a n ->
  disjoint q (Z.of_nat (length xs)) a n -> 3 <= n + (if neg then 0 else 1) -> n < 2147483648 -> 2 <= b <= 36 ->
  num xs < b ^ (n - (if neg then 2 else 1)) ->
  (forall f mm ds, kept (dig s) q (Z.of_nat (length xs)) a n mm -> Forall (fun d => 0 <= d < b) ds -> ds <> [] ->
     Z.of_nat (length ds) + (if neg then 1 else 0) < n ->
     numeral b (reverse ds) = num xs -> holds mm a ((if neg then [45] else []) ++ (chr <$> ds) ++ [0]) -> Q f (set_dig s mm)) ->
  wp (if neg then put_minus str;; on_dig (Cyc_XP_tostr (_fat_ptr_plus str 1 1) (n - 1) b (Z.of_nat (length xs)) x)
      else on_dig (Cyc_XP_tostr str n b (Z.of_nat (length xs)) x)) Q E s.
Proof.
  intros str x neg Hx Hl Hi Hs Hr Hd Hn Hni Hb Hfit HQ. destruct neg.
  - wps. eapply put_minus_spec; [exact Hs|lia|lia|apply Hr; lia|].
    set (m1 := write a [45] (dig s)). apply wp_on_dig. unfold disjoint in Hd.
    assert (Hx1 : digits_of m1 x q xs).
    { destruct Hx as (H1 & H2 & H3). split; [done|]. split; [|done]. apply holds_write; [done|]. simpl. unfold outside. lia. }
    pose proof (spans_plus _ _ _ 1 Hs ltac:(lia) ltac:(lia)) as Hs1.
    assert (Hr1 : room m1 (a + 1) (n - 1)) by (apply room_write; eapply room_sub; [exact Hr|lia|lia]).
    eapply wp_conseq; [apply (tostr_spec m1 _ x (a + 1) q (n - 1) b xs Hx1 Hl Hi Hs1 Hr1); [unfold disjoint; lia|lia|done|by replace (n - 1 - 1) with (n - 2) by lia]|].
    intros f mm (_ & ds & Hdl & Hds & Hdb & Hnum & Hh & Hk).
    apply (HQ f mm (reverse ds)); rewrite ?reverse_involutive, ?length_reverse; try done; try lia.
    + destruct Hk as [K1 K2]. assert (Hk0 : kept (dig s) q (Z.of_nat (length xs)) a n m1) by (apply kept_write; [apply kept_refl|simpl; lia]).
      destruct Hk0 as [K3 K4]. split; [intros c Hc; by apply K1, K3|]. intros c Hc1 Hc2. rewrite K2, K4; try done. unfold outside in *. lia.
    + by apply Forall_reverse.
    + intros He. apply (f_equal length) in He. rewrite length_reverse in He. simpl in He. lia.
    + apply holds_app. split; [|done]. eapply kept_holds; [exact Hk|apply write_in|simpl; lia|simpl; lia].
  - apply wp_on_dig. eapply wp_conseq; [apply (tostr_spec (dig s) str x a q n b xs Hx Hl Hi Hs Hr); [done|lia|done|done]|].
    intros f mm (_ & ds & Hdl & Hds & Hdb & Hnum & Hh & Hk).
    apply (HQ f mm (reverse ds)); rewrite ?reverse_involutive, ?length_reverse; try done; try lia.
    + by apply Forall_reverse.
    + intros He. apply (f_equal length) in He. rewrite length_reverse in He. simpl in He. lia.
Qed.

(** The numeral fits. *)
Lemma numeral_fits xs b : Forall byte_ok xs -> 2 <= b <= 36 -> num xs < b ^ (8 * Z.of_nat (length xs) / bits_down b + 1).
Proof.
  intros Hb Hr. destruct (bits_down_spec b Hr) as [Hk Hp]. pose proof (num_bound _ Hb) as Hn. rewrite weight_pow2 in Hn.
  set (N := 8 * Z.of_nat (length xs)) in *. set (k := bits_down b) in *. assert (0 <= N / k) by (apply Z.div_pos; lia).
  assert (2 ^ N <= 2 ^ (k * (N / k + 1))).
  { apply Z.pow_le_mono_r; [lia|]. pose proof (Z.div_mod N k ltac:(lia)). pose proof (Z.mod_pos_bound N k ltac:(lia)). lia. }
  rewrite Z.pow_mul_r in H1 by lia. assert ((2 ^ k) ^ (N / k + 1) <= b ^ (N / k + 1)) by (apply Z.pow_le_mono_l; lia). lia.
Qed.

(** Two new arrays are filled, nothing else changes. *)
Lemma filled_ext s s1 s2 a q (n k : nat) m3 mm : new_digits s a n s1 -> new_digits s1 q k s2 ->
  m3 = write q (replicate k 0) (dig s2) \/ (exists l, length l = k /\ m3 = write q l (dig s2)) ->
  kept m3 q (Z.of_nat k) a (Z.of_nat n) mm -> ap_ok s -> ext s (set_dig s2 mm) /\ ap_ok (set_dig s2 mm).
Proof.
  intros Hn1 Hn2 Hm3 Hk [Hi Hini]. assert (Hm : exists l, length l = k /\ m3 = write q l (dig s2)).
  { destruct Hm3 as [->|?]; [|done]. eexists. split; [|done]. apply length_replicate. }
  destruct Hm as (l & Hl & ->). clear Hm3. pose proof (new_digits_ext _ _ _ _ Hn1) as Hx1. pose proof (new_digits_ext _ _ _ _ Hn2) as Hx2.
  assert (Hx12 : ext s s2) by (by etrans). destruct Hk as [K1 K2].
  assert (Hx : ext s (set_dig s2 mm)).
  { destruct Hx12 as [X1 X2 X3 X4]. split; [done| |done|done]. simpl. apply map_subseteq_spec. intros c d Hc.
    assert (Ho1 : outside a (Z.of_nat n) c).
    { unfold outside. destruct (decide (a <= c < a + Z.of_nat n)) as [Hin|]; [|lia]. by rewrite (nd_free _ _ _ _ Hn1 c Hin) in Hc. }
    assert (Ho2 : outside q (Z.of_nat k) c).
    { unfold outside. destruct (decide (q <= c < q + Z.of_nat k)) as [Hin|]; [|lia]. pose proof (nd_free _ _ _ _ Hn2 c Hin) as Hnone.
      eapply lookup_weaken in Hc; [|apply Hx1]. by rewrite Hnone in Hc. }
    rewrite K2, write_out by (done || by rewrite Hl). by eapply lookup_weaken. }
  split; [done|]. split.
  - pose proof (nd_inv _ _ _ _ Hn2) as [I1 I2 I3]. split; [done|done|]. simpl. intros c Hc. apply I3.
    destruct (new_digits_target _ _ _ _ Hn2) as [_ R2]. destruct (new_digits_target _ _ _ _ Hn1) as [_ R1].
    destruct (decide (a <= c < a + Z.of_nat n)) as [Hin|H1].
    { destruct (R1 c Hin) as [d Hd]. exists d. eapply lookup_weaken; [exact Hd|apply Hx2]. }
    destruct (decide (q <= c < q + Z.of_nat k)) as [Hin|H2]; [by apply R2|].
    rewrite K2, write_out in Hc by (unfold outside; lia). done.
  - destruct Hini as [H0|Hini]; [left|right; by eapply initialized_ext]. simpl.
    destruct (nd_statics _ _ _ _ Hn1) as (_ & _ & E1), (nd_statics _ _ _ _ Hn2) as (_ & _ & E2). by rewrite E2, E1.
Qed.

Lemma tostr_value s x v t p xs b : ap_ok s -> number s x v t p xs -> 2 <= b <= 36 -> 8 * Z.of_nat (length xs) < 2147483648 ->
  wp (Cyc_AP_tostr x b) (fun a s' => ext s s' /\ ap_ok s' /\ exists ds, Forall (fun d => 0 <= d < b) ds /\ ds <> [] /\
    Z.of_nat (length ds) <= 8 * Z.of_nat (length xs) + 3 /\ numeral b (reverse ds) = Z.abs v /\ text (dig s') a ((if v <? 0 then [45] else []) ++ (chr <$> ds)))
    (ap_oom s) s.
Proof.
  intros Hs Hx Hb Hsh. pose proof (number_pos _ _ _ _ _ _ Hx) as (Hxl & Hxi & Hxb & Hxp). pose proof Hx as (Hx0 & Htx & Hdx).
  destruct (bits_down_spec b Hb) as [Hk _]. pose proof (numeral_fits xs b Hxb Hb) as Hfit.
  assert (Hneg : (sign t =? -1) = (v <? 0)) by (destruct (sign_cases _ _ _ _ _ Hdx) as [[-> ->]|(-> & -> & ?)]; lia).
  assert (Habs : Z.abs v = num xs) by (destruct (sign_cases _ _ _ _ _ Hdx); lia).
  unfold Cyc_AP_tostr. wps. apply wp_ap_assert; [lia|]. wps. apply wp_ap_assert; [apply andb_true_iff; lia|]. wps. eapply wp_num_of; [done|].
  rewrite (dn_len _ _ _ _ _ Hdx), i32_small, Z.quot_div_nonneg by lia. set (K := 8 * Z.of_nat (length xs) / bits_down b) in *.
  assert (HK : 0 <= K <= 8 * Z.of_nat (length xs)).
  { unfold K. split; [apply Z.div_pos; lia|]. apply Z.div_le_upper_bound; nia. }
  set (n := if sign t =? -1 then K + 1 + 1 + 1 else K + 1 + 1). assert (Hn : n = K + 2 + (if sign t =? -1 then 1 else 0)) by (unfold n; destruct (sign t =? -1); lia).
  assert (Hnb : 2 <= n < 2147483648) by (destruct (sign t =? -1); lia).
  wps. apply calloc_bytes_spec; [apply Hs|]. rewrite u32_small by lia. intros a s1 _ Hn1. wps. pose proof (new_digits_ext _ _ _ _ Hn1) as Hx1.
  apply (wp_oom _ _ _ s1); [done|]. apply malloc_bytes_spec; [apply Hn1|]. rewrite u32_small by lia. rewrite Nat2Z.id. intros q s2 Hn2. wps.
  pose proof (new_digits_ext _ _ _ _ Hn2) as Hx2.
  destruct (number_ext _ _ _ _ _ _ _ Hx1 Hx) as (_ & _ & Hdx1). destruct (denotes_sub _ _ _ _ _ _ (ext_dig _ _ Hx2) Hdx1) as [(Hd1 & Hd2 & Hd3) _ _ _ _ _].
  destruct (new_digits_target _ _ _ _ Hn2) as [Ht1 Ht2].
  pose proof (new_digits_apart _ _ _ _ _ _ Hn2 Hxl (proj1 (proj2 (dn_digits _ _ _ _ _ Hdx1))) Hxl) as Hap. unfold disjoint in Hap.
  apply wp_on_dig. eapply (memcpy_spec _ _ q p xs); [exact Ht1|exact Hd1|lia|lia|exact Ht2|exact Hd2|exact Hd3|].
  set (m3 := write q xs (dig s2)).
  destruct (new_digits_target _ _ _ _ Hn1) as [Hsa Hra]. rewrite Z2Nat.id in Hsa, Hra by lia.
  assert (Hqa : disjoint q (Z.of_nat (length xs)) a n).
  { assert (Hha : holds (dig s1) a (replicate (Z.to_nat n) 0)) by (rewrite (nd_dig _ _ _ _ Hn1); apply write_in).
    pose proof (new_digits_apart _ _ _ _ _ _ Hn2 Hxl Hha) as Hdj. rewrite length_replicate in Hdj. specialize (Hdj ltac:(lia)). unfold disjoint in *. lia. }
  wps. eapply (write_numeral t xs b a n q (set_dig s2 m3)); simpl.
  - split; [exact Ht1|]. split; [apply write_in|done].
  - done.
  - lia.
  - exact Hsa.
  - apply room_write. intros c Hc. destruct (Hra c Hc) as [d Hd]. exists d. eapply lookup_weaken; [exact Hd|apply Hx2].
  - exact Hqa.
  - destruct (sign t =? -1); lia.
  - lia.
  - done.
  - eapply Z.lt_le_trans; [exact Hfit|]. apply Z.eq_le_incl. f_equal. destruct (sign t =? -1); lia.
  - intros f mm ds Hkept Hds Hne Hdl Hnum Hh. wps. rewrite (spans_untag _ a n) by (done || lia). wps.
    change (set_dig (set_dig s2 m3) mm) with (set_dig s2 mm). replace n with (Z.of_nat (Z.to_nat n)) in Hkept by lia.
    destruct (filled_ext s s1 s2 a q _ _ m3 mm Hn1 Hn2) as [Hx4 Hs4]; [right; by exists xs|done|done|].
    split; [done|]. split; [done|]. exists ds. rewrite Hneg in *. split; [done|]. split; [done|].
    split; [destruct (v <? 0); lia|]. split; [lia|]. split; [by rewrite <- app_assoc|]. pose proof (sp_last _ _ _ Hsa). pose proof (sp_end _ _ _ Hsa). pose proof (sp_pos _ _ _ Hsa).
    split_and!; [|done|].
    + apply Forall_app_2; [destruct (v <? 0); [apply Forall_singleton; lia|constructor]|]. apply Forall_fmap. eapply Forall_impl; [exact Hds|].
      intros d Hd. destruct (chr_facts d) as (_ & Hc & _); [simpl in Hd; lia|exact Hc].
    + rewrite length_app, length_fmap, Nat2Z.inj_add. destruct (v <? 0); simpl length; lia.
Qed.

(** ** Reading *)

Lemma text_suffix m a l1 l2 : text m a (l1 ++ l2) -> text m (a + Z.of_nat (length l1)) l2.
Proof.
  intros (Hh & Hc & Ha & He). rewrite <- app_assoc in Hh. apply holds_app in Hh as [_ Hh]. apply Forall_app in Hc as [_ Hc].
  rewrite length_app in He. split; [done|]. split; [done|]. lia.
Qed.

Lemma text_ext s s' a cs : ext s s' -> text (dig s) a cs -> text (dig s') a cs.
Proof. intros Hx (Hh & Hc). split; [eapply holds_sub_map; [apply Hx|done]|done]. Qed.

Lemma text_size m a cs : text m a cs -> (length cs < size m)%nat.
Proof.
  intros (Hh & _). apply holds_room, room_size in Hh. rewrite length_app in Hh. simpl in Hh. lia.
Qed.

(** A pointer into the string at [a]. *)
Definition into (a : Z) (cs : list Z) (i : nat) : fat_ptr := mk_fat (a + Z.of_nat i) a (a + Z.of_nat (length cs) + 1).

Lemma into_spans m a cs i : text m a cs -> (i <= length cs)%nat -> spans (into a cs i) (a + Z.of_nat i) (Z.of_nat (length cs - i) + 1).
Proof. intros (_ & _ & Ha & He) Hi. split; simpl; lia. Qed.

Lemma into_next m a cs i : text m a cs -> (i <= length cs)%nat -> _fat_ptr_plus (into a cs i) 1 1 = into a cs (S i).
Proof.
  intros (_ & _ & Ha & He) Hi. unfold _fat_ptr_plus, into. simpl. f_equal. rewrite u32_small by (change (i32 1) with 1; lia).
  change (i32 1) with 1. lia.
Qed.

Lemma fat_string_spec a cs (Q : fat_ptr -> ap_mem H -> Prop) E s : text (dig s) a cs -> Q (into a cs 0) s -> wp (fat_string a) Q E s.
Proof.
  intros Ht HQ. pose proof Ht as (Hh & Hc & Ha & He). pose proof (text_size _ _ _ Ht) as Hsz.
  assert (Hz : zterm 1 (dig s) a (Z.of_nat (length cs))).
  { split; try lia.
    - intros i Hi. destruct (lookup_lt_is_Some_2 cs (Z.to_nat i)) as [c Hci]; [lia|]. exists c. pose proof (Forall_lookup_1 _ _ _ _ Hc Hci). simpl in *.
      split; [|lia]. replace (a + 1 * i) with (a + Z.of_nat (Z.to_nat i)) by lia. apply Hh, lookup_app_l_Some, Hci.
    - rewrite Z.mul_1_l. apply Hh. by rewrite lookup_app_r, Nat.sub_diag by lia. }
  unfold fat_string, _get_zero_arr_size. wps. rewrite (proj2 (Z.eqb_neq a 0)) by lia.
  replace (elt_addr 1 a (1 - 1)) with (a + 1 * 0) by (unfold elt_addr; rewrite u32_small; lia).
  assert (Hcount : zero_arr_count 1 (dig s) (S (size (dig s))) (a + 1 * 0) 1 = Some (Ret (Z.of_nat (length cs) + 1))).
  { destruct (zero_arr_count_finds 1 _ _ _ (S (size (dig s))) 0 1 Hz) as [-> |[H0 ->]]; [lia|lia| |].
    - rewrite u32_small by lia. do 2 f_equal. lia.
    - do 2 f_equal. lia. }
  rewrite Hcount. wps. unfold _tag_fat. rewrite (proj2 (Z.eqb_neq a 0)) by lia. rewrite !(u32_small (Z.of_nat (length cs) + 1)), u32_small by lia.
  unfold into in HQ. replace (mk_fat _ _ _) with (mk_fat (a + Z.of_nat 0) a (a + Z.of_nat (length cs) + 1)); [done|]. f_equal; lia.
Qed.

Lemma ap_char_spec a cs i j c line (Q : Z -> ap_mem H -> Prop) E s : text (dig s) a cs -> (cs ++ [0]) !! (i + j)%nat = Some c ->
  Q c s -> wp (ap_char (into a cs i) (Z.of_nat j) line) Q E s.
Proof.
  intros Ht Hc HQ. pose proof Ht as (Hh & Hcs & _). pose proof (lookup_lt_Some _ _ _ Hc) as Hlt. rewrite length_app in Hlt. simpl in Hlt.
  unfold ap_char. wps. rewrite (spans_check _ _ _ _ _ _ (into_spans _ _ _ i Ht ltac:(lia))) by lia. wps. apply wp_on_dig.
  eapply wp_get_byte; [rewrite <- Z.add_assoc, <- Nat2Z.inj_add; by apply Hh|]. wps.
  rewrite schar_small; [by destruct s|]. apply lookup_app_Some in Hc as [Hc|[_ Hc]]; [pose proof (Forall_lookup_1 _ _ _ _ Hcs Hc); simpl in *; lia|].
  destruct (i + j - length cs)%nat as [|[|]]; simplify_eq/=; lia.
Qed.

(** [k] steps forward. *)
Lemma advance_while_spec (test : fat_ptr -> ST (ap_mem H) bool) a cs i k (Q : fat_ptr * Z -> ap_mem H -> Prop) E s : text (dig s) a cs ->
  (i + k <= length cs)%nat ->
  (forall j (Q' : bool -> ap_mem H -> Prop), (j < k)%nat -> Q' true s -> wp (test (into a cs (i + j))) Q' E s) ->
  (forall Q' : bool -> ap_mem H -> Prop, Q' false s -> wp (test (into a cs (i + k))) Q' E s) ->
  Q (into a cs (i + k), Z.of_nat k) s -> wp (advance_while test (into a cs i)) Q E s.
Proof.
  intros Ht Hk Htrue Hfalse HQ. pose proof (text_size _ _ _ Ht) as Hsz. unfold advance_while. wps.
  apply (wp_loop _ (fun r '(p, n) s' => s' = s /\ exists j, (j <= k)%nat /\ r = (k - j)%nat /\ p = into a cs (i + j) /\ n = Z.of_nat j)) with k; [| |lia].
  - intros r [p n] s' (-> & j & Hj & -> & -> & ->). wps. destruct (decide (j < k)%nat) as [Hlt|Hge].
    + apply Htrue; [done|]. wps. exists (k - S j)%nat. split; [lia|]. split; [done|]. exists (S j). rewrite (into_next (dig s)) by (done || lia).
      split_and!; [lia|done|f_equal; lia|lia].
    + assert (j = k) as -> by lia. apply Hfalse. by wps.
  - split; [done|]. exists 0%nat. rewrite Nat.add_0_r. split_and!; lia || done.
Qed.

(** A numeral without the zeros that are followed by a zero. *)
Lemma skip_zeros vs : vs <> [] -> exists j vs', vs = replicate j 0 ++ vs' /\ vs' <> [] /\
  (forall i, (i < j)%nat -> vs !! i = Some 0 /\ vs !! S i = Some 0) /\ ~ (vs !! j = Some 0 /\ vs !! S j = Some 0).
Proof.
  induction vs as [|d vs IH]; [done|]. intros _. destruct (decide (d = 0 /\ vs !! 0%nat = Some 0)) as [[-> H0]|Hno].
  - destruct IH as (j & vs' & Hvs & Hne & Hall & Hend); [by destruct vs|]. exists (S j), vs'. split_and!; [by rewrite Hvs at 1|done| |done].
    intros [|i] Hi; [done|]. apply Hall. lia.
  - exists 0%nat, (d :: vs). split_and!; [done|done|lia|]. intros [H1 H2]. apply Hno. simpl in H1, H2. by simplify_eq.
Qed.

Lemma numeral_zeros b j l : numeral b (reverse (replicate j 0 ++ l)) = numeral b (reverse l).
Proof.
  rewrite reverse_app, numeral_app, reverse_replicate. replace (numeral b (replicate j 0)) with 0; [lia|].
  induction j as [|j IH]; simpl; lia.
Qed.

Lemma chr_zero d : 0 <= d -> (chr d =? 48) = (d =? 0).
Proof. intros Hd. unfold chr. destruct (d <? 10) eqn:E; lia. Qed.

Lemma is_base_digit_chr b d : 0 <= d < b -> b <= 36 -> is_base_digit b (chr d) = true.
Proof. intros Hd Hb. unfold is_base_digit, chr. destruct (d <? 10) eqn:E; lia. Qed.

(** The characters of a string that ends with the numeral of [vs]. *)
Section numeral.
Context (s : ap_mem H) (a b : Z) (pre vs : list Z).
Context (Ht : text (dig s) a (pre ++ (chr <$> vs))) (Hvs : Forall (fun d => 0 <= d < b) vs) (Hb : 2 <= b <= 36).
Local Definition cs : list Z := pre ++ (chr <$> vs).

Lemma numeral_char i : (cs ++ [0]) !! (length pre + i)%nat = if decide (i < length vs)%nat then chr <$> vs !! i else [0] !! (i - length vs)%nat.
Proof.
  unfold cs. rewrite <- app_assoc, lookup_app_r, Nat.add_comm, Nat.add_sub by lia. case_decide as Hi.
  - rewrite lookup_app_l by (rewrite length_fmap; lia). by rewrite list_lookup_fmap.
  - rewrite lookup_app_r by (rewrite length_fmap; lia). by rewrite length_fmap.
Qed.

(** Skipping zeros. *)
Lemma zeros_spec (Q : fat_ptr * Z -> ap_mem H -> Prop) E j : (j < length vs)%nat ->
  (forall i, (i < j)%nat -> vs !! i = Some 0 /\ vs !! S i = Some 0) -> ~ (vs !! j = Some 0 /\ vs !! S j = Some 0) ->
  Q (into a cs (length pre + j), Z.of_nat j) s ->
  wp (advance_while (fun p => c ← ap_char p 0 353; if c =? 48 then d ← ap_char p 1 353; mret (d =? 48) else mret false) (into a cs (length pre))) Q E s.
Proof.
  intros Hj Hall Hend HQ.
  apply (advance_while_spec _ a cs (length pre) j); [done|unfold cs; rewrite length_app, length_fmap; lia| | |done].
  - intros i Q' Hi HQ'. destruct (Hall i Hi) as [H0 H1]. pose proof (lookup_lt_Some _ _ _ H1) as Hlt.
    wps. apply (ap_char_spec a cs _ 0 48); [done|rewrite Nat.add_0_r, numeral_char, decide_True, H0 by lia; done|]. simpl.
    wps. apply (ap_char_spec a cs _ 1 48); [done|rewrite <- Nat.add_assoc, Nat.add_1_r, numeral_char, decide_True, H1 by lia; done|]. by wps.
  - intros Q' HQ'. destruct (lookup_lt_is_Some_2 vs j Hj) as [d Hd]. pose proof (Forall_lookup_1 _ _ _ _ Hvs Hd) as Hdb. simpl in Hdb.
    wps. apply (ap_char_spec a cs _ 0 (chr d)); [done|rewrite Nat.add_0_r, numeral_char, decide_True, Hd by lia; done|].
    rewrite chr_zero by lia. destruct (d =? 0) eqn:E0; [|by wps]. assert (d = 0) as -> by lia. wps.
    destruct (decide (S j < length vs)%nat) as [Hlt|Hge].
    + destruct (lookup_lt_is_Some_2 vs (S j) Hlt) as [e He]. pose proof (Forall_lookup_1 _ _ _ _ Hvs He) as Heb. simpl in Heb.
      apply (ap_char_spec a cs _ 1 (chr e)); [done|rewrite <- Nat.add_assoc, Nat.add_1_r, numeral_char, decide_True, He by lia; done|].
      wps. rewrite chr_zero by lia. destruct (e =? 0) eqn:E1; [|done]. exfalso. apply Hend. split; [done|]. rewrite He. f_equal. lia.
    + apply (ap_char_spec a cs _ 1 0); [done|rewrite <- Nat.add_assoc, Nat.add_1_r, numeral_char, decide_False by lia; by replace (S j - length vs)%nat with 0%nat by lia|].
      by wps.
Qed.

(** Counting digits. *)
Lemma count_digits_spec (Q : fat_ptr * Z -> ap_mem H -> Prop) E j : (j <= length vs)%nat ->
  Q (into a cs (length pre + length vs), Z.of_nat (length vs - j)) s ->
  wp (advance_while (fun p => c ← ap_char p 0 356; mret (is_base_digit b c)) (into a cs (length pre + j))) Q E s.
Proof.
  intros Hj HQ. apply (advance_while_spec _ a cs (length pre + j) (length vs - j)); [done|unfold cs; rewrite length_app, length_fmap; lia| | |].
  - intros i Q' Hi HQ'. destruct (lookup_lt_is_Some_2 vs (j + i)) as [d Hd]; [lia|]. pose proof (Forall_lookup_1 _ _ _ _ Hvs Hd) as Hdb. simpl in Hdb.
    wps. apply (ap_char_spec a cs _ 0 (chr d)); [done|rewrite Nat.add_0_r, <- Nat.add_assoc, numeral_char, decide_True, Hd by lia; done|].
    wps. rewrite is_base_digit_chr by lia. done.
  - intros Q' HQ'. wps. apply (ap_char_spec a cs _ 0 0); [done| |].
    { rewrite Nat.add_0_r, <- Nat.add_assoc, numeral_char, decide_False by lia. by replace (j + (length vs - j) - length vs)%nat with 0%nat by lia. }
    wps. replace (is_base_digit b 0) with false; [done|]. unfold is_base_digit. symmetry. simpl. lia.
  - by replace (length pre + j + (length vs - j))%nat with (length pre + length vs)%nat by lia.
Qed.
End numeral.

(** The number of a numeral fits the digits allocated for it. *)
Lemma digits_fit b vs : 2 <= b <= 36 -> Forall (fun d => 0 <= d < b) vs ->
  numeral b (reverse vs) < weight (Z.to_nat ((bits_up b * Z.of_nat (length vs) + 7) / 8)).
Proof.
  intros Hb Hvs. destruct (bits_up_spec b Hb) as [Hk Hp]. pose proof (numeral_bound b (reverse vs) ltac:(lia) (proj2 (Forall_reverse _ _) Hvs)) as [_ Hn].
  rewrite length_reverse in Hn. rewrite weight_pow2. set (n := Z.of_nat (length vs)) in *. set (k := bits_up b) in *.
  assert (b ^ n <= 2 ^ (k * n)) by (rewrite Z.pow_mul_r by lia; apply Z.pow_le_mono_l; lia).
  assert (2 ^ (k * n) <= 2 ^ (8 * Z.of_nat (Z.to_nat ((k * n + 7) / 8)))) by (apply Z.pow_le_mono_r; [lia|words]). lia.
Qed.

(** The number of the digits at [start]. *)
Lemma read_number s start b vs sg line1 line2 line3 : ap_ok s -> text (dig s) start (chr <$> vs) -> Forall (fun d => 0 <= d < b) vs -> vs <> [] ->
  2 <= b <= 36 -> 6 * Z.of_nat (length vs) + 7 < 2147483648 -> sg = 1 \/ sg = -1 ->
  wp (z ← Cyc_mk (Z.quot (Z.land (i32 (bits_up b * Z.of_nat (length vs) + 7)) (Z.lnot 7)) 8);
      p ← fat_string start;
      chk z line1;; tz ← num_of z;
      start ← lift (_untag_fat_ptr p 1 1 ap_cyc line2);
      carry ← on_dig (Cyc_XP_fromstr (ap_size tz) (digits tz) start b);
      ap_assert (carry =? 0) "carry == 0";;
      Cyc_normalize z (ap_size tz);;
      sign_result z sg line3) (result s (sg * numeral b (reverse vs))) (ap_oom s) s.
Proof.
  intros Hs Ht Hvs Hne Hb Hlen Hsg. destruct (bits_up_spec b Hb) as [Hk _]. pose proof (digits_fit b vs Hb Hvs) as Hfit.
  assert (Hl : (0 < length vs)%nat) by (destruct vs; [done|simpl; lia]). set (n := bits_up b * Z.of_nat (length vs)) in *.
  assert (Hn : 1 <= n <= 6 * Z.of_nat (length vs)) by (unfold n; nia).
  rewrite round_bits by lia. set (k := (n + 7) / 8) in *. assert (Hkb : 1 <= k < 2147483647) by (unfold k; words).
  wps. apply mk_spec; [done|words|words|]. intros s1 z p s2 Hx1 Hini Hu _. set (N := Z.to_nat k) in *. wps.
  pose proof (text_ext _ _ _ _ Hx1 Ht) as Ht1. pose proof (text_ext _ _ _ _ (un_ext _ _ _ _ _ _ _ Hu) Ht1) as Ht2.
  eapply fat_string_spec; [exact Ht2|]. wps. apply wp_chk; [apply Hu|]. wps. eapply wp_num_of; [apply Hu|]. wps. simpl. rewrite length_replicate.
  rewrite (spans_untag _ _ _ _ _ (into_spans _ _ _ 0 Ht2 ltac:(lia))) by lia. rewrite Z.add_0_r. wps. apply wp_on_dig.
  pose proof (under_target _ _ _ _ _ _ _ Hu) as Htg. rewrite length_replicate in Htg.
  pose proof (under_apart _ _ _ _ _ _ _ _ _ Hu (proj1 Ht1)) as Hap. rewrite length_app, length_fmap, length_replicate in Hap. simpl in Hap. specialize (Hap ltac:(lia)).
  destruct Ht2 as (Hh2 & _ & Hp2 & He2). rewrite length_fmap in He2.
  eapply wp_conseq.
  { apply (fromstr_spec (dig s2) _ p start b N vs Htg Hb Hvs Hne Hh2 ltac:(lia)) with (zs := replicate N 0); [unfold disjoint; lia|done|apply length_replicate|apply Hu|apply Hu|apply num_zeros]. }
  intros c d Hw. destruct (under_wrote _ _ _ _ _ _ _ _ _ _ Hu Hw) as (zs & Hu2 & Hzl & -> & Hz); [by rewrite length_replicate|].
  wps. apply wp_ap_assert; [done|]. wps. eapply normalize_spec; [exact Hu2|by rewrite Hzl|]. intros j t' Hj Hu3. wps.
  eapply signed_result; [exact Hx1|done|exact Hu3|done|done|by rewrite Hz].
Qed.

(** The character after the white space. *)
Definition after_space (sg vs : list Z) : Z := match sg with [] => match vs with [] => 0 | v :: _ => chr v end | c :: _ => c end.

Lemma after_space_char ws sg vs : (((ws ++ sg) ++ (chr <$> vs)) ++ [0]) !! length ws = Some (after_space sg vs).
Proof. rewrite <- !app_assoc, lookup_app_r, Nat.sub_diag by lia. destruct sg as [|c sg]; [by destruct vs|done]. Qed.

Lemma after_space_facts b sg vs : sg = [] \/ sg = [43] \/ sg = [45] -> Forall (fun d => 0 <= d < b) vs -> vs <> [] -> b <= 36 ->
  isspace (after_space sg vs) = false /\
  ((after_space sg vs =? 45) || (after_space sg vs =? 43)) = negb (bool_decide (sg = [])) /\
  (after_space sg vs =? 45) = bool_decide (sg = [45]).
Proof.
  intros Hsg Hvs Hne Hb. destruct Hsg as [->|[-> | ->]]; [|done|done]. destruct vs as [|v vs]; [done|]. inversion_clear Hvs as [|? ? Hv _]. simpl.
  destruct (chr_facts v) as (_ & _ & _ & ->); [lia|]. assert (48 <= chr v) by (unfold chr; destruct (v <? 10) eqn:E; lia). split_and!; [done| |]; simpl; lia.
Qed.

Lemma fromstr_value s a ws sg vs b : ap_ok s -> text (dig s) a ((ws ++ sg) ++ (chr <$> vs)) -> Forall (fun c => isspace c = true) ws ->
  sg = [] \/ sg = [43] \/ sg = [45] -> Forall (fun d => 0 <= d < b) vs -> vs <> [] -> 2 <= b <= 36 ->
  6 * Z.of_nat (length vs) + 7 < 2147483648 ->
  wp (Cyc_AP_fromstr a b) (result s ((if bool_decide (sg = [45]) then -1 else 1) * numeral b (reverse vs))) (ap_oom s) s.
Proof.
  intros Hs Ht Hws Hsg Hvs Hne Hb Hlen. destruct (skip_zeros vs Hne) as (j & vs' & Hskip & Hne' & Hall & Hend).
  assert (Hj : (j < length vs)%nat) by (rewrite Hskip, length_app, length_replicate; destruct vs'; [done|simpl; lia]).
  assert (Hlen' : length vs' = (length vs - j)%nat) by (rewrite Hskip, length_app, length_replicate; lia).
  destruct (after_space_facts b sg vs Hsg Hvs Hne ltac:(lia)) as (Hsp & Hsigned & Hminus). pose proof (after_space_char ws sg vs) as Hchar.
  change ((ws ++ sg) ++ (chr <$> vs)) with (cs (ws ++ sg) vs) in *. set (c := after_space sg vs) in *.
  pose proof Ht as (Hh & Hcs & Ha & He). assert (Hws_len : (length ws <= length (cs (ws ++ sg) vs))%nat) by (unfold cs; rewrite !length_app; lia).
  unfold Cyc_AP_fromstr. wps. eapply fat_string_spec; [exact Ht|]. wps. apply wp_ap_assert; [apply negb_true_iff, Z.eqb_neq; simpl; lia|]. wps. apply wp_ap_assert; [apply andb_true_iff; lia|].
  wps. apply (advance_while_spec _ a _ 0 (length ws)); [done|done| | |].
  { intros i Q' Hi HQ'. destruct (lookup_lt_is_Some_2 ws i Hi) as [w Hw]. pose proof (Forall_lookup_1 _ _ _ _ Hws Hw) as Hwsp. simpl in Hwsp.
    wps. apply (ap_char_spec a _ _ 0 w); [done| |].
    { unfold cs. rewrite Nat.add_0_r, <- !app_assoc, lookup_app_l by done. exact Hw. }
    wps. rewrite Hwsp, andb_true_r. destruct (w =? 0) eqn:E0; [|done]. assert (w = 0) as -> by lia. done. }
  { intros Q' HQ'. wps. apply (ap_char_spec a _ _ 0 c); [done|by rewrite Nat.add_0_r|]. wps. by rewrite Hsp, andb_false_r. }
  wps. simpl. apply (ap_char_spec a _ _ 0 c); [done|by rewrite Nat.add_0_r|]. rewrite Hsigned, Hminus.
  replace (if negb (bool_decide (sg = [])) then _ else _) with (into a (cs (ws ++ sg) vs) (length (ws ++ sg))); cycle 1.
  { rewrite length_app. destruct Hsg as [->|[-> | ->]]; simpl; rewrite ?Nat.add_0_r, ?Nat.add_1_r; [done| |];
      symmetry; eapply into_next; [exact Ht|done|exact Ht|done]. }
  wps. eapply (zeros_spec s a b); [exact Ht|exact Hvs|exact Hj|exact Hall|exact Hend|]. wps.
  assert (Hle : (length (ws ++ sg) + j <= length (cs (ws ++ sg) vs))%nat) by (unfold cs; rewrite !length_app, length_fmap; lia).
  rewrite (spans_untag _ _ _ _ _ (into_spans _ _ _ _ Ht Hle)) by lia. wps.
  eapply (count_digits_spec s a b); [exact Ht|exact Hvs|exact Hb|lia|]. cbv beta iota. rewrite <- Hlen'.
  replace (if negb (bool_decide (sg = [])) && bool_decide (sg = [45]) then -1 else 1) with (if bool_decide (sg = [45]) then -1 else 1)
    by (destruct Hsg as [->|[-> | ->]]; done).
  rewrite Hskip, numeral_zeros. apply read_number; try done.
  - rewrite Hskip in Ht. unfold cs in Ht. rewrite fmap_app, app_assoc in Ht. apply text_suffix in Ht. rewrite length_app, length_fmap, length_replicate in Ht.
    done.
  - rewrite Hskip in Hvs. by apply Forall_app in Hvs as [_ Hvs].
  - lia.
  - destruct (bool_decide (sg = [45])); lia.
Qed.

(** ** Theorem *)

(** C19. Arbitrary-precision numbers survive conversion to a string and back: for
    every base from 2 to 36 and every number of at most 300 million bits,
    [Cyc_AP_fromstr] applied to the string that [Cyc_AP_tostr] makes returns a new
    number of the same value, sign included, unless memory runs out; no check or
    assertion fails. *)
Theorem ap_string_roundtrip s x v b : ap_ok s -> is_num s x v -> Z.log2 (Z.abs v) < 300000000 -> 2 <= b <= 36 ->
  wp (str ← Cyc_AP_tostr x b; Cyc_AP_fromstr str b) (result s v) (ap_oom s) s.
Proof.
  intros Hs (t & p & xs & Hx)%number_of Hv Hb. pose proof (digits_log2 _ _ _ _ _ _ Hx) as Hlog. pose proof (Z.log2_nonneg (Z.abs v)).
  wps. eapply wp_conseq; [eapply tostr_value; [done|exact Hx|done|lia]|]. intros a s1 (Hx1 & Hs1 & ds & Hds & Hne & Hlen & Hnum & Htext).
  eapply wp_last; [exact Hx1|eapply (fromstr_value s1 a [] (if v <? 0 then [45] else [])); [done|exact Htext|constructor| |exact Hds|done|done|lia]|].
  - destruct (v <? 0); [right; by right|by left].
  - rewrite Hnum. destruct (v <? 0) eqn:E; simpl; lia.
Qed.
End string.

(** -48 in base 7. *)
Lemma ap_string_roundtrip_witness : exists r s',
  (str ← Cyc_AP_tostr 4160 7; Cyc_AP_fromstr str 7) ex_two = (Ret r, s') /\ is_num s' r (-48).
Proof.
  destruct ex_two_ok as (Hs & Hx & _).
  pose proof (ap_string_roundtrip ex_two 4160 (-48) 7 Hs Hx ltac:(by vm_compute) ltac:(lia)) as Hw.
  assert (Hr : exists r s', (str ← Cyc_AP_tostr 4160 7; Cyc_AP_fromstr str 7) ex_two = (Ret r, s')) by (eexists _, _; vm_compute; reflexivity).
  destruct Hr as (r & s' & Hr). exists r, s'. split; [exact Hr|]. exact (proj1 (wp_result _ _ _ _ _ _ Hw Hr)).
Defined.

(** The string at 500 in an otherwise empty state. *)
Definition ex_text (cs : list Z) : ap_mem bump := mk_ap_mem ∅ (write 500 (cs ++ [0]) ∅) ex_mem 0 0 0.

(** [" -0042"] is -42 in base 10; a string without digits fails the assertion on
    the size of the new number, although the same string is zero for
    [Cyc_XP_fromstr]. *)
Example fromstr_examples :
  answer (Cyc_AP_fromstr 500 10) (ex_text [32; 45; 48; 48; 52; 50]) = Ret (-42) /\
  (Cyc_AP_fromstr 500 10 (ex_text [120; 121])).1 = Exit "size > 0".
Proof. by vm_compute. Qed.
