(* ===== verification/CycAPQ.v ===== *)
(** * Arbitrary-precision rationals

    Models src/bin/genfiles/apq.c: a rational is a heap object that points to two
    numbers of CycAP.v.  The objects are a second store beside the state of the
    numbers, whose heap they share.  Every operation makes its result through
    [Cyc_APQ_fromAP], which brings it to lowest terms. *)

From S2P Require Import Prelude RwLock Alloc Region RegionSafety Words FatPtr ZeroTerm CycBytes CycXP CycAP.

Definition apq_cyc : string := "apq.cyc".

Record APQ_T : Type := mk_APQ { q_n : Z; q_d : Z }.

Record apq_mem (H : Type) : Type := mk_apq_mem { rats : gmap Z APQ_T; ints : ap_mem H }.
Arguments mk_apq_mem {H} _ _.
Arguments rats {H} _.
Arguments ints {H} _.

(** The exception that apq.c declares for itself. *)
Definition Cyc_Invalid_argument : exn := Cyc_Other_exn "Cyc_Invalid_argument".

Definition sizeof_APQ_T : Z := 8.
Definition sizeof_Invalid_argument : Z := 16.

Section apq.
Context {H : Type} `{Heap H}.
Abbreviation M := (ST (apq_mem H)).

(** ** Accesses *)

Definition on_ints {A} (c : ST (ap_mem H) A) : M A := fun s =>
  let '(r, a) := c (ints s) in (r, mk_apq_mem (rats s) a).

Definition put_rat (q : Z) (t : APQ_T) : M unit := fun s => (Ret tt, mk_apq_mem (<[q := t]> (rats s)) (ints s)).
Definition rat_of (q : Z) : M APQ_T := s ← get; lift (load (rats s) q).

(** [_check_null(q)->f] *)
Definition checked_rat (q line : Z) : M APQ_T := lift (_check_null q apq_cyc line);; rat_of q.

(** [q->n = v] and [q->d = v] *)
Definition set_n (q v : Z) : M unit := t ← rat_of q; put_rat q (mk_APQ v (q_d t)).
Definition set_d (q v : Z) : M unit := t ← rat_of q; put_rat q (mk_APQ (q_n t) v).

Definition apq_alloc (n line : Z) : M Z := on_ints (on_hp (_bounded_GC_malloc n apq_cyc line)).

(** [_cycalloc(sizeof(struct Cyc_APQ_T))] *)
Definition new_rat (line : Z) : M Z := q ← apq_alloc sizeof_APQ_T line; put_rat q (mk_APQ 0 0);; mret q.

(** [throw new Invalid_argument(...)] *)
Definition throw_argument {A} (line : Z) : M A :=
  apq_alloc sizeof_Invalid_argument line;; lift (Thrown Cyc_Invalid_argument apq_cyc line).

(** [Cyc_AP_cmp(x, Cyc_AP_zero)] and [Cyc_AP_cmp(x, Cyc_AP_one)] *)
Definition cmp_zero (x : Z) : M Z := s ← get; on_ints (Cyc_AP_cmp x (AP_zero (ints s))).
Definition cmp_one (x : Z) : M Z := s ← get; on_ints (Cyc_AP_cmp x (AP_one (ints s))).

(** ** Lowest terms *)

Definition Cyc_reduce (q : Z) : M Z :=
  t ← checked_rat q 14;
  c ← cmp_zero (q_d t);
  (if c <? 0 then
     d ← on_ints (Cyc_AP_neg (q_d t)); set_d q d;;
     t ← rat_of q; n ← on_ints (Cyc_AP_neg (q_n t)); set_n q n
   else mret tt);;
  t ← rat_of q; a ← on_ints (Cyc_AP_abs (q_n t));
  gcd ← on_ints (Cyc_AP_gcd a (q_d t));
  c ← cmp_one gcd;
  if c =? 0 then mret q
  else
    newq ← new_rat 21;
    t ← rat_of q; n ← on_ints (Cyc_AP_div (q_n t) gcd); set_n newq n;;
    t ← rat_of q; d ← on_ints (Cyc_AP_div (q_d t) gcd); set_d newq d;;
    mret newq.

(** ** Making rationals *)

Definition Cyc_APQ_fromint (i : Z) : M Z :=
  q ← new_rat 28;
  n ← on_ints (Cyc_AP_fromint i); set_n q n;;
  s ← get; set_d q (AP_one (ints s));; mret q.

Definition Cyc_APQ_fromAP (n d : Z) : M Z :=
  c ← cmp_zero d;
  if c =? 0 then throw_argument 35
  else q ← new_rat 36; set_n q n;; set_d q d;; Cyc_reduce q.

(** The characters of a string are bytes of the same memory as the digits. *)
Definition apq_char (p : fat_ptr) (line : Z) : M Z :=
  a ← lift (_check_fat_subscript p 1 0 apq_cyc line); d ← on_ints (on_dig (get_byte a)); mret (schar d).

Definition find_slash (s : fat_ptr) : M fat_ptr :=
  m ← get;
  loop (S (size (dig (ints m)))) (fun s =>
    c ← apq_char s 45;
    if c =? 0 then mret (inr s)
    else c ← apq_char s 45;
         if c =? 47 then mret (inr s) else mret (inl (_fat_ptr_plus s 1 1))) s.

Definition Cyc_APQ_fromstr (str : fat_ptr) (base : Z) : M Z :=
  q ← new_rat 43;
  s ← find_slash str;
  p ← lift (_untag_fat_ptr str 1 1 apq_cyc 46);
  n ← on_ints (Cyc_AP_fromstr p base); set_n q n;;
  c ← apq_char s 47;
  (if negb (c =? 0) then
     p ← lift (_untag_fat_ptr (_fat_ptr_plus s 1 1) 1 1 apq_cyc 48);
     d ← on_ints (Cyc_AP_fromstr p base);
     z ← cmp_zero d;
     if negb (z =? 0) then set_d q d else throw_argument 52
   else m ← get; set_d q (AP_one (ints m)));;
  Cyc_reduce q.

(** ** Arithmetic *)

Definition Cyc_APQ_neg (q : Z) : M Z :=
  t ← checked_rat q 65; n ← on_ints (Cyc_AP_neg (q_n t)); Cyc_APQ_fromAP n (q_d t).

Definition Cyc_APQ_abs (q : Z) : M Z :=
  t ← checked_rat q 69; n ← on_ints (Cyc_AP_abs (q_n t)); Cyc_APQ_fromAP n (q_d t).

(** The numerators over the least common denominator, and that denominator. *)
Definition common (p q line : Z) : M (Z * Z * Z) :=
  tp ← checked_rat p line; tq ← checked_rat q line;
  d ← on_ints (Cyc_AP_lcm (q_d tp) (q_d tq));
  px ← on_ints (Cyc_AP_div d (q_d tp));
  qx ← on_ints (Cyc_AP_div d (q_d tq));
  a ← on_ints (Cyc_AP_mul (q_n tp) px);
  b ← on_ints (Cyc_AP_mul (q_n tq) qx);
  mret (a, b, d).

Definition Cyc_APQ_add (p q : Z) : M Z :=
  '(a, b, d) ← common p q 73; n ← on_ints (Cyc_AP_add a b); Cyc_APQ_fromAP n d.

Definition Cyc_APQ_sub (p q : Z) : M Z :=
  '(a, b, d) ← common p q 80; n ← on_ints (Cyc_AP_sub a b); Cyc_APQ_fromAP n d.

Definition Cyc_APQ_mul (p q : Z) : M Z :=
  tp ← checked_rat p 87; tq ← checked_rat q 87;
  n ← on_ints (Cyc_AP_mul (q_n tp) (q_n tq));
  d ← on_ints (Cyc_AP_mul (q_d tp) (q_d tq));
  Cyc_APQ_fromAP n d.

Definition Cyc_APQ_div (p q : Z) : M Z :=
  tq ← checked_rat q 91;
  c ← cmp_zero (q_n tq);
  if c =? 0 then throw_argument 91
  else
    tp ← checked_rat p 92;
    n ← on_ints (Cyc_AP_mul (q_n tp) (q_d tq));
    d ← on_ints (Cyc_AP_mul (q_d tp) (q_n tq));
    Cyc_APQ_fromAP n d.

Definition Cyc_APQ_cmp (p q : Z) : M Z :=
  '(a, b, _) ← common p q 96; on_ints (Cyc_AP_cmp a b).
End apq.
