(* ===== verification/APQSpec.v ===== *)
(** * Rationals in lowest terms

    The rational a heap object of CycAPQ.v denotes is an element of the field
    [Qc] of reduced fractions: the object holds its numerator and its positive
    denominator.  Each operation is shown to compute the field operation. *)

From Stdlib Require Import QArith.
From stdpp Require Import numbers.
From S2P Require Import Prelude RwLock Alloc Region RegionSafety Words FatPtr ZeroTerm CycBytes ByteMem CycXP XPSpec CycAP APSpec APArith APDiv APPow CycAPQ.
From Stdlib Require Import Qcanon.
#[local] Open Scope Z_scope.

(** ** Fractions *)

Definition of_int (n : Z) : Qc := Q2Qc (inject_Z n).
Definition frac (n d : Z) : Qc := (of_int n / of_int d)%Qc.

Abbreviation numer v := (Qnum (this v)).
Abbreviation denom v := (Zpos (Qden (this v))).

Lemma of_int_mul a b : of_int (a * b) = (of_int a * of_int b)%Qc.
Proof. apply Qc_is_canon. simpl. rewrite !Qred_correct. unfold Qeq. simpl. lia. Qed.

Lemma of_int_add a b : of_int (a + b) = (of_int a + of_int b)%Qc.
Proof. apply Qc_is_canon. simpl. rewrite !Qred_correct. unfold Qeq. simpl. lia. Qed.

Lemma of_int_opp a : of_int (- a) = (- of_int a)%Qc.
Proof. apply Qc_is_canon. simpl. rewrite !Qred_correct. unfold Qeq. simpl. lia. Qed.

Lemma of_int_nonzero a : a <> 0 -> of_int a <> 0%Qc.
Proof. intros Ha E. apply Ha. pose proof (f_equal this E) as E'. change (Qred (inject_Z a) = Qred 0) in E'. apply Qred_eq_iff in E'. unfold Qeq in E'. simpl in E'. lia. Qed.

Lemma frac_pos n p : this (frac n (Zpos p)) = Qred (n # p).
Proof.
  unfold frac, Qcdiv. rewrite <- (Qred_involutive (n # p)), <- (canon (_ * _)%Qc). apply Qred_complete. simpl.
  rewrite !Qred_correct. unfold Qeq, Qdiv, Qinv, inject_Z. simpl. lia.
Qed.

(** Dividing by the greatest common divisor gives the reduced fraction. *)
Lemma frac_lowest n d : 0 < d -> numer (frac n d) = Z.quot n (Z.gcd n d) /\ denom (frac n d) = Z.quot d (Z.gcd n d).
Proof.
  intros Hd. destruct d as [|p|p]; try lia. rewrite frac_pos. unfold Qred.
  pose proof (Z.ggcd_gcd n (Zpos p)) as Hg. pose proof (Z.ggcd_correct_divisors n (Zpos p)) as Hc.
  destruct (Z.ggcd n (Zpos p)) as (g & r1 & r2). simpl in Hg. destruct Hc as [H1 H2]. simpl. subst g.
  assert (Hpos : 0 < Z.gcd n (Zpos p)). { pose proof (Z.gcd_nonneg n (Zpos p)). destruct (Z.eq_dec (Z.gcd n (Zpos p)) 0) as [E|]; [|lia]. apply Z.gcd_eq_0 in E. lia. }
  set (g := Z.gcd n (Zpos p)) in *. clearbody g. assert (0 < r2) by nia. split.
  - rewrite H1, Z.mul_comm, Z.quot_mul by lia. done.
  - rewrite H2, Z.mul_comm, Z.quot_mul by lia. apply Z2Pos.id. lia.
Qed.

Lemma frac_repr v : frac (numer v) (denom v) = v.
Proof. apply Qc_is_canon. rewrite frac_pos, Qred_correct. destruct v as [[] ]. done. Qed.

Lemma of_int_parts i : numer (of_int i) = i /\ denom (of_int i) = 1.
Proof.
  assert (of_int i = frac i 1) as ->. { apply Qc_is_canon. rewrite frac_pos, Qred_correct. simpl. by rewrite Qred_correct. }
  destruct (frac_lowest i 1 ltac:(lia)) as [-> ->]. by rewrite Z.gcd_1_r, Z.quot_1_r.
Qed.

Lemma frac_neg_neg n d : d <> 0 -> frac (- n) (- d) = frac n d.
Proof. intros Hd. unfold frac. rewrite !of_int_opp. field. split; [by apply of_int_nonzero|]. rewrite <- of_int_opp. apply of_int_nonzero. lia. Qed.

Section apq.
Context {H : Type} `{HH : Heap H} `{!HeapLaws H}.
Implicit Types (s : apq_mem H) (v : Qc).

(** ** State *)

Abbreviation live s := (gc_live (heap (hp (ints s)))).
Abbreviation set_ints s a := (mk_apq_mem (rats s) a).

Record apq_inv s : Prop := {
  qi_ap : ap_ok (ints s);
  qi_rats : forall q, is_Some (rats s !! q) -> is_Some (live s !! q)
}.

(** Numbers and rationals have been added, none changed. *)
Record ext_q s s' : Prop := { eq_ext : ext (ints s) (ints s'); eq_rats : rats s ⊆ rats s' }.

#[export] Instance ext_q_preorder : PreOrder ext_q.
Proof. split; [by split|]. intros s1 s2 s3 [X1 R1] [X2 R2]. split; by etrans. Qed.

(** [q] holds the numbers [n] over [d]. *)
Definition holds_frac s (q n d : Z) : Prop :=
  q <> 0 /\ exists x y, rats s !! q = Some (mk_APQ x y) /\ is_num (ints s) x n /\ is_num (ints s) y d.

(** A rational in lowest terms; that it exists means the numbers are set up. *)
Definition is_rat s (q : Z) v : Prop := holds_frac s q (numer v) (denom v) /\ initialized (ints s).

Definition qresult s v (r : Z) s' : Prop := is_rat s' r v /\ ext_q s s' /\ apq_inv s'.
Definition q_oom s (e : exn) s' : Prop := e = Cyc_Bad_alloc /\ ext_q s s'.

Lemma holds_frac_ext s s' q n d : ext_q s s' -> holds_frac s q n d -> holds_frac s' q n d.
Proof.
  intros [X R] (Hq & x & y & Hl & Hx & Hy). split; [done|]. exists x, y. split; [by eapply lookup_weaken|]. split; by eapply is_num_ext.
Qed.

Lemma is_rat_ext s s' q v : ext_q s s' -> is_rat s q v -> is_rat s' q v.
Proof. intros X [Hf Hi]. split; [by eapply holds_frac_ext|]. eapply initialized_ext; [apply X|done]. Qed.

Lemma qresult_ext s s1 v r s' : ext_q s s1 -> qresult s1 v r s' -> qresult s v r s'.
Proof. intros X (Hr & X' & Hi). split; [done|]. split; [by etrans|done]. Qed.

Lemma wp_q_oom {A} (c : ST (apq_mem H) A) Q s s1 s2 : ext_q s s1 -> wp c Q (q_oom s1) s2 -> wp c Q (q_oom s) s2.
Proof. intros X Hc. eapply wp_mono; [exact Hc|done|]. intros e s' [-> X']. split; [done|by etrans]. Qed.

Lemma ext_set_ints s s1 a : ext_q s s1 -> ext (ints s1) a -> ext_q s (set_ints s1 a).
Proof. intros [X R] Xa. split; [by etrans|done]. Qed.

Lemma inv_set_ints s a : apq_inv s -> ext (ints s) a -> ap_ok a -> apq_inv (set_ints s a).
Proof. intros [_ Hr] X Ha. split; [done|]. intros q Hq. simpl. destruct (Hr _ Hq) as [b Hb]. exists b. eapply lookup_weaken; [done|apply X]. Qed.

(** ** Steps *)

(** A call on numbers. *)
Lemma wp_on_ints {A} (c : ST (ap_mem H) A) (R : A -> ap_mem H -> Prop) s0 (Q : A -> apq_mem H -> Prop) s : ext_q s0 s ->
  wp c R (ap_oom (ints s)) (ints s) -> (forall r a, R r a -> Q r (set_ints s a)) -> wp (on_ints c) Q (q_oom s0) s.
Proof.
  intros X Hc HQ. apply wp_cases in Hc as [(r & a & Hc & Hr)|(e & f & l & a & Hc & -> & Hi & Xa)].
  - eapply wp_run; [unfold on_ints; by rewrite Hc|by apply HQ].
  - eapply wp_throws; [unfold on_ints; by rewrite Hc|]. split; [done|by apply ext_set_ints].
Qed.

(** A call that makes a number. *)
Lemma wp_number (c : ST (ap_mem H) Z) n s0 (Q : Z -> apq_mem H -> Prop) s : ext_q s0 s -> apq_inv s ->
  wp c (result (ints s) n) (ap_oom (ints s)) (ints s) ->
  (forall x s', ext_q s s' -> rats s' = rats s -> apq_inv s' -> initialized (ints s') -> is_num (ints s') x n -> Q x s') ->
  wp (on_ints c) Q (q_oom s0) s.
Proof.
  intros X Hi Hc HQ. eapply wp_on_ints; [done|exact Hc|]. intros x a (Hx & Xa & Ha & Hini).
  apply HQ; [by apply ext_set_ints|done| |done|done]. apply inv_set_ints; [done|done|]. split; [done|by right].
Qed.

Lemma wp_compare_rat x y n m (Q : Z -> apq_mem H -> Prop) E s : is_num (ints s) x n -> is_num (ints s) y m ->
  (forall c, Z.sgn c = Z.sgn (n - m) -> Q c s) -> wp (on_ints (Cyc_AP_cmp x y)) Q E s.
Proof.
  intros Hx Hy HQ.
  assert (Hc : wp (Cyc_AP_cmp x y) (fun c a => Z.sgn c = Z.sgn (n - m) /\ a = ints s) (fun _ _ => False) (ints s)) by (by eapply cmp_value).
  apply wp_cases in Hc as [(c & a & Hc & Hn & ->)|(e & f & l & a & _ & [])].
  eapply wp_run; [unfold on_ints; by rewrite Hc|]. destruct s. by apply HQ.
Qed.

Lemma wp_cmp_zero x n (Q : Z -> apq_mem H -> Prop) E s : initialized (ints s) -> is_num (ints s) x n ->
  (forall c, Z.sgn c = Z.sgn n -> Q c s) -> wp (cmp_zero x) Q E s.
Proof.
  intros (_ & Hz & _) Hx HQ. unfold cmp_zero. wps. eapply wp_compare_rat; [done|exact Hz|]. intros c Hc. apply HQ. by rewrite Hc, Z.sub_0_r.
Qed.

Lemma wp_cmp_one x n (Q : Z -> apq_mem H -> Prop) E s : initialized (ints s) -> is_num (ints s) x n ->
  (forall c, Z.sgn c = Z.sgn (n - 1) -> Q c s) -> wp (cmp_one x) Q E s.
Proof. intros (_ & _ & Ho) Hx HQ. unfold cmp_one. wps. by eapply wp_compare_rat. Qed.

Lemma wp_rat_of q t (Q : APQ_T -> apq_mem H -> Prop) E s : rats s !! q = Some t -> Q t s -> wp (rat_of q) Q E s.
Proof. intros Hq HQ. unfold rat_of. wps. unfold load. rewrite Hq. by apply wp_lift. Qed.

Lemma wp_checked_rat q t line (Q : APQ_T -> apq_mem H -> Prop) E s : q <> 0 -> rats s !! q = Some t -> Q t s -> wp (checked_rat q line) Q E s.
Proof.
  intros Hq Ht HQ. unfold checked_rat. wps. unfold _check_null. destruct (q =? 0) eqn:E0; [lia|]. wps. by eapply wp_rat_of.
Qed.

Lemma wp_apq_alloc n line s0 s (Q : Z -> apq_mem H -> Prop) : ext_q s0 s -> apq_inv s -> 0 <= n < INT_MAX ->
  (forall p a, p <> 0 -> rats s !! p = None -> is_Some (gc_live (heap (hp a)) !! p) -> ext (ints s) a -> ap_ok a -> Q p (set_ints s a)) ->
  wp (apq_alloc n line) Q (q_oom s0) s.
Proof.
  intros X [[Hh Hi] Hr] Hn HQ.
  eapply (wp_on_ints _ (fun p a => p <> 0 /\ exists m' z, fresh_block (hp (ints s)) m' n z p /\ a = set_hp (ints s) m')); [done| |].
  - eapply wp_on_hp; [done|apply malloc_allocates; [apply Hh|done]|]. eauto.
  - intros p a (Hp & m' & z & Hf & ->). destruct (fresh_block_live _ _ _ _ _ Hf) as (Hnone & Hsub & Hl).
    apply HQ; [done| |done|by split|].
    + apply eq_None_not_Some. intros Hs. apply Hr in Hs. rewrite Hnone in Hs. by destruct Hs.
    + split; [|done]. by eapply fresh_unused; [exact Hh|exact Hf|lia].
Qed.

(** A new rational, none there was; [under_q] while it is filled. *)
Record under_q s0 (q : Z) (t : APQ_T) s : Prop := {
  uq_null : q <> 0;
  uq_new : rats s0 !! q = None;
  uq_at : rats s !! q = Some t;
  uq_ext : ext_q s0 s;
  uq_inv : apq_inv s
}.

Lemma wp_new_rat line s0 s (Q : Z -> apq_mem H -> Prop) : ext_q s0 s -> apq_inv s ->
  (forall q s', under_q s q (mk_APQ 0 0) s' -> Q q s') -> wp (new_rat line) Q (q_oom s0) s.
Proof.
  intros X Hi HQ. unfold new_rat. wps. apply wp_apq_alloc; [done|done|unfold sizeof_APQ_T, INT_MAX; lia|].
  intros p a Hp Hnone Hl Xa Ha. wps. eapply wp_run; [done|]. wps.
  apply (HQ p (mk_apq_mem (<[p := mk_APQ 0 0]> (rats s)) a)). split; [done|done| | |]; simpl.
  - by rewrite lookup_insert_eq.
  - split; [done|]. simpl. by apply insert_subseteq.
  - split; [done|]. simpl. intros q Hq. apply lookup_insert_is_Some' in Hq as [<-|Hq]; [done|].
    destruct (qi_rats _ Hi _ Hq) as [b Hb]. exists b. eapply lookup_weaken; [done|apply Xa].
Qed.

Lemma under_q_frame s0 q t s s' : under_q s0 q t s -> ext_q s s' -> apq_inv s' -> under_q s0 q t s'.
Proof. intros [Hq Hn Ht X Hi] X' Hi'. split; [done|done| |by etrans|done]. eapply lookup_weaken; [done|apply X']. Qed.

Lemma under_q_put s0 q t t' s : under_q s0 q t s -> under_q s0 q t' (mk_apq_mem (<[q := t']> (rats s)) (ints s)).
Proof.
  intros [Hq Hn Ht [X R] [Ha Hr]]. split; [done|done| | |]; simpl.
  - by rewrite lookup_insert_eq.
  - split; [done|]. simpl. by apply insert_subseteq_r.
  - split; [done|]. simpl. intros p Hp. apply lookup_insert_is_Some' in Hp as [<-|Hp]; apply Hr; [by eexists|done].
Qed.

Lemma wp_set_n s0 q t x (Q : unit -> apq_mem H -> Prop) E s : under_q s0 q t s ->
  (forall s', under_q s0 q (mk_APQ x (q_d t)) s' -> ints s' = ints s -> Q tt s') ->
  wp (set_n q x) Q E s.
Proof.
  intros Hu HQ. unfold set_n. wps. eapply wp_rat_of; [apply Hu|]. eapply wp_run; [done|].
  apply HQ; [by eapply under_q_put|done].
Qed.

Lemma wp_set_d s0 q t y (Q : unit -> apq_mem H -> Prop) E s : under_q s0 q t s ->
  (forall s', under_q s0 q (mk_APQ (q_n t) y) s' -> ints s' = ints s -> Q tt s') ->
  wp (set_d q y) Q E s.
Proof.
  intros Hu HQ. unfold set_d. wps. eapply wp_rat_of; [apply Hu|]. eapply wp_run; [done|].
  apply HQ; [by eapply under_q_put|done].
Qed.

(** ** Lowest terms *)

(** Two numbers over each other, the divisor not negative. *)
Lemma reduce_positive s0 q x y n d line s : under_q s0 q (mk_APQ x y) s -> initialized (ints s) ->
  is_num (ints s) x n -> is_num (ints s) y d -> 0 < d ->
  wp (t ← rat_of q; a ← on_ints (Cyc_AP_abs (q_n t)); gcd ← on_ints (Cyc_AP_gcd a (q_d t)); c ← cmp_one gcd;
      if c =? 0 then mret q
      else newq ← new_rat line;
        t ← rat_of q; n ← on_ints (Cyc_AP_div (q_n t) gcd); set_n newq n;;
        t ← rat_of q; d ← on_ints (Cyc_AP_div (q_d t) gcd); set_d newq d;; mret newq)
    (qresult s0 (frac n d)) (q_oom s0) s.
Proof.
  intros Hu Hini Hx Hy Hd. pose proof (frac_lowest n d Hd) as [Hn Hdn].
  wps. eapply wp_rat_of; [apply Hu|]. wps. eapply wp_number; [apply Hu|apply Hu|apply abs_value; [apply Hu|exact Hx]|].
  intros a s1 X1 _ Hi1 _ Ha. wps.
  eapply wp_on_ints; [etrans; [apply Hu|done]|apply gcd_signed; [apply Hi1|exact Ha|eapply is_num_ext; [apply X1|exact Hy]]|].
  intros g a2 (vg & Hg & Hsg & Hrg & Xa & Hh2 & Hini2). rewrite Z.gcd_abs_l in Hg.
  assert (vg = Z.gcd n d) as -> by (specialize (Hsg ltac:(lia) ltac:(lia)); lia).
  assert (Hu2 : under_q s0 q (mk_APQ x y) (set_ints s1 a2)).
  { eapply under_q_frame; [exact Hu|by apply ext_set_ints|]. apply inv_set_ints; [done|done|]. split; [done|by right]. }
  set (s2 := set_ints s1 a2) in *. assert (X2 : ext_q s s2) by (by apply ext_set_ints).
  assert (Hx2 : is_num (ints s2) x n) by (eapply is_num_ext; [apply X2|done]).
  assert (Hy2 : is_num (ints s2) y d) by (eapply is_num_ext; [apply X2|done]).
  wps. eapply wp_cmp_one; [done|exact Hrg|]. intros c Hc. destruct (c =? 0) eqn:E.
  { assert (Hg1 : Z.gcd n d = 1) by lia. wps. split; [|split; apply Hu2]. split; [|done]. split; [apply Hu|].
    exists x, y. split; [apply Hu2|]. rewrite Hn, Hdn, Hg1, !Z.quot_1_r. done. }
  assert (Hg0 : Z.gcd n d <> 0) by (rewrite Z.gcd_eq_0; lia).
  wps. eapply wp_new_rat; [apply Hu2|apply Hu2|]. intros nq s3 Hn3. pose proof (uq_ext _ _ _ _ Hn3) as X3.
  assert (Hat : forall s', ext_q s2 s' -> rats s' !! q = Some (mk_APQ x y)).
  { intros s' X'. eapply lookup_weaken; [apply Hu2|apply X']. }
  assert (Hk : forall s' z k, ext_q s2 s' -> is_num (ints s2) z k -> is_num (ints s') z k).
  { intros s' z k X' Hz. eapply is_num_ext; [apply X'|done]. }
  assert (X02 : ext_q s0 s2) by apply Hu2.
  wps. eapply wp_rat_of; [by apply Hat|]. wps.
  eapply wp_number; [by etrans|apply Hn3|apply div_value; [apply Hn3|by apply Hk|by apply Hk|done]|]. intros x' s4 X4 _ Hi4 Hini4 Hx4.
  wps. eapply wp_set_n; [by eapply under_q_frame|]. intros s5 Hn5 E5. pose proof (uq_ext _ _ _ _ Hn5) as X5. rewrite <- E5 in Hx4.
  wps. eapply wp_rat_of; [by apply Hat|]. wps.
  eapply wp_number; [by etrans|apply Hn5|apply div_value; [apply Hn5|by apply Hk|by apply Hk|done]|]. intros y' s6 X6 _ Hi6 Hini6 Hy6.
  wps. eapply wp_set_d; [by eapply under_q_frame|]. intros s7 Hn7 E7. wps. simpl in Hn7. rewrite <- E7 in Hy6, Hini6.
  split; [|split; [etrans; [exact X02|apply Hn7]|apply Hn7]]. split; [|done]. split; [apply Hn7|]. exists x', y'. split; [apply Hn7|].
  rewrite Hn, Hdn. split; [|done]. rewrite E7. eapply is_num_ext; [apply X6|done].
Qed.

Lemma reduce_spec s0 q x y n d s : under_q s0 q (mk_APQ x y) s -> initialized (ints s) ->
  is_num (ints s) x n -> is_num (ints s) y d -> d <> 0 -> wp (Cyc_reduce q) (qresult s0 (frac n d)) (q_oom s0) s.
Proof.
  intros Hu Hini Hx Hy Hd. unfold Cyc_reduce. wps. eapply wp_checked_rat; [apply Hu|apply Hu|]. simpl.
  wps. eapply wp_cmp_zero; [done|exact Hy|]. intros c Hc. destruct (c <? 0) eqn:E.
  - wps. eapply wp_number; [apply Hu|apply Hu|apply neg_value; [apply Hu|exact Hy]|]. intros y' s1 X1 _ Hi1 _ Hy1.
    wps. eapply wp_set_d; [by eapply under_q_frame|]. intros s2 Hu2 E2. wps. eapply wp_rat_of; [apply Hu2|]. simpl.
    wps. eapply wp_number; [apply Hu2|apply Hu2|apply neg_value; [apply Hu2|rewrite E2; eapply is_num_ext; [apply X1|exact Hx]]|].
    intros x' s3 X3 _ Hi3 Hini3 Hx3. wps. eapply wp_set_n; [by eapply under_q_frame|]. intros s4 Hu4 E4. simpl in Hu4.
    rewrite <- (frac_neg_neg n d) by done. eapply reduce_positive; [exact Hu4|by rewrite E4|by rewrite E4| |lia].
    rewrite E4. eapply is_num_ext; [apply X3|]. by rewrite E2.
  - apply wp_bind, wp_ret. eapply reduce_positive; [exact Hu|done|done|done|]. lia.
Qed.

Lemma fromAP_spec s0 x y n d s : ext_q s0 s -> apq_inv s -> initialized (ints s) -> is_num (ints s) x n -> is_num (ints s) y d ->
  d <> 0 -> wp (Cyc_APQ_fromAP x y) (qresult s0 (frac n d)) (q_oom s0) s.
Proof.
  intros X Hi Hini Hx Hy Hd. unfold Cyc_APQ_fromAP. wps. eapply wp_cmp_zero; [done|exact Hy|]. intros c Hc.
  destruct (c =? 0) eqn:E; [lia|]. wps. eapply wp_new_rat; [done|done|]. intros q s1 Hu1. pose proof (uq_ext _ _ _ _ Hu1) as X1.
  wps. eapply wp_set_n; [exact Hu1|]. intros s2 Hu2 E2. wps. eapply wp_set_d; [exact Hu2|]. intros s3 Hu3 E3. simpl in Hu3.
  apply (wp_q_oom _ _ _ s); [done|]. eapply wp_conseq; [eapply (reduce_spec s q x y n d); [exact Hu3| | | |done]|].
  - rewrite E3, E2. eapply initialized_ext; [apply X1|done].
  - rewrite E3, E2. eapply is_num_ext; [apply X1|done].
  - rewrite E3, E2. eapply is_num_ext; [apply X1|done].
  - intros r s4. by apply qresult_ext.
Qed.

(** The exception of a zero divisor, if memory is left for it. *)
Definition refused s (e : exn) s' : Prop := (e = Cyc_Bad_alloc \/ e = Cyc_Invalid_argument) /\ ext_q s s'.

Lemma throw_invalid_spec {A} line s0 s (Q : A -> apq_mem H -> Prop) : ext_q s0 s -> apq_inv s -> wp (throw_argument line) Q (refused s0) s.
Proof.
  intros X Hi. unfold throw_argument. wps. eapply wp_mono; [apply (wp_apq_alloc _ _ s0 s (fun _ s' => ext_q s0 s')); [done|done|unfold sizeof_Invalid_argument, INT_MAX; lia|]| |].
  - intros p a _ _ _ Xa _. by apply ext_set_ints.
  - intros p s' X'. apply wp_thrown. split; [by right|done].
  - intros e s' [-> X']. split; [by left|done].
Qed.

(** ** Arithmetic *)

Lemma rat_fromint_spec i s : apq_inv s -> -2147483648 <= i < 2147483648 -> wp (Cyc_APQ_fromint i) (qresult s (of_int i)) (q_oom s) s.
Proof.
  intros Hi Hr. unfold Cyc_APQ_fromint. wps. eapply wp_new_rat; [done|done|]. intros q s1 Hu1.
  wps. eapply wp_number; [apply Hu1|apply Hu1|apply new_spec; [apply Hu1|done]|]. intros x s2 X2 _ Hi2 Hini2 Hx2.
  wps. eapply wp_set_n; [by eapply under_q_frame|]. intros s3 Hu3 E3. wps. eapply wp_set_d; [exact Hu3|]. intros s4 Hu4 E4. wps. simpl in Hu4.
  rewrite <- E3 in Hini2, Hx2. rewrite <- E4 in Hini2, Hx2. split; [|split; apply Hu4]. split; [|done]. split; [apply Hu4|].
  exists x, (AP_one (ints s3)). split; [apply Hu4|]. rewrite <- E4. destruct Hini2 as (_ & _ & Ho).
  destruct (of_int_parts i) as [-> ->]. done.
Qed.

Lemma neg_rat s q v : apq_inv s -> is_rat s q v -> wp (Cyc_APQ_neg q) (qresult s (- v)%Qc) (q_oom s) s.
Proof.
  intros Hi [(Hq & x & y & Hl & Hx & Hy) Hini]. unfold Cyc_APQ_neg. wps. eapply wp_checked_rat; [done|exact Hl|]. simpl.
  wps. eapply wp_number; [done|done|apply neg_value; [apply Hi|exact Hx]|]. intros x' s1 X1 _ Hi1 Hini1 Hx1.
  replace (- v)%Qc with (frac (- numer v) (denom v)).
  - eapply fromAP_spec; [done|done|done|done|eapply is_num_ext; [apply X1|done]|done].
  - rewrite <- (frac_repr v) at 3. unfold frac. rewrite of_int_opp. field. by apply of_int_nonzero.
Qed.

(** The magnitude of a rational. *)
Definition Qc_abs v : Qc := if numer v <? 0 then (- v)%Qc else v.

Lemma abs_rat s q v : apq_inv s -> is_rat s q v -> wp (Cyc_APQ_abs q) (qresult s (Qc_abs v)) (q_oom s) s.
Proof.
  intros Hi [(Hq & x & y & Hl & Hx & Hy) Hini]. unfold Cyc_APQ_abs. wps. eapply wp_checked_rat; [done|exact Hl|]. simpl.
  wps. eapply wp_number; [done|done|apply abs_value; [apply Hi|exact Hx]|]. intros x' s1 X1 _ Hi1 Hini1 Hx1.
  replace (Qc_abs v) with (frac (Z.abs (numer v)) (denom v)).
  - eapply fromAP_spec; [done|done|done|done|eapply is_num_ext; [apply X1|done]|done].
  - unfold Qc_abs. destruct (numer v <? 0) eqn:E; rewrite <- (frac_repr v) at 3; unfold frac.
    + rewrite Z.abs_neq, of_int_opp by lia. field. by apply of_int_nonzero.
    + rewrite Z.abs_eq by lia. done.
Qed.

(** The least common denominator, a multiple of both. *)
Lemma lcm_quot a b : 0 < a -> 0 < b ->
  0 < Z.lcm a b /\ Z.quot (Z.lcm a b) a * a = Z.lcm a b /\ Z.quot (Z.lcm a b) b * b = Z.lcm a b.
Proof.
  intros Ha Hb. assert (Hl : 0 < Z.lcm a b). { pose proof (Z.lcm_nonneg a b). destruct (Z.eq_dec (Z.lcm a b) 0) as [E|]; [|lia]. apply Z.lcm_eq_0 in E. lia. }
  split; [done|]. destruct (Z.divide_lcm_l a b) as [x Hx], (Z.divide_lcm_r a b) as [y Hy].
  split; [rewrite Hx, Z.quot_mul by lia; done|rewrite Hy, Z.quot_mul by lia; done].
Qed.

Lemma common_spec p q u v line s (Q : Z * Z * Z -> apq_mem H -> Prop) : apq_inv s -> is_rat s p u -> is_rat s q v ->
  (forall x y z a b d s', ext_q s s' -> apq_inv s' -> initialized (ints s') -> is_num (ints s') x a -> is_num (ints s') y b -> is_num (ints s') z d ->
     0 < d -> a * denom u = numer u * d -> b * denom v = numer v * d -> Q (x, y, z) s') ->
  wp (common p q line) Q (q_oom s) s.
Proof.
  intros Hi [(Hp & xp & yp & Hlp & Hxp & Hyp) Hini] [(Hq & xq & yq & Hlq & Hxq & Hyq) _] HQ. unfold common.
  wps. eapply wp_checked_rat; [done|exact Hlp|]. wps. eapply wp_checked_rat; [done|exact Hlq|]. simpl.
  destruct (lcm_quot (denom u) (denom v) ltac:(done) ltac:(done)) as (Hl & H1 & H2).
  wps. eapply wp_on_ints; [done|apply lcm_signed; [apply Hi|exact Hyp|exact Hyq|by left]|].
  intros z a1 (l & Habs & Hsg & Hz & Xa & Hh1 & Hini1). assert (l = Z.lcm (denom u) (denom v)) as -> by (specialize (Hsg ltac:(lia) ltac:(lia)); lia).
  set (s1 := set_ints s a1). assert (X1 : ext_q s s1) by (by apply ext_set_ints).
  assert (Hi1 : apq_inv s1) by (apply inv_set_ints; [done|done|split; [done|by right]]).
  assert (Hk : forall s' w k, ext_q s1 s' -> is_num (ints s) w k -> is_num (ints s') w k).
  { intros s' w k X' Hw. eapply is_num_ext; [apply X'|]. by eapply is_num_ext. }
  wps. eapply wp_number; [done|done|apply div_value; [apply Hi1|exact Hz|by apply Hk|done]|]. intros px s2 X2 _ Hi2 _ Hpx.
  wps. eapply wp_number; [by etrans|done|apply div_value; [apply Hi2|eapply is_num_ext; [apply X2|exact Hz]|by apply Hk|done]|]. intros qx s3 X3 _ Hi3 _ Hqx.
  assert (X13 : ext_q s1 s3) by (by etrans). apply (is_num_ext _ (ints s3)) in Hpx; [|apply X3].
  wps. eapply wp_number; [by etrans|done|apply mul_value; [apply Hi3|by apply Hk|exact Hpx]|]. intros x s4 X4 _ Hi4 _ Hx.
  assert (X14 : ext_q s1 s4) by (by etrans). apply (is_num_ext _ (ints s4)) in Hqx; [|apply X4].
  wps. eapply wp_number; [by etrans|done|apply mul_value; [apply Hi4|by apply Hk|exact Hqx]|]. intros y s5 X5 _ Hi5 Hini5 Hy.
  assert (X15 : ext_q s1 s5) by (by etrans).
  wps. eapply (HQ x y z); [by etrans|done|done|eapply is_num_ext; [apply X5|exact Hx]|exact Hy|eapply is_num_ext; [apply X15|exact Hz]|done| |].
  - by rewrite <- Z.mul_assoc, H1.
  - by rewrite <- Z.mul_assoc, H2.
Qed.

(** A rational by cross-multiplication. *)
Lemma frac_scaled v a d : d <> 0 -> a * denom v = numer v * d -> frac a d = v.
Proof.
  intros Hd E. rewrite <- (frac_repr v). unfold frac.
  assert (Ea : (of_int a * of_int (denom v) = of_int (numer v) * of_int d)%Qc) by (by rewrite <- !of_int_mul, E).
  assert (of_int a = of_int (numer v) * of_int d / of_int (denom v))%Qc as ->.
  { rewrite <- Ea. field. by apply of_int_nonzero. }
  field. split; by apply of_int_nonzero.
Qed.

Lemma frac_add a b d : frac (a + b) d = (frac a d + frac b d)%Qc.
Proof. unfold frac, Qcdiv. rewrite of_int_add. ring. Qed.

Lemma frac_sub a b d : frac (a - b) d = (frac a d - frac b d)%Qc.
Proof. unfold frac, Qcdiv. rewrite <- Z.add_opp_r, of_int_add, of_int_opp. ring. Qed.

Lemma frac_mul a b c d : b <> 0 -> d <> 0 -> frac (a * c) (b * d) = (frac a b * frac c d)%Qc.
Proof. intros Hb Hd. unfold frac. rewrite !of_int_mul. field. split; by apply of_int_nonzero. Qed.

Lemma frac_div a b c d : b <> 0 -> c <> 0 -> d <> 0 -> frac (a * d) (b * c) = (frac a b / frac c d)%Qc.
Proof.
  intros Hb Hc Hd. unfold frac. rewrite !of_int_mul. field. split_and!; try by apply of_int_nonzero.
Qed.

Section binary.
Context (s : apq_mem H) (p q : Z) (u v : Qc) (Hi : apq_inv s) (Hp : is_rat s p u) (Hq : is_rat s q v).

Lemma add_rat : wp (Cyc_APQ_add p q) (qresult s (u + v)%Qc) (q_oom s) s.
Proof.
  unfold Cyc_APQ_add. wps. eapply common_spec; [done|exact Hp|exact Hq|]. intros x y z a b d s1 X1 Hi1 _ Hx Hy Hz Hd Ha Hb.
  wps. eapply wp_number; [done|done|apply add_value; [apply Hi1|exact Hx|exact Hy]|]. intros n s2 X2 _ Hi2 Hini2 Hn.
  rewrite <- (frac_scaled u a d), <- (frac_scaled v b d), <- frac_add by (done || lia).
  eapply fromAP_spec; [by etrans|done|done|done|eapply is_num_ext; [apply X2|done]|lia].
Qed.

Lemma sub_rat : wp (Cyc_APQ_sub p q) (qresult s (u - v)%Qc) (q_oom s) s.
Proof.
  unfold Cyc_APQ_sub. wps. eapply common_spec; [done|exact Hp|exact Hq|]. intros x y z a b d s1 X1 Hi1 _ Hx Hy Hz Hd Ha Hb.
  wps. eapply wp_number; [done|done|apply sub_value; [apply Hi1|exact Hx|exact Hy]|]. intros n s2 X2 _ Hi2 Hini2 Hn.
  rewrite <- (frac_scaled u a d), <- (frac_scaled v b d), <- frac_sub by (done || lia).
  eapply fromAP_spec; [by etrans|done|done|done|eapply is_num_ext; [apply X2|done]|lia].
Qed.

(** Two products over each other. *)
Lemma products_spec x1 x2 y1 y2 a1 a2 b1 b2 : is_num (ints s) x1 a1 -> is_num (ints s) x2 a2 -> is_num (ints s) y1 b1 -> is_num (ints s) y2 b2 ->
  b1 <> 0 -> b2 <> 0 ->
  wp (n ← on_ints (Cyc_AP_mul x1 x2); d ← on_ints (Cyc_AP_mul y1 y2); Cyc_APQ_fromAP n d) (qresult s (frac (a1 * a2) (b1 * b2))) (q_oom s) s.
Proof.
  intros H1 H2 H3 H4 N1 N2. wps. eapply wp_number; [done|done|apply mul_value; [apply Hi|exact H1|exact H2]|]. intros n s1 X1 _ Hi1 _ Hn.
  wps. eapply wp_number; [done|done|apply mul_value; [apply Hi1|eapply is_num_ext; [apply X1|exact H3]|eapply is_num_ext; [apply X1|exact H4]]|].
  intros d s2 X2 _ Hi2 Hini2 Hd. eapply fromAP_spec; [by etrans|done|done|eapply is_num_ext; [apply X2|exact Hn]|exact Hd|]. by apply Z.neq_mul_0.
Qed.

Lemma mul_rat : wp (Cyc_APQ_mul p q) (qresult s (u * v)%Qc) (q_oom s) s.
Proof.
  destruct Hp as [(Hp0 & xp & yp & Hlp & Hxp & Hyp) _], Hq as [(Hq0 & xq & yq & Hlq & Hxq & Hyq) _]. unfold Cyc_APQ_mul.
  wps. eapply wp_checked_rat; [done|exact Hlp|]. wps. eapply wp_checked_rat; [done|exact Hlq|]. simpl.
  rewrite <- (frac_repr u), <- (frac_repr v), <- frac_mul by done. by apply products_spec.
Qed.

Lemma div_rat : v <> 0%Qc -> wp (Cyc_APQ_div p q) (qresult s (u / v)%Qc) (q_oom s) s.
Proof.
  intros Hv. destruct Hp as [(Hp0 & xp & yp & Hlp & Hxp & Hyp) Hini], Hq as [(Hq0 & xq & yq & Hlq & Hxq & Hyq) _]. unfold Cyc_APQ_div.
  assert (Hn : numer v <> 0). { intros E. apply Hv. rewrite <- (frac_repr v), E. unfold frac, Qcdiv. change (of_int 0) with 0%Qc. ring. }
  wps. eapply wp_checked_rat; [done|exact Hlq|]. simpl. wps. eapply wp_cmp_zero; [done|exact Hxq|]. intros c Hc. destruct (c =? 0) eqn:E; [lia|].
  wps. eapply wp_checked_rat; [done|exact Hlp|]. simpl. rewrite <- (frac_repr u), <- (frac_repr v), <- frac_div by done. by apply products_spec.
Qed.

Lemma div_zero : v = 0%Qc -> wp (Cyc_APQ_div p q) (fun _ _ => False) (refused s) s.
Proof.
  intros Hv. destruct Hq as [(Hq0 & xq & yq & Hlq & Hxq & Hyq) Hini]. unfold Cyc_APQ_div. rewrite Hv in Hxq. simpl in Hxq.
  wps. eapply wp_checked_rat; [done|exact Hlq|]. simpl. wps. eapply wp_cmp_zero; [done|exact Hxq|]. intros c Hc.
  destruct (c =? 0) eqn:E; [|simpl in Hc; lia]. by apply throw_invalid_spec.
Qed.

Lemma cmp_rat (Q : Z -> apq_mem H -> Prop) :
  (forall c s', Z.sgn c = match (u ?= v)%Qc with Lt => -1 | Eq => 0 | Gt => 1 end -> ext_q s s' -> apq_inv s' -> Q c s') -> wp (Cyc_APQ_cmp p q) Q (q_oom s) s.
Proof.
  intros HQ. unfold Cyc_APQ_cmp. wps. eapply common_spec; [done|exact Hp|exact Hq|]. intros x y z a b d s1 X1 Hi1 _ Hx Hy Hz Hd Ha Hb.
  eapply wp_compare_rat; [exact Hx|exact Hy|]. intros c Hc. apply HQ; [|done|done]. rewrite Hc.
  unfold Qccompare, Qcompare. assert (Hs : Z.sgn (a - b) = Z.sgn (numer u * denom v - numer v * denom u)).
  { assert (0 < denom u * denom v) by lia. rewrite <- (Z.mul_1_l (Z.sgn (a - b))), <- (Z.mul_1_l (Z.sgn (numer u * _ - _))).
    rewrite <- (Z.sgn_pos (denom u * denom v)) at 1 by done. rewrite <- (Z.sgn_pos d) by done. rewrite <- !Z.sgn_mul. f_equal.
    transitivity (a * denom u * denom v - b * denom v * denom u); [ring|]. rewrite Ha, Hb. ring. }
  rewrite Hs. destruct (Z.compare_spec (numer u * denom v) (numer v * denom u)); lia.
Qed.
End binary.
End apq.
