(* ===== verification/APQRefine.v ===== *)
(** * Programs on rationals compute in the field of rationals

    A program names its rationals by their position in a pool, as in APRefine.v;
    the abstract program computes in [Qc].  Division by zero is an outcome of its
    own. *)

From Stdlib Require Import QArith.
From stdpp Require Import numbers.
From S2P Require Import Prelude RwLock Alloc Region RegionSafety Words FatPtr ZeroTerm CycBytes ByteMem CycXP XPSpec CycAP APSpec APArith APDiv APPow APRefine APString CycAPQ APQSpec.
From Stdlib Require Import Qcanon.
#[local] Open Scope Z_scope.

Inductive qbin : Type := QAdd | QSub | QMul | QDiv.
Inductive qun : Type := QNeg | QAbs.

Inductive qop : Type :=
  | QNew (i : Z)
  | QBin (o : qbin) (i j : nat)
  | QUn (o : qun) (i : nat)
  | QCmp (i j : nat).

(** ** The field *)

(** [None] for a program that names a rational it does not have or an integer
    that is none of the machine; [Some None] when it divides by zero. *)
Definition outcome : Type := option (option (list Qc * list Z)).

Definition spec_qbin (o : qbin) (u v : Qc) : option Qc :=
  match o with
  | QAdd => Some (u + v)%Qc
  | QSub => Some (u - v)%Qc
  | QMul => Some (u * v)%Qc
  | QDiv => if Qc_eq_dec v 0%Qc then None else Some (u / v)%Qc
  end.

Definition spec_qun (o : qun) (v : Qc) : Qc := match o with QNeg => (- v)%Qc | QAbs => Qc_abs v end.

Definition order (c : comparison) : Z := match c with Lt => -1 | Eq => 0 | Gt => 1 end.

Definition spec_qop (o : qop) (vs : list Qc) : outcome :=
  match o with
  | QNew i => if long_ok i then Some (Some (vs ++ [of_int i], [])) else None
  | QBin o i j => u ← vs !! i; v ← vs !! j; Some (r ← spec_qbin o u v; Some (vs ++ [r], []))
  | QUn o i => v ← vs !! i; Some (Some (vs ++ [spec_qun o v], []))
  | QCmp i j => u ← vs !! i; v ← vs !! j; Some (Some (vs, [order (u ?= v)%Qc]))
  end.

Fixpoint spec_qops (os : list qop) (vs : list Qc) : outcome :=
  match os with
  | [] => Some (Some (vs, []))
  | o :: os =>
      r ← spec_qop o vs;
      match r with
      | None => Some None
      | Some (vs, r) => t ← spec_qops os vs; Some ('(vs, l) ← t; Some (vs, r ++ l))
      end
  end.

(** ** The code *)

Section run.
Context {H : Type} `{HH : Heap H}.
Abbreviation M := (ST (apq_mem H)).

Definition run_qbin (o : qbin) : Z -> Z -> M Z :=
  match o with QAdd => Cyc_APQ_add | QSub => Cyc_APQ_sub | QMul => Cyc_APQ_mul | QDiv => Cyc_APQ_div end.

Definition run_qun (o : qun) : Z -> M Z := match o with QNeg => Cyc_APQ_neg | QAbs => Cyc_APQ_abs end.

Definition nth_rat (pool : list Z) (i : nat) : M Z := match pool !! i with Some x => mret x | None => lift Undef end.

Definition run_qop (o : qop) (pool : list Z) : M (list Z * list Z) :=
  match o with
  | QNew i => q ← Cyc_APQ_fromint i; mret (pool ++ [q], [])
  | QBin o i j => p ← nth_rat pool i; q ← nth_rat pool j; r ← run_qbin o p q; mret (pool ++ [r], [])
  | QUn o i => q ← nth_rat pool i; r ← run_qun o q; mret (pool ++ [r], [])
  | QCmp i j => p ← nth_rat pool i; q ← nth_rat pool j; c ← Cyc_APQ_cmp p q; mret (pool, [Z.sgn c])
  end.

Fixpoint run_qops (os : list qop) (pool : list Z) : M (list Z * list Z) :=
  match os with
  | [] => mret (pool, [])
  | o :: os => '(pool, r) ← run_qop o pool; '(pool, l) ← run_qops os pool; mret (pool, r ++ l)
  end.
End run.

(** ** Refinement *)

Section refine.
Context {H : Type} `{HH : Heap H} `{!HeapLaws H}.
Implicit Types (s : apq_mem H).

(** What running a program with this outcome gives. *)
Definition ends (o : option (list Qc * list Z)) s (r : list Z * list Z) s' : Prop :=
  exists vs l, o = Some (vs, l) /\ r.2 = l /\ Forall2 (is_rat s') r.1 vs /\ ext_q s s' /\ apq_inv s'.

Definition fails (o : option (list Qc * list Z)) s (e : exn) s' : Prop :=
  (e = Cyc_Bad_alloc \/ (e = Cyc_Invalid_argument /\ o = None)) /\ ext_q s s'.

Lemma wp_fails {A} (c : ST (apq_mem H) A) Q o s : wp c Q (q_oom s) s -> wp c Q (fails o s) s.
Proof. intros Hc. eapply wp_mono; [exact Hc|done|]. intros e s' [-> X]. split; [by left|done]. Qed.

Lemma pool_ext s s' pool vs : ext_q s s' -> Forall2 (is_rat s) pool vs -> Forall2 (is_rat s') pool vs.
Proof. intros X Hd. eapply Forall2_impl; [exact Hd|]. intros q v. by apply is_rat_ext. Qed.

Lemma wp_nth_rat s pool vs i v (Q : Z -> apq_mem H -> Prop) E : Forall2 (is_rat s) pool vs -> vs !! i = Some v ->
  (forall q, is_rat s q v -> Q q s) -> wp (nth_rat pool i) Q E s.
Proof.
  intros Hd Hv HQ. destruct (Forall2_lookup_r _ _ _ _ _ Hd Hv) as (q & Hq & Hr). unfold nth_rat. rewrite Hq. by apply wp_ret, HQ.
Qed.

Lemma run_qbin_spec o s p q u v : apq_inv s -> is_rat s p u -> is_rat s q v ->
  wp (run_qbin o p q) (fun r s' => exists w, spec_qbin o u v = Some w /\ qresult s w r s')
    (fun e s' => (e = Cyc_Bad_alloc \/ (e = Cyc_Invalid_argument /\ spec_qbin o u v = None)) /\ ext_q s s') s.
Proof.
  intros Hi Hp Hq.
  assert (Hc : forall (c : ST (apq_mem H) Z) w, spec_qbin o u v = Some w -> wp c (qresult s w) (q_oom s) s ->
    wp c (fun r s' => exists w, spec_qbin o u v = Some w /\ qresult s w r s')
      (fun e s' => (e = Cyc_Bad_alloc \/ (e = Cyc_Invalid_argument /\ spec_qbin o u v = None)) /\ ext_q s s') s).
  { intros c w Hw Hc. eapply wp_mono; [exact Hc|eauto|]. intros e s' [-> X]. split; [by left|done]. }
  destruct o; simpl in *; [by eapply Hc, add_rat|by eapply Hc, sub_rat|by eapply Hc, mul_rat|].
  destruct (Qc_eq_dec v 0%Qc) as [Hz|Hz]; [|by eapply Hc, div_rat].
  eapply wp_mono; [by eapply (div_zero s p q v)|done|]. intros e s' [[->| ->] X]; (split; [|done]); [by left|by right].
Qed.

Lemma run_qun_spec o s q v : apq_inv s -> is_rat s q v -> wp (run_qun o q) (qresult s (spec_qun o v)) (q_oom s) s.
Proof. destruct o; [apply neg_rat|apply abs_rat]. Qed.

Lemma push_rat s pool vs q v s' : Forall2 (is_rat s) pool vs -> qresult s v q s' -> ends (Some (vs ++ [v], [])) s (pool ++ [q], []) s'.
Proof.
  intros Hd (Hq & X & Hi). exists (vs ++ [v]), []. split_and!; [done|done| |done|done]. simpl.
  apply Forall2_app; [by eapply pool_ext|by constructor].
Qed.

Lemma run_qop_spec o s pool vs out : apq_inv s -> Forall2 (is_rat s) pool vs -> spec_qop o vs = Some out ->
  wp (run_qop o pool) (ends out s) (fails out s) s.
Proof.
  intros Hi Hd Ho. destruct o as [i|o i j|o i|i j]; simpl in Ho |- *.
  - destruct (long_ok i) eqn:El; simplify_eq. wps. apply wp_fails. eapply wp_conseq; [by apply rat_fromint_spec, long_ok_true|].
    intros q s' Hq. wps. by apply push_rat.
  - destruct (vs !! i) as [u|] eqn:Eu; [|done]. destruct (vs !! j) as [v|] eqn:Ev; simplify_eq/=.
    wps. eapply wp_nth_rat; [done|exact Eu|]. intros p Hp. wps. eapply wp_nth_rat; [done|exact Ev|]. intros q Hq.
    wps. eapply wp_mono; [by apply (run_qbin_spec o s p q u v)| |].
    + intros r s' (w & -> & Hr). wps. by apply push_rat.
    + intros e s' [[->|[-> ->]] X]; (split; [|done]); [by left|by right].
  - destruct (vs !! i) as [v|] eqn:Ev; simplify_eq/=. wps. eapply wp_nth_rat; [done|exact Ev|]. intros q Hq.
    wps. apply wp_fails. eapply wp_conseq; [by apply run_qun_spec|]. intros r s' Hr. wps. by apply push_rat.
  - destruct (vs !! i) as [u|] eqn:Eu; [|done]. destruct (vs !! j) as [v|] eqn:Ev; simplify_eq/=.
    wps. eapply wp_nth_rat; [done|exact Eu|]. intros p Hp. wps. eapply wp_nth_rat; [done|exact Ev|]. intros q Hq.
    wps. apply wp_fails. eapply cmp_rat; [done|exact Hp|exact Hq|]. intros c s' Hc X Hi'. wps.
    exists vs, [order (u ?= v)%Qc]. split_and!; [done|simpl; by rewrite Hc|by eapply pool_ext|done|done].
Qed.

(** C17. Arbitrary-precision rationals refine the field of rational numbers.  A
    program of additions, subtractions, multiplications, divisions, negations,
    magnitudes and comparisons ends with objects that hold exactly the values of
    the abstract program, each in lowest terms with a positive denominator, and
    with its answers; or it throws [Invalid_argument] exactly where the abstract
    program divides by zero; or memory runs out.  In every case the rationals there
    were are as they were. *)
Theorem apq_programs_refine os s pool vs out : apq_inv s -> Forall2 (is_rat s) pool vs -> spec_qops os vs = Some out ->
  wp (run_qops os pool) (ends out s) (fails out s) s.
Proof.
  revert s pool vs out. induction os as [|o os IH]; intros s pool vs out Hi Hd Ho; simpl in Ho |- *.
  { simplify_eq. wps. exists vs, []. split_and!; done. }
  destruct (spec_qop o vs) as [o1|] eqn:E1; [|done]. simpl in Ho.
  wps. eapply wp_mono; [by apply (run_qop_spec o s pool vs o1)| |].
  - intros [pool1 r1] s1 (vs1 & l1 & -> & <- & Hd1 & X1 & Hi1). simpl in *. destruct (spec_qops os vs1) as [o2|] eqn:E2; simplify_eq/=.
    wps. eapply wp_mono; [by apply (IH s1 pool1 vs1 o2)| |].
    + intros [pool2 r2] s2 (vs2 & l2 & -> & <- & Hd2 & X2 & Hi2). wps. exists vs2, (r1 ++ r2). split_and!; [done|done|done|by etrans|done].
    + intros e s2 [[->|[-> ->]] X2]; (split; [|by etrans]); [by left|by right].
  - intros e s1 [[->|[-> ->]] X1]; (split; [|done]); [by left|]. simplify_eq. by right.
Qed.
End refine.

(** ** Examples *)

Definition ex_apq : apq_mem bump := mk_apq_mem ∅ ex_ap.

Lemma ex_apq_ok : apq_inv ex_apq.
Proof. split; [exact ex_ap_ok|]. intros q [t Ht]. exfalso. unfold ex_apq in Ht. cbn [rats] in Ht. rewrite lookup_empty in Ht. discriminate Ht. Qed.

(** [6/4], its difference to [5/3], the quotient [-9], and comparisons. *)
Definition ex_qops : list qop :=
  [QNew 6; QNew (-4); QBin QDiv 0 1; QNew 5; QNew 3; QBin QDiv 3 4; QUn QAbs 2; QBin QSub 6 5; QBin QDiv 6 7; QCmp 2 6; QCmp 5 5; QCmp 5 6].

Lemma apq_programs_refine_witness : exists pool s', run_qops ex_qops [] ex_apq = (Ret (pool, [-1; 0; 1]), s') /\
  holds_frac s' (pool !!! 2%nat) (-3) 2 /\ holds_frac s' (pool !!! 7%nat) (-1) 6 /\ holds_frac s' (pool !!! 8%nat) (-9) 1 /\
  wp (run_qops [QNew 0; QBin QDiv 0 0] []) (fun _ _ => False) (fails None ex_apq) ex_apq.
Proof.
  pose proof (apq_programs_refine ex_qops ex_apq [] [] _ ex_apq_ok ltac:(constructor) ltac:(vm_compute; reflexivity)) as Hw.
  pose proof (apq_programs_refine [QNew 0; QBin QDiv 0 0] ex_apq [] [] _ ex_apq_ok ltac:(constructor) ltac:(vm_compute; reflexivity)) as Hz.
  assert (Hr : exists pool s', run_qops ex_qops [] ex_apq = (Ret (pool, [-1; 0; 1]), s')) by (eexists _, _; vm_compute; reflexivity).
  destruct Hr as (pool & s' & Hr). exists pool, s'. split; [exact Hr|].
  destruct (wp_result _ _ _ _ _ _ Hw Hr) as (vs & l & Ho & _ & Hd & _). simpl in Hd. injection Ho as Hvs _. rewrite <- Hvs in Hd.
  assert (Hat : forall i v, vs !! i = Some v -> holds_frac s' (pool !!! i) (numer v) (denom v)).
  { intros i v Hv. rewrite Hvs in Hd. destruct (Forall2_lookup_r _ _ _ _ _ Hd Hv) as (q & Hq & [Hf _]).
    rewrite (list_lookup_total_correct _ _ _ Hq). exact Hf. }
  rewrite <- Hvs in Hat. split; [exact (Hat 2%nat _ eq_refl)|]. split; [exact (Hat 7%nat _ eq_refl)|]. split; [exact (Hat 8%nat _ eq_refl)|].
  eapply wp_conseq; [exact Hz|]. intros r s1 (? & ? & E & _). discriminate E.
Defined.

(** Strings: [" 6/-4"] is [-3/2]; a zero divisor is refused. *)
Definition rat_value (c : ST (apq_mem bump) Z) (s : apq_mem bump) : out (Z * Z) :=
  ((q ← c; t ← rat_of q; n ← on_ints (Cyc_AP_toint (q_n t)); d ← on_ints (Cyc_AP_toint (q_d t)); mret (n, d)) s).1.

Definition ex_fraction (cs : list Z) : out (Z * Z) :=
  rat_value (Cyc_APQ_fromstr (_tag_fat 500 1 (Z.of_nat (length cs) + 1)) 10) (mk_apq_mem ∅ (ex_text cs)).

Example fromstr_fractions : ex_fraction [32; 54; 47; 45; 52] = Ret (-3, 2) /\ ex_fraction [49; 50] = Ret (12, 1) /\
  ex_fraction [49; 47; 48] = Thrown Cyc_Invalid_argument apq_cyc 52.
Proof. by vm_compute. Qed.
