(* ===== verification/CycArray.v ===== *)
(** * The array library

    Models src/bin/genfiles/array.c on arrays of words behind fat pointers: the
    quick sort with its explicit stack of pending files, the merge sort, and the
    functions that copy, map, fold, search, reverse, zip, split and extract.  The
    comparison of the sorts receives the addresses of two elements. *)

From S2P Require Import Prelude Alloc RwLock Region DynRegion Words CycList FatPtr.

Definition array_cyc : string := "array.cyc".

Definition Cyc_Array_Array_mismatch : exn := Cyc_Other_exn "Array_mismatch".

Section array.
Context {H : Type} `{Heap H}.
Abbreviation M := (ST (mem H)).

(** ** Accesses *)

(** [&arr[i]] with and without the check, and as an argument of a function. *)
Definition elem_at (arr : fat_ptr) (i line : Z) : M Z := lift (_check_fat_subscript arr 4 i array_cyc line).
Definition elem_unchecked (arr : fat_ptr) (i : Z) : Z := u32 (curr arr + 4 * i).
Definition elem_ptr (arr : fat_ptr) (i line : Z) : M Z :=
  p ← lift (_untag_fat_ptr (_fat_ptr_plus arr 4 i) 4 1 array_cyc line); lift (_check_null p array_cyc line).

Definition get_elem (arr : fat_ptr) (i line : Z) : M Z := a ← elem_at arr i line; get_word a.
Definition put_elem (arr : fat_ptr) (i v line : Z) : M unit := a ← elem_at arr i line; store_word a v.

(** [throw new Core::Invalid_argument(...)] *)
Definition throw_Invalid_argument {A} (line : Z) : M A :=
  cycalloc_words 4 array_cyc line;; lift (Thrown Cyc_Core_Invalid_argument array_cyc line).

(** [new {for i < n : f(i)}] *)
Definition new_elems (n line : Z) (f : Z -> M Z) : M fat_ptr :=
  lift (_check_times n 4 array_cyc line);;
  p ← cycalloc_words (Z.to_nat n) array_cyc line;
  fill_array p n f;; mret (_tag_fat p 4 n).

(** ** Quick sort *)

Section sort.
Context (less_eq : Z -> Z -> M Z).

(** [less_eq(&arr[i], &arr[j])] *)
Definition compare_elems (arr : fat_ptr) (i j line : Z) : M Z :=
  p ← elem_ptr arr i line; q ← elem_ptr arr j line; less_eq p q.

(** The exchanges of two elements, which differ in the accesses that are checked. *)
Definition swap_checked (arr : fat_ptr) (i j line : Z) : M unit :=
  temp ← get_elem arr i line; v ← get_elem arr j line;
  store_word (elem_unchecked arr i) v;; store_word (elem_unchecked arr j) temp.
Definition swap_base (arr : fat_ptr) (base_ofs j line : Z) : M unit :=
  temp ← get_word (elem_unchecked arr base_ofs); v ← get_elem arr j line;
  store_word (elem_unchecked arr base_ofs) v;; store_word (elem_unchecked arr j) temp.
Definition swap_with_base (arr : fat_ptr) (i base_ofs line : Z) : M unit :=
  temp ← get_elem arr i line; v ← get_word (elem_unchecked arr base_ofs);
  store_word (elem_unchecked arr i) v;; store_word (elem_unchecked arr base_ofs) temp.
Definition swap_middle (arr : fat_ptr) (mid base_ofs line : Z) : M unit :=
  temp ← get_elem arr mid line; v ← get_elem arr base_ofs line;
  put_elem arr mid v line;; store_word (elem_unchecked arr base_ofs) temp.
Definition swap_next (arr : fat_ptr) (j line : Z) : M unit :=
  temp ← get_elem arr j line; v ← get_elem arr (i32 (j + 1)) line;
  store_word (elem_unchecked arr j) v;; put_elem arr (i32 (j + 1)) temp line.

(** The median of the first, the middle and the last element becomes the first. *)
Definition median (arr : fat_ptr) (base_ofs limit_ofs i j : Z) : M unit :=
  swap_middle arr (i32 (Z.quot (i32 (limit_ofs - base_ofs)) 2 + base_ofs)) base_ofs 78;;
  c ← compare_elems arr i j 81; (if 0 <? c then swap_checked arr i j 82 else mret tt);;
  c ← compare_elems arr base_ofs j 83; (if 0 <? c then swap_base arr base_ofs j 84 else mret tt);;
  c ← compare_elems arr i base_ofs 85; (if 0 <? c then swap_with_base arr i base_ofs 86 else mret tt).

(** [do ++i; while (arr[i] < arr[base])] and [do --j; while (arr[j] > arr[base])] *)
Definition scan_up (fuel : nat) (arr : fat_ptr) (base_ofs i : Z) : M Z :=
  loop fuel (fun i =>
    let i := i32 (i + 1) in
    c ← compare_elems arr i base_ofs 90; if c <? 0 then mret (inl i) else mret (inr i)) i.
Definition scan_down (fuel : nat) (arr : fat_ptr) (base_ofs j : Z) : M Z :=
  loop fuel (fun j =>
    let j := i32 (j - 1) in
    c ← compare_elems arr j base_ofs 93; if 0 <? c then mret (inl j) else mret (inr j)) j.

(** The indices where the scans have crossed. *)
Definition partition (fuel : nat) (arr : fat_ptr) (base_ofs i j : Z) : M (Z * Z) :=
  loop fuel (fun '(i, j) =>
    i ← scan_up fuel arr base_ofs i;
    j ← scan_down fuel arr base_ofs j;
    if j <? i then mret (inr (i, j)) else swap_checked arr i j 96;; mret (inl (i, j))) (i, j).

(** [for (; arr[j] > arr[j+1]; --j) { swap; if (j == base) break; }] *)
Definition sift (fuel : nat) (arr : fat_ptr) (base_ofs j : Z) : M unit :=
  loop fuel (fun j =>
    c ← (p ← elem_ptr arr j 112;
         q ← lift (_untag_fat_ptr (_fat_ptr_plus (_fat_ptr_plus arr 4 j) 4 1) 4 1 array_cyc 112);
         q ← lift (_check_null q array_cyc 112); less_eq p q);
    if 0 <? c then
      swap_next arr j 113;;
      if j =? base_ofs then mret (inr tt) else mret (inl (i32 (j - 1)))
    else mret (inr tt)) j.

Definition insertion_sort (fuel : nat) (arr : fat_ptr) (base_ofs limit_ofs : Z) : M unit :=
  loop fuel (fun '(j, i) =>
    if i <? limit_ofs then sift fuel arr base_ofs j;; mret (inl (i, i32 (i + 1))) else mret (inr tt))
    (base_ofs, i32 (base_ofs + 1)).

(** The array [int sp[40]] on the stack: its elements have no value before they
    are written. *)
Definition sp_store (sp : gmap Z Z) (i v line : Z) : M (gmap Z Z) :=
  a ← lift (_check_known_subscript_notnull 0 40 4 i array_cyc line); mret (<[a := v]> sp).
Definition sp_load (sp : gmap Z Z) (i line : Z) : M Z :=
  a ← lift (_check_known_subscript_notnull 0 40 4 i array_cyc line); lift (load sp a).

(** One round of the main loop on [base_ofs], [limit_ofs], [sp_ofs] and [sp]. *)
Definition qsort_round (fuel : nat) (arr : fat_ptr) (x : Z * Z * (Z * gmap Z Z)) : M (Z * Z * (Z * gmap Z Z) + unit) :=
  let '(base_ofs, limit_ofs, (sp_ofs, sp)) := x in
  if 3 <? i32 (limit_ofs - base_ofs) then
    let i := i32 (base_ofs + 1) in let j := i32 (limit_ofs - 1) in
    median arr base_ofs limit_ofs i j;;
    '(i, j) ← partition fuel arr base_ofs i j;
    swap_base arr base_ofs j 98;;
    if i32 (limit_ofs - i) <? i32 (j - base_ofs) then
      sp ← sp_store sp sp_ofs base_ofs 101; sp ← sp_store sp (i32 (sp_ofs + 1)) j 102;
      mret (inl (i, limit_ofs, (i32 (sp_ofs + 2), sp)))
    else
      sp ← sp_store sp sp_ofs i 105; sp ← sp_store sp (i32 (sp_ofs + 1)) limit_ofs 106;
      mret (inl (base_ofs, j, (i32 (sp_ofs + 2), sp)))
  else
    insertion_sort fuel arr base_ofs limit_ofs;;
    if negb (sp_ofs =? 0) then
      let sp_ofs := i32 (sp_ofs - 2) in
      base_ofs ← sp_load sp sp_ofs 119; limit_ofs ← sp_load sp (i32 (sp_ofs + 1)) 120;
      mret (inl (base_ofs, limit_ofs, (sp_ofs, sp)))
    else mret (inr tt).

Definition Cyc_Array_qsort (arr : fat_ptr) (len : Z) : M unit :=
  let base_ofs := 0 in
  if ((base_ofs <? 0) || (_get_fat_size arr 4 <? u32 (i32 (base_ofs + len)))) || (len <? 0) then throw_Invalid_argument 70
  else
    let limit_ofs := i32 (base_ofs + len) in
    loop (2 + 2 * Z.to_nat len) (qsort_round (S (Z.to_nat len)) arr) (base_ofs, limit_ofs, (0, ∅)).

(** ** Merge sort *)

(** [to[dest++] = from[k++]] *)
Definition move_elem (from to : fat_ptr) (k dest line : Z) : M (Z * Z) :=
  v ← get_elem from k line; put_elem to dest v line;; mret (i32 (k + 1), i32 (dest + 1)).

(** [while (k < e) to[dest++] = from[k++];] *)
Definition move_rest (fuel : nat) (from to : fat_ptr) (k e dest line : Z) : M Z :=
  loop fuel (fun '(k, dest) =>
    if k <? e then '(k, dest) ← move_elem from to k dest line; mret (inl (k, dest)) else mret (inr dest)) (k, dest).

(** The merge of two neighbouring runs. *)
Definition merge_runs (fuel : nat) (from to : fat_ptr) (lstart lend rstart rend dest : Z) : M Z :=
  '(lstart, rstart, dest) ← loop fuel (fun '(lstart, rstart, dest) =>
    if (lstart <? lend) && (rstart <? rend) then
      p ← elem_ptr from lstart 175; q ← elem_ptr from rstart 175; c ← less_eq p q;
      if c <=? 0 then '(lstart, dest) ← move_elem from to lstart dest 176; mret (inl (lstart, rstart, dest))
      else '(rstart, dest) ← move_elem from to rstart dest 178; mret (inl (lstart, rstart, dest))
    else mret (inr (lstart, rstart, dest))) (lstart, rstart, dest);
  dest ← move_rest fuel from to lstart lend dest 184;
  move_rest fuel from to rstart rend dest 187.

(** All runs of one step size. *)
Definition merge_pass (fuel : nat) (from to : fat_ptr) (stepsize len : Z) : M unit :=
  loop fuel (fun '(start, dest) =>
    if start <? len then
      let rstart := if i32 (start + stepsize) <? len then i32 (start + stepsize) else len in
      let rend := if i32 (start + i32 (stepsize * 2)) <? len then i32 (start + i32 (stepsize * 2)) else len in
      dest ← merge_runs fuel from to start rstart rstart rend dest;
      mret (inl (i32 (start + i32 (stepsize * 2)), dest))
    else mret (inr tt)) (0, 0).

Definition Cyc_Array_msort (arr : fat_ptr) (len : Z) : M unit :=
  if (_get_fat_size arr 4 <? u32 len) || (len <? 0) then throw_Invalid_argument 143
  else
    let fuel := S (Z.to_nat len) in
    from ← new_elems (u32 len) 142 (fun _ => get_elem arr 0 142);
    let to := arr in
    let swapped := 0 in
    '(from, to) ← loop fuel (fun '(stepsize, (from, to)) =>
      if stepsize <? len then
        let swap := from in let from := to in let to := swap in
        merge_pass fuel from to stepsize len;; mret (inl (i32 (stepsize * 2), (from, to)))
      else mret (inr (from, to))) (1, (from, to));
    if negb (swapped =? 0) then
      loop fuel (fun i =>
        if i <? len then v ← get_elem to i 193; put_elem from i v 193;; mret (inl (i32 (i + 1))) else mret (inr tt)) 0
    else mret tt.
End sort.

(** ** Loops over the elements *)

(** [(int)numelts(x)] *)
Definition size_of (x : fat_ptr) : Z := i32 (_get_fat_size x 4).

(** [for (i = 0; i < sx; ++i) acc = body(acc, i);] *)
Definition count_up {A} (sx : Z) (body : A -> Z -> M A) (acc : A) : M A :=
  loop (S (Z.to_nat sx)) (fun '(i, acc) =>
    if i <? sx then acc ← body acc i; mret (inl (i32 (i + 1), acc)) else mret (inr acc)) (0, acc).

(** [for (i = numelts(x) - 1; i >= 0; --i) acc = body(acc, i);] *)
Definition count_down {A} (n : Z) (body : A -> Z -> M A) (acc : A) : M A :=
  loop (S (Z.to_nat n)) (fun '(i, acc) =>
    if 0 <=? i then acc ← body acc i; mret (inl (i32 (i - 1), acc)) else mret (inr acc)) (i32 (u32 (n - 1)), acc).

(** [for (i = 0; i < sx; ++i) if (test(i)) return 1; return 0;] *)
Definition search_up (sx : Z) (test : Z -> M bool) : M bool :=
  loop (S (Z.to_nat sx)) (fun i =>
    if i <? sx then b ← test i; if (b : bool) then mret (inr true) else mret (inl (i32 (i + 1))) else mret (inr false)) 0.

Definition check_same (sx : Z) (y : fat_ptr) (line : Z) : M unit :=
  if negb (u32 sx =? _get_fat_size y 4) then lift (Thrown Cyc_Array_Array_mismatch array_cyc line) else mret tt.

(** [((void** )x.curr)[i]] *)
Definition get_unchecked (x : fat_ptr) (i : Z) : M Z := get_word (elem_unchecked x i).

(** ** Copies and maps *)

Definition Cyc_Array_copy (x : fat_ptr) : M fat_ptr :=
  let sx := size_of x in new_elems (u32 sx) 217 (fun i => get_unchecked x (i32 i)).

Definition Cyc_Array_map (f : Z -> M Z) (x : fat_ptr) : M fat_ptr :=
  let sx := size_of x in new_elems (u32 sx) 223 (fun i => v ← get_unchecked x (i32 i); f v).

Definition Cyc_Array_map_c (f : Z -> Z -> M Z) (env : Z) (x : fat_ptr) : M fat_ptr :=
  let sx := size_of x in new_elems (u32 sx) 229 (fun i => v ← get_unchecked x (i32 i); f env v).

Definition Cyc_Array_imp_map (f : Z -> M Z) (x : fat_ptr) : M unit :=
  let sx := size_of x in
  count_up sx (fun _ i => v ← get_elem x i 236; u ← f v; store_word (elem_unchecked x i) u) tt.

Definition Cyc_Array_imp_map_c (f : Z -> Z -> M Z) (env : Z) (x : fat_ptr) : M unit :=
  let sx := size_of x in
  count_up sx (fun _ i => v ← get_elem x i 240; u ← f env v; store_word (elem_unchecked x i) u) tt.

Definition Cyc_Array_map2 (f : Z -> Z -> M Z) (x y : fat_ptr) : M fat_ptr :=
  let sx := size_of x in
  check_same sx y 252;;
  new_elems (u32 sx) 252 (fun i => u ← get_unchecked x (i32 i); v ← get_unchecked y (i32 i); f u v).

Definition Cyc_Array_rev_copy (x : fat_ptr) : M fat_ptr :=
  let sx := size_of x in let n := i32 (sx - 1) in
  new_elems (u32 sx) 353 (fun i => get_elem x (i32 (u32 (u32 n - i))) 353).

Definition Cyc_Array_imp_rev (x : fat_ptr) : M unit :=
  let n := _get_fat_size x 4 in
  loop (S (Z.to_nat n)) (fun '(i, j) =>
    if i <? j then
      temp ← get_elem x i 362; v ← get_elem x j 363;
      store_word (elem_unchecked x i) v;; store_word (elem_unchecked x j) temp;;
      mret (inl (i32 (i + 1), i32 (j - 1)))
    else mret (inr tt)) (0, i32 (u32 (n - 1))).

Definition Cyc_Array_extract (x : fat_ptr) (start n_opt : Z) : M fat_ptr :=
  let sx := size_of x in
  n ← (if n_opt =? 0 then mret (i32 (sx - start)) else v ← get_word n_opt; mret (i32 v));
  if ((start <? 0) || (n <=? 0)) || (sx <? i32 (start + (if n_opt =? 0 then 0 else n))) then throw_Invalid_argument 447
  else new_elems (u32 n) 446 (fun i => get_elem x (i32 (u32 (u32 start + i))) 446).

(** ** Calls for each element *)

Definition Cyc_Array_app (f : Z -> M Z) (x : fat_ptr) : M unit :=
  count_up (size_of x) (fun _ i => v ← get_elem x i 263; f v;; mret tt) tt.
Definition Cyc_Array_app_c (f : Z -> Z -> M Z) (env : Z) (x : fat_ptr) : M unit :=
  count_up (size_of x) (fun _ i => v ← get_elem x i 267; f env v;; mret tt) tt.
Definition Cyc_Array_iter (f : Z -> M unit) (x : fat_ptr) : M unit :=
  count_up (size_of x) (fun _ i => v ← get_elem x i 275; f v) tt.
Definition Cyc_Array_iter_c (f : Z -> Z -> M unit) (env : Z) (x : fat_ptr) : M unit :=
  count_up (size_of x) (fun _ i => v ← get_elem x i 281; f env v) tt.

Definition Cyc_Array_app2 (f : Z -> Z -> M Z) (x y : fat_ptr) : M unit :=
  check_same (size_of x) y 288;;
  count_up (size_of x) (fun _ i => u ← get_elem x i 289; v ← get_unchecked y i; f u v;; mret tt) tt.
Definition Cyc_Array_app2_c (f : Z -> Z -> Z -> M Z) (env : Z) (x y : fat_ptr) : M unit :=
  check_same (size_of x) y 294;;
  count_up (size_of x) (fun _ i => u ← get_elem x i 295; v ← get_unchecked y i; f env u v;; mret tt) tt.
Definition Cyc_Array_iter2 (f : Z -> Z -> M unit) (x y : fat_ptr) : M unit :=
  check_same (size_of x) y 302;;
  count_up (size_of x) (fun _ i => u ← get_elem x i 303; v ← get_unchecked y i; f u v) tt.
Definition Cyc_Array_iter2_c (f : Z -> Z -> Z -> M unit) (env : Z) (x y : fat_ptr) : M unit :=
  check_same (size_of x) y 308;;
  count_up (size_of x) (fun _ i => u ← get_elem x i 309; v ← get_unchecked y i; f env u v) tt.

Definition Cyc_Array_fold_left (f : Z -> Z -> M Z) (accum : Z) (x : fat_ptr) : M Z :=
  count_up (size_of x) (fun accum i => v ← get_elem x i 320; f accum v) accum.
Definition Cyc_Array_fold_left_c (f : Z -> Z -> Z -> M Z) (env accum : Z) (x : fat_ptr) : M Z :=
  count_up (size_of x) (fun accum i => v ← get_elem x i 328; f env accum v) accum.
Definition Cyc_Array_fold_right (f : Z -> Z -> M Z) (x : fat_ptr) (accum : Z) : M Z :=
  count_down (_get_fat_size x 4) (fun accum i => v ← get_elem x i 338; f v accum) accum.
Definition Cyc_Array_fold_right_c (f : Z -> Z -> Z -> M Z) (env : Z) (x : fat_ptr) (accum : Z) : M Z :=
  count_down (_get_fat_size x 4) (fun accum i => v ← get_elem x i 344; f env v accum) accum.

(** ** Tests *)

Definition Cyc_Array_forall (pred : Z -> M bool) (x : fat_ptr) : M bool :=
  b ← search_up (size_of x) (fun i => v ← get_elem x i 375; b ← pred v; mret (negb b)); mret (negb b).
Definition Cyc_Array_forall_c (pred : Z -> Z -> M bool) (env : Z) (x : fat_ptr) : M bool :=
  b ← search_up (size_of x) (fun i => v ← get_elem x i 382; b ← pred env v; mret (negb b)); mret (negb b).
Definition Cyc_Array_exists (pred : Z -> M bool) (x : fat_ptr) : M bool :=
  search_up (size_of x) (fun i => v ← get_elem x i 392; pred v).
Definition Cyc_Array_exists_c (pred : Z -> Z -> M bool) (env : Z) (x : fat_ptr) : M bool :=
  search_up (size_of x) (fun i => v ← get_elem x i 399; pred env v).
Definition Cyc_Array_memq (l : fat_ptr) (x : Z) : M bool :=
  search_up (size_of l) (fun i => v ← get_elem l i 426; mret (v =? x)).
Definition Cyc_Array_mem (compare : Z -> Z -> M Z) (l : fat_ptr) (x : Z) : M bool :=
  search_up (size_of l) (fun i => v ← get_elem l i 434; c ← compare v x; mret (0 =? c)).

(** ** Pairs and lists *)

(** An array of pairs has two words for each element. *)
Definition Cyc_Array_zip (x y : fat_ptr) : M fat_ptr :=
  let sx := size_of x in
  check_same sx y 408;;
  lift (_check_times (u32 sx) 8 array_cyc 408);;
  p ← cycalloc_words (Z.to_nat (2 * u32 sx)) array_cyc 408;
  loop (S (Z.to_nat (u32 sx))) (fun i =>
    if i <? u32 sx then
      u ← get_unchecked x (i32 i); store_word (u32 (p + 8 * i)) u;;
      v ← get_unchecked y (i32 i); store_word (u32 (p + 8 * i + 4)) v;;
      mret (inl (u32 (i + 1)))
    else mret (inr tt)) 0;;
  mret (_tag_fat p 8 (u32 sx)).

Definition Cyc_Array_split (x : fat_ptr) : M (fat_ptr * fat_ptr) :=
  let sx := i32 (_get_fat_size x 8) in
  a ← new_elems (u32 sx) 416 (fun i => get_word (u32 (curr x + 8 * i32 i)));
  b ← new_elems (u32 sx) 417 (fun i => get_word (u32 (curr x + 8 * i32 i + 4)));
  mret (a, b).

Context (self : Z).
Definition Cyc_Array_from_list (x : Z) : M fat_ptr := Cyc_List_to_array self x.
Definition Cyc_Array_to_list (x : fat_ptr) : M Z := Cyc_List_from_array self x.
End array.
