(* ===== verification/ArrayMem.v ===== *)
(** * Sorting by exchanges, and arrays in memory

    The arguments about lists behind the sorts of CycArray.v, and the rules for
    its accesses to arrays. *)

From S2P Require Import Prelude Alloc RwLock Region RegionSafety DynRegion Words CycList ListCells WordMem FatPtr CycSetSpec CycArray.

(** ** Sorting by exchanges

    The arguments about lists behind the quick sort: exchanges within a part of
    a list, partition around a pivot, insertion into a sorted part, and lists that
    are in order but for pending parts. *)

(** ** Exchanges *)

Definition exchange (i j : nat) (l : list Z) : list Z := <[j := l !!! i]> (<[i := l !!! j]> l).

Lemma exchange_length i j l : length (exchange i j l) = length l.
Proof. unfold exchange. by rewrite !length_insert. Qed.

Lemma exchange_get i j k l : (i < length l)%nat -> (j < length l)%nat ->
  exchange i j l !!! k = if decide (k = i) then l !!! j else if decide (k = j) then l !!! i else l !!! k.
Proof.
  intros Hi Hj. unfold exchange. destruct (decide (k = j)) as [->|Hkj].
  - rewrite list_lookup_total_insert_eq by (by rewrite length_insert). by case_decide as Hd; [subst|].
  - rewrite list_lookup_total_insert_ne by done. case_decide as Hd; [subst; by rewrite list_lookup_total_insert_eq|].
    by rewrite list_lookup_total_insert_ne.
Qed.

Lemma exchange_comm i j l : (i < length l)%nat -> (j < length l)%nat -> exchange i j l = exchange j i l.
Proof.
  intros Hi Hj. unfold exchange. destruct (decide (i = j)) as [->|Hne]; [done|]. by rewrite list_insert_insert_ne.
Qed.

(** A list around the elements at [i] and [j]. *)
Lemma list_around i j (l : list Z) : (i < j)%nat -> (j < length l)%nat ->
  exists A B C, l = A ++ l !!! i :: B ++ l !!! j :: C /\ length A = i /\ length B = (j - S i)%nat.
Proof.
  intros Hij Hj. pose proof (list_lookup_lookup_total_lt l i ltac:(lia)) as Ei. pose proof (list_lookup_lookup_total_lt l j Hj) as Ej.
  assert (Ej' : drop (S i) l !! (j - S i)%nat = Some (l !!! j)) by (rewrite lookup_drop; by replace (S i + (j - S i))%nat with j by lia).
  exists (take i l), (take (j - S i) (drop (S i) l)), (drop (S (j - S i)) (drop (S i) l)).
  rewrite (take_drop_middle _ _ _ Ej'), (take_drop_middle _ _ _ Ei), !length_take, length_drop. split; [done|lia].
Qed.

Lemma exchange_perm i j l : (i < length l)%nat -> (j < length l)%nat -> exchange i j l ≡ₚ l.
Proof.
  assert (Hlt : forall i j, (i < j)%nat -> (j < length l)%nat -> exchange i j l ≡ₚ l).
  { clear i j. intros i j Hij Hj. destruct (list_around i j l Hij Hj) as (A & B & C & Hl & HA & HB). unfold exchange.
    set (x := l !!! i) in *. set (y := l !!! j) in *. clearbody x y. subst l.
    rewrite insert_app_r_alt by lia. replace (i - length A)%nat with 0%nat by lia. simpl.
    rewrite insert_app_r_alt by lia. rewrite HA. replace (j - i)%nat with (S (j - S i)) by lia. simpl.
    rewrite insert_app_r_alt by lia. rewrite HB. replace (j - S i - (j - S i))%nat with 0%nat by lia. simpl.
    apply Permutation_app_head. rewrite <- !Permutation_middle. apply Permutation_swap. }
  intros Hi Hj. destruct (decide (i < j)%nat); [by apply Hlt|]. rewrite exchange_comm by done. destruct (decide (j < i)%nat); [by apply Hlt|].
  replace j with i by lia. unfold exchange. by rewrite list_insert_insert_eq, list_insert_id by (apply list_lookup_lookup_total_lt; lia).
Qed.

(** [l'] is [l] after exchanges at indices from [b] on and below [e]. *)
Inductive swaps (b e : nat) (l : list Z) : list Z -> Prop :=
  | swaps_refl : swaps b e l l
  | swaps_step l' i j : swaps b e l l' -> (b <= i < e)%nat -> (b <= j < e)%nat -> swaps b e l (exchange i j l').

#[export] Hint Constructors swaps : core.

Lemma swaps_trans b e l1 l2 l3 : swaps b e l1 l2 -> swaps b e l2 l3 -> swaps b e l1 l3.
Proof. intros H1 H2. induction H2; [done|by constructor]. Qed.

Lemma swaps_mono b e b' e' l l' : swaps b e l l' -> (b' <= b)%nat -> (e <= e')%nat -> swaps b' e' l l'.
Proof. intros Hs ? ?. induction Hs; [done|]. constructor; [done|lia..]. Qed.

Lemma swaps_length b e l l' : swaps b e l l' -> length l' = length l.
Proof. induction 1; [done|]. by rewrite exchange_length. Qed.

Lemma swaps_perm b e l l' : swaps b e l l' -> (e <= length l)%nat -> l' ≡ₚ l.
Proof.
  intros Hs He. induction Hs as [|l' i j Hs IH Hi Hj]; [done|]. pose proof (swaps_length _ _ _ _ Hs).
  rewrite exchange_perm by lia. exact IH.
Qed.

(** Outside nothing changes, and what is inside comes from inside. *)
Lemma swaps_outside b e l l' k : swaps b e l l' -> (e <= length l)%nat -> (k < b)%nat \/ (e <= k)%nat -> l' !!! k = l !!! k.
Proof.
  intros Hs He Hk. induction Hs as [|l' i j Hs IH Hi Hj]; [done|]. pose proof (swaps_length _ _ _ _ Hs).
  rewrite exchange_get by lia. by rewrite !decide_False by lia.
Qed.

Lemma swaps_inside b e l l' k : swaps b e l l' -> (e <= length l)%nat -> (b <= k < e)%nat ->
  exists k', (b <= k' < e)%nat /\ l' !!! k = l !!! k'.
Proof.
  intros Hs He. revert k. induction Hs as [|l' i j Hs IH Hi Hj]; intros k Hk; [by exists k|]. pose proof (swaps_length _ _ _ _ Hs).
  rewrite exchange_get by lia. repeat case_decide; by apply IH.
Qed.

(** ** Order *)

Section order.
Context (g : Z -> Z -> Z) `{!Comparison g}.
#[local] Notation "u ⪯ v" := (g u v <= 0) (at level 70).

Lemma le_refl u : u ⪯ u.
Proof. rewrite (cmp_refl g). lia. Qed.

Lemma le_of_gt u v : 0 < g u v -> v ⪯ u.
Proof. intros Hg. pose proof (cmp_opp v u). lia. Qed.

Lemma le_of_nlt u v : 0 <= g u v -> v ⪯ u.
Proof. intros Hg. pose proof (cmp_opp u v). lia. Qed.

Definition sorted_on (b e : nat) (l : list Z) : Prop := forall x y, (b <= x)%nat -> (x < y)%nat -> (y < e)%nat -> l !!! x ⪯ l !!! y.

Definition all_le (l : list Z) (p : Z) (b e : nat) : Prop := forall k, (b <= k < e)%nat -> l !!! k ⪯ p.
Definition all_ge (l : list Z) (p : Z) (b e : nat) : Prop := forall k, (b <= k < e)%nat -> p ⪯ l !!! k.

(** *** Partition *)

(** Up to [i] no element is above the pivot [p]; from [j] on none is below it. *)
Definition split_by (l : list Z) (p : Z) (b j i e : nat) : Prop := (b <= j < i)%nat /\ (i <= e)%nat /\ all_le l p b i /\ all_ge l p j e.

Lemma split_order l p b j i e x y : split_by l p b j i e -> (b <= x)%nat -> (x < y)%nat -> (y < e)%nat ->
  l !!! x ⪯ l !!! y \/ (y < j)%nat \/ (i <= x)%nat.
Proof.
  intros (Hj & Hi & Hle & Hge) Hx Hxy Hy. destruct (decide (y < j)%nat); [by right; left|]. destruct (decide (i <= x)%nat); [by right; right|].
  left. apply (cmp_trans _ p); [apply Hle; lia|apply Hge; lia].
Qed.

(** The state of the scans: [i] and [j] are the indices last seen. *)
Definition scanning (l : list Z) (b e : nat) (i j : nat) : Prop :=
  (b < i)%nat /\ (i <= j)%nat /\ (S i < e)%nat /\ (j < e)%nat /\ (e <= length l)%nat /\
  all_le l (l !!! b) (S b) (S i) /\ all_ge l (l !!! b) j e.

Lemma scanning_swap l b e i j i' j' : scanning l b e i j -> (i < i')%nat -> (i' <= j')%nat -> (j' < j)%nat ->
  all_le l (l !!! b) (S i) i' -> all_ge l (l !!! b) (S j') j -> l !!! b ⪯ l !!! i' -> l !!! j' ⪯ l !!! b ->
  scanning (exchange i' j' l) b e i' j'.
Proof.
  intros (Hb & Hij & Hie & Hje & Hl & Hle & Hge) Hi Hij' Hj Hle' Hge' Hi' Hj'.
  assert (Eb : exchange i' j' l !!! b = l !!! b) by (rewrite exchange_get by lia; by rewrite !decide_False by lia).
  split_and!; try lia; [by rewrite exchange_length| |]; rewrite Eb; intros k Hk; rewrite exchange_get by lia.
  - destruct (decide (k = i')); [done|]. destruct (decide (k = j')); [lia|]. destruct (decide (k <= i)%nat); [apply Hle; lia|apply Hle'; lia].
  - destruct (decide (k = i')) as [->|]; [by replace j' with i' in * by lia|]. destruct (decide (k = j')); [done|].
    destruct (decide (k < j)%nat); [apply Hge'; lia|apply Hge; lia].
Qed.

Lemma scanning_split l b e i j i' j' : scanning l b e i j -> (i < i' < e)%nat -> (b <= j' < i')%nat -> (j' < j)%nat ->
  all_le l (l !!! b) (S i) i' -> all_ge l (l !!! b) (S j') j ->
  split_by (exchange b j' l) (l !!! b) b j' i' e.
Proof.
  intros (Hb & Hij & Hie & Hje & Hl & Hle & Hge) Hi Hj' Hj Hle' Hge'.
  assert (Hlow : all_le l (l !!! b) b i').
  { intros k Hk. destruct (decide (k = b)) as [->|]; [apply le_refl|]. destruct (decide (k <= i)%nat); [apply Hle; lia|apply Hle'; lia]. }
  split_and!; try lia; intros k Hk; rewrite exchange_get by lia.
  - repeat case_decide; [apply Hlow; lia|apply le_refl|by apply Hlow].
  - destruct (decide (k = b)) as [->|]; [replace j' with b by lia; apply le_refl|].
    case_decide; [apply le_refl|]. destruct (decide (k < j)%nat); [apply Hge'; lia|apply Hge; lia].
Qed.

(** *** Median of three *)

Definition order_two (i j : nat) (l : list Z) : list Z := if 0 <? g (l !!! i) (l !!! j) then exchange i j l else l.

Lemma order_two_swaps b e i j l0 l : swaps b e l0 l -> (b <= i < e)%nat -> (b <= j < e)%nat -> swaps b e l0 (order_two i j l).
Proof. intros. unfold order_two. case_match; [by constructor|done]. Qed.

Lemma order_two_length i j l : length (order_two i j l) = length l.
Proof. unfold order_two. case_match; [apply exchange_length|done]. Qed.

Lemma order_two_get i j k l : (i < length l)%nat -> (j < length l)%nat -> i <> j ->
  (0 < g (l !!! i) (l !!! j) /\ order_two i j l !!! i = l !!! j /\ order_two i j l !!! j = l !!! i \/
   l !!! i ⪯ l !!! j /\ order_two i j l !!! i = l !!! i /\ order_two i j l !!! j = l !!! j) /\
  (k <> i -> k <> j -> order_two i j l !!! k = l !!! k).
Proof.
  intros Hi Hj Hne. unfold order_two. destruct (0 <? g (l !!! i) (l !!! j)) eqn:E; [|split; [right; split; [lia|done]|done]]. split.
  - left. split; [lia|]. rewrite !exchange_get by done. by rewrite decide_True, decide_False, decide_True by done.
  - intros ? ?. rewrite exchange_get by done. by rewrite !decide_False by done.
Qed.

Lemma median_scanning l b e : (b + 3 < e)%nat -> (e <= length l)%nat ->
  scanning (order_two (S b) b (order_two b (e - 1) (order_two (S b) (e - 1) l))) b e (S b) (e - 1).
Proof.
  intros Hb He. set (i := S b). set (j := (e - 1)%nat). set (l1 := order_two i j l). set (l2 := order_two b j l1). set (l3 := order_two i b l2).
  assert (L1 : length l1 = length l) by apply order_two_length. assert (L2 : length l2 = length l) by (unfold l2; by rewrite order_two_length).
  assert (L3 : length l3 = length l) by (unfold l3; by rewrite order_two_length).
  destruct (order_two_get i j b l ltac:(lia) ltac:(lia) ltac:(lia)) as [H1 H1b]. specialize (H1b ltac:(lia) ltac:(lia)). fold l1 in H1, H1b.
  destruct (order_two_get b j i l1 ltac:(lia) ltac:(lia) ltac:(lia)) as [H2 H2i]. specialize (H2i ltac:(lia) ltac:(lia)). fold l2 in H2, H2i.
  destruct (order_two_get i b j l2 ltac:(lia) ltac:(lia) ltac:(lia)) as [H3 H3j]. specialize (H3j ltac:(lia) ltac:(lia)). fold l3 in H3, H3j.
  assert (A1 : l1 !!! i ⪯ l1 !!! j) by (destruct H1 as [(? & -> & ->)|(? & -> & ->)]; [by apply le_of_gt|done]).
  assert (A2 : l2 !!! b ⪯ l2 !!! j /\ l2 !!! i ⪯ l2 !!! j).
  { rewrite H2i. destruct H2 as [(Hg & -> & ->)|(Hg & -> & ->)]; [|done]. split; [by apply le_of_gt|].
    apply (cmp_trans _ (l1 !!! j)); [done|by apply le_of_gt]. }
  destruct A2 as [A2b A2i].
  assert (A3 : l3 !!! i ⪯ l3 !!! b /\ l3 !!! b ⪯ l3 !!! j).
  { rewrite H3j. destruct H3 as [(Hg & -> & ->)|(Hg & -> & ->)]; [split; [by apply le_of_gt|done]|done]. }
  destruct A3 as [A3i A3j]. split_and!; try lia; intros k Hk.
  - by replace k with i by lia.
  - by replace k with j by lia.
Qed.

(** *** Insertion *)

(** [b, e) is sorted but for the element after [j], which may be too small. *)
Definition sifting (b e j : nat) (l : list Z) : Prop :=
  (b <= j)%nat /\ (S j < e)%nat /\ (e <= length l)%nat /\
  forall x y, (b <= x)%nat -> (x < y)%nat -> (y < e)%nat -> y <> S j -> l !!! x ⪯ l !!! y.

Lemma sifting_start b e l : (b < e)%nat -> (e < length l)%nat -> sorted_on b e l -> sifting b (S e) (e - 1) l.
Proof. intros Hb He Hs. split_and!; try lia. intros x y ? ? ? ?. apply Hs; lia. Qed.

Lemma sifting_stop b e j l : sifting b e j l -> l !!! j ⪯ l !!! S j -> sorted_on b e l.
Proof.
  intros (Hb & Hj & Hl & Hs) Hle x y Hx Hxy Hy. destruct (decide (y = S j)) as [->|]; [|by apply Hs].
  destruct (decide (x = j)) as [->|]; [done|]. apply (cmp_trans _ (l !!! j)); [apply Hs; lia|done].
Qed.

Lemma sifting_exchange b e j l x y : sifting b e j l -> 0 < g (l !!! j) (l !!! S j) -> (b <= x)%nat -> (x < y)%nat -> (y < e)%nat -> y <> j ->
  exchange j (S j) l !!! x ⪯ exchange j (S j) l !!! y.
Proof.
  intros (Hb & Hj & Hl & Hs) Hgt Hx Hxy Hy Hne. rewrite !exchange_get by lia.
  destruct (decide (y = j)); [lia|]. destruct (decide (y = S j)) as [->|].
  - destruct (decide (x = j)); [by apply le_of_gt|]. rewrite decide_False by lia. apply Hs; lia.
  - repeat case_decide; apply Hs; lia.
Qed.

Lemma sifting_step b e j l : sifting b e j l -> 0 < g (l !!! j) (l !!! S j) -> j <> b -> sifting b e (j - 1) (exchange j (S j) l).
Proof.
  intros Hsi Hgt Hne. pose proof Hsi as (Hb & Hj & Hl & _). split_and!; try lia; [by rewrite exchange_length|].
  intros x y ? ? ? Hy. apply (sifting_exchange b e); (done || lia).
Qed.

Lemma sifting_first b e l : sifting b e b l -> 0 < g (l !!! b) (l !!! S b) -> sorted_on b e (exchange b (S b) l).
Proof. intros Hsi Hgt x y ? ? ?. apply (sifting_exchange b e); (done || lia). Qed.

(** *** Pending parts *)

Definition apart (f h : nat * nat) : Prop := (f.2 <= h.1)%nat \/ (h.2 <= f.1)%nat.

Fixpoint all_apart (P : list (nat * nat)) : Prop :=
  match P with [] => True | f :: P => Forall (apart f) P /\ all_apart P end.

(** The first [n] elements are in order, but for pairs within a pending part. *)
Definition ordered_but (P : list (nat * nat)) (n : nat) (l : list Z) : Prop :=
  forall x y, (x < y)%nat -> (y < n)%nat -> l !!! x ⪯ l !!! y \/ Exists (fun f => (f.1 <= x)%nat /\ (y < f.2)%nat) P.

Lemma ordered_all n l : ordered_but [(0, n)%nat] n l.
Proof. intros x y ? ?. right. constructor. simpl. lia. Qed.

Lemma ordered_done n l : ordered_but [] n l <-> sorted_on 0 n l.
Proof.
  split.
  - intros Ho x y _ ? ?. destruct (Ho x y) as [|Hx]; [done..|]. by inversion Hx.
  - intros Hs x y ? ?. left. apply Hs; lia.
Qed.

Lemma ordered_equiv P P' n l : P ≡ₚ P' -> ordered_but P n l -> ordered_but P' n l.
Proof. intros HP Ho x y ? ?. destruct (Ho x y) as [|He]; [done..|by left|]. right. by rewrite <- HP. Qed.

(** Work on one pending part leaves those parts of it pending that are still in
    no order. *)
Lemma ordered_work b e P Q n l l' : ordered_but ((b, e) :: P) n l -> Forall (apart (b, e)) P -> (e <= n)%nat -> (n <= length l)%nat ->
  swaps b e l l' ->
  (forall x y, (b <= x)%nat -> (x < y)%nat -> (y < e)%nat -> l' !!! x ⪯ l' !!! y \/ Exists (fun f => (f.1 <= x)%nat /\ (y < f.2)%nat) Q) ->
  ordered_but (Q ++ P) n l'.
Proof.
  intros Ho Ha He Hn Hs HQ x y Hxy Hy.
  assert (Hout : forall k, (k < b)%nat \/ (e <= k)%nat -> l' !!! k = l !!! k) by (intros; apply (swaps_outside b e); [done|lia|done]).
  assert (Hin : forall k, (b <= k < e)%nat -> exists k', (b <= k' < e)%nat /\ l' !!! k = l !!! k') by (intros; apply (swaps_inside b e); [done|lia|done]).
  assert (Hcross : forall x' y', (x' < y')%nat -> (y' < n)%nat -> ~ (b <= x' /\ y' < e)%nat ->
    l !!! x' ⪯ l !!! y' \/ Exists (fun f => (f.1 <= x')%nat /\ (y' < f.2)%nat) P).
  { intros x' y' ? ? Hno. destruct (Ho x' y') as [|Hx]; [done..|by left|]. right. apply Exists_cons in Hx as [[? ?]|]; [simpl in *; lia|done]. }
  assert (Hmixed : forall x' y', (x' < y')%nat -> (b <= x' < e)%nat /\ (e <= y')%nat \/ (x' < b)%nat /\ (b <= y' < e)%nat ->
    ~ Exists (fun f => (f.1 <= x')%nat /\ (y' < f.2)%nat) P).
  { intros x' y' ? Hm [f [Hf [? ?]]]%Exists_exists. rewrite Forall_forall in Ha. destruct (Ha f Hf); simpl in *; lia. }
  destruct (decide (b <= x < e)%nat) as [Hx|Hx]; [destruct (decide (y < e)%nat)|destruct (decide (b <= y < e)%nat)].
  - destruct (HQ x y) as [|Hq]; [lia..|by left|]. right. apply Exists_app. by left.
  - left. rewrite (Hout y) by lia. destruct (Hin x Hx) as (x' & Hx' & ->).
    destruct (Hcross x' y) as [|Hp]; [lia..|done|]. exfalso. by apply (Hmixed x' y); [lia|lia|].
  - left. rewrite (Hout x) by lia. destruct (Hin y ltac:(lia)) as (y' & Hy' & ->).
    destruct (Hcross x y') as [|Hp]; [lia..|done|]. exfalso. by apply (Hmixed x y'); [lia|lia|].
  - rewrite !Hout by lia. destruct (Hcross x y) as [|Hp]; [lia..|by left|]. right. apply Exists_app. by right.
Qed.
End order.

(** ** The pending files of a quick sort *)

Section pending.
Context (g : Z -> Z -> Z) `{!Comparison g} (n : nat) (l0 : list Z).

Definition file_size (f : nat * nat) : nat := f.2 - f.1.

(** The file on top of [d] others has at most [(n + 1) / 2 ^ d - 1] elements. *)
Fixpoint depth_ok (P : list (nat * nat)) : Prop :=
  match P with [] => True | f :: P => Z.of_nat (S (file_size f)) * 2 ^ Z.of_nat (length P) <= Z.of_nat n + 1 /\ depth_ok P end.

(** The number of rounds that the files can take. *)
Fixpoint work (P : list (nat * nat)) : nat := match P with [] => 0 | f :: P => 1 + 2 * file_size f + work P end.

Record pending (P : list (nat * nat)) (l : list Z) : Prop := {
  pend_swaps : swaps 0 n l0 l;
  pend_files : Forall (fun f => (f.1 <= f.2)%nat /\ (f.2 <= n)%nat) P;
  pend_apart : all_apart P;
  pend_order : ordered_but g P n l;
  pend_depth : depth_ok P
}.

Lemma pending_start : pending [(0, n)%nat] l0.
Proof.
  split; [done| | |apply ordered_all|].
  - constructor; [simpl; lia|done].
  - by repeat constructor.
  - simpl. unfold file_size. simpl. lia.
Qed.

(** A sorted file is done. *)
Lemma pending_done b e P l l' : (n <= length l0)%nat -> pending ((b, e) :: P) l -> swaps b e l l' -> sorted_on g b e l' -> pending P l'.
Proof.
  intros Hn [Hs Hf Ha Ho Hd] Hs' Hst. destruct Ha as [Ha HaP]. inversion_clear Hf as [|? ? [Hb He] HfP]. simpl in Hb, He. destruct Hd as [_ Hd].
  pose proof (swaps_length _ _ _ _ Hs). split; try done.
  - eapply swaps_trans; [done|]. eapply swaps_mono; [done|lia..].
  - apply (ordered_work g b e P [] n l l'); try done; [lia|]. intros x1 y1 ? ? ?. left. apply Hst; lia.
Qed.

Lemma apart_sub b e b' e' P : (b <= b')%nat -> (b' <= e')%nat -> (e' <= e)%nat -> Forall (apart (b, e)) P -> Forall (apart (b', e')) P.
Proof. intros Hb Hbe He. intros HP. eapply Forall_impl; [exact HP|]. intros [b1 e1] [Ha|Ha]; simpl in Ha; [left|right]; simpl; lia. Qed.

(** A partitioned file leaves two, the larger one below the smaller one. *)
Lemma pending_split b e i j p P l l' : (n <= length l0)%nat -> pending ((b, e) :: P) l -> swaps b e l l' -> split_by g l' p b j i e ->
  pending (if decide (e - i < j - b)%nat then (i, e) :: (b, j) :: P else (b, j) :: (i, e) :: P) l'.
Proof.
  intros Hn [Hs Hf Ha Ho Hd] Hs' Hsp. pose proof Hsp as (Hj & Hi & _ & _). destruct Ha as [Ha HaP].
  inversion_clear Hf as [|? ? [Hb He] HfP]. simpl in Hb, He. destruct Hd as [Hd HdP].
  assert (Ho' : ordered_but g ([(b, j); (i, e)] ++ P) n l').
  { apply (ordered_work g b e P _ n l l'); try done; [pose proof (swaps_length _ _ _ _ Hs); lia|].
    intros x1 y1 ? ? ?. destruct (split_order g l' p b j i e x1 y1 Hsp) as [|[?|?]]; [lia..|by left| |]; right; rewrite !Exists_cons; simpl; lia. }
  assert (Hf1 : Forall (fun f => (f.1 <= f.2)%nat /\ (f.2 <= n)%nat) [(b, j); (i, e)]) by (repeat constructor; simpl; lia).
  assert (A1 : Forall (apart (b, j)) P) by (eapply apart_sub; [..|exact Ha]; lia).
  assert (A2 : Forall (apart (i, e)) P) by (eapply apart_sub; [..|exact Ha]; lia).
  assert (Hpow : 2 ^ Z.of_nat (S (length P)) = 2 * 2 ^ Z.of_nat (length P)) by (rewrite Nat2Z.inj_succ, Z.pow_succ_r; lia).
  assert (Hpos : 0 < 2 ^ Z.of_nat (length P)) by lia. unfold file_size in Hd. cbn [fst snd] in Hd.
  assert (Hswaps : swaps 0 n l0 l') by (eapply swaps_trans; [done|]; eapply swaps_mono; [done|lia..]).
  inversion_clear Hf1 as [|? ? HF1 HF]. inversion_clear HF as [|? ? HF2 _]. case_decide as Hsz; split; try done.
  - by apply Forall_cons; split; [|apply Forall_cons].
  - split; [constructor; [right; simpl; lia|done]|by split].
  - eapply ordered_equiv; [|exact Ho']. apply Permutation_swap.
  - cbn [depth_ok length]. unfold file_size. cbn [fst snd]. split_and!; [rewrite Hpow; nia|nia|done].
  - by apply Forall_cons; split; [|apply Forall_cons].
  - split; [constructor; [left; simpl; lia|done]|by split].
  - cbn [depth_ok length]. unfold file_size. cbn [fst snd]. split_and!; [rewrite Hpow; nia|nia|done].
Qed.

Lemma work_split b e i j p P l : split_by g l p b j i e -> 
  (work (if decide (e - i < j - b)%nat then (i, e) :: (b, j) :: P else (b, j) :: (i, e) :: P) < work ((b, e) :: P))%nat.
Proof. intros ((? & ?) & ? & _ & _). case_decide; simpl; unfold file_size; simpl; lia. Qed.

(** The stack holds at most twenty files while the current one is large. *)
Lemma depth_bound f P : depth_ok (f :: P) -> (3 < file_size f)%nat -> Z.of_nat n <= 5242878 -> (length P < 20)%nat.
Proof.
  intros [Hd _] Hf Hn. destruct (decide (length P < 20)%nat); [done|]. exfalso.
  assert (2 ^ 20 <= 2 ^ Z.of_nat (length P)) by (apply Z.pow_le_mono_r; lia). change (2 ^ 20) with 1048576 in *. nia.
Qed.
End pending.

(** ** Accesses to arrays in word memory

    [put_words a l w] is the memory [w] with the elements [l] at [a].  The rules
    for the accesses of CycArray.v to an array that holds [l] turn every
    operation on it into one on [l]. *)

Fixpoint put_words (a : Z) (l : list Z) (w : gmap Z Z) : gmap Z Z :=
  match l with [] => w | v :: l => <[a := v]> (put_words (a + 4) l w) end.

Lemma put_words_other a l w x : x < a \/ a + 4 * Z.of_nat (length l) <= x -> put_words a l w !! x = w !! x.
Proof.
  revert a. induction l as [|v l IH]; intros a Hx; [done|]. simpl in *. rewrite lookup_insert_ne by lia. apply IH. lia.
Qed.

Lemma put_words_get a l w i : (i < length l)%nat -> put_words a l w !! (a + 4 * Z.of_nat i) = Some (l !!! i).
Proof.
  revert a i. induction l as [|v l IH]; intros a i Hi; simpl in *; [lia|]. destruct i as [|i].
  - replace (a + 4 * Z.of_nat 0) with a by lia. by rewrite lookup_insert_eq.
  - rewrite lookup_insert_ne by lia. replace (a + 4 * Z.of_nat (S i)) with (a + 4 + 4 * Z.of_nat i) by lia. apply IH. lia.
Qed.

Lemma put_words_insert a l w i v : (i < length l)%nat -> <[a + 4 * Z.of_nat i := v]> (put_words a l w) = put_words a (<[i := v]> l) w.
Proof.
  revert a i. induction l as [|u l IH]; intros a i Hi; simpl in *; [lia|]. destruct i as [|i]; simpl.
  - replace (a + 4 * Z.of_nat 0) with a by lia. by rewrite insert_insert_eq.
  - rewrite insert_insert_ne by lia. f_equal. replace (a + 4 * Z.of_nat (S i)) with (a + 4 + 4 * Z.of_nat i) by lia. apply IH. lia.
Qed.

Lemma put_words_outside c x a l w : c < a \/ a + 4 * Z.of_nat (length l) <= c -> put_words a l (<[c := x]> w) = <[c := x]> (put_words a l w).
Proof.
  revert a. induction l as [|v l IH]; intros a Ha; simpl in *; [done|]. rewrite IH by lia. by rewrite insert_insert_ne by lia.
Qed.

Lemma put_words_put a l l' w : length l = length l' -> put_words a l (put_words a l' w) = put_words a l w.
Proof.
  revert a l'. induction l as [|v l IH]; intros a [|v' l'] Hl; simpl in *; try done. injection Hl as Hl.
  rewrite put_words_outside by lia. rewrite insert_insert_eq. f_equal. by apply IH.
Qed.

(** Storing an array that is there. *)
Lemma put_words_id a l w : array_at w a l -> put_words a l w = w.
Proof.
  revert a. induction l as [|v l IH]; intros a Ha; simpl; [done|]. rewrite IH.
  - apply insert_id. replace a with (a + 4 * Z.of_nat 0) by lia. by apply Ha.
  - intros i u Hu. replace (a + 4 + 4 * Z.of_nat i) with (a + 4 * Z.of_nat (S i)) by lia. by apply Ha.
Qed.

Lemma put_words_array a l w : array_at (put_words a l w) a l.
Proof. intros i v Hi. rewrite put_words_get by (by eapply lookup_lt_Some). f_equal. by apply list_lookup_total_correct. Qed.

(** Arrays at separate places can be stored in any order. *)
Lemma put_words_comm a b l l' w : a + 4 * Z.of_nat (length l) <= b \/ b + 4 * Z.of_nat (length l') <= a ->
  put_words a l (put_words b l' w) = put_words b l' (put_words a l w).
Proof.
  revert a. induction l as [|v l IH]; intros a Hab; simpl in *; [done|]. rewrite IH by lia. rewrite put_words_outside; [done|lia].
Qed.

Lemma zero_words_put p k w : zero_words p k w = put_words p (replicate k 0) w.
Proof. revert p. induction k as [|k IH]; intros p; simpl; [done|]. by rewrite IH. Qed.

Lemma put_words_fresh p l w : fresh_words p (length l) w -> w ⊆ put_words p l w.
Proof.
  intros Hf. apply map_subseteq_spec. intros x v Hx. rewrite put_words_other; [done|]. destruct Hf as (_ & _ & _ & Hf). destruct (Hf x); [by exists v|lia..].
Qed.

(** ** Rules *)

(** A comparison of the elements at two addresses. *)
Definition compares {H} `{Heap H} (f : Z -> Z -> ST (mem H) Z) (g : Z -> Z -> Z) : Prop :=
  forall p q u v m, words m !! p = Some u -> words m !! q = Some v -> f p q m = (Ret (g u v), m).

Definition array_ok (a : Z) (n : nat) : Prop := 0 < a /\ a + 4 * Z.of_nat n < 4294967296.

(** The fat pointer of the array. *)
Definition arr_ptr (a : Z) (n : nat) : fat_ptr := _tag_fat a 4 (Z.of_nat n).

Lemma arr_ptr_eq a n : array_ok a n -> arr_ptr a n = mk_fat a a (a + 4 * Z.of_nat n).
Proof.
  intros [Ha Hn]. unfold arr_ptr, _tag_fat. destruct (a =? 0) eqn:E; [lia|].
  by rewrite (u32_small (Z.of_nat n)), u32_small by lia.
Qed.

Lemma arr_ptr_size a n : array_ok a n -> _get_fat_size (arr_ptr a n) 4 = Z.of_nat n.
Proof. intros [Ha Hn]. apply get_fat_size_tag; lia. Qed.

Lemma of_nat_succ i : Z.of_nat i + 1 = Z.of_nat (S i).
Proof. lia. Qed.

Lemma i32_of_nat a n i : array_ok a n -> (i <= n)%nat -> i32 (Z.of_nat i) = Z.of_nat i.
Proof. intros [? ?] ?. apply i32_small. lia. Qed.

Section rules.
Context {H : Type} `{HH : Heap H} `{!HeapLaws H} (R : gset Z).
Implicit Types (m : mem H) (w : gmap Z Z) (l : list Z).

Lemma elem_unchecked_eq a n i : array_ok a n -> (i < n)%nat -> elem_unchecked (arr_ptr a n) (Z.of_nat i) = a + 4 * Z.of_nat i.
Proof. intros Ha Hi. unfold elem_unchecked. rewrite arr_ptr_eq by done. simpl. destruct Ha. apply u32_small. lia. Qed.

Lemma wp_elem_at a n i line (Q : Z -> mem H -> Prop) E m : array_ok a n -> (i < n)%nat -> Q (a + 4 * Z.of_nat i) m ->
  wp (elem_at (arr_ptr a n) (Z.of_nat i) line) Q E m.
Proof.
  intros Ha Hi HQ. unfold elem_at.
  assert (He : _check_fat_subscript (arr_ptr a n) 4 (Z.of_nat i) array_cyc line = Ret (a + 4 * Z.of_nat i)); [|rewrite He; by wps].
  apply check_fat_subscript_Ret. rewrite arr_ptr_eq by done. destruct Ha. simpl. rewrite u32_small by lia. lia.
Qed.

Lemma untag_elem a n i k line : array_ok a n -> (i < n)%nat -> k = Z.of_nat i ->
  _untag_fat_ptr (mk_fat (a + 4 * k) a (a + 4 * Z.of_nat n)) 4 1 array_cyc line = Ret (a + 4 * Z.of_nat i).
Proof.
  intros [Ha Hn] Hi ->. unfold _untag_fat_ptr. simpl. rewrite u32_small by lia.
  by rewrite (proj2 (Z.ltb_ge _ _)), (proj2 (Z.ltb_ge _ _)) by lia.
Qed.

Lemma wp_elem_ptr a n i line (Q : Z -> mem H -> Prop) E m : array_ok a n -> (i < n)%nat -> Q (a + 4 * Z.of_nat i) m ->
  wp (elem_ptr (arr_ptr a n) (Z.of_nat i) line) Q E m.
Proof.
  intros Ha Hi HQ. unfold elem_ptr. rewrite arr_ptr_eq by done. unfold _fat_ptr_plus. simpl. rewrite (i32_of_nat a n) by (done || lia).
  pose proof Ha as [Ha0 Han]. rewrite (u32_small (a + _)) by lia. rewrite (untag_elem a n i) by done. wps.
  unfold _check_null. destruct (_ =? 0) eqn:E0; [lia|]. by wps.
Qed.

Lemma wp_get_unchecked a n i w l (Q : Z -> mem H -> Prop) E m : array_ok a n -> (i < n)%nat -> length l = n -> at_words R (put_words a l w) m ->
  Q (l !!! i) m -> wp (get_word (elem_unchecked (arr_ptr a n) (Z.of_nat i))) Q E m.
Proof. intros Ha Hi Hl Hm HQ. rewrite elem_unchecked_eq by done. eapply wp_load; [done|apply put_words_get; lia|done]. Qed.

(** The array may extend beyond [l]. *)
Lemma wp_get_part a n i line w l (Q : Z -> mem H -> Prop) E m : array_ok a n -> (length l <= n)%nat -> (i < length l)%nat -> at_words R (put_words a l w) m ->
  Q (l !!! i) m -> wp (get_elem (arr_ptr a n) (Z.of_nat i) line) Q E m.
Proof.
  intros Ha Hl Hi Hm HQ. unfold get_elem. wps. apply wp_elem_at; [done|lia|]. eapply wp_load; [done|by apply put_words_get|done].
Qed.

Lemma wp_get_elem a n i line w l (Q : Z -> mem H -> Prop) E m : array_ok a n -> (i < n)%nat -> length l = n -> at_words R (put_words a l w) m ->
  Q (l !!! i) m -> wp (get_elem (arr_ptr a n) (Z.of_nat i) line) Q E m.
Proof. intros Ha Hi <- Hm HQ. by eapply wp_get_part. Qed.

Lemma wp_put_addr a i v w l (Q : unit -> mem H -> Prop) E m : (i < length l)%nat -> at_words R (put_words a l w) m ->
  (forall m', at_words R (put_words a (<[i := v]> l) w) m' -> Q tt m') -> wp (store_word (a + 4 * Z.of_nat i) v) Q E m.
Proof.
  intros Hi Hm HQ. eapply wp_store; [done| |].
  - eexists. apply put_words_get. lia.
  - intros m'. rewrite put_words_insert by lia. apply HQ.
Qed.

Lemma wp_put_unchecked a n i v w l (Q : unit -> mem H -> Prop) E m : array_ok a n -> (i < n)%nat -> length l = n -> at_words R (put_words a l w) m ->
  (forall m', at_words R (put_words a (<[i := v]> l) w) m' -> Q tt m') -> wp (store_word (elem_unchecked (arr_ptr a n) (Z.of_nat i)) v) Q E m.
Proof. intros Ha Hi Hl Hm HQ. subst n. rewrite elem_unchecked_eq by done. by eapply wp_put_addr. Qed.

Lemma wp_put_part a n i v line w l (Q : unit -> mem H -> Prop) E m : array_ok a n -> (length l <= n)%nat -> (i < length l)%nat ->
  at_words R (put_words a l w) m -> (forall m', at_words R (put_words a (<[i := v]> l) w) m' -> Q tt m') ->
  wp (put_elem (arr_ptr a n) (Z.of_nat i) v line) Q E m.
Proof. intros Ha Hl Hi Hm HQ. unfold put_elem. wps. apply wp_elem_at; [done|lia|]. by eapply wp_put_addr. Qed.

Lemma wp_put_elem a n i v line w l (Q : unit -> mem H -> Prop) E m : array_ok a n -> (i < n)%nat -> length l = n -> at_words R (put_words a l w) m ->
  (forall m', at_words R (put_words a (<[i := v]> l) w) m' -> Q tt m') -> wp (put_elem (arr_ptr a n) (Z.of_nat i) v line) Q E m.
Proof. intros Ha Hi <- Hm HQ. by eapply wp_put_part. Qed.

(** A new array whose elements are computed one by one. *)
Lemma wp_new_elems line f vs w (Q : fat_ptr -> mem H -> Prop) (E : exn -> mem H -> Prop) m : at_words R w m -> Z.of_nat (length vs) < 1073741824 ->
  (forall i v w1 m1 (Q1 : Z -> mem H -> Prop), vs !! i = Some v -> at_words R w1 m1 -> w ⊆ w1 -> Q1 v m1 -> wp (f (Z.of_nat i)) Q1 E m1) ->
  (forall p m', at_words R (put_words p vs w) m' -> fresh_words p (length vs) w -> 4 * Z.of_nat (length vs) <= MAX_MALLOC_SIZE -> Q (arr_ptr p (length vs)) m') ->
  (forall m', at_words R w m' -> E Cyc_Bad_alloc m') -> wp (new_elems (Z.of_nat (length vs)) line f) Q E m.
Proof.
  intros Hm Hn Hf HQ HE. unfold new_elems. wps. rewrite check_times_exact by lia. destruct (_ <=? MAX_MALLOC_SIZE) eqn:Ec; [|by apply wp_thrown, HE].
  wps. rewrite Nat2Z.id. eapply wp_cycalloc; [exact Hm|lia| |exact HE]. intros p m1 Hm1 Hp. wps. rewrite zero_words_put in Hm1. unfold fill_array. rewrite Nat2Z.id.
  pose proof Hp as (Hp0 & _ & Hpb & _).
  apply (wp_loop _ (fun d x m' => exists j, x = Z.of_nat j /\ d = (length vs - j)%nat /\ (j <= length vs)%nat /\
    at_words R (put_words p (take j vs ++ replicate (length vs - j) 0) w) m')) with (k := length vs).
  - intros d x m2 (j & -> & -> & Hj & Hm2). destruct (Z.of_nat j <? Z.of_nat (length vs)) eqn:Ej.
    + destruct (lookup_lt_is_Some_2 vs j ltac:(lia)) as [v Hv]. wps. eapply Hf; [exact Hv|exact Hm2|apply put_words_fresh|].
      { rewrite length_app, length_take, length_replicate. by replace (j `min` length vs + (length vs - j))%nat with (length vs) by lia. }
      wps. rewrite (u32_small (p + _)) by lia. eapply wp_put_addr; [|exact Hm2|]; [rewrite length_app, length_take, length_replicate; lia|]. intros m3 Hm3. wps.
      rewrite (u32_small (Z.of_nat j + 1)) by lia. exists (length vs - S j)%nat. split; [lia|]. exists (S j). split_and!; [lia|lia|lia|].
      rewrite insert_app_r_alt in Hm3 by (rewrite length_take; lia). rewrite length_take in Hm3. replace (j - j `min` length vs)%nat with 0%nat in Hm3 by lia.
      replace (length vs - j)%nat with (S (length vs - S j)) in Hm3 by lia. simpl in Hm3. rewrite (take_S_r _ _ _ Hv), <- app_assoc. exact Hm3.
    + wps. apply HQ; [|done|lia]. assert (j = length vs) as -> by lia. rewrite Nat.sub_diag, app_nil_r, take_ge in Hm2 by lia. exact Hm2.
  - exists 0%nat. split_and!; [done|lia|lia|]. simpl. by rewrite Nat.sub_0_r.
  - lia.
Qed.

(** [throw new Core::Invalid_argument(...)] *)
Lemma wp_throw_Invalid_argument {A} line w (Q : A -> mem H -> Prop) (E : exn -> mem H -> Prop) m : at_words R w m ->
  (forall m' w', at_words R w' m' -> w ⊆ w' -> E Cyc_Core_Invalid_argument m') -> (forall m', at_words R w m' -> E Cyc_Bad_alloc m') ->
  wp (throw_Invalid_argument line) Q E m.
Proof.
  intros Hm Hi Hb. unfold throw_Invalid_argument. wps. eapply wp_cycalloc; [exact Hm|done| |exact Hb].
  intros p m' Hm' Hf. apply wp_thrown. eapply Hi; [exact Hm'|by apply zero_words_sub].
Qed.
End rules.
