(* ===== verification/ArraySort.v ===== *)
(** * The sorts of the array library

    The quick sort, and the merge sort by passes. *)

From stdpp Require Import sorting.
From S2P Require Import Prelude Alloc RwLock Region RegionSafety DynRegion Words CycList ListCells WordMem FatPtr CycSetSpec CycArray ArrayMem.

(** ** The quick sort sorts

    [Cyc_Array_qsort] on an array of words: every step exchanges elements, the
    files that are still to be sorted stay apart from each other, and their
    stack is never too deep. *)

Section qsort.
Context {H : Type} `{HH : Heap H} `{!HeapLaws H} (R : gset Z).
Context (less_eq : Z -> Z -> ST (mem H) Z) (g : Z -> Z -> Z) `{!Comparison g} (Hless : compares less_eq g).
Context (a : Z) (n : nat) (w : gmap Z Z) (Hok : array_ok a n).
Abbreviation arr := (arr_ptr a n).
Implicit Types (m : mem H) (l : list Z).

Definition holds l m : Prop := length l = n /\ at_words R (put_words a l w) m.

Lemma holds_word l m i : holds l m -> (i < n)%nat -> words m !! (a + 4 * Z.of_nat i) = Some (l !!! i).
Proof. intros [Hl [_ Hw]] Hi. rewrite Hw. apply put_words_get. lia. Qed.

Lemma wp_compare_elems i j line l (Q : Z -> mem H -> Prop) E m : holds l m -> (i < n)%nat -> (j < n)%nat ->
  Q (g (l !!! i) (l !!! j)) m -> wp (compare_elems less_eq arr (Z.of_nat i) (Z.of_nat j) line) Q E m.
Proof.
  intros Hm Hi Hj HQ. unfold compare_elems. wps. apply wp_elem_ptr; [done..|]. wps. apply wp_elem_ptr; [done..|].
  eapply wp_run; [|exact HQ]. apply Hless; by apply holds_word.
Qed.

(** ** Exchanges *)

(** Two loads and two stores. *)
Ltac exchange_rule d := intros [Hl Hm] Hi Hj HQ; unfold d;
  do 2 (wps; first [eapply wp_get_elem; [done..|] | eapply wp_get_unchecked; [done..|]]); wps;
  first [eapply wp_put_elem; [done..|] | eapply wp_put_unchecked; [done..|]]; intros m1 Hm1;
  eapply wp_put_unchecked; [done|done|by rewrite length_insert|done|]; intros m2 Hm2;
  apply HQ; split; [by rewrite exchange_length|done].

Lemma wp_swap_checked i j line l (Q : unit -> mem H -> Prop) E m : holds l m -> (i < n)%nat -> (j < n)%nat ->
  (forall m', holds (exchange i j l) m' -> Q tt m') -> wp (swap_checked arr (Z.of_nat i) (Z.of_nat j) line) Q E m.
Proof. exchange_rule @swap_checked. Qed.

Lemma wp_swap_base i j line l (Q : unit -> mem H -> Prop) E m : holds l m -> (i < n)%nat -> (j < n)%nat ->
  (forall m', holds (exchange i j l) m' -> Q tt m') -> wp (swap_base arr (Z.of_nat i) (Z.of_nat j) line) Q E m.
Proof. exchange_rule @swap_base. Qed.

Lemma wp_swap_with_base i j line l (Q : unit -> mem H -> Prop) E m : holds l m -> (i < n)%nat -> (j < n)%nat ->
  (forall m', holds (exchange i j l) m' -> Q tt m') -> wp (swap_with_base arr (Z.of_nat i) (Z.of_nat j) line) Q E m.
Proof. exchange_rule @swap_with_base. Qed.

Lemma wp_swap_middle i j line l (Q : unit -> mem H -> Prop) E m : holds l m -> (i < n)%nat -> (j < n)%nat ->
  (forall m', holds (exchange i j l) m' -> Q tt m') -> wp (swap_middle arr (Z.of_nat i) (Z.of_nat j) line) Q E m.
Proof. exchange_rule @swap_middle. Qed.

Lemma i32_index i : (i <= n)%nat -> i32 (Z.of_nat i) = Z.of_nat i.
Proof. by apply (i32_of_nat a). Qed.

Lemma i32_pred i : (0 < i <= n)%nat -> i32 (Z.of_nat i - 1) = Z.of_nat (i - 1).
Proof. intros Hi. rewrite <- (i32_index (i - 1)) by lia. f_equal. lia. Qed.

Lemma i32_succ i : (i <= n)%nat -> i32 (Z.of_nat i + 1) = Z.of_nat (S i).
Proof. intros Hi. destruct Hok. rewrite i32_small; lia. Qed.

Lemma i32_diff i j : (i <= j <= n)%nat -> i32 (Z.of_nat j - Z.of_nat i) = Z.of_nat (j - i).
Proof. intros Hi. rewrite <- (i32_index (j - i)) by lia. f_equal. lia. Qed.

Lemma wp_swap_next j line l (Q : unit -> mem H -> Prop) E m : holds l m -> (S j < n)%nat ->
  (forall m', holds (exchange j (S j) l) m' -> Q tt m') -> wp (swap_next arr (Z.of_nat j) line) Q E m.
Proof.
  intros [Hl Hm] Hj HQ. unfold swap_next. rewrite i32_succ by lia. wps. eapply wp_get_elem; [done|lia|done..|]. wps. eapply wp_get_elem; [done..|].
  wps. eapply wp_put_unchecked; [done|lia|done..|]. intros m1 Hm1. eapply wp_put_elem; [done|done|by rewrite length_insert|done|]. intros m2 Hm2.
  apply HQ. split; [by rewrite exchange_length|done].
Qed.
(** ** Partition *)

Lemma wp_order_two i j (c : ST (mem H) unit) l (Q : unit -> mem H -> Prop) E m : holds l m ->
  ((forall m', holds (exchange i j l) m' -> Q tt m') -> wp c Q E m) -> (forall m', holds (order_two g i j l) m' -> Q tt m') ->
  wp (if 0 <? g (l !!! i) (l !!! j) then c else mret tt) Q E m.
Proof. intros Hm Hc HQ. unfold order_two in HQ. destruct (0 <? _); [by apply Hc|wps; by apply HQ]. Qed.

Lemma median_spec b e l E m : holds l m -> (b + 3 < e)%nat -> (e <= n)%nat ->
  wp (median less_eq arr (Z.of_nat b) (Z.of_nat e) (Z.of_nat (S b)) (Z.of_nat (e - 1)))
    (fun _ m' => exists l', holds l' m' /\ swaps b e l l' /\ scanning g l' b e (S b) (e - 1)) E m.
Proof.
  intros Hm Hb He. unfold median. rewrite i32_diff by lia. rewrite (Z.quot_div_nonneg _ 2) by lia.
  change 2 with (Z.of_nat 2) at 1. rewrite <- Nat2Z.inj_div, <- Nat2Z.inj_add. set (mid := ((e - b) / 2 + b)%nat).
  assert (Hmid : (b <= mid < e)%nat).
  { unfold mid. pose proof (Nat.div_lt (e - b) 2 ltac:(lia) ltac:(lia)). lia. }
  rewrite i32_index by lia. wps. eapply wp_swap_middle; [done|lia..|]. intros m1 Hm1.
  assert (L1 : length (exchange mid b l) = n) by (destruct Hm1; done).
  wps. eapply wp_compare_elems; [exact Hm1|lia..|]. wps. eapply wp_order_two; [exact Hm1|intros HQ; eapply wp_swap_checked; [exact Hm1|lia|lia|exact HQ]|]. intros m2 Hm2.
  wps. eapply wp_compare_elems; [exact Hm2|lia..|]. wps. eapply wp_order_two; [exact Hm2|intros HQ; eapply wp_swap_base; [exact Hm2|lia|lia|exact HQ]|]. intros m3 Hm3.
  wps. eapply wp_compare_elems; [exact Hm3|lia..|]. wps. eapply wp_order_two; [exact Hm3|intros HQ; eapply wp_swap_with_base; [exact Hm3|lia|lia|exact HQ]|]. intros m4 Hm4.
  eexists. split; [exact Hm4|]. split; [|apply median_scanning; (done || lia)]. repeat apply order_two_swaps; try lia. by constructor; [|lia|lia].
Qed.
(** The scan upwards stops at [k] at the latest. *)
Lemma scan_up_spec fuel b i k l E m : holds l m -> (b < n)%nat -> (i < k)%nat -> (k < n)%nat -> 0 <= g (l !!! k) (l !!! b) -> (k < fuel)%nat ->
  wp (scan_up less_eq fuel arr (Z.of_nat b) (Z.of_nat i)) (fun v m' => holds l m' /\ exists i', v = Z.of_nat i' /\ (i < i' <= k)%nat /\
    all_le g l (l !!! b) (S i) i' /\ g (l !!! b) (l !!! i') <= 0) E m.
Proof.
  intros Hm Hb Hik Hk Hs Hf. unfold scan_up.
  apply (wp_loop _ (fun d x m' => exists i', x = Z.of_nat i' /\ d = (k - i')%nat /\ (i <= i' < k)%nat /\ holds l m' /\ all_le g l (l !!! b) (S i) (S i')))
    with (k := (k - i)%nat); [|exists i; split_and!; [done|done|lia|lia|done|intros x Hx; lia]|lia].
  intros d x m1 (i1 & -> & -> & Hi1 & Hm1 & Hle). rewrite i32_succ by lia. wps. eapply wp_compare_elems; [exact Hm1|lia|done|].
  destruct (g (l !!! S i1) (l !!! b) <? 0) eqn:Ec; wps.
  - exists (k - S i1)%nat. split; [lia|]. exists (S i1). split_and!; [done|done|lia| |done|].
    + assert (S i1 <> k) by (intros Ek; rewrite Ek in Ec; lia). lia.
    + intros x Hx. destruct (decide (x = S i1)) as [->|]; [lia|apply Hle; lia].
  - split; [done|]. exists (S i1). split_and!; [done|lia|lia|done|]. apply le_of_nlt; [done|lia].
Qed.

(** The scan downwards stops at the pivot at the latest. *)
Lemma scan_down_spec fuel b j l E m : holds l m -> (b < j)%nat -> (j <= n)%nat -> (j < fuel)%nat ->
  wp (scan_down less_eq fuel arr (Z.of_nat b) (Z.of_nat j)) (fun v m' => holds l m' /\ exists j', v = Z.of_nat j' /\ (b <= j' < j)%nat /\
    all_ge g l (l !!! b) (S j') j /\ g (l !!! j') (l !!! b) <= 0) E m.
Proof.
  intros Hm Hb Hj Hf. unfold scan_down.
  apply (wp_loop _ (fun d x m' => exists j', x = Z.of_nat j' /\ d = j' /\ (b < j' <= j)%nat /\ holds l m' /\ all_ge g l (l !!! b) j' j))
    with (k := j); [|exists j; split_and!; [done|done|lia|lia|done|intros x Hx; lia]|lia].
  intros d x m1 (j1 & -> & -> & Hj1 & Hm1 & Hge). rewrite i32_pred by lia. wps. eapply wp_compare_elems; [exact Hm1|lia|lia|].
  destruct (0 <? g (l !!! (j1 - 1)%nat) (l !!! b)) eqn:Ec; wps.
  - exists (j1 - 1)%nat. split; [lia|]. exists (j1 - 1)%nat. split_and!; [done|done| |lia|done|].
    + assert ((j1 - 1)%nat <> b) by (intros Eb; rewrite Eb, (cmp_refl g) in Ec; lia). lia.
    + intros x Hx. destruct (decide (x = (j1 - 1)%nat)) as [->|]; [apply le_of_gt; [done|lia]|apply Hge; lia].
  - split; [done|]. exists (j1 - 1)%nat. split_and!; [done|lia|lia| |lia]. replace (S (j1 - 1)) with j1 by lia. done.
Qed.

Lemma partition_spec fuel b e i j l E m : holds l m -> scanning g l b e i j -> (e < fuel)%nat ->
  wp (partition less_eq fuel arr (Z.of_nat b) (Z.of_nat i) (Z.of_nat j)) (fun v m' => exists i' j' l', v = (Z.of_nat i', Z.of_nat j') /\
    holds l' m' /\ swaps b e l l' /\ split_by g (exchange b j' l') (l' !!! b) b j' i' e) E m.
Proof.
  intros Hm Hsc Hf. unfold partition. pose proof Hsc as (Hb & _ & Hie & _ & Hel & _). pose proof Hm as [Hl _].
  apply (wp_loop _ (fun d x m' => exists i' j' l', x = (Z.of_nat i', Z.of_nat j') /\ d = (e - i')%nat /\ holds l' m' /\ swaps b e l l' /\ scanning g l' b e i' j'))
    with (k := (e - i)%nat); [|by exists i, j, l|lia].
  intros d x m1 (i1 & j1 & l1 & -> & -> & Hm1 & Hs1 & Hsc1). pose proof Hsc1 as (Hb1 & Hij1 & Hie1 & Hje1 & Hel1 & Hle1 & Hge1). pose proof Hm1 as [Hl1 _].
  wps. eapply wp_conseq; [apply (scan_up_spec fuel b i1 (Nat.max j1 (S i1))); [done|lia|lia|lia| |lia]|].
  { pose proof (cmp_opp (l1 !!! Nat.max j1 (S i1)) (l1 !!! b)) as Ho. pose proof (Hge1 (Nat.max j1 (S i1)) ltac:(lia)). lia. }
  intros v m2 [Hm2 (i2 & -> & Hi2 & Hle2 & Hge2)]. wps. eapply wp_conseq; [apply (scan_down_spec fuel b j1); [done|lia|lia|lia]|].
  intros v m3 [Hm3 (j2 & -> & Hj2 & Hge3 & Hle3)]. destruct (Z.of_nat j2 <? Z.of_nat i2) eqn:Ec; wps.
  - exists i2, j2, l1. split_and!; try done. eapply scanning_split; [done|done|..]; try done; lia.
  - eapply wp_swap_checked; [done|lia..|]. intros m4 Hm4. wps. exists (e - i2)%nat. split; [lia|]. exists i2, j2, (exchange i2 j2 l1).
    split_and!; [done|done|done|by constructor; [|lia|lia]|]. eapply scanning_swap; try done; lia.
Qed.

(** ** Insertion *)

Lemma sift_spec fuel b e j l E m : holds l m -> sifting g b e j l -> (e < fuel)%nat ->
  wp (sift less_eq fuel arr (Z.of_nat b) (Z.of_nat j)) (fun _ m' => exists l', holds l' m' /\ swaps b e l l' /\ sorted_on g b e l') E m.
Proof.
  intros Hm Hsi Hf. unfold sift. pose proof Hsi as (Hb & Hj & Hel & _). pose proof Hm as [Hl _].
  apply (wp_loop _ (fun d x m' => exists j' l', x = Z.of_nat j' /\ d = j' /\ holds l' m' /\ swaps b e l l' /\ sifting g b e j' l'))
    with (k := j); [|by exists j, l|lia].
  intros d x m1 (j1 & l1 & -> & -> & Hm1 & Hs1 & Hsi1). pose proof Hsi1 as (Hb1 & Hj1 & Hel1 & _). pose proof Hm1 as [Hl1 _].
  wps. apply wp_elem_ptr; [done|lia|]. pose proof Hok as [Ha Hn].
  rewrite arr_ptr_eq by done. unfold _fat_ptr_plus. cbn [curr base last_plus_one]. rewrite i32_index by lia. rewrite (u32_small (a + 4 * Z.of_nat j1)) by lia.
  change (i32 1) with 1. rewrite u32_small by lia. replace (a + 4 * Z.of_nat j1 + 4 * 1) with (a + 4 * Z.of_nat (S j1)) by lia.
  rewrite (untag_elem a n (S j1)) by (done || lia). wps. unfold _check_null. rewrite (proj2 (Z.eqb_neq _ 0)) by lia. wps.
  eapply wp_run; [apply Hless; apply (holds_word l1); (done || lia)|]. rewrite <- arr_ptr_eq by done.
  destruct (0 <? g (l1 !!! j1) (l1 !!! S j1)) eqn:Ec; wps.
  - eapply wp_swap_next; [done|lia|]. intros m2 Hm2. assert (Hs2 : swaps b e l (exchange j1 (S j1) l1)) by (constructor; [done|lia..]).
    destruct (Z.of_nat j1 =? Z.of_nat b) eqn:Eb; wps.
    + assert (j1 = b) as -> by lia. eexists. split_and!; [done|done|]. apply sifting_first; [done|done|lia].
    + rewrite i32_pred by lia. exists (j1 - 1)%nat. split; [lia|]. eexists _, _. split_and!; [done|done|done|done|]. apply sifting_step; (done || lia).
  - eexists. split_and!; [done|done|]. eapply sifting_stop; [done|done|lia].
Qed.

Lemma insertion_sort_spec fuel b e l E m : holds l m -> (b <= e)%nat -> (e <= n)%nat -> (e < fuel)%nat ->
  wp (insertion_sort less_eq fuel arr (Z.of_nat b) (Z.of_nat e)) (fun _ m' => exists l', holds l' m' /\ swaps b e l l' /\ sorted_on g b e l') E m.
Proof.
  intros Hm Hbe He Hf. unfold insertion_sort. rewrite i32_succ by lia. pose proof Hm as [Hl _].
  apply (wp_loop _ (fun d x m' => exists i l', x = (Z.of_nat (i - 1), Z.of_nat i) /\ d = (S e - i)%nat /\ (b < i <= S e)%nat /\
    holds l' m' /\ swaps b e l l' /\ sorted_on g b i l')) with (k := (e - b)%nat).
  - intros d x m1 (i & l1 & -> & -> & Hi & Hm1 & Hs1 & Hso). pose proof Hm1 as [Hl1 _]. destruct (Z.of_nat i <? Z.of_nat e) eqn:Ec; wps.
    + eapply wp_conseq; [apply (sift_spec fuel b (S i) (i - 1)); [done|apply sifting_start; (done || lia)|lia]|].
      intros [] m2 (l2 & Hm2 & Hs2 & Hso2). wps. rewrite i32_succ by lia. exists (S e - S i)%nat. split; [lia|]. exists (S i), l2.
      split_and!; [by replace (S i - 1)%nat with i by lia|done|lia|lia|done| |done]. eapply swaps_trans; [done|]. eapply swaps_mono; [done|lia..].
    + exists l1. split_and!; [done|done|]. intros x y ? ? ?. apply Hso; lia.
  - exists (S b), l. split_and!; [by replace (S b - 1)%nat with b by lia|done|lia|lia|done|done|]. intros x y ? ? ?. lia.
  - lia.
Qed.
(** ** The stack of pending files *)

Fixpoint stack_at (sp : gmap Z Z) (P : list (nat * nat)) : Prop :=
  match P with
  | [] => True
  | (b, e) :: P => sp !! (8 * Z.of_nat (length P)) = Some (Z.of_nat b) /\ sp !! (8 * Z.of_nat (length P) + 4) = Some (Z.of_nat e) /\ stack_at sp P
  end.

Lemma stack_above sp P x v : stack_at sp P -> 8 * Z.of_nat (length P) <= x -> stack_at (<[x := v]> sp) P.
Proof.
  induction P as [|[b e] P IH]; [done|]. intros (Hb & He & Hs) Hx. cbn [length] in Hx. cbn [stack_at].
  rewrite !lookup_insert_ne by lia. split_and!; [done|done|]. apply IH; [done|lia].
Qed.

Lemma file_stack_push sp P b e : stack_at sp P ->
  stack_at (<[8 * Z.of_nat (length P) + 4 := Z.of_nat e]> (<[8 * Z.of_nat (length P) := Z.of_nat b]> sp)) ((b, e) :: P).
Proof.
  intros Hs. cbn [stack_at]. split_and!; [rewrite lookup_insert_ne by lia; apply lookup_insert_eq|apply lookup_insert_eq|].
  apply stack_above; [|lia]. apply stack_above; [done|lia].
Qed.

Lemma sp_index i line : 0 <= i < 40 -> _check_known_subscript_notnull 0 40 4 i array_cyc line = Ret (4 * i).
Proof.
  intros Hi. unfold _check_known_subscript_notnull. rewrite (u32_small i) by lia. rewrite (proj2 (Z.leb_gt _ _)) by lia.
  by rewrite Z.add_0_l, u32_small by lia.
Qed.

(** Pushing a file. *)
Lemma wp_push {B} sp P b e line1 line2 (k : gmap Z Z -> ST (mem H) B) Q E m : (length P < 20)%nat ->
  (forall sp', (stack_at sp P -> stack_at sp' ((b, e) :: P)) -> wp (k sp') Q E m) ->
  wp (sp ← sp_store sp (Z.of_nat (2 * length P)) (Z.of_nat b) line1; sp ← sp_store sp (i32 (Z.of_nat (2 * length P) + 1)) (Z.of_nat e) line2; k sp) Q E m.
Proof.
  intros Hd Hk. rewrite i32_small by lia. unfold sp_store. wps. rewrite sp_index by lia. wps. rewrite sp_index by lia. wps. apply Hk. intros Hs.
  replace (4 * (Z.of_nat (2 * length P) + 1)) with (8 * Z.of_nat (length P) + 4) by lia.
  replace (4 * Z.of_nat (2 * length P)) with (8 * Z.of_nat (length P)) by lia. by apply file_stack_push.
Qed.

(** ** Rounds *)

Context (len : nat) (l0 : list Z) (Hlen : (len <= n)%nat) (Hmax : Z.of_nat len <= 5242878) (Hl0 : length l0 = n).

(** The state of the main loop with the files [F] to be sorted, the current one
    first. *)
Definition round_state (F : list (nat * nat)) (x : Z * Z * (Z * gmap Z Z)) m : Prop :=
  exists b e P sp l, F = (b, e) :: P /\ x = (Z.of_nat b, Z.of_nat e, (Z.of_nat (2 * length P), sp)) /\
    pending g len l0 F l /\ holds l m /\ stack_at sp P /\ (length P <= 20)%nat.

Lemma split_round b e P sp l E m : pending g len l0 ((b, e) :: P) l -> holds l m -> stack_at sp P -> (b + 3 < e)%nat ->
  wp (qsort_round less_eq (S len) arr (Z.of_nat b, Z.of_nat e, (Z.of_nat (2 * length P), sp))) (fun r m' =>
    exists x F, r = inl x /\ round_state F x m' /\ (work F < work ((b, e) :: P))%nat) E m.
Proof.
  intros Hp Hm Hs Hbe. pose proof Hp as [_ Hf _ _ Hd]. apply Forall_cons in Hf as [[_ He] _]. simpl in He. pose proof Hm as [Hl _].
  assert (Hd20 : (length P < 20)%nat) by (apply (depth_bound len (b, e)); [done|unfold file_size; simpl; lia|done]).
  unfold qsort_round. rewrite (i32_diff b e) by lia. rewrite (proj2 (Z.ltb_lt _ _)) by lia. rewrite (i32_succ b), (i32_pred e) by lia.
  wps. eapply wp_conseq; [apply (median_spec b e l); [done|done|lia]|]. intros [] m1 (l1 & Hm1 & Hs1 & Hsc).
  wps. eapply wp_conseq; [apply (partition_spec (S len) b e _ _ l1); [done|done|lia]|]. intros [i' j'] m2 (i & j & l2 & Eij & Hm2 & Hs2 & Hsp).
  injection Eij as -> ->. pose proof Hsp as (Hj & Hi & _ & _). wps. eapply wp_swap_base; [done|lia..|]. intros m3 Hm3.
  assert (Hs3 : swaps b e l (exchange b j l2)) by (constructor; [by eapply swaps_trans|lia..]).
  pose proof (pending_split g len l0 b e i j _ P l _ ltac:(lia) Hp Hs3 Hsp) as Hp'. pose proof (work_split g b e i j _ P _ Hsp) as Hw.
  rewrite (i32_diff i e), (i32_diff b j), (i32_small (Z.of_nat (2 * length P) + 2)) by lia.
  replace (Z.of_nat (2 * length P) + 2) with (Z.of_nat (2 * S (length P))) by lia.
  destruct (decide (e - i < j - b)%nat) as [Hlt|Hlt]; [rewrite (proj2 (Z.ltb_lt _ _)) by lia|rewrite (proj2 (Z.ltb_ge _ _)) by lia].
  - apply wp_push; [done|]. intros sp' Hs'. wps. eexists _, _. split; [done|]. split; [|exact Hw].
    exists i, e, ((b, j) :: P), sp', (exchange b j l2). split_and!; [done|done|done|done|by apply Hs'|simpl; lia].
  - apply wp_push; [done|]. intros sp' Hs'. wps. eexists _, _. split; [done|]. split; [|exact Hw].
    exists b, j, ((i, e) :: P), sp', (exchange b j l2). split_and!; [done|done|done|done|by apply Hs'|simpl; lia].
Qed.

Lemma sort_round b e P sp l E m : pending g len l0 ((b, e) :: P) l -> holds l m -> stack_at sp P -> (length P <= 20)%nat -> (e <= b + 3)%nat ->
  wp (qsort_round less_eq (S len) arr (Z.of_nat b, Z.of_nat e, (Z.of_nat (2 * length P), sp))) (fun r m' =>
    match r with
    | inl x => exists F, round_state F x m' /\ (work F < work ((b, e) :: P))%nat
    | inr _ => exists l', holds l' m' /\ pending g len l0 [] l'
    end) E m.
Proof.
  intros Hp Hm Hs Hd Hbe. pose proof Hp as [_ Hf _ _ _]. apply Forall_cons in Hf as [[Hb He] _]. simpl in Hb, He. pose proof Hm as [Hl _].
  unfold qsort_round. rewrite (i32_diff b e) by lia. rewrite (proj2 (Z.ltb_ge _ _)) by lia.
  wps. eapply wp_conseq; [apply (insertion_sort_spec (S len) b e l); [done|lia..]|]. intros [] m1 (l1 & Hm1 & Hs1 & Hso).
  pose proof (pending_done g len l0 b e P l l1 ltac:(lia) Hp Hs1 Hso) as Hp1. destruct P as [|[b1 e1] P]; [wps; by exists l1|].
  destruct Hs as (Hb1 & He1 & Hs). cbn [length] in *. rewrite (proj2 (Z.eqb_neq _ 0)) by lia. cbn [negb].
  rewrite (i32_small (Z.of_nat (2 * S (length P)) - 2)) by lia. replace (Z.of_nat (2 * S (length P)) - 2) with (Z.of_nat (2 * length P)) by lia.
  unfold sp_load. wps. rewrite sp_index by lia. wps. unfold load. replace (4 * Z.of_nat (2 * length P)) with (8 * Z.of_nat (length P)) by lia. rewrite Hb1.
  wps. rewrite i32_small by lia. rewrite sp_index by lia. wps. unfold load.
  replace (4 * (Z.of_nat (2 * length P) + 1)) with (8 * Z.of_nat (length P) + 4) by lia. rewrite He1. wps.
  eexists. split; [exists b1, e1, P, sp, l1; split_and!; done || lia|]. simpl. lia.
Qed.

(** The sorted part of the array is a permutation of what it was. *)
Lemma quick_sort_spec E m : holds l0 m ->
  wp (Cyc_Array_qsort less_eq arr (Z.of_nat len)) (fun _ m' => exists l, holds l m' /\ swaps 0 len l0 l /\ sorted_on g 0 len l) E m.
Proof.
  intros Hm. unfold Cyc_Array_qsort. rewrite Z.add_0_l. rewrite i32_index by lia. destruct Hok as [Ha Hn].
  rewrite u32_small by lia. rewrite arr_ptr_size by done. rewrite (proj2 (Z.ltb_ge (Z.of_nat n) _)), (proj2 (Z.ltb_ge (Z.of_nat len) _)) by lia.
  cbn [orb]. change (0 <? 0) with false. cbn [orb]. rewrite Nat2Z.id.
  apply (wp_loop _ (fun d x m' => exists F, round_state F x m' /\ d = work F)) with (k := work [(0, len)%nat]).
  - intros d x m1 (F & (b & e & P & sp & l & -> & -> & Hp & Hm1 & Hs & Hd) & ->). destruct (decide (b + 3 < e)%nat).
    + eapply wp_conseq; [by eapply split_round|]. intros r m2 (x & F & -> & Hx & Hw). exists (work F). split; [done|]. by exists F.
    + eapply wp_conseq; [eapply sort_round; done || lia|]. intros [x|[]] m2.
      * intros (F & Hx & Hw). exists (work F). split; [done|]. by exists F.
      * intros (l' & Hm2 & [Hsw _ _ Hor _]). exists l'. split_and!; [done|done|]. by apply ordered_done.
  - eexists. split; [|done]. exists 0%nat, len, [], ∅, l0. split_and!; [done|done|apply pending_start|done|done|simpl; lia].
  - simpl. unfold file_size. simpl. lia.
Qed.
End qsort.

(** ** The merge sort by passes

    [Cyc_Array_msort] merges runs of doubled length from one array to the other,
    exchanging the arrays after each pass.  The result of the last pass is in the
    array of the caller only when the number of passes is even. *)

(** ** Passes *)

Section passes.
Context (g : Z -> Z -> Z).

Definition leg (u v : Z) : Prop := g u v <= 0.
#[export] Instance leg_dec u v : Decision (leg u v).
Proof. unfold leg. apply _. Defined.

Fixpoint pass_fuel (fuel s : nat) (l : list Z) : list Z :=
  match fuel, l with
  | O, _ | _, [] => l
  | S fuel, _ => list_merge leg (take s l) (take s (drop s l)) ++ pass_fuel fuel s (drop (s + s) l)
  end.

(** The runs of [s] elements of [l], merged in pairs. *)
Definition pass (s : nat) (l : list Z) : list Z := pass_fuel (length l) s l.

Fixpoint passes (k : nat) (l : list Z) : list Z := match k with O => l | S k => pass (2 ^ k) (passes k l) end.

Lemma pass_fuel_enough s f1 f2 l : (0 < s)%nat -> (length l <= f1)%nat -> (length l <= f2)%nat -> pass_fuel f1 s l = pass_fuel f2 s l.
Proof.
  intros Hs. revert f2 l. induction f1 as [|f1 IH]; intros f2 l H1 H2.
  { destruct l; [|simpl in H1; lia]. by destruct f2. }
  destruct l as [|x l]; [by destruct f2|]. destruct f2 as [|f2]; [simpl in H2; lia|]. cbn [pass_fuel]. f_equal.
  apply IH; rewrite length_drop; simpl in *; lia.
Qed.

Lemma pass_step s l : (0 < s)%nat -> l <> [] -> pass s l = list_merge leg (take s l) (take s (drop s l)) ++ pass s (drop (s + s) l).
Proof.
  intros Hs Hl. unfold pass. destruct l as [|x l]; [done|]. cbn [length pass_fuel]. f_equal. apply pass_fuel_enough; [done| |done].
  rewrite length_drop. simpl. lia.
Qed.

Lemma merged_parts s l : list_merge leg (take s l) (take s (drop s l)) ++ drop (s + s) l ≡ₚ l.
Proof. rewrite merge_Permutation, <- app_assoc, <- drop_drop. by rewrite !take_drop. Qed.

Lemma pass_perm s l : pass s l ≡ₚ l.
Proof.
  unfold pass. generalize (length l) as f. intros f. revert l. induction f as [|f IH]; intros l; [done|]. destruct l as [|x l]; [done|].
  cbn [pass_fuel]. rewrite IH. apply merged_parts.
Qed.

Lemma passes_perm k l : passes k l ≡ₚ l.
Proof. induction k as [|k IH]; simpl; [done|]. by rewrite pass_perm. Qed.

Lemma passes_length k l : length (passes k l) = length l.
Proof. by rewrite passes_perm. Qed.

(** *** Runs *)

Inductive runs (s : nat) : list Z -> Prop :=
  | runs_last l : (length l <= s)%nat -> Sorted leg l -> runs s l
  | runs_more l1 l2 : length l1 = s -> Sorted leg l1 -> runs s l2 -> runs s (l1 ++ l2).

Lemma runs_head s l : runs s l -> Sorted leg (take s l).
Proof. intros [l' Hl Hs|l1 l2 <- Hs _]; [by rewrite take_ge|by rewrite take_app_length]. Qed.

Lemma runs_tail s l : runs s l -> runs s (drop s l).
Proof. intros [l' Hl Hs|l1 l2 <- _ Hs]; [rewrite drop_ge by done; constructor; [simpl; lia|constructor]|by rewrite drop_app_length]. Qed.

Lemma runs_one l : runs 1 l.
Proof. induction l as [|x l IH]; [by constructor; [simpl; lia|constructor]|]. apply (runs_more 1 [x] l); [done|by repeat constructor|done]. Qed.

Lemma runs_sorted s l : runs s l -> (length l <= s)%nat -> Sorted leg l.
Proof. intros Hr Hl. rewrite <- (take_ge l s Hl). by apply runs_head. Qed.

Context `{!Comparison g}.

Lemma leg_total : Total leg.
Proof. intros u v. unfold leg. pose proof (cmp_opp u v). lia. Qed.

Lemma pass_runs s l : (0 < s)%nat -> runs s l -> runs (s + s) (pass s l).
Proof.
  intros Hs. unfold pass. generalize (Nat.le_refl (length l)). generalize (length l) at 2 3 as f. intros f. revert l. induction f as [|f IH]; intros l Hf Hr.
  { destruct l; [|simpl in Hf; lia]. constructor; [simpl; lia|constructor]. }
  destruct l as [|x l]; [constructor; [simpl; lia|constructor]|]. set (l1 := x :: l) in *. assert (Hl1 : (0 < length l1)%nat) by (simpl; lia).
  change (pass_fuel (S f) s l1) with (list_merge leg (take s l1) (take s (drop s l1)) ++ pass_fuel f s (drop (s + s) l1)).
  assert (Hm : Sorted leg (list_merge leg (take s l1) (take s (drop s l1)))).
  { apply Sorted_list_merge; [apply leg_total|by apply runs_head|by apply runs_head, runs_tail]. }
  assert (Hlen : length (list_merge leg (take s l1) (take s (drop s l1))) = (s `min` length l1 + s `min` (length l1 - s))%nat).
  { by rewrite merge_Permutation, length_app, !length_take, length_drop. }
  destruct (decide (length l1 <= s + s)%nat).
  - rewrite (drop_ge l1 (s + s)) by lia. replace (pass_fuel f s []) with (@nil Z) by (by destruct f). rewrite app_nil_r. constructor; [lia|done].
  - apply runs_more; [lia|done|]. apply IH; [rewrite length_drop; lia|]. rewrite <- drop_drop. by apply runs_tail, runs_tail.
Qed.

Lemma passes_runs k l : runs (2 ^ k) (passes k l).
Proof.
  induction k as [|k IH]; [apply runs_one|]. replace (2 ^ S k)%nat with (2 ^ k + 2 ^ k)%nat by (simpl; lia). cbn [passes].
  apply pass_runs; [|done]. apply Nat.neq_0_lt_0. by apply Nat.pow_nonzero.
Qed.
End passes.

(** ** Parts of lists *)

Definition seg (F : list Z) (k e : nat) : list Z := take (e - k) (drop k F).

Lemma seg_cons F k e : (k < e)%nat -> (e <= length F)%nat -> seg F k e = F !!! k :: seg F (S k) e.
Proof.
  intros Hk He. unfold seg. rewrite (drop_S F (F !!! k) k) by (apply list_lookup_lookup_total_lt; lia).
  by replace (e - k)%nat with (S (e - S k)) by lia.
Qed.

Lemma seg_nil F k e : (e <= k)%nat -> seg F k e = [].
Proof. intros Hk. unfold seg. by replace (e - k)%nat with 0%nat by lia. Qed.

Lemma seg_length F k e : (k <= e)%nat -> (e <= length F)%nat -> length (seg F k e) = (e - k)%nat.
Proof. intros. unfold seg. rewrite length_take, length_drop. lia. Qed.

(** Up to the end of the list. *)
Lemma seg_min F k s : seg F k ((k + s) `min` length F) = take s (drop k F).
Proof.
  unfold seg. destruct (decide (k + s <= length F)%nat); [by replace ((k + s) `min` length F - k)%nat with s by lia|].
  rewrite (take_ge _ s) by (rewrite length_drop; lia). apply take_ge. rewrite length_drop. lia.
Qed.

(** [T] with [acc] written from [d] on. *)
Definition written (T : list Z) (d : nat) (acc : list Z) : list Z := take d T ++ acc ++ drop (d + length acc) T.

Lemma written_nil T d : written T d [] = T.
Proof. unfold written. simpl. by rewrite Nat.add_0_r, take_drop. Qed.

Lemma written_length T d acc : (d + length acc <= length T)%nat -> length (written T d acc) = length T.
Proof. intros. unfold written. rewrite !length_app, length_take, length_drop. lia. Qed.

Lemma written_push T d acc v : (d + length acc < length T)%nat -> <[(d + length acc)%nat := v]> (written T d acc) = written T d (acc ++ [v]).
Proof.
  intros Hd. unfold written. rewrite insert_app_r_alt by (rewrite length_take; lia). rewrite length_take.
  rewrite insert_app_r_alt by lia. replace (d + length acc - d `min` length T - length acc)%nat with 0%nat by lia.
  destruct (lookup_lt_is_Some_2 T (d + length acc) ltac:(lia)) as [u Hu]. rewrite (drop_S T u) by done. simpl.
  rewrite length_app. simpl. rewrite <- app_assoc. simpl. by replace (d + (length acc + 1))%nat with (S (d + length acc)) by lia.
Qed.

Lemma written_written T P M : (length P + length M <= length T)%nat -> written (written T 0 P) (length P) M = written T 0 (P ++ M).
Proof.
  intros Hl. unfold written. simpl. rewrite take_app_length. rewrite drop_app_ge by lia. rewrite drop_drop, length_app, app_assoc.
  by replace (length P + (length P + length M - length P))%nat with (length P + length M)%nat by lia.
Qed.

Section merge.
Context {H : Type} `{HH : Heap H} `{!HeapLaws H} (R : gset Z).
Context (less_eq : Z -> Z -> ST (mem H) Z) (g : Z -> Z -> Z) `{!Comparison g} (Hless : compares less_eq g) (len : nat) (w : gmap Z Z).
Implicit Types (m : mem H) (F T : list Z).

(** Two arrays that may be longer than [len]. *)
Definition apart_arrays (a1 : Z) (n1 : nat) (a2 : Z) (n2 : nat) : Prop :=
  array_ok a1 n1 /\ array_ok a2 n2 /\ (len <= n1)%nat /\ (len <= n2)%nat /\ (a1 + 4 * Z.of_nat len <= a2 \/ a2 + 4 * Z.of_nat len <= a1) /\ Z.of_nat len <= 67108864.

Definition both (a1 a2 : Z) F T m : Prop := length F = len /\ length T = len /\ at_words R (put_words a1 F (put_words a2 T w)) m.

Lemma both_sym a1 n1 a2 n2 F T m : apart_arrays a1 n1 a2 n2 -> both a1 a2 F T m -> both a2 a1 T F m.
Proof. intros (_ & _ & _ & _ & Ha & _) (HF & HT & Hm). split_and!; [done..|]. rewrite put_words_comm; [done|]. rewrite HF, HT. lia. Qed.

Lemma apart_sym a1 n1 a2 n2 : apart_arrays a1 n1 a2 n2 -> apart_arrays a2 n2 a1 n1.
Proof. intros (? & ? & ? & ? & ? & ?). split_and!; try done. lia. Qed.

Context (a1 : Z) (n1 : nat) (a2 : Z) (n2 : nat) (Hab : apart_arrays a1 n1 a2 n2).
Abbreviation from := (arr_ptr a1 n1).
Abbreviation to := (arr_ptr a2 n2).

Lemma i32_len i : (i <= len)%nat -> i32 (Z.of_nat i) = Z.of_nat i.
Proof. intros Hi. destruct Hab as (_ & _ & _ & _ & _ & ?). apply i32_small. lia. Qed.

Lemma wp_move_elem k d line F T (Q : Z * Z -> mem H -> Prop) E m : both a1 a2 F T m -> (k < len)%nat -> (d < len)%nat ->
  (forall m', both a1 a2 F (<[d := F !!! k]> T) m' -> Q (Z.of_nat (S k), Z.of_nat (S d)) m') -> wp (move_elem from to (Z.of_nat k) (Z.of_nat d) line) Q E m.
Proof.
  intros Hb Hk Hd HQ. pose proof Hb as (HF & HT & Hm). pose proof Hab as (Ho1 & Ho2 & Hn1 & Hn2 & _). unfold move_elem. wps.
  eapply wp_get_part; [done| | |exact Hm|]; [lia|lia|]. wps. destruct (both_sym _ _ _ _ _ _ _ Hab Hb) as (_ & _ & Hm').
  eapply wp_put_part; [done| | |exact Hm'|]; [lia|lia|]. intros m1 Hm1. wps.
  replace (i32 (Z.of_nat k + 1)) with (Z.of_nat (S k)) by (rewrite <- (i32_len (S k)) by lia; f_equal; lia).
  replace (i32 (Z.of_nat d + 1)) with (Z.of_nat (S d)) by (rewrite <- (i32_len (S d)) by lia; f_equal; lia).
  apply HQ, (both_sym a2 n2 a1 n1); [by apply apart_sym|]. split_and!; [by rewrite length_insert|done|done].
Qed.

Lemma wp_compare_from {B} i j line F T (k : Z -> ST (mem H) B) Q E m : both a1 a2 F T m -> (i < len)%nat -> (j < len)%nat ->
  wp (k (g (F !!! i) (F !!! j))) Q E m -> wp (p ← elem_ptr from (Z.of_nat i) line; q ← elem_ptr from (Z.of_nat j) line; c ← less_eq p q; k c) Q E m.
Proof.
  intros (HF & HT & [Hh Hm]) Hi Hj HQ. pose proof Hab as (Ho1 & _ & Hn1 & _). wps. apply wp_elem_ptr; [done|lia|]. wps. apply wp_elem_ptr; [done|lia|].
  wps. eapply wp_run; [|exact HQ]. apply Hless; rewrite Hm; apply put_words_get; lia.
Qed.

Lemma move_rest_spec fuel k e d line F T acc E m : both a1 a2 F (written T d acc) m -> length T = len -> (k <= e)%nat -> (e <= len)%nat ->
  (d + length acc + (e - k) <= len)%nat -> (e < fuel)%nat ->
  wp (move_rest fuel from to (Z.of_nat k) (Z.of_nat e) (Z.of_nat (d + length acc)) line)
    (fun v m' => v = Z.of_nat (d + length acc + (e - k)) /\ both a1 a2 F (written T d (acc ++ seg F k e)) m') E m.
Proof.
  intros Hb HT Hk He Hd Hf. unfold move_rest.
  apply (wp_loop _ (fun r x m' => exists k' acc', x = (Z.of_nat k', Z.of_nat (d + length acc')) /\ r = (e - k')%nat /\ (k' <= e)%nat /\
    both a1 a2 F (written T d acc') m' /\ acc' ++ seg F k' e = acc ++ seg F k e /\ (length acc' + (e - k') = length acc + (e - k))%nat)) with (k := (e - k)%nat);
    [|by exists k, acc|lia].
  intros r x m1 (k1 & acc1 & -> & -> & Hk1 & Hb1 & Eacc & El). pose proof Hb1 as (HF & _). destruct (Z.of_nat k1 <? Z.of_nat e) eqn:Ek; wps.
  - apply (wp_move_elem _ _ _ F (written T d acc1)); [done|lia|lia|]. intros m2 Hb2. wps. rewrite written_push in Hb2 by lia.
    exists (e - S k1)%nat. split; [lia|]. exists (S k1), (acc1 ++ [F !!! k1]). rewrite length_app. simpl.
    split_and!; [by replace (d + (length acc1 + 1))%nat with (S (d + length acc1)) by lia|done|lia|done| |lia].
    rewrite <- app_assoc. simpl. rewrite <- seg_cons by lia. done.
  - assert (k1 = e) as -> by lia. rewrite (seg_nil F e e), app_nil_r in Eacc by lia. subst acc1. split; [|done]. f_equal. lia.
Qed.

Lemma merge_runs_spec fuel s r e F T E m : both a1 a2 F T m -> (s <= r)%nat -> (r <= e)%nat -> (e <= len)%nat -> (len < fuel)%nat ->
  wp (merge_runs less_eq fuel from to (Z.of_nat s) (Z.of_nat r) (Z.of_nat r) (Z.of_nat e) (Z.of_nat s))
    (fun v m' => v = Z.of_nat e /\ both a1 a2 F (written T s (list_merge (leg g) (seg F s r) (seg F r e))) m') E m.
Proof.
  intros Hb Hsr Hre He Hf. unfold merge_runs. pose proof Hb as (HF & HT & _). wps. 
  apply (wp_loop _ (fun d x m' => exists ls rs acc, x = (Z.of_nat ls, Z.of_nat rs, Z.of_nat (s + length acc)) /\ d = (r - ls + (e - rs))%nat /\
    (s <= ls <= r)%nat /\ (r <= rs <= e)%nat /\ both a1 a2 F (written T s acc) m' /\ length acc = (ls - s + (rs - r))%nat /\
    acc ++ list_merge (leg g) (seg F ls r) (seg F rs e) = list_merge (leg g) (seg F s r) (seg F r e))) with (k := (r - s + (e - r))%nat).
  - intros d x m1 (ls & rs & acc & -> & -> & Hls & Hrs & Hb1 & Hacc & Em).
    destruct (Z.of_nat ls <? Z.of_nat r) eqn:E1, (Z.of_nat rs <? Z.of_nat e) eqn:E2; cbn [andb].
    2,3,4: wps; eapply wp_conseq; [apply (move_rest_spec fuel ls r s 184 F T acc); [done|done|lia..]|]; intros v m2 [-> Hb2]; wps;
      replace (s + length acc + (r - ls))%nat with (s + length (acc ++ seg F ls r))%nat by (rewrite length_app, seg_length; lia);
      eapply wp_conseq; [apply (move_rest_spec fuel rs e s 187 F T (acc ++ seg F ls r)); [done|done|lia|lia|rewrite length_app, seg_length; lia|lia]|];
      intros v m3 [-> Hb3]; (split; [f_equal; rewrite length_app, seg_length; lia|]); rewrite <- Em, <- app_assoc in *;
      (destruct (decide (ls = r)) as [->|]; [rewrite (seg_nil F r r), list_merge_nil_l in * by lia; exact Hb3|];
       assert (rs = e) as -> by lia; rewrite (seg_nil F e e), list_merge_nil_r, app_nil_r in * by lia; exact Hb3).
    apply (wp_compare_from _ _ _ F (written T s acc)); [done|lia|lia|]. rewrite (seg_cons F ls r), (seg_cons F rs e), list_merge_cons in Em by lia.
    destruct (g (F !!! ls) (F !!! rs) <=? 0) eqn:Ec; [rewrite decide_True in Em by (unfold leg; lia)|rewrite decide_False in Em by (unfold leg; lia)].
    + wps. apply (wp_move_elem _ _ _ F (written T s acc)); [done|lia|lia|]. intros m2 Hb2. wps. rewrite written_push in Hb2 by lia.
      exists (r - S ls + (e - rs))%nat. split; [lia|]. exists (S ls), rs, (acc ++ [F !!! ls]). rewrite length_app. simpl.
      split_and!; [by replace (s + (length acc + 1))%nat with (S (s + length acc)) by lia|done|lia|lia|lia|lia|done|lia|].
      rewrite <- app_assoc. simpl. rewrite <- Em. by rewrite (seg_cons F rs e) by lia.
    + wps. apply (wp_move_elem _ _ _ F (written T s acc)); [done|lia|lia|]. intros m2 Hb2. wps. rewrite written_push in Hb2 by lia.
      exists (r - ls + (e - S rs))%nat. split; [lia|]. exists ls, (S rs), (acc ++ [F !!! rs]). rewrite length_app. simpl.
      split_and!; [by replace (s + (length acc + 1))%nat with (S (s + length acc)) by lia|done|lia|lia|lia|lia|done|lia|].
      rewrite <- app_assoc. simpl. rewrite <- Em. by rewrite (seg_cons F ls r) by lia.
  - exists s, r, []. rewrite written_nil, Nat.add_0_r. split_and!; done || (simpl; lia).
  - lia.
Qed.

(** ** One pass *)

Lemma merge_pass_spec fuel s F T E m : both a1 a2 F T m -> (0 < s < len)%nat -> (len < fuel)%nat ->
  wp (merge_pass less_eq fuel from to (Z.of_nat s) (Z.of_nat len)) (fun _ m' => both a1 a2 F (pass g s F) m') E m.
Proof.
  intros Hb Hs Hf. unfold merge_pass. pose proof Hb as (HF & HT & _). pose proof Hab as (_ & _ & _ & _ & _ & Hmax).
  assert (Hpl : length (pass g s F) = len) by (by rewrite pass_perm).
  apply (wp_loop _ (fun d x m' => exists st P, x = (Z.of_nat st, Z.of_nat (length P)) /\ d = (len - st)%nat /\ length P = (st `min` len)%nat /\ (st < len + (s + s))%nat /\
    both a1 a2 F (written T 0 P) m' /\ P ++ pass g s (drop st F) = pass g s F)) with (k := len).
  - intros d x m1 (st & P & -> & -> & HP & Hst & Hb1 & Ep). destruct (Z.of_nat st <? Z.of_nat len) eqn:Ec.
    + assert (Hmin : forall k, (k <= s + s)%nat ->
        (if i32 (Z.of_nat st + Z.of_nat k) <? Z.of_nat len then i32 (Z.of_nat st + Z.of_nat k) else Z.of_nat len) = Z.of_nat ((st + k) `min` len)).
      { intros k Hk. rewrite i32_small by lia. destruct (Z.of_nat st + Z.of_nat k <? Z.of_nat len) eqn:E1; lia. }
      rewrite (i32_small (Z.of_nat s * 2)) by lia. replace (Z.of_nat s * 2) with (Z.of_nat (s + s)) by lia. rewrite !Hmin by lia.
      replace (length P) with st by lia. wps. eapply wp_conseq; [apply (merge_runs_spec fuel st); [exact Hb1|lia..]|].
      intros v m2 [-> Hb2]. wps. rewrite i32_small by lia. replace (Z.of_nat st + Z.of_nat (s + s)) with (Z.of_nat (st + (s + s))) by lia.
      exists (len - (st + (s + s)))%nat. split; [lia|].
      set (M := list_merge (leg g) (seg F st ((st + s) `min` len)) (seg F ((st + s) `min` len) ((st + (s + s)) `min` len))) in *.
      assert (HM : length M = ((st + (s + s)) `min` len - st)%nat) by (unfold M; rewrite merge_Permutation, length_app, !seg_length; lia).
      exists (st + (s + s))%nat, (P ++ M). rewrite length_app.
      split_and!; [by replace (length P + length M)%nat with ((st + (s + s)) `min` len)%nat by lia|done|lia|lia| |].
      * replace st with (length P) in Hb2 at 1 by lia. rewrite written_written in Hb2 by lia. exact Hb2.
      * rewrite <- Ep, <- app_assoc. f_equal. rewrite (pass_step g s (drop st F)) by (lia || (intros En; apply (f_equal length) in En; rewrite length_drop in En; simpl in En; lia)).
        rewrite !drop_drop. f_equal. unfold M. f_equal; [rewrite <- HF; apply seg_min|].
        destruct (decide (st + s <= len)%nat).
        -- replace ((st + s) `min` len)%nat with (st + s)%nat by lia. rewrite Nat.add_assoc, <- HF. apply seg_min.
        -- rewrite seg_nil, (drop_ge F (st + s)) by lia. by rewrite take_nil.
    + wps. rewrite (drop_ge F st) in Ep by lia. change (pass g s []) with (@nil Z) in Ep. rewrite app_nil_r in Ep. subst P.
      unfold written in Hb1. simpl in Hb1. rewrite drop_ge, app_nil_r in Hb1 by lia. exact Hb1.
  - exists 0%nat, []. rewrite written_nil. split_and!; done || (simpl; lia).
  - lia.
Qed.
End merge.

(** ** All passes *)

Section msort.
Context {H : Type} `{HH : Heap H} `{!HeapLaws H} (R : gset Z).
Context (less_eq : Z -> Z -> ST (mem H) Z) (g : Z -> Z -> Z) `{!Comparison g} (Hless : compares less_eq g).
Implicit Types (m : mem H) (w : gmap Z Z) (l : list Z).

(** The number of passes over [n] elements. *)
Definition pass_count (n : nat) : nat := Nat.log2_up n.

(** What is in the array of the caller in the end: the result of the last pass
    that wrote to it. *)
Definition msort_result (l : list Z) : list Z :=
  let k := pass_count (length l) in passes g (if Nat.even k then k else k - 1) l.

Lemma pass_count_more n k : (2 ^ k < n)%nat <-> (k < pass_count n)%nat.
Proof.
  unfold pass_count. destruct (decide (1 < n)%nat) as [Hn|Hn].
  - rewrite Nat.log2_up_lt_pow2 by lia. done.
  - rewrite (Nat.log2_up_eqn0 n) by lia. pose proof (Nat.pow_nonzero 2 k). lia.
Qed.

(** The arrays after [k] passes: the last result, and the one before it. *)
Definition pass_state (a : Z) (n : nat) (p : Z) (l : list Z) w (k : nat) (x : Z * (fat_ptr * fat_ptr)) m : Prop :=
  exists L, length L = length l /\
  if Nat.even k then x = (Z.of_nat (2 ^ k), (arr_ptr p (length l), arr_ptr a n)) /\ at_words R (put_words a (passes g k l) (put_words p L w)) m
  else x = (Z.of_nat (2 ^ k), (arr_ptr a n, arr_ptr p (length l))) /\ at_words R (put_words a (passes g (k - 1) l) (put_words p (passes g k l) w)) m.

Lemma pass_state_step a n p l w k x E m : apart_arrays (length l) a n p (length l) -> pass_state a n p l w k x m -> (2 ^ k < length l)%nat ->
  wp (let '(stepsize, (from, to)) := x in merge_pass less_eq (S (length l)) to from stepsize (Z.of_nat (length l));; mret (i32 (stepsize * 2), (to, from)))
    (fun x' m' => pass_state a n p l w (S k) x' m') E m.
Proof.
  intros Hap (L & HL & Hs) Hk. pose proof Hap as (_ & _ & _ & _ & Hsep & Hmax). pose proof (Nat.pow_nonzero 2 k ltac:(done)).
  assert (Hpl : forall j, length (passes g j l) = length l) by (intros; apply passes_length).
  assert (Hd : i32 (Z.of_nat (2 ^ k) * 2) = Z.of_nat (2 ^ S k)) by (rewrite i32_small by lia; rewrite Nat.pow_succ_r'; lia).
  unfold pass_state. rewrite Nat.even_succ, <- Nat.negb_even. destruct (Nat.even k) eqn:Ev; destruct Hs as [-> Hm]; cbn [negb]; wps.
  - eapply wp_conseq; [apply (merge_pass_spec R less_eq g Hless (length l) w a n p (length l) Hap (S (length l)) (2 ^ k) (passes g k l) L); [by split_and!|lia|lia]|].
    intros [] m1 (_ & _ & Hm1). wps. rewrite Hd. exists L. replace (S k - 1)%nat with k by lia. split_and!; done.
  - assert (Hkp : (S (k - 1) = k)%nat) by (destruct k; [done|lia]).
    eapply wp_conseq; [apply (merge_pass_spec R less_eq g Hless (length l) w p (length l) a n (apart_sym (length l) _ _ _ _ Hap) (S (length l)) (2 ^ k) (passes g k l) (passes g (k - 1) l));
      [split_and!; [done|done|]|lia|lia]|].
    { rewrite put_words_comm; [done|]. rewrite !Hpl. lia. }
    intros [] m1 (_ & _ & Hm1). wps. rewrite Hd. exists (passes g k l). split; [done|]. split; [done|]. rewrite put_words_comm; [done|].
    rewrite !Hpl. lia.
Qed.

(** A new object lies on one side of an array. *)
Lemma fresh_apart a l p k w : (0 < k)%nat -> (0 < length l)%nat -> fresh_words p k (put_words a l w) -> a + 4 * Z.of_nat (length l) <= p \/ p + 4 * Z.of_nat k <= a.
Proof.
  intros Hk Hl (_ & _ & _ & Hf). assert (Hi : forall i, (i <= length l)%nat -> a + 4 * Z.of_nat i <= p \/ p + 4 * Z.of_nat k <= a); [|by apply Hi].
  induction i as [|i IH]; intros Hi.
  - destruct (Hf (a + 4 * Z.of_nat 0)); [eexists; by apply put_words_get|lia|lia].
  - destruct IH as [IH|IH]; [lia| |by right]. destruct (Hf (a + 4 * Z.of_nat i)); [eexists; apply put_words_get; lia|lia|lia].
Qed.

(** The first [length l] elements of the array are [l]. *)
Lemma msort_spec a n w l m : array_ok a n -> (length l <= n)%nat -> at_words R (put_words a l w) m ->
  wp (Cyc_Array_msort less_eq (arr_ptr a n) (Z.of_nat (length l)))
    (fun _ m' => exists p L, fresh_words p (length l) (put_words a l w) /\ length L = length l /\
      at_words R (put_words a (msort_result l) (put_words p L w)) m')
    (fun e m' => e = Cyc_Bad_alloc /\ at_words R (put_words a l w) m') m.
Proof.
  intros Hok Hn Hm. pose proof Hok as [Ha Hb]. unfold Cyc_Array_msort. rewrite arr_ptr_size by done. rewrite u32_small by lia.
  rewrite (proj2 (Z.ltb_ge (Z.of_nat n) _)), (proj2 (Z.ltb_ge (Z.of_nat (length l)) 0)) by lia. cbn [orb]. rewrite Nat2Z.id. wps.
  set (vs := replicate (length l) (l !!! 0%nat)). assert (Hvs : length vs = length l) by apply length_replicate.
  rewrite <- Hvs at 1. eapply (wp_new_elems R 142 _ vs); [exact Hm|lia| | |by intros m1 Hm1].
  { intros i v w1 m1 Q1 Hi Hm1 Hw1 HQ1. apply lookup_replicate in Hi as [-> Hi]. change 0 with (Z.of_nat 0).
    eapply (wp_get_part R a n 0 142 w1 l); [done|done|lia| |done]. rewrite put_words_id; [done|].
    intros j u Hj. eapply lookup_weaken; [by apply put_words_array|done]. }
  intros p m1 Hm1 Hp Hmax. rewrite Hvs in *. wps. pose proof Hp as (Hp0 & _ & Hpb & _). unfold MAX_MALLOC_SIZE in Hmax.
  assert (Hap : apart_arrays (length l) a n p (length l)).
  { split_and!; try done; [|lia]. destruct (decide (0 < length l)%nat); [by eapply (fresh_apart a l p (length l) w)|lia]. }
  pose proof Hap as (_ & _ & _ & _ & Hsep & _).
  apply (wp_loop _ (fun d x m' => exists k, d = (pass_count (length l) - k)%nat /\ (k <= pass_count (length l))%nat /\ pass_state a n p l w k x m'))
    with (k := pass_count (length l)).
  - intros d x m2 (k & -> & Hk & Hst). assert (Hx : x.1 = Z.of_nat (2 ^ k)) by (destruct Hst as (L & _ & Hst); destruct (Nat.even k); by destruct Hst as [-> _]).
    pose proof (pass_count_more (length l) k) as Hpc. destruct x as [stepsize [from to]]. simpl in Hx. subst stepsize.
    destruct (Z.of_nat (2 ^ k) <? Z.of_nat (length l)) eqn:Ec.
    + pose proof (pass_state_step a n p l w k _ (fun e m' => e = Cyc_Bad_alloc /\ at_words R (put_words a l w) m') m2 Hap Hst ltac:(lia)) as Hw.
      apply wp_bind_inv in Hw. wps. eapply wp_conseq; [exact Hw|]. intros [] m3 Hst'.
      wps. exists (pass_count (length l) - S k)%nat. split; [lia|]. exists (S k). split_and!; [done|lia|]. exact (wp_result _ _ _ _ _ _ Hst' eq_refl).
    + wps. change (negb (0 =? 0)) with false. cbn [negb]. wps. destruct Hst as (L & HL & Hst). assert (k = pass_count (length l)) as -> by lia. unfold msort_result.
      destruct (Nat.even (pass_count (length l))); destruct Hst as [[= -> ->] Hm2]; eexists p, _; (split; [done|]); (split; [|exact Hm2]); [done|apply passes_length].
  - exists 0%nat. split_and!; [lia|lia|]. exists vs. split; [done|]. split; [done|]. simpl. rewrite put_words_comm; [done|]. rewrite Hvs. lia.
  - unfold pass_count. pose proof (Nat.log2_up_le_lin (length l)). lia.
Qed.
End msort.
