(* ===== verification/ArrayRefine.v ===== *)
(** * The array library computes with lists

    The sorts as theorems, and the refinement of programs on a pool of arrays:
    copies, maps, reversals, extractions, folds and searches act on the arrays as
    the functions on lists do, and operations in place change one array only. *)

From stdpp Require Import sorting.
From S2P Require Import Prelude Alloc RwLock Region RegionSafety DynRegion Words CycList ListCells WordMem FatPtr CycListSpec CycSetSpec SetRefine CycArray ArrayMem ArraySort.

(** ** Rules for reading *)

Section reading.
Context {H : Type} `{HH : Heap H} `{!HeapLaws H} (R : gset Z).
Implicit Types (m : mem H) (w : gmap Z Z) (l : list Z).

Lemma wp_read_elem a l i v line w (Q : Z -> mem H -> Prop) E m : array_ok a (length l) -> at_words R w m -> array_at w a l -> l !! i = Some v ->
  Q v m -> wp (get_elem (arr_ptr a (length l)) (Z.of_nat i) line) Q E m.
Proof.
  intros Ha Hm Hw Hv HQ. eapply (wp_get_elem R a _ i line w l); [done|by eapply lookup_lt_Some|done|by rewrite put_words_id|].
  by rewrite (list_lookup_total_correct _ _ _ Hv).
Qed.

Lemma wp_read_unchecked a l i v w (Q : Z -> mem H -> Prop) E m : array_ok a (length l) -> at_words R w m -> array_at w a l -> l !! i = Some v ->
  Q v m -> wp (get_unchecked (arr_ptr a (length l)) (Z.of_nat i)) Q E m.
Proof.
  intros Ha Hm Hw Hv HQ. eapply (wp_get_unchecked R a _ i w l); [done|by eapply lookup_lt_Some|done|by rewrite put_words_id|].
  by rewrite (list_lookup_total_correct _ _ _ Hv).
Qed.

Lemma size_of_arr a n : array_ok a n -> size_of (arr_ptr a n) = Z.of_nat n.
Proof. intros Ha. unfold size_of. rewrite arr_ptr_size by done. by apply (i32_of_nat a n). Qed.

Lemma u32_len a n i : array_ok a n -> (i <= n)%nat -> u32 (Z.of_nat i) = Z.of_nat i.
Proof. intros [? ?] ?. apply u32_small. lia. Qed.

(** The loops over the elements of a list [l]. *)
Lemma wp_count_up {A} (l : list Z) (body : A -> Z -> ST (mem H) A) (I : nat -> A -> mem H -> Prop) Q E acc m : Z.of_nat (length l) < 1073741824 ->
  I 0%nat acc m -> (forall i v acc' m', l !! i = Some v -> I i acc' m' -> wp (body acc' (Z.of_nat i)) (I (S i)) E m') ->
  (forall acc' m', I (length l) acc' m' -> Q acc' m') -> wp (count_up (Z.of_nat (length l)) body acc) Q E m.
Proof.
  intros Hl HI Hb HQ. unfold count_up. rewrite Nat2Z.id.
  apply (wp_loop _ (fun d x m' => exists i, x.1 = Z.of_nat i /\ d = (length l - i)%nat /\ (i <= length l)%nat /\ I i x.2 m')) with (k := length l);
    [|exists 0%nat; split_and!; [done|lia|lia|done]|lia].
  intros d [x acc1] m1 (i & Hx & -> & Hi & HI1). simpl in Hx, HI1. subst x. destruct (Z.of_nat i <? Z.of_nat (length l)) eqn:Ei.
  - destruct (lookup_lt_is_Some_2 l i ltac:(lia)) as [v Hv]. wps. eapply wp_conseq; [by eapply Hb|]. intros acc2 m2 HI2. wps. rewrite i32_small by lia.
    exists (length l - S i)%nat. split; [lia|]. exists (S i). split_and!; [simpl; lia|done|lia|done].
  - wps. apply HQ. by replace (length l) with i by lia.
Qed.

Lemma wp_count_down {A} (l : list Z) (body : A -> Z -> ST (mem H) A) (I : nat -> A -> mem H -> Prop) Q E acc m : Z.of_nat (length l) < 1073741824 ->
  I (length l) acc m -> (forall i v acc' m', l !! i = Some v -> I (S i) acc' m' -> wp (body acc' (Z.of_nat i)) (I i) E m') ->
  (forall acc' m', I 0%nat acc' m' -> Q acc' m') -> wp (count_down (Z.of_nat (length l)) body acc) Q E m.
Proof.
  intros Hl HI Hb HQ. unfold count_down. rewrite Nat2Z.id.
  assert (E0 : i32 (u32 (Z.of_nat (length l) - 1)) = Z.of_nat (length l) - 1).
  { destruct (decide (length l = 0%nat)) as [->|]; [by vm_compute|]. rewrite u32_small by lia. apply i32_small. lia. }
  rewrite E0. apply (wp_loop _ (fun d x m' => x.1 = Z.of_nat d - 1 /\ (d <= length l)%nat /\ I d x.2 m')) with (k := length l);
    [|by split_and!|lia].
  intros d [x acc1] m1 (Hx & Hd & HI1). simpl in Hx, HI1. subst x. destruct (0 <=? Z.of_nat d - 1) eqn:Ei.
  - assert (Hd0 : d <> 0%nat) by lia. destruct d as [|d]; [done|]. destruct (lookup_lt_is_Some_2 l d ltac:(lia)) as [v Hv]. replace (Z.of_nat (S d) - 1) with (Z.of_nat d) by lia.
    wps. eapply wp_conseq; [by eapply Hb|]. intros acc2 m2 HI2. wps. rewrite i32_small by lia. exists d. split; [lia|]. split_and!; [done|lia|done].
  - wps. apply HQ. by replace 0%nat with d by lia.
Qed.

Lemma wp_search_up (l : list Z) (test : Z -> ST (mem H) bool) (t : Z -> bool) E m : Z.of_nat (length l) < 1073741824 ->
  (forall i v (Q : bool -> mem H -> Prop), l !! i = Some v -> Q (t v) m -> wp (test (Z.of_nat i)) Q E m) ->
  wp (search_up (Z.of_nat (length l)) test) (fun b m' => b = existsb t l /\ m' = m) E m.
Proof.
  intros Hl Ht. unfold search_up. rewrite Nat2Z.id.
  apply (wp_loop _ (fun d x m' => exists i, x = Z.of_nat i /\ d = (length l - i)%nat /\ (i <= length l)%nat /\ m' = m /\ existsb t l = existsb t (drop i l)))
    with (k := length l); [|exists 0%nat; split_and!; [done|lia|lia|done|done]|lia].
  intros d x m1 (i & -> & -> & Hi & -> & He). destruct (Z.of_nat i <? Z.of_nat (length l)) eqn:Ei.
  - destruct (lookup_lt_is_Some_2 l i ltac:(lia)) as [v Hv]. wps. eapply Ht; [exact Hv|]. rewrite (drop_S _ _ _ Hv) in He. simpl in He.
    destruct (t v); wps; [done|]. rewrite i32_small by lia. exists (length l - S i)%nat. split; [lia|]. exists (S i). split_and!; [lia|done|lia|done|done].
  - wps. rewrite drop_ge in He by lia. done.
Qed.

(** ** Operations that read *)

(** The result is a new array with the elements [vs]; nothing else changes. *)
Definition makes (vs : list Z) w (arr : fat_ptr) m : Prop :=
  exists p, arr = arr_ptr p (length vs) /\ fresh_words p (length vs) w /\ at_words R (put_words p vs w) m.

Definition out_of_memory w (e : exn) m : Prop := e = Cyc_Bad_alloc /\ at_words R w m.

Lemma wp_makes line f vs n w (E : exn -> mem H -> Prop) m : n = Z.of_nat (length vs) -> at_words R w m -> Z.of_nat (length vs) < 1073741824 ->
  (forall i v w1 m1 (Q1 : Z -> mem H -> Prop), vs !! i = Some v -> at_words R w1 m1 -> w ⊆ w1 -> Q1 v m1 -> wp (f (Z.of_nat i)) Q1 E m1) ->
  (forall m', at_words R w m' -> E Cyc_Bad_alloc m') -> wp (new_elems n line f) (makes vs w) E m.
Proof. intros -> Hm Hl Hf HE. eapply wp_new_elems; [done|done|done| |done]. intros p m' Hm' Hp _. by exists p. Qed.

Lemma array_at_mono w w' a l : array_at w a l -> w ⊆ w' -> array_at w' a l.
Proof. intros Ha Hw i v Hi. eapply lookup_weaken; [by apply Ha|done]. Qed.

Section one.
Context (a : Z) (l : list Z) (w : gmap Z Z) (Hok : array_ok a (length l)) (Hat : array_at w a l).
Abbreviation x := (arr_ptr a (length l)).

Lemma len_small : Z.of_nat (length l) < 1073741824.
Proof. destruct Hok. lia. Qed.

Lemma copy_spec m : at_words R w m -> wp (Cyc_Array_copy x) (makes l w) (out_of_memory w) m.
Proof.
  intros Hm. unfold Cyc_Array_copy. rewrite size_of_arr, (u32_len a (length l)) by done. apply wp_makes; [done|done|apply len_small| |done].
  intros i v w1 m1 Q1 Hv Hm1 Hw1 HQ. pose proof (lookup_lt_Some _ _ _ Hv). rewrite (i32_of_nat a (length l)) by (done || lia).
  eapply wp_read_unchecked; [done|done|by eapply array_at_mono|done|done].
Qed.

Lemma map_spec f h m : pure1 f h -> at_words R w m -> wp (Cyc_Array_map f x) (makes (h <$> l) w) (out_of_memory w) m.
Proof.
  intros Hf Hm. unfold Cyc_Array_map. rewrite size_of_arr, (u32_len a (length l)) by done. 
  apply wp_makes; [by rewrite length_fmap|done|rewrite length_fmap; apply len_small| |done].
  intros i v w1 m1 Q1 Hv Hm1 Hw1 HQ. apply list_lookup_fmap_Some in Hv as (u & -> & Hu). pose proof (lookup_lt_Some _ _ _ Hu).
  rewrite (i32_of_nat a (length l)) by (done || lia). wps. eapply wp_read_unchecked; [done|done|by eapply array_at_mono|done|]. by eapply wp_pure1.
Qed.

Lemma rev_copy_spec m : at_words R w m -> wp (Cyc_Array_rev_copy x) (makes (reverse l) w) (out_of_memory w) m.
Proof.
  intros Hm. unfold Cyc_Array_rev_copy. rewrite size_of_arr, (u32_len a (length l)) by done.
  apply wp_makes; [by rewrite length_reverse|done|rewrite length_reverse; apply len_small| |done].
  intros i v w1 m1 Q1 Hv Hm1 Hw1 HQ. pose proof (lookup_lt_Some _ _ _ Hv) as Hi. rewrite length_reverse in Hi. rewrite reverse_lookup in Hv by done.
  pose proof len_small. rewrite (i32_small (_ - 1)) by lia. rewrite (u32_small (_ - 1)) by lia. rewrite u32_small by lia. rewrite i32_small by lia.
  replace (Z.of_nat (length l) - 1 - Z.of_nat i) with (Z.of_nat (length l - S i)) by lia. eapply wp_read_elem; [done|done|by eapply array_at_mono|done|done].
Qed.

(** With the number of elements [n], or all of them. *)
Lemma extract_spec start n n_opt m : at_words R w m -> 
  (if n_opt =? 0 then n = Z.of_nat (length l) - start else w !! n_opt = Some n) -> -2147483648 <= start -> -2147483648 <= n -> start + Z.max 0 n < 2147483648 -> start < 2147483648 ->
  wp (Cyc_Array_extract x start n_opt) (fun arr m' => 0 <= start /\ 0 < n /\ start + n <= Z.of_nat (length l) /\ makes (take (Z.to_nat n) (drop (Z.to_nat start) l)) w arr m')
    (fun e m' => out_of_memory w e m' \/ (start < 0 \/ n <= 0 \/ Z.of_nat (length l) < start + n) /\ e = Cyc_Core_Invalid_argument /\
       exists w', at_words R w' m' /\ w ⊆ w') m.
Proof.
  intros Hm Hn Hs Hn0 Hsn Hs1. unfold Cyc_Array_extract. rewrite size_of_arr by done. pose proof len_small. wps.
  assert (Hread : wp (if n_opt =? 0 then mret (i32 (Z.of_nat (length l) - start)) else v ← get_word n_opt; mret (i32 v))
    (fun v m' => m' = m /\ (0 <= start -> v = n)) (fun _ _ => False) m).
  { destruct (n_opt =? 0); wps; [split; [done|]; intros; rewrite i32_small by lia; lia|].
    eapply wp_load; [done|done|]. wps. split; [done|]. intros. apply i32_small. lia. }
  eapply wp_mono; [exact Hread| |done]. intros v m1 [-> Hv].
  destruct (start <? 0) eqn:E0; [cbn [orb]; eapply wp_throw_Invalid_argument; [done|intros m' w' ? ?; right; split; [lia|]; eauto|intros; by left]|].
  rewrite Hv by lia. cbn [orb].
  destruct (n <=? 0) eqn:E1; [cbn [orb]; eapply wp_throw_Invalid_argument; [done|intros m' w' ? ?; right; split; [lia|]; eauto|intros; by left]|].
  cbn [orb]. destruct (Z.of_nat (length l) <? _) eqn:E2.
  { eapply wp_throw_Invalid_argument; [done|intros m' w' ? ?; right; split; [|eauto]|intros; by left].
    destruct (n_opt =? 0); rewrite i32_small in E2 by lia; lia. }
  assert (Hle : start + n <= Z.of_nat (length l)) by (destruct (n_opt =? 0); rewrite i32_small in E2 by lia; lia).
  set (vs := take (Z.to_nat n) (drop (Z.to_nat start) l)). assert (Hvs : Z.of_nat (length vs) = n) by (unfold vs; rewrite length_take, length_drop; lia).
  rewrite (u32_small n) by lia. eapply wp_mono; [apply (wp_makes _ _ vs n w (out_of_memory w)); [done|done|lia| |by intros]| |].
  - intros i u w1 m1 Q1 Hu Hm1 Hw1 HQ. pose proof (lookup_lt_Some _ _ _ Hu). unfold vs in Hu. apply lookup_take_Some in Hu as [Hu _]. rewrite lookup_drop in Hu.
    rewrite (u32_small start), u32_small, i32_small by lia. replace (start + Z.of_nat i) with (Z.of_nat (Z.to_nat start + i)) by lia.
    eapply wp_read_elem; [done|done|by eapply array_at_mono|done|done].
  - intros arr m' Hmk. split_and!; [lia|lia|done|done].
  - intros e m' He. by left.
Qed.

Lemma fold_left_spec f h u E m : pure2 f h -> at_words R w m -> wp (Cyc_Array_fold_left f u x) (fun v m' => v = fold_left h l u /\ m' = m) E m.
Proof.
  intros Hf Hm. unfold Cyc_Array_fold_left. rewrite size_of_arr by done.
  apply (wp_count_up l _ (fun i acc m' => acc = fold_left h (take i l) u /\ m' = m)); [apply len_small|done| |].
  - intros i v acc m' Hv [-> ->]. wps. eapply wp_read_elem; [done|done|done|done|]. eapply wp_run; [apply Hf|]. split; [|done].
    rewrite (take_S_r _ _ _ Hv), fold_left_app. done.
  - intros acc m' [-> ->]. by rewrite take_ge by lia.
Qed.

Lemma fold_right_spec f h u E m : pure2 f h -> at_words R w m -> wp (Cyc_Array_fold_right f x u) (fun v m' => v = fold_right h u l /\ m' = m) E m.
Proof.
  intros Hf Hm. unfold Cyc_Array_fold_right. rewrite arr_ptr_size by done.
  apply (wp_count_down l _ (fun i acc m' => acc = fold_right h u (drop i l) /\ m' = m)); [apply len_small|by rewrite drop_ge by lia| |done].
  intros i v acc m' Hv [-> ->]. wps. eapply wp_read_elem; [done|done|done|done|]. eapply wp_run; [apply Hf|]. split; [|done].
  by rewrite (drop_S _ _ _ Hv).
Qed.

Lemma exists_spec (p : Z -> ST (mem H) bool) t E m : (forall v m', p v m' = (Ret (t v), m')) -> at_words R w m -> wp (Cyc_Array_exists p x) (fun b m' => b = existsb t l /\ m' = m) E m.
Proof.
  intros Hp Hm. unfold Cyc_Array_exists. rewrite size_of_arr by done. apply wp_search_up; [apply len_small|].
  intros i v Q Hv HQ. wps. eapply wp_read_elem; [done|done|done|done|]. by eapply wp_run.
Qed.

Lemma forall_spec (p : Z -> ST (mem H) bool) t E m : (forall v m', p v m' = (Ret (t v), m')) -> at_words R w m -> wp (Cyc_Array_forall p x) (fun b m' => b = forallb t l /\ m' = m) E m.
Proof.
  intros Hp Hm. unfold Cyc_Array_forall. rewrite size_of_arr by done. wps.
  eapply wp_conseq; [apply (wp_search_up l _ (fun v => negb (t v))); [apply len_small|]|].
  - intros i v Q Hv HQ. wps. eapply wp_read_elem; [done|done|done|done|]. wps. eapply wp_run; [apply Hp|]. by wps.
  - intros b m' [-> ->]. wps. split; [|done]. clear. induction l as [|v l' IH]; simpl; [done|]. rewrite negb_orb, negb_involutive, IH. done.
Qed.

Lemma memq_spec v E m : at_words R w m -> wp (Cyc_Array_memq x v) (fun b m' => b = existsb (Z.eqb v) l /\ m' = m) E m.
Proof.
  intros Hm. unfold Cyc_Array_memq. rewrite size_of_arr by done. apply wp_search_up; [apply len_small|].
  intros i u Q Hu HQ. wps. eapply wp_read_elem; [done|done|done|done|]. wps. by rewrite Z.eqb_sym.
Qed.
End one.

Lemma map2_spec a b l k w f h m : array_ok a (length l) -> array_ok b (length k) -> array_at w a l -> array_at w b k -> pure2 f h -> at_words R w m ->
  wp (Cyc_Array_map2 f (arr_ptr a (length l)) (arr_ptr b (length k))) (fun arr m' => length l = length k /\ makes (zip_with h l k) w arr m')
    (fun e m' => out_of_memory w e m' \/ length l <> length k /\ e = Cyc_Array_Array_mismatch /\ m' = m) m.
Proof.
  intros Ha Hb Hal Hbk Hf Hm. unfold Cyc_Array_map2, check_same. rewrite size_of_arr, arr_ptr_size, (u32_len a (length l)) by done. wps.
  destruct (Z.of_nat (length l) =? Z.of_nat (length k)) eqn:El; cbn [negb]; [|apply wp_thrown; right; split_and!; [lia|done|done]].
  assert (Elk : length l = length k) by lia. wps. assert (Hz : length (zip_with h l k) = length l) by (rewrite length_zip_with; lia).
  eapply wp_mono; [apply (wp_makes _ _ (zip_with h l k) _ w (out_of_memory w)); [by rewrite Hz|done|rewrite Hz; destruct Ha; lia| |by intros]|done|by left].
  intros i v w1 m1 Q1 Hv Hm1 Hw1 HQ. apply lookup_zip_with_Some in Hv as (u1 & u2 & -> & Hu1 & Hu2). pose proof (lookup_lt_Some _ _ _ Hu1).
  rewrite (i32_of_nat a (length l)) by (done || lia). wps. eapply wp_read_unchecked; [done|done|by eapply array_at_mono|exact Hu1|].
  wps. eapply wp_read_unchecked; [done|done|by eapply array_at_mono|exact Hu2|]. by eapply wp_run.
Qed.

(** ** Operations in place *)

Section place.
Context (a : Z) (l : list Z) (w : gmap Z Z) (Hok : array_ok a (length l)).
Abbreviation x := (arr_ptr a (length l)).

Lemma imp_map_spec f h E m : pure1 f h -> at_words R (put_words a l w) m -> wp (Cyc_Array_imp_map f x) (fun _ m' => at_words R (put_words a (h <$> l) w) m') E m.
Proof.
  intros Hf Hm. unfold Cyc_Array_imp_map. rewrite size_of_arr by done.
  apply (wp_count_up l _ (fun i _ m' => at_words R (put_words a ((h <$> take i l) ++ drop i l) w) m')); [by apply (len_small a)|by rewrite drop_0| |].
  - intros i v [] m1 Hv Hm1. pose proof (lookup_lt_Some _ _ _ Hv) as Hi. set (l1 := (h <$> take i l) ++ drop i l) in *.
    assert (Hl1 : length l1 = length l) by (unfold l1; rewrite length_app, length_fmap, length_take, length_drop; lia).
    assert (Hv1 : l1 !!! i = v).
    { apply list_lookup_total_correct. unfold l1. rewrite lookup_app_r by (rewrite length_fmap, length_take; lia).
      rewrite length_fmap, length_take, lookup_drop. by replace (i + (i - i `min` length l))%nat with i by lia. }
    wps. eapply (wp_get_elem R a _ i 236 w l1); [done|done|done|done|]. rewrite Hv1. wps. eapply wp_pure1; [done|].
    eapply (wp_put_unchecked R a _ i (h v) w l1); [done|done|done|done|]. intros m2 Hm2.
    assert (E1 : <[i := h v]> l1 = (h <$> take (S i) l) ++ drop (S i) l); [|by rewrite <- E1].
    unfold l1. rewrite insert_app_r_alt by (rewrite length_fmap, length_take; lia). rewrite length_fmap, length_take.
    replace (i - i `min` length l)%nat with 0%nat by lia. rewrite (drop_S _ _ _ Hv), (take_S_r _ _ _ Hv), fmap_app, <- app_assoc. done.
  - intros [] m1. rewrite take_ge, drop_ge, app_nil_r by lia. done.
Qed.

(** Mirrored outside of the part from [i] to [j]. *)
Definition mirrored (i j : Z) (l' : list Z) : Prop := length l' = length l /\
  forall k, (k < length l)%nat -> l' !!! k = if decide (i <= Z.of_nat k <= j) then l !!! k else l !!! (length l - S k)%nat.

Lemma rev_in_place_spec E m : at_words R (put_words a l w) m -> wp (Cyc_Array_imp_rev x) (fun _ m' => at_words R (put_words a (reverse l) w) m') E m.
Proof.
  intros Hm. pose proof (len_small a l Hok). unfold Cyc_Array_imp_rev. rewrite arr_ptr_size by done. rewrite Nat2Z.id.
  assert (E0 : i32 (u32 (Z.of_nat (length l) - 1)) = Z.of_nat (length l) - 1).
  { destruct (decide (length l = 0%nat)) as [->|]; [by vm_compute|]. rewrite u32_small by lia. apply i32_small. lia. }
  rewrite E0. apply (wp_loop _ (fun d x m' => exists i l', x = (Z.of_nat i, Z.of_nat (length l) - 1 - Z.of_nat i) /\ d = (length l - i)%nat /\
    (i <= length l)%nat /\ at_words R (put_words a l' w) m' /\ mirrored (Z.of_nat i) (Z.of_nat (length l) - 1 - Z.of_nat i) l')) with (k := length l).
  - intros d y m1 (i & l1 & -> & -> & Hi & Hm1 & Hl1 & Hmir). destruct (Z.of_nat i <? Z.of_nat (length l) - 1 - Z.of_nat i) eqn:Ec.
    + set (j := (length l - S i)%nat). replace (Z.of_nat (length l) - 1 - Z.of_nat i) with (Z.of_nat j) by lia.
      wps. eapply (wp_get_elem R a _ i 362 w l1); [done|lia|done|done|]. wps. eapply (wp_get_elem R a _ j 363 w l1); [done|lia|done|done|].
      wps. eapply (wp_put_unchecked R a _ i _ w l1); [done|lia|done|done|]. intros m2 Hm2. wps.
      eapply (wp_put_unchecked R a _ j _ w (<[i := l1 !!! j]> l1)); [done|lia|by rewrite length_insert|done|]. intros m3 Hm3. wps.
      change (<[j:=l1 !!! i]> (<[i:=l1 !!! j]> l1)) with (exchange i j l1) in Hm3. rewrite !i32_small by lia.
      exists (length l - S i)%nat. split; [lia|]. exists (S i), (exchange i j l1). split_and!; [f_equal; lia|done|lia|done|split; [by rewrite exchange_length|]].
      intros k Hk. rewrite exchange_get by lia. destruct (decide (k = i)) as [->|]; [|destruct (decide (k = j)) as [->|]].
      * rewrite Hmir by lia. rewrite decide_True, decide_False by lia. f_equal.
      * rewrite Hmir by lia. rewrite decide_True, decide_False by lia. f_equal. lia.
      * rewrite Hmir by lia. repeat case_decide; done || lia.
    + wps. assert (E1 : l1 = reverse l); [|by rewrite <- E1]. apply (list_eq_same_length _ _ (length l)); [by rewrite length_reverse|done|].
      intros k u v Hk Hu Hv. rewrite reverse_lookup in Hv by done. apply list_lookup_total_correct in Hu as <-. apply list_lookup_total_correct in Hv as <-.
      rewrite Hmir by done. case_decide; [|done]. f_equal. lia.
  - exists 0%nat, l. split_and!; [f_equal; lia|lia|lia|done|split; [done|]]. intros k Hk. by rewrite decide_True by lia.
  - lia.
Qed.
End place.
End reading.

(** ** Pools of arrays *)

(** An array with its address; two arrays of a pool share no word. *)
Definition separate (e f : Z * list Z) : Prop :=
  e.2 = [] \/ f.2 = [] \/ e.1 + 4 * Z.of_nat (length e.2) <= f.1 \/ f.1 + 4 * Z.of_nat (length f.2) <= e.1.

Fixpoint separated (ps : list (Z * list Z)) : Prop := match ps with [] => True | e :: ps => Forall (separate e) ps /\ separated ps end.

Definition store_all (ps : list (Z * list Z)) (w : gmap Z Z) : gmap Z Z := foldr (fun e w => put_words e.1 e.2 w) w ps.

Lemma separate_sym e f : separate e f -> separate f e.
Proof. unfold separate. naive_solver. Qed.

Lemma separate_comm e f w : separate e f -> put_words e.1 e.2 (put_words f.1 f.2 w) = put_words f.1 f.2 (put_words e.1 e.2 w).
Proof. intros [He|[Hf|Hs]]; [by rewrite He|by rewrite Hf|]. by apply put_words_comm. Qed.

Lemma store_perm ps qs w : ps ≡ₚ qs -> separated ps -> separated qs /\ store_all ps w = store_all qs w.
Proof.
  induction 1 as [|e ps qs Hp IH|e f ps|ps qs rs Hp1 IH1 Hp2 IH2]; simpl.
  - done.
  - intros [He Hs]. destruct (IH Hs) as [Hs' Ew]. split; [split; [by rewrite <- Hp|done]|by rewrite Ew].
  - intros [He [Hf Hs]]. apply Forall_cons in He as [Hef He]. split.
    + split; [constructor; [by apply separate_sym|done]|done].
    + by apply separate_comm.
  - intros Hs. destruct (IH1 Hs) as [Hs1 ->]. by apply IH2.
Qed.

Lemma insert_delete_perm (ps : list (Z * list Z)) i e e' : ps !! i = Some e -> <[i := e']> ps ≡ₚ e' :: delete i ps.
Proof.
  intros Hi. rewrite <- (take_drop_middle _ _ _ Hi) at 1. pose proof (lookup_lt_Some _ _ _ Hi).
  rewrite insert_app_r_alt by (rewrite length_take; lia). rewrite length_take. replace (i - i `min` length ps)%nat with 0%nat by lia. simpl.
  rewrite delete_take_drop. symmetry. apply Permutation_middle.
Qed.

(** The array at index [i], taken out and put back with other elements. *)
Lemma store_take ps i e w : separated ps -> ps !! i = Some e -> store_all ps w = put_words e.1 e.2 (store_all (delete i ps) w).
Proof. intros Hs Hi. by destruct (store_perm ps (e :: delete i ps) w (delete_Permutation _ _ _ Hi) Hs) as [_ ->]. Qed.

Lemma store_back ps i a l l' w : separated ps -> ps !! i = Some (a, l) -> length l' = length l ->
  separated (<[i := (a, l')]> ps) /\ put_words a l' (store_all (delete i ps) w) = store_all (<[i := (a, l')]> ps) w.
Proof.
  intros Hs Hi Hl. destruct (store_perm ps ((a, l) :: delete i ps) w (delete_Permutation _ _ _ Hi) Hs) as [[Ha Hd] _].
  assert (Hs' : separated ((a, l') :: delete i ps)).
  { split; [|done]. eapply Forall_impl; [exact Ha|]. intros f [He|[Hf|Hf]]; simpl in *; unfold separate; simpl; [|by right; left|rewrite Hl; by right; right].
    left. apply length_zero_iff_nil. by rewrite Hl, He. }
  destruct (store_perm _ (<[i := (a, l')]> ps) w (symmetry (insert_delete_perm ps i _ (a, l') Hi)) Hs') as [? <-]. done.
Qed.

Lemma store_lookup ps i a l w : separated ps -> ps !! i = Some (a, l) -> array_at (store_all ps w) a l.
Proof. intros Hs Hi. rewrite (store_take ps i (a, l)) by done. apply put_words_array. Qed.

(** A new array. *)
Lemma store_new ps p vs w : separated ps -> fresh_words p (length vs) (store_all ps w) ->
  separated (ps ++ [(p, vs)]) /\ put_words p vs (store_all ps w) = store_all (ps ++ [(p, vs)]) w.
Proof.
  intros Hs Hf. assert (Hs' : separated ((p, vs) :: ps)).
  { split; [|done]. apply Forall_forall. intros [a l] Hal. apply list_elem_of_lookup in Hal as [i Hi]. unfold separate. simpl.
    destruct (decide (vs = [])) as [->|Hv]; [by left|]. destruct (decide (l = [])) as [->|Hl]; [by right; left|]. right. right.
    rewrite (store_take ps i (a, l)) in Hf by done. simpl in Hf.
    apply fresh_apart in Hf; [lia|destruct vs; [done|simpl; lia]|destruct l; [done|simpl; lia]]. }
  destruct (store_perm _ (ps ++ [(p, vs)]) w (Permutation_cons_append ps (p, vs)) Hs') as [? <-]. done.
Qed.

(** ** Programs *)

Inductive aop : Type :=
  | ACopy (i : nat) | ARevCopy (i : nat) | AMap (f : Z -> Z) (i : nat) | AMap2 (f : Z -> Z -> Z) (i j : nat)
  | AExtract (i : nat) (start : Z) (n : option nat)
  | AImpMap (f : Z -> Z) (i : nat) | AImpRev (i : nat)
  | AFoldLeft (f : Z -> Z -> Z) (u : Z) (i : nat) | AFoldRight (f : Z -> Z -> Z) (i : nat) (u : Z)
  | AForall (p : Z -> bool) (i : nat) | AExists (p : Z -> bool) (i : nat) | AMemq (i : nat) (v : Z).

(** What an operation does to the lists: an exception, or the lists and the
    answers.  [None] for a program that names an array it does not have, and for
    [extract] with arguments whose sum is no [int]. *)
Definition result : Type := option (exn + list (list Z) * list Z).

(** The number of elements for [extract]: all, or what the first element of
    another array says. *)
Definition extract_count (ls : list (list Z)) (l : list Z) (start : Z) (n : option nat) : option Z :=
  match n with None => Some (Z.of_nat (length l) - start) | Some j => k ← ls !! j; head k end.

(** [extract] of no element throws like one of too many: the code asks for more
    than 0 elements, include/array.h for 0 or more. *)
Definition spec_aop (o : aop) (ls : list (list Z)) : result :=
  match o with
  | ACopy i => l ← ls !! i; Some (inr (ls ++ [l], []))
  | ARevCopy i => l ← ls !! i; Some (inr (ls ++ [reverse l], []))
  | AMap f i => l ← ls !! i; Some (inr (ls ++ [f <$> l], []))
  | AMap2 f i j => l ← ls !! i; k ← ls !! j;
      Some (if decide (length l = length k) then inr (ls ++ [zip_with f l k], []) else inl Cyc_Array_Array_mismatch)
  | AExtract i start n => l ← ls !! i; n ← extract_count ls l start n;
      if decide (-2147483648 <= start < 2147483648 /\ -2147483648 <= n /\ start + Z.max 0 n < 2147483648) then
        Some (if decide (0 <= start /\ 0 < n /\ start + n <= Z.of_nat (length l)) then inr (ls ++ [take (Z.to_nat n) (drop (Z.to_nat start) l)], [])
              else inl Cyc_Core_Invalid_argument)
      else None
  | AImpMap f i => l ← ls !! i; Some (inr (<[i := f <$> l]> ls, []))
  | AImpRev i => l ← ls !! i; Some (inr (<[i := reverse l]> ls, []))
  | AFoldLeft f u i => l ← ls !! i; Some (inr (ls, [fold_left f l u]))
  | AFoldRight f i u => l ← ls !! i; Some (inr (ls, [fold_right f u l]))
  | AForall p i => l ← ls !! i; Some (inr (ls, [Z.b2z (forallb p l)]))
  | AExists p i => l ← ls !! i; Some (inr (ls, [Z.b2z (existsb p l)]))
  | AMemq i v => l ← ls !! i; Some (inr (ls, [Z.b2z (existsb (Z.eqb v) l)]))
  end.

Fixpoint spec_aops (os : list aop) (ls : list (list Z)) : result :=
  match os with
  | [] => Some (inr (ls, []))
  | o :: os =>
      r ← spec_aop o ls;
      match r with
      | inl e => Some (inl e)
      | inr (ls, a) => t ← spec_aops os ls; Some match t with inl e => inl e | inr (ls, b) => inr (ls, a ++ b) end
      end
  end.

Section run.
Context {H : Type} `{HH : Heap H}.
Abbreviation M := (ST (mem H)).

Definition nth_array (pool : list fat_ptr) (i : nat) : M fat_ptr := match pool !! i with Some x => mret x | None => lift Undef end.

Definition run_aop (o : aop) (pool : list fat_ptr) : M (list fat_ptr * list Z) :=
  let new c := y ← c; mret (pool ++ [y], []) in
  let say c := v ← c; mret (pool, [v]) in
  let ask c := b ← c; mret (pool, [Z.b2z b]) in
  match o with
  | ACopy i => x ← nth_array pool i; new (Cyc_Array_copy x)
  | ARevCopy i => x ← nth_array pool i; new (Cyc_Array_rev_copy x)
  | AMap f i => x ← nth_array pool i; new (Cyc_Array_map (fun v => mret (f v)) x)
  | AMap2 f i j => x ← nth_array pool i; y ← nth_array pool j; new (Cyc_Array_map2 (fun u v => mret (f u v)) x y)
  | AExtract i start n => x ← nth_array pool i; q ← match n with None => mret 0 | Some j => y ← nth_array pool j; mret (curr y) end; new (Cyc_Array_extract x start q)
  | AImpMap f i => x ← nth_array pool i; Cyc_Array_imp_map (fun v => mret (f v)) x;; mret (pool, [])
  | AImpRev i => x ← nth_array pool i; Cyc_Array_imp_rev x;; mret (pool, [])
  | AFoldLeft f u i => x ← nth_array pool i; say (Cyc_Array_fold_left (fun u v => mret (f u v)) u x)
  | AFoldRight f i u => x ← nth_array pool i; say (Cyc_Array_fold_right (fun v u => mret (f v u)) x u)
  | AForall p i => x ← nth_array pool i; ask (Cyc_Array_forall (fun v => mret (p v)) x)
  | AExists p i => x ← nth_array pool i; ask (Cyc_Array_exists (fun v => mret (p v)) x)
  | AMemq i v => x ← nth_array pool i; ask (Cyc_Array_memq x v)
  end.

Fixpoint run_aops (os : list aop) (pool : list fat_ptr) : M (list fat_ptr * list Z) :=
  match os with
  | [] => mret (pool, [])
  | o :: os => '(pool, a) ← run_aop o pool; '(pool, b) ← run_aops os pool; mret (pool, a ++ b)
  end.
End run.

(** ** Refinement *)

Lemma put_words_miss a l w x : (forall k, (k < length l)%nat -> x <> a + 4 * Z.of_nat k) -> put_words a l w !! x = w !! x.
Proof.
  revert a. induction l as [|v l IH]; intros a Hx; simpl; [done|]. rewrite lookup_insert_ne by (specialize (Hx 0%nat ltac:(simpl; lia)); lia).
  apply IH. intros k Hk. specialize (Hx (S k) ltac:(simpl; lia)). lia.
Qed.

Lemma store_all_id ps w : Forall (fun e => array_at w e.1 e.2) ps -> store_all ps w = w.
Proof. induction 1 as [|e ps He _ IH]; simpl; [done|]. rewrite IH. by apply put_words_id. Qed.

Section refine.
Context {H : Type} `{HH : Heap H} `{!HeapLaws H} (R : gset Z) (F : gmap Z Z).
Implicit Types (m : mem H) (ps : list (Z * list Z)).

Definition ptr_of (e : Z * list Z) : fat_ptr := arr_ptr e.1 (length e.2).

(** The words of the array are none of [F]. *)
Definition outside (e : Z * list Z) : Prop := array_ok e.1 (length e.2) /\ forall k, (k < length e.2)%nat -> F !! (e.1 + 4 * Z.of_nat k) = None.

(** The memory has the arrays [ps], separate from each other and from [F]. *)
Definition pool_mem ps (wb : gmap Z Z) m : Prop := Forall outside ps /\ separated ps /\ F ⊆ wb /\ at_words R (store_all ps wb) m.

(** The pool of pointers stands for the lists [ls]. *)
Definition pool_at (pool : list fat_ptr) (ls : list (list Z)) m : Prop := exists ps wb, pool = ptr_of <$> ps /\ ls = ps.*2 /\ pool_mem ps wb m.

Lemma frame_store ps wb : Forall outside ps -> F ⊆ wb -> F ⊆ store_all ps wb.
Proof.
  intros Ho Hf. induction Ho as [|e ps [_ He] _ IH]; simpl; [done|]. apply map_subseteq_spec. intros x v Hx. rewrite put_words_miss; [by eapply lookup_weaken|].
  intros k Hk ->. by rewrite He in Hx.
Qed.

Lemma pool_entry ps i l : ps.*2 !! i = Some l -> exists a, ps !! i = Some (a, l).
Proof. intros Hi. apply list_lookup_fmap_Some in Hi as ([a l'] & -> & Hi). by exists a. Qed.

Lemma pool_read ps wb m i l : pool_mem ps wb m -> ps.*2 !! i = Some l ->
  exists a, ps !! i = Some (a, l) /\ array_ok a (length l) /\ array_at (store_all ps wb) a l.
Proof.
  intros (Ho & Hs & _ & _) Hi. destruct (pool_entry ps i l Hi) as [a Ha]. exists a. rewrite Forall_lookup in Ho. destruct (Ho i _ Ha) as [? _].
  split_and!; [done|done|by eapply store_lookup].
Qed.

Lemma wp_nth_array ps i e (Q : fat_ptr -> mem H -> Prop) E m : ps !! i = Some e -> Q (ptr_of e) m -> wp (nth_array (ptr_of <$> ps) i) Q E m.
Proof. intros Hi HQ. unfold nth_array. rewrite list_lookup_fmap, Hi. by wps. Qed.

(** A new array joins the pool. *)
Lemma pool_new ps wb m0 vs arr m : pool_mem ps wb m0 -> makes R vs (store_all ps wb) arr m -> pool_at ((ptr_of <$> ps) ++ [arr]) (ps.*2 ++ [vs]) m.
Proof.
  intros (Ho & Hs & Hf & _) (p & -> & Hp & Hm). destruct (store_new ps p vs wb Hs Hp) as [Hs' Ew]. exists (ps ++ [(p, vs)]), wb. rewrite !fmap_app.
  split_and!; [done|done|]. split_and!; [|done|done|by rewrite <- Ew]. apply Forall_app. split; [done|]. constructor; [|done].
  pose proof Hp as (Hp0 & _ & Hpb & _). split; [by split|]. simpl. intros k Hk. apply eq_None_not_Some. intros [v Hv].
  pose proof (frame_store ps wb Ho Hf) as HF. pose proof (lookup_weaken _ _ _ _ Hv HF) as Hv'.
  rewrite (fresh_absent _ p (length vs) (p + 4 * Z.of_nat k)) in Hv' by (done || lia). done.
Qed.

(** An array of the pool gets other elements. *)
Lemma pool_set ps wb m0 i a l l' m : pool_mem ps wb m0 -> ps !! i = Some (a, l) -> length l' = length l ->
  at_words R (put_words a l' (store_all (delete i ps) wb)) m -> pool_at (ptr_of <$> ps) (<[i := l']> ps.*2) m.
Proof.
  intros (Ho & Hs & Hf & _) Hi Hl Hm. destruct (store_back ps i a l l' wb Hs Hi Hl) as [Hs' Ew]. exists (<[i := (a, l')]> ps), wb. split_and!.
  - symmetry. rewrite list_fmap_insert. apply list_insert_id. rewrite list_lookup_fmap, Hi. simpl. unfold ptr_of. simpl. by rewrite Hl.
  - by rewrite list_fmap_insert.
  - split_and!; [|done|done|by rewrite <- Ew]. apply Forall_insert; [done|]. rewrite Forall_lookup in Ho. destruct (Ho i _ Hi) as [Hok Hout].
    split; simpl; rewrite Hl; done.
Qed.

(** The memory has grown by the exception. *)
Lemma pool_grown ps wb m0 w' m : pool_mem ps wb m0 -> at_words R w' m -> store_all ps wb ⊆ w' -> pool_at (ptr_of <$> ps) ps.*2 m.
Proof.
  intros (Ho & Hs & Hf & _) Hm Hw. exists ps, w'. split_and!; [done|done|]. split_and!; [done|done|etrans; [by apply frame_store|done]|].
  rewrite store_all_id; [done|]. apply Forall_lookup. intros i [a l] Hi. eapply array_at_mono; [|done]. by eapply store_lookup.
Qed.

Definition ends (res : exn + list (list Z) * list Z) (pool : list fat_ptr) (r : list fat_ptr * list Z) m : Prop :=
  exists ls, res = inr (ls, r.2) /\ pool_at r.1 ls m /\ pool `prefix_of` r.1.

Definition fails (res : exn + list (list Z) * list Z) (pool : list fat_ptr) (ls : list (list Z)) (e : exn) m : Prop :=
  (e = Cyc_Bad_alloc \/ res = inl e) /\ pool_at pool ls m.

Lemma fails_oom res ps wb m0 e m : pool_mem ps wb m0 -> out_of_memory R (store_all ps wb) e m -> fails res (ptr_of <$> ps) ps.*2 e m.
Proof. intros (Ho & Hs & Hf & _) [-> Hm]. split; [by left|]. by exists ps, wb. Qed.

Lemma ends_new ps wb m0 vs arr m : pool_mem ps wb m0 -> makes R vs (store_all ps wb) arr m ->
  ends (inr (ps.*2 ++ [vs], [])) (ptr_of <$> ps) ((ptr_of <$> ps) ++ [arr], []) m.
Proof. intros Hp Hm. eexists. split_and!; [done|by eapply pool_new|by apply prefix_app_r]. Qed.

Lemma ends_same ps wb m v : pool_mem ps wb m -> ends (inr (ps.*2, v)) (ptr_of <$> ps) (ptr_of <$> ps, v) m.
Proof. intros Hp. eexists. split_and!; [done|by exists ps, wb|done]. Qed.

Lemma run_new_spec ps wb vs (c : ST (mem H) fat_ptr) m : pool_mem ps wb m -> wp c (makes R vs (store_all ps wb)) (out_of_memory R (store_all ps wb)) m ->
  wp (y ← c; mret ((ptr_of <$> ps) ++ [y], [])) (ends (inr (ps.*2 ++ [vs], [])) (ptr_of <$> ps)) (fails (inr (ps.*2 ++ [vs], [])) (ptr_of <$> ps) ps.*2) m.
Proof. intros Hp Hc. wps. eapply wp_mono; [exact Hc| |]; [intros arr m' Hm'; wps; by eapply ends_new|intros e m' He; by eapply fails_oom]. Qed.

Lemma extract_run_spec ps wb i a l start n n_opt count m : pool_mem ps wb m -> ps !! i = Some (a, l) ->
  (n_opt = 0 /\ n = None \/ exists j b k, n = Some j /\ n_opt = b /\ ps !! j = Some (b, k)) -> extract_count ps.*2 l start n = Some count ->
  -2147483648 <= start < 2147483648 -> -2147483648 <= count -> start + Z.max 0 count < 2147483648 ->
  let res := if decide (0 <= start /\ 0 < count /\ start + count <= Z.of_nat (length l)) then inr (ps.*2 ++ [take (Z.to_nat count) (drop (Z.to_nat start) l)], [])
             else inl Cyc_Core_Invalid_argument in
  wp (y ← Cyc_Array_extract (arr_ptr a (length l)) start n_opt; mret ((ptr_of <$> ps) ++ [y], [])) (ends res (ptr_of <$> ps)) (fails res (ptr_of <$> ps) ps.*2) m.
Proof.
  intros Hp Hi Hn Hc Hs Hc0 Hsc res. pose proof Hp as (Ho & Hsep & Hf & Hm). rewrite Forall_lookup in Ho. destruct (Ho i _ Hi) as [Hok _].
  wps. eapply wp_mono; [apply (extract_spec R a l (store_all ps wb) Hok (store_lookup ps i a l wb Hsep Hi) start count n_opt)|..]; [done| |lia..| |].
  - destruct Hn as [[-> ->]|(j & b & k & -> & -> & Hj)]; [simpl in Hc; congruence|]. simpl in Hc. rewrite list_lookup_fmap, Hj in Hc. simpl in Hc.
    destruct k as [|v k]; [done|]. simpl in Hc. injection Hc as ->. destruct (Ho j _ Hj) as [[Hb _] _]. simpl in Hb.
    rewrite (proj2 (Z.eqb_neq b 0)) by lia. replace b with (b + 4 * Z.of_nat 0) by lia. by apply (store_lookup ps j b (count :: k) wb Hsep Hj).
  - intros arr m' (? & ? & ? & Hmk). wps. unfold res. rewrite decide_True by done. by eapply ends_new.
  - intros e m' [He|(Hbad & -> & w' & Hm' & Hw')]; [by eapply fails_oom|]. split; [right; unfold res; by rewrite decide_False by lia|]. by eapply pool_grown.
Qed.

Lemma run_aop_spec o pool ls res m : pool_at pool ls m -> spec_aop o ls = Some res -> wp (run_aop o pool) (ends res pool) (fails res pool ls) m.
Proof.
  intros (ps & wb & -> & -> & Hp) Ho. pose proof Hp as (Hout & Hsep & HF & Hm).
  assert (Hget : forall i l, ps.*2 !! i = Some l -> exists a, ps !! i = Some (a, l) /\ array_ok a (length l) /\ array_at (store_all ps wb) a l) by (intros; by eapply pool_read).
  assert (Hplace : forall i a l, ps !! i = Some (a, l) -> at_words R (put_words a l (store_all (delete i ps) wb)) m).
  { intros i a l Hi. by rewrite <- (store_take ps i (a, l)). }
  destruct o as [i|i|f i|f i j|i start n|f i|i|f u i|f i u|p i|p i|i v]; cbn [spec_aop] in Ho; (destruct (ps.*2 !! i) as [l|] eqn:El; [|done]); cbn [mbind option_bind] in Ho;
    try (apply (inj Some) in Ho; subst res); destruct (Hget i l El) as (a & Hi & Hok & Hat); cbn [run_aop]; wps; (eapply wp_nth_array; [exact Hi|]).
  - eapply run_new_spec; [done|]. by apply copy_spec.
  - eapply run_new_spec; [done|]. by apply rev_copy_spec.
  - eapply run_new_spec; [done|]. by apply map_spec.
  - destruct (ps.*2 !! j) as [k|] eqn:Ek; [|done]. cbn [mbind option_bind] in Ho. injection Ho as <-. destruct (Hget j k Ek) as (b & Hj & Hok2 & Hat2). wps. eapply wp_nth_array; [exact Hj|].
    wps. eapply wp_mono; [by eapply (map2_spec R a b l k (store_all ps wb) _ f)| |].
    + intros arr m' [Elk Hmk]. wps. rewrite decide_True by done. by eapply ends_new.
    + intros e m' [He|(Hne & -> & ->)]; [by eapply fails_oom|]. rewrite decide_False by done. split; [by right|]. by exists ps, wb.
  - destruct (extract_count ps.*2 l start n) as [count|] eqn:Ec; [|done]. simpl in Ho. destruct (decide _) as [(Hs & Hc0 & Hsc)|]; simplify_eq/=. wps.
    destruct n as [j|]; wps.
    + simpl in Ec. destruct (ps.*2 !! j) as [k|] eqn:Ek; [|done]. destruct (Hget j k Ek) as (b & Hj & Hok2 & _). wps. eapply wp_nth_array; [exact Hj|]. wps.
      apply wp_bind_inv, (extract_run_spec ps wb i a l start (Some j)); [done|done| |simpl; by rewrite Ek|done..]. right. exists j, b, k.
      unfold ptr_of. by rewrite arr_ptr_eq.
    + apply wp_bind_inv, (extract_run_spec ps wb i a l start None); try done. by left.
  - wps. eapply wp_conseq; [apply (imp_map_spec R a l (store_all (delete i ps) wb) Hok _ f); [done|by apply Hplace]|]. intros [] m' Hm'. wps. eexists. split_and!; [done| |done].
    eapply pool_set; [done|done|by rewrite length_fmap|done].
  - wps. eapply wp_conseq; [apply (rev_in_place_spec R a l (store_all (delete i ps) wb) Hok); by apply Hplace|]. intros [] m' Hm'. wps. eexists. split_and!; [done| |done].
    eapply pool_set; [done|done|by rewrite length_reverse|done].
  - wps. eapply wp_conseq; [by apply (fold_left_spec R a l _ Hok Hat _ f)|]. intros v m' [-> ->]. wps. by eapply ends_same.
  - wps. eapply wp_conseq; [by apply (fold_right_spec R a l _ Hok Hat _ f)|]. intros v m' [-> ->]. wps. by eapply ends_same.
  - wps. eapply wp_conseq; [by apply (forall_spec R a l _ Hok Hat _ p)|]. intros v m' [-> ->]. wps. by eapply ends_same.
  - wps. eapply wp_conseq; [by apply (exists_spec R a l _ Hok Hat _ p)|]. intros v m' [-> ->]. wps. by eapply ends_same.
  - wps. eapply wp_conseq; [by apply (memq_spec R a l _ Hok Hat)|]. intros b m' [-> ->]. wps. by eapply ends_same.
Qed.

(** The exception of a program, with the lists that a first part of it makes. *)
Definition stops (os : list aop) (pool : list fat_ptr) (ls : list (list Z)) (e : exn) m : Prop :=
  (e = Cyc_Bad_alloc \/ spec_aops os ls = Some (inl e)) /\
  exists k ls' ans pool', spec_aops (take k os) ls = Some (inr (ls', ans)) /\ pool_at pool' ls' m /\ pool `prefix_of` pool'.
End refine.

(** C24. The array library computes with lists.  A program of copies, reversed
    copies, maps, extractions, maps and reversals in place, folds and tests on a
    pool of arrays terminates; its arrays then hold exactly the lists of the
    abstract program, with its answers, so an operation in place changes the array
    it is given and no other; all other words of the memory are as they were.  The
    exceptions are [Array_mismatch] and [Invalid_argument] exactly where the
    abstract program has them, and [Bad_alloc]; then the arrays hold what a first
    part of the program makes of them.  [Array_mismatch] is that of a map of two
    arrays of different lengths, [Invalid_argument] that of an extraction with a
    negative start, of more elements than there are, of a negative number of
    elements or of none: include/array.h does not have the last case
    ([extract_nothing_throws]).  The program uses arrays it has, and the start and
    number of an extraction have a sum that is an [int]. *)
Theorem array_programs_refine {H : Type} `{HH : Heap H} `{!HeapLaws H} (R : gset Z) (F : gmap Z Z) os pool ls res (m : mem H) :
  pool_at R F pool ls m -> spec_aops os ls = Some res -> wp (run_aops os pool) (ends R F res pool) (stops R F os pool ls) m.
Proof.
  revert pool ls res m. induction os as [|o os IH]; intros pool ls res m Hp Ho; simpl in Ho.
  { simplify_eq. simpl. wps. exists ls. by split_and!. }
  destruct (spec_aop o ls) as [r1|] eqn:E1; [|done]. simpl in Ho. cbn [run_aops]. wps.
  eapply wp_mono; [by apply (run_aop_spec R F o pool ls r1)| |].
  - intros [pool1 a1] m1 (ls1 & -> & Hp1 & Hpre1). simpl in *. destruct (spec_aops os ls1) as [r2|] eqn:E2; [|done]. simplify_eq/=.
    wps. eapply wp_mono; [by apply (IH pool1 ls1 r2)| |].
    + intros [pool2 a2] m2 (ls2 & -> & Hp2 & Hpre2). wps. exists ls2. split_and!; [done|done|by etrans].
    + intros e m2 [He (k & ls' & ans & pool' & Hk & Hp' & Hpre')]. split.
      * destruct He as [->|He]; [by left|right]. simpl. rewrite E1. simpl. rewrite He. done.
      * exists (S k), ls', (a1 ++ ans), pool'. split_and!; [|done|by etrans]. cbn [take spec_aops]. rewrite E1. simpl. by rewrite Hk.
  - intros e m1 [He Hp1]. split.
    + destruct He as [->| ->]; [by left|right]. simpl. by rewrite E1.
    + exists 0%nat, ls, [], pool. by split_and!.
Qed.

(** ** Sorting *)

Lemma sorted_on_strongly g l n : sorted_on g 0 n l -> (n <= length l)%nat -> StronglySorted (leg g) (take n l).
Proof.
  revert n. induction l as [|v l IH]; intros n Hs Hn; [rewrite take_nil; constructor|]. destruct n as [|n]; [constructor|]. simpl in Hn. simpl. constructor.
  - apply IH; [|lia]. intros x y _ Hxy Hy. apply (Hs (S x) (S y)); lia.
  - apply Forall_lookup. intros i u Hu. apply lookup_take_Some in Hu as [Hu Hi]. unfold leg.
    pose proof (Hs 0%nat (S i) ltac:(lia) ltac:(lia) ltac:(lia)) as Hle. simpl in Hle. by rewrite (list_lookup_total_correct _ _ _ Hu) in Hle.
Qed.

(** Exchanges of the first [n] elements. *)
Lemma swaps_parts n l l' : swaps 0 n l l' -> (n <= length l)%nat -> take n l' ≡ₚ take n l /\ l' = take n l' ++ drop n l.
Proof.
  intros Hs Hn. pose proof (swaps_length _ _ _ _ Hs) as Hl. assert (Hd : drop n l' = drop n l).
  { apply (list_eq_same_length _ _ (length l - n)); [by rewrite length_drop|rewrite length_drop; lia|]. intros i u v Hi Hu Hv. rewrite lookup_drop in Hu, Hv.
    apply list_lookup_total_correct in Hu as <-. apply list_lookup_total_correct in Hv as <-. apply (swaps_outside 0 n); [done|done|lia]. }
  split; [|by rewrite <- Hd, take_drop]. apply (Permutation_app_inv_r (drop n l)). rewrite <- Hd at 1. rewrite !take_drop. by apply (swaps_perm 0 n).
Qed.

(** The sorts refuse a number of elements that the array does not have. *)
Definition refuses {H} `{Heap H} (R : gset Z) (w : gmap Z Z) (l : list Z) (len : Z) (e : exn) (m : mem H) : Prop :=
  (len < 0 \/ Z.of_nat (length l) < len) /\ (e = Cyc_Core_Invalid_argument \/ e = Cyc_Bad_alloc) /\ exists w', at_words R w' m /\ w ⊆ w'.

(** C11. [Cyc_Array_qsort] sorts.  For any comparison that orders the elements it
    terminates with the first [len] elements of the array in order, a permutation
    of what they were; no other word of the memory changes, no check of a subscript
    fails and the stack of forty integers does not overflow, for up to 5242878
    elements.  A number of elements that the array does not have is refused with
    [Invalid_argument]. *)
Theorem array_qsort_sorts {H : Type} `{HH : Heap H} `{!HeapLaws H} (R : gset Z) less_eq g `{!Comparison g} a l w len (m : mem H) :
  compares less_eq g -> array_ok a (length l) -> at_words R w m -> array_at w a l -> -2147483648 <= len < 2147483648 ->
  len <= 5242878 \/ Z.of_nat (length l) < len ->
  wp (Cyc_Array_qsort less_eq (arr_ptr a (length l)) len)
    (fun _ m' => 0 <= len <= Z.of_nat (length l) /\ exists l', l' ≡ₚ take (Z.to_nat len) l /\ StronglySorted (leg g) l' /\
       at_words R (put_words a (l' ++ drop (Z.to_nat len) l) w) m')
    (refuses R w l len) m.
Proof.
  intros Hc Hok Hm Ha Hlen Hmax. destruct (decide (0 <= len <= Z.of_nat (length l))) as [Hin|Hout].
  - assert (exists n, len = Z.of_nat n) as [n ->] by (exists (Z.to_nat len); lia). rewrite Nat2Z.id. assert (Hn : (n <= length l)%nat) by lia.
    eapply wp_conseq; [apply (quick_sort_spec R less_eq g Hc a (length l) w Hok n l Hn ltac:(lia) eq_refl); split; [done|by rewrite put_words_id]|].
    intros [] m' (l' & [Hl' Hm'] & Hsw & Hso). destruct (swaps_parts n l l' Hsw Hn) as [Hp El]. split; [lia|]. exists (take n l'). split_and!; [done| |by rewrite <- El].
    apply sorted_on_strongly; [done|lia].
  - unfold Cyc_Array_qsort. rewrite Z.add_0_l, (i32_small len), arr_ptr_size by done.
    assert (Et : ((0 <? 0) || (Z.of_nat (length l) <? u32 len)) || (len <? 0) = true).
    { destruct (len <? 0) eqn:E0; [by rewrite orb_true_r|]. rewrite u32_small by lia. rewrite (proj2 (Z.ltb_lt (Z.of_nat (length l)) len)) by lia. done. }
    rewrite Et. eapply wp_throw_Invalid_argument; [done| |]; [intros m' w' Hm' Hw|intros m' Hm']; (split; [lia|]); (split; [auto|]); eauto.
Qed.

(** [Cyc_Array_msort] leaves the result of its last pass in the array only when
    the number of passes is even.  It terminates, or runs out of memory with
    everything as it was, and then has rearranged the first [len] elements into
    sorted runs: of the length [2 ^ k] for [k] passes when [k] is even, so that the
    array is sorted, but of half that length when [k] is odd.  Apart from the array
    and the new one that it works with, no word of the memory changes. *)
Theorem array_msort_runs {H : Type} `{HH : Heap H} `{!HeapLaws H} (R : gset Z) less_eq g `{!Comparison g} a l w n (m : mem H) :
  compares less_eq g -> array_ok a (length l) -> at_words R w m -> array_at w a l -> (n <= length l)%nat ->
  let k := pass_count n in
  wp (Cyc_Array_msort less_eq (arr_ptr a (length l)) (Z.of_nat n))
    (fun _ m' => exists l' p L, l' ≡ₚ take n l /\ runs g (2 ^ (if Nat.even k then k else k - 1)) l' /\ (Nat.even k = true -> Sorted (leg g) l') /\
       fresh_words p n w /\ length L = n /\ at_words R (put_words a l' (put_words p L w)) m')
    (fun e m' => e = Cyc_Bad_alloc /\ at_words R w m') m.
Proof.
  intros Hc Hok Hm Ha Hn k. set (l1 := take n l). assert (Hl1 : length l1 = n) by (unfold l1; rewrite length_take; lia).
  assert (Ha1 : array_at w a l1) by (intros i v Hi; apply lookup_take_Some in Hi as [Hi _]; by apply Ha).
  pose proof (msort_spec R less_eq g Hc a (length l) w l1 m Hok ltac:(lia)) as Hs. rewrite put_words_id, Hl1 in Hs by done.
  eapply wp_conseq; [by apply Hs|]. intros [] m' (p & L & Hp & HL & Hm'). exists (msort_result g l1), p, L. unfold msort_result. rewrite Hl1. fold k.
  split_and!; [apply passes_perm|by apply passes_runs| |done|done|].
  - intros Ev. rewrite Ev. eapply (runs_sorted g (2 ^ k)); [by apply passes_runs|]. rewrite passes_length, Hl1.
    pose proof (pass_count_more n k) as Hpc. unfold k in *. lia.
  - unfold msort_result in Hm'. rewrite Hl1 in Hm'. exact Hm'.
Qed.

(** ** Examples *)

(** The comparison of the words at two addresses. *)
Definition word_cmp (p q : Z) : ST (mem bump) Z := u ← get_word p; v ← get_word q; mret (u - v).

Lemma word_cmp_compares : compares word_cmp Z.sub.
Proof.
  intros p q u v m Hp Hq. unfold word_cmp. run_step (get_word_Ret m p u Hp). run_step (get_word_Ret m q v Hq). done.
Qed.

(** A new array in an empty memory. *)
Definition ex_made (vs : list Z) : out fat_ptr * mem bump := new_elems (Z.of_nat (length vs)) 1 (fun i => mret (vs !!! Z.to_nat i)) ex_mem.
Definition ex_addr (vs : list Z) : Z := match (ex_made vs).1 with Ret x => curr x | _ => 0 end.

Lemma ex_made_ok vs : Z.of_nat (length vs) < 1073741824 -> (ex_made vs).1 = Ret (arr_ptr (ex_addr vs) (length vs)) ->
  0 < ex_addr vs -> ex_addr vs + 4 * Z.of_nat (length vs) < 4294967296 ->
  exists w, at_words {[1000]} w (ex_made vs).2 /\ array_at w (ex_addr vs) vs /\ w = put_words (ex_addr vs) vs ∅.
Proof.
  intros Hl He Ha Hb. assert (Hw : wp (new_elems (Z.of_nat (length vs)) 1 (fun i => mret (vs !!! Z.to_nat i))) (makes {[1000]} vs ∅) (fun _ _ => True) ex_mem).
  { apply wp_makes; [done|exact ex_mem_words|done| |done]. intros i v w1 m1 Q1 Hv _ _ HQ. rewrite Nat2Z.id, (list_lookup_total_correct _ _ _ Hv). by wps. }
  destruct (ex_made vs) as [o m'] eqn:Em. simpl in *. subst o. destruct (wp_result _ _ _ _ _ _ Hw Em) as (p & Ep & Hf & Hm).
  assert (p = ex_addr vs) as ->.
  { apply (f_equal curr) in Ep. rewrite !arr_ptr_eq in Ep; [done|split; apply Hf|by split]. }
  eexists. split_and!; [exact Hm|apply put_words_array|done].
Qed.

Definition ex_vals : list Z := [5; 3; 8; 1; 9; 2; 7].

Lemma array_qsort_sorts_witness : exists l' m', Cyc_Array_qsort word_cmp (arr_ptr (ex_addr ex_vals) 7) 6 (ex_made ex_vals).2 = (Ret tt, m') /\
  l' ≡ₚ [5; 3; 8; 1; 9; 2] /\ StronglySorted (leg Z.sub) l' /\ words m' = put_words (ex_addr ex_vals) (l' ++ [7]) ∅.
Proof.
  destruct (ex_made_ok ex_vals ltac:(simpl; lia) ltac:(by vm_compute) ltac:(vm_compute; reflexivity) ltac:(vm_compute; reflexivity)) as (w & Hm & Ha & ->).
  assert (Hok : array_ok (ex_addr ex_vals) 7) by (split; vm_compute; reflexivity).
  pose proof (array_qsort_sorts {[1000]} word_cmp Z.sub (ex_addr ex_vals) ex_vals _ 6 _ word_cmp_compares Hok Hm Ha ltac:(lia) ltac:(left; lia)) as Hw.
  assert (Hr : exists m', Cyc_Array_qsort word_cmp (arr_ptr (ex_addr ex_vals) 7) 6 (ex_made ex_vals).2 = (Ret tt, m')) by (eexists; vm_compute; reflexivity).
  destruct Hr as [m' Hr]. destruct (wp_result _ _ _ _ _ _ Hw Hr) as (_ & l' & Hp & Hs & [_ Hm']). exists l', m'. split; [exact Hr|].
  split; [exact Hp|]. split; [exact Hs|]. rewrite Hm'. apply put_words_put. rewrite length_app, Hp. reflexivity.
Defined.

(** Four elements take two passes. *)
Lemma array_msort_runs_witness : exists l' m', Cyc_Array_msort word_cmp (arr_ptr (ex_addr ex_vals) 7) 4 (ex_made ex_vals).2 = (Ret tt, m') /\
  l' ≡ₚ [5; 3; 8; 1] /\ Sorted (leg Z.sub) l'.
Proof.
  destruct (ex_made_ok ex_vals ltac:(simpl; lia) ltac:(by vm_compute) ltac:(vm_compute; reflexivity) ltac:(vm_compute; reflexivity)) as (w & Hm & Ha & ->).
  assert (Hok : array_ok (ex_addr ex_vals) 7) by (split; vm_compute; reflexivity).
  pose proof (array_msort_runs {[1000]} word_cmp Z.sub (ex_addr ex_vals) ex_vals _ 4 _ word_cmp_compares Hok Hm Ha ltac:(simpl; lia)) as Hw.
  assert (Hr : exists m', Cyc_Array_msort word_cmp (arr_ptr (ex_addr ex_vals) 7) 4 (ex_made ex_vals).2 = (Ret tt, m')) by (eexists; vm_compute; reflexivity).
  destruct Hr as [m' Hr]. destruct (wp_result _ _ _ _ _ _ Hw Hr) as (l' & p & L & Hp & _ & Hs & _). exists l', m'. split; [exact Hr|].
  split; [exact Hp|]. apply Hs. reflexivity.
Defined.

(** Two elements take one pass, and stay as they are. *)
Example msort_two_unsorted : exists m', Cyc_Array_msort word_cmp (arr_ptr (ex_addr [2; 1]) 2) 2 (ex_made [2; 1]).2 = (Ret tt, m') /\
  words m' !! ex_addr [2; 1] = Some 2 /\ words m' !! (ex_addr [2; 1] + 4) = Some 1.
Proof. eexists. split_and!; by vm_compute. Qed.

(** Extracting no element, and everything from the end on, throws. *)
Example extract_nothing_throws : exists f l m1 m2,
  Cyc_Array_extract (arr_ptr (ex_addr [0; 4]) 2) 1 (ex_addr [0; 4]) (ex_made [0; 4]).2 = (Thrown Cyc_Core_Invalid_argument f l, m1) /\
  Cyc_Array_extract (arr_ptr (ex_addr [0; 4]) 2) 2 0 (ex_made [0; 4]).2 = (Thrown Cyc_Core_Invalid_argument f l, m2).
Proof. eexists _, _, _, _. split; vm_compute; reflexivity. Qed.

(** One array; the number of elements to extract is the first element of a copy. *)
Definition ex_aops : list aop :=
  [ARevCopy 0; AImpRev 0; AMap (fun v => v mod 3) 0; AImpMap (fun v => v + 1) 2; AExtract 1 2 (Some 2%nat); AFoldLeft Z.sub 0 3; AFoldRight Z.sub 3 0; AMemq 3 9; AForall (fun v => 0 <? v) 0].

Lemma array_programs_refine_witness : exists pool m', run_aops ex_aops [arr_ptr (ex_addr ex_vals) 7] (ex_made ex_vals).2 = (Ret (pool, [-10; 8; 1; 1]), m') /\
  pool_at {[1000]} ∅ pool [[7; 2; 9; 1; 8; 3; 5]; [7; 2; 9; 1; 8; 3; 5]; [2; 3; 1; 2; 3; 1; 3]; [9; 1]] m' /\
  wp (run_aops [AMap (fun v => v) 0; AExtract 0 4 (Some 1%nat)] [arr_ptr (ex_addr ex_vals) 7]) (fun _ _ => False)
    (fun e _ => e = Cyc_Bad_alloc \/ e = Cyc_Core_Invalid_argument) (ex_made ex_vals).2.
Proof.
  destruct (ex_made_ok ex_vals ltac:(simpl; lia) ltac:(by vm_compute) ltac:(vm_compute; reflexivity) ltac:(vm_compute; reflexivity)) as (w & Hm & Ha & Hw0).
  assert (Hp : pool_at {[1000]} ∅ [arr_ptr (ex_addr ex_vals) 7] [ex_vals] (ex_made ex_vals).2).
  { exists [(ex_addr ex_vals, ex_vals)], ∅. split; [reflexivity|]. split; [reflexivity|]. split; [constructor; [|constructor]|].
    - split; [split; vm_compute; reflexivity|]. intros k _. apply lookup_empty.
    - split; [split; [constructor|exact Logic.I]|]. split; [apply map_empty_subseteq|]. rewrite Hw0 in Hm. exact Hm. }
  pose proof (array_programs_refine {[1000]} ∅ ex_aops _ _ _ _ Hp ltac:(vm_compute; reflexivity)) as Hw.
  pose proof (array_programs_refine {[1000]} ∅ [AMap (fun v => v) 0; AExtract 0 4 (Some 1%nat)] _ _ _ _ Hp ltac:(vm_compute; reflexivity)) as Hz.
  assert (Hr : exists pool m', run_aops ex_aops [arr_ptr (ex_addr ex_vals) 7] (ex_made ex_vals).2 = (Ret (pool, [-10; 8; 1; 1]), m')) by (eexists _, _; vm_compute; reflexivity).
  destruct Hr as (pool & m' & Hr). exists pool, m'. split; [exact Hr|]. destruct (wp_result _ _ _ _ _ _ Hw Hr) as (ls & El & Hpool & _).
  injection El as El. rewrite <- El in Hpool. split; [exact Hpool|].
  eapply wp_mono; [exact Hz| |].
  - intros r m1 (ls1 & E1 & _). discriminate E1.
  - intros e m1 [[->|E1] _]; [left; reflexivity|right]. vm_compute in E1. injection E1 as E1. symmetry. exact E1.
Defined.
