(* ===== verification/CycHashtable.v ===== *)
(** * The hash table library

    Models src/bin/genfiles/hashtable.c.  A table is an object of seven words:
    the region of its cells, the comparison and hash functions, the length a
    bucket may have and the fat pointer of the array of buckets.  A bucket is a
    list of pairs of words, the newest binding first.  A function pointer is a
    word; [call] and [call1] run the function it points to. *)

From S2P Require Import Prelude Alloc RwLock Region DynRegion Words CycList FatPtr CycBytes CycXP.

Definition hashtable_cyc : string := "hashtable.cyc".

Section hashtable.
Context {H : Type} `{Heap H} (self : Z).
Context (call : Z -> Z -> Z -> ST (mem H) Z) (call1 : Z -> Z -> ST (mem H) Z).
Abbreviation M := (ST (mem H)).

(** ** Fields *)

Definition ht_r (t : Z) : M Z := get_word t.
Definition ht_cmp (t : Z) : M Z := get_word (t + 4).
Definition ht_hash (t : Z) : M Z := get_word (t + 8).
Definition ht_max_len (t : Z) : M Z := get_word (t + 12).
Definition ht_tab (t : Z) : M fat_ptr :=
  c ← get_word (t + 16); b ← get_word (t + 20); l ← get_word (t + 24); mret (mk_fat c b l).
Definition set_tab (t : Z) (p : fat_ptr) : M unit :=
  store_word (t + 16) (curr p);; store_word (t + 20) (base p);; store_word (t + 24) (last_plus_one p).

(** [_tag_fat(_region_calloc(r,sizeof(struct Cyc_List_List* ),n),sizeof(struct Cyc_List_List* ),n)] *)
Definition calloc_words (r n : Z) : M Z := p ← _region_calloc self r 4 n; modify (zero_fill p (Z.to_nat n));; mret p.
Definition new_buckets (r n : Z) : M fat_ptr := p ← calloc_words r (u32 n); mret (_tag_fat p 4 (u32 n)).

(** [(int)((unsigned)hash(key) % numelts(tab))] *)
Definition bucket_of (hash : Z) (tab : fat_ptr) (key : Z) : M Z :=
  h ← call1 hash key;
  let n := _get_fat_size tab 4 in
  if n =? 0 then lift Undef else mret (i32 (u32 h mod n)).

(** [&tab[i]], with and without the check. *)
Definition slot_at (tab : fat_ptr) (i line : Z) : M Z := lift (_check_fat_subscript tab 4 i hashtable_cyc line).
Definition slot_unchecked (tab : fat_ptr) (i : Z) : Z := u32 (curr tab + 4 * i).

(** [rnew(r) $(key,val)] *)
Definition new_pair (r key val : Z) : M Z := p ← new_words self r 2; store_word p key;; store_word (p + 4) val;; mret p.

(** [tab[i] = rnew(r) List(rnew(r) $(key,val), tab[i])] *)
Definition push_binding (r : M Z) (tab : fat_ptr) (i key val line : Z) : M unit :=
  r1 ← r; c ← new_words self r1 2;
  r2 ← r; p ← new_pair r2 key val; set_hd c p;;
  a ← slot_at tab i line; x ← get_word a; set_tl c x;;
  store_word (slot_unchecked tab i) c.

(** ** Tables *)

Definition Cyc_Hashtable_rcreate (r sz cmp hash : Z) : M Z :=
  t ← new_words self r 7;
  store_word t r;; store_word (t + 4) cmp;; store_word (t + 8) hash;; store_word (t + 12) 3;;
  tab ← new_buckets r sz; set_tab t tab;; mret t.

Definition Cyc_Hashtable_create (sz cmp hash : Z) : M Z := Cyc_Hashtable_rcreate Cyc_Core_heap_region sz cmp hash.

(** The bindings of a bucket are added last first, so that they keep their order. *)
Fixpoint insert_bucket_rec (fuel : nat) (r : Z) (tab : fat_ptr) (hash elems : Z) : M unit :=
  match fuel with
  | O => lift Undef
  | S fuel =>
      if is_null elems then mret tt
      else
        t ← get_tl elems; insert_bucket_rec fuel r tab hash t;;
        h ← get_hd elems; key ← fst_word h;
        h ← get_hd elems; val ← snd_word h;
        nidx ← bucket_of hash tab key;
        push_binding (mret r) tab nidx key val 135
  end.

Definition Cyc_Hashtable_insert_bucket (r : Z) (tab : fat_ptr) (hash elems : Z) : M unit :=
  with_fuel (fun n => insert_bucket_rec n r tab hash elems).

Definition Cyc_Hashtable_resize (t : Z) : M unit :=
  odata ← ht_tab t;
  let osize := i32 (_get_fat_size odata 4) in
  let nsize := i32 (2 * osize + 1) in
  r ← ht_r t; ndata ← new_buckets r nsize;
  loop (S (Z.to_nat osize)) (fun i =>
    if i <? osize then
      r ← ht_r t; f ← ht_hash t;
      a ← slot_at odata i 144; x ← get_word a;
      Cyc_Hashtable_insert_bucket r ndata f x;; mret (inl (i + 1))
    else mret (inr tt)) 0;;
  set_tab t ndata;;
  n ← ht_max_len t; store_word (t + 12) (i32 (2 * n)).

Definition Cyc_Hashtable_insert (t key val : Z) : M unit :=
  tab ← ht_tab t; f ← ht_hash t;
  bucket ← bucket_of f tab key;
  push_binding (ht_r t) tab bucket key val 52;;
  x ← get_word (slot_unchecked tab bucket); n ← Cyc_List_length x;
  max_len ← ht_max_len t;
  if max_len <? n then Cyc_Hashtable_resize t else mret tt.

(** ** Lookup *)

(** The list that may have the key. *)
Definition bucket_list (t key : Z) : M Z :=
  tab ← ht_tab t; f ← ht_hash t; i ← bucket_of f tab key; get_word (slot_unchecked tab i).

Definition Cyc_Hashtable_lookup (t key : Z) : M Z :=
  l ← bucket_list t key; cmp ← ht_cmp t; Cyc_List_assoc_cmp (call cmp) l key.

(** The address of the value, or null. *)
Definition Cyc_Hashtable_lookup_opt (t key : Z) : M Z :=
  l ← bucket_list t key; cmp ← ht_cmp t;
  search_cells (fun h => k ← fst_word h; i ← call cmp key k; mret (i =? 0)) (fun h => mret (h + 4)) (mret 0) l.

(** The value is written through [data] only when the key is found. *)
Definition Cyc_Hashtable_try_lookup (t key : Z) : M (option Z) :=
  l ← bucket_list t key; cmp ← ht_cmp t;
  search_cells (fun h => k ← fst_word h; i ← call cmp key k; mret (i =? 0)) (fun h => v ← snd_word h; mret (Some v)) (mret None) l.

(** ** Removal *)

Definition Cyc_Hashtable_remove (t key : Z) : M unit :=
  tab ← ht_tab t; cmp ← ht_cmp t; f ← ht_hash t;
  bucket ← bucket_of f tab key;
  a ← slot_at tab bucket 94; l ← get_word a;
  if is_null l then mret tt
  else
    h ← get_hd l; k ← fst_word h; i ← call cmp key k;
    if i =? 0 then t ← get_tl l; store_word (slot_unchecked tab bucket) t
    else
      next ← get_tl l;
      with_fuel (fun n => loop n (fun '(l, next) =>
        l ← lift (_check_null l hashtable_cyc 101); t ← get_tl l;
        if is_null t then mret (inr tt)
        else
          next ← lift (_check_null next hashtable_cyc 102);
          h ← get_hd next; k ← fst_word h; i ← call cmp key k;
          if i =? 0 then t ← get_tl next; set_tl l t;; mret (inr tt)
          else l' ← get_tl l; next' ← get_tl next; mret (inl (l', next'))) (l, next)).

(** ** Iteration *)

Definition Cyc_Hashtable_iter (f : Z -> Z -> M unit) (t : Z) : M unit :=
  odata ← ht_tab t;
  let osize := i32 (_get_fat_size odata 4) in
  loop (S (Z.to_nat osize)) (fun i =>
    if i <? osize then
      a ← slot_at odata i 154; x ← get_word a;
      iter_cells (fun h => k ← fst_word h; v ← snd_word h; f k v) x;; mret (inl (i + 1))
    else mret (inr tt)) 0.

Definition Cyc_Hashtable_iter_c (f : Z -> Z -> Z -> M unit) (t env : Z) : M unit :=
  Cyc_Hashtable_iter (fun k v => f k v env) t.
End hashtable.

(** ** Hashing strings *)

(** The characters are combined by exclusive or, each shifted by one byte more
    than the one before, modulo the width. *)
Definition Cyc_Hashtable_hash_string (s : fat_ptr) : BM Z :=
  let sz := i32 (_get_fat_size s 1) in
  loop (S (Z.to_nat sz)) (fun '(i, (ans, shift)) =>
    if i <? sz then
      a ← lift (_check_fat_subscript s 1 i hashtable_cyc 114); c ← get_byte a;
      let ans := Z.lxor ans (i32 (Z.shiftl (schar c) shift)) in
      let shift := shift + 8 in
      mret (inl (i + 1, (ans, if shift =? 32 then 0 else shift)))
    else mret (inr ans)) (0, (0, 0)).
