(* ===== verification/HtableSpec.v ===== *)
(** * Hash tables: memory and mathematics

    The representation of tables in memory, and the pure functions on their
    buckets that the operations of CycHashtable.v compute. *)

From S2P Require Import Prelude Alloc RwLock Region RegionSafety DynRegion Words CycList ListCells WordMem FatPtr CycListSpec ListConv SplaySpec CycBytes CycXP CycHashtable CycSetSpec.

(** ** Hash tables in memory

    The objects of a table of CycHashtable.v, which own disjoint units of eight
    bytes, and the operations on them. *)

(** ** Units of eight bytes *)

Definition unit_of (x : Z) : Z := x - x mod 8.
Definition units (a : Z) (k : nat) : list Z := (fun i => a + 8 * Z.of_nat i) <$> seq 0 k.

Lemma unit_of_aligned a i : a mod 8 = 0 -> 0 <= i < 8 -> unit_of (a + i) = a.
Proof. unfold unit_of. intros Ha Hi. words. Qed.

Lemma unit_of_self a : a mod 8 = 0 -> unit_of a = a.
Proof. unfold unit_of. lia. Qed.

Lemma elem_of_units a k x : a mod 8 = 0 -> unit_of x ∈ units a k <-> a <= x < a + 8 * Z.of_nat k.
Proof.
  intros Ha. unfold units, unit_of. rewrite list_elem_of_fmap. split.
  - intros (i & Hi & Hin%elem_of_seq). words.
  - intros Hx. exists (Z.to_nat ((x - a) / 8)). rewrite elem_of_seq. words.
Qed.

(** ** Chains *)

(** A cell, the pair it points to, and the binding in the pair. *)
Abbreviation entry := ((Z * Z) * (Z * Z))%type.

Fixpoint chain (w : gmap Z Z) (x : Z) (es : list entry) : Prop :=
  match es with
  | [] => x = 0
  | ((p, q), (k, v)) :: es => x = p /\ exists n, cell w p q n /\ cell w q k v /\ chain w n es
  end.

Fixpoint foot (es : list entry) : list Z := match es with [] => [] | ((p, q), _) :: es => p :: q :: foot es end.

Lemma foot_app es1 es2 : foot (es1 ++ es2) = foot es1 ++ foot es2.
Proof. induction es1 as [|[[p q] kv] es1 IH]; simpl; [done|]. by rewrite IH. Qed.

Lemma cell_frame w p v n x u : cell w p v n -> unit_of x <> p -> cell (<[x := u]> w) p v n.
Proof.
  intros (H0 & Hm & H1 & H2) Hx. split_and!; [done|done|..].
  - rewrite lookup_insert_ne; [done|]. intros ->. by apply Hx, unit_of_self.
  - rewrite lookup_insert_ne; [done|]. intros ->. apply Hx. by apply unit_of_aligned.
Qed.

Lemma chain_frame w x es y u : chain w x es -> unit_of y ∉ foot es -> chain (<[y := u]> w) x es.
Proof.
  revert x. induction es as [|[[p q] [k v]] es IH]; intros x; [done|]. intros (-> & n & Hp & Hq & Hc) Hy. simpl in Hy.
  apply not_elem_of_cons in Hy as [Hyp Hy]. apply not_elem_of_cons in Hy as [Hyq Hy].
  split; [done|]. exists n. split_and!; [by apply cell_frame|by apply cell_frame|by apply IH].
Qed.

Lemma chain_mono w w' x es : w ⊆ w' -> chain w x es -> chain w' x es.
Proof.
  intros Hw. revert x. induction es as [|[[p q] [k v]] es IH]; intros x; [done|]. intros (-> & n & Hp & Hq & Hc).
  split; [done|]. exists n. split_and!; [by eapply cell_mono|by eapply cell_mono|by apply IH].
Qed.

Lemma chain_present w x es p : chain w x es -> p ∈ foot es -> is_Some (w !! p) /\ p mod 8 = 0.
Proof.
  revert x. induction es as [|[[p1 q1] [k v]] es IH]; intros x; [intros _ Hp; by apply not_elem_of_nil in Hp|].
  intros (-> & n & (_ & Hm & Hp & _) & (_ & Hmq & Hq & _) & Hc). simpl. rewrite !elem_of_cons.
  intros [->|[->|Hin]]; [split; [by eexists|done]|split; [by eexists|done]|by eapply IH].
Qed.

(** The first part of a chain, up to [y]. *)
Fixpoint chain_to (w : gmap Z Z) (x : Z) (es : list entry) (y : Z) : Prop :=
  match es with
  | [] => x = y
  | ((p, q), (k, v)) :: es => x = p /\ exists n, cell w p q n /\ cell w q k v /\ chain_to w n es y
  end.

Lemma chain_app w x es1 es2 : chain w x (es1 ++ es2) <-> exists z, chain_to w x es1 z /\ chain w z es2.
Proof.
  revert x. induction es1 as [|[[p q] [k v]] es1 IH]; intros x; simpl.
  - split; [by exists x|]. by intros (z & -> & ?).
  - split.
    + intros (-> & n & Hp & Hq & Hc). apply IH in Hc as (z & H1 & H2). exists z. split; [|done]. eauto 10.
    + intros (z & (-> & n & Hp & Hq & H1) & H2). split; [done|]. exists n. split_and!; [done|done|]. apply IH. eauto.
Qed.

Lemma chain_to_frame w x es z y u : chain_to w x es z -> unit_of y ∉ foot es -> chain_to (<[y := u]> w) x es z.
Proof.
  revert x. induction es as [|[[p q] [k v]] es IH]; intros x; [done|]. intros (-> & n & Hp & Hq & Hc) Hy. simpl in Hy.
  apply not_elem_of_cons in Hy as [Hyp Hy]. apply not_elem_of_cons in Hy as [Hyq Hy].
  split; [done|]. exists n. split_and!; [by apply cell_frame|by apply cell_frame|by apply IH].
Qed.

Lemma chain_to_snoc w x es p q kv n : chain_to w x es p -> cell w p q n -> cell w q kv.1 kv.2 -> chain_to w x (es ++ [((p, q), kv)]) n.
Proof.
  destruct kv as [k v]. revert x. induction es as [|[[p1 q1] [k1 v1]] es IH]; intros x; simpl.
  - intros -> Hp Hq. split; [done|]. by exists n.
  - intros (-> & n1 & H1 & H2 & Hc) Hp Hq. split; [done|]. exists n1. split_and!; [done|done|by apply IH].
Qed.

(** A cell is taken out of a chain. *)
Lemma chain_unlink w h es1 l ql kvl next e2 es3 n3 : NoDup (foot (es1 ++ ((l, ql), kvl) :: e2 :: es3)) -> chain_to w h es1 l -> cell w l ql next ->
  cell w ql kvl.1 kvl.2 -> chain w n3 es3 -> chain (<[l + 4 := n3]> w) h (es1 ++ ((l, ql), kvl) :: es3).
Proof.
  intros Hnd H1 Hl Hql H3. rewrite foot_app in Hnd. destruct e2 as [[p2 q2] kv2], kvl as [k v]. simpl in Hnd.
  apply NoDup_app in Hnd as (_ & Hd & Hnd). apply NoDup_cons in Hnd as [Hl2 Hnd]. assert (Hl8 : l mod 8 = 0) by (by destruct Hl as (_ & ? & _)).
  assert (Hu : unit_of (l + 4) = l) by (by apply unit_of_aligned). rewrite !not_elem_of_cons in Hl2. destruct Hl2 as (Hlq & _ & _ & Hl3).
  apply chain_app. exists l. split.
  - apply chain_to_frame; [done|]. rewrite Hu. intros Hin. apply (Hd l Hin). left.
  - split; [done|]. exists n3. split_and!; [by eapply cell_set_own_tl|apply cell_frame; [done|by rewrite Hu]|]. apply chain_frame; [done|by rewrite Hu].
Qed.

(** The chain as a list of pairs. *)
Definition pairs_of (es : list entry) : list Z := (fun e => e.1.2) <$> es.

Lemma chain_lseg w x es : chain w x es -> lseg w x (fst <$> es) 0.
Proof.
  revert x. induction es as [|[[p q] [k v]] es IH]; intros x; [done|]. intros (-> & n & Hp & _ & Hc). split; [done|]. exists n. split; [done|by apply IH].
Qed.

Lemma chain_list w x es : chain w x es -> list_at w x (pairs_of es).
Proof. intros Hc. exists (fst <$> es). split; [by apply chain_lseg|]. unfold pairs_of. by rewrite <- list_fmap_compose. Qed.

Lemma chain_size w x es : chain w x es -> (length es <= size w)%nat.
Proof. intros Hc%chain_lseg%lseg_size. rewrite length_fmap in Hc. lia. Qed.

(** ** Arrays of chains *)

Definition feet (bs : list (list entry)) : list Z := concat (foot <$> bs).

(** The units of an array of [n] words. *)
Definition array_units (a : Z) (n : nat) : list Z := units a (Nat.div2 (S n)).

Definition owned (a : Z) (bs : list (list entry)) : list Z := array_units a (length bs) ++ feet bs.

Record buckets_at (w : gmap Z Z) (a : Z) (bs : list (list entry)) : Prop := {
  ba_heads : exists hs, array_at w a hs /\ Forall2 (chain w) hs bs;
  ba_aligned : a mod 8 = 0;
  ba_apart : NoDup (owned a bs);
  ba_low : 0 < a;
  ba_high : 4 * Z.of_nat (length bs) < INT_MAX /\ a + 4 * Z.of_nat (length bs) < 4294967296
}.

Abbreviation tab_of a bs := (_tag_fat a 4 (Z.of_nat (length bs))).

Lemma feet_elem bs i es p : bs !! i = Some es -> p ∈ foot es -> p ∈ feet bs.
Proof. intros Hi Hp. unfold feet. apply list_elem_of_In, in_concat. exists (foot es). split; apply list_elem_of_In; [|done]. eapply list_elem_of_lookup_2. rewrite list_lookup_fmap, Hi. done. Qed.

Lemma feet_insert bs i es es' : bs !! i = Some es -> exists l1 l2, feet bs = l1 ++ foot es ++ l2 /\ feet (<[i := es']> bs) = l1 ++ foot es' ++ l2.
Proof.
  intros Hi. exists (feet (take i bs)), (feet (drop (S i) bs)). unfold feet. split.
  - rewrite <- (take_drop_middle bs i es Hi) at 1. by rewrite fmap_app, concat_app.
  - rewrite insert_take_drop by (by eapply lookup_lt_Some). by rewrite fmap_app, concat_app.
Qed.

Lemma in_array a n i : a mod 8 = 0 -> (i < n)%nat -> unit_of (a + 4 * Z.of_nat i) ∈ array_units a n.
Proof. intros Ha Hi. apply elem_of_units; [done|]. rewrite Nat.div2_div. pose proof (Nat.div_mod_eq (S n) 2). pose proof (Nat.mod_upper_bound (S n) 2). lia. Qed.

Lemma array_present w a hs x : array_at w a hs -> a mod 8 = 0 -> x ∈ array_units a (length hs) -> is_Some (w !! x) /\ x mod 8 = 0.
Proof.
  intros Har Ha. unfold array_units, units. rewrite list_elem_of_fmap. intros (i & -> & Hi%elem_of_seq). split; [|words].
  rewrite Nat.div2_div in Hi. pose proof (Nat.div_mod_eq (S (length hs)) 2).
  destruct (lookup_lt_is_Some_2 hs (2 * i)) as [v Hv]; [lia|]. exists v.
  replace (a + 8 * Z.of_nat i) with (a + 4 * Z.of_nat (2 * i)) by lia. by apply Har.
Qed.

Lemma owned_present w a bs x : buckets_at w a bs -> x ∈ owned a bs -> is_Some (w !! x) /\ x mod 8 = 0.
Proof.
  intros [(hs & Har & Hc) Ha _ _ _]. unfold owned. rewrite elem_of_app. intros [Hx|Hx].
  - rewrite <- (Forall2_length _ _ _ Hc) in Hx. by eapply array_present.
  - unfold feet in Hx. apply list_elem_of_In, in_concat in Hx as (l & Hl & Hx). apply list_elem_of_In in Hl, Hx.
    apply list_elem_of_fmap in Hl as (es & -> & Hes). apply list_elem_of_lookup in Hes as [i Hi].
    destruct (Forall2_lookup_r _ _ _ _ _ Hc Hi) as (h & _ & Hch). by eapply chain_present.
Qed.

(** New objects own new units. *)
Lemma fresh_units w p k i x : fresh_words p k w -> is_Some (w !! x) -> 8 * Z.of_nat i < 4 * Z.of_nat k -> x <> p + 8 * Z.of_nat i.
Proof. intros (_ & _ & _ & Hf) Hx Hi ->. destruct (Hf _ Hx); lia. Qed.

Lemma buckets_mono w w' a bs : w ⊆ w' -> buckets_at w a bs -> buckets_at w' a bs.
Proof.
  intros Hw [(hs & Har & Hc) ? ? ? ?]. split; try done. exists hs. split.
  - intros i v Hi. eapply lookup_weaken; [by apply Har|done].
  - eapply Forall2_impl; [exact Hc|]. intros x es. by apply chain_mono.
Qed.

(** Writing a word that the buckets do not own. *)
Lemma buckets_frame w a bs x u : buckets_at w a bs -> unit_of x ∉ owned a bs -> buckets_at (<[x := u]> w) a bs.
Proof.
  intros [(hs & Har & Hc) Ha ? ? ?] Hx. unfold owned in Hx. apply not_elem_of_app in Hx as [Hx1 Hx2]. split; try done.
  exists hs. pose proof (Forall2_length _ _ _ Hc) as Hl. split.
  - intros i v Hi. rewrite lookup_insert_ne; [by apply Har|]. intros ->. apply Hx1, in_array; [done|]. rewrite <- Hl. by eapply lookup_lt_Some.
  - apply Forall2_same_length_lookup_2; [done|]. intros i h es H1 H2. apply chain_frame; [by eapply Forall2_lookup_lr|].
    intros Hin. apply Hx2. by eapply feet_elem.
Qed.

Lemma feet_disjoint bs i j es es' p : NoDup (feet bs) -> bs !! i = Some es -> bs !! j = Some es' -> i <> j -> p ∈ foot es -> p ∉ foot es'.
Proof.
  intros Hnd Hi Hj Hne Hp Hp'. destruct (feet_insert bs i es [] Hi) as (l1 & l2 & E1 & E2). rewrite E1 in Hnd.
  assert (Hin : p ∈ feet (<[i := []]> bs)) by (eapply (feet_elem _ j); [|exact Hp']; by rewrite list_lookup_insert_ne).
  rewrite E2 in Hin. simpl in Hin. apply NoDup_app in Hnd as (_ & Hd & Hnd). apply NoDup_app in Hnd as (_ & Hd2 & _).
  apply elem_of_app in Hin as [Hin|Hin]; [|by apply (Hd2 p)]. apply (Hd p Hin), elem_of_app. by left.
Qed.

(** A bucket is given another chain through its head. *)
Lemma buckets_set w a bs i es es' h : buckets_at w a bs -> bs !! i = Some es -> chain w h es' -> NoDup (owned a (<[i := es']> bs)) ->
  buckets_at (<[a + 4 * Z.of_nat i := h]> w) a (<[i := es']> bs).
Proof.
  intros [(hs & Har & Hc) Ha Hnd Hlo Hhi] Hi Hh Hnd'. pose proof (Forall2_length _ _ _ Hc) as Hl. pose proof (lookup_lt_Some _ _ _ Hi) as Hlt.
  assert (Hu : unit_of (a + 4 * Z.of_nat i) ∈ array_units a (length bs)) by (by apply in_array).
  assert (Hfr : forall (bs' : list (list entry)) j l, length bs' = length bs -> NoDup (owned a bs') -> bs' !! j = Some l -> unit_of (a + 4 * Z.of_nat i) ∉ foot l).
  { intros bs' j l El Hn Hj Hin. unfold owned in Hn. rewrite El in Hn. apply NoDup_app in Hn as (_ & Hd & _). apply (Hd _ Hu). by eapply feet_elem. }
  split; rewrite ?length_insert; try done. exists (<[i := h]> hs). split.
  - intros j v Hj. apply list_lookup_insert_Some in Hj as [(<- & <- & _)|[Hne Hj]]; [apply lookup_insert_eq|]. rewrite lookup_insert_ne by lia. by apply Har.
  - apply Forall2_same_length_lookup_2; [by rewrite !length_insert|]. intros j x l H1 H2.
    apply list_lookup_insert_Some in H1 as [(<- & <- & _)|[Hne H1]].
    + rewrite list_lookup_insert_eq in H2 by done. injection H2 as <-. apply chain_frame; [done|].
      apply (Hfr (<[i := es']> bs) i); [by rewrite length_insert|done|]. by rewrite list_lookup_insert_eq.
    + rewrite list_lookup_insert_ne in H2 by done. apply chain_frame; [by eapply Forall2_lookup_lr|]. by apply (Hfr bs j).
Qed.

(** A chain is changed in one of its cells. *)
Lemma buckets_relink w a bs i es es' x u h : buckets_at w a bs -> bs !! i = Some es -> w !! (a + 4 * Z.of_nat i) = Some h ->
  unit_of x ∈ foot es -> chain (<[x := u]> w) h es' -> sublist (foot es') (foot es) -> buckets_at (<[x := u]> w) a (<[i := es']> bs).
Proof.
  intros [(hs & Har & Hc) Ha Hnd Hlo Hhi] Hi Hh Hx Hch Hsub. pose proof (Forall2_length _ _ _ Hc) as Hl. pose proof (lookup_lt_Some _ _ _ Hi) as Hlt.
  pose proof Hnd as Hnd2. unfold owned in Hnd2. apply NoDup_app in Hnd2 as (Hna & Hd & Hnf).
  split; rewrite ?length_insert; try done.
  - exists hs. split.
    + intros j v Hj. rewrite lookup_insert_ne; [by apply Har|]. intros ->. apply (Hd (unit_of (a + 4 * Z.of_nat j))).
      * apply in_array; [done|]. rewrite <- Hl. by eapply lookup_lt_Some.
      * by eapply feet_elem.
    + apply Forall2_same_length_lookup_2; [by rewrite length_insert|]. intros j y l H1 H2.
      apply list_lookup_insert_Some in H2 as [(<- & <- & _)|[Hne H2]].
      * rewrite (Har _ _ H1) in Hh. by injection Hh as ->.
      * apply chain_frame; [by eapply Forall2_lookup_lr|]. by eapply (feet_disjoint bs i j es).
  - unfold owned. rewrite length_insert. destruct (feet_insert bs i es es' Hi) as (l1 & l2 & E1 & E2). rewrite E2.
    eapply sublist_NoDup; [exact Hnd|]. unfold owned. rewrite E1. apply sublist_app; [done|]. apply sublist_app; [done|]. by apply sublist_app.
Qed.

(** Other words keep their values. *)
Definition only_at (w : gmap Z Z) (y : Z) (w' : gmap Z Z) : Prop := forall x v, x <> y -> w !! x = Some v -> w' !! x = Some v.

Lemma object_cell w p k v w' : object w p [k; v] w' -> cell w' p k v.
Proof.
  intros ((Hp & Hm & _) & _ & Ha). split_and!; [lia|done|..].
  - rewrite <- (Ha 0%nat k eq_refl). f_equal. lia.
  - by rewrite <- (Ha 1%nat v eq_refl).
Qed.

Section ops.
Context {H : Type} `{HH : Heap H} `{!HeapLaws H} (self : Z) (R : gset Z).
Implicit Types (m : mem H) (w : gmap Z Z).

Lemma wp_reads w c v (Q : Z -> mem H -> Prop) E m : reads w c v -> w ⊆ words m -> Q v m -> wp c Q E m.
Proof. intros Hr Hw. by apply wp_run, Hr. Qed.

Lemma at_sub w w' m : at_words R w' m -> w ⊆ w' -> w ⊆ words m.
Proof. by intros [_ ->]. Qed.

Lemma new_pair_spec w key val m (Q : Z -> mem H -> Prop) : at_words R w m ->
  (forall p w' m', at_words R w' m' -> w ⊆ w' -> cell w' p key val -> fresh_words p 2 w -> Q p m') ->
  wp (new_pair self Cyc_Core_heap_region key val) Q (oom R w) m.
Proof.
  intros Hm HQ. unfold new_pair. wps. eapply wp_new_cell_words; [done|by left| |by intros; eapply oom_now].
  intros p m1 Hm1 Hf. pose proof (object_start p 2 w Hf) as Ho. simpl in Ho.
  wps. eapply (wm_put_field (at_words R) 0); [exact Ho|done|simpl; lia|lia|]. intros m2 Hm2 Ho2. simpl in Ho2.
  wps. eapply (wm_put_field (at_words R) 1); [exact Ho2|done|simpl; lia|lia|]. intros m3 Hm3 Ho3. simpl in Ho3.
  wps. eapply HQ; [exact Hm3|by eapply object_sub|by eapply object_cell|done].
Qed.

Lemma slot_spec w a bs i line (Q : Z -> mem H -> Prop) E m : buckets_at w a bs -> (i < length bs)%nat ->
  Q (a + 4 * Z.of_nat i) m -> wp (slot_at (tab_of a bs) (Z.of_nat i) line) Q E m.
Proof.
  intros [_ _ _ Hlo [Hn Hhi]] Hi HQ. unfold slot_at. destruct (lookup_lt_is_Some_2 bs i Hi) as [es Hes].
  assert (_check_fat_subscript (tab_of a bs) 4 (Z.of_nat i) hashtable_cyc line = Ret (a + 4 * Z.of_nat i)) as ->.
  { apply check_fat_subscript_Ret. unfold _tag_fat. simpl. destruct (a =? 0) eqn:E0; [lia|]. rewrite (u32_small (Z.of_nat (length bs))) by lia.
    rewrite !u32_small by lia. lia. }
  by wps.
Qed.

Lemma slot_unchecked_spec w a bs i : buckets_at w a bs -> (i < length bs)%nat -> slot_unchecked (tab_of a bs) (Z.of_nat i) = a + 4 * Z.of_nat i.
Proof. intros [_ _ _ Hlo [Hn Hhi]] Hi. unfold slot_unchecked, _tag_fat. simpl. apply u32_small. lia. Qed.

Lemma head_of w a bs i es : buckets_at w a bs -> bs !! i = Some es -> exists h, w !! (a + 4 * Z.of_nat i) = Some h /\ chain w h es.
Proof. intros [(hs & Har & Hc) _ _ _ _] Hi. destruct (Forall2_lookup_r _ _ _ _ _ Hc Hi) as (h & Hh & Hch). exists h. split; [by apply Har|done]. Qed.

Lemma push_binding_spec w a bs i es key val rd line m (Q : unit -> mem H -> Prop) : at_words R w m -> buckets_at w a bs -> bs !! i = Some es ->
  reads w rd Cyc_Core_heap_region ->
  (forall w' c p m', at_words R w' m' -> buckets_at w' a (<[i := ((c, p), (key, val)) :: es]> bs) -> only_at w (a + 4 * Z.of_nat i) w' ->
     absent w c -> absent w p -> Q tt m') ->
  wp (push_binding self rd (tab_of a bs) (Z.of_nat i) key val line) Q (oom R w) m.
Proof.
  intros Hm Hb Hi Hr HQ. unfold push_binding. pose proof (lookup_lt_Some _ _ _ Hi) as Hlt.
  wps. eapply wp_reads; [exact Hr|by eapply at_sub|]. wps. eapply wp_new_cell_words; [done|by left| |by intros; eapply oom_now].
  intros c m1 Hm1 Hfc. pose proof (object_start c 2 w Hfc) as Hoc. change (replicate 2 0) with [0; 0] in Hoc. pose proof (object_sub _ _ _ _ Hoc) as Hw1. set (w1 := zero_words c 2 w) in *.
  wps. eapply wp_reads; [exact Hr|by eapply at_sub|]. wps. eapply wp_mono; [eapply (new_pair_spec w1 key val m1 (fun p m2 => exists w2, at_words R w2 m2 /\ w1 ⊆ w2 /\ cell w2 p key val /\ fresh_words p 2 w1)); [done|eauto 10]| |intros e m'; by apply oom_mono].
  intros p m2 (w2 & Hm2 & Hw2 & Hp & Hfp). assert (Hww : w ⊆ w2) by (by etrans). pose proof (object_mono _ _ _ _ _ Hoc Hw2) as Ho2.
  wps. eapply (wm_put_field (at_words R) 0); [exact Ho2|done|simpl; lia|lia|]. intros m3 Hm3 Ho3. simpl in Ho3. set (w3 := <[c := p]> w2) in *.
  assert (Hb3 : buckets_at w3 a bs) by (eapply buckets_mono; [by eapply object_sub|done]).
  destruct (head_of _ _ _ _ _ Hb Hi) as (h & Hh & Hch).
  wps. eapply slot_spec; [exact Hb3|done|]. wps. eapply wp_load; [done|eapply lookup_weaken; [exact Hh|by eapply object_sub]|].
  wps. eapply (wm_put_field (at_words R) 1); [exact Ho3|done|simpl; lia|lia|]. intros m4 Hm4 Ho4. simpl in Ho4. set (w4 := <[c + 4 := h]> w3) in *.
  pose proof (object_sub _ _ _ _ Ho4) as Hw4. assert (Hb4 : buckets_at w4 a bs) by (by eapply buckets_mono).
  assert (Hc8 : c mod 8 = 0) by (by destruct Hfc as (_ & ? & _)).
  assert (Hcn : w !! c = None) by (eapply fresh_absent; [exact Hfc|lia|lia]).
  assert (Hpn1 : w1 !! p = None) by (eapply fresh_absent; [exact Hfp|lia|lia]).
  assert (Hpn : w !! p = None) by (by eapply lookup_weaken_None).
  assert (Hcp : c <> p) by (intros ->; pose proof (object_get _ _ _ _ 0 0 p Hoc eq_refl ltac:(lia)); congruence).
  assert (Hp4 : cell w4 p key val).
  { apply cell_frame; [apply cell_frame; [done|by rewrite unit_of_self]|]. by rewrite unit_of_aligned. }
  rewrite (slot_unchecked_spec w4) by done.
  eapply wp_store; [done|exists h; by eapply lookup_weaken|]. intros m5 Hm5. eapply HQ; [exact Hm5| | |by apply fresh_cell_absent|].
  3: { destruct (fresh_cell_absent _ _ Hfp) as [Hn1 Hn2]. split; [exact (lookup_weaken_None _ _ _ Hn1 Hw1)|exact (lookup_weaken_None _ _ _ Hn2 Hw1)]. }
  - apply (buckets_set _ _ _ _ es); [done|done| |].
    + split; [done|]. exists h. split_and!; [by eapply object_cell|done|by eapply chain_mono].
    + destruct (feet_insert bs i es (((c, p), (key, val)) :: es) Hi) as (l1 & l2 & E1 & E2). unfold owned. rewrite length_insert, E2. simpl.
      assert (Hperm : array_units a (length bs) ++ l1 ++ c :: p :: foot es ++ l2 ≡ₚ c :: p :: owned a bs).
      { unfold owned. rewrite E1. by rewrite <- !Permutation_middle. }
      rewrite Hperm. apply NoDup_cons. split; [|apply NoDup_cons; split; [|apply Hb]].
      * rewrite not_elem_of_cons. split; [done|]. intros Hin. destruct (owned_present _ _ _ _ Hb Hin) as [[v Hv] _]. congruence.
      * intros Hin. destruct (owned_present _ _ _ _ Hb Hin) as [[v Hv] _]. congruence.
  - intros x v Hx Hv. rewrite lookup_insert_ne by done. by eapply lookup_weaken.
Qed.

(** ** New arrays *)

Lemma new_buckets_spec w (k : nat) m (Q : fat_ptr -> mem H -> Prop) : at_words R w m -> 4 * Z.of_nat k < 4294967296 ->
  (forall a m', at_words R (zero_words a k w) m' -> buckets_at (zero_words a k w) a (replicate k []) -> fresh_words a k w ->
     Q (tab_of a (replicate k ([] : list entry))) m') ->
  wp (new_buckets self Cyc_Core_heap_region (Z.of_nat k)) Q (oom R w) m.
Proof.
  intros Hm Hk HQ. unfold new_buckets. wps. rewrite u32_small by lia. pose proof Hm as [(A & Hi & _) _].
  assert (Hc : wp (calloc_words self Cyc_Core_heap_region (Z.of_nat k))
    (fun a m' => at_words R (zero_words a k w) m' /\ fresh_words a k w /\ 4 * Z.of_nat k < INT_MAX) (oom R w) m).
  { unfold calloc_words. rewrite Nat2Z.id. unfold _region_calloc. change (_CYC_MAX_REGION_CONST <? Cyc_Core_heap_region) with false.
    change (negb (Cyc_Core_heap_region =? CYC_CORE_REFCNT_REGION)) with true.
    assert (Hu : u32 (4 * Z.of_nat k) = 4 * Z.of_nat k) by (apply u32_small; lia).
    destruct (bounded_calloc_cases m 4 (Z.of_nat k) this_file 558 (mi_ok _ _ Hi)) as [(m' & Hc & Hh)|(p & m' & Hc & Hp & Hf & Hlt)].
    - match goal with |- wp (mbind _ ?x) _ _ _ => set (c := x) end. assert (Hcm : c m = (Thrown Cyc_Bad_alloc this_file 558, m')) by (unfold c, mbind, st_bind; by rewrite Hc).
      assert (Ht : (p ← c; modify (zero_fill p k);; mret p) m = (Thrown Cyc_Bad_alloc this_file 558, m')).
      { unfold mbind at 1, st_bind at 1. by rewrite Hcm. }
      eapply wp_throws; [exact Ht|]. refine (wp_exception _ (fun _ _ => True) _ _ _ _ _ _ _ Ht).
      eapply wp_heap_words; [done|left; eauto|done|by intros; eapply oom_now].
    - rewrite Hu in Hf, Hlt. eapply wp_heap_words; [done|right; exists p, m', true; split; [|exact Hf]| |by intros; eapply oom_now].
      + unfold mbind, st_bind. rewrite Hc. by rewrite (proj2 (Z.eqb_neq _ _) Hp).
      + done. }
  eapply wp_conseq; [exact Hc|]. intros a m' (Hm' & Hf & Hlt). wps. pose proof Hf as (Ha & Ha8 & Hhi & _).
  assert (El : length (replicate k ([] : list entry)) = k) by apply length_replicate.
  replace (_tag_fat a 4 (Z.of_nat k)) with (tab_of a (replicate k ([] : list entry))) by (by rewrite El).
  apply HQ; [done| |done]. split; rewrite ?El; try done.
  - exists (replicate k 0). split; [apply zero_words_array|]. apply Forall2_same_length_lookup_2; [by rewrite !length_replicate|].
    intros i x es H1 H2. apply lookup_replicate in H1 as [-> _], H2 as [-> _]. done.
  - unfold owned, feet. rewrite El, fmap_replicate. simpl.
    assert (concat (replicate k ([] : list Z)) = []) as ->. { clear. induction k; simpl; done. }
    rewrite app_nil_r. apply NoDup_fmap_2; [intros x y; lia|]. apply NoDup_seq.
Qed.
End ops.

(** ** Buckets of bindings

    The bindings of a hash table without their places in memory: what a search
    finds, and that moving all bindings to another number of buckets changes
    nothing of it. *)

Section math.
Context (g : Z -> Z -> Z) `{!Comparison g} (h : Z -> Z) (Hh : forall x y, g x y = 0 -> h x = h y).
Abbreviation buckets := (list (list (Z * Z))).
Implicit Types (B : buckets) (l : list (Z * Z)).

Definition idx (n : nat) (k : Z) : nat := Z.to_nat (u32 (h k) mod Z.of_nat n).

(** The values bound to keys equal to [x], newest first. *)
Definition matches (x : Z) l : list Z := (filter (fun kv => g x kv.1 = 0) l).*2.
Definition found B (x : Z) : list Z := match B !! idx (length B) x with Some l => matches x l | None => [] end.

(** Every binding is in the bucket of its key. *)
Definition placed B : Prop := forall j l, B !! j = Some l -> Forall (fun kv => idx (length B) kv.1 = j) l.

Definition push B (kv : Z * Z) : buckets := alter (cons kv) (idx (length B) kv.1) B.
Definition push_all l B : buckets := foldr (fun kv B => push B kv) B l.
Definition rehash B (k : nat) : buckets := foldl (fun B' l => push_all l B') (replicate k []) B.

(** The newest binding of a key equal to [x] is dropped. *)
Fixpoint drop_match (x : Z) l : list (Z * Z) :=
  match l with [] => [] | kv :: l => if g x kv.1 =? 0 then l else kv :: drop_match x l end.
Definition remove B (x : Z) : buckets := alter (drop_match x) (idx (length B) x) B.

Lemma idx_lt n k : (0 < n)%nat -> (idx n k < n)%nat.
Proof. intros Hn. unfold idx. pose proof (Z.mod_pos_bound (u32 (h k)) (Z.of_nat n)). lia. Qed.

Lemma idx_same n x y : g x y = 0 -> idx n x = idx n y.
Proof. intros E. unfold idx. by rewrite (Hh x y E). Qed.

Lemma length_push B kv : length (push B kv) = length B.
Proof. apply length_alter. Qed.

Lemma length_push_all l B : length (push_all l B) = length B.
Proof. induction l as [|kv l IH]; simpl; [done|]. by rewrite length_push. Qed.

Lemma length_rehash B k : length (rehash B k) = k.
Proof.
  unfold rehash. assert (Hl : forall L, length (foldl (fun B' l => push_all l B') L B) = length L).
  { induction B as [|l B IH]; intros L; simpl; [done|]. rewrite IH. apply length_push_all. }
  rewrite Hl. apply length_replicate.
Qed.

Lemma matches_cons x kv l : matches x (kv :: l) = (if g x kv.1 =? 0 then [kv.2] else []) ++ matches x l.
Proof. unfold matches. rewrite filter_cons. destruct (decide (g x kv.1 = 0)), (g x kv.1 =? 0) eqn:E; try lia; done. Qed.

Lemma found_push B kv x : (0 < length B)%nat -> found (push B kv) x = (if g x kv.1 =? 0 then [kv.2] else []) ++ found B x.
Proof.
  intros Hl. unfold found. rewrite length_push. unfold push. destruct (lookup_lt_is_Some_2 B _ (idx_lt _ x Hl)) as [l Hx].
  destruct (decide (idx (length B) kv.1 = idx (length B) x)) as [E|E].
  - rewrite E, list_lookup_alter_eq, Hx. simpl. apply matches_cons.
  - rewrite list_lookup_alter_ne, Hx by done. destruct (g x kv.1 =? 0) eqn:Eg; [|done]. exfalso. apply E. symmetry. apply idx_same. lia.
Qed.

Lemma found_push_all l B x : (0 < length B)%nat -> found (push_all l B) x = matches x l ++ found B x.
Proof.
  intros Hl. induction l as [|kv l IH]; simpl; [done|]. rewrite found_push by (by rewrite length_push_all). rewrite IH, matches_cons. by rewrite app_assoc.
Qed.

Lemma placed_push B kv : placed B -> placed (push B kv).
Proof.
  intros Hp j l. rewrite length_push. unfold push. destruct (decide (idx (length B) kv.1 = j)) as [<-|E].
  - rewrite list_lookup_alter_eq. destruct (B !! _) as [l0|] eqn:Hj; [|done]. intros [= <-]. constructor; [done|]. by apply Hp.
  - rewrite list_lookup_alter_ne by done. apply Hp.
Qed.

Lemma placed_push_all l B : placed B -> placed (push_all l B).
Proof. intros Hp. induction l as [|kv l IH]; simpl; [done|]. by apply placed_push. Qed.

Lemma placed_empty k : placed (replicate k []).
Proof. intros j l [-> _]%lookup_replicate. constructor. Qed.

Lemma placed_rehash B k : placed (rehash B k).
Proof.
  unfold rehash. generalize (placed_empty k). generalize (replicate k ([] : list (Z * Z))).
  induction B as [|l B IH]; intros L HL; simpl; [done|]. by apply IH, placed_push_all.
Qed.

Lemma concat_nils {A} (L : list (list A)) : Forall (fun u => u = []) L -> concat L = [].
Proof. induction 1 as [|u L -> _ IH]; simpl; done. Qed.

(** Of lists of which all but one are empty that one is left. *)
Lemma concat_one {A} (L : list (list A)) i (u : list A) : L !! i = Some u -> (forall j u', j <> i -> L !! j = Some u' -> u' = []) -> concat (reverse L) = u.
Proof.
  intros Hi Ho. rewrite <- (take_drop_middle L i u Hi), reverse_app, reverse_cons, !concat_app. simpl.
  pose proof (lookup_lt_Some _ _ _ Hi) as Hlt. rewrite (concat_nils (reverse (take i L))), (concat_nils (reverse (drop (S i) L))); [simpl; by rewrite !app_nil_r|..].
  - apply Forall_reverse, Forall_lookup_2. intros j u' Hj. rewrite lookup_drop in Hj. apply (Ho (S i + j)%nat); [lia|done].
  - apply Forall_reverse, Forall_lookup_2. intros j u' Hj. apply (Ho j); [|by apply lookup_take_Some in Hj as [? _]].
    apply lookup_take_Some in Hj as [_ ?]. lia.
Qed.

Lemma matches_none x l : Forall (fun kv => g x kv.1 <> 0) l -> matches x l = [].
Proof. induction 1 as [|kv l Hkv Hl IH]; [done|]. rewrite matches_cons, IH. destruct (g x kv.1 =? 0) eqn:E; [lia|done]. Qed.

Lemma eq_key_trans x y z : g x y = 0 -> g y z = 0 -> g x z = 0.
Proof.
  intros H1 H2. pose proof (cmp_trans (g:=g) x y z ltac:(lia) ltac:(lia)). apply cmp_sym in H1, H2; try done.
  pose proof (cmp_trans (g:=g) z y x ltac:(lia) ltac:(lia)). pose proof (cmp_opp (g:=g) x z). lia.
Qed.

(** Rehashing keeps what is found. *)
Lemma found_rehash B k x : placed B -> (0 < length B)%nat -> (0 < k)%nat -> found (rehash B k) x = found B x.
Proof.
  intros Hp Hl Hk. unfold rehash.
  assert (Hf : forall Bs L, (0 < length L)%nat ->
    found (foldl (fun B' l => push_all l B') L Bs) x = concat (reverse (matches x <$> Bs)) ++ found L x).
  { intros Bs. induction Bs as [|l Bs IH]; intros L HL; simpl; [done|].
    rewrite IH by (by rewrite length_push_all). rewrite found_push_all by done. rewrite reverse_cons, concat_app. simpl. by rewrite app_nil_r, <- app_assoc. }
  rewrite Hf by (by rewrite length_replicate). destruct (lookup_lt_is_Some_2 B _ (idx_lt _ x Hl)) as [l Hx].
  rewrite (concat_one _ (idx (length B) x) (matches x l)).
  - unfold found at 1. rewrite length_replicate, lookup_replicate_2 by (by apply idx_lt). unfold matches at 2. simpl. rewrite app_nil_r.
    unfold found. by rewrite Hx.
  - by rewrite list_lookup_fmap, Hx.
  - intros j l' Hne Hj. rewrite list_lookup_fmap in Hj. destruct (B !! j) as [lj|] eqn:Ej; [|done]. injection Hj as <-.
    apply (matches_none x lj). eapply Forall_impl; [by apply Hp|]. intros kv Hkv E. apply Hne. rewrite <- Hkv. symmetry. by apply idx_same.
Qed.

(** All bindings, bucket after bucket. *)
Lemma found_concat B x : placed B -> (0 < length B)%nat -> matches x (concat B) = found B x.
Proof.
  intros Hp Hl. assert (Hm : forall l1 l2, matches x (l1 ++ l2) = matches x l1 ++ matches x l2).
  { intros l1 l2. unfold matches. by rewrite filter_app, fmap_app. }
  assert (Hn : forall Bs, Forall (fun l => matches x l = []) Bs -> matches x (concat Bs) = []).
  { induction 1 as [|l Bs E _ IH]; [done|]. simpl. by rewrite Hm, E, IH. }
  destruct (lookup_lt_is_Some_2 B _ (idx_lt _ x Hl)) as [l Hx]. unfold found. rewrite Hx. pose proof (lookup_lt_Some _ _ _ Hx) as Hlt.
  assert (Ho : forall j l', j <> idx (length B) x -> B !! j = Some l' -> matches x l' = []).
  { intros j l' Hne Hj. apply matches_none. eapply Forall_impl; [by apply Hp|]. intros kv Hkv E. apply Hne. rewrite <- Hkv. symmetry. by apply idx_same. }
  rewrite <- (take_drop_middle B _ l Hx) at 1. rewrite concat_app, Hm. simpl. rewrite Hm, !Hn; [simpl; by rewrite app_nil_r|..].
  - apply Forall_lookup_2. intros j l' Hj. rewrite lookup_drop in Hj. eapply Ho; [|exact Hj]. lia.
  - apply Forall_lookup_2. intros j l' [Hj Hj']%lookup_take_Some. eapply Ho; [|exact Hj]. lia.
Qed.

(** ** Removal *)

Lemma drop_match_other x y l : g y x <> 0 -> matches y (drop_match x l) = matches y l.
Proof.
  intros Hyx. induction l as [|kv l IH]; [done|]. simpl drop_match. destruct (g x kv.1 =? 0) eqn:E.
  - rewrite matches_cons. destruct (g y kv.1 =? 0) eqn:Ey; [|done]. exfalso. apply Hyx. apply (eq_key_trans y kv.1 x); [lia|]. apply cmp_sym; [done|lia].
  - rewrite !matches_cons. by rewrite IH.
Qed.

Lemma drop_match_same x y l : g y x = 0 -> matches y (drop_match x l) = tail (matches y l).
Proof.
  intros Hyx. induction l as [|kv l IH]; [done|]. simpl drop_match. rewrite matches_cons. destruct (g x kv.1 =? 0) eqn:E.
  - destruct (g y kv.1 =? 0) eqn:Ey; [done|]. exfalso. apply Z.eqb_neq in Ey. apply Ey. apply (eq_key_trans y x kv.1); [done|lia].
  - rewrite matches_cons, IH. destruct (g y kv.1 =? 0) eqn:Ey; [|done]. exfalso. apply Z.eqb_neq in E. apply E.
    apply (eq_key_trans x y kv.1); [by apply cmp_sym|lia].
Qed.

Lemma found_remove B x y : (0 < length B)%nat -> found (remove B x) y = if g y x =? 0 then tail (found B y) else found B y.
Proof.
  intros Hl. unfold found, remove. rewrite length_alter. destruct (lookup_lt_is_Some_2 B _ (idx_lt _ y Hl)) as [l Hy].
  destruct (g y x =? 0) eqn:E.
  - rewrite (idx_same _ y x) in Hy |- * by lia. rewrite list_lookup_alter_eq, Hy. simpl. apply drop_match_same. lia.
  - destruct (decide (idx (length B) x = idx (length B) y)) as [Ei|Ei].
    + rewrite Ei, list_lookup_alter_eq, Hy. simpl. apply drop_match_other. lia.
    + by rewrite list_lookup_alter_ne.
Qed.

Lemma drop_match_Forall (P : Z * Z -> Prop) x l : Forall P l -> Forall P (drop_match x l).
Proof. induction 1 as [|kv l Hkv Hl IH]; simpl; [constructor|]. destruct (g x kv.1 =? 0); [done|by constructor]. Qed.

Lemma placed_remove B x : placed B -> placed (remove B x).
Proof.
  intros Hp j l. unfold remove. rewrite length_alter. destruct (decide (idx (length B) x = j)) as [<-|E].
  - rewrite list_lookup_alter_eq. destruct (B !! _) as [l0|] eqn:Hj; [|done]. intros [= <-]. by apply drop_match_Forall, Hp.
  - rewrite list_lookup_alter_ne by done. apply Hp.
Qed.
End math.
