(* ===== verification/HtableOps.v ===== *)
(** * The operations of hash tables *)

From S2P Require Import Prelude Alloc RwLock Region RegionSafety DynRegion Words CycList ListCells WordMem FatPtr CycListSpec ListConv CycSetSpec SplaySpec CycBytes CycXP CycHashtable HtableSpec.

Definition bindings (bs : list (list entry)) : list (list (Z * Z)) := (fun es => es.*2) <$> bs.

Lemma length_bindings bs : length (bindings bs) = length bs.
Proof. apply length_fmap. Qed.

Lemma bindings_lookup bs i es : bs !! i = Some es -> bindings bs !! i = Some es.*2.
Proof. intros Hi. unfold bindings. by rewrite list_lookup_fmap, Hi. Qed.

Lemma bindings_alter bs i es es' f : bs !! i = Some es -> es'.*2 = f es.*2 -> bindings (<[i := es']> bs) = alter f i (bindings bs).
Proof.
  intros Hi Hf. unfold bindings. rewrite list_fmap_insert. apply list_eq. intros j. pose proof (lookup_lt_Some _ _ _ Hi) as Hlt.
  destruct (decide (i = j)) as [<-|Hne].
  - rewrite list_lookup_alter_eq, list_lookup_insert_eq by (by rewrite length_fmap). rewrite list_lookup_fmap, Hi. simpl. by rewrite Hf.
  - by rewrite list_lookup_insert_ne, list_lookup_alter_ne.
Qed.

Lemma bindings_empty k : bindings (replicate k []) = replicate k [].
Proof. unfold bindings. by rewrite fmap_replicate. Qed.

Section ops.
Context {H : Type} `{HH : Heap H} `{!HeapLaws H} (self : Z) (R : gset Z).
Context (call : Z -> Z -> Z -> ST (mem H) Z) (call1 : Z -> Z -> ST (mem H) Z) (cmpf hashf : Z).
Context (g : Z -> Z -> Z) `{!Comparison g} (h : Z -> Z).
Context (Hcmp : pure2 (call cmpf) g) (Hhash : pure1 (call1 hashf) h) (Hh : forall x y, g x y = 0 -> h x = h y).
(** Words that are none of the table's. *)
Context (F : gmap Z Z).
Implicit Types (m : mem H) (w : gmap Z Z).

(** ** Tables in memory *)

Definition fields (mx : Z) (tab : fat_ptr) : list Z := [Cyc_Core_heap_region; cmpf; hashf; mx; curr tab; base tab; last_plus_one tab].

Record beside w (t a : Z) (bs : list (list entry)) : Prop := {
  bd_sub : F ⊆ w;
  bd_fields : forall i, (i < 7)%nat -> F !! (t + 4 * Z.of_nat i) = None;
  bd_array : forall i, (i < length bs)%nat -> F !! (a + 4 * Z.of_nat i) = None;
  bd_cells : forall p, p ∈ feet bs -> absent F p
}.

Record table_mem w (t mx a : Z) (bs : list (list entry)) : Prop := {
  tm_aligned : t mod 8 = 0;
  tm_fields : array_at w t (fields mx (tab_of a bs));
  tm_buckets : buckets_at w a bs;
  tm_apart : forall x, x ∈ units t 4 -> x ∉ owned a bs;
  tm_size : (0 < length bs)%nat;
  tm_placed : placed h (bindings bs);
  tm_beside : beside w t a bs
}.

(** The table has the values [X x] for keys equal to [x], newest first. *)
Definition htable w (t : Z) (X : Z -> list Z) : Prop := exists mx a bs, table_mem w t mx a bs /\ forall x, found g h (bindings bs) x = X x.

Lemma field w t mx a bs i v : table_mem w t mx a bs -> fields mx (tab_of a bs) !! i = Some v -> w !! (t + 4 * Z.of_nat i) = Some v.
Proof. intros Ht. apply Ht. Qed.

Lemma wp_ht_tab w t mx a bs (Q : fat_ptr -> mem H -> Prop) E m : at_words R w m -> table_mem w t mx a bs -> Q (tab_of a bs) m -> wp (ht_tab t) Q E m.
Proof.
  intros Hm Ht HQ. unfold ht_tab. wps. eapply wp_load; [done|exact (field _ _ _ _ _ 4 _ Ht eq_refl)|].
  wps. eapply wp_load; [done|exact (field _ _ _ _ _ 5 _ Ht eq_refl)|].
  wps. eapply wp_load; [done|exact (field _ _ _ _ _ 6 _ Ht eq_refl)|]. wps. by destruct (tab_of a bs).
Qed.

Lemma wp_ht_hash w t mx a bs (Q : Z -> mem H -> Prop) E m : at_words R w m -> table_mem w t mx a bs -> Q hashf m -> wp (ht_hash t) Q E m.
Proof. intros Hm Ht. eapply wp_load; [done|exact (field _ _ _ _ _ 2 _ Ht eq_refl)]. Qed.

Lemma wp_ht_cmp w t mx a bs (Q : Z -> mem H -> Prop) E m : at_words R w m -> table_mem w t mx a bs -> Q cmpf m -> wp (ht_cmp t) Q E m.
Proof. intros Hm Ht. eapply wp_load; [done|exact (field _ _ _ _ _ 1 _ Ht eq_refl)]. Qed.

Lemma ht_r_reads w t mx a bs : table_mem w t mx a bs -> reads w (ht_r t) Cyc_Core_heap_region.
Proof. intros Ht. apply reads_word. rewrite <- (field _ _ _ _ _ 0 _ Ht eq_refl). f_equal. lia. Qed.

(** Writing a word outside of the header. *)
Lemma fields_frame w t l x u : array_at w t l -> t mod 8 = 0 -> (length l <= 8)%nat -> unit_of x ∉ units t 4 -> array_at (<[x := u]> w) t l.
Proof.
  intros Ha Ht Hl Hx i v Hi. rewrite lookup_insert_ne; [by apply Ha|]. intros ->. apply Hx, elem_of_units; [done|]. apply lookup_lt_Some in Hi. lia.
Qed.

Lemma fields_only w t l y w' : array_at w t l -> t mod 8 = 0 -> (length l <= 8)%nat -> unit_of y ∉ units t 4 -> only_at w y w' -> array_at w' t l.
Proof.
  intros Ha Ht Hl Hy Ho i v Hi. apply Ho; [|by apply Ha]. intros <-. apply Hy, elem_of_units; [done|]. apply lookup_lt_Some in Hi. lia.
Qed.

Lemma get_size w a bs : buckets_at w a bs -> _get_fat_size (tab_of a bs) 4 = Z.of_nat (length bs).
Proof. intros [_ _ _ Hlo [Hn Hhi]]. rewrite get_fat_size_tag by (unfold INT_MAX in Hn; lia). done. Qed.

Lemma bucket_of_spec w a bs key (Q : Z -> mem H -> Prop) E m : buckets_at w a bs -> (0 < length bs)%nat ->
  Q (Z.of_nat (idx h (length bs) key)) m -> wp (bucket_of call1 hashf (tab_of a bs) key) Q E m.
Proof.
  intros Hb Hl HQ. unfold bucket_of. wps. eapply wp_pure1; [exact Hhash|]. rewrite (get_size _ _ _ Hb).
  destruct (Z.of_nat (length bs) =? 0) eqn:E0; [lia|]. wps. unfold idx in HQ. pose proof (Z.mod_pos_bound (u32 (h key)) (Z.of_nat (length bs)) ltac:(lia)).
  rewrite Z2Nat.id in HQ by lia. destruct Hb as [_ _ _ _ [Hn _]]. unfold INT_MAX in Hn. by rewrite i32_small by lia.
Qed.

Lemma table_absent_mono w w' p : w ⊆ w' -> absent w' p -> absent w p.
Proof. intros Hw [? ?]. split; by eapply lookup_weaken_None. Qed.

Lemma beside_mono w w' t a bs : w ⊆ w' -> beside w t a bs -> beside w' t a bs.
Proof. intros Hw [? ? ? ?]. split; try done. by etrans. Qed.

(** A write to a word that is not in [F]. *)
Lemma beside_write w t a bs x u : beside w t a bs -> F !! x = None -> beside (<[x := u]> w) t a bs.
Proof. intros [? ? ? ?] Hx. split; try done. by apply insert_subseteq_r. Qed.

(** ** Rehashing *)

(** The new array and its chains are apart from what was there at [w0]. *)
Record rebuilt w0 (na : Z) (B : list (list (Z * Z))) w (nbs : list (list entry)) : Prop := {
  rb_sub : w0 ⊆ w;
  rb_at : buckets_at w na nbs;
  rb_binds : bindings nbs = B;
  rb_new : forall x, x ∈ owned na nbs -> w0 !! x = None;
  rb_cells : forall p, p ∈ feet nbs -> absent w0 p;
  rb_array : forall i, (i < length nbs)%nat -> w0 !! (na + 4 * Z.of_nat i) = None
}.

Lemma insert_bucket_spec w0 na es : forall fuel x B w nbs m, (length es < fuel)%nat -> at_words R w m -> chain w0 x es -> rebuilt w0 na B w nbs ->
  (0 < length nbs)%nat ->
  wp (insert_bucket_rec self call1 fuel Cyc_Core_heap_region (tab_of na nbs) hashf x)
    (fun _ m' => exists w' nbs', at_words R w' m' /\ length nbs' = length nbs /\ rebuilt w0 na (push_all h es.*2 B) w' nbs') (oom R w0) m.
Proof.
  induction es as [|[[p q] [k v]] es IH]; intros [|fuel] x B w nbs m Hf Hm Hc Hr Hl; simpl in Hf; try lia; simpl insert_bucket_rec.
  { simpl in Hc. subst x. rewrite is_null_0. wps. exists w, nbs. done. }
  destruct Hc as (-> & n & Hp & Hq & Hc). pose proof Hp as (Hp0 & _). rewrite is_null_ne by done. pose proof (rb_sub _ _ _ _ _ Hr) as Hw.
  wps. eapply wp_get_tl; [done|by eapply cell_mono|].
  wps. eapply wp_conseq; [by apply (IH fuel n B w nbs m ltac:(lia))|]. intros [] m1 (w1 & nbs1 & Hm1 & El1 & Hr1). pose proof (rb_sub _ _ _ _ _ Hr1) as Hw1.
  wps. eapply wp_get_hd; [done|by eapply cell_mono|]. wps. eapply wp_get_hd; [done|by eapply cell_mono|].
  wps. eapply wp_get_hd; [done|by eapply cell_mono|]. wps. eapply wp_get_tl; [done|by eapply cell_mono|].
  replace (tab_of na nbs) with (tab_of na nbs1) by (by rewrite El1).
  wps. eapply bucket_of_spec; [apply Hr1|lia|].
  set (i := idx h (length nbs1) k). assert (Hi : (i < length nbs1)%nat) by (apply idx_lt; lia).
  destruct (lookup_lt_is_Some_2 nbs1 i Hi) as [l Hli].
  apply (wp_mono _ (fun _ m' => exists w' nbs', at_words R w' m' /\ length nbs' = length nbs /\ rebuilt w0 na (push_all h ((k, v) :: es.*2) B) w' nbs') _ (oom R w1) (oom R w0));
    [|done|intros e m'; by apply oom_mono].
  eapply push_binding_spec; [done|apply Hr1|exact Hli|apply reads_ret|].
  intros w2 c p2 m2 Hm2 Hb2 Ho Hcn Hpn. exists w2, (<[i := ((c, p2), (k, v)) :: l]> nbs1). rewrite length_insert. split; [done|]. split; [done|].
  split.
  - apply map_subseteq_spec. intros y u Hy. apply Ho; [|by eapply lookup_weaken]. intros ->. by rewrite (rb_array _ _ _ _ _ Hr1) in Hy.
  - done.
  - rewrite (bindings_alter _ _ l _ (cons (k, v))) by done. simpl. unfold push. rewrite <- (rb_binds _ _ _ _ _ Hr1). simpl. by rewrite length_bindings.
  - intros y Hy. unfold owned in Hy. rewrite length_insert in Hy.
    destruct (feet_insert nbs1 i l (((c, p2), (k, v)) :: l) Hli) as (l1 & l2 & E1 & E2). rewrite E2 in Hy. simpl in Hy.
    assert (Hcases : y = c \/ y = p2 \/ y ∈ owned na nbs1).
    { unfold owned. rewrite E1. rewrite !elem_of_app, !elem_of_cons, elem_of_app in Hy. rewrite !elem_of_app. tauto. }
    destruct Hcases as [->|[->|Hin]]; [by eapply lookup_weaken_None; [apply Hcn|]|by eapply lookup_weaken_None; [apply Hpn|]|by eapply rb_new].
  - intros y Hy. destruct (feet_insert nbs1 i l (((c, p2), (k, v)) :: l) Hli) as (l1 & l2 & E1 & E2). rewrite E2 in Hy. simpl in Hy.
    assert (Hcases : y = c \/ y = p2 \/ y ∈ feet nbs1). { rewrite E1. rewrite !elem_of_app, !elem_of_cons, elem_of_app in Hy. rewrite !elem_of_app. tauto. }
    destruct Hcases as [->|[->|Hin]]; [by eapply table_absent_mono|by eapply table_absent_mono|by eapply rb_cells].
  - intros j Hj. rewrite length_insert in Hj. by eapply rb_array.
Qed.

Lemma array_put w t l i v : array_at w t l -> array_at (<[t + 4 * Z.of_nat i := v]> w) t (<[i := v]> l).
Proof.
  intros Ha j u Hj. apply list_lookup_insert_Some in Hj as [(<- & <- & _)|[Hne Hj]]; [apply lookup_insert_eq|]. rewrite lookup_insert_ne by lia. by apply Ha.
Qed.

(** A write to the header. *)
Lemma wp_put_field w t l a bs i x v (Q : unit -> mem H -> Prop) E m : at_words R w m -> t mod 8 = 0 -> array_at w t l -> length l = 7%nat ->
  buckets_at w a bs -> (forall x, x ∈ units t 4 -> x ∉ owned a bs) -> beside w t a bs -> (i < 7)%nat -> x = t + 4 * Z.of_nat i ->
  (forall w' m', at_words R w' m' -> array_at w' t (<[i := v]> l) -> buckets_at w' a bs -> beside w' t a bs -> Q tt m') -> wp (store_word x v) Q E m.
Proof.
  intros Hm Ht Hl Hlen Hb Hd Hbd Hi -> HQ. eapply wp_store; [done| |].
  { destruct (lookup_lt_is_Some_2 l i ltac:(lia)) as [u Hu]. exists u. by apply Hl. }
  intros m' Hm'. eapply HQ; [exact Hm'|by apply array_put| |by apply beside_write; [|apply Hbd]].
  apply buckets_frame; [done|]. apply Hd, elem_of_units; [done|lia].
Qed.

Lemma table_mono w w' t mx a bs : w ⊆ w' -> table_mem w t mx a bs -> table_mem w' t mx a bs.
Proof.
  intros Hw [? Hf Hb ? ? ? ?]. split; try done; [|by eapply buckets_mono|by eapply beside_mono]. intros j v Hj. eapply lookup_weaken; [by apply Hf|done].
Qed.

Lemma htable_mono w w' t X : w ⊆ w' -> htable w t X -> htable w' t X.
Proof. intros Hw (mx & a & bs & Ht & HX). exists mx, a, bs. split; [by eapply table_mono|done]. Qed.

Lemma header_present w t mx a bs x : table_mem w t mx a bs -> x ∈ units t 4 -> is_Some (w !! x).
Proof.
  intros Ht Hx. unfold units in Hx. apply list_elem_of_fmap in Hx as (i & -> & Hi%elem_of_seq).
  destruct (lookup_lt_is_Some_2 (fields mx (tab_of a bs)) (2 * i)%nat) as [v Hv]; [simpl; lia|]. exists v.
  replace (t + 8 * Z.of_nat i) with (t + 4 * Z.of_nat (2 * i)) by lia. by eapply field.
Qed.

Lemma rebuilt_start w k a : fresh_words a k w -> buckets_at (zero_words a k w) a (replicate k []) ->
  rebuilt w a (replicate k []) (zero_words a k w) (replicate k []).
Proof.
  assert (Hfeet : feet (replicate k []) = []).
  { unfold feet. rewrite fmap_replicate. apply concat_nils. by apply Forall_replicate. }
  intros Hf Hb. split; [by apply zero_words_sub|done|apply bindings_empty| |by rewrite Hfeet; intros p Hp; apply not_elem_of_nil in Hp|].
  - intros x Hx. unfold owned in Hx. rewrite length_replicate, Hfeet in Hx. apply elem_of_app in Hx as [Hx|Hx].
    + unfold array_units, units in Hx. apply list_elem_of_fmap in Hx as (i & -> & Hi%elem_of_seq). rewrite Nat.div2_div in Hi.
      pose proof (Nat.div_mod_eq (S k) 2). eapply fresh_absent; [exact Hf|lia|lia].
    + by apply not_elem_of_nil in Hx.
  - intros i Hi. rewrite length_replicate in Hi. eapply fresh_absent; [exact Hf|lia|lia].
Qed.

(** Every bucket goes to the new array. *)
Lemma rehash_loop_spec w t mx a bs k na m : at_words R (zero_words na k w) m -> table_mem w t mx a bs -> fresh_words na k w ->
  buckets_at (zero_words na k w) na (replicate k []) -> (0 < k)%nat -> 
  wp (loop (S (length bs)) (fun i =>
        if i <? Z.of_nat (length bs) then
          r ← ht_r t; f ← ht_hash t;
          x' ← slot_at (tab_of a bs) i 144; x ← get_word x';
          Cyc_Hashtable_insert_bucket self call1 r (tab_of na (replicate k ([] : list entry))) f x;; mret (inl (i + 1))
        else mret (inr tt)) 0)
    (fun _ m' => exists w' nbs, at_words R w' m' /\ length nbs = k /\ rebuilt w na (rehash h (bindings bs) k) w' nbs) (oom R w) m.
Proof.
  intros Hm Ht Hf Hb Hk. pose proof (tm_buckets _ _ _ _ _ Ht) as Hba.
  apply (wp_loop _ (fun n i m' => exists j w' nbs, n = (length bs - j)%nat /\ i = Z.of_nat j /\ (j <= length bs)%nat /\ at_words R w' m' /\
    length nbs = k /\ rebuilt w na (rehash h (take j (bindings bs)) k) w' nbs)) with (length bs).
  - clear Hm m. intros n i m (j & w1 & nbs & -> & -> & Hj & Hm & Hl & Hr). pose proof (rb_sub _ _ _ _ _ Hr) as Hw1.
    destruct (Z.of_nat j <? Z.of_nat (length bs)) eqn:Ej; cycle 1.
    { wps. exists w1, nbs. assert (j = length bs) as -> by lia. rewrite take_ge in Hr by (by rewrite length_bindings). done. }
    assert (Hlt : (j < length bs)%nat) by lia. destruct (lookup_lt_is_Some_2 bs j Hlt) as [es Hes].
    destruct (head_of _ _ _ _ _ Hba Hes) as (x & Hx & Hch).
    wps. eapply wp_reads; [by eapply ht_r_reads|by eapply at_sub|]. wps. eapply wp_ht_hash; [exact Hm|by eapply table_mono|].
    wps. eapply slot_spec; [exact Hba|done|]. wps. eapply wp_load; [done|by eapply lookup_weaken|].
    replace (tab_of na (replicate k ([] : list entry))) with (tab_of na nbs) by (by rewrite Hl, length_replicate).
    wps. unfold Cyc_Hashtable_insert_bucket. eapply wp_with_fuel; [exact Hm|].
    eapply wp_conseq; [eapply (insert_bucket_spec w na es _ x _ w1 nbs m); [|done|done|exact Hr|lia]|].
    { pose proof (chain_size _ _ _ Hch). pose proof (map_subseteq_size _ _ Hw1). lia. }
    intros [] m2 (w2 & nbs2 & Hm2 & El2 & Hr2). wps. exists (length bs - S j)%nat. split; [lia|].
    exists (S j), w2, nbs2. split_and!; [done|lia|lia|done|congruence|].
    rewrite (take_S_r _ _ es.*2) by (by apply bindings_lookup). unfold rehash in *. by rewrite foldl_app.
  - exists 0%nat, (zero_words na k w), (replicate k []). split_and!; [lia|done|lia|done|apply length_replicate|].
    by apply rebuilt_start.
  - lia.
Qed.

Lemma resize_spec w t X m : at_words R w m -> htable w t X ->
  wp (Cyc_Hashtable_resize self call1 t) (fun _ m' => exists w', at_words R w' m' /\ htable w' t X) (oom R w) m.
Proof.
  intros Hm (mx & a & bs & Ht & HX). pose proof (tm_buckets _ _ _ _ _ Ht) as Hb. pose proof (ba_high _ _ _ Hb) as [Hn _]. unfold INT_MAX in Hn.
  pose proof (tm_size _ _ _ _ _ Ht) as Hs. unfold Cyc_Hashtable_resize. wps. eapply wp_ht_tab; [done|done|]. rewrite (get_size _ _ _ Hb).
  rewrite (i32_small (Z.of_nat (length bs))) by lia. rewrite (i32_small (2 * _ + 1)) by lia.
  set (k := S (2 * length bs)). replace (2 * Z.of_nat (length bs) + 1) with (Z.of_nat k) by lia. rewrite Nat2Z.id.
  wps. eapply wp_reads; [by eapply ht_r_reads|by eapply at_sub|]. wps. eapply new_buckets_spec; [done|lia|]. intros na m1 Hm1 Hnb Hf.
  wps. eapply wp_conseq; [eapply (rehash_loop_spec w t mx a bs k na m1); [done|done|done|done|lia]|].
  intros [] m2 (w2 & nbs & Hm2 & El & Hr). pose proof (rb_sub _ _ _ _ _ Hr) as Hw2.
  assert (Hap : forall x, x ∈ units t 4 -> x ∉ owned na nbs).
  { intros x Hx Hin. destruct (header_present _ _ _ _ _ _ Ht Hx) as [u Hu]. by rewrite (rb_new _ _ _ _ _ Hr x Hin) in Hu. }
  replace (tab_of na (replicate k ([] : list entry))) with (tab_of na nbs) by (by rewrite El, length_replicate).
  pose proof (table_mono _ _ _ _ _ _ Hw2 Ht) as Ht2. pose proof (tm_aligned _ _ _ _ _ Ht) as Ht8.
  assert (Hbd : beside w2 t na nbs).
  { pose proof (tm_beside _ _ _ _ _ Ht) as [Hfw Hff _ _]. split; [by etrans|done| |].
    - intros i Hi. eapply lookup_weaken_None; [by eapply rb_array|done].
    - intros p Hp. eapply table_absent_mono; [exact Hfw|by eapply rb_cells]. }
  unfold set_tab. wps. eapply (wp_put_field w2 t _ na nbs 4); [done|done|apply Ht2|done|apply Hr|done|done|lia|lia|]. intros w3 m3 Hm3 Hf3 Hb3 Hd3.
  wps. eapply (wp_put_field w3 t _ na nbs 5); [done|done|exact Hf3|done|done|done|done|lia|lia|]. intros w4 m4 Hm4 Hf4 Hb4 Hd4.
  wps. eapply (wp_put_field w4 t _ na nbs 6); [done|done|exact Hf4|done|done|done|done|lia|lia|]. intros w5 m5 Hm5 Hf5 Hb5 Hd5. simpl in Hf5.
  wps. eapply wp_load; [done|exact (Hf5 3%nat _ eq_refl)|].
  eapply (wp_put_field w5 t _ na nbs 3); [done|done|exact Hf5|done|done|done|done|lia|lia|]. intros w6 m6 Hm6 Hf6 Hb6 Hd6. simpl in Hf6.
  exists w6. split; [done|]. exists (i32 (2 * mx)), na, nbs. pose proof (rb_binds _ _ _ _ _ Hr) as Eb. split.
  - split; [done|exact Hf6|done|done|lia| |done]. rewrite Eb. apply placed_rehash.
  - intros x. rewrite Eb, (found_rehash g h Hh); [apply HX|apply Ht|by rewrite length_bindings|lia].
Qed.

(** ** Insertion *)

Lemma table_rebuild w w' t mx a bs bs' : table_mem w t mx a bs -> array_at w' t (fields mx (tab_of a bs)) -> buckets_at w' a bs' -> length bs' = length bs ->
  (forall x, x ∈ owned a bs' -> x ∈ owned a bs \/ w !! x = None) -> (forall p, p ∈ feet bs' -> p ∈ feet bs \/ absent w p) -> F ⊆ w' ->
  placed h (bindings bs') -> table_mem w' t mx a bs'.
Proof.
  intros Ht Hf Hb Hl Ho Hc HF Hp. pose proof (tm_beside _ _ _ _ _ Ht) as [Hfw Hff Hfa Hfc]. split; [apply Ht|by rewrite Hl|done| |rewrite Hl; apply Ht|done|].
  2: { split; [done|done|by rewrite Hl|]. intros p Hin. destruct (Hc p Hin) as [Hin'|Hn]; [by apply Hfc|by eapply table_absent_mono]. }
  intros x Hx Hin. destruct (Ho x Hin) as [Hin'|Hn]; [by apply (tm_apart _ _ _ _ _ Ht x)|]. destruct (header_present _ _ _ _ _ _ Ht Hx) as [u Hu]. congruence.
Qed.

Lemma slot_not_header w t mx a bs i : table_mem w t mx a bs -> (i < length bs)%nat -> unit_of (a + 4 * Z.of_nat i) ∉ units t 4.
Proof.
  intros Ht Hi Hin. apply (tm_apart _ _ _ _ _ Ht _ Hin). unfold owned. apply elem_of_app. left. apply in_array; [|done]. apply (tm_buckets _ _ _ _ _ Ht).
Qed.

(** The abstract effect of an insertion. *)
Definition bind_key (X : Z -> list Z) (key val : Z) : Z -> list Z := fun x => if g x key =? 0 then val :: X x else X x.

(** Out of memory: the table is as it was or has the new binding. *)
Definition half_done (t : Z) (X X' : Z -> list Z) (e : exn) m : Prop :=
  e = Cyc_Bad_alloc /\ exists w, at_words R w m /\ (htable w t X \/ htable w t X').

Lemma push_table_spec w t mx a bs key val m (Q : unit -> mem H -> Prop) E : at_words R w m -> table_mem w t mx a bs ->
  (forall e m', oom R w e m' -> E e m') ->
  (forall w' c p es m', at_words R w' m' -> bs !! idx h (length bs) key = Some es ->
     table_mem w' t mx a (<[idx h (length bs) key := ((c, p), (key, val)) :: es]> bs) -> Q tt m') ->
  wp (push_binding self (ht_r t) (tab_of a bs) (Z.of_nat (idx h (length bs) key)) key val 52) Q E m.
Proof.
  intros Hm Ht HE HQ. set (i := idx h (length bs) key) in *. assert (Hi : (i < length bs)%nat) by (apply idx_lt; apply Ht).
  destruct (lookup_lt_is_Some_2 bs i Hi) as [es Hes]. eapply wp_mono; [|intros [] m' Hq; exact Hq|exact HE].
  eapply push_binding_spec; [done|apply Ht|exact Hes|by eapply ht_r_reads|]. intros w1 c p m1 Hm1 Hb1 Ho Hcn Hpn.
  eapply HQ; [exact Hm1|exact Hes|]. eapply (table_rebuild w w1); [exact Ht| |done|apply length_insert| | | |].
  - eapply fields_only; [apply Ht|apply Ht|simpl; lia|by eapply slot_not_header|done].
  - intros y Hy. unfold owned in Hy. rewrite length_insert in Hy.
    destruct (feet_insert bs i es (((c, p), (key, val)) :: es) Hes) as (l1 & l2 & E1 & E2). rewrite E2 in Hy. simpl in Hy.
    assert (Hcases : y = c \/ y = p \/ y ∈ owned a bs).
    { unfold owned. rewrite E1. rewrite !elem_of_app, !elem_of_cons, elem_of_app in Hy. rewrite !elem_of_app. tauto. }
    destruct Hcases as [->|[->|Hin]]; [right; apply Hcn|right; apply Hpn|by left].
  - intros y Hy. destruct (feet_insert bs i es (((c, p), (key, val)) :: es) Hes) as (l1 & l2 & E1 & E2). rewrite E2 in Hy. simpl in Hy.
    assert (Hcases : y = c \/ y = p \/ y ∈ feet bs). { rewrite E1. rewrite !elem_of_app, !elem_of_cons, elem_of_app in Hy. rewrite !elem_of_app. tauto. }
    destruct Hcases as [->|[->|Hin]]; [by right|by right|by left].
  - pose proof (tm_beside _ _ _ _ _ Ht) as [Hfw _ Hfa _]. apply map_subseteq_spec. intros y u Hy. apply Ho; [|by eapply lookup_weaken].
    intros ->. by rewrite (Hfa i Hi) in Hy.
  - rewrite (bindings_alter _ _ es _ (cons (key, val))) by done. pose proof (placed_push h (bindings bs) (key, val) (tm_placed _ _ _ _ _ Ht)) as Hp.
    unfold push in Hp. rewrite length_bindings in Hp. exact Hp.
Qed.

Lemma insert_spec w t X key val m : at_words R w m -> htable w t X ->
  wp (Cyc_Hashtable_insert self call1 t key val) (fun _ m' => exists w', at_words R w' m' /\ htable w' t (bind_key X key val))
    (half_done t X (bind_key X key val)) m.
Proof.
  intros Hm (mx & a & bs & Ht & HX). pose proof (tm_buckets _ _ _ _ _ Ht) as Hb. pose proof (tm_size _ _ _ _ _ Ht) as Hs.
  unfold Cyc_Hashtable_insert. wps. eapply wp_ht_tab; [done|done|]. wps. eapply wp_ht_hash; [done|done|]. wps. eapply bucket_of_spec; [done|done|].
  set (i := idx h (length bs) key). assert (Hi : (i < length bs)%nat) by (by apply idx_lt).
  wps. eapply push_table_spec; [done|done| |].
  { intros e m' (-> & w' & Hm' & Hw'). split; [done|]. exists w'. split; [done|]. left. exists mx, a, bs. split; [by eapply table_mono|done]. }
  intros w1 c p es m1 Hm1 Hes Ht1. fold i in Hes, Ht1. set (bs1 := <[i := _]> bs) in *.
  assert (Hl1 : length bs1 = length bs) by apply length_insert.
  assert (Eb : bindings bs1 = push h (bindings bs) (key, val)).
  { unfold bs1. rewrite (bindings_alter _ _ es _ (cons (key, val))) by done. unfold push. by rewrite length_bindings. }
  assert (HX1 : htable w1 t (bind_key X key val)).
  { exists mx, a, bs1. split; [done|]. intros x. rewrite Eb, (found_push g h Hh) by (by rewrite length_bindings). simpl. rewrite HX. unfold bind_key.
    by destruct (g x key =? 0). }
  assert (Hes1 : bs1 !! i = Some (((c, p), (key, val)) :: es)) by (unfold bs1; by rewrite list_lookup_insert_eq).
  destruct (head_of _ _ _ _ _ (tm_buckets _ _ _ _ _ Ht1) Hes1) as (x & Hx & Hch). rewrite (slot_unchecked_spec w a bs i) by done.
  wps. eapply wp_load; [done|exact Hx|]. wps. eapply wp_conseq; [eapply length_spec; [done|by apply chain_list]|]. intros n m2 [-> ->].
  wps. eapply wp_load; [done|exact (field _ _ _ _ _ 3 _ Ht1 eq_refl)|]. destruct (mx <? _).
  - eapply wp_mono; [by apply (resize_spec w1 t (bind_key X key val))|done|].
    intros e m3 (-> & w3 & Hm3 & Hw3). split; [done|]. exists w3. split; [done|]. right. by eapply htable_mono.
  - wps. by exists w1.
Qed.

(** ** Lookup *)

Lemma bucket_list_spec w t mx a bs key (Q : Z -> mem H -> Prop) E m : at_words R w m -> table_mem w t mx a bs ->
  (forall x es, bs !! idx h (length bs) key = Some es -> chain w x es -> Q x m) -> wp (bucket_list call1 t key) Q E m.
Proof.
  intros Hm Ht HQ. pose proof (tm_buckets _ _ _ _ _ Ht) as Hb. pose proof (tm_size _ _ _ _ _ Ht) as Hs.
  unfold bucket_list. wps. eapply wp_ht_tab; [done|done|]. wps. eapply wp_ht_hash; [done|done|]. wps. eapply bucket_of_spec; [done|done|].
  set (i := idx h (length bs) key) in *. assert (Hi : (i < length bs)%nat) by (by apply idx_lt). destruct (lookup_lt_is_Some_2 bs i Hi) as [es Hes].
  destruct (head_of _ _ _ _ _ Hb Hes) as (x & Hx & Hch). rewrite (slot_unchecked_spec w a bs i) by done. eapply wp_load; [done|exact Hx|]. by eapply HQ.
Qed.

(** A search of a chain for the first binding of a key equal to [key]. *)
Lemma chain_search_spec {A} w es (test : Z -> ST (mem H) bool) (found missing : _) key (Q : A -> mem H -> Prop) E m : at_words R w m ->
  (forall q k v Q', cell w q k v -> Q' (g key k =? 0) m -> wp (test q) Q' E m) ->
  (matches g key es.*2 = [] -> wp missing Q E m) ->
  (forall q k v l, cell w q k v -> matches g key es.*2 = v :: l -> wp (found q) Q E m) ->
  forall x, chain w x es -> wp (search_cells test found missing x) Q E m.
Proof.
  intros Hm Htest Hmiss Hfound x Hc. unfold search_cells. eapply wp_with_fuel; [exact Hm|].
  apply (wp_loop _ (fun k y m' => m' = m /\ exists es2, k = length es2 /\ chain w y es2 /\ matches g key es.*2 = matches g key es2.*2)) with (length es).
  - intros k y m' (-> & es2 & -> & Hc2 & E2). destruct es2 as [|[[p q] [k v]] es2].
    + simpl in Hc2. subst y. rewrite is_null_0. wps. eapply wp_conseq; [by apply Hmiss|]. intros r m' HQ. by wps.
    + destruct Hc2 as (-> & n & Hp & Hq & Hc2). pose proof Hp as (Hp0 & _). rewrite is_null_ne by done.
      wps. eapply wp_get_hd; [done|done|]. wps. eapply Htest; [exact Hq|]. rewrite fmap_cons, matches_cons in E2. simpl in E2.
      destruct (g key k =? 0) eqn:Ek.
      * wps. eapply wp_conseq; [eapply Hfound; [exact Hq|exact E2]|]. intros r m' HQ. by wps.
      * wps. eapply wp_get_tl; [done|done|]. wps. exists (length es2). split; [simpl; lia|]. split; [done|]. by exists es2.
  - split; [done|]. by exists es.
  - pose proof (chain_size _ _ _ Hc). lia.
Qed.

Lemma found_bucket bs key es : bs !! idx h (length bs) key = Some es -> found g h (bindings bs) key = matches g key es.*2.
Proof. intros Hes. unfold found. by rewrite length_bindings, (bindings_lookup _ _ _ Hes). Qed.

Lemma test_key_spec w key m E : at_words R w m -> forall q k v (Q' : bool -> mem H -> Prop), cell w q k v -> Q' (g key k =? 0) m ->
  wp (k ← fst_word q; i ← call cmpf key k; mret (i =? 0)) Q' E m.
Proof. intros Hm q k v Q' Hq HQ. wps. eapply wp_get_hd; [done|exact Hq|]. wps. eapply wp_pure2; [exact Hcmp|]. by wps. Qed.

Lemma table_lookup_spec w t X key m : at_words R w m -> htable w t X ->
  wp (Cyc_Hashtable_lookup call call1 t key) (fun v m' => m' = m /\ exists l, X key = v :: l) (fun e m' => m' = m /\ e = Cyc_Core_Not_found /\ X key = []) m.
Proof.
  intros Hm (mx & a & bs & Ht & HX). unfold Cyc_Hashtable_lookup. wps. eapply bucket_list_spec; [done|done|]. intros x es Hes Hch.
  wps. eapply wp_ht_cmp; [done|done|]. unfold Cyc_List_assoc_cmp. rewrite <- HX, (found_bucket _ _ _ Hes). eapply chain_search_spec; [done| | | |exact Hch].
  - intros q k v Q' Hq HQ. wps. eapply wp_get_hd; [done|exact Hq|]. wps. eapply wp_pure2; [exact Hcmp|]. wps.
    replace (g k key =? 0) with (g key k =? 0); [done|]. apply eq_true_iff_eq. rewrite !Z.eqb_eq. split; by apply cmp_sym.
  - intros E. by apply wp_thrown.
  - intros q k v l Hq E. eapply wp_get_tl; [done|exact Hq|]. split; [done|]. by exists l.
Qed.

Lemma try_lookup_spec w t X key m E : at_words R w m -> htable w t X ->
  wp (Cyc_Hashtable_try_lookup call call1 t key) (fun r m' => m' = m /\ r = head (X key)) E m.
Proof.
  intros Hm (mx & a & bs & Ht & HX). unfold Cyc_Hashtable_try_lookup. wps. eapply bucket_list_spec; [done|done|]. intros x es Hes Hch.
  wps. eapply wp_ht_cmp; [done|done|]. rewrite <- HX, (found_bucket _ _ _ Hes). eapply chain_search_spec; [done|by apply test_key_spec| | |exact Hch].
  - intros E'. wps. by rewrite E'.
  - intros q k v l Hq E'. wps. eapply wp_get_tl; [done|exact Hq|]. wps. by rewrite E'.
Qed.

(** The pointer that is returned points to the value. *)
Lemma lookup_opt_spec w t X key m E : at_words R w m -> htable w t X ->
  wp (Cyc_Hashtable_lookup_opt call call1 t key) (fun p m' => m' = m /\ match X key with [] => p = 0 | v :: _ => p <> 0 /\ w !! p = Some v end) E m.
Proof.
  intros Hm (mx & a & bs & Ht & HX). unfold Cyc_Hashtable_lookup_opt. wps. eapply bucket_list_spec; [done|done|]. intros x es Hes Hch.
  wps. eapply wp_ht_cmp; [done|done|]. rewrite <- HX, (found_bucket _ _ _ Hes). eapply chain_search_spec; [done|by apply test_key_spec| | |exact Hch].
  - intros E'. wps. by rewrite E'.
  - intros q k v l Hq E'. wps. rewrite E'. split; [done|]. pose proof Hq as (Hq0 & _ & _ & Hv). split; [|done].
    destruct Hm as [Hok <-]. destruct (heap_ok_bounds R m (q + 4) Hok) as [? _]; [by eexists|]. lia.
Qed.

(** ** Removal *)

Definition unbind (X : Z -> list Z) (key : Z) : Z -> list Z := fun x => if g x key =? 0 then tail (X x) else X x.

Lemma drop_match_none key l : matches g key l = [] -> drop_match g key l = l.
Proof.
  induction l as [|kv l IH]; [done|]. rewrite matches_cons. simpl. destruct (g key kv.1 =? 0); [done|]. intros E. by rewrite IH.
Qed.

Lemma drop_match_app key l1 l2 : matches g key l1 = [] -> drop_match g key (l1 ++ l2) = l1 ++ drop_match g key l2.
Proof.
  induction l1 as [|kv l1 IH]; [done|]. rewrite matches_cons. simpl. destruct (g key kv.1 =? 0); [done|]. intros E. by rewrite IH.
Qed.

(** The table after a bucket has lost the binding. *)
Lemma removed_table w w' t mx a bs key es es' X : table_mem w t mx a bs -> bs !! idx h (length bs) key = Some es -> (forall x, found g h (bindings bs) x = X x) ->
  array_at w' t (fields mx (tab_of a bs)) -> buckets_at w' a (<[idx h (length bs) key := es']> bs) -> es'.*2 = drop_match g key es.*2 ->
  sublist (foot es') (foot es) -> F ⊆ w' -> htable w' t (unbind X key).
Proof.
  intros Ht Hes HX Hf Hb Hd Hsub HF. set (i := idx h (length bs) key) in *.
  assert (Eb : bindings (<[i := es']> bs) = remove g h (bindings bs) key).
  { unfold remove. rewrite length_bindings. by apply (bindings_alter _ _ es). }
  assert (Hfeet : forall x, x ∈ feet (<[i := es']> bs) -> x ∈ feet bs).
  { intros x. destruct (feet_insert bs i es es' Hes) as (l1 & l2 & E1 & E2). rewrite E1, E2, !elem_of_app. intros [?|[Hx|?]]; [tauto| |tauto].
    right. left. eapply elem_of_submseteq; [exact Hx|by apply sublist_submseteq]. }
  exists mx, a, (<[i := es']> bs). split.
  - eapply (table_rebuild w w'); [exact Ht|done|done|apply length_insert| | |done|rewrite Eb; apply placed_remove, Ht].
    + intros x Hx. left. unfold owned in *. rewrite length_insert in Hx. apply elem_of_app in Hx as [Hx|Hx]; apply elem_of_app; [by left|right].
      by apply Hfeet.
    + intros x Hx. left. by apply Hfeet.
  - intros x. rewrite Eb, (found_remove g h Hh) by (rewrite length_bindings; apply Ht). unfold unbind. by rewrite HX.
Qed.

Lemma unlinked_sublist es1 (e1 e2 : entry) es3 : sublist (foot (es1 ++ e1 :: es3)) (foot (es1 ++ e1 :: e2 :: es3)).
Proof. rewrite !foot_app. apply sublist_app; [done|]. destruct e1 as [[? ?] ?], e2 as [[? ?] ?]. simpl. repeat constructor. done. Qed.

(** Without a binding of the key nothing changes. *)
Lemma unbind_none w t mx a bs key es X : table_mem w t mx a bs -> bs !! idx h (length bs) key = Some es -> (forall x, found g h (bindings bs) x = X x) ->
  matches g key es.*2 = [] -> htable w t (unbind X key).
Proof.
  intros Ht Hes HX Hno. exists mx, a, bs. split; [done|]. intros y. rewrite HX. unfold unbind. destruct (g y key =? 0) eqn:Ey; [|done].
  assert (X y = []) as ->; [|done]. rewrite <- HX. rewrite (found_bucket _ y es).
  - rewrite <- Hno. unfold matches. f_equal. apply list_filter_iff. intros kv. split; intros E1.
    + apply (eq_key_trans g key y kv.1); [apply cmp_sym; [done|lia]|done].
    + apply (eq_key_trans g y key kv.1); [lia|done].
  - rewrite (idx_same g h Hh _ y key) by lia. done.
Qed.

Lemma foot_nodup w a bs i es : buckets_at w a bs -> bs !! i = Some es -> NoDup (foot es).
Proof.
  intros Hb Hes. pose proof (ba_apart _ _ _ Hb) as Hnd. unfold owned in Hnd. apply NoDup_app in Hnd as (_ & _ & Hnd).
  destruct (feet_insert bs i es [] Hes) as (l1 & l2 & E1 & _). rewrite E1 in Hnd. apply NoDup_app in Hnd as (_ & _ & Hnd). by apply NoDup_app in Hnd as (Hnd & _).
Qed.

(** The first binding of a bucket is removed. *)
Lemma remove_first_spec w t mx a bs key p q k v es n X m (Q : unit -> mem H -> Prop) E : at_words R w m -> table_mem w t mx a bs ->
  bs !! idx h (length bs) key = Some (((p, q), (k, v)) :: es) -> (forall x, found g h (bindings bs) x = X x) -> g key k = 0 -> chain w n es ->
  (forall w' m', at_words R w' m' -> htable w' t (unbind X key) -> Q tt m') ->
  wp (store_word (a + 4 * Z.of_nat (idx h (length bs) key)) n) Q E m.
Proof.
  intros Hm Ht Hes HX Ek Hch HQ. pose proof (tm_buckets _ _ _ _ _ Ht) as Hb. set (i := idx h (length bs) key) in *.
  destruct (head_of _ _ _ _ _ Hb Hes) as (x & Hx & _). eapply wp_store; [done|by eexists|]. intros m1 Hm1.
  assert (Hsub : sublist (foot es) (foot (((p, q), (k, v)) :: es))) by (simpl; by repeat constructor).
  eapply HQ; [exact Hm1|]. eapply (removed_table w _ t mx a bs key _ es); [done|exact Hes|done| | |simpl; by rewrite Ek|done|].
  - eapply fields_frame; [apply Ht|apply Ht|simpl; lia|]. eapply slot_not_header; [done|]. by eapply lookup_lt_Some.
  - fold i. eapply buckets_set; [done|exact Hes|done|]. unfold owned. rewrite length_insert.
    destruct (feet_insert bs i _ es Hes) as (l1 & l2 & E1 & E2). rewrite E2. eapply sublist_NoDup; [apply Hb|]. unfold owned. rewrite E1.
    apply sublist_app; [done|]. apply sublist_app; [done|]. by apply sublist_app.
  - pose proof (tm_beside _ _ _ _ _ Ht) as [Hfw _ Hfa _]. apply insert_subseteq_r; [|done]. apply Hfa. by eapply lookup_lt_Some.
Qed.

(** A later one is. *)
Lemma remove_later_spec w t mx a bs key p es1 l ql kvl next p2 q2 k2 v2 es3 n3 X m (Q : unit -> mem H -> Prop) E : at_words R w m -> table_mem w t mx a bs ->
  bs !! idx h (length bs) key = Some (es1 ++ ((l, ql), kvl) :: ((p2, q2), (k2, v2)) :: es3) -> (forall x, found g h (bindings bs) x = X x) ->
  w !! (a + 4 * Z.of_nat (idx h (length bs) key)) = Some p -> chain_to w p es1 l -> cell w l ql next -> cell w ql kvl.1 kvl.2 -> chain w n3 es3 ->
  matches g key (es1 ++ [((l, ql), kvl)]).*2 = [] -> g key k2 = 0 ->
  (forall w' m', at_words R w' m' -> htable w' t (unbind X key) -> Q tt m') -> wp (set_tl l n3) Q E m.
Proof.
  intros Hm Ht Hes HX Hx H1 Hl Hql H3 Hno Ek HQ. pose proof (tm_buckets _ _ _ _ _ Ht) as Hb.
  eapply wp_set_tl; [done|destruct Hl as (_ & _ & _ & ->); by eexists|]. intros m1 Hm1. assert (Hl8 : l mod 8 = 0) by (by destruct Hl as (_ & ? & _)).
  assert (Hlf : unit_of (l + 4) ∈ foot (es1 ++ ((l, ql), kvl) :: ((p2, q2), (k2, v2)) :: es3)).
  { rewrite unit_of_aligned by (done || lia). rewrite foot_app. apply elem_of_app. right. destruct kvl. left. }
  eapply HQ; [exact Hm1|]. eapply (removed_table w _ t mx a bs key _ (es1 ++ ((l, ql), kvl) :: es3)); [done|exact Hes|done| | | |apply unlinked_sublist|].
  - eapply fields_frame; [apply Ht|apply Ht|simpl; lia|]. intros Hin. apply (tm_apart _ _ _ _ _ Ht _ Hin). unfold owned. apply elem_of_app. right. by eapply feet_elem.
  - eapply (buckets_relink _ _ _ _ _ _ _ _ p); [done|exact Hes|done|done| |apply unlinked_sublist].
    eapply chain_unlink; [|exact H1|exact Hl|exact Hql|exact H3]. by eapply foot_nodup.
  - rewrite (cons_middle ((l, ql), kvl) es1 es3), (cons_middle ((l, ql), kvl) es1), !app_assoc, !fmap_app.
    rewrite (drop_match_app key); [|rewrite <- fmap_app; done]. simpl. by rewrite Ek.
  - pose proof (tm_beside _ _ _ _ _ Ht) as [Hfw _ _ Hfc]. apply insert_subseteq_r; [|done].
    apply (Hfc l). eapply feet_elem; [exact Hes|]. rewrite unit_of_aligned in Hlf by (done || lia). done.
Qed.

Lemma table_remove_spec w t X key m E : at_words R w m -> htable w t X ->
  wp (Cyc_Hashtable_remove call call1 t key) (fun _ m' => exists w', at_words R w' m' /\ htable w' t (unbind X key)) E m.
Proof.
  intros Hm (mx & a & bs & Ht & HX). pose proof (tm_buckets _ _ _ _ _ Ht) as Hb. pose proof (tm_size _ _ _ _ _ Ht) as Hs.
  unfold Cyc_Hashtable_remove. wps. eapply wp_ht_tab; [done|done|]. wps. eapply wp_ht_cmp; [done|done|]. wps. eapply wp_ht_hash; [done|done|].
  wps. eapply bucket_of_spec; [done|done|]. set (i := idx h (length bs) key). assert (Hi : (i < length bs)%nat) by (by apply idx_lt).
  destruct (lookup_lt_is_Some_2 bs i Hi) as [es Hes]. destruct (head_of _ _ _ _ _ Hb Hes) as (x & Hx & Hch).
  wps. eapply slot_spec; [done|done|]. wps. eapply wp_load; [done|exact Hx|]. destruct es as [|[[p q] [k v]] es].
  { simpl in Hch. subst x. rewrite is_null_0. wps. exists w. split; [done|]. by eapply unbind_none. }
  destruct Hch as (-> & n & Hp & Hq & Hch). pose proof Hp as (Hp0 & _). rewrite is_null_ne by done.
  wps. eapply wp_get_hd; [done|done|]. wps. eapply wp_get_hd; [done|done|]. wps. eapply wp_pure2; [exact Hcmp|]. destruct (g key k =? 0) eqn:Ek.
  { wps. eapply wp_get_tl; [done|done|]. rewrite (slot_unchecked_spec w a bs i) by done.
    eapply remove_first_spec; [done|done|exact Hes|done|lia|done|]. intros w' m' Hm' Hx'. by exists w'. }
  wps. eapply wp_get_tl; [done|done|]. eapply wp_with_fuel; [exact Hm|].
  apply (wp_loop _ (fun c '(l, next) m' => m' = m /\ exists es1 ql kvl es2, c = length es2 /\ ((p, q), (k, v)) :: es = es1 ++ ((l, ql), kvl) :: es2 /\
    matches g key (es1 ++ [((l, ql), kvl)]).*2 = [] /\ chain_to w p es1 l /\ cell w l ql next /\ cell w ql kvl.1 kvl.2 /\ chain w next es2)) with (length es).
  - intros c [l next] m' (-> & es1 & ql & kvl & es2 & -> & Ees & Hno & H1 & Hl & Hql & H2). pose proof Hl as (Hl0 & _). rewrite Ees in Hes.
    wps. apply wp_check_null; [done|]. wps. eapply wp_get_tl; [done|done|]. destruct es2 as [|[[p2 q2] [k2 v2]] es3].
    { simpl in H2. subst next. rewrite is_null_0. wps. exists w. split; [done|]. by eapply unbind_none. }
    destruct H2 as (-> & n3 & Hp2 & Hq2 & H3). pose proof Hp2 as (Hp20 & _). rewrite is_null_ne by done.
    wps. apply wp_check_null; [done|]. wps. eapply wp_get_hd; [done|done|]. wps. eapply wp_get_hd; [done|done|]. wps. eapply wp_pure2; [exact Hcmp|].
    destruct (g key k2 =? 0) eqn:Ek2.
    + wps. eapply wp_get_tl; [done|done|]. wps. eapply (remove_later_spec w t mx a bs key p); [done|done|exact Hes|done|exact Hx|done|done|done|done|done|lia|].
      intros w' m' Hm' Hx'. wps. by exists w'.
    + wps. eapply wp_get_tl; [done|done|]. wps. eapply wp_get_tl; [done|done|]. wps. exists (length es3). split; [simpl; lia|]. split; [done|].
      exists (es1 ++ [((l, ql), kvl)]), q2, (k2, v2), es3. split_and!; [done|by rewrite <- app_assoc| |by eapply chain_to_snoc|done|done|done].
      rewrite fmap_app. unfold matches in *. rewrite filter_app, fmap_app, Hno. simpl. rewrite filter_cons_False by (simpl; lia). done.
  - split; [done|]. exists [], q, (k, v), es. split_and!; try done. rewrite app_nil_l, fmap_cons, matches_cons. simpl. by rewrite Ek.
  - pose proof (chain_size _ _ _ Hch). lia.
Qed.

(** ** Creation *)

Lemma object_units w t l w' x : object w t l w' -> (7 <= length l)%nat -> x ∈ units t 4 -> is_Some (w' !! x).
Proof.
  intros (_ & _ & Ha) Hl Hx. unfold units in Hx. apply list_elem_of_fmap in Hx as (i & -> & Hi%elem_of_seq).
  destruct (lookup_lt_is_Some_2 l (2 * i)%nat) as [v Hv]; [lia|]. exists v. replace (t + 8 * Z.of_nat i) with (t + 4 * Z.of_nat (2 * i)) by lia. by apply Ha.
Qed.

Lemma create_spec w (sz : nat) m : at_words R w m -> F ⊆ w -> (0 < sz)%nat -> 4 * Z.of_nat sz < 4294967296 ->
  wp (Cyc_Hashtable_create self (Z.of_nat sz) cmpf hashf) (fun t m' => exists w', at_words R w' m' /\ htable w' t (fun _ => [])) (oom R w) m.
Proof.
  intros Hm HF Hsz Hb. unfold Cyc_Hashtable_create, Cyc_Hashtable_rcreate. wps.
  eapply (wm_new (at_words R)); [by apply at_words_rgn; left|done|unfold MAX_MALLOC_SIZE; simpl; lia| |by intros; eapply oom_now].
  intros t m1 Hm1 Hf. pose proof (object_start t 7 w Hf) as Ho. change (replicate 7 0) with [0; 0; 0; 0; 0; 0; 0] in Ho. pose proof Hf as (_ & Ht8 & _).
  wps. eapply (wm_put_field (at_words R) 0); [exact Ho|done|simpl; lia|lia|]. intros m2 Hm2 Ho2. simpl in Ho2.
  wps. eapply (wm_put_field (at_words R) 1); [exact Ho2|done|simpl; lia|lia|]. intros m3 Hm3 Ho3. simpl in Ho3.
  wps. eapply (wm_put_field (at_words R) 2); [exact Ho3|done|simpl; lia|lia|]. intros m4 Hm4 Ho4. simpl in Ho4.
  wps. eapply (wm_put_field (at_words R) 3); [exact Ho4|done|simpl; lia|lia|]. intros m5 Hm5 Ho5. simpl in Ho5.
  set (w5 := <[t + 12 := _]> _) in *. pose proof (object_sub _ _ _ _ Ho5) as Hw5.
  wps. eapply (wp_mono _ (fun tab m6 => exists a, at_words R (zero_words a sz w5) m6 /\ buckets_at (zero_words a sz w5) a (replicate sz []) /\ fresh_words a sz w5 /\
    tab = tab_of a (replicate sz ([] : list entry))) _ (oom R w5)); [eapply new_buckets_spec; [exact Hm5|done|]; eauto 10| |intros e m'; by apply oom_mono].
  intros tab m6 (a & Hm6 & Hb6 & Hfa & ->). pose proof (rebuilt_start w5 sz a Hfa Hb6) as Hr. pose proof (rb_sub _ _ _ _ _ Hr) as Hw6.
  assert (Hap : forall x, x ∈ units t 4 -> x ∉ owned a (replicate sz [])).
  { intros x Hx Hin. destruct (object_units _ _ _ _ _ Ho5 ltac:(simpl; lia) Hx) as [u Hu]. by rewrite (rb_new _ _ _ _ _ Hr x Hin) in Hu. }
  pose proof (object_mono _ _ _ _ _ Ho5 Hw6) as (_ & _ & Ha6). unfold set_tab.
  assert (Hbd : beside (zero_words a sz w5) t a (replicate sz [])).
  { split; [by etrans; [|exact Hw6]; etrans| | |].
    - intros i Hi. eapply lookup_weaken_None; [|exact HF]. eapply fresh_absent; [exact Hf|lia|lia].
    - intros i Hi. eapply lookup_weaken_None; [by eapply rb_array|]. by etrans.
    - intros p Hp. eapply table_absent_mono; [|by eapply rb_cells]. by etrans. }
  wps. eapply (wp_put_field _ t _ a _ 4); [exact Hm6|done|exact Ha6|done|exact Hb6|done|done|lia|lia|]. intros w7 m7 Hm7 Hf7 Hb7 Hd7.
  wps. eapply (wp_put_field w7 t _ a _ 5); [done|done|exact Hf7|done|done|done|done|lia|lia|]. intros w8 m8 Hm8 Hf8 Hb8 Hd8.
  wps. eapply (wp_put_field w8 t _ a _ 6); [done|done|exact Hf8|done|done|done|done|lia|lia|]. intros w9 m9 Hm9 Hf9 Hb9 Hd9. simpl in Hf9. wps.
  exists w9. split; [done|]. exists 3, a, (replicate sz []). split.
  - split; [done|exact Hf9|done|done|by rewrite length_replicate| |done]. rewrite bindings_empty. apply placed_empty.
  - intros x. rewrite bindings_empty. unfold found. rewrite length_replicate, lookup_replicate_2 by (by apply idx_lt). done.
Qed.

(** ** Iteration *)

(** What a callback does to the bindings [done] before it and the words, keeping
    those there were. *)
Section iter.
Context (w : gmap Z Z) (f : Z -> Z -> ST (mem H) unit) (I : list (Z * Z) -> gmap Z Z -> Prop) (E : exn -> mem H -> Prop).
Context (Hf : forall k v l w1 m1, at_words R w1 m1 -> w ⊆ w1 -> I l w1 ->
  wp (f k v) (fun _ m2 => exists w2, at_words R w2 m2 /\ w ⊆ w2 /\ I (l ++ [(k, v)]) w2) E m1).

Definition visited (l : list (Z * Z)) m : Prop := exists w1, at_words R w1 m /\ w ⊆ w1 /\ I l w1.

Lemma iter_chain_spec x es l m : chain w x es -> visited l m ->
  wp (iter_cells (fun h => k ← fst_word h; v ← snd_word h; f k v) x) (fun _ m' => visited (l ++ es.*2) m') E m.
Proof.
  intros Hc (w0 & Hm0 & Hw0 & Hi0). unfold iter_cells. eapply wp_with_fuel; [exact Hm0|].
  apply (wp_loop _ (fun n y m' => exists es1 es2, es = es1 ++ es2 /\ n = length es2 /\ chain w y es2 /\ visited (l ++ es1.*2) m')) with (length es).
  - intros n y m' (es1 & es2 & -> & -> & Hc2 & (w1 & Hm1 & Hw1 & Hi1)). destruct es2 as [|[[p q] [k v]] es2].
    { simpl in Hc2. subst y. rewrite is_null_0. wps. rewrite app_nil_r. by exists w1. }
    destruct Hc2 as (-> & n & Hp & Hq & Hc2). pose proof Hp as (Hp0 & _). rewrite is_null_ne by done.
    wps. eapply wp_get_hd; [done|by eapply cell_mono|]. wps. eapply wp_get_hd; [done|by eapply cell_mono|]. wps. eapply wp_get_tl; [done|by eapply cell_mono|].
    eapply wp_conseq; [by eapply Hf|]. intros [] m2 (w2 & Hm2 & Hw2 & Hi2). wps. eapply wp_get_tl; [done|by eapply cell_mono|]. wps.
    exists (length es2). split; [simpl; lia|]. exists (es1 ++ [((p, q), (k, v))]), es2. split_and!; [by rewrite <- app_assoc|done|done|].
    exists w2. split; [done|]. split; [done|]. by rewrite fmap_app, app_assoc.
  - exists [], es. split_and!; [done|done|done|]. rewrite app_nil_r. by exists w0.
  - pose proof (chain_size _ _ _ Hc). pose proof (map_subseteq_size _ _ Hw0). lia.
Qed.

Lemma iter_spec t X m : htable w t X -> visited [] m ->
  wp (Cyc_Hashtable_iter f t) (fun _ m' => exists l, (forall x, matches g x l = X x) /\ visited l m') E m.
Proof.
  intros (mx & a & bs & Ht & HX) Hv. pose proof (tm_buckets _ _ _ _ _ Ht) as Hb. pose proof (ba_high _ _ _ Hb) as [Hn _]. unfold INT_MAX in Hn.
  unfold Cyc_Hashtable_iter. wps. pose proof Hv as (w0 & Hm0 & Hw0 & Hi0). eapply wp_ht_tab; [exact Hm0|by eapply table_mono|].
  rewrite (get_size _ _ _ Hb), (i32_small (Z.of_nat (length bs))), Nat2Z.id by lia.
  apply (wp_loop _ (fun n i m' => exists j, n = (length bs - j)%nat /\ i = Z.of_nat j /\ (j <= length bs)%nat /\ visited (concat (take j (bindings bs))) m')) with (length bs).
  - intros n i m1 (j & -> & -> & Hj & Hv1). destruct (Z.of_nat j <? Z.of_nat (length bs)) eqn:Ej.
    + assert (Hlt : (j < length bs)%nat) by lia. destruct (lookup_lt_is_Some_2 bs j Hlt) as [es Hes]. destruct (head_of _ _ _ _ _ Hb Hes) as (x & Hx & Hch).
      pose proof Hv1 as (w1 & Hm1 & Hw1 & Hi1). wps. eapply slot_spec; [exact Hb|done|]. wps. eapply wp_load; [done|by eapply lookup_weaken|].
      wps. eapply wp_conseq; [by eapply (iter_chain_spec x es)|]. intros [] m2 Hv2. wps. exists (length bs - S j)%nat. split; [lia|]. exists (S j).
      split_and!; [done|lia|lia|]. rewrite (take_S_r _ _ es.*2) by (by apply bindings_lookup). rewrite concat_app. simpl. by rewrite app_nil_r.
    + wps. assert (j = length bs) as -> by lia. rewrite take_ge in Hv1 by (by rewrite length_bindings). eexists. split; [|exact Hv1].
      intros x. rewrite (found_concat g h Hh); [apply HX|apply Ht|]. rewrite length_bindings. apply Ht.
  - exists 0%nat. split_and!; [lia|done|lia|done].
  - lia.
Qed.
End iter.
End ops.
