(* ===== verification/HtableRefine.v ===== *)
(** * Hash tables implement stacks of bindings

    A hash table binds each key to a stack of values: insertion pushes, removal
    pops, and a search gives the newest value.  Programs on a table compute with
    these stacks, whatever the hash function and however often the table is
    resized. *)

From S2P Require Import Prelude Alloc RwLock Region RegionSafety DynRegion Words CycList ListCells WordMem FatPtr CycListSpec ListConv CycSetSpec SetRefine SplaySpec CycBytes CycXP CycHashtable HtableSpec HtableOps.

Inductive hop : Type := HInsert (key val : Z) | HLookup (key : Z) | HTry (key : Z) | HOpt (key : Z) | HRemove (key : Z) | HResize.

Section programs.
Context {H : Type} `{HH : Heap H} `{!HeapLaws H} (self : Z).
Context (call : Z -> Z -> Z -> ST (mem H) Z) (call1 : Z -> Z -> ST (mem H) Z).
Abbreviation M := (ST (mem H)).

(** A search that throws [Not_found], or returns null, answers [None]. *)
Definition run_hop (o : hop) (t : Z) : M (list (option Z)) :=
  match o with
  | HInsert k v => Cyc_Hashtable_insert self call1 t k v;; mret []
  | HLookup k => v ← attempt Cyc_Core_Not_found (Cyc_Hashtable_lookup call call1 t k); mret [v]
  | HTry k => v ← Cyc_Hashtable_try_lookup call call1 t k; mret [v]
  | HOpt k => p ← Cyc_Hashtable_lookup_opt call call1 t k; if p =? 0 then mret [None] else v ← get_word p; mret [Some v]
  | HRemove k => Cyc_Hashtable_remove call call1 t k;; mret []
  | HResize => Cyc_Hashtable_resize self call1 t;; mret []
  end.

Fixpoint run_hops (os : list hop) (t : Z) : M (list (option Z)) :=
  match os with
  | [] => mret []
  | o :: os => a ← run_hop o t; l ← run_hops os t; mret (a ++ l)
  end.

Context (R : gset Z) (cmpf hashf : Z) (g : Z -> Z -> Z) `{!Comparison g} (h : Z -> Z).

(** ** Stacks *)

Definition stack_hop (o : hop) (X : Z -> list Z) : list (option Z) * (Z -> list Z) :=
  match o with
  | HInsert k v => ([], fun x => if g x k =? 0 then v :: X x else X x)
  | HLookup k | HTry k | HOpt k => ([head (X k)], X)
  | HRemove k => ([], fun x => if g x k =? 0 then tail (X x) else X x)
  | HResize => ([], X)
  end.

Fixpoint stack_hops (os : list hop) (X : Z -> list Z) : list (option Z) * (Z -> list Z) :=
  match os with
  | [] => ([], X)
  | o :: os => let r := stack_hop o X in let r' := stack_hops os r.2 in (r.1 ++ r'.1, r'.2)
  end.

(** Out of memory after some of the operations. *)
Definition stopped (F : gmap Z Z) (os : list hop) (t : Z) (X : Z -> list Z) (e : exn) (m : mem H) : Prop :=
  e = Cyc_Bad_alloc /\ exists w n, at_words R w m /\ htable cmpf hashf g h F w t (stack_hops (take n os) X).2.

Lemma hop_refine F o w t X m : pure2 (call cmpf) g -> pure1 (call1 hashf) h -> (forall x y, g x y = 0 -> h x = h y) ->
  at_words R w m -> htable cmpf hashf g h F w t X ->
  wp (run_hop o t) (fun a m' => a = (stack_hop o X).1 /\ exists w', at_words R w' m' /\ htable cmpf hashf g h F w' t (stack_hop o X).2) (stopped F [o] t X) m.
Proof.
  intros Hc Hp Hh Hm Ht. destruct o as [k v|k|k|k|k|]; simpl.
  - wps. eapply wp_mono; [by eapply (insert_spec self R call1 cmpf hashf g h Hp Hh F w t X k v)| |].
    + intros [] m' Ht'. wps. by split.
    + intros e m' (-> & w' & Hm' & [Hx|Hx]); (split; [done|]).
      * by exists w', 0%nat.
      * by exists w', 1%nat.
  - wps. apply wp_attempt. eapply wp_mono; [by eapply (table_lookup_spec R call call1 cmpf hashf g h Hc Hp F w t X k)| |].
    + intros v m' (-> & l & El). wps. rewrite El. split; [done|by exists w].
    + intros e m' (-> & -> & El). rewrite decide_True by done. wps. rewrite El. split; [done|by exists w].
  - wps. eapply wp_conseq; [by eapply (try_lookup_spec R call call1 cmpf hashf g h Hc Hp F w t X k)|].
    intros v m' (-> & ->). wps. split; [done|by exists w].
  - wps. eapply wp_conseq; [by eapply (lookup_opt_spec R call call1 cmpf hashf g h Hc Hp F w t X k)|].
    intros p m' (-> & Hv). destruct (X k) as [|v l]; simpl.
    + subst p. simpl. wps. split; [done|by exists w].
    + destruct Hv as [Hp0 Hv]. rewrite (proj2 (Z.eqb_neq _ _) Hp0). wps. eapply wp_load; [done|exact Hv|]. wps. split; [done|by exists w].
  - wps. eapply wp_conseq; [by eapply (table_remove_spec R call call1 cmpf hashf g h Hc Hp Hh F w t X k)|]. intros [] m' Ht'. wps. by split.
  - wps. eapply wp_mono; [by eapply (resize_spec self R call1 cmpf hashf g h Hp Hh F w t X)| |].
    + intros [] m' Ht'. wps. by split.
    + intros e m' (-> & w' & Hm' & Hw'). split; [done|]. exists w', 0%nat. split; [done|]. by eapply htable_mono.
Qed.
End programs.

(** C8. The hash table library implements stacks of bindings.  Any program of
    insertions, searches by each of the three functions, removals and resizings of a
    well-formed table terminates and answers like the stacks: a key gives the newest
    value bound to an equal key and not yet removed.  The table then holds exactly
    those stacks; all other words of the memory are as they were; and the only
    failure is [Cyc_Bad_alloc], which leaves the table with what some first part of
    the program makes of it.  The comparison must be an order and equal keys must
    have equal hash values. *)
Theorem hashtable_programs_refine {H : Type} `{HH : Heap H} `{!HeapLaws H} self (call : Z -> Z -> Z -> ST (mem H) Z) (call1 : Z -> Z -> ST (mem H) Z)
    R cmpf hashf g `{!Comparison g} h F os w t X m :
  pure2 (call cmpf) g -> pure1 (call1 hashf) h -> (forall x y, g x y = 0 -> h x = h y) -> at_words R w m -> htable cmpf hashf g h F w t X ->
  wp (run_hops self call call1 os t)
    (fun a m' => a = (stack_hops g os X).1 /\ exists w', at_words R w' m' /\ F ⊆ w' /\ htable cmpf hashf g h F w' t (stack_hops g os X).2)
    (stopped R cmpf hashf g h F os t X) m.
Proof.
  intros Hc Hp Hh. revert w X m. induction os as [|o os IH]; intros w X m Hm Ht; simpl.
  { wps. split; [done|]. exists w. split; [done|]. split; [|done]. destruct Ht as (mx & a & bs & Ht & _). apply Ht. }
  wps. eapply wp_mono; [by eapply (hop_refine self call call1 R cmpf hashf g h F o w t X)| |].
  - intros a m1 (-> & w1 & Hm1 & Ht1). wps. eapply wp_mono; [by apply (IH w1 (stack_hop g o X).2 m1)| |].
    + intros l m2 (-> & Hw2). by wps.
    + intros e m2 (-> & w2 & n & Hm2 & Ht2). split; [done|]. by exists w2, (S n).
  - intros e m1 (-> & w1 & n & Hm1 & Ht1). split; [done|]. destruct n as [|n]; [by exists w1, 0%nat|]. simpl in Ht1. rewrite take_nil in Ht1.
    by exists w1, 1%nat.
Qed.

(** C27. Iteration visits every binding exactly once, those of equal keys newest
    first: a callback that keeps the words there were, and what it has done so far
    described by [I], has in the end been called with bindings whose values are, for
    each key, exactly the stack of the table. *)
Theorem hashtable_iter_complete {H : Type} `{HH : Heap H} `{!HeapLaws H} R cmpf hashf g h F (f : Z -> Z -> ST (mem H) unit)
    (I : list (Z * Z) -> gmap Z Z -> Prop) E w t X m :
  (forall x y, g x y = 0 -> h x = h y) -> at_words R w m -> htable cmpf hashf g h F w t X -> I [] w ->
  (forall k v l w1 m1, at_words R w1 m1 -> w ⊆ w1 -> I l w1 ->
     wp (f k v) (fun _ m2 => exists w2, at_words R w2 m2 /\ w ⊆ w2 /\ I (l ++ [(k, v)]) w2) E m1) ->
  wp (Cyc_Hashtable_iter f t) (fun _ m' => exists l w', (forall x, (filter (fun kv => g x kv.1 = 0) l).*2 = X x) /\
    at_words R w' m' /\ w ⊆ w' /\ I l w') E m.
Proof.
  intros Hh Hm Ht Hi Hf. eapply wp_conseq; [eapply (iter_spec R cmpf hashf g h Hh F w f I E Hf t X); [done|by exists w]|].
  intros [] m' (l & Hl & w' & Hm' & Hw' & Hi'). by exists l, w'.
Qed.

(** ** Examples *)

Definition mod_hash (f x : Z) : ST (mem bump) Z := mret (x mod 2).

(** A new table for two buckets in an empty memory. *)
Definition ex_created : out Z * mem bump := Cyc_Hashtable_create 1 2 9 8 ex_mem.
Definition ex_table : Z := match ex_created.1 with Ret t => t | _ => 0 end.

Lemma ex_hash_pure : pure1 (mod_hash 8) (fun x => x mod 2).
Proof. done. Qed.

Lemma ex_table_ok : exists w, at_words {[1000]} w ex_created.2 /\ htable 9 8 Z.sub (fun x => x mod 2) ∅ w ex_table (fun _ => []).
Proof.
  pose proof (create_spec 1 {[1000]} 9 8 Z.sub (fun x => x mod 2) ∅ ∅ 2 ex_mem ex_mem_words ltac:(done) ltac:(lia) ltac:(lia)) as Hw.
  assert (Hr : Cyc_Hashtable_create 1 (Z.of_nat 2) 9 8 ex_mem = (Ret ex_table, ex_created.2)) by (vm_compute; reflexivity).
  exact (wp_result _ _ _ _ _ _ Hw Hr).
Qed.

(** Five even keys, so that a bucket grows too long and the table is resized;
    one key is bound twice. *)
Definition ex_hops : list hop :=
  [HInsert 2 20; HInsert 4 40; HInsert 6 60; HInsert 2 21; HInsert 8 80; HLookup 2; HTry 6; HRemove 2; HOpt 2; HRemove 2; HLookup 2; HResize; HTry 8].

Lemma hashtable_programs_refine_witness : exists m',
  run_hops 1 sub_call mod_hash ex_hops ex_table ex_created.2 = (Ret [Some 21; Some 60; Some 20; None; Some 80], m').
Proof.
  destruct ex_table_ok as (w & Hm & Ht).
  assert (Hh : forall x y, x - y = 0 -> x mod 2 = y mod 2) by (intros x y Hxy; f_equal; lia).
  pose proof (hashtable_programs_refine 1 sub_call mod_hash {[1000]} 9 8 Z.sub (fun x => x mod 2) ∅ ex_hops w ex_table _ ex_created.2
    (fun u v m => eq_refl) ex_hash_pure Hh Hm Ht) as Hw.
  assert (Hr : exists a m', run_hops 1 sub_call mod_hash ex_hops ex_table ex_created.2 = (Ret a, m')) by (eexists _, _; vm_compute; reflexivity).
  destruct Hr as (a & m' & Hr). exists m'. destruct (wp_result _ _ _ _ _ _ Hw Hr) as [Ha _]. rewrite Hr, Ha. reflexivity.
Defined.

(** A table with one binding. *)
Definition ex_filled : mem bump := (Cyc_Hashtable_insert 1 mod_hash ex_table 2 20 ex_created.2).2.

Lemma ex_filled_ok : exists w, at_words {[1000]} w ex_filled /\ htable 9 8 Z.sub (fun x => x mod 2) ∅ w ex_table (bind_key Z.sub (fun _ => []) 2 20).
Proof.
  destruct ex_table_ok as (w & Hm & Ht).
  assert (Hh : forall x y, x - y = 0 -> x mod 2 = y mod 2) by (intros x y Hxy; f_equal; lia).
  pose proof (insert_spec 1 {[1000]} mod_hash 9 8 Z.sub (fun x => x mod 2) ex_hash_pure Hh ∅ w ex_table _ 2 20 _ Hm Ht) as Hw.
  assert (Hr : Cyc_Hashtable_insert 1 mod_hash ex_table 2 20 ex_created.2 = (Ret tt, ex_filled)) by (vm_compute; reflexivity).
  exact (wp_result _ _ _ _ _ _ Hw Hr).
Qed.

Lemma hashtable_iter_complete_witness : exists l m', Cyc_Hashtable_iter (fun _ _ => mret tt) ex_table ex_filled = (Ret tt, m') /\
  (filter (fun kv => 2 - kv.1 = 0) l).*2 = [20].
Proof.
  destruct ex_filled_ok as (w & Hm & Ht).
  assert (Hh : forall x y, x - y = 0 -> x mod 2 = y mod 2) by (intros x y Hxy; f_equal; lia).
  pose proof (hashtable_iter_complete {[1000]} 9 8 Z.sub (fun x => x mod 2) ∅ (fun _ _ => mret tt) (fun _ _ => True) (fun _ _ => False) w ex_table _ ex_filled
    Hh Hm Ht Logic.I (fun k v l w1 m1 H1 H2 _ => wp_ret tt _ _ _ (ex_intro _ w1 (conj H1 (conj H2 Logic.I))))) as Hw.
  destruct (wp_total _ _ _ Hw) as ([] & m' & Hr & l & _ & Hl & _). exists l, m'. split; [exact Hr|exact (Hl 2)].
Defined.

(** The hash of ["abcde"]: the first and the fifth character share a byte. *)
Example hash_string_wraps :
  (Cyc_Hashtable_hash_string (_tag_fat 500 1 5) (list_to_map (imap (fun i c => (500 + Z.of_nat i, c)) [97; 98; 99; 100; 101]))).1 =
  Ret (Z.lxor (97 + 256 * 98 + 65536 * 99 + 16777216 * 100) 101).
Proof. by vm_compute. Qed.
