(* ===== verification/CycPratt.v ===== *)
(** * Difference constraints

    Models src/bin/genfiles/pratt-ap.c, with which the compiler decides whether
    facts of the form [x - y <= c] about the integers of a program are
    consistent.  Graphs and edges are heap objects, shared and written in place.
    The cells of a list and the nodes they point to are written only when they
    are made, so a list is the sequence of its elements; each cell and each node
    is still allocated.  Types are compared by the unifier and by
    [Cyc_Tcutil_typecmp], which are the parameter [Types]: a pure comparison, as
    it is on types without unification variables that are still open. *)

From S2P Require Import Prelude RwLock Alloc Region RegionSafety Words FatPtr CycAP.

Definition pratt_cyc : string := "pratt-ap.cyc".

(** ** Nodes *)

Inductive Node : Type :=
  | NZero
  | NVar (vd : Z)
  | NNumelts (vd : Z)
  | NType (t : Z)
  | NParam (i : Z)
  | NParamNumelts (i : Z)
  | NReturn.

(** [Cyc_Unify_unify] and [Cyc_Tcutil_typecmp]. *)
Class Types : Type := { unify : Z -> Z -> bool; typecmp : Z -> Z -> Z }.

Definition Cyc_Pratt_cmp_node `{Types} (n1 n2 : Node) : Z :=
  match n1, n2 with
  | NZero, NZero => 0
  | NZero, _ => -1
  | _, NZero => 1
  | NReturn, NReturn => 0
  | NReturn, _ => -1
  | _, NReturn => 1
  | NVar x, NVar y => i32 (i32 x - i32 y)
  | NVar _, _ => -1
  | _, NVar _ => 1
  | NNumelts x, NNumelts y => i32 (i32 x - i32 y)
  | NNumelts _, _ => -1
  | _, NNumelts _ => 1
  | NType x, NType y => if unify x y then 0 else typecmp x y
  | NType _, _ => -1
  | _, NType _ => 1
  | NParam i, NParam j => i32 (i32 i - i32 j)
  | NParam _, _ => -1
  | _, NParam _ => 1
  | NParamNumelts i, NParamNumelts j => i32 (i32 i - i32 j)
  end.

(** ** Graphs *)

Record Edge : Type := mk_Edge { e_x : Node; e_y : Node; e_value : Z }.
Record Graph : Type := mk_Graph { g_nodes : list Node; g_edges : list Z }.

Record pratt_mem (H : Type) : Type := mk_pratt_mem {
  ap : ap_mem H;
  graphs : gmap Z Graph;
  edges : gmap Z Edge
}.
Arguments mk_pratt_mem {H} _ _ _.
Arguments ap {H} _.
Arguments graphs {H} _.
Arguments edges {H} _.

(** The result of [lookup_distance], an [AP_T**]: null, the address of the
    static zero, or the address of the value of an edge. *)
Inductive distance : Type := INFINITE | AtZero | AtEdge (e : Z).

Definition sizeof_List : Z := 8.
Definition sizeof_Node : Z := 8.
Definition sizeof_Edge : Z := 20.
Definition sizeof_Graph : Z := 8.

Section pratt.
Context {H : Type} `{Heap H} `{Types}.
Abbreviation M := (ST (pratt_mem H)).

(** ** Accesses *)

Definition on_ap {A} (c : ST (ap_mem H) A) : M A := fun s =>
  let '(r, a) := c (ap s) in (r, mk_pratt_mem a (graphs s) (edges s)).

Definition put_graph (G : Z) (g : Graph) : M unit := fun s =>
  (Ret tt, mk_pratt_mem (ap s) (<[G := g]> (graphs s)) (edges s)).

Definition put_edge (e : Z) (d : Edge) : M unit := fun s =>
  (Ret tt, mk_pratt_mem (ap s) (graphs s) (<[e := d]> (edges s))).

Definition graph_of (G : Z) : M Graph := s ← get; lift (load (graphs s) G).
Definition edge_of (e : Z) : M Edge := s ← get; lift (load (edges s) e).

(** [_cycalloc] *)
Definition cycalloc (n line : Z) : M Z := on_ap (on_hp (_bounded_GC_malloc n pratt_cyc line)).

(** [*d] and [*d = v] *)
Definition deref (d : distance) : M Z :=
  match d with
  | INFINITE => lift Undef
  | AtZero => s ← get; mret (AP_zero (ap s))
  | AtEdge e => x ← edge_of e; mret (e_value x)
  end.

Definition assign (d : distance) (v : Z) : M unit :=
  match d with
  | INFINITE => lift Undef
  | AtZero => s ← get; on_ap (put_statics v (AP_one (ap s)) (ap_init (ap s)))
  | AtEdge e => x ← edge_of e; put_edge e (mk_Edge (e_x x) (e_y x) v)
  end.

(** ** Operations *)

Definition Cyc_Pratt_empty_graph : M Z :=
  cycalloc sizeof_List 150;;
  G ← cycalloc sizeof_Graph 151; put_graph G (mk_Graph [NZero] []);; mret G.

(** [new Edge(x,y,v)] *)
Definition new_edge (x y : Node) (v line : Z) : M Z :=
  e ← cycalloc sizeof_Edge line; put_edge e (mk_Edge x y v);; mret e.

(** [G->edges = new List(new Edge(x,y,v), G->edges)] *)
Definition push_edge (G : Z) (x y : Node) (v line : Z) : M unit :=
  cycalloc sizeof_List line;;
  e ← new_edge x y v line;
  g ← graph_of G; put_graph G (mk_Graph (g_nodes g) (e :: g_edges g)).

(** The list is built in reverse and then reversed in place. *)
Fixpoint copy_edges_loop (ds res : list Z) : M (list Z) :=
  match ds with
  | [] => mret res
  | d :: ds =>
      x ← edge_of d; cycalloc sizeof_List 159;;
      e ← new_edge (e_x x) (e_y x) (e_value x) 159; copy_edges_loop ds (e :: res)
  end.

Definition Cyc_Pratt_copy_edges (ds : list Z) : M (list Z) :=
  res ← copy_edges_loop ds []; mret (reverse res).

Definition Cyc_Pratt_copy_graph (G : Z) : M Z :=
  g ← graph_of G;
  G2 ← cycalloc sizeof_Graph 166;
  es ← Cyc_Pratt_copy_edges (g_edges g); put_graph G2 (mk_Graph (g_nodes g) es);; mret G2.

Fixpoint find_edge (ds : list Z) (x y : Node) : M distance :=
  match ds with
  | [] => mret INFINITE
  | d :: ds =>
      e ← edge_of d;
      if (Cyc_Pratt_cmp_node (e_x e) x =? 0) && (Cyc_Pratt_cmp_node (e_y e) y =? 0) then mret (AtEdge d)
      else find_edge ds x y
  end.

Definition Cyc_Pratt_lookup_distance (G : Z) (x y : Node) : M distance :=
  if Cyc_Pratt_cmp_node x y =? 0 then mret AtZero
  else g ← graph_of G; find_edge (g_edges g) x y.

Definition Cyc_Pratt_set_distance (G : Z) (x y : Node) (d : Z) : M unit :=
  r ← Cyc_Pratt_lookup_distance G x y;
  match r with
  | INFINITE => push_edge G x y d 188
  | _ => assign r d
  end.

Definition Cyc_Pratt_add_node (G : Z) (x : Node) : M unit :=
  g ← graph_of G;
  if existsb (fun y => Cyc_Pratt_cmp_node x y =? 0) (g_nodes g) then mret tt
  else
    cycalloc sizeof_List 215;; cycalloc sizeof_Node 215;;
    put_graph G (mk_Graph (x :: g_nodes g) (g_edges g)).

(** One step of the inner loop of [add_edge]: the path from [k] to [l] through
    the new edge. *)
Definition relax (G : Z) (j : Node) (a : Z) (k : Node) (dist_ki : distance) (l : Node) : M unit :=
  dist_jl ← Cyc_Pratt_lookup_distance G j l;
  match dist_jl with
  | INFINITE => mret tt
  | _ =>
      dist_kl ← Cyc_Pratt_lookup_distance G k l;
      ki ← deref dist_ki; jl ← deref dist_jl;
      t ← on_ap (Cyc_AP_add a jl); d ← on_ap (Cyc_AP_add ki t);
      match dist_kl with
      | INFINITE => push_edge G k l d 266
      | _ =>
          kl ← deref dist_kl; c ← on_ap (Cyc_AP_cmp kl d);
          if 0 <? c then assign dist_kl d else mret tt
      end
  end.

Fixpoint relax_row (G : Z) (j : Node) (a : Z) (k : Node) (dist_ki : distance) (ls : list Node) : M unit :=
  match ls with
  | [] => mret tt
  | l :: ls => relax G j a k dist_ki l;; relax_row G j a k dist_ki ls
  end.

Fixpoint relax_all (G : Z) (i j : Node) (a : Z) (ks : list Node) : M unit :=
  match ks with
  | [] => mret tt
  | k :: ks =>
      dist_ki ← Cyc_Pratt_lookup_distance G k i;
      match dist_ki with
      | INFINITE => mret tt
      | _ => g ← graph_of G; relax_row G j a k dist_ki (g_nodes g)
      end;;
      relax_all G i j a ks
  end.

Definition Cyc_Pratt_add_edge (G : Z) (i j : Node) (a : Z) : M Z :=
  Cyc_Pratt_add_node G i;;
  Cyc_Pratt_add_node G j;;
  dist ← Cyc_Pratt_lookup_distance G i j;
  known ← match dist with
          | INFINITE => mret false
          | _ => v ← deref dist; c ← on_ap (Cyc_AP_cmp v a); mret (c <? 1)
          end;
  if known : bool then mret G
  else
    dist ← Cyc_Pratt_lookup_distance G j i;
    negative ← match dist with
               | INFINITE => mret false
               | _ =>
                   v ← deref dist; t ← on_ap (Cyc_AP_add v a);
                   s ← get; c ← on_ap (Cyc_AP_cmp t (AP_zero (ap s))); mret (c <? 0)
               end;
    if negative : bool then mret 0
    else g ← graph_of G; relax_all G i j a (g_nodes g);; mret G.
End pratt.
