(* ===== verification/PrattSpec.v ===== *)
(** * The difference-constraint solver computes shortest distances

    The mathematics of distances and their update by one edge, and the
    specifications of the operations of CycPratt.v. *)

From S2P Require Import Prelude RwLock Alloc Region RegionSafety Words FatPtr CycAP APSpec APArith APPow CycPratt.

(** ** Shortest distances and systems of difference constraints

    Over nodes with a decidable identification [eqb]: a distance function that
    satisfies the triangle inequality describes exactly the bounds that its
    system of constraints [v x - v y <= c] implies.  A new constraint either
    closes a negative cycle, and then the system has no solution, or changes the
    distances to the shorter of the old path and the path through it. *)

Section distances.
Context {N : Type} (eqb : N -> N -> bool).

Record identifies : Prop := {
  id_refl x : eqb x x = true;
  id_sym x y : eqb x y = true -> eqb y x = true;
  id_trans x y z : eqb x y = true -> eqb y z = true -> eqb x z = true
}.
Context (Heq : identifies).

Implicit Types (D : N -> N -> option Z) (v : N -> Z) (x y z i j : N) (ns : list N).

(** ** Closed distance functions *)

Record closed D : Prop := {
  cl_same x y : eqb x y = true -> D x y = Some 0;
  cl_proper x x' y y' : eqb x x' = true -> eqb y y' = true -> D x y = D x' y';
  cl_triangle x y z p q : D x y = Some p -> D y z = Some q -> exists r, D x z = Some r /\ r <= p + q
}.

(** Only nodes of [ns] are related to others. *)
Definition among x (ns : list N) : Prop := exists x', x' ∈ ns /\ eqb x x' = true.
Definition supported D (ns : list N) : Prop := forall x y c, D x y = Some c -> eqb x y = true \/ (among x ns /\ among y ns).

Definition sat v D : Prop := forall x y c, D x y = Some c -> v x - v y <= c.

(** ** Solutions *)

(** [v x] is the least of [b x] and of [D x w + b w] for the nodes [w]. *)
Fixpoint least D (b : N -> Z) (ns : list N) x : Z :=
  match ns with
  | [] => b x
  | w :: ns => match D x w with Some c => Z.min (c + b w) (least D b ns x) | None => least D b ns x end
  end.

Lemma least_le D b ns x : least D b ns x <= b x /\ (forall w c, w ∈ ns -> D x w = Some c -> least D b ns x <= c + b w).
Proof.
  induction ns as [|u ns [IH1 IH2]]; simpl; [split; [lia|]; intros w c Hw; by apply not_elem_of_nil in Hw|]. split.
  - destruct (D x u); lia.
  - intros w c [->|Hw]%elem_of_cons Hc; [rewrite Hc; lia|]. specialize (IH2 _ _ Hw Hc). destruct (D x u); lia.
Qed.

Lemma least_cases D b ns x : least D b ns x = b x \/ exists w c, w ∈ ns /\ D x w = Some c /\ least D b ns x = c + b w.
Proof.
  induction ns as [|u ns IH]; simpl; [by left|].
  assert (Hr : forall l, l = least D b ns x -> l = b x \/ exists w c, w ∈ u :: ns /\ D x w = Some c /\ l = c + b w).
  { intros l ->. destruct IH as [?|(w & c & Hw & Hc & ?)]; [by left|]. right. exists w, c. split; [by right|done]. }
  destruct (D x u) as [c|] eqn:Hc; [|by apply Hr]. destruct (decide (c + b u <= least D b ns x)).
  - right. exists u, c. split; [left|]. split; [done|]. lia.
  - apply Hr. lia.
Qed.

Lemma least_proper D b ns x y : closed D -> (forall x y, eqb x y = true -> b x = b y) -> eqb x y = true ->
  least D b ns x = least D b ns y.
Proof.
  intros Hc Hb Hxy. induction ns as [|u ns IH]; simpl; [by apply Hb|].
  rewrite (cl_proper _ Hc x y u u Hxy (id_refl Heq u)). destruct (D y u); lia.
Qed.

Lemma least_sat D b ns : closed D -> supported D ns -> (forall x y, eqb x y = true -> b x = b y) -> sat (least D b ns) D.
Proof.
  intros Hc Hs Hb x y c Hxy. destruct (Hs _ _ _ Hxy) as [He|[_ (y' & Hy' & Ey)]].
  { rewrite (least_proper _ _ _ _ _ Hc Hb He). rewrite (cl_same _ Hc _ _ He) in Hxy. injection Hxy as <-. lia. }
  destruct (least_le D b ns x) as [_ Hle]. destruct (least_cases D b ns y) as [->|(w & d & Hw & Hd & ->)].
  - rewrite (cl_proper _ Hc x x y y' (id_refl Heq x) Ey) in Hxy. specialize (Hle _ _ Hy' Hxy). rewrite (Hb _ _ Ey). lia.
  - destruct (cl_triangle _ Hc _ _ _ _ _ Hxy Hd) as (r & Hr & ?). specialize (Hle _ _ Hw Hr). lia.
Qed.

(** An offset that pushes every other path away. *)
Lemma offset D ns x (lo : Z) : exists B, forall w d, w ∈ ns -> D x w = Some d -> lo <= d + B.
Proof.
  induction ns as [|u ns [B IH]]; [exists 0; intros w d Hw; by apply not_elem_of_nil in Hw|].
  exists (match D x u with Some d => Z.max B (lo - d) | None => B end). intros w d [->|Hw]%elem_of_cons Hd.
  - rewrite Hd. lia.
  - specialize (IH _ _ Hw Hd). destruct (D x u); lia.
Qed.

(** The distance is the greatest difference over the solutions, and without a
    distance the differences are unbounded. *)
Lemma tight D ns x y o (lo : Z) : closed D -> supported D ns ->
  exists v, sat v D /\ v o = 0 /\ match D x y with Some c => v x - v y = c | None => lo <= v x - v y end.
Proof.
  intros Hc Hs. set (lo' := match D x y with Some c => c | None => lo end).
  destruct (offset D ns y 0) as [B1 H1], (offset D ns x lo') as [B2 H2]. set (B := Z.max (Z.max B1 B2) (Z.max 0 lo')).
  set (b := fun w => if eqb w y then 0 else B).
  assert (Hb : forall u w, eqb u w = true -> b u = b w).
  { intros u w E. unfold b. destruct (eqb u y) eqn:E1, (eqb w y) eqn:E2; try done.
    - by rewrite (id_trans Heq w u y) in E2 by (done || by apply (id_sym Heq)).
    - by rewrite (id_trans Heq u w y) in E1. }
  set (v := least D b ns). assert (Hv : sat v D) by (by apply least_sat).
  assert (Hy : v y = 0).
  { assert (b y = 0) by (unfold b; by rewrite (id_refl Heq)). pose proof (proj1 (least_le D b ns y)).
    unfold v. destruct (least_cases D b ns y) as [?|(w & d & Hw & Hd & ?)]; [lia|]. specialize (H1 _ _ Hw Hd).
    unfold b in *. destruct (eqb w y) eqn:E; [|lia]. rewrite (cl_same _ Hc) in Hd by (by apply (id_sym Heq)). injection Hd as <-. lia. }
  assert (Hx : match D x y with Some c => v x = c | None => lo <= v x end).
  { assert (Hlow : lo' <= v x).
    { unfold v. destruct (least_cases D b ns x) as [->|(w & d & Hw & Hd & ->)]; unfold b.
      - destruct (eqb x y) eqn:E; [|lia]. unfold lo'. rewrite (cl_same _ Hc _ _ E). lia.
      - specialize (H2 _ _ Hw Hd). destruct (eqb w y) eqn:E; [|lia]. unfold lo'.
        rewrite (cl_proper _ Hc x x w y (id_refl Heq x) E) in Hd. rewrite Hd. lia. }
    unfold lo' in Hlow. destruct (D x y) as [c|] eqn:Hxy; [|done]. pose proof (Hv _ _ _ Hxy). lia. }
  exists (fun z => v z - v o). split; [|split; [lia|]].
  - intros u w c Hd. pose proof (Hv _ _ _ Hd). lia.
  - destruct (D x y); lia.
Qed.

(** ** A new constraint *)

Definition shorter (a b : option Z) : option Z :=
  match a, b with Some p, Some q => Some (Z.min p q) | Some p, None => Some p | None, _ => b end.

Definition through D i j (a : Z) x y : option Z :=
  match D x i, D j y with Some p, Some q => Some (p + (a + q)) | _, _ => None end.

(** The distances with the constraint [i - j <= a]. *)
Definition update D i j (a : Z) x y : option Z := shorter (D x y) (through D i j a x y).

Lemma update_cases D i j a x y c : update D i j a x y = Some c ->
  D x y = Some c \/ exists p q, D x i = Some p /\ D j y = Some q /\ c = p + (a + q).
Proof.
  unfold update, shorter, through. destruct (D x y) as [o|], (D x i) as [p|], (D j y) as [q|]; intros [= <-]; auto; [|right; by exists p, q].
  destruct (decide (o <= p + (a + q))); [left; f_equal; lia|right]. exists p, q. split_and!; [done|done|lia].
Qed.

Lemma update_old D i j a x y c : D x y = Some c -> exists c', update D i j a x y = Some c' /\ c' <= c.
Proof.
  intros Hc. unfold update, shorter, through. rewrite Hc. destruct (D x i) as [p|], (D j y) as [q|]; eexists; (split; [done|lia]).
Qed.

Lemma update_new D i j a x y p q : D x i = Some p -> D j y = Some q -> exists c', update D i j a x y = Some c' /\ c' <= p + (a + q).
Proof.
  intros Hp Hq. unfold update, shorter, through. rewrite Hp, Hq. destruct (D x y); eexists; (split; [done|lia]).
Qed.

Section new.
Context D i j (a : Z) (Hc : closed D) (Hcycle : forall c, D j i = Some c -> 0 <= c + a).

(** A path through the new edge to its start, or from its end, is not shorter. *)
Lemma update_to x : update D i j a x i = D x i.
Proof.
  unfold update, through. destruct (D x i) as [p|]; [|done]. destruct (D j i) as [q|] eqn:Hq; simpl; [|done].
  specialize (Hcycle _ eq_refl). f_equal. lia.
Qed.

Lemma update_from y : update D i j a j y = D j y.
Proof.
  unfold update, through. destruct (D j i) as [p|] eqn:Hp; [|by destruct (D j y)]. specialize (Hcycle _ eq_refl).
  destruct (D j y) as [q|]; simpl; [|done]. f_equal. lia.
Qed.

Lemma cycle_through x p q : D x i = Some p -> D j x = Some q -> 0 <= p + (a + q).
Proof. intros Hp Hq. destruct (cl_triangle _ Hc _ _ _ _ _ Hq Hp) as (r & Hr & ?). specialize (Hcycle _ Hr). lia. Qed.

Lemma update_closed : closed (update D i j a).
Proof.
  split.
  - intros x y E. unfold update, through. rewrite (cl_same _ Hc _ _ E).
    destruct (D x i) as [p|] eqn:Hp; [|done]. destruct (D j y) as [q|] eqn:Hq; [|done].
    rewrite (cl_proper _ Hc j j y x (id_refl Heq j) (id_sym Heq _ _ E)) in Hq. pose proof (cycle_through _ _ _ Hp Hq). simpl. f_equal. lia.
  - intros x x' y y' Ex Ey. unfold update, through. rewrite (cl_proper _ Hc x x' y y' Ex Ey), (cl_proper _ Hc x x' i i Ex (id_refl Heq i)).
    by rewrite (cl_proper _ Hc j j y y' (id_refl Heq j) Ey).
  - intros x y z p q Hp Hq.
    apply update_cases in Hp as [Hp|(p1 & p2 & Hp1 & Hp2 & ->)], Hq as [Hq|(q1 & q2 & Hq1 & Hq2 & ->)].
    + destruct (cl_triangle _ Hc _ _ _ _ _ Hp Hq) as (r & Hr & ?). destruct (update_old D i j a _ _ _ Hr) as (r' & ? & ?). exists r'. split; [done|lia].
    + destruct (cl_triangle _ Hc _ _ _ _ _ Hp Hq1) as (r & Hr & ?). destruct (update_new D i j a x z _ _ Hr Hq2) as (r' & ? & ?).
      exists r'. split; [done|lia].
    + destruct (cl_triangle _ Hc _ _ _ _ _ Hp2 Hq) as (r & Hr & ?). destruct (update_new D i j a x z _ _ Hp1 Hr) as (r' & ? & ?).
      exists r'. split; [done|lia].
    + pose proof (cycle_through _ _ _ Hq1 Hp2). destruct (update_new D i j a x z _ _ Hp1 Hq2) as (r' & ? & ?). exists r'. split; [done|lia].
Qed.
End new.

Lemma update_sat D i j a v : closed D -> sat v (update D i j a) <-> sat v D /\ v i - v j <= a.
Proof.
  intros Hc. split.
  - intros Hv. split.
    + intros x y c Hd. destruct (update_old D i j a _ _ _ Hd) as (c' & Hd' & ?). pose proof (Hv _ _ _ Hd'). lia.
    + destruct (update_new D i j a i j 0 0) as (c' & Hd & ?); [by apply (cl_same _ Hc), (id_refl Heq)..|]. pose proof (Hv _ _ _ Hd). lia.
  - intros [Hv Ha] x y c [Hd|(p & q & Hp & Hq & ->)]%update_cases; [by apply Hv|].
    pose proof (Hv _ _ _ Hp). pose proof (Hv _ _ _ Hq). lia.
Qed.

(** ** Systems of constraints *)

Abbreviation constraint := (N * N * Z)%type.

Definition solves v (cs : list constraint) : Prop :=
  (forall x y, eqb x y = true -> v x = v y) /\ Forall (fun '(i, j, a) => v i - v j <= a) cs.

(** [D] are the distances of the system [cs]. *)
Record distances_of (cs : list constraint) D (ns : list N) : Prop := {
  do_closed : closed D;
  do_supported : supported D ns;
  do_solutions v : solves v cs <-> sat v D
}.

Lemma distances_more cs D ns ns' : distances_of cs D ns -> (forall x, x ∈ ns -> x ∈ ns') -> distances_of cs D ns'.
Proof.
  intros [Hc Hs Hv] Hn. split; [done| |done]. intros x y c Hd. destruct (Hs _ _ _ Hd) as [?|[(x' & ? & ?) (y' & ? & ?)]]; [by left|right].
  split; [exists x'|exists y']; auto.
Qed.

Lemma distances_ext cs D D' ns : (forall x y, D x y = D' x y) -> distances_of cs D ns -> distances_of cs D' ns.
Proof.
  intros E [[C1 C2 C3] Hs Hv]. split.
  - split; [intros x y; rewrite <- E; apply C1|intros x x' y y'; rewrite <- !E; apply C2|intros x y z p q; rewrite <- !E; apply C3].
  - intros x y c. rewrite <- E. apply Hs.
  - intros v. rewrite Hv. unfold sat. by setoid_rewrite E.
Qed.

Lemma solves_cons v i j a cs : solves v ((i, j, a) :: cs) <-> solves v cs /\ v i - v j <= a.
Proof. unfold solves. rewrite Forall_cons. tauto. Qed.

(** The three outcomes of adding a constraint. *)
Lemma distances_known cs D ns i j a c : distances_of cs D ns -> D i j = Some c -> c <= a -> distances_of ((i, j, a) :: cs) D ns.
Proof.
  intros [Hc Hs Hv] Hd Hle. split; [done|done|]. intros v. rewrite solves_cons, Hv. split; [tauto|].
  intros Hsat. split; [done|]. pose proof (Hsat _ _ _ Hd). lia.
Qed.

Lemma distances_cycle cs D ns i j a c : distances_of cs D ns -> D j i = Some c -> c + a < 0 -> forall v, ~ solves v ((i, j, a) :: cs).
Proof.
  intros [Hc Hs Hv] Hd Hneg v [Hsol Ha]%solves_cons. apply Hv in Hsol. pose proof (Hsol _ _ _ Hd). lia.
Qed.

Lemma among_proper x y ns : eqb x y = true -> among y ns -> among x ns.
Proof. intros E (y' & Hy & E'). exists y'. split; [done|]. by apply (id_trans Heq x y y'). Qed.

(** The ends of a path through the new edge. *)
Lemma through_among D ns i j x y p q : supported D ns -> among i ns -> among j ns -> D x i = Some p -> D j y = Some q ->
  among x ns /\ among y ns.
Proof.
  intros Hs Hi Hj Hp Hq. split.
  - destruct (Hs _ _ _ Hp) as [E|[? _]]; [by eapply among_proper|done].
  - destruct (Hs _ _ _ Hq) as [E|[_ ?]]; [eapply among_proper; [|exact Hj]; by apply (id_sym Heq)|done].
Qed.

Lemma distances_update cs D ns i j a : distances_of cs D ns -> among i ns -> among j ns -> (forall c, D j i = Some c -> 0 <= c + a) ->
  distances_of ((i, j, a) :: cs) (update D i j a) ns.
Proof.
  intros [Hc Hs Hv] Hi Hj Hcyc. split; [by apply update_closed| |].
  - intros x y c [Hd|(p & q & Hp & Hq & _)]%update_cases; [by eapply Hs|]. right. by apply (through_among D ns i j x y p q).
  - intros v. rewrite solves_cons, Hv. by rewrite update_sat.
Qed.

(** A system with distances has solutions, and the distances are its bounds. *)
Lemma distances_bound cs D ns x y o (lo : Z) : distances_of cs D ns ->
  exists v, solves v cs /\ v o = 0 /\ match D x y with Some c => v x - v y = c | None => lo <= v x - v y end.
Proof. intros [Hc Hs Hv]. destruct (tight D ns x y o lo Hc Hs) as (v & Hsat & ?). exists v. by rewrite Hv. Qed.

(** No constraints: only a node and itself are related. *)
Lemma distances_empty ns : distances_of [] (fun x y => if eqb x y then Some 0 else None) ns.
Proof.
  split.
  - split.
    + by intros x y ->.
    + intros x x' y y' Ex Ey. destruct (eqb x y) eqn:E1, (eqb x' y') eqn:E2; try done; exfalso.
      * rewrite (id_trans Heq x' x y') in E2; [done|by apply (id_sym Heq)|]. by apply (id_trans Heq x y y').
      * rewrite (id_trans Heq x x' y) in E1; [done|done|]. apply (id_trans Heq x' y' y); [done|by apply (id_sym Heq)].
    + intros x y z p q. destruct (eqb x y) eqn:E1, (eqb y z) eqn:E2; intros [= <-] [= <-]. rewrite (id_trans Heq x y z) by done. by exists 0.
  - intros x y c. destruct (eqb x y); [by left|done].
  - intros v. unfold solves, sat. rewrite Forall_nil. split.
    + intros [Hv _] x y c Hd. destruct (eqb x y) eqn:E; [|done]. rewrite (Hv _ _ E). injection Hd as <-. lia.
    + intros Hv. split; [|done]. intros x y E. pose proof (Hv x y 0) as H1. pose proof (Hv y x 0) as H2.
      rewrite E in H1. rewrite (id_sym Heq _ _ E) in H2. specialize (H1 eq_refl). specialize (H2 eq_refl). lia.
Qed.
End distances.

(** ** The graph operations keep shortest distances

    The state of CycPratt.v as graphs over abstract edges, the invariant of that
    state, and the specification of every operation: adding an edge to a graph
    that holds the distances of a system of constraints decides whether the
    system with the new constraint has a solution and, if so, leaves its
    distances, without touching any other graph. *)

(** ** Nodes *)

(** The comparison of types decides an equivalence. *)
Class TypeLaws `{Types} : Prop := {
  type_refl x : (if unify x x then 0 else typecmp x x) = 0;
  type_sym x y : (if unify x y then 0 else typecmp x y) = 0 -> (if unify y x then 0 else typecmp y x) = 0;
  type_trans x y z : (if unify x y then 0 else typecmp x y) = 0 -> (if unify y z then 0 else typecmp y z) = 0 ->
    (if unify x z then 0 else typecmp x z) = 0
}.

Definition eqn `{Types} (x y : Node) : bool := Cyc_Pratt_cmp_node x y =? 0.

Lemma word_diff x y : i32 (i32 x - i32 y) = 0 <-> u32 x = u32 y.
Proof. split; words. Qed.

Lemma node_identifies `{TypeLaws} : identifies eqn.
Proof.
  unfold eqn. split.
  - intros []; simpl; try done; apply Z.eqb_eq; try apply type_refl; by apply word_diff.
  - intros [] []; simpl; try done; rewrite !Z.eqb_eq, ?word_diff; try apply type_sym; done.
  - intros [] [] []; simpl; try done; rewrite !Z.eqb_eq, ?word_diff; try apply type_trans; congruence.
Qed.

Section spec.
Context {H : Type} `{HH : Heap H} `{!HeapLaws H} {TY : Types} {TL : TypeLaws}.
Implicit Types (s : pratt_mem H) (x y i j k l : Node).

Abbreviation refl := (id_refl _ node_identifies).
Abbreviation sym := (id_sym _ node_identifies).
Abbreviation trans := (id_trans _ node_identifies).

(** ** Distances of a list of edges *)

Abbreviation aedge := (Node * Node * Z)%type.

Fixpoint find (es : list aedge) x y : option Z :=
  match es with
  | [] => None
  | (u, w, c) :: es => if eqn u x && eqn w y then Some c else find es x y
  end.

Definition dist (es : list aedge) x y : option Z := if eqn x y then Some 0 else find es x y.

Lemma eqn_proper u x x' : eqn x x' = true -> eqn u x = eqn u x'.
Proof.
  intros E. destruct (eqn u x) eqn:E1, (eqn u x') eqn:E2; try done.
  - by rewrite (trans u x x') in E2.
  - rewrite (trans u x' x) in E1; [done|done|by apply sym].
Qed.

Lemma find_proper es x x' y y' : eqn x x' = true -> eqn y y' = true -> find es x y = find es x' y'.
Proof.
  intros Ex Ey. induction es as [|[[u w] c] es IH]; simpl; [done|]. by rewrite (eqn_proper u x x'), (eqn_proper w y y'), IH.
Qed.

Lemma find_app es1 es2 x y : find (es1 ++ es2) x y = match find es1 x y with Some c => Some c | None => find es2 x y end.
Proof. induction es1 as [|[[u w] c] es1 IH]; simpl; [done|]. by destruct (eqn u x && eqn w y). Qed.

Lemma dist_push k l d es x y : dist ((k, l, d) :: es) x y =
  if eqn x y then Some 0 else if eqn k x && eqn l y then Some d else dist es x y.
Proof. unfold dist. simpl. by destruct (eqn x y). Qed.

(** Replacing the value of the edge that gives the distance from [k] to [l]. *)
Lemma dist_replace es1 u w c d es2 k l x y : find es1 k l = None -> eqn u k = true -> eqn w l = true ->
  dist (es1 ++ (u, w, d) :: es2) x y =
  if eqn x y then Some 0 else if eqn k x && eqn l y then Some d else dist (es1 ++ (u, w, c) :: es2) x y.
Proof.
  intros Hf Eu Ew. unfold dist. destruct (eqn x y) eqn:E; [done|]. rewrite !find_app. simpl.
  destruct (eqn k x && eqn l y) eqn:Em.
  - apply andb_true_iff in Em as [Ek El]. rewrite <- (find_proper es1 k x l y), Hf by done.
    by rewrite (trans u k x), (trans w l y).
  - replace (eqn u x && eqn w y) with false; [done|]. symmetry. apply andb_false_iff. apply andb_false_iff in Em as [Em|Em]; [left|right].
    + destruct (eqn u x) eqn:E1; [|done]. rewrite (trans k u x) in Em; [done|by apply sym|done].
    + destruct (eqn w y) eqn:E1; [|done]. rewrite (trans l w y) in Em; [done|by apply sym|done].
Qed.

(** ** State *)

Abbreviation live s := (gc_live (heap (hp (ap s)))).

Record pratt_inv s : Prop := {
  pi_heap : heap_inv (ap s);
  pi_init : initialized (ap s);
  pi_graphs : forall G, is_Some (graphs s !! G) -> is_Some (live s !! G);
  pi_edges : forall e, is_Some (edges s !! e) -> is_Some (live s !! e)
}.

Definition edge_at s (e : Z) (d : aedge) : Prop :=
  exists v, edges s !! e = Some (mk_Edge d.1.1 d.1.2 v) /\ is_num (ap s) v d.2.

(** The object [G] is a graph with these nodes, edge objects and edges. *)
Record graph_at s (G : Z) (ns : list Node) (ps : list Z) (es : list aedge) : Prop := {
  ga_null : G <> 0;
  ga_graph : graphs s !! G = Some (mk_Graph ns ps);
  ga_edges : Forall2 (edge_at s) ps es;
  ga_nodup : NoDup ps
}.

(** Only [G] and its edge objects [ps0] have been written since [s0]; the edge
    objects are now [ps]. *)
Record evolves s0 (G : Z) (ps0 : list Z) s (ps : list Z) : Prop := {
  ev_ext : ext (ap s0) (ap s);
  ev_graphs : forall G' g, G' <> G -> graphs s0 !! G' = Some g -> graphs s !! G' = Some g;
  ev_edges : forall e d, e ∉ ps0 -> edges s0 !! e = Some d -> edges s !! e = Some d;
  ev_new : forall e, e ∈ ps -> e ∈ ps0 \/ edges s0 !! e = None
}.

Definition oom : exn -> pratt_mem H -> Prop := fun e _ => e = Cyc_Bad_alloc.

Lemma graph_evolves_refl s G ps : evolves s G ps s ps.
Proof. split; [done|done|done|]. by left. Qed.

Lemma graph_evolves_trans s0 G ps0 s1 ps1 s2 ps2 : evolves s0 G ps0 s1 ps1 -> evolves s1 G ps1 s2 ps2 -> evolves s0 G ps0 s2 ps2.
Proof.
  intros [X1 G1 E1 N1] [X2 G2 E2 N2]. split; [by etrans|eauto| |].
  - intros e d He Hd. apply E2; [|by apply E1]. intros Hin. destruct (N1 _ Hin) as [?|Hn]; [done|]. by rewrite Hn in Hd.
  - intros e He. destruct (N2 _ He) as [Hin|Hn]; [by apply N1|]. destruct (decide (e ∈ ps0)) as [|Hni]; [by left|].
    right. destruct (edges s0 !! e) as [d|] eqn:Hd; [|done]. by rewrite (E1 _ _ Hni Hd) in Hn.
Qed.

(** Another graph with its own edge objects is not affected. *)
Lemma graph_at_frame s0 G ps0 s ps G' ns es' ps' : evolves s0 G ps0 s ps -> graph_at s0 G' ns ps' es' -> G' <> G ->
  (forall e, e ∈ ps' -> e ∉ ps0) -> graph_at s G' ns ps' es'.
Proof.
  intros [X Hg He _] [Hn HG HE Hnd] Hne Hdis. split; [done|by apply Hg| |done].
  apply Forall2_same_length_lookup_2; [by eapply Forall2_length|]. intros n e d H1 H2.
  destruct (Forall2_lookup_lr _ _ _ _ _ _ HE H1 H2) as (v & Hv & Hnum). exists v. split; [|by eapply is_num_ext].
  apply He; [|done]. apply Hdis. by eapply list_elem_of_lookup_2.
Qed.

(** ** Accesses *)

Definition set_ap s (a : ap_mem H) : pratt_mem H := mk_pratt_mem a (graphs s) (edges s).

Lemma wp_on_ap {A} (c : ST (ap_mem H) A) P (Q : A -> pratt_mem H -> Prop) s :
  wp c P (ap_oom (ap s)) (ap s) -> (forall r a, P r a -> Q r (set_ap s a)) -> wp (on_ap c) Q oom s.
Proof.
  intros Hc HQ. destruct (wp_cases _ _ _ _ Hc) as [(r & a & Hr & HP)|(e & f & ln & a & Hr & (-> & _))].
  - eapply (wp_run _ _ _ _ r (set_ap s a)); [unfold on_ap; by rewrite Hr|by apply HQ].
  - eapply (wp_throws _ _ _ _ _ f ln (set_ap s a)); [unfold on_ap; by rewrite Hr|done].
Qed.

Lemma pratt_inv_ap s a : pratt_inv s -> ext (ap s) a -> heap_inv a -> pratt_inv (set_ap s a).
Proof.
  intros [Hh Hi Hg He] Hx Ha.
  assert (Hl : forall p, is_Some (live s !! p) -> is_Some (gc_live (heap (hp a)) !! p)).
  { intros p [b Hb]. exists b. eapply lookup_weaken; [done|apply Hx]. }
  split; simpl; [done|by eapply initialized_ext|auto|auto].
Qed.

Lemma ap_evolves s a G ps : ext (ap s) a -> evolves s G ps (set_ap s a) ps.
Proof. intros Hx. split; [done|done|done|]. by left. Qed.

Lemma graph_at_ap s a G ns ps es : ext (ap s) a -> graph_at s G ns ps es -> graph_at (set_ap s a) G ns ps es.
Proof.
  intros Hx [? ? HE ?]. split; [done|done| |done]. eapply Forall2_impl; [exact HE|]. intros e d (v & Hv & Hnum).
  exists v. split; [done|by eapply is_num_ext].
Qed.

Lemma wp_result_ap s c v (Q : Z -> pratt_mem H -> Prop) : pratt_inv s -> (ap_ok (ap s) -> wp c (result (ap s) v) (ap_oom (ap s)) (ap s)) ->
  (forall r a, is_num a r v -> ext (ap s) a -> pratt_inv (set_ap s a) -> Q r (set_ap s a)) -> wp (on_ap c) Q oom s.
Proof.
  intros Hi Hc HQ. eapply wp_on_ap; [apply Hc; split; [apply Hi|right; apply Hi]|]. intros r a (Hn & Hx & Hh & _).
  apply HQ; [done|done|by apply pratt_inv_ap].
Qed.

Lemma wp_cmp_ap s (p q vx vy : Z) (Q : Z -> pratt_mem H -> Prop) : is_num (ap s) p vx -> is_num (ap s) q vy ->
  (forall c, Z.sgn c = Z.sgn (vx - vy) -> Q c s) -> wp (on_ap (Cyc_AP_cmp p q)) Q oom s.
Proof.
  intros Hx Hy HQ. eapply (wp_on_ap _ (fun c a => Z.sgn c = Z.sgn (vx - vy) /\ a = ap s)); [by eapply cmp_value|].
  intros c a [Hc ->]. destruct s. by apply HQ.
Qed.

Lemma wp_graph_of G ns ps es s (Q : Graph -> pratt_mem H -> Prop) E : graph_at s G ns ps es -> Q (mk_Graph ns ps) s -> wp (graph_of G) Q E s.
Proof. intros Hg HQ. unfold graph_of. wps. unfold load. rewrite (ga_graph _ _ _ _ _ Hg). by apply wp_lift. Qed.

Lemma wp_edge_of e d s (Q : Edge -> pratt_mem H -> Prop) E : edges s !! e = Some d -> Q d s -> wp (edge_of e) Q E s.
Proof. intros He HQ. unfold edge_of. wps. unfold load. rewrite He. by apply wp_lift. Qed.

(** A new object is none there was. *)
Lemma wp_solver_alloc n line s (Q : Z -> pratt_mem H -> Prop) : pratt_inv s -> 0 <= n < INT_MAX ->
  (forall p a, p <> 0 -> ext (ap s) a -> pratt_inv (set_ap s a) -> graphs s !! p = None -> edges s !! p = None ->
     is_Some (gc_live (heap (hp a)) !! p) -> Q p (set_ap s a)) ->
  wp (cycalloc n line) Q oom s.
Proof.
  intros Hi Hn HQ. eapply (wp_on_ap _ (fun p a => p <> 0 /\ exists m' z, fresh_block (hp (ap s)) m' n z p /\ a = set_hp (ap s) m')).
  - eapply wp_on_hp; [apply Hi|apply malloc_allocates; [apply Hi|done]|]. eauto.
  - intros p a (Hp & m' & z & Hf & ->). destruct (fresh_block_live _ _ _ _ _ Hf) as (Hnone & Hsub & Hl).
    assert (Hx : ext (ap s) (set_hp (ap s) m')) by (by split).
    apply HQ; [done|done| | | |].
    + apply pratt_inv_ap; [done|done|]. by eapply fresh_unused; [apply Hi|exact Hf|lia].
    + apply eq_None_not_Some. intros Hs. apply (pi_graphs _ Hi) in Hs. rewrite Hnone in Hs. by destruct Hs.
    + apply eq_None_not_Some. intros Hs. apply (pi_edges _ Hi) in Hs. rewrite Hnone in Hs. by destruct Hs.
    + done.
Qed.

(** ** Looking up distances *)

Lemma finite_branch {A} d (c1 c2 : A) : d <> INFINITE -> match d with INFINITE => c1 | _ => c2 end = c2.
Proof. by destruct d. Qed.

(** What [lookup_distance] answers for [x] and [y]. *)
Inductive points (ps : list Z) (es : list aedge) x y : distance -> Prop :=
  | points_infinite : dist es x y = None -> points ps es x y INFINITE
  | points_zero : eqn x y = true -> points ps es x y AtZero
  | points_edge ps1 e ps2 es1 u w c es2 : eqn x y = false -> ps = ps1 ++ e :: ps2 -> es = es1 ++ (u, w, c) :: es2 ->
      length ps1 = length es1 -> find es1 x y = None -> eqn u x = true -> eqn w y = true -> points ps es x y (AtEdge e).

Lemma find_edge_spec s ps0 es0 ps es x y (Q : distance -> pratt_mem H -> Prop) E : Forall2 (edge_at s) ps es ->
  eqn x y = false -> length ps0 = length es0 -> find es0 x y = None ->
  (forall d, points (ps0 ++ ps) (es0 ++ es) x y d -> Q d s) -> wp (find_edge ps x y) Q E s.
Proof.
  intros HE Hxy. revert ps0 es0. induction HE as [|e [[u w] c] ps es (v & He & _) HE IH]; intros ps0 es0 Hl Hf HQ; simpl.
  { wps. apply HQ. constructor. unfold dist. by rewrite Hxy, app_nil_r. }
  wps. eapply wp_edge_of; [done|]. simpl. fold (eqn u x) (eqn w y). destruct (eqn u x && eqn w y) eqn:Em.
  - wps. apply HQ. apply andb_true_iff in Em as [Eu Ew]. by econstructor.
  - apply (IH (ps0 ++ [e]) (es0 ++ [(u, w, c)])).
    + rewrite !length_app. simpl. lia.
    + rewrite find_app, Hf. simpl. by rewrite Em.
    + intros d. rewrite <- !app_assoc. apply HQ.
Qed.

Lemma distance_spec s G ns ps es x y (Q : distance -> pratt_mem H -> Prop) E : graph_at s G ns ps es ->
  (forall d, points ps es x y d -> Q d s) -> wp (Cyc_Pratt_lookup_distance G x y) Q E s.
Proof.
  intros Hg HQ. unfold Cyc_Pratt_lookup_distance. fold (eqn x y). destruct (eqn x y) eqn:Exy; [wps; apply HQ; by constructor|].
  wps. eapply wp_graph_of; [exact Hg|]. apply (find_edge_spec s [] []  _ es); [apply Hg|done|done|done|done].
Qed.

Lemma points_dist ps es x y d : points ps es x y d -> d = INFINITE \/ exists c, dist es x y = Some c.
Proof.
  intros []; [by left|right; exists 0; unfold dist; by rewrite H0|right]. subst. exists c. unfold dist. rewrite H0, find_app, H4. simpl. by rewrite H5, H6.
Qed.

Lemma deref_spec s G ns ps es x y d (Q : Z -> pratt_mem H -> Prop) E : pratt_inv s -> graph_at s G ns ps es -> points ps es x y d -> d <> INFINITE ->
  (forall v c, dist es x y = Some c -> is_num (ap s) v c -> Q v s) -> wp (deref d) Q E s.
Proof.
  intros Hi Hg Hp Hd HQ. destruct Hp as [|Hxy|ps1 e ps2 es1 u w c es2 Hxy -> -> Hl Hf Hu Hw]; [done| |]; simpl.
  - wps. apply (HQ _ 0); [unfold dist; by rewrite Hxy|apply (pi_init _ Hi)].
  - pose proof (ga_edges _ _ _ _ _ Hg) as HE. apply Forall2_app_inv in HE as [_ HE]; [|done]. apply Forall2_cons in HE as [(v & He & Hv) _].
    wps. eapply wp_edge_of; [exact He|]. wps. apply (HQ _ c); [|done]. unfold dist. rewrite Hxy, find_app, Hf. simpl. by rewrite Hu, Hw.
Qed.

(** ** Writing edges *)

Definition set_graph s (G : Z) (g : Graph) : pratt_mem H := mk_pratt_mem (ap s) (<[G := g]> (graphs s)) (edges s).
Definition set_edge s (e : Z) (d : Edge) : pratt_mem H := mk_pratt_mem (ap s) (graphs s) (<[e := d]> (edges s)).

Lemma edge_at_other s e d ps es : e ∉ ps -> Forall2 (edge_at s) ps es -> Forall2 (edge_at (set_edge s e d)) ps es.
Proof.
  intros Hn HE. induction HE as [|p q ps es (v & Hv & Hnum) HE IH]; [done|]. apply not_elem_of_cons in Hn as [Hne Hn].
  constructor; [|by apply IH]. exists v. split; [|done]. simpl. by rewrite lookup_insert_ne.
Qed.

Lemma pratt_inv_graph s G g : pratt_inv s -> is_Some (live s !! G) -> pratt_inv (set_graph s G g).
Proof.
  intros [? ? Hg ?] HG. split; [done|done| |done]. simpl. intros G'. rewrite lookup_insert. case_decide; [by subst|apply Hg].
Qed.

Lemma pratt_inv_edge s e d : pratt_inv s -> is_Some (live s !! e) -> pratt_inv (set_edge s e d).
Proof.
  intros [? ? ? He] HG. split; [done|done|done|]. simpl. intros e'. rewrite lookup_insert. case_decide; [by subst|apply He].
Qed.

Lemma new_edge_spec s x y v c line (Q : Z -> pratt_mem H -> Prop) : pratt_inv s -> is_num (ap s) v c ->
  (forall e s', pratt_inv s' -> ext (ap s) (ap s') -> graphs s' = graphs s -> edges s !! e = None ->
     edges s' = <[e := mk_Edge x y v]> (edges s) -> edge_at s' e (x, y, c) -> Q e s') ->
  wp (new_edge x y v line) Q oom s.
Proof.
  intros Hi Hv HQ. unfold new_edge. wps. apply wp_solver_alloc; [done|unfold sizeof_Edge, INT_MAX; lia|].
  intros e a He Hx Hi1 _ Hne Hl. wps. eapply wp_run; [done|]. wps. apply HQ; [|done|done|done|done|].
  - by apply (pratt_inv_edge (set_ap s a)).
  - exists v. simpl. rewrite lookup_insert_eq. split; [done|by eapply is_num_ext].
Qed.

Lemma edges_sub_at s s' ps es : ext (ap s) (ap s') -> edges s ⊆ edges s' -> Forall2 (edge_at s) ps es -> Forall2 (edge_at s') ps es.
Proof.
  intros Hx He HE. eapply Forall2_impl; [exact HE|]. intros e d (v & Hv & Hnum). exists v. split; [by eapply lookup_weaken|by eapply is_num_ext].
Qed.

Lemma edge_at_dom s ps es e : Forall2 (edge_at s) ps es -> edges s !! e = None -> e ∉ ps.
Proof.
  intros HE Hn Hin. apply list_elem_of_lookup in Hin as [n Hin]. destruct (Forall2_lookup_l _ _ _ _ _ HE Hin) as (d & _ & v & Hv & _). by rewrite Hn in Hv.
Qed.

Lemma push_edge_spec s0 G ps0 s ns ps es x y v c line (Q : unit -> pratt_mem H -> Prop) : pratt_inv s -> evolves s0 G ps0 s ps -> graph_at s G ns ps es ->
  is_num (ap s) v c ->
  (forall e s', pratt_inv s' -> evolves s0 G ps0 s' (e :: ps) -> graph_at s' G ns (e :: ps) ((x, y, c) :: es) -> Q tt s') ->
  wp (push_edge G x y v line) Q oom s.
Proof.
  intros Hi Hev Hg Hv HQ. unfold push_edge. wps. apply wp_solver_alloc; [done|unfold sizeof_List, INT_MAX; lia|].
  intros cell a _ Hx Hi1 _ _ _. wps. eapply (new_edge_spec (set_ap s a)); [done|by eapply is_num_ext|]. intros e s2 Hi2 Hx2 Hgr Hne Hed Hat. simpl in *.
  assert (Hgs : graph_at (set_ap s a) G ns ps es) by (by apply graph_at_ap). assert (Hg2 : graphs s2 !! G = Some (mk_Graph ns ps)) by (rewrite Hgr; apply Hg).
  wps. unfold graph_of. wps. unfold load. rewrite Hg2. wps. eapply wp_run; [done|]. simpl.
  assert (Hnin : e ∉ ps) by (eapply edge_at_dom; [apply Hg|done]).
  apply (HQ e).
  - apply pratt_inv_graph; [done|]. apply (pi_graphs _ Hi2). by rewrite Hg2.
  - eapply graph_evolves_trans; [exact Hev|]. split; simpl.
    + by etrans.
    + intros G' g Hne' HG'. rewrite lookup_insert_ne by done. by rewrite Hgr.
    + intros e' d He' Hd. rewrite Hed, lookup_insert_ne; [done|]. intros ->. by rewrite Hne in Hd.
    + intros e' [->|?]%elem_of_cons; [by right|by left].
  - split; simpl; [apply Hg|by rewrite lookup_insert_eq| |constructor; [done|apply Hg]].
    constructor; [done|]. eapply (edges_sub_at (set_ap s a)); [done| |apply Hgs]. simpl. rewrite Hed. by apply insert_subseteq.
Qed.

Lemma find_keys es es' x y : es.*1 = es'.*1 -> find es x y = None -> find es' x y = None.
Proof.
  revert es'. induction es as [|[[u w] c] es IH]; intros [|[[u' w'] c'] es'] E; simplify_eq/=; [done|].
  destruct (eqn u' x && eqn w' y); [done|]. by apply IH.
Qed.

(** Where a distance is found depends on the ends of the edges only. *)
Lemma points_keys ps es es' x y d : es.*1 = es'.*1 -> points ps es x y d -> points ps es' x y d.
Proof.
  intros E [Hd|Hxy|ps1 e ps2 es1 u w c es2 Hxy -> -> Hl Hf Hu Hw].
  - constructor. unfold dist in *. destruct (eqn x y); [done|]. by eapply find_keys.
  - by constructor.
  - rewrite fmap_app in E. symmetry in E. apply fmap_app_inv in E as (es1' & es2' & E1 & E2 & ->). simpl in E2.
    destruct es2' as [|[[u' w'] c'] es2']; simplify_eq/=.
    apply (points_edge _ _ _ _ ps1 e ps2 es1' u' w' c' es2'); try done; [|by eapply find_keys].
    rewrite Hl, <- (length_fmap fst es1), <- (length_fmap fst es1'). by f_equal.
Qed.

Lemma points_push ps es x y d e k l c : points ps es x y d -> d <> INFINITE -> eqn k x && eqn l y = false ->
  points (e :: ps) ((k, l, c) :: es) x y d.
Proof.
  intros [Hd|Hxy|ps1 e' ps2 es1 u w c' es2 Hxy -> -> Hl Hf Hu Hw] Hinf Hne; [done|by constructor|].
  apply (points_edge _ _ _ _ (e :: ps1) e' ps2 ((k, l, c) :: es1) u w c' es2); simpl; try done; [by f_equal|by rewrite Hne].
Qed.

Lemma edge_at_set s e d x y v c ps es : edges s !! e = Some d -> is_num (ap s) v c -> Forall2 (edge_at s) ps es ->
  forall ps1 ps2 es1 c0 es2, ps = ps1 ++ e :: ps2 -> es = es1 ++ (x, y, c0) :: es2 -> length ps1 = length es1 -> NoDup ps ->
  Forall2 (edge_at (set_edge s e (mk_Edge x y v))) ps (es1 ++ (x, y, c) :: es2).
Proof.
  intros He Hv HE ps1 ps2 es1 c0 es2 -> -> Hl Hnd. apply Forall2_app_inv in HE as [HE1 HE2]; [|done].
  apply Forall2_cons in HE2 as [_ HE2]. apply NoDup_app in Hnd as (_ & Hd & Hnd). apply NoDup_cons in Hnd as [Hn2 _].
  apply Forall2_app; [|constructor].
  - apply edge_at_other; [|done]. intros Hin. apply (Hd _ Hin). left.
  - exists v. simpl. by rewrite lookup_insert_eq.
  - by apply edge_at_other.
Qed.

Lemma assign_spec s0 G ps0 s ns ps es k l d v c (Q : unit -> pratt_mem H -> Prop) E : pratt_inv s -> evolves s0 G ps0 s ps ->
  graph_at s G ns ps es -> points ps es k l d -> d <> INFINITE -> eqn k l = false -> is_num (ap s) v c ->
  (forall s' es', pratt_inv s' -> evolves s0 G ps0 s' ps -> graph_at s' G ns ps es' -> es.*1 = es'.*1 ->
     (forall x y, dist es' x y = if eqn x y then Some 0 else if eqn k x && eqn l y then Some c else dist es x y) -> Q tt s') ->
  wp (assign d v) Q E s.
Proof.
  intros Hi Hev Hg Hp Hinf Hkl Hv HQ. destruct Hp as [|Hxy|ps1 e ps2 es1 u w c0 es2 Hxy Eps Ees Hl Hf Hu Hw]; [done|congruence|]. simpl.
  pose proof (ga_edges _ _ _ _ _ Hg) as HE. assert (He : exists v0, edges s !! e = Some (mk_Edge u w v0)).
  { rewrite Eps, Ees in HE. apply Forall2_app_inv in HE as [_ HE]; [|done]. apply Forall2_cons in HE as [(v0 & He & _) _]. eauto. }
  destruct He as [v0 He]. wps. eapply wp_edge_of; [exact He|]. eapply wp_run; [done|]. simpl. apply (HQ _ (es1 ++ (u, w, c) :: es2)).
  - apply pratt_inv_edge; [done|]. apply (pi_edges _ Hi). by rewrite He.
  - eapply graph_evolves_trans; [exact Hev|]. split; simpl; [done|done| |by left].
    intros e' d' He' Hd'. rewrite lookup_insert_ne; [done|]. intros ->. apply He'. rewrite Eps. apply elem_of_app. right. left.
  - split; [apply Hg|apply Hg| |apply Hg]. eapply edge_at_set; [done|done|done|done|done|done|apply Hg].
  - rewrite Ees, !fmap_app. done.
  - intros x y. rewrite Ees. by apply (dist_replace es1 u w c0).
Qed.

(** ** Relaxation *)

Lemma dist_same es x y : eqn x y = true -> dist es x y = Some 0.
Proof. unfold dist. by intros ->. Qed.

Lemma dist_proper es x x' y y' : eqn x x' = true -> eqn y y' = true -> dist es x y = dist es x' y'.
Proof.
  intros Ex Ey. unfold dist. rewrite (find_proper es x x' y y') by done. destruct (eqn x y) eqn:E1, (eqn x' y') eqn:E2; try done; exfalso.
  - rewrite (trans x' x y') in E2; [done|by apply sym|by apply (trans x y y')].
  - rewrite (trans x x' y) in E1; [done|done|]. apply (trans x' y' y); [done|by apply sym].
Qed.

Section relaxing.
Context (s0 : pratt_mem H) (G : Z) (ps0 : list Z) (ns : list Node) (i j : Node) (a va : Z) (D : Node -> Node -> option Z).
Context (Ha0 : is_num (ap s0) a va) (Hc : closed eqn D) (Hcyc : forall c, D j i = Some c -> 0 <= c + va).

Abbreviation new := (update D i j va).

(** Every distance is the old or the new one. *)
Record progress s (ps : list Z) (es : list aedge) : Prop := {
  pg_inv : pratt_inv s;
  pg_ev : evolves s0 G ps0 s ps;
  pg_graph : graph_at s G ns ps es;
  pg_dist : forall x y, dist es x y = D x y \/ dist es x y = new x y
}.

Abbreviation keeps es es' := (forall x y, dist es x y = new x y -> dist es' x y = new x y).

Lemma progress_ap s ps es a' : progress s ps es -> ext (ap s) a' -> pratt_inv (set_ap s a') -> progress (set_ap s a') ps es.
Proof.
  intros [? ? ? ?] Hx Hi. split; [done| |by apply graph_at_ap|done].
  eapply graph_evolves_trans; [done|by apply ap_evolves].
Qed.

Lemma progress_a s ps es : progress s ps es -> is_num (ap s) a va.
Proof. intros Hp. eapply is_num_ext; [apply (pg_ev _ _ _ Hp)|done]. Qed.

Lemma progress_to s ps es x : progress s ps es -> dist es x i = D x i.
Proof. intros Hp. destruct (pg_dist _ _ _ Hp x i) as [->| ->]; [done|by apply update_to]. Qed.

Lemma progress_from s ps es y : progress s ps es -> dist es j y = D j y.
Proof. intros Hp. destruct (pg_dist _ _ _ Hp j y) as [->| ->]; [done|by apply update_from]. Qed.

(** The distance from [k] to [l] becomes the new one. *)
Lemma progress_set es es' k l c : (forall x y, dist es x y = D x y \/ dist es x y = new x y) -> new k l = Some c -> eqn k l = false ->
  (forall x y, dist es' x y = if eqn x y then Some 0 else if eqn k x && eqn l y then Some c else dist es x y) ->
  (forall x y, dist es' x y = D x y \/ dist es' x y = new x y) /\ keeps es es' /\ dist es' k l = new k l.
Proof.
  intros Hes Hn Hkl Hes'.
  assert (Hcase : forall x y, dist es' x y = dist es x y \/ dist es' x y = new x y).
  { intros x y. rewrite Hes'. destruct (eqn x y) eqn:Exy; [left; by rewrite dist_same|].
    destruct (eqn k x && eqn l y) eqn:Em; [right|by left]. apply andb_true_iff in Em as [Ek El].
    rewrite <- Hn. apply (cl_proper _ _ (update_closed _ node_identifies _ _ _ _ Hc Hcyc)); done. }
  split_and!.
  - intros x y. destruct (Hcase x y) as [->|?]; [apply Hes|by right].
  - intros x y Hx. destruct (Hcase x y) as [->|?]; done.
  - rewrite Hes', Hkl, (refl k), (refl l). done.
Qed.

Lemma relax_spec s ps es k dk l : progress s ps es -> points ps es k i dk -> dk <> INFINITE ->
  wp (relax G j a k dk l) (fun _ s' => exists ps' es', progress s' ps' es' /\ points ps' es' k i dk /\ keeps es es' /\ dist es' k l = new k l) oom s.
Proof.
  intros Hp Hk Hinf. unfold relax. wps. eapply distance_spec; [apply Hp|]. intros djl Hjl.
  assert (Hdjl : (djl = INFINITE /\ dist es j l = None) \/ djl <> INFINITE) by (destruct Hjl; [left|right..]; done).
  destruct Hdjl as [[-> Hjn]|Hjne].
  { wps. exists ps, es. split_and!; [done|done|done|]. rewrite (progress_from _ _ _ _ Hp) in Hjn.
    destruct (pg_dist _ _ _ Hp k l) as [->|?]; [|done]. unfold update, through. rewrite Hjn. by destruct (D k i), (D k l). }
  rewrite finite_branch by done.
  wps. eapply distance_spec; [apply Hp|]. intros dkl Hkl. wps. eapply deref_spec; [apply Hp|apply Hp|exact Hk|done|]. intros ki p Hki Hnki.
  wps. eapply deref_spec; [apply Hp|apply Hp|exact Hjl|done|]. intros jl q Hjlv Hnjl.
  pose proof (progress_to _ _ _ k Hp) as Hto. rewrite Hki in Hto. pose proof (progress_from _ _ _ l Hp) as Hfrom. rewrite Hjlv in Hfrom.
  wps. eapply wp_result_ap; [apply Hp|intros; apply add_value; [done|by eapply progress_a|exact Hnjl]|]. intros t a1 Ht Hx1 Hi1.
  wps. eapply wp_result_ap; [done|intros; apply add_value; [done|by eapply is_num_ext|exact Ht]|]. intros d a2 Hd Hx2 Hi2. simpl in *.
  assert (Hp2 : progress (set_ap (set_ap s a1) a2) ps es) by (apply progress_ap; [by apply progress_ap|done|done]).
  assert (Hthr : through D i j va k l = Some (p + (va + q))) by (unfold through; by rewrite <- Hto, <- Hfrom).
  assert (Hdkl : (dkl = INFINITE /\ dist es k l = None) \/ dkl <> INFINITE) by (destruct Hkl; [left|right..]; done).
  destruct Hdkl as [[-> Hkn]|Hkne].
  - assert (HDkl : new k l = Some (p + (va + q))).
    { unfold update. rewrite Hthr. destruct (pg_dist _ _ _ Hp k l) as [E|E]; rewrite Hkn in E; [by rewrite <- E|].
      unfold update in E. rewrite Hthr in E. by destruct (D k l). }
    assert (Ekl : eqn k l = false) by (unfold dist in Hkn; by destruct (eqn k l)).
    eapply push_edge_spec; [apply Hp2|apply Hp2|apply Hp2|exact Hd|]. intros e s' Hi' Hev' Hg'.
    destruct (progress_set es _ k l (p + (va + q)) (pg_dist _ _ _ Hp) HDkl Ekl (dist_push k l _ es)) as (HD' & Hkeep & Hnew).
    exists (e :: ps), ((k, l, p + (va + q)) :: es). split_and!; [by split|apply points_push; [done|done|]|done|done].
    rewrite refl. simpl. destruct (eqn l i) eqn:El; [|done]. exfalso. rewrite (dist_proper es k k l i (refl k) El), Hki in Hkn. done.
  - rewrite finite_branch by done.
    wps. eapply deref_spec; [apply Hp2|apply Hp2|exact Hkl|done|]. intros kl o Hklv Hnkl. wps.
    eapply wp_cmp_ap; [exact Hnkl|exact Hd|]. intros c Hcs.
    assert (Hnew : new k l = Some (Z.min o (p + (va + q)))).
    { destruct (pg_dist _ _ _ Hp k l) as [E|E]; rewrite Hklv in E; [unfold update; by rewrite <- E, Hthr|].
      destruct (update_new D i j va k l _ _ (eq_sym Hto) (eq_sym Hfrom)) as (c' & Hc' & ?). rewrite <- E in Hc' |- *. simplify_eq. f_equal. lia. }
    destruct (0 <? c) eqn:Ec.
    + assert (Hlt : p + (va + q) < o) by lia. rewrite Z.min_r in Hnew by lia.
      assert (Ekl : eqn k l = false).
      { destruct (eqn k l) eqn:Ekl; [|done]. exfalso. rewrite (dist_same _ _ _ Ekl) in Hklv. injection Hklv as <-.
        rewrite (cl_proper _ _ Hc j j l k (refl j) (sym _ _ Ekl)) in Hfrom.
        pose proof (cycle_through _ _ _ _ _ Hc Hcyc k p q (eq_sym Hto) (eq_sym Hfrom)). lia. }
      eapply assign_spec; [apply Hp2|apply Hp2|apply Hp2|exact Hkl|done|done|exact Hd|]. intros s' es' Hi' Hev' Hg' Hkeys Hes'.
      destruct (progress_set es _ k l _ (pg_dist _ _ _ Hp) Hnew Ekl Hes') as (HD' & Hkeep & Hn').
      exists ps, es'. split_and!; [by split|by eapply points_keys|done|done].
    + wps. exists ps, es. split_and!; [done|done|done|]. rewrite Hnew, Hklv. f_equal. lia.
Qed.

Lemma relax_row_spec s ps es k dk ls : progress s ps es -> points ps es k i dk -> dk <> INFINITE ->
  wp (relax_row G j a k dk ls) (fun _ s' => exists ps' es', progress s' ps' es' /\ keeps es es' /\ forall l, l ∈ ls -> dist es' k l = new k l) oom s.
Proof.
  revert s ps es. induction ls as [|l ls IH]; intros s ps es Hp Hk Hinf; simpl.
  { wps. exists ps, es. split_and!; [done|done|]. intros l Hl. by apply not_elem_of_nil in Hl. }
  wps. eapply wp_conseq; [by eapply relax_spec|]. intros _ s1 (ps1 & es1 & Hp1 & Hk1 & Hkeep1 & Hl1). wps.
  eapply wp_conseq; [by eapply IH|]. intros _ s2 (ps2 & es2 & Hp2 & Hkeep2 & Hl2). exists ps2, es2.
  split_and!; [done|by intros x y Hx; apply Hkeep2, Hkeep1|]. intros l' [->|Hl']%elem_of_cons; [by apply Hkeep2|by apply Hl2].
Qed.

Lemma relax_all_spec s ps es ks : progress s ps es ->
  wp (relax_all G i j a ks) (fun _ s' => exists ps' es', progress s' ps' es' /\ keeps es es' /\
    forall k l, k ∈ ks -> l ∈ ns -> dist es' k l = new k l) oom s.
Proof.
  revert s ps es. induction ks as [|k ks IH]; intros s ps es Hp; simpl.
  { wps. exists ps, es. split_and!; [done|done|]. intros k l Hk. by apply not_elem_of_nil in Hk. }
  wps. eapply distance_spec; [apply Hp|]. intros dk Hk.
  assert (Hrow : wp (match dk with INFINITE => mret tt | _ => g ← graph_of G; relax_row G j a k dk (g_nodes g) end)
    (fun _ s' => exists ps' es', progress s' ps' es' /\ keeps es es' /\ forall l, l ∈ ns -> dist es' k l = new k l) oom s).
  { assert (Hdk : (dk = INFINITE /\ dist es k i = None) \/ dk <> INFINITE) by (destruct Hk; [left|right..]; done).
    destruct Hdk as [[-> Hn]|Hne].
    - wps. exists ps, es. split_and!; [done|done|]. intros l _. rewrite (progress_to _ _ _ _ Hp) in Hn.
      destruct (pg_dist _ _ _ Hp k l) as [->|?]; [|done]. unfold update, through. rewrite Hn. by destruct (D k l).
    - rewrite finite_branch by done.
      wps. eapply wp_graph_of; [apply Hp|]. by apply (relax_row_spec s ps es k dk ns). }
  wps. eapply wp_conseq; [exact Hrow|]. intros _ s1 (ps1 & es1 & Hp1 & Hkeep1 & Hl1). wps.
  eapply wp_conseq; [by eapply IH|]. intros _ s2 (ps2 & es2 & Hp2 & Hkeep2 & Hl2). exists ps2, es2.
  split_and!; [done|by intros x y Hx; apply Hkeep2, Hkeep1|]. intros k' l [->|Hk']%elem_of_cons Hl; [by apply Hkeep2, Hl1|by apply Hl2].
Qed.

(** Once every pair of nodes is done, so is every distance. *)
Lemma progress_done s ps es : progress s ps es -> supported eqn D ns -> among eqn i ns -> among eqn j ns ->
  (forall k l, k ∈ ns -> l ∈ ns -> dist es k l = new k l) -> forall x y, dist es x y = new x y.
Proof.
  intros Hp Hs Hi Hj Hall x y. destruct (pg_dist _ _ _ Hp x y) as [E|]; [|done].
  destruct (through D i j va x y) as [c|] eqn:Ht; [|rewrite E; unfold update; rewrite Ht; by destruct (D x y)].
  unfold through in Ht. destruct (D x i) as [p|] eqn:Hpx; [|done]. destruct (D j y) as [q|] eqn:Hq; [|done].
  destruct (through_among _ node_identifies _ _ _ _ _ _ _ _ Hs Hi Hj Hpx Hq) as [(x' & Hx & Ex) (y' & Hy & Ey)].
  rewrite (dist_proper es x x' y y' Ex Ey), (Hall x' y' Hx Hy). symmetry.
  by apply (cl_proper _ _ (update_closed _ node_identifies _ _ _ _ Hc Hcyc)).
Qed.
End relaxing.

(** ** Operations *)

(** The graph [G], with the edge objects [ps], holds the distances of the system
    [cs] of constraints. *)
Definition represents s (G : Z) (ps : list Z) (cs : list aedge) : Prop :=
  exists ns es, graph_at s G ns ps es /\ distances_of eqn cs (dist es) ns.

Lemma represents_frame s0 G ps0 s ps G' ps' cs : evolves s0 G ps0 s ps -> represents s0 G' ps' cs -> G' <> G ->
  (forall e, e ∈ ps' -> e ∉ ps0) -> represents s G' ps' cs.
Proof. intros Hev (ns & es & Hg & Hd) Hne Hdis. exists ns, es. split; [by eapply graph_at_frame|done]. Qed.

Lemma represents_ap s a G ps cs : ext (ap s) a -> represents s G ps cs -> represents (set_ap s a) G ps cs.
Proof. intros Hx (ns & es & Hg & Hd). exists ns, es. split; [by apply graph_at_ap|done]. Qed.

Lemma represents_null s G ps cs : represents s G ps cs -> G <> 0.
Proof. intros (ns & es & Hg & _). apply Hg. Qed.

Lemma existsb_among (x : Node) ns : existsb (fun y => Cyc_Pratt_cmp_node x y =? 0) ns = true -> among eqn x ns.
Proof. intros (y & Hy & E)%existsb_exists. exists y. split; [by apply list_elem_of_In|done]. Qed.

Lemma add_node_spec s0 G ps0 s ns ps es x (Q : unit -> pratt_mem H -> Prop) : pratt_inv s -> evolves s0 G ps0 s ps -> graph_at s G ns ps es ->
  (forall s' ns', pratt_inv s' -> evolves s0 G ps0 s' ps -> graph_at s' G ns' ps es -> among eqn x ns' -> (forall y, y ∈ ns -> y ∈ ns') -> Q tt s') ->
  wp (Cyc_Pratt_add_node G x) Q oom s.
Proof.
  intros Hi Hev Hg HQ. unfold Cyc_Pratt_add_node. wps. eapply wp_graph_of; [exact Hg|]. simpl.
  destruct (existsb _ ns) eqn:Ex; [wps; apply (HQ s ns); [done|done|done|by apply existsb_among|done]|].
  wps. apply wp_solver_alloc; [done|unfold sizeof_List, INT_MAX; lia|]. intros c1 a1 _ Hx1 Hi1 _ _ _.
  wps. apply wp_solver_alloc; [done|unfold sizeof_Node, INT_MAX; lia|]. intros c2 a2 _ Hx2 Hi2 _ _ _. simpl in *.
  eapply wp_run; [done|]. simpl. set (s2 := set_ap (set_ap s a1) a2).
  assert (Hg2 : graph_at s2 G ns ps es) by (apply graph_at_ap; [done|by apply graph_at_ap]).
  apply (HQ (set_graph s2 G (mk_Graph (x :: ns) ps)) (x :: ns)).
  - apply pratt_inv_graph; [done|]. apply (pi_graphs _ Hi2). eexists; apply Hg2.
  - eapply graph_evolves_trans; [exact Hev|]. split; simpl; [by etrans| |done|by left].
    intros G' g Hne HG. by rewrite lookup_insert_ne.
  - split; simpl; [apply Hg2|by rewrite lookup_insert_eq|apply Hg2|apply Hg2].
  - exists x. split; [left|apply refl].
  - by right.
Qed.

Lemma points_cases ps es x y d : points ps es x y d -> (d = INFINITE /\ dist es x y = None) \/ (d <> INFINITE /\ exists c, dist es x y = Some c).
Proof. intros Hp. destruct (points_dist _ _ _ _ _ Hp) as [->|Hd]; [left; by inversion Hp|]. destruct Hp; [left; done|right..]; done. Qed.

(** Adding a constraint: the graph now has the distances of the larger system,
    or that system has no solution. *)
Lemma add_edge_spec s G ps cs i j a va : pratt_inv s -> represents s G ps cs -> is_num (ap s) a va ->
  wp (Cyc_Pratt_add_edge G i j a) (fun r s' => pratt_inv s' /\ exists ps', evolves s G ps s' ps' /\
    ((r = G /\ represents s' G ps' ((i, j, va) :: cs)) \/
     (r = 0 /\ represents s' G ps' cs /\ forall v, ~ solves eqn v ((i, j, va) :: cs)))) oom s.
Proof.
  intros Hi (ns0 & es & Hg0 & Hd0) Ha. unfold Cyc_Pratt_add_edge. wps.
  eapply add_node_spec; [done|apply graph_evolves_refl|exact Hg0|]. intros s1 ns1 Hi1 Hev1 Hg1 Hin1 Hsub1.
  wps. eapply add_node_spec; [done|exact Hev1|exact Hg1|]. intros s2 ns Hi2 Hev2 Hg2 Hin2 Hsub2.
  assert (Hin : among eqn i ns) by (destruct Hin1 as (i' & ? & ?); exists i'; auto).
  assert (Hd : distances_of eqn cs (dist es) ns) by (eapply distances_more; [exact Hd0|auto]). clear Hd0 Hin1 Hsub1 Hsub2 Hg1 Hev1 Hi1.
  assert (Ha2 : is_num (ap s2) a va) by (eapply is_num_ext; [apply Hev2|done]).
  wps. eapply distance_spec; [exact Hg2|]. intros dij Hij.
  assert (Hknown : wp (match dij with INFINITE => mret false | _ => v ← deref dij; c ← on_ap (Cyc_AP_cmp v a); mret (c <? 1) end)
    (fun b s' => s' = s2 /\ (b = true -> exists c, dist es i j = Some c /\ c <= va)) oom s2).
  { destruct (points_cases _ _ _ _ _ Hij) as [[-> _]|[Hne _]]; [wps; done|]. rewrite finite_branch by done.
    wps. eapply deref_spec; [done|exact Hg2|exact Hij|done|]. intros v c Hc Hv. wps. eapply wp_cmp_ap; [exact Hv|done|].
    intros r Hr. wps. split; [done|]. intros Hb. exists c. split; [done|]. lia. }
  wps. eapply wp_conseq; [exact Hknown|]. intros b s' [-> Hb]. destruct b.
  { destruct Hb as (c & Hc & Hle); [done|]. wps. split; [done|]. exists ps. split; [done|]. left. split; [done|].
    exists ns, es. split; [done|]. by eapply distances_known. }
  clear Hb Hknown. wps. eapply distance_spec; [exact Hg2|]. intros dji Hji.
  assert (Hneg : wp (match dji with INFINITE => mret false
      | _ => v ← deref dji; t ← on_ap (Cyc_AP_add v a); s ← get; c ← on_ap (Cyc_AP_cmp t (AP_zero (ap s))); mret (c <? 0) end)
    (fun b s' => pratt_inv s' /\ evolves s G ps s' ps /\ graph_at s' G ns ps es /\
       (b = true -> exists c, dist es j i = Some c /\ c + va < 0) /\ (b = false -> forall c, dist es j i = Some c -> 0 <= c + va)) oom s2).
  { destruct (points_cases _ _ _ _ _ Hji) as [[-> Hn]|[Hne _]]; [wps; split_and!; try done; by rewrite Hn|]. rewrite finite_branch by done.
    wps. eapply deref_spec; [done|exact Hg2|exact Hji|done|]. intros v c Hc Hv.
    wps. eapply wp_result_ap; [done|intros; by apply add_value|]. intros t a1 Ht Hx1 Hi1. simpl in *.
    wps. eapply wp_cmp_ap; [exact Ht|apply (pi_init _ Hi1)|]. intros r Hr. wps.
    split_and!; [done|eapply graph_evolves_trans; [done|by apply ap_evolves]|by apply graph_at_ap| |].
    - intros Hb. exists c. split; [done|]. lia.
    - intros Hb c' Hc'. rewrite Hc in Hc'. injection Hc' as <-. lia. }
  wps. eapply wp_conseq; [exact Hneg|]. intros b s3 (Hi3 & Hev3 & Hg3 & Htrue & Hfalse). destruct b.
  { destruct Htrue as (c & Hc & Hlt); [done|]. wps. split; [done|]. exists ps. split; [done|]. right. split; [done|]. split; [by exists ns, es|].
    by eapply distances_cycle. }
  wps. eapply wp_graph_of; [exact Hg3|]. wps. specialize (Hfalse eq_refl).
  eapply wp_conseq; [apply (relax_all_spec s G ps ns i j a va (dist es) Ha (do_closed _ _ _ _ Hd) Hfalse s3 ps es); split; auto|].
  intros _ s4 (ps4 & es4 & Hp4 & _ & Hall). wps. split; [apply Hp4|]. exists ps4. split; [apply Hp4|]. left. split; [done|].
  exists ns, es4. split; [apply Hp4|]. eapply distances_ext; [|by apply (distances_update _ node_identifies cs (dist es) ns i j va)].
  intros x y. symmetry. eapply progress_done; [apply (do_closed _ _ _ _ Hd)|done|exact Hp4|apply Hd|done|done|done].
Qed.
End spec.
