(* ===== verification/PrattRefine.v ===== *)
(** * Graphs decide systems of difference constraints

    New graphs and copies, and the theorems: a graph built by the operations of
    CycPratt.v gives exactly the bounds that its constraints imply, adding a
    constraint fails exactly when there is no solution any more, and a copy
    develops independently of the original. *)

From S2P Require Import Prelude RwLock Alloc Region RegionSafety Words FatPtr CycAP APSpec APArith APPow APRefine CycPratt PrattSpec.

Section refine.
Context {H : Type} `{HH : Heap H} `{!HeapLaws H} {TY : Types} {TL : TypeLaws}.
Implicit Types (s : pratt_mem H) (x y i j : Node).

Abbreviation aedge := (Node * Node * Z)%type.

(** ** New graphs *)

(** A graph [G] has been made since [s0], with new edge objects. *)
Definition made_graph s0 (G : Z) s (ps : list Z) : Prop := graphs s0 !! G = None /\ evolves s0 G [] s ps.

Lemma empty_graph_spec s : pratt_inv s ->
  wp Cyc_Pratt_empty_graph (fun G s' => pratt_inv s' /\ made_graph s G s' [] /\ represents s' G [] []) oom s.
Proof.
  intros Hi. unfold Cyc_Pratt_empty_graph. wps. apply wp_solver_alloc; [done|unfold sizeof_List, INT_MAX; lia|]. intros c1 a1 _ Hx1 Hi1 _ _ _.
  wps. apply wp_solver_alloc; [done|unfold sizeof_Graph, INT_MAX; lia|]. intros G a2 HG Hx2 Hi2 Hng _ Hl. simpl in *.
  wps. eapply wp_run; [done|]. wps. split; [by apply (pratt_inv_graph (set_ap (set_ap s a1) a2))|]. split; [split; [exact Hng|]|].
  - split; simpl; [by etrans| |done|by left]. intros G' g Hne HG'. by rewrite lookup_insert_ne.
  - exists [NZero], []. split; [split; simpl; [done|by rewrite lookup_insert_eq|done|constructor]|].
    eapply distances_ext; [|apply (distances_empty _ node_identifies)]. intros x y. unfold dist. done.
Qed.

Lemma copy_edges_loop_spec s0 s ds es res es' : pratt_inv s -> ext (ap s0) (ap s) -> graphs s = graphs s0 -> edges s0 ⊆ edges s ->
  Forall2 (edge_at s0) ds es -> Forall2 (edge_at s) res es' -> NoDup res -> (forall e, e ∈ res -> edges s0 !! e = None) ->
  wp (copy_edges_loop ds res) (fun r s' => pratt_inv s' /\ ext (ap s0) (ap s') /\ graphs s' = graphs s0 /\ edges s0 ⊆ edges s' /\
    Forall2 (edge_at s') r (reverse es ++ es') /\ NoDup r /\ (forall e, e ∈ r -> edges s0 !! e = None)) oom s.
Proof.
  intros Hi Hx Hg He HE. revert s res es' Hi Hx Hg He. induction HE as [|d [[x y] c] ds es (v & Hv & Hnum) HE IH]; intros s res es' Hi Hx Hg He Hres Hnd Hnew; simpl.
  { wps. split_and!; done. }
  wps. eapply wp_edge_of; [by eapply lookup_weaken|]. wps. apply wp_solver_alloc; [done|unfold sizeof_List, INT_MAX; lia|]. intros c1 a1 _ Hx1 Hi1 _ _ _.
  simpl. wps. eapply (new_edge_spec (set_ap s a1) x y v c); [done|eapply is_num_ext; [|exact Hnum]; by etrans|].
  intros e s2 Hi2 Hx2 Hg2 Hne He2 Hat. simpl in *.
  assert (Hsub : edges s ⊆ edges s2) by (rewrite He2; by apply insert_subseteq).
  eapply wp_conseq; [apply (IH s2 (e :: res) ((x, y, c) :: es')); [done| |by rewrite Hg2|by etrans| | |]|].
  - etrans; [exact Hx|]. by etrans.
  - constructor; [done|]. eapply (edges_sub_at s); [by etrans|done|done].
  - constructor; [|done]. intros Hin. apply list_elem_of_lookup in Hin as [n Hin].
    destruct (Forall2_lookup_l _ _ _ _ _ Hres Hin) as (? & _ & u & Hu & _). by rewrite Hne in Hu.
  - intros e' [->|He']%elem_of_cons; [|by apply Hnew]. by eapply lookup_weaken_None.
  - intros r s3. by rewrite reverse_cons, <- app_assoc.
Qed.

Lemma copy_graph_spec s G ps cs : pratt_inv s -> represents s G ps cs ->
  wp (Cyc_Pratt_copy_graph G) (fun G2 s' => pratt_inv s' /\ exists ps2, made_graph s G2 s' ps2 /\ represents s' G2 ps2 cs) oom s.
Proof.
  intros Hi (ns & es & Hg & Hd). unfold Cyc_Pratt_copy_graph. wps. eapply wp_graph_of; [exact Hg|].
  wps. apply wp_solver_alloc; [done|unfold sizeof_Graph, INT_MAX; lia|]. intros G2 a1 HG2 Hx1 Hi1 Hng _ Hl. simpl.
  unfold Cyc_Pratt_copy_edges. wps.
  eapply wp_conseq; [apply (copy_edges_loop_spec (set_ap s a1) (set_ap s a1) ps es [] []); try done; [by apply (graph_at_ap s a1 G ns ps es)|constructor|]|].
  { intros e He. by apply not_elem_of_nil in He. }
  intros r s2 (Hi2 & Hx2 & Hgr & Hed & HE & Hnd & Hnew). wps. eapply wp_run; [done|]. wps. simpl in *. split.
  - apply pratt_inv_graph; [done|]. destruct Hl as [b Hb]. exists b. eapply lookup_weaken; [exact Hb|apply Hx2].
  - exists (reverse r). split; [split; [done|]|].
    + split; simpl; [by etrans| | |].
      * intros G' g Hne HG'. rewrite lookup_insert_ne by done. by rewrite Hgr.
      * intros e d _ Hd'. by eapply lookup_weaken.
      * intros e He. right. apply Hnew. by apply elem_of_reverse.
    + exists ns, es. split; [|done]. split; simpl; [done|by rewrite lookup_insert_eq| |by rewrite reverse_Permutation].
      rewrite app_nil_r in HE. rewrite <- (reverse_involutive es). by apply Forall2_reverse.
Qed.

(** ** Exactness *)

(** [b] is the tightest bound on [x - y] that the constraints [cs] imply. *)
Definition bounds (cs : list aedge) x y (b : option Z) : Prop :=
  match b with
  | Some c => (forall v, solves eqn v cs -> v x - v y <= c) /\ (exists v, solves eqn v cs /\ v NZero = 0 /\ v x - v y = c)
  | None => forall lo, exists v, solves eqn v cs /\ v NZero = 0 /\ lo <= v x - v y
  end.

(** The number [lookup_distance] points to. *)
Definition bound_of (G : Z) x y : ST (pratt_mem H) (option Z) :=
  d ← Cyc_Pratt_lookup_distance G x y;
  match d with INFINITE => mret None | _ => v ← deref d; mret (Some v) end.

Lemma represents_bounds s G ps cs x y : pratt_inv s -> represents s G ps cs ->
  wp (bound_of G x y) (fun b s' => s' = s /\ match b with None => bounds cs x y None | Some n => exists c, is_num (ap s) n c /\ bounds cs x y (Some c) end)
    (fun _ _ => False) s.
Proof.
  intros Hi (ns & es & Hg & Hd). unfold bound_of. wps. eapply distance_spec; [exact Hg|]. intros d Hp.
  destruct (points_cases _ _ _ _ _ Hp) as [[-> Hn]|[Hne _]].
  - wps. split; [done|]. intros lo. destruct (distances_bound _ node_identifies _ _ _ x y NZero lo Hd) as (v & Hv & H0 & Hb). rewrite Hn in Hb. by exists v.
  - rewrite finite_branch by done. wps. eapply deref_spec; [done|exact Hg|exact Hp|done|]. intros n c Hc Hnum. wps. split; [done|]. exists c.
    split; [done|]. split.
    + intros v Hv. apply (do_solutions _ _ _ _ Hd) in Hv. by apply Hv.
    + destruct (distances_bound _ node_identifies _ _ _ x y NZero 0 Hd) as (v & Hv & H0 & Hb). rewrite Hc in Hb. by exists v.
Qed.

Lemma represents_solvable s G ps cs : represents s G ps cs -> exists v, solves eqn v cs /\ v NZero = 0.
Proof.
  intros (ns & es & Hg & Hd). destruct (distances_bound _ node_identifies _ _ _ NZero NZero NZero 0 Hd) as (v & Hv & H0 & _). by exists v.
Qed.

(** C13. Adding the constraint [i - j <= a] to a graph that holds the distances of
    a system of constraints: the call returns null exactly when the larger system
    has no integer solution.  Otherwise it returns the graph, every distance it
    then gives is the tightest bound the larger system implies (and it gives none
    where the difference is unbounded), and no other graph has changed.  The only
    exception is that of an exhausted heap. *)
Theorem pratt_add_edge_exact s G ps cs i j a va : pratt_inv s -> represents s G ps cs -> is_num (ap s) a va ->
  wp (Cyc_Pratt_add_edge G i j a)
    (fun r s' => pratt_inv s' /\
       (r = 0 <-> forall v, ~ solves eqn v ((i, j, va) :: cs)) /\
       (r <> 0 -> r = G /\ exists ps', represents s' G ps' ((i, j, va) :: cs) /\
          forall x y, wp (bound_of G x y) (fun b s'' => s'' = s' /\ match b with
            | None => bounds ((i, j, va) :: cs) x y None
            | Some n => exists c, is_num (ap s') n c /\ bounds ((i, j, va) :: cs) x y (Some c) end) (fun _ _ => False) s') /\
       (forall G' ps' cs', G' <> G -> (forall e, e ∈ ps' -> e ∉ ps) -> represents s G' ps' cs' -> represents s' G' ps' cs'))
    (fun e _ => e = Cyc_Bad_alloc) s.
Proof.
  intros Hi Hr Ha. eapply wp_conseq; [by apply (add_edge_spec s G ps cs i j a va)|]. intros r s' (Hi' & ps' & Hev & Hres). split; [done|].
  assert (Hframe : forall G' ps' cs', G' <> G -> (forall e, e ∈ ps' -> e ∉ ps) -> represents s G' ps' cs' -> represents s' G' ps' cs').
  { intros G' qs cs' Hne Hdis Hr'. by eapply represents_frame. }
  destruct Hres as [[-> Hr']|(-> & _ & Hno)].
  - split; [|split; [|done]].
    + split; [intros E; by apply represents_null in Hr|]. intros Hno. destruct (represents_solvable _ _ _ _ Hr') as (v & Hv & _). by apply Hno in Hv.
    + intros _. split; [done|]. exists ps'. split; [done|]. intros x y. by eapply represents_bounds.
  - split; [by split|]. split; [done|done].
Qed.
End refine.

(** ** Examples *)

(** Types that are compared by their address. *)
#[export] Instance address_types : Types := {| unify := Z.eqb; typecmp x y := x - y |}.

#[export] Instance address_type_laws : TypeLaws.
Proof.
  split; simpl.
  - intros x. by rewrite Z.eqb_refl.
  - intros x y. destruct (x =? y) eqn:E1, (y =? x) eqn:E2; lia.
  - intros x y z. destruct (x =? y) eqn:E1, (y =? z) eqn:E2, (x =? z) eqn:E3; lia.
Qed.

Definition ex_pratt : pratt_mem bump := mk_pratt_mem ex_two ∅ ∅.

Lemma ex_pratt_ok : pratt_inv ex_pratt.
Proof.
  destruct ex_two_ok as ([Hh [Hi|Hi]] & _); [by vm_compute in Hi|]. unfold ex_pratt. split; cbn [ap graphs edges]; [exact Hh|exact Hi| |].
  - intros G [g Hg]. exfalso. rewrite lookup_empty in Hg. discriminate Hg.
  - intros e [d Hd]. exfalso. rewrite lookup_empty in Hd. discriminate Hd.
Qed.

(** A graph without constraints. *)
Definition ex_graph : Z * pratt_mem bump :=
  match Cyc_Pratt_empty_graph ex_pratt with (Ret G, s) => (G, s) | (_, s) => (0, s) end.

Lemma ex_graph_ok : pratt_inv ex_graph.2 /\ represents ex_graph.2 ex_graph.1 [] [] /\ is_num (ap ex_graph.2) 4160 (-48) /\ is_num (ap ex_graph.2) 4192 36.
Proof.
  pose proof (empty_graph_spec ex_pratt ex_pratt_ok) as Hw. destruct ex_two_ok as (_ & H1 & H2).
  assert (Hr : exists G s, Cyc_Pratt_empty_graph ex_pratt = (Ret G, s)) by (eexists _, _; vm_compute; reflexivity).
  destruct Hr as (G & s & Hr). destruct (wp_result _ _ _ _ _ _ Hw Hr) as (Hi & [_ Hev] & Hrep). unfold ex_graph. rewrite Hr. simpl.
  split; [done|]. split; [done|]. split; (eapply is_num_ext; [apply Hev|done]).
Qed.

(** The constraint [x <= -48] on a variable. *)
Lemma pratt_add_edge_exact_witness : exists s', Cyc_Pratt_add_edge ex_graph.1 (NVar 100) NZero 4160 ex_graph.2 = (Ret ex_graph.1, s') /\
  exists v, solves eqn v [(NVar 100, NZero, -48)].
Proof.
  destruct ex_graph_ok as (Hi & Hg & Hn & _).
  pose proof (pratt_add_edge_exact ex_graph.2 ex_graph.1 [] [] (NVar 100) NZero 4160 (-48) Hi Hg Hn) as Hw.
  assert (Hr : exists s', Cyc_Pratt_add_edge ex_graph.1 (NVar 100) NZero 4160 ex_graph.2 = (Ret ex_graph.1, s')) by (eexists _; vm_compute; reflexivity).
  destruct Hr as (s' & Hr). exists s'. split; [exact Hr|]. destruct (wp_result _ _ _ _ _ _ Hw Hr) as (_ & _ & Hnz & _).
  destruct Hnz as (_ & ps' & Hrep & _); [by vm_compute|]. destruct (represents_solvable _ _ _ _ Hrep) as (v & Hv & _). by exists v.
Defined.
