(* ===== verification/CycRelations.v ===== *)
(** * Relations between integers of a program

    Models src/bin/genfiles/relations-ap.c: the facts about variables, array
    sizes and types that the compiler's flow analysis collects, and the check
    that some facts imply others, by which bounds checks are removed.  A relation
    is a heap object whose operands the check rewrites in place.  The cells of a
    list are never written once they are linked, so a list is the sequence of its
    cells, each an address and an element; equality of list pointers is equality
    of the first address.

    Expressions and types are abstract syntax trees ([Exp]) as far as
    [Cyc_Relations_exp2relnop] looks into them.  The functions it calls in other
    parts of the compiler (tcutil.c, evexp.c), and the fields of declarations and
    types, are the parameter [Absyn]; the type that [Cyc_Relations_reln_kill_var]
    makes for a fresh type variable is an argument. *)

From S2P Require Import Prelude RwLock Alloc Region RegionSafety Words FatPtr CycAP CycPratt.

(** ** Data *)

Inductive RelnOp : Type :=
  | RConst (c : Z)
  | RVar (v : Z)
  | RNumelts (v : Z)
  | RType (t : Z)
  | RParam (i : Z)
  | RParamNumelts (i : Z)
  | RReturn.

Inductive Relation : Type := Req | Rneq | Rlte | Rlt.

#[export] Instance Relation_eq_dec : EqDecision Relation.
Proof. solve_decision. Defined.

Record Reln : Type := mk_Reln { rop1 : RelnOp; relation : Relation; rop2 : RelnOp }.

(** A list: the addresses of its cells with their elements. *)
Abbreviation rlist := (list (Z * Z)).

Definition same_list (l1 l2 : rlist) : bool :=
  match l1, l2 with
  | [], [] => true
  | (c1, _) :: _, (c2, _) :: _ => c1 =? c2
  | _, _ => false
  end.

Record rel_mem (H : Type) : Type := mk_rel_mem { pratt : pratt_mem H; relns : gmap Z Reln }.
Arguments mk_rel_mem {H} _ _.
Arguments pratt {H} _.
Arguments relns {H} _.

(** Expressions: the type [topt] as [Cyc_Tcutil_compress] leaves it, and [r].
    Types are pointers; [TypeView] is what a compressed type looks like. *)
Inductive Exp : Type := mk_Exp (topt : TypeView) (r : Raw_exp)
with Raw_exp : Type :=
  | Cast_e (e : Exp)
  | Var_e (b : Z)
  | Int_c (i : Z)                        (* Const_e of an integer *)
  | Numelts_e (b : Z)                    (* Primop_e(Numelts, variable) *)
  | Valueof_e (t : Z) (view : TypeView)  (* with the compressed form of t *)
  | Other_e
with TypeView : Type :=
  | NoType                               (* topt == NULL *)
  | TagType (t : Z)                      (* AppType(TagCon, t) *)
  | ValueofType (e : Exp)
  | OtherType.

(** What relations-ap.c uses of the rest of the compiler. *)
Class Absyn : Type := {
  compress : Z -> Z;
  type_view : Z -> TypeView;             (* of the compressed type *)
  nonesc_vardecl : Z -> option Z;
  is_const_exp : Exp -> bool;
  eval_const_uint_exp : Exp -> Z * bool;
  pointer_bounds : Z -> option Z;        (* of the pointer type of a declaration *)
  bounds_one : Z;
  get_bounds_exp : Z -> option Exp
}.

Definition sizeof_Reln : Z := 20.
Definition relations_cyc : string := "relations-ap.cyc".
Definition Cyc_Core_Impossible : exn := Cyc_Other_exn "Impossible".

(** ** Operands *)

Definition Cyc_Relations_same_relop `{Types} (r1 r2 : RelnOp) : bool :=
  match r1, r2 with
  | RConst c1, RConst c2 => c1 =? c2
  | RVar x1, RVar x2 => x1 =? x2
  | RNumelts x1, RNumelts x2 => x1 =? x2
  | RType t1, RType t2 => unify t1 t2
  | RParam i, RParam j => i =? j
  | RParamNumelts i, RParamNumelts j => i =? j
  | RReturn, RReturn => true
  | _, _ => false
  end.

(** The last part of [Cyc_Relations_exp2relnop]: a constant expression. *)
Definition const_relnop `{Absyn} (e : Exp) : option RelnOp :=
  if is_const_exp e then
    let '(t1, known) := eval_const_uint_exp e in if known then Some (RConst t1) else None
  else None.

(** [Cyc_Relations_exp2relnop]: the operand stored in [*p], or [None] for the
    result 0.  With [look] false the expression is the one of a [ValueofType],
    whose own type is not looked at. *)
Fixpoint exp2relnop_from `{Absyn} (look : bool) (e : Exp) {struct e} : option RelnOp :=
  match look, e with
  | true, mk_Exp (TagType t) _ => Some (RType (compress t))
  | true, mk_Exp (ValueofType type_exp) _ => exp2relnop_from false type_exp
  | _, mk_Exp _ (Cast_e e1) => exp2relnop_from true e1
  | _, mk_Exp _ (Var_e b) =>
      match nonesc_vardecl b with Some v => Some (RVar v) | None => const_relnop e end
  | _, mk_Exp _ (Int_c i) => Some (RConst (u32 i))
  | _, mk_Exp _ (Numelts_e b) =>
      match nonesc_vardecl b with Some v => Some (RNumelts v) | None => const_relnop e end
  | _, mk_Exp _ (Valueof_e _ (ValueofType type_exp)) => exp2relnop_from true type_exp
  | _, mk_Exp _ (Valueof_e t _) => Some (RType (compress t))
  | _, mk_Exp _ Other_e => const_relnop e
  end.

Definition Cyc_Relations_exp2relnop `{Absyn} (e : Exp) : option RelnOp := exp2relnop_from true e.

Definition Cyc_Relations_reduce_relnop `{Absyn} (rop : RelnOp) : RelnOp :=
  match rop with
  | RType t =>
      match type_view t with
      | ValueofType e => match Cyc_Relations_exp2relnop e with Some rop2 => rop2 | None => rop end
      | _ => rop
      end
  | RNumelts v =>
      match pointer_bounds v with
      | Some b =>
          if b =? bounds_one then rop
          else match get_bounds_exp b with
               | Some e =>
                   match Cyc_Relations_exp2relnop e with Some rop2 => rop2 | None => rop end
               | None => rop
               end
      | None => rop
      end
  | _ => rop
  end.

Definition Cyc_Relations_rop_contains_var (r : RelnOp) (v : Z) : bool :=
  match r with RVar v2 => v =? v2 | RNumelts v2 => v =? v2 | _ => false end.

Definition Cyc_Relations_subst_rop_var (r : RelnOp) (v : Z) (new_rop : RelnOp) : RelnOp :=
  match r with
  | RVar v2 => if v =? v2 then new_rop else r
  | RNumelts v2 => if v =? v2 then new_rop else r
  | _ => r
  end.

(** Used to negate a relation, whose operands are exchanged too. *)
Definition Cyc_Relations_flip_relation (r : Relation) : Relation :=
  match r with Req => Rneq | Rneq => Req | Rlt => Rlte | Rlte => Rlt end.

(** Two relations with the same operands. *)
Definition same_reln `{Types} (t1 t2 : Reln) : bool :=
  Cyc_Relations_same_relop (rop1 t1) (rop1 t2) && bool_decide (relation t1 = relation t2) && Cyc_Relations_same_relop (rop2 t1) (rop2 t2).

Section relations.
Context {H : Type} `{Heap H} `{Types} `{Absyn} (self : Z).
Abbreviation M := (ST (rel_mem H)).

(** ** Accesses *)

Definition on_pratt {A} (c : ST (pratt_mem H) A) : M A := fun s =>
  let '(r, p) := c (pratt s) in (r, mk_rel_mem p (relns s)).

Definition reln_of (r : Z) : M Reln := s ← get; lift (load (relns s) r).

Definition put_reln (r : Z) (t : Reln) : M unit := fun s => (Ret tt, mk_rel_mem (pratt s) (<[r := t]> (relns s))).

Definition region_malloc (rgn n : Z) : M Z := on_pratt (on_ap (on_hp (_region_malloc self rgn n))).

(** [rnew(rgn) List(r,l)] *)
Definition cons (rgn r : Z) (l : rlist) : M rlist := c ← region_malloc rgn sizeof_List; mret ((c, r) :: l).

(** [rnew(rgn) Reln(...)] *)
Definition new_reln (rgn : Z) (t : Reln) : M Z := r ← region_malloc rgn sizeof_Reln; put_reln r t;; mret r.

(** [rnew(rgn) List(rnew(rgn) Reln(...),l)]: the cell is allocated first. *)
Definition cons_new (rgn : Z) (t : Reln) (l : rlist) : M rlist :=
  c ← region_malloc rgn sizeof_List; r ← new_reln rgn t; mret ((c, r) :: l).

(** ** Sets of relations *)

(** The search of [add_relation]. *)
Fixpoint has_relation (t : Reln) (l : rlist) : M bool :=
  match l with
  | [] => mret false
  | (_, r) :: l => t' ← reln_of r; if same_reln t' t then mret true else has_relation t l
  end.

Definition Cyc_Relations_add_relation (rgn : Z) (rop1 : RelnOp) (relation : Relation) (rop2 : RelnOp) (relns : rlist) : M rlist :=
  found ← has_relation (mk_Reln rop1 relation rop2) relns;
  if found : bool then mret relns else cons_new rgn (mk_Reln rop1 relation rop2) relns.

(** The inner loop of [relns_approx] and [join_relns]. *)
Fixpoint find_same (r1 : Z) (r2s : rlist) : M bool :=
  match r2s with
  | [] => mret false
  | (_, r2) :: r2s =>
      if r1 =? r2 then mret true
      else t1 ← reln_of r1; t2 ← reln_of r2; if same_reln t1 t2 then mret true else find_same r1 r2s
  end.

Fixpoint approx_loop (r2s r1s : rlist) : M bool :=
  match r1s with
  | [] => mret true
  | (_, r1) :: r1s => found ← find_same r1 r2s; if found : bool then approx_loop r2s r1s else mret false
  end.

Definition Cyc_Relations_relns_approx (r2s r1s : rlist) : M bool :=
  if same_list r1s r2s then mret true else approx_loop r2s r1s.

Fixpoint join_loop (rgn : Z) (r2s r1s res : rlist) (diff : bool) : M (rlist * bool) :=
  match r1s with
  | [] => mret (res, diff)
  | (_, r1) :: r1s =>
      found ← find_same r1 r2s;
      if found : bool then res ← cons rgn r1 res; join_loop rgn r2s r1s res diff
      else join_loop rgn r2s r1s res true
  end.

Definition Cyc_Relations_join_relns (rgn : Z) (r1s r2s : rlist) : M rlist :=
  if same_list r1s r2s then mret r1s
  else '(res, diff) ← join_loop rgn r2s r1s [] false; mret (if diff : bool then res else r1s).

Definition Cyc_Relations_substitute_rop_var (rgn r v : Z) (new_rop : RelnOp) : M Z :=
  n ← region_malloc rgn sizeof_Reln; t ← reln_of r;
  put_reln n (mk_Reln (Cyc_Relations_subst_rop_var (rop1 t) v new_rop) (relation t) (Cyc_Relations_subst_rop_var (rop2 t) v new_rop));;
  mret n.

Definition reln_contains (t : Reln) (v : Z) : bool :=
  Cyc_Relations_rop_contains_var (rop1 t) v || Cyc_Relations_rop_contains_var (rop2 t) v.

Fixpoint mentions (l : rlist) (v : Z) : M bool :=
  match l with
  | [] => mret false
  | (_, r) :: l => t ← reln_of r; if reln_contains t v then mret true else mentions l v
  end.

Fixpoint kill_loop (rgn : Z) (l : rlist) (v : Z) (new_rop : RelnOp) (new_rs : rlist) : M rlist :=
  match l with
  | [] => mret new_rs
  | (_, r) :: l =>
      t ← reln_of r;
      new_rs ← (if reln_contains t v then
                  c ← region_malloc rgn sizeof_List; n ← Cyc_Relations_substitute_rop_var rgn r v new_rop; mret ((c, n) :: new_rs)
                else cons rgn r new_rs);
      kill_loop rgn l v new_rop new_rs
  end.

(** [tv] is [Cyc_Absyn_var_type] of the new type variable, compressed. *)
Definition Cyc_Relations_reln_kill_var (rgn : Z) (rs : rlist) (v tv : Z) : M rlist :=
  found ← mentions rs v;
  if found : bool then kill_loop rgn rs v (RType tv) [] else mret rs.

Definition Cyc_Relations_copy_reln (r2 r : Z) : M Z :=
  n ← region_malloc r2 sizeof_Reln; t ← reln_of r; put_reln n t;; mret n.

(** [Cyc_List_rmap_c] with [copy_reln]: the cell is allocated first. *)
Fixpoint Cyc_Relations_copy_relns (r2 : Z) (l : rlist) : M rlist :=
  match l with
  | [] => mret []
  | (_, r) :: l =>
      c ← region_malloc r2 sizeof_List; n ← Cyc_Relations_copy_reln r2 r;
      l ← Cyc_Relations_copy_relns r2 l; mret ((c, n) :: l)
  end.

Fixpoint Cyc_Relations_same_relns (l1 l2 : rlist) : M bool :=
  match l1, l2 with
  | (_, r1) :: l1, (_, r2) :: l2 =>
      t1 ← reln_of r1; t2 ← reln_of r2;
      if same_reln t1 t2 then Cyc_Relations_same_relns l1 l2 else mret false
  | [], [] => mret true
  | _, _ => mret false
  end.

(** ** Consistency *)

Definition Cyc_Relations_rop2node (r : RelnOp) : M Node :=
  match r with
  | RVar x => mret (NVar x)
  | RNumelts x => mret (NNumelts x)
  | RType x => mret (NType x)
  | RParam i => mret (NParam i)
  | RParamNumelts i => mret (NParamNumelts i)
  | RReturn => mret NReturn
  | RConst _ => lift (Thrown Cyc_Core_Impossible "warn.cyc" 79)
  end.

Definition add_edge (G : Z) (i j : Node) (a : Z) : M Z := on_pratt (Cyc_Pratt_add_edge G i j a).
Definition ap_op {A} (c : ST (ap_mem H) A) : M A := on_pratt (on_ap c).

(** [Cyc_AP_one] *)
Definition read_one : M Z := s ← get; mret (AP_one (ap (pratt s))).

(** The relation of two constants, as unsigned numbers. *)
Definition const_reln (i : Z) (reln : Relation) (j : Z) : bool :=
  match reln with
  | Req => i =? j
  | Rneq => negb (i =? j)
  | Rlt => negb (j <=? i)
  | Rlte => negb (j <? i)
  end.

(** [AP_sub(AP_fromint(i), AP_one)], [AP_neg(AP_add(AP_fromint(i), AP_one))] and [AP_neg(AP_one)] *)
Definition const_minus_one (i : Z) : M Z := x ← ap_op (Cyc_AP_fromint (i32 i)); one ← read_one; ap_op (Cyc_AP_sub x one).
Definition neg_const_plus_one (i : Z) : M Z :=
  x ← ap_op (Cyc_AP_fromint (i32 i)); one ← read_one; y ← ap_op (Cyc_AP_add x one); ap_op (Cyc_AP_neg y).
Definition minus_one : M Z := one ← read_one; ap_op (Cyc_AP_neg one).

(** [x != i]: a copy with [x <= i - 1], and the graph itself with [i + 1 <= x]. *)
Definition split_const (G i : Z) (rop : RelnOp) : M (Z * Z) :=
  n ← Cyc_Relations_rop2node rop;
  G2 ← on_pratt (Cyc_Pratt_copy_graph G);
  x ← const_minus_one i; G2 ← add_edge G2 n NZero x;
  x ← neg_const_plus_one i; G ← add_edge G NZero n x;
  mret (G, G2).

(** [x != y]: a copy with [x <= y - 1], and the graph itself with [y <= x - 1]. *)
Definition split_nodes (G : Z) (rop1 rop2 : RelnOp) : M (Z * Z) :=
  n1 ← Cyc_Relations_rop2node rop1; n2 ← Cyc_Relations_rop2node rop2;
  G2 ← on_pratt (Cyc_Pratt_copy_graph G);
  x ← minus_one; G2 ← add_edge G2 n1 n2 x;
  x ← minus_one; G ← add_edge G n2 n1 x;
  mret (G, G2).

(** [x < i], [x <= i] and [x == i] *)
Definition below_const (G : Z) (rop : RelnOp) (reln : Relation) (i : Z) : M Z :=
  n ← Cyc_Relations_rop2node rop;
  let i := if decide (reln = Rlt) then u32 (i - 1) else i in
  x ← ap_op (Cyc_AP_fromint (i32 i)); G ← add_edge G n NZero x;
  if negb (G =? 0) && bool_decide (reln = Req) then
    x ← ap_op (Cyc_AP_fromint (i32 i)); x ← ap_op (Cyc_AP_neg x); add_edge G NZero n x
  else mret G.

(** [i < x], [i <= x] and [i == x] *)
Definition above_const (G i : Z) (reln : Relation) (rop : RelnOp) : M Z :=
  n ← Cyc_Relations_rop2node rop;
  let i := if decide (reln = Rlt) then u32 (i + 1) else i in
  x ← ap_op (Cyc_AP_fromint (i32 i)); x ← ap_op (Cyc_AP_neg x); G ← add_edge G NZero n x;
  if negb (G =? 0) && bool_decide (reln = Req) then
    x ← ap_op (Cyc_AP_fromint (i32 i)); add_edge G n NZero x
  else mret G.

(** [x < y], [x <= y] and [x == y] *)
Definition between_nodes (G : Z) (rop1 : RelnOp) (reln : Relation) (rop2 : RelnOp) : M Z :=
  n1 ← Cyc_Relations_rop2node rop1; n2 ← Cyc_Relations_rop2node rop2;
  let i := if decide (reln = Rlt) then -1 else 0 in
  x ← ap_op (Cyc_AP_fromint i); G ← add_edge G n1 n2 x;
  if negb (G =? 0) && bool_decide (reln = Req) then
    x ← ap_op (Cyc_AP_fromint i); add_edge G n2 n1 x
  else mret G.

(** [reln->rop1 = reduce_relnop(reln->rop1)], and the same for [rop2] *)
Definition reduce_reln (r : Z) : M Reln :=
  t ← reln_of r; put_reln r (mk_Reln (Cyc_Relations_reduce_relnop (rop1 t)) (relation t) (rop2 t));;
  t ← reln_of r; put_reln r (mk_Reln (rop1 t) (relation t) (Cyc_Relations_reduce_relnop (rop2 t)));;
  reln_of r.

(** The effect of one relation on the graph: the graphs to go on with, the second
    only for [!=], null when inconsistent. *)
Definition add_reln (G : Z) (t : Reln) : M (Z * Z) :=
  match rop1 t, relation t, rop2 t with
  | RConst i, reln, RConst j => mret (if const_reln i reln j then G else 0, 0)
  | RConst i, Rneq, rop => split_const G i rop
  | rop, Rneq, RConst i => split_const G i rop
  | rop1, Rneq, rop2 => split_nodes G rop1 rop2
  | rop, reln, RConst i => G ← below_const G rop reln i; mret (G, 0)
  | RConst i, reln, rop => G ← above_const G i reln rop; mret (G, 0)
  | rop1, reln, rop2 => G ← between_nodes G rop1 reln rop2; mret (G, 0)
  end.

Fixpoint Cyc_Relations_consist_relations (G : Z) (rlns : rlist) : M bool :=
  if G =? 0 then mret false
  else match rlns with
  | [] => mret true
  | (_, r) :: rlns =>
      t ← reduce_reln r;
      '(G, G2) ← add_reln G t;
      if negb (G =? 0) && negb (G2 =? 0) then
        b ← Cyc_Relations_consist_relations G rlns;
        if b : bool then mret true else Cyc_Relations_consist_relations G2 rlns
      else Cyc_Relations_consist_relations (if G =? 0 then G2 else G) rlns
  end.

Definition Cyc_Relations_consistent_relations (rlns : rlist) : M bool :=
  G ← on_pratt Cyc_Pratt_empty_graph; Cyc_Relations_consist_relations G rlns.

Definition Cyc_Relations_negate (rgn r : Z) : M Z :=
  n ← region_malloc rgn sizeof_Reln; t ← reln_of r;
  put_reln n (mk_Reln (rop2 t) (Cyc_Relations_flip_relation (relation t)) (rop1 t));; mret n.

(** Every relation of [r2] follows from those of [r1] if [r1] with its negation
    is inconsistent. *)
Fixpoint Cyc_Relations_check_logical_implication (r1 r2 : rlist) : M bool :=
  match r2 with
  | [] => mret true
  | (_, r) :: r2 =>
      n ← Cyc_Relations_negate CYC_CORE_HEAP_REGION r;
      c ← on_pratt (on_ap (on_hp (_bounded_GC_malloc sizeof_List relations_cyc 550)));
      b ← Cyc_Relations_consistent_relations ((c, n) :: r1);
      if b : bool then mret false else Cyc_Relations_check_logical_implication r1 r2
  end.
End relations.
