(* ===== verification/RelationsSpec.v ===== *)
(** * The consistency check decides the meaning of relations

    The meaning of a relation over valuations of the nodes of CycPratt.v, the
    state of CycRelations.v, and the specification of the consistency check: it
    follows every way to satisfy the relations on graphs of its own. *)

From S2P Require Import Prelude RwLock Alloc Region RegionSafety Words FatPtr CycAP APSpec APArith APDiv APPow CycPratt PrattSpec PrattRefine CycRelations.

(** ** Meaning *)

Definition node_of (r : RelnOp) : Node :=
  match r with
  | RConst _ => NZero
  | RVar x => NVar x
  | RNumelts x => NNumelts x
  | RType t => NType t
  | RParam i => NParam i
  | RParamNumelts i => NParamNumelts i
  | RReturn => NReturn
  end.

(** A constant is the unsigned number it is declared as. *)
Definition value (v : Node -> Z) (r : RelnOp) : Z := match r with RConst c => c | _ => v (node_of r) end.

Definition related (a : Z) (r : Relation) (b : Z) : Prop :=
  match r with Req => a = b | Rneq => a <> b | Rlte => a <= b | Rlt => a < b end.

Definition holds (v : Node -> Z) (t : Reln) : Prop := related (value v (rop1 t)) (relation t) (value v (rop2 t)).

#[export] Instance holds_dec v t : Decision (holds v t).
Proof. unfold holds, related. destruct (relation t); apply _. Defined.

(** Constants below the largest signed number, of which the check has the same
    value whether it takes them as signed or as unsigned numbers. *)
Definition small_const (c : Z) : Prop := 0 <= c < 2147483647.
Definition small_op (r : RelnOp) : Prop := match r with RConst c => small_const c | _ => True end.
Definition small (t : Reln) : Prop := small_op (rop1 t) /\ small_op (rop2 t).

Definition is_const (r : RelnOp) : bool := match r with RConst _ => true | _ => false end.

(** Negation is exact. *)
Lemma negate_holds v t : holds v (mk_Reln (rop2 t) (Cyc_Relations_flip_relation (relation t)) (rop1 t)) <-> ~ holds v t.
Proof. unfold holds. destruct t as [a [] b]; simpl; lia. Qed.

Lemma negate_small t : small t -> small (mk_Reln (rop2 t) (Cyc_Relations_flip_relation (relation t)) (rop1 t)).
Proof. intros [Ha Hb]. by split. Qed.

Section spec.
Context {H : Type} `{HH : Heap H} `{!HeapLaws H} {TY : Types} {TL : TypeLaws} {EX : Absyn} (self : Z).
Implicit Types (s : rel_mem H) (cs : list (Node * Node * Z)) (v : Node -> Z) (t : Reln) (G : Z) (ps : list Z).

(** ** State *)

Abbreviation live s := (gc_live (heap (hp (ap (pratt s))))).

Definition rel_inv s : Prop := pratt_inv (pratt s) /\ forall r, is_Some (relns s !! r) -> is_Some (live s !! r).

Definition rel_oom : exn -> rel_mem H -> Prop := fun e _ => e = Cyc_Bad_alloc.

Definition unsat cs : Prop := forall v, ~ solves eqn v cs.

(** The graph of the system [cs], null when the system has no solution. *)
Definition graph_of_system s G ps cs : Prop := (G = 0 /\ unsat cs) \/ represents (pratt s) G ps cs.

(** Only the graph [G] has been written. *)
Record steps s G ps s' ps' : Prop := {
  st_inv : rel_inv s';
  st_relns : relns s' = relns s;
  st_ev : evolves (pratt s) G ps (pratt s') ps'
}.

Lemma steps_refl s G ps : rel_inv s -> steps s G ps s ps.
Proof. intros Hi. split; [done|done|apply graph_evolves_refl]. Qed.

Lemma steps_trans s0 G ps0 s1 ps1 s2 ps2 : steps s0 G ps0 s1 ps1 -> steps s1 G ps1 s2 ps2 -> steps s0 G ps0 s2 ps2.
Proof. intros [? E1 ?] [? E2 ?]. split; [done|by rewrite E2|by eapply graph_evolves_trans]. Qed.

Definition set_pratt s (p : pratt_mem H) : rel_mem H := mk_rel_mem p (relns s).

Lemma wp_on_pratt {A} (c : ST (pratt_mem H) A) P (Q : A -> rel_mem H -> Prop) s :
  wp c P oom (pratt s) -> (forall r p, P r p -> Q r (set_pratt s p)) -> wp (on_pratt c) Q rel_oom s.
Proof.
  intros Hc HQ. destruct (wp_cases _ _ _ _ Hc) as [(r & p & Hr & HP)|(e & f & ln & p & Hr & ->)].
  - eapply (wp_run _ _ _ _ r (set_pratt s p)); [unfold on_pratt; by rewrite Hr|by apply HQ].
  - eapply (wp_throws _ _ _ _ _ f ln (set_pratt s p)); [unfold on_pratt; by rewrite Hr|done].
Qed.

Lemma rel_inv_pratt s p : rel_inv s -> ext (ap (pratt s)) (ap p) -> pratt_inv p -> rel_inv (set_pratt s p).
Proof. intros [_ Hl] Hx Hp. split; [done|]. intros r Hr. destruct (Hl r Hr) as [b Hb]. exists b. eapply lookup_weaken; [exact Hb|apply Hx]. Qed.

(** Arithmetic changes no graph. *)
Definition set_num_state s (a : ap_mem H) : rel_mem H := set_pratt s (set_ap (pratt s) a).

Lemma steps_ap s a G ps : rel_inv s -> ext (ap (pratt s)) a -> pratt_inv (set_ap (pratt s) a) -> steps s G ps (set_num_state s a) ps.
Proof. intros Hi Hx Ha. split; [by apply rel_inv_pratt|done|by apply ap_evolves]. Qed.

Lemma wp_ap_op c w s (Q : Z -> rel_mem H -> Prop) : rel_inv s -> (ap_ok (ap (pratt s)) -> wp c (result (ap (pratt s)) w) (ap_oom (ap (pratt s))) (ap (pratt s))) ->
  (forall r a, is_num a r w -> ext (ap (pratt s)) a -> pratt_inv (set_ap (pratt s) a) -> Q r (set_num_state s a)) -> wp (ap_op c) Q rel_oom s.
Proof.
  intros Hi Hc HQ. eapply (wp_on_pratt _ (fun r p => exists a, p = set_ap (pratt s) a /\ is_num a r w /\ ext (ap (pratt s)) a /\ pratt_inv p)).
  - eapply wp_result_ap; [apply Hi|done|]. intros r a Hn Hx Ha. by exists a.
  - intros r p (a & -> & Hn & Hx & Ha). by apply HQ.
Qed.

Lemma store_add_spec s G ps cs i j a va (Q : Z -> rel_mem H -> Prop) : rel_inv s -> represents (pratt s) G ps cs -> is_num (ap (pratt s)) a va ->
  (forall G' s' ps', steps s G ps s' ps' -> G' = 0 \/ G' = G -> graph_of_system s' G' ps' ((i, j, va) :: cs) -> Q G' s') ->
  wp (add_edge G i j a) Q rel_oom s.
Proof.
  intros Hi Hr Ha HQ. eapply wp_on_pratt; [by apply (add_edge_spec (pratt s) G ps cs i j a va); [apply Hi|..]|].
  intros G' p (Hp & ps' & Hev & Hres). apply (HQ _ _ ps').
  - split; [|done|done]. apply rel_inv_pratt; [done|apply Hev|done].
  - destruct Hres as [[-> _]|[-> _]]; auto.
  - destruct Hres as [[-> ?]|(-> & _ & ?)]; [by right|by left].
Qed.

(** ** Relations without [!=] *)

Lemma rop2node_spec r s (Q : Node -> rel_mem H -> Prop) E : is_const r = false -> Q (node_of r) s -> wp (Cyc_Relations_rop2node r) Q E s.
Proof. by destruct r; intros Hc HQ; [done|by apply wp_ret..]. Qed.

Lemma unsat_cons c cs : unsat cs -> unsat (c :: cs).
Proof. destruct c as [[i j] a]. intros Hu v [Hv _]%solves_cons. by apply (Hu v). Qed.

(** A first constraint, and a second one when [e] holds. *)
Lemma add_two s s0 G ps0 ps cs i j a va (e : bool) va2 (c : Z -> ST (rel_mem H) Z) (Q : Z -> rel_mem H -> Prop) :
  steps s0 G ps0 s ps -> represents (pratt s) G ps cs -> is_num (ap (pratt s)) a va ->
  (forall s1 ps1, e = true -> steps s0 G ps0 s1 ps1 -> represents (pratt s1) G ps1 ((i, j, va) :: cs) ->
     wp (c G) (fun G' s' => exists ps', steps s0 G ps0 s' ps' /\ (G' = 0 \/ G' = G) /\ graph_of_system s' G' ps' ((j, i, va2) :: (i, j, va) :: cs)) rel_oom s1) ->
  (forall G' s' ps', steps s0 G ps0 s' ps' -> G' = 0 \/ G' = G ->
     graph_of_system s' G' ps' (if e then (j, i, va2) :: (i, j, va) :: cs else (i, j, va) :: cs) -> Q G' s') ->
  wp (G ← add_edge G i j a; if negb (G =? 0) && e then c G else mret G) Q rel_oom s.
Proof.
  intros Hst Hr Ha Hc HQ. wps. eapply store_add_spec; [apply Hst|exact Hr|exact Ha|]. intros G1 s1 ps1 Hst1 HG1 Hg1.
  assert (Hst01 : steps s0 G ps0 s1 ps1) by (by eapply steps_trans).
  destruct HG1 as [->| ->]; simpl.
  - wps. eapply HQ; [exact Hst01|by left|]. destruct Hg1 as [[_ Hu]|Hr1]; [|by apply represents_null in Hr1]. left. split; [done|].
    destruct e; [by apply unsat_cons|done].
  - pose proof (represents_null _ _ _ _ Hr) as Hnz. destruct Hg1 as [[? _]|Hr1]; [done|]. rewrite (proj2 (Z.eqb_neq _ _) Hnz). simpl. destruct e.
    + eapply wp_conseq; [by apply (Hc s1 ps1)|]. intros G' s' (ps' & ? & ? & ?). by eapply HQ.
    + wps. eapply HQ; [exact Hst01|by right|by right].
Qed.

(** The graph now also has a constraint with the solutions [P]. *)
Definition adds s G ps cs (P : (Node -> Z) -> Prop) (G' : Z) s' : Prop := exists ps' cs', steps s G ps s' ps' /\ (G' = 0 \/ G' = G) /\
  graph_of_system s' G' ps' cs' /\ forall v, v NZero = 0 -> (solves eqn v cs' <-> solves eqn v cs /\ P v).

Lemma wp_fromint n s (Q : Z -> rel_mem H -> Prop) : rel_inv s -> -2147483648 <= n < 2147483648 ->
  (forall r a, is_num a r n -> ext (ap (pratt s)) a -> pratt_inv (set_ap (pratt s) a) -> Q r (set_num_state s a)) ->
  wp (ap_op (Cyc_AP_fromint n)) Q rel_oom s.
Proof. intros Hi Hn HQ. eapply wp_ap_op; [done|intros; by apply set_value|done]. Qed.

Lemma wp_neg x w s (Q : Z -> rel_mem H -> Prop) : rel_inv s -> is_num (ap (pratt s)) x w ->
  (forall r a, is_num a r (- w) -> ext (ap (pratt s)) a -> pratt_inv (set_ap (pratt s) a) -> Q r (set_num_state s a)) ->
  wp (ap_op (Cyc_AP_neg x)) Q rel_oom s.
Proof. intros Hi Hx HQ. eapply wp_ap_op; [done|intros; by apply neg_value|done]. Qed.

Lemma represents_num s a G ps cs : ext (ap (pratt s)) a -> represents (pratt s) G ps cs -> represents (pratt (set_num_state s a)) G ps cs.
Proof. apply represents_ap. Qed.

Section single.
Context (s : rel_mem H) (G : Z) (ps : list Z) (cs : list (Node * Node * Z)).
Context (Hi : rel_inv s) (Hr : represents (pratt s) G ps cs).

Lemma below_const_spec rop reln i : is_const rop = false -> reln <> Rneq -> small_const i ->
  wp (below_const G rop reln i) (adds s G ps cs (fun v => related (v (node_of rop)) reln i)) rel_oom s.
Proof.
  intros Hrop Hreln Hsmall. unfold small_const in Hsmall. unfold below_const. wps. apply rop2node_spec; [done|]. set (n := node_of rop).
  set (k := if decide (reln = Rlt) then i - 1 else i).
  replace (i32 (if decide (reln = Rlt) then _ else _)) with k by (unfold k; case_decide; words).
  wps. apply wp_fromint; [done|unfold k; case_decide; lia|]. intros x a1 Hx Hx1 Hi1.
  pose proof (steps_ap s a1 G ps Hi Hx1 Hi1) as Hst1.
  eapply (add_two _ s G ps ps cs n NZero x k (bool_decide (reln = Req)) (- k)); [exact Hst1|by apply represents_num|exact Hx| |].
  - intros s2 ps2 _ Hst2 Hr2. wps. apply wp_fromint; [apply Hst2|unfold k; case_decide; lia|]. intros y a2 Hy Hx2 Hi2.
    pose proof (steps_ap s2 a2 G ps2 (st_inv _ _ _ _ _ Hst2) Hx2 Hi2) as Hst3.
    wps. eapply wp_neg; [apply Hst3|exact Hy|]. intros z a3 Hz Hx3 Hi3. pose proof (steps_ap _ a3 G ps2 (st_inv _ _ _ _ _ Hst3) Hx3 Hi3) as Hst4.
    eapply store_add_spec; [apply Hst4|by apply represents_num; [|apply represents_num]|exact Hz|]. intros G' s' ps' Hst' HG' Hg'. exists ps'. split; [|done].
    eapply steps_trans; [exact Hst2|]. eapply steps_trans; [exact Hst3|]. eapply steps_trans; [exact Hst4|done].
  - intros G' s' ps' Hst' HG' Hg'. exists ps'. eexists. split; [done|]. split; [done|]. split; [exact Hg'|]. intros v Hv.
    case_bool_decide as Eq; rewrite !solves_cons, Hv; unfold related, k; [subst reln|destruct reln; try done]; case_decide; try done; intuition lia.
Qed.

Lemma above_const_spec rop reln i : is_const rop = false -> reln <> Rneq -> small_const i ->
  wp (above_const G i reln rop) (adds s G ps cs (fun v => related i reln (v (node_of rop)))) rel_oom s.
Proof.
  intros Hrop Hreln Hsmall. unfold small_const in Hsmall. unfold above_const. wps. apply rop2node_spec; [done|]. set (n := node_of rop).
  set (k := if decide (reln = Rlt) then i + 1 else i).
  replace (i32 (if decide (reln = Rlt) then _ else _)) with k by (unfold k; case_decide; words).
  wps. apply wp_fromint; [done|unfold k; case_decide; lia|]. intros x a1 Hx Hx1 Hi1.
  pose proof (steps_ap s a1 G ps Hi Hx1 Hi1) as Hst1.
  wps. eapply wp_neg; [apply Hst1|exact Hx|]. intros z a2 Hz Hx2 Hi2. pose proof (steps_ap _ a2 G ps (st_inv _ _ _ _ _ Hst1) Hx2 Hi2) as Hst2.
  eapply (add_two _ s G ps ps cs NZero n z (- k) (bool_decide (reln = Req)) k); [by eapply steps_trans|by apply represents_num; [|apply represents_num]|exact Hz| |].
  - intros s3 ps3 _ Hst3 Hr3. wps. apply wp_fromint; [apply Hst3|unfold k; case_decide; lia|]. intros y a4 Hy Hx4 Hi4.
    pose proof (steps_ap s3 a4 G ps3 (st_inv _ _ _ _ _ Hst3) Hx4 Hi4) as Hst4.
    eapply store_add_spec; [apply Hst4|by apply represents_num|exact Hy|]. intros G' s' ps' Hst' HG' Hg'. exists ps'. split; [|done].
    eapply steps_trans; [exact Hst3|]. by eapply steps_trans.
  - intros G' s' ps' Hst' HG' Hg'. exists ps'. eexists. split; [done|]. split; [done|]. split; [exact Hg'|]. intros v Hv.
    case_bool_decide as Eq; rewrite !solves_cons, Hv; unfold related, k; [subst reln|destruct reln; try done]; case_decide; try done; intuition lia.
Qed.

Lemma between_nodes_spec r1 reln r2 : is_const r1 = false -> is_const r2 = false -> reln <> Rneq ->
  wp (between_nodes G r1 reln r2) (adds s G ps cs (fun v => related (v (node_of r1)) reln (v (node_of r2)))) rel_oom s.
Proof.
  intros Hr1 Hr2 Hreln. unfold between_nodes. wps. apply rop2node_spec; [done|]. wps. apply rop2node_spec; [done|].
  set (k := if decide (reln = Rlt) then -1 else 0). assert (Hk : -1 <= k <= 0) by (unfold k; case_decide; lia).
  wps. apply wp_fromint; [done|lia|]. intros x a1 Hx Hx1 Hi1. pose proof (steps_ap s a1 G ps Hi Hx1 Hi1) as Hst1.
  eapply (add_two _ s G ps ps cs _ _ x k (bool_decide (reln = Req)) k); [exact Hst1|by apply represents_num|exact Hx| |].
  - intros s3 ps3 _ Hst3 Hr3. wps. apply wp_fromint; [apply Hst3|lia|]. intros y a4 Hy Hx4 Hi4.
    pose proof (steps_ap s3 a4 G ps3 (st_inv _ _ _ _ _ Hst3) Hx4 Hi4) as Hst4.
    eapply store_add_spec; [apply Hst4|by apply represents_num|exact Hy|]. intros G' s' ps' Hst' HG' Hg'. exists ps'. split; [|done].
    eapply steps_trans; [exact Hst3|]. by eapply steps_trans.
  - intros G' s' ps' Hst' HG' Hg'. exists ps'. eexists. split; [done|]. split; [done|]. split; [exact Hg'|]. intros v Hv.
    case_bool_decide as Eq; rewrite !solves_cons; unfold related, k; [subst reln|destruct reln; try done]; case_decide; try done; intuition lia.
Qed.
End single.

(** ** Relations with [!=] *)

(** A computation that only makes the number [w]. *)
Definition makes (c : ST (rel_mem H) Z) (w : Z) : Prop := forall s, rel_inv s ->
  wp c (fun r s' => exists a, s' = set_num_state s a /\ is_num a r w /\ ext (ap (pratt s)) a /\ pratt_inv (set_ap (pratt s) a)) rel_oom s.

Lemma wp_read_one s (Q : Z -> rel_mem H -> Prop) E : rel_inv s -> (forall r, is_num (ap (pratt s)) r 1 -> Q r s) -> wp read_one Q E s.
Proof. intros [Hi _] HQ. unfold read_one. wps. apply HQ, (pi_init _ Hi). Qed.

Lemma const_minus_one_makes i : makes (const_minus_one i) (i32 i - 1).
Proof.
  intros s Hs. unfold const_minus_one. wps. apply wp_fromint; [done|words|]. intros x a1 Hx Hx1 Hi1.
  pose proof (steps_ap s a1 0 [] Hs Hx1 Hi1) as [Hs1 _ _]. wps. eapply wp_read_one; [done|]. intros one Hone.
  eapply wp_ap_op; [done|intros; by apply sub_value|]. intros r a2 Hr Hx2 Hi2. exists a2. split_and!; [done|done| |done]. simpl in *. by etrans.
Qed.

Lemma neg_const_plus_one_makes i : makes (neg_const_plus_one i) (- (i32 i + 1)).
Proof.
  intros s Hs. unfold neg_const_plus_one. wps. apply wp_fromint; [done|words|]. intros x a1 Hx Hx1 Hi1.
  pose proof (steps_ap s a1 0 [] Hs Hx1 Hi1) as [Hs1 _ _]. wps. eapply wp_read_one; [done|]. intros one Hone.
  wps. eapply wp_ap_op; [done|intros; by apply add_value|]. intros y a2 Hy Hx2 Hi2. pose proof (steps_ap _ a2 0 [] Hs1 Hx2 Hi2) as [Hs2 _ _].
  eapply wp_neg; [exact Hs2|exact Hy|]. intros r a3 Hr Hx3 Hi3. exists a3. split_and!; [done|done| |done]. simpl in *. etrans; [exact Hx1|]. by etrans.
Qed.

Lemma minus_one_makes : makes minus_one (-1).
Proof.
  intros s Hs. unfold minus_one. wps. eapply wp_read_one; [done|]. intros one Hone. eapply wp_neg; [done|exact Hone|]. intros r a Hr Hx Hi. by exists a.
Qed.

(** The systems of the two graphs together are the system with [P]. *)
Definition splits s G ps cs (P : (Node -> Z) -> Prop) (r : Z * Z) s' : Prop := exists ps1 ps2 cs1 cs2,
  steps s G ps s' ps1 /\ (r.1 = 0 \/ r.1 = G) /\ graph_of_system s' r.1 ps1 cs1 /\
  (r.2 = 0 \/ graphs (pratt s) !! r.2 = None) /\ graph_of_system s' r.2 ps2 cs2 /\
  (forall e, e ∈ ps2 -> edges (pratt s) !! e = None /\ e ∉ ps1) /\
  forall v, v NZero = 0 -> ((solves eqn v cs /\ P v) <-> (solves eqn v cs1 \/ solves eqn v cs2)).

Lemma contradiction_unsat : unsat [(NZero, NZero, -1)].
Proof. intros v [_ Hv]%solves_cons. lia. Qed.

(** One graph. *)
Lemma adds_splits s G ps cs P G' s' : adds s G ps cs P G' s' -> splits s G ps cs P (G', 0) s'.
Proof.
  intros (ps' & cs' & Hst & HG & Hg & Hv). exists ps', [], cs', [(NZero, NZero, -1)]. split; [done|]. split; [done|]. split; [done|].
  split; [by left|]. split; [|split].
  - left. split; [done|apply contradiction_unsat].
  - intros e He. by apply not_elem_of_nil in He.
  - intros v H0. rewrite (Hv v H0). split; [by left|]. intros [?|Hc]; [done|]. by apply contradiction_unsat in Hc.
Qed.

Lemma represents_dom (p : pratt_mem H) G ps cs e : represents p G ps cs -> e ∈ ps -> is_Some (edges p !! e).
Proof.
  intros (ns & es & Hg & _) He. apply list_elem_of_lookup in He as [n Hn].
  destruct (Forall2_lookup_l _ _ _ _ _ (ga_edges _ _ _ _ _ Hg) Hn) as (d & _ & u & Hu & _). by rewrite Hu.
Qed.

(** Writing [G] after making another graph. *)
Lemma evolves_after_made (p0 : pratt_mem H) G2 p1 ps2 G ps p2 ps' : made_graph p0 G2 p1 ps2 -> evolves p1 G ps p2 ps' -> evolves p0 G ps p2 ps'.
Proof.
  intros [Hn [X1 G1 E1 _]] [X2 Hg2 E2 N2].
  assert (Hold : forall e d, edges p0 !! e = Some d -> edges p1 !! e = Some d) by (intros e d; apply E1, not_elem_of_nil).
  split; [by etrans| | |].
  - intros G' g Hne Hg. apply Hg2; [done|]. apply G1; [|done]. intros ->. by rewrite Hn in Hg.
  - intros e d Hni Hd. by apply E2, Hold.
  - intros e He. destruct (N2 _ He) as [?|Hnone]; [by left|right]. destruct (edges p0 !! e) as [d|] eqn:Hd; [|done].
    by rewrite (Hold _ _ Hd) in Hnone.
Qed.

(** A copy of the graph for one of two constraints. *)
Lemma split_spec s G ps cs i j k l c1 c2 w1 w2 (P : (Node -> Z) -> Prop) : rel_inv s -> represents (pratt s) G ps cs -> makes c1 w1 -> makes c2 w2 ->
  (forall v, v NZero = 0 -> P v <-> v k - v l <= w2 \/ v i - v j <= w1) ->
  wp (G2 ← on_pratt (Cyc_Pratt_copy_graph G); x ← c1; G2 ← add_edge G2 i j x; x ← c2; G ← add_edge G k l x; mret (G, G2))
    (splits s G ps cs P) rel_oom s.
Proof.
  intros Hi Hr Hc1 Hc2 HP. wps. eapply wp_on_pratt; [apply (copy_graph_spec (pratt s) G ps cs); [apply Hi|done]|].
  intros G2 p1 (Hp1 & ps2 & [Hfresh Hev1] & Hr2). set (s1 := set_pratt s p1). assert (Hs1 : rel_inv s1) by (by apply rel_inv_pratt; [|apply Hev1|]).
  assert (Hne : G <> G2).
  { intros ->. destruct Hr as (ns & es & Hg & _). by rewrite (ga_graph _ _ _ _ _ Hg) in Hfresh. }
  assert (Hr1 : represents (pratt s1) G ps cs) by (eapply represents_frame; [exact Hev1|done|done|by intros e _ []%not_elem_of_nil]).
  wps. eapply wp_conseq; [by apply Hc1|]. intros x s2 (a2 & -> & Hx & Hx2 & Hi2). pose proof (steps_ap s1 a2 G2 ps2 Hs1 Hx2 Hi2) as Hst2.
  wps. eapply store_add_spec; [apply Hst2|by apply represents_num|exact Hx|]. intros G2' s3 ps3 Hst3 HG2 Hg3.
  assert (Hst13 : steps s1 G2 ps2 s3 ps3) by (by eapply steps_trans).
  assert (Hev3 : evolves (pratt s) G2 [] (pratt s3) ps3) by (eapply graph_evolves_trans; [exact Hev1|apply Hst13]).
  assert (Hr3 : represents (pratt s3) G ps cs) by (eapply represents_frame; [exact Hev3|done|done|by intros e _ []%not_elem_of_nil]).
  wps. eapply wp_conseq; [apply (Hc2 s3), Hst3|]. intros y s4 (a4 & -> & Hy & Hx4 & Hi4).
  pose proof (steps_ap s3 a4 G ps (st_inv _ _ _ _ _ Hst3) Hx4 Hi4) as Hst4.
  wps. eapply store_add_spec; [apply Hst4|by apply represents_num|exact Hy|]. intros G' s5 ps5 Hst5 HG' Hg5.
  assert (Hst35 : steps s3 G ps s5 ps5) by (by eapply steps_trans). wps.
  assert (Hps : forall e, e ∈ ps3 -> edges (pratt s) !! e = None).
  { intros e He. destruct (ev_new _ _ _ _ _ Hev3 _ He) as [[]%not_elem_of_nil|?]; done. }
  assert (Hdis : forall e, e ∈ ps3 -> e ∉ ps).
  { intros e He Hin. destruct (represents_dom _ _ _ _ _ Hr Hin) as [d Hd]. by rewrite (Hps e He) in Hd. }
  exists ps5, (if decide (G2' = 0) then [] else ps3), ((k, l, w2) :: cs), ((i, j, w1) :: cs). split; [|split; [done|split; [done|split; [|split; [|split]]]]].
  - split; [apply Hst5|by rewrite (st_relns _ _ _ _ _ Hst35), (st_relns _ _ _ _ _ Hst13)|].
    eapply evolves_after_made; [split; [exact Hfresh|exact Hev3]|apply Hst35].
  - destruct HG2 as [->| ->]; auto.
  - destruct Hg3 as [[-> Hu]|Hr3']; [by left|right]. destruct HG2 as [->| ->]; [by apply represents_null in Hr3'|].
    rewrite decide_False by (by apply represents_null in Hr3'). by eapply represents_frame; [apply Hst35|done|auto|done].
  - intros e He. case_decide as E0; [by apply not_elem_of_nil in He|]. split; [by apply Hps|]. intros Hin.
    destruct (ev_new _ _ _ _ _ (st_ev _ _ _ _ _ Hst35) _ Hin) as [Hin'|Hnone]; [by apply (Hdis e)|].
    destruct Hg3 as [[? _]|Hr3']; [done|]. destruct (represents_dom _ _ _ _ _ Hr3' He) as [d Hd]. by rewrite Hnone in Hd.
  - intros v H0. rewrite !solves_cons, (HP v H0). tauto.
Qed.

Lemma const_reln_spec i reln j : const_reln i reln j = true <-> related i reln j.
Proof.
  destruct reln; simpl; [rewrite Z.eqb_eq|rewrite negb_true_iff, Z.eqb_neq|rewrite negb_true_iff, Z.ltb_ge|rewrite negb_true_iff, Z.leb_gt]; lia.
Qed.

Section reln.
Context (s : rel_mem H) (G : Z) (ps : list Z) (cs : list (Node * Node * Z)).
Context (Hi : rel_inv s) (Hr : represents (pratt s) G ps cs).

Lemma const_case i reln j :
  adds s G ps cs (fun _ => related i reln j) (if const_reln i reln j then G else 0) s.
Proof.
  pose proof (const_reln_spec i reln j) as Hc. destruct (const_reln i reln j).
  - exists ps, cs. split_and!; [by apply steps_refl|by right|by right|]. tauto.
  - exists ps, [(NZero, NZero, -1)]. split; [by apply steps_refl|]. split; [by left|]. split; [left; split; [done|apply contradiction_unsat]|].
    intros v _. split; [by intros ?%contradiction_unsat|]. intros [_ ?%Hc]. done.
Qed.

Lemma split_const_case i rop (P : (Node -> Z) -> Prop) : small_const i -> is_const rop = false -> (forall v, P v <-> v (node_of rop) <> i) ->
  wp (split_const G i rop) (splits s G ps cs P) rel_oom s.
Proof.
  intros Hs Hc HP. unfold split_const. wps. apply rop2node_spec; [done|].
  eapply split_spec; [done|done|apply const_minus_one_makes|apply neg_const_plus_one_makes|]. intros v H0.
  rewrite (HP v), H0, i32_small by (unfold small_const in Hs; lia). lia.
Qed.

Lemma split_nodes_case r1 r2 (P : (Node -> Z) -> Prop) : is_const r1 = false -> is_const r2 = false ->
  (forall v, P v <-> v (node_of r1) <> v (node_of r2)) -> wp (split_nodes G r1 r2) (splits s G ps cs P) rel_oom s.
Proof.
  intros H1 H2 HP. unfold split_nodes. wps. apply rop2node_spec; [done|]. wps. apply rop2node_spec; [done|].
  eapply split_spec; [done|done|apply minus_one_makes|apply minus_one_makes|]. intros v _. rewrite (HP v). lia.
Qed.

Lemma adds_case (c : ST (rel_mem H) Z) P : wp c (adds s G ps cs P) rel_oom s -> wp (G ← c; mret (G, 0)) (splits s G ps cs P) rel_oom s.
Proof. intros Hc. wps. eapply wp_conseq; [exact Hc|]. intros G' s' Ha. wps. by apply adds_splits. Qed.

(** A relation with two operands that are not both constants. *)
Lemma add_reln_spec t : small t -> wp (add_reln G t) (splits s G ps cs (fun v => holds v t)) rel_oom s.
Proof.
  destruct t as [r1 reln r2]. intros [S1 S2]. unfold add_reln, holds. simpl in *.
  assert (Hb : forall i, r2 = RConst i -> is_const r1 = false -> reln <> Rneq ->
    wp (G ← below_const G r1 reln i; mret (G, 0)) (splits s G ps cs (fun v => related (v (node_of r1)) reln i)) rel_oom s).
  { intros i -> H1 H2. by apply adds_case, below_const_spec. }
  assert (Ha : forall i, r1 = RConst i -> is_const r2 = false -> reln <> Rneq ->
    wp (G ← above_const G i reln r2; mret (G, 0)) (splits s G ps cs (fun v => related i reln (v (node_of r2)))) rel_oom s).
  { intros i -> H1 H2. by apply adds_case, above_const_spec. }
  assert (Hn : is_const r1 = false -> is_const r2 = false -> reln <> Rneq ->
    wp (G ← between_nodes G r1 reln r2; mret (G, 0)) (splits s G ps cs (fun v => related (v (node_of r1)) reln (v (node_of r2)))) rel_oom s).
  { intros H1 H2 H3. by apply adds_case, between_nodes_spec. }
  destruct (is_const r1) eqn:C1, (is_const r2) eqn:C2.
  - destruct r1 as [i|?|?|?|?|?|], r2 as [j|?|?|?|?|?|]; try done. pose proof (adds_splits _ _ _ _ _ _ _ (const_case i reln j)) as Hc.
    destruct reln; wps; exact Hc.
  - destruct r1 as [i|?|?|?|?|?|]; try done. destruct reln; [| |..].
    2: destruct r2; try done; by (apply split_const_case; [done|done|]; intros ?; simpl; lia).
    all: specialize (Ha i eq_refl eq_refl ltac:(done)); destruct r2; try done; exact Ha.
  - destruct r2 as [i|?|?|?|?|?|]; try done. destruct reln; [| |..].
    2: destruct r1; try done; by (apply split_const_case; [done|done|]; intros ?; simpl; lia).
    all: specialize (Hb i eq_refl eq_refl ltac:(done)); destruct r1; try done; exact Hb.
  - destruct reln; [| |..].
    2: destruct r1, r2; try done; by apply split_nodes_case.
    all: specialize (Hn eq_refl eq_refl ltac:(done)); destruct r1, r2; try done; exact Hn.
Qed.
End reln.
End spec.
