(* ===== verification/RelationsCheck.v ===== *)
(** * Checking relations and passing them along the flow

    Consistency and implication of lists of relations, and the operations that
    join, approximate, kill and compare them. *)

From S2P Require Import Prelude RwLock Alloc Region RegionSafety Words FatPtr CycAP APSpec APArith APDiv APPow APRefine CycPratt PrattSpec PrattRefine CycRelations RelationsSpec.

(** ** Consistency and implication of relations

    The whole check: the loop over the relations with its two-way branches, and
    the questions whether relations are consistent and whether they imply
    others. *)

Section check.
Context {H : Type} `{HH : Heap H} `{!HeapLaws H} {TY : Types} {TL : TypeLaws} {EX : Absyn} (self : Z).
Implicit Types (s : rel_mem H) (cs : list (Node * Node * Z)) (v : Node -> Z) (t : Reln) (G : Z) (ps : list Z) (l : rlist).

(** ** Relations that are reduced in place *)

(** A valuation of the nodes in which the operands that [reduce_relnop] replaces
    have the value of what they are replaced with. *)
Definition valuation v : Prop := v NZero = 0 /\ (forall r, value v (Cyc_Relations_reduce_relnop r) = value v r).

Abbreviation reduces := (rtc (fun r r' => r' = Cyc_Relations_reduce_relnop r)).

Definition reduced t t' : Prop := relation t' = relation t /\ reduces (rop1 t) (rop1 t') /\ reduces (rop2 t) (rop2 t').

Definition store_reduced s s' : Prop := forall r t, relns s !! r = Some t -> exists t', relns s' !! r = Some t' /\ reduced t t'.

(** The constants of the relation are small, and those it is reduced to. *)
Definition settled t : Prop := forall t', reduced t t' -> small t'.

#[local] Instance reduced_preorder : PreOrder reduced.
Proof. split; [by intros t|]. intros t1 t2 t3 (E1 & ? & ?) (E2 & ? & ?). split_and!; [by rewrite E2|by etrans|by etrans]. Qed.

#[local] Instance store_reduced_preorder : PreOrder store_reduced.
Proof.
  split; [by intros s r t Ht; exists t|]. intros s1 s2 s3 H1 H2 r t Ht. destruct (H1 _ _ Ht) as (t2 & Ht2 & ?), (H2 _ _ Ht2) as (t3 & ? & ?).
  exists t3. split; [done|by etrans].
Qed.

Lemma reduced_settled t t' : reduced t t' -> settled t -> settled t'.
Proof. intros Hr Hs t2 H2. apply Hs. by etrans. Qed.

Lemma settled_small t : settled t -> small t.
Proof. intros Hs. by apply Hs. Qed.

Lemma negate_settled t : settled t -> settled (mk_Reln (rop2 t) (Cyc_Relations_flip_relation (relation t)) (rop1 t)).
Proof.
  intros Hs [a rl b] (_ & Ha & Hb). destruct (Hs (mk_Reln b (relation t) a)) as [Sb Sa]; [by split_and!|]. by split.
Qed.

Lemma reduces_value v r r'  : valuation v -> reduces r r' -> value v r' = value v r.
Proof. intros [_ Hv] Hr. induction Hr as [|r1 r2 r3 -> _ IH]; [done|]. by rewrite IH, Hv. Qed.

Lemma reduced_holds v t t' : valuation v -> reduced t t' -> holds v t' <-> holds v t.
Proof. intros Hv (E & H1 & H2). unfold holds. by rewrite E, (reduces_value v _ _ Hv H1), (reduces_value v _ _ Hv H2). Qed.

(** Operands that are in reduced form already. *)
Definition irreducible t : Prop := Cyc_Relations_reduce_relnop (rop1 t) = rop1 t /\ Cyc_Relations_reduce_relnop (rop2 t) = rop2 t.

Lemma reduces_fixed r r' : reduces r r' -> Cyc_Relations_reduce_relnop r = r -> r' = r.
Proof. induction 1 as [|r1 r2 r3 -> _ IH]; [done|]. intros E. rewrite E in IH. auto. Qed.

Lemma reduced_fixed t t' : reduced t t' -> irreducible t -> t' = t.
Proof.
  destruct t as [a rl b], t' as [a' rl' b']. intros (E & H1 & H2) [F1 F2]. simpl in *. subst.
  by rewrite (reduces_fixed _ _ H1 F1), (reduces_fixed _ _ H2 F2).
Qed.

(** The relations of a list satisfy [P]. *)
Definition each s (P : Reln -> Prop) l : Prop := Forall (fun '(_, r) => exists t, relns s !! r = Some t /\ P t) l.

Lemma each_reduced s s' (P P' : Reln -> Prop) l : store_reduced s s' -> (forall t t', reduced t t' -> P t -> P' t') -> each s P l -> each s' P' l.
Proof.
  intros Hs HP Hl. eapply Forall_impl; [exact Hl|]. intros [c r] (t & Ht & Hp). destruct (Hs _ _ Ht) as (t' & Ht' & Hred). exists t'. eauto.
Qed.

Lemma each_cons s P c r l t : relns s !! r = Some t -> each s P ((c, r) :: l) <-> P t /\ each s P l.
Proof. intros Ht. unfold each. rewrite Forall_cons. split; [intros [(t' & Ht' & ?) ?]; by simplify_eq|intros [? ?]; eauto]. Qed.

Lemma wp_reln_of r t s (Q : Reln -> rel_mem H -> Prop) E : relns s !! r = Some t -> Q t s -> wp (reln_of r) Q E s.
Proof. intros Ht HQ. unfold reln_of. wps. unfold load. rewrite Ht. by apply wp_lift. Qed.

Definition set_reln s (r : Z) t : rel_mem H := mk_rel_mem (pratt s) (<[r := t]> (relns s)).

Lemma reduce_reln_spec r t s (Q : Reln -> rel_mem H -> Prop) : rel_inv s -> relns s !! r = Some t ->
  (forall t' s', rel_inv s' -> pratt s' = pratt s -> store_reduced s s' -> reduced t t' -> relns s' !! r = Some t' -> Q t' s') ->
  wp (reduce_reln r) Q rel_oom s.
Proof.
  intros [Hp Hl] Ht HQ. unfold reduce_reln. wps. eapply wp_reln_of; [exact Ht|]. wps. eapply wp_run; [done|].
  wps. eapply wp_reln_of; [apply lookup_insert_eq|]. wps. eapply wp_run; [done|]. simpl. wps. eapply wp_reln_of; [apply lookup_insert_eq|].
  set (t' := mk_Reln _ _ _). assert (Hred : reduced t t') by (split_and!; [done|by apply rtc_once|by apply rtc_once]).
  apply HQ; simpl; [|done| |done|by rewrite lookup_insert_eq].
  - split; [done|]. simpl. intros r'. rewrite insert_insert_eq, lookup_insert. case_decide; [subst; intros _; apply Hl; by rewrite Ht|apply Hl].
  - intros r' t0 Ht0. simpl. rewrite insert_insert_eq, lookup_insert. case_decide; [subst; simplify_eq; by exists t'|]. by exists t0.
Qed.

(** ** The loop *)

(** Of the state before only the graph [G] has been written. *)
Definition frame s G ps s' : Prop := evolves (pratt s) G ps (pratt s') [].

Lemma frame_of s G ps p ps' : evolves (pratt s) G ps p ps' -> evolves (pratt s) G ps p [].
Proof. intros [? ? ? _]. split; [done|done|done|]. by intros e []%not_elem_of_nil. Qed.

(** Then a graph that is [G] itself or was made since. *)
Lemma frame_trans s G ps s1 ps1 G' ps' s2 : evolves (pratt s) G ps (pratt s1) ps1 -> frame s1 G' ps' s2 ->
  G' = G \/ graphs (pratt s) !! G' = None -> (forall e, e ∈ ps' -> e ∈ ps \/ edges (pratt s) !! e = None) -> frame s G ps s2.
Proof.
  intros [X1 G1 E1 _] [X2 G2 E2 _] HG Hps. split; [by etrans| | |by intros e []%not_elem_of_nil].
  - intros G0 g Hne Hg. apply G2; [|by apply G1]. intros ->. destruct HG as [?|Hn]; [done|]. by rewrite Hn in Hg.
  - intros e d Hni Hd. apply E2; [|by apply E1]. intros Hin. destruct (Hps _ Hin) as [?|Hn]; [done|]. by rewrite Hn in Hd.
Qed.

(** The answer is yes for every solution, and a solution exists if it is yes. *)
Definition decides s cs l (b : bool) : Prop :=
  (forall v, valuation v -> solves eqn v cs -> each s (holds v) l -> b = true) /\
  (each s irreducible l -> b = true -> exists v, v NZero = 0 /\ solves eqn v cs /\ each s (holds v) l).

Lemma each_iff s s' (P : Reln -> Prop) l : store_reduced s s' -> Forall (fun '(_, r) => exists t, relns s !! r = Some t /\ forall t', reduced t t' -> P t' <-> P t) l ->
  each s P l <-> each s' P l.
Proof.
  intros Hs Hl. unfold each. rewrite !Forall_forall. rewrite Forall_forall in Hl. split; intros Hh [c r] Hin; destruct (Hl _ Hin) as (t & Ht & HP);
    destruct (Hs _ _ Ht) as (t' & Ht' & Hred), (Hh _ Hin) as (t2 & Ht2 & Hp); simplify_eq.
  - exists t'. split; [done|]. by apply HP.
  - exists t. split; [done|]. by apply (HP t').
Qed.

Lemma each_holds_iff s s' v l : valuation v -> store_reduced s s' -> each s (fun _ => True) l -> each s (holds v) l <-> each s' (holds v) l.
Proof.
  intros Hv Hs Hl. apply each_iff; [done|]. eapply Forall_impl; [exact Hl|]. intros [c r] (t & Ht & _). exists t. split; [done|]. intros t'. by apply reduced_holds.
Qed.

Lemma each_fixed_iff s s' (P : Reln -> Prop) l : store_reduced s s' -> each s irreducible l -> each s P l <-> each s' P l.
Proof.
  intros Hs Hl. apply each_iff; [done|]. eapply Forall_impl; [exact Hl|]. intros [c r] (t & Ht & Hi). exists t. split; [done|].
  intros t' Hr. by rewrite (reduced_fixed _ _ Hr Hi).
Qed.

Lemma decides_store s s' cs l b : store_reduced s s' -> each s (fun _ => True) l -> decides s' cs l b -> decides s cs l b.
Proof.
  intros Hs Hl [D1 D2]. split.
  - intros v Hv Hsol Hh. apply (D1 v Hv Hsol). by apply (each_holds_iff s s').
  - intros Hirr Hb. destruct D2 as (v & H0 & Hsol & Hh); [by apply (each_fixed_iff s s')|done|]. exists v. split_and!; [done|done|]. by apply (each_fixed_iff s s').
Qed.

Lemma decides_unsat s cs l : unsat cs -> decides s cs l false.
Proof. intros Hu. split; [|done]. intros v _ Hv. by apply Hu in Hv. Qed.

(** The answers on the two graphs of a relation. *)
Section two_ways.
Context (s : rel_mem H) (c r : Z) (l : rlist) (t t' : Reln) (cs cs1 cs2 : list (Node * Node * Z)).
Context (Ht : relns s !! r = Some t) (Hred : reduced t t').
Context (Hsplit : forall v, v NZero = 0 -> ((solves eqn v cs /\ holds v t') <-> (solves eqn v cs1 \/ solves eqn v cs2))).

Lemma decides_found cs' : cs' = cs1 \/ cs' = cs2 -> (each s irreducible l -> exists v, v NZero = 0 /\ solves eqn v cs' /\ each s (holds v) l) ->
  decides s cs ((c, r) :: l) true.
Proof.
  intros Hcs Hv. split; [done|]. intros [Hirr Hl]%(each_cons s irreducible c r l t Ht) _. destruct (Hv Hl) as (v & H0 & Hsol & Hh).
  destruct (proj2 (Hsplit v H0)) as [Hs1 Ht']; [destruct Hcs as [->| ->]; auto|].
  exists v. split; [done|]. split; [done|]. apply (each_cons s _ c r l t Ht). split; [|done]. by rewrite (reduced_fixed _ _ Hred Hirr) in Ht'.
Qed.

Lemma decides_none : decides s cs1 l false -> decides s cs2 l false -> decides s cs ((c, r) :: l) false.
Proof.
  intros [D1 _] [D2 _]. split; [|done]. intros v Hv Hsol [Hh Hl]%(each_cons s _ c r l t Ht). apply (reduced_holds v _ _ Hv Hred) in Hh.
  destruct (proj1 (Hsplit v (proj1 Hv)) (conj Hsol Hh)); eauto.
Qed.

Lemma decides_both b1 b2 : decides s cs1 l b1 -> (b1 = false -> decides s cs2 l b2) -> decides s cs ((c, r) :: l) (b1 || b2).
Proof.
  intros D1 D2. destruct b1; simpl; [apply (decides_found cs1); [by left|]; intros; by apply D1|]. specialize (D2 eq_refl).
  destruct b2; [|by apply decides_none]. apply (decides_found cs2); [by right|]. intros; by apply D2.
Qed.
End two_ways.

Lemma consist_null l : Cyc_Relations_consist_relations (H:=H) 0 l = mret false.
Proof. by destruct l as [|[]]. Qed.

Lemma consist_spec l : forall s G ps cs, rel_inv s -> graph_of_system s G ps cs -> each s settled l ->
  wp (Cyc_Relations_consist_relations G l) (fun b s' => rel_inv s' /\ frame s G ps s' /\ store_reduced s s' /\ decides s cs l b) rel_oom s.
Proof.
  induction l as [|[c r] l IH]; intros s G ps cs Hi Hg Hl; simpl.
  all: destruct Hg as [[-> Hu]|Hr]; [rewrite Z.eqb_refl; wps; split; [done|]; split; [eapply frame_of, graph_evolves_refl|]; split; [done|by apply decides_unsat]|].
  all: pose proof (represents_null _ _ _ _ Hr) as Hnz; rewrite (proj2 (Z.eqb_neq _ _) Hnz).
  { wps. split; [done|]. split; [eapply frame_of, graph_evolves_refl|]. split; [done|]. split; [done|]. intros _ _.
    destruct (represents_solvable _ _ _ _ Hr) as (v & Hv & H0). exists v. split_and!; [done|done|]. constructor. }
  pose proof Hl as [(t & Ht & Hsm) _]%Forall_cons. apply (each_cons s settled c r l t Ht) in Hl as [_ Hl].
  wps. eapply reduce_reln_spec; [done|exact Ht|]. intros t' s1 Hi1 Hp1 Hs1 Hred Ht1.
  assert (Hr1 : represents (pratt s1) G ps cs) by (by rewrite Hp1). pose proof (settled_small _ (reduced_settled _ _ Hred Hsm)) as Hsm'.
  wps. eapply wp_conseq; [by apply (add_reln_spec s1 G ps cs Hi1 Hr1 t')|].
  intros [G1 G2] s2 (ps1 & ps2 & cs1 & cs2 & Hst & HG1 & Hg1 & HG2 & Hg2 & Hdis & Hsplit). simpl in *. rewrite Hp1 in HG2, Hdis.
  pose proof (st_ev _ _ _ _ _ Hst) as Hev. rewrite Hp1 in Hev. pose proof (st_inv _ _ _ _ _ Hst) as Hi2.
  assert (Hs2 : store_reduced s s2).
  { etrans; [exact Hs1|]. intros r' t0 H0. exists t0. by rewrite (st_relns _ _ _ _ _ Hst). }
  assert (Hmap : forall s', store_reduced s s' -> each s' settled l) by (intros s' Hs'; eapply each_reduced; [exact Hs'| |exact Hl]; apply reduced_settled).
  assert (Hany : each s (fun _ => True) l) by (eapply each_reduced; [reflexivity| |exact Hl]; done).
  assert (Hf1 : forall s', frame s2 G ps1 s' -> frame s G ps s').
  { intros s' Hf. eapply frame_trans; [exact Hev|exact Hf|by left|]. apply (ev_new _ _ _ _ _ Hev). }
  assert (Hf2 : forall s1 s', frame s G ps s1 -> frame s1 G2 ps2 s' -> G2 <> 0 -> frame s G ps s').
  { intros s1' s' Hf Hf' H0. eapply frame_trans; [exact Hf|exact Hf'|destruct HG2; [done|by right]|]. intros e He. right. by apply Hdis. }
  destruct (G1 =? 0) eqn:E1; simpl.
  - assert (Hu1 : unsat cs1) by (destruct Hg1 as [[_ ?]|Hr']; [done|apply represents_null in Hr'; lia]).
    destruct (decide (G2 = 0)) as [->|Hne].
    + rewrite consist_null. wps. split; [done|]. split; [by eapply frame_of|]. split; [done|].
      apply (decides_both s c r l t t' cs cs1 cs2 Ht Hred Hsplit false false); [by apply decides_unsat|]. intros _. apply decides_unsat.
      destruct Hg2 as [[_ ?]|Hr']; [done|by apply represents_null in Hr'].
    + eapply wp_conseq; [apply (IH s2 G2 ps2 cs2); auto|]. intros b s3 (Hi3 & Hfr & Hs3 & Hd). split; [done|].
      split; [by eapply (Hf2 s2); [eapply frame_of|..]|]. split; [by etrans|]. apply (decides_both s c r l t t' cs cs1 cs2 Ht Hred Hsplit false b); [by apply decides_unsat|]. intros _. by eapply (decides_store s s2).
  - assert (Hnz1 : G1 <> 0) by lia. assert (G1 = G) as -> by (by destruct HG1). destruct (G2 =? 0) eqn:E2; simpl.
    + assert (Hu2 : unsat cs2) by (destruct Hg2 as [[_ ?]|Hr']; [done|apply represents_null in Hr'; lia]).
      eapply wp_conseq; [apply (IH s2 G ps1 cs1); auto|]. intros b s3 (Hi3 & Hfr & Hs3 & Hd). split; [done|]. split; [auto|]. split; [by etrans|].
      rewrite <- (orb_false_r b). apply (decides_both s c r l t t' cs cs1 cs2 Ht Hred Hsplit b false); [by eapply (decides_store s s2)|]. intros _. by apply decides_unsat.
    + wps. eapply wp_conseq; [apply (IH s2 G ps1 cs1); auto|]. intros b s3 (Hi3 & Hfr & Hs3 & Hd). assert (Hs03 : store_reduced s s3) by (by etrans).
      destruct b.
      * wps. split; [done|]. split; [auto|]. split; [done|]. apply (decides_both s c r l t t' cs cs1 cs2 Ht Hred Hsplit true true); [by eapply (decides_store s s2)|done].
      * assert (HneG : G2 <> G).
        { intros ->. destruct HG2 as [?|Hnone]; [lia|]. destruct Hr as (ns & es & Hga & _). by rewrite (ga_graph _ _ _ _ _ Hga) in Hnone. }
        assert (Hg3 : graph_of_system s3 G2 ps2 cs2).
        { destruct Hg2 as [[? _]|Hr2]; [lia|right]. eapply represents_frame; [exact Hfr|done|done|]. intros e He. by apply Hdis. }
        eapply wp_conseq; [apply (IH s3 G2 ps2 cs2); auto|]. intros b s4 (Hi4 & Hfr4 & Hs4 & Hd4). split; [done|]. split; [eapply (Hf2 s3); [auto|done|lia]|].
        split; [by etrans|]. apply (decides_both s c r l t t' cs cs1 cs2 Ht Hred Hsplit false b); [by eapply (decides_store s s2)|].
        intros _. by eapply (decides_store s s3).
Qed.

(** ** New objects *)

Lemma wp_alloc (c : ST (mem H) Z) n s (Q : Z -> rel_mem H -> Prop) : rel_inv s -> 0 <= n -> allocates c n (hp (ap (pratt s))) ->
  (forall p a, ext (ap (pratt s)) a -> rel_inv (set_num_state s a) -> relns s !! p = None -> is_Some (gc_live (heap (hp a)) !! p) -> Q p (set_num_state s a)) ->
  wp (on_pratt (on_ap (on_hp c))) Q rel_oom s.
Proof.
  intros Hi Hn Hc HQ. pose proof (proj1 Hi) as Hp.
  eapply (wp_on_pratt _ (fun p pm => exists m' z, fresh_block (hp (ap (pratt s))) m' n z p /\ pm = set_ap (pratt s) (set_hp (ap (pratt s)) m'))).
  - eapply (wp_on_ap _ (fun p a => exists m' z, fresh_block (hp (ap (pratt s))) m' n z p /\ a = set_hp (ap (pratt s)) m')).
    + eapply wp_on_hp; [apply Hp|exact Hc|]. eauto.
    + intros p a (m' & z & Hf & ->). eauto.
  - intros p pm (m' & z & Hf & ->). destruct (fresh_block_live _ _ _ _ _ Hf) as (Hnone & Hsub & Hl).
    assert (Hx : ext (ap (pratt s)) (set_hp (ap (pratt s)) m')) by (by split).
    apply (HQ p (set_hp (ap (pratt s)) m')); [done| | |done].
    + apply rel_inv_pratt; [done|done|]. apply pratt_inv_ap; [done|done|]. by eapply fresh_unused; [apply Hp|exact Hf|].
    + apply eq_None_not_Some. intros Hs. apply (proj2 Hi) in Hs. rewrite Hnone in Hs. by destruct Hs.
Qed.

Lemma region_malloc_allocates n (m : mem H) : h_ok (heap m) -> 0 <= n < INT_MAX -> allocates (_region_malloc self CYC_CORE_HEAP_REGION n) n m.
Proof.
  intros Ho Hn. unfold _region_malloc. simpl. rewrite i32_small by (unfold INT_MAX in Hn; lia).
  destruct (malloc_allocates n this_file 495 m Ho Hn) as [(f & l & m' & Hc & Hs)|(p & m' & z & Hc & Hp & Hf)]; [left|right].
  - exists f, l, m'. split; [|done]. unfold mbind, st_bind. by rewrite Hc.
  - exists p, m', z. split; [|done]. unfold mbind, st_bind. rewrite Hc. by rewrite (proj2 (Z.eqb_neq _ _) Hp).
Qed.

Lemma rel_inv_reln s r t : rel_inv s -> is_Some (gc_live (heap (hp (ap (pratt s)))) !! r) -> rel_inv (set_reln s r t).
Proof. intros [Hp Hl] Hr. split; [done|]. simpl. intros r'. rewrite lookup_insert. case_decide; [by subst|apply Hl]. Qed.

(** A new relation object, in the heap region. *)
Lemma negate_spec r t s (Q : Z -> rel_mem H -> Prop) : rel_inv s -> relns s !! r = Some t ->
  (forall n a, ext (ap (pratt s)) a -> relns s !! n = None ->
     rel_inv (set_reln (set_num_state s a) n (mk_Reln (rop2 t) (Cyc_Relations_flip_relation (relation t)) (rop1 t))) ->
     Q n (set_reln (set_num_state s a) n (mk_Reln (rop2 t) (Cyc_Relations_flip_relation (relation t)) (rop1 t)))) ->
  wp (Cyc_Relations_negate self CYC_CORE_HEAP_REGION r) Q rel_oom s.
Proof.
  intros Hi Ht HQ. unfold Cyc_Relations_negate, region_malloc. wps. apply (wp_alloc _ sizeof_Reln); [done|done|apply region_malloc_allocates; [apply Hi|done]|].
  intros n a Hx Hi1 Hnone Hl. wps. eapply wp_reln_of; [exact Ht|]. wps. eapply wp_run; [done|]. wps. apply HQ; [done|done|]. by apply rel_inv_reln.
Qed.

Lemma store_reduced_new s a n t : relns s !! n = None -> store_reduced s (set_reln (set_num_state s a) n t).
Proof. intros Hn r t0 Ht. exists t0. simpl. rewrite lookup_insert_ne; [done|]. intros ->. by rewrite Hn in Ht. Qed.

(** ** The checks *)

(** The graphs there were are unchanged. *)
Definition graphs_kept s s' : Prop := ext (ap (pratt s)) (ap (pratt s')) /\
  forall G ps cs, represents (pratt s) G ps cs -> represents (pratt s') G ps cs.

#[local] Instance graphs_kept_preorder : PreOrder graphs_kept.
Proof. split; [by intros s|]. intros s1 s2 s3 [? ?] [? ?]. split; [by etrans|auto]. Qed.

Lemma consistent_spec s l : rel_inv s -> each s settled l ->
  wp (Cyc_Relations_consistent_relations l) (fun b s' => rel_inv s' /\ graphs_kept s s' /\ store_reduced s s' /\ decides s [] l b) rel_oom s.
Proof.
  intros Hi Hl. unfold Cyc_Relations_consistent_relations. wps. eapply wp_on_pratt; [apply empty_graph_spec, Hi|].
  intros G p (Hp & [Hnew Hev] & Hr). set (s1 := set_pratt s p). assert (Hi1 : rel_inv s1) by (apply rel_inv_pratt; [done|apply Hev|done]).
  eapply wp_conseq; [apply (consist_spec l s1 G [] []); [done|by right|done]|]. intros b s2 (Hi2 & Hfr & Hs2 & Hd). split; [done|].
  split; [|split; [exact Hs2|exact Hd]]. split; [etrans; [apply Hev|apply Hfr]|]. intros G' ps cs Hr'.
  assert (Hne : G' <> G).
  { intros ->. destruct Hr' as (ns & es & Hg & _). by rewrite (ga_graph _ _ _ _ _ Hg) in Hnew. }
  eapply represents_frame; [exact Hfr| |done|by intros e _ []%not_elem_of_nil]. eapply represents_frame; [exact Hev|done|done|by intros e _ []%not_elem_of_nil].
Qed.

(** The answer [b] to the question whether [r1] implies [r2]. *)
Definition implied s (r1 r2 : rlist) (b : bool) : Prop :=
  (b = true -> forall v, valuation v -> solves eqn v [] -> each s (holds v) r1 -> each s (holds v) r2) /\
  (each s irreducible r1 -> each s irreducible r2 -> b = false -> exists v, v NZero = 0 /\ solves eqn v [] /\ each s (holds v) r1 /\ ~ each s (holds v) r2).

Lemma implied_store s s' r1 r2 b : store_reduced s s' -> each s (fun _ => True) r1 -> each s (fun _ => True) r2 -> implied s' r1 r2 b -> implied s r1 r2 b.
Proof.
  intros Hs H1 H2 [D1 D2]. split.
  - intros Hb v Hv Hsol Hh. apply (each_holds_iff s s' v r2 Hv Hs H2). apply (D1 Hb v Hv Hsol). by apply (each_holds_iff s s').
  - intros I1 I2 Hb. destruct D2 as (v & H0 & Hsol & Hh & Hn); [by apply (each_fixed_iff s s')|by apply (each_fixed_iff s s')|done|].
    exists v. rewrite (each_fixed_iff s s' (holds v) r1), (each_fixed_iff s s' (holds v) r2) by done. done.
Qed.

Lemma irreducible_negate t : irreducible t -> irreducible (mk_Reln (rop2 t) (Cyc_Relations_flip_relation (relation t)) (rop1 t)).
Proof. intros [? ?]. by split. Qed.

(** One relation: the negation with [r1] is consistent or not. *)
Lemma implied_one s s1 c n c' r t r1 r2 b : relns s !! r = Some t -> store_reduced s s1 -> each s (fun _ => True) r1 ->
  relns s1 !! n = Some (mk_Reln (rop2 t) (Cyc_Relations_flip_relation (relation t)) (rop1 t)) -> decides s1 [] ((c, n) :: r1) b ->
  (b = true -> implied s r1 ((c', r) :: r2) false) /\
  (b = false -> forall v, valuation v -> solves eqn v [] -> each s (holds v) r1 -> holds v t).
Proof.
  intros Ht Hs H1 Hn [D1 D2]. split.
  - intros ->. split; [done|]. intros I1 [It I2]%(each_cons _ _ _ _ _ _ Ht) _. destruct D2 as (v & H0 & Hsol & Hh); [|done|].
    + apply (each_cons _ _ _ _ _ _ Hn). split; [by apply irreducible_negate|]. by apply (each_fixed_iff s s1).
    + apply (each_cons _ _ _ _ _ _ Hn) in Hh as [Hneg Hh]. exists v. split_and!; [done|done|by apply (each_fixed_iff s s1)|].
      intros [Hp _]%(each_cons _ _ _ _ _ _ Ht). by apply negate_holds in Hneg.
  - intros -> v Hv Hsol Hh. destruct (decide (holds v t)) as [|Hnot]; [done|]. exfalso. cut (false = true); [done|].
    apply (D1 v Hv Hsol). apply (each_cons _ _ _ _ _ _ Hn). split; [by apply negate_holds|]. by apply (each_holds_iff s s1).
Qed.

Lemma each_weaken s (P : Reln -> Prop) l : each s P l -> each s (fun _ => True) l.
Proof. intros Hl. eapply Forall_impl; [exact Hl|]. intros [c r] (t & Ht & _). by exists t. Qed.

Lemma graphs_kept_num s a : ext (ap (pratt s)) a -> graphs_kept s (set_num_state s a).
Proof. intros Hx. split; [done|]. intros G ps cs. by apply represents_num. Qed.

Lemma implied_nil s r1 : implied s r1 [] true.
Proof. split; [|done]. intros _ v _ _ _. constructor. Qed.

Lemma check_spec r1 r2 : forall s, rel_inv s -> each s settled r1 -> each s settled r2 ->
  wp (Cyc_Relations_check_logical_implication self r1 r2)
    (fun b s' => rel_inv s' /\ graphs_kept s s' /\ store_reduced s s' /\ implied s r1 r2 b) rel_oom s.
Proof.
  induction r2 as [|[c' r] r2 IH]; intros s Hi H1 H2; simpl; [wps; split; [done|]; split; [done|]; split; [done|apply implied_nil]|].
  pose proof H2 as [(t & Ht & Hsm) _]%Forall_cons. pose proof (proj2 (proj1 (each_cons s settled c' r r2 t Ht) H2)) as H2'. clear H2. rename H2' into H2.
  wps. eapply negate_spec; [done|exact Ht|]. intros n a1 Hx1 Hnone Hi1. set (t' := mk_Reln (rop2 t) _ _) in *. set (s1 := set_reln _ n t') in *.
  assert (Hs1 : store_reduced s s1) by (by apply store_reduced_new). assert (Hk1 : graphs_kept s s1) by exact (graphs_kept_num s a1 Hx1).
  wps. apply (wp_alloc _ sizeof_List); [done|done|apply malloc_allocates; [apply Hi1|done]|]. intros c a2 Hx2 Hi2 _ _. set (s2 := set_num_state s1 a2) in *.
  assert (Hs2 : store_reduced s s2) by exact Hs1. assert (Hk2 : graphs_kept s s2) by (etrans; [exact Hk1|by apply graphs_kept_num]).
  assert (Hn2 : relns s2 !! n = Some t') by apply lookup_insert_eq.
  assert (Hsmall : forall s' l, store_reduced s s' -> each s settled l -> each s' settled l) by (intros s' l Hs' Hl; eapply each_reduced; [exact Hs'| |exact Hl]; apply reduced_settled).
  wps. eapply wp_conseq; [apply (consistent_spec s2 ((c, n) :: r1)); [done|]|].
  { apply (each_cons _ _ _ _ _ _ Hn2). split; [by apply negate_settled|auto]. }
  intros b s3 (Hi3 & Hk3 & Hs3 & Hd). pose proof (each_weaken _ _ _ H1) as H1'.
  destruct (implied_one s s2 c n c' r t r1 r2 b Ht Hs2 H1' Hn2 Hd) as [Hyes Hno]. destruct b.
  - wps. split; [done|]. split; [by etrans|]. split; [by etrans|auto].
  - eapply wp_conseq; [apply (IH s3); [done|apply (Hsmall s3); [by etrans|done]|apply (Hsmall s3); [by etrans|done]]|].
    assert (Hs03 : store_reduced s s3) by (by etrans).
    intros b s4 (Hi4 & Hk4 & Hs4 & Himp). split; [done|]. split; [etrans; [exact Hk2|by etrans]|]. split; [by etrans|].
    apply (implied_store s s3) in Himp; [|done|done|by eapply each_weaken]. destruct Himp as [P1 P2]. split.
    + intros -> v Hv Hsol Hh. apply (each_cons _ _ _ _ _ _ Ht). split; [by apply Hno|by apply P1].
    + intros I1 [It I2]%(each_cons _ _ _ _ _ _ Ht) Hb. destruct (P2 I1 I2 Hb) as (v & H0 & Hsol & Hh & Hn). exists v. split_and!; [done|done|done|].
      by intros [_ ?]%(each_cons _ _ _ _ _ _ Ht).
Qed.
End check.

(** ** Sets of relations in the flow analysis

    Adding a relation, the joins where control flow meets, the comparison that
    ends a fixed point, and the loss of a variable: what each does to the
    valuations that satisfy the relations.  New objects are made in the heap
    region. *)

Section flow.
Context {H : Type} `{HH : Heap H} `{!HeapLaws H} {TY : Types} {TL : TypeLaws} {EX : Absyn} (self : Z).
Implicit Types (s : rel_mem H) (v : Node -> Z) (t : Reln) (l : rlist).

(** Nodes that are identified have one value. *)
Definition respects v : Prop := solves eqn v [].

Lemma respects_eqn v x y : respects v -> eqn x y = true -> v x = v y.
Proof. intros [Hv _]. apply Hv. Qed.

Lemma same_relop_value v r1 r2 : respects v -> Cyc_Relations_same_relop r1 r2 = true -> value v r1 = value v r2.
Proof.
  intros Hv. destruct r1, r2; simpl; try done; try (by intros ->%Z.eqb_eq).
  intros Hu. apply (respects_eqn v _ _ Hv). unfold eqn. simpl. by rewrite Hu.
Qed.

Lemma same_reln_holds v t1 t2 : respects v -> same_reln t1 t2 = true -> holds v t1 <-> holds v t2.
Proof.
  intros Hv [[E1 E2%bool_decide_eq_true]%andb_true_iff E3]%andb_true_iff. unfold holds.
  by rewrite (same_relop_value v _ _ Hv E1), E2, (same_relop_value v _ _ Hv E3).
Qed.

(** ** Stores that grow *)

Record store_grows s s' : Prop := {
  sg_inv : rel_inv s';
  sg_kept : graphs_kept s s';
  sg_relns : relns s ⊆ relns s'
}.

Lemma store_grows_refl s : rel_inv s -> store_grows s s.
Proof. intros Hi. split; [done|split; [done|auto]|done]. Qed.

Lemma store_grows_trans s1 s2 s3 : store_grows s1 s2 -> store_grows s2 s3 -> store_grows s1 s3.
Proof. intros [? [? ?] ?] [? [? ?] ?]. split; [done|split; [by etrans|auto]|by etrans]. Qed.

Lemma each_grows s s' P l : relns s ⊆ relns s' -> each s P l -> each s' P l.
Proof. intros Hs Hl. eapply Forall_impl; [exact Hl|]. intros [c r] (t & Ht & HP). exists t. split; [by eapply lookup_weaken|done]. Qed.

Definition present s l : Prop := each s (fun _ => True) l.

Lemma each_grows_iff s s' P l : relns s ⊆ relns s' -> present s l -> each s P l <-> each s' P l.
Proof.
  intros Hs Hl. split; [by apply each_grows|]. unfold each, present in *. rewrite !Forall_forall. unfold each in Hl. rewrite Forall_forall in Hl.
  intros Hh [c r] Hin. destruct (Hl _ Hin) as (t & Ht & _), (Hh _ Hin) as (t' & Ht' & HP). exists t. split; [done|].
  rewrite (lookup_weaken _ _ _ _ Ht Hs) in Ht'. by injection Ht' as <-.
Qed.

Lemma wp_region_alloc n s (Q : Z -> rel_mem H -> Prop) : rel_inv s -> 0 <= n < INT_MAX ->
  (forall p a, store_grows s (set_num_state s a) -> relns s !! p = None -> is_Some (gc_live (heap (hp a)) !! p) -> Q p (set_num_state s a)) ->
  wp (region_malloc self CYC_CORE_HEAP_REGION n) Q rel_oom s.
Proof.
  intros Hi Hn HQ. apply (wp_alloc _ n); [done|lia|apply region_malloc_allocates; [apply Hi|done]|].
  intros p a Hx Hi1 Hnone Hl. apply HQ; [|done|done]. split; [done|by apply graphs_kept_num|done].
Qed.

Lemma store_grows_reln s a n t : store_grows s (set_num_state s a) -> relns s !! n = None -> is_Some (gc_live (heap (hp a)) !! n) ->
  store_grows s (set_reln (set_num_state s a) n t).
Proof. intros [Hi Hk _] Hn Hl. split; [by apply rel_inv_reln|exact Hk|]. by apply insert_subseteq. Qed.

Lemma cons_spec r l s (Q : rlist -> rel_mem H -> Prop) : rel_inv s ->
  (forall c s', store_grows s s' -> relns s' = relns s -> Q ((c, r) :: l) s') -> wp (cons self CYC_CORE_HEAP_REGION r l) Q rel_oom s.
Proof. intros Hi HQ. unfold cons. wps. apply wp_region_alloc; [done|done|]. intros c a Hg _ _. wps. by apply HQ. Qed.

Lemma new_reln_spec t s (Q : Z -> rel_mem H -> Prop) : rel_inv s ->
  (forall r s', store_grows s s' -> relns s !! r = None -> relns s' = <[r := t]> (relns s) -> Q r s') -> wp (new_reln self CYC_CORE_HEAP_REGION t) Q rel_oom s.
Proof.
  intros Hi HQ. unfold new_reln. wps. apply wp_region_alloc; [done|done|]. intros r a Hg Hn Hl. wps. eapply wp_run; [done|]. wps.
  apply HQ; [by apply store_grows_reln|done|done].
Qed.

(** ** Adding a relation *)

Lemma has_relation_spec t l s (Q : bool -> rel_mem H -> Prop) E : present s l ->
  (forall b, (b = true -> exists c r t', (c, r) ∈ l /\ relns s !! r = Some t' /\ same_reln t' t = true) -> Q b s) -> wp (has_relation t l) Q E s.
Proof.
  intros Hl. induction l as [|[c r] l IH]; simpl; intros HQ; [wps; by apply HQ|].
  pose proof Hl as [(t' & Ht & _) Hl']%Forall_cons. wps. eapply wp_reln_of; [exact Ht|]. destruct (same_reln t' t) eqn:E1.
  - wps. apply HQ. intros _. exists c, r, t'. split; [left|done].
  - apply IH; [done|]. intros b Hb. apply HQ. intros E2. destruct (Hb E2) as (c2 & r2 & t2 & ? & ?). exists c2, r2, t2. split; [by right|done].
Qed.

Lemma each_member s P l c r t : each s P l -> (c, r) ∈ l -> relns s !! r = Some t -> P t.
Proof. unfold each. rewrite Forall_forall. intros Hl Hin Ht. destruct (Hl _ Hin) as (t' & Ht' & HP). by simplify_eq. Qed.

Lemma add_relation_spec r1 rl r2 l s : rel_inv s -> present s l ->
  wp (Cyc_Relations_add_relation self CYC_CORE_HEAP_REGION r1 rl r2 l) (fun l' s' => store_grows s s' /\ present s' l' /\
    (forall P, P (mk_Reln r1 rl r2) -> each s P l -> each s' P l') /\
    forall v, respects v -> each s' (holds v) l' <-> each s (holds v) l /\ holds v (mk_Reln r1 rl r2)) rel_oom s.
Proof.
  intros Hi Hl. unfold Cyc_Relations_add_relation. set (t := mk_Reln r1 rl r2). wps. eapply has_relation_spec; [done|]. intros b Hb. destruct b.
  - wps. destruct (Hb eq_refl) as (c & r & t' & Hin & Ht' & Hsame). split; [by apply store_grows_refl|]. split; [done|]. split; [done|].
    intros v Hv. split; [|tauto]. intros Hh. split; [done|]. apply (same_reln_holds v _ _ Hv Hsame). by apply (each_member s (holds v) l c r).
  - unfold cons_new. wps. apply wp_region_alloc; [done|done|]. intros c a Hg1 _ _. wps. apply new_reln_spec; [apply Hg1|].
    intros r s' Hg2 Hnone Hr. wps. assert (Hg : store_grows s s') by (by eapply store_grows_trans).
    assert (Hlook : relns s' !! r = Some t) by (rewrite Hr; apply lookup_insert_eq).
    assert (Hall : forall P, P t -> each s P l -> each s' P ((c, r) :: l)).
    { intros P HP Hp. apply (each_cons s' P c r l t Hlook). split; [done|]. by eapply each_grows; [apply Hg|]. }
    split; [done|]. split; [by apply Hall|]. split; [done|]. intros v Hv. rewrite (each_cons s' _ c r l t Hlook).
    rewrite <- (each_grows_iff s s') by (done || apply Hg). tauto.
Qed.

(** ** Joins *)

(** The relation [r] or one with the same operands is in the list. *)
Definition matched s (r : Z) l : bool :=
  existsb (fun '(_, r2) => (r =? r2) || match relns s !! r, relns s !! r2 with Some t1, Some t2 => same_reln t1 t2 | _, _ => false end) l.

Lemma find_same_spec r t l s (Q : bool -> rel_mem H -> Prop) E : relns s !! r = Some t -> present s l -> Q (matched s r l) s -> wp (find_same r l) Q E s.
Proof.
  intros Ht Hl. unfold matched. induction l as [|[c r2] l IH]; simpl; intros HQ; [by wps|].
  pose proof Hl as [(t2 & Ht2 & _) Hl']%Forall_cons. destruct (r =? r2); [by wps|].
  wps. eapply wp_reln_of; [exact Ht|]. wps. eapply wp_reln_of; [exact Ht2|].
  set (m := existsb _ l) in *. rewrite Ht, Ht2 in HQ. destruct (same_reln t t2); [by wps|]. apply IH; [exact Hl'|exact HQ].
Qed.

Lemma matched_holds s v r t l : respects v -> relns s !! r = Some t -> matched s r l = true -> each s (holds v) l -> holds v t.
Proof.
  intros Hv Ht ([c r2] & Hin%list_elem_of_In & Hm)%existsb_exists Hl. apply orb_true_iff in Hm as [->%Z.eqb_eq|Hm]; [by apply (each_member s (holds v) l c r2)|].
  rewrite Ht in Hm. destruct (relns s !! r2) as [t2|] eqn:Ht2; [|done]. apply (same_reln_holds v _ _ Hv Hm). by apply (each_member s (holds v) l c r2).
Qed.

(** Every relation of [r1s] is matched in [r2s]. *)
Lemma approx_loop_spec r2s r1s s (Q : bool -> rel_mem H -> Prop) E : present s r1s -> present s r2s ->
  (forall b, (b = true -> forall c r, (c, r) ∈ r1s -> matched s r r2s = true) -> Q b s) -> wp (approx_loop r2s r1s) Q E s.
Proof.
  intros H1 H2. induction r1s as [|[c r] r1s IH]; simpl; intros HQ; [wps; apply HQ; by intros _ c r []%not_elem_of_nil|].
  pose proof H1 as [(t & Ht & _) H1']%Forall_cons. wps. eapply find_same_spec; [exact Ht|done|]. destruct (matched s r r2s) eqn:Em.
  - apply IH; [done|]. intros b Hb. apply HQ. intros E1 c' r' [[= -> ->]|Hin]%elem_of_cons; [done|]. by apply (Hb E1 c').
  - wps. by apply HQ.
Qed.

Lemma approx_spec r2s r1s s : present s r1s -> present s r2s -> (same_list r1s r2s = true -> r1s = r2s) ->
  wp (Cyc_Relations_relns_approx r2s r1s) (fun b s' => s' = s /\ (b = true -> forall v, respects v -> each s (holds v) r2s -> each s (holds v) r1s)) (fun _ _ => False) s.
Proof.
  intros H1 H2 Hsame. unfold Cyc_Relations_relns_approx. destruct (same_list r1s r2s).
  - wps. split; [done|]. by rewrite (Hsame eq_refl).
  - apply approx_loop_spec; [done|done|]. intros b Hb. split; [done|]. intros E v Hv Hh. unfold each. apply Forall_forall. intros [c r] Hin.
    unfold present, each in H1. rewrite Forall_forall in H1. destruct (H1 _ Hin) as (t & Ht & _). exists t. split; [done|].
    eapply matched_holds; [done|done|by apply (Hb E c r)|done].
Qed.

Lemma join_loop_spec r2s r1s : forall res diff s (Q : rlist * bool -> rel_mem H -> Prop), rel_inv s -> present s r1s -> present s r2s ->
  (forall res' diff' s', store_grows s s' -> relns s' = relns s -> res'.*2 = reverse (filter (fun r => matched s r r2s) r1s.*2) ++ res.*2 ->
     (diff' = false -> diff = false /\ forall r, r ∈ r1s.*2 -> matched s r r2s = true) -> Q (res', diff') s') ->
  wp (join_loop self CYC_CORE_HEAP_REGION r2s r1s res diff) Q rel_oom s.
Proof.
  induction r1s as [|[c r] r1s IH]; intros res diff s Q Hi H1 H2 HQ; simpl.
  { wps. apply HQ; [by apply store_grows_refl|done|done|]. intros ->. split; [done|]. by intros r []%not_elem_of_nil. }
  pose proof H1 as [(t & Ht & _) H1']%Forall_cons. wps. eapply find_same_spec; [exact Ht|done|]. destruct (matched s r r2s) eqn:Em.
  - wps. apply cons_spec; [done|]. intros c' s1 Hg1 Hr1. assert (Hm : forall r, matched s1 r r2s = matched s r r2s) by (intros r'; unfold matched; by rewrite Hr1).
    apply IH; [apply Hg1|by unfold present, each; rewrite Hr1|by unfold present, each; rewrite Hr1|].
    intros res' diff' s2 Hg2 Hr2 Hres Hdiff. apply HQ; [by eapply store_grows_trans|by rewrite Hr2| |].
    + rewrite Hres. simpl. rewrite filter_cons_True by (by rewrite Em). rewrite reverse_cons, <- app_assoc. simpl. do 2 f_equal.
      apply list_filter_iff. intros x. by rewrite Hm.
    + intros Hd. destruct (Hdiff Hd) as [? Hall]. split; [done|]. intros x [->|Hx]%elem_of_cons; [done|]. rewrite <- Hm. by apply Hall.
  - apply IH; [done|done|done|]. intros res' diff' s2 Hg2 Hr2 Hres Hdiff. apply HQ; [done|done| |].
    + simpl. by rewrite filter_cons_False by (rewrite Em; intros []).
    + intros Hd. by destruct (Hdiff Hd).
Qed.

Lemma present_elem s l r : present s l -> r ∈ l.*2 -> exists t, relns s !! r = Some t.
Proof.
  intros Hl ([c r'] & -> & Hin)%list_elem_of_fmap. unfold present, each in Hl. rewrite Forall_forall in Hl. destruct (Hl _ Hin) as (t & ? & _). by exists t.
Qed.

Lemma each_elems s P l : each s P l <-> Forall (fun r => exists t, relns s !! r = Some t /\ P t) l.*2.
Proof. unfold each. rewrite Forall_fmap. apply Forall_iff. by intros [c r]. Qed.

(** The join has exactly the relations of the first list that the second has. *)
Lemma relns_join_spec r1s r2s s : rel_inv s -> present s r1s -> present s r2s -> (same_list r1s r2s = true -> r1s = r2s) ->
  wp (Cyc_Relations_join_relns self CYC_CORE_HEAP_REGION r1s r2s) (fun l s' => store_grows s s' /\ relns s' = relns s /\
    forall r, r ∈ l.*2 <-> r ∈ r1s.*2 /\ matched s r r2s = true) rel_oom s.
Proof.
  intros Hi H1 H2 Hsame. unfold Cyc_Relations_join_relns. destruct (same_list r1s r2s) eqn:Es.
  - wps. split; [by apply store_grows_refl|]. split; [done|]. rewrite <- (Hsame eq_refl). intros r. split; [|tauto]. intros Hin. split; [done|].
    apply existsb_exists. apply list_elem_of_fmap in Hin as ([c r'] & -> & Hin). exists (c, r'). split; [by apply list_elem_of_In|]. simpl. by rewrite Z.eqb_refl.
  - wps. apply join_loop_spec; [done..|]. intros res diff s' Hg Hr Hres Hd. wps. split; [done|]. split; [done|]. intros r. destruct diff.
    + rewrite Hres, app_nil_r, elem_of_reverse, list_elem_of_filter. rewrite Is_true_true. tauto.
    + split; [|tauto]. intros Hin. split; [done|]. by apply Hd.
Qed.

(** ** Killing a variable *)

Definition kill (x tv : Z) t : Reln :=
  mk_Reln (Cyc_Relations_subst_rop_var (rop1 t) x (RType tv)) (relation t) (Cyc_Relations_subst_rop_var (rop2 t) x (RType tv)).

Lemma subst_other r x new : Cyc_Relations_rop_contains_var r x = false -> Cyc_Relations_subst_rop_var r x new = r.
Proof. destruct r; simpl; try done; by intros ->. Qed.

Lemma kill_other t x tv : reln_contains t x = false -> kill x tv t = t.
Proof. intros [H1 H2]%orb_false_iff. unfold kill. rewrite !subst_other by done. by destruct t. Qed.

Lemma mentions_spec l x s (Q : bool -> rel_mem H -> Prop) E : present s l ->
  (forall b, (b = false -> each s (fun t => reln_contains t x = false) l) -> Q b s) -> wp (mentions l x) Q E s.
Proof.
  intros Hl. induction l as [|[c r] l IH]; simpl; intros HQ; [wps; apply HQ; intros _; constructor|].
  pose proof Hl as [(t & Ht & _) Hl']%Forall_cons. wps. eapply wp_reln_of; [exact Ht|]. destruct (reln_contains t x) eqn:Ec; [wps; by apply HQ|].
  apply IH; [exact Hl'|]. intros b Hb. apply HQ. intros E1. apply (each_cons s _ c r l t Ht). auto.
Qed.

Lemma substitute_spec r t x tv s (Q : Z -> rel_mem H -> Prop) : rel_inv s -> relns s !! r = Some t ->
  (forall n s', store_grows s s' -> relns s' !! n = Some (kill x tv t) -> Q n s') ->
  wp (Cyc_Relations_substitute_rop_var self CYC_CORE_HEAP_REGION r x (RType tv)) Q rel_oom s.
Proof.
  intros Hi Ht HQ. unfold Cyc_Relations_substitute_rop_var. wps. apply wp_region_alloc; [done|done|]. intros n a Hg Hn Hl.
  wps. eapply wp_reln_of; [exact Ht|]. wps. eapply wp_run; [done|]. wps. apply HQ; [by apply store_grows_reln|apply lookup_insert_eq].
Qed.

Lemma kill_loop_spec x tv l : forall res s (Q : rlist -> rel_mem H -> Prop), rel_inv s -> present s l -> present s res ->
  (forall res' s', store_grows s s' -> present s' res' ->
     (forall P, each s' P res' <-> each s (fun t => P (kill x tv t)) l /\ each s P res) -> Q res' s') ->
  wp (kill_loop self CYC_CORE_HEAP_REGION l x (RType tv) res) Q rel_oom s.
Proof.
  induction l as [|[c r] l IH]; intros res s Q Hi Hl Hres HQ; simpl.
  { wps. apply HQ; [by apply store_grows_refl|done|]. intros P. split; [intros; split; [constructor|done]|tauto]. }
  pose proof Hl as [(t & Ht & _) Hl']%Forall_cons. wps. eapply wp_reln_of; [exact Ht|].
  assert (Hnext : forall c' n s1, store_grows s s1 -> relns s1 !! n = Some (kill x tv t) ->
    wp (kill_loop self CYC_CORE_HEAP_REGION l x (RType tv) ((c', n) :: res)) Q rel_oom s1).
  { intros c' n s1 Hg Hn. pose proof (sg_relns _ _ Hg) as Hsub. apply IH; [apply Hg|by eapply each_grows| |].
    - apply (each_cons s1 _ c' n res _ Hn). split; [done|by eapply each_grows].
    - intros res' s2 Hg2 Hp2 Hiff. apply HQ; [by eapply store_grows_trans|done|]. intros P. rewrite Hiff, (each_cons s1 P c' n res _ Hn).
      rewrite (each_cons s _ c r l t Ht), (each_grows_iff s s1 (fun t => P (kill x tv t)) l Hsub Hl'), (each_grows_iff s s1 P res Hsub Hres). tauto. }
  destruct (reln_contains t x) eqn:Ec.
  - wps. apply wp_region_alloc; [done|done|]. intros c' a Hg _ _. wps. eapply substitute_spec; [apply Hg|exact Ht|]. intros n s1 Hg1 Hn. wps.
    apply Hnext; [by eapply store_grows_trans|done].
  - wps. apply cons_spec; [done|]. intros c' s1 Hg Hr. apply Hnext; [done|]. by rewrite kill_other, Hr.
Qed.

Lemma kill_spec l x tv s : rel_inv s -> present s l ->
  wp (Cyc_Relations_reln_kill_var self CYC_CORE_HEAP_REGION l x tv) (fun res s' => store_grows s s' /\ present s' res /\
    forall P, each s' P res <-> each s (fun t => P (kill x tv t)) l) rel_oom s.
Proof.
  intros Hi Hl. unfold Cyc_Relations_reln_kill_var. wps. eapply mentions_spec; [done|]. intros b Hb. destruct b.
  - apply kill_loop_spec; [done|done|constructor|]. intros res s' Hg Hp Hiff. split; [done|]. split; [done|]. intros P. rewrite Hiff.
    split; [tauto|]. intros ?. split; [done|constructor].
  - wps. split; [by apply store_grows_refl|]. split; [done|]. specialize (Hb eq_refl). intros P. unfold each in *. rewrite Forall_forall in Hb. rewrite !Forall_forall.
    split; intros Hh [c r] Hin; destruct (Hb _ Hin) as (t & Ht & Hc), (Hh _ Hin) as (t' & Ht' & HP); simplify_eq; exists t; (split; [done|]);
      by rewrite (kill_other _ _ tv Hc) in *.
Qed.

(** ** Copies *)

Lemma copy_reln_spec r t s (Q : Z -> rel_mem H -> Prop) : rel_inv s -> relns s !! r = Some t ->
  (forall n s', store_grows s s' -> relns s !! n = None -> relns s' !! n = Some t -> Q n s') ->
  wp (Cyc_Relations_copy_reln self CYC_CORE_HEAP_REGION r) Q rel_oom s.
Proof.
  intros Hi Ht HQ. unfold Cyc_Relations_copy_reln. wps. apply wp_region_alloc; [done|done|]. intros n a Hg Hn Hl.
  wps. eapply wp_reln_of; [exact Ht|]. wps. eapply wp_run; [done|]. wps. apply HQ; [by apply store_grows_reln|done|apply lookup_insert_eq].
Qed.

(** New objects with the same relations in the same order. *)
Lemma copy_relns_spec l : forall s, rel_inv s -> present s l ->
  wp (Cyc_Relations_copy_relns self CYC_CORE_HEAP_REGION l) (fun l' s' => store_grows s s' /\ (forall r, r ∈ l'.*2 -> relns s !! r = None) /\
    Forall2 (fun p p' => exists t, relns s !! p.2 = Some t /\ relns s' !! p'.2 = Some t) l l') rel_oom s.
Proof.
  induction l as [|[c r] l IH]; intros s Hi Hl; simpl; [wps; split; [by apply store_grows_refl|]; split; [by intros r []%not_elem_of_nil|constructor]|].
  pose proof Hl as [(t & Ht & _) Hl']%Forall_cons. wps. apply wp_region_alloc; [done|done|]. intros c' a Hg _ _.
  wps. eapply copy_reln_spec; [apply Hg|exact Ht|]. intros n s1 Hg1 Hn Hnt. assert (Hg01 : store_grows s s1) by (by eapply store_grows_trans).
  wps. eapply wp_conseq; [apply (IH s1); [apply Hg01|eapply each_grows; [apply Hg01|done]]|]. intros l' s2 (Hg2 & Hnew & Hf). wps.
  split; [by eapply store_grows_trans|]. split.
  - intros r' [->|Hin]%elem_of_cons; [done|]. eapply lookup_weaken_None; [by apply Hnew|apply Hg01].
  - constructor; [exists t; split; [done|]; eapply lookup_weaken; [exact Hnt|apply Hg2]|].
    unfold present, each in Hl'. rewrite Forall_forall in Hl'. clear -Hf Hl' Hg01. induction Hf as [|[c1 r1] p' l l' (t1 & H1 & H2) _ IH]; [constructor|].
    constructor; [|apply IH; intros x Hx; apply Hl'; by right]. destruct (Hl' (c1, r1)) as (t2 & Ht2 & _); [left|]. exists t2. split; [done|]. simpl in *.
    rewrite (lookup_weaken _ _ _ _ Ht2 (sg_relns _ _ Hg01)) in H1. by injection H1 as ->.
Qed.

Lemma same_relns_spec l1 : forall l2 s (Q : bool -> rel_mem H -> Prop) E, present s l1 -> present s l2 ->
  (forall b, (b = true -> forall v, respects v -> each s (holds v) l1 <-> each s (holds v) l2) -> Q b s) -> wp (Cyc_Relations_same_relns l1 l2) Q E s.
Proof.
  induction l1 as [|[c1 r1] l1 IH]; intros [|[c2 r2] l2] s Q E H1 H2 HQ; simpl; try (wps; by apply HQ).
  pose proof H1 as [(t1 & Ht1 & _) H1']%Forall_cons. pose proof H2 as [(t2 & Ht2 & _) H2']%Forall_cons.
  wps. eapply wp_reln_of; [exact Ht1|]. wps. eapply wp_reln_of; [exact Ht2|]. destruct (same_reln t1 t2) eqn:Es; [|wps; by apply HQ].
  apply IH; [exact H1'|exact H2'|]. intros b Hb. apply HQ. intros Hbt v Hv. rewrite (each_cons s _ c1 r1 l1 t1 Ht1), (each_cons s _ c2 r2 l2 t2 Ht2).
  by rewrite (same_reln_holds v _ _ Hv Es), (Hb Hbt v Hv).
Qed.
End flow.
