(* ===== verification/RelationsRefine.v ===== *)
(** * The relations of the flow analysis: theorems

    What the compiler relies on when it removes a bounds check: the implication
    check is sound and complete, joins keep what holds on both sides, and killing
    a variable keeps what does not depend on it. *)

From S2P Require Import Prelude RwLock Alloc Region RegionSafety Words FatPtr CycAP APSpec APArith APDiv APPow APRefine CycPratt PrattSpec PrattRefine CycRelations RelationsSpec RelationsCheck.

Section theorems.
Context {H : Type} `{HH : Heap H} `{!HeapLaws H} {TY : Types} {TL : TypeLaws} {EX : Absyn} (self : Z).
Implicit Types (s : rel_mem H) (v : Node -> Z) (t : Reln) (l : rlist).

(** C12. [Cyc_Relations_check_logical_implication], with which bounds checks are
    removed, decides implication over the integers for relations whose constants,
    before and after [Cyc_Relations_reduce_relnop] has rewritten their operands,
    are below [2^31 - 1] ([settled]), once the static numbers of ap.c are set up
    ([rel_inv]).  When it answers yes, every valuation of the variables, sizes and
    types by integers, so by unsigned words in particular, in which operands that
    the solver identifies have one value ([solves eqn v []]), a reduced operand
    has the value of what it is reduced to ([valuation]) and that satisfies all
    relations of [r1] satisfies those of [r2].  When it answers no and the
    operands are in reduced form, some integer valuation satisfies [r1] and not
    [r2]; it need not be one by unsigned words, which the check does not know to
    be non-negative.  The check returns or runs out of memory, and leaves every
    graph there was as it was.  For larger constants see [large_constant], for
    the static numbers [one_uninitialized]. *)
Theorem relations_implication_exact s r1 r2 : rel_inv s -> each s settled r1 -> each s settled r2 ->
  wp (Cyc_Relations_check_logical_implication self r1 r2)
    (fun b s' => rel_inv s' /\ (forall G ps cs, represents (pratt s) G ps cs -> represents (pratt s') G ps cs) /\
       (b = true -> forall v, valuation v -> solves eqn v [] -> each s (holds v) r1 -> each s (holds v) r2) /\
       (each s irreducible r1 -> each s irreducible r2 -> b = false ->
          exists v, v NZero = 0 /\ solves eqn v [] /\ each s (holds v) r1 /\ ~ each s (holds v) r2))
    (fun e _ => e = Cyc_Bad_alloc) s.
Proof.
  intros Hi H1 H2. eapply wp_conseq; [by apply check_spec|]. intros b s' (Hi' & [_ Hk] & _ & [P1 P2]). by split_and!.
Qed.

(** C14. [Cyc_Relations_consistent_relations] decides whether such relations
    (constants below [2^31 - 1], also after the reduction of operands; static
    numbers set up) have an integer solution: it answers no only if no valuation
    satisfies them all, and when it answers yes on operands in reduced form there
    is one.  Every combination of the two sides of the [!=] relations is tried,
    each on a graph of its own. *)
Theorem relations_consistent_exact s l : rel_inv s -> each s settled l ->
  wp (Cyc_Relations_consistent_relations l)
    (fun b s' => rel_inv s' /\ (forall G ps cs, represents (pratt s) G ps cs -> represents (pratt s') G ps cs) /\
       (b = false -> forall v, valuation v -> solves eqn v [] -> ~ each s (holds v) l) /\
       (each s irreducible l -> b = true -> exists v, v NZero = 0 /\ solves eqn v [] /\ each s (holds v) l))
    (fun e _ => e = Cyc_Bad_alloc) s.
Proof.
  intros Hi Hl. eapply wp_conseq; [by apply consistent_spec|]. intros b s' (Hi' & [_ Hk] & _ & [D1 D2]). split; [done|]. split; [done|]. split; [|done].
  intros -> v Hv Hsol Hh. by specialize (D1 v Hv Hsol Hh).
Qed.
End theorems.

Section flow_theorems.
Context {H : Type} `{HH : Heap H} `{!HeapLaws H} {TY : Types} {TL : TypeLaws} {EX : Absyn} (self : Z).
Implicit Types (s : rel_mem H) (v : Node -> Z) (t : Reln) (l : rlist).

(** [Cyc_Relations_join_relns], where two paths of control meet, returns
    exactly the relations of the first list that the second list also has, up to
    the identity of operands; what holds on either path satisfies all of them.
    The lists share a first cell only if they are the same. *)
Theorem relations_join_exact s r1s r2s : rel_inv s -> present s r1s -> present s r2s -> (same_list r1s r2s = true -> r1s = r2s) ->
  wp (Cyc_Relations_join_relns self CYC_CORE_HEAP_REGION r1s r2s)
    (fun l s' => rel_inv s' /\ (forall r, r ∈ l.*2 <-> r ∈ r1s.*2 /\ matched s r r2s = true) /\
       forall v, respects v -> each s (holds v) r1s \/ each s (holds v) r2s -> each s' (holds v) l)
    (fun e _ => e = Cyc_Bad_alloc) s.
Proof.
  intros Hi H1 H2 Hsame. eapply wp_conseq; [by apply relns_join_spec|]. intros l s' (Hg & Hr & Hl). split; [apply Hg|]. split; [done|].
  intros v Hv Hh. apply each_elems, Forall_forall. intros r Hin. apply Hl in Hin as [Hin Hm]. rewrite Hr. destruct (present_elem _ _ _ H1 Hin) as [t Ht].
  exists t. split; [done|]. destruct Hh as [Hh|Hh]; [|by eapply matched_holds].
  apply list_elem_of_fmap in Hin as ([c r'] & -> & Hin). by eapply each_member.
Qed.

(** The operand mentions the variable [x] at most as [u], its addresses are words
    and it is not the new type. *)
Definition operand_ok (x tv : Z) (u r : RelnOp) : Prop :=
  (Cyc_Relations_rop_contains_var r x = true -> r = u) /\
  (match r with RVar y | RNumelts y => 0 <= y < 4294967296 | RType ty => eqn (NType ty) (NType tv) = false | _ => True end).

(** The valuation after [x] has become [a] and its size [b]; the new type stands
    for the old value of [u]. *)
Definition assigned v (x tv : Z) (u : RelnOp) (a b : Z) (z : Node) : Z :=
  if eqn z (NVar x) then a else if eqn z (NNumelts x) then b else if eqn z (NType tv) then value v u else v z.

Lemma eqn_words y x : 0 <= y < 4294967296 -> 0 <= x < 4294967296 -> eqn (NVar y) (NVar x) = (x =? y) /\ eqn (NNumelts y) (NNumelts x) = (x =? y).
Proof.
  intros Hy Hx. assert (E : (i32 (i32 y - i32 x) =? 0) = (x =? y)); [|by split].
  apply Bool.eq_iff_eq_true. rewrite !Z.eqb_eq, word_diff, !u32_small by done. done.
Qed.

Lemma assigned_value v x tv u a b r : 0 <= x < 4294967296 -> u = RVar x \/ u = RNumelts x -> operand_ok x tv u r ->
  value (assigned v x tv u a b) (Cyc_Relations_subst_rop_var r x (RType tv)) = value v r.
Proof.
  intros Hx Hu [Hc Hr].
  assert (Ht : assigned v x tv u a b (NType tv) = value v u).
  { unfold assigned. simpl. rewrite (id_refl _ node_identifies (NType tv)). done. }
  destruct r as [c|y|y|ty|i|i|]; simpl in *; try done.
  - destruct (x =? y) eqn:E; [simpl; rewrite Ht; by rewrite <- Hc|]. simpl. unfold assigned. by rewrite (proj1 (eqn_words y x Hr Hx)), E.
  - destruct (x =? y) eqn:E; [simpl; rewrite Ht; by rewrite <- Hc|]. simpl. unfold assigned. simpl. by rewrite (proj2 (eqn_words y x Hr Hx)), E.
  - unfold assigned. simpl. by rewrite Hr.
Qed.

Lemma assigned_respects v x tv u a b : respects v -> respects (assigned v x tv u a b).
Proof.
  intros [Hv _]. split; [|constructor]. intros z z' E. pose proof node_identifies as Hid. unfold assigned.
  assert (Hp : forall n, eqn z n = eqn z' n).
  { intros n. apply Bool.eq_iff_eq_true. split; intros E1; [apply (id_trans _ Hid z' z n); [by apply (id_sym _ Hid)|done]|by apply (id_trans _ Hid z z' n)]. }
  by rewrite !Hp, (Hv z z' E).
Qed.

(** C15. [Cyc_Relations_reln_kill_var], on an assignment to [x], forgets exactly
    what depends on the old value: whatever satisfied the relations before, with
    any new value [a] of the variable and any new size [b], and everything else as
    it was, the new relations are satisfied when the new type stands for the old
    value.  This holds if the relations mention [x] only as a variable or only
    through its size. *)
Theorem relations_kill_sound s l x tv u : rel_inv s -> 0 <= x < 4294967296 -> u = RVar x \/ u = RNumelts x ->
  each s (fun t => operand_ok x tv u (rop1 t) /\ operand_ok x tv u (rop2 t)) l ->
  wp (Cyc_Relations_reln_kill_var self CYC_CORE_HEAP_REGION l x tv)
    (fun l' s' => rel_inv s' /\ each s' (fun t => reln_contains t x = false) l' /\
       forall v a b, respects v -> each s (holds v) l -> respects (assigned v x tv u a b) /\ each s' (holds (assigned v x tv u a b)) l')
    (fun e _ => e = Cyc_Bad_alloc) s.
Proof.
  intros Hi Hx Hu Hl. eapply wp_conseq; [apply kill_spec; [done|by eapply each_weaken]|]. intros l' s' (Hg & Hp & Hiff). split; [apply Hg|]. split.
  - apply Hiff. eapply Forall_impl; [exact Hl|]. intros [c r] (t & Ht & _). exists t. split; [done|]. unfold reln_contains, kill. simpl.
    apply orb_false_iff. split; [destruct (rop1 t)|destruct (rop2 t)]; simpl; try done; by (destruct (x =? v) eqn:E; simpl).
  - intros v a b Hv Hh. split; [by apply assigned_respects|]. apply Hiff. unfold each in *. rewrite Forall_forall in Hl, Hh |- *. intros [c r] Hin.
    destruct (Hl _ Hin) as (t & Ht & [O1 O2]), (Hh _ Hin) as (t' & Ht' & Hhold). simplify_eq. exists t. split; [done|].
    unfold holds, kill in *. simpl. by rewrite !(assigned_value v x tv u a b).
Qed.
End flow_theorems.

(** ** Examples *)

(** The declaration 400 is a pointer whose bound is the value of the variable 200
    through a cast, the type 700 is the value of the constant 5. *)
Definition ex_bound : Exp := mk_Exp NoType (Cast_e (mk_Exp OtherType (Var_e 20))).

#[export] Instance ex_absyn : Absyn := {|
  compress t := t;
  type_view t := if t =? 700 then ValueofType (mk_Exp NoType (Int_c 5)) else OtherType;
  nonesc_vardecl b := if b =? 20 then Some 200 else None;
  is_const_exp e := false;
  eval_const_uint_exp e := (0, false);
  pointer_bounds v := if v =? 400 then Some 60 else None;
  bounds_one := 1;
  get_bounds_exp b := if b =? 60 then Some ex_bound else None
|}.

Lemma fixed_settled t : irreducible t -> small t -> settled t.
Proof. intros Hi Hs t' Hr. by rewrite (reduced_fixed t t' Hr Hi). Qed.

(** What is reduced once to an operand in reduced form. *)
Lemma once_settled t : small t -> irreducible (mk_Reln (Cyc_Relations_reduce_relnop (rop1 t)) (relation t) (Cyc_Relations_reduce_relnop (rop2 t))) ->
  small_op (Cyc_Relations_reduce_relnop (rop1 t)) -> small_op (Cyc_Relations_reduce_relnop (rop2 t)) -> settled t.
Proof.
  intros [S1 S2] [F1 F2] R1 R2 t' (_ & H1 & H2). simpl in *.
  assert (Hop : forall r r', small_op r -> small_op (Cyc_Relations_reduce_relnop r) ->
    Cyc_Relations_reduce_relnop (Cyc_Relations_reduce_relnop r) = Cyc_Relations_reduce_relnop r ->
    rtc (fun r r' => r' = Cyc_Relations_reduce_relnop r) r r' -> small_op r').
  { intros r r' Hr Hr1 Hf. destruct 1 as [|r r2 r3 -> Hrest]; [done|]. by rewrite (reduces_fixed _ _ Hrest Hf). }
  split; eauto.
Qed.

Definition ex_empty : rel_mem bump := mk_rel_mem ex_graph.2 ∅.

Lemma ex_empty_ok : rel_inv ex_empty.
Proof. split; [exact (proj1 ex_graph_ok)|]. intros r [t Ht]. exfalso. cbn [relns ex_empty] in Ht. rewrite lookup_empty in Ht. discriminate Ht. Qed.

Fixpoint add_all (ts : list Reln) (l : rlist) : ST (rel_mem bump) rlist :=
  match ts with
  | [] => mret l
  | t :: ts => l ← Cyc_Relations_add_relation 1 CYC_CORE_HEAP_REGION (rop1 t) (relation t) (rop2 t) l; add_all ts l
  end.

Lemma add_all_spec (P : Reln -> Prop) ts : Forall P ts -> forall l s, rel_inv s -> each s P l ->
  wp (add_all ts l) (fun l' s' => store_grows s s' /\ each s' P l') rel_oom s.
Proof.
  induction 1 as [|[a rl b] ts HP _ IH]; intros l s Hi Hl; simpl; [wps; split; [by apply store_grows_refl|done]|].
  wps. eapply wp_conseq; [apply add_relation_spec; [done|by eapply each_weaken]|]. intros l1 s1 (Hg & _ & Hall & _).
  eapply wp_conseq; [apply IH; [apply Hg|by apply Hall]|]. intros l2 s2 [Hg2 ?]. split; [by eapply store_grows_trans|done].
Qed.

(** Two lists of relations in one state. *)
Definition two_lists (ts1 ts2 : list Reln) : ST (rel_mem bump) (rlist * rlist) := l1 ← add_all ts1 []; l2 ← add_all ts2 []; mret (l1, l2).

Lemma two_lists_ok (P : Reln -> Prop) ts1 ts2 l1 l2 s : two_lists ts1 ts2 ex_empty = (Ret (l1, l2), s) -> Forall P ts1 -> Forall P ts2 ->
  rel_inv s /\ each s P l1 /\ each s P l2.
Proof.
  intros Hr H1 H2. assert (Hw : wp (two_lists ts1 ts2) (fun r s => rel_inv s /\ each s P r.1 /\ each s P r.2) rel_oom ex_empty).
  { unfold two_lists. wps. eapply wp_conseq; [apply add_all_spec; [exact H1|apply ex_empty_ok|constructor]|]. intros r1 s1 [Hg1 He1].
    wps. eapply wp_conseq; [apply add_all_spec; [exact H2|apply Hg1|constructor]|]. intros r2 s2 [Hg2 He2]. wps.
    split; [apply Hg2|]. split; [|done]. eapply each_grows; [apply Hg2|done]. }
  exact (wp_result _ _ _ _ _ _ Hw Hr).
Qed.

Lemma run_pair {A S} (x : out A * S) (a : A) : x.1 = Ret a -> x = (Ret a, x.2).
Proof. destruct x. by intros <-. Qed.

(** The facts [i < n] and [n <= numelts(p)], and the goals [i < numelts(p)] and
    [i < numelts(q)] where the bound of [q] is [n]. *)
Definition ex_facts : list Reln := [mk_Reln (RVar 100) Rlt (RVar 200); mk_Reln (RVar 200) Rlte (RNumelts 300)].
Definition ex_goal : list Reln := [mk_Reln (RVar 100) Rlt (RNumelts 300); mk_Reln (RVar 100) Rlt (RNumelts 400)].

Lemma ex_settled : Forall settled ex_facts /\ Forall settled ex_goal.
Proof.
  split; repeat (apply Forall_cons_2;
    [apply once_settled; [exact (conj I I)|exact (conj eq_refl eq_refl)|exact I|exact I]|]); apply Forall_nil_2.
Qed.

Lemma relations_implication_exact_witness : exists l1 l2 s s', two_lists ex_facts ex_goal ex_empty = (Ret (l1, l2), s) /\
  Cyc_Relations_check_logical_implication 1 l1 l2 s = (Ret true, s') /\
  forall v, valuation v -> solves eqn v [] -> each s (holds v) l1 -> each s (holds v) l2.
Proof.
  assert (Hr : exists l1 l2 s s', two_lists ex_facts ex_goal ex_empty = (Ret (l1, l2), s) /\ Cyc_Relations_check_logical_implication 1 l1 l2 s = (Ret true, s')).
  { eexists _, _, _, _. split.
    - apply run_pair. vm_compute. reflexivity.
    - apply run_pair. vm_compute. reflexivity. }
  destruct Hr as (l1 & l2 & s & s' & Hr & Hc). exists l1, l2, s, s'. split; [exact Hr|]. split; [exact Hc|].
  destruct (two_lists_ok settled _ _ _ _ _ Hr) as (Hi & H1 & H2);
    [apply ex_settled..|].
  pose proof (relations_implication_exact 1 s l1 l2 Hi H1 H2) as Hw. exact (proj1 (proj2 (proj2 (wp_result _ _ _ _ _ _ Hw Hc))) eq_refl).
Defined.

(** [x != 0], [0 <= x] and [x <= 1] have a solution. *)
Lemma relations_consistent_exact_witness : exists l1 l2 s s', two_lists [mk_Reln (RVar 100) Rneq (RConst 0); mk_Reln (RConst 0) Rlte (RVar 100)] [] ex_empty = (Ret (l1, l2), s) /\
  Cyc_Relations_consistent_relations l1 s = (Ret true, s') /\ exists v, v NZero = 0 /\ solves eqn v [] /\ each s (holds v) l1.
Proof.
  assert (Hr : exists l1 l2 s s', two_lists [mk_Reln (RVar 100) Rneq (RConst 0); mk_Reln (RConst 0) Rlte (RVar 100)] [] ex_empty = (Ret (l1, l2), s) /\
    Cyc_Relations_consistent_relations l1 s = (Ret true, s')).
  { eexists _, _, _, _. split.
    - apply run_pair. vm_compute. reflexivity.
    - apply run_pair. vm_compute. reflexivity. }
  destruct Hr as (l1 & l2 & s & s' & Hr & Hc). exists l1, l2, s, s'. split; [exact Hr|]. split; [exact Hc|].
  destruct (two_lists_ok settled _ _ _ _ _ Hr) as (Hi & H1 & _);
    [|apply Forall_nil_2|].
  { repeat (apply Forall_cons_2; [apply fixed_settled; [exact (conj eq_refl eq_refl)|]|]);
      [split; simpl; unfold small_const; first [exact I|lia]..|apply Forall_nil_2]. }
  destruct (two_lists_ok irreducible _ _ _ _ _ Hr) as (_ & I1 & _); [repeat constructor|constructor|].
  pose proof (relations_consistent_exact s l1 Hi H1) as Hw. exact (proj2 (proj2 (proj2 (wp_result _ _ _ _ _ _ Hw Hc))) I1 eq_refl).
Defined.

Lemma relations_join_exact_witness : exists l1 l2 s l s', two_lists ex_facts [mk_Reln (RVar 200) Rlte (RNumelts 300)] ex_empty = (Ret (l1, l2), s) /\
  Cyc_Relations_join_relns 1 CYC_CORE_HEAP_REGION l1 l2 s = (Ret l, s') /\ length l = 1%nat /\
  forall v, respects v -> each s (holds v) l1 \/ each s (holds v) l2 -> each s' (holds v) l.
Proof.
  assert (Hr : exists l1 l2 s l s', two_lists ex_facts [mk_Reln (RVar 200) Rlte (RNumelts 300)] ex_empty = (Ret (l1, l2), s) /\
    Cyc_Relations_join_relns 1 CYC_CORE_HEAP_REGION l1 l2 s = (Ret l, s') /\ length l = 1%nat /\ (same_list l1 l2 = true -> l1 = l2)).
  { eexists _, _, _, _, _. split_and!.
    - apply run_pair. vm_compute. reflexivity.
    - apply run_pair. vm_compute. reflexivity.
    - reflexivity.
    - intros Hs. vm_compute in Hs. discriminate Hs. }
  destruct Hr as (l1 & l2 & s & l & s' & Hr & Hc & Hl & Hs). exists l1, l2, s, l, s'. split; [exact Hr|]. split; [exact Hc|]. split; [exact Hl|].
  destruct (two_lists_ok (fun _ => True) _ _ _ _ _ Hr) as (Hi & H1 & H2); [repeat constructor|repeat constructor|].
  pose proof (relations_join_exact 1 s l1 l2 Hi H1 H2 Hs) as Hw. exact (proj2 (proj2 (wp_result _ _ _ _ _ _ Hw Hc))).
Defined.

(** The assignment to [i]. *)
Lemma relations_kill_sound_witness : exists l1 l2 s l s', two_lists ex_facts [] ex_empty = (Ret (l1, l2), s) /\
  Cyc_Relations_reln_kill_var 1 CYC_CORE_HEAP_REGION l1 100 500 s = (Ret l, s') /\
  forall v a b, respects v -> each s (holds v) l1 -> each s' (holds (assigned v 100 500 (RVar 100) a b)) l.
Proof.
  assert (Hr : exists l1 l2 s l s', two_lists ex_facts [] ex_empty = (Ret (l1, l2), s) /\
    Cyc_Relations_reln_kill_var 1 CYC_CORE_HEAP_REGION l1 100 500 s = (Ret l, s')).
  { eexists _, _, _, _, _. split.
    - apply run_pair. vm_compute. reflexivity.
    - apply run_pair. vm_compute. reflexivity. }
  destruct Hr as (l1 & l2 & s & l & s' & Hr & Hc). exists l1, l2, s, l, s'. split; [exact Hr|]. split; [exact Hc|].
  destruct (two_lists_ok (fun t => operand_ok 100 500 (RVar 100) (rop1 t) /\ operand_ok 100 500 (RVar 100) (rop2 t)) _ _ _ _ _ Hr) as (Hi & H1 & _).
  { repeat constructor; simpl; (done || lia). }
  { constructor. }
  pose proof (relations_kill_sound 1 s l1 100 500 (RVar 100) Hi ltac:(lia) (or_introl eq_refl) H1) as Hw.
  intros v a b Hv Hh. exact (proj2 (proj2 (proj2 (wp_result _ _ _ _ _ _ Hw Hc)) v a b Hv Hh)).
Defined.

(** ** What goes wrong *)

(** The check on facts and goals in the order of a list, in an arithmetic state. *)
Definition store_of (ts : list Reln) : gmap Z Reln := list_to_map (imap (fun n t => (9000 + Z.of_nat n, t)) ts).
Definition list_of (first n : nat) : rlist := (fun k => (8000 + Z.of_nat k, 9000 + Z.of_nat k)) <$> seq first n.
Definition relations_in (a : ap_mem bump) (ts : list Reln) : rel_mem bump := mk_rel_mem (mk_pratt_mem a ∅ ∅) (store_of ts).

Definition ex_check (a : ap_mem bump) (ts : list Reln) (n : nat) : out bool :=
  (Cyc_Relations_check_logical_implication 1 (list_of 0 n) (list_of n (length ts - n)) (relations_in a ts)).1.

(** A constant of [2^31] or more, which relations-ap.h says is unsigned, is a
    negative number next to a variable, but not next to another constant: from [x <= 4294967295] and [0 <= x], which every
    unsigned [x] satisfies, anything follows. *)
Example large_constant : ex_check ex_two [mk_Reln (RVar 100) Rlte (RConst 4294967295); mk_Reln (RConst 0) Rlte (RVar 100); mk_Reln (RVar 100) Rlt (RVar 100)] 2 = Ret true /\
  ex_check ex_two [mk_Reln (RConst 0) Rlte (RConst 4294967295)] 0 = Ret true.
Proof. by vm_compute. Qed.

(** When [x != y] is the first relation the process ever checks, the static number
    that is negated for it is still null and an assertion fails. *)
Example one_uninitialized : ex_check ex_ap [mk_Reln (RVar 100) Req (RVar 200)] 0 = Exit "x" /\
  ex_check ex_two [mk_Reln (RVar 100) Req (RVar 200)] 0 = Ret false.
Proof. by vm_compute. Qed.

(** Killing a variable of which both the value and the size are known gives both
    the same new type, and consistent relations become inconsistent. *)
Definition ex_killed : list Reln := [mk_Reln (RVar 100) Req (RConst 3); mk_Reln (RNumelts 100) Req (RConst 5)].

Example kill_conflates : (Cyc_Relations_consistent_relations (list_of 0 2) (relations_in ex_two ex_killed)).1 = Ret true /\
  ((l ← Cyc_Relations_reln_kill_var 1 CYC_CORE_HEAP_REGION (list_of 0 2) 100 500; Cyc_Relations_consistent_relations l) (relations_in ex_two ex_killed)).1 = Ret false.
Proof. by vm_compute. Qed.
